(* ===== verification/_CoqProject ===== *)
-Q . S2P
Prelude.v
Poly.v
GF256.v
EcGf8.v
EcCodeC.v
EcBodies.v
EcMuladd.v
EcGalois.v
EcMatrix.v
EcInverse.v
EcCombine.v
EcProgram.v
EcDynamic.v
EcGenerated.v
EcBuild.v
EcMethod.v
EcCoding.v
EcCache.v
EcRoundTrip.v
EcCacheClaims.v
PlCommon.v
PlMerge.v
PlFuel.v
PlExact.v
PlPosix.v
PlInvariant.v
PlLive.v
PlClaims.v
CrHash.v
CrBucket.v
CrMapper.v
CrPerm.v
CrChoose.v
CrStraw2.v
CrMap.v
CrFirstn.v
CrIndep.v
CrRule.v
CrClaims.v
Doubles.v
CrBuilder.v
CrBuildOps.v
CrBuildMap.v
CrBuildArrays.v
CrBuildStraw.v
CrBuildTree.v
CrBuildRefine.v
CrBuildChange.v
CrBuildRemove.v
CrBuildAdjust.v
CrBuildWf.v
CrBuildReweight.v
CrBuildSteps.v
CrBuildArgs.v
CrBuildClaims.v
PbAddress.v
PbFiemap.v
PbTrace.v
PbTraceClaims.v
Striper.v
StriperLayout.v
StriperExtents.v
StriperRead.v
StriperClaims.v
DhtHash.v
DhtLayout.v
DhtRanges.v
DhtSelfheal.v
DhtDirectory.v
DhtMkdir.v
DhtOverlap.v
DhtClaims.v
PlInodelk.v
PlInodelkStore.v
PlInodelkOps.v
PlInodelkWorld.v
PlInodelkEffects.v
PlInodelkCalls.v
PlInodelkSetlk.v
PlInodelkClaims.v
