(* ===== verification/Prelude.v ===== *)
(** * Verification of the storage algorithms of csd-filesystem

    The repository bundles three storage systems (GlusterFS, Ceph, MinIO) and
    the services of api-server and filesystem_manager.  This development models
    algorithmic cores of the first two and of api-server, function by function:

    - the erasure code of dispersed GlusterFS volumes
      (src/distributed_filesystem/glusterfs/xlators/cluster/ec/src);
    - the POSIX byte-range locks and the inode locks of GlusterFS bricks
      (src/distributed_filesystem/glusterfs/xlators/features/locks/src);
    - the hash ranges that distribute files over GlusterFS subvolumes
      (src/distributed_filesystem/glusterfs/xlators/cluster/dht/src and
      libglusterfs/src/hashfn.c);
    - CRUSH, the placement of objects on devices in Ceph, with the builder of
      its maps (src/distributed_filesystem/ceph/src/crush);
    - the striping of Ceph files over objects
      (src/distributed_filesystem/ceph/src/osdc/Striper.cc);
    - the physical addresses of file offsets (src/api-server).

    ** Conventions

    A C array is a list; reading ([rd]) or writing ([wr]) outside of it, a null
    pointer and a failed assertion have no result: [None] in the option monad,
    [Fault] in the outcome monad of this file.  Loops are [for_up], structural
    recursion, or recursion on fuel; running out of fuel is [NoFuel], and the
    theorems show that it does not happen on well-formed input.  Integers are
    [Z], cut to their width ([u8], [u16], [u32], [s32], [u64], [s64]) where the
    width matters.  Allocations that may
    fail are a list of answers ([mem]).  The name of a definition is the name in
    the source; a loop or a part of a function that has a definition of its own
    is named after it.

    ** The erasure code

    A stripe of data is split into n chunks of 512 bytes, encoded with a
    Vandermonde matrix over GF(2^8) into R fragments, and decoded from any n of
    them with the inverse matrix; matrices are cached.
    - [Poly]: polynomials over a field, interpolation.  [GF256]: the field.
    - [EcGf8] (ec-gf8.c): 256 programs of register operations that multiply;
      [EcProgram] proves them.  [EcCodeC] (ec-code-c.c): 256 functions on
      bit-sliced chunks; [EcBodies] and [EcMuladd] prove them.
    - [EcGalois] (ec-galois.c): logarithm tables and the field operations.
    - [EcMatrix], [EcInverse] (ec-method.c): the matrix and its inverse.
    - [EcCombine] (ec-code-c.c): sums of multiplied chunks.  [EcDynamic],
      [EcGenerated], [EcBuild] (ec-code.c): the same by generated code;
      [linear_func] and [interleaved_func] are the contracts that both
      implementations meet and that the encoder and the decoder rely on.
    - [EcMethod] (ec-method.c): the cache of matrices, initialisation, encoding,
      decoding; [EcCoding], [EcCache], [EcRoundTrip], [EcCacheClaims]: decoding
      inverts encoding at every state of the cache, and the cache is sound.

    ** Locks

    An inode has a list of granted and waiting locks.  A request is merged with
    the locks of its owner, waits, or is refused; each change gives the waiting
    requests another chance.  A call is a sequence of sections under the mutex of
    the inode; [pl_step] has whole calls and single sections, so that the theorems
    on reachable states cover every interleaving, while those on progress
    ([live_step]) are on calls one after another.
    - [PlCommon] (common.c): the list and its merging; [PlPosix] (posix.c,
      common.c, reservelk.c): requests, mandatory locking, reservations, close.
    - [PlMerge], [PlExact]: merging against a byte-wise specification, what every
      owner [holds].  [PlFuel]: the recursion of the merge ends within the bound
      [merge_fuel], 1 + 2(n+1)^2 calls for a list of n locks, by a rank on the
      ends of the ranges.
    - [PlInvariant]: the step relation of an inode and the invariant that no
      byte is locked twice in conflicting ways.  [PlLive]: without
      allocation failures and reservations every operation returns, and each
      waiting lock overlaps a granted one.  [PlClaims]: the theorems, and runs
      that show defects; one of them is the downgrade of a write lock besides
      other readers, which the exact theorems exclude ([downgrade_safe]).

    ** Inode locks (inodelk.c)

    Translators above a brick lock ranges of an inode in named domains.  A lock
    is shared by the lists of its domain and of its client and by the calls that
    have a reference to it; it is freed with the last reference.  A call is a
    list of tasks, one for each critical section; tasks of different calls are
    interleaved without restriction, and the use of a lock that is freed is a
    [Fault].  Removals of the file (common.c) wait for locks of other clients.
    - [PlInodelk] (inodelk.c, clear.c, common.c, posix.c): the locks, the tasks
      and the step relation on a [world], an inode with its running calls; fewer
      than 2^32 removals run at a time.
    - [PlInodelkStore]: references counted exactly over lists and calls.
      [PlInodelkOps]: granting, waiting and removals on one inode.
      [PlInodelkWorld]: the invariant of worlds, and the [effect] that each task
      has to have for it.  [PlInodelkEffects], [PlInodelkCalls],
      [PlInodelkSetlk]: every task has it, and the invariant holds in every
      reachable world.
    - [PlInodelkClaims]: exclusion, no use after free, no reference lost or
      leaked, no lock or removal that waits for nothing, removals alone,
      disconnections complete.  They hold without revocation, without orders to
      clear locks (which race with disconnections, as a run there shows), and
      while there is memory for the stubs of waiting removals.

    ** Hash ranges of directories (dht)

    A directory has a layout: for each subvolume a range of 32-bit hashes; a file
    is on the subvolume whose range has the hash of its name.  Layouts are
    assigned to new directories, written as attributes, read back by lookups,
    checked for holes and overlaps, and reassigned.
    - [DhtHash] (hashfn.c, dht-hashfn.c): the hashes of names.  [DhtLayout]
      (dht-layout.c): layouts, their disk format, merging and anomalies.
      [DhtSelfheal] (dht-selfheal.c): ranges for new and changed directories.
      [qsort] is a merge sort on fuel, the length of the list.  [Doubles]: the
      rounding shared with the builder of CRUSH maps.
    - [DhtRanges]: layouts that pass the check send each hash to one subvolume.
      [DhtDirectory]: the ranges of a new directory go once around the hashes;
      the equal shares are computed in doubles, and checked by computation for
      up to 1024 bricks.  [DhtMkdir]: written to all subvolumes and read back in
      any order they are the same layout.  [DhtOverlap]: exchanges of ranges
      keep the layout, and no fewer hashes stay with their old subvolume.  [DhtClaims]: the theorems, and
      runs that show defects.

    ** CRUSH

    A map is a hierarchy of buckets; a rule walks from a bucket down to devices,
    trying again when an item collides or is out.
    - [CrHash] (hash.c, crush_ln): hashes, and the logarithm table with its
      bounds.  [CrBucket]: the five bucket algorithms.  [CrMapper]: choosing
      first-n and by position, rules, the working area.
    - [CrPerm]: the cached permutation of a bucket is a function of the input.
      [CrChoose]: every algorithm answers with an item of its bucket.
      [CrStraw2]: data movement.  [CrMap]: well-formed maps, and the relation
      [agree] between two runs from different working areas.  [CrFirstn],
      [CrIndep], [CrRule]: the loops end within the fuel of [replica_fuel] and
      [position_fuel] (failures are bounded by the tries, and between two
      failures a descent visits every bucket at most once) and keep their
      promises; [height_fuel], 9, is above the height of a tree whose number of
      nodes is a byte.  [CrClaims]: the theorems on whole rules.

    ** Building CRUSH maps (builder.c)

    Buckets are made from items and weights, changed item by item, and collected
    into a map; sums, tree nodes and straw lengths are kept beside the weights.
    The content of fresh memory, [pow] and conversions out of range are
    parameters; doubles are the [spec_float]s of the Standard Library.
    - [CrBuilder]: arithmetic checks, tree positions, straw lengths.
      [CrBuildOps]: making buckets, adding, removing and adjusting items.
      [CrBuildMap]: maps, rules, finalizing, reweighting, choose_args.  The
      loops on fuel are the depth of a tree (32, the width of an int),
      [grow_fuel] (32 doublings of an int) and the recursion of reweighting
      (fuel above the number of buckets, which bounds the depth).
    - [CrBuildArrays], [CrBuildStraw], [CrBuildTree]: what the loops compute.
      [CrBuildRefine], [CrBuildChange], [CrBuildRemove], [CrBuildAdjust]: each
      operation against the list of items and weights that a bucket
      [represents].  [CrBuildWf], [CrBuildSteps]: the invariant of maps under
      construction and the steps of the builder, without tree buckets, calls that
      fail for want of memory in the arrays of the map, and removals from uniform
      and list buckets, after which the arrays are not what the code takes them
      for ([build_step]).  [CrBuildReweight]: weights of
      a hierarchy.  [CrBuildArgs]: choose_args.  [CrBuildClaims]: the theorems,
      up to mappings on built maps, and runs that show defects.

    ** Striped files (Striper.cc)

    A file is cut into blocks, dealt out over sets of objects; reads collect the
    pieces of the objects and put them together.
    - [Striper]: the arithmetic of extents and the assembly of results, in 64-bit
      numbers with failing assertions; [file_to_extents] has fuel for each block
      of the range, length / stripe unit + 3.
    - [StriperLayout]: where a byte is, and back.  [StriperExtents]: the pieces of
      a range, grouped by object.  [StriperRead]: assembling partial, possibly
      short or sparse, answers.  [StriperClaims]: the theorems, up to a striped
      read that gives back the bytes of the file.

    ** Physical addresses (api-server)

    Workers read the extents of files from the kernel, managers join them, and
    agents answer which physical bytes a range of a file has.
    - [PbAddress] (lba2pba_manager.py, lba2pba_query_agent.py, db_agent.py):
      joining and looking up, against the sequence of physical bytes.
      [PbFiemap] (worker.py, lba2pba_worker.py): the FIEMAP request and its
      answer, and the way from the kernel to the answer of the agent; the ioctl
      is a parameter with its documented behaviour ([fiemap_answers]).
    - [PbTrace] (trace.py): the service that keeps the extents of all nodes;
      handlers may raise and keep what they did before; they run one after
      another, where the server has ten threads and no lock.  [PbTraceClaims]: in
      every reachable state each record has an entry, and the two dictionaries
      agree if no shell command raises; the first scan orders the shards; reports
      about shards are refused; a run shows what two overlapping handlers do.

    ** What is not modelled

    The rest of the systems: dispatching of operations to bricks and self-heal,
    the encoding of generated machine instructions and the memory they are put
    in, entry locks, lock migration, references and inode contexts of dht
    layouts, the operations of dht and its rebalancing, replication, the C++
    classes around CRUSH maps (names, text format, encoding), the object cacher,
    daemons, protocols and caches: code driven by callbacks over the network and
    the disk, in which little but calls of code outside is left to state.  MinIO
    takes its erasure code from a package that is not in the repository.  Orders
    to clear locks and revocation are modelled, without theorems on worlds that
    have them, because the code does not keep the invariant there.  In api-server
    the file manager, the watcher of directories, and all shell commands and
    network requests, whose answers are arguments.  Time, client state and
    memory exhaustion are arguments; pointers are numbers. *)
From Stdlib Require Export ZArith Lia Bool.
From stdpp Require Export base list option numbers sets.
#[global] Open Scope Z_scope.

(** ** C integers *)

Definition u32 (x : Z) : Z := x mod 2 ^ 32.

Definition u64 (x : Z) : Z := x mod 2 ^ 64.

Definition s32 (x : Z) : Z := (x + 2 ^ 31) mod 2 ^ 32 - 2 ^ 31.

Lemma u32_range x : 0 <= u32 x < 2 ^ 32.
Proof. unfold u32. apply Z.mod_pos_bound. lia. Qed.

Lemma u32_small x : 0 <= x < 2 ^ 32 -> u32 x = x.
Proof. intros. unfold u32. by rewrite Z.mod_small. Qed.

Lemma u64_small x : 0 <= x < 2 ^ 64 -> u64 x = x.
Proof. intros. unfold u64. by rewrite Z.mod_small. Qed.

Lemma s32_small x : - 2 ^ 31 <= x < 2 ^ 31 -> s32 x = x.
Proof. intros. unfold s32. rewrite Z.mod_small; lia. Qed.

(** ** C arrays: an access out of bounds is undefined behaviour, [None] *)

Definition rd {A} (a : list A) (i : Z) : option A :=
  if 0 <=? i then a !! Z.to_nat i else None.

Definition wr {A} (a : list A) (i : Z) (x : A) : option (list A) :=
  if (0 <=? i) && (i <? Z.of_nat (length a)) then Some (<[Z.to_nat i := x]> a) else None.

(** ** Bounded quantification decided by computation *)

Definition range (n : nat) : list Z := Z.of_nat <$> seq 0 n.

Definition all_below (n : nat) (f : Z -> bool) : bool := forallb f (range n).

Lemma elem_of_range n x : x ∈ range n <-> 0 <= x < Z.of_nat n.
Proof.
  unfold range. rewrite list_elem_of_fmap. split.
  - intros (k & -> & Hk%elem_of_seq). lia.
  - intros H. exists (Z.to_nat x). rewrite elem_of_seq. lia.
Qed.

Lemma all_below_spec n f :
  all_below n f = true -> forall x, 0 <= x < Z.of_nat n -> f x = true.
Proof.
  unfold all_below. rewrite forallb_forall. intros H x Hx.
  apply H, list_elem_of_In, elem_of_range, Hx.
Qed.

Lemma all_below_dec n (P : Z -> Prop) `{forall x, Decision (P x)} :
  all_below n (fun x => bool_decide (P x)) = true -> forall x, 0 <= x < Z.of_nat n -> P x.
Proof. intros Hb x Hx. eapply bool_decide_eq_true_1, (all_below_spec _ _ Hb), Hx. Qed.

(** ** Bits *)

Lemma lxor_range w a b :
  0 <= w -> 0 <= a < 2 ^ w -> 0 <= b < 2 ^ w -> 0 <= Z.lxor a b < 2 ^ w.
Proof.
  intros Hw Ha Hb. assert (Hnn : 0 <= Z.lxor a b) by (apply Z.lxor_nonneg; lia).
  assert (Hs : Z.shiftr (Z.lxor a b) w = 0).
  { rewrite Z.shiftr_lxor, !Z.shiftr_div_pow2, !Z.div_small by lia. done. }
  rewrite Z.shiftr_div_pow2 in Hs by lia. apply Z.div_small_iff in Hs; lia.
Qed.

(** ** C loops over the option monad *)

(** [n] iterations of [f] from index [i] up:
    [for (j = i; j < i + n; j++) s = f(j, s);] *)
Fixpoint for_up {S} (n : nat) (i : Z) (f : Z -> S -> option S) (s : S) : option S :=
  match n with
  | O => Some s
  | Datatypes.S n => s' ← f i s; for_up n (i + 1) f s'
  end.

(** Error codes returned in place of a pointer: [EC_ERR] and the like. *)
Definition EINVAL : Z := 22.
Definition ENOMEM : Z := 12.

Lemma rd_Some {A} (a : list A) (i : Z) :
  0 <= i < Z.of_nat (length a) -> exists x, rd a i = Some x /\ a !! Z.to_nat i = Some x.
Proof.
  intros Hi. unfold rd. rewrite (proj2 (Z.leb_le 0 i)) by lia.
  destruct (lookup_lt_is_Some_2 a (Z.to_nat i)) as [x Hx]; [lia|]. eauto.
Qed.

Lemma rd_lookup {A} (a : list A) (i : nat) : rd a (Z.of_nat i) = a !! i.
Proof.
  unfold rd. rewrite (proj2 (Z.leb_le 0 (Z.of_nat i))) by lia. by rewrite Nat2Z.id.
Qed.

Lemma list_as_fun {A} `{Inhabited A} (l : list A) n :
  length l = n -> l = (fun i => l !!! i) <$> seq 0 n.
Proof.
  intros <-. apply (list_eq_same_length _ _ (length l)); [by rewrite length_fmap, length_seq|done|].
  intros i x y Hi Hx Hy. rewrite list_lookup_fmap, lookup_seq_lt in Hy by done.
  simpl in Hy. rewrite (list_lookup_total_correct _ _ _ Hx) in Hy. congruence.
Qed.

Lemma wr_Some {A} (a : list A) (i : Z) x :
  0 <= i < Z.of_nat (length a) -> wr a i x = Some (<[Z.to_nat i := x]> a).
Proof.
  intros Hi. unfold wr.
  rewrite (proj2 (Z.leb_le 0 i)), (proj2 (Z.ltb_lt i (Z.of_nat (length a)))) by lia. done.
Qed.

Lemma wr_app {A} (l r : list A) x y p :
  p = Z.of_nat (length l) -> wr (l ++ x :: r) p y = Some (l ++ y :: r).
Proof.
  intros ->. rewrite wr_Some by (rewrite length_app; simpl; lia). f_equal.
  rewrite Nat2Z.id, insert_app_r_alt by lia. by rewrite Nat.sub_diag.
Qed.

Lemma rd_app {A} (l r : list A) x p :
  p = Z.of_nat (length l) -> rd (l ++ x :: r) p = Some x.
Proof. intros ->. rewrite rd_lookup, lookup_app_r, Nat.sub_diag by lia. done. Qed.

Lemma rd_total `{Inhabited A} (a : list A) (i : Z) :
  0 <= i < Z.of_nat (length a) -> rd a i = Some (a !!! Z.to_nat i).
Proof.
  intros Hi. destruct (rd_Some a i Hi) as (x & -> & Hx). by rewrite (list_lookup_total_correct _ _ _ Hx).
Qed.

(** An invariant of a loop that never fails. *)
Lemma for_up_inv {S} (P : Z -> S -> Prop) n i f (s : S) :
  P i s ->
  (forall j s, i <= j < i + Z.of_nat n -> P j s -> exists s', f j s = Some s' /\ P (j + 1) s') ->
  exists s', for_up n i f s = Some s' /\ P (i + Z.of_nat n) s'.
Proof.
  revert i s. induction n as [|n IH]; intros i s Hs Hf.
  - exists s. split; [done|]. by rewrite Z.add_0_r.
  - destruct (Hf i s ltac:(lia) Hs) as (s1 & E & H1).
    destruct (IH (i + 1) s1 H1) as (s2 & E2 & H2).
    { intros j t Hj Ht. apply Hf; [lia|done]. }
    exists s2. cbn [for_up]. rewrite E. cbn. split; [done|].
    replace (i + Z.of_nat (Datatypes.S n)) with (i + 1 + Z.of_nat n) by lia. done.
Qed.

(** [loop_inv P H] instantiates [for_up_inv] at the first loop of the goal. *)
Ltac loop_inv P H :=
  lazymatch goal with
  | |- context [for_up ?n ?i ?f ?s] => pose proof (for_up_inv P n i f s) as H
  end.

Lemma wr_spec {A} (a : list A) (i : Z) x :
  0 <= i < Z.of_nat (length a) ->
  exists a', wr a i x = Some a' /\ length a' = length a /\
             forall k, rd a' k = if decide (k = i) then Some x else rd a k.
Proof.
  intros Hi. exists (<[Z.to_nat i := x]> a). rewrite wr_Some, length_insert by done.
  split; [done|split; [done|]]. intros k. unfold rd. destruct (Z.leb_spec 0 k).
  - case_decide; subst; [apply list_lookup_insert_eq; lia|apply list_lookup_insert_ne; lia].
  - rewrite decide_False by lia. done.
Qed.

Lemma rd_ext {A} (a b : list A) :
  length a = length b -> (forall k, 0 <= k < Z.of_nat (length a) -> rd a k = rd b k) -> a = b.
Proof.
  intros Hl H. apply list_eq. intros k. destruct (decide (k < length a)%nat).
  - rewrite <- !rd_lookup. apply H. lia.
  - by rewrite !lookup_ge_None_2 by lia.
Qed.

(** ** Matrices stored row after row *)

Lemma Z_idx_inj n i j t u : 0 <= i < n -> 0 <= j < n -> i + t * n = j + u * n -> i = j /\ t = u.
Proof.
  intros Hi Hj H. destruct (Z.div_mod_unique n t u i j) as [-> ->]; [lia..|done].
Qed.

Lemma length_concat_rows {A} (n : nat) (rows : list (list A)) :
  Forall (fun r => length r = n) rows -> length (concat rows) = (length rows * n)%nat.
Proof. induction 1; simpl; [done|]. rewrite length_app. lia. Qed.

Lemma concat_lookup {A} (n : nat) (rows : list (list A)) t i r :
  Forall (fun r => length r = n) rows -> rows !! t = Some r -> (i < n)%nat ->
  concat rows !! (i + t * n)%nat = r !! i.
Proof.
  intros HF. revert t. induction HF as [|r0 rows Hr0 HF IH]; intros t Ht Hi; [done|].
  destruct t as [|t]; simplify_eq/=.
  - rewrite Nat.add_0_r, lookup_app_l by lia. done.
  - rewrite lookup_app_r by lia. rewrite <- (IH t) by done. f_equal. lia.
Qed.

Lemma rd_concat {A} (n : nat) (rows : list (list A)) tl t i r :
  Forall (fun r => length r = n) rows -> rows !! t = Some r -> (i < n)%nat ->
  rd (concat rows ++ tl) (Z.of_nat i + Z.of_nat t * Z.of_nat n) = r !! i.
Proof.
  intros HF Ht Hi. rewrite <- Nat2Z.inj_mul, <- Nat2Z.inj_add, rd_lookup.
  apply lookup_lt_Some in Ht as Hl.
  rewrite lookup_app_l by (rewrite (length_concat_rows n) by done; nia).
  by apply concat_lookup.
Qed.

(** ** Outcomes: a result, a use of memory that is not there, or not enough fuel *)

Inductive outcome (A : Type) : Type := Done (a : A) | Fault | NoFuel.
Arguments Done {A} a.
Arguments Fault {A}.
Arguments NoFuel {A}.

#[global] Instance outcome_bind : MBind outcome := fun A B f x =>
  match x with Done a => f a | Fault => Fault | NoFuel => NoFuel end.

(** An access that has to succeed. *)
Definition need {A} (x : option A) : outcome A :=
  match x with Some a => Done a | None => Fault end.

(** The next allocations: [false] fails; allocations after the end of the list succeed. *)
Definition mem : Type := list bool.

Definition alloc (m : mem) : bool * mem :=
  match m with [] => (true, []) | b :: m => (b, m) end.

(** The call ends: with a result that satisfies [P], or in a fault. *)
Definition ends_with {A} (P : A -> Prop) (r : outcome A) : Prop :=
  match r with Done a => P a | Fault => True | NoFuel => False end.

Lemma ends_bind {A B} (P : A -> Prop) (Q : B -> Prop) (r : outcome A) (f : A -> outcome B) :
  ends_with P r -> (forall a, P a -> ends_with Q (f a)) -> ends_with Q (r ≫= f).
Proof. destruct r; cbn; auto. Qed.

Lemma ends_mono {A} (P Q : A -> Prop) (r : outcome A) : ends_with P r -> (forall a, P a -> Q a) -> ends_with Q r.
Proof. destruct r; cbn; auto. Qed.

(** The call returns, with a result that satisfies [P]. *)
Definition returns {A} (P : A -> Prop) (r : outcome A) : Prop := exists a, r = Done a /\ P a.

Lemma returns_bind {A B} (P : A -> Prop) (Q : B -> Prop) (r : outcome A) (f : A -> outcome B) :
  returns P r -> (forall a, P a -> returns Q (f a)) -> returns Q (r ≫= f).
Proof. intros (a & -> & Ha) H. apply H, Ha. Qed.

Lemma returns_done {A} (P : A -> Prop) a : P a -> returns P (Done a).
Proof. by exists a. Qed.

Lemma returns_mono {A} (P Q : A -> Prop) (r : outcome A) : returns P r -> (forall a, P a -> Q a) -> returns Q r.
Proof. intros (a & -> & Ha) H. exists a. auto. Qed.

Lemma returns_need {A} (P : A -> Prop) (x : option A) a : x = Some a -> P a -> returns P (need x).
Proof. intros -> Ha. by exists a. Qed.

(** Runs the monadic steps that have become results. *)
Ltac run := cbn [need mbind outcome_bind option_bind].
