(* ===== verification/Poly.v ===== *)
(** * Polynomials with coefficients listed from the highest degree down

    Evaluation, division by a linear factor, the bound on the number of roots
    and Lagrange interpolation, over any field with decidable equality.  This
    is the mathematics behind [ec_method_matrix_inverse]. *)
From Stdlib Require Import Ring Field.
From S2P Require Import Prelude.

(** What the arithmetic promises to the matrix algorithms. *)
Class IsField (K : Type) := {
  k0 : K; k1 : K;
  kadd : K -> K -> K; kmul : K -> K -> K; ksub : K -> K -> K; kopp : K -> K;
  kdiv : K -> K -> K; kinv : K -> K;
  k_dec :: EqDecision K;
  k_field : field_theory k0 k1 kadd kmul ksub kopp kdiv kinv eq }.

Section Poly.
Context {K : Type} {KF : IsField K}.
Add Field Kf : k_field.

Notation "0" := k0.
Notation "1" := k1.
Infix "+" := kadd.
Infix "*" := kmul.
Infix "-" := ksub.
Infix "/" := kdiv.

Lemma k_integral a b : a * b = 0 -> a = 0 \/ b = 0.
Proof.
  intros H. destruct (decide (a = 0)) as [|Ha]; [by left|right].
  assert (E : b = kinv a * (a * b)) by (field; done). rewrite E, H. ring.
Qed.

Lemma k_sub_eq a b : a - b = 0 -> a = b.
Proof. intros H. assert (E : a = (a - b) + b) by ring. rewrite E, H. ring. Qed.

(** ** Evaluation *)

Definition horner (x acc : K) (p : list K) : K := fold_left (fun acc c => acc * x + c) p acc.
Definition peval (p : list K) (x : K) : K := horner x 0 p.

Lemma horner_nil x acc : horner x acc [] = acc.
Proof. done. Qed.

Lemma horner_cons x acc c p : horner x acc (c :: p) = horner x (acc * x + c) p.
Proof. done. Qed.

Fixpoint kpow (x : K) (n : nat) : K := match n with O => 1 | S n => x * kpow x n end.

Lemma horner_acc x acc p : horner x acc p = acc * kpow x (length p) + peval p x.
Proof.
  unfold peval. revert acc. induction p as [|c p IH]; intros acc; simpl; [ring|].
  unfold horner in *. simpl. rewrite IH, (IH (0 * x + c)). ring.
Qed.

Lemma peval_cons c p x : peval (c :: p) x = c * kpow x (length p) + peval p x.
Proof. unfold peval at 1. simpl. rewrite horner_acc. f_equal. ring. Qed.

Lemma peval_app p q x : peval (p ++ q) x = peval p x * kpow x (length q) + peval q x.
Proof. unfold peval at 1, horner. rewrite fold_left_app. apply horner_acc. Qed.

Lemma peval_zero n x : peval (replicate n 0) x = 0.
Proof. induction n; [done|]. simpl. rewrite peval_cons, IHn. ring. Qed.

Definition padd (p q : list K) : list K := zip_with kadd p q.
Definition psub (p q : list K) : list K := zip_with ksub p q.
Definition pscale (c : K) (p : list K) : list K := kmul c <$> p.

Lemma peval_padd p q x : length p = length q -> peval (padd p q) x = peval p x + peval q x.
Proof.
  revert q. induction p as [|a p IH]; intros [|b q] Hl; simplify_eq/=; [unfold peval, horner; simpl; ring|].
  rewrite !peval_cons, IH by done. unfold padd. rewrite length_zip_with_l by lia.
  replace (length q) with (length p) by lia. ring.
Qed.

Lemma peval_psub p q x : length p = length q -> peval (psub p q) x = peval p x - peval q x.
Proof.
  revert q. induction p as [|a p IH]; intros [|b q] Hl; simplify_eq/=; [unfold peval, horner; simpl; ring|].
  rewrite !peval_cons, IH by done. unfold psub. rewrite length_zip_with_l by lia.
  replace (length q) with (length p) by lia. ring.
Qed.

Lemma peval_pscale c p x : peval (pscale c p) x = c * peval p x.
Proof.
  induction p as [|a p IH]; [unfold peval, horner; simpl; ring|].
  unfold pscale in *. rewrite fmap_cons, !peval_cons, IH, length_fmap. ring.
Qed.

(** ** Division by [X - x] *)

(** Running values of Horner's rule: the coefficients of the quotient. *)
Fixpoint scan (x acc : K) (p : list K) : list K :=
  match p with [] => [] | c :: p => acc :: scan x (acc * x + c) p end.

(** The quotient of the polynomial [c :: p]. *)
Definition quot (x : K) (p : list K) : list K :=
  match p with [] => [] | c :: p => scan x c p end.

Lemma length_scan x acc p : length (scan x acc p) = length p.
Proof. revert acc. induction p; intros; simpl; congruence. Qed.

Lemma scan_spec x acc p y :
  horner y acc p = (y - x) * peval (scan x acc p) y + horner x acc p.
Proof.
  revert acc. induction p as [|c p IH]; intros acc; [unfold peval, horner; simpl; ring|].
  simpl scan. rewrite peval_cons, length_scan.
  change (horner y acc (c :: p)) with (horner y (acc * y + c) p).
  change (horner x acc (c :: p)) with (horner x (acc * x + c) p).
  rewrite horner_acc. specialize (IH (acc * x + c)). rewrite horner_acc in IH.
  assert (E : peval p y = (y - x) * peval (scan x (acc * x + c) p) y
                          + horner x (acc * x + c) p - (acc * x + c) * kpow y (length p))
    by (rewrite <- IH; ring).
  rewrite E. ring.
Qed.

Lemma quot_spec x p y : peval p y = (y - x) * peval (quot x p) y + peval p x.
Proof.
  destruct p as [|c p]; [unfold peval, horner; simpl; ring|].
  simpl. rewrite !peval_cons, <- !horner_acc. apply scan_spec.
Qed.

Lemma scan_zero x acc p :
  scan x acc p = replicate (length p) 0 -> horner x acc p = 0 -> acc = 0 /\ p = replicate (length p) 0.
Proof.
  revert acc. induction p as [|c p IH]; intros acc Hs Hh; [done|].
  simpl in Hs. injection Hs as -> Hs. destruct (IH _ Hs Hh) as [Hc Hp].
  assert (c = 0) as -> by (rewrite <- Hc; ring). split; [done|]. simpl. by f_equal.
Qed.

(** A polynomial with as many distinct roots as coefficients is zero. *)
Lemma roots_zero xs p :
  NoDup xs -> length p = length xs -> (forall x, x ∈ xs -> peval p x = 0) ->
  p = replicate (length p) 0.
Proof.
  revert p. induction xs as [|x xs IH]; intros p Hnd Hl Hr; [by destruct p|].
  apply list.NoDup_cons in Hnd as [Hx Hnd]. destruct p as [|c p]; [done|]. simpl in Hl.
  assert (Hx0 : peval (c :: p) x = 0) by (apply Hr; set_solver).
  assert (Hq : quot x (c :: p) = replicate (length p) 0).
  { rewrite <- (length_scan x c p). apply IH; [done|simpl; rewrite length_scan; lia|].
    intros y Hy. pose proof (quot_spec x (c :: p) y) as E.
    rewrite Hx0, Hr in E by set_solver.
    destruct (k_integral (y - x) (peval (quot x (c :: p)) y)) as [H%k_sub_eq|]; [|by subst|done].
    rewrite E. ring. }
  rewrite peval_cons, <- horner_acc in Hx0.
  destruct (scan_zero x c p Hq Hx0) as [-> Hp]. simpl. by f_equal.
Qed.

Lemma psub_zero p q : length p = length q -> psub p q = replicate (length p) 0 -> p = q.
Proof.
  revert q. induction p as [|a p IH]; intros [|b q] Hl H; try done.
  injection Hl as Hl. injection H as Ha Hp. f_equal; auto using k_sub_eq.
Qed.

(** Two polynomials of [n] coefficients that agree on [n] points are equal. *)
Lemma poly_unique xs p q :
  NoDup xs -> length p = length xs -> length q = length xs ->
  (forall x, x ∈ xs -> peval p x = peval q x) -> p = q.
Proof.
  intros Hnd Hp Hq H. apply psub_zero; [congruence|].
  assert (Hl : length (psub p q) = length p) by (apply length_zip_with_l; lia).
  rewrite <- Hl. apply (roots_zero xs); [done|congruence|].
  intros x Hx. rewrite peval_psub, H by (done || congruence). ring.
Qed.

(** ** Lagrange interpolation *)

(** [n] monic coefficients followed by the given ones: [1 :: a] is a monic
    polynomial that vanishes on [xs]; its quotients by the linear factors are
    the interpolation basis up to scaling. *)
Section Lagrange.
Context (xs a : list K).
Context (Hnd : NoDup xs) (Hlen : length a = length xs).
Context (Hroots : forall x, x ∈ xs -> peval (1 :: a) x = 0).

Definition lquot (x : K) : list K := quot x (1 :: a).

Lemma length_lquot x : length (lquot x) = length xs.
Proof. unfold lquot, quot. rewrite length_scan. done. Qed.

Lemma lquot_other x y : x ∈ xs -> y ∈ xs -> x <> y -> peval (lquot x) y = 0.
Proof.
  intros Hx Hy Hne. pose proof (quot_spec x (1 :: a) y) as E. rewrite !Hroots in E by done.
  destruct (k_integral (y - x) (peval (lquot x) y)) as [H%k_sub_eq|]; [|congruence|done].
  unfold lquot. rewrite E. ring.
Qed.

Lemma lquot_self x : x ∈ xs -> peval (lquot x) x <> 0.
Proof.
  intros Hx H0.
  assert (Hz : lquot x = replicate (length (lquot x)) 0).
  { apply (roots_zero xs); [done|apply length_lquot|].
    intros y Hy. destruct (decide (x = y)) as [<-|]; [done|by apply lquot_other]. }
  unfold lquot in Hz. simpl in Hz. destruct a as [|c a']; simpl in *.
  - destruct xs; [set_solver|done].
  - injection Hz as H1 _. by apply (F_1_neq_0 k_field).
Qed.

Definition lagrange (x : K) : list K := (fun c => c / peval (lquot x) x) <$> lquot x.

Lemma length_lagrange x : length (lagrange x) = length xs.
Proof. unfold lagrange. by rewrite length_fmap, length_lquot. Qed.

Lemma lagrange_pscale x : x ∈ xs -> lagrange x = pscale (kinv (peval (lquot x) x)) (lquot x).
Proof.
  intros Hx. unfold lagrange, pscale. apply list_fmap_ext. intros i c _.
  field. by apply lquot_self.
Qed.

Lemma lagrange_eval x y :
  x ∈ xs -> y ∈ xs -> peval (lagrange x) y = if decide (x = y) then 1 else 0.
Proof.
  intros Hx Hy. rewrite lagrange_pscale, peval_pscale by done.
  case_decide as Hd; [subst; field; by apply lquot_self|].
  rewrite (lquot_other x y Hx Hy Hd). ring.
Qed.

(** The combination [sum_i d_i * L_i] of the basis. *)
Fixpoint lcomb (ys ds : list K) : list K :=
  match ys, ds with
  | y :: ys, d :: ds => padd (pscale d (lagrange y)) (lcomb ys ds)
  | _, _ => replicate (length xs) 0
  end.

Lemma length_lcomb ys ds : length (lcomb ys ds) = length xs.
Proof.
  revert ds. induction ys as [|y ys IH]; intros [|d ds]; simpl; try by rewrite length_replicate.
  unfold padd, pscale. rewrite length_zip_with, length_fmap, length_lagrange, IH. lia.
Qed.

Lemma lcomb_eval_off ys ds x :
  x ∈ xs -> ys ⊆ xs -> x ∉ ys -> peval (lcomb ys ds) x = 0.
Proof.
  intros Hx. revert ds. induction ys as [|y ys IH]; intros [|d ds] Hsub Hn; simpl;
    try apply peval_zero.
  rewrite peval_padd; [|unfold pscale; by rewrite length_fmap, length_lagrange, length_lcomb].
  rewrite peval_pscale, lagrange_eval, IH by set_solver.
  rewrite decide_False by set_solver. ring.
Qed.

Lemma lcomb_eval ys (D : list K) x :
  NoDup ys -> ys ⊆ xs -> x ∈ ys -> peval (lcomb ys (peval D <$> ys)) x = peval D x.
Proof.
  induction ys as [|y ys IH]; intros Hn Hsub Hx; [set_solver|].
  apply list.NoDup_cons in Hn as [Hy Hn]. rewrite fmap_cons. cbn [lcomb].
  rewrite peval_padd; [|unfold pscale; by rewrite length_fmap, length_lagrange, length_lcomb].
  apply elem_of_cons in Hx.
  rewrite peval_pscale, lagrange_eval by set_solver.
  case_decide as Hd.
  - subst. rewrite lcomb_eval_off by set_solver. ring.
  - rewrite IH by set_solver. ring.
Qed.

(** Interpolating the values of [D] at the points [xs] gives [D] back. *)
Lemma interpolation (D : list K) :
  length D = length xs -> lcomb xs (peval D <$> xs) = D.
Proof.
  intros HD. apply (poly_unique xs); [done|apply length_lcomb|done|].
  intros x Hx. by apply lcomb_eval.
Qed.
End Lagrange.
End Poly.
