(* ===== verification/GF256.v ===== *)
(** * The field with 256 elements *)
From Stdlib Require Import Ring Field Eqdep_dec.
From S2P Require Import Prelude Poly.

(** ** Polynomials over GF(2) as integers *)

(** Carry-less product of two polynomials over GF(2) (bit [i] is the
    coefficient of [X^i]); [n] bits of [b] are used. *)
Fixpoint clmul (n : nat) (a b : Z) : Z :=
  match n with
  | O => 0
  | S n => Z.lxor (if Z.testbit b (Z.of_nat n) then Z.shiftl a (Z.of_nat n) else 0)
                  (clmul n a b)
  end.

(** Remainder modulo a polynomial [m] of degree 8, of a polynomial of degree
    below [8 + n]. *)
Fixpoint reduce (n : nat) (m r : Z) : Z :=
  match n with
  | O => r
  | S n => reduce n m (if Z.testbit r (8 + Z.of_nat n)
                       then Z.lxor r (Z.shiftl m (Z.of_nat n)) else r)
  end.

(** X^8 + X^4 + X^3 + X^2 + 1. *)
Definition poly : Z := 0x11d.

Definition gmul (a b : Z) : Z := reduce 7 poly (clmul 8 a b).

Definition in8 (a : Z) : Prop := 0 <= a < 256.

#[export] Instance in8_dec a : Decision (in8 a).
Proof. unfold in8. apply _. Defined.

(** ** Bilinearity *)

Ltac lxor_solve :=
  apply Z.bits_inj'; intros ? ?; rewrite ?Z.lxor_spec, ?Z.bits_0;
  repeat match goal with |- context [Z.testbit ?x ?n] => destruct (Z.testbit x n) end;
  reflexivity.

Lemma clmul_lxor_l n a a' b : clmul n (Z.lxor a a') b = Z.lxor (clmul n a b) (clmul n a' b).
Proof.
  induction n as [|n IH]; simpl; [done|]. rewrite IH.
  destruct (Z.testbit b _); rewrite ?Z.shiftl_lxor; lxor_solve.
Qed.

Lemma clmul_lxor_r n a b b' : clmul n a (Z.lxor b b') = Z.lxor (clmul n a b) (clmul n a b').
Proof.
  induction n as [|n IH]; simpl; [done|]. rewrite IH, Z.lxor_spec.
  destruct (Z.testbit b _), (Z.testbit b' _); simpl; lxor_solve.
Qed.

Lemma reduce_lxor n m r s : reduce n m (Z.lxor r s) = Z.lxor (reduce n m r) (reduce n m s).
Proof.
  revert r s. induction n as [|n IH]; intros r s; simpl; [done|].
  rewrite <- IH, Z.lxor_spec. f_equal.
  destruct (Z.testbit r _), (Z.testbit s _); simpl; lxor_solve.
Qed.

Lemma gmul_lxor_l a a' b : gmul (Z.lxor a a') b = Z.lxor (gmul a b) (gmul a' b).
Proof. unfold gmul. by rewrite clmul_lxor_l, reduce_lxor. Qed.

Lemma gmul_lxor_r a b b' : gmul a (Z.lxor b b') = Z.lxor (gmul a b) (gmul a b').
Proof. unfold gmul. by rewrite clmul_lxor_r, reduce_lxor. Qed.

(** A property of bytes closed under xor holds when it holds of the eight
    powers of two. *)
Lemma basis_ind (P : Z -> Prop) :
  P 0 -> (forall a b, P a -> P b -> P (Z.lxor a b)) ->
  P 1 -> P 2 -> P 4 -> P 8 -> P 16 -> P 32 -> P 64 -> P 128 ->
  forall a, in8 a -> P a.
Proof.
  intros H0 Hx ???????? a Ha.
  pose (bit i := if Z.testbit a i then 2 ^ i else 0).
  assert (Hb : forall i, (Z.testbit a i = true -> P (2 ^ i)) -> P (bit i)).
  { intros i Hi. unfold bit. destruct (Z.testbit a i); auto. }
  assert (Hsum : a = Z.lxor (bit 0) (Z.lxor (bit 1) (Z.lxor (bit 2) (Z.lxor (bit 3)
                   (Z.lxor (bit 4) (Z.lxor (bit 5) (Z.lxor (bit 6) (bit 7)))))))).
  { apply Z.eqb_eq. unfold bit.
    apply (all_below_spec 256 (fun a => a =? Z.lxor (if Z.testbit a 0 then 2 ^ 0 else 0)
      (Z.lxor (if Z.testbit a 1 then 2 ^ 1 else 0) (Z.lxor (if Z.testbit a 2 then 2 ^ 2 else 0)
      (Z.lxor (if Z.testbit a 3 then 2 ^ 3 else 0) (Z.lxor (if Z.testbit a 4 then 2 ^ 4 else 0)
      (Z.lxor (if Z.testbit a 5 then 2 ^ 5 else 0) (Z.lxor (if Z.testbit a 6 then 2 ^ 6 else 0)
      (if Z.testbit a 7 then 2 ^ 7 else 0))))))))); [by vm_compute | exact Ha]. }
  rewrite Hsum. repeat apply Hx; apply Hb; auto.
Qed.

Lemma in8_lxor a b : in8 a -> in8 b -> in8 (Z.lxor a b).
Proof. apply (lxor_range 8); lia. Qed.

Lemma gmul_0_l b : gmul 0 b = 0.
Proof. rewrite <- (Z.lxor_nilpotent 0) at 1. by rewrite gmul_lxor_l, Z.lxor_nilpotent. Qed.

Lemma gmul_0_r a : gmul a 0 = 0.
Proof. rewrite <- (Z.lxor_nilpotent 0) at 1. by rewrite gmul_lxor_r, Z.lxor_nilpotent. Qed.

Lemma in8_gmul a b : in8 a -> in8 b -> in8 (gmul a b).
Proof.
  revert a. refine (basis_ind (fun a => in8 b -> in8 (gmul a b)) _ _ _ _ _ _ _ _ _ _).
  1: intros; rewrite gmul_0_l; unfold in8; lia.
  1: intros x y ?? ?; rewrite gmul_lxor_l; apply in8_lxor; auto.
  all: revert b; refine (basis_ind (fun b => in8 (gmul _ b)) _ _ _ _ _ _ _ _ _ _).
  all: try (intros; rewrite gmul_lxor_r; apply in8_lxor; assumption).
  all: by vm_compute.
Qed.

Lemma gmul_comm a b : in8 a -> in8 b -> gmul a b = gmul b a.
Proof.
  revert a. refine (basis_ind (fun a => in8 b -> gmul a b = gmul b a) _ _ _ _ _ _ _ _ _ _).
  1: intros; by rewrite gmul_0_l, gmul_0_r.
  1: intros x y Hx Hy ?; rewrite gmul_lxor_l, gmul_lxor_r, Hx, Hy; auto.
  all: revert b; refine (basis_ind (fun b => gmul _ b = gmul b _) _ _ _ _ _ _ _ _ _ _).
  all: try (intros ?? H1 H2; rewrite gmul_lxor_l, gmul_lxor_r, H1, H2; done).
  all: by vm_compute.
Qed.

Lemma gmul_assoc a b c : in8 a -> in8 b -> in8 c -> gmul a (gmul b c) = gmul (gmul a b) c.
Proof.
  intros Ha Hb Hc. revert a Ha.
  refine (basis_ind (fun a => gmul a (gmul b c) = gmul (gmul a b) c) _ _ _ _ _ _ _ _ _ _).
  1: intros; by rewrite !gmul_0_l.
  1: intros ?? H1 H2; by rewrite !gmul_lxor_l, H1, H2.
  all: revert b Hb; refine (basis_ind (fun b => gmul _ (gmul b c) = gmul (gmul _ b) c) _ _ _ _ _ _ _ _ _ _).
  all: try (by rewrite gmul_0_l, !gmul_0_r, gmul_0_l).
  all: try (intros ?? H1 H2; by rewrite gmul_lxor_l, !gmul_lxor_r, gmul_lxor_l, H1, H2).
  all: revert c Hc; refine (basis_ind (fun c => gmul _ (gmul _ c) = gmul (gmul _ _) c) _ _ _ _ _ _ _ _ _ _).
  all: try (intros ?? H1 H2; by rewrite !gmul_lxor_r, H1, H2).
  all: by vm_compute.
Qed.

Lemma gmul_1_l a : in8 a -> gmul 1 a = a.
Proof.
  revert a. refine (basis_ind (fun a => gmul 1 a = a) _ _ _ _ _ _ _ _ _ _).
  all: try (intros ?? H1 H2; by rewrite gmul_lxor_r, H1, H2).
  all: by vm_compute.
Qed.

Lemma gmul_1_r a : in8 a -> gmul a 1 = a.
Proof. intros. rewrite gmul_comm, gmul_1_l; [done..|unfold in8; lia]. Qed.

#[global] Arguments gmul : simpl never.

(** ** Inverses *)

Fixpoint gpow (a : Z) (n : nat) : Z := match n with O => 1 | S n => gmul a (gpow a n) end.

(** [a^254], by squarings; 0 has inverse 0. *)
Definition ginv (a : Z) : Z :=
  let a2 := gmul a a in let a4 := gmul a2 a2 in let a8 := gmul a4 a4 in
  let a16 := gmul a8 a8 in let a32 := gmul a16 a16 in let a64 := gmul a32 a32 in
  let a128 := gmul a64 a64 in
  gmul a2 (gmul a4 (gmul a8 (gmul a16 (gmul a32 (gmul a64 a128))))).

Lemma ginv_check : all_below 256 (fun a => (a =? 0) || (gmul (ginv a) a =? 1)) = true.
Proof. by vm_compute. Qed.

Lemma gmul_inv_l a : in8 a -> a <> 0 -> gmul (ginv a) a = 1.
Proof.
  intros Ha Hn. pose proof (all_below_spec _ _ ginv_check a Ha) as H.
  apply orb_true_iff in H as [H%Z.eqb_eq|H%Z.eqb_eq]; [done|exact H].
Qed.

Lemma in8_ginv a : in8 a -> in8 (ginv a).
Proof. intros Ha. unfold ginv. repeat (apply in8_gmul; try assumption). Qed.

(** ** The field as a type *)

Definition in8b (a : Z) : bool := (0 <=? a) && (a <? 256).

Record F : Set := mkF { fv : Z; fv_ok : in8b fv = true }.

Lemma in8b_spec a : in8b a = true <-> in8 a.
Proof. unfold in8b, in8. lia. Qed.

Lemma F_eq (x y : F) : fv x = fv y -> x = y.
Proof.
  destruct x as [x Hx], y as [y Hy]; simpl; intros ->. f_equal. apply UIP_dec, bool_dec.
Qed.

Lemma F_in8 (x : F) : in8 (fv x).
Proof. apply in8b_spec, fv_ok. Qed.

Definition mk (a : Z) (H : in8 a) : F := mkF a (proj2 (in8b_spec a) H).

(** The element of a byte; other integers are taken modulo 256. *)
Definition toF (a : Z) : F := mk (a mod 256) (Z.mod_pos_bound a 256 eq_refl).

Definition fzero : F := toF 0.
Definition fone : F := toF 1.
Definition fadd (x y : F) : F := mk _ (in8_lxor _ _ (F_in8 x) (F_in8 y)).
Definition fmul (x y : F) : F := mk _ (in8_gmul _ _ (F_in8 x) (F_in8 y)).
Definition finv (x : F) : F := mk _ (in8_ginv _ (F_in8 x)).
Definition fopp (x : F) : F := x.

Create HintDb gf.
#[export] Hint Resolve F_in8 in8_lxor in8_gmul in8_ginv : gf.

Lemma fv_toF a : in8 a -> fv (toF a) = a.
Proof. intros. simpl. by apply Z.mod_small. Qed.

Lemma toF_fv x : toF (fv x) = x.
Proof. apply F_eq, fv_toF, F_in8. Qed.

Lemma toF_inj a b : in8 a -> in8 b -> toF a = toF b -> a = b.
Proof. intros Ha Hb H. by rewrite <- (fv_toF a Ha), <- (fv_toF b Hb), H. Qed.

Lemma toF_lxor a b : in8 a -> in8 b -> toF (Z.lxor a b) = fadd (toF a) (toF b).
Proof.
  intros. apply F_eq. rewrite fv_toF by auto using in8_lxor. unfold fadd, mk, fv at 1.
  by rewrite !fv_toF.
Qed.

Lemma toF_gmul a b : in8 a -> in8 b -> toF (gmul a b) = fmul (toF a) (toF b).
Proof.
  intros. apply F_eq. rewrite fv_toF by auto using in8_gmul. unfold fmul, mk, fv at 1.
  by rewrite !fv_toF.
Qed.

#[export] Instance F_eq_dec : EqDecision F.
Proof.
  intros x y. destruct (decide (fv x = fv y)) as [H|H]; [left; by apply F_eq|].
  right. by intros ->.
Defined.

Lemma F_field : field_theory fzero fone fadd fmul fadd fopp (fun x y => fmul x (finv y)) finv eq.
Proof.
  split.
  - split; intros; apply F_eq; simpl.
    + done.
    + apply Z.lxor_comm.
    + symmetry. apply Z.lxor_assoc.
    + apply gmul_1_l, F_in8.
    + apply gmul_comm; apply F_in8.
    + apply gmul_assoc; apply F_in8.
    + apply gmul_lxor_l.
    + done.
    + apply Z.lxor_nilpotent.
  - intros H. by apply (f_equal fv) in H.
  - done.
  - intros p Hp. apply F_eq. simpl. apply gmul_inv_l; [apply F_in8|].
    intros H. apply Hp, F_eq. exact H.
Qed.

#[export] Instance F_isfield : IsField F := {|
  k0 := fzero; k1 := fone; kadd := fadd; kmul := fmul; ksub := fadd; kopp := fopp;
  kdiv := fun x y => fmul x (finv y); kinv := finv; k_field := F_field |}.

Lemma fadd_nilpotent x : fadd x x = fzero.
Proof. apply F_eq. simpl. apply Z.lxor_nilpotent. Qed.
