(* ===== verification/EcGf8.v ===== *)
(** * The multiplication programs of ec-gf8.c

    For every constant of the field, a program of register copies and xors
    that multiplies by it eight bit planes held in registers 0 to 7, and the
    map from output plane to the register that holds it afterwards. *)
From S2P Require Import Prelude.

Inductive ec_gf_opcode_t : Set :=
  | EC_GF_OP_LOAD
  | EC_GF_OP_STORE
  | EC_GF_OP_COPY
  | EC_GF_OP_XOR2
  | EC_GF_OP_XOR3
  | EC_GF_OP_XORM
  | EC_GF_OP_END.

#[export] Instance opcode_eq_dec : EqDecision ec_gf_opcode_t.
Proof. solve_decision. Defined.

Record ec_gf_op_t : Set := mkop { op_code : ec_gf_opcode_t; arg1 : Z; arg2 : Z; arg3 : Z }.

Record ec_gf_mul_t : Set := mkmul { mul_regs : Z; mul_map : list Z; mul_ops : list ec_gf_op_t }.

(** [ec_gf8_mul_00] to [ec_gf8_mul_0F]. *)
Definition ec_gf8_mul_0x : list ec_gf_mul_t := [
  (* 00 *) mkmul 0 [0]
      [mkop EC_GF_OP_END 0 0 0];
  (* 01 *) mkmul 8 [0; 1; 2; 3; 4; 5; 6; 7]
      [mkop EC_GF_OP_END 0 0 0];
  (* 02 *) mkmul 8 [7; 0; 1; 2; 3; 4; 5; 6]
      [mkop EC_GF_OP_XOR2 1 7 0; mkop EC_GF_OP_XOR2 2 7 0; mkop EC_GF_OP_XOR2 3 7 0;
       mkop EC_GF_OP_END 0 0 0];
  (* 03 *) mkmul 9 [0; 1; 2; 3; 4; 5; 6; 7; 8]
      [mkop EC_GF_OP_XOR2 3 7 0; mkop EC_GF_OP_COPY 8 3 0; mkop EC_GF_OP_XOR2 3 2 0;
       mkop EC_GF_OP_XOR2 2 1 0; mkop EC_GF_OP_XOR2 1 0 0; mkop EC_GF_OP_XOR2 2 7 0;
       mkop EC_GF_OP_XOR2 0 7 0; mkop EC_GF_OP_XOR2 7 6 0; mkop EC_GF_OP_XOR2 6 5 0;
       mkop EC_GF_OP_XOR2 5 4 0; mkop EC_GF_OP_XOR2 4 8 0; mkop EC_GF_OP_END 0 0 0];
  (* 04 *) mkmul 9 [6; 7; 0; 1; 2; 3; 4; 5; 8]
      [mkop EC_GF_OP_XOR3 8 6 7; mkop EC_GF_OP_XOR2 2 8 0; mkop EC_GF_OP_XOR2 3 7 0;
       mkop EC_GF_OP_XOR2 1 8 0; mkop EC_GF_OP_XOR2 0 6 0; mkop EC_GF_OP_END 0 0 0];
  (* 05 *) mkmul 8 [0; 1; 2; 6; 7; 3; 4; 5]
      [mkop EC_GF_OP_XOR2 4 6 0; mkop EC_GF_OP_XOR2 1 7 0; mkop EC_GF_OP_XOR2 5 7 0;
       mkop EC_GF_OP_XOR2 0 6 0; mkop EC_GF_OP_XOR2 7 4 0; mkop EC_GF_OP_XOR2 6 3 0;
       mkop EC_GF_OP_XOR2 7 2 0; mkop EC_GF_OP_XOR2 6 1 0; mkop EC_GF_OP_XOR2 3 5 0;
       mkop EC_GF_OP_XOR2 2 0 0; mkop EC_GF_OP_END 0 0 0];
  (* 06 *) mkmul 9 [7; 0; 1; 2; 8; 3; 4; 5; 6]
      [mkop EC_GF_OP_XOR2 2 6 0; mkop EC_GF_OP_COPY 8 2 0; mkop EC_GF_OP_XOR2 8 3 0;
       mkop EC_GF_OP_XOR2 2 1 0; mkop EC_GF_OP_XOR2 3 4 0; mkop EC_GF_OP_XOR2 1 0 0;
       mkop EC_GF_OP_XOR2 3 7 0; mkop EC_GF_OP_XOR2 0 7 0; mkop EC_GF_OP_XOR2 7 6 0;
       mkop EC_GF_OP_XOR2 4 5 0; mkop EC_GF_OP_XOR2 1 7 0; mkop EC_GF_OP_XOR2 5 6 0;
       mkop EC_GF_OP_END 0 0 0];
  (* 07 *) mkmul 8 [6; 0; 1; 3; 2; 4; 5; 7]
      [mkop EC_GF_OP_XOR2 5 6 0; mkop EC_GF_OP_XOR2 0 7 0; mkop EC_GF_OP_XOR2 3 6 0;
       mkop EC_GF_OP_XOR2 7 5 0; mkop EC_GF_OP_XOR2 6 0 0; mkop EC_GF_OP_XOR2 0 1 0;
       mkop EC_GF_OP_XOR2 5 4 0; mkop EC_GF_OP_XOR2 4 3 0; mkop EC_GF_OP_XOR2 1 2 0;
       mkop EC_GF_OP_XOR2 2 4 0; mkop EC_GF_OP_XOR2 3 1 0; mkop EC_GF_OP_XOR2 4 7 0;
       mkop EC_GF_OP_XOR2 1 6 0; mkop EC_GF_OP_END 0 0 0];
  (* 08 *) mkmul 9 [5; 6; 7; 0; 1; 2; 3; 4; 8]
      [mkop EC_GF_OP_XOR2 0 5 0; mkop EC_GF_OP_XOR2 1 5 0; mkop EC_GF_OP_XOR2 0 6 0;
       mkop EC_GF_OP_XOR3 8 6 7; mkop EC_GF_OP_XOR2 1 8 0; mkop EC_GF_OP_XOR2 3 7 0;
       mkop EC_GF_OP_XOR2 7 5 0; mkop EC_GF_OP_XOR2 2 8 0; mkop EC_GF_OP_END 0 0 0];
  (* 09 *) mkmul 8 [0; 1; 2; 3; 5; 6; 7; 4]
      [mkop EC_GF_OP_XOR2 2 4 0; mkop EC_GF_OP_XOR2 4 7 0; mkop EC_GF_OP_XOR2 0 5 0;
       mkop EC_GF_OP_XOR2 5 4 0; mkop EC_GF_OP_XOR2 3 6 0; mkop EC_GF_OP_XOR2 2 5 0;
       mkop EC_GF_OP_XOR2 1 6 0; mkop EC_GF_OP_XOR2 7 3 0; mkop EC_GF_OP_XOR2 6 2 0;
       mkop EC_GF_OP_XOR2 5 1 0; mkop EC_GF_OP_XOR2 3 0 0; mkop EC_GF_OP_END 0 0 0];
  (* 0A *) mkmul 8 [5; 0; 1; 2; 6; 7; 3; 4]
      [mkop EC_GF_OP_XOR2 1 5 0; mkop EC_GF_OP_XOR2 4 6 0; mkop EC_GF_OP_XOR2 5 7 0;
       mkop EC_GF_OP_XOR2 7 4 0; mkop EC_GF_OP_XOR2 0 6 0; mkop EC_GF_OP_XOR2 7 2 0;
       mkop EC_GF_OP_XOR2 6 1 0; mkop EC_GF_OP_XOR2 2 0 0; mkop EC_GF_OP_XOR2 6 3 0;
       mkop EC_GF_OP_XOR2 2 5 0; mkop EC_GF_OP_XOR2 3 5 0; mkop EC_GF_OP_END 0 0 0];
  (* 0B *) mkmul 10 [7; 1; 5; 2; 4; 3; 0; 6; 8; 9]
      [mkop EC_GF_OP_XOR2 4 7 0; mkop EC_GF_OP_XOR2 7 0 0; mkop EC_GF_OP_XOR2 7 5 0;
       mkop EC_GF_OP_XOR2 3 7 0; mkop EC_GF_OP_COPY 9 3 0; mkop EC_GF_OP_XOR2 5 2 0;
       mkop EC_GF_OP_XOR2 3 6 0; mkop EC_GF_OP_COPY 8 5 0; mkop EC_GF_OP_XOR2 0 3 0;
       mkop EC_GF_OP_XOR2 5 1 0; mkop EC_GF_OP_XOR2 6 4 0; mkop EC_GF_OP_XOR2 1 0 0;
       mkop EC_GF_OP_XOR2 2 3 0; mkop EC_GF_OP_XOR2 4 1 0; mkop EC_GF_OP_XOR3 3 8 6;
       mkop EC_GF_OP_XOR2 1 9 0; mkop EC_GF_OP_END 0 0 0];
  (* 0C *) mkmul 9 [5; 7; 0; 1; 8; 2; 3; 4; 6]
      [mkop EC_GF_OP_XOR2 1 5 0; mkop EC_GF_OP_COPY 8 1 0; mkop EC_GF_OP_XOR2 8 2 0;
       mkop EC_GF_OP_XOR2 2 3 0; mkop EC_GF_OP_XOR2 3 4 0; mkop EC_GF_OP_XOR2 0 7 0;
       mkop EC_GF_OP_XOR2 4 5 0; mkop EC_GF_OP_XOR2 3 7 0; mkop EC_GF_OP_XOR2 5 6 0;
       mkop EC_GF_OP_XOR2 1 0 0; mkop EC_GF_OP_XOR2 2 6 0; mkop EC_GF_OP_XOR2 7 6 0;
       mkop EC_GF_OP_XOR2 0 5 0; mkop EC_GF_OP_END 0 0 0];
  (* 0D *) mkmul 9 [5; 6; 7; 3; 1; 0; 2; 4; 8]
      [mkop EC_GF_OP_XOR2 5 7 0; mkop EC_GF_OP_XOR2 4 5 0; mkop EC_GF_OP_XOR2 5 0 0;
       mkop EC_GF_OP_XOR2 5 1 0; mkop EC_GF_OP_XOR2 1 7 0; mkop EC_GF_OP_XOR2 0 3 0;
       mkop EC_GF_OP_XOR2 6 1 0; mkop EC_GF_OP_XOR2 3 5 0; mkop EC_GF_OP_XOR3 8 2 4;
       mkop EC_GF_OP_XOR2 5 6 0; mkop EC_GF_OP_XOR2 2 5 0; mkop EC_GF_OP_XOR2 1 8 0;
       mkop EC_GF_OP_XOR2 0 2 0; mkop EC_GF_OP_XOR2 7 2 0; mkop EC_GF_OP_XOR3 2 8 0;
       mkop EC_GF_OP_END 0 0 0];
  (* 0E *) mkmul 8 [7; 0; 6; 1; 3; 2; 4; 5]
      [mkop EC_GF_OP_XOR2 0 5 0; mkop EC_GF_OP_XOR2 5 6 0; mkop EC_GF_OP_XOR2 1 0 0;
       mkop EC_GF_OP_XOR2 7 5 0; mkop EC_GF_OP_XOR2 3 6 0; mkop EC_GF_OP_XOR2 0 7 0;
       mkop EC_GF_OP_XOR2 5 4 0; mkop EC_GF_OP_XOR2 6 1 0; mkop EC_GF_OP_XOR2 4 3 0;
       mkop EC_GF_OP_XOR2 1 2 0; mkop EC_GF_OP_XOR2 3 0 0; mkop EC_GF_OP_XOR2 2 4 0;
       mkop EC_GF_OP_XOR2 3 1 0; mkop EC_GF_OP_XOR2 4 7 0; mkop EC_GF_OP_END 0 0 0];
  (* 0F *) mkmul 8 [1; 0; 5; 6; 7; 2; 3; 4]
      [mkop EC_GF_OP_XOR2 2 7 0; mkop EC_GF_OP_XOR2 7 1 0; mkop EC_GF_OP_XOR2 7 6 0;
       mkop EC_GF_OP_XOR2 4 0 0; mkop EC_GF_OP_XOR2 0 7 0; mkop EC_GF_OP_XOR2 5 0 0;
       mkop EC_GF_OP_XOR2 6 3 0; mkop EC_GF_OP_XOR2 1 5 0; mkop EC_GF_OP_XOR2 5 2 0;
       mkop EC_GF_OP_XOR2 4 1 0; mkop EC_GF_OP_XOR2 3 4 0; mkop EC_GF_OP_XOR2 6 5 0;
       mkop EC_GF_OP_XOR2 2 3 0; mkop EC_GF_OP_XOR2 7 2 0; mkop EC_GF_OP_END 0 0 0]].

(** [ec_gf8_mul_10] to [ec_gf8_mul_1F]. *)
Definition ec_gf8_mul_1x : list ec_gf_mul_t := [
  (* 10 *) mkmul 8 [4; 5; 6; 7; 0; 1; 2; 3]
      [mkop EC_GF_OP_XOR2 3 7 0; mkop EC_GF_OP_XOR2 7 6 0; mkop EC_GF_OP_XOR2 2 7 0;
       mkop EC_GF_OP_XOR2 7 5 0; mkop EC_GF_OP_XOR2 6 4 0; mkop EC_GF_OP_XOR2 0 5 0;
       mkop EC_GF_OP_XOR2 1 7 0; mkop EC_GF_OP_XOR2 0 6 0; mkop EC_GF_OP_XOR2 7 6 0;
       mkop EC_GF_OP_END 0 0 0];
  (* 11 *) mkmul 8 [4; 1; 2; 6; 0; 5; 7; 3]
      [mkop EC_GF_OP_XOR2 1 5 0; mkop EC_GF_OP_XOR2 5 6 0; mkop EC_GF_OP_XOR2 6 4 0;
       mkop EC_GF_OP_XOR2 4 0 0; mkop EC_GF_OP_XOR2 0 5 0; mkop EC_GF_OP_XOR2 5 7 0;
       mkop EC_GF_OP_XOR2 7 2 0; mkop EC_GF_OP_XOR2 2 6 0; mkop EC_GF_OP_XOR2 6 3 0;
       mkop EC_GF_OP_XOR2 6 5 0; mkop EC_GF_OP_XOR2 5 1 0; mkop EC_GF_OP_END 0 0 0];
  (* 12 *) mkmul 8 [7; 0; 1; 2; 3; 5; 6; 4]
      [mkop EC_GF_OP_XOR2 7 4 0; mkop EC_GF_OP_XOR2 6 7 0; mkop EC_GF_OP_XOR2 2 4 0;
       mkop EC_GF_OP_XOR2 3 6 0; mkop EC_GF_OP_XOR2 4 3 0; mkop EC_GF_OP_XOR2 1 6 0;
       mkop EC_GF_OP_XOR2 2 5 0; mkop EC_GF_OP_XOR2 0 5 0; mkop EC_GF_OP_XOR2 6 2 0;
       mkop EC_GF_OP_XOR2 5 1 0; mkop EC_GF_OP_XOR2 3 0 0; mkop EC_GF_OP_END 0 0 0];
  (* 13 *) mkmul 9 [4; 5; 2; 6; 0; 1; 7; 3; 8]
      [mkop EC_GF_OP_XOR2 4 7 0; mkop EC_GF_OP_XOR2 7 5 0; mkop EC_GF_OP_XOR2 3 6 0;
       mkop EC_GF_OP_XOR2 5 1 0; mkop EC_GF_OP_XOR2 6 4 0; mkop EC_GF_OP_XOR2 7 2 0;
       mkop EC_GF_OP_XOR2 4 0 0; mkop EC_GF_OP_XOR2 5 0 0; mkop EC_GF_OP_XOR2 1 6 0;
       mkop EC_GF_OP_XOR3 8 3 7; mkop EC_GF_OP_XOR2 0 2 0; mkop EC_GF_OP_XOR2 6 8 0;
       mkop EC_GF_OP_XOR2 2 1 0; mkop EC_GF_OP_XOR2 0 8 0; mkop EC_GF_OP_END 0 0 0];
  (* 14 *) mkmul 8 [6; 7; 0; 1; 2; 4; 5; 3]
      [mkop EC_GF_OP_XOR2 6 4 0; mkop EC_GF_OP_XOR2 7 5 0; mkop EC_GF_OP_XOR2 5 6 0;
       mkop EC_GF_OP_XOR2 2 7 0; mkop EC_GF_OP_XOR2 0 4 0; mkop EC_GF_OP_XOR2 1 5 0;
       mkop EC_GF_OP_XOR2 5 2 0; mkop EC_GF_OP_XOR2 4 3 0; mkop EC_GF_OP_XOR2 2 0 0;
       mkop EC_GF_OP_XOR2 3 7 0; mkop EC_GF_OP_XOR2 4 1 0; mkop EC_GF_OP_END 0 0 0];
  (* 15 *) mkmul 9 [0; 1; 2; 4; 7; 6; 5; 3; 8]
      [mkop EC_GF_OP_COPY 8 0 0; mkop EC_GF_OP_XOR2 0 4 0; mkop EC_GF_OP_XOR2 2 0 0;
       mkop EC_GF_OP_XOR2 0 6 0; mkop EC_GF_OP_XOR2 6 1 0; mkop EC_GF_OP_XOR2 1 5 0;
       mkop EC_GF_OP_XOR2 4 5 0; mkop EC_GF_OP_XOR2 1 7 0; mkop EC_GF_OP_XOR2 6 3 0;
       mkop EC_GF_OP_XOR2 7 2 0; mkop EC_GF_OP_XOR2 3 5 0; mkop EC_GF_OP_XOR3 5 8 7;
       mkop EC_GF_OP_XOR2 7 4 0; mkop EC_GF_OP_XOR2 4 6 0; mkop EC_GF_OP_END 0 0 0];
  (* 16 *) mkmul 8 [6; 7; 4; 1; 2; 3; 5; 0]
      [mkop EC_GF_OP_XOR2 4 7 0; mkop EC_GF_OP_XOR2 3 6 0; mkop EC_GF_OP_XOR2 7 5 0;
       mkop EC_GF_OP_XOR2 6 4 0; mkop EC_GF_OP_XOR2 7 0 0; mkop EC_GF_OP_XOR2 2 6 0;
       mkop EC_GF_OP_XOR2 3 7 0; mkop EC_GF_OP_XOR2 4 1 0; mkop EC_GF_OP_XOR2 5 2 0;
       mkop EC_GF_OP_XOR2 4 0 0; mkop EC_GF_OP_XOR2 2 3 0; mkop EC_GF_OP_XOR2 0 3 0;
       mkop EC_GF_OP_XOR2 1 5 0; mkop EC_GF_OP_XOR2 3 4 0; mkop EC_GF_OP_END 0 0 0];
  (* 17 *) mkmul 8 [5; 7; 0; 1; 3; 2; 4; 6]
      [mkop EC_GF_OP_XOR2 3 5 0; mkop EC_GF_OP_XOR2 6 3 0; mkop EC_GF_OP_XOR2 3 0 0;
       mkop EC_GF_OP_XOR2 7 5 0; mkop EC_GF_OP_XOR2 3 2 0; mkop EC_GF_OP_XOR2 2 7 0;
       mkop EC_GF_OP_XOR2 4 2 0; mkop EC_GF_OP_XOR2 0 1 0; mkop EC_GF_OP_XOR2 5 4 0;
       mkop EC_GF_OP_XOR2 7 0 0; mkop EC_GF_OP_XOR2 0 5 0; mkop EC_GF_OP_XOR2 5 6 0;
       mkop EC_GF_OP_XOR2 1 5 0; mkop EC_GF_OP_XOR2 5 3 0; mkop EC_GF_OP_XOR2 2 1 0;
       mkop EC_GF_OP_END 0 0 0];
  (* 18 *) mkmul 9 [4; 5; 7; 6; 0; 1; 2; 3; 8]
      [mkop EC_GF_OP_XOR2 7 4 0; mkop EC_GF_OP_XOR2 0 7 0; mkop EC_GF_OP_COPY 8 0 0;
       mkop EC_GF_OP_XOR2 0 1 0; mkop EC_GF_OP_XOR2 1 2 0; mkop EC_GF_OP_XOR2 4 5 0;
       mkop EC_GF_OP_XOR2 2 3 0; mkop EC_GF_OP_XOR2 1 5 0; mkop EC_GF_OP_XOR2 3 7 0;
       mkop EC_GF_OP_XOR2 5 6 0; mkop EC_GF_OP_XOR2 2 6 0; mkop EC_GF_OP_XOR2 7 5 0;
       mkop EC_GF_OP_XOR2 6 8 0; mkop EC_GF_OP_END 0 0 0];
  (* 19 *) mkmul 8 [0; 5; 2; 6; 7; 1; 3; 4]
      [mkop EC_GF_OP_XOR2 7 0 0; mkop EC_GF_OP_XOR2 0 4 0; mkop EC_GF_OP_XOR2 6 1 0;
       mkop EC_GF_OP_XOR2 7 1 0; mkop EC_GF_OP_XOR2 4 3 0; mkop EC_GF_OP_XOR2 0 5 0;
       mkop EC_GF_OP_XOR2 5 6 0; mkop EC_GF_OP_XOR2 3 2 0; mkop EC_GF_OP_XOR2 1 2 0;
       mkop EC_GF_OP_XOR2 6 7 0; mkop EC_GF_OP_XOR2 2 0 0; mkop EC_GF_OP_XOR2 2 6 0;
       mkop EC_GF_OP_XOR2 6 4 0; mkop EC_GF_OP_END 0 0 0];
  (* 1A *) mkmul 8 [7; 0; 4; 5; 3; 1; 2; 6]
      [mkop EC_GF_OP_XOR2 6 5 0; mkop EC_GF_OP_XOR2 5 4 0; mkop EC_GF_OP_XOR2 4 0 0;
       mkop EC_GF_OP_XOR2 7 5 0; mkop EC_GF_OP_XOR2 0 6 0; mkop EC_GF_OP_XOR2 4 1 0;
       mkop EC_GF_OP_XOR2 6 3 0; mkop EC_GF_OP_XOR2 3 4 0; mkop EC_GF_OP_XOR2 5 2 0;
       mkop EC_GF_OP_XOR2 4 0 0; mkop EC_GF_OP_XOR2 2 6 0; mkop EC_GF_OP_XOR2 1 5 0;
       mkop EC_GF_OP_XOR2 6 7 0; mkop EC_GF_OP_XOR2 5 0 0; mkop EC_GF_OP_END 0 0 0];
  (* 1B *) mkmul 8 [7; 4; 5; 6; 3; 1; 2; 0]
      [mkop EC_GF_OP_XOR2 1 0 0; mkop EC_GF_OP_XOR2 0 2 0; mkop EC_GF_OP_XOR2 2 5 0;
       mkop EC_GF_OP_XOR2 7 2 0; mkop EC_GF_OP_XOR2 2 3 0; mkop EC_GF_OP_XOR2 4 0 0;
       mkop EC_GF_OP_XOR2 3 1 0; mkop EC_GF_OP_XOR2 1 4 0; mkop EC_GF_OP_XOR2 7 4 0;
       mkop EC_GF_OP_XOR2 6 1 0; mkop EC_GF_OP_XOR2 5 6 0; mkop EC_GF_OP_XOR2 6 3 0;
       mkop EC_GF_OP_XOR2 4 5 0; mkop EC_GF_OP_XOR2 0 6 0; mkop EC_GF_OP_END 0 0 0];
  (* 1C *) mkmul 8 [5; 4; 3; 0; 1; 7; 2; 6]
      [mkop EC_GF_OP_XOR2 6 4 0; mkop EC_GF_OP_XOR2 5 6 0; mkop EC_GF_OP_XOR2 6 3 0;
       mkop EC_GF_OP_XOR2 3 0 0; mkop EC_GF_OP_XOR2 0 1 0; mkop EC_GF_OP_XOR2 2 6 0;
       mkop EC_GF_OP_XOR2 0 4 0; mkop EC_GF_OP_XOR2 7 5 0; mkop EC_GF_OP_XOR2 1 2 0;
       mkop EC_GF_OP_XOR2 4 7 0; mkop EC_GF_OP_XOR2 7 1 0; mkop EC_GF_OP_XOR2 6 4 0;
       mkop EC_GF_OP_XOR2 1 3 0; mkop EC_GF_OP_XOR2 3 6 0; mkop EC_GF_OP_END 0 0 0];
  (* 1D *) mkmul 9 [0; 7; 5; 8; 2; 3; 4; 1; 6]
      [mkop EC_GF_OP_XOR2 7 1 0; mkop EC_GF_OP_XOR2 1 0 0; mkop EC_GF_OP_XOR2 3 2 0;
       mkop EC_GF_OP_XOR2 0 4 0; mkop EC_GF_OP_XOR2 2 1 0; mkop EC_GF_OP_XOR2 4 3 0;
       mkop EC_GF_OP_XOR2 3 7 0; mkop EC_GF_OP_XOR3 8 4 2; mkop EC_GF_OP_XOR2 2 6 0;
       mkop EC_GF_OP_XOR2 6 5 0; mkop EC_GF_OP_XOR2 5 8 0; mkop EC_GF_OP_XOR2 7 6 0;
       mkop EC_GF_OP_XOR2 0 6 0; mkop EC_GF_OP_XOR2 1 5 0; mkop EC_GF_OP_XOR2 5 3 0;
       mkop EC_GF_OP_END 0 0 0];
  (* 1E *) mkmul 8 [4; 7; 5; 1; 6; 0; 2; 3]
      [mkop EC_GF_OP_XOR2 4 0 0; mkop EC_GF_OP_XOR2 0 5 0; mkop EC_GF_OP_XOR2 0 6 0;
       mkop EC_GF_OP_XOR2 1 4 0; mkop EC_GF_OP_XOR2 5 1 0; mkop EC_GF_OP_XOR2 2 7 0;
       mkop EC_GF_OP_XOR2 7 0 0; mkop EC_GF_OP_XOR2 1 2 0; mkop EC_GF_OP_XOR2 6 3 0;
       mkop EC_GF_OP_XOR2 4 7 0; mkop EC_GF_OP_XOR2 6 1 0; mkop EC_GF_OP_XOR2 3 4 0;
       mkop EC_GF_OP_XOR2 0 6 0; mkop EC_GF_OP_XOR2 2 3 0; mkop EC_GF_OP_END 0 0 0];
  (* 1F *) mkmul 9 [1; 4; 5; 6; 7; 0; 3; 2; 8]
      [mkop EC_GF_OP_XOR2 5 2 0; mkop EC_GF_OP_XOR2 5 4 0; mkop EC_GF_OP_XOR2 3 5 0;
       mkop EC_GF_OP_XOR2 5 0 0; mkop EC_GF_OP_XOR2 5 1 0; mkop EC_GF_OP_XOR2 6 3 0;
       mkop EC_GF_OP_XOR2 7 5 0; mkop EC_GF_OP_XOR2 2 6 0; mkop EC_GF_OP_XOR2 7 2 0;
       mkop EC_GF_OP_XOR3 8 3 7; mkop EC_GF_OP_XOR2 4 8 0; mkop EC_GF_OP_XOR2 1 8 0;
       mkop EC_GF_OP_XOR2 6 4 0; mkop EC_GF_OP_XOR2 0 6 0; mkop EC_GF_OP_END 0 0 0]].

(** [ec_gf8_mul_20] to [ec_gf8_mul_2F]. *)
Definition ec_gf8_mul_2x : list ec_gf_mul_t := [
  (* 20 *) mkmul 8 [7; 4; 5; 6; 3; 0; 1; 2]
      [mkop EC_GF_OP_XOR2 6 7 0; mkop EC_GF_OP_XOR2 1 5 0; mkop EC_GF_OP_XOR2 7 3 0;
       mkop EC_GF_OP_XOR2 1 6 0; mkop EC_GF_OP_XOR2 3 4 0; mkop EC_GF_OP_XOR2 2 6 0;
       mkop EC_GF_OP_XOR2 6 3 0; mkop EC_GF_OP_XOR2 3 5 0; mkop EC_GF_OP_XOR2 5 7 0;
       mkop EC_GF_OP_XOR2 0 5 0; mkop EC_GF_OP_XOR2 0 6 0; mkop EC_GF_OP_END 0 0 0];
  (* 21 *) mkmul 10 [0; 1; 2; 7; 5; 4; 3; 6; 8; 9]
      [mkop EC_GF_OP_COPY 9 0 0; mkop EC_GF_OP_XOR2 0 3 0; mkop EC_GF_OP_XOR2 5 3 0;
       mkop EC_GF_OP_XOR2 3 1 0; mkop EC_GF_OP_XOR2 1 4 0; mkop EC_GF_OP_XOR2 4 6 0;
       mkop EC_GF_OP_XOR3 8 7 5; mkop EC_GF_OP_XOR2 0 7 0; mkop EC_GF_OP_XOR2 6 2 0;
       mkop EC_GF_OP_XOR2 7 4 0; mkop EC_GF_OP_XOR2 3 8 0; mkop EC_GF_OP_XOR2 2 8 0;
       mkop EC_GF_OP_XOR2 4 9 0; mkop EC_GF_OP_END 0 0 0];
  (* 22 *) mkmul 8 [3; 0; 5; 2; 6; 4; 1; 7]
      [mkop EC_GF_OP_XOR2 0 4 0; mkop EC_GF_OP_XOR2 4 6 0; mkop EC_GF_OP_XOR2 6 7 0;
       mkop EC_GF_OP_XOR2 7 2 0; mkop EC_GF_OP_XOR2 2 3 0; mkop EC_GF_OP_XOR2 2 4 0;
       mkop EC_GF_OP_XOR2 4 5 0; mkop EC_GF_OP_XOR2 5 3 0; mkop EC_GF_OP_XOR2 5 1 0;
       mkop EC_GF_OP_XOR2 1 6 0; mkop EC_GF_OP_XOR2 6 4 0; mkop EC_GF_OP_XOR2 4 0 0;
       mkop EC_GF_OP_END 0 0 0];
  (* 23 *) mkmul 9 [0; 4; 3; 2; 5; 6; 1; 8; 7]
      [mkop EC_GF_OP_COPY 8 2 0; mkop EC_GF_OP_XOR2 2 4 0; mkop EC_GF_OP_XOR2 2 6 0;
       mkop EC_GF_OP_XOR2 4 0 0; mkop EC_GF_OP_XOR2 6 0 0; mkop EC_GF_OP_XOR2 0 3 0;
       mkop EC_GF_OP_XOR2 3 5 0; mkop EC_GF_OP_XOR2 3 8 0; mkop EC_GF_OP_XOR2 4 1 0;
       mkop EC_GF_OP_XOR2 5 7 0; mkop EC_GF_OP_XOR2 3 1 0; mkop EC_GF_OP_XOR2 1 7 0;
       mkop EC_GF_OP_END 0 0 0];
  (* 24 *) mkmul 8 [6; 7; 0; 1; 2; 4; 5; 3]
      [mkop EC_GF_OP_XOR2 6 3 0; mkop EC_GF_OP_XOR2 6 7 0; mkop EC_GF_OP_XOR2 5 6 0;
       mkop EC_GF_OP_XOR2 2 0 0; mkop EC_GF_OP_XOR2 0 5 0; mkop EC_GF_OP_XOR2 7 4 0;
       mkop EC_GF_OP_XOR2 3 4 0; mkop EC_GF_OP_XOR2 4 0 0; mkop EC_GF_OP_XOR2 1 3 0;
       mkop EC_GF_OP_XOR2 2 4 0; mkop EC_GF_OP_XOR2 5 1 0; mkop EC_GF_OP_XOR2 3 2 0;
       mkop EC_GF_OP_END 0 0 0];
  (* 25 *) mkmul 8 [2; 7; 0; 1; 3; 4; 5; 6]
      [mkop EC_GF_OP_XOR2 2 5 0; mkop EC_GF_OP_XOR2 6 2 0; mkop EC_GF_OP_XOR2 3 7 0;
       mkop EC_GF_OP_XOR2 3 6 0; mkop EC_GF_OP_XOR2 0 3 0; mkop EC_GF_OP_XOR2 1 4 0;
       mkop EC_GF_OP_XOR2 2 0 0; mkop EC_GF_OP_XOR2 7 1 0; mkop EC_GF_OP_XOR2 4 2 0;
       mkop EC_GF_OP_XOR2 5 7 0; mkop EC_GF_OP_END 0 0 0];
  (* 26 *) mkmul 8 [3; 4; 1; 2; 0; 5; 6; 7]
      [mkop EC_GF_OP_XOR2 1 0 0; mkop EC_GF_OP_XOR2 0 7 0; mkop EC_GF_OP_XOR2 4 0 0;
       mkop EC_GF_OP_XOR2 3 6 0; mkop EC_GF_OP_XOR2 6 4 0; mkop EC_GF_OP_XOR2 2 5 0;
       mkop EC_GF_OP_XOR2 7 2 0; mkop EC_GF_OP_XOR2 5 3 0; mkop EC_GF_OP_XOR2 2 6 0;
       mkop EC_GF_OP_XOR2 6 1 0; mkop EC_GF_OP_XOR2 1 5 0; mkop EC_GF_OP_XOR2 5 0 0;
       mkop EC_GF_OP_XOR2 0 2 0; mkop EC_GF_OP_XOR2 2 1 0; mkop EC_GF_OP_END 0 0 0];
  (* 27 *) mkmul 8 [3; 0; 1; 2; 6; 7; 4; 5]
      [mkop EC_GF_OP_XOR2 3 0 0; mkop EC_GF_OP_XOR2 4 1 0; mkop EC_GF_OP_XOR2 5 2 0;
       mkop EC_GF_OP_XOR2 4 7 0; mkop EC_GF_OP_XOR2 1 5 0; mkop EC_GF_OP_XOR2 3 6 0;
       mkop EC_GF_OP_XOR2 2 4 0; mkop EC_GF_OP_XOR2 0 4 0; mkop EC_GF_OP_XOR2 6 5 0;
       mkop EC_GF_OP_XOR2 1 3 0; mkop EC_GF_OP_XOR2 7 3 0; mkop EC_GF_OP_END 0 0 0];
  (* 28 *) mkmul 8 [5; 6; 3; 0; 1; 2; 4; 7]
      [mkop EC_GF_OP_XOR2 6 4 0; mkop EC_GF_OP_XOR2 5 7 0; mkop EC_GF_OP_XOR2 7 6 0;
       mkop EC_GF_OP_XOR2 4 5 0; mkop EC_GF_OP_XOR2 1 3 0; mkop EC_GF_OP_XOR2 5 3 0;
       mkop EC_GF_OP_XOR2 1 7 0; mkop EC_GF_OP_XOR2 0 4 0; mkop EC_GF_OP_XOR2 4 1 0;
       mkop EC_GF_OP_XOR2 7 2 0; mkop EC_GF_OP_XOR2 2 0 0; mkop EC_GF_OP_XOR2 0 3 0;
       mkop EC_GF_OP_END 0 0 0];
  (* 29 *) mkmul 8 [4; 6; 3; 5; 7; 0; 1; 2]
      [mkop EC_GF_OP_XOR2 6 4 0; mkop EC_GF_OP_XOR2 5 3 0; mkop EC_GF_OP_XOR2 4 3 0;
       mkop EC_GF_OP_XOR2 3 2 0; mkop EC_GF_OP_XOR2 7 4 0; mkop EC_GF_OP_XOR2 2 6 0;
       mkop EC_GF_OP_XOR2 6 1 0; mkop EC_GF_OP_XOR2 1 5 0; mkop EC_GF_OP_XOR2 0 7 0;
       mkop EC_GF_OP_XOR2 5 0 0; mkop EC_GF_OP_XOR2 7 6 0; mkop EC_GF_OP_XOR2 0 3 0;
       mkop EC_GF_OP_XOR2 4 5 0; mkop EC_GF_OP_END 0 0 0];
  (* 2A *) mkmul 9 [3; 4; 7; 2; 6; 5; 1; 0; 8]
      [mkop EC_GF_OP_COPY 8 1 0; mkop EC_GF_OP_XOR2 8 0 0; mkop EC_GF_OP_XOR2 4 0 0;
       mkop EC_GF_OP_XOR2 0 2 0; mkop EC_GF_OP_XOR2 1 3 0; mkop EC_GF_OP_XOR2 3 5 0;
       mkop EC_GF_OP_XOR2 0 7 0; mkop EC_GF_OP_XOR2 2 3 0; mkop EC_GF_OP_XOR2 7 1 0;
       mkop EC_GF_OP_XOR2 5 0 0; mkop EC_GF_OP_XOR2 2 4 0; mkop EC_GF_OP_XOR2 0 4 0;
       mkop EC_GF_OP_XOR2 1 6 0; mkop EC_GF_OP_XOR2 4 6 0; mkop EC_GF_OP_XOR3 6 8 4;
       mkop EC_GF_OP_END 0 0 0];
  (* 2B *) mkmul 8 [3; 4; 7; 5; 6; 0; 1; 2]
      [mkop EC_GF_OP_XOR2 7 2 0; mkop EC_GF_OP_XOR2 2 4 0; mkop EC_GF_OP_XOR2 6 1 0;
       mkop EC_GF_OP_XOR2 4 0 0; mkop EC_GF_OP_XOR2 5 0 0; mkop EC_GF_OP_XOR2 4 6 0;
       mkop EC_GF_OP_XOR2 1 3 0; mkop EC_GF_OP_XOR2 0 7 0; mkop EC_GF_OP_XOR2 3 5 0;
       mkop EC_GF_OP_XOR2 7 1 0; mkop EC_GF_OP_XOR2 5 2 0; mkop EC_GF_OP_END 0 0 0];
  (* 2C *) mkmul 8 [5; 6; 7; 0; 2; 3; 4; 1]
      [mkop EC_GF_OP_XOR2 3 4 0; mkop EC_GF_OP_XOR2 4 7 0; mkop EC_GF_OP_XOR2 2 1 0;
       mkop EC_GF_OP_XOR2 6 4 0; mkop EC_GF_OP_XOR2 2 3 0; mkop EC_GF_OP_XOR2 3 6 0;
       mkop EC_GF_OP_XOR2 5 3 0; mkop EC_GF_OP_XOR2 1 5 0; mkop EC_GF_OP_XOR2 3 0 0;
       mkop EC_GF_OP_XOR2 4 1 0; mkop EC_GF_OP_XOR2 7 3 0; mkop EC_GF_OP_XOR2 1 2 0;
       mkop EC_GF_OP_XOR2 0 4 0; mkop EC_GF_OP_XOR2 3 1 0; mkop EC_GF_OP_END 0 0 0];
  (* 2D *) mkmul 9 [7; 0; 3; 5; 1; 4; 2; 6; 8]
      [mkop EC_GF_OP_XOR2 3 2 0; mkop EC_GF_OP_XOR2 1 3 0; mkop EC_GF_OP_XOR2 3 0 0;
       mkop EC_GF_OP_XOR2 4 3 0; mkop EC_GF_OP_XOR2 3 6 0; mkop EC_GF_OP_XOR2 6 1 0;
       mkop EC_GF_OP_XOR2 2 3 0; mkop EC_GF_OP_XOR3 8 4 6; mkop EC_GF_OP_XOR2 5 8 0;
       mkop EC_GF_OP_XOR2 7 8 0; mkop EC_GF_OP_XOR2 2 5 0; mkop EC_GF_OP_XOR2 0 7 0;
       mkop EC_GF_OP_XOR2 6 2 0; mkop EC_GF_OP_XOR2 7 2 0; mkop EC_GF_OP_END 0 0 0];
  (* 2E *) mkmul 9 [5; 0; 7; 3; 2; 6; 4; 1; 8]
      [mkop EC_GF_OP_XOR2 4 1 0; mkop EC_GF_OP_XOR2 0 1 0; mkop EC_GF_OP_COPY 8 4 0;
       mkop EC_GF_OP_XOR2 3 6 0; mkop EC_GF_OP_XOR2 1 5 0; mkop EC_GF_OP_XOR2 4 3 0;
       mkop EC_GF_OP_XOR2 8 7 0; mkop EC_GF_OP_XOR2 5 3 0; mkop EC_GF_OP_XOR2 2 8 0;
       mkop EC_GF_OP_XOR2 3 0 0; mkop EC_GF_OP_XOR2 6 8 0; mkop EC_GF_OP_XOR2 1 2 0;
       mkop EC_GF_OP_XOR2 7 3 0; mkop EC_GF_OP_XOR2 0 6 0; mkop EC_GF_OP_XOR2 3 1 0;
       mkop EC_GF_OP_XOR2 6 3 0; mkop EC_GF_OP_END 0 0 0];
  (* 2F *) mkmul 9 [6; 3; 2; 5; 7; 0; 1; 4; 8]
      [mkop EC_GF_OP_XOR2 0 2 0; mkop EC_GF_OP_XOR2 0 3 0; mkop EC_GF_OP_XOR2 7 1 0;
       mkop EC_GF_OP_XOR2 6 0 0; mkop EC_GF_OP_XOR2 7 2 0; mkop EC_GF_OP_XOR2 3 4 0;
       mkop EC_GF_OP_XOR3 8 7 6; mkop EC_GF_OP_XOR2 1 3 0; mkop EC_GF_OP_XOR2 5 2 0;
       mkop EC_GF_OP_XOR2 3 8 0; mkop EC_GF_OP_XOR2 2 8 0; mkop EC_GF_OP_XOR2 4 5 0;
       mkop EC_GF_OP_XOR2 6 5 0; mkop EC_GF_OP_XOR2 5 3 0; mkop EC_GF_OP_END 0 0 0]].

(** [ec_gf8_mul_30] to [ec_gf8_mul_3F]. *)
Definition ec_gf8_mul_3x : list ec_gf_mul_t := [
  (* 30 *) mkmul 9 [3; 4; 7; 5; 0; 6; 1; 2; 8]
      [mkop EC_GF_OP_COPY 8 0 0; mkop EC_GF_OP_XOR2 8 1 0; mkop EC_GF_OP_XOR2 1 2 0;
       mkop EC_GF_OP_XOR2 7 4 0; mkop EC_GF_OP_XOR2 6 3 0; mkop EC_GF_OP_XOR2 3 7 0;
       mkop EC_GF_OP_XOR2 0 6 0; mkop EC_GF_OP_XOR2 1 5 0; mkop EC_GF_OP_XOR2 4 5 0;
       mkop EC_GF_OP_XOR2 2 6 0; mkop EC_GF_OP_XOR2 5 6 0; mkop EC_GF_OP_XOR3 6 8 7;
       mkop EC_GF_OP_XOR2 7 5 0; mkop EC_GF_OP_END 0 0 0];
  (* 31 *) mkmul 8 [7; 1; 4; 5; 6; 0; 2; 3]
      [mkop EC_GF_OP_XOR2 3 0 0; mkop EC_GF_OP_XOR2 3 4 0; mkop EC_GF_OP_XOR2 4 5 0;
       mkop EC_GF_OP_XOR2 2 1 0; mkop EC_GF_OP_XOR2 1 4 0; mkop EC_GF_OP_XOR2 5 6 0;
       mkop EC_GF_OP_XOR2 6 3 0; mkop EC_GF_OP_XOR2 0 7 0; mkop EC_GF_OP_XOR2 2 5 0;
       mkop EC_GF_OP_XOR2 7 3 0; mkop EC_GF_OP_XOR2 0 1 0; mkop EC_GF_OP_XOR2 3 2 0;
       mkop EC_GF_OP_XOR2 3 0 0; mkop EC_GF_OP_XOR2 4 3 0; mkop EC_GF_OP_END 0 0 0];
  (* 32 *) mkmul 8 [3; 4; 6; 7; 5; 0; 1; 2]
      [mkop EC_GF_OP_XOR2 6 5 0; mkop EC_GF_OP_XOR2 5 0 0; mkop EC_GF_OP_XOR2 0 1 0;
       mkop EC_GF_OP_XOR2 0 7 0; mkop EC_GF_OP_XOR2 7 6 0; mkop EC_GF_OP_XOR2 6 1 0;
       mkop EC_GF_OP_XOR2 1 2 0; mkop EC_GF_OP_XOR2 2 3 0; mkop EC_GF_OP_XOR2 3 4 0;
       mkop EC_GF_OP_XOR2 4 5 0; mkop EC_GF_OP_XOR2 6 3 0; mkop EC_GF_OP_XOR2 5 7 0;
       mkop EC_GF_OP_XOR2 7 2 0; mkop EC_GF_OP_END 0 0 0];
  (* 33 *) mkmul 8 [5; 4; 3; 0; 2; 1; 6; 7]
      [mkop EC_GF_OP_XOR2 3 2 0; mkop EC_GF_OP_XOR2 2 1 0; mkop EC_GF_OP_XOR2 1 0 0;
       mkop EC_GF_OP_XOR2 1 5 0; mkop EC_GF_OP_XOR2 4 1 0; mkop EC_GF_OP_XOR2 6 2 0;
       mkop EC_GF_OP_XOR2 1 7 0; mkop EC_GF_OP_XOR2 2 4 0; mkop EC_GF_OP_XOR2 7 3 0;
       mkop EC_GF_OP_XOR2 0 6 0; mkop EC_GF_OP_XOR2 3 2 0; mkop EC_GF_OP_XOR2 5 3 0;
       mkop EC_GF_OP_XOR2 3 0 0; mkop EC_GF_OP_XOR2 0 1 0; mkop EC_GF_OP_XOR2 2 0 0;
       mkop EC_GF_OP_END 0 0 0];
  (* 34 *) mkmul 8 [7; 5; 3; 0; 2; 4; 1; 6]
      [mkop EC_GF_OP_XOR2 5 4 0; mkop EC_GF_OP_XOR2 4 3 0; mkop EC_GF_OP_XOR2 2 5 0;
       mkop EC_GF_OP_XOR2 6 4 0; mkop EC_GF_OP_XOR2 5 7 0; mkop EC_GF_OP_XOR2 4 0 0;
       mkop EC_GF_OP_XOR2 7 6 0; mkop EC_GF_OP_XOR2 0 5 0; mkop EC_GF_OP_XOR2 6 2 0;
       mkop EC_GF_OP_XOR2 4 1 0; mkop EC_GF_OP_XOR2 3 0 0; mkop EC_GF_OP_XOR2 1 2 0;
       mkop EC_GF_OP_XOR2 0 4 0; mkop EC_GF_OP_XOR2 2 3 0; mkop EC_GF_OP_END 0 0 0];
  (* 35 *) mkmul 8 [6; 7; 5; 4; 2; 0; 1; 3]
      [mkop EC_GF_OP_XOR2 0 1 0; mkop EC_GF_OP_XOR2 1 4 0; mkop EC_GF_OP_XOR2 7 1 0;
       mkop EC_GF_OP_XOR2 3 7 0; mkop EC_GF_OP_XOR2 0 3 0; mkop EC_GF_OP_XOR2 7 5 0;
       mkop EC_GF_OP_XOR2 2 0 0; mkop EC_GF_OP_XOR2 4 7 0; mkop EC_GF_OP_XOR2 5 2 0;
       mkop EC_GF_OP_XOR2 6 0 0; mkop EC_GF_OP_XOR2 1 5 0; mkop EC_GF_OP_XOR2 0 4 0;
       mkop EC_GF_OP_XOR2 1 6 0; mkop EC_GF_OP_XOR2 3 1 0; mkop EC_GF_OP_END 0 0 0];
  (* 36 *) mkmul 8 [6; 7; 4; 1; 2; 3; 0; 5]
      [mkop EC_GF_OP_XOR2 5 2 0; mkop EC_GF_OP_XOR2 2 0 0; mkop EC_GF_OP_XOR2 6 4 0;
       mkop EC_GF_OP_XOR2 4 2 0; mkop EC_GF_OP_XOR2 7 4 0; mkop EC_GF_OP_XOR2 0 1 0;
       mkop EC_GF_OP_XOR2 6 3 0; mkop EC_GF_OP_XOR2 7 5 0; mkop EC_GF_OP_XOR2 5 3 0;
       mkop EC_GF_OP_XOR2 3 0 0; mkop EC_GF_OP_XOR2 1 5 0; mkop EC_GF_OP_XOR2 0 4 0;
       mkop EC_GF_OP_XOR2 4 1 0; mkop EC_GF_OP_END 0 0 0];
  (* 37 *) mkmul 9 [6; 7; 2; 1; 0; 3; 4; 5; 8]
      [mkop EC_GF_OP_XOR2 1 2 0; mkop EC_GF_OP_XOR2 0 2 0; mkop EC_GF_OP_XOR2 6 1 0;
       mkop EC_GF_OP_XOR2 0 4 0; mkop EC_GF_OP_XOR2 1 5 0; mkop EC_GF_OP_XOR3 8 0 1;
       mkop EC_GF_OP_XOR2 3 8 0; mkop EC_GF_OP_XOR2 7 8 0; mkop EC_GF_OP_XOR2 2 3 0;
       mkop EC_GF_OP_XOR2 3 4 0; mkop EC_GF_OP_XOR2 5 2 0; mkop EC_GF_OP_XOR2 4 6 0;
       mkop EC_GF_OP_XOR2 6 5 0; mkop EC_GF_OP_XOR2 5 7 0; mkop EC_GF_OP_END 0 0 0];
  (* 38 *) mkmul 9 [4; 5; 6; 3; 0; 1; 7; 2; 8]
      [mkop EC_GF_OP_XOR2 6 4 0; mkop EC_GF_OP_XOR2 5 6 0; mkop EC_GF_OP_XOR2 6 3 0;
       mkop EC_GF_OP_XOR2 3 0 0; mkop EC_GF_OP_XOR2 2 6 0; mkop EC_GF_OP_XOR2 7 5 0;
       mkop EC_GF_OP_XOR2 0 1 0; mkop EC_GF_OP_XOR3 8 6 7; mkop EC_GF_OP_XOR2 1 2 0;
       mkop EC_GF_OP_XOR2 7 1 0; mkop EC_GF_OP_XOR2 0 8 0; mkop EC_GF_OP_XOR2 4 8 0;
       mkop EC_GF_OP_XOR2 1 3 0; mkop EC_GF_OP_END 0 0 0];
  (* 39 *) mkmul 8 [1; 6; 3; 0; 5; 2; 4; 7]
      [mkop EC_GF_OP_XOR2 5 1 0; mkop EC_GF_OP_XOR2 4 5 0; mkop EC_GF_OP_XOR2 6 4 0;
       mkop EC_GF_OP_XOR2 2 0 0; mkop EC_GF_OP_XOR2 2 6 0; mkop EC_GF_OP_XOR2 3 0 0;
       mkop EC_GF_OP_XOR2 5 2 0; mkop EC_GF_OP_XOR2 3 5 0; mkop EC_GF_OP_XOR2 7 3 0;
       mkop EC_GF_OP_XOR2 4 7 0; mkop EC_GF_OP_XOR2 5 4 0; mkop EC_GF_OP_XOR2 1 5 0;
       mkop EC_GF_OP_END 0 0 0];
  (* 3A *) mkmul 8 [3; 4; 7; 0; 5; 6; 1; 2]
      [mkop EC_GF_OP_XOR2 6 1 0; mkop EC_GF_OP_XOR2 7 3 0; mkop EC_GF_OP_XOR2 1 0 0;
       mkop EC_GF_OP_XOR2 3 4 0; mkop EC_GF_OP_XOR2 0 2 0; mkop EC_GF_OP_XOR2 4 6 0;
       mkop EC_GF_OP_XOR2 2 3 0; mkop EC_GF_OP_XOR2 6 0 0; mkop EC_GF_OP_XOR2 3 5 0;
       mkop EC_GF_OP_XOR2 0 7 0; mkop EC_GF_OP_XOR2 5 1 0; mkop EC_GF_OP_XOR2 7 4 0;
       mkop EC_GF_OP_XOR2 1 0 0; mkop EC_GF_OP_XOR2 4 5 0; mkop EC_GF_OP_END 0 0 0];
  (* 3B *) mkmul 9 [3; 0; 1; 7; 6; 2; 4; 8; 5]
      [mkop EC_GF_OP_XOR2 2 0 0; mkop EC_GF_OP_XOR2 0 4 0; mkop EC_GF_OP_XOR2 3 0 0;
       mkop EC_GF_OP_XOR2 7 2 0; mkop EC_GF_OP_XOR3 8 7 3; mkop EC_GF_OP_XOR2 1 6 0;
       mkop EC_GF_OP_XOR2 3 5 0; mkop EC_GF_OP_XOR2 5 1 0; mkop EC_GF_OP_XOR2 1 8 0;
       mkop EC_GF_OP_XOR2 0 5 0; mkop EC_GF_OP_XOR2 2 5 0; mkop EC_GF_OP_XOR2 4 1 0;
       mkop EC_GF_OP_XOR2 6 0 0; mkop EC_GF_OP_END 0 0 0];
  (* 3C *) mkmul 8 [3; 6; 4; 1; 7; 2; 0; 5]
      [mkop EC_GF_OP_XOR2 7 5 0; mkop EC_GF_OP_XOR2 7 4 0; mkop EC_GF_OP_XOR2 1 0 0;
       mkop EC_GF_OP_XOR2 6 7 0; mkop EC_GF_OP_XOR2 0 3 0; mkop EC_GF_OP_XOR2 3 6 0;
       mkop EC_GF_OP_XOR2 5 3 0; mkop EC_GF_OP_XOR2 1 5 0; mkop EC_GF_OP_XOR2 2 1 0;
       mkop EC_GF_OP_XOR2 1 4 0; mkop EC_GF_OP_XOR2 7 2 0; mkop EC_GF_OP_XOR2 4 0 0;
       mkop EC_GF_OP_XOR2 5 7 0; mkop EC_GF_OP_XOR2 0 5 0; mkop EC_GF_OP_XOR2 5 1 0;
       mkop EC_GF_OP_END 0 0 0];
  (* 3D *) mkmul 8 [2; 3; 4; 5; 6; 7; 0; 1]
      [mkop EC_GF_OP_XOR2 2 0 0; mkop EC_GF_OP_XOR2 3 2 0; mkop EC_GF_OP_XOR2 5 1 0;
       mkop EC_GF_OP_XOR2 4 3 0; mkop EC_GF_OP_XOR2 5 4 0; mkop EC_GF_OP_XOR2 6 5 0;
       mkop EC_GF_OP_XOR2 7 6 0; mkop EC_GF_OP_XOR2 0 7 0; mkop EC_GF_OP_XOR2 3 7 0;
       mkop EC_GF_OP_XOR2 1 0 0; mkop EC_GF_OP_XOR2 2 1 0; mkop EC_GF_OP_XOR2 5 1 0;
       mkop EC_GF_OP_END 0 0 0];
  (* 3E *) mkmul 8 [6; 1; 2; 7; 0; 3; 5; 4]
      [mkop EC_GF_OP_XOR2 3 5 0; mkop EC_GF_OP_XOR2 4 3 0; mkop EC_GF_OP_XOR2 6 4 0;
       mkop EC_GF_OP_XOR2 4 2 0; mkop EC_GF_OP_XOR2 1 7 0; mkop EC_GF_OP_XOR2 1 4 0;
       mkop EC_GF_OP_XOR2 5 1 0; mkop EC_GF_OP_XOR2 0 5 0; mkop EC_GF_OP_XOR2 2 0 0;
       mkop EC_GF_OP_XOR2 0 6 0; mkop EC_GF_OP_XOR2 3 0 0; mkop EC_GF_OP_XOR2 7 3 0;
       mkop EC_GF_OP_XOR2 1 7 0; mkop EC_GF_OP_END 0 0 0];
  (* 3F *) mkmul 11 [1; 7; 6; 2; 4; 3; 5; 0; 8; 9; 10]
      [mkop EC_GF_OP_COPY 8 0 0; mkop EC_GF_OP_XOR2 0 1 0; mkop EC_GF_OP_COPY 10 4 0;
       mkop EC_GF_OP_XOR2 0 6 0; mkop EC_GF_OP_XOR2 4 5 0; mkop EC_GF_OP_XOR2 4 0 0;
       mkop EC_GF_OP_XOR2 1 3 0; mkop EC_GF_OP_COPY 9 2 0; mkop EC_GF_OP_XOR2 1 4 0;
       mkop EC_GF_OP_XOR2 2 0 0; mkop EC_GF_OP_XOR2 7 4 0; mkop EC_GF_OP_XOR3 4 9 7;
       mkop EC_GF_OP_XOR2 3 4 0; mkop EC_GF_OP_XOR2 5 3 0; mkop EC_GF_OP_XOR2 0 3 0;
       mkop EC_GF_OP_XOR2 6 5 0; mkop EC_GF_OP_XOR2 3 10 0; mkop EC_GF_OP_XOR2 5 8 0;
       mkop EC_GF_OP_END 0 0 0]].

(** [ec_gf8_mul_40] to [ec_gf8_mul_4F]. *)
Definition ec_gf8_mul_4x : list ec_gf_mul_t := [
  (* 40 *) mkmul 9 [5; 7; 4; 6; 2; 3; 0; 1; 8]
      [mkop EC_GF_OP_XOR2 1 2 0; mkop EC_GF_OP_XOR2 2 3 0; mkop EC_GF_OP_XOR2 2 4 0;
       mkop EC_GF_OP_XOR2 4 5 0; mkop EC_GF_OP_XOR2 6 4 0; mkop EC_GF_OP_XOR2 0 6 0;
       mkop EC_GF_OP_XOR2 7 3 0; mkop EC_GF_OP_XOR2 6 2 0; mkop EC_GF_OP_XOR2 3 4 0;
       mkop EC_GF_OP_XOR3 8 7 6; mkop EC_GF_OP_XOR2 1 8 0; mkop EC_GF_OP_XOR2 5 8 0;
       mkop EC_GF_OP_XOR2 4 8 0; mkop EC_GF_OP_END 0 0 0];
  (* 41 *) mkmul 9 [0; 7; 6; 5; 3; 4; 8; 1; 2]
      [mkop EC_GF_OP_COPY 8 0 0; mkop EC_GF_OP_XOR2 8 4 0; mkop EC_GF_OP_XOR2 8 5 0;
       mkop EC_GF_OP_XOR2 5 6 0; mkop EC_GF_OP_XOR2 0 2 0; mkop EC_GF_OP_XOR2 6 7 0;
       mkop EC_GF_OP_XOR2 0 6 0; mkop EC_GF_OP_XOR2 7 1 0; mkop EC_GF_OP_XOR2 6 4 0;
       mkop EC_GF_OP_XOR2 1 5 0; mkop EC_GF_OP_XOR2 7 3 0; mkop EC_GF_OP_XOR2 4 3 0;
       mkop EC_GF_OP_XOR2 5 2 0; mkop EC_GF_OP_XOR2 3 2 0; mkop EC_GF_OP_END 0 0 0];
  (* 42 *) mkmul 9 [2; 7; 1; 6; 4; 3; 0; 5; 8]
      [mkop EC_GF_OP_COPY 8 0 0; mkop EC_GF_OP_XOR2 0 2 0; mkop EC_GF_OP_XOR2 8 3 0;
       mkop EC_GF_OP_XOR2 2 6 0; mkop EC_GF_OP_XOR2 3 5 0; mkop EC_GF_OP_XOR2 4 2 0;
       mkop EC_GF_OP_XOR2 5 1 0; mkop EC_GF_OP_XOR2 0 4 0; mkop EC_GF_OP_XOR2 6 7 0;
       mkop EC_GF_OP_XOR2 1 4 0; mkop EC_GF_OP_XOR2 5 7 0; mkop EC_GF_OP_XOR2 4 6 0;
       mkop EC_GF_OP_XOR2 7 8 0; mkop EC_GF_OP_XOR2 6 3 0; mkop EC_GF_OP_END 0 0 0];
  (* 43 *) mkmul 8 [2; 6; 4; 1; 7; 3; 0; 5]
      [mkop EC_GF_OP_XOR2 5 1 0; mkop EC_GF_OP_XOR2 1 6 0; mkop EC_GF_OP_XOR2 6 0 0;
       mkop EC_GF_OP_XOR2 0 4 0; mkop EC_GF_OP_XOR2 4 1 0; mkop EC_GF_OP_XOR2 1 7 0;
       mkop EC_GF_OP_XOR2 7 2 0; mkop EC_GF_OP_XOR2 2 6 0; mkop EC_GF_OP_XOR2 6 3 0;
       mkop EC_GF_OP_XOR2 6 1 0; mkop EC_GF_OP_XOR2 1 5 0; mkop EC_GF_OP_END 0 0 0];
  (* 44 *) mkmul 8 [2; 3; 4; 1; 6; 5; 0; 7]
      [mkop EC_GF_OP_XOR2 1 6 0; mkop EC_GF_OP_XOR2 4 7 0; mkop EC_GF_OP_XOR2 6 5 0;
       mkop EC_GF_OP_XOR2 5 4 0; mkop EC_GF_OP_XOR2 4 0 0; mkop EC_GF_OP_XOR2 4 2 0;
       mkop EC_GF_OP_XOR2 0 6 0; mkop EC_GF_OP_XOR2 2 7 0; mkop EC_GF_OP_XOR2 6 3 0;
       mkop EC_GF_OP_XOR2 7 1 0; mkop EC_GF_OP_XOR2 1 2 0; mkop EC_GF_OP_XOR2 1 6 0;
       mkop EC_GF_OP_XOR2 6 5 0; mkop EC_GF_OP_END 0 0 0];
  (* 45 *) mkmul 8 [2; 3; 0; 1; 7; 4; 5; 6]
      [mkop EC_GF_OP_XOR2 2 0 0; mkop EC_GF_OP_XOR2 4 7 0; mkop EC_GF_OP_XOR2 2 7 0;
       mkop EC_GF_OP_XOR2 7 3 0; mkop EC_GF_OP_XOR2 7 6 0; mkop EC_GF_OP_XOR2 5 0 0;
       mkop EC_GF_OP_XOR2 6 1 0; mkop EC_GF_OP_XOR2 3 1 0; mkop EC_GF_OP_XOR2 0 4 0;
       mkop EC_GF_OP_XOR2 1 5 0; mkop EC_GF_OP_XOR2 1 2 0; mkop EC_GF_OP_END 0 0 0];
  (* 46 *) mkmul 9 [2; 0; 1; 3; 4; 5; 6; 7; 8]
      [mkop EC_GF_OP_XOR3 8 2 4; mkop EC_GF_OP_XOR2 4 6 0; mkop EC_GF_OP_XOR2 8 0 0;
       mkop EC_GF_OP_XOR2 6 0 0; mkop EC_GF_OP_XOR2 0 3 0; mkop EC_GF_OP_XOR2 3 1 0;
       mkop EC_GF_OP_XOR2 3 5 0; mkop EC_GF_OP_XOR2 5 7 0; mkop EC_GF_OP_XOR2 7 1 0;
       mkop EC_GF_OP_XOR2 1 8 0; mkop EC_GF_OP_END 0 0 0];
  (* 47 *) mkmul 9 [2; 3; 4; 5; 6; 7; 0; 1; 8]
      [mkop EC_GF_OP_XOR3 8 0 1; mkop EC_GF_OP_XOR2 2 0 0; mkop EC_GF_OP_XOR2 3 8 0;
       mkop EC_GF_OP_XOR2 5 1 0; mkop EC_GF_OP_XOR2 4 8 0; mkop EC_GF_OP_END 0 0 0];
  (* 48 *) mkmul 8 [4; 5; 6; 0; 1; 3; 7; 2]
      [mkop EC_GF_OP_XOR2 5 2 0; mkop EC_GF_OP_XOR2 5 4 0; mkop EC_GF_OP_XOR2 6 5 0;
       mkop EC_GF_OP_XOR2 7 6 0; mkop EC_GF_OP_XOR2 2 3 0; mkop EC_GF_OP_XOR2 4 7 0;
       mkop EC_GF_OP_XOR2 3 7 0; mkop EC_GF_OP_XOR2 1 3 0; mkop EC_GF_OP_XOR2 0 2 0;
       mkop EC_GF_OP_XOR2 5 3 0; mkop EC_GF_OP_XOR2 2 1 0; mkop EC_GF_OP_XOR2 7 0 0;
       mkop EC_GF_OP_END 0 0 0];
  (* 49 *) mkmul 9 [7; 2; 4; 0; 3; 5; 1; 6; 8]
      [mkop EC_GF_OP_XOR2 3 0 0; mkop EC_GF_OP_XOR2 0 2 0; mkop EC_GF_OP_XOR2 6 5 0;
       mkop EC_GF_OP_XOR3 8 0 6; mkop EC_GF_OP_XOR2 3 1 0; mkop EC_GF_OP_XOR2 7 8 0;
       mkop EC_GF_OP_XOR2 1 4 0; mkop EC_GF_OP_XOR2 3 7 0; mkop EC_GF_OP_XOR2 4 6 0;
       mkop EC_GF_OP_XOR2 5 3 0; mkop EC_GF_OP_XOR2 6 1 0; mkop EC_GF_OP_XOR2 2 5 0;
       mkop EC_GF_OP_XOR2 5 1 0; mkop EC_GF_OP_XOR3 1 8 5; mkop EC_GF_OP_END 0 0 0];
  (* 4A *) mkmul 8 [5; 6; 7; 0; 1; 3; 4; 2]
      [mkop EC_GF_OP_XOR2 2 6 0; mkop EC_GF_OP_XOR2 1 4 0; mkop EC_GF_OP_XOR2 3 7 0;
       mkop EC_GF_OP_XOR2 5 2 0; mkop EC_GF_OP_XOR2 1 5 0; mkop EC_GF_OP_XOR2 0 3 0;
       mkop EC_GF_OP_XOR2 7 1 0; mkop EC_GF_OP_XOR2 6 0 0; mkop EC_GF_OP_XOR2 3 5 0;
       mkop EC_GF_OP_XOR2 2 7 0; mkop EC_GF_OP_XOR2 4 6 0; mkop EC_GF_OP_END 0 0 0];
  (* 4B *) mkmul 9 [5; 3; 6; 7; 0; 2; 4; 1; 8]
      [mkop EC_GF_OP_XOR2 6 7 0; mkop EC_GF_OP_XOR2 7 0 0; mkop EC_GF_OP_XOR2 0 1 0;
       mkop EC_GF_OP_XOR2 1 4 0; mkop EC_GF_OP_XOR3 8 3 7; mkop EC_GF_OP_XOR2 3 6 0;
       mkop EC_GF_OP_XOR2 1 5 0; mkop EC_GF_OP_XOR2 4 8 0; mkop EC_GF_OP_XOR2 2 3 0;
       mkop EC_GF_OP_XOR2 5 8 0; mkop EC_GF_OP_XOR2 3 0 0; mkop EC_GF_OP_XOR2 6 1 0;
       mkop EC_GF_OP_XOR2 5 2 0; mkop EC_GF_OP_XOR2 0 5 0; mkop EC_GF_OP_END 0 0 0];
  (* 4C *) mkmul 8 [5; 3; 4; 7; 0; 6; 2; 1]
      [mkop EC_GF_OP_XOR2 5 2 0; mkop EC_GF_OP_XOR2 2 0 0; mkop EC_GF_OP_XOR2 3 6 0;
       mkop EC_GF_OP_XOR2 2 3 0; mkop EC_GF_OP_XOR2 4 5 0; mkop EC_GF_OP_XOR2 1 2 0;
       mkop EC_GF_OP_XOR2 5 7 0; mkop EC_GF_OP_XOR2 6 4 0; mkop EC_GF_OP_XOR2 7 1 0;
       mkop EC_GF_OP_XOR2 4 0 0; mkop EC_GF_OP_XOR2 1 6 0; mkop EC_GF_OP_XOR2 2 5 0;
       mkop EC_GF_OP_XOR2 0 1 0; mkop EC_GF_OP_XOR2 1 2 0; mkop EC_GF_OP_END 0 0 0];
  (* 4D *) mkmul 10 [0; 9; 3; 5; 6; 4; 7; 1; 2; 8]
      [mkop EC_GF_OP_COPY 8 3 0; mkop EC_GF_OP_XOR2 3 4 0; mkop EC_GF_OP_XOR2 4 6 0;
       mkop EC_GF_OP_XOR2 0 1 0; mkop EC_GF_OP_XOR2 1 4 0; mkop EC_GF_OP_XOR3 9 3 1;
       mkop EC_GF_OP_XOR2 5 9 0; mkop EC_GF_OP_XOR2 4 2 0; mkop EC_GF_OP_XOR2 6 5 0;
       mkop EC_GF_OP_XOR2 0 6 0; mkop EC_GF_OP_XOR2 7 0 0; mkop EC_GF_OP_XOR2 3 0 0;
       mkop EC_GF_OP_XOR2 2 7 0; mkop EC_GF_OP_XOR3 0 8 2; mkop EC_GF_OP_XOR2 5 2 0;
       mkop EC_GF_OP_END 0 0 0];
  (* 4E *) mkmul 8 [2; 3; 0; 1; 5; 6; 7; 4]
      [mkop EC_GF_OP_XOR2 3 0 0; mkop EC_GF_OP_XOR2 4 1 0; mkop EC_GF_OP_XOR2 0 2 0;
       mkop EC_GF_OP_XOR2 4 7 0; mkop EC_GF_OP_XOR2 2 5 0; mkop EC_GF_OP_XOR2 5 4 0;
       mkop EC_GF_OP_XOR2 3 6 0; mkop EC_GF_OP_XOR2 0 5 0; mkop EC_GF_OP_XOR2 6 2 0;
       mkop EC_GF_OP_XOR2 7 3 0; mkop EC_GF_OP_XOR2 1 3 0; mkop EC_GF_OP_END 0 0 0];
  (* 4F *) mkmul 8 [0; 3; 5; 6; 1; 2; 7; 4]
      [mkop EC_GF_OP_XOR2 4 1 0; mkop EC_GF_OP_XOR2 1 0 0; mkop EC_GF_OP_XOR2 7 0 0;
       mkop EC_GF_OP_XOR2 0 2 0; mkop EC_GF_OP_XOR2 0 5 0; mkop EC_GF_OP_XOR2 2 6 0;
       mkop EC_GF_OP_XOR2 5 7 0; mkop EC_GF_OP_XOR2 6 1 0; mkop EC_GF_OP_XOR2 7 3 0;
       mkop EC_GF_OP_XOR2 1 5 0; mkop EC_GF_OP_XOR2 3 6 0; mkop EC_GF_OP_XOR2 5 4 0;
       mkop EC_GF_OP_END 0 0 0]].

(** [ec_gf8_mul_50] to [ec_gf8_mul_5F]. *)
Definition ec_gf8_mul_5x : list ec_gf_mul_t := [
  (* 50 *) mkmul 8 [4; 5; 7; 3; 0; 1; 2; 6]
      [mkop EC_GF_OP_XOR2 5 3 0; mkop EC_GF_OP_XOR2 4 6 0; mkop EC_GF_OP_XOR2 6 5 0;
       mkop EC_GF_OP_XOR2 5 7 0; mkop EC_GF_OP_XOR2 7 2 0; mkop EC_GF_OP_XOR2 0 2 0;
       mkop EC_GF_OP_XOR2 4 7 0; mkop EC_GF_OP_XOR2 0 6 0; mkop EC_GF_OP_XOR2 3 4 0;
       mkop EC_GF_OP_XOR2 6 1 0; mkop EC_GF_OP_XOR2 2 3 0; mkop EC_GF_OP_XOR2 1 2 0;
       mkop EC_GF_OP_XOR2 2 0 0; mkop EC_GF_OP_END 0 0 0];
  (* 51 *) mkmul 8 [0; 1; 7; 2; 3; 4; 5; 6]
      [mkop EC_GF_OP_XOR2 2 1 0; mkop EC_GF_OP_XOR2 3 5 0; mkop EC_GF_OP_XOR2 2 3 0;
       mkop EC_GF_OP_XOR2 3 7 0; mkop EC_GF_OP_XOR2 1 3 0; mkop EC_GF_OP_XOR2 6 1 0;
       mkop EC_GF_OP_XOR2 4 6 0; mkop EC_GF_OP_XOR2 2 4 0; mkop EC_GF_OP_XOR2 0 2 0;
       mkop EC_GF_OP_XOR2 5 0 0; mkop EC_GF_OP_XOR2 3 0 0; mkop EC_GF_OP_END 0 0 0];
  (* 52 *) mkmul 10 [2; 3; 1; 4; 6; 7; 0; 5; 8; 9]
      [mkop EC_GF_OP_XOR2 0 2 0; mkop EC_GF_OP_XOR2 0 7 0; mkop EC_GF_OP_COPY 8 0 0;
       mkop EC_GF_OP_XOR2 0 4 0; mkop EC_GF_OP_XOR2 4 6 0; mkop EC_GF_OP_COPY 9 4 0;
       mkop EC_GF_OP_XOR2 4 3 0; mkop EC_GF_OP_XOR2 3 1 0; mkop EC_GF_OP_XOR2 5 3 0;
       mkop EC_GF_OP_XOR2 6 3 0; mkop EC_GF_OP_XOR2 1 2 0; mkop EC_GF_OP_XOR3 3 5 8;
       mkop EC_GF_OP_XOR2 7 6 0; mkop EC_GF_OP_XOR2 2 9 0; mkop EC_GF_OP_XOR2 6 3 0;
       mkop EC_GF_OP_XOR2 3 1 0; mkop EC_GF_OP_END 0 0 0];
  (* 53 *) mkmul 8 [2; 0; 1; 4; 5; 6; 7; 3]
      [mkop EC_GF_OP_XOR2 2 0 0; mkop EC_GF_OP_XOR2 3 1 0; mkop EC_GF_OP_XOR2 4 6 0;
       mkop EC_GF_OP_XOR2 2 4 0; mkop EC_GF_OP_XOR2 5 7 0; mkop EC_GF_OP_XOR2 3 5 0;
       mkop EC_GF_OP_XOR2 7 2 0; mkop EC_GF_OP_XOR2 5 2 0; mkop EC_GF_OP_XOR2 6 3 0;
       mkop EC_GF_OP_XOR2 0 3 0; mkop EC_GF_OP_END 0 0 0];
  (* 54 *) mkmul 8 [7; 3; 0; 4; 2; 6; 5; 1]
      [mkop EC_GF_OP_XOR2 7 2 0; mkop EC_GF_OP_XOR2 0 7 0; mkop EC_GF_OP_XOR2 7 4 0;
       mkop EC_GF_OP_XOR2 4 1 0; mkop EC_GF_OP_XOR2 2 3 0; mkop EC_GF_OP_XOR2 1 3 0;
       mkop EC_GF_OP_XOR2 3 5 0; mkop EC_GF_OP_XOR2 1 6 0; mkop EC_GF_OP_XOR2 5 0 0;
       mkop EC_GF_OP_XOR2 0 6 0; mkop EC_GF_OP_XOR2 6 4 0; mkop EC_GF_OP_XOR2 4 2 0;
       mkop EC_GF_OP_XOR2 2 5 0; mkop EC_GF_OP_END 0 0 0];
  (* 55 *) mkmul 8 [1; 5; 6; 4; 3; 7; 2; 0]
      [mkop EC_GF_OP_XOR2 4 2 0; mkop EC_GF_OP_XOR2 7 0 0; mkop EC_GF_OP_XOR2 4 1 0;
       mkop EC_GF_OP_XOR2 3 1 0; mkop EC_GF_OP_XOR2 6 7 0; mkop EC_GF_OP_XOR2 2 5 0;
       mkop EC_GF_OP_XOR2 7 4 0; mkop EC_GF_OP_XOR2 5 3 0; mkop EC_GF_OP_XOR2 2 6 0;
       mkop EC_GF_OP_XOR2 1 7 0; mkop EC_GF_OP_XOR2 3 6 0; mkop EC_GF_OP_XOR2 7 2 0;
       mkop EC_GF_OP_XOR2 0 3 0; mkop EC_GF_OP_XOR2 3 7 0; mkop EC_GF_OP_END 0 0 0];
  (* 56 *) mkmul 8 [2; 3; 0; 4; 5; 6; 7; 1]
      [mkop EC_GF_OP_XOR2 5 0 0; mkop EC_GF_OP_XOR2 6 1 0; mkop EC_GF_OP_XOR2 0 2 0;
       mkop EC_GF_OP_XOR2 1 3 0; mkop EC_GF_OP_XOR2 2 4 0; mkop EC_GF_OP_XOR2 3 5 0;
       mkop EC_GF_OP_XOR2 4 1 0; mkop EC_GF_OP_XOR2 4 7 0; mkop EC_GF_OP_XOR2 7 0 0;
       mkop EC_GF_OP_XOR2 0 6 0; mkop EC_GF_OP_END 0 0 0];
  (* 57 *) mkmul 8 [2; 3; 0; 1; 4; 5; 6; 7]
      [mkop EC_GF_OP_XOR2 2 0 0; mkop EC_GF_OP_XOR2 5 0 0; mkop EC_GF_OP_XOR2 0 1 0;
       mkop EC_GF_OP_XOR2 0 6 0; mkop EC_GF_OP_XOR2 3 1 0; mkop EC_GF_OP_XOR2 6 7 0;
       mkop EC_GF_OP_XOR2 1 4 0; mkop EC_GF_OP_XOR2 6 2 0; mkop EC_GF_OP_XOR2 1 7 0;
       mkop EC_GF_OP_XOR2 2 4 0; mkop EC_GF_OP_XOR2 7 3 0; mkop EC_GF_OP_XOR2 4 5 0;
       mkop EC_GF_OP_XOR2 3 5 0; mkop EC_GF_OP_XOR2 5 0 0; mkop EC_GF_OP_END 0 0 0];
  (* 58 *) mkmul 8 [4; 3; 2; 7; 0; 1; 5; 6]
      [mkop EC_GF_OP_XOR2 3 2 0; mkop EC_GF_OP_XOR2 2 5 0; mkop EC_GF_OP_XOR2 4 3 0;
       mkop EC_GF_OP_XOR2 5 0 0; mkop EC_GF_OP_XOR2 0 1 0; mkop EC_GF_OP_XOR2 5 4 0;
       mkop EC_GF_OP_XOR2 3 7 0; mkop EC_GF_OP_XOR2 1 4 0; mkop EC_GF_OP_XOR2 7 5 0;
       mkop EC_GF_OP_XOR2 0 3 0; mkop EC_GF_OP_XOR2 6 2 0; mkop EC_GF_OP_XOR2 3 6 0;
       mkop EC_GF_OP_XOR2 6 1 0; mkop EC_GF_OP_XOR2 4 3 0; mkop EC_GF_OP_END 0 0 0];
  (* 59 *) mkmul 8 [7; 3; 5; 6; 1; 2; 0; 4]
      [mkop EC_GF_OP_XOR2 0 1 0; mkop EC_GF_OP_XOR2 1 3 0; mkop EC_GF_OP_XOR2 1 5 0;
       mkop EC_GF_OP_XOR2 2 4 0; mkop EC_GF_OP_XOR2 0 6 0; mkop EC_GF_OP_XOR2 2 1 0;
       mkop EC_GF_OP_XOR2 0 2 0; mkop EC_GF_OP_XOR2 3 0 0; mkop EC_GF_OP_XOR2 7 3 0;
       mkop EC_GF_OP_XOR2 6 7 0; mkop EC_GF_OP_XOR2 1 6 0; mkop EC_GF_OP_XOR2 3 1 0;
       mkop EC_GF_OP_XOR2 4 3 0; mkop EC_GF_OP_END 0 0 0];
  (* 5A *) mkmul 8 [6; 7; 0; 1; 2; 3; 5; 4]
      [mkop EC_GF_OP_XOR2 5 2 0; mkop EC_GF_OP_XOR2 2 1 0; mkop EC_GF_OP_XOR2 4 5 0;
       mkop EC_GF_OP_XOR2 3 2 0; mkop EC_GF_OP_XOR2 6 4 0; mkop EC_GF_OP_XOR2 4 3 0;
       mkop EC_GF_OP_XOR2 2 0 0; mkop EC_GF_OP_XOR2 0 4 0; mkop EC_GF_OP_XOR2 1 0 0;
       mkop EC_GF_OP_XOR2 5 1 0; mkop EC_GF_OP_XOR2 7 5 0; mkop EC_GF_OP_XOR2 0 7 0;
       mkop EC_GF_OP_XOR2 7 6 0; mkop EC_GF_OP_END 0 0 0];
  (* 5B *) mkmul 8 [6; 0; 7; 5; 2; 1; 3; 4]
      [mkop EC_GF_OP_XOR2 0 4 0; mkop EC_GF_OP_XOR2 1 5 0; mkop EC_GF_OP_XOR2 4 3 0;
       mkop EC_GF_OP_XOR2 5 0 0; mkop EC_GF_OP_XOR2 3 2 0; mkop EC_GF_OP_XOR2 2 5 0;
       mkop EC_GF_OP_XOR2 0 6 0; mkop EC_GF_OP_XOR2 6 2 0; mkop EC_GF_OP_XOR2 7 1 0;
       mkop EC_GF_OP_XOR2 2 1 0; mkop EC_GF_OP_XOR2 1 3 0; mkop EC_GF_OP_XOR2 4 7 0;
       mkop EC_GF_OP_XOR2 3 0 0; mkop EC_GF_OP_XOR2 0 4 0; mkop EC_GF_OP_END 0 0 0];
  (* 5C *) mkmul 9 [7; 5; 2; 4; 1; 0; 6; 3; 8]
      [mkop EC_GF_OP_COPY 8 3 0; mkop EC_GF_OP_XOR2 3 6 0; mkop EC_GF_OP_XOR2 4 1 0;
       mkop EC_GF_OP_XOR2 5 3 0; mkop EC_GF_OP_XOR2 1 0 0; mkop EC_GF_OP_XOR2 0 5 0;
       mkop EC_GF_OP_XOR2 1 3 0; mkop EC_GF_OP_XOR2 2 0 0; mkop EC_GF_OP_XOR2 3 4 0;
       mkop EC_GF_OP_XOR2 4 2 0; mkop EC_GF_OP_XOR2 6 2 0; mkop EC_GF_OP_XOR2 7 4 0;
       mkop EC_GF_OP_XOR2 2 8 0; mkop EC_GF_OP_XOR2 0 7 0; mkop EC_GF_OP_XOR2 7 1 0;
       mkop EC_GF_OP_END 0 0 0];
  (* 5D *) mkmul 8 [1; 3; 5; 4; 6; 7; 2; 0]
      [mkop EC_GF_OP_XOR2 4 1 0; mkop EC_GF_OP_XOR2 1 0 0; mkop EC_GF_OP_XOR2 6 0 0;
       mkop EC_GF_OP_XOR2 4 3 0; mkop EC_GF_OP_XOR2 5 6 0; mkop EC_GF_OP_XOR2 6 4 0;
       mkop EC_GF_OP_XOR2 3 5 0; mkop EC_GF_OP_XOR2 7 6 0; mkop EC_GF_OP_XOR2 2 3 0;
       mkop EC_GF_OP_XOR2 0 7 0; mkop EC_GF_OP_XOR2 3 1 0; mkop EC_GF_OP_XOR2 7 2 0;
       mkop EC_GF_OP_XOR2 4 2 0; mkop EC_GF_OP_XOR2 1 7 0; mkop EC_GF_OP_END 0 0 0];
  (* 5E *) mkmul 8 [4; 3; 6; 2; 5; 7; 0; 1]
      [mkop EC_GF_OP_XOR2 6 0 0; mkop EC_GF_OP_XOR2 6 5 0; mkop EC_GF_OP_XOR2 1 2 0;
       mkop EC_GF_OP_XOR2 5 2 0; mkop EC_GF_OP_XOR2 2 3 0; mkop EC_GF_OP_XOR2 7 1 0;
       mkop EC_GF_OP_XOR2 3 6 0; mkop EC_GF_OP_XOR2 0 2 0; mkop EC_GF_OP_XOR2 6 7 0;
       mkop EC_GF_OP_XOR2 2 4 0; mkop EC_GF_OP_XOR2 4 5 0; mkop EC_GF_OP_XOR2 1 2 0;
       mkop EC_GF_OP_XOR2 5 6 0; mkop EC_GF_OP_XOR2 2 6 0; mkop EC_GF_OP_END 0 0 0];
  (* 5F *) mkmul 8 [6; 1; 3; 4; 5; 7; 2; 0]
      [mkop EC_GF_OP_XOR2 0 3 0; mkop EC_GF_OP_XOR2 1 5 0; mkop EC_GF_OP_XOR2 0 6 0;
       mkop EC_GF_OP_XOR2 1 0 0; mkop EC_GF_OP_XOR2 7 1 0; mkop EC_GF_OP_XOR2 3 7 0;
       mkop EC_GF_OP_XOR2 2 0 0; mkop EC_GF_OP_XOR2 4 3 0; mkop EC_GF_OP_XOR2 7 2 0;
       mkop EC_GF_OP_XOR2 5 4 0; mkop EC_GF_OP_XOR2 6 5 0; mkop EC_GF_OP_XOR2 0 5 0;
       mkop EC_GF_OP_XOR2 6 7 0; mkop EC_GF_OP_END 0 0 0]].

(** [ec_gf8_mul_60] to [ec_gf8_mul_6F]. *)
Definition ec_gf8_mul_6x : list ec_gf_mul_t := [
  (* 60 *) mkmul 8 [2; 3; 4; 7; 5; 6; 0; 1]
      [mkop EC_GF_OP_XOR2 5 2 0; mkop EC_GF_OP_XOR2 7 4 0; mkop EC_GF_OP_XOR2 4 5 0;
       mkop EC_GF_OP_XOR2 6 3 0; mkop EC_GF_OP_XOR2 2 6 0; mkop EC_GF_OP_XOR2 4 6 0;
       mkop EC_GF_OP_XOR2 3 7 0; mkop EC_GF_OP_XOR2 6 0 0; mkop EC_GF_OP_XOR2 0 1 0;
       mkop EC_GF_OP_XOR2 0 7 0; mkop EC_GF_OP_XOR2 1 5 0; mkop EC_GF_OP_XOR2 7 5 0;
       mkop EC_GF_OP_END 0 0 0];
  (* 61 *) mkmul 8 [0; 5; 6; 7; 4; 2; 1; 3]
      [mkop EC_GF_OP_XOR2 1 2 0; mkop EC_GF_OP_XOR2 6 2 0; mkop EC_GF_OP_XOR2 2 5 0;
       mkop EC_GF_OP_XOR2 4 2 0; mkop EC_GF_OP_XOR2 0 3 0; mkop EC_GF_OP_XOR2 3 4 0;
       mkop EC_GF_OP_XOR2 0 6 0; mkop EC_GF_OP_XOR2 7 3 0; mkop EC_GF_OP_XOR2 2 0 0;
       mkop EC_GF_OP_XOR2 6 3 0; mkop EC_GF_OP_XOR2 1 7 0; mkop EC_GF_OP_XOR2 5 1 0;
       mkop EC_GF_OP_XOR2 1 2 0; mkop EC_GF_OP_XOR2 3 5 0; mkop EC_GF_OP_END 0 0 0];
  (* 62 *) mkmul 8 [2; 0; 3; 4; 5; 6; 7; 1]
      [mkop EC_GF_OP_XOR2 3 7 0; mkop EC_GF_OP_XOR2 1 2 0; mkop EC_GF_OP_XOR2 2 3 0;
       mkop EC_GF_OP_XOR2 3 4 0; mkop EC_GF_OP_XOR2 4 5 0; mkop EC_GF_OP_XOR2 0 3 0;
       mkop EC_GF_OP_XOR2 5 2 0; mkop EC_GF_OP_XOR2 7 0 0; mkop EC_GF_OP_XOR2 2 6 0;
       mkop EC_GF_OP_XOR2 1 5 0; mkop EC_GF_OP_XOR2 6 7 0; mkop EC_GF_OP_XOR2 7 1 0;
       mkop EC_GF_OP_XOR2 1 2 0; mkop EC_GF_OP_XOR2 3 1 0; mkop EC_GF_OP_END 0 0 0];
  (* 63 *) mkmul 8 [3; 4; 6; 5; 7; 0; 1; 2]
      [mkop EC_GF_OP_XOR2 4 3 0; mkop EC_GF_OP_XOR2 5 4 0; mkop EC_GF_OP_XOR2 6 5 0;
       mkop EC_GF_OP_XOR2 1 7 0; mkop EC_GF_OP_XOR2 0 6 0; mkop EC_GF_OP_XOR2 6 1 0;
       mkop EC_GF_OP_XOR2 7 2 0; mkop EC_GF_OP_XOR2 3 0 0; mkop EC_GF_OP_XOR2 4 6 0;
       mkop EC_GF_OP_XOR2 7 5 0; mkop EC_GF_OP_XOR2 1 3 0; mkop EC_GF_OP_XOR2 2 4 0;
       mkop EC_GF_OP_XOR2 3 7 0; mkop EC_GF_OP_XOR2 4 0 0; mkop EC_GF_OP_END 0 0 0];
  (* 64 *) mkmul 9 [2; 3; 4; 6; 5; 7; 8; 1; 0]
      [mkop EC_GF_OP_COPY 8 1 0; mkop EC_GF_OP_XOR2 8 0 0; mkop EC_GF_OP_XOR2 1 2 0;
       mkop EC_GF_OP_XOR2 8 7 0; mkop EC_GF_OP_XOR2 2 3 0; mkop EC_GF_OP_XOR2 3 4 0;
       mkop EC_GF_OP_XOR2 7 6 0; mkop EC_GF_OP_XOR2 4 5 0; mkop EC_GF_OP_XOR2 6 1 0;
       mkop EC_GF_OP_XOR2 5 7 0; mkop EC_GF_OP_XOR2 6 4 0; mkop EC_GF_OP_XOR2 7 0 0;
       mkop EC_GF_OP_XOR2 4 2 0; mkop EC_GF_OP_XOR2 4 0 0; mkop EC_GF_OP_END 0 0 0];
  (* 65 *) mkmul 8 [2; 5; 1; 3; 4; 0; 6; 7]
      [mkop EC_GF_OP_XOR2 6 7 0; mkop EC_GF_OP_XOR2 7 2 0; mkop EC_GF_OP_XOR2 5 6 0;
       mkop EC_GF_OP_XOR2 2 0 0; mkop EC_GF_OP_XOR2 4 5 0; mkop EC_GF_OP_XOR2 2 3 0;
       mkop EC_GF_OP_XOR2 6 1 0; mkop EC_GF_OP_XOR2 3 4 0; mkop EC_GF_OP_XOR2 7 1 0;
       mkop EC_GF_OP_XOR2 6 0 0; mkop EC_GF_OP_XOR2 1 3 0; mkop EC_GF_OP_XOR2 0 5 0;
       mkop EC_GF_OP_XOR2 3 7 0; mkop EC_GF_OP_XOR2 5 1 0; mkop EC_GF_OP_XOR2 1 6 0;
       mkop EC_GF_OP_END 0 0 0];
  (* 66 *) mkmul 8 [2; 3; 1; 4; 5; 7; 0; 6]
      [mkop EC_GF_OP_XOR2 4 0 0; mkop EC_GF_OP_XOR2 0 1 0; mkop EC_GF_OP_XOR2 1 2 0;
       mkop EC_GF_OP_XOR2 2 3 0; mkop EC_GF_OP_XOR2 3 4 0; mkop EC_GF_OP_XOR2 5 7 0;
       mkop EC_GF_OP_XOR2 2 7 0; mkop EC_GF_OP_XOR2 0 5 0; mkop EC_GF_OP_XOR2 4 6 0;
       mkop EC_GF_OP_XOR2 5 3 0; mkop EC_GF_OP_XOR2 6 1 0; mkop EC_GF_OP_XOR2 7 4 0;
       mkop EC_GF_OP_XOR2 1 5 0; mkop EC_GF_OP_XOR2 4 0 0; mkop EC_GF_OP_XOR2 5 7 0;
       mkop EC_GF_OP_END 0 0 0];
  (* 67 *) mkmul 8 [2; 4; 5; 6; 7; 3; 1; 0]
      [mkop EC_GF_OP_XOR2 3 0 0; mkop EC_GF_OP_XOR2 3 1 0; mkop EC_GF_OP_XOR2 1 4 0;
       mkop EC_GF_OP_XOR2 4 3 0; mkop EC_GF_OP_XOR2 7 4 0; mkop EC_GF_OP_XOR2 5 7 0;
       mkop EC_GF_OP_XOR2 0 5 0; mkop EC_GF_OP_XOR2 6 0 0; mkop EC_GF_OP_XOR2 3 6 0;
       mkop EC_GF_OP_XOR2 1 3 0; mkop EC_GF_OP_XOR2 7 1 0; mkop EC_GF_OP_XOR2 2 7 0;
       mkop EC_GF_OP_XOR2 0 2 0; mkop EC_GF_OP_XOR2 2 3 0; mkop EC_GF_OP_END 0 0 0];
  (* 68 *) mkmul 8 [5; 7; 2; 3; 0; 6; 4; 1]
      [mkop EC_GF_OP_XOR2 5 2 0; mkop EC_GF_OP_XOR2 5 4 0; mkop EC_GF_OP_XOR2 4 3 0;
       mkop EC_GF_OP_XOR2 6 4 0; mkop EC_GF_OP_XOR2 7 6 0; mkop EC_GF_OP_XOR2 4 0 0;
       mkop EC_GF_OP_XOR2 2 7 0; mkop EC_GF_OP_XOR2 4 1 0; mkop EC_GF_OP_XOR2 0 2 0;
       mkop EC_GF_OP_XOR2 1 5 0; mkop EC_GF_OP_XOR2 3 0 0; mkop EC_GF_OP_XOR2 5 6 0;
       mkop EC_GF_OP_XOR2 0 4 0; mkop EC_GF_OP_XOR2 6 3 0; mkop EC_GF_OP_END 0 0 0];
  (* 69 *) mkmul 8 [0; 1; 3; 2; 4; 5; 7; 6]
      [mkop EC_GF_OP_XOR2 4 6 0; mkop EC_GF_OP_XOR2 4 7 0; mkop EC_GF_OP_XOR2 3 4 0;
       mkop EC_GF_OP_XOR2 2 1 0; mkop EC_GF_OP_XOR2 1 3 0; mkop EC_GF_OP_XOR2 4 2 0;
       mkop EC_GF_OP_XOR2 0 1 0; mkop EC_GF_OP_XOR2 5 4 0; mkop EC_GF_OP_XOR2 7 0 0;
       mkop EC_GF_OP_XOR2 6 5 0; mkop EC_GF_OP_XOR2 2 0 0; mkop EC_GF_OP_XOR2 5 7 0;
       mkop EC_GF_OP_XOR2 0 6 0; mkop EC_GF_OP_END 0 0 0];
  (* 6A *) mkmul 8 [5; 7; 4; 6; 1; 2; 0; 3]
      [mkop EC_GF_OP_XOR2 7 3 0; mkop EC_GF_OP_XOR2 3 5 0; mkop EC_GF_OP_XOR2 0 4 0;
       mkop EC_GF_OP_XOR2 2 6 0; mkop EC_GF_OP_XOR2 6 0 0; mkop EC_GF_OP_XOR2 5 2 0;
       mkop EC_GF_OP_XOR2 1 3 0; mkop EC_GF_OP_XOR2 0 1 0; mkop EC_GF_OP_XOR2 1 5 0;
       mkop EC_GF_OP_XOR2 5 7 0; mkop EC_GF_OP_XOR2 4 1 0; mkop EC_GF_OP_XOR2 7 6 0;
       mkop EC_GF_OP_XOR2 3 4 0; mkop EC_GF_OP_XOR2 2 7 0; mkop EC_GF_OP_END 0 0 0];
  (* 6B *) mkmul 9 [6; 7; 2; 0; 3; 1; 5; 4; 8]
      [mkop EC_GF_OP_COPY 8 1 0; mkop EC_GF_OP_XOR2 1 2 0; mkop EC_GF_OP_XOR2 1 6 0;
       mkop EC_GF_OP_XOR2 3 4 0; mkop EC_GF_OP_XOR2 3 1 0; mkop EC_GF_OP_XOR2 2 3 0;
       mkop EC_GF_OP_XOR2 0 2 0; mkop EC_GF_OP_XOR2 1 5 0; mkop EC_GF_OP_XOR2 7 0 0;
       mkop EC_GF_OP_XOR2 5 0 0; mkop EC_GF_OP_XOR2 1 7 0; mkop EC_GF_OP_XOR2 4 1 0;
       mkop EC_GF_OP_XOR2 6 4 0; mkop EC_GF_OP_XOR2 4 0 0; mkop EC_GF_OP_XOR2 0 8 0;
       mkop EC_GF_OP_END 0 0 0];
  (* 6C *) mkmul 8 [5; 6; 7; 0; 1; 2; 3; 4]
      [mkop EC_GF_OP_XOR2 5 2 0; mkop EC_GF_OP_XOR2 4 3 0; mkop EC_GF_OP_XOR2 5 3 0;
       mkop EC_GF_OP_XOR2 2 0 0; mkop EC_GF_OP_XOR2 6 4 0; mkop EC_GF_OP_XOR2 4 2 0;
       mkop EC_GF_OP_XOR2 3 1 0; mkop EC_GF_OP_XOR2 3 0 0; mkop EC_GF_OP_XOR2 7 4 0;
       mkop EC_GF_OP_XOR2 4 3 0; mkop EC_GF_OP_XOR2 0 4 0; mkop EC_GF_OP_END 0 0 0];
  (* 6D *) mkmul 9 [3; 6; 7; 0; 4; 5; 1; 2; 8]
      [mkop EC_GF_OP_XOR2 4 1 0; mkop EC_GF_OP_XOR2 1 0 0; mkop EC_GF_OP_XOR2 7 4 0;
       mkop EC_GF_OP_XOR2 0 2 0; mkop EC_GF_OP_XOR2 1 3 0; mkop EC_GF_OP_XOR2 2 7 0;
       mkop EC_GF_OP_XOR3 8 3 4; mkop EC_GF_OP_XOR2 7 1 0; mkop EC_GF_OP_XOR2 5 0 0;
       mkop EC_GF_OP_XOR2 1 6 0; mkop EC_GF_OP_XOR2 0 8 0; mkop EC_GF_OP_XOR2 3 5 0;
       mkop EC_GF_OP_XOR2 6 8 0; mkop EC_GF_OP_END 0 0 0];
  (* 6E *) mkmul 8 [5; 6; 3; 1; 7; 2; 0; 4]
      [mkop EC_GF_OP_XOR2 3 1 0; mkop EC_GF_OP_XOR2 1 2 0; mkop EC_GF_OP_XOR2 2 0 0;
       mkop EC_GF_OP_XOR2 7 3 0; mkop EC_GF_OP_XOR2 0 5 0; mkop EC_GF_OP_XOR2 6 1 0;
       mkop EC_GF_OP_XOR2 0 3 0; mkop EC_GF_OP_XOR2 2 4 0; mkop EC_GF_OP_XOR2 1 7 0;
       mkop EC_GF_OP_XOR2 4 6 0; mkop EC_GF_OP_XOR2 3 2 0; mkop EC_GF_OP_XOR2 5 1 0;
       mkop EC_GF_OP_XOR2 6 3 0; mkop EC_GF_OP_XOR2 1 3 0; mkop EC_GF_OP_END 0 0 0];
  (* 6F *) mkmul 9 [2; 6; 3; 7; 0; 1; 4; 5; 8]
      [mkop EC_GF_OP_COPY 8 0 0; mkop EC_GF_OP_XOR2 0 1 0; mkop EC_GF_OP_XOR2 0 4 0;
       mkop EC_GF_OP_XOR2 3 0 0; mkop EC_GF_OP_XOR2 2 5 0; mkop EC_GF_OP_XOR2 7 3 0;
       mkop EC_GF_OP_XOR2 2 0 0; mkop EC_GF_OP_XOR2 6 3 0; mkop EC_GF_OP_XOR3 0 8 7;
       mkop EC_GF_OP_XOR2 1 2 0; mkop EC_GF_OP_XOR2 5 6 0; mkop EC_GF_OP_XOR2 2 0 0;
       mkop EC_GF_OP_XOR2 4 5 0; mkop EC_GF_OP_XOR2 5 2 0; mkop EC_GF_OP_END 0 0 0]].

(** [ec_gf8_mul_70] to [ec_gf8_mul_7F]. *)
Definition ec_gf8_mul_7x : list ec_gf_mul_t := [
  (* 70 *) mkmul 8 [3; 4; 5; 2; 6; 0; 1; 7]
      [mkop EC_GF_OP_XOR2 3 2 0; mkop EC_GF_OP_XOR2 5 3 0; mkop EC_GF_OP_XOR2 6 4 0;
       mkop EC_GF_OP_XOR2 4 2 0; mkop EC_GF_OP_XOR2 7 5 0; mkop EC_GF_OP_XOR2 0 2 0;
       mkop EC_GF_OP_XOR2 3 6 0; mkop EC_GF_OP_XOR2 4 7 0; mkop EC_GF_OP_XOR2 6 0 0;
       mkop EC_GF_OP_XOR2 7 1 0; mkop EC_GF_OP_XOR2 1 6 0; mkop EC_GF_OP_XOR2 0 7 0;
       mkop EC_GF_OP_END 0 0 0];
  (* 71 *) mkmul 8 [4; 7; 5; 3; 6; 0; 2; 1]
      [mkop EC_GF_OP_XOR2 6 0 0; mkop EC_GF_OP_XOR2 0 1 0; mkop EC_GF_OP_XOR2 1 5 0;
       mkop EC_GF_OP_XOR2 0 4 0; mkop EC_GF_OP_XOR2 5 3 0; mkop EC_GF_OP_XOR2 4 3 0;
       mkop EC_GF_OP_XOR2 6 2 0; mkop EC_GF_OP_XOR2 3 2 0; mkop EC_GF_OP_XOR2 7 4 0;
       mkop EC_GF_OP_XOR2 2 0 0; mkop EC_GF_OP_XOR2 4 6 0; mkop EC_GF_OP_XOR2 0 7 0;
       mkop EC_GF_OP_XOR2 7 1 0; mkop EC_GF_OP_XOR2 1 3 0; mkop EC_GF_OP_END 0 0 0];
  (* 72 *) mkmul 8 [0; 5; 2; 7; 4; 1; 3; 6]
      [mkop EC_GF_OP_XOR2 4 0 0; mkop EC_GF_OP_XOR2 3 7 0; mkop EC_GF_OP_XOR2 3 4 0;
       mkop EC_GF_OP_XOR2 5 3 0; mkop EC_GF_OP_XOR2 1 5 0; mkop EC_GF_OP_XOR2 4 1 0;
       mkop EC_GF_OP_XOR2 2 4 0; mkop EC_GF_OP_XOR2 6 2 0; mkop EC_GF_OP_XOR2 3 6 0;
       mkop EC_GF_OP_XOR2 4 3 0; mkop EC_GF_OP_XOR2 0 4 0; mkop EC_GF_OP_END 0 0 0];
  (* 73 *) mkmul 8 [6; 0; 1; 7; 4; 5; 2; 3]
      [mkop EC_GF_OP_XOR2 1 5 0; mkop EC_GF_OP_XOR2 2 1 0; mkop EC_GF_OP_XOR2 7 3 0;
       mkop EC_GF_OP_XOR2 1 7 0; mkop EC_GF_OP_XOR2 0 4 0; mkop EC_GF_OP_XOR2 6 2 0;
       mkop EC_GF_OP_XOR2 2 0 0; mkop EC_GF_OP_XOR2 3 6 0; mkop EC_GF_OP_XOR2 0 1 0;
       mkop EC_GF_OP_XOR2 6 0 0; mkop EC_GF_OP_XOR2 5 0 0; mkop EC_GF_OP_XOR2 4 6 0;
       mkop EC_GF_OP_END 0 0 0];
  (* 74 *) mkmul 8 [3; 2; 1; 0; 4; 5; 6; 7]
      [mkop EC_GF_OP_XOR2 3 2 0; mkop EC_GF_OP_XOR2 2 5 0; mkop EC_GF_OP_XOR2 5 0 0;
       mkop EC_GF_OP_XOR2 5 1 0; mkop EC_GF_OP_XOR2 1 3 0; mkop EC_GF_OP_XOR2 0 7 0;
       mkop EC_GF_OP_XOR2 6 5 0; mkop EC_GF_OP_XOR2 7 1 0; mkop EC_GF_OP_XOR2 1 6 0;
       mkop EC_GF_OP_XOR2 3 4 0; mkop EC_GF_OP_XOR2 6 2 0; mkop EC_GF_OP_XOR2 4 0 0;
       mkop EC_GF_OP_XOR2 2 3 0; mkop EC_GF_OP_XOR2 0 6 0; mkop EC_GF_OP_END 0 0 0];
  (* 75 *) mkmul 8 [4; 5; 6; 7; 0; 1; 2; 3]
      [mkop EC_GF_OP_XOR2 2 0 0; mkop EC_GF_OP_XOR2 3 2 0; mkop EC_GF_OP_XOR2 2 1 0;
       mkop EC_GF_OP_XOR2 1 0 0; mkop EC_GF_OP_XOR2 4 3 0; mkop EC_GF_OP_XOR2 3 1 0;
       mkop EC_GF_OP_XOR2 0 7 0; mkop EC_GF_OP_XOR2 6 3 0; mkop EC_GF_OP_XOR2 5 2 0;
       mkop EC_GF_OP_XOR2 7 6 0; mkop EC_GF_OP_XOR2 6 5 0; mkop EC_GF_OP_XOR2 5 4 0;
       mkop EC_GF_OP_END 0 0 0];
  (* 76 *) mkmul 9 [2; 3; 0; 6; 5; 1; 7; 8; 4]
      [mkop EC_GF_OP_XOR2 7 3 0; mkop EC_GF_OP_XOR2 6 1 0; mkop EC_GF_OP_XOR2 2 7 0;
       mkop EC_GF_OP_XOR3 8 6 2; mkop EC_GF_OP_XOR2 0 5 0; mkop EC_GF_OP_XOR2 2 4 0;
       mkop EC_GF_OP_XOR2 4 0 0; mkop EC_GF_OP_XOR2 0 8 0; mkop EC_GF_OP_XOR2 3 4 0;
       mkop EC_GF_OP_XOR2 1 4 0; mkop EC_GF_OP_XOR2 7 0 0; mkop EC_GF_OP_XOR2 5 3 0;
       mkop EC_GF_OP_END 0 0 0];
  (* 77 *) mkmul 8 [7; 4; 3; 6; 0; 1; 5; 2]
      [mkop EC_GF_OP_XOR2 7 6 0; mkop EC_GF_OP_XOR2 6 1 0; mkop EC_GF_OP_XOR2 1 0 0;
       mkop EC_GF_OP_XOR2 5 1 0; mkop EC_GF_OP_XOR2 6 3 0; mkop EC_GF_OP_XOR2 0 3 0;
       mkop EC_GF_OP_XOR2 1 4 0; mkop EC_GF_OP_XOR2 3 5 0; mkop EC_GF_OP_XOR2 4 3 0;
       mkop EC_GF_OP_XOR2 5 2 0; mkop EC_GF_OP_XOR2 3 7 0; mkop EC_GF_OP_XOR2 2 6 0;
       mkop EC_GF_OP_XOR2 7 1 0; mkop EC_GF_OP_XOR2 7 2 0; mkop EC_GF_OP_END 0 0 0];
  (* 78 *) mkmul 9 [4; 7; 3; 2; 5; 1; 6; 0; 8]
      [mkop EC_GF_OP_XOR2 6 5 0; mkop EC_GF_OP_XOR2 6 0 0; mkop EC_GF_OP_XOR2 1 0 0;
       mkop EC_GF_OP_XOR2 7 2 0; mkop EC_GF_OP_XOR2 2 6 0; mkop EC_GF_OP_XOR2 0 3 0;
       mkop EC_GF_OP_XOR2 3 7 0; mkop EC_GF_OP_XOR3 8 0 2; mkop EC_GF_OP_XOR2 4 8 0;
       mkop EC_GF_OP_XOR2 1 8 0; mkop EC_GF_OP_XOR2 7 4 0; mkop EC_GF_OP_XOR2 5 7 0;
       mkop EC_GF_OP_XOR2 5 1 0; mkop EC_GF_OP_XOR2 0 5 0; mkop EC_GF_OP_XOR2 6 0 0;
       mkop EC_GF_OP_END 0 0 0];
  (* 79 *) mkmul 9 [4; 5; 7; 3; 1; 6; 2; 0; 8]
      [mkop EC_GF_OP_XOR2 7 3 0; mkop EC_GF_OP_XOR3 8 4 7; mkop EC_GF_OP_XOR2 0 8 0;
       mkop EC_GF_OP_XOR2 2 1 0; mkop EC_GF_OP_XOR2 6 8 0; mkop EC_GF_OP_XOR2 2 0 0;
       mkop EC_GF_OP_XOR2 1 6 0; mkop EC_GF_OP_XOR2 3 2 0; mkop EC_GF_OP_XOR2 5 1 0;
       mkop EC_GF_OP_XOR2 6 3 0; mkop EC_GF_OP_XOR2 3 5 0; mkop EC_GF_OP_XOR2 4 3 0;
       mkop EC_GF_OP_XOR2 1 4 0; mkop EC_GF_OP_XOR2 0 1 0; mkop EC_GF_OP_END 0 0 0];
  (* 7A *) mkmul 8 [1; 2; 3; 4; 5; 6; 7; 0]
      [mkop EC_GF_OP_XOR2 2 1 0; mkop EC_GF_OP_XOR2 3 2 0; mkop EC_GF_OP_XOR2 4 0 0;
       mkop EC_GF_OP_XOR2 4 3 0; mkop EC_GF_OP_XOR2 5 4 0; mkop EC_GF_OP_XOR2 6 5 0;
       mkop EC_GF_OP_XOR2 7 6 0; mkop EC_GF_OP_XOR2 0 7 0; mkop EC_GF_OP_XOR2 2 7 0;
       mkop EC_GF_OP_XOR2 1 0 0; mkop EC_GF_OP_XOR2 4 0 0; mkop EC_GF_OP_END 0 0 0];
  (* 7B *) mkmul 10 [1; 2; 3; 4; 8; 5; 6; 0; 7; 9]
      [mkop EC_GF_OP_XOR2 3 1 0; mkop EC_GF_OP_XOR3 8 5 3; mkop EC_GF_OP_XOR2 8 0 0;
       mkop EC_GF_OP_COPY 9 4 0; mkop EC_GF_OP_XOR2 8 2 0; mkop EC_GF_OP_XOR2 4 6 0;
       mkop EC_GF_OP_XOR2 4 8 0; mkop EC_GF_OP_XOR2 7 4 0; mkop EC_GF_OP_XOR2 5 4 0;
       mkop EC_GF_OP_XOR2 0 4 0; mkop EC_GF_OP_XOR2 2 7 0; mkop EC_GF_OP_XOR3 4 1 9;
       mkop EC_GF_OP_XOR2 6 7 0; mkop EC_GF_OP_XOR2 1 7 0; mkop EC_GF_OP_XOR2 4 2 0;
       mkop EC_GF_OP_END 0 0 0];
  (* 7C *) mkmul 8 [2; 4; 1; 6; 3; 5; 7; 0]
      [mkop EC_GF_OP_XOR2 5 3 0; mkop EC_GF_OP_XOR2 4 5 0; mkop EC_GF_OP_XOR2 2 4 0;
       mkop EC_GF_OP_XOR2 4 6 0; mkop EC_GF_OP_XOR2 3 1 0; mkop EC_GF_OP_XOR2 0 4 0;
       mkop EC_GF_OP_XOR2 7 2 0; mkop EC_GF_OP_XOR2 3 0 0; mkop EC_GF_OP_XOR2 7 3 0;
       mkop EC_GF_OP_XOR2 5 7 0; mkop EC_GF_OP_XOR2 1 7 0; mkop EC_GF_OP_XOR2 6 5 0;
       mkop EC_GF_OP_XOR2 0 5 0; mkop EC_GF_OP_END 0 0 0];
  (* 7D *) mkmul 8 [1; 0; 3; 5; 6; 7; 2; 4]
      [mkop EC_GF_OP_XOR2 2 1 0; mkop EC_GF_OP_XOR2 3 2 0; mkop EC_GF_OP_XOR2 2 6 0;
       mkop EC_GF_OP_XOR2 1 0 0; mkop EC_GF_OP_XOR2 0 2 0; mkop EC_GF_OP_XOR2 1 5 0;
       mkop EC_GF_OP_XOR2 7 0 0; mkop EC_GF_OP_XOR2 6 1 0; mkop EC_GF_OP_XOR2 4 3 0;
       mkop EC_GF_OP_XOR2 3 7 0; mkop EC_GF_OP_XOR2 1 4 0; mkop EC_GF_OP_XOR2 2 3 0;
       mkop EC_GF_OP_XOR2 0 1 0; mkop EC_GF_OP_XOR2 5 2 0; mkop EC_GF_OP_END 0 0 0];
  (* 7E *) mkmul 9 [5; 1; 2; 0; 7; 3; 4; 6; 8]
      [mkop EC_GF_OP_XOR2 0 5 0; mkop EC_GF_OP_COPY 8 0 0; mkop EC_GF_OP_XOR2 0 1 0;
       mkop EC_GF_OP_XOR2 6 3 0; mkop EC_GF_OP_XOR2 6 0 0; mkop EC_GF_OP_XOR2 5 6 0;
       mkop EC_GF_OP_XOR2 6 4 0; mkop EC_GF_OP_XOR2 7 6 0; mkop EC_GF_OP_XOR2 1 6 0;
       mkop EC_GF_OP_XOR3 6 2 7; mkop EC_GF_OP_XOR2 3 6 0; mkop EC_GF_OP_XOR2 2 5 0;
       mkop EC_GF_OP_XOR2 4 6 0; mkop EC_GF_OP_XOR2 5 3 0; mkop EC_GF_OP_XOR2 6 8 0;
       mkop EC_GF_OP_END 0 0 0];
  (* 7F *) mkmul 10 [4; 1; 0; 5; 6; 7; 2; 3; 8; 9]
      [mkop EC_GF_OP_COPY 8 0 0; mkop EC_GF_OP_XOR2 0 1 0; mkop EC_GF_OP_XOR2 0 3 0;
       mkop EC_GF_OP_XOR2 5 0 0; mkop EC_GF_OP_XOR3 9 7 5; mkop EC_GF_OP_XOR2 2 9 0;
       mkop EC_GF_OP_XOR2 1 2 0; mkop EC_GF_OP_XOR2 0 6 0; mkop EC_GF_OP_XOR2 4 1 0;
       mkop EC_GF_OP_XOR2 6 9 0; mkop EC_GF_OP_XOR3 9 6 4; mkop EC_GF_OP_XOR2 7 9 0;
       mkop EC_GF_OP_XOR2 3 9 0; mkop EC_GF_OP_XOR2 1 7 0; mkop EC_GF_OP_XOR2 7 8 0;
       mkop EC_GF_OP_END 0 0 0]].

(** [ec_gf8_mul_80] to [ec_gf8_mul_8F]. *)
Definition ec_gf8_mul_8x : list ec_gf_mul_t := [
  (* 80 *) mkmul 8 [7; 5; 6; 4; 1; 2; 3; 0]
      [mkop EC_GF_OP_XOR2 7 3 0; mkop EC_GF_OP_XOR2 3 4 0; mkop EC_GF_OP_XOR2 1 2 0;
       mkop EC_GF_OP_XOR2 2 3 0; mkop EC_GF_OP_XOR2 3 5 0; mkop EC_GF_OP_XOR2 5 1 0;
       mkop EC_GF_OP_XOR2 0 1 0; mkop EC_GF_OP_XOR2 4 5 0; mkop EC_GF_OP_XOR2 1 7 0;
       mkop EC_GF_OP_XOR2 6 4 0; mkop EC_GF_OP_XOR2 0 6 0; mkop EC_GF_OP_XOR2 6 2 0;
       mkop EC_GF_OP_XOR2 7 6 0; mkop EC_GF_OP_XOR2 5 7 0; mkop EC_GF_OP_END 0 0 0];
  (* 81 *) mkmul 8 [2; 7; 4; 1; 5; 6; 3; 0]
      [mkop EC_GF_OP_XOR2 3 5 0; mkop EC_GF_OP_XOR2 4 6 0; mkop EC_GF_OP_XOR2 3 4 0;
       mkop EC_GF_OP_XOR2 2 3 0; mkop EC_GF_OP_XOR2 6 2 0; mkop EC_GF_OP_XOR2 1 6 0;
       mkop EC_GF_OP_XOR2 7 1 0; mkop EC_GF_OP_XOR2 4 1 0; mkop EC_GF_OP_XOR2 5 7 0;
       mkop EC_GF_OP_XOR2 0 5 0; mkop EC_GF_OP_XOR2 7 3 0; mkop EC_GF_OP_XOR2 2 0 0;
       mkop EC_GF_OP_XOR2 0 4 0; mkop EC_GF_OP_END 0 0 0];
  (* 82 *) mkmul 9 [6; 2; 7; 5; 1; 3; 4; 0; 8]
      [mkop EC_GF_OP_XOR2 7 6 0; mkop EC_GF_OP_XOR2 6 1 0; mkop EC_GF_OP_COPY 8 6 0;
       mkop EC_GF_OP_XOR2 6 5 0; mkop EC_GF_OP_XOR2 5 4 0; mkop EC_GF_OP_XOR2 4 3 0;
       mkop EC_GF_OP_XOR2 1 2 0; mkop EC_GF_OP_XOR2 3 2 0; mkop EC_GF_OP_XOR2 2 0 0;
       mkop EC_GF_OP_XOR2 2 7 0; mkop EC_GF_OP_XOR2 0 5 0; mkop EC_GF_OP_XOR2 7 5 0;
       mkop EC_GF_OP_XOR3 5 8 7; mkop EC_GF_OP_XOR2 7 4 0; mkop EC_GF_OP_END 0 0 0];
  (* 83 *) mkmul 8 [3; 5; 6; 7; 1; 2; 4; 0]
      [mkop EC_GF_OP_XOR2 0 1 0; mkop EC_GF_OP_XOR2 1 2 0; mkop EC_GF_OP_XOR2 2 3 0;
       mkop EC_GF_OP_XOR2 0 3 0; mkop EC_GF_OP_XOR2 2 5 0; mkop EC_GF_OP_XOR2 7 2 0;
       mkop EC_GF_OP_XOR2 5 0 0; mkop EC_GF_OP_XOR2 3 6 0; mkop EC_GF_OP_XOR2 1 4 0;
       mkop EC_GF_OP_XOR2 6 7 0; mkop EC_GF_OP_XOR2 4 3 0; mkop EC_GF_OP_XOR2 7 1 0;
       mkop EC_GF_OP_XOR2 3 5 0; mkop EC_GF_OP_XOR2 0 7 0; mkop EC_GF_OP_XOR2 5 6 0;
       mkop EC_GF_OP_END 0 0 0];
  (* 84 *) mkmul 8 [7; 6; 0; 4; 1; 5; 3; 2]
      [mkop EC_GF_OP_XOR2 3 5 0; mkop EC_GF_OP_XOR2 7 5 0; mkop EC_GF_OP_XOR2 5 6 0;
       mkop EC_GF_OP_XOR2 6 2 0; mkop EC_GF_OP_XOR2 4 6 0; mkop EC_GF_OP_XOR2 2 0 0;
       mkop EC_GF_OP_XOR2 2 4 0; mkop EC_GF_OP_XOR2 4 7 0; mkop EC_GF_OP_XOR2 7 1 0;
       mkop EC_GF_OP_XOR2 1 3 0; mkop EC_GF_OP_XOR2 0 1 0; mkop EC_GF_OP_XOR2 1 5 0;
       mkop EC_GF_OP_XOR2 5 4 0; mkop EC_GF_OP_END 0 0 0];
  (* 85 *) mkmul 8 [7; 6; 0; 3; 2; 4; 5; 1]
      [mkop EC_GF_OP_XOR2 3 6 0; mkop EC_GF_OP_XOR2 7 5 0; mkop EC_GF_OP_XOR2 6 2 0;
       mkop EC_GF_OP_XOR2 5 3 0; mkop EC_GF_OP_XOR2 2 7 0; mkop EC_GF_OP_XOR2 4 2 0;
       mkop EC_GF_OP_XOR2 7 0 0; mkop EC_GF_OP_XOR2 3 4 0; mkop EC_GF_OP_XOR2 6 1 0;
       mkop EC_GF_OP_XOR2 7 1 0; mkop EC_GF_OP_XOR2 0 6 0; mkop EC_GF_OP_XOR2 1 3 0;
       mkop EC_GF_OP_XOR2 0 5 0; mkop EC_GF_OP_XOR2 2 1 0; mkop EC_GF_OP_XOR2 1 0 0;
       mkop EC_GF_OP_END 0 0 0];
  (* 86 *) mkmul 8 [1; 2; 6; 4; 5; 7; 3; 0]
      [mkop EC_GF_OP_XOR2 1 5 0; mkop EC_GF_OP_XOR2 5 6 0; mkop EC_GF_OP_XOR2 6 0 0;
       mkop EC_GF_OP_XOR2 0 4 0; mkop EC_GF_OP_XOR2 4 5 0; mkop EC_GF_OP_XOR2 5 7 0;
       mkop EC_GF_OP_XOR2 7 2 0; mkop EC_GF_OP_XOR2 2 6 0; mkop EC_GF_OP_XOR2 6 3 0;
       mkop EC_GF_OP_XOR2 6 5 0; mkop EC_GF_OP_XOR2 5 1 0; mkop EC_GF_OP_END 0 0 0];
  (* 87 *) mkmul 9 [1; 2; 3; 4; 5; 7; 6; 0; 8]
      [mkop EC_GF_OP_XOR2 1 0 0; mkop EC_GF_OP_COPY 8 1 0; mkop EC_GF_OP_XOR2 8 6 0;
       mkop EC_GF_OP_XOR2 6 3 0; mkop EC_GF_OP_XOR2 3 0 0; mkop EC_GF_OP_XOR2 0 4 0;
       mkop EC_GF_OP_XOR2 1 5 0; mkop EC_GF_OP_XOR2 4 5 0; mkop EC_GF_OP_XOR2 0 7 0;
       mkop EC_GF_OP_XOR2 7 5 0; mkop EC_GF_OP_XOR2 4 6 0; mkop EC_GF_OP_XOR3 5 8 0;
       mkop EC_GF_OP_XOR2 7 2 0; mkop EC_GF_OP_XOR2 2 8 0; mkop EC_GF_OP_XOR2 3 7 0;
       mkop EC_GF_OP_END 0 0 0];
  (* 88 *) mkmul 8 [6; 7; 3; 1; 2; 4; 5; 0]
      [mkop EC_GF_OP_XOR2 5 6 0; mkop EC_GF_OP_XOR2 6 7 0; mkop EC_GF_OP_XOR2 4 6 0;
       mkop EC_GF_OP_XOR2 6 1 0; mkop EC_GF_OP_XOR2 7 2 0; mkop EC_GF_OP_XOR2 1 0 0;
       mkop EC_GF_OP_XOR2 2 3 0; mkop EC_GF_OP_XOR2 1 7 0; mkop EC_GF_OP_XOR2 0 5 0;
       mkop EC_GF_OP_XOR2 2 5 0; mkop EC_GF_OP_XOR2 1 4 0; mkop EC_GF_OP_XOR2 5 4 0;
       mkop EC_GF_OP_XOR2 4 3 0; mkop EC_GF_OP_XOR2 3 6 0; mkop EC_GF_OP_END 0 0 0];
  (* 89 *) mkmul 9 [2; 1; 6; 5; 7; 3; 4; 0; 8]
      [mkop EC_GF_OP_XOR2 7 2 0; mkop EC_GF_OP_XOR2 5 1 0; mkop EC_GF_OP_XOR2 1 7 0;
       mkop EC_GF_OP_XOR2 2 0 0; mkop EC_GF_OP_XOR2 5 0 0; mkop EC_GF_OP_XOR2 6 1 0;
       mkop EC_GF_OP_XOR2 2 6 0; mkop EC_GF_OP_XOR3 8 5 2; mkop EC_GF_OP_XOR2 4 8 0;
       mkop EC_GF_OP_XOR2 6 3 0; mkop EC_GF_OP_XOR2 0 8 0; mkop EC_GF_OP_XOR2 3 4 0;
       mkop EC_GF_OP_XOR2 7 3 0; mkop EC_GF_OP_XOR2 5 7 0; mkop EC_GF_OP_END 0 0 0];
  (* 8A *) mkmul 8 [1; 2; 3; 0; 6; 7; 4; 5]
      [mkop EC_GF_OP_XOR2 2 0 0; mkop EC_GF_OP_XOR2 5 0 0; mkop EC_GF_OP_XOR2 1 6 0;
       mkop EC_GF_OP_XOR2 3 6 0; mkop EC_GF_OP_XOR2 0 1 0; mkop EC_GF_OP_XOR2 6 5 0;
       mkop EC_GF_OP_XOR2 2 7 0; mkop EC_GF_OP_XOR2 4 7 0; mkop EC_GF_OP_XOR2 6 2 0;
       mkop EC_GF_OP_XOR2 7 3 0; mkop EC_GF_OP_XOR2 0 4 0; mkop EC_GF_OP_END 0 0 0];
  (* 8B *) mkmul 8 [6; 1; 2; 3; 5; 7; 4; 0]
      [mkop EC_GF_OP_XOR2 1 0 0; mkop EC_GF_OP_XOR2 3 6 0; mkop EC_GF_OP_XOR2 6 1 0;
       mkop EC_GF_OP_XOR2 1 7 0; mkop EC_GF_OP_XOR2 7 5 0; mkop EC_GF_OP_XOR2 4 1 0;
       mkop EC_GF_OP_XOR2 5 2 0; mkop EC_GF_OP_XOR2 0 7 0; mkop EC_GF_OP_XOR2 1 2 0;
       mkop EC_GF_OP_XOR2 7 3 0; mkop EC_GF_OP_XOR2 2 3 0; mkop EC_GF_OP_XOR2 3 4 0;
       mkop EC_GF_OP_XOR2 4 6 0; mkop EC_GF_OP_XOR2 5 4 0; mkop EC_GF_OP_END 0 0 0];
  (* 8C *) mkmul 8 [1; 2; 0; 7; 3; 4; 5; 6]
      [mkop EC_GF_OP_XOR2 1 7 0; mkop EC_GF_OP_XOR2 5 7 0; mkop EC_GF_OP_XOR2 7 4 0;
       mkop EC_GF_OP_XOR2 7 2 0; mkop EC_GF_OP_XOR2 4 6 0; mkop EC_GF_OP_XOR2 7 0 0;
       mkop EC_GF_OP_XOR2 6 0 0; mkop EC_GF_OP_XOR2 0 3 0; mkop EC_GF_OP_XOR2 3 5 0;
       mkop EC_GF_OP_XOR2 0 1 0; mkop EC_GF_OP_END 0 0 0];
  (* 8D *) mkmul 8 [7; 1; 3; 2; 4; 5; 0; 6]
      [mkop EC_GF_OP_XOR2 7 0 0; mkop EC_GF_OP_XOR2 0 5 0; mkop EC_GF_OP_XOR2 5 4 0;
       mkop EC_GF_OP_XOR2 5 6 0; mkop EC_GF_OP_XOR2 3 7 0; mkop EC_GF_OP_XOR2 6 7 0;
       mkop EC_GF_OP_XOR2 7 1 0; mkop EC_GF_OP_XOR2 4 3 0; mkop EC_GF_OP_XOR2 1 2 0;
       mkop EC_GF_OP_XOR2 2 4 0; mkop EC_GF_OP_XOR2 3 1 0; mkop EC_GF_OP_XOR2 4 0 0;
       mkop EC_GF_OP_XOR2 0 6 0; mkop EC_GF_OP_END 0 0 0];
  (* 8E *) mkmul 8 [1; 2; 3; 4; 5; 6; 7; 0]
      [mkop EC_GF_OP_XOR2 2 0 0; mkop EC_GF_OP_XOR2 3 0 0; mkop EC_GF_OP_XOR2 4 0 0;
       mkop EC_GF_OP_END 0 0 0];
  (* 8F *) mkmul 8 [1; 2; 3; 4; 5; 6; 7; 0]
      [mkop EC_GF_OP_XOR2 1 0 0; mkop EC_GF_OP_XOR2 3 0 0; mkop EC_GF_OP_XOR2 0 7 0;
       mkop EC_GF_OP_XOR2 7 6 0; mkop EC_GF_OP_XOR2 6 5 0; mkop EC_GF_OP_XOR2 5 4 0;
       mkop EC_GF_OP_XOR2 4 3 0; mkop EC_GF_OP_XOR2 3 2 0; mkop EC_GF_OP_XOR2 2 1 0;
       mkop EC_GF_OP_END 0 0 0]].

(** [ec_gf8_mul_90] to [ec_gf8_mul_9F]. *)
Definition ec_gf8_mul_9x : list ec_gf_mul_t := [
  (* 90 *) mkmul 8 [4; 5; 6; 7; 0; 1; 3; 2]
      [mkop EC_GF_OP_XOR2 2 1 0; mkop EC_GF_OP_XOR2 7 2 0; mkop EC_GF_OP_XOR2 6 7 0;
       mkop EC_GF_OP_XOR2 5 1 0; mkop EC_GF_OP_XOR2 5 6 0; mkop EC_GF_OP_XOR2 4 5 0;
       mkop EC_GF_OP_XOR2 3 4 0; mkop EC_GF_OP_XOR2 4 2 0; mkop EC_GF_OP_XOR2 1 3 0;
       mkop EC_GF_OP_XOR2 6 3 0; mkop EC_GF_OP_XOR2 0 1 0; mkop EC_GF_OP_XOR2 2 0 0;
       mkop EC_GF_OP_END 0 0 0];
  (* 91 *) mkmul 10 [2; 3; 1; 4; 0; 6; 7; 5; 8; 9]
      [mkop EC_GF_OP_XOR2 0 3 0; mkop EC_GF_OP_XOR2 3 4 0; mkop EC_GF_OP_COPY 9 1 0;
       mkop EC_GF_OP_COPY 8 3 0; mkop EC_GF_OP_XOR2 3 5 0; mkop EC_GF_OP_XOR2 1 2 0;
       mkop EC_GF_OP_XOR2 1 3 0; mkop EC_GF_OP_XOR2 7 1 0; mkop EC_GF_OP_XOR2 5 7 0;
       mkop EC_GF_OP_XOR2 7 9 0; mkop EC_GF_OP_XOR2 6 5 0; mkop EC_GF_OP_XOR2 4 5 0;
       mkop EC_GF_OP_XOR2 3 6 0; mkop EC_GF_OP_XOR2 0 3 0; mkop EC_GF_OP_XOR3 5 8 0;
       mkop EC_GF_OP_XOR2 2 5 0; mkop EC_GF_OP_XOR2 5 4 0; mkop EC_GF_OP_END 0 0 0];
  (* 92 *) mkmul 8 [6; 7; 0; 1; 2; 3; 5; 4]
      [mkop EC_GF_OP_XOR2 4 1 0; mkop EC_GF_OP_XOR2 5 4 0; mkop EC_GF_OP_XOR2 6 5 0;
       mkop EC_GF_OP_XOR2 2 0 0; mkop EC_GF_OP_XOR2 2 6 0; mkop EC_GF_OP_XOR2 3 1 0;
       mkop EC_GF_OP_XOR2 4 2 0; mkop EC_GF_OP_XOR2 3 0 0; mkop EC_GF_OP_XOR2 7 4 0;
       mkop EC_GF_OP_XOR2 3 7 0; mkop EC_GF_OP_XOR2 5 3 0; mkop EC_GF_OP_XOR2 4 5 0;
       mkop EC_GF_OP_XOR2 0 4 0; mkop EC_GF_OP_END 0 0 0];
  (* 93 *) mkmul 8 [6; 4; 5; 1; 7; 2; 3; 0]
      [mkop EC_GF_OP_XOR2 2 7 0; mkop EC_GF_OP_XOR2 4 2 0; mkop EC_GF_OP_XOR2 1 3 0;
       mkop EC_GF_OP_XOR2 3 4 0; mkop EC_GF_OP_XOR2 0 2 0; mkop EC_GF_OP_XOR2 5 3 0;
       mkop EC_GF_OP_XOR2 6 1 0; mkop EC_GF_OP_XOR2 0 5 0; mkop EC_GF_OP_XOR2 2 6 0;
       mkop EC_GF_OP_XOR2 6 0 0; mkop EC_GF_OP_XOR2 4 6 0; mkop EC_GF_OP_XOR2 7 4 0;
       mkop EC_GF_OP_END 0 0 0];
  (* 94 *) mkmul 8 [7; 5; 0; 2; 6; 1; 3; 4]
      [mkop EC_GF_OP_XOR2 0 2 0; mkop EC_GF_OP_XOR2 2 6 0; mkop EC_GF_OP_XOR2 7 2 0;
       mkop EC_GF_OP_XOR2 3 7 0; mkop EC_GF_OP_XOR2 0 3 0; mkop EC_GF_OP_XOR2 3 5 0;
       mkop EC_GF_OP_XOR2 1 4 0; mkop EC_GF_OP_XOR2 5 2 0; mkop EC_GF_OP_XOR2 4 0 0;
       mkop EC_GF_OP_XOR2 1 5 0; mkop EC_GF_OP_XOR2 7 1 0; mkop EC_GF_OP_XOR2 0 7 0;
       mkop EC_GF_OP_XOR2 6 0 0; mkop EC_GF_OP_END 0 0 0];
  (* 95 *) mkmul 8 [7; 6; 1; 3; 0; 4; 5; 2]
      [mkop EC_GF_OP_XOR2 3 2 0; mkop EC_GF_OP_XOR2 7 3 0; mkop EC_GF_OP_XOR2 3 6 0;
       mkop EC_GF_OP_XOR2 0 3 0; mkop EC_GF_OP_XOR2 4 0 0; mkop EC_GF_OP_XOR2 2 4 0;
       mkop EC_GF_OP_XOR2 4 5 0; mkop EC_GF_OP_XOR2 1 4 0; mkop EC_GF_OP_XOR2 5 7 0;
       mkop EC_GF_OP_XOR2 6 1 0; mkop EC_GF_OP_XOR2 7 6 0; mkop EC_GF_OP_XOR2 6 2 0;
       mkop EC_GF_OP_XOR2 0 6 0; mkop EC_GF_OP_XOR2 4 0 0; mkop EC_GF_OP_END 0 0 0];
  (* 96 *) mkmul 9 [4; 0; 1; 6; 7; 2; 3; 5; 8]
      [mkop EC_GF_OP_XOR2 5 1 0; mkop EC_GF_OP_XOR2 4 5 0; mkop EC_GF_OP_XOR2 5 6 0;
       mkop EC_GF_OP_XOR2 6 7 0; mkop EC_GF_OP_XOR3 8 0 4; mkop EC_GF_OP_XOR2 3 6 0;
       mkop EC_GF_OP_XOR2 7 8 0; mkop EC_GF_OP_XOR2 0 1 0; mkop EC_GF_OP_XOR2 8 3 0;
       mkop EC_GF_OP_XOR2 3 2 0; mkop EC_GF_OP_XOR2 1 8 0; mkop EC_GF_OP_XOR2 2 5 0;
       mkop EC_GF_OP_XOR2 5 8 0; mkop EC_GF_OP_XOR2 0 2 0; mkop EC_GF_OP_END 0 0 0];
  (* 97 *) mkmul 9 [4; 5; 3; 6; 7; 1; 2; 0; 8]
      [mkop EC_GF_OP_XOR2 5 0 0; mkop EC_GF_OP_COPY 8 2 0; mkop EC_GF_OP_XOR2 0 3 0;
       mkop EC_GF_OP_XOR2 8 6 0; mkop EC_GF_OP_XOR2 5 1 0; mkop EC_GF_OP_XOR2 3 7 0;
       mkop EC_GF_OP_XOR2 1 8 0; mkop EC_GF_OP_XOR2 7 5 0; mkop EC_GF_OP_XOR2 2 3 0;
       mkop EC_GF_OP_XOR2 6 3 0; mkop EC_GF_OP_XOR2 0 4 0; mkop EC_GF_OP_XOR2 3 1 0;
       mkop EC_GF_OP_XOR2 4 5 0; mkop EC_GF_OP_XOR2 5 8 0; mkop EC_GF_OP_XOR2 3 4 0;
       mkop EC_GF_OP_END 0 0 0];
  (* 98 *) mkmul 8 [4; 2; 3; 6; 7; 5; 1; 0]
      [mkop EC_GF_OP_XOR2 5 7 0; mkop EC_GF_OP_XOR2 4 1 0; mkop EC_GF_OP_XOR2 2 5 0;
       mkop EC_GF_OP_XOR2 4 7 0; mkop EC_GF_OP_XOR2 1 2 0; mkop EC_GF_OP_XOR2 3 4 0;
       mkop EC_GF_OP_XOR2 0 1 0; mkop EC_GF_OP_XOR2 4 6 0; mkop EC_GF_OP_XOR2 5 3 0;
       mkop EC_GF_OP_XOR2 6 0 0; mkop EC_GF_OP_XOR2 1 4 0; mkop EC_GF_OP_XOR2 0 5 0;
       mkop EC_GF_OP_XOR2 7 0 0; mkop EC_GF_OP_XOR2 0 1 0; mkop EC_GF_OP_END 0 0 0];
  (* 99 *) mkmul 8 [6; 5; 3; 7; 0; 1; 4; 2]
      [mkop EC_GF_OP_XOR2 0 2 0; mkop EC_GF_OP_XOR2 7 1 0; mkop EC_GF_OP_XOR2 0 3 0;
       mkop EC_GF_OP_XOR2 7 2 0; mkop EC_GF_OP_XOR2 3 4 0; mkop EC_GF_OP_XOR2 2 5 0;
       mkop EC_GF_OP_XOR2 1 3 0; mkop EC_GF_OP_XOR2 5 7 0; mkop EC_GF_OP_XOR2 4 2 0;
       mkop EC_GF_OP_XOR2 3 7 0; mkop EC_GF_OP_XOR2 6 0 0; mkop EC_GF_OP_XOR2 2 6 0;
       mkop EC_GF_OP_XOR2 6 3 0; mkop EC_GF_OP_XOR2 7 2 0; mkop EC_GF_OP_END 0 0 0];
  (* 9A *) mkmul 9 [6; 3; 4; 0; 5; 1; 2; 7; 8]
      [mkop EC_GF_OP_XOR2 5 4 0; mkop EC_GF_OP_XOR2 6 4 0; mkop EC_GF_OP_XOR2 4 3 0;
       mkop EC_GF_OP_XOR2 3 2 0; mkop EC_GF_OP_XOR2 2 6 0; mkop EC_GF_OP_XOR2 6 1 0;
       mkop EC_GF_OP_XOR2 1 0 0; mkop EC_GF_OP_XOR2 0 5 0; mkop EC_GF_OP_XOR3 8 4 0;
       mkop EC_GF_OP_XOR2 0 6 0; mkop EC_GF_OP_XOR2 7 8 0; mkop EC_GF_OP_XOR2 1 8 0;
       mkop EC_GF_OP_XOR2 3 7 0; mkop EC_GF_OP_XOR2 5 3 0; mkop EC_GF_OP_END 0 0 0];
  (* 9B *) mkmul 10 [4; 5; 8; 6; 7; 1; 2; 0; 3; 9]
      [mkop EC_GF_OP_XOR2 6 0 0; mkop EC_GF_OP_XOR2 7 2 0; mkop EC_GF_OP_COPY 9 5 0;
       mkop EC_GF_OP_XOR2 7 0 0; mkop EC_GF_OP_XOR2 2 4 0; mkop EC_GF_OP_XOR2 6 1 0;
       mkop EC_GF_OP_XOR2 5 1 0; mkop EC_GF_OP_XOR2 4 6 0; mkop EC_GF_OP_XOR3 8 3 2;
       mkop EC_GF_OP_XOR2 1 3 0; mkop EC_GF_OP_XOR2 5 7 0; mkop EC_GF_OP_XOR2 3 9 0;
       mkop EC_GF_OP_XOR2 0 3 0; mkop EC_GF_OP_XOR2 6 3 0; mkop EC_GF_OP_END 0 0 0];
  (* 9C *) mkmul 8 [3; 2; 1; 0; 4; 5; 6; 7]
      [mkop EC_GF_OP_XOR2 3 0 0; mkop EC_GF_OP_XOR2 3 6 0; mkop EC_GF_OP_XOR2 7 3 0;
       mkop EC_GF_OP_XOR2 4 7 0; mkop EC_GF_OP_XOR2 1 4 0; mkop EC_GF_OP_XOR2 3 1 0;
       mkop EC_GF_OP_XOR2 2 5 0; mkop EC_GF_OP_XOR2 5 3 0; mkop EC_GF_OP_XOR2 6 2 0;
       mkop EC_GF_OP_XOR2 0 2 0; mkop EC_GF_OP_END 0 0 0];
  (* 9D *) mkmul 8 [0; 1; 2; 3; 7; 4; 5; 6]
      [mkop EC_GF_OP_XOR2 3 0 0; mkop EC_GF_OP_XOR2 4 1 0; mkop EC_GF_OP_XOR2 6 3 0;
       mkop EC_GF_OP_XOR2 5 2 0; mkop EC_GF_OP_XOR2 2 6 0; mkop EC_GF_OP_XOR2 4 7 0;
       mkop EC_GF_OP_XOR2 1 5 0; mkop EC_GF_OP_XOR2 3 5 0; mkop EC_GF_OP_XOR2 7 6 0;
       mkop EC_GF_OP_XOR2 0 4 0; mkop EC_GF_OP_XOR2 2 4 0; mkop EC_GF_OP_END 0 0 0];
  (* 9E *) mkmul 9 [4; 5; 3; 8; 6; 0; 2; 7; 1]
      [mkop EC_GF_OP_XOR2 7 0 0; mkop EC_GF_OP_COPY 8 7 0; mkop EC_GF_OP_XOR2 8 5 0;
       mkop EC_GF_OP_XOR2 5 2 0; mkop EC_GF_OP_XOR2 2 6 0; mkop EC_GF_OP_XOR2 5 0 0;
       mkop EC_GF_OP_XOR2 6 4 0; mkop EC_GF_OP_XOR2 6 0 0; mkop EC_GF_OP_XOR2 7 3 0;
       mkop EC_GF_OP_XOR2 0 1 0; mkop EC_GF_OP_XOR2 4 1 0; mkop EC_GF_OP_XOR2 3 6 0;
       mkop EC_GF_OP_XOR2 0 8 0; mkop EC_GF_OP_END 0 0 0];
  (* 9F *) mkmul 9 [4; 5; 6; 7; 0; 1; 2; 3; 8]
      [mkop EC_GF_OP_XOR3 8 1 2; mkop EC_GF_OP_XOR2 8 3 0; mkop EC_GF_OP_XOR2 3 0 0;
       mkop EC_GF_OP_XOR2 4 0 0; mkop EC_GF_OP_XOR2 4 1 0; mkop EC_GF_OP_XOR2 5 3 0;
       mkop EC_GF_OP_XOR2 0 6 0; mkop EC_GF_OP_XOR2 1 7 0; mkop EC_GF_OP_XOR2 6 4 0;
       mkop EC_GF_OP_XOR2 7 5 0; mkop EC_GF_OP_XOR2 6 8 0; mkop EC_GF_OP_XOR2 5 8 0;
       mkop EC_GF_OP_END 0 0 0]].

(** [ec_gf8_mul_A0] to [ec_gf8_mul_AF]. *)
Definition ec_gf8_mul_Ax : list ec_gf_mul_t := [
  (* A0 *) mkmul 8 [3; 1; 6; 7; 5; 2; 4; 0]
      [mkop EC_GF_OP_XOR2 6 1 0; mkop EC_GF_OP_XOR2 5 6 0; mkop EC_GF_OP_XOR2 6 7 0;
       mkop EC_GF_OP_XOR2 0 1 0; mkop EC_GF_OP_XOR2 4 6 0; mkop EC_GF_OP_XOR2 1 2 0;
       mkop EC_GF_OP_XOR2 1 4 0; mkop EC_GF_OP_XOR2 4 3 0; mkop EC_GF_OP_XOR2 3 5 0;
       mkop EC_GF_OP_XOR2 2 3 0; mkop EC_GF_OP_XOR2 5 1 0; mkop EC_GF_OP_XOR2 7 2 0;
       mkop EC_GF_OP_XOR2 2 0 0; mkop EC_GF_OP_XOR2 0 5 0; mkop EC_GF_OP_END 0 0 0];
  (* A1 *) mkmul 9 [7; 4; 1; 5; 6; 0; 2; 3; 8]
      [mkop EC_GF_OP_XOR2 2 6 0; mkop EC_GF_OP_XOR2 1 7 0; mkop EC_GF_OP_XOR2 1 2 0;
       mkop EC_GF_OP_XOR2 5 1 0; mkop EC_GF_OP_XOR2 0 3 0; mkop EC_GF_OP_XOR2 6 5 0;
       mkop EC_GF_OP_XOR2 4 1 0; mkop EC_GF_OP_XOR2 0 2 0; mkop EC_GF_OP_XOR2 3 4 0;
       mkop EC_GF_OP_XOR3 8 0 6; mkop EC_GF_OP_XOR2 2 3 0; mkop EC_GF_OP_XOR2 7 8 0;
       mkop EC_GF_OP_XOR2 3 8 0; mkop EC_GF_OP_END 0 0 0];
  (* A2 *) mkmul 8 [7; 0; 6; 3; 2; 1; 4; 5]
      [mkop EC_GF_OP_XOR2 2 1 0; mkop EC_GF_OP_XOR2 2 4 0; mkop EC_GF_OP_XOR2 3 5 0;
       mkop EC_GF_OP_XOR2 1 6 0; mkop EC_GF_OP_XOR2 2 3 0; mkop EC_GF_OP_XOR2 3 1 0;
       mkop EC_GF_OP_XOR2 0 2 0; mkop EC_GF_OP_XOR2 7 3 0; mkop EC_GF_OP_XOR2 1 0 0;
       mkop EC_GF_OP_XOR2 0 7 0; mkop EC_GF_OP_XOR2 4 7 0; mkop EC_GF_OP_XOR2 5 0 0;
       mkop EC_GF_OP_END 0 0 0];
  (* A3 *) mkmul 9 [3; 7; 2; 6; 1; 4; 0; 5; 8]
      [mkop EC_GF_OP_COPY 8 2 0; mkop EC_GF_OP_XOR2 2 6 0; mkop EC_GF_OP_XOR2 0 2 0;
       mkop EC_GF_OP_XOR2 4 0 0; mkop EC_GF_OP_XOR2 1 5 0; mkop EC_GF_OP_XOR2 5 4 0;
       mkop EC_GF_OP_XOR2 6 1 0; mkop EC_GF_OP_XOR2 4 3 0; mkop EC_GF_OP_XOR2 7 1 0;
       mkop EC_GF_OP_XOR2 3 8 0; mkop EC_GF_OP_XOR2 0 7 0; mkop EC_GF_OP_XOR2 1 3 0;
       mkop EC_GF_OP_XOR2 7 5 0; mkop EC_GF_OP_XOR2 3 0 0; mkop EC_GF_OP_XOR2 0 4 0;
       mkop EC_GF_OP_END 0 0 0];
  (* A4 *) mkmul 8 [5; 6; 7; 2; 4; 3; 0; 1]
      [mkop EC_GF_OP_XOR2 0 1 0; mkop EC_GF_OP_XOR2 4 2 0; mkop EC_GF_OP_XOR2 5 3 0;
       mkop EC_GF_OP_XOR2 7 0 0; mkop EC_GF_OP_XOR2 2 5 0; mkop EC_GF_OP_XOR2 6 4 0;
       mkop EC_GF_OP_XOR2 5 1 0; mkop EC_GF_OP_XOR2 4 7 0; mkop EC_GF_OP_XOR2 3 6 0;
       mkop EC_GF_OP_XOR2 1 4 0; mkop EC_GF_OP_XOR2 3 1 0; mkop EC_GF_OP_XOR2 0 3 0;
       mkop EC_GF_OP_XOR2 3 2 0; mkop EC_GF_OP_XOR2 4 3 0; mkop EC_GF_OP_END 0 0 0];
  (* A5 *) mkmul 9 [1; 4; 2; 5; 6; 7; 3; 0; 8]
      [mkop EC_GF_OP_XOR2 7 1 0; mkop EC_GF_OP_XOR2 1 5 0; mkop EC_GF_OP_XOR2 7 0 0;
       mkop EC_GF_OP_XOR2 3 0 0; mkop EC_GF_OP_XOR2 6 1 0; mkop EC_GF_OP_XOR2 5 2 0;
       mkop EC_GF_OP_XOR2 0 2 0; mkop EC_GF_OP_XOR2 1 3 0; mkop EC_GF_OP_XOR3 8 5 6;
       mkop EC_GF_OP_XOR2 2 7 0; mkop EC_GF_OP_XOR2 0 4 0; mkop EC_GF_OP_XOR2 3 7 0;
       mkop EC_GF_OP_XOR2 4 8 0; mkop EC_GF_OP_XOR2 7 8 0; mkop EC_GF_OP_END 0 0 0];
  (* A6 *) mkmul 8 [1; 2; 0; 3; 4; 5; 6; 7]
      [mkop EC_GF_OP_XOR2 2 0 0; mkop EC_GF_OP_XOR2 4 6 0; mkop EC_GF_OP_XOR2 3 5 0;
       mkop EC_GF_OP_XOR2 2 4 0; mkop EC_GF_OP_XOR2 3 7 0; mkop EC_GF_OP_XOR2 7 2 0;
       mkop EC_GF_OP_XOR2 1 3 0; mkop EC_GF_OP_XOR2 5 7 0; mkop EC_GF_OP_XOR2 6 1 0;
       mkop EC_GF_OP_XOR2 4 1 0; mkop EC_GF_OP_END 0 0 0];
  (* A7 *) mkmul 8 [0; 1; 2; 5; 6; 7; 3; 4]
      [mkop EC_GF_OP_XOR2 2 0 0; mkop EC_GF_OP_XOR2 3 1 0; mkop EC_GF_OP_XOR2 5 7 0;
       mkop EC_GF_OP_XOR2 4 2 0; mkop EC_GF_OP_XOR2 3 5 0; mkop EC_GF_OP_XOR2 4 6 0;
       mkop EC_GF_OP_XOR2 0 3 0; mkop EC_GF_OP_XOR2 6 3 0; mkop EC_GF_OP_XOR2 1 4 0;
       mkop EC_GF_OP_XOR2 7 4 0; mkop EC_GF_OP_END 0 0 0];
  (* A8 *) mkmul 10 [1; 7; 5; 8; 6; 3; 4; 0; 2; 9]
      [mkop EC_GF_OP_XOR2 0 2 0; mkop EC_GF_OP_XOR2 0 7 0; mkop EC_GF_OP_COPY 8 0 0;
       mkop EC_GF_OP_XOR2 8 1 0; mkop EC_GF_OP_XOR2 1 6 0; mkop EC_GF_OP_COPY 9 4 0;
       mkop EC_GF_OP_XOR2 0 5 0; mkop EC_GF_OP_XOR2 4 1 0; mkop EC_GF_OP_XOR2 5 1 0;
       mkop EC_GF_OP_XOR2 8 3 0; mkop EC_GF_OP_XOR2 1 3 0; mkop EC_GF_OP_XOR2 3 2 0;
       mkop EC_GF_OP_XOR2 2 9 0; mkop EC_GF_OP_XOR2 3 0 0; mkop EC_GF_OP_XOR2 7 2 0;
       mkop EC_GF_OP_XOR2 6 2 0; mkop EC_GF_OP_END 0 0 0];
  (* A9 *) mkmul 8 [3; 7; 6; 1; 2; 0; 4; 5]
      [mkop EC_GF_OP_XOR2 4 1 0; mkop EC_GF_OP_XOR2 1 0 0; mkop EC_GF_OP_XOR2 5 0 0;
       mkop EC_GF_OP_XOR2 0 3 0; mkop EC_GF_OP_XOR2 0 7 0; mkop EC_GF_OP_XOR2 5 2 0;
       mkop EC_GF_OP_XOR2 7 2 0; mkop EC_GF_OP_XOR2 2 6 0; mkop EC_GF_OP_XOR2 6 1 0;
       mkop EC_GF_OP_XOR2 1 7 0; mkop EC_GF_OP_XOR2 3 6 0; mkop EC_GF_OP_XOR2 7 4 0;
       mkop EC_GF_OP_XOR2 6 5 0; mkop EC_GF_OP_END 0 0 0];
  (* AA *) mkmul 8 [0; 4; 5; 3; 6; 7; 1; 2]
      [mkop EC_GF_OP_XOR2 5 6 0; mkop EC_GF_OP_XOR2 3 0 0; mkop EC_GF_OP_XOR2 4 5 0;
       mkop EC_GF_OP_XOR2 6 3 0; mkop EC_GF_OP_XOR2 5 7 0; mkop EC_GF_OP_XOR2 2 0 0;
       mkop EC_GF_OP_XOR2 7 6 0; mkop EC_GF_OP_XOR2 2 5 0; mkop EC_GF_OP_XOR2 0 1 0;
       mkop EC_GF_OP_XOR2 3 1 0; mkop EC_GF_OP_XOR2 0 7 0; mkop EC_GF_OP_XOR2 1 4 0;
       mkop EC_GF_OP_XOR2 7 4 0; mkop EC_GF_OP_XOR2 4 2 0; mkop EC_GF_OP_XOR2 6 4 0;
       mkop EC_GF_OP_END 0 0 0];
  (* AB *) mkmul 10 [2; 3; 8; 0; 5; 6; 1; 4; 7; 9]
      [mkop EC_GF_OP_COPY 8 0 0; mkop EC_GF_OP_XOR2 0 1 0; mkop EC_GF_OP_XOR2 1 4 0;
       mkop EC_GF_OP_XOR2 1 5 0; mkop EC_GF_OP_XOR2 6 1 0; mkop EC_GF_OP_XOR2 2 0 0;
       mkop EC_GF_OP_COPY 9 6 0; mkop EC_GF_OP_XOR2 6 2 0; mkop EC_GF_OP_XOR2 4 6 0;
       mkop EC_GF_OP_XOR2 7 4 0; mkop EC_GF_OP_XOR2 8 7 0; mkop EC_GF_OP_XOR2 3 8 0;
       mkop EC_GF_OP_XOR2 5 3 0; mkop EC_GF_OP_XOR2 6 3 0; mkop EC_GF_OP_XOR2 2 5 0;
       mkop EC_GF_OP_XOR3 3 9 7; mkop EC_GF_OP_END 0 0 0];
  (* AC *) mkmul 8 [3; 2; 1; 0; 4; 5; 6; 7]
      [mkop EC_GF_OP_XOR2 5 0 0; mkop EC_GF_OP_XOR2 0 2 0; mkop EC_GF_OP_XOR2 2 4 0;
       mkop EC_GF_OP_XOR2 4 7 0; mkop EC_GF_OP_XOR2 7 0 0; mkop EC_GF_OP_XOR2 0 3 0;
       mkop EC_GF_OP_XOR2 0 6 0; mkop EC_GF_OP_XOR2 3 1 0; mkop EC_GF_OP_XOR2 6 1 0;
       mkop EC_GF_OP_XOR2 1 5 0; mkop EC_GF_OP_END 0 0 0];
  (* AD *) mkmul 9 [3; 4; 5; 6; 7; 0; 1; 2; 8]
      [mkop EC_GF_OP_XOR3 8 1 2; mkop EC_GF_OP_XOR2 2 0 0; mkop EC_GF_OP_XOR2 3 1 0;
       mkop EC_GF_OP_XOR2 5 0 0; mkop EC_GF_OP_XOR2 3 0 0; mkop EC_GF_OP_XOR2 4 8 0;
       mkop EC_GF_OP_XOR2 5 8 0; mkop EC_GF_OP_XOR2 6 2 0; mkop EC_GF_OP_END 0 0 0];
  (* AE *) mkmul 9 [7; 0; 5; 6; 3; 4; 1; 2; 8]
      [mkop EC_GF_OP_XOR2 6 5 0; mkop EC_GF_OP_XOR2 5 0 0; mkop EC_GF_OP_COPY 8 5 0;
       mkop EC_GF_OP_XOR2 5 7 0; mkop EC_GF_OP_XOR2 7 1 0; mkop EC_GF_OP_XOR2 0 2 0;
       mkop EC_GF_OP_XOR2 1 6 0; mkop EC_GF_OP_XOR2 7 3 0; mkop EC_GF_OP_XOR2 6 5 0;
       mkop EC_GF_OP_XOR2 2 6 0; mkop EC_GF_OP_XOR2 0 4 0; mkop EC_GF_OP_XOR2 6 3 0;
       mkop EC_GF_OP_XOR2 3 4 0; mkop EC_GF_OP_XOR2 4 8 0; mkop EC_GF_OP_END 0 0 0];
  (* AF *) mkmul 8 [0; 1; 2; 7; 3; 4; 5; 6]
      [mkop EC_GF_OP_XOR2 4 0 0; mkop EC_GF_OP_XOR2 6 0 0; mkop EC_GF_OP_XOR2 0 1 0;
       mkop EC_GF_OP_XOR2 0 7 0; mkop EC_GF_OP_XOR2 5 1 0; mkop EC_GF_OP_XOR2 7 6 0;
       mkop EC_GF_OP_XOR2 1 2 0; mkop EC_GF_OP_XOR2 6 2 0; mkop EC_GF_OP_XOR2 2 5 0;
       mkop EC_GF_OP_XOR2 1 4 0; mkop EC_GF_OP_XOR2 2 0 0; mkop EC_GF_OP_XOR2 0 3 0;
       mkop EC_GF_OP_END 0 0 0]].

(** [ec_gf8_mul_B0] to [ec_gf8_mul_BF]. *)
Definition ec_gf8_mul_Bx : list ec_gf_mul_t := [
  (* B0 *) mkmul 8 [4; 0; 7; 2; 3; 1; 6; 5]
      [mkop EC_GF_OP_XOR2 4 1 0; mkop EC_GF_OP_XOR2 3 6 0; mkop EC_GF_OP_XOR2 7 4 0;
       mkop EC_GF_OP_XOR2 4 3 0; mkop EC_GF_OP_XOR2 2 4 0; mkop EC_GF_OP_XOR2 1 0 0;
       mkop EC_GF_OP_XOR2 4 5 0; mkop EC_GF_OP_XOR2 6 2 0; mkop EC_GF_OP_XOR2 1 6 0;
       mkop EC_GF_OP_XOR2 0 4 0; mkop EC_GF_OP_XOR2 5 1 0; mkop EC_GF_OP_XOR2 1 7 0;
       mkop EC_GF_OP_XOR2 0 1 0; mkop EC_GF_OP_XOR2 3 1 0; mkop EC_GF_OP_END 0 0 0];
  (* B1 *) mkmul 9 [2; 6; 4; 7; 0; 1; 3; 5; 8]
      [mkop EC_GF_OP_XOR2 4 1 0; mkop EC_GF_OP_COPY 8 4 0; mkop EC_GF_OP_XOR2 2 7 0;
       mkop EC_GF_OP_XOR2 4 2 0; mkop EC_GF_OP_XOR2 2 3 0; mkop EC_GF_OP_XOR2 6 4 0;
       mkop EC_GF_OP_XOR2 1 0 0; mkop EC_GF_OP_XOR2 2 5 0; mkop EC_GF_OP_XOR2 0 6 0;
       mkop EC_GF_OP_XOR2 7 6 0; mkop EC_GF_OP_XOR2 1 2 0; mkop EC_GF_OP_XOR2 6 5 0;
       mkop EC_GF_OP_XOR2 3 7 0; mkop EC_GF_OP_XOR2 2 0 0; mkop EC_GF_OP_XOR3 5 8 1;
       mkop EC_GF_OP_END 0 0 0];
  (* B2 *) mkmul 9 [0; 7; 4; 5; 6; 1; 2; 3; 8]
      [mkop EC_GF_OP_XOR2 1 3 0; mkop EC_GF_OP_XOR2 2 1 0; mkop EC_GF_OP_XOR2 0 2 0;
       mkop EC_GF_OP_XOR2 6 0 0; mkop EC_GF_OP_XOR2 1 6 0; mkop EC_GF_OP_XOR3 8 4 5;
       mkop EC_GF_OP_XOR2 2 8 0; mkop EC_GF_OP_XOR2 8 1 0; mkop EC_GF_OP_XOR2 7 8 0;
       mkop EC_GF_OP_XOR2 3 8 0; mkop EC_GF_OP_XOR2 0 7 0; mkop EC_GF_OP_XOR2 5 0 0;
       mkop EC_GF_OP_XOR2 1 5 0; mkop EC_GF_OP_END 0 0 0];
  (* B3 *) mkmul 10 [2; 3; 4; 5; 1; 6; 0; 7; 8; 9]
      [mkop EC_GF_OP_XOR2 5 0 0; mkop EC_GF_OP_COPY 9 5 0; mkop EC_GF_OP_XOR2 4 2 0;
       mkop EC_GF_OP_XOR3 8 6 4; mkop EC_GF_OP_XOR2 5 3 0; mkop EC_GF_OP_XOR2 8 5 0;
       mkop EC_GF_OP_XOR2 0 1 0; mkop EC_GF_OP_XOR2 7 8 0; mkop EC_GF_OP_XOR2 0 8 0;
       mkop EC_GF_OP_XOR2 1 7 0; mkop EC_GF_OP_XOR2 2 1 0; mkop EC_GF_OP_XOR2 6 1 0;
       mkop EC_GF_OP_XOR2 3 1 0; mkop EC_GF_OP_XOR2 5 2 0; mkop EC_GF_OP_XOR3 1 9 0;
       mkop EC_GF_OP_END 0 0 0];
  (* B4 *) mkmul 8 [5; 6; 7; 0; 1; 2; 3; 4]
      [mkop EC_GF_OP_XOR2 3 1 0; mkop EC_GF_OP_XOR2 4 3 0; mkop EC_GF_OP_XOR2 1 0 0;
       mkop EC_GF_OP_XOR2 3 2 0; mkop EC_GF_OP_XOR2 2 1 0; mkop EC_GF_OP_XOR2 5 4 0;
       mkop EC_GF_OP_XOR2 4 2 0; mkop EC_GF_OP_XOR2 6 3 0; mkop EC_GF_OP_XOR2 7 4 0;
       mkop EC_GF_OP_XOR2 0 7 0; mkop EC_GF_OP_XOR2 7 6 0; mkop EC_GF_OP_XOR2 6 5 0;
       mkop EC_GF_OP_END 0 0 0];
  (* B5 *) mkmul 9 [3; 4; 0; 7; 1; 5; 6; 2; 8]
      [mkop EC_GF_OP_XOR2 1 0 0; mkop EC_GF_OP_XOR2 0 2 0; mkop EC_GF_OP_XOR2 0 3 0;
       mkop EC_GF_OP_XOR2 6 0 0; mkop EC_GF_OP_COPY 8 6 0; mkop EC_GF_OP_XOR2 6 1 0;
       mkop EC_GF_OP_XOR2 1 4 0; mkop EC_GF_OP_XOR2 4 2 0; mkop EC_GF_OP_XOR2 5 1 0;
       mkop EC_GF_OP_XOR2 7 4 0; mkop EC_GF_OP_XOR2 3 5 0; mkop EC_GF_OP_XOR2 0 7 0;
       mkop EC_GF_OP_XOR2 5 4 0; mkop EC_GF_OP_XOR2 2 0 0; mkop EC_GF_OP_XOR3 4 8 3;
       mkop EC_GF_OP_XOR2 0 6 0; mkop EC_GF_OP_END 0 0 0];
  (* B6 *) mkmul 8 [5; 3; 6; 4; 7; 0; 1; 2]
      [mkop EC_GF_OP_XOR2 7 1 0; mkop EC_GF_OP_XOR2 0 4 0; mkop EC_GF_OP_XOR2 1 2 0;
       mkop EC_GF_OP_XOR2 4 3 0; mkop EC_GF_OP_XOR2 2 3 0; mkop EC_GF_OP_XOR2 7 4 0;
       mkop EC_GF_OP_XOR2 3 5 0; mkop EC_GF_OP_XOR2 5 7 0; mkop EC_GF_OP_XOR2 6 0 0;
       mkop EC_GF_OP_XOR2 7 0 0; mkop EC_GF_OP_XOR2 0 1 0; mkop EC_GF_OP_XOR2 2 6 0;
       mkop EC_GF_OP_XOR2 1 3 0; mkop EC_GF_OP_XOR2 3 2 0; mkop EC_GF_OP_END 0 0 0];
  (* B7 *) mkmul 8 [5; 0; 1; 4; 2; 6; 7; 3]
      [mkop EC_GF_OP_XOR2 2 1 0; mkop EC_GF_OP_XOR2 0 4 0; mkop EC_GF_OP_XOR2 2 6 0;
       mkop EC_GF_OP_XOR2 0 2 0; mkop EC_GF_OP_XOR2 1 0 0; mkop EC_GF_OP_XOR2 0 5 0;
       mkop EC_GF_OP_XOR2 7 1 0; mkop EC_GF_OP_XOR2 3 7 0; mkop EC_GF_OP_XOR2 6 0 0;
       mkop EC_GF_OP_XOR2 2 3 0; mkop EC_GF_OP_XOR2 5 2 0; mkop EC_GF_OP_XOR2 7 5 0;
       mkop EC_GF_OP_END 0 0 0];
  (* B8 *) mkmul 8 [6; 4; 5; 1; 2; 0; 7; 3]
      [mkop EC_GF_OP_XOR2 2 5 0; mkop EC_GF_OP_XOR2 7 2 0; mkop EC_GF_OP_XOR2 2 0 0;
       mkop EC_GF_OP_XOR2 0 1 0; mkop EC_GF_OP_XOR2 6 3 0; mkop EC_GF_OP_XOR2 3 2 0;
       mkop EC_GF_OP_XOR2 1 4 0; mkop EC_GF_OP_XOR2 0 6 0; mkop EC_GF_OP_XOR2 4 7 0;
       mkop EC_GF_OP_XOR2 5 1 0; mkop EC_GF_OP_XOR2 6 1 0; mkop EC_GF_OP_XOR2 7 5 0;
       mkop EC_GF_OP_XOR2 1 3 0; mkop EC_GF_OP_END 0 0 0];
  (* B9 *) mkmul 9 [6; 7; 0; 2; 1; 4; 5; 3; 8]
      [mkop EC_GF_OP_COPY 8 0 0; mkop EC_GF_OP_XOR2 0 1 0; mkop EC_GF_OP_XOR2 2 5 0;
       mkop EC_GF_OP_XOR2 0 4 0; mkop EC_GF_OP_XOR2 2 0 0; mkop EC_GF_OP_XOR2 3 0 0;
       mkop EC_GF_OP_XOR3 0 8 2; mkop EC_GF_OP_XOR2 6 3 0; mkop EC_GF_OP_XOR2 1 2 0;
       mkop EC_GF_OP_XOR2 7 0 0; mkop EC_GF_OP_XOR2 5 6 0; mkop EC_GF_OP_XOR2 3 7 0;
       mkop EC_GF_OP_XOR2 4 5 0; mkop EC_GF_OP_XOR2 5 3 0; mkop EC_GF_OP_END 0 0 0];
  (* BA *) mkmul 8 [1; 2; 4; 3; 5; 6; 0; 7]
      [mkop EC_GF_OP_XOR2 2 0 0; mkop EC_GF_OP_XOR2 5 7 0; mkop EC_GF_OP_XOR2 4 5 0;
       mkop EC_GF_OP_XOR2 3 2 0; mkop EC_GF_OP_XOR2 2 4 0; mkop EC_GF_OP_XOR2 5 3 0;
       mkop EC_GF_OP_XOR2 1 2 0; mkop EC_GF_OP_XOR2 6 5 0; mkop EC_GF_OP_XOR2 0 1 0;
       mkop EC_GF_OP_XOR2 7 6 0; mkop EC_GF_OP_XOR2 3 0 0; mkop EC_GF_OP_XOR2 6 0 0;
       mkop EC_GF_OP_XOR2 1 7 0; mkop EC_GF_OP_END 0 0 0];
  (* BB *) mkmul 9 [7; 2; 1; 8; 3; 5; 6; 4; 0]
      [mkop EC_GF_OP_XOR2 3 6 0; mkop EC_GF_OP_COPY 8 3 0; mkop EC_GF_OP_XOR2 1 0 0;
       mkop EC_GF_OP_XOR2 3 1 0; mkop EC_GF_OP_XOR2 4 3 0; mkop EC_GF_OP_XOR2 8 5 0;
       mkop EC_GF_OP_XOR2 7 4 0; mkop EC_GF_OP_XOR2 5 4 0; mkop EC_GF_OP_XOR2 8 7 0;
       mkop EC_GF_OP_XOR2 2 8 0; mkop EC_GF_OP_XOR2 0 2 0; mkop EC_GF_OP_XOR2 1 2 0;
       mkop EC_GF_OP_XOR2 6 0 0; mkop EC_GF_OP_XOR2 4 0 0; mkop EC_GF_OP_XOR2 3 6 0;
       mkop EC_GF_OP_END 0 0 0];
  (* BC *) mkmul 9 [2; 6; 3; 4; 5; 1; 7; 0; 8]
      [mkop EC_GF_OP_COPY 8 1 0; mkop EC_GF_OP_XOR2 8 2 0; mkop EC_GF_OP_XOR2 6 0 0;
       mkop EC_GF_OP_XOR2 2 3 0; mkop EC_GF_OP_XOR2 6 7 0; mkop EC_GF_OP_XOR2 0 2 0;
       mkop EC_GF_OP_XOR2 4 2 0; mkop EC_GF_OP_XOR2 1 6 0; mkop EC_GF_OP_XOR2 7 8 0;
       mkop EC_GF_OP_XOR3 2 8 4; mkop EC_GF_OP_XOR2 5 6 0; mkop EC_GF_OP_XOR2 4 5 0;
       mkop EC_GF_OP_XOR2 3 4 0; mkop EC_GF_OP_XOR2 6 3 0; mkop EC_GF_OP_XOR2 3 7 0;
       mkop EC_GF_OP_END 0 0 0];
  (* BD *) mkmul 8 [4; 5; 0; 2; 7; 1; 6; 3]
      [mkop EC_GF_OP_XOR2 3 0 0; mkop EC_GF_OP_XOR2 3 1 0; mkop EC_GF_OP_XOR2 1 2 0;
       mkop EC_GF_OP_XOR2 7 1 0; mkop EC_GF_OP_XOR2 1 4 0; mkop EC_GF_OP_XOR2 4 3 0;
       mkop EC_GF_OP_XOR2 5 1 0; mkop EC_GF_OP_XOR2 3 7 0; mkop EC_GF_OP_XOR2 0 6 0;
       mkop EC_GF_OP_XOR2 0 5 0; mkop EC_GF_OP_XOR2 6 7 0; mkop EC_GF_OP_XOR2 7 0 0;
       mkop EC_GF_OP_XOR2 2 7 0; mkop EC_GF_OP_XOR2 1 2 0; mkop EC_GF_OP_END 0 0 0];
  (* BE *) mkmul 8 [0; 6; 7; 4; 5; 1; 3; 2]
      [mkop EC_GF_OP_XOR2 0 3 0; mkop EC_GF_OP_XOR2 0 6 0; mkop EC_GF_OP_XOR2 1 5 0;
       mkop EC_GF_OP_XOR2 5 0 0; mkop EC_GF_OP_XOR2 4 5 0; mkop EC_GF_OP_XOR2 3 4 0;
       mkop EC_GF_OP_XOR2 7 3 0; mkop EC_GF_OP_XOR2 3 2 0; mkop EC_GF_OP_XOR2 1 7 0;
       mkop EC_GF_OP_XOR2 2 0 0; mkop EC_GF_OP_XOR2 6 3 0; mkop EC_GF_OP_XOR2 0 1 0;
       mkop EC_GF_OP_XOR2 3 1 0; mkop EC_GF_OP_END 0 0 0];
  (* BF *) mkmul 8 [5; 6; 1; 7; 3; 0; 2; 4]
      [mkop EC_GF_OP_XOR2 7 1 0; mkop EC_GF_OP_XOR2 6 7 0; mkop EC_GF_OP_XOR2 5 6 0;
       mkop EC_GF_OP_XOR2 4 5 0; mkop EC_GF_OP_XOR2 0 4 0; mkop EC_GF_OP_XOR2 1 2 0;
       mkop EC_GF_OP_XOR2 7 0 0; mkop EC_GF_OP_XOR2 2 5 0; mkop EC_GF_OP_XOR2 1 0 0;
       mkop EC_GF_OP_XOR2 6 1 0; mkop EC_GF_OP_XOR2 4 6 0; mkop EC_GF_OP_XOR2 4 3 0;
       mkop EC_GF_OP_XOR2 3 7 0; mkop EC_GF_OP_XOR2 5 3 0; mkop EC_GF_OP_END 0 0 0]].

(** [ec_gf8_mul_C0] to [ec_gf8_mul_CF]. *)
Definition ec_gf8_mul_Cx : list ec_gf_mul_t := [
  (* C0 *) mkmul 8 [1; 2; 3; 4; 7; 5; 6; 0]
      [mkop EC_GF_OP_XOR2 4 1 0; mkop EC_GF_OP_XOR2 6 3 0; mkop EC_GF_OP_XOR2 7 4 0;
       mkop EC_GF_OP_XOR2 4 6 0; mkop EC_GF_OP_XOR2 5 2 0; mkop EC_GF_OP_XOR2 2 6 0;
       mkop EC_GF_OP_XOR2 3 5 0; mkop EC_GF_OP_XOR2 6 0 0; mkop EC_GF_OP_XOR2 1 5 0;
       mkop EC_GF_OP_XOR2 3 7 0; mkop EC_GF_OP_XOR2 0 7 0; mkop EC_GF_OP_END 0 0 0];
  (* C1 *) mkmul 9 [5; 6; 7; 4; 1; 2; 3; 0; 8]
      [mkop EC_GF_OP_XOR3 8 1 2; mkop EC_GF_OP_XOR2 8 3 0; mkop EC_GF_OP_XOR2 4 1 0;
       mkop EC_GF_OP_XOR2 3 0 0; mkop EC_GF_OP_XOR2 0 4 0; mkop EC_GF_OP_XOR2 1 7 0;
       mkop EC_GF_OP_XOR2 5 3 0; mkop EC_GF_OP_XOR2 7 0 0; mkop EC_GF_OP_XOR2 4 6 0;
       mkop EC_GF_OP_XOR2 7 5 0; mkop EC_GF_OP_XOR2 6 8 0; mkop EC_GF_OP_XOR2 5 8 0;
       mkop EC_GF_OP_END 0 0 0];
  (* C2 *) mkmul 8 [7; 6; 3; 0; 1; 4; 5; 2]
      [mkop EC_GF_OP_XOR2 0 2 0; mkop EC_GF_OP_XOR2 1 3 0; mkop EC_GF_OP_XOR2 0 3 0;
       mkop EC_GF_OP_XOR2 1 4 0; mkop EC_GF_OP_XOR2 6 0 0; mkop EC_GF_OP_XOR2 4 2 0;
       mkop EC_GF_OP_XOR2 2 6 0; mkop EC_GF_OP_XOR2 4 5 0; mkop EC_GF_OP_XOR2 5 2 0;
       mkop EC_GF_OP_XOR2 7 1 0; mkop EC_GF_OP_XOR2 3 4 0; mkop EC_GF_OP_XOR2 2 7 0;
       mkop EC_GF_OP_XOR2 7 3 0; mkop EC_GF_OP_XOR2 0 2 0; mkop EC_GF_OP_END 0 0 0];
  (* C3 *) mkmul 10 [5; 6; 4; 7; 1; 2; 3; 0; 8; 9]
      [mkop EC_GF_OP_COPY 8 0 0; mkop EC_GF_OP_XOR2 0 1 0; mkop EC_GF_OP_XOR2 0 2 0;
       mkop EC_GF_OP_XOR2 6 0 0; mkop EC_GF_OP_XOR2 2 4 0; mkop EC_GF_OP_XOR2 7 0 0;
       mkop EC_GF_OP_XOR3 0 2 6; mkop EC_GF_OP_XOR2 6 3 0; mkop EC_GF_OP_XOR3 9 1 0;
       mkop EC_GF_OP_XOR2 1 3 0; mkop EC_GF_OP_XOR2 3 5 0; mkop EC_GF_OP_XOR2 5 7 0;
       mkop EC_GF_OP_XOR2 4 3 0; mkop EC_GF_OP_XOR2 7 9 0; mkop EC_GF_OP_XOR2 3 8 0;
       mkop EC_GF_OP_END 0 0 0];
  (* C4 *) mkmul 8 [0; 2; 1; 3; 4; 5; 6; 7]
      [mkop EC_GF_OP_XOR2 3 7 0; mkop EC_GF_OP_XOR2 2 3 0; mkop EC_GF_OP_XOR2 3 4 0;
       mkop EC_GF_OP_XOR2 4 5 0; mkop EC_GF_OP_XOR2 5 2 0; mkop EC_GF_OP_XOR2 1 0 0;
       mkop EC_GF_OP_XOR2 2 6 0; mkop EC_GF_OP_XOR2 1 4 0; mkop EC_GF_OP_XOR2 6 7 0;
       mkop EC_GF_OP_XOR2 0 3 0; mkop EC_GF_OP_XOR2 7 1 0; mkop EC_GF_OP_XOR2 1 2 0;
       mkop EC_GF_OP_XOR2 6 0 0; mkop EC_GF_OP_XOR2 0 1 0; mkop EC_GF_OP_XOR2 4 0 0;
       mkop EC_GF_OP_END 0 0 0];
  (* C5 *) mkmul 8 [4; 3; 5; 7; 6; 2; 0; 1]
      [mkop EC_GF_OP_XOR2 0 4 0; mkop EC_GF_OP_XOR2 5 0 0; mkop EC_GF_OP_XOR2 6 1 0;
       mkop EC_GF_OP_XOR2 0 3 0; mkop EC_GF_OP_XOR2 1 5 0; mkop EC_GF_OP_XOR2 6 2 0;
       mkop EC_GF_OP_XOR2 3 7 0; mkop EC_GF_OP_XOR2 5 6 0; mkop EC_GF_OP_XOR2 7 4 0;
       mkop EC_GF_OP_XOR2 2 3 0; mkop EC_GF_OP_XOR2 4 5 0; mkop EC_GF_OP_XOR2 3 6 0;
       mkop EC_GF_OP_XOR2 5 2 0; mkop EC_GF_OP_END 0 0 0];
  (* C6 *) mkmul 10 [6; 3; 0; 4; 5; 7; 2; 1; 8; 9]
      [mkop EC_GF_OP_XOR2 4 3 0; mkop EC_GF_OP_COPY 8 4 0; mkop EC_GF_OP_XOR2 4 2 0;
       mkop EC_GF_OP_XOR3 9 5 4; mkop EC_GF_OP_XOR2 6 9 0; mkop EC_GF_OP_XOR2 0 6 0;
       mkop EC_GF_OP_XOR2 1 7 0; mkop EC_GF_OP_XOR2 2 0 0; mkop EC_GF_OP_XOR2 7 9 0;
       mkop EC_GF_OP_XOR2 6 1 0; mkop EC_GF_OP_XOR2 3 2 0; mkop EC_GF_OP_XOR2 5 6 0;
       mkop EC_GF_OP_XOR2 1 3 0; mkop EC_GF_OP_XOR2 6 8 0; mkop EC_GF_OP_XOR2 3 7 0;
       mkop EC_GF_OP_END 0 0 0];
  (* C7 *) mkmul 8 [7; 0; 6; 2; 5; 3; 4; 1]
      [mkop EC_GF_OP_XOR2 5 0 0; mkop EC_GF_OP_XOR2 5 3 0; mkop EC_GF_OP_XOR2 2 4 0;
       mkop EC_GF_OP_XOR2 4 5 0; mkop EC_GF_OP_XOR2 1 3 0; mkop EC_GF_OP_XOR2 6 4 0;
       mkop EC_GF_OP_XOR2 7 2 0; mkop EC_GF_OP_XOR2 1 6 0; mkop EC_GF_OP_XOR2 3 7 0;
       mkop EC_GF_OP_XOR2 7 1 0; mkop EC_GF_OP_XOR2 5 7 0; mkop EC_GF_OP_XOR2 0 5 0;
       mkop EC_GF_OP_END 0 0 0];
  (* C8 *) mkmul 8 [1; 3; 2; 4; 6; 7; 5; 0]
      [mkop EC_GF_OP_XOR2 6 5 0; mkop EC_GF_OP_XOR2 5 0 0; mkop EC_GF_OP_XOR2 0 1 0;
       mkop EC_GF_OP_XOR2 0 7 0; mkop EC_GF_OP_XOR2 7 6 0; mkop EC_GF_OP_XOR2 6 4 0;
       mkop EC_GF_OP_XOR2 4 3 0; mkop EC_GF_OP_XOR2 4 1 0; mkop EC_GF_OP_XOR2 3 2 0;
       mkop EC_GF_OP_XOR2 1 2 0; mkop EC_GF_OP_XOR2 2 4 0; mkop EC_GF_OP_XOR2 4 5 0;
       mkop EC_GF_OP_XOR2 5 7 0; mkop EC_GF_OP_END 0 0 0];
  (* C9 *) mkmul 8 [2; 3; 4; 5; 6; 7; 0; 1]
      [mkop EC_GF_OP_XOR2 1 0 0; mkop EC_GF_OP_XOR2 3 0 0; mkop EC_GF_OP_XOR2 0 7 0;
       mkop EC_GF_OP_XOR2 7 6 0; mkop EC_GF_OP_XOR2 4 1 0; mkop EC_GF_OP_XOR2 6 5 0;
       mkop EC_GF_OP_XOR2 5 4 0; mkop EC_GF_OP_XOR2 2 1 0; mkop EC_GF_OP_XOR2 4 3 0;
       mkop EC_GF_OP_XOR2 3 2 0; mkop EC_GF_OP_END 0 0 0];
  (* CA *) mkmul 8 [1; 2; 5; 7; 3; 4; 0; 6]
      [mkop EC_GF_OP_XOR2 6 7 0; mkop EC_GF_OP_XOR2 7 2 0; mkop EC_GF_OP_XOR2 5 6 0;
       mkop EC_GF_OP_XOR2 2 0 0; mkop EC_GF_OP_XOR2 4 5 0; mkop EC_GF_OP_XOR2 2 3 0;
       mkop EC_GF_OP_XOR2 6 1 0; mkop EC_GF_OP_XOR2 3 4 0; mkop EC_GF_OP_XOR2 1 7 0;
       mkop EC_GF_OP_XOR2 6 0 0; mkop EC_GF_OP_XOR2 7 3 0; mkop EC_GF_OP_XOR2 0 5 0;
       mkop EC_GF_OP_XOR2 5 7 0; mkop EC_GF_OP_XOR2 7 6 0; mkop EC_GF_OP_END 0 0 0];
  (* CB *) mkmul 8 [2; 3; 4; 5; 7; 6; 0; 1]
      [mkop EC_GF_OP_XOR2 1 0 0; mkop EC_GF_OP_XOR2 2 1 0; mkop EC_GF_OP_XOR2 1 6 0;
       mkop EC_GF_OP_XOR2 6 3 0; mkop EC_GF_OP_XOR2 3 2 0; mkop EC_GF_OP_XOR2 2 7 0;
       mkop EC_GF_OP_XOR2 4 2 0; mkop EC_GF_OP_XOR2 7 5 0; mkop EC_GF_OP_XOR2 5 4 0;
       mkop EC_GF_OP_XOR2 0 7 0; mkop EC_GF_OP_XOR2 4 3 0; mkop EC_GF_OP_XOR2 7 6 0;
       mkop EC_GF_OP_XOR2 6 4 0; mkop EC_GF_OP_END 0 0 0];
  (* CC *) mkmul 8 [2; 7; 1; 0; 5; 6; 3; 4]
      [mkop EC_GF_OP_XOR2 7 2 0; mkop EC_GF_OP_XOR2 4 7 0; mkop EC_GF_OP_XOR2 0 2 0;
       mkop EC_GF_OP_XOR2 7 3 0; mkop EC_GF_OP_XOR2 2 1 0; mkop EC_GF_OP_XOR2 3 5 0;
       mkop EC_GF_OP_XOR2 1 7 0; mkop EC_GF_OP_XOR2 2 6 0; mkop EC_GF_OP_XOR2 5 4 0;
       mkop EC_GF_OP_XOR2 6 3 0; mkop EC_GF_OP_XOR2 4 6 0; mkop EC_GF_OP_XOR2 0 4 0;
       mkop EC_GF_OP_XOR2 3 0 0; mkop EC_GF_OP_XOR2 1 3 0; mkop EC_GF_OP_XOR2 4 1 0;
       mkop EC_GF_OP_END 0 0 0];
  (* CD *) mkmul 8 [0; 6; 1; 2; 7; 3; 4; 5]
      [mkop EC_GF_OP_XOR2 4 0 0; mkop EC_GF_OP_XOR2 3 6 0; mkop EC_GF_OP_XOR2 0 1 0;
       mkop EC_GF_OP_XOR2 6 2 0; mkop EC_GF_OP_XOR2 1 3 0; mkop EC_GF_OP_XOR2 2 5 0;
       mkop EC_GF_OP_XOR2 1 4 0; mkop EC_GF_OP_XOR2 5 0 0; mkop EC_GF_OP_XOR2 4 7 0;
       mkop EC_GF_OP_XOR2 0 6 0; mkop EC_GF_OP_XOR2 7 2 0; mkop EC_GF_OP_XOR2 6 4 0;
       mkop EC_GF_OP_XOR2 2 6 0; mkop EC_GF_OP_XOR2 6 1 0; mkop EC_GF_OP_END 0 0 0];
  (* CE *) mkmul 9 [5; 7; 3; 0; 2; 6; 4; 1; 8]
      [mkop EC_GF_OP_XOR2 0 2 0; mkop EC_GF_OP_XOR2 3 5 0; mkop EC_GF_OP_XOR2 5 0 0;
       mkop EC_GF_OP_XOR2 7 5 0; mkop EC_GF_OP_COPY 8 7 0; mkop EC_GF_OP_XOR2 7 3 0;
       mkop EC_GF_OP_XOR2 3 4 0; mkop EC_GF_OP_XOR2 6 3 0; mkop EC_GF_OP_XOR2 2 3 0;
       mkop EC_GF_OP_XOR3 3 6 8; mkop EC_GF_OP_XOR2 0 6 0; mkop EC_GF_OP_XOR3 8 2 3;
       mkop EC_GF_OP_XOR2 1 8 0; mkop EC_GF_OP_XOR2 4 8 0; mkop EC_GF_OP_XOR2 5 1 0;
       mkop EC_GF_OP_END 0 0 0];
  (* CF *) mkmul 8 [3; 6; 7; 0; 2; 4; 5; 1]
      [mkop EC_GF_OP_XOR2 1 2 0; mkop EC_GF_OP_XOR2 5 3 0; mkop EC_GF_OP_XOR2 3 6 0;
       mkop EC_GF_OP_XOR2 2 5 0; mkop EC_GF_OP_XOR2 1 4 0; mkop EC_GF_OP_XOR2 4 3 0;
       mkop EC_GF_OP_XOR2 0 4 0; mkop EC_GF_OP_XOR2 7 0 0; mkop EC_GF_OP_XOR2 0 2 0;
       mkop EC_GF_OP_XOR2 6 7 0; mkop EC_GF_OP_XOR2 5 6 0; mkop EC_GF_OP_XOR2 6 1 0;
       mkop EC_GF_OP_XOR2 1 0 0; mkop EC_GF_OP_XOR2 3 6 0; mkop EC_GF_OP_END 0 0 0]].

(** [ec_gf8_mul_D0] to [ec_gf8_mul_DF]. *)
Definition ec_gf8_mul_Dx : list ec_gf_mul_t := [
  (* D0 *) mkmul 8 [5; 6; 7; 2; 0; 3; 1; 4]
      [mkop EC_GF_OP_XOR2 5 2 0; mkop EC_GF_OP_XOR2 0 3 0; mkop EC_GF_OP_XOR2 3 5 0;
       mkop EC_GF_OP_XOR2 6 3 0; mkop EC_GF_OP_XOR2 4 1 0; mkop EC_GF_OP_XOR2 1 6 0;
       mkop EC_GF_OP_XOR2 5 4 0; mkop EC_GF_OP_XOR2 7 1 0; mkop EC_GF_OP_XOR2 4 0 0;
       mkop EC_GF_OP_XOR2 2 7 0; mkop EC_GF_OP_XOR2 0 2 0; mkop EC_GF_OP_XOR2 3 2 0;
       mkop EC_GF_OP_XOR2 1 0 0; mkop EC_GF_OP_END 0 0 0];
  (* D1 *) mkmul 9 [5; 6; 3; 2; 0; 7; 4; 1; 8]
      [mkop EC_GF_OP_XOR2 1 2 0; mkop EC_GF_OP_XOR2 0 4 0; mkop EC_GF_OP_XOR2 5 1 0;
       mkop EC_GF_OP_XOR2 4 6 0; mkop EC_GF_OP_XOR2 6 5 0; mkop EC_GF_OP_XOR2 5 0 0;
       mkop EC_GF_OP_XOR2 7 6 0; mkop EC_GF_OP_XOR2 6 3 0; mkop EC_GF_OP_XOR2 2 7 0;
       mkop EC_GF_OP_XOR2 0 2 0; mkop EC_GF_OP_XOR2 3 2 0; mkop EC_GF_OP_XOR3 8 6 0;
       mkop EC_GF_OP_XOR2 4 8 0; mkop EC_GF_OP_XOR2 1 8 0; mkop EC_GF_OP_END 0 0 0];
  (* D2 *) mkmul 8 [7; 0; 2; 1; 3; 4; 6; 5]
      [mkop EC_GF_OP_XOR2 3 5 0; mkop EC_GF_OP_XOR2 3 6 0; mkop EC_GF_OP_XOR2 2 3 0;
       mkop EC_GF_OP_XOR2 3 0 0; mkop EC_GF_OP_XOR2 0 2 0; mkop EC_GF_OP_XOR2 3 1 0;
       mkop EC_GF_OP_XOR2 7 0 0; mkop EC_GF_OP_XOR2 4 3 0; mkop EC_GF_OP_XOR2 1 2 0;
       mkop EC_GF_OP_XOR2 6 7 0; mkop EC_GF_OP_XOR2 5 4 0; mkop EC_GF_OP_XOR2 4 6 0;
       mkop EC_GF_OP_XOR2 7 5 0; mkop EC_GF_OP_END 0 0 0];
  (* D3 *) mkmul 9 [0; 3; 2; 8; 4; 6; 7; 1; 5]
      [mkop EC_GF_OP_XOR2 4 7 0; mkop EC_GF_OP_COPY 8 4 0; mkop EC_GF_OP_XOR2 2 1 0;
       mkop EC_GF_OP_XOR2 4 2 0; mkop EC_GF_OP_XOR2 5 4 0; mkop EC_GF_OP_XOR2 6 5 0;
       mkop EC_GF_OP_XOR2 8 6 0; mkop EC_GF_OP_XOR2 3 8 0; mkop EC_GF_OP_XOR2 2 3 0;
       mkop EC_GF_OP_XOR2 3 0 0; mkop EC_GF_OP_XOR2 1 3 0; mkop EC_GF_OP_XOR2 0 5 0;
       mkop EC_GF_OP_XOR2 7 1 0; mkop EC_GF_OP_XOR2 1 5 0; mkop EC_GF_OP_XOR2 4 7 0;
       mkop EC_GF_OP_END 0 0 0];
  (* D4 *) mkmul 9 [4; 1; 7; 5; 0; 6; 3; 2; 8]
      [mkop EC_GF_OP_XOR2 1 5 0; mkop EC_GF_OP_COPY 8 1 0; mkop EC_GF_OP_XOR2 1 2 0;
       mkop EC_GF_OP_XOR2 0 1 0; mkop EC_GF_OP_XOR2 5 3 0; mkop EC_GF_OP_XOR2 6 1 0;
       mkop EC_GF_OP_XOR2 3 0 0; mkop EC_GF_OP_XOR3 1 7 8; mkop EC_GF_OP_XOR2 7 3 0;
       mkop EC_GF_OP_XOR2 3 4 0; mkop EC_GF_OP_XOR2 4 6 0; mkop EC_GF_OP_XOR2 2 3 0;
       mkop EC_GF_OP_XOR2 6 5 0; mkop EC_GF_OP_XOR2 3 1 0; mkop EC_GF_OP_XOR2 1 6 0;
       mkop EC_GF_OP_END 0 0 0];
  (* D5 *) mkmul 8 [6; 7; 4; 5; 2; 3; 1; 0]
      [mkop EC_GF_OP_XOR2 0 4 0; mkop EC_GF_OP_XOR2 1 5 0; mkop EC_GF_OP_XOR2 1 0 0;
       mkop EC_GF_OP_XOR2 2 1 0; mkop EC_GF_OP_XOR2 6 2 0; mkop EC_GF_OP_XOR2 0 6 0;
       mkop EC_GF_OP_XOR2 3 0 0; mkop EC_GF_OP_XOR2 7 3 0; mkop EC_GF_OP_XOR2 1 7 0;
       mkop EC_GF_OP_XOR2 0 1 0; mkop EC_GF_OP_XOR2 4 0 0; mkop EC_GF_OP_END 0 0 0];
  (* D6 *) mkmul 9 [0; 6; 2; 7; 1; 3; 4; 5; 8]
      [mkop EC_GF_OP_COPY 8 0 0; mkop EC_GF_OP_XOR2 0 2 0; mkop EC_GF_OP_XOR2 2 1 0;
       mkop EC_GF_OP_XOR2 2 4 0; mkop EC_GF_OP_XOR2 2 6 0; mkop EC_GF_OP_XOR2 3 2 0;
       mkop EC_GF_OP_XOR2 0 3 0; mkop EC_GF_OP_XOR2 5 0 0; mkop EC_GF_OP_XOR2 2 5 0;
       mkop EC_GF_OP_XOR2 7 2 0; mkop EC_GF_OP_XOR2 1 7 0; mkop EC_GF_OP_XOR2 4 7 0;
       mkop EC_GF_OP_XOR2 6 7 0; mkop EC_GF_OP_XOR2 0 7 0; mkop EC_GF_OP_XOR2 7 8 0;
       mkop EC_GF_OP_END 0 0 0];
  (* D7 *) mkmul 9 [3; 4; 6; 5; 0; 7; 1; 2; 8]
      [mkop EC_GF_OP_XOR2 7 2 0; mkop EC_GF_OP_XOR2 5 7 0; mkop EC_GF_OP_XOR2 7 0 0;
       mkop EC_GF_OP_XOR2 0 1 0; mkop EC_GF_OP_XOR3 8 3 5; mkop EC_GF_OP_XOR2 0 4 0;
       mkop EC_GF_OP_XOR2 0 8 0; mkop EC_GF_OP_XOR2 6 0 0; mkop EC_GF_OP_XOR2 2 6 0;
       mkop EC_GF_OP_XOR2 1 6 0; mkop EC_GF_OP_XOR2 4 6 0; mkop EC_GF_OP_XOR2 3 6 0;
       mkop EC_GF_OP_XOR3 6 7 8; mkop EC_GF_OP_XOR2 7 2 0; mkop EC_GF_OP_END 0 0 0];
  (* D8 *) mkmul 8 [4; 5; 6; 7; 0; 1; 2; 3]
      [mkop EC_GF_OP_XOR2 3 2 0; mkop EC_GF_OP_XOR2 4 1 0; mkop EC_GF_OP_XOR2 5 3 0;
       mkop EC_GF_OP_XOR2 4 2 0; mkop EC_GF_OP_XOR2 3 1 0; mkop EC_GF_OP_XOR2 2 0 0;
       mkop EC_GF_OP_XOR2 6 3 0; mkop EC_GF_OP_XOR2 3 2 0; mkop EC_GF_OP_XOR2 7 3 0;
       mkop EC_GF_OP_END 0 0 0];
  (* D9 *) mkmul 8 [1; 2; 6; 7; 4; 5; 0; 3]
      [mkop EC_GF_OP_XOR2 4 0 0; mkop EC_GF_OP_XOR2 0 1 0; mkop EC_GF_OP_XOR2 5 1 0;
       mkop EC_GF_OP_XOR2 1 2 0; mkop EC_GF_OP_XOR2 6 1 0; mkop EC_GF_OP_XOR2 7 0 0;
       mkop EC_GF_OP_XOR2 1 4 0; mkop EC_GF_OP_XOR2 2 3 0; mkop EC_GF_OP_XOR2 0 6 0;
       mkop EC_GF_OP_XOR2 3 7 0; mkop EC_GF_OP_XOR2 6 2 0; mkop EC_GF_OP_XOR2 2 5 0;
       mkop EC_GF_OP_END 0 0 0];
  (* DA *) mkmul 9 [2; 5; 7; 1; 0; 4; 3; 6; 8]
      [mkop EC_GF_OP_XOR2 6 2 0; mkop EC_GF_OP_XOR2 2 7 0; mkop EC_GF_OP_XOR2 7 3 0;
       mkop EC_GF_OP_XOR2 0 7 0; mkop EC_GF_OP_XOR3 8 2 0; mkop EC_GF_OP_XOR2 7 6 0;
       mkop EC_GF_OP_XOR2 4 1 0; mkop EC_GF_OP_XOR2 1 8 0; mkop EC_GF_OP_XOR2 5 8 0;
       mkop EC_GF_OP_XOR2 2 4 0; mkop EC_GF_OP_XOR2 6 1 0; mkop EC_GF_OP_XOR2 3 5 0;
       mkop EC_GF_OP_END 0 0 0];
  (* DB *) mkmul 9 [7; 5; 6; 2; 3; 4; 1; 0; 8]
      [mkop EC_GF_OP_COPY 8 0 0; mkop EC_GF_OP_XOR2 0 1 0; mkop EC_GF_OP_XOR2 2 0 0;
       mkop EC_GF_OP_XOR2 5 2 0; mkop EC_GF_OP_XOR2 1 5 0; mkop EC_GF_OP_XOR2 8 4 0;
       mkop EC_GF_OP_XOR2 5 3 0; mkop EC_GF_OP_XOR2 4 2 0; mkop EC_GF_OP_XOR2 3 7 0;
       mkop EC_GF_OP_XOR2 7 4 0; mkop EC_GF_OP_XOR2 4 1 0; mkop EC_GF_OP_XOR2 1 6 0;
       mkop EC_GF_OP_XOR2 6 3 0; mkop EC_GF_OP_XOR2 3 8 0; mkop EC_GF_OP_XOR2 0 6 0;
       mkop EC_GF_OP_END 0 0 0];
  (* DC *) mkmul 8 [4; 5; 2; 6; 7; 1; 0; 3]
      [mkop EC_GF_OP_XOR2 7 3 0; mkop EC_GF_OP_XOR2 3 0 0; mkop EC_GF_OP_XOR2 4 2 0;
       mkop EC_GF_OP_XOR2 0 4 0; mkop EC_GF_OP_XOR2 3 1 0; mkop EC_GF_OP_XOR2 6 1 0;
       mkop EC_GF_OP_XOR2 1 7 0; mkop EC_GF_OP_XOR2 4 6 0; mkop EC_GF_OP_XOR2 7 2 0;
       mkop EC_GF_OP_XOR2 6 3 0; mkop EC_GF_OP_XOR2 2 3 0; mkop EC_GF_OP_XOR2 3 5 0;
       mkop EC_GF_OP_XOR2 5 7 0; mkop EC_GF_OP_XOR2 7 6 0; mkop EC_GF_OP_END 0 0 0];
  (* DD *) mkmul 8 [1; 2; 3; 6; 7; 0; 4; 5]
      [mkop EC_GF_OP_XOR2 3 1 0; mkop EC_GF_OP_XOR2 3 0 0; mkop EC_GF_OP_XOR2 5 7 0;
       mkop EC_GF_OP_XOR2 5 3 0; mkop EC_GF_OP_XOR2 4 2 0; mkop EC_GF_OP_XOR2 6 0 0;
       mkop EC_GF_OP_XOR2 0 5 0; mkop EC_GF_OP_XOR2 4 6 0; mkop EC_GF_OP_XOR2 2 0 0;
       mkop EC_GF_OP_XOR2 1 4 0; mkop EC_GF_OP_XOR2 7 4 0; mkop EC_GF_OP_END 0 0 0];
  (* DE *) mkmul 8 [0; 5; 2; 6; 7; 1; 3; 4]
      [mkop EC_GF_OP_XOR2 2 0 0; mkop EC_GF_OP_XOR2 3 7 0; mkop EC_GF_OP_XOR2 2 3 0;
       mkop EC_GF_OP_XOR2 6 2 0; mkop EC_GF_OP_XOR2 1 4 0; mkop EC_GF_OP_XOR2 7 6 0;
       mkop EC_GF_OP_XOR2 5 2 0; mkop EC_GF_OP_XOR2 1 3 0; mkop EC_GF_OP_XOR2 0 7 0;
       mkop EC_GF_OP_XOR2 4 5 0; mkop EC_GF_OP_XOR2 0 1 0; mkop EC_GF_OP_XOR2 3 4 0;
       mkop EC_GF_OP_XOR2 4 0 0; mkop EC_GF_OP_END 0 0 0];
  (* DF *) mkmul 10 [7; 2; 8; 4; 3; 1; 0; 6; 5; 9]
      [mkop EC_GF_OP_COPY 8 0 0; mkop EC_GF_OP_XOR2 0 2 0; mkop EC_GF_OP_XOR2 0 4 0;
       mkop EC_GF_OP_XOR2 8 3 0; mkop EC_GF_OP_COPY 9 0 0; mkop EC_GF_OP_XOR2 0 6 0;
       mkop EC_GF_OP_XOR2 8 7 0; mkop EC_GF_OP_XOR2 3 0 0; mkop EC_GF_OP_XOR2 7 0 0;
       mkop EC_GF_OP_XOR2 0 5 0; mkop EC_GF_OP_XOR2 4 7 0; mkop EC_GF_OP_XOR2 5 1 0;
       mkop EC_GF_OP_XOR2 7 1 0; mkop EC_GF_OP_XOR2 5 8 0; mkop EC_GF_OP_XOR2 2 5 0;
       mkop EC_GF_OP_XOR2 6 5 0; mkop EC_GF_OP_XOR3 1 9 2; mkop EC_GF_OP_END 0 0 0]].

(** [ec_gf8_mul_E0] to [ec_gf8_mul_EF]. *)
Definition ec_gf8_mul_Ex : list ec_gf_mul_t := [
  (* E0 *) mkmul 8 [2; 3; 4; 7; 5; 6; 0; 1]
      [mkop EC_GF_OP_XOR2 4 2 0; mkop EC_GF_OP_XOR2 6 4 0; mkop EC_GF_OP_XOR2 5 3 0;
       mkop EC_GF_OP_XOR2 3 6 0; mkop EC_GF_OP_XOR2 4 1 0; mkop EC_GF_OP_XOR2 7 1 0;
       mkop EC_GF_OP_XOR2 5 7 0; mkop EC_GF_OP_XOR2 6 0 0; mkop EC_GF_OP_XOR2 2 5 0;
       mkop EC_GF_OP_XOR2 0 5 0; mkop EC_GF_OP_XOR2 1 6 0; mkop EC_GF_OP_END 0 0 0];
  (* E1 *) mkmul 10 [0; 7; 1; 3; 4; 5; 6; 2; 8; 9]
      [mkop EC_GF_OP_COPY 8 1 0; mkop EC_GF_OP_XOR2 8 7 0; mkop EC_GF_OP_XOR2 3 8 0;
       mkop EC_GF_OP_XOR3 9 5 3; mkop EC_GF_OP_XOR2 0 9 0; mkop EC_GF_OP_XOR2 1 4 0;
       mkop EC_GF_OP_XOR2 7 0 0; mkop EC_GF_OP_XOR2 6 0 0; mkop EC_GF_OP_XOR2 4 9 0;
       mkop EC_GF_OP_XOR2 0 2 0; mkop EC_GF_OP_XOR2 2 4 0; mkop EC_GF_OP_XOR2 2 6 0;
       mkop EC_GF_OP_XOR2 5 2 0; mkop EC_GF_OP_XOR2 2 8 0; mkop EC_GF_OP_XOR2 7 5 0;
       mkop EC_GF_OP_END 0 0 0];
  (* E2 *) mkmul 8 [2; 3; 7; 1; 5; 6; 0; 4]
      [mkop EC_GF_OP_XOR2 6 0 0; mkop EC_GF_OP_XOR2 5 1 0; mkop EC_GF_OP_XOR2 6 2 0;
       mkop EC_GF_OP_XOR2 1 2 0; mkop EC_GF_OP_XOR2 2 3 0; mkop EC_GF_OP_XOR2 0 1 0;
       mkop EC_GF_OP_XOR2 3 4 0; mkop EC_GF_OP_XOR2 7 2 0; mkop EC_GF_OP_XOR2 4 0 0;
       mkop EC_GF_OP_XOR2 2 5 0; mkop EC_GF_OP_XOR2 0 7 0; mkop EC_GF_OP_XOR2 7 3 0;
       mkop EC_GF_OP_XOR2 3 6 0; mkop EC_GF_OP_END 0 0 0];
  (* E3 *) mkmul 9 [5; 4; 7; 2; 1; 3; 6; 0; 8]
      [mkop EC_GF_OP_XOR2 7 4 0; mkop EC_GF_OP_XOR2 3 1 0; mkop EC_GF_OP_XOR3 8 2 7;
       mkop EC_GF_OP_XOR2 4 5 0; mkop EC_GF_OP_XOR2 2 3 0; mkop EC_GF_OP_XOR2 5 0 0;
       mkop EC_GF_OP_XOR2 5 2 0; mkop EC_GF_OP_XOR2 0 1 0; mkop EC_GF_OP_XOR2 6 5 0;
       mkop EC_GF_OP_XOR2 1 4 0; mkop EC_GF_OP_XOR2 0 8 0; mkop EC_GF_OP_XOR2 4 6 0;
       mkop EC_GF_OP_XOR2 3 6 0; mkop EC_GF_OP_XOR3 6 8 4; mkop EC_GF_OP_END 0 0 0];
  (* E4 *) mkmul 8 [7; 0; 1; 6; 3; 4; 2; 5]
      [mkop EC_GF_OP_XOR2 4 0 0; mkop EC_GF_OP_XOR2 2 6 0; mkop EC_GF_OP_XOR2 2 4 0;
       mkop EC_GF_OP_XOR2 1 2 0; mkop EC_GF_OP_XOR2 5 1 0; mkop EC_GF_OP_XOR2 4 5 0;
       mkop EC_GF_OP_XOR2 3 4 0; mkop EC_GF_OP_XOR2 7 3 0; mkop EC_GF_OP_XOR2 2 7 0;
       mkop EC_GF_OP_XOR2 4 2 0; mkop EC_GF_OP_XOR2 0 4 0; mkop EC_GF_OP_END 0 0 0];
  (* E5 *) mkmul 9 [4; 5; 3; 6; 7; 1; 0; 2; 8]
      [mkop EC_GF_OP_XOR2 7 5 0; mkop EC_GF_OP_XOR2 5 0 0; mkop EC_GF_OP_XOR2 0 1 0;
       mkop EC_GF_OP_XOR2 6 3 0; mkop EC_GF_OP_XOR2 0 6 0; mkop EC_GF_OP_XOR2 0 4 0;
       mkop EC_GF_OP_COPY 8 0 0; mkop EC_GF_OP_XOR2 0 7 0; mkop EC_GF_OP_XOR2 2 0 0;
       mkop EC_GF_OP_XOR2 5 2 0; mkop EC_GF_OP_XOR2 1 2 0; mkop EC_GF_OP_XOR2 4 2 0;
       mkop EC_GF_OP_XOR2 7 5 0; mkop EC_GF_OP_XOR2 2 3 0; mkop EC_GF_OP_XOR2 3 8 0;
       mkop EC_GF_OP_END 0 0 0];
  (* E6 *) mkmul 8 [5; 4; 3; 6; 7; 0; 1; 2]
      [mkop EC_GF_OP_XOR2 6 2 0; mkop EC_GF_OP_XOR2 1 6 0; mkop EC_GF_OP_XOR2 6 7 0;
       mkop EC_GF_OP_XOR2 0 3 0; mkop EC_GF_OP_XOR2 5 1 0; mkop EC_GF_OP_XOR2 0 6 0;
       mkop EC_GF_OP_XOR2 7 5 0; mkop EC_GF_OP_XOR2 4 0 0; mkop EC_GF_OP_XOR2 5 3 0;
       mkop EC_GF_OP_XOR2 3 4 0; mkop EC_GF_OP_XOR2 1 4 0; mkop EC_GF_OP_XOR2 2 3 0;
       mkop EC_GF_OP_XOR2 2 7 0; mkop EC_GF_OP_END 0 0 0];
  (* E7 *) mkmul 10 [1; 4; 3; 6; 7; 5; 2; 0; 8; 9]
      [mkop EC_GF_OP_COPY 8 6 0; mkop EC_GF_OP_XOR2 3 2 0; mkop EC_GF_OP_XOR2 6 7 0;
       mkop EC_GF_OP_XOR2 6 3 0; mkop EC_GF_OP_XOR3 9 0 6; mkop EC_GF_OP_XOR2 4 9 0;
       mkop EC_GF_OP_XOR2 5 9 0; mkop EC_GF_OP_XOR2 3 4 0; mkop EC_GF_OP_XOR2 7 5 0;
       mkop EC_GF_OP_XOR2 4 1 0; mkop EC_GF_OP_XOR2 2 4 0; mkop EC_GF_OP_XOR2 1 7 0;
       mkop EC_GF_OP_XOR2 7 2 0; mkop EC_GF_OP_XOR2 0 7 0; mkop EC_GF_OP_XOR2 7 8 0;
       mkop EC_GF_OP_END 0 0 0];
  (* E8 *) mkmul 8 [1; 4; 2; 7; 3; 0; 5; 6]
      [mkop EC_GF_OP_XOR2 1 0 0; mkop EC_GF_OP_XOR2 0 4 0; mkop EC_GF_OP_XOR2 4 2 0;
       mkop EC_GF_OP_XOR2 2 5 0; mkop EC_GF_OP_XOR2 4 3 0; mkop EC_GF_OP_XOR2 5 1 0;
       mkop EC_GF_OP_XOR2 3 6 0; mkop EC_GF_OP_XOR2 6 5 0; mkop EC_GF_OP_XOR2 0 7 0;
       mkop EC_GF_OP_XOR2 7 6 0; mkop EC_GF_OP_XOR2 1 0 0; mkop EC_GF_OP_XOR2 6 2 0;
       mkop EC_GF_OP_XOR2 2 1 0; mkop EC_GF_OP_XOR2 1 4 0; mkop EC_GF_OP_END 0 0 0];
  (* E9 *) mkmul 9 [6; 2; 0; 3; 4; 1; 5; 7; 8]
      [mkop EC_GF_OP_XOR2 1 0 0; mkop EC_GF_OP_COPY 8 1 0; mkop EC_GF_OP_XOR2 1 6 0;
       mkop EC_GF_OP_XOR2 6 3 0; mkop EC_GF_OP_XOR2 4 6 0; mkop EC_GF_OP_XOR2 2 1 0;
       mkop EC_GF_OP_XOR2 3 7 0; mkop EC_GF_OP_XOR2 0 4 0; mkop EC_GF_OP_XOR2 7 2 0;
       mkop EC_GF_OP_XOR2 5 1 0; mkop EC_GF_OP_XOR2 2 0 0; mkop EC_GF_OP_XOR2 6 7 0;
       mkop EC_GF_OP_XOR2 3 5 0; mkop EC_GF_OP_XOR2 0 3 0; mkop EC_GF_OP_XOR3 1 8 0;
       mkop EC_GF_OP_END 0 0 0];
  (* EA *) mkmul 8 [3; 4; 5; 6; 7; 0; 1; 2]
      [mkop EC_GF_OP_XOR2 2 1 0; mkop EC_GF_OP_XOR2 3 2 0; mkop EC_GF_OP_XOR2 1 0 0;
       mkop EC_GF_OP_XOR2 2 0 0; mkop EC_GF_OP_XOR2 0 7 0; mkop EC_GF_OP_XOR2 5 2 0;
       mkop EC_GF_OP_XOR2 7 6 0; mkop EC_GF_OP_XOR2 4 1 0; mkop EC_GF_OP_XOR2 6 5 0;
       mkop EC_GF_OP_XOR2 5 4 0; mkop EC_GF_OP_XOR2 4 3 0; mkop EC_GF_OP_END 0 0 0];
  (* EB *) mkmul 8 [3; 4; 5; 6; 7; 0; 1; 2]
      [mkop EC_GF_OP_XOR2 1 0 0; mkop EC_GF_OP_XOR2 2 1 0; mkop EC_GF_OP_XOR2 3 2 0;
       mkop EC_GF_OP_XOR2 2 7 0; mkop EC_GF_OP_XOR2 7 5 0; mkop EC_GF_OP_XOR2 5 4 0;
       mkop EC_GF_OP_XOR2 0 7 0; mkop EC_GF_OP_XOR2 1 6 0; mkop EC_GF_OP_XOR2 4 3 0;
       mkop EC_GF_OP_XOR2 6 5 0; mkop EC_GF_OP_XOR2 7 6 0; mkop EC_GF_OP_XOR2 6 4 0;
       mkop EC_GF_OP_END 0 0 0];
  (* EC *) mkmul 9 [7; 4; 3; 0; 2; 5; 1; 6; 8]
      [mkop EC_GF_OP_XOR2 0 5 0; mkop EC_GF_OP_XOR2 6 1 0; mkop EC_GF_OP_XOR3 8 4 0;
       mkop EC_GF_OP_XOR2 1 8 0; mkop EC_GF_OP_XOR2 7 3 0; mkop EC_GF_OP_XOR2 6 2 0;
       mkop EC_GF_OP_XOR2 3 8 0; mkop EC_GF_OP_XOR2 2 7 0; mkop EC_GF_OP_XOR2 7 6 0;
       mkop EC_GF_OP_XOR2 5 3 0; mkop EC_GF_OP_XOR2 4 2 0; mkop EC_GF_OP_XOR2 6 0 0;
       mkop EC_GF_OP_XOR2 3 7 0; mkop EC_GF_OP_END 0 0 0];
  (* ED *) mkmul 8 [5; 6; 7; 0; 1; 4; 3; 2]
      [mkop EC_GF_OP_XOR2 5 3 0; mkop EC_GF_OP_XOR2 0 5 0; mkop EC_GF_OP_XOR2 2 4 0;
       mkop EC_GF_OP_XOR2 4 0 0; mkop EC_GF_OP_XOR2 3 1 0; mkop EC_GF_OP_XOR2 6 4 0;
       mkop EC_GF_OP_XOR2 3 6 0; mkop EC_GF_OP_XOR2 7 3 0; mkop EC_GF_OP_XOR2 2 7 0;
       mkop EC_GF_OP_XOR2 6 2 0; mkop EC_GF_OP_XOR2 5 2 0; mkop EC_GF_OP_XOR2 1 6 0;
       mkop EC_GF_OP_END 0 0 0];
  (* EE *) mkmul 9 [6; 4; 5; 7; 2; 3; 0; 1; 8]
      [mkop EC_GF_OP_XOR2 5 3 0; mkop EC_GF_OP_XOR2 3 0 0; mkop EC_GF_OP_XOR2 0 1 0;
       mkop EC_GF_OP_XOR3 8 2 3; mkop EC_GF_OP_XOR2 0 4 0; mkop EC_GF_OP_XOR2 4 8 0;
       mkop EC_GF_OP_XOR2 6 4 0; mkop EC_GF_OP_XOR2 8 5 0; mkop EC_GF_OP_XOR2 4 7 0;
       mkop EC_GF_OP_XOR2 5 6 0; mkop EC_GF_OP_XOR2 1 8 0; mkop EC_GF_OP_XOR2 7 8 0;
       mkop EC_GF_OP_XOR2 6 0 0; mkop EC_GF_OP_END 0 0 0];
  (* EF *) mkmul 9 [6; 4; 5; 7; 2; 0; 3; 1; 8]
      [mkop EC_GF_OP_XOR2 5 1 0; mkop EC_GF_OP_XOR2 1 3 0; mkop EC_GF_OP_XOR2 0 1 0;
       mkop EC_GF_OP_COPY 8 0 0; mkop EC_GF_OP_XOR2 8 2 0; mkop EC_GF_OP_XOR2 0 5 0;
       mkop EC_GF_OP_XOR2 2 4 0; mkop EC_GF_OP_XOR2 7 8 0; mkop EC_GF_OP_XOR2 3 2 0;
       mkop EC_GF_OP_XOR2 6 8 0; mkop EC_GF_OP_XOR2 4 7 0; mkop EC_GF_OP_XOR2 3 6 0;
       mkop EC_GF_OP_XOR2 7 5 0; mkop EC_GF_OP_XOR2 5 3 0; mkop EC_GF_OP_XOR2 1 7 0;
       mkop EC_GF_OP_END 0 0 0]].

(** [ec_gf8_mul_F0] to [ec_gf8_mul_FF]. *)
Definition ec_gf8_mul_Fx : list ec_gf_mul_t := [
  (* F0 *) mkmul 9 [3; 4; 6; 1; 2; 0; 5; 7; 8]
      [mkop EC_GF_OP_XOR2 6 1 0; mkop EC_GF_OP_XOR2 6 2 0; mkop EC_GF_OP_XOR2 3 0 0;
       mkop EC_GF_OP_XOR3 8 3 6; mkop EC_GF_OP_XOR2 5 8 0; mkop EC_GF_OP_XOR2 8 4 0;
       mkop EC_GF_OP_XOR2 1 5 0; mkop EC_GF_OP_XOR2 7 8 0; mkop EC_GF_OP_XOR2 0 1 0;
       mkop EC_GF_OP_XOR2 2 7 0; mkop EC_GF_OP_XOR2 4 0 0; mkop EC_GF_OP_XOR2 1 8 0;
       mkop EC_GF_OP_XOR2 0 2 0; mkop EC_GF_OP_XOR2 3 0 0; mkop EC_GF_OP_END 0 0 0];
  (* F1 *) mkmul 10 [7; 2; 6; 3; 5; 1; 4; 0; 8; 9]
      [mkop EC_GF_OP_XOR2 3 1 0; mkop EC_GF_OP_XOR2 3 5 0; mkop EC_GF_OP_COPY 8 3 0;
       mkop EC_GF_OP_XOR2 3 4 0; mkop EC_GF_OP_XOR2 2 3 0; mkop EC_GF_OP_COPY 9 2 0;
       mkop EC_GF_OP_XOR2 2 6 0; mkop EC_GF_OP_XOR2 9 0 0; mkop EC_GF_OP_XOR2 6 1 0;
       mkop EC_GF_OP_XOR2 5 2 0; mkop EC_GF_OP_XOR2 7 9 0; mkop EC_GF_OP_XOR2 4 9 0;
       mkop EC_GF_OP_XOR2 0 5 0; mkop EC_GF_OP_XOR3 9 8 7; mkop EC_GF_OP_XOR2 1 9 0;
       mkop EC_GF_OP_XOR2 5 9 0; mkop EC_GF_OP_END 0 0 0];
  (* F2 *) mkmul 9 [1; 0; 6; 7; 4; 5; 2; 3; 8]
      [mkop EC_GF_OP_XOR2 0 1 0; mkop EC_GF_OP_XOR2 5 4 0; mkop EC_GF_OP_XOR2 1 5 0;
       mkop EC_GF_OP_XOR2 7 2 0; mkop EC_GF_OP_XOR2 0 6 0; mkop EC_GF_OP_XOR2 6 7 0;
       mkop EC_GF_OP_XOR2 4 0 0; mkop EC_GF_OP_XOR2 2 3 0; mkop EC_GF_OP_XOR2 7 1 0;
       mkop EC_GF_OP_XOR3 8 6 4; mkop EC_GF_OP_XOR2 1 2 0; mkop EC_GF_OP_XOR2 2 0 0;
       mkop EC_GF_OP_XOR2 3 8 0; mkop EC_GF_OP_XOR2 5 8 0; mkop EC_GF_OP_XOR2 0 1 0;
       mkop EC_GF_OP_END 0 0 0];
  (* F3 *) mkmul 8 [5; 6; 7; 0; 1; 2; 3; 4]
      [mkop EC_GF_OP_XOR2 1 0 0; mkop EC_GF_OP_XOR2 2 1 0; mkop EC_GF_OP_XOR2 3 2 0;
       mkop EC_GF_OP_XOR2 4 3 0; mkop EC_GF_OP_XOR2 2 7 0; mkop EC_GF_OP_XOR2 0 7 0;
       mkop EC_GF_OP_XOR2 5 4 0; mkop EC_GF_OP_XOR2 1 6 0; mkop EC_GF_OP_XOR2 7 6 0;
       mkop EC_GF_OP_XOR2 0 5 0; mkop EC_GF_OP_XOR2 6 5 0; mkop EC_GF_OP_END 0 0 0];
  (* F4 *) mkmul 8 [0; 1; 2; 3; 4; 5; 6; 7]
      [mkop EC_GF_OP_XOR2 1 0 0; mkop EC_GF_OP_XOR2 2 1 0; mkop EC_GF_OP_XOR2 3 2 0;
       mkop EC_GF_OP_XOR2 4 3 0; mkop EC_GF_OP_XOR2 5 4 0; mkop EC_GF_OP_XOR2 6 5 0;
       mkop EC_GF_OP_XOR2 7 6 0; mkop EC_GF_OP_XOR2 0 7 0; mkop EC_GF_OP_XOR2 1 7 0;
       mkop EC_GF_OP_XOR2 3 7 0; mkop EC_GF_OP_END 0 0 0];
  (* F5 *) mkmul 8 [7; 0; 1; 2; 3; 4; 5; 6]
      [mkop EC_GF_OP_XOR2 1 0 0; mkop EC_GF_OP_XOR2 2 1 0; mkop EC_GF_OP_XOR2 3 2 0;
       mkop EC_GF_OP_XOR2 4 3 0; mkop EC_GF_OP_XOR2 5 4 0; mkop EC_GF_OP_XOR2 6 5 0;
       mkop EC_GF_OP_XOR2 7 6 0; mkop EC_GF_OP_XOR2 0 7 0; mkop EC_GF_OP_XOR2 2 7 0;
       mkop EC_GF_OP_END 0 0 0];
  (* F6 *) mkmul 10 [0; 6; 2; 7; 4; 3; 5; 9; 1; 8]
      [mkop EC_GF_OP_XOR2 3 1 0; mkop EC_GF_OP_COPY 8 3 0; mkop EC_GF_OP_XOR2 3 5 0;
       mkop EC_GF_OP_XOR2 2 0 0; mkop EC_GF_OP_COPY 9 3 0; mkop EC_GF_OP_XOR2 3 2 0;
       mkop EC_GF_OP_XOR2 2 7 0; mkop EC_GF_OP_XOR2 4 2 0; mkop EC_GF_OP_XOR2 9 4 0;
       mkop EC_GF_OP_XOR2 4 1 0; mkop EC_GF_OP_XOR2 6 9 0; mkop EC_GF_OP_XOR2 7 6 0;
       mkop EC_GF_OP_XOR2 0 7 0; mkop EC_GF_OP_XOR2 5 7 0; mkop EC_GF_OP_XOR2 6 1 0;
       mkop EC_GF_OP_XOR3 7 8 0; mkop EC_GF_OP_END 0 0 0];
  (* F7 *) mkmul 8 [6; 7; 0; 1; 2; 3; 4; 5]
      [mkop EC_GF_OP_XOR2 1 0 0; mkop EC_GF_OP_XOR2 2 1 0; mkop EC_GF_OP_XOR2 3 2 0;
       mkop EC_GF_OP_XOR2 4 3 0; mkop EC_GF_OP_XOR2 5 4 0; mkop EC_GF_OP_XOR2 6 5 0;
       mkop EC_GF_OP_XOR2 0 7 0; mkop EC_GF_OP_XOR2 2 7 0; mkop EC_GF_OP_XOR2 1 6 0;
       mkop EC_GF_OP_XOR2 7 6 0; mkop EC_GF_OP_END 0 0 0];
  (* F8 *) mkmul 8 [6; 2; 0; 1; 4; 5; 3; 7]
      [mkop EC_GF_OP_XOR2 4 0 0; mkop EC_GF_OP_XOR2 3 5 0; mkop EC_GF_OP_XOR2 6 4 0;
       mkop EC_GF_OP_XOR2 2 0 0; mkop EC_GF_OP_XOR2 4 3 0; mkop EC_GF_OP_XOR2 1 6 0;
       mkop EC_GF_OP_XOR2 2 4 0; mkop EC_GF_OP_XOR2 5 1 0; mkop EC_GF_OP_XOR2 7 2 0;
       mkop EC_GF_OP_XOR2 7 5 0; mkop EC_GF_OP_XOR2 3 7 0; mkop EC_GF_OP_XOR2 6 7 0;
       mkop EC_GF_OP_XOR2 0 3 0; mkop EC_GF_OP_END 0 0 0];
  (* F9 *) mkmul 9 [4; 1; 7; 6; 0; 3; 5; 2; 8]
      [mkop EC_GF_OP_XOR2 1 5 0; mkop EC_GF_OP_XOR2 5 3 0; mkop EC_GF_OP_XOR2 6 1 0;
       mkop EC_GF_OP_XOR2 0 5 0; mkop EC_GF_OP_XOR2 7 6 0; mkop EC_GF_OP_XOR2 6 0 0;
       mkop EC_GF_OP_XOR2 2 6 0; mkop EC_GF_OP_XOR2 6 4 0; mkop EC_GF_OP_XOR2 1 2 0;
       mkop EC_GF_OP_XOR2 3 6 0; mkop EC_GF_OP_XOR3 8 7 1; mkop EC_GF_OP_XOR2 1 3 0;
       mkop EC_GF_OP_XOR2 4 8 0; mkop EC_GF_OP_XOR2 5 8 0; mkop EC_GF_OP_END 0 0 0];
  (* FA *) mkmul 8 [0; 1; 2; 4; 5; 6; 7; 3]
      [mkop EC_GF_OP_XOR2 1 0 0; mkop EC_GF_OP_XOR2 0 4 0; mkop EC_GF_OP_XOR2 2 1 0;
       mkop EC_GF_OP_XOR2 0 7 0; mkop EC_GF_OP_XOR2 7 2 0; mkop EC_GF_OP_XOR2 1 5 0;
       mkop EC_GF_OP_XOR2 3 7 0; mkop EC_GF_OP_XOR2 5 0 0; mkop EC_GF_OP_XOR2 7 6 0;
       mkop EC_GF_OP_XOR2 0 3 0; mkop EC_GF_OP_XOR2 6 1 0; mkop EC_GF_OP_XOR2 4 7 0;
       mkop EC_GF_OP_XOR2 1 0 0; mkop EC_GF_OP_XOR2 2 6 0; mkop EC_GF_OP_END 0 0 0];
  (* FB *) mkmul 8 [4; 5; 6; 7; 0; 1; 2; 3]
      [mkop EC_GF_OP_XOR2 1 0 0; mkop EC_GF_OP_XOR2 2 1 0; mkop EC_GF_OP_XOR2 0 5 0;
       mkop EC_GF_OP_XOR2 3 2 0; mkop EC_GF_OP_XOR2 0 7 0; mkop EC_GF_OP_XOR2 2 7 0;
       mkop EC_GF_OP_XOR2 1 6 0; mkop EC_GF_OP_XOR2 7 6 0; mkop EC_GF_OP_XOR2 4 3 0;
       mkop EC_GF_OP_XOR2 6 5 0; mkop EC_GF_OP_XOR2 7 4 0; mkop EC_GF_OP_XOR2 5 4 0;
       mkop EC_GF_OP_END 0 0 0];
  (* FC *) mkmul 10 [5; 6; 3; 7; 1; 8; 0; 4; 2; 9]
      [mkop EC_GF_OP_XOR2 7 0 0; mkop EC_GF_OP_XOR2 7 4 0; mkop EC_GF_OP_XOR2 5 1 0;
       mkop EC_GF_OP_COPY 9 3 0; mkop EC_GF_OP_XOR3 8 5 7; mkop EC_GF_OP_XOR2 3 6 0;
       mkop EC_GF_OP_XOR2 8 3 0; mkop EC_GF_OP_XOR2 2 8 0; mkop EC_GF_OP_XOR2 1 2 0;
       mkop EC_GF_OP_XOR2 4 2 0; mkop EC_GF_OP_XOR2 0 1 0; mkop EC_GF_OP_XOR2 3 4 0;
       mkop EC_GF_OP_XOR2 5 0 0; mkop EC_GF_OP_XOR2 6 0 0; mkop EC_GF_OP_XOR3 0 9 2;
       mkop EC_GF_OP_END 0 0 0];
  (* FD *) mkmul 9 [5; 3; 7; 6; 1; 2; 4; 0; 8]
      [mkop EC_GF_OP_XOR2 7 1 0; mkop EC_GF_OP_COPY 8 7 0; mkop EC_GF_OP_XOR2 5 0 0;
       mkop EC_GF_OP_XOR2 7 5 0; mkop EC_GF_OP_XOR2 4 2 0; mkop EC_GF_OP_XOR2 4 7 0;
       mkop EC_GF_OP_XOR2 5 6 0; mkop EC_GF_OP_XOR2 0 4 0; mkop EC_GF_OP_XOR2 3 0 0;
       mkop EC_GF_OP_XOR2 5 3 0; mkop EC_GF_OP_XOR2 2 5 0; mkop EC_GF_OP_XOR2 1 2 0;
       mkop EC_GF_OP_XOR2 0 1 0; mkop EC_GF_OP_XOR2 6 1 0; mkop EC_GF_OP_XOR3 1 8 0;
       mkop EC_GF_OP_END 0 0 0];
  (* FE *) mkmul 9 [3; 4; 8; 2; 5; 0; 6; 1; 7]
      [mkop EC_GF_OP_XOR2 2 0 0; mkop EC_GF_OP_COPY 8 2 0; mkop EC_GF_OP_XOR2 2 4 0;
       mkop EC_GF_OP_XOR2 6 2 0; mkop EC_GF_OP_XOR2 8 5 0; mkop EC_GF_OP_XOR2 5 6 0;
       mkop EC_GF_OP_XOR2 6 1 0; mkop EC_GF_OP_XOR2 0 6 0; mkop EC_GF_OP_XOR2 6 7 0;
       mkop EC_GF_OP_XOR2 7 3 0; mkop EC_GF_OP_XOR2 7 8 0; mkop EC_GF_OP_XOR2 3 0 0;
       mkop EC_GF_OP_XOR2 4 7 0; mkop EC_GF_OP_XOR2 1 7 0; mkop EC_GF_OP_XOR2 0 4 0;
       mkop EC_GF_OP_END 0 0 0];
  (* FF *) mkmul 10 [6; 5; 0; 1; 2; 4; 9; 3; 7; 8]
      [mkop EC_GF_OP_XOR2 4 7 0; mkop EC_GF_OP_COPY 9 0 0; mkop EC_GF_OP_COPY 8 4 0;
       mkop EC_GF_OP_XOR2 9 1 0; mkop EC_GF_OP_XOR2 4 2 0; mkop EC_GF_OP_XOR2 9 4 0;
       mkop EC_GF_OP_XOR2 0 5 0; mkop EC_GF_OP_XOR2 2 0 0; mkop EC_GF_OP_XOR2 3 9 0;
       mkop EC_GF_OP_XOR2 7 3 0; mkop EC_GF_OP_XOR2 2 6 0; mkop EC_GF_OP_XOR2 5 3 0;
       mkop EC_GF_OP_XOR2 6 7 0; mkop EC_GF_OP_XOR2 1 7 0; mkop EC_GF_OP_XOR3 3 8 5;
       mkop EC_GF_OP_XOR2 4 6 0; mkop EC_GF_OP_END 0 0 0]].

Definition ec_gf8_mul : list ec_gf_mul_t :=
  concat [ec_gf8_mul_0x; ec_gf8_mul_1x; ec_gf8_mul_2x; ec_gf8_mul_3x; ec_gf8_mul_4x; ec_gf8_mul_5x; ec_gf8_mul_6x; ec_gf8_mul_7x; ec_gf8_mul_8x; ec_gf8_mul_9x; ec_gf8_mul_Ax; ec_gf8_mul_Bx; ec_gf8_mul_Cx; ec_gf8_mul_Dx; ec_gf8_mul_Ex; ec_gf8_mul_Fx].
