(* ===== verification/EcCodeC.v ===== *)
(** * The multiply-and-add kernels of ec-code-c.c

    Every function [gf8_muladd_XX] of the source replaces a chunk [out] by
    [XX * out + in].  A chunk is [EC_METHOD_CHUNK_SIZE] = 512 bytes, which the
    kernels view as 64 words of 64 bits: eight bit planes of [WIDTH] = 8 words.
    All kernels but the first two have the same loop and differ in the
    straight-line code of its body, which is what the definitions
    [gf8_muladd_02 .. gf8_muladd_FF] translate: [in0 .. in7] are the words read
    from [out], and [Planes out0 .. out7] the words that the loop, [muladd_loop],
    xors with the words of [in] and writes back.  The bodies are written over
    any type with a xor, so that the same text runs on words and on bits. *)
From S2P Require Import Prelude.

Class Xor (A : Type) := xor : A -> A -> A.

Declare Scope gf8_scope.
Delimit Scope gf8_scope with gf8.
Infix "^" := xor : gf8_scope.
#[local] Open Scope gf8_scope.

#[export] Instance xor_word : Xor Z := Z.lxor.
#[export] Instance xor_bit : Xor bool := xorb.

Record planes (A : Type) := Planes {
  out0 : A; out1 : A; out2 : A; out3 : A; out4 : A; out5 : A; out6 : A; out7 : A }.
Arguments Planes {A}.
Arguments out0 {A}. Arguments out1 {A}. Arguments out2 {A}. Arguments out3 {A}.
Arguments out4 {A}. Arguments out5 {A}. Arguments out6 {A}. Arguments out7 {A}.

Definition gf8_body : Type :=
  forall A (X : Xor A), A -> A -> A -> A -> A -> A -> A -> A -> planes A.

(** ** Chunks and the loops of the kernels *)

Abbreviation chunk := (list Z).

Definition EC_METHOD_WORD_SIZE : nat := 64.
Definition WIDTH : nat := EC_METHOD_WORD_SIZE / 8.
(** [EC_METHOD_CHUNK_SIZE] counted in 64-bit words. *)
Definition CHUNK_WORDS : nat := 8 * WIDTH.

(** Eight words of a chunk, one per plane, at position [i] of the planes. *)
Definition column (c : chunk) (i : nat) : planes Z :=
  Planes (c !!! i) (c !!! (WIDTH + i)%nat) (c !!! (WIDTH * 2 + i)%nat)
         (c !!! (WIDTH * 3 + i)%nat) (c !!! (WIDTH * 4 + i)%nat) (c !!! (WIDTH * 5 + i)%nat)
         (c !!! (WIDTH * 6 + i)%nat) (c !!! (WIDTH * 7 + i)%nat).

Definition set_column (c : chunk) (i : nat) (p : planes Z) : chunk :=
  <[(WIDTH * 7 + i)%nat := out7 p]> (<[(WIDTH * 6 + i)%nat := out6 p]>
  (<[(WIDTH * 5 + i)%nat := out5 p]> (<[(WIDTH * 4 + i)%nat := out4 p]>
  (<[(WIDTH * 3 + i)%nat := out3 p]> (<[(WIDTH * 2 + i)%nat := out2 p]>
  (<[(WIDTH + i)%nat := out1 p]> (<[i := out0 p]> c))))))).

Definition pxor {A} `{Xor A} (p q : planes A) : planes A :=
  Planes (out0 p ^ out0 q) (out1 p ^ out1 q) (out2 p ^ out2 q) (out3 p ^ out3 q)
         (out4 p ^ out4 q) (out5 p ^ out5 q) (out6 p ^ out6 q) (out7 p ^ out7 q).

Definition run_body (f : gf8_body) {A} {X : Xor A} (p : planes A) : planes A :=
  f A X (out0 p) (out1 p) (out2 p) (out3 p) (out4 p) (out5 p) (out6 p) (out7 p).

(** [for (i = 0; i < WIDTH; i++) { in.. = out_ptr[..]; body; out_ptr[..] = out.. ^ in_ptr[..]; }] *)
Definition muladd_loop (f : gf8_body) (out inp : chunk) : chunk :=
  fold_left (fun out i => set_column out i (pxor (run_body f (column out i)) (column inp i)))
            (seq 0 WIDTH) out.

(** [memcpy(out, in, EC_METHOD_WORD_SIZE * 8)] *)
Definition gf8_muladd_00 (out inp : chunk) : chunk :=
  take CHUNK_WORDS inp ++ drop CHUNK_WORDS out.

Definition gf8_muladd_01 (out inp : chunk) : chunk :=
  fold_left (fun out i => set_column out i (pxor (column out i) (column inp i)))
            (seq 0 WIDTH) out.

(** ** The bodies *)

Definition gf8_muladd_02 : gf8_body := fun A _ in0 in1 in2 in3 in4 in5 in6 in7 =>
  let out0 := in7 in let out1 := in0 in let out7 := in6 in let out5 := in4 in
  let out6 := in5 in let out3 := in2 ^ in7 in let out4 := in3 ^ in7 in
  let out2 := in1 ^ in7 in
  Planes out0 out1 out2 out3 out4 out5 out6 out7.

Definition gf8_muladd_03 : gf8_body := fun A _ in0 in1 in2 in3 in4 in5 in6 in7 =>
  let out0 := in0 ^ in7 in let tmp0 := in2 ^ in7 in let out1 := in0 ^ in1 in
  let out7 := in6 ^ in7 in let out5 := in4 ^ in5 in let out6 := in5 ^ in6 in
  let out4 := in3 ^ in4 ^ in7 in let out2 := tmp0 ^ in1 in let out3 := tmp0 ^ in3 in
  Planes out0 out1 out2 out3 out4 out5 out6 out7.

Definition gf8_muladd_04 : gf8_body := fun A _ in0 in1 in2 in3 in4 in5 in6 in7 =>
  let out0 := in6 in let out1 := in7 in let out7 := in5 in let out6 := in4 in
  let tmp0 := in6 ^ in7 in let out2 := in0 ^ in6 in let out5 := in3 ^ in7 in
  let out3 := tmp0 ^ in1 in let out4 := tmp0 ^ in2 in
  Planes out0 out1 out2 out3 out4 out5 out6 out7.

Definition gf8_muladd_05 : gf8_body := fun A _ in0 in1 in2 in3 in4 in5 in6 in7 =>
  let out0 := in0 ^ in6 in let out1 := in1 ^ in7 in let out7 := in5 ^ in7 in
  let out6 := in4 ^ in6 in let out2 := out0 ^ in2 in let out3 := out1 ^ in3 ^ in6 in
  let out5 := out7 ^ in3 in let out4 := out6 ^ in2 ^ in7 in
  Planes out0 out1 out2 out3 out4 out5 out6 out7.

Definition gf8_muladd_06 : gf8_body := fun A _ in0 in1 in2 in3 in4 in5 in6 in7 =>
  let out0 := in6 ^ in7 in let tmp0 := in1 ^ in6 in let out1 := in0 ^ in7 in
  let out7 := in5 ^ in6 in let out6 := in4 ^ in5 in let out4 := in2 ^ in3 ^ in6 in
  let out5 := in3 ^ in4 ^ in7 in let out3 := tmp0 ^ in2 in let out2 := tmp0 ^ out1 in
  Planes out0 out1 out2 out3 out4 out5 out6 out7.

Definition gf8_muladd_07 : gf8_body := fun A _ in0 in1 in2 in3 in4 in5 in6 in7 =>
  let tmp0 := in2 ^ in6 in let tmp1 := in5 ^ in6 in let tmp2 := in0 ^ in7 in
  let tmp3 := tmp0 ^ in3 in let out6 := tmp1 ^ in4 in let out7 := tmp1 ^ in7 in
  let out0 := tmp2 ^ in6 in let out1 := tmp2 ^ in1 in let out3 := tmp3 ^ in1 in
  let out4 := tmp3 ^ in4 in let out5 := out4 ^ out7 ^ in2 in let out2 := tmp0 ^ out1 in
  Planes out0 out1 out2 out3 out4 out5 out6 out7.

Definition gf8_muladd_08 : gf8_body := fun A _ in0 in1 in2 in3 in4 in5 in6 in7 =>
  let out0 := in5 in let out1 := in6 in let out7 := in4 in let out6 := in3 ^ in7 in
  let out3 := in0 ^ in5 ^ in6 in let out5 := in2 ^ in6 ^ in7 in let out2 := in5 ^ in7 in
  let out4 := out2 ^ in1 ^ in6 in
  Planes out0 out1 out2 out3 out4 out5 out6 out7.

Definition gf8_muladd_09 : gf8_body := fun A _ in0 in1 in2 in3 in4 in5 in6 in7 =>
  let out0 := in0 ^ in5 in let tmp0 := in3 ^ in6 in let out1 := in1 ^ in6 in
  let out7 := in4 ^ in7 in let out2 := in2 ^ in5 ^ in7 in let out3 := tmp0 ^ out0 in
  let out6 := tmp0 ^ in7 in let out4 := out1 ^ out7 ^ in5 in let out5 := out2 ^ in6 in
  Planes out0 out1 out2 out3 out4 out5 out6 out7.

Definition gf8_muladd_0A : gf8_body := fun A _ in0 in1 in2 in3 in4 in5 in6 in7 =>
  let out0 := in5 ^ in7 in let out1 := in0 ^ in6 in let out7 := in4 ^ in6 in
  let out2 := in1 ^ in5 in let out6 := out0 ^ in3 in let out3 := out0 ^ out1 ^ in2 in
  let out5 := out7 ^ in2 ^ in7 in let out4 := out2 ^ in3 ^ in6 in
  Planes out0 out1 out2 out3 out4 out5 out6 out7.

Definition gf8_muladd_0B : gf8_body := fun A _ in0 in1 in2 in3 in4 in5 in6 in7 =>
  let tmp0 := in2 ^ in5 in let tmp1 := in0 ^ in6 in let tmp2 := in4 ^ in7 in
  let out0 := in0 ^ in5 ^ in7 in let out2 := tmp0 ^ in1 in let out1 := tmp1 ^ in1 in
  let out6 := tmp1 ^ out0 ^ in3 in let out7 := tmp2 ^ in6 in
  let out4 := tmp2 ^ out6 ^ in1 in let out3 := out6 ^ in0 ^ in2 in
  let out5 := tmp0 ^ out7 in
  Planes out0 out1 out2 out3 out4 out5 out6 out7.

Definition gf8_muladd_0C : gf8_body := fun A _ in0 in1 in2 in3 in4 in5 in6 in7 =>
  let out0 := in5 ^ in6 in let out1 := in6 ^ in7 in let out7 := in4 ^ in5 in
  let tmp0 := in1 ^ in5 in let tmp1 := in0 ^ in7 in let out5 := in2 ^ in3 ^ in6 in
  let out6 := in3 ^ in4 ^ in7 in let out2 := tmp1 ^ out0 in let out4 := tmp0 ^ in2 in
  let out3 := tmp0 ^ tmp1 in
  Planes out0 out1 out2 out3 out4 out5 out6 out7.

Definition gf8_muladd_0D : gf8_body := fun A _ in0 in1 in2 in3 in4 in5 in6 in7 =>
  let tmp0 := in4 ^ in5 in let tmp1 := in5 ^ in6 in let out1 := in1 ^ in6 ^ in7 in
  let out7 := tmp0 ^ in7 in let out4 := tmp0 ^ in1 ^ in2 in let out0 := tmp1 ^ in0 in
  let tmp2 := tmp1 ^ in3 in let out6 := tmp2 ^ out7 in let out2 := out0 ^ in2 ^ in7 in
  let out3 := out0 ^ out1 ^ in3 in let out5 := tmp2 ^ in2 in
  Planes out0 out1 out2 out3 out4 out5 out6 out7.

Definition gf8_muladd_0E : gf8_body := fun A _ in0 in1 in2 in3 in4 in5 in6 in7 =>
  let tmp0 := in0 ^ in1 in let tmp1 := in2 ^ in5 in let tmp2 := in5 ^ in6 in
  let out1 := in0 ^ in6 ^ in7 in let out3 := tmp0 ^ tmp1 in let out2 := tmp0 ^ tmp2 in
  let tmp3 := tmp1 ^ in3 in let out7 := tmp2 ^ in4 in let out0 := tmp2 ^ in7 in
  let out4 := tmp3 ^ in1 ^ in7 in let out5 := tmp3 ^ out7 in
  let out6 := out0 ^ out5 ^ in2 in
  Planes out0 out1 out2 out3 out4 out5 out6 out7.

Definition gf8_muladd_0F : gf8_body := fun A _ in0 in1 in2 in3 in4 in5 in6 in7 =>
  let tmp0 := in6 ^ in7 in let tmp1 := tmp0 ^ in1 in let tmp2 := tmp0 ^ in5 in
  let out1 := tmp1 ^ in0 in let out7 := tmp2 ^ in4 in let out0 := tmp2 ^ in0 in
  let out6 := out7 ^ in3 in let out5 := out6 ^ in2 ^ in7 in
  let tmp3 := tmp1 ^ out0 ^ in2 in let out4 := tmp1 ^ out5 in let out2 := tmp3 ^ in6 in
  let out3 := tmp3 ^ in3 in
  Planes out0 out1 out2 out3 out4 out5 out6 out7.

Definition gf8_muladd_10 : gf8_body := fun A _ in0 in1 in2 in3 in4 in5 in6 in7 =>
  let out0 := in4 in let out1 := in5 in let out7 := in3 ^ in7 in let tmp0 := in6 ^ in7 in
  let out2 := in4 ^ in6 in let tmp1 := out2 ^ in5 in let out6 := tmp0 ^ in2 in
  let out3 := tmp0 ^ tmp1 in let out5 := out2 ^ out3 ^ in1 in let out4 := tmp1 ^ in0 in
  Planes out0 out1 out2 out3 out4 out5 out6 out7.

Definition gf8_muladd_11 : gf8_body := fun A _ in0 in1 in2 in3 in4 in5 in6 in7 =>
  let out7 := in3 in let out0 := in0 ^ in4 in let out1 := in1 ^ in5 in
  let out6 := in2 ^ in7 in let out4 := in0 ^ in5 ^ in6 in let out5 := in1 ^ in6 ^ in7 in
  let out2 := in2 ^ in4 ^ in6 in let out3 := in3 ^ in4 ^ in5 ^ in7 in
  Planes out0 out1 out2 out3 out4 out5 out6 out7.

Definition gf8_muladd_12 : gf8_body := fun A _ in0 in1 in2 in3 in4 in5 in6 in7 =>
  let out0 := in4 ^ in7 in let out1 := in0 ^ in5 in let out3 := in2 ^ in4 ^ in5 in
  let tmp0 := out0 ^ in6 in let out2 := tmp0 ^ in1 in let tmp1 := tmp0 ^ in3 in
  let out6 := tmp0 ^ out3 in let out5 := out2 ^ in5 in let out7 := tmp1 ^ in4 in
  let out4 := tmp1 ^ out1 in
  Planes out0 out1 out2 out3 out4 out5 out6 out7.

Definition gf8_muladd_13 : gf8_body := fun A _ in0 in1 in2 in3 in4 in5 in6 in7 =>
  let out7 := in3 ^ in6 in let tmp0 := in0 ^ in5 in let tmp1 := in4 ^ in7 in
  let out6 := in2 ^ in5 ^ in7 in let out4 := tmp0 ^ out7 ^ in7 in
  let out1 := tmp0 ^ in1 in let out0 := tmp1 ^ in0 in let out5 := tmp1 ^ in1 ^ in6 in
  let out3 := tmp1 ^ out6 ^ in3 in let out2 := out5 ^ in2 in
  Planes out0 out1 out2 out3 out4 out5 out6 out7.

Definition gf8_muladd_14 : gf8_body := fun A _ in0 in1 in2 in3 in4 in5 in6 in7 =>
  let out0 := in4 ^ in6 in let out1 := in5 ^ in7 in let out2 := in0 ^ in4 in
  let tmp0 := out0 ^ in5 in let out7 := out1 ^ in3 in let tmp1 := out1 ^ in2 in
  let out3 := tmp0 ^ in1 in let out6 := tmp0 ^ tmp1 in let out4 := tmp1 ^ out2 in
  let out5 := out3 ^ in3 ^ in4 in
  Planes out0 out1 out2 out3 out4 out5 out6 out7.

Definition gf8_muladd_15 : gf8_body := fun A _ in0 in1 in2 in3 in4 in5 in6 in7 =>
  let out7 := in3 ^ in5 in let tmp0 := in0 ^ in4 in let out1 := in1 ^ in5 ^ in7 in
  let out5 := in1 ^ in3 ^ in6 in let out0 := tmp0 ^ in6 in let out2 := tmp0 ^ in2 in
  let out3 := out5 ^ in4 ^ in5 in let out6 := out2 ^ in0 ^ in7 in
  let out4 := tmp0 ^ out6 ^ in5 in
  Planes out0 out1 out2 out3 out4 out5 out6 out7.

Definition gf8_muladd_16 : gf8_body := fun A _ in0 in1 in2 in3 in4 in5 in6 in7 =>
  let tmp0 := in0 ^ in5 in let tmp1 := in4 ^ in7 in let tmp2 := in2 ^ in3 ^ in4 in
  let out1 := tmp0 ^ in7 in let out4 := tmp0 ^ tmp2 in let out0 := tmp1 ^ in6 in
  let tmp3 := tmp1 ^ in1 in let out6 := out0 ^ in2 ^ in5 in let out2 := tmp3 ^ in0 in
  let out3 := out6 ^ in1 in let out7 := tmp2 ^ out6 in let out5 := tmp3 ^ out7 in
  Planes out0 out1 out2 out3 out4 out5 out6 out7.

Definition gf8_muladd_17 : gf8_body := fun A _ in0 in1 in2 in3 in4 in5 in6 in7 =>
  let tmp0 := in2 ^ in5 in let tmp1 := in3 ^ in6 in let tmp2 := tmp0 ^ in4 in
  let out4 := tmp0 ^ in0 ^ in3 in let out7 := tmp1 ^ in5 in let tmp3 := tmp1 ^ in1 in
  let out6 := tmp2 ^ in7 in let out5 := tmp3 ^ in4 in let out3 := tmp3 ^ out6 in
  let out0 := out3 ^ out4 ^ in1 in let out2 := out3 ^ out7 ^ in0 in
  let out1 := tmp2 ^ out2 in
  Planes out0 out1 out2 out3 out4 out5 out6 out7.

Definition gf8_muladd_18 : gf8_body := fun A _ in0 in1 in2 in3 in4 in5 in6 in7 =>
  let out0 := in4 ^ in5 in let out1 := in5 ^ in6 in let tmp0 := in4 ^ in7 in
  let out5 := in1 ^ in2 ^ in5 in let out6 := in2 ^ in3 ^ in6 in let out2 := tmp0 ^ out1 in
  let out7 := tmp0 ^ in3 in let tmp1 := tmp0 ^ in0 in let out3 := tmp1 ^ in6 in
  let out4 := tmp1 ^ in1 in
  Planes out0 out1 out2 out3 out4 out5 out6 out7.

Definition gf8_muladd_19 : gf8_body := fun A _ in0 in1 in2 in3 in4 in5 in6 in7 =>
  let out5 := in1 ^ in2 in let out7 := in3 ^ in4 in let tmp0 := in0 ^ in7 in
  let out6 := in2 ^ in3 in let out1 := in1 ^ in5 ^ in6 in let out0 := in0 ^ in4 ^ in5 in
  let out4 := tmp0 ^ in1 in let tmp1 := tmp0 ^ in6 in let out2 := tmp1 ^ out0 ^ in2 in
  let out3 := tmp1 ^ out7 in
  Planes out0 out1 out2 out3 out4 out5 out6 out7.

Definition gf8_muladd_1A : gf8_body := fun A _ in0 in1 in2 in3 in4 in5 in6 in7 =>
  let tmp0 := in4 ^ in5 in let tmp1 := in5 ^ in6 in let tmp2 := tmp0 ^ in1 in
  let out0 := tmp0 ^ in7 in let out1 := tmp1 ^ in0 in let tmp3 := tmp1 ^ in3 in
  let out5 := tmp2 ^ in2 in let out2 := tmp2 ^ in6 in let out7 := tmp3 ^ out0 in
  let out6 := tmp3 ^ in2 in let out4 := tmp3 ^ out2 ^ in0 in
  let out3 := tmp0 ^ out1 ^ in2 in
  Planes out0 out1 out2 out3 out4 out5 out6 out7.

Definition gf8_muladd_1B : gf8_body := fun A _ in0 in1 in2 in3 in4 in5 in6 in7 =>
  let tmp0 := in2 ^ in4 in let tmp1 := in2 ^ in5 in let tmp2 := in3 ^ in6 in
  let out5 := tmp0 ^ in1 in let tmp3 := tmp0 ^ in0 in let out6 := tmp1 ^ in3 in
  let out0 := tmp1 ^ tmp3 ^ in7 in let out7 := tmp2 ^ in4 in let tmp4 := out5 ^ in6 in
  let out3 := tmp2 ^ tmp3 in let out2 := tmp4 ^ in5 in let out4 := tmp4 ^ out3 in
  let out1 := tmp3 ^ out2 in
  Planes out0 out1 out2 out3 out4 out5 out6 out7.

Definition gf8_muladd_1C : gf8_body := fun A _ in0 in1 in2 in3 in4 in5 in6 in7 =>
  let tmp0 := in2 ^ in3 in let tmp1 := in4 ^ in6 in let tmp2 := in5 ^ in7 in
  let out6 := tmp0 ^ tmp1 in let out0 := tmp1 ^ in5 in let out1 := tmp2 ^ in6 in
  let tmp3 := tmp2 ^ in1 in let tmp4 := tmp2 ^ in4 in let out2 := tmp4 ^ in0 in
  let out7 := tmp4 ^ in3 in let out5 := tmp0 ^ tmp3 in let out3 := tmp3 ^ out2 in
  let out4 := out3 ^ in2 ^ in6 in
  Planes out0 out1 out2 out3 out4 out5 out6 out7.

Definition gf8_muladd_1D : gf8_body := fun A _ in0 in1 in2 in3 in4 in5 in6 in7 =>
  let tmp0 := in1 ^ in3 in let tmp1 := in0 ^ in4 in let tmp2 := in3 ^ in4 in
  let tmp3 := in2 ^ in7 in let out3 := tmp0 ^ tmp1 in let out5 := tmp0 ^ tmp3 in
  let tmp4 := tmp1 ^ in5 in let out6 := tmp2 ^ in2 in let out7 := tmp2 ^ in5 in
  let out2 := tmp3 ^ tmp4 in let out4 := out3 ^ out6 ^ in6 in let out0 := tmp4 ^ in6 in
  let out1 := out2 ^ out4 ^ in4 in
  Planes out0 out1 out2 out3 out4 out5 out6 out7.

Definition gf8_muladd_1E : gf8_body := fun A _ in0 in1 in2 in3 in4 in5 in6 in7 =>
  let tmp0 := in0 ^ in4 in let tmp1 := in2 ^ in7 in let tmp2 := tmp0 ^ in1 in
  let out3 := tmp1 ^ tmp2 in let out2 := tmp2 ^ in5 in let out4 := out3 ^ in3 ^ in6 in
  let tmp3 := out4 ^ in7 in let out6 := tmp3 ^ out2 ^ in4 in let out7 := tmp1 ^ out6 in
  let out0 := out7 ^ in3 in let out1 := tmp0 ^ out0 in let out5 := tmp3 ^ out1 in
  Planes out0 out1 out2 out3 out4 out5 out6 out7.

Definition gf8_muladd_1F : gf8_body := fun A _ in0 in1 in2 in3 in4 in5 in6 in7 =>
  let tmp0 := in4 ^ in6 in let tmp1 := tmp0 ^ in5 in let out7 := tmp1 ^ in3 in
  let out0 := tmp1 ^ in0 ^ in7 in let out6 := out7 ^ in2 ^ in6 in
  let out1 := out0 ^ in1 ^ in4 in let out4 := out0 ^ out6 ^ in1 in
  let out3 := tmp0 ^ out4 in let out2 := out4 ^ out7 ^ in7 in let out5 := out3 ^ in0 in
  Planes out0 out1 out2 out3 out4 out5 out6 out7.

Definition gf8_muladd_20 : gf8_body := fun A _ in0 in1 in2 in3 in4 in5 in6 in7 =>
  let out1 := in4 in let out0 := in3 ^ in7 in let tmp0 := in3 ^ in4 in
  let tmp1 := in6 ^ in7 in let out2 := out0 ^ in5 in let out4 := tmp0 ^ in5 in
  let out3 := tmp0 ^ tmp1 in let out7 := tmp1 ^ in2 in let out6 := tmp1 ^ in1 ^ in5 in
  let out5 := out2 ^ out3 ^ in0 in
  Planes out0 out1 out2 out3 out4 out5 out6 out7.

Definition gf8_muladd_21 : gf8_body := fun A _ in0 in1 in2 in3 in4 in5 in6 in7 =>
  let out1 := in1 ^ in4 in let tmp0 := in4 ^ in6 in let out4 := in3 ^ in5 in
  let out7 := in2 ^ in6 in let out0 := in0 ^ in3 ^ in7 in let out6 := in1 ^ in5 ^ in7 in
  let out3 := tmp0 ^ in7 in let out5 := tmp0 ^ in0 in let out2 := out4 ^ in2 ^ in7 in
  Planes out0 out1 out2 out3 out4 out5 out6 out7.

Definition gf8_muladd_22 : gf8_body := fun A _ in0 in1 in2 in3 in4 in5 in6 in7 =>
  let out0 := in3 in let out1 := in0 ^ in4 in let out7 := in2 ^ in7 in
  let out4 := in4 ^ in5 ^ in7 in let out5 := in0 ^ in5 ^ in6 in
  let out6 := in1 ^ in6 ^ in7 in let out3 := in2 ^ in3 ^ in4 ^ in6 in
  let out2 := in1 ^ in3 ^ in5 in
  Planes out0 out1 out2 out3 out4 out5 out6 out7.

Definition gf8_muladd_23 : gf8_body := fun A _ in0 in1 in2 in3 in4 in5 in6 in7 =>
  let out7 := in2 in let out0 := in0 ^ in3 in let out4 := in5 ^ in7 in
  let out5 := in0 ^ in6 in let out6 := in1 ^ in7 in let out3 := in2 ^ in4 ^ in6 in
  let out1 := in0 ^ in1 ^ in4 in let out2 := out4 ^ out6 ^ in2 ^ in3 in
  Planes out0 out1 out2 out3 out4 out5 out6 out7.

Definition gf8_muladd_24 : gf8_body := fun A _ in0 in1 in2 in3 in4 in5 in6 in7 =>
  let out1 := in4 ^ in7 in let tmp0 := in3 ^ in4 in let out0 := in3 ^ in6 ^ in7 in
  let out3 := tmp0 ^ in1 in let tmp1 := out0 ^ in5 in let out6 := tmp1 ^ out3 in
  let out2 := tmp1 ^ in0 in let out7 := tmp1 ^ in2 ^ in3 in let out5 := out2 ^ in4 in
  let out4 := tmp0 ^ out7 in
  Planes out0 out1 out2 out3 out4 out5 out6 out7.

Definition gf8_muladd_25 : gf8_body := fun A _ in0 in1 in2 in3 in4 in5 in6 in7 =>
  let out3 := in1 ^ in4 in let tmp0 := in2 ^ in5 in let out1 := out3 ^ in7 in
  let out7 := tmp0 ^ in6 in let out6 := out1 ^ in5 in let out4 := out7 ^ in3 ^ in7 in
  let out2 := out4 ^ in0 in let out0 := tmp0 ^ out2 in let out5 := out0 ^ in4 in
  Planes out0 out1 out2 out3 out4 out5 out6 out7.

Definition gf8_muladd_26 : gf8_body := fun A _ in0 in1 in2 in3 in4 in5 in6 in7 =>
  let out0 := in3 ^ in6 in let tmp0 := in4 ^ in7 in let out7 := in2 ^ in5 ^ in7 in
  let tmp1 := out0 ^ in0 ^ in5 in let out1 := tmp0 ^ in0 in let tmp2 := tmp0 ^ in6 in
  let out2 := tmp1 ^ in1 in let out5 := tmp1 ^ in7 in let out6 := tmp2 ^ in1 in
  let out4 := tmp2 ^ out7 in let out3 := out0 ^ out6 ^ in2 in
  Planes out0 out1 out2 out3 out4 out5 out6 out7.

Definition gf8_muladd_27 : gf8_body := fun A _ in0 in1 in2 in3 in4 in5 in6 in7 =>
  let out7 := in2 ^ in5 in let out0 := in0 ^ in3 ^ in6 in let out6 := in1 ^ in4 ^ in7 in
  let out4 := out7 ^ in6 in let out2 := out0 ^ out7 ^ in1 in let out5 := out0 ^ in7 in
  let out1 := out6 ^ in0 in let out3 := out6 ^ in2 in
  Planes out0 out1 out2 out3 out4 out5 out6 out7.

Definition gf8_muladd_28 : gf8_body := fun A _ in0 in1 in2 in3 in4 in5 in6 in7 =>
  let out2 := in3 in let out1 := in4 ^ in6 in let out0 := in3 ^ in5 ^ in7 in
  let tmp0 := out1 ^ in7 in let tmp1 := out0 ^ in4 in let out7 := tmp0 ^ in2 in
  let tmp2 := tmp0 ^ in1 in let out3 := tmp1 ^ in0 in let out6 := tmp1 ^ tmp2 in
  let out4 := tmp2 ^ in3 in let out5 := out3 ^ in2 ^ in3 in
  Planes out0 out1 out2 out3 out4 out5 out6 out7.

Definition gf8_muladd_29 : gf8_body := fun A _ in0 in1 in2 in3 in4 in5 in6 in7 =>
  let out2 := in2 ^ in3 in let tmp0 := in1 ^ in3 in let tmp1 := in4 ^ in6 in
  let tmp2 := in0 ^ in4 ^ in7 in let out6 := tmp0 ^ in5 in let out4 := tmp0 ^ in6 ^ in7 in
  let out1 := tmp1 ^ in1 in let out7 := tmp1 ^ in2 in let out3 := tmp2 ^ in5 in
  let out5 := tmp2 ^ in2 in let out0 := out3 ^ in3 ^ in4 in
  Planes out0 out1 out2 out3 out4 out5 out6 out7.

Definition gf8_muladd_2A : gf8_body := fun A _ in0 in1 in2 in3 in4 in5 in6 in7 =>
  let out0 := in3 ^ in5 in let tmp0 := in1 ^ in3 in let tmp1 := in0 ^ in4 in
  let out7 := in2 ^ in4 ^ in7 in let out3 := tmp1 ^ out0 ^ in2 in
  let out2 := tmp0 ^ in7 in let out6 := tmp0 ^ in6 in let out1 := tmp1 ^ in6 in
  let out5 := tmp1 ^ out7 ^ in5 in let out4 := out1 ^ in0 ^ in1 in
  Planes out0 out1 out2 out3 out4 out5 out6 out7.

Definition gf8_muladd_2B : gf8_body := fun A _ in0 in1 in2 in3 in4 in5 in6 in7 =>
  let out4 := in1 ^ in6 in let out7 := in2 ^ in4 in let tmp0 := in0 ^ in5 in
  let tmp1 := in2 ^ in7 in let out6 := in1 ^ in3 in let out1 := out4 ^ in0 ^ in4 in
  let out3 := tmp0 ^ out7 in let out0 := tmp0 ^ in3 in let out5 := tmp1 ^ in0 in
  let out2 := tmp1 ^ out6 in
  Planes out0 out1 out2 out3 out4 out5 out6 out7.

Definition gf8_muladd_2C : gf8_body := fun A _ in0 in1 in2 in3 in4 in5 in6 in7 =>
  let tmp0 := in2 ^ in5 in let tmp1 := in2 ^ in3 ^ in4 in let tmp2 := tmp0 ^ in6 in
  let out4 := tmp1 ^ in1 in let out5 := tmp1 ^ in0 ^ in5 in let tmp3 := tmp2 ^ in4 in
  let out6 := tmp2 ^ out4 in let out7 := tmp3 ^ in7 in let out2 := tmp3 ^ out5 in
  let out3 := out6 ^ in0 in let out0 := tmp1 ^ out7 in let out1 := tmp0 ^ out7 in
  Planes out0 out1 out2 out3 out4 out5 out6 out7.

Definition gf8_muladd_2D : gf8_body := fun A _ in0 in1 in2 in3 in4 in5 in6 in7 =>
  let tmp0 := in2 ^ in3 in let out4 := tmp0 ^ in1 in let tmp1 := tmp0 ^ in0 in
  let out2 := tmp1 ^ in6 in let out5 := tmp1 ^ in4 in let tmp2 := out2 ^ in2 in
  let tmp3 := tmp2 ^ in5 in let out0 := tmp3 ^ in7 in let out7 := tmp3 ^ out5 in
  let out6 := out4 ^ out7 ^ in6 in let out3 := tmp2 ^ out6 in
  let out1 := out0 ^ out6 ^ in0 in
  Planes out0 out1 out2 out3 out4 out5 out6 out7.

Definition gf8_muladd_2E : gf8_body := fun A _ in0 in1 in2 in3 in4 in5 in6 in7 =>
  let tmp0 := in4 ^ in7 in let out0 := in3 ^ in5 ^ in6 in let tmp1 := tmp0 ^ in0 in
  let tmp2 := tmp0 ^ in2 in let out1 := tmp1 ^ in6 in let out4 := tmp2 ^ in1 in
  let out7 := tmp2 ^ in5 in let out3 := out0 ^ out4 ^ in0 in
  let out2 := out3 ^ out7 ^ in7 in let out6 := tmp1 ^ out2 in
  let out5 := tmp1 ^ out7 ^ in3 in
  Planes out0 out1 out2 out3 out4 out5 out6 out7.

Definition gf8_muladd_2F : gf8_body := fun A _ in0 in1 in2 in3 in4 in5 in6 in7 =>
  let tmp0 := in0 ^ in3 in let tmp1 := in2 ^ in5 in let out4 := in1 ^ in2 ^ in7 in
  let out6 := in1 ^ in3 ^ in4 in let out5 := tmp0 ^ in2 in let tmp2 := tmp0 ^ in6 in
  let out7 := tmp1 ^ in4 in let out0 := tmp2 ^ in5 in let out2 := tmp2 ^ out4 in
  let out1 := tmp2 ^ out6 ^ in7 in let out3 := tmp1 ^ out1 in
  Planes out0 out1 out2 out3 out4 out5 out6 out7.

Definition gf8_muladd_30 : gf8_body := fun A _ in0 in1 in2 in3 in4 in5 in6 in7 =>
  let out1 := in4 ^ in5 in let tmp0 := in3 ^ in6 in let tmp1 := in4 ^ in7 in
  let out6 := in1 ^ in2 ^ in5 in let out3 := tmp0 ^ in5 in let out4 := tmp0 ^ in0 in
  let out7 := tmp0 ^ in2 in let out0 := tmp1 ^ in3 in let out2 := tmp1 ^ out3 in
  let out5 := tmp1 ^ in0 ^ in1 in
  Planes out0 out1 out2 out3 out4 out5 out6 out7.

Definition gf8_muladd_31 : gf8_body := fun A _ in0 in1 in2 in3 in4 in5 in6 in7 =>
  let out3 := in5 ^ in6 in let tmp0 := in4 ^ in5 in let tmp1 := in0 ^ in3 ^ in4 in
  let tmp2 := out3 ^ in2 in let out1 := tmp0 ^ in1 in let out0 := tmp1 ^ in7 in
  let out4 := tmp1 ^ in6 in let out6 := tmp2 ^ in1 in let out2 := tmp2 ^ out0 ^ in0 in
  let out5 := out1 ^ in0 ^ in7 in let out7 := tmp0 ^ out2 in
  Planes out0 out1 out2 out3 out4 out5 out6 out7.

Definition gf8_muladd_32 : gf8_body := fun A _ in0 in1 in2 in3 in4 in5 in6 in7 =>
  let out0 := in3 ^ in4 in let out7 := in2 ^ in3 in let tmp0 := in5 ^ in6 in
  let tmp1 := in0 ^ in7 in let out6 := in1 ^ in2 in let out1 := in0 ^ in4 ^ in5 in
  let out2 := tmp0 ^ out0 ^ in1 in let out3 := tmp0 ^ out7 ^ in7 in
  let out4 := tmp1 ^ in6 in let out5 := tmp1 ^ in1 in
  Planes out0 out1 out2 out3 out4 out5 out6 out7.

Definition gf8_muladd_33 : gf8_body := fun A _ in0 in1 in2 in3 in4 in5 in6 in7 =>
  let tmp0 := in2 ^ in3 in let tmp1 := in0 ^ in4 in let tmp2 := in1 ^ in5 in
  let out6 := in1 ^ in2 ^ in6 in let out7 := tmp0 ^ in7 in let out0 := tmp1 ^ in3 in
  let out1 := tmp1 ^ tmp2 in let tmp3 := tmp2 ^ in7 in let tmp4 := tmp2 ^ in4 ^ in6 in
  let out5 := tmp3 ^ in0 in let out3 := tmp3 ^ out6 in let out4 := tmp4 ^ out5 in
  let out2 := tmp0 ^ tmp4 in
  Planes out0 out1 out2 out3 out4 out5 out6 out7.

Definition gf8_muladd_34 : gf8_body := fun A _ in0 in1 in2 in3 in4 in5 in6 in7 =>
  let tmp0 := in3 ^ in4 in let tmp1 := in4 ^ in5 in let tmp2 := tmp0 ^ in1 in
  let tmp3 := tmp0 ^ in6 in let out1 := tmp1 ^ in7 in let tmp4 := tmp1 ^ in2 in
  let out5 := tmp2 ^ in0 in let out3 := tmp2 ^ out1 in let out0 := tmp3 ^ in7 in
  let out7 := tmp3 ^ tmp4 in let out6 := tmp4 ^ in1 in let out2 := out3 ^ out5 ^ in3 in
  let out4 := tmp4 ^ out2 in
  Planes out0 out1 out2 out3 out4 out5 out6 out7.

Definition gf8_muladd_35 : gf8_body := fun A _ in0 in1 in2 in3 in4 in5 in6 in7 =>
  let tmp0 := in2 ^ in6 in let tmp1 := in5 ^ in7 in let out7 := tmp0 ^ tmp1 ^ in3 in
  let out3 := tmp1 ^ in1 in let out1 := out3 ^ in4 in let tmp2 := out1 ^ in7 in
  let out5 := tmp2 ^ in0 ^ in3 in let out6 := tmp0 ^ tmp2 in
  let out0 := out3 ^ out5 ^ in6 in let out4 := tmp0 ^ out0 in let out2 := out4 ^ in5 in
  Planes out0 out1 out2 out3 out4 out5 out6 out7.

Definition gf8_muladd_36 : gf8_body := fun A _ in0 in1 in2 in3 in4 in5 in6 in7 =>
  let out4 := in0 ^ in2 in let tmp0 := in1 ^ in3 in let out0 := in3 ^ in4 ^ in6 in
  let out6 := in1 ^ in2 ^ in4 in let out5 := tmp0 ^ in0 in let tmp1 := out5 ^ in5 in
  let out2 := tmp1 ^ in4 in let out3 := tmp1 ^ out4 in let out1 := tmp0 ^ out2 ^ in7 in
  let out7 := out3 ^ in1 in
  Planes out0 out1 out2 out3 out4 out5 out6 out7.

Definition gf8_muladd_37 : gf8_body := fun A _ in0 in1 in2 in3 in4 in5 in6 in7 =>
  let tmp0 := in1 ^ in2 in let tmp1 := in2 ^ in4 in let tmp2 := tmp0 ^ in6 in
  let out3 := tmp0 ^ in5 in let out4 := tmp1 ^ in0 in let out6 := tmp2 ^ in4 in
  let out1 := out3 ^ out4 ^ in7 in let tmp3 := out4 ^ in1 ^ in3 in
  let out7 := tmp3 ^ out1 in let out2 := tmp3 ^ in5 in let out5 := tmp1 ^ out2 in
  let out0 := tmp2 ^ tmp3 in
  Planes out0 out1 out2 out3 out4 out5 out6 out7.

Definition gf8_muladd_38 : gf8_body := fun A _ in0 in1 in2 in3 in4 in5 in6 in7 =>
  let out3 := in0 ^ in3 in let tmp0 := in3 ^ in4 in let tmp1 := in5 ^ in7 in
  let tmp2 := out3 ^ in1 in let out2 := tmp0 ^ in6 in let out0 := tmp0 ^ tmp1 in
  let out4 := tmp1 ^ tmp2 in let out7 := out2 ^ in2 in let out1 := out2 ^ in3 ^ in5 in
  let out6 := out4 ^ in0 ^ in2 in let out5 := tmp2 ^ out7 in
  Planes out0 out1 out2 out3 out4 out5 out6 out7.

Definition gf8_muladd_39 : gf8_body := fun A _ in0 in1 in2 in3 in4 in5 in6 in7 =>
  let out3 := in0 in let tmp0 := in1 ^ in5 in let tmp1 := tmp0 ^ in4 in
  let out1 := tmp1 ^ in6 in let out5 := out1 ^ in0 ^ in2 in let tmp2 := tmp0 ^ out5 in
  let out2 := tmp2 ^ in0 ^ in3 in let out7 := out2 ^ in7 in let out6 := tmp1 ^ out7 in
  let out4 := tmp2 ^ out6 in let out0 := out4 ^ in1 in
  Planes out0 out1 out2 out3 out4 out5 out6 out7.

Definition gf8_muladd_3A : gf8_body := fun A _ in0 in1 in2 in3 in4 in5 in6 in7 =>
  let tmp0 := in0 ^ in1 in let tmp1 := in0 ^ in2 in let tmp2 := in3 ^ in4 in
  let tmp3 := in1 ^ in6 in let tmp4 := in3 ^ in7 in let out4 := tmp0 ^ in5 in
  let out5 := tmp1 ^ tmp3 in let out3 := tmp1 ^ tmp4 in let out0 := tmp2 ^ in5 in
  let out7 := tmp2 ^ in2 in let tmp5 := tmp3 ^ in4 in let out2 := tmp4 ^ tmp5 in
  let out1 := tmp5 ^ out4 in let out6 := tmp0 ^ out3 in
  Planes out0 out1 out2 out3 out4 out5 out6 out7.

Definition gf8_muladd_3B : gf8_body := fun A _ in0 in1 in2 in3 in4 in5 in6 in7 =>
  let tmp0 := in1 ^ in6 in let tmp1 := in2 ^ in7 in let tmp2 := tmp0 ^ in3 in
  let out3 := tmp1 ^ in0 in let out6 := tmp1 ^ tmp2 in let out2 := out6 ^ in4 in
  let out7 := tmp0 ^ out2 in let out0 := out3 ^ out7 ^ in5 in
  let out5 := out0 ^ out2 ^ in7 in let out1 := tmp2 ^ out0 in let out4 := out1 ^ in6 in
  Planes out0 out1 out2 out3 out4 out5 out6 out7.

Definition gf8_muladd_3C : gf8_body := fun A _ in0 in1 in2 in3 in4 in5 in6 in7 =>
  let tmp0 := in0 ^ in3 in let tmp1 := in2 ^ in7 in let tmp2 := in1 ^ in6 ^ in7 in
  let out2 := tmp0 ^ in4 in let out3 := tmp0 ^ tmp2 in let out4 := tmp1 ^ out3 ^ in5 in
  let out5 := tmp2 ^ out2 ^ in2 in let out1 := out4 ^ out5 ^ in6 in
  let out0 := out1 ^ in3 in let out7 := tmp1 ^ out0 in let out6 := tmp2 ^ out7 in
  Planes out0 out1 out2 out3 out4 out5 out6 out7.

Definition gf8_muladd_3D : gf8_body := fun A _ in0 in1 in2 in3 in4 in5 in6 in7 =>
  let tmp0 := in0 ^ in2 in let tmp1 := tmp0 ^ in3 in let out2 := tmp1 ^ in4 in
  let tmp2 := out2 ^ in5 in let out4 := tmp2 ^ in1 ^ in6 in let out5 := out4 ^ in7 in
  let out6 := out5 ^ in0 in let out7 := out6 ^ in1 in let out0 := tmp0 ^ out7 in
  let out1 := tmp1 ^ out5 in let out3 := tmp2 ^ out6 in
  Planes out0 out1 out2 out3 out4 out5 out6 out7.

Definition gf8_muladd_3E : gf8_body := fun A _ in0 in1 in2 in3 in4 in5 in6 in7 =>
  let tmp0 := in3 ^ in5 in let tmp1 := tmp0 ^ in4 in let out0 := tmp1 ^ in6 in
  let out7 := tmp1 ^ in2 in let out6 := out7 ^ in1 ^ in5 ^ in7 in
  let out2 := out6 ^ in0 ^ in2 in let out4 := out0 ^ out6 ^ in0 in
  let out5 := tmp0 ^ out4 in let out3 := out5 ^ in7 in let out1 := out3 ^ out6 ^ in5 in
  Planes out0 out1 out2 out3 out4 out5 out6 out7.

Definition gf8_muladd_3F : gf8_body := fun A _ in0 in1 in2 in3 in4 in5 in6 in7 =>
  let tmp0 := in0 ^ in1 in let out3 := tmp0 ^ in2 ^ in6 in let tmp1 := out3 ^ in5 ^ in7 in
  let out4 := tmp1 ^ in4 in let out5 := tmp1 ^ in3 in let out1 := out4 ^ in2 in
  let out7 := out1 ^ out3 ^ in3 in let out2 := tmp0 ^ out7 ^ in5 in
  let tmp2 := out2 ^ in0 in let out6 := tmp2 ^ in6 in let out0 := tmp1 ^ tmp2 in
  Planes out0 out1 out2 out3 out4 out5 out6 out7.

Definition gf8_muladd_40 : gf8_body := fun A _ in0 in1 in2 in3 in4 in5 in6 in7 =>
  let out1 := in3 ^ in7 in let tmp0 := in3 ^ in4 in let tmp1 := in6 ^ in7 in
  let out4 := tmp0 ^ in2 in let out5 := tmp0 ^ in5 in let out0 := tmp1 ^ in2 in
  let out7 := tmp1 ^ in1 ^ in5 in let out2 := out0 ^ in4 in
  let out3 := out2 ^ out5 ^ in7 in let out6 := out3 ^ out4 ^ in0 in
  Planes out0 out1 out2 out3 out4 out5 out6 out7.

Definition gf8_muladd_41 : gf8_body := fun A _ in0 in1 in2 in3 in4 in5 in6 in7 =>
  let out4 := in2 ^ in3 in let tmp0 := in5 ^ in6 in let tmp1 := in6 ^ in7 in
  let out5 := in3 ^ in4 in let out1 := in1 ^ in3 ^ in7 in let out6 := in0 ^ in4 ^ in5 in
  let out3 := tmp0 ^ in2 in let out7 := tmp0 ^ in1 in let out2 := tmp1 ^ in4 in
  let out0 := tmp1 ^ in0 ^ in2 in
  Planes out0 out1 out2 out3 out4 out5 out6 out7.

Definition gf8_muladd_42 : gf8_body := fun A _ in0 in1 in2 in3 in4 in5 in6 in7 =>
  let out0 := in2 ^ in6 in let out5 := in3 ^ in5 in let out1 := in0 ^ in3 ^ in7 in
  let out7 := in1 ^ in5 ^ in7 in let out4 := in2 ^ in4 ^ in7 in
  let out6 := in0 ^ in4 ^ in6 in let out2 := out0 ^ in1 ^ in4 in
  let out3 := out5 ^ in6 ^ in7 in
  Planes out0 out1 out2 out3 out4 out5 out6 out7.

Definition gf8_muladd_43 : gf8_body := fun A _ in0 in1 in2 in3 in4 in5 in6 in7 =>
  let out5 := in3 in let out7 := in1 ^ in5 in let out4 := in2 ^ in7 in
  let out6 := in0 ^ in4 in let out0 := in0 ^ in2 ^ in6 in let out3 := in5 ^ in6 ^ in7 in
  let out2 := in1 ^ in4 ^ in6 in let out1 := in0 ^ in1 ^ in3 ^ in7 in
  Planes out0 out1 out2 out3 out4 out5 out6 out7.

Definition gf8_muladd_44 : gf8_body := fun A _ in0 in1 in2 in3 in4 in5 in6 in7 =>
  let out1 := in3 in let out0 := in2 ^ in7 in let tmp0 := in4 ^ in7 in
  let out7 := in1 ^ in6 ^ in7 in let out6 := in0 ^ in5 ^ in6 in
  let out4 := tmp0 ^ in3 ^ in6 in let out3 := out0 ^ in1 ^ in3 ^ in5 in
  let out2 := out0 ^ in0 ^ in4 in let out5 := tmp0 ^ in5 in
  Planes out0 out1 out2 out3 out4 out5 out6 out7.

Definition gf8_muladd_45 : gf8_body := fun A _ in0 in1 in2 in3 in4 in5 in6 in7 =>
  let out1 := in1 ^ in3 in let out7 := in1 ^ in6 in let out5 := in4 ^ in7 in
  let out6 := in0 ^ in5 in let out0 := in0 ^ in2 ^ in7 in let out4 := in3 ^ in6 ^ in7 in
  let out2 := out5 ^ in0 in let out3 := out0 ^ out6 ^ in1 in
  Planes out0 out1 out2 out3 out4 out5 out6 out7.

Definition gf8_muladd_46 : gf8_body := fun A _ in0 in1 in2 in3 in4 in5 in6 in7 =>
  let out0 := in2 in let out1 := in0 ^ in3 in let out7 := in1 ^ in7 in
  let out4 := in4 ^ in6 in let out5 := in5 ^ in7 in let out6 := in0 ^ in6 in
  let out3 := in1 ^ in3 ^ in5 in let out2 := out4 ^ out6 ^ in1 ^ in2 in
  Planes out0 out1 out2 out3 out4 out5 out6 out7.

Definition gf8_muladd_47 : gf8_body := fun A _ in0 in1 in2 in3 in4 in5 in6 in7 =>
  let out4 := in6 in let out7 := in1 in let out5 := in7 in let out6 := in0 in
  let tmp0 := in0 ^ in1 in let out3 := in1 ^ in5 in let out0 := in0 ^ in2 in
  let out1 := tmp0 ^ in3 in let out2 := tmp0 ^ in4 in
  Planes out0 out1 out2 out3 out4 out5 out6 out7.

Definition gf8_muladd_48 : gf8_body := fun A _ in0 in1 in2 in3 in4 in5 in6 in7 =>
  let tmp0 := in2 ^ in3 in let out1 := in3 ^ in6 ^ in7 in let out3 := tmp0 ^ in0 in
  let out0 := tmp0 ^ out1 ^ in5 in let tmp1 := out0 ^ in4 in let out2 := tmp1 ^ in7 in
  let out5 := tmp1 ^ in3 in let out4 := out5 ^ in1 in let out7 := tmp0 ^ out4 in
  let out6 := tmp1 ^ out3 in
  Planes out0 out1 out2 out3 out4 out5 out6 out7.

Definition gf8_muladd_49 : gf8_body := fun A _ in0 in1 in2 in3 in4 in5 in6 in7 =>
  let out3 := in0 ^ in2 in let tmp0 := in2 ^ in5 in let out2 := in4 ^ in5 ^ in6 in
  let tmp1 := tmp0 ^ out2 ^ in3 in let out7 := out2 ^ in1 in let out5 := tmp1 ^ in7 in
  let out4 := out5 ^ out7 ^ in6 in let out1 := tmp0 ^ out4 in
  let out6 := out1 ^ out7 ^ in0 in let out0 := tmp1 ^ out6 in
  Planes out0 out1 out2 out3 out4 out5 out6 out7.

Definition gf8_muladd_4A : gf8_body := fun A _ in0 in1 in2 in3 in4 in5 in6 in7 =>
  let tmp0 := in2 ^ in6 in let tmp1 := in3 ^ in7 in let out0 := tmp0 ^ in5 in
  let out3 := tmp1 ^ in0 in let out5 := tmp1 ^ out0 in let out4 := out0 ^ in1 ^ in4 in
  let out1 := out3 ^ in6 in let out2 := out4 ^ in7 in let out6 := out1 ^ in4 in
  let out7 := tmp0 ^ out2 in
  Planes out0 out1 out2 out3 out4 out5 out6 out7.

Definition gf8_muladd_4B : gf8_body := fun A _ in0 in1 in2 in3 in4 in5 in6 in7 =>
  let out3 := in0 ^ in7 in let tmp0 := in1 ^ in5 in let tmp1 := in2 ^ in6 in
  let tmp2 := out3 ^ in3 in let out7 := tmp0 ^ in4 in let out4 := tmp0 ^ tmp1 in
  let tmp3 := tmp1 ^ in0 in let out6 := tmp2 ^ in4 in let out5 := tmp2 ^ tmp3 in
  let out1 := tmp2 ^ in1 ^ in6 in let out2 := out7 ^ in6 ^ in7 in
  let out0 := tmp3 ^ in5 in
  Planes out0 out1 out2 out3 out4 out5 out6 out7.

Definition gf8_muladd_4C : gf8_body := fun A _ in0 in1 in2 in3 in4 in5 in6 in7 =>
  let out1 := in3 ^ in6 in let tmp0 := in2 ^ in5 in let tmp1 := out1 ^ in5 ^ in7 in
  let out0 := tmp0 ^ in7 in let tmp2 := tmp0 ^ in4 in let out6 := tmp1 ^ in0 in
  let out2 := tmp2 ^ in0 in let out5 := tmp2 ^ in6 in let out3 := tmp0 ^ out6 ^ in1 in
  let out7 := out0 ^ out5 ^ in1 in let out4 := tmp1 ^ out7 in
  Planes out0 out1 out2 out3 out4 out5 out6 out7.

Definition gf8_muladd_4D : gf8_body := fun A _ in0 in1 in2 in3 in4 in5 in6 in7 =>
  let tmp0 := in0 ^ in5 in let tmp1 := in1 ^ in6 in let out4 := in1 ^ in3 ^ in5 in
  let tmp2 := tmp0 ^ in7 in let out2 := tmp0 ^ in4 in let out1 := tmp1 ^ in3 in
  let out7 := tmp1 ^ in4 in let out0 := tmp2 ^ in2 in let out6 := tmp2 ^ in3 in
  let out5 := out7 ^ in1 ^ in2 in let out3 := tmp1 ^ out0 ^ in5 in
  Planes out0 out1 out2 out3 out4 out5 out6 out7.

Definition gf8_muladd_4E : gf8_body := fun A _ in0 in1 in2 in3 in4 in5 in6 in7 =>
  let out0 := in2 ^ in5 in let out7 := in1 ^ in4 ^ in7 in let out1 := in0 ^ in3 ^ in6 in
  let out5 := out0 ^ in6 in let out4 := out7 ^ in5 in let out3 := out1 ^ in1 in
  let out6 := out1 ^ in7 in let out2 := out4 ^ in0 ^ in2 in
  Planes out0 out1 out2 out3 out4 out5 out6 out7.

Definition gf8_muladd_4F : gf8_body := fun A _ in0 in1 in2 in3 in4 in5 in6 in7 =>
  let out5 := in2 ^ in6 in let out7 := in1 ^ in4 in let out3 := in0 ^ in1 ^ in6 in
  let out4 := in1 ^ in5 ^ in7 in let out0 := in0 ^ in2 ^ in5 in
  let out6 := in0 ^ in3 ^ in7 in let out1 := out3 ^ in3 in let out2 := out4 ^ in0 ^ in4 in
  Planes out0 out1 out2 out3 out4 out5 out6 out7.

Definition gf8_muladd_50 : gf8_body := fun A _ in0 in1 in2 in3 in4 in5 in6 in7 =>
  let out2 := in2 ^ in7 in let tmp0 := in3 ^ in5 in let out0 := out2 ^ in4 ^ in6 in
  let out1 := tmp0 ^ in7 in let tmp1 := tmp0 ^ in6 in let out3 := out0 ^ in3 in
  let out7 := tmp1 ^ in1 in let tmp2 := tmp1 ^ in0 in let out5 := out3 ^ in1 ^ in2 in
  let out4 := tmp2 ^ in2 in let out6 := tmp2 ^ out3 in
  Planes out0 out1 out2 out3 out4 out5 out6 out7.

Definition gf8_muladd_51 : gf8_body := fun A _ in0 in1 in2 in3 in4 in5 in6 in7 =>
  let out2 := in7 in let out3 := in2 ^ in4 ^ in6 ^ in7 in let out0 := out3 ^ in0 in
  let out6 := out0 ^ in5 in let out4 := out6 ^ in3 ^ in7 in
  let out1 := out0 ^ out4 ^ in1 in let out7 := out1 ^ in6 in let out5 := out7 ^ in4 in
  Planes out0 out1 out2 out3 out4 out5 out6 out7.

Definition gf8_muladd_52 : gf8_body := fun A _ in0 in1 in2 in3 in4 in5 in6 in7 =>
  let out2 := in1 ^ in2 in let tmp0 := in2 ^ in4 in let tmp1 := in3 ^ in5 in
  let tmp2 := in3 ^ in6 in let tmp3 := in0 ^ in7 in let out0 := tmp0 ^ in6 in
  let out6 := tmp0 ^ tmp3 in let out7 := tmp1 ^ in1 in let out1 := tmp1 ^ tmp3 in
  let out3 := tmp2 ^ in4 in let out5 := tmp2 ^ in1 ^ in7 in
  let out4 := tmp2 ^ out1 ^ in2 in
  Planes out0 out1 out2 out3 out4 out5 out6 out7.

Definition gf8_muladd_53 : gf8_body := fun A _ in0 in1 in2 in3 in4 in5 in6 in7 =>
  let out2 := in1 in let out3 := in4 ^ in6 in let out0 := out3 ^ in0 ^ in2 in
  let out6 := out0 ^ in7 in let out4 := out6 ^ in5 in
  let out7 := out0 ^ out4 ^ in1 ^ in3 in let out1 := out7 ^ in0 in
  let out5 := out7 ^ in6 in
  Planes out0 out1 out2 out3 out4 out5 out6 out7.

Definition gf8_muladd_54 : gf8_body := fun A _ in0 in1 in2 in3 in4 in5 in6 in7 =>
  let out1 := in3 ^ in5 in let tmp0 := in1 ^ in3 in let tmp1 := in2 ^ in4 in
  let tmp2 := in0 ^ in7 in let out5 := in1 ^ in4 ^ in6 in let out4 := tmp2 ^ out1 in
  let out7 := tmp0 ^ in6 in let out3 := tmp0 ^ tmp1 in let out0 := tmp1 ^ in7 in
  let tmp3 := tmp2 ^ in2 in let out2 := tmp3 ^ in6 in let out6 := tmp3 ^ in5 in
  Planes out0 out1 out2 out3 out4 out5 out6 out7.

Definition gf8_muladd_55 : gf8_body := fun A _ in0 in1 in2 in3 in4 in5 in6 in7 =>
  let tmp0 := in1 ^ in3 in let tmp1 := in1 ^ in4 in let tmp2 := in6 ^ in7 in
  let out7 := tmp0 ^ tmp2 in let out1 := tmp0 ^ in5 in let out3 := tmp1 ^ in2 in
  let out5 := tmp1 ^ in5 ^ in6 in let out2 := tmp2 ^ in0 in
  let out4 := out5 ^ out7 ^ in0 in let out6 := out2 ^ in2 ^ in5 in
  let out0 := out5 ^ out6 ^ in1 in
  Planes out0 out1 out2 out3 out4 out5 out6 out7.

Definition gf8_muladd_56 : gf8_body := fun A _ in0 in1 in2 in3 in4 in5 in6 in7 =>
  let out0 := in2 ^ in4 in let tmp0 := in0 ^ in2 in let out4 := in0 ^ in5 in
  let out7 := in1 ^ in3 in let out5 := in1 ^ in6 in let out6 := tmp0 ^ in7 in
  let out2 := tmp0 ^ out5 in let out1 := out4 ^ in3 in let out3 := out7 ^ in4 ^ in7 in
  Planes out0 out1 out2 out3 out4 out5 out6 out7.

Definition gf8_muladd_57 : gf8_body := fun A _ in0 in1 in2 in3 in4 in5 in6 in7 =>
  let tmp0 := in0 ^ in5 in let tmp1 := in1 ^ in7 in let out0 := in0 ^ in2 ^ in4 in
  let out5 := in1 ^ in5 ^ in6 in let out4 := tmp0 ^ in4 in let out1 := tmp0 ^ in1 ^ in3 in
  let out2 := tmp0 ^ out5 in let out3 := tmp1 ^ in4 in let out7 := tmp1 ^ in3 in
  let out6 := tmp1 ^ out2 ^ in2 in
  Planes out0 out1 out2 out3 out4 out5 out6 out7.

Definition gf8_muladd_58 : gf8_body := fun A _ in0 in1 in2 in3 in4 in5 in6 in7 =>
  let out2 := in2 ^ in5 in let tmp0 := in2 ^ in3 ^ in4 in let out5 := tmp0 ^ in1 in
  let out6 := tmp0 ^ in0 ^ in5 in let out3 := out6 ^ in7 in let tmp1 := out2 ^ out5 in
  let out7 := tmp1 ^ in6 in let out4 := tmp1 ^ out3 ^ in3 in
  let out0 := out4 ^ out7 ^ in0 in let out1 := tmp0 ^ out0 in
  Planes out0 out1 out2 out3 out4 out5 out6 out7.

Definition gf8_muladd_59 : gf8_body := fun A _ in0 in1 in2 in3 in4 in5 in6 in7 =>
  let out2 := in5 in let tmp0 := in0 ^ in5 ^ in7 in let out3 := tmp0 ^ in2 ^ in4 in
  let out0 := out3 ^ in6 in let tmp1 := out0 ^ in7 in let out6 := tmp1 ^ in3 in
  let out5 := out6 ^ in0 ^ in1 ^ in6 in let out4 := tmp0 ^ out5 in
  let out1 := tmp1 ^ out4 in let out7 := out1 ^ in4 in
  Planes out0 out1 out2 out3 out4 out5 out6 out7.

Definition gf8_muladd_5A : gf8_body := fun A _ in0 in1 in2 in3 in4 in5 in6 in7 =>
  let tmp0 := in1 ^ in2 in let tmp1 := in2 ^ in5 in let out5 := tmp0 ^ in3 in
  let out4 := tmp0 ^ in0 in let tmp2 := tmp1 ^ in4 in let out2 := tmp1 ^ in1 ^ in7 in
  let out7 := tmp2 ^ out5 in let out6 := out4 ^ out7 ^ in5 in let out0 := tmp2 ^ in6 in
  let out1 := out0 ^ out6 ^ in7 in let out3 := tmp1 ^ out6 in
  Planes out0 out1 out2 out3 out4 out5 out6 out7.

Definition gf8_muladd_5B : gf8_body := fun A _ in0 in1 in2 in3 in4 in5 in6 in7 =>
  let tmp0 := in2 ^ in3 in let tmp1 := in0 ^ in4 in let tmp2 := in1 ^ in5 in
  let out5 := tmp0 ^ tmp2 in let tmp3 := tmp1 ^ in6 in let out3 := tmp1 ^ in5 in
  let out2 := tmp2 ^ in7 in let tmp4 := out3 ^ in2 in let out7 := out2 ^ in3 ^ in4 in
  let out0 := tmp4 ^ in6 in let out6 := tmp0 ^ tmp3 in let out4 := tmp2 ^ tmp4 in
  let out1 := tmp3 ^ out7 in
  Planes out0 out1 out2 out3 out4 out5 out6 out7.

Definition gf8_muladd_5C : gf8_body := fun A _ in0 in1 in2 in3 in4 in5 in6 in7 =>
  let tmp0 := in3 ^ in6 in let tmp1 := in0 ^ in2 ^ in5 in let out1 := tmp0 ^ in5 in
  let tmp2 := tmp0 ^ in1 in let out2 := tmp1 ^ in6 in let out6 := tmp1 ^ in3 in
  let out4 := tmp2 ^ in0 in let out7 := tmp2 ^ in4 in let out3 := tmp1 ^ out7 in
  let out0 := out3 ^ out4 ^ in7 in let out5 := out0 ^ in1 ^ in5 in
  Planes out0 out1 out2 out3 out4 out5 out6 out7.

Definition gf8_muladd_5D : gf8_body := fun A _ in0 in1 in2 in3 in4 in5 in6 in7 =>
  let tmp0 := in0 ^ in1 in let tmp1 := in0 ^ in6 in let out2 := tmp1 ^ in5 in
  let tmp2 := out2 ^ in3 in let out6 := tmp2 ^ in2 in let out1 := tmp0 ^ tmp2 in
  let tmp3 := out1 ^ in4 ^ in5 in let out4 := tmp3 ^ in0 in let out7 := tmp3 ^ in7 in
  let tmp4 := out4 ^ out6 in let out5 := tmp4 ^ in7 in let out0 := tmp0 ^ out5 in
  let out3 := tmp1 ^ tmp4 in
  Planes out0 out1 out2 out3 out4 out5 out6 out7.

Definition gf8_muladd_5E : gf8_body := fun A _ in0 in1 in2 in3 in4 in5 in6 in7 =>
  let tmp0 := in2 ^ in5 in let tmp1 := in3 ^ in5 in let tmp2 := in1 ^ in7 in
  let out7 := in1 ^ in3 ^ in4 in let out0 := tmp0 ^ in4 in let tmp3 := tmp1 ^ in0 in
  let out5 := tmp2 ^ in2 in let out1 := tmp3 ^ in6 in let out6 := tmp0 ^ tmp3 in
  let tmp4 := tmp2 ^ out1 in let out3 := tmp4 ^ in4 in let out4 := tmp1 ^ tmp4 in
  let out2 := tmp0 ^ out4 in
  Planes out0 out1 out2 out3 out4 out5 out6 out7.

Definition gf8_muladd_5F : gf8_body := fun A _ in0 in1 in2 in3 in4 in5 in6 in7 =>
  let tmp0 := in1 ^ in5 in let tmp1 := in0 ^ in6 in let tmp2 := tmp0 ^ in7 in
  let tmp3 := tmp1 ^ in3 in let out2 := tmp1 ^ tmp2 in let out5 := tmp2 ^ in2 in
  let out6 := tmp3 ^ in2 in let out3 := out2 ^ in4 in let out4 := out3 ^ in5 in
  let out1 := tmp0 ^ tmp3 in let out7 := tmp3 ^ out4 in let out0 := out4 ^ out5 ^ in6 in
  Planes out0 out1 out2 out3 out4 out5 out6 out7.

Definition gf8_muladd_60 : gf8_body := fun A _ in0 in1 in2 in3 in4 in5 in6 in7 =>
  let out4 := in2 ^ in5 in let tmp0 := in3 ^ in6 in let out1 := in3 ^ in4 ^ in7 in
  let out7 := out4 ^ in1 in let tmp1 := out4 ^ in4 in let out0 := tmp0 ^ in2 in
  let out5 := tmp0 ^ in0 in let out2 := tmp0 ^ tmp1 in let out3 := tmp1 ^ in7 in
  let out6 := out3 ^ out7 ^ in0 in
  Planes out0 out1 out2 out3 out4 out5 out6 out7.

Definition gf8_muladd_61 : gf8_body := fun A _ in0 in1 in2 in3 in4 in5 in6 in7 =>
  let tmp0 := in2 ^ in5 in let out4 := tmp0 ^ in4 in let tmp1 := out4 ^ in3 in
  let out3 := tmp1 ^ in7 in let out2 := tmp1 ^ in2 ^ in6 in
  let out1 := tmp0 ^ out3 ^ in1 in let out0 := out2 ^ out4 ^ in0 in
  let out7 := tmp1 ^ out1 in let out6 := out0 ^ out1 ^ in2 in let out5 := tmp0 ^ out0 in
  Planes out0 out1 out2 out3 out4 out5 out6 out7.

Definition gf8_muladd_62 : gf8_body := fun A _ in0 in1 in2 in3 in4 in5 in6 in7 =>
  let out3 := in4 ^ in5 in let tmp0 := in0 ^ in3 ^ in4 in let out1 := tmp0 ^ in7 in
  let out5 := tmp0 ^ in6 in let tmp1 := out1 ^ in0 in let tmp2 := tmp1 ^ out3 in
  let out4 := tmp2 ^ in2 in let tmp3 := tmp2 ^ in1 in let out0 := out4 ^ in5 ^ in6 in
  let out7 := tmp3 ^ out0 in let out6 := tmp0 ^ tmp3 in let out2 := tmp1 ^ out7 in
  Planes out0 out1 out2 out3 out4 out5 out6 out7.

Definition gf8_muladd_63 : gf8_body := fun A _ in0 in1 in2 in3 in4 in5 in6 in7 =>
  let tmp0 := in3 ^ in4 in let tmp1 := in1 ^ in7 in let out3 := tmp0 ^ in5 in
  let tmp2 := out3 ^ in6 in let out4 := out3 ^ in2 ^ in7 in let out5 := tmp2 ^ in0 in
  let tmp3 := out5 ^ in3 in let out0 := tmp3 ^ out4 in let out2 := tmp1 ^ tmp2 in
  let out6 := tmp1 ^ tmp3 in let tmp4 := tmp0 ^ out2 in let out1 := tmp4 ^ out5 in
  let out7 := tmp4 ^ in2 in
  Planes out0 out1 out2 out3 out4 out5 out6 out7.

Definition gf8_muladd_64 : gf8_body := fun A _ in0 in1 in2 in3 in4 in5 in6 in7 =>
  let out0 := in2 ^ in3 in let out1 := in3 ^ in4 in let out7 := in1 ^ in2 in
  let tmp0 := in4 ^ in5 in let tmp1 := in0 ^ in7 in let out4 := in5 ^ in6 ^ in7 in
  let out2 := tmp0 ^ out0 ^ in0 in let out3 := tmp0 ^ out7 ^ in6 in
  let out5 := tmp1 ^ in6 in let out6 := tmp1 ^ in1 in
  Planes out0 out1 out2 out3 out4 out5 out6 out7.

Definition gf8_muladd_65 : gf8_body := fun A _ in0 in1 in2 in3 in4 in5 in6 in7 =>
  let tmp0 := in0 ^ in3 in let tmp1 := in4 ^ in5 in let tmp2 := in6 ^ in7 in
  let out7 := in1 ^ in2 ^ in7 in let out1 := in1 ^ in3 ^ in4 in let out0 := tmp0 ^ in2 in
  let out2 := tmp0 ^ tmp1 in let out4 := tmp1 ^ tmp2 in let tmp3 := tmp2 ^ in0 in
  let out3 := out4 ^ out7 ^ in3 in let out5 := tmp3 ^ in5 in let out6 := tmp3 ^ in1 in
  Planes out0 out1 out2 out3 out4 out5 out6 out7.

Definition gf8_muladd_66 : gf8_body := fun A _ in0 in1 in2 in3 in4 in5 in6 in7 =>
  let tmp0 := in1 ^ in2 in let tmp1 := in2 ^ in3 in let tmp2 := in0 ^ in4 in
  let out7 := tmp0 ^ in6 in let out0 := tmp1 ^ in7 in let out1 := tmp2 ^ in3 in
  let tmp3 := tmp2 ^ in6 in let tmp4 := out1 ^ in5 in let out5 := tmp3 ^ in7 in
  let out4 := tmp3 ^ tmp4 in let out2 := tmp0 ^ tmp4 ^ in7 in
  let out6 := tmp1 ^ out2 ^ in4 in let out3 := tmp3 ^ out6 in
  Planes out0 out1 out2 out3 out4 out5 out6 out7.

Definition gf8_muladd_67 : gf8_body := fun A _ in0 in1 in2 in3 in4 in5 in6 in7 =>
  let tmp0 := in0 ^ in3 in let tmp1 := tmp0 ^ in1 in let tmp2 := tmp0 ^ in7 in
  let out1 := tmp1 ^ in4 in let out0 := tmp2 ^ in2 in let tmp3 := out1 ^ in7 in
  let out2 := tmp3 ^ in5 in let out3 := out2 ^ in0 ^ in6 in
  let out7 := tmp1 ^ out0 ^ in6 in let out5 := tmp1 ^ out3 in let out4 := tmp2 ^ out5 in
  let out6 := tmp3 ^ out4 in
  Planes out0 out1 out2 out3 out4 out5 out6 out7.

Definition gf8_muladd_68 : gf8_body := fun A _ in0 in1 in2 in3 in4 in5 in6 in7 =>
  let tmp0 := in3 ^ in4 in let tmp1 := in2 ^ in3 ^ in5 in let tmp2 := tmp0 ^ in1 in
  let tmp3 := tmp0 ^ in6 in let out0 := tmp1 ^ in6 in let out6 := tmp2 ^ in0 in
  let out7 := tmp1 ^ tmp2 in let out1 := tmp3 ^ in7 in let out2 := out1 ^ in2 in
  let out4 := tmp2 ^ out2 in let out3 := out4 ^ out6 ^ in3 in let out5 := tmp3 ^ out3 in
  Planes out0 out1 out2 out3 out4 out5 out6 out7.

Definition gf8_muladd_69 : gf8_body := fun A _ in0 in1 in2 in3 in4 in5 in6 in7 =>
  let tmp0 := in6 ^ in7 in let out2 := tmp0 ^ in3 ^ in4 in let out1 := out2 ^ in1 in
  let out3 := out2 ^ in0 ^ in2 in let out4 := out1 ^ in2 ^ in3 in
  let out6 := out1 ^ in0 ^ in7 in let out7 := out4 ^ in5 ^ in6 in
  let out5 := out4 ^ out6 ^ in5 in let out0 := tmp0 ^ out5 in
  Planes out0 out1 out2 out3 out4 out5 out6 out7.

Definition gf8_muladd_6A : gf8_body := fun A _ in0 in1 in2 in3 in4 in5 in6 in7 =>
  let tmp0 := in2 ^ in6 in let out3 := in0 ^ in4 ^ in6 in let tmp1 := tmp0 ^ in3 in
  let out4 := tmp1 ^ in1 in let tmp2 := tmp1 ^ in7 in let out2 := out4 ^ in4 in
  let out0 := tmp2 ^ in5 in let out5 := tmp2 ^ out3 in let out7 := out2 ^ in3 ^ in5 in
  let out1 := tmp0 ^ out5 in let out6 := tmp1 ^ out7 ^ in0 in
  Planes out0 out1 out2 out3 out4 out5 out6 out7.

Definition gf8_muladd_6B : gf8_body := fun A _ in0 in1 in2 in3 in4 in5 in6 in7 =>
  let tmp0 := in4 ^ in6 in let out2 := tmp0 ^ in1 ^ in3 in let out4 := out2 ^ in2 in
  let tmp1 := out2 ^ in0 in let out7 := out4 ^ in3 ^ in5 ^ in7 in
  let out1 := tmp1 ^ in7 in let out3 := tmp1 ^ in1 in let out6 := tmp1 ^ in5 in
  let out0 := tmp1 ^ out7 ^ in6 in let out5 := tmp0 ^ out0 in
  Planes out0 out1 out2 out3 out4 out5 out6 out7.

Definition gf8_muladd_6C : gf8_body := fun A _ in0 in1 in2 in3 in4 in5 in6 in7 =>
  let out4 := in1 in let tmp0 := in2 ^ in3 in let out5 := in0 ^ in2 in
  let out1 := in3 ^ in4 ^ in6 in let tmp1 := out5 ^ in1 in let out0 := tmp0 ^ in5 in
  let out6 := tmp0 ^ tmp1 in let out3 := tmp1 ^ in4 in let out7 := out3 ^ in0 in
  let out2 := out6 ^ out7 ^ in7 in
  Planes out0 out1 out2 out3 out4 out5 out6 out7.

Definition gf8_muladd_6D : gf8_body := fun A _ in0 in1 in2 in3 in4 in5 in6 in7 =>
  let out4 := in1 ^ in4 in let tmp0 := in0 ^ in2 in let tmp1 := out4 ^ in3 in
  let out7 := out4 ^ in2 ^ in7 in let out5 := tmp0 ^ in5 in let out3 := tmp0 ^ tmp1 in
  let out1 := tmp1 ^ in6 in let out0 := out5 ^ in3 in let out2 := out3 ^ out7 ^ in4 in
  let out6 := out1 ^ in0 ^ in4 in
  Planes out0 out1 out2 out3 out4 out5 out6 out7.

Definition gf8_muladd_6E : gf8_body := fun A _ in0 in1 in2 in3 in4 in5 in6 in7 =>
  let tmp0 := in1 ^ in3 in let tmp1 := in0 ^ in4 in let out4 := tmp0 ^ in7 in
  let out6 := tmp0 ^ in0 ^ in5 in let out5 := tmp1 ^ in2 in let tmp2 := tmp1 ^ in3 in
  let out3 := tmp2 ^ out4 in let out1 := tmp2 ^ in6 in let out2 := tmp0 ^ out5 in
  let out0 := out2 ^ out3 ^ in5 in let out7 := out1 ^ out2 ^ in4 in
  Planes out0 out1 out2 out3 out4 out5 out6 out7.

Definition gf8_muladd_6F : gf8_body := fun A _ in0 in1 in2 in3 in4 in5 in6 in7 =>
  let tmp0 := in3 ^ in7 in let tmp1 := tmp0 ^ in4 in let tmp2 := tmp0 ^ in0 ^ in2 in
  let out4 := tmp1 ^ in1 in let out0 := tmp2 ^ in5 in let out3 := out4 ^ in0 in
  let out2 := out3 ^ in7 in let out1 := out2 ^ in6 in let out6 := out1 ^ in4 ^ in5 in
  let out7 := tmp2 ^ out1 in let out5 := tmp1 ^ out0 in
  Planes out0 out1 out2 out3 out4 out5 out6 out7.

Definition gf8_muladd_70 : gf8_body := fun A _ in0 in1 in2 in3 in4 in5 in6 in7 =>
  let out3 := in2 in let tmp0 := in2 ^ in4 in let out2 := in2 ^ in3 ^ in5 in
  let tmp1 := tmp0 ^ in6 in let tmp2 := out2 ^ in7 in let out0 := tmp1 ^ in3 in
  let out4 := tmp1 ^ in0 in let out7 := tmp2 ^ in1 in let out6 := out4 ^ in1 in
  let out5 := out7 ^ in0 ^ in2 in let out1 := tmp0 ^ tmp2 in
  Planes out0 out1 out2 out3 out4 out5 out6 out7.

Definition gf8_muladd_71 : gf8_body := fun A _ in0 in1 in2 in3 in4 in5 in6 in7 =>
  let out2 := in3 ^ in5 in let out3 := in2 ^ in3 in let tmp0 := in0 ^ in2 in
  let tmp1 := out2 ^ in1 in let out4 := tmp0 ^ in6 in let tmp2 := tmp0 ^ in1 in
  let out7 := tmp1 ^ in2 in let out1 := tmp1 ^ in4 ^ in7 in
  let out0 := out4 ^ in3 ^ in4 in let out6 := tmp2 ^ in4 in
  let out5 := tmp2 ^ out3 ^ in7 in
  Planes out0 out1 out2 out3 out4 out5 out6 out7.

Definition gf8_muladd_72 : gf8_body := fun A _ in0 in1 in2 in3 in4 in5 in6 in7 =>
  let out3 := in7 in let tmp0 := in0 ^ in4 in let tmp1 := tmp0 ^ in3 ^ in7 in
  let out1 := tmp1 ^ in5 in let out5 := out1 ^ in1 in let tmp2 := tmp0 ^ out5 in
  let out2 := tmp2 ^ in2 in let out7 := out2 ^ in6 in let out6 := tmp1 ^ out7 in
  let out4 := tmp2 ^ out6 in let out0 := out4 ^ in0 in
  Planes out0 out1 out2 out3 out4 out5 out6 out7.

Definition gf8_muladd_73 : gf8_body := fun A _ in0 in1 in2 in3 in4 in5 in6 in7 =>
  let out3 := in3 ^ in7 in let out2 := out3 ^ in1 ^ in5 in let out1 := out2 ^ in0 ^ in4 in
  let out5 := out1 ^ in5 in let out6 := out1 ^ out3 ^ in2 in
  let out0 := out2 ^ out6 ^ in6 in let out7 := out0 ^ out1 ^ in3 in
  let out4 := out0 ^ in4 in
  Planes out0 out1 out2 out3 out4 out5 out6 out7.

Definition gf8_muladd_74 : gf8_body := fun A _ in0 in1 in2 in3 in4 in5 in6 in7 =>
  let tmp0 := in3 ^ in4 in let tmp1 := in1 ^ in2 ^ in6 in let out4 := in0 ^ in4 ^ in7 in
  let out5 := in0 ^ in1 ^ in5 in let out0 := tmp0 ^ in2 in let out1 := tmp0 ^ in5 in
  let out3 := tmp1 ^ in7 in let out6 := tmp1 ^ in0 in let out2 := tmp1 ^ out5 ^ in3 in
  let out7 := out3 ^ in3 ^ in6 in
  Planes out0 out1 out2 out3 out4 out5 out6 out7.

Definition gf8_muladd_75 : gf8_body := fun A _ in0 in1 in2 in3 in4 in5 in6 in7 =>
  let out4 := in0 ^ in7 in let tmp0 := in1 ^ in3 in let out5 := in0 ^ in1 in
  let out7 := tmp0 ^ in2 in let tmp1 := tmp0 ^ in4 in let out6 := out5 ^ in2 in
  let tmp2 := out7 ^ in6 in let out1 := tmp1 ^ in5 in let out0 := tmp1 ^ out6 in
  let out3 := tmp2 ^ in7 in let out2 := tmp2 ^ out6 ^ in5 in
  Planes out0 out1 out2 out3 out4 out5 out6 out7.

Definition gf8_muladd_76 : gf8_body := fun A _ in0 in1 in2 in3 in4 in5 in6 in7 =>
  let out3 := in1 ^ in6 in let tmp0 := in0 ^ in5 in let tmp1 := in3 ^ in7 in
  let tmp2 := tmp0 ^ in4 in let tmp3 := tmp1 ^ in2 in let out5 := tmp2 ^ in1 in
  let out1 := tmp2 ^ in3 in let out0 := tmp3 ^ in4 in let out4 := out1 ^ in5 in
  let out7 := tmp3 ^ out3 in let out2 := tmp0 ^ out7 in let out6 := tmp1 ^ out2 in
  Planes out0 out1 out2 out3 out4 out5 out6 out7.

Definition gf8_muladd_77 : gf8_body := fun A _ in0 in1 in2 in3 in4 in5 in6 in7 =>
  let out4 := in0 ^ in3 in let tmp0 := in1 ^ in4 in let tmp1 := in1 ^ in6 in
  let tmp2 := out4 ^ in5 in let out5 := tmp0 ^ in0 in let out1 := tmp0 ^ tmp2 in
  let out3 := tmp1 ^ in3 in let out2 := tmp1 ^ tmp2 ^ in7 in let out7 := out3 ^ in2 in
  let tmp3 := out7 ^ in6 in let out6 := tmp2 ^ tmp3 in let out0 := tmp3 ^ out5 ^ in7 in
  Planes out0 out1 out2 out3 out4 out5 out6 out7.

Definition gf8_muladd_78 : gf8_body := fun A _ in0 in1 in2 in3 in4 in5 in6 in7 =>
  let tmp0 := in0 ^ in3 in let tmp1 := in2 ^ in7 in let tmp2 := in0 ^ in5 ^ in6 in
  let out2 := tmp1 ^ in3 in let out3 := tmp2 ^ in2 in let out5 := out3 ^ in1 ^ in3 in
  let out0 := tmp0 ^ out3 ^ in4 in let out1 := tmp1 ^ out0 in
  let out4 := out1 ^ out5 ^ in5 in let out7 := tmp0 ^ out4 in let out6 := tmp2 ^ out7 in
  Planes out0 out1 out2 out3 out4 out5 out6 out7.

Definition gf8_muladd_79 : gf8_body := fun A _ in0 in1 in2 in3 in4 in5 in6 in7 =>
  let out2 := in3 ^ in7 in let tmp0 := in3 ^ in4 in let tmp1 := in1 ^ in5 in
  let tmp2 := tmp1 ^ in2 in let out4 := tmp2 ^ in0 ^ in7 in let tmp3 := out4 ^ in5 in
  let out5 := tmp3 ^ out2 ^ in6 in let out7 := tmp0 ^ tmp2 in let out6 := tmp0 ^ tmp3 in
  let out3 := tmp1 ^ out5 in let out0 := out3 ^ in4 in let out1 := tmp3 ^ out0 in
  Planes out0 out1 out2 out3 out4 out5 out6 out7.

Definition gf8_muladd_7A : gf8_body := fun A _ in0 in1 in2 in3 in4 in5 in6 in7 =>
  let tmp0 := in1 ^ in2 in let out2 := tmp0 ^ in3 in let tmp1 := out2 ^ in4 in
  let out4 := tmp1 ^ in0 ^ in5 in let out5 := out4 ^ in6 in let out6 := out5 ^ in7 in
  let out7 := out6 ^ in0 in let out0 := out7 ^ in1 in let out1 := tmp0 ^ out6 in
  let out3 := tmp1 ^ out6 in
  Planes out0 out1 out2 out3 out4 out5 out6 out7.

Definition gf8_muladd_7B : gf8_body := fun A _ in0 in1 in2 in3 in4 in5 in6 in7 =>
  let out2 := in1 ^ in3 in let tmp0 := in0 ^ in5 in let out4 := tmp0 ^ out2 ^ in2 in
  let tmp1 := out4 ^ in4 in let out6 := tmp1 ^ in7 in let out5 := tmp1 ^ in5 ^ in6 in
  let out0 := out6 ^ in1 ^ in6 in let tmp2 := out0 ^ in2 in let out1 := tmp2 ^ in1 in
  let out3 := tmp2 ^ in4 in let out7 := tmp0 ^ out5 in
  Planes out0 out1 out2 out3 out4 out5 out6 out7.

Definition gf8_muladd_7C : gf8_body := fun A _ in0 in1 in2 in3 in4 in5 in6 in7 =>
  let tmp0 := in3 ^ in5 in let tmp1 := tmp0 ^ in4 in let out0 := tmp1 ^ in2 in
  let out1 := tmp1 ^ in6 in let out7 := out0 ^ in1 ^ in5 ^ in7 in
  let out5 := out1 ^ out7 ^ in0 in let out3 := out5 ^ in6 in let out6 := tmp0 ^ out5 in
  let out2 := out6 ^ in1 in let out4 := out2 ^ out7 ^ in5 in
  Planes out0 out1 out2 out3 out4 out5 out6 out7.

Definition gf8_muladd_7D : gf8_body := fun A _ in0 in1 in2 in3 in4 in5 in6 in7 =>
  let tmp0 := in1 ^ in2 in let tmp1 := tmp0 ^ in3 in let tmp2 := tmp0 ^ in6 in
  let out7 := tmp1 ^ in4 in let tmp3 := tmp2 ^ in0 in let out5 := tmp3 ^ in7 in
  let out4 := tmp3 ^ in2 ^ in5 in let out2 := tmp1 ^ out5 in let out6 := tmp2 ^ out2 in
  let out0 := out4 ^ out7 ^ in6 in let out1 := tmp3 ^ out0 in let out3 := out6 ^ in5 in
  Planes out0 out1 out2 out3 out4 out5 out6 out7.

Definition gf8_muladd_7E : gf8_body := fun A _ in0 in1 in2 in3 in4 in5 in6 in7 =>
  let tmp0 := in3 ^ in4 in let tmp1 := in0 ^ in5 in let out1 := tmp0 ^ tmp1 ^ in6 in
  let out3 := tmp1 ^ in1 in let out4 := out1 ^ in1 ^ in7 in let tmp2 := out4 ^ in3 in
  let out5 := tmp2 ^ in2 in let out6 := tmp0 ^ out5 in let out7 := tmp1 ^ out4 ^ in2 in
  let out2 := out6 ^ in5 ^ in7 in let out0 := tmp2 ^ out2 in
  Planes out0 out1 out2 out3 out4 out5 out6 out7.

Definition gf8_muladd_7F : gf8_body := fun A _ in0 in1 in2 in3 in4 in5 in6 in7 =>
  let tmp0 := in2 ^ in7 in let tmp1 := tmp0 ^ in3 ^ in5 in let tmp2 := tmp1 ^ in0 in
  let out0 := tmp2 ^ in4 in let out6 := tmp2 ^ in1 in let out3 := tmp0 ^ out6 in
  let tmp3 := out3 ^ in6 in let out1 := tmp3 ^ in4 in let out2 := tmp3 ^ in5 in
  let out4 := tmp3 ^ in7 in let out5 := tmp1 ^ out1 in let out7 := out0 ^ out4 ^ in3 in
  Planes out0 out1 out2 out3 out4 out5 out6 out7.

Definition gf8_muladd_80 : gf8_body := fun A _ in0 in1 in2 in3 in4 in5 in6 in7 =>
  let tmp0 := in2 ^ in3 in let tmp1 := in4 ^ in5 in let out1 := in2 ^ in6 ^ in7 in
  let out5 := tmp0 ^ in4 in let tmp2 := tmp0 ^ in1 in let out6 := tmp1 ^ in3 in
  let out7 := tmp1 ^ in0 ^ in6 in let out4 := tmp2 ^ in7 in let out3 := tmp2 ^ out6 in
  let out2 := out3 ^ out5 ^ in6 in let out0 := out2 ^ in3 ^ in7 in
  Planes out0 out1 out2 out3 out4 out5 out6 out7.

Definition gf8_muladd_81 : gf8_body := fun A _ in0 in1 in2 in3 in4 in5 in6 in7 =>
  let tmp0 := in4 ^ in6 in let tmp1 := tmp0 ^ in3 in let out6 := tmp1 ^ in5 in
  let out5 := out6 ^ in2 ^ in6 in let out3 := out5 ^ in1 in let out2 := tmp0 ^ out3 in
  let out1 := out3 ^ out6 ^ in7 in let out4 := tmp1 ^ out1 in
  let out7 := out2 ^ out4 ^ in0 in let out0 := out7 ^ in1 ^ in4 in
  Planes out0 out1 out2 out3 out4 out5 out6 out7.

Definition gf8_muladd_82 : gf8_body := fun A _ in0 in1 in2 in3 in4 in5 in6 in7 =>
  let out4 := in1 ^ in2 in let tmp0 := in6 ^ in7 in let out5 := in2 ^ in3 in
  let out6 := in3 ^ in4 in let out7 := in0 ^ in4 ^ in5 in let out0 := in1 ^ in5 ^ in6 in
  let out1 := tmp0 ^ in0 ^ in2 in let out2 := tmp0 ^ in3 ^ in5 in
  let out3 := tmp0 ^ out0 ^ in4 in
  Planes out0 out1 out2 out3 out4 out5 out6 out7.

Definition gf8_muladd_83 : gf8_body := fun A _ in0 in1 in2 in3 in4 in5 in6 in7 =>
  let tmp0 := in0 ^ in1 in let tmp1 := in2 ^ in5 in let tmp2 := in3 ^ in6 in
  let out4 := in1 ^ in2 ^ in4 in let out0 := tmp0 ^ in5 ^ in6 in let out5 := tmp1 ^ in3 in
  let tmp3 := tmp1 ^ in7 in let out6 := tmp2 ^ in4 in let out2 := tmp2 ^ tmp3 in
  let tmp4 := tmp3 ^ out4 in let out1 := tmp3 ^ out0 in let out3 := tmp4 ^ in3 in
  let out7 := tmp0 ^ tmp4 in
  Planes out0 out1 out2 out3 out4 out5 out6 out7.

Definition gf8_muladd_84 : gf8_body := fun A _ in0 in1 in2 in3 in4 in5 in6 in7 =>
  let out1 := in2 ^ in6 in let out6 := in3 ^ in5 in let out0 := in1 ^ in5 ^ in7 in
  let out7 := in0 ^ in4 ^ in6 in let out4 := in1 ^ in3 ^ in6 in
  let out5 := in2 ^ in4 ^ in7 in let out2 := out6 ^ in0 ^ in1 in
  let out3 := out5 ^ in5 ^ in6 in
  Planes out0 out1 out2 out3 out4 out5 out6 out7.

Definition gf8_muladd_85 : gf8_body := fun A _ in0 in1 in2 in3 in4 in5 in6 in7 =>
  let tmp0 := in1 ^ in6 in let tmp1 := in3 ^ in6 in let tmp2 := tmp0 ^ in4 in
  let out1 := tmp0 ^ in2 in let out6 := tmp1 ^ in5 in let out4 := tmp2 ^ in3 in
  let tmp3 := out1 ^ out6 in let out2 := tmp3 ^ in0 in let out3 := tmp2 ^ tmp3 ^ in7 in
  let out7 := out2 ^ out3 ^ in1 in let out5 := tmp1 ^ out3 in
  let out0 := tmp2 ^ out7 ^ in5 in
  Planes out0 out1 out2 out3 out4 out5 out6 out7.

Definition gf8_muladd_86 : gf8_body := fun A _ in0 in1 in2 in3 in4 in5 in6 in7 =>
  let out6 := in3 in let out7 := in0 ^ in4 in let out0 := in1 ^ in5 in
  let out5 := in2 ^ in7 in let out3 := in4 ^ in5 ^ in6 in let out1 := in0 ^ in2 ^ in6 in
  let out4 := in1 ^ in6 ^ in7 in let out2 := in0 ^ in3 ^ in5 ^ in7 in
  Planes out0 out1 out2 out3 out4 out5 out6 out7.

Definition gf8_muladd_87 : gf8_body := fun A _ in0 in1 in2 in3 in4 in5 in6 in7 =>
  let out6 := in3 ^ in6 in let tmp0 := in0 ^ in1 in let out7 := in0 ^ in4 ^ in7 in
  let out5 := in2 ^ in5 ^ in7 in let out3 := out6 ^ in4 ^ in5 in let out0 := tmp0 ^ in5 in
  let tmp1 := tmp0 ^ in6 in let out2 := out5 ^ in0 ^ in3 in let out1 := tmp1 ^ in2 in
  let out4 := tmp1 ^ out7 in
  Planes out0 out1 out2 out3 out4 out5 out6 out7.

Definition gf8_muladd_88 : gf8_body := fun A _ in0 in1 in2 in3 in4 in5 in6 in7 =>
  let out1 := in2 ^ in7 in let tmp0 := in5 ^ in6 in let out0 := in1 ^ in6 ^ in7 in
  let out6 := in4 ^ in5 ^ in7 in let out3 := out0 ^ out1 ^ in0 ^ in4 in
  let out7 := tmp0 ^ in0 in let tmp1 := tmp0 ^ in3 in let out2 := out0 ^ in3 in
  let out4 := tmp1 ^ in2 in let out5 := tmp1 ^ out6 in
  Planes out0 out1 out2 out3 out4 out5 out6 out7.

Definition gf8_muladd_89 : gf8_body := fun A _ in0 in1 in2 in3 in4 in5 in6 in7 =>
  let tmp0 := in0 ^ in7 in let tmp1 := in2 ^ in7 in let tmp2 := tmp0 ^ in6 in
  let out1 := tmp1 ^ in1 in let out7 := tmp2 ^ in5 in let out0 := tmp2 ^ in1 in
  let out2 := out1 ^ in3 ^ in6 in let out6 := out7 ^ in0 ^ in4 in
  let out5 := out6 ^ in3 in let out3 := tmp0 ^ out2 ^ in4 in let out4 := tmp1 ^ out5 in
  Planes out0 out1 out2 out3 out4 out5 out6 out7.

Definition gf8_muladd_8A : gf8_body := fun A _ in0 in1 in2 in3 in4 in5 in6 in7 =>
  let out0 := in1 ^ in6 in let out7 := in0 ^ in5 in let out2 := in3 ^ in6 in
  let out6 := in4 ^ in7 in let out1 := in0 ^ in2 ^ in7 in let out3 := out0 ^ out6 ^ in0 in
  let out4 := out1 ^ out7 ^ in6 in let out5 := out2 ^ in7 in
  Planes out0 out1 out2 out3 out4 out5 out6 out7.

Definition gf8_muladd_8B : gf8_body := fun A _ in0 in1 in2 in3 in4 in5 in6 in7 =>
  let tmp0 := in0 ^ in1 in let tmp1 := in3 ^ in6 in let tmp2 := in5 ^ in7 in
  let tmp3 := tmp0 ^ in7 in let out0 := tmp0 ^ in6 in let out2 := tmp1 ^ in2 in
  let out5 := tmp1 ^ tmp2 in let out7 := tmp2 ^ in0 in let tmp4 := tmp3 ^ in4 in
  let out1 := tmp3 ^ in2 in let out6 := tmp4 ^ out0 in let out4 := out6 ^ in2 ^ in5 in
  let out3 := tmp1 ^ tmp4 in
  Planes out0 out1 out2 out3 out4 out5 out6 out7.

Definition gf8_muladd_8C : gf8_body := fun A _ in0 in1 in2 in3 in4 in5 in6 in7 =>
  let out1 := in2 in let out0 := in1 ^ in7 in let out7 := in0 ^ in6 in
  let out5 := in4 ^ in6 in let out6 := in5 ^ in7 in let out2 := out0 ^ in0 ^ in3 in
  let out3 := out5 ^ out7 ^ in2 ^ in7 in let out4 := out6 ^ in3 in
  Planes out0 out1 out2 out3 out4 out5 out6 out7.

Definition gf8_muladd_8D : gf8_body := fun A _ in0 in1 in2 in3 in4 in5 in6 in7 =>
  let out1 := in1 ^ in2 in let tmp0 := in6 ^ in7 in let out0 := in0 ^ in1 ^ in7 in
  let out5 := in4 ^ in5 ^ in6 in let out6 := tmp0 ^ in5 in let out7 := tmp0 ^ in0 in
  let out4 := tmp0 ^ out5 ^ in3 in let out2 := out0 ^ in2 ^ in3 in
  let out3 := out2 ^ in1 ^ in4 in
  Planes out0 out1 out2 out3 out4 out5 out6 out7.

Definition gf8_muladd_8E : gf8_body := fun A _ in0 in1 in2 in3 in4 in5 in6 in7 =>
  let out0 := in1 in let out4 := in5 in let out7 := in0 in let out5 := in6 in
  let out6 := in7 in let out3 := in0 ^ in4 in let out1 := in0 ^ in2 in
  let out2 := in0 ^ in3 in
  Planes out0 out1 out2 out3 out4 out5 out6 out7.

Definition gf8_muladd_8F : gf8_body := fun A _ in0 in1 in2 in3 in4 in5 in6 in7 =>
  let out0 := in0 ^ in1 in let tmp0 := in0 ^ in3 in let out4 := in4 ^ in5 in
  let out7 := in0 ^ in7 in let out5 := in5 ^ in6 in let out6 := in6 ^ in7 in
  let out1 := out0 ^ in2 in let out2 := tmp0 ^ in2 in let out3 := tmp0 ^ in4 in
  Planes out0 out1 out2 out3 out4 out5 out6 out7.

Definition gf8_muladd_90 : gf8_body := fun A _ in0 in1 in2 in3 in4 in5 in6 in7 =>
  let tmp0 := in1 ^ in2 in let tmp1 := in2 ^ in6 ^ in7 in let out3 := tmp0 ^ in7 in
  let out1 := tmp1 ^ in5 in let tmp2 := out1 ^ in4 in let out6 := tmp2 ^ in3 in
  let out5 := out6 ^ in1 in let out4 := out5 ^ in0 in let out0 := tmp0 ^ tmp2 in
  let out7 := tmp0 ^ out4 in let out2 := tmp1 ^ out5 in
  Planes out0 out1 out2 out3 out4 out5 out6 out7.

Definition gf8_muladd_91 : gf8_body := fun A _ in0 in1 in2 in3 in4 in5 in6 in7 =>
  let tmp0 := in2 ^ in4 in let tmp1 := tmp0 ^ in3 ^ in5 in let out2 := tmp1 ^ in1 in
  let out6 := tmp1 ^ in7 in let tmp2 := out2 ^ in5 ^ in7 in let out3 := tmp2 ^ in4 in
  let out5 := tmp2 ^ in6 in let out1 := tmp1 ^ out5 ^ in2 in let tmp3 := out1 ^ in0 in
  let out4 := tmp3 ^ in3 in let out0 := tmp0 ^ tmp3 in let out7 := tmp2 ^ tmp3 in
  Planes out0 out1 out2 out3 out4 out5 out6 out7.

Definition gf8_muladd_92 : gf8_body := fun A _ in0 in1 in2 in3 in4 in5 in6 in7 =>
  let out3 := in1 in let tmp0 := in4 ^ in5 in let tmp1 := tmp0 ^ in1 in
  let out2 := tmp0 ^ in3 ^ in7 in let out0 := tmp1 ^ in6 in let out7 := out2 ^ in0 in
  let out4 := out0 ^ in0 ^ in2 in let out5 := out4 ^ out7 ^ in5 in
  let out6 := tmp1 ^ out5 in let out1 := out6 ^ out7 ^ in7 in
  Planes out0 out1 out2 out3 out4 out5 out6 out7.

Definition gf8_muladd_93 : gf8_body := fun A _ in0 in1 in2 in3 in4 in5 in6 in7 =>
  let out3 := in1 ^ in3 in let tmp0 := in2 ^ in7 in let tmp1 := out3 ^ in6 in
  let tmp2 := tmp0 ^ in4 in let out5 := tmp0 ^ tmp1 in let out6 := tmp2 ^ in3 in
  let out2 := out6 ^ in5 in let out0 := out2 ^ out5 ^ in0 in let out7 := tmp1 ^ out0 in
  let out1 := tmp2 ^ out0 in let out4 := out1 ^ in7 in
  Planes out0 out1 out2 out3 out4 out5 out6 out7.

Definition gf8_muladd_94 : gf8_body := fun A _ in0 in1 in2 in3 in4 in5 in6 in7 =>
  let out3 := in2 ^ in6 in let tmp0 := in1 ^ in4 ^ in5 in let out1 := out3 ^ in5 in
  let out5 := tmp0 ^ out3 in let out0 := tmp0 ^ in7 in let out4 := tmp0 ^ in0 ^ in3 in
  let out6 := out1 ^ in3 ^ in7 in let out2 := out4 ^ in6 in
  let out7 := out0 ^ out2 ^ in4 in
  Planes out0 out1 out2 out3 out4 out5 out6 out7.

Definition gf8_muladd_95 : gf8_body := fun A _ in0 in1 in2 in3 in4 in5 in6 in7 =>
  let tmp0 := in2 ^ in3 in let out3 := tmp0 ^ in6 in let tmp1 := tmp0 ^ in7 in
  let tmp2 := out3 ^ in0 in let out6 := tmp1 ^ in5 in let tmp3 := tmp2 ^ in4 in
  let out7 := tmp3 ^ in2 in let tmp4 := tmp3 ^ in5 in let out2 := tmp4 ^ in1 in
  let tmp5 := out2 ^ in6 in let out0 := tmp1 ^ tmp5 in let out1 := tmp5 ^ out7 in
  let out4 := tmp2 ^ out1 in let out5 := tmp4 ^ out4 in
  Planes out0 out1 out2 out3 out4 out5 out6 out7.

Definition gf8_muladd_96 : gf8_body := fun A _ in0 in1 in2 in3 in4 in5 in6 in7 =>
  let out3 := in6 ^ in7 in let tmp0 := in1 ^ in5 in let tmp1 := in5 ^ in6 in
  let out6 := out3 ^ in2 ^ in3 in let out0 := tmp0 ^ in4 in let tmp2 := tmp1 ^ in2 in
  let out4 := out0 ^ in0 ^ in7 in let out1 := tmp2 ^ in0 in let out5 := tmp2 ^ in1 in
  let out7 := tmp0 ^ out4 ^ in3 in let out2 := tmp1 ^ out7 in
  Planes out0 out1 out2 out3 out4 out5 out6 out7.

Definition gf8_muladd_97 : gf8_body := fun A _ in0 in1 in2 in3 in4 in5 in6 in7 =>
  let tmp0 := in0 ^ in4 in let tmp1 := in2 ^ in6 in let out3 := in3 ^ in6 ^ in7 in
  let out7 := tmp0 ^ in3 in let tmp2 := tmp0 ^ in5 in let out5 := tmp1 ^ in1 in
  let out6 := tmp1 ^ out3 in let out0 := tmp2 ^ in1 in let out2 := tmp2 ^ out3 ^ in2 in
  let tmp3 := out0 ^ in4 in let out4 := tmp3 ^ in7 in let out1 := tmp1 ^ tmp3 in
  Planes out0 out1 out2 out3 out4 out5 out6 out7.

Definition gf8_muladd_98 : gf8_body := fun A _ in0 in1 in2 in3 in4 in5 in6 in7 =>
  let tmp0 := in5 ^ in7 in let tmp1 := in1 ^ in4 ^ in7 in let out1 := tmp0 ^ in2 in
  let out0 := tmp1 ^ in6 in let out2 := tmp1 ^ in3 in let out6 := out0 ^ out1 ^ in1 in
  let out5 := tmp0 ^ out2 in let out3 := tmp1 ^ out6 ^ in0 in
  let out7 := out0 ^ out5 ^ in0 in let out4 := out6 ^ out7 ^ in7 in
  Planes out0 out1 out2 out3 out4 out5 out6 out7.

Definition gf8_muladd_99 : gf8_body := fun A _ in0 in1 in2 in3 in4 in5 in6 in7 =>
  let tmp0 := in0 ^ in3 in let out5 := in1 ^ in3 ^ in4 in let out6 := in2 ^ in4 ^ in5 in
  let out4 := tmp0 ^ in2 in let tmp1 := tmp0 ^ in6 in let tmp2 := out5 ^ in7 in
  let out7 := tmp1 ^ in5 in let out0 := tmp1 ^ tmp2 in let out2 := tmp2 ^ in2 in
  let out3 := out0 ^ out6 ^ in3 in let out1 := tmp1 ^ out3 in
  Planes out0 out1 out2 out3 out4 out5 out6 out7.

Definition gf8_muladd_9A : gf8_body := fun A _ in0 in1 in2 in3 in4 in5 in6 in7 =>
  let out2 := in3 ^ in4 in let tmp0 := in0 ^ in5 in let tmp1 := in1 ^ in6 in
  let out5 := in1 ^ in3 ^ in5 in let tmp2 := tmp0 ^ in7 in let out3 := tmp0 ^ tmp1 in
  let out0 := tmp1 ^ in4 in let out7 := tmp2 ^ in3 in let out1 := tmp2 ^ in2 in
  let out6 := out0 ^ in1 ^ in2 in let out4 := out1 ^ in4 ^ in5 in
  Planes out0 out1 out2 out3 out4 out5 out6 out7.

Definition gf8_muladd_9B : gf8_body := fun A _ in0 in1 in2 in3 in4 in5 in6 in7 =>
  let out5 := in1 ^ in3 in let tmp0 := in3 ^ in5 in let out6 := in2 ^ in4 in
  let out4 := in0 ^ in2 ^ in7 in let out7 := tmp0 ^ in0 in let out2 := out6 ^ in3 in
  let out1 := out4 ^ in1 ^ in5 in let out3 := out7 ^ in1 ^ in6 in
  let out0 := tmp0 ^ out3 ^ in4 in
  Planes out0 out1 out2 out3 out4 out5 out6 out7.

Definition gf8_muladd_9C : gf8_body := fun A _ in0 in1 in2 in3 in4 in5 in6 in7 =>
  let out1 := in2 ^ in5 in let tmp0 := in0 ^ in3 ^ in6 in let out3 := out1 ^ in0 in
  let out6 := out1 ^ in6 in let out7 := tmp0 ^ in7 in let out4 := out7 ^ in4 in
  let out2 := out4 ^ in1 in let out0 := tmp0 ^ out2 in let out5 := out0 ^ in5 in
  Planes out0 out1 out2 out3 out4 out5 out6 out7.

Definition gf8_muladd_9D : gf8_body := fun A _ in0 in1 in2 in3 in4 in5 in6 in7 =>
  let out6 := in2 ^ in5 in let tmp0 := in0 ^ in3 in let out5 := in1 ^ in4 ^ in7 in
  let out1 := out6 ^ in1 in let out3 := tmp0 ^ out6 in let out7 := tmp0 ^ in6 in
  let out0 := out5 ^ in0 in let out4 := out7 ^ in7 in let out2 := out5 ^ out7 ^ in2 in
  Planes out0 out1 out2 out3 out4 out5 out6 out7.

Definition gf8_muladd_9E : gf8_body := fun A _ in0 in1 in2 in3 in4 in5 in6 in7 =>
  let out0 := in1 ^ in4 in let tmp0 := in0 ^ in5 in let out6 := in2 ^ in6 in
  let out7 := in0 ^ in3 ^ in7 in let out4 := in0 ^ in4 ^ in6 in
  let out5 := in1 ^ in5 ^ in7 in let out1 := tmp0 ^ in2 in let out3 := tmp0 ^ in7 in
  let out2 := out4 ^ in3 in
  Planes out0 out1 out2 out3 out4 out5 out6 out7.

Definition gf8_muladd_9F : gf8_body := fun A _ in0 in1 in2 in3 in4 in5 in6 in7 =>
  let out6 := in2 in let out7 := in0 ^ in3 in let tmp0 := in0 ^ in1 in
  let out4 := in0 ^ in6 in let out5 := in1 ^ in7 in let out1 := tmp0 ^ in2 ^ in5 in
  let out2 := out7 ^ in2 ^ in4 ^ in6 in let out3 := out7 ^ in5 ^ in7 in
  let out0 := tmp0 ^ in4 in
  Planes out0 out1 out2 out3 out4 out5 out6 out7.

Definition gf8_muladd_A0 : gf8_body := fun A _ in0 in1 in2 in3 in4 in5 in6 in7 =>
  let tmp0 := in1 ^ in6 in let out2 := tmp0 ^ in7 in let tmp1 := tmp0 ^ in5 in
  let out6 := out2 ^ in3 ^ in4 in let out0 := tmp1 ^ in3 in let tmp2 := out0 ^ in2 in
  let out3 := tmp2 ^ in7 in let tmp3 := tmp2 ^ in1 in let out5 := tmp3 ^ in0 in
  let out4 := tmp3 ^ out6 in let out7 := out5 ^ out6 ^ in1 in let out1 := tmp1 ^ out4 in
  Planes out0 out1 out2 out3 out4 out5 out6 out7.

Definition gf8_muladd_A1 : gf8_body := fun A _ in0 in1 in2 in3 in4 in5 in6 in7 =>
  let tmp0 := in2 ^ in5 in let tmp1 := tmp0 ^ in1 in let tmp2 := tmp0 ^ in4 in
  let out4 := tmp1 ^ in7 in let out7 := tmp2 ^ in0 in let out6 := tmp2 ^ out4 ^ in3 in
  let out3 := out4 ^ in6 in let out2 := out3 ^ in5 in let out1 := out2 ^ in4 in
  let out5 := out1 ^ out6 ^ in0 in let out0 := tmp1 ^ out5 in
  Planes out0 out1 out2 out3 out4 out5 out6 out7.

Definition gf8_muladd_A2 : gf8_body := fun A _ in0 in1 in2 in3 in4 in5 in6 in7 =>
  let out2 := in6 in let tmp0 := in1 ^ in3 ^ in5 in let out3 := tmp0 ^ in6 in
  let out4 := tmp0 ^ in2 ^ in4 in let out0 := out3 ^ in7 in let out6 := out0 ^ in4 in
  let out1 := out0 ^ out4 ^ in0 in let out7 := out1 ^ in5 in
  let out5 := out7 ^ in3 ^ in7 in
  Planes out0 out1 out2 out3 out4 out5 out6 out7.

Definition gf8_muladd_A3 : gf8_body := fun A _ in0 in1 in2 in3 in4 in5 in6 in7 =>
  let out2 := in2 ^ in6 in let out3 := in1 ^ in5 ^ in6 in let tmp0 := out2 ^ in0 in
  let out4 := out2 ^ out3 ^ in3 in let tmp1 := tmp0 ^ in4 in
  let out0 := tmp0 ^ out4 ^ in7 in let out5 := tmp1 ^ in3 in let out7 := tmp1 ^ in5 in
  let out1 := tmp1 ^ in1 ^ in7 in let out6 := tmp1 ^ out0 ^ in2 in
  Planes out0 out1 out2 out3 out4 out5 out6 out7.

Definition gf8_muladd_A4 : gf8_body := fun A _ in0 in1 in2 in3 in4 in5 in6 in7 =>
  let tmp0 := in1 ^ in3 in let tmp1 := in2 ^ in4 in let tmp2 := in2 ^ in5 in
  let tmp3 := in0 ^ in7 in let out0 := tmp0 ^ in5 in let out6 := tmp0 ^ in6 ^ in7 in
  let out1 := tmp1 ^ in6 in let out7 := tmp1 ^ tmp3 in let out3 := tmp2 ^ in3 in
  let tmp4 := tmp2 ^ out1 in let out2 := tmp3 ^ in1 in let out5 := tmp4 ^ out7 in
  let out4 := tmp4 ^ in1 in
  Planes out0 out1 out2 out3 out4 out5 out6 out7.

Definition gf8_muladd_A5 : gf8_body := fun A _ in0 in1 in2 in3 in4 in5 in6 in7 =>
  let out3 := in2 ^ in5 in let tmp0 := in1 ^ in6 in let tmp1 := in0 ^ in1 in
  let tmp2 := in2 ^ in4 in let out6 := in1 ^ in3 ^ in7 in let out4 := tmp0 ^ in5 in
  let out1 := tmp0 ^ tmp2 in let out0 := tmp1 ^ in3 ^ in5 in
  let out2 := tmp1 ^ in2 ^ in7 in let out7 := tmp2 ^ in0 in let out5 := tmp0 ^ out2 in
  Planes out0 out1 out2 out3 out4 out5 out6 out7.

Definition gf8_muladd_A6 : gf8_body := fun A _ in0 in1 in2 in3 in4 in5 in6 in7 =>
  let out2 := in0 in let out3 := in3 ^ in5 ^ in7 in let out1 := in0 ^ in2 ^ in4 ^ in6 in
  let out0 := out3 ^ in1 in let out7 := out1 ^ in7 in let out6 := out0 ^ in6 in
  let out5 := out7 ^ in5 in let out4 := out6 ^ in4 in
  Planes out0 out1 out2 out3 out4 out5 out6 out7.

Definition gf8_muladd_A7 : gf8_body := fun A _ in0 in1 in2 in3 in4 in5 in6 in7 =>
  let out2 := in0 ^ in2 in let out3 := in5 ^ in7 in let out7 := out2 ^ in4 ^ in6 in
  let out6 := out3 ^ in1 ^ in3 in let out1 := out7 ^ in1 in let out5 := out7 ^ in7 in
  let out0 := out6 ^ in0 in let out4 := out6 ^ in6 in
  Planes out0 out1 out2 out3 out4 out5 out6 out7.

Definition gf8_muladd_A8 : gf8_body := fun A _ in0 in1 in2 in3 in4 in5 in6 in7 =>
  let tmp0 := in2 ^ in4 in let tmp1 := in1 ^ in6 in let tmp2 := in0 ^ in2 ^ in7 in
  let out1 := tmp0 ^ in7 in let out4 := tmp0 ^ in6 in let out0 := tmp1 ^ in3 in
  let out2 := tmp1 ^ in5 in let out6 := tmp1 ^ in4 in let out7 := tmp2 ^ in5 in
  let out3 := tmp2 ^ out0 ^ in6 in let out5 := out7 ^ in2 ^ in3 in
  Planes out0 out1 out2 out3 out4 out5 out6 out7.

Definition gf8_muladd_A9 : gf8_body := fun A _ in0 in1 in2 in3 in4 in5 in6 in7 =>
  let out4 := in2 ^ in6 in let out6 := in1 ^ in4 in let out7 := in0 ^ in2 ^ in5 in
  let out5 := in0 ^ in3 ^ in7 in let out2 := out4 ^ in1 ^ in5 in
  let out1 := out6 ^ in2 ^ in7 in let out0 := out2 ^ out7 ^ in3 in
  let out3 := out1 ^ in0 ^ in4 in
  Planes out0 out1 out2 out3 out4 out5 out6 out7.

Definition gf8_muladd_AA : gf8_body := fun A _ in0 in1 in2 in3 in4 in5 in6 in7 =>
  let tmp0 := in0 ^ in2 in let tmp1 := in1 ^ in3 in let tmp2 := in6 ^ in7 in
  let out1 := tmp0 ^ in4 ^ in7 in let out3 := tmp1 ^ in0 in let out0 := tmp1 ^ tmp2 in
  let out2 := tmp2 ^ in5 in let out7 := tmp0 ^ out2 in let out6 := out1 ^ out7 ^ in1 in
  let out5 := out0 ^ out6 ^ in0 in let out4 := out5 ^ out7 ^ in7 in
  Planes out0 out1 out2 out3 out4 out5 out6 out7.

Definition gf8_muladd_AB : gf8_body := fun A _ in0 in1 in2 in3 in4 in5 in6 in7 =>
  let out3 := in0 ^ in1 in let tmp0 := in1 ^ in4 in let tmp1 := in0 ^ in7 in
  let out6 := tmp0 ^ in5 in let out1 := tmp0 ^ tmp1 ^ in2 in
  let out5 := tmp1 ^ in3 ^ in4 in let out0 := tmp0 ^ out5 ^ in6 in
  let out4 := out0 ^ out3 ^ in2 in let out2 := out4 ^ in3 ^ in5 in
  let out7 := tmp1 ^ out2 in
  Planes out0 out1 out2 out3 out4 out5 out6 out7.

Definition gf8_muladd_AC : gf8_body := fun A _ in0 in1 in2 in3 in4 in5 in6 in7 =>
  let out0 := in1 ^ in3 in let out1 := in2 ^ in4 in let tmp0 := in0 ^ in2 in
  let out4 := in4 ^ in7 in let out5 := in0 ^ in5 in let out6 := in1 ^ in6 in
  let out7 := tmp0 ^ in7 in let out3 := tmp0 ^ in3 ^ in6 in let out2 := out5 ^ in1 in
  Planes out0 out1 out2 out3 out4 out5 out6 out7.

Definition gf8_muladd_AD : gf8_body := fun A _ in0 in1 in2 in3 in4 in5 in6 in7 =>
  let out4 := in7 in let out5 := in0 in let out6 := in1 in let out7 := in0 ^ in2 in
  let out0 := in0 ^ in1 ^ in3 in let out2 := out7 ^ in1 ^ in5 in
  let out1 := in1 ^ in2 ^ in4 in let out3 := out7 ^ in6 in
  Planes out0 out1 out2 out3 out4 out5 out6 out7.

Definition gf8_muladd_AE : gf8_body := fun A _ in0 in1 in2 in3 in4 in5 in6 in7 =>
  let out4 := in3 ^ in4 in let tmp0 := in0 ^ in4 in let tmp1 := in0 ^ in7 in
  let out0 := in1 ^ in3 ^ in7 in let out1 := tmp0 ^ in2 in let out5 := tmp0 ^ in5 in
  let tmp2 := tmp1 ^ in6 in let out2 := tmp1 ^ in5 in let out3 := tmp2 ^ in3 in
  let out7 := tmp2 ^ in2 in let out6 := tmp2 ^ out2 ^ in1 in
  Planes out0 out1 out2 out3 out4 out5 out6 out7.

Definition gf8_muladd_AF : gf8_body := fun A _ in0 in1 in2 in3 in4 in5 in6 in7 =>
  let out4 := in3 in let tmp0 := in0 ^ in7 in let out5 := in0 ^ in4 in
  let out6 := in1 ^ in5 in let out7 := in0 ^ in2 ^ in6 in let out0 := tmp0 ^ in1 ^ in3 in
  let out3 := tmp0 ^ in6 in let out2 := tmp0 ^ in2 ^ in5 in
  let out1 := out5 ^ in1 ^ in2 in
  Planes out0 out1 out2 out3 out4 out5 out6 out7.

Definition gf8_muladd_B0 : gf8_body := fun A _ in0 in1 in2 in3 in4 in5 in6 in7 =>
  let tmp0 := in1 ^ in4 in let tmp1 := in3 ^ in6 in let out2 := tmp0 ^ in7 in
  let tmp2 := tmp0 ^ tmp1 in let out0 := tmp2 ^ in5 in let out3 := tmp2 ^ in2 in
  let out6 := out3 ^ in6 in let tmp3 := out6 ^ in0 ^ in1 in let out7 := tmp3 ^ in5 in
  let out5 := tmp3 ^ out2 in let out1 := out0 ^ out5 ^ in0 in let out4 := tmp1 ^ out5 in
  Planes out0 out1 out2 out3 out4 out5 out6 out7.

Definition gf8_muladd_B1 : gf8_body := fun A _ in0 in1 in2 in3 in4 in5 in6 in7 =>
  let tmp0 := in1 ^ in4 in let out2 := tmp0 ^ in2 ^ in7 in let tmp1 := out2 ^ in6 in
  let out1 := tmp1 ^ in5 in let out3 := tmp1 ^ in7 in let out4 := tmp1 ^ in0 in
  let out6 := out3 ^ in3 in let out0 := out6 ^ in0 ^ in2 ^ in5 in
  let out5 := tmp1 ^ out0 ^ in1 in let out7 := tmp0 ^ out5 in
  Planes out0 out1 out2 out3 out4 out5 out6 out7.

Definition gf8_muladd_B2 : gf8_body := fun A _ in0 in1 in2 in3 in4 in5 in6 in7 =>
  let out2 := in4 in let tmp0 := in4 ^ in7 in let tmp1 := in1 ^ in3 ^ in6 in
  let out3 := tmp0 ^ tmp1 in let tmp2 := tmp1 ^ in0 in let out0 := out3 ^ in5 in
  let out4 := tmp2 ^ in2 in let tmp3 := out4 ^ in6 in let out5 := tmp0 ^ tmp3 in
  let out1 := tmp3 ^ out0 in let tmp4 := out1 ^ in7 in let out7 := tmp4 ^ in3 in
  let out6 := tmp2 ^ tmp4 in
  Planes out0 out1 out2 out3 out4 out5 out6 out7.

Definition gf8_muladd_B3 : gf8_body := fun A _ in0 in1 in2 in3 in4 in5 in6 in7 =>
  let out2 := in2 ^ in4 in let tmp0 := in0 ^ in5 in let tmp1 := in1 ^ in6 in
  let out3 := tmp1 ^ in4 ^ in7 in let tmp2 := tmp0 ^ out3 in let out0 := tmp2 ^ in3 in
  let out1 := tmp2 ^ in2 in let out5 := out0 ^ in2 ^ in6 in let out7 := tmp1 ^ out5 in
  let out4 := out7 ^ in1 ^ in5 ^ in7 in let out6 := tmp0 ^ out4 in
  Planes out0 out1 out2 out3 out4 out5 out6 out7.

Definition gf8_muladd_B4 : gf8_body := fun A _ in0 in1 in2 in3 in4 in5 in6 in7 =>
  let out4 := in0 ^ in1 in let out5 := out4 ^ in2 in let tmp0 := out4 ^ in4 in
  let out6 := out5 ^ in0 ^ in3 in let out7 := tmp0 ^ out6 in
  let out2 := tmp0 ^ in6 ^ in7 in let out3 := out7 ^ in0 ^ in7 in
  let out0 := out5 ^ out7 ^ in5 in let out1 := out0 ^ out6 ^ in6 in
  Planes out0 out1 out2 out3 out4 out5 out6 out7.

Definition gf8_muladd_B5 : gf8_body := fun A _ in0 in1 in2 in3 in4 in5 in6 in7 =>
  let tmp0 := in0 ^ in1 in let tmp1 := in2 ^ in4 in let out4 := tmp0 ^ in4 in
  let out3 := tmp1 ^ in7 in let tmp2 := out4 ^ in5 in let out7 := out3 ^ in0 ^ in3 in
  let out0 := tmp2 ^ in3 in let out2 := tmp0 ^ out3 ^ in6 in let out5 := tmp1 ^ tmp2 in
  let out6 := out2 ^ out7 ^ in2 in let out1 := tmp0 ^ out0 ^ out6 in
  Planes out0 out1 out2 out3 out4 out5 out6 out7.

Definition gf8_muladd_B6 : gf8_body := fun A _ in0 in1 in2 in3 in4 in5 in6 in7 =>
  let out3 := in3 ^ in4 in let tmp0 := in1 ^ in2 in let tmp1 := in0 ^ in4 in
  let tmp2 := in3 ^ in5 in let tmp3 := out3 ^ in1 ^ in7 in let out5 := tmp0 ^ tmp1 in
  let out6 := tmp0 ^ tmp2 in let out2 := tmp1 ^ in6 in let out4 := tmp1 ^ tmp3 in
  let out0 := tmp3 ^ in5 in let out1 := out2 ^ in2 ^ in5 in let out7 := tmp2 ^ out1 in
  Planes out0 out1 out2 out3 out4 out5 out6 out7.

Definition gf8_muladd_B7 : gf8_body := fun A _ in0 in1 in2 in3 in4 in5 in6 in7 =>
  let out3 := in4 in let tmp0 := in0 ^ in4 in let out2 := tmp0 ^ in2 ^ in6 in
  let tmp1 := out2 ^ in7 in let out1 := out2 ^ in1 ^ in5 in let out7 := tmp1 ^ in3 in
  let out5 := out1 ^ in6 in let out6 := tmp0 ^ out1 ^ in3 in let out0 := tmp1 ^ out6 in
  let out4 := out0 ^ in5 in
  Planes out0 out1 out2 out3 out4 out5 out6 out7.

Definition gf8_muladd_B8 : gf8_body := fun A _ in0 in1 in2 in3 in4 in5 in6 in7 =>
  let tmp0 := in1 ^ in4 in let tmp1 := in2 ^ in5 in let out2 := tmp0 ^ in5 in
  let out4 := tmp1 ^ in0 in let tmp2 := tmp1 ^ in7 in let out6 := tmp2 ^ out2 in
  let out7 := out4 ^ in3 in let out1 := tmp2 ^ in4 in let out3 := tmp0 ^ out7 in
  let out0 := out3 ^ out4 ^ in6 in let out5 := out0 ^ in0 ^ in4 in
  Planes out0 out1 out2 out3 out4 out5 out6 out7.

Definition gf8_muladd_B9 : gf8_body := fun A _ in0 in1 in2 in3 in4 in5 in6 in7 =>
  let tmp0 := in0 ^ in2 in let tmp1 := in4 ^ in5 in let out4 := tmp0 ^ tmp1 in
  let tmp2 := tmp0 ^ in3 ^ in7 in let out3 := out4 ^ in1 in let out7 := tmp2 ^ in5 in
  let out2 := out3 ^ in0 in let out1 := out2 ^ in7 in let out6 := out1 ^ in5 ^ in6 in
  let out0 := tmp2 ^ out6 in let out5 := tmp1 ^ out0 in
  Planes out0 out1 out2 out3 out4 out5 out6 out7.

Definition gf8_muladd_BA : gf8_body := fun A _ in0 in1 in2 in3 in4 in5 in6 in7 =>
  let tmp0 := in5 ^ in7 in let out2 := tmp0 ^ in4 in let tmp1 := out2 ^ in2 in
  let out1 := tmp1 ^ in0 in let out6 := tmp1 ^ in1 in let out4 := out1 ^ in3 ^ in4 in
  let tmp2 := out4 ^ out6 in let out7 := out4 ^ in6 ^ in7 in let out5 := tmp2 ^ in6 in
  let out3 := tmp0 ^ tmp2 in let out0 := out6 ^ out7 ^ in0 in
  Planes out0 out1 out2 out3 out4 out5 out6 out7.

Definition gf8_muladd_BB : gf8_body := fun A _ in0 in1 in2 in3 in4 in5 in6 in7 =>
  let out2 := in2 ^ in4 ^ in5 ^ in7 in let tmp0 := out2 ^ in1 in
  let out4 := out2 ^ in0 ^ in3 in let out1 := tmp0 ^ in0 in let out6 := tmp0 ^ in6 in
  let out3 := out1 ^ in2 in let tmp1 := out4 ^ out6 ^ in4 in let out0 := tmp1 ^ in7 in
  let out5 := tmp1 ^ in5 in let out7 := tmp0 ^ tmp1 in
  Planes out0 out1 out2 out3 out4 out5 out6 out7.

Definition gf8_muladd_BC : gf8_body := fun A _ in0 in1 in2 in3 in4 in5 in6 in7 =>
  let tmp0 := in0 ^ in2 in let tmp1 := in2 ^ in4 in let out0 := in1 ^ in3 ^ in4 in
  let out6 := in1 ^ in2 ^ in7 in let out7 := tmp0 ^ in3 in
  let out5 := tmp0 ^ out6 ^ in6 in let out1 := tmp1 ^ in5 in
  let tmp2 := out1 ^ out5 ^ in1 in let out3 := tmp2 ^ in3 in let out4 := tmp1 ^ tmp2 in
  let out2 := tmp2 ^ out6 in
  Planes out0 out1 out2 out3 out4 out5 out6 out7.

Definition gf8_muladd_BD : gf8_body := fun A _ in0 in1 in2 in3 in4 in5 in6 in7 =>
  let tmp0 := in0 ^ in3 in let tmp1 := in1 ^ in4 in let out0 := tmp0 ^ tmp1 in
  let out7 := tmp0 ^ in2 ^ in7 in let out1 := tmp1 ^ in2 ^ in5 in
  let tmp2 := out1 ^ in0 in let out2 := tmp2 ^ in6 in let out3 := out2 ^ in1 ^ in7 in
  let out4 := out3 ^ in2 in let out5 := tmp1 ^ out4 in let out6 := tmp2 ^ out4 in
  Planes out0 out1 out2 out3 out4 out5 out6 out7.

Definition gf8_muladd_BE : gf8_body := fun A _ in0 in1 in2 in3 in4 in5 in6 in7 =>
  let tmp0 := in0 ^ in3 ^ in6 in let out4 := tmp0 ^ in5 in let out7 := tmp0 ^ in2 in
  let out3 := out4 ^ in4 in let out1 := out3 ^ out7 ^ in0 in
  let out2 := out3 ^ in3 ^ in7 in let out0 := out2 ^ out4 ^ in1 in
  let out5 := tmp0 ^ out0 in let out6 := out1 ^ out5 ^ in6 in
  Planes out0 out1 out2 out3 out4 out5 out6 out7.

Definition gf8_muladd_BF : gf8_body := fun A _ in0 in1 in2 in3 in4 in5 in6 in7 =>
  let tmp0 := in0 ^ in4 in let out3 := tmp0 ^ in5 ^ in6 in let out4 := out3 ^ in3 in
  let tmp1 := out3 ^ in7 in let out2 := tmp1 ^ in2 in let out5 := tmp1 ^ in1 in
  let tmp2 := out2 ^ in5 in let out7 := tmp2 ^ in3 ^ in4 in let tmp3 := tmp0 ^ out5 in
  let out0 := tmp3 ^ out4 in let out1 := tmp2 ^ tmp3 in let out6 := tmp3 ^ in2 in
  Planes out0 out1 out2 out3 out4 out5 out6 out7.

Definition gf8_muladd_C0 : gf8_body := fun A _ in0 in1 in2 in3 in4 in5 in6 in7 =>
  let out5 := in2 ^ in5 in let tmp0 := in1 ^ in4 in let tmp1 := in3 ^ in6 in
  let out0 := out5 ^ in1 in let out4 := tmp0 ^ in7 in let out3 := tmp0 ^ tmp1 in
  let out1 := tmp1 ^ in2 in let out6 := tmp1 ^ in0 in let out7 := out4 ^ in0 in
  let out2 := out4 ^ out5 ^ in3 in
  Planes out0 out1 out2 out3 out4 out5 out6 out7.

Definition gf8_muladd_C1 : gf8_body := fun A _ in0 in1 in2 in3 in4 in5 in6 in7 =>
  let out5 := in2 in let tmp0 := in0 ^ in1 in let out4 := in1 ^ in7 in
  let out6 := in0 ^ in3 in let out3 := in1 ^ in4 ^ in6 in let tmp1 := tmp0 ^ in2 in
  let out7 := tmp0 ^ in4 in let out0 := tmp1 ^ in5 in let out1 := tmp1 ^ out6 ^ in6 in
  let out2 := out6 ^ out7 ^ in5 ^ in7 in
  Planes out0 out1 out2 out3 out4 out5 out6 out7.

Definition gf8_muladd_C2 : gf8_body := fun A _ in0 in1 in2 in3 in4 in5 in6 in7 =>
  let out4 := in1 ^ in3 ^ in4 in let tmp0 := in0 ^ in3 ^ in6 in
  let out5 := in2 ^ in4 ^ in5 in let tmp1 := out4 ^ in7 in let out1 := tmp0 ^ in2 in
  let out6 := tmp0 ^ in5 in let out2 := out5 ^ in3 in let out7 := tmp0 ^ tmp1 in
  let out3 := tmp1 ^ in2 ^ in6 in let out0 := tmp1 ^ out2 in
  Planes out0 out1 out2 out3 out4 out5 out6 out7.

Definition gf8_muladd_C3 : gf8_body := fun A _ in0 in1 in2 in3 in4 in5 in6 in7 =>
  let out4 := in1 ^ in3 in let tmp0 := in0 ^ in2 in let tmp1 := in3 ^ in5 in
  let out5 := in2 ^ in4 in let tmp2 := tmp0 ^ out4 in let out2 := tmp1 ^ in4 in
  let out6 := tmp1 ^ in0 in let out0 := tmp1 ^ tmp2 ^ in7 in let out1 := tmp2 ^ in6 in
  let out7 := out1 ^ out5 ^ in3 in let out3 := tmp0 ^ out7 ^ in7 in
  Planes out0 out1 out2 out3 out4 out5 out6 out7.

Definition gf8_muladd_C4 : gf8_body := fun A _ in0 in1 in2 in3 in4 in5 in6 in7 =>
  let tmp0 := in3 ^ in7 in let out3 := tmp0 ^ in4 in let tmp1 := tmp0 ^ in2 in
  let out1 := tmp1 ^ in6 in let out5 := tmp1 ^ in5 in let out4 := out1 ^ out3 ^ in1 in
  let out0 := out4 ^ in4 ^ in5 in let out2 := out0 ^ out3 ^ in0 in
  let out7 := out1 ^ out2 ^ in7 in let out6 := tmp1 ^ out0 ^ out7 in
  Planes out0 out1 out2 out3 out4 out5 out6 out7.

Definition gf8_muladd_C5 : gf8_body := fun A _ in0 in1 in2 in3 in4 in5 in6 in7 =>
  let out3 := in4 ^ in7 in let tmp0 := in3 ^ in7 in let out4 := in1 ^ in2 ^ in6 in
  let out6 := in0 ^ in3 ^ in4 in let out5 := tmp0 ^ in2 in let out1 := tmp0 ^ out4 in
  let out0 := out4 ^ in0 ^ in5 in let out2 := out0 ^ out5 ^ in4 in
  let out7 := tmp0 ^ out2 ^ in6 in
  Planes out0 out1 out2 out3 out4 out5 out6 out7.

Definition gf8_muladd_C6 : gf8_body := fun A _ in0 in1 in2 in3 in4 in5 in6 in7 =>
  let tmp0 := in5 ^ in6 in let tmp1 := in1 ^ in7 in let tmp2 := tmp0 ^ in0 in
  let tmp3 := tmp0 ^ tmp1 in let tmp4 := tmp2 ^ in4 in let out0 := tmp3 ^ in2 in
  let out6 := tmp4 ^ in3 in let out2 := out6 ^ in2 in let out7 := tmp1 ^ tmp4 in
  let out3 := tmp2 ^ out2 in let tmp5 := out3 ^ in5 in let out5 := tmp5 ^ in7 in
  let out4 := tmp3 ^ tmp5 in let out1 := tmp4 ^ out5 in
  Planes out0 out1 out2 out3 out4 out5 out6 out7.

Definition gf8_muladd_C7 : gf8_body := fun A _ in0 in1 in2 in3 in4 in5 in6 in7 =>
  let out3 := in2 ^ in4 in let tmp0 := in3 ^ in5 in let tmp1 := out3 ^ in7 in
  let out6 := tmp0 ^ in0 ^ in4 in let out5 := tmp1 ^ in3 in let out2 := out6 ^ in6 in
  let out7 := out2 ^ in1 ^ in3 in let out0 := tmp1 ^ out7 in let out1 := tmp0 ^ out0 in
  let out4 := out1 ^ in0 in
  Planes out0 out1 out2 out3 out4 out5 out6 out7.

Definition gf8_muladd_C8 : gf8_body := fun A _ in0 in1 in2 in3 in4 in5 in6 in7 =>
  let out0 := in1 ^ in2 in let out1 := in2 ^ in3 in let tmp0 := in5 ^ in6 in
  let tmp1 := in0 ^ in7 in let out2 := out1 ^ in1 ^ in4 in let out4 := tmp0 ^ in4 in
  let out5 := tmp0 ^ in7 in let out6 := tmp1 ^ in6 in let out7 := tmp1 ^ in1 in
  let out3 := out2 ^ in0 ^ in2 ^ in5 in
  Planes out0 out1 out2 out3 out4 out5 out6 out7.

Definition gf8_muladd_C9 : gf8_body := fun A _ in0 in1 in2 in3 in4 in5 in6 in7 =>
  let out4 := in5 ^ in6 in let out7 := in0 ^ in1 in let tmp0 := in1 ^ in3 in
  let out5 := in6 ^ in7 in let out6 := in0 ^ in7 in let out0 := out7 ^ in2 in
  let out3 := out7 ^ in4 ^ in5 in let out1 := tmp0 ^ in2 in let out2 := tmp0 ^ in4 in
  Planes out0 out1 out2 out3 out4 out5 out6 out7.

Definition gf8_muladd_CA : gf8_body := fun A _ in0 in1 in2 in3 in4 in5 in6 in7 =>
  let tmp0 := in0 ^ in7 in let tmp1 := in2 ^ in7 in let tmp2 := tmp0 ^ in6 in
  let out0 := tmp1 ^ in1 in let tmp3 := tmp1 ^ in3 in let out6 := tmp2 ^ in5 in
  let out7 := tmp2 ^ in1 in let out2 := tmp3 ^ in4 in let out5 := out6 ^ in0 ^ in4 in
  let out4 := out5 ^ in3 in let out1 := tmp0 ^ tmp3 in let out3 := tmp3 ^ out5 ^ out7 in
  Planes out0 out1 out2 out3 out4 out5 out6 out7.

Definition gf8_muladd_CB : gf8_body := fun A _ in0 in1 in2 in3 in4 in5 in6 in7 =>
  let tmp0 := in4 ^ in7 in let tmp1 := in5 ^ in7 in let out7 := in0 ^ in1 ^ in6 in
  let out5 := tmp0 ^ in6 in let out2 := tmp0 ^ in3 in let out6 := tmp1 ^ in0 in
  let out4 := tmp1 ^ in3 ^ in6 in let tmp2 := out5 ^ out7 ^ in2 in
  let out1 := tmp2 ^ out2 in let out0 := tmp2 ^ in4 in let out3 := tmp2 ^ in5 in
  Planes out0 out1 out2 out3 out4 out5 out6 out7.

Definition gf8_muladd_CC : gf8_body := fun A _ in0 in1 in2 in3 in4 in5 in6 in7 =>
  let tmp0 := in3 ^ in5 in let tmp1 := in1 ^ in6 in let out1 := in2 ^ in3 ^ in7 in
  let out5 := tmp0 ^ in6 in let out0 := tmp1 ^ in2 in let tmp2 := out5 ^ in0 ^ in7 in
  let out3 := tmp2 ^ in4 in let out6 := tmp0 ^ out3 in let out7 := tmp1 ^ tmp2 ^ in3 in
  let tmp3 := out1 ^ out6 in let out4 := tmp2 ^ tmp3 in let out2 := tmp3 ^ in1 in
  Planes out0 out1 out2 out3 out4 out5 out6 out7.

Definition gf8_muladd_CD : gf8_body := fun A _ in0 in1 in2 in3 in4 in5 in6 in7 =>
  let out5 := in3 ^ in6 in let tmp0 := in0 ^ in1 in let tmp1 := in2 ^ in7 in
  let out6 := in0 ^ in4 ^ in7 in let out2 := tmp0 ^ out5 ^ in4 in
  let out7 := tmp0 ^ in5 in let out0 := tmp0 ^ in2 ^ in6 in let out4 := tmp1 ^ in5 in
  let out1 := tmp1 ^ in1 ^ in3 in let out3 := out6 ^ in5 ^ in6 in
  Planes out0 out1 out2 out3 out4 out5 out6 out7.

Definition gf8_muladd_CE : gf8_body := fun A _ in0 in1 in2 in3 in4 in5 in6 in7 =>
  let tmp0 := in2 ^ in5 in let tmp1 := tmp0 ^ in3 in let out4 := tmp1 ^ in4 in
  let tmp2 := out4 ^ in6 in let out3 := tmp2 ^ in0 in let out5 := tmp2 ^ in2 in
  let out2 := out3 ^ in5 ^ in7 in let out6 := tmp1 ^ out2 in
  let out7 := out2 ^ out4 ^ in1 in let out1 := tmp2 ^ out6 in
  let out0 := tmp0 ^ out7 ^ in0 in
  Planes out0 out1 out2 out3 out4 out5 out6 out7.

Definition gf8_muladd_CF : gf8_body := fun A _ in0 in1 in2 in3 in4 in5 in6 in7 =>
  let tmp0 := in3 ^ in6 in let tmp1 := in0 ^ in1 ^ in5 in let out4 := in2 ^ in3 ^ in5 in
  let out5 := tmp0 ^ in4 in let out7 := tmp1 ^ in6 in let out1 := tmp1 ^ out4 ^ in7 in
  let tmp2 := out5 ^ in0 in let out2 := tmp2 ^ in7 in let out3 := tmp2 ^ out4 in
  let out6 := tmp0 ^ out2 ^ in5 in let out0 := tmp0 ^ out1 in
  Planes out0 out1 out2 out3 out4 out5 out6 out7.

Definition gf8_muladd_D0 : gf8_body := fun A _ in0 in1 in2 in3 in4 in5 in6 in7 =>
  let tmp0 := in0 ^ in3 in let tmp1 := in1 ^ in4 in let tmp2 := in2 ^ in5 in
  let out7 := tmp0 ^ tmp1 in let out0 := tmp1 ^ tmp2 in let tmp3 := tmp2 ^ in3 in
  let out1 := tmp3 ^ in6 in let tmp4 := out1 ^ in1 in let out2 := tmp4 ^ in7 in
  let out3 := out2 ^ in2 in let out4 := tmp0 ^ out3 in let out5 := tmp3 ^ out3 in
  let out6 := tmp4 ^ out4 in
  Planes out0 out1 out2 out3 out4 out5 out6 out7.

Definition gf8_muladd_D1 : gf8_body := fun A _ in0 in1 in2 in3 in4 in5 in6 in7 =>
  let tmp0 := in3 ^ in5 ^ in6 in let tmp1 := tmp0 ^ in1 in let out1 := tmp1 ^ in2 in
  let out2 := tmp1 ^ in7 in let out3 := out2 ^ in3 in let out5 := out3 ^ in2 in
  let tmp2 := out3 ^ in0 in let out4 := tmp2 ^ in4 in let out7 := tmp0 ^ out4 in
  let out6 := tmp2 ^ out1 ^ in6 in let out0 := out2 ^ out6 ^ in4 in
  Planes out0 out1 out2 out3 out4 out5 out6 out7.

Definition gf8_muladd_D2 : gf8_body := fun A _ in0 in1 in2 in3 in4 in5 in6 in7 =>
  let tmp0 := in5 ^ in6 in let out2 := tmp0 ^ in2 ^ in3 in let out1 := out2 ^ in0 in
  let out3 := out2 ^ in1 in let out4 := out1 ^ in1 ^ in2 in
  let out6 := out1 ^ in6 ^ in7 in let out7 := out4 ^ in4 ^ in5 in
  let out5 := out4 ^ out6 ^ in4 in let out0 := tmp0 ^ out5 in
  Planes out0 out1 out2 out3 out4 out5 out6 out7.

Definition gf8_muladd_D3 : gf8_body := fun A _ in0 in1 in2 in3 in4 in5 in6 in7 =>
  let out2 := in3 ^ in5 ^ in6 in let tmp0 := out2 ^ in2 in let tmp1 := tmp0 ^ in1 in
  let out1 := tmp1 ^ in0 in let out3 := tmp1 ^ in3 in let out4 := out1 ^ in2 ^ in4 in
  let tmp2 := out4 ^ in5 in let out7 := tmp2 ^ in7 in let out0 := tmp0 ^ out7 in
  let tmp3 := out0 ^ in0 in let out5 := tmp3 ^ in6 in let out6 := tmp2 ^ tmp3 in
  Planes out0 out1 out2 out3 out4 out5 out6 out7.

Definition gf8_muladd_D4 : gf8_body := fun A _ in0 in1 in2 in3 in4 in5 in6 in7 =>
  let out3 := in3 ^ in5 in let tmp0 := in1 ^ in5 in let tmp1 := tmp0 ^ in2 in
  let out4 := tmp1 ^ in0 in let tmp2 := tmp1 ^ in6 in let out2 := out4 ^ in3 ^ in7 in
  let out0 := tmp2 ^ in4 in let out5 := tmp2 ^ out3 in let out1 := tmp0 ^ out5 ^ in7 in
  let out6 := tmp0 ^ out2 ^ in4 in let out7 := tmp1 ^ out6 ^ in7 in
  Planes out0 out1 out2 out3 out4 out5 out6 out7.

Definition gf8_muladd_D5 : gf8_body := fun A _ in0 in1 in2 in3 in4 in5 in6 in7 =>
  let out3 := in5 in let tmp0 := in0 ^ in4 in let tmp1 := tmp0 ^ in1 ^ in5 in
  let out4 := tmp1 ^ in2 in let out0 := out4 ^ in6 in let tmp2 := tmp0 ^ out0 in
  let out5 := tmp2 ^ in3 in let out1 := out5 ^ in7 in let out6 := tmp1 ^ out1 in
  let out7 := tmp2 ^ out6 in let out2 := out7 ^ in4 in
  Planes out0 out1 out2 out3 out4 out5 out6 out7.

Definition gf8_muladd_D6 : gf8_body := fun A _ in0 in1 in2 in3 in4 in5 in6 in7 =>
  let tmp0 := in1 ^ in2 ^ in4 ^ in6 in let out5 := tmp0 ^ in3 in
  let out0 := tmp0 ^ in5 ^ in7 in let out3 := out0 ^ out5 ^ in2 in
  let tmp1 := out3 ^ in0 in let out1 := tmp1 ^ in6 in let out2 := tmp1 ^ in7 in
  let out4 := tmp1 ^ in1 in let out6 := tmp1 ^ in4 in let out7 := tmp0 ^ out2 in
  Planes out0 out1 out2 out3 out4 out5 out6 out7.

Definition gf8_muladd_D7 : gf8_body := fun A _ in0 in1 in2 in3 in4 in5 in6 in7 =>
  let tmp0 := in0 ^ in3 in let out3 := in2 ^ in5 ^ in7 in let out2 := tmp0 ^ in5 in
  let tmp1 := tmp0 ^ out3 ^ in1 in let out1 := tmp1 ^ in6 in let out4 := tmp1 ^ in4 in
  let tmp2 := out1 ^ in4 in let out6 := tmp2 ^ in1 in let out7 := tmp2 ^ in2 in
  let out0 := tmp2 ^ in3 in let out5 := tmp2 ^ in0 ^ in7 in
  Planes out0 out1 out2 out3 out4 out5 out6 out7.

Definition gf8_muladd_D8 : gf8_body := fun A _ in0 in1 in2 in3 in4 in5 in6 in7 =>
  let out4 := in0 in let out5 := in1 in let tmp0 := in1 ^ in2 in let out6 := in0 ^ in2 in
  let out0 := tmp0 ^ in4 in let tmp1 := tmp0 ^ in3 in let out7 := tmp1 ^ out6 in
  let out2 := tmp1 ^ in6 in let out3 := out7 ^ in7 in let out1 := tmp1 ^ in1 ^ in5 in
  Planes out0 out1 out2 out3 out4 out5 out6 out7.

Definition gf8_muladd_D9 : gf8_body := fun A _ in0 in1 in2 in3 in4 in5 in6 in7 =>
  let out4 := in0 ^ in4 in let out5 := in1 ^ in5 in let out2 := in1 ^ in3 ^ in6 in
  let out3 := in0 ^ in1 ^ in7 in let out6 := in0 ^ in2 ^ in6 in
  let out0 := out4 ^ in1 ^ in2 in let out1 := out5 ^ in2 ^ in3 in
  let out7 := out3 ^ in3 in
  Planes out0 out1 out2 out3 out4 out5 out6 out7.

Definition gf8_muladd_DA : gf8_body := fun A _ in0 in1 in2 in3 in4 in5 in6 in7 =>
  let out5 := in1 ^ in4 in let tmp0 := in2 ^ in7 in let tmp1 := in0 ^ in2 ^ in3 in
  let out0 := tmp0 ^ out5 in let out4 := tmp0 ^ tmp1 in let out2 := tmp0 ^ in3 ^ in6 in
  let out1 := tmp1 ^ in5 in let out3 := tmp1 ^ in1 in let out6 := out1 ^ in3 in
  let out7 := out3 ^ in2 ^ in6 in
  Planes out0 out1 out2 out3 out4 out5 out6 out7.

Definition gf8_muladd_DB : gf8_body := fun A _ in0 in1 in2 in3 in4 in5 in6 in7 =>
  let tmp0 := in0 ^ in1 in let tmp1 := in1 ^ in5 in let tmp2 := in3 ^ in7 in
  let out3 := tmp0 ^ in2 in let out5 := tmp1 ^ in4 in let out6 := tmp1 ^ out3 ^ in6 in
  let out2 := tmp2 ^ in6 in let tmp3 := tmp2 ^ in4 in let tmp4 := out3 ^ in3 in
  let out4 := tmp3 ^ in0 in let out1 := tmp4 ^ in5 in let out0 := tmp3 ^ tmp4 in
  let out7 := tmp0 ^ out2 in
  Planes out0 out1 out2 out3 out4 out5 out6 out7.

Definition gf8_muladd_DC : gf8_body := fun A _ in0 in1 in2 in3 in4 in5 in6 in7 =>
  let tmp0 := in0 ^ in2 in let tmp1 := in0 ^ in3 in let out6 := tmp0 ^ in4 in
  let tmp2 := tmp0 ^ in7 in let out3 := tmp1 ^ in6 in let tmp3 := tmp1 ^ in1 in
  let out1 := tmp1 ^ tmp2 ^ in5 in let out4 := tmp2 ^ in6 in let out2 := tmp3 ^ in2 in
  let out7 := tmp3 ^ in5 in let out5 := tmp2 ^ out2 in let out0 := out2 ^ out3 ^ in4 in
  Planes out0 out1 out2 out3 out4 out5 out6 out7.

Definition gf8_muladd_DD : gf8_body := fun A _ in0 in1 in2 in3 in4 in5 in6 in7 =>
  let out3 := in0 ^ in6 in let out2 := in0 ^ in1 ^ in3 in let out6 := out3 ^ in2 ^ in4 in
  let out7 := out2 ^ in5 ^ in7 in let out0 := out6 ^ in1 in let out4 := out6 ^ in7 in
  let out5 := out7 ^ in0 in let out1 := out5 ^ in2 in
  Planes out0 out1 out2 out3 out4 out5 out6 out7.

Definition gf8_muladd_DE : gf8_body := fun A _ in0 in1 in2 in3 in4 in5 in6 in7 =>
  let tmp0 := in2 ^ in3 ^ in6 in let tmp1 := in3 ^ in4 ^ in7 in let out4 := tmp0 ^ in0 in
  let out5 := tmp1 ^ in1 in let out3 := out4 ^ in7 in let out2 := out3 ^ in6 in
  let out1 := out2 ^ in5 in let out6 := tmp1 ^ out1 in let out0 := tmp0 ^ out5 in
  let out7 := out0 ^ out1 ^ in4 in
  Planes out0 out1 out2 out3 out4 out5 out6 out7.

Definition gf8_muladd_DF : gf8_body := fun A _ in0 in1 in2 in3 in4 in5 in6 in7 =>
  let out2 := in0 ^ in3 ^ in7 in let tmp0 := out2 ^ in1 ^ in5 in let out1 := tmp0 ^ in2 in
  let out7 := tmp0 ^ in6 in let out5 := tmp0 ^ in0 ^ in4 in
  let tmp1 := out1 ^ out5 ^ in6 in let out4 := tmp1 ^ in3 in let out6 := tmp1 ^ in5 in
  let tmp2 := tmp1 ^ in7 in let out0 := tmp2 ^ in1 in let out3 := tmp2 ^ in4 in
  Planes out0 out1 out2 out3 out4 out5 out6 out7.

Definition gf8_muladd_E0 : gf8_body := fun A _ in0 in1 in2 in3 in4 in5 in6 in7 =>
  let out3 := in1 ^ in7 in let tmp0 := in2 ^ in4 in let out4 := out3 ^ in3 ^ in5 in
  let out2 := tmp0 ^ in1 in let tmp1 := tmp0 ^ in6 in let out0 := out4 ^ in2 in
  let out6 := out4 ^ in0 in let out1 := tmp1 ^ in3 in let out5 := tmp1 ^ in0 in
  let out7 := out5 ^ in1 in
  Planes out0 out1 out2 out3 out4 out5 out6 out7.

Definition gf8_muladd_E1 : gf8_body := fun A _ in0 in1 in2 in3 in4 in5 in6 in7 =>
  let out2 := in1 ^ in4 in let tmp0 := in1 ^ in7 in let out3 := tmp0 ^ in3 in
  let tmp1 := out3 ^ in5 in let out4 := tmp1 ^ in4 in let tmp2 := tmp1 ^ in0 in
  let out0 := tmp2 ^ in2 in let out6 := tmp2 ^ in6 in let tmp3 := out0 ^ out4 ^ in6 in
  let out5 := tmp3 ^ in5 in let out7 := tmp0 ^ tmp3 in let out1 := tmp2 ^ out5 ^ in7 in
  Planes out0 out1 out2 out3 out4 out5 out6 out7.

Definition gf8_muladd_E2 : gf8_body := fun A _ in0 in1 in2 in3 in4 in5 in6 in7 =>
  let out3 := in1 ^ in2 in let out4 := in1 ^ in5 in let out2 := in2 ^ in4 ^ in7 in
  let out5 := in0 ^ in2 ^ in6 in let out0 := out3 ^ in3 ^ in5 in
  let out7 := out3 ^ in0 ^ in4 in let out6 := out2 ^ out7 ^ in3 in
  let out1 := out5 ^ in3 ^ in4 in
  Planes out0 out1 out2 out3 out4 out5 out6 out7.

Definition gf8_muladd_E3 : gf8_body := fun A _ in0 in1 in2 in3 in4 in5 in6 in7 =>
  let out2 := in4 ^ in7 in let tmp0 := in1 ^ in3 in let out3 := tmp0 ^ in2 in
  let tmp1 := out3 ^ in0 in let out0 := tmp1 ^ in5 in let tmp2 := tmp1 ^ in4 in
  let out1 := tmp2 ^ in6 in let tmp3 := tmp2 ^ in3 in let out7 := tmp3 ^ in7 in
  let out6 := out1 ^ out2 ^ in2 in let tmp4 := tmp0 ^ out0 in let out5 := tmp4 ^ in6 in
  let out4 := tmp3 ^ tmp4 in
  Planes out0 out1 out2 out3 out4 out5 out6 out7.

Definition gf8_muladd_E4 : gf8_body := fun A _ in0 in1 in2 in3 in4 in5 in6 in7 =>
  let out3 := in6 in let tmp0 := in0 ^ in4 in let tmp1 := tmp0 ^ in2 ^ in6 in
  let out2 := tmp1 ^ in1 in let out7 := out2 ^ in5 in let tmp2 := tmp0 ^ out7 in
  let out4 := tmp2 ^ in3 in let out0 := out4 ^ in7 in let out6 := tmp1 ^ out0 in
  let out5 := tmp2 ^ out6 in let out1 := out5 ^ in0 in
  Planes out0 out1 out2 out3 out4 out5 out6 out7.

Definition gf8_muladd_E5 : gf8_body := fun A _ in0 in1 in2 in3 in4 in5 in6 in7 =>
  let out3 := in3 ^ in6 in let tmp0 := in0 ^ in1 in let tmp1 := in5 ^ in7 in
  let out2 := tmp0 ^ in4 ^ in6 in let tmp2 := tmp1 ^ out2 in let out6 := tmp2 ^ in3 in
  let out7 := tmp2 ^ in2 in let out0 := out6 ^ in2 ^ in4 in
  let out5 := out6 ^ in1 ^ in2 in let out1 := tmp0 ^ out5 ^ in5 in
  let out4 := tmp1 ^ out1 in
  Planes out0 out1 out2 out3 out4 out5 out6 out7.

Definition gf8_muladd_E6 : gf8_body := fun A _ in0 in1 in2 in3 in4 in5 in6 in7 =>
  let out3 := in2 ^ in6 ^ in7 in let out2 := out3 ^ in0 ^ in4 in
  let out4 := out3 ^ in1 ^ in5 in let out1 := out2 ^ in3 in
  let out7 := out2 ^ out4 ^ in2 in let out0 := out4 ^ in3 ^ in7 in
  let out5 := out1 ^ in4 in let out6 := out0 ^ out2 ^ in5 in
  Planes out0 out1 out2 out3 out4 out5 out6 out7.

Definition gf8_muladd_E7 : gf8_body := fun A _ in0 in1 in2 in3 in4 in5 in6 in7 =>
  let tmp0 := in2 ^ in3 in let out3 := tmp0 ^ in6 ^ in7 in let tmp1 := out3 ^ in0 in
  let out5 := tmp1 ^ in5 in let tmp2 := tmp1 ^ in4 in let tmp3 := out5 ^ in7 in
  let out1 := tmp2 ^ in1 in let out0 := tmp3 ^ in1 in let out6 := out1 ^ in2 in
  let out2 := tmp0 ^ tmp2 in let tmp4 := tmp3 ^ out6 in let out4 := tmp4 ^ in6 in
  let out7 := tmp4 ^ in0 in
  Planes out0 out1 out2 out3 out4 out5 out6 out7.

Definition gf8_muladd_E8 : gf8_body := fun A _ in0 in1 in2 in3 in4 in5 in6 in7 =>
  let out4 := in3 ^ in6 in let tmp0 := in4 ^ in7 in let out1 := in2 ^ in3 ^ in4 in
  let out5 := tmp0 ^ in0 in let tmp1 := tmp0 ^ in1 in let tmp2 := tmp1 ^ in5 in
  let out0 := tmp1 ^ out1 in let out2 := tmp2 ^ in2 in let out6 := tmp2 ^ out5 in
  let tmp3 := out6 ^ in6 in let out3 := tmp3 ^ in7 in let out7 := tmp3 ^ in2 ^ in5 in
  Planes out0 out1 out2 out3 out4 out5 out6 out7.

Definition gf8_muladd_E9 : gf8_body := fun A _ in0 in1 in2 in3 in4 in5 in6 in7 =>
  let tmp0 := in0 ^ in1 in let tmp1 := in3 ^ in6 in let tmp2 := tmp0 ^ in6 in
  let out4 := tmp1 ^ in4 in let out6 := tmp2 ^ in5 in let out7 := tmp2 ^ in2 ^ in7 in
  let out3 := out6 ^ in3 ^ in7 in let out0 := tmp1 ^ out7 in
  let out2 := out3 ^ out4 ^ in0 in let out5 := tmp0 ^ out2 in
  let out1 := out0 ^ out5 ^ in5 in
  Planes out0 out1 out2 out3 out4 out5 out6 out7.

Definition gf8_muladd_EA : gf8_body := fun A _ in0 in1 in2 in3 in4 in5 in6 in7 =>
  let out4 := in6 ^ in7 in let out5 := in0 ^ in7 in let out6 := in0 ^ in1 in
  let out0 := in1 ^ in2 ^ in3 in let out2 := in2 ^ in4 ^ in5 in let out7 := out6 ^ in2 in
  let out1 := out0 ^ out6 ^ in4 in let out3 := out7 ^ in5 ^ in6 in
  Planes out0 out1 out2 out3 out4 out5 out6 out7.

Definition gf8_muladd_EB : gf8_body := fun A _ in0 in1 in2 in3 in4 in5 in6 in7 =>
  let out2 := in4 ^ in5 in let tmp0 := in0 ^ in1 in let out4 := in4 ^ in6 ^ in7 in
  let out5 := in0 ^ in5 ^ in7 in let out6 := tmp0 ^ in6 in let tmp1 := tmp0 ^ in2 in
  let out0 := tmp1 ^ in3 in let out7 := tmp1 ^ in7 in let out1 := out0 ^ in4 in
  let out3 := out0 ^ in5 ^ in6 in
  Planes out0 out1 out2 out3 out4 out5 out6 out7.

Definition gf8_muladd_EC : gf8_body := fun A _ in0 in1 in2 in3 in4 in5 in6 in7 =>
  let out3 := in0 ^ in5 in let out4 := in2 ^ in3 ^ in7 in let out5 := in0 ^ in3 ^ in4 in
  let out6 := out3 ^ in1 ^ in4 in let out1 := out4 ^ in4 in
  let out0 := out4 ^ in1 ^ in6 in let out2 := out0 ^ out5 ^ in5 in
  let out7 := out2 ^ in4 ^ in7 in
  Planes out0 out1 out2 out3 out4 out5 out6 out7.

Definition gf8_muladd_ED : gf8_body := fun A _ in0 in1 in2 in3 in4 in5 in6 in7 =>
  let tmp0 := in2 ^ in4 in let tmp1 := in3 ^ in5 in let out4 := tmp0 ^ in3 ^ in7 in
  let out3 := tmp1 ^ in0 in let out1 := out4 ^ in1 in let out5 := out3 ^ in4 in
  let out7 := out1 ^ out5 ^ in6 in let out2 := tmp0 ^ out7 in let out0 := tmp1 ^ out7 in
  let out6 := out2 ^ in7 in
  Planes out0 out1 out2 out3 out4 out5 out6 out7.

Definition gf8_muladd_EE : gf8_body := fun A _ in0 in1 in2 in3 in4 in5 in6 in7 =>
  let out4 := in2 in let tmp0 := in0 ^ in1 in let out5 := in0 ^ in3 in
  let tmp1 := tmp0 ^ in2 in let out6 := tmp0 ^ in4 in let tmp2 := tmp1 ^ out5 in
  let out7 := tmp1 ^ in5 in let out1 := tmp2 ^ out6 ^ in7 in let out0 := tmp2 ^ in6 in
  let tmp3 := out7 ^ in1 in let out3 := tmp3 ^ in7 in let out2 := tmp3 ^ in4 ^ in6 in
  Planes out0 out1 out2 out3 out4 out5 out6 out7.

Definition gf8_muladd_EF : gf8_body := fun A _ in0 in1 in2 in3 in4 in5 in6 in7 =>
  let out4 := in2 ^ in4 in let tmp0 := in0 ^ in5 in let tmp1 := in4 ^ in6 in
  let out5 := tmp0 ^ in3 in let out2 := tmp0 ^ tmp1 in let out6 := tmp1 ^ in0 ^ in1 in
  let out3 := out5 ^ in2 ^ in7 in let out7 := out3 ^ in1 ^ in3 in
  let out0 := out4 ^ out6 ^ in3 in let out1 := tmp1 ^ out0 ^ in7 in
  Planes out0 out1 out2 out3 out4 out5 out6 out7.

Definition gf8_muladd_F0 : gf8_body := fun A _ in0 in1 in2 in3 in4 in5 in6 in7 =>
  let tmp0 := in1 ^ in2 in let tmp1 := in4 ^ in5 in let out2 := tmp0 ^ in6 in
  let out3 := tmp1 ^ in1 in let tmp2 := tmp1 ^ in7 in let out1 := out2 ^ out3 ^ in3 in
  let tmp3 := tmp0 ^ tmp2 in let out0 := tmp3 ^ in3 in let out5 := tmp3 ^ in0 in
  let out4 := out1 ^ out5 ^ in4 in let out7 := out4 ^ in2 in let out6 := tmp2 ^ out7 in
  Planes out0 out1 out2 out3 out4 out5 out6 out7.

Definition gf8_muladd_F1 : gf8_body := fun A _ in0 in1 in2 in3 in4 in5 in6 in7 =>
  let out2 := in1 ^ in6 in let tmp0 := in3 ^ in5 in let out3 := tmp0 ^ in1 ^ in4 in
  let tmp1 := out3 ^ in2 in let out1 := tmp1 ^ in6 in let tmp2 := tmp1 ^ in0 in
  let tmp3 := out1 ^ in5 in let out0 := tmp2 ^ in7 in let out6 := tmp2 ^ in4 in
  let out7 := tmp3 ^ in0 in let out5 := tmp0 ^ out0 in let out4 := tmp3 ^ out5 ^ in1 in
  Planes out0 out1 out2 out3 out4 out5 out6 out7.

Definition gf8_muladd_F2 : gf8_body := fun A _ in0 in1 in2 in3 in4 in5 in6 in7 =>
  let tmp0 := in4 ^ in5 in let out2 := in2 ^ in6 ^ in7 in let tmp1 := tmp0 ^ in1 in
  let tmp2 := tmp1 ^ in2 in let out0 := tmp2 ^ in3 in let out3 := tmp2 ^ in7 in
  let out5 := out3 ^ in0 ^ in4 in let tmp3 := tmp0 ^ out5 in let out7 := tmp3 ^ in3 in
  let out4 := tmp3 ^ out2 in let out1 := out0 ^ out4 ^ in4 in let out6 := tmp1 ^ out1 in
  Planes out0 out1 out2 out3 out4 out5 out6 out7.

Definition gf8_muladd_F3 : gf8_body := fun A _ in0 in1 in2 in3 in4 in5 in6 in7 =>
  let out2 := in6 ^ in7 in let tmp0 := in0 ^ in1 in let out4 := tmp0 ^ in6 in
  let tmp1 := tmp0 ^ in2 in let out5 := tmp1 ^ in7 in let out6 := tmp1 ^ in3 in
  let out7 := out6 ^ in4 in let out0 := out7 ^ in5 in let out1 := out0 ^ in6 in
  let out3 := out0 ^ in0 ^ in7 in
  Planes out0 out1 out2 out3 out4 out5 out6 out7.

Definition gf8_muladd_F4 : gf8_body := fun A _ in0 in1 in2 in3 in4 in5 in6 in7 =>
  let out2 := in0 ^ in1 ^ in2 in let tmp0 := out2 ^ in3 in let out4 := tmp0 ^ in4 in
  let out5 := out4 ^ in5 in let out6 := out5 ^ in6 in let out7 := out6 ^ in7 in
  let out0 := out7 ^ in0 in let out1 := out0 ^ in1 in let out3 := tmp0 ^ out7 in
  Planes out0 out1 out2 out3 out4 out5 out6 out7.

Definition gf8_muladd_F5 : gf8_body := fun A _ in0 in1 in2 in3 in4 in5 in6 in7 =>
  let out2 := in0 ^ in1 in let tmp0 := out2 ^ in2 in let out4 := tmp0 ^ in3 in
  let out5 := out4 ^ in4 in let out6 := out5 ^ in5 in let out7 := out6 ^ in6 in
  let out0 := out7 ^ in7 in let out1 := out0 ^ in0 in let out3 := tmp0 ^ out0 in
  Planes out0 out1 out2 out3 out4 out5 out6 out7.

Definition gf8_muladd_F6 : gf8_body := fun A _ in0 in1 in2 in3 in4 in5 in6 in7 =>
  let tmp0 := in0 ^ in7 in let out2 := tmp0 ^ in2 in let out4 := out2 ^ in1 ^ in4 in
  let out7 := out4 ^ in3 ^ in5 in let out5 := out7 ^ in4 ^ in7 in
  let out0 := tmp0 ^ out7 ^ in6 in let tmp1 := out0 ^ in1 in
  let out6 := out0 ^ in0 ^ in5 in let out3 := tmp1 ^ in3 in let out1 := tmp0 ^ tmp1 in
  Planes out0 out1 out2 out3 out4 out5 out6 out7.

Definition gf8_muladd_F7 : gf8_body := fun A _ in0 in1 in2 in3 in4 in5 in6 in7 =>
  let out2 := in0 ^ in7 in let tmp0 := out2 ^ in1 in let out4 := tmp0 ^ in2 in
  let out5 := out4 ^ in3 ^ in7 in let out6 := out5 ^ in4 in let out7 := out6 ^ in5 in
  let out0 := out7 ^ in6 in let out1 := out0 ^ in7 in let out3 := tmp0 ^ out1 in
  Planes out0 out1 out2 out3 out4 out5 out6 out7.

Definition gf8_muladd_F8 : gf8_body := fun A _ in0 in1 in2 in3 in4 in5 in6 in7 =>
  let tmp0 := in0 ^ in4 in let tmp1 := in3 ^ in5 in let tmp2 := tmp0 ^ in6 in
  let out4 := tmp0 ^ tmp1 in let out1 := tmp1 ^ in2 ^ in4 in let out3 := tmp2 ^ in1 in
  let out5 := out3 ^ in5 in let out7 := out1 ^ out5 ^ in7 in let out6 := tmp1 ^ out7 in
  let out0 := tmp2 ^ out7 in let out2 := out6 ^ in0 in
  Planes out0 out1 out2 out3 out4 out5 out6 out7.

Definition gf8_muladd_F9 : gf8_body := fun A _ in0 in1 in2 in3 in4 in5 in6 in7 =>
  let tmp0 := in3 ^ in5 in let tmp1 := in0 ^ in6 in let out4 := tmp0 ^ in0 in
  let tmp2 := tmp1 ^ in4 in let tmp3 := tmp1 ^ in2 in let out5 := tmp2 ^ in1 in
  let out3 := out5 ^ in3 in let tmp4 := tmp3 ^ out3 in let out1 := tmp4 ^ in5 in
  let out0 := tmp4 ^ in0 ^ in7 in let out6 := tmp0 ^ out0 ^ in4 in
  let out7 := tmp2 ^ tmp4 in let out2 := tmp3 ^ out6 in
  Planes out0 out1 out2 out3 out4 out5 out6 out7.

Definition gf8_muladd_FA : gf8_body := fun A _ in0 in1 in2 in3 in4 in5 in6 in7 =>
  let tmp0 := in0 ^ in1 in let tmp1 := tmp0 ^ in2 in let tmp2 := tmp0 ^ in5 in
  let tmp3 := tmp1 ^ in7 in let out5 := tmp2 ^ in6 in let out6 := tmp3 ^ in6 in
  let out7 := tmp3 ^ in3 in let out3 := out6 ^ in4 in let out2 := tmp1 ^ out5 in
  let out4 := out2 ^ out3 ^ in1 in let out0 := out4 ^ out7 ^ in5 in
  let out1 := tmp2 ^ out0 in
  Planes out0 out1 out2 out3 out4 out5 out6 out7.

Definition gf8_muladd_FB : gf8_body := fun A _ in0 in1 in2 in3 in4 in5 in6 in7 =>
  let out2 := in5 ^ in6 in let tmp0 := in0 ^ in1 in let out4 := in0 ^ in5 ^ in7 in
  let out5 := tmp0 ^ in6 in let tmp1 := tmp0 ^ in2 in let out6 := tmp1 ^ in7 in
  let out7 := tmp1 ^ in3 in let out0 := out7 ^ in4 in let out1 := out0 ^ in5 in
  let out3 := out0 ^ in6 ^ in7 in
  Planes out0 out1 out2 out3 out4 out5 out6 out7.

Definition gf8_muladd_FC : gf8_body := fun A _ in0 in1 in2 in3 in4 in5 in6 in7 =>
  let tmp0 := in1 ^ in2 in let tmp1 := in0 ^ in7 in let out2 := tmp0 ^ tmp1 ^ in5 in
  let out3 := tmp1 ^ in4 in let tmp2 := out2 ^ in6 in let out6 := tmp2 ^ in4 in
  let out7 := tmp2 ^ in3 in let out4 := out6 ^ in1 ^ in3 in let tmp3 := out4 ^ in0 in
  let out1 := tmp3 ^ in6 in let out0 := tmp3 ^ in1 ^ in5 in let out5 := tmp0 ^ out4 in
  Planes out0 out1 out2 out3 out4 out5 out6 out7.

Definition gf8_muladd_FD : gf8_body := fun A _ in0 in1 in2 in3 in4 in5 in6 in7 =>
  let tmp0 := in0 ^ in5 in let tmp1 := in1 ^ in7 in let out2 := tmp0 ^ tmp1 in
  let out6 := out2 ^ in2 ^ in4 in let tmp2 := out6 ^ in0 in let out1 := tmp2 ^ in3 in
  let out0 := tmp0 ^ out1 ^ in6 in let out5 := out0 ^ in2 in let tmp3 := out5 ^ in1 in
  let out3 := tmp3 ^ in6 in let out7 := tmp2 ^ tmp3 in let out4 := tmp1 ^ out7 in
  Planes out0 out1 out2 out3 out4 out5 out6 out7.

Definition gf8_muladd_FE : gf8_body := fun A _ in0 in1 in2 in3 in4 in5 in6 in7 =>
  let tmp0 := in0 ^ in2 in let out2 := tmp0 ^ in5 in let out3 := tmp0 ^ in4 in
  let tmp1 := out3 ^ in6 in let out4 := tmp1 ^ in5 in let tmp2 := tmp1 ^ in1 in
  let out6 := tmp2 ^ in7 in let tmp3 := tmp2 ^ in0 in let out0 := tmp3 ^ in3 in
  let tmp4 := out0 ^ out4 ^ in7 in let out5 := tmp4 ^ in6 in let out7 := tmp4 ^ in2 in
  let out1 := tmp3 ^ out5 in
  Planes out0 out1 out2 out3 out4 out5 out6 out7.

Definition gf8_muladd_FF : gf8_body := fun A _ in0 in1 in2 in3 in4 in5 in6 in7 =>
  let out2 := in0 ^ in5 in let tmp0 := in4 ^ in7 in let tmp1 := out2 ^ in2 in
  let out4 := tmp1 ^ in6 in let out7 := tmp1 ^ in1 ^ in3 in let out1 := tmp0 ^ out7 in
  let tmp2 := out1 ^ in5 in let out6 := tmp2 ^ in3 in let tmp3 := tmp2 ^ in7 in
  let out0 := tmp3 ^ in6 in let out3 := tmp3 ^ in1 in let out5 := tmp0 ^ out0 ^ in2 in
  Planes out0 out1 out2 out3 out4 out5 out6 out7.

(** ** The table of kernels *)

Definition gf8_bodies : list gf8_body := [
  gf8_muladd_02; gf8_muladd_03; gf8_muladd_04; gf8_muladd_05; gf8_muladd_06;
  gf8_muladd_07; gf8_muladd_08; gf8_muladd_09; gf8_muladd_0A; gf8_muladd_0B;
  gf8_muladd_0C; gf8_muladd_0D; gf8_muladd_0E; gf8_muladd_0F; gf8_muladd_10;
  gf8_muladd_11; gf8_muladd_12; gf8_muladd_13; gf8_muladd_14; gf8_muladd_15;
  gf8_muladd_16; gf8_muladd_17; gf8_muladd_18; gf8_muladd_19; gf8_muladd_1A;
  gf8_muladd_1B; gf8_muladd_1C; gf8_muladd_1D; gf8_muladd_1E; gf8_muladd_1F;
  gf8_muladd_20; gf8_muladd_21; gf8_muladd_22; gf8_muladd_23; gf8_muladd_24;
  gf8_muladd_25; gf8_muladd_26; gf8_muladd_27; gf8_muladd_28; gf8_muladd_29;
  gf8_muladd_2A; gf8_muladd_2B; gf8_muladd_2C; gf8_muladd_2D; gf8_muladd_2E;
  gf8_muladd_2F; gf8_muladd_30; gf8_muladd_31; gf8_muladd_32; gf8_muladd_33;
  gf8_muladd_34; gf8_muladd_35; gf8_muladd_36; gf8_muladd_37; gf8_muladd_38;
  gf8_muladd_39; gf8_muladd_3A; gf8_muladd_3B; gf8_muladd_3C; gf8_muladd_3D;
  gf8_muladd_3E; gf8_muladd_3F; gf8_muladd_40; gf8_muladd_41; gf8_muladd_42;
  gf8_muladd_43; gf8_muladd_44; gf8_muladd_45; gf8_muladd_46; gf8_muladd_47;
  gf8_muladd_48; gf8_muladd_49; gf8_muladd_4A; gf8_muladd_4B; gf8_muladd_4C;
  gf8_muladd_4D; gf8_muladd_4E; gf8_muladd_4F; gf8_muladd_50; gf8_muladd_51;
  gf8_muladd_52; gf8_muladd_53; gf8_muladd_54; gf8_muladd_55; gf8_muladd_56;
  gf8_muladd_57; gf8_muladd_58; gf8_muladd_59; gf8_muladd_5A; gf8_muladd_5B;
  gf8_muladd_5C; gf8_muladd_5D; gf8_muladd_5E; gf8_muladd_5F; gf8_muladd_60;
  gf8_muladd_61; gf8_muladd_62; gf8_muladd_63; gf8_muladd_64; gf8_muladd_65;
  gf8_muladd_66; gf8_muladd_67; gf8_muladd_68; gf8_muladd_69; gf8_muladd_6A;
  gf8_muladd_6B; gf8_muladd_6C; gf8_muladd_6D; gf8_muladd_6E; gf8_muladd_6F;
  gf8_muladd_70; gf8_muladd_71; gf8_muladd_72; gf8_muladd_73; gf8_muladd_74;
  gf8_muladd_75; gf8_muladd_76; gf8_muladd_77; gf8_muladd_78; gf8_muladd_79;
  gf8_muladd_7A; gf8_muladd_7B; gf8_muladd_7C; gf8_muladd_7D; gf8_muladd_7E;
  gf8_muladd_7F; gf8_muladd_80; gf8_muladd_81; gf8_muladd_82; gf8_muladd_83;
  gf8_muladd_84; gf8_muladd_85; gf8_muladd_86; gf8_muladd_87; gf8_muladd_88;
  gf8_muladd_89; gf8_muladd_8A; gf8_muladd_8B; gf8_muladd_8C; gf8_muladd_8D;
  gf8_muladd_8E; gf8_muladd_8F; gf8_muladd_90; gf8_muladd_91; gf8_muladd_92;
  gf8_muladd_93; gf8_muladd_94; gf8_muladd_95; gf8_muladd_96; gf8_muladd_97;
  gf8_muladd_98; gf8_muladd_99; gf8_muladd_9A; gf8_muladd_9B; gf8_muladd_9C;
  gf8_muladd_9D; gf8_muladd_9E; gf8_muladd_9F; gf8_muladd_A0; gf8_muladd_A1;
  gf8_muladd_A2; gf8_muladd_A3; gf8_muladd_A4; gf8_muladd_A5; gf8_muladd_A6;
  gf8_muladd_A7; gf8_muladd_A8; gf8_muladd_A9; gf8_muladd_AA; gf8_muladd_AB;
  gf8_muladd_AC; gf8_muladd_AD; gf8_muladd_AE; gf8_muladd_AF; gf8_muladd_B0;
  gf8_muladd_B1; gf8_muladd_B2; gf8_muladd_B3; gf8_muladd_B4; gf8_muladd_B5;
  gf8_muladd_B6; gf8_muladd_B7; gf8_muladd_B8; gf8_muladd_B9; gf8_muladd_BA;
  gf8_muladd_BB; gf8_muladd_BC; gf8_muladd_BD; gf8_muladd_BE; gf8_muladd_BF;
  gf8_muladd_C0; gf8_muladd_C1; gf8_muladd_C2; gf8_muladd_C3; gf8_muladd_C4;
  gf8_muladd_C5; gf8_muladd_C6; gf8_muladd_C7; gf8_muladd_C8; gf8_muladd_C9;
  gf8_muladd_CA; gf8_muladd_CB; gf8_muladd_CC; gf8_muladd_CD; gf8_muladd_CE;
  gf8_muladd_CF; gf8_muladd_D0; gf8_muladd_D1; gf8_muladd_D2; gf8_muladd_D3;
  gf8_muladd_D4; gf8_muladd_D5; gf8_muladd_D6; gf8_muladd_D7; gf8_muladd_D8;
  gf8_muladd_D9; gf8_muladd_DA; gf8_muladd_DB; gf8_muladd_DC; gf8_muladd_DD;
  gf8_muladd_DE; gf8_muladd_DF; gf8_muladd_E0; gf8_muladd_E1; gf8_muladd_E2;
  gf8_muladd_E3; gf8_muladd_E4; gf8_muladd_E5; gf8_muladd_E6; gf8_muladd_E7;
  gf8_muladd_E8; gf8_muladd_E9; gf8_muladd_EA; gf8_muladd_EB; gf8_muladd_EC;
  gf8_muladd_ED; gf8_muladd_EE; gf8_muladd_EF; gf8_muladd_F0; gf8_muladd_F1;
  gf8_muladd_F2; gf8_muladd_F3; gf8_muladd_F4; gf8_muladd_F5; gf8_muladd_F6;
  gf8_muladd_F7; gf8_muladd_F8; gf8_muladd_F9; gf8_muladd_FA; gf8_muladd_FB;
  gf8_muladd_FC; gf8_muladd_FD; gf8_muladd_FE; gf8_muladd_FF].

Definition gf8_muladd : list (chunk -> chunk -> chunk) :=
  gf8_muladd_00 :: gf8_muladd_01 :: (muladd_loop <$> gf8_bodies).
