(* ===== verification/EcBodies.v ===== *)
(** * The bodies of the kernels multiply by their constant

    The text of a body only copies and xors, so it commutes with every
    homomorphism of xor ([natural]); on bits it is therefore additive, and
    checking it on the eight powers of two decides that it multiplies. *)
From S2P Require Import Prelude GF256 EcCodeC.
#[local] Open Scope gf8_scope.

(** ** Naturality: a body commutes with the homomorphisms of xor *)

Definition pmap {A B} (h : A -> B) (p : planes A) : planes B :=
  Planes (h (out0 p)) (h (out1 p)) (h (out2 p)) (h (out3 p))
         (h (out4 p)) (h (out5 p)) (h (out6 p)) (h (out7 p)).

Definition natural (f : gf8_body) : Prop :=
  forall A B (XA : Xor A) (XB : Xor B) (h : A -> B),
    (forall x y, h (x ^ y) = h x ^ h y) ->
    forall p, pmap h (run_body f p) = run_body f (pmap h p).

Ltac natural_tac :=
  let h := fresh "h" in let Hh := fresh "Hh" in
  intros ? ? ? ? h Hh [? ? ? ? ? ? ? ?];
  match goal with |- pmap h (run_body ?f _) = _ => unfold f end;
  cbv [run_body pmap out0 out1 out2 out3 out4 out5 out6 out7];
  rewrite ?Hh; reflexivity.

Lemma gf8_bodies_natural : Forall natural gf8_bodies.
Proof. unfold gf8_bodies. repeat (apply Forall_cons; split; [natural_tac|]). apply Forall_nil_2. Qed.

#[export] Instance xor_pair {A} `{Xor A} : Xor (A * A) := fun p q => (p.1 ^ q.1, p.2 ^ q.2).

(** A natural body is additive on bits. *)
Lemma natural_additive f (p q : planes bool) :
  natural f -> run_body f (pxor p q) = pxor (run_body f p) (run_body f q).
Proof.
  intros Hf.
  pose (pq := Planes (out0 p, out0 q) (out1 p, out1 q) (out2 p, out2 q) (out3 p, out3 q)
                     (out4 p, out4 q) (out5 p, out5 q) (out6 p, out6 q) (out7 p, out7 q)).
  assert (E : pmap (fun z => z.1 ^ z.2) (run_body f pq) = run_body f (pxor p q)).
  { rewrite (Hf _ _ _ xor_bit); [done|]. intros [x1 x2] [y1 y2]. by destruct x1, x2, y1, y2. }
  rewrite <- E.
  assert (E1 : pmap fst (run_body f pq) = run_body f p).
  { rewrite (Hf _ _ _ xor_bit); [by destruct p|done]. }
  assert (E2 : pmap snd (run_body f pq) = run_body f q).
  { rewrite (Hf _ _ _ xor_bit); [by destruct q|done]. }
  by rewrite <- E1, <- E2.
Qed.

(** ** Bytes and planes of bits *)

Definition pack (p : planes bool) : Z :=
  let bit (b : bool) k := if b then (2 ^ k)%Z else 0 in
  Z.lxor (bit (out0 p) 0) (Z.lxor (bit (out1 p) 1) (Z.lxor (bit (out2 p) 2) (Z.lxor (bit (out3 p) 3)
    (Z.lxor (bit (out4 p) 4) (Z.lxor (bit (out5 p) 5) (Z.lxor (bit (out6 p) 6) (bit (out7 p) 7))))))).

Definition unpack (a : Z) : planes bool :=
  Planes (Z.testbit a 0) (Z.testbit a 1) (Z.testbit a 2) (Z.testbit a 3)
         (Z.testbit a 4) (Z.testbit a 5) (Z.testbit a 6) (Z.testbit a 7).

Lemma unpack_pack p : unpack (pack p) = p.
Proof. destruct p as [[] [] [] [] [] [] [] []]; by vm_compute. Qed.

Lemma pack_in8 p : in8 (pack p).
Proof. destruct p as [[] [] [] [] [] [] [] []]; by vm_compute. Qed.

Lemma if_xorb (b c : bool) v : (if b ^ c then v else 0) = Z.lxor (if b then v else 0) (if c then v else 0).
Proof. destruct b, c; simpl; by rewrite ?Z.lxor_0_r, ?Z.lxor_nilpotent. Qed.

Lemma lxor_4 a b c d : Z.lxor (Z.lxor a b) (Z.lxor c d) = Z.lxor (Z.lxor a c) (Z.lxor b d).
Proof. rewrite !Z.lxor_assoc. f_equal. by rewrite <- !Z.lxor_assoc, (Z.lxor_comm b c). Qed.

Lemma pack_pxor p q : pack (pxor p q) = Z.lxor (pack p) (pack q).
Proof.
  unfold pack, pxor. cbn [out0 out1 out2 out3 out4 out5 out6 out7]. rewrite !if_xorb.
  symmetry. do 7 (rewrite lxor_4; f_equal).
Qed.

Lemma unpack_lxor a b : unpack (Z.lxor a b) = pxor (unpack a) (unpack b).
Proof. unfold unpack, pxor. cbn [out0 out1 out2 out3 out4 out5 out6 out7]. by rewrite !Z.lxor_spec. Qed.

(** ** The bodies multiply by their constant *)

Definition basis : list Z := [0; 1; 2; 4; 8; 16; 32; 64; 128].

Definition body_ok (c : Z) (f : gf8_body) : bool :=
  forallb (fun a => pack (run_body f (unpack a)) =? gmul c a) basis.

Lemma bodies_check :
  forallb (fun '(c, f) => body_ok c f) (zip (Z.of_nat <$> seq 2 254) gf8_bodies) = true.
Proof. vm_compute. reflexivity. Qed.

Lemma body_mul c f a :
  gf8_bodies !! c = Some f -> in8 a ->
  pack (run_body f (unpack a)) = gmul (Z.of_nat c + 2) a.
Proof.
  intros Hf.
  assert (Hc : body_ok (Z.of_nat c + 2) f = true).
  { pose proof bodies_check as H. rewrite forallb_forall in H.
    apply (H (Z.of_nat c + 2, f)), list_elem_of_In, (list_elem_of_lookup_2 _ c), lookup_zip_Some.
    split; [|done]. rewrite list_lookup_fmap_Some. exists (2 + c)%nat.
    apply lookup_lt_Some in Hf. change (length gf8_bodies) with 254%nat in Hf.
    split; [lia|]. apply lookup_seq. lia. }
  unfold body_ok in Hc. rewrite forallb_forall in Hc.
  assert (Hb : forall a, In a basis -> pack (run_body f (unpack a)) = gmul (Z.of_nat c + 2) a)
    by (intros; apply Z.eqb_eq, Hc; done).
  pose proof (Forall_lookup_1 _ _ _ _ gf8_bodies_natural Hf) as Hn.
  revert a. apply basis_ind; try (apply Hb; simpl; tauto).
  intros a b Ha Hb'. by rewrite unpack_lxor, natural_additive, pack_pxor, Ha, Hb', gmul_lxor_r.
Qed.
