(* ===== verification/EcMuladd.v ===== *)
(** * Correctness of the multiply-and-add kernels *)
From S2P Require Import Prelude GF256 EcCodeC EcBodies.

(** ** Chunks of field elements *)

Definition word (w : Z) : Prop := 0 <= w < 2 ^ 64.

Record chunk_ok (c : chunk) : Prop := {
  chunk_length : length c = CHUNK_WORDS;
  chunk_words : Forall word c }.

(** The field element at bit [t] of the words at position [i] of the planes. *)
Definition celem (c : chunk) (i : nat) (t : Z) : Z :=
  pack (pmap (fun w => Z.testbit w t) (column c i)).

Lemma in8_celem c i t : in8 (celem c i t).
Proof. apply pack_in8. Qed.
#[export] Hint Resolve in8_celem : gf.

Lemma length_set_column c i p : length (set_column c i p) = length c.
Proof. unfold set_column. by rewrite !length_insert. Qed.

Lemma total_insert (c : chunk) i j w :
  (i < length c)%nat -> <[i := w]> c !!! j = if decide (i = j) then w else c !!! j.
Proof.
  intros Hi. case_decide; subst; [by apply list_lookup_total_insert_eq|].
  by apply list_lookup_total_insert_ne.
Qed.

Lemma column_set_column c i j p :
  length c = CHUNK_WORDS -> (i < WIDTH)%nat -> (j < WIDTH)%nat ->
  column (set_column c i p) j = if decide (i = j) then p else column c j.
Proof.
  intros Hl Hi Hj. unfold CHUNK_WORDS, WIDTH, EC_METHOD_WORD_SIZE in *. simpl in Hl, Hi, Hj.
  assert (E : forall k, (k < 8)%nat -> set_column c i p !!! (8 * k + j)%nat =
     if decide (i = j)
     then match k with 0%nat => out0 p | 1%nat => out1 p | 2%nat => out2 p | 3%nat => out3 p
          | 4%nat => out4 p | 5%nat => out5 p | 6%nat => out6 p | _ => out7 p end
     else c !!! (8 * k + j)%nat).
  { intros k Hk. unfold set_column. cbv [WIDTH EC_METHOD_WORD_SIZE].
    change (64 / 8)%nat with 8%nat.
    rewrite !total_insert by (rewrite ?length_insert; lia).
    repeat case_decide; try lia; try done;
      do 8 (destruct k as [|k]; [first [reflexivity | lia]|]); lia. }
  unfold column. cbv [WIDTH EC_METHOD_WORD_SIZE]. change (64 / 8)%nat with 8%nat.
  pose proof (E 0%nat ltac:(lia)) as E0. pose proof (E 1%nat ltac:(lia)) as E1.
  pose proof (E 2%nat ltac:(lia)) as E2. pose proof (E 3%nat ltac:(lia)) as E3.
  pose proof (E 4%nat ltac:(lia)) as E4. pose proof (E 5%nat ltac:(lia)) as E5.
  pose proof (E 6%nat ltac:(lia)) as E6. pose proof (E 7%nat ltac:(lia)) as E7.
  cbn [Nat.mul Nat.add] in *. rewrite E0, E1, E2, E3, E4, E5, E6, E7.
  case_decide; [by destruct p|done].
Qed.

(** The loop shared by the kernels. *)
Definition col_loop (g : nat -> planes Z -> planes Z) (n : nat) (out : chunk) : chunk :=
  fold_left (fun out i => set_column out i (g i (column out i))) (seq 0 n) out.

Lemma col_loop_S g n out :
  col_loop g (S n) out = set_column (col_loop g n out) n (g n (column (col_loop g n out) n)).
Proof. unfold col_loop. by rewrite seq_S, fold_left_app. Qed.

Lemma length_col_loop g n out : length (col_loop g n out) = length out.
Proof. induction n; [done|]. by rewrite col_loop_S, length_set_column. Qed.

Lemma col_loop_column g n out j :
  length out = CHUNK_WORDS -> (n <= WIDTH)%nat -> (j < WIDTH)%nat ->
  column (col_loop g n out) j = if decide (j < n)%nat then g j (column out j) else column out j.
Proof.
  intros Hl. revert j. induction n as [|n IH]; intros j Hn Hj; [done|].
  rewrite col_loop_S, column_set_column by (rewrite ?length_col_loop; lia).
  rewrite (IH n), (IH j) by lia. rewrite (decide_False (P := (n < n)%nat)) by lia.
  repeat case_decide; subst; done || lia.
Qed.

Lemma muladd_loop_col f out inp :
  muladd_loop f out inp = col_loop (fun i p => pxor (run_body f p) (column inp i)) WIDTH out.
Proof. unfold muladd_loop, gf8_muladd_01, col_loop. reflexivity. Qed.

Lemma gf8_muladd_01_col out inp :
  gf8_muladd_01 out inp = col_loop (fun i p => pxor p (column inp i)) WIDTH out.
Proof. unfold muladd_loop, gf8_muladd_01, col_loop. reflexivity. Qed.

Lemma pmap_pxor (h : Z -> bool) p q :
  (forall x y : Z, h (xor x y) = xor (h x) (h y)) -> pmap h (pxor p q) = pxor (pmap h p) (pmap h q).
Proof. intros Hh. unfold pmap, pxor. cbn. by rewrite !Hh. Qed.

Lemma testbit_xor t (x y : Z) : Z.testbit (xor x y) t = xor (Z.testbit x t) (Z.testbit y t).
Proof. exact (Z.lxor_spec x y t). Qed.

(** ** Words stay words *)

Definition pall {A} (P : A -> Prop) (p : planes A) : Prop :=
  P (out0 p) /\ P (out1 p) /\ P (out2 p) /\ P (out3 p) /\
  P (out4 p) /\ P (out5 p) /\ P (out6 p) /\ P (out7 p).

Lemma word_lxor x y : word x -> word y -> word (xor x y).
Proof. exact (lxor_range 64 x y ltac:(lia)). Qed.

Definition sword : Type := { w : Z | word w }.

#[local] Instance xor_sword : Xor sword :=
  fun x y => exist _ (xor (`x) (`y)) (word_lxor _ _ (proj2_sig x) (proj2_sig y)).

(** A natural body maps words to words: it also runs on the subset type. *)
Lemma natural_words f p : natural f -> pall word p -> pall word (run_body f p).
Proof.
  intros Hf (H0 & H1 & H2 & H3 & H4 & H5 & H6 & H7).
  pose (q := Planes (exist word _ H0) (exist word _ H1) (exist word _ H2) (exist word _ H3)
                    (exist word _ H4) (exist word _ H5) (exist word _ H6) (exist word _ H7)).
  assert (E : pmap proj1_sig (run_body f q) = run_body f p).
  { rewrite (Hf _ _ _ xor_word); [by destruct p|done]. }
  rewrite <- E. unfold pall, pmap. cbn.
  do 7 (split; [exact (proj2_sig _)|]). exact (proj2_sig _).
Qed.

Lemma pall_pxor p q : pall word p -> pall word q -> pall word (pxor p q).
Proof. unfold pall, pxor. cbn. intros (?&?&?&?&?&?&?&?) (?&?&?&?&?&?&?&?).
  do 7 (split; [by apply word_lxor|]). by apply word_lxor. Qed.

Lemma word_0 : word 0.
Proof. unfold word. lia. Qed.

Lemma pall_column c i : Forall word c -> pall word (column c i).
Proof.
  intros H. assert (E : forall k : nat, word (c !!! k)).
  { intros k. destruct (c !! k) as [w|] eqn:Ek.
    - rewrite (list_lookup_total_correct _ _ _ Ek). by eapply Forall_lookup_1.
    - rewrite list_lookup_total_alt, Ek. vm_compute. split; congruence. }
  unfold pall, column. cbn. do 7 (split; [apply E|]). apply E.
Qed.

Lemma words_set_column c i p : Forall word c -> pall word p -> Forall word (set_column c i p).
Proof.
  intros Hc (?&?&?&?&?&?&?&?). unfold set_column. by repeat apply Forall_insert.
Qed.

Lemma words_col_loop g n out :
  (forall i p, pall word p -> pall word (g i p)) -> Forall word out -> Forall word (col_loop g n out).
Proof.
  intros Hg Ho. induction n; [done|]. rewrite col_loop_S.
  by apply words_set_column, Hg, pall_column.
Qed.

Lemma chunk_muladd_loop f out inp :
  natural f -> chunk_ok out -> chunk_ok inp -> chunk_ok (muladd_loop f out inp).
Proof.
  intros Hf [Hl Hw] [_ Hi]. rewrite muladd_loop_col. split; [by rewrite length_col_loop|].
  apply words_col_loop; [|done]. intros. by apply pall_pxor, pall_column; [apply natural_words|].
Qed.

Lemma celem_muladd_loop f c out inp i t :
  gf8_bodies !! c = Some f -> chunk_ok out -> (i < WIDTH)%nat ->
  celem (muladd_loop f out inp) i t
  = Z.lxor (gmul (Z.of_nat c + 2) (celem out i t)) (celem inp i t).
Proof.
  intros Hf [Hl _] Hi.
  pose proof (Forall_lookup_1 _ _ _ _ gf8_bodies_natural Hf) as Hn.
  unfold celem. rewrite muladd_loop_col, col_loop_column, decide_True by lia || done.
  rewrite pmap_pxor, pack_pxor by apply testbit_xor. f_equal.
  rewrite (Hn _ _ _ xor_bit) by apply testbit_xor.
  rewrite <- (body_mul c f) by auto using pack_in8. by rewrite unpack_pack.
Qed.

(** The kernel of the constant [v], as the code selects it. *)
Definition muladd (v : Z) (out inp : chunk) : option chunk :=
  f ← rd gf8_muladd v; Some (f out inp).

Lemma muladd_copy_ok out inp : chunk_ok out -> chunk_ok inp -> gf8_muladd_00 out inp = inp.
Proof.
  intros [Ho _] [Hi _]. unfold gf8_muladd_00.
  by rewrite <- Hi, firstn_all, Hi, <- Ho, drop_all, app_nil_r.
Qed.

Lemma muladd_spec v out inp :
  1 <= v < 256 -> chunk_ok out -> chunk_ok inp ->
  exists r, muladd v out inp = Some r /\ chunk_ok r /\
    forall i t, (i < WIDTH)%nat ->
      celem r i t = Z.lxor (gmul v (celem out i t)) (celem inp i t).
Proof.
  intros Hv Ho Hi. unfold muladd, rd. rewrite (proj2 (Z.leb_le 0 v)) by lia.
  destruct (decide (v = 1)) as [->|Hne].
  - exists (gf8_muladd_01 out inp). split; [done|]. rewrite gf8_muladd_01_col. split.
    + destruct Ho as [Hl Hw], Hi as [_ Hi]. split; [by rewrite length_col_loop|].
      apply words_col_loop; [|done]. intros. by apply pall_pxor, pall_column.
    + intros i t Hit. destruct Ho as [Hl _]. unfold celem.
      rewrite col_loop_column, decide_True by lia || done.
      rewrite pmap_pxor, pack_pxor, gmul_1_l by (apply testbit_xor || apply pack_in8). done.
  - assert (E : exists k, v = Z.of_nat k + 2 /\ Z.to_nat v = S (S k) /\ (k < 254)%nat)
      by (exists (Z.to_nat (v - 2)); lia).
    destruct E as (k & -> & Hk & Hlt).
    destruct (lookup_lt_is_Some_2 gf8_bodies k Hlt) as [f Hf].
    assert (Hg : gf8_muladd !! S (S k) = Some (muladd_loop f)).
    { change (gf8_muladd !! S (S k)) with ((muladd_loop <$> gf8_bodies) !! k).
      by rewrite list_lookup_fmap, Hf. }
    exists (muladd_loop f out inp). rewrite Hk, Hg. split; [done|]. split.
    + apply chunk_muladd_loop; [|done..]. exact (Forall_lookup_1 _ _ _ _ gf8_bodies_natural Hf).
    + intros. by apply celem_muladd_loop.
Qed.

(** ** A chunk is determined by its field elements *)

Lemma pack_inj p q : pack p = pack q -> p = q.
Proof. intros H. by rewrite <- (unpack_pack p), <- (unpack_pack q), H. Qed.

Lemma word_ext x y :
  word x -> word y -> (forall t, 0 <= t < 64 -> Z.testbit x t = Z.testbit y t) -> x = y.
Proof.
  intros Hx Hy H. apply Z.bits_inj'. intros t Ht.
  destruct (decide (t < 64)); [by apply H|].
  by rewrite <- (Z.mod_small x (2 ^ 64) Hx), <- (Z.mod_small y (2 ^ 64) Hy),
    !Z.mod_pow2_bits_high by lia.
Qed.

Lemma chunk_ext c d :
  chunk_ok c -> chunk_ok d ->
  (forall i t, (i < WIDTH)%nat -> 0 <= t < 64 -> celem c i t = celem d i t) -> c = d.
Proof.
  intros [Hlc Hwc] [Hld Hwd] H.
  assert (Hcol : forall i t, (i < WIDTH)%nat -> 0 <= t < 64 ->
    pmap (fun w => Z.testbit w t) (column c i) = pmap (fun w => Z.testbit w t) (column d i))
    by (intros; apply pack_inj, H; done).
  apply (list_eq_same_length _ _ CHUNK_WORDS); [congruence..|].
  intros n x y Hn Hx Hy.
  apply word_ext; [exact (Forall_lookup_1 _ _ _ _ Hwc Hx)|exact (Forall_lookup_1 _ _ _ _ Hwd Hy)|].
  intros t Ht.
  rewrite <- (list_lookup_total_correct _ _ _ Hx), <- (list_lookup_total_correct _ _ _ Hy).
  pose proof (Hcol (n mod 8)%nat t) as E. unfold CHUNK_WORDS, WIDTH, EC_METHOD_WORD_SIZE in *.
  change (64 / 8)%nat with 8%nat in *. specialize (E ltac:(apply Nat.mod_upper_bound; lia) Ht).
  pose proof (Nat.div_mod_eq n 8) as Hd.
  assert (Hq : (n / 8 < 8)%nat) by (apply Nat.Div0.div_lt_upper_bound; lia).
  unfold column, pmap in E. cbv [WIDTH EC_METHOD_WORD_SIZE] in E. change (64 / 8)%nat with 8%nat in E.
  cbn [out0 out1 out2 out3 out4 out5 out6 out7 Nat.mul Nat.add] in E. injection E as ????????.
  rewrite Hd. destruct (n / 8)%nat as [|[|[|[|[|[|[|[|?]]]]]]]]; cbn [Nat.mul Nat.add]; done || lia.
Qed.

(** ** The claim *)

Lemma replicate_ok w : word w -> chunk_ok (replicate CHUNK_WORDS w).
Proof. intros Hw. split; [done|]. by apply Forall_replicate. Qed.

(** C29: the kernel [gf8_muladd_XX] that the table of ec-code-c.c holds for a
    constant [v] from 0 to 255 replaces every one of the 512 field elements of
    the destination chunk by [v] times it plus the element of the source
    chunk (for 0 the source is copied), and its words stay 64-bit words. *)
Theorem gf8_muladd_correct (v : Z) (out inp : chunk) :
  0 <= v < 256 -> chunk_ok out -> chunk_ok inp ->
  exists f, rd gf8_muladd v = Some f /\ chunk_ok (f out inp) /\
    forall i t, (i < WIDTH)%nat ->
      celem (f out inp) i t = Z.lxor (gmul v (celem out i t)) (celem inp i t).
Proof.
  intros Hv Ho Hi. destruct (decide (v = 0)) as [->|Hne].
  { exists gf8_muladd_00. rewrite muladd_copy_ok by done. split; [done|]. split; [done|]. intros i t _. by rewrite gmul_0_l. }
  destruct (muladd_spec v out inp ltac:(lia) Ho Hi) as (r & E & Hr & He).
  unfold muladd in E. destruct (rd gf8_muladd v) as [f|]; [|done]. injection E as <-. by exists f.
Qed.

Lemma gf8_muladd_correct_witness :
  exists f, rd gf8_muladd 0x8e = Some f /\ chunk_ok (f (replicate CHUNK_WORDS 6) (replicate CHUNK_WORDS 5)) /\
    forall i t, (i < WIDTH)%nat ->
      celem (f (replicate CHUNK_WORDS 6) (replicate CHUNK_WORDS 5)) i t
      = Z.lxor (gmul 0x8e (celem (replicate CHUNK_WORDS 6) i t)) (celem (replicate CHUNK_WORDS 5) i t).
Proof.
  apply (gf8_muladd_correct 0x8e (replicate CHUNK_WORDS 6) (replicate CHUNK_WORDS 5));
    [lia|apply replicate_ok; unfold word; lia|apply replicate_ok; unfold word; lia].
Defined.
