(* ===== verification/EcGalois.v ===== *)
(** * Galois field arithmetic of ec-galois.c *)
From S2P Require Import Prelude GF256 EcGf8.

Record ec_gf_t : Set := mkgf {
  gf_bits : Z; gf_size : Z; gf_mod : Z;
  gf_min_ops : Z; gf_max_ops : Z; gf_avg_ops : Z;
  gf_log : list Z; gf_pow : list Z;
  gf_table : list ec_gf_mul_t }.

(** [GF_MALLOC] gives [None], or memory with arbitrary contents: the three
    allocations are arguments.  [EC_ERR(e)] is [inl e]. *)
Definition ec_gf_alloc (m_gf : option ec_gf_t) (m_log m_pow : option (list Z))
    (bits mod_ : Z) : Z + ec_gf_t :=
  match m_gf with
  | None => inl ENOMEM
  | Some gf =>
    match m_log with
    | None => inl ENOMEM
    | Some log =>
      match m_pow with
      | None => inl ENOMEM
      | Some pow =>
        inr (mkgf bits (Z.shiftl 1 bits) mod_ (gf_min_ops gf) (gf_max_ops gf) (gf_avg_ops gf)
                  log pow (gf_table gf))
      end
    end
  end.

(** [memset(a, -1, sizeof(uint32_t) * n)] *)
Definition memset_ff (a : list Z) (n : Z) : option (list Z) :=
  if n <=? Z.of_nat (length a)
  then Some (replicate (Z.to_nat n) (2 ^ 32 - 1) ++ drop (Z.to_nat n) a) else None.

Definition init_step (size mod_ : Z) (i : Z) (s : list Z * list Z) : option (list Z * list Z) :=
  let '(log, pow) := s in
  p ← rd pow (i - 1);
  let tmp := u32 (Z.shiftl p 1) in
  let tmp := if size <=? tmp then Z.lxor tmp mod_ else tmp in
  pow ← wr pow i tmp;
  pow ← wr pow (i + size - 1) tmp;
  log ← wr log tmp i;
  log ← wr log (tmp + size - 1) i;
  Some (log, pow).

Definition ec_gf_init_tables (gf : ec_gf_t) : option ec_gf_t :=
  let size := gf_size gf in
  log ← memset_ff (gf_log gf) size;
  pow ← wr (gf_pow gf) 0 1;
  log ← wr log 0 size;
  log ← wr log 1 0;
  '(log, pow) ← for_up (Z.to_nat (size - 1)) 1 (init_step size (gf_mod gf)) (log, pow);
  Some (mkgf (gf_bits gf) size (gf_mod gf) (gf_min_ops gf) (gf_max_ops gf) (gf_avg_ops gf)
             log pow (gf_table gf)).

(** [for (j = 0; ops[j].op != EC_GF_OP_END; j++) {}] *)
Fixpoint count_ops (ops : list ec_gf_op_t) : option Z :=
  match ops with
  | [] => None
  | o :: ops => if decide (op_code o = EC_GF_OP_END) then Some 0
                else j ← count_ops ops; Some (j + 1)
  end.

Definition ops_step (tbl : list ec_gf_mul_t) (i : Z) (s : Z * Z * Z) : option (Z * Z * Z) :=
  let '(mn, mx, avg) := s in
  m ← rd tbl i;
  j ← count_ops (mul_ops m);
  Some (if j <? mn then j else mn, if mx <? j then j else mx, u32 (avg + j)).

(** The loop of [ec_gf_prepare] that computes [min_ops], [max_ops] and the sum. *)
Definition ops_stats (tbl : list ec_gf_mul_t) (bits size : Z) : option (Z * Z * Z) :=
  for_up (Z.to_nat (size - 1)) 1 (ops_step tbl) (bits * bits, 0, 0).

Definition ec_gf_prepare (m_gf : option ec_gf_t) (m_log m_pow : option (list Z))
    (bits mod_ : Z) : option (Z + ec_gf_t) :=
  if negb (bits =? 8) then Some (inl EINVAL) else
  let tbl := ec_gf8_mul in
  let mod_ := if mod_ =? 0 then 0x11d else mod_ in
  match ec_gf_alloc m_gf m_log m_pow bits mod_ with
  | inl e => Some (inl e)
  | inr gf =>
    gf ← ec_gf_init_tables gf;
    '(mn, mx, avg) ← ops_stats tbl bits (gf_size gf);
    Some (inr (mkgf (gf_bits gf) (gf_size gf) (gf_mod gf) mn mx (avg `div` gf_size gf)
                    (gf_log gf) (gf_pow gf) tbl))
  end.

Definition ec_gf_add (gf : ec_gf_t) (a b : Z) : Z :=
  if (gf_size gf <=? a) || (gf_size gf <=? b) then gf_size gf else Z.lxor a b.

Definition ec_gf_mul (gf : ec_gf_t) (a b : Z) : option Z :=
  if (gf_size gf <=? a) || (gf_size gf <=? b) then Some (gf_size gf) else
  if negb (a =? 0) && negb (b =? 0) then
    la ← rd (gf_log gf) a; lb ← rd (gf_log gf) b; rd (gf_pow gf) (u32 (la + lb))
  else Some 0.

Definition ec_gf_div (gf : ec_gf_t) (a b : Z) : option Z :=
  if (gf_size gf <=? a) || (gf_size gf <=? b) then Some (gf_size gf) else
  if negb (b =? 0) then
    if negb (a =? 0) then
      la ← rd (gf_log gf) a; lb ← rd (gf_log gf) b;
      rd (gf_pow gf) (u32 (u32 (gf_size gf - 1 + la) - lb))
    else Some 0
  else Some (gf_size gf).

(** The loop halves the 32-bit [b]: 32 iterations exhaust it. *)
Fixpoint exp_loop (fuel : nat) (gf : ec_gf_t) (r a b : Z) : option Z :=
  if b =? 0 then Some r else
  match fuel with
  | O => None
  | S fuel =>
    r ← (if negb (Z.land b 1 =? 0) then ec_gf_mul gf r a else Some r);
    a ← ec_gf_mul gf a a;
    exp_loop fuel gf r a (Z.shiftr b 1)
  end.

Definition ec_gf_exp (gf : ec_gf_t) (a b : Z) : option Z :=
  if (gf_size gf <=? a) || ((a =? 0) && (b =? 0)) then Some (gf_size gf)
  else exp_loop 32 gf 1 a b.

(** ** The tables *)

Definition zeros : list Z := replicate 511 0.

Definition gf0 : ec_gf_t := mkgf 8 256 poly 0 0 0 zeros zeros [].
Definition gf0_tables : list Z * list Z :=
  match ec_gf_init_tables gf0 with Some g => (gf_log g, gf_pow g) | None => ([], []) end.
Definition gf_tables : list Z * list Z := Eval vm_compute in gf0_tables.

Lemma init_tables_any (f g : nat -> Z) mn mx avg tbl :
  ec_gf_init_tables (mkgf 8 256 poly mn mx avg (f <$> seq 0 511) (g <$> seq 0 511) tbl)
  = Some (mkgf 8 256 poly mn mx avg gf_tables.1 gf_tables.2 tbl).
Proof. vm_compute. reflexivity. Qed.

(** What the tables hold: [pow[i]] is the [i]-th power of the generator 2 and
    [log] a discrete logarithm in [1, 255]. *)
Record tables_ok (log pow : list Z) : Prop := {
  pow_length : length pow = 511%nat;
  log_length : length log = 511%nat;
  pow_spec : forall i, 0 <= i < 511 -> rd pow i = Some (gpow 2 (Z.to_nat i));
  log_spec : forall a, 1 <= a < 256 ->
    exists l, rd log a = Some l /\ 1 <= l <= 255 /\ gpow 2 (Z.to_nat l) = a }.

Record gf_ok (gf : ec_gf_t) : Prop := {
  ok_bits : gf_bits gf = 8;
  ok_size : gf_size gf = 256;
  ok_mod : gf_mod gf = poly;
  ok_table : gf_table gf = ec_gf8_mul;
  ok_max_ops : gf_max_ops gf = 18;
  ok_tables : tables_ok (gf_log gf) (gf_pow gf) }.

Lemma pow_table_low :
  all_below 256 (fun i => bool_decide (rd gf_tables.2 i = Some (gpow 2 (Z.to_nat i)))) = true.
Proof. vm_compute. reflexivity. Qed.

Lemma pow_table_high :
  all_below 256 (fun i => bool_decide (rd gf_tables.2 (255 + i) = rd gf_tables.2 i)) = true.
Proof. vm_compute. reflexivity. Qed.

Lemma log_table :
  all_below 256 (fun a => (a =? 0) || match rd gf_tables.1 a with
    | Some l => (1 <=? l) && (l <=? 255) && bool_decide (rd gf_tables.2 l = Some a)
    | None => false end) = true.
Proof. vm_compute. reflexivity. Qed.

Lemma in8_gpow a n : in8 a -> in8 (gpow a n).
Proof. intros Ha. induction n; simpl; [unfold in8; lia|]. by apply in8_gmul. Qed.

Lemma gpow_add a m n : in8 a -> gpow a (m + n) = gmul (gpow a m) (gpow a n).
Proof.
  intros Ha. induction m as [|m IH]; simpl; [by rewrite gmul_1_l by by apply in8_gpow|].
  rewrite IH. apply gmul_assoc; auto using in8_gpow.
Qed.

Lemma in8_2 : in8 2.
Proof. unfold in8. lia. Qed.

Lemma gpow_255 : gpow 2 255 = 1.
Proof. by vm_compute. Qed.

Lemma gf_tables_ok : tables_ok gf_tables.1 gf_tables.2.
Proof.
  assert (Hp : forall i, 0 <= i < 511 -> rd gf_tables.2 i = Some (gpow 2 (Z.to_nat i))).
  { intros i Hi. destruct (decide (i < 256)).
    - apply (all_below_dec _ _ pow_table_low). lia.
    - replace i with (255 + (i - 255)) by lia.
      rewrite (all_below_dec _ _ pow_table_high (i - 255)) by lia.
      rewrite (all_below_dec _ _ pow_table_low (i - 255)) by lia.
      f_equal. replace (Z.to_nat (255 + (i - 255))) with (255 + Z.to_nat (i - 255))%nat by lia.
      rewrite gpow_add, gpow_255, gmul_1_l by auto using in8_2, in8_gpow. done. }
  split; [reflexivity|reflexivity|exact Hp|].
  intros a Ha. pose proof (all_below_spec _ _ log_table a ltac:(lia)) as H. cbv beta in H.
  apply orb_true_iff in H as [H%Z.eqb_eq|H]; [lia|].
  destruct (rd gf_tables.1 a) as [l|]; [|done]. exists l.
  apply andb_true_iff in H as [H Hl3%bool_decide_eq_true_1].
  apply andb_true_iff in H as [Hl1%Z.leb_le Hl2%Z.leb_le].
  repeat split; [lia..|]. rewrite Hp in Hl3 by lia. congruence.
Qed.

(** ** Initialisation *)

Lemma init_tables_ok log pow mn mx avg tbl :
  length log = 511%nat -> length pow = 511%nat ->
  ec_gf_init_tables (mkgf 8 256 poly mn mx avg log pow tbl)
  = Some (mkgf 8 256 poly mn mx avg gf_tables.1 gf_tables.2 tbl).
Proof.
  intros Hl Hp. rewrite (list_as_fun log 511 Hl), (list_as_fun pow 511 Hp). apply init_tables_any.
Qed.

Lemma ops_stats_ok : ops_stats ec_gf8_mul 8 256 = Some (0, 18, 3321).
Proof. vm_compute. reflexivity. Qed.

Definition gf_init : ec_gf_t :=
  mkgf 8 256 poly 0 18 12 gf_tables.1 gf_tables.2 ec_gf8_mul.

Lemma gf_init_ok : gf_ok gf_init.
Proof. split; try reflexivity. apply gf_tables_ok. Qed.

Lemma prepare_init junk log pow mod_ :
  length log = 511%nat -> length pow = 511%nat -> mod_ = 0 \/ mod_ = 0x11d ->
  ec_gf_prepare (Some junk) (Some log) (Some pow) 8 mod_ = Some (inr gf_init).
Proof.
  intros Hl Hp Hm.
  assert (Em : (if mod_ =? 0 then 0x11d else mod_) = poly) by (destruct Hm as [->| ->]; reflexivity).
  unfold ec_gf_prepare. rewrite Em. clear Em Hm.
  replace (negb (8 =? 8)) with false by reflexivity.
  replace (ec_gf_alloc (Some junk) (Some log) (Some pow) 8 poly)
    with (inr (A := Z) (mkgf 8 256 poly (gf_min_ops junk) (gf_max_ops junk) (gf_avg_ops junk) log pow (gf_table junk)))
    by reflexivity.
  rewrite init_tables_ok by done. unfold mbind, option_bind, gf_size.
  rewrite ops_stats_ok. reflexivity.
Qed.

(** ** The operations *)

Section Ops.
Context (gf : ec_gf_t) (Hgf : gf_ok gf).

Lemma log_get a : 1 <= a < 256 ->
  exists l, rd (gf_log gf) a = Some l /\ 1 <= l <= 255 /\ gpow 2 (Z.to_nat l) = a.
Proof. apply (log_spec _ _ (ok_tables _ Hgf)). Qed.

Lemma pow_get i : 0 <= i < 511 -> rd (gf_pow gf) i = Some (gpow 2 (Z.to_nat i)).
Proof. apply (pow_spec _ _ (ok_tables _ Hgf)). Qed.

Lemma size_guard a b : in8 a -> in8 b -> (gf_size gf <=? a) || (gf_size gf <=? b) = false.
Proof. rewrite (ok_size _ Hgf). unfold in8. lia. Qed.

Lemma mul_ok a b : in8 a -> in8 b -> ec_gf_mul gf a b = Some (gmul a b).
Proof.
  intros Ha Hb. unfold ec_gf_mul. rewrite size_guard by done.
  destruct (decide (a = 0)) as [->|Ha0]; [by rewrite gmul_0_l|].
  destruct (decide (b = 0)) as [->|Hb0]; [rewrite gmul_0_r; by destruct (negb _)|].
  rewrite (proj2 (Z.eqb_neq a 0)), (proj2 (Z.eqb_neq b 0)) by done. unfold in8 in *.
  destruct (log_get a ltac:(lia)) as (la & -> & Hla & Ea).
  destruct (log_get b ltac:(lia)) as (lb & -> & Hlb & Eb). unfold mbind, option_bind.
  rewrite u32_small, pow_get, Z2Nat.inj_add, gpow_add, Ea, Eb by (lia || apply in8_2). done.
Qed.

(** Division by a non-zero element, characterised by multiplication. *)
Lemma div_ok a b : in8 a -> in8 b -> b <> 0 -> ec_gf_div gf a b = Some (gmul a (ginv b)).
Proof.
  intros Ha Hb Hb0. unfold ec_gf_div. rewrite size_guard by done.
  rewrite (proj2 (Z.eqb_neq b 0)) by done. cbn [negb].
  destruct (decide (a = 0)) as [->|Ha0]; [by rewrite gmul_0_l|].
  rewrite (proj2 (Z.eqb_neq a 0)) by done. cbn [negb].
  unfold in8 in Ha, Hb. rewrite (ok_size _ Hgf).
  destruct (log_get a ltac:(lia)) as (la & -> & Hla & Ea).
  destruct (log_get b ltac:(lia)) as (lb & -> & Hlb & Eb). unfold mbind, option_bind.
  rewrite (u32_small (256 - 1 + la)), u32_small, pow_get by lia. f_equal.
  assert (E : gmul (gpow 2 (Z.to_nat (256 - 1 + la - lb))) b = a).
  { rewrite <- Eb at 1. rewrite <- gpow_add by apply in8_2.
    replace (Z.to_nat (256 - 1 + la - lb) + Z.to_nat lb)%nat with (255 + Z.to_nat la)%nat by lia.
    rewrite gpow_add, gpow_255, gmul_1_l, Ea by (apply in8_2 || (rewrite Ea; unfold in8; lia)). done. }
  rewrite <- E at 1. rewrite <- gmul_assoc, (gmul_comm b), gmul_inv_l, gmul_comm, gmul_1_l;
    auto using in8_gpow, in8_2, in8_ginv.
Qed.

Lemma gpow_square a n : in8 a -> gpow (gmul a a) n = gpow a (2 * n).
Proof.
  intros Ha. induction n as [|n IH]; [done|]. cbn [gpow]. rewrite IH.
  replace (2 * S n)%nat with (2 + 2 * n)%nat by lia. rewrite gpow_add by done.
  cbn [gpow]. by rewrite gmul_1_r.
Qed.

Lemma exp_loop_ok fuel r a b :
  in8 r -> in8 a -> 0 <= b < 2 ^ Z.of_nat fuel ->
  exp_loop fuel gf r a b = Some (gmul r (gpow a (Z.to_nat b))).
Proof.
  revert r a b. induction fuel as [|fuel IH]; intros r a b Hr Ha Hb; cbn [exp_loop].
  - replace b with 0 by (change (2 ^ Z.of_nat 0) with 1 in Hb; lia).
    rewrite Z.eqb_refl. cbn [Z.to_nat gpow]. by rewrite gmul_1_r.
  - destruct (Z.eqb_spec b 0) as [->|Hb0].
    { cbn [Z.to_nat gpow]. by rewrite gmul_1_r. }
    rewrite Nat2Z.inj_succ, Z.pow_succ_r in Hb by lia.
    pose proof (Z.div_mod b 2 ltac:(lia)) as Hdm. pose proof (Z.mod_pos_bound b 2 ltac:(lia)) as Hm.
    assert (E : (if negb (Z.land b 1 =? 0) then ec_gf_mul gf r a else Some r)
                = Some (if negb (Z.land b 1 =? 0) then gmul r a else r))
      by (destruct (negb _); [by apply mul_ok|done]).
    rewrite E. cbn [mbind option_bind]. rewrite mul_ok by done. cbn [mbind option_bind].
    rewrite Z.shiftr_div_pow2 by lia. change (2 ^ 1) with 2.
    assert (Hin : in8 (if negb (Z.land b 1 =? 0) then gmul r a else r))
      by (destruct (negb _); auto using in8_gmul).
    rewrite IH by (auto using in8_gmul || lia). f_equal. rewrite gpow_square by done.
    change 1 with (Z.ones 1). rewrite Z.land_ones by lia. change (2 ^ 1) with 2.
    replace (Z.to_nat b) with (Z.to_nat (b mod 2) + 2 * Z.to_nat (b / 2))%nat by lia.
    destruct (Z.eqb_spec (b mod 2) 0) as [->|Hodd]; cbn [negb]; [done|].
    replace (b mod 2) with 1 by lia. rewrite gpow_add by done. change (Z.to_nat 1) with 1%nat. cbn [gpow].
    rewrite gmul_1_r, gmul_assoc by auto using in8_gpow. done.
Qed.
End Ops.

(** ** Properties *)

(** multiplication through the logarithm tables is multiplication of
    polynomials over GF(2) modulo X^8+X^4+X^3+X^2+1, for all pairs of field
    elements; the size of the field is returned for any other argument, and no
    table access is out of bounds. *)
Theorem ec_gf_mul_correct (gf : ec_gf_t) (a b : Z) :
  gf_ok gf -> 0 <= a -> 0 <= b ->
  ec_gf_mul gf a b = Some (if (a <? 256) && (b <? 256) then gmul a b else 256).
Proof.
  intros Hgf Ha Hb. destruct ((a <? 256) && (b <? 256)) eqn:E.
  - apply mul_ok; unfold in8; lia || done.
  - unfold ec_gf_mul. rewrite (ok_size _ Hgf).
    replace ((256 <=? a) || (256 <=? b)) with true by lia. done.
Qed.

Lemma ec_gf_mul_correct_witness : ec_gf_mul gf_init 0x53 0xca = Some 0x8f.
Proof. rewrite (ec_gf_mul_correct gf_init 0x53 0xca gf_init_ok); [reflexivity|lia..]. Defined.

(** division is the inverse of multiplication: for a non-zero divisor the
    quotient is a field element whose product with the divisor gives back the
    dividend, and division by zero returns the size of the field. *)
Theorem ec_gf_div_correct (gf : ec_gf_t) (a b : Z) :
  gf_ok gf -> in8 a -> in8 b ->
  (b = 0 -> ec_gf_div gf a b = Some 256) /\
  (b <> 0 -> exists q, ec_gf_div gf a b = Some q /\ in8 q /\ ec_gf_mul gf q b = Some a).
Proof.
  intros Hgf Ha Hb. split.
  - intros ->. unfold ec_gf_div. by rewrite size_guard, (ok_size _ Hgf).
  - intros Hb0. exists (gmul a (ginv b)).
    assert (in8 (gmul a (ginv b))) by auto using in8_gmul, in8_ginv.
    rewrite div_ok, mul_ok by done. repeat split; try done || apply H.
    f_equal. by rewrite <- gmul_assoc, gmul_inv_l, gmul_1_r by auto using in8_ginv.
Qed.

Lemma ec_gf_div_correct_witness :
  exists q, ec_gf_div gf_init 0x8f 0xca = Some q /\ in8 q /\ ec_gf_mul gf_init q 0xca = Some 0x8f.
Proof.
  apply (ec_gf_div_correct gf_init 0x8f 0xca gf_init_ok); unfold in8; lia.
Defined.

(** exponentiation by squaring computes the power for every 32-bit
    exponent; it returns the size of the field for [0^0] and for a base
    outside the field. *)
Theorem ec_gf_exp_correct (gf : ec_gf_t) (a b : Z) :
  gf_ok gf -> 0 <= a -> 0 <= b < 2 ^ 32 ->
  ec_gf_exp gf a b
  = Some (if (256 <=? a) || ((a =? 0) && (b =? 0)) then 256 else gpow a (Z.to_nat b)).
Proof.
  intros Hgf Ha Hb. unfold ec_gf_exp. rewrite (ok_size _ Hgf).
  destruct ((256 <=? a) || _) eqn:E; [done|].
  assert (in8 a) by (unfold in8; lia).
  rewrite exp_loop_ok, gmul_1_l; auto using in8_gpow. unfold in8; lia.
Qed.

Lemma ec_gf_exp_correct_witness : ec_gf_exp gf_init 3 255 = Some 1.
Proof. rewrite (ec_gf_exp_correct gf_init 3 255 gf_init_ok); [reflexivity|lia..]. Defined.

(** Preparing the field: any width but 8 bits is refused with EINVAL, a
    failed allocation gives ENOMEM, and otherwise, whatever the memory
    returned by the allocator holds, the result has correct tables. *)
Theorem ec_gf_prepare_correct (m_gf : option ec_gf_t) (m_log m_pow : option (list Z)) (bits mod_ : Z) :
  (forall l, m_log = Some l -> length l = 511%nat) ->
  (forall l, m_pow = Some l -> length l = 511%nat) ->
  mod_ = 0 \/ mod_ = poly ->
  match ec_gf_prepare m_gf m_log m_pow bits mod_ with
  | None => False
  | Some (inl e) =>
      (bits <> 8 /\ e = EINVAL) \/
      (bits = 8 /\ e = ENOMEM /\ (m_gf = None \/ m_log = None \/ m_pow = None))
  | Some (inr gf) => bits = 8 /\ gf_ok gf /\ gf_max_ops gf = 18
  end.
Proof.
  intros Hl Hp Hm. destruct (decide (bits = 8)) as [->|Hb].
  - destruct m_gf as [junk|]; [|right; auto]. destruct m_log as [l|]; [|right; auto].
    destruct m_pow as [p|]; [|right; auto].
    rewrite prepare_init by auto. auto using gf_init_ok.
  - unfold ec_gf_prepare. rewrite (proj2 (Z.eqb_neq bits 8)) by done. left. auto.
Qed.

Lemma ec_gf_prepare_correct_witness :
  match ec_gf_prepare (Some gf0) (Some zeros) (Some zeros) 8 0 with
  | None => False
  | Some (inl e) =>
      (8 <> 8 /\ e = EINVAL) \/
      (8 = 8 /\ e = ENOMEM /\ (Some gf0 = None \/ Some zeros = None \/ Some zeros = None))
  | Some (inr gf) => 8 = 8 /\ gf_ok gf /\ gf_max_ops gf = 18
  end.
Proof.
  apply (ec_gf_prepare_correct (Some gf0) (Some zeros) (Some zeros) 8 0);
    [intros l [= <-]; reflexivity..|by left].
Defined.
