(* ===== verification/EcMatrix.v ===== *)
(** * Encoding and decoding matrices of ec-method.c *)
From S2P Require Import Prelude Poly GF256 EcGalois.

(** ** The code *)

Section Code.
Context (gf : ec_gf_t).

(** One row of [ec_method_matrix_normal]; the pointer [matrix] is the index [p]. *)
Definition normal_row (columns v : Z) (s : list Z * Z) : option (list Z * Z) :=
  let '(m, p) := s in
  tmp ← ec_gf_exp gf v columns;
  m ← wr m p tmp;
  '(m, p, _) ← for_up (Z.to_nat columns) 0
    (fun _ '(m, p, tmp) =>
       tmp ← ec_gf_div gf tmp v;
       m ← wr m p tmp;
       Some (m, p + 1, tmp)) (m, p + 1, tmp);
  Some (m, p).

Definition ec_method_matrix_normal (matrix : list Z) (columns : Z) (values : list Z) (count : Z)
    : option (list Z) :=
  let columns := u32 (columns - 1) in
  '(m, _) ← for_up (Z.to_nat count) 0
    (fun i s => v ← rd values i; normal_row columns v s) (matrix, 0);
  Some m.

(** The coefficients of the product of the [X + values[i]], in the array [a]
    of the stack; [a0] is its uninitialised contents. *)
Definition inverse_poly (a0 values : list Z) (last : Z) : option (list Z) :=
  a ← for_up (Z.to_nat last) 0 (fun i a => wr a i 1) a0;
  v0 ← rd values 0;
  a ← wr a last v0;
  for_up (Z.to_nat last) 0
    (fun k a =>
       let i := last - k in
       v ← rd values i;
       a ← for_up (Z.to_nat (last - (i - 1))) (i - 1)
         (fun j a =>
            aj1 ← rd a (j + 1); aj ← rd a j; t ← ec_gf_mul gf v aj;
            wr a j (Z.lxor aj1 t)) a;
       al ← rd a last; t ← ec_gf_mul gf v al; wr a last t) a.

(** The iteration of [ec_method_matrix_inverse] that fills a column; the
    pointer [matrix] is the index [pos]. *)
Definition inverse_col (a values : list Z) (count last i : Z) (s : list Z * Z)
    : option (list Z * Z) :=
  let '(m, pos) := s in
  p ← rd a 0;
  let pos := pos + count in
  v ← rd values i;
  let tmp := Z.lxor p v in
  m ← wr m pos tmp;
  '(m, pos, _, p) ← for_up (Z.to_nat (last - 1)) 1
    (fun j '(m, pos, tmp, p) =>
       let pos := pos + count in
       aj ← rd a j; t ← ec_gf_mul gf v tmp;
       let tmp := Z.lxor aj t in
       m ← wr m pos tmp;
       t ← ec_gf_mul gf v p;
       Some (m, pos, tmp, Z.lxor tmp t)) (m, pos, tmp, p);
  '(m, pos) ← for_up (Z.to_nat last) 0
    (fun _ '(m, pos) =>
       x ← rd m pos; d ← ec_gf_div gf x p;
       m ← wr m pos d;
       Some (m, pos - count)) (m, pos);
  d ← ec_gf_div gf 1 p;
  m ← wr m pos d;
  Some (m, pos + 1).

Definition ec_method_matrix_inverse (a0 matrix values : list Z) (count : Z) : option (list Z) :=
  let last := u32 (count - 1) in
  a ← inverse_poly a0 values last;
  '(m, _) ← for_up (Z.to_nat count) 0 (inverse_col a values count last) (matrix, 0);
  Some m.
End Code.

(** ** The encoding matrix *)

(** Row [v^n, v^(n-1), ..., 1]. *)
Fixpoint pows (v : Z) (n : nat) : list Z :=
  match n with O => [1] | S n' => gpow v n :: pows v n' end.

Lemma length_pows v n : length (pows v n) = S n.
Proof. induction n; simpl; congruence. Qed.

Definition nz8 (v : Z) : Prop := 1 <= v < 256.

Lemma nz8_in8 v : nz8 v -> in8 v.
Proof. unfold nz8, in8. lia. Qed.
#[export] Hint Resolve nz8_in8 in8_gpow : gf.

Lemma gmul_ginv_r v x : nz8 v -> in8 x -> gmul (gmul v x) (ginv v) = x.
Proof.
  intros Hv Hx. rewrite (gmul_comm v x), <- gmul_assoc, (gmul_comm v), gmul_inv_l, gmul_1_r;
    auto with gf. unfold nz8 in Hv; lia.
Qed.

Section Normal.
Context (gf : ec_gf_t) (Hgf : gf_ok gf).

Lemma normal_loop v n l old r :
  nz8 v -> length old = n ->
  exists tmp,
    for_up n 0 (fun _ '(m, p, tmp) =>
       tmp ← ec_gf_div gf tmp v; m ← wr m p tmp; Some (m, p + 1, tmp))
      (l ++ old ++ r, Z.of_nat (length l), gpow v n)
    = Some (l ++ drop 1 (pows v n) ++ r, Z.of_nat (length l) + Z.of_nat n, tmp).
Proof.
  intros Hv. generalize 0 as i. revert l old. induction n as [|n IH]; intros l old i Hl.
  - destruct old; [|done]. eexists. simpl. by rewrite Z.add_0_r.
  - destruct old as [|o old]; [done|]. injection Hl as Hl. cbn [for_up].
    rewrite (div_ok gf Hgf) by (eauto with gf || unfold nz8 in Hv; lia). cbn [gpow mbind option_bind].
    rewrite gmul_ginv_r by eauto with gf. cbn [app]. rewrite wr_app by done. cbn.
    specialize (IH (l ++ [gpow v n]) old (i + 1) Hl). rewrite length_app in IH. cbn in IH.
    rewrite <- !app_assoc in IH. cbn in IH. rewrite Nat2Z.inj_add in IH. change (Z.of_nat 1) with 1 in IH.
    destruct IH as [tmp ->]. exists tmp. f_equal. f_equal. f_equal; [|lia].
    f_equal. destruct n; reflexivity.
Qed.

Lemma normal_row_ok v n l old r :
  nz8 v -> Z.of_nat n < 2 ^ 32 -> length old = S n ->
  normal_row gf (Z.of_nat n) v (l ++ old ++ r, Z.of_nat (length l))
  = Some (l ++ pows v n ++ r, Z.of_nat (length l) + Z.of_nat (S n)).
Proof.
  intros Hv Hn Hl. destruct old as [|o old]; [done|]. injection Hl as Hl. unfold normal_row.
  assert (E : ec_gf_exp gf v (Z.of_nat n) = Some (gpow v n)).
  { unfold ec_gf_exp. rewrite (ok_size _ Hgf). unfold nz8 in Hv.
    replace ((256 <=? v) || _) with false by lia.
    rewrite (exp_loop_ok gf Hgf), gmul_1_l, Nat2Z.id; [done|..]; auto with gf; unfold in8; lia. }
  rewrite E. cbn [mbind option_bind app]. rewrite wr_app by done. cbn [mbind option_bind].
  rewrite Nat2Z.id.
  destruct (normal_loop v n (l ++ [gpow v n]) old r Hv Hl) as [tmp Ht].
  rewrite length_app, Nat2Z.inj_add, <- !app_assoc in Ht. change (Z.of_nat (length [_])) with 1 in Ht.
  cbn [app] in Ht. rewrite Ht. cbn. f_equal. f_equal; [|lia]. f_equal.
  destruct n; reflexivity.
Qed.

(** All rows, one after the other. *)
Definition vandermonde (n : nat) (values : list Z) : list Z := v ← values; pows v n.

Lemma normal_rows n values k l old r :
  Forall nz8 values -> Z.of_nat n < 2 ^ 32 -> length old = (length values * S n)%nat ->
  forall vs0, k = Z.of_nat (length vs0) ->
  for_up (length values) k (fun i s => v ← rd (vs0 ++ values) i; normal_row gf (Z.of_nat n) v s)
    (l ++ old ++ r, Z.of_nat (length l))
  = Some (l ++ vandermonde n values ++ r, Z.of_nat (length l) + Z.of_nat (length values * S n)).
Proof.
  intros HF Hn. revert k l old. induction values as [|v values IH]; intros k l old Hl vs0 Hk.
  - destruct old; [|done]. simpl. by rewrite Z.add_0_r.
  - apply Forall_cons in HF as [Hv HF]. cbn [for_up length]. rewrite rd_app by done.
    cbn [mbind option_bind]. cbn [length] in Hl.
    rewrite <- (take_drop (S n) old), <- app_assoc.
    rewrite normal_row_ok; [|done..|rewrite length_take; lia]. cbn [mbind option_bind].
    specialize (IH HF (k + 1) (l ++ pows v n) (drop (S n) old)).
    rewrite length_app, length_pows, Nat2Z.inj_add, <- !app_assoc, length_drop in IH.
    specialize (IH ltac:(lia) (vs0 ++ [v])). rewrite <- app_assoc, length_app in IH.
    cbn [app length] in IH. rewrite IH by lia. f_equal. f_equal; [|lia].
    unfold vandermonde. cbn. by rewrite <- app_assoc.
Qed.

Lemma matrix_normal_ok matrix n values :
  Forall nz8 values -> Z.of_nat (S n) < 2 ^ 32 ->
  (length values * S n <= length matrix)%nat ->
  ec_method_matrix_normal gf matrix (Z.of_nat (S n)) values (Z.of_nat (length values))
  = Some (vandermonde n values ++ drop (length values * S n) matrix).
Proof.
  intros HF Hn Hl. unfold ec_method_matrix_normal. rewrite u32_small by lia.
  replace (Z.of_nat (S n) - 1) with (Z.of_nat n) by lia. rewrite Nat2Z.id.
  pose proof (normal_rows n values 0 [] (take (length values * S n) matrix)
                (drop (length values * S n) matrix) HF ltac:(lia)) as E.
  rewrite length_take in E. specialize (E ltac:(lia) [] eq_refl).
  cbn [app length] in E. rewrite take_drop in E. change (Z.of_nat 0) with 0 in E. by rewrite E.
Qed.
End Normal.

(** ** The polynomial with the given roots *)

Fixpoint mulx_aux (v prev : Z) (s : list Z) : list Z :=
  match s with
  | [] => [gmul v prev]
  | c :: s => Z.lxor c (gmul v prev) :: mulx_aux v c s
  end.

(** The monic polynomial [1 :: s] multiplied by [X + v], without its leading
    coefficient. *)
Definition mulx (v : Z) (s : list Z) : list Z := mulx_aux v 1 s.

Definition prodpoly (values : list Z) : list Z :=
  match values with [] => [] | v0 :: vs => foldr mulx [v0] vs end.

Lemma length_mulx_aux v prev s : length (mulx_aux v prev s) = S (length s).
Proof. revert prev. induction s; intros; simpl; auto. Qed.

Lemma length_mulx v s : length (mulx v s) = S (length s).
Proof. apply length_mulx_aux. Qed.

Lemma length_prodpoly values : length (prodpoly values) = length values.
Proof.
  destruct values as [|v0 vs]; [done|]. simpl.
  induction vs; simpl; [done|]. by rewrite length_mulx, IHvs.
Qed.

Lemma mulx_aux_in8 v prev s :
  in8 v -> in8 prev -> Forall in8 s -> Forall in8 (mulx_aux v prev s).
Proof.
  intros Hv. revert prev. induction s as [|c s IH]; intros prev Hp Hs; simpl.
  - constructor; auto with gf.
  - apply Forall_cons in Hs as [Hc Hs]. constructor; auto with gf.
Qed.

Lemma prodpoly_in8 values : Forall in8 values -> Forall in8 (prodpoly values).
Proof.
  destruct values as [|v0 vs]; [done|]. simpl. intros [H0 Hvs]%Forall_cons.
  induction Hvs; simpl; [by constructor|]. apply mulx_aux_in8; auto. unfold in8; lia.
Qed.

Section InversePoly.
Context (gf : ec_gf_t) (Hgf : gf_ok gf).

Lemma fill_ones n (l old r : list Z) i :
  length old = n -> i = Z.of_nat (length l) ->
  for_up n i (fun i a => wr a i 1) (l ++ old ++ r) = Some (l ++ replicate n 1 ++ r).
Proof.
  revert l old i. induction n as [|n IH]; intros l old i Hl Hi.
  - by destruct old.
  - destruct old as [|o old]; [done|]. injection Hl as Hl. cbn [for_up app].
    rewrite wr_app by done. cbn [mbind option_bind].
    specialize (IH (l ++ [1]) old (i + 1) Hl). rewrite length_app, <- !app_assoc in IH.
    cbn [app length] in IH. rewrite IH by lia. done.
Qed.

Lemma mulx_loop v pre prev s j last :
  in8 v -> in8 prev -> Forall in8 s ->
  j = Z.of_nat (length pre) -> last = j + Z.of_nat (length s) ->
  (a ← for_up (length s) j
     (fun j a => aj1 ← rd a (j + 1); aj ← rd a j; t ← ec_gf_mul gf v aj; wr a j (Z.lxor aj1 t))
     (pre ++ prev :: s);
   al ← rd a last; t ← ec_gf_mul gf v al; wr a last t)
  = Some (pre ++ mulx_aux v prev s).
Proof.
  intros Hv. revert pre prev j. induction s as [|c s IH]; intros pre prev j Hp Hs Hj Hlast.
  - cbn [for_up mbind option_bind length]. cbn in Hlast.
    rewrite rd_app by lia. cbn [mbind option_bind]. rewrite (mul_ok gf Hgf) by done.
    cbn [mbind option_bind]. rewrite wr_app by lia. done.
  - apply Forall_cons in Hs as [Hc Hs]. cbn [for_up length].
    assert (E1 : rd (pre ++ prev :: c :: s) (j + 1) = Some c).
    { change (prev :: c :: s) with ([prev] ++ c :: s). rewrite app_assoc.
      apply rd_app. rewrite length_app. simpl. lia. }
    rewrite E1. cbn [mbind option_bind]. rewrite rd_app by done. cbn [mbind option_bind].
    rewrite (mul_ok gf Hgf) by done. cbn [mbind option_bind]. rewrite wr_app by done.
    cbn [mbind option_bind].
    specialize (IH (pre ++ [Z.lxor c (gmul v prev)]) c (j + 1) Hc Hs).
    rewrite length_app, <- !app_assoc in IH. cbn [app length mbind option_bind] in *.
    rewrite IH by lia. done.
Qed.

(** The last [n + 1] values are the one that the loop reads and the last [n]. *)
Lemma drop_next (vs : list Z) v0 n : 0 <= Z.of_nat n < 0 + Z.of_nat (length vs) ->
  exists v rest, drop (length vs - S n) vs = v :: rest /\ drop (length vs - n) vs = rest /\ length rest = n /\
    rd (v0 :: vs) (Z.of_nat (length vs) - Z.of_nat n) = Some v.
Proof.
  intros Hn. destruct (drop (length vs - S n) vs) as [|v rest] eqn:Ed.
  { apply (f_equal length) in Ed. rewrite length_drop in Ed. simpl in Ed. lia. }
  assert (Hr : drop (length vs - n) vs = rest).
  { replace (length vs - n)%nat with (S (length vs - S n))%nat by lia.
    rewrite <- Nat.add_1_r, <- drop_drop, Ed. done. }
  exists v, rest. do 2 (split; [done|]). split.
  - apply (f_equal length) in Hr. rewrite length_drop in Hr. lia.
  - replace (Z.of_nat (length vs) - Z.of_nat n) with (Z.of_nat (S (length vs - S n))) by lia.
    rewrite rd_lookup. change (vs !! (length vs - S n)%nat = Some v).
    pose proof (lookup_drop vs (length vs - S n) 0) as E'. by rewrite Ed, Nat.add_0_r in E'.
Qed.

Lemma inverse_poly_ok a0 v0 vs :
  Forall in8 (v0 :: vs) -> length a0 = S (length vs) ->
  inverse_poly gf a0 (v0 :: vs) (Z.of_nat (length vs)) = Some (prodpoly (v0 :: vs)).
Proof.
  intros [H0 Hvs]%Forall_cons Hl. unfold inverse_poly. rewrite Nat2Z.id.
  destruct (exists_last (l := a0)) as (old & x & ->); [by destruct a0|].
  rewrite length_app in Hl. simpl in Hl.
  pose proof (fill_ones (length vs) [] old [x] 0 ltac:(lia) eq_refl) as E. cbn [app] in E.
  rewrite E. cbn [mbind option_bind]. change (rd (v0 :: vs) 0) with (Some v0). cbn [mbind option_bind].
  rewrite wr_app by (rewrite length_replicate; done). cbn [mbind option_bind].
  set (last := Z.of_nat (length vs)).
  destruct (for_up_inv (fun k a => exists n, k = Z.of_nat n /\ (n <= length vs)%nat /\
     a = replicate (length vs - n) 1 ++ foldr mulx [v0] (drop (length vs - n) vs))
     (length vs) 0
     (fun k a =>
       let i := last - k in
       v ← rd (v0 :: vs) i;
       a ← for_up (Z.to_nat (last - (i - 1))) (i - 1)
         (fun j a =>
            aj1 ← rd a (j + 1); aj ← rd a j; t ← ec_gf_mul gf v aj;
            wr a j (Z.lxor aj1 t)) a;
       al ← rd a last; t ← ec_gf_mul gf v al; wr a last t)
     (replicate (length vs) 1 ++ [v0])) as (s & Hs & n & Hn & Hn' & ->).
  - exists 0%nat. rewrite Nat.sub_0_r, drop_all. auto with lia.
  - intros k a Hk (n & -> & Hn & ->). cbv zeta.
    destruct (drop_next vs v0 n Hk) as (v & rest & Ed & Hr & Hlr & Hv). fold last in Hv.
    rewrite Hv, Hr. cbn [mbind option_bind].
    assert (Hin : Forall in8 (v :: rest)) by (rewrite <- Ed; by apply Forall_drop).
    apply Forall_cons in Hin as [Hvin Hrest].
    set (s := foldr mulx [v0] rest).
    assert (Hs8 : Forall in8 s) by exact (prodpoly_in8 (v0 :: rest) ltac:(by constructor)).
    assert (Hsl : length s = S n) by (pose proof (length_prodpoly (v0 :: rest)) as E'; simpl in E'; unfold s; lia).
    replace (length vs - n)%nat with ((length vs - S n) + 1)%nat by lia.
    rewrite replicate_add, <- app_assoc. cbn [replicate app].
    replace (Z.to_nat (last - (last - Z.of_nat n - 1))) with (length s) by lia.
    eexists. split.
    + apply mulx_loop; auto; [unfold in8; lia|rewrite length_replicate; lia|lia].
    + exists (S n). split; [lia|]. split; [lia|]. rewrite Ed. done.
  - etransitivity; [exact Hs|]. replace n with (length vs) by lia. by rewrite Nat.sub_diag.
Qed.
End InversePoly.

Lemma vandermonde_concat n values : vandermonde n values = concat ((fun v => pows v n) <$> values).
Proof. unfold vandermonde. induction values; cbn in *; congruence. Qed.

Lemma pows_lookup v n j : (j <= n)%nat -> pows v n !! j = Some (gpow v (n - j)).
Proof.
  revert j. induction n as [|n IH]; intros [|j] Hj; try done; try lia.
  cbn [pows]. rewrite lookup_cons. rewrite IH by lia. done.
Qed.

(** [ec_method_matrix_normal] writes, for each value [v], the row of powers
    [v^(columns-1), ..., v, 1], and nothing else. *)
Theorem ec_method_matrix_normal_correct gf matrix columns values :
  gf_ok gf -> Forall nz8 values -> 1 <= columns < 2 ^ 32 ->
  Z.of_nat (length values) * columns <= Z.of_nat (length matrix) ->
  exists m, ec_method_matrix_normal gf matrix columns values (Z.of_nat (length values)) = Some m /\
    length m = length matrix /\
    (forall i j v, values !! i = Some v -> 0 <= j < columns ->
       rd m (j + Z.of_nat i * columns) = Some (gpow v (Z.to_nat (columns - 1 - j)))) /\
    (forall k, Z.of_nat (length values) * columns <= k -> rd m k = rd matrix k).
Proof.
  intros Hgf Hv Hc Hl. set (n := Z.to_nat (columns - 1)).
  replace columns with (Z.of_nat (S n)) in * by (unfold n; lia).
  rewrite (matrix_normal_ok gf Hgf) by (done || lia). eexists. split; [done|].
  pose proof (vandermonde_concat n values) as E.
  assert (HF : Forall (fun r => length r = S n) ((fun v => pows v n) <$> values))
    by (apply Forall_fmap, Forall_true; intros; apply length_pows).
  assert (Hlv : length (vandermonde n values) = (length values * S n)%nat)
    by (rewrite E, (length_concat_rows (S n)), length_fmap by done; done).
  split; [rewrite length_app, Hlv, length_drop; lia|]. split.
  - intros i j v Hi Hj. rewrite E. replace j with (Z.of_nat (Z.to_nat j)) by lia.
    rewrite (rd_concat (S n) _ _ _ _ (pows v n)); [|done|by rewrite list_lookup_fmap, Hi|lia].
    rewrite pows_lookup by lia. do 2 f_equal. lia.
  - intros k Hk. unfold rd. rewrite (proj2 (Z.leb_le 0 k)) by lia.
    rewrite lookup_app_r by (rewrite Hlv; lia). rewrite lookup_drop. f_equal. rewrite Hlv. lia.
Qed.

Lemma ec_method_matrix_normal_correct_witness :
  exists m, ec_method_matrix_normal gf_init (replicate 6 0) 2 [1; 2; 3] 3 = Some m /\
    length m = 6%nat /\
    (forall i j v, [1; 2; 3] !! i = Some v -> 0 <= j < 2 ->
       rd m (j + Z.of_nat i * 2) = Some (gpow v (Z.to_nat (2 - 1 - j)))) /\
    (forall k, 3 * 2 <= k -> rd m k = rd (replicate 6 0) k).
Proof.
  apply (ec_method_matrix_normal_correct gf_init (replicate 6 0) 2 [1; 2; 3]);
    [apply gf_init_ok|repeat constructor; unfold nz8; lia|lia|simpl; lia].
Defined.
