(* ===== verification/EcInverse.v ===== *)
(** * The decoding matrix is the interpolation matrix *)
From Stdlib Require Import Ring Field.
From S2P Require Import Prelude Poly GF256 EcGalois EcMatrix.

Add Field Ff : (k_field (K := F)).

(** ** From integers to the field *)

Definition toFs (l : list Z) : list F := toF <$> l.

Lemma toF_1 : toF 1 = k1.
Proof. done. Qed.

Lemma toF_0 : toF 0 = k0.
Proof. done. Qed.

Lemma toF_add a b : in8 a -> in8 b -> toF (Z.lxor a b) = kadd (toF a) (toF b).
Proof. apply toF_lxor. Qed.

Lemma toF_mul a b : in8 a -> in8 b -> toF (gmul a b) = kmul (toF a) (toF b).
Proof. apply toF_gmul. Qed.

Lemma toF_inv a : in8 a -> toF (ginv a) = kinv (toF a).
Proof.
  intros. apply F_eq. rewrite fv_toF by auto with gf. cbn [kinv F_isfield].
  unfold finv, mk, fv at 1. by rewrite fv_toF.
Qed.

Lemma toF_zero a : in8 a -> toF a = k0 -> a = 0.
Proof. intros Ha H. apply toF_inj; [done|unfold in8; lia|exact H]. Qed.

Lemma in8_1 : in8 1.
Proof. unfold in8. lia. Qed.
#[export] Hint Resolve in8_1 : gf.

(** ** Roots of the product *)

Lemma toFs_cons a l : toFs (a :: l) = toF a :: toFs l.
Proof. done. Qed.

Lemma toFs_nil : toFs [] = [].
Proof. done. Qed.

Lemma mulx_aux_horner v prev s (y E Ep : F) :
  in8 v -> in8 prev -> Forall in8 s -> E = kadd (kmul Ep y) (toF prev) ->
  horner y (kadd E (kmul (toF v) Ep)) (toFs (mulx_aux v prev s))
  = kmul (kadd y (toF v)) (horner y E (toFs s)).
Proof.
  intros Hv. revert prev E Ep. induction s as [|c s IH]; intros prev E Ep Hp Hs HE.
  - unfold mulx_aux. rewrite toFs_cons, toFs_nil, horner_cons, !horner_nil, toF_mul by done.
    subst E. ring.
  - apply Forall_cons in Hs as [Hc Hs]. cbn [mulx_aux]. rewrite !toFs_cons, !horner_cons.
    rewrite toF_add, toF_mul by auto with gf.
    rewrite <- (IH c (kadd (kmul E y) (toF c)) E Hc Hs eq_refl). f_equal. subst E. ring.
Qed.

Lemma mulx_eval v s y :
  in8 v -> Forall in8 s ->
  peval (k1 :: toFs (mulx v s)) y = kmul (kadd y (toF v)) (peval (k1 :: toFs s) y).
Proof.
  intros Hv Hs. unfold peval. rewrite !horner_cons, <- (mulx_aux_horner v 1 s y _ k0); auto with gf.
  - unfold mulx. f_equal. ring.
Qed.

Lemma kadd_self (x : F) : kadd x x = k0.
Proof. apply fadd_nilpotent. Qed.

Lemma prodpoly_roots values x :
  Forall in8 values -> x ∈ values -> peval (k1 :: toFs (prodpoly values)) (toF x) = k0.
Proof.
  destruct values as [|v0 vs]; [set_solver|]. intros [H0 Hvs]%Forall_cons Hx. cbn [prodpoly].
  induction vs as [|v vs IH].
  - apply list_elem_of_singleton in Hx as ->. unfold peval.
    cbn [foldr]. rewrite toFs_cons, toFs_nil, !horner_cons, horner_nil.
    transitivity (kadd (toF v0) (toF v0)); [ring|apply kadd_self].
  - apply Forall_cons in Hvs as [Hv Hvs]. cbn [foldr].
    rewrite mulx_eval; [|done|exact (prodpoly_in8 (v0 :: vs) ltac:(by constructor))].
    destruct (decide (x = v)) as [->|Hne]; [rewrite kadd_self; ring|].
    rewrite IH; [ring|done|set_solver].
Qed.

(** ** One column *)

(** The coefficients of the quotient of [1 :: a] by [X + v]. *)
Fixpoint zscan (v acc : Z) (a : list Z) : list Z :=
  match a with [] => [] | c :: a => acc :: zscan v (Z.lxor c (gmul v acc)) a end.

Definition qcol (v : Z) (a : list Z) : list Z := zscan v 1 a.

(** Evaluation of a polynomial by Horner's rule. *)
Definition hval (v : Z) (l : list Z) : Z := fold_left (fun acc c => Z.lxor c (gmul v acc)) l 0.

Definition pval (v : Z) (a : list Z) : Z := hval v (qcol v a).

Lemma length_zscan v acc a : length (zscan v acc a) = length a.
Proof. revert acc. induction a; intros; simpl; congruence. Qed.

Lemma zscan_in8 v acc a : in8 v -> in8 acc -> Forall in8 a -> Forall in8 (zscan v acc a).
Proof.
  intros Hv. revert acc. induction a as [|c a IH]; intros acc Hacc Ha; simpl; [constructor|].
  apply Forall_cons in Ha as [Hc Ha]. constructor; auto with gf.
Qed.

Lemma zscan_S v acc a (j : nat) :
  (S j < length a)%nat ->
  zscan v acc a !!! S j = Z.lxor (a !!! j) (gmul v (zscan v acc a !!! j)).
Proof.
  revert acc j. induction a as [|c a IH]; intros acc j Hj; simpl in Hj; [lia|].
  destruct j as [|j].
  - destruct a; [simpl in Hj; lia|]. reflexivity.
  - change (zscan v (Z.lxor c (gmul v acc)) a !!! S j =
            Z.lxor (a !!! j) (gmul v (zscan v (Z.lxor c (gmul v acc)) a !!! j))).
    apply IH. lia.
Qed.

Lemma zscan_toF v acc a :
  in8 v -> in8 acc -> Forall in8 a ->
  toFs (zscan v acc a) = scan (toF v) (toF acc) (toFs a).
Proof.
  intros Hv. revert acc. induction a as [|c a IH]; intros acc Hacc Ha; [done|].
  apply Forall_cons in Ha as [Hc Ha]. cbn [zscan]. rewrite !toFs_cons. cbn [scan].
  rewrite IH by auto with gf. do 2 f_equal. rewrite toF_add, toF_mul by auto with gf. ring.
Qed.

Lemma hval_snoc v l c : hval v (l ++ [c]) = Z.lxor c (gmul v (hval v l)).
Proof. unfold hval. by rewrite fold_left_app. Qed.

Lemma hval_in8 v l : in8 v -> Forall in8 l -> in8 (hval v l).
Proof.
  intros Hv. induction l as [|c l IH] using rev_ind; intros Hl; [unfold hval, in8; simpl; lia|].
  rewrite hval_snoc. apply Forall_app in Hl as [Hl [Hc _]%Forall_cons]. auto with gf.
Qed.

Lemma hval_toF v l : in8 v -> Forall in8 l -> toF (hval v l) = peval (toFs l) (toF v).
Proof.
  intros Hv. induction l as [|c l IH] using rev_ind; intros Hl; [done|].
  rewrite hval_snoc. apply Forall_app in Hl as [Hl [Hc _]%Forall_cons].
  unfold toFs. rewrite fmap_app, peval_app. cbn [fmap list_fmap].
  rewrite toF_add, toF_mul by auto using hval_in8 with gf. fold (toFs l). rewrite IH by done.
  unfold peval at 3. rewrite horner_cons, horner_nil. cbn [length kpow]. ring.
Qed.

Section Column.
Context (values : list Z) (Hval : Forall in8 values) (Hnd : NoDup values).

Abbreviation a := (prodpoly values).

Lemma qcol_toF v : in8 v -> toFs (qcol v a) = lquot (toFs a) (toF v).
Proof. intros. apply zscan_toF; auto using prodpoly_in8 with gf. Qed.

Lemma values_toF_NoDup : NoDup (toFs values).
Proof.
  unfold toFs. apply (NoDup_fmap_2_strong toF); [|done].
  intros x y Hx Hy. rewrite Forall_forall in Hval. apply toF_inj; auto.
Qed.

Lemma values_toF_roots x : x ∈ toFs values -> peval (k1 :: toFs a) x = k0.
Proof. intros (v & -> & Hv)%list_elem_of_fmap. by apply prodpoly_roots. Qed.

Lemma length_toFs_a : length (toFs a) = length (toFs values).
Proof. unfold toFs. by rewrite !length_fmap, length_prodpoly. Qed.

Lemma pval_nz v : v ∈ values -> in8 (pval v a) /\ pval v a <> 0.
Proof.
  intros Hv. assert (Hv8 : in8 v) by (by rewrite Forall_forall in Hval; auto).
  assert (Hq : Forall in8 (qcol v a)) by (apply zscan_in8; auto using prodpoly_in8 with gf).
  split; [by apply hval_in8|]. intros H0.
  apply (lquot_self (toFs values) (toFs a) values_toF_NoDup length_toFs_a values_toF_roots (toF v)).
  - apply list_elem_of_fmap. eauto.
  - rewrite <- qcol_toF, <- hval_toF by done. unfold pval in H0. by rewrite H0.
Qed.
End Column.

Section ColumnCode.
Context (gf : ec_gf_t) (Hgf : gf_ok gf).
Context (a : list Z) (Ha : Forall in8 a) (n : Z) (Hn : n = Z.of_nat (length a)) (Hn2 : 2 <= n).
Context (v : Z) (Hv : in8 v) (i : Z) (Hi : 0 <= i < n).

Abbreviation q := (qcol v a).
Abbreviation p := (pval v a).

(** The index of row [t] of the column. *)
Definition cell (t : Z) : Z := i + t * n.

Lemma cell_bound t : 0 <= t < n -> 0 <= cell t < n * n.
Proof. unfold cell. nia. Qed.

Lemma cell_inj t u : cell t = cell u -> t = u.
Proof. unfold cell. nia. Qed.

Lemma cell_next t : cell t + n = cell (t + 1).
Proof. unfold cell. lia. Qed.

Lemma length_q : Z.of_nat (length q) = n.
Proof. unfold qcol. rewrite length_zscan. lia. Qed.

Lemma q_in8 t : 0 <= t < n -> in8 (q !!! Z.to_nat t).
Proof.
  intros Ht. pose proof length_q as Hl.
  assert (Hq : Forall in8 q) by (apply zscan_in8; auto with gf).
  destruct (lookup_lt_is_Some_2 q (Z.to_nat t)) as [x Hx]; [lia|].
  rewrite (list_lookup_total_correct _ _ _ Hx). by apply (Forall_lookup_1 _ _ _ _ Hq Hx).
Qed.

Lemma q_next t : 0 <= t < n - 1 ->
  q !!! Z.to_nat (t + 1) = Z.lxor (a !!! Z.to_nat t) (gmul v (q !!! Z.to_nat t)).
Proof.
  intros Ht. replace (Z.to_nat (t + 1)) with (S (Z.to_nat t)) by lia. apply zscan_S. lia.
Qed.

Lemma q_0 : q !!! 0%nat = 1.
Proof. unfold qcol. destruct a; [simpl in *; lia|done]. Qed.

(** Value at [v] of the first coefficients of the quotient. *)
Definition hpre (t : Z) : Z := hval v (take (Z.to_nat (t + 1)) q).

Lemma hpre_in8 t : in8 (hpre t).
Proof.
  apply hval_in8, Forall_take; [done|]. apply zscan_in8; auto with gf.
Qed.

Lemma hpre_next t : 0 <= t < n - 1 ->
  hpre (t + 1) = Z.lxor (q !!! Z.to_nat (t + 1)) (gmul v (hpre t)).
Proof.
  intros Ht. unfold hpre. pose proof length_q as Hl.
  replace (Z.to_nat (t + 1 + 1)) with (S (Z.to_nat (t + 1))) by lia.
  destruct (lookup_lt_is_Some_2 q (Z.to_nat (t + 1))) as [x Hx]; [lia|].
  rewrite (take_S_r _ _ _ Hx), hval_snoc. by rewrite (list_lookup_total_correct _ _ _ Hx).
Qed.

Lemma hpre_0 : hpre 0 = 1.
Proof.
  unfold hpre. pose proof length_q. destruct q as [|x l] eqn:E; [simpl in *; lia|].
  pose proof q_0 as H0. rewrite E in H0. cbn in H0. subst x.
  change (Z.to_nat (0 + 1)) with 1%nat. cbn [take]. unfold hval. cbn [fold_left].
  by rewrite gmul_0_r.
Qed.

Lemma hpre_last : hpre (n - 1) = p.
Proof. unfold hpre. by rewrite take_ge by (pose proof length_q; lia). Qed.

(** First loop: the quotient is written down the column. *)
Definition inv1 (m0 : list Z) (j : Z) (s : list Z * Z * Z * Z) : Prop :=
  let '(m, pos, tmp, pp) := s in
  pos = cell j /\ tmp = q !!! Z.to_nat j /\ pp = hpre j /\ length m = length m0 /\
  (forall t, 1 <= t <= j -> rd m (cell t) = Some (q !!! Z.to_nat t)) /\
  (forall k, (forall t, 1 <= t <= j -> k <> cell t) -> rd m k = rd m0 k).

(** Second loop: the column is divided, from the bottom up. *)
Definition inv2 (m0 : list Z) (j : Z) (s : list Z * Z) : Prop :=
  let '(m, pos) := s in
  pos = cell (n - 1 - j) /\ length m = length m0 /\
  (forall t, 1 <= t <= n - 1 - j -> rd m (cell t) = Some (q !!! Z.to_nat t)) /\
  (forall t, n - 1 - j < t <= n - 1 -> rd m (cell t) = Some (gmul (q !!! Z.to_nat t) (ginv p))) /\
  (forall k, (forall t, 1 <= t <= n - 1 -> k <> cell t) -> rd m k = rd m0 k).

Lemma step1 m0 j s :
  n * n <= Z.of_nat (length m0) -> 1 <= j < n - 1 -> inv1 m0 j s ->
  exists s', (let '(m, pos, tmp, pp) := s in
       let pos := pos + n in
       aj ← rd a j; t ← ec_gf_mul gf v tmp;
       let tmp := Z.lxor aj t in
       m ← wr m pos tmp;
       t ← ec_gf_mul gf v pp;
       Some (m, pos, tmp, Z.lxor tmp t)) = Some s' /\ inv1 m0 (j + 1) s'.
Proof.
  intros Hm Hj. destruct s as [[[m pos] tmp] pp]. intros (-> & -> & -> & Hl & Hw & Ho).
  rewrite rd_total by lia. cbn [mbind option_bind].
  rewrite (mul_ok gf Hgf v (q !!! Z.to_nat j)) by (done || (apply q_in8; lia)). cbn [mbind option_bind].
  rewrite <- q_next, cell_next by lia.
  destruct (wr_spec m (cell (j + 1)) (q !!! Z.to_nat (j + 1))) as (m' & -> & Hl' & Hr).
  { pose proof (cell_bound (j + 1)). lia. }
  cbn [mbind option_bind]. rewrite (mul_ok gf Hgf) by auto using hpre_in8. cbn [mbind option_bind].
  eexists. split; [done|]. rewrite <- hpre_next by lia.
  split; [done|]. split; [done|]. split; [done|]. split; [lia|]. split.
  - intros t Ht. rewrite Hr. case_decide as Hd; [by apply cell_inj in Hd as ->|].
    apply Hw. destruct (decide (t = j + 1)); [congruence|lia].
  - intros k Hk. rewrite Hr, decide_False by (apply Hk; lia). apply Ho. intros t Ht. apply Hk. lia.
Qed.

Lemma step2 m0 j s :
  n * n <= Z.of_nat (length m0) -> in8 p -> p <> 0 -> 0 <= j < n - 1 -> inv2 m0 j s ->
  exists s', (let '(m, pos) := s in
       x ← rd m pos; d ← ec_gf_div gf x p;
       m ← wr m pos d;
       Some (m, pos - n)) = Some s' /\ inv2 m0 (j + 1) s'.
Proof.
  intros Hm Hp Hp0 Hj. destruct s as [m pos]. intros (-> & Hl & Hw & Hd & Ho).
  rewrite Hw by lia. cbn [mbind option_bind].
  rewrite (div_ok gf Hgf) by (done || (apply q_in8; lia)). cbn [mbind option_bind].
  destruct (wr_spec m (cell (n - 1 - j)) (gmul (q !!! Z.to_nat (n - 1 - j)) (ginv p)))
    as (m' & -> & Hl' & Hr).
  { pose proof (cell_bound (n - 1 - j)). lia. }
  cbn [mbind option_bind]. eexists. split; [done|].
  split; [unfold cell; lia|]. split; [lia|]. split; [|split].
  - intros t Ht. rewrite Hr, decide_False; [apply Hw; lia|]. intros Hc%cell_inj. lia.
  - intros t Ht. rewrite Hr. case_decide as Hc; [by apply cell_inj in Hc as ->|].
    apply Hd. destruct (decide (t = n - 1 - j)); [congruence|lia].
  - intros k Hk. rewrite Hr, decide_False by (apply Hk; lia). by apply Ho.
Qed.

Lemma inverse_col_ok values m :
  n * n <= Z.of_nat (length m) -> in8 p -> p <> 0 -> rd values i = Some v ->
  exists m', inverse_col gf a values n (n - 1) i (m, i) = Some (m', i + 1) /\
    length m' = length m /\
    (forall t, 0 <= t < n -> rd m' (cell t) = Some (gmul (q !!! Z.to_nat t) (ginv p))) /\
    (forall k, (forall t, 0 <= t < n -> k <> cell t) -> rd m' k = rd m k).
Proof.
  intros Hm Hp Hp0 Hvi. unfold inverse_col.
  rewrite (rd_total a 0) by lia. cbn [mbind option_bind]. rewrite Hvi. cbn [mbind option_bind].
  assert (Hq1 : Z.lxor (a !!! Z.to_nat 0) v = q !!! Z.to_nat 1).
  { change 1 with (0 + 1). rewrite q_next by lia. change (Z.to_nat 0) with 0%nat.
    rewrite q_0, gmul_1_r by done. done. }
  assert (Hh1 : a !!! Z.to_nat 0 = hpre 1).
  { change 1 with (0 + 1). rewrite hpre_next, hpre_0, gmul_1_r by (done || lia).
    change (0 + 1) with 1. rewrite <- Hq1, Z.lxor_assoc, Z.lxor_nilpotent, Z.lxor_0_r. done. }
  rewrite Hq1, Hh1. replace (i + n) with (cell 1) by (unfold cell; lia).
  destruct (wr_spec m (cell 1) (q !!! Z.to_nat 1)) as (m1 & -> & Hl1 & Hr1).
  { pose proof (cell_bound 1). lia. }
  cbn [mbind option_bind].
  loop_inv (inv1 m) L1. destruct L1
    as ([[[m2 pos] tmp] pp] & E1 & (-> & -> & -> & Hl2 & Hw2 & Ho2)); [| |rewrite E1].
  { repeat split; auto.
    - intros t Ht. replace t with 1 by lia. by rewrite Hr1, decide_True.
    - intros k Hk. rewrite Hr1, decide_False; [done|]. apply Hk. lia. }
  { intros j s Hj Hs. apply step1; [lia|lia|done]. }
  replace (1 + Z.of_nat (Z.to_nat (n - 1 - 1))) with (n - 1) in * by lia.
  rewrite hpre_last. cbn [mbind option_bind].
  loop_inv (inv2 m) L2. destruct L2
    as ([m3 pos3] & E2 & (-> & Hl3 & _ & Hd3 & Ho3)); [| |rewrite E2].
  { split; [f_equal; lia|]. split; [done|]. split; [intros; apply Hw2; lia|].
    split; [intros; lia|]. exact Ho2. }
  { intros j s Hj Hs. apply step2; [done..|lia|done]. }
  cbn [mbind option_bind]. rewrite (div_ok gf Hgf) by auto with gf. cbn [mbind option_bind].
  replace (n - 1 - (0 + Z.of_nat (Z.to_nat (n - 1)))) with 0 in * by lia.
  destruct (wr_spec m3 (cell 0) (gmul 1 (ginv p))) as (m4 & -> & Hl4 & Hr4).
  { pose proof (cell_bound 0). lia. }
  cbn [mbind option_bind]. exists m4. split; [f_equal; f_equal; unfold cell; lia|].
  split; [lia|]. split.
  - intros t Ht. rewrite Hr4. case_decide as Hc.
    + apply cell_inj in Hc as ->. change (Z.to_nat 0) with 0%nat. by rewrite q_0.
    + apply Hd3. destruct (decide (t = 0)); [congruence|lia].
  - intros k Hk. rewrite Hr4, decide_False by (apply Hk; lia). apply Ho3. intros; apply Hk; lia.
Qed.
End ColumnCode.

(** ** The whole matrix *)

(** Row [t] of the decoding matrix: the [t]-th coefficient of every
    interpolation polynomial. *)
Definition drow (values : list Z) (t : nat) : list Z :=
  (fun v => gmul (qcol v (prodpoly values) !!! t) (ginv (pval v (prodpoly values)))) <$> values.

Definition drows (values : list Z) : list (list Z) := drow values <$> seq 0 (length values).

Lemma length_drow values t : length (drow values t) = length values.
Proof. apply length_fmap. Qed.

Lemma drows_length values : Forall (fun r => length r = length values) (drows values).
Proof. apply Forall_fmap, Forall_true. intros t. apply length_drow. Qed.

Section Whole.
Context (gf : ec_gf_t) (Hgf : gf_ok gf).
Context (values : list Z) (Hval : Forall in8 values) (Hnd : NoDup values).
Context (Hlen : 2 <= Z.of_nat (length values) < 2 ^ 32).

Abbreviation n := (Z.of_nat (length values)).
Abbreviation a := (prodpoly values).

(** After [i] columns. *)
Definition invw (m0 : list Z) (i : Z) (s : list Z * Z) : Prop :=
  let '(m, pos) := s in
  pos = i /\ length m = length m0 /\
  (forall j t, (Z.of_nat j < i) -> 0 <= t < n ->
     rd m (Z.of_nat j + t * n) = drow values (Z.to_nat t) !! j) /\
  (forall k, n * n <= k -> rd m k = rd m0 k).

Lemma invw_step m0 i s :
  n * n <= Z.of_nat (length m0) -> 0 <= i < n -> invw m0 i s ->
  exists s', inverse_col gf a values n (n - 1) i s = Some s' /\ invw m0 (i + 1) s'.
Proof.
  intros Hm Hi. destruct s as [m pos]. intros (-> & Hl & Hw & Ho).
  destruct (rd_Some values i Hi) as (v & Hv & Hvn).
  assert (Hin : v ∈ values) by (eapply list_elem_of_lookup_2; eauto).
  destruct (pval_nz values Hval Hnd v Hin) as [Hp Hp0].
  destruct (inverse_col_ok gf Hgf a (prodpoly_in8 values Hval) n) with (v := v) (i := i)
    (values := values) (m := m) as (m' & E & Hl' & Hc & Ho'); try done.
  { by rewrite length_prodpoly. }
  { lia. }
  { by apply (Forall_lookup_1 _ _ _ _ Hval Hvn). }
  { by rewrite Hl. }
  exists (m', i + 1). split; [done|]. split; [done|]. split; [lia|]. split.
  - intros j t Hj Ht. destruct (decide (Z.of_nat j = i)) as [<-|Hne].
    + unfold cell in Hc. rewrite Hc by lia. unfold drow. rewrite list_lookup_fmap.
      rewrite Nat2Z.id in Hvn. by rewrite Hvn.
    + rewrite Ho'; [apply Hw; lia|]. intros u Hu. unfold cell. intros Heq.
      apply Z_idx_inj in Heq; [|lia..]. lia.
  - intros k Hk. rewrite Ho'; [by apply Ho|]. intros t Ht. unfold cell. nia.
Qed.

Lemma matrix_inverse_ok a0 matrix :
  length a0 = length values -> n * n <= Z.of_nat (length matrix) ->
  ec_method_matrix_inverse gf a0 matrix values n
  = Some (concat (drows values) ++ drop (length values * length values) matrix).
Proof.
  intros Ha0 Hm. unfold ec_method_matrix_inverse. rewrite u32_small by lia. cbv zeta.
  assert (E : inverse_poly gf a0 values (n - 1) = Some a).
  { clear Hm Hnd. destruct values as [|v0 vs]; [simpl in Hlen; lia|].
    replace (Z.of_nat (length (v0 :: vs)) - 1) with (Z.of_nat (length vs)) by (simpl; lia).
    by apply inverse_poly_ok. }
  rewrite E. cbn [mbind option_bind].
  loop_inv (invw matrix) L. destruct L as ([m pos] & -> & (_ & Hl & Hw & Ho)).
  { repeat split; auto. intros; lia. }
  { intros j s Hj Hs. apply invw_step; [done|lia|done]. }
  cbn [mbind option_bind]. f_equal.
  assert (Hcl : length (concat (drows values)) = (length values * length values)%nat).
  { rewrite (length_concat_rows (length values)) by apply drows_length.
    unfold drows. by rewrite length_fmap, length_seq. }
  apply rd_ext; [rewrite length_app, Hcl, length_drop; lia|].
  intros k Hk. destruct (Z.ltb_spec k (n * n)) as [Hkn|Hkn].
  - pose proof (Z.div_mod k n ltac:(lia)) as Ek. pose proof (Z.mod_pos_bound k n ltac:(lia)).
    assert (0 <= k / n < n) by nia.
    replace k with (Z.of_nat (Z.to_nat (k mod n)) + Z.of_nat (Z.to_nat (k / n)) * n) by lia.
    rewrite (rd_concat (length values) _ _ _ _ (drow values (Z.to_nat (k / n)))).
    + rewrite Hw by lia. by rewrite Nat2Z.id.
    + apply drows_length.
    + unfold drows. rewrite list_lookup_fmap, lookup_seq_lt by lia. done.
    + lia.
  - rewrite Ho by done. unfold rd. rewrite !(proj2 (Z.leb_le 0 k)) by lia.
    rewrite lookup_app_r by (rewrite Hcl; lia). rewrite lookup_drop. f_equal. rewrite Hcl. lia.
Qed.
End Whole.

(** ** Decoding what was encoded *)

(** [xs . ys] over the field. *)
Fixpoint dot (xs ys : list Z) : Z :=
  match xs, ys with
  | x :: xs, y :: ys => Z.lxor (gmul x y) (dot xs ys)
  | _, _ => 0
  end.

Fixpoint kdot (xs ys : list F) : F :=
  match xs, ys with
  | x :: xs, y :: ys => kadd (kmul x y) (kdot xs ys)
  | _, _ => k0
  end.

Lemma dot_in8 xs ys : Forall in8 xs -> Forall in8 ys -> in8 (dot xs ys).
Proof.
  intros Hx. revert ys. induction Hx; intros ys Hy; [unfold in8; simpl; lia|].
  destruct Hy; [unfold in8; simpl; lia|]. cbn [dot]. auto with gf.
Qed.
#[export] Hint Resolve dot_in8 : gf.

Lemma dot_toF xs ys :
  Forall in8 xs -> Forall in8 ys -> toF (dot xs ys) = kdot (toFs xs) (toFs ys).
Proof.
  intros Hx. revert ys. induction Hx; intros ys Hy; [done|]. destruct Hy; [done|].
  cbn [dot]. rewrite !toFs_cons. cbn [kdot].
  rewrite toF_add, toF_mul, IHHx by auto with gf. done.
Qed.

Lemma length_toFs l : length (toFs l) = length l.
Proof. apply length_fmap. Qed.

Lemma toFs_lookup l t : toFs l !! t = toF <$> l !! t.
Proof. apply list_lookup_fmap. Qed.

Lemma toF_gpow v n : in8 v -> toF (gpow v n) = kpow (toF v) n.
Proof.
  intros Hv. induction n as [|n IH]; [done|]. cbn [gpow kpow].
  rewrite toF_mul, IH by auto with gf. done.
Qed.

Lemma pows_in8 v n : in8 v -> Forall in8 (pows v n).
Proof. intros Hv. induction n; cbn [pows]; constructor; auto with gf. Qed.
#[export] Hint Resolve pows_in8 hval_in8 : gf.

(** The encoding row of [v] evaluates the data at [v]. *)
Lemma dot_pows v D n : in8 v -> Forall in8 D -> length D = S n -> dot (pows v n) D = hval v D.
Proof.
  intros Hv HD Hl. apply toF_inj; auto with gf.
  rewrite dot_toF, hval_toF by auto with gf.
  revert D HD Hl. induction n as [|n IH]; intros [|c D] HD Hl; try done.
  - destruct D; [|done]. rewrite !toFs_cons, toFs_nil, peval_cons. cbn [pows toFs fmap list_fmap kdot].
    cbn [length kpow]. rewrite toF_1. unfold peval, horner. cbn [fold_left]. ring.
  - apply Forall_cons in HD as [Hc HD]. cbn [pows]. rewrite !toFs_cons, peval_cons. cbn [kdot].
    rewrite IH by (done || (simpl in Hl; lia)). rewrite toF_gpow by done.
    rewrite length_toFs. replace (length D) with (S n) by (simpl in Hl; lia). ring.
Qed.

#[export] Instance F_inhabited : Inhabited F := populate k0.

Lemma length_lagrange_a (a : list F) y : length (lagrange a y) = length a.
Proof. unfold lagrange, lquot, quot. rewrite length_fmap, length_scan. done. Qed.

Lemma lcomb_lookup (xs a : list F) ys ds t :
  (t < length xs)%nat -> length a = length xs -> length ds = length ys ->
  lcomb xs a ys ds !! t = Some (kdot ((fun y => lagrange a y !!! t) <$> ys) ds).
Proof.
  intros Ht Ha. revert ds. induction ys as [|y ys IH]; intros [|d ds] Hl; try done.
  - cbn. by apply lookup_replicate_2.
  - cbn [lcomb fmap list_fmap kdot]. unfold padd, pscale.
    rewrite lookup_zip_with, list_lookup_fmap, IH by (simpl in Hl; lia).
    rewrite (list_lookup_lookup_total_lt (lagrange a y)) by (rewrite length_lagrange_a; lia).
    cbn [fmap option_fmap option_map mbind option_bind]. do 2 f_equal. ring.
Qed.

Section Decode.
Context (values : list Z) (Hval : Forall in8 values) (Hnd : NoDup values).

Abbreviation a := (prodpoly values).

Lemma drow_in8 t : (t < length values)%nat -> Forall in8 (drow values t).
Proof.
  intros Ht. apply Forall_fmap, Forall_forall. intros v Hv. cbn.
  destruct (pval_nz values Hval Hnd v Hv) as [Hp _].
  assert (Hv8 : in8 v) by (by rewrite Forall_forall in Hval; auto).
  assert (Hq : Forall in8 (qcol v a)) by (apply zscan_in8; auto using prodpoly_in8 with gf).
  apply in8_gmul; [|by apply in8_ginv].
  apply Forall_lookup_total_1; [done|]. unfold qcol. by rewrite length_zscan, length_prodpoly.
Qed.

Lemma drow_toF t : (t < length values)%nat ->
  toFs (drow values t) = (fun y => lagrange (toFs a) y !!! t) <$> toFs values.
Proof.
  intros Ht. unfold drow, toFs. rewrite <- !list_fmap_compose. apply list_fmap_ext.
  intros i v Hi. unfold compose. apply list_elem_of_lookup_2 in Hi.
  destruct (pval_nz values Hval Hnd v Hi) as [Hp Hp0].
  assert (Hv8 : in8 v) by (by rewrite Forall_forall in Hval; auto).
  assert (Hq : Forall in8 (qcol v a)) by (apply zscan_in8; auto using prodpoly_in8 with gf).
  fold (toFs a). unfold lagrange. rewrite <- qcol_toF by done.
  assert (Hl : (t < length (qcol v a))%nat) by (unfold qcol; by rewrite length_zscan, length_prodpoly).
  rewrite (list_lookup_total_alt (A := F)), list_lookup_fmap, toFs_lookup.
  rewrite (list_lookup_lookup_total_lt (qcol v a)) by done.
  cbn [fmap option_fmap option_map default from_option id].
  rewrite toF_mul by (try apply in8_ginv; try apply Forall_lookup_total_1; done).
  rewrite toF_inv, <- hval_toF by done. fold (pval v a). field.
  intros H. apply Hp0. by apply toF_zero.
Qed.

(** The decoding matrix recovers the data from their values. *)
Lemma drow_decodes D t :
  Forall in8 D -> length D = length values -> (t < length values)%nat ->
  dot (drow values t) ((fun v => hval v D) <$> values) = D !!! t.
Proof.
  intros HD Hl Ht. apply toF_inj.
  { apply dot_in8; [by apply drow_in8|]. apply Forall_fmap, (Forall_impl _ _ _ Hval).
    intros v Hv. cbn. auto with gf. }
  { apply Forall_lookup_total_1; [done|lia]. }
  rewrite dot_toF; [|by apply drow_in8|].
  2: { apply Forall_fmap, (Forall_impl _ _ _ Hval). intros v Hv. cbn. auto with gf. }
  assert (E : toFs ((fun v => hval v D) <$> values) = peval (toFs D) <$> toFs values).
  { unfold toFs. rewrite <- !list_fmap_compose. apply list_fmap_ext. intros i v Hi.
    unfold compose. pose proof (Forall_lookup_1 _ _ _ _ Hval Hi) as Hv.
    exact (hval_toF v D Hv HD). }
  rewrite E, drow_toF by done.
  pose proof (interpolation (toFs values) (toFs a) (values_toF_NoDup _ Hval Hnd)
    (length_toFs_a values) (values_toF_roots _ Hval) (toFs D)) as I.
  rewrite !length_toFs in I. specialize (I Hl).
  assert (Hs : Some (kdot ((fun y => lagrange (toFs a) y !!! t) <$> toFs values)
                  (peval (toFs D) <$> toFs values)) = Some (toF (D !!! t))).
  { rewrite <- (lcomb_lookup (toFs values)), I;
      rewrite ?length_fmap, ?length_toFs, ?length_prodpoly; try done.
    rewrite toFs_lookup, list_lookup_lookup_total_lt by lia. done. }
  by injection Hs.
Qed.
End Decode.

(** ** The inverse matrix inverts the encoding matrix *)

Definition mrow (n : nat) (m : list Z) (r : nat) : list Z :=
  (fun i => m !!! (i + r * n)%nat) <$> seq 0 n.

Definition mcol (n : nat) (m : list Z) (c : nat) : list Z :=
  (fun i => m !!! (c + i * n)%nat) <$> seq 0 n.

Lemma list_eq_seq {A} `{!Inhabited A} (l : list A) n f :
  length l = n -> (forall i, (i < n)%nat -> f i = l !!! i) -> f <$> seq 0 n = l.
Proof.
  intros Hl Hf. apply list_eq. intros i. rewrite list_lookup_fmap.
  destruct (decide (i < n)%nat) as [Hi|Hi].
  - rewrite lookup_seq_lt, list_lookup_lookup_total_lt by lia. cbn. f_equal. by apply Hf.
  - rewrite lookup_seq_ge, lookup_ge_None_2 by lia. done.
Qed.

Lemma concat_lookup_total {A} `{!Inhabited A} n (rows : list (list A)) tl t i r :
  Forall (fun r => length r = n) rows -> rows !! t = Some r -> (i < n)%nat ->
  (concat rows ++ tl) !!! (i + t * n)%nat = r !!! i.
Proof.
  intros HF Ht Hi. apply lookup_lt_Some in Ht as Hl. rewrite list_lookup_total_alt, lookup_app_l.
  - by rewrite (concat_lookup n _ _ _ r), list_lookup_total_alt.
  - rewrite (length_concat_rows n) by done. nia.
Qed.

Lemma mrow_concat n rows tl r row :
  Forall (fun r => length r = n) rows -> rows !! r = Some row ->
  mrow n (concat rows ++ tl) r = row.
Proof.
  intros HF Hr. apply list_eq_seq; [by apply (Forall_lookup_1 _ _ _ _ HF Hr)|].
  intros i Hi. by apply concat_lookup_total.
Qed.

Lemma mcol_concat n rows tl c :
  Forall (fun r => length r = n) rows -> length rows = n -> (c < n)%nat ->
  mcol n (concat rows ++ tl) c = (fun r => r !!! c) <$> rows.
Proof.
  intros HF Hl Hc. apply list_eq_seq; [by rewrite length_fmap|]. intros i Hi.
  destruct (lookup_lt_is_Some_2 rows i) as [r Hr]; [lia|].
  rewrite (concat_lookup_total n _ _ _ _ r) by done.
  rewrite (list_lookup_total_alt (_ <$> _)), list_lookup_fmap, Hr. done.
Qed.

(** The unit vector of the power [c]. *)
Definition unit_vec (n c : nat) : list Z := <[c := 1]> (replicate n 0).

Lemma dot_zero xs n : dot xs (replicate n 0) = 0.
Proof.
  revert n. induction xs as [|x xs IH]; intros [|n]; try done. cbn [replicate dot].
  by rewrite gmul_0_r, IH.
Qed.

Lemma dot_unit xs c n : Forall in8 xs -> length xs = n -> (c < n)%nat -> dot xs (unit_vec n c) = xs !!! c.
Proof.
  intros HF. revert c n. induction HF as [|x xs Hx HF IH]; intros c [|n] Hl Hc; simpl in Hl; try lia.
  destruct c as [|c]; unfold unit_vec; cbn [replicate insert list_insert dot].
  - rewrite gmul_1_r, dot_zero, Z.lxor_0_r by done. done.
  - rewrite gmul_0_r, Z.lxor_0_l. apply IH; lia.
Qed.

Lemma unit_vec_in8 n c : Forall in8 (unit_vec n c).
Proof.
  apply Forall_insert; [|auto with gf]. apply Forall_replicate. unfold in8. lia.
Qed.

Lemma length_unit_vec n c : length (unit_vec n c) = n.
Proof. unfold unit_vec. by rewrite length_insert, length_replicate. Qed.

(** C8: for distinct non-zero values, [ec_method_matrix_inverse] terminates within
    its buffers and its result, multiplied by the matrix that
    [ec_method_matrix_normal] builds for the same values, is the identity. *)
Theorem ec_method_matrix_inverse_correct gf values a0 mbuf nbuf :
  gf_ok gf -> Forall nz8 values -> NoDup values ->
  (2 <= length values)%nat -> Z.of_nat (length values) < 2 ^ 32 ->
  length a0 = length values ->
  (length values * length values <= length mbuf)%nat ->
  (length values * length values <= length nbuf)%nat ->
  let n := length values in
  exists M N,
    ec_method_matrix_inverse gf a0 mbuf values (Z.of_nat n) = Some M /\
    ec_method_matrix_normal gf nbuf (Z.of_nat n) values (Z.of_nat n) = Some N /\
    forall r c, (r < n)%nat -> (c < n)%nat ->
      dot (mrow n M r) (mcol n N c) = if decide (r = c) then 1 else 0.
Proof.
  intros Hgf Hnz Hnd H2 H32 Ha0 Hm Hn n.
  assert (Hval : Forall in8 values) by (eapply Forall_impl; [exact Hnz|apply nz8_in8]).
  assert (exists k, n = S k) as [k En] by (exists (n - 1)%nat; lia).
  do 2 eexists. split; [apply matrix_inverse_ok; try done; lia|]. split.
  { rewrite En at 1. apply matrix_normal_ok; try done; subst n; lia. }
  intros r c Hr Hc. rewrite vandermonde_concat.
  rewrite (mrow_concat _ _ _ _ (drow values r)); [|apply drows_length|].
  2: { unfold drows. rewrite list_lookup_fmap, lookup_seq_lt by (subst n; lia). done. }
  rewrite mcol_concat; [|apply Forall_fmap, Forall_true; intros; rewrite En; apply length_pows
                        |by rewrite length_fmap|done].
  rewrite <- list_fmap_compose.
  transitivity (dot (drow values r) ((fun v => hval v (unit_vec n c)) <$> values)).
  { f_equal. apply list_fmap_ext. intros i v Hi. unfold compose.
    pose proof (Forall_lookup_1 _ _ _ _ Hval Hi).
    rewrite <- (dot_pows v _ k) by (done || apply unit_vec_in8 || (by rewrite length_unit_vec)).
    symmetry. apply dot_unit; [by apply pows_in8|by rewrite length_pows|done]. }
  rewrite drow_decodes; [|done|done|apply unit_vec_in8|rewrite length_unit_vec; lia|lia].
  unfold unit_vec. case_decide as Hd.
  - subst c. rewrite list_lookup_total_insert_eq; [done|]. by rewrite length_replicate.
  - rewrite list_lookup_total_insert_ne by done. by apply lookup_total_replicate_2.
Qed.

Lemma ec_method_matrix_inverse_correct_witness :
  Forall nz8 [1; 2; 4] /\ NoDup [1; 2; 4] /\
  exists M N,
    ec_method_matrix_inverse gf_init [0; 0; 0] (replicate 9 0) [1; 2; 4] 3 = Some M /\
    ec_method_matrix_normal gf_init (replicate 9 0) 3 [1; 2; 4] 3 = Some N /\
    forall r c, (r < 3)%nat -> (c < 3)%nat ->
      dot (mrow 3 M r) (mcol 3 N c) = if decide (r = c) then 1 else 0.
Proof.
  assert (H1 : Forall nz8 [1; 2; 4]) by (repeat constructor; unfold nz8; lia).
  assert (H2 : NoDup [1; 2; 4]) by (vm_compute; apply (bool_decide_unpack _); vm_compute; exact I).
  split; [done|]. split; [done|].
  apply (ec_method_matrix_inverse_correct gf_init [1; 2; 4] [0; 0; 0] (replicate 9 0) (replicate 9 0));
    [apply gf_init_ok|done|done|simpl; lia|simpl; lia|done|simpl; lia|simpl; lia].
Defined.
