(* ===== verification/EcCombine.v ===== *)
(** * The precompiled row functions (ec-code-c.c)

    [ec_code_c_prepare] turns a row of coefficients into the quotients of
    consecutive non-zero coefficients; [ec_code_c_linear] and
    [ec_code_c_interleaved] then evaluate the linear combination of the row by
    Horner's rule, one [gf8_muladd] kernel per coefficient.  A buffer is the
    list of its chunks and a byte offset selects the chunk it is the start of;
    the coefficients of a row are at an index [vo] of the matrix. *)
From S2P Require Import Prelude GF256 EcCodeC EcBodies EcMuladd EcGalois EcMatrix EcInverse.

Definition EC_METHOD_CHUNK_SIZE : Z := 512.

(** The chunk at a byte offset. *)
Definition rdc (buf : list chunk) (off : Z) : option chunk :=
  if off mod EC_METHOD_CHUNK_SIZE =? 0 then rd buf (off / EC_METHOD_CHUNK_SIZE) else None.

Definition wrc (buf : list chunk) (off : Z) (c : chunk) : option (list chunk) :=
  if off mod EC_METHOD_CHUNK_SIZE =? 0 then wr buf (off / EC_METHOD_CHUNK_SIZE) c else None.

(** ** The code *)

Definition zero : chunk := replicate CHUNK_WORDS 0.

(** One round of [ec_code_c_prepare]. *)
Definition prepare_step (gf : ec_gf_t) (vo count k : Z) (s : list Z * Z) : option (list Z * Z) :=
  let '(values, last) := s in
  let i := count - k in
  tmp ← rd values (vo + i - 1);
  if negb (tmp =? 0) then
    d ← ec_gf_div gf tmp last;
    values ← wr values (vo + i - 1) d;
    Some (values, tmp)
  else Some (values, last).

Definition ec_code_c_prepare (gf : ec_gf_t) (values : list Z) (vo count : Z) : option (list Z) :=
  '(values, _) ← for_up (Z.to_nat count) 0 (prepare_step gf vo count) (values, 1);
  Some values.

(** One round of the loop of [ec_code_c_linear]. *)
Definition linear_step (src : list chunk) (values : list Z) (s : chunk * Z * Z)
    : option (chunk * Z * Z) :=
  let '(dst, src_off, vp) := s in
  let src_off := src_off + EC_METHOD_CHUNK_SIZE in
  s ← rdc src src_off;
  v ← rd values vp;
  dst ← muladd v dst s;
  Some (dst, src_off, vp + 1).

Definition ec_code_c_linear (dst : chunk) (src : list chunk) (offset : Z) (values : list Z)
    (vo count : Z) : option chunk :=
  s ← rdc src offset;
  '(dst, _, _) ← for_up (Z.to_nat (u32 (count - 1))) 0 (fun _ => linear_step src values)
    (gf8_muladd_00 dst s, offset, vo);
  Some dst.

(** The loop [while ((last = *values++) == 0) i++]; it leaves the array when
    there is no other value, so the number of values is enough fuel. *)
Fixpoint skip_zeros (fuel : nat) (values : list Z) (vp i : Z) : option (Z * Z * Z) :=
  match fuel with
  | O => None
  | S fuel =>
      last ← rd values vp;
      if last =? 0 then skip_zeros fuel values (vp + 1) (i + 1) else Some (last, vp + 1, i)
  end.

(** One round of the second loop of [ec_code_c_interleaved]. *)
Definition interleaved_step (src : list (list chunk)) (offset : Z) (values : list Z) (i : Z)
    (s : chunk * Z * Z) : option (chunk * Z * Z) :=
  let '(dst, last, vp) := s in
  tmp ← rd values vp;
  if negb (tmp =? 0) then
    b ← rd src i; s ← rdc b offset;
    dst ← muladd last dst s;
    Some (dst, tmp, vp + 1)
  else Some (dst, last, vp + 1).

Definition ec_code_c_interleaved (dst : chunk) (src : list (list chunk)) (offset : Z)
    (values : list Z) (vo count : Z) : option chunk :=
  '(last, vp, i) ← skip_zeros (S (length values)) values vo 0;
  b ← rd src i; s ← rdc b offset;
  let dst := gf8_muladd_00 dst s in
  let i := i + 1 in
  '(dst, last, _) ← for_up (Z.to_nat (count - i)) i (interleaved_step src offset values)
    (dst, last, vp);
  muladd last dst zero.

(** ** Preparation *)

(** The quotients, and the first non-zero coefficient (1 if there is none). *)
Fixpoint prep (vs : list Z) : list Z * Z :=
  match vs with
  | [] => ([], 1)
  | v :: vs => let '(ws, nxt) := prep vs in
      if v =? 0 then (0 :: ws, nxt) else (gmul v (ginv nxt) :: ws, v)
  end.

Definition quots (vs : list Z) : list Z := (prep vs).1.
Definition first_nz (vs : list Z) : Z := (prep vs).2.

Lemma quots_cons v vs :
  quots (v :: vs) = (if v =? 0 then 0 else gmul v (ginv (first_nz vs))) :: quots vs.
Proof. unfold quots, first_nz. simpl. destruct (prep vs). by destruct (v =? 0). Qed.

Lemma first_nz_cons v vs : first_nz (v :: vs) = if v =? 0 then first_nz vs else v.
Proof. unfold first_nz. simpl. destruct (prep vs). by destruct (v =? 0). Qed.

Lemma length_quots vs : length (quots vs) = length vs.
Proof. induction vs as [|v vs IH]; [done|]. rewrite quots_cons. simpl. by rewrite IH. Qed.

Lemma first_nz_nz8 vs : Forall in8 vs -> nz8 (first_nz vs).
Proof.
  induction 1 as [|v vs Hv Hvs IH]; [cbv; split; congruence|]. rewrite first_nz_cons.
  destruct (Z.eqb_spec v 0); [done|]. unfold in8, nz8 in *. lia.
Qed.

Lemma nz8_div a b : nz8 a -> nz8 b -> nz8 (gmul a (ginv b)).
Proof.
  intros Ha Hb. assert (H : in8 (gmul a (ginv b))) by auto using in8_ginv with gf.
  assert (gmul a (ginv b) <> 0); [|unfold in8, nz8 in *; lia].
  intros E. assert (gmul (gmul a (ginv b)) b = a) as Hab.
  { rewrite <- gmul_assoc, gmul_inv_l, gmul_1_r; auto using in8_ginv with gf. unfold nz8 in Hb. lia. }
  rewrite E, gmul_0_l in Hab. unfold nz8 in Ha. lia.
Qed.

Section Gf.
Context (gf : ec_gf_t) (Hgf : gf_ok gf).

Lemma prepare_loop l r todo : forall done_ k N,
  Forall in8 (todo ++ done_) -> k = Z.of_nat (length done_) ->
  N = Z.of_nat (length todo + length done_) ->
  for_up (length todo) k (prepare_step gf (Z.of_nat (length l)) N)
    (l ++ todo ++ quots done_ ++ r, first_nz done_)
  = Some (l ++ quots (todo ++ done_) ++ r, first_nz (todo ++ done_)).
Proof.
  induction todo as [|x todo IH] using rev_ind; intros done_ k N HF Hk HN; [done|].
  rewrite length_app in HN |- *. cbn [length] in HN |- *. rewrite <- app_assoc in HF.
  replace (length todo + 1)%nat with (S (length todo)) by lia. cbn [for_up].
  pose proof HF as [_ [Hx Hd]%Forall_cons]%Forall_app.
  assert (E : prepare_step gf (Z.of_nat (length l)) N k
      (l ++ (todo ++ [x]) ++ quots done_ ++ r, first_nz done_)
    = Some (l ++ todo ++ quots (x :: done_) ++ r, first_nz (x :: done_))).
  { unfold prepare_step. cbv zeta.
    replace (Z.of_nat (length l) + (N - k) - 1) with (Z.of_nat (length (l ++ todo)))
      by (rewrite length_app; lia).
    rewrite !app_assoc, <- (app_assoc (l ++ todo)). cbn [app]. rewrite <- !app_assoc. cbn [app].
    rewrite (app_assoc l), rd_app by done. cbn [mbind option_bind].
    rewrite quots_cons, first_nz_cons. destruct (Z.eqb_spec x 0) as [->|Hx0]; cbn [negb].
    { by rewrite <- app_assoc. }
    pose proof (first_nz_nz8 done_ Hd) as Hf.
    rewrite (div_ok gf Hgf) by (auto with gf; unfold nz8 in Hf; lia).
    cbn [mbind option_bind]. rewrite wr_app by done. cbn [mbind option_bind].
    by rewrite <- app_assoc. }
  rewrite E. cbn [mbind option_bind]. rewrite <- (app_assoc todo). cbn [app].
  apply IH; [done|simpl; lia|simpl; lia].
Qed.

Lemma prepare_ok l vs r :
  Forall in8 vs ->
  ec_code_c_prepare gf (l ++ vs ++ r) (Z.of_nat (length l)) (Z.of_nat (length vs))
  = Some (l ++ quots vs ++ r).
Proof.
  intros HF. unfold ec_code_c_prepare. rewrite Nat2Z.id.
  pose proof (prepare_loop l r vs [] 0 (Z.of_nat (length vs))) as E.
  rewrite app_nil_r in E. specialize (E HF eq_refl ltac:(simpl; lia)).
  change (quots []) with (@nil Z) in E. change (first_nz []) with 1 in E. cbn [app] in E.
  by rewrite E.
Qed.
End Gf.

(** ** Evaluation *)

(** What a row function must produce: the combination of the source chunks. *)
Definition combines (vs : list Z) (ss : list chunk) (r : chunk) : Prop :=
  chunk_ok r /\ forall i t, (i < WIDTH)%nat -> celem r i t = dot vs ((fun s => celem s i t) <$> ss).

(** The same with a multiple of a chunk added. *)
Definition continues (cur : Z) (dst : chunk) (vs : list Z) (ss : list chunk) (r : chunk) : Prop :=
  chunk_ok r /\ forall i t, (i < WIDTH)%nat ->
    celem r i t = Z.lxor (gmul cur (celem dst i t)) (dot vs ((fun s => celem s i t) <$> ss)).

Lemma div_mul_l a b x : in8 a -> nz8 b -> in8 x -> gmul b (gmul (gmul a (ginv b)) x) = gmul a x.
Proof.
  intros Ha Hb Hx. rewrite gmul_assoc by auto using in8_ginv with gf. f_equal.
  rewrite (gmul_comm b), <- gmul_assoc, gmul_inv_l, gmul_1_r; auto using in8_ginv with gf.
  unfold nz8 in Hb. lia.
Qed.

(** A kernel step keeps the combination. *)
Lemma continues_step cur v dst s dst' vs ss r :
  nz8 cur -> nz8 v ->
  (forall i t, (i < WIDTH)%nat ->
     celem dst' i t = Z.lxor (gmul (gmul cur (ginv v)) (celem dst i t)) (celem s i t)) ->
  continues v dst' vs ss r -> continues cur dst (v :: vs) (s :: ss) r.
Proof.
  intros Hc Hv Hd [Hr H]. split; [done|]. intros i t Hi.
  rewrite H, Hd by done. cbn [fmap list_fmap dot].
  rewrite gmul_lxor_r.
  rewrite div_mul_l, Z.lxor_assoc by auto with gf. done.
Qed.

Lemma zero_ok : chunk_ok zero.
Proof. split; [done|]. apply Forall_replicate. unfold word. lia. Qed.

Lemma celem_zero i t : (i < WIDTH)%nat -> celem zero i t = 0.
Proof.
  intros Hi. unfold celem, column, zero, pmap.
  change WIDTH with 8%nat in *. change CHUNK_WORDS with 64%nat.
  rewrite !lookup_total_replicate_2 by lia. cbn [out0 out1 out2 out3 out4 out5 out6 out7].
  by rewrite Z.testbit_0_l.
Qed.

Lemma ginv_1 : ginv 1 = 1.
Proof. vm_compute. reflexivity. Qed.

Lemma continues_nil cur dst : nz8 cur -> chunk_ok dst ->
  exists r, muladd cur dst zero = Some r /\ continues cur dst [] [] r.
Proof.
  intros Hc Hd. destruct (muladd_spec cur dst zero Hc Hd zero_ok) as (r & E & Hr & H).
  exists r. split; [done|]. split; [done|]. intros i t Hi. rewrite H, celem_zero by done. done.
Qed.

(** Buffers and the chunks read from them. *)
Definition reads (offset : Z) (b : list chunk) (s : chunk) : Prop :=
  rdc b offset = Some s /\ chunk_ok s.

Lemma interleaved_step_0 src offset values i dst last vp :
  rd values vp = Some 0 ->
  interleaved_step src offset values i (dst, last, vp) = Some (dst, last, vp + 1).
Proof. unfold interleaved_step. by intros ->. Qed.

Lemma interleaved_step_nz src offset values i dst last vp v b s dst' :
  rd values vp = Some v -> nz8 v -> rd src i = Some b -> rdc b offset = Some s ->
  muladd last dst s = Some dst' ->
  interleaved_step src offset values i (dst, last, vp) = Some (dst', v, vp + 1).
Proof.
  unfold interleaved_step, nz8. intros -> Hv Hb Hs Hm. cbn [mbind option_bind].
  rewrite (proj2 (Z.eqb_neq v 0)), Hb by lia. cbn [negb mbind option_bind].
  rewrite Hs. cbn [mbind option_bind]. by rewrite Hm.
Qed.

Lemma interleaved_rest offset cur vs : forall src0 src ss pre post dst i vp n,
  Forall in8 vs -> nz8 cur -> chunk_ok dst ->
  Forall2 (reads offset) src ss -> length src = length vs ->
  i = Z.of_nat (length src0) -> vp = Z.of_nat (length pre) -> n = length vs ->
  exists r,
    ('(dst, last, _) ← for_up n i
        (interleaved_step (src0 ++ src) offset (pre ++ quots vs ++ post))
        (dst, gmul cur (ginv (first_nz vs)), vp);
     muladd last dst zero) = Some r /\ continues cur dst vs ss r.
Proof.
  revert cur. induction vs as [|v vs IH]; intros cur src0 src ss pre post dst i vp n HF Hc Hd Hsrc Hl -> -> ->.
  - destruct Hsrc; [|done]. cbn [for_up length mbind option_bind]. change (first_nz []) with 1.
    rewrite ginv_1, gmul_1_r by auto with gf. by apply continues_nil.
  - destruct Hsrc as [|b s src ss [Hb Hs] Hsrc]; [done|]. apply Forall_cons in HF as [Hv HF].
    cbn [length for_up]. rewrite quots_cons, first_nz_cons. cbn [app].
    injection Hl as Hl.
    specialize (IH (if v =? 0 then cur else v) (src0 ++ [b]) src ss
      (pre ++ [if v =? 0 then 0 else gmul v (ginv (first_nz vs))]) post).
    rewrite <- !app_assoc in IH. cbn [app] in IH.
    pose proof (first_nz_nz8 vs HF) as Hf.
    destruct (Z.eqb_spec v 0) as [->|Hv0].
    + rewrite interleaved_step_0 by (by rewrite rd_app). cbn [mbind option_bind]. edestruct (IH dst) as (r & E & Hr);
        [done|done|done|exact Hsrc|done|reflexivity|reflexivity|reflexivity|].
      rewrite !length_app, !Nat2Z.inj_add in E. exists r. split; [exact E|].
      destruct Hr as [Hr H]. split; [done|]. intros. cbn [fmap list_fmap dot].
      rewrite gmul_0_l, Z.lxor_0_l. by apply H.
    + assert (Hv8 : nz8 v) by (unfold in8, nz8 in *; lia).
      pose proof (nz8_div v _ Hv8 Hf) as Hd'. 
      destruct (muladd_spec (gmul cur (ginv v)) dst s) as (dst' & Em & Hok & He);
        [by apply nz8_div|done|done|].
      erewrite interleaved_step_nz; [|by rewrite rd_app|done|by rewrite rd_app|exact Hb|exact Em].
      cbn [mbind option_bind].
      edestruct (IH dst') as (r & E & Hr);
        [done|done|done|exact Hsrc|done|reflexivity|reflexivity|reflexivity|].
      rewrite !length_app, !Nat2Z.inj_add in E. exists r. split; [exact E|].
      by apply (continues_step cur v dst s dst').
Qed.

Lemma quots_zeros z vs : quots (replicate z 0 ++ vs) = replicate z 0 ++ quots vs.
Proof. induction z as [|z IH]; [done|]. cbn [replicate app]. rewrite quots_cons, IH. done. Qed.

Lemma dot_zeros z vs ss1 ss2 :
  length ss1 = z -> dot (replicate z 0 ++ vs) (ss1 ++ ss2) = dot vs ss2.
Proof.
  revert ss1. induction z as [|z IH]; intros [|s ss1] Hl; try done.
  cbn [replicate app dot]. rewrite gmul_0_l, Z.lxor_0_l. apply IH. by injection Hl.
Qed.

Lemma skip_zeros_ok z : forall fuel pre v rest vp i,
  (z < fuel)%nat -> v <> 0 -> vp = Z.of_nat (length pre) ->
  skip_zeros fuel (pre ++ replicate z 0 ++ v :: rest) vp i
  = Some (v, vp + Z.of_nat z + 1, i + Z.of_nat z).
Proof.
  induction z as [|z IH]; intros [|fuel] pre v rest vp i Hf Hv ->; try lia;
    cbn [skip_zeros replicate app]; rewrite rd_app by done; cbn [mbind option_bind].
  - rewrite (proj2 (Z.eqb_neq v 0)) by done. f_equal; f_equal; [f_equal|]; lia.
  - cbn [Z.eqb]. specialize (IH fuel (pre ++ [0]) v rest (Z.of_nat (length pre) + 1) (i + 1)).
    rewrite <- app_assoc in IH. cbn [app] in IH.
    rewrite IH; [f_equal; f_equal; [f_equal|]; lia|lia|done|rewrite length_app; simpl; lia].
Qed.

(** A row that is not zero: leading zeros, a first coefficient and the rest. *)
Lemma split_zeros vs : Exists (fun v => v <> 0) vs ->
  exists z v ws, vs = replicate z 0 ++ v :: ws /\ v <> 0.
Proof.
  induction 1 as [v vs Hv|v vs _ (z & w & ws & -> & Hw)]; [exists 0%nat, v, vs; done|].
  destruct (decide (v = 0)) as [->|Hv]; [exists (S z), w, ws; done|].
  by exists 0%nat, v, (replicate z 0 ++ w :: ws).
Qed.

Lemma interleaved_ok dst src ss offset vs pre post :
  Forall in8 vs -> Exists (fun v => v <> 0) vs -> chunk_ok dst ->
  Forall2 (reads offset) src ss -> length src = length vs ->
  exists r, ec_code_c_interleaved dst src offset (pre ++ quots vs ++ post)
              (Z.of_nat (length pre)) (Z.of_nat (length vs)) = Some r /\ combines vs ss r.
Proof.
  intros HF Hex Hd Hsrc Hl. destruct (split_zeros vs Hex) as (z & v & ws & -> & Hv0).
  apply Forall_app in HF as [_ [Hv Hws]%Forall_cons].
  assert (Hv8 : nz8 v) by (unfold in8, nz8 in *; lia).
  rewrite quots_zeros, quots_cons, (proj2 (Z.eqb_neq v 0)) by done.
  rewrite length_app, length_replicate in Hl |- *. cbn [length] in Hl |- *.
  rewrite <- (take_drop z src) in Hsrc |- *.
  apply Forall2_app_inv_l in Hsrc as (ss1 & ss2 & H1 & H2 & ->).
  assert (Hl1 : length (take z src) = z) by (rewrite length_take; lia).
  assert (Hl2 : length (drop z src) = S (length ws)) by (rewrite length_drop; lia).
  destruct H2 as [|b s src2 ss2 [Hb Hs] H2]; [done|].
  unfold ec_code_c_interleaved. rewrite <- app_assoc. cbn [app].
  pose proof (nz8_div v _ Hv8 (first_nz_nz8 ws Hws)) as Hq.
  rewrite skip_zeros_ok; [|rewrite !length_app, length_replicate; lia|unfold nz8 in Hq; lia|done].
  cbn [mbind option_bind]. rewrite rd_app by lia. cbn [mbind option_bind]. rewrite Hb. cbn [mbind option_bind].
  rewrite muladd_copy_ok by done.
  destruct (interleaved_rest offset v ws (take z src ++ [b]) src2 ss2
    (pre ++ replicate z 0 ++ [gmul v (ginv (first_nz ws))]) post s
    (0 + Z.of_nat z + 1) (Z.of_nat (length pre) + Z.of_nat z + 1)
    (Z.to_nat (Z.of_nat (z + S (length ws)) - (0 + Z.of_nat z + 1))))
    as (r & E & Hr); try done; try lia.
  { simpl in Hl2. lia. }
  { rewrite length_app, Hl1. simpl. lia. }
  { rewrite !length_app, length_replicate. simpl. lia. }
  rewrite <- !app_assoc in E. cbn [app] in E. exists r. split; [exact E|].
  destruct Hr as [Hr H]. split; [done|]. intros i t Hi. rewrite H by done.
  rewrite fmap_app. cbn [fmap list_fmap].
  rewrite dot_zeros; [cbn [dot]; reflexivity|]. rewrite length_fmap. by rewrite <- (Forall2_length _ _ _ H1).
Qed.

(** The chunks from byte [off] on. *)
Definition reads_from (src : list chunk) (off : Z) (ss : list chunk) : Prop :=
  forall k s, ss !! k = Some s -> reads (off + EC_METHOD_CHUNK_SIZE * Z.of_nat k) src s.

Lemma reads_from_cons src off s ss :
  reads_from src off (s :: ss) ->
  reads off src s /\ reads_from src (off + EC_METHOD_CHUNK_SIZE) ss.
Proof.
  intros H. split.
  - specialize (H 0%nat s eq_refl). by rewrite Z.mul_0_r, Z.add_0_r in H.
  - intros k x Hk. specialize (H (S k) x Hk).
    by replace (off + EC_METHOD_CHUNK_SIZE + EC_METHOD_CHUNK_SIZE * Z.of_nat k)
      with (off + EC_METHOD_CHUNK_SIZE * Z.of_nat (S k)) by lia.
Qed.

Lemma linear_step_ok src values dst off vp v s dst' :
  rdc src (off + EC_METHOD_CHUNK_SIZE) = Some s -> rd values vp = Some v ->
  muladd v dst s = Some dst' ->
  linear_step src values (dst, off, vp) = Some (dst', off + EC_METHOD_CHUNK_SIZE, vp + 1).
Proof.
  unfold linear_step. intros -> Hv Hm. cbn [mbind option_bind]. rewrite Hv.
  cbn [mbind option_bind]. by rewrite Hm.
Qed.

Lemma linear_rest vs : forall cur src off ss pre post dst vp i n,
  Forall nz8 vs -> nz8 cur -> chunk_ok dst -> last (cur :: vs) = Some 1 ->
  reads_from src (off + EC_METHOD_CHUNK_SIZE) ss -> length ss = length vs ->
  vp = Z.of_nat (length pre) -> n = length vs ->
  exists r o p, for_up n i (fun _ => linear_step src (pre ++ quots (cur :: vs) ++ post)) (dst, off, vp)
    = Some (r, o, p) /\ continues cur dst vs ss r.
Proof.
  induction vs as [|v vs IH]; intros cur src off ss pre post dst vp i n HF Hc Hd Hlast Hr Hl -> ->.
  - injection Hlast as ->. exists dst. do 2 eexists. split; [reflexivity|]. split; [done|].
    intros j t Hj. cbn [dot]. by rewrite gmul_1_l, Z.lxor_0_r by auto with gf.
  - destruct ss as [|s ss]; [done|]. apply Forall_cons in HF as [Hv HF].
    apply reads_from_cons in Hr as [[Hs Hok] Hr]. injection Hl as Hl.
    assert (Hcur : quots (cur :: v :: vs) = gmul cur (ginv v) :: quots (v :: vs)).
    { rewrite quots_cons, first_nz_cons. unfold nz8 in *.
      by rewrite !(proj2 (Z.eqb_neq _ 0)) by lia. }
    destruct (muladd_spec (gmul cur (ginv v)) dst s) as (dst' & Em & Hok' & He);
      [by apply nz8_div|done|done|].
    cbn [length for_up]. erewrite linear_step_ok; [|done| |exact Em].
    2: { rewrite Hcur. cbn [app]. by apply rd_app. }
    cbn [mbind option_bind].
    destruct (IH v src (off + EC_METHOD_CHUNK_SIZE) ss (pre ++ [gmul cur (ginv v)]) post dst'
      (Z.of_nat (length pre) + 1) (i + 1) (length vs)) as (r & o & p & E & Hcont); try done.
    { rewrite length_app. simpl. lia. }
    rewrite <- app_assoc in E. cbn [app] in E. rewrite Hcur. cbn [app].
    exists r, o, p. split; [exact E|]. by apply (continues_step cur v dst s dst').
Qed.

Lemma linear_ok dst src ss offset vs pre post :
  Forall nz8 vs -> last vs = Some 1 -> chunk_ok dst -> Z.of_nat (length vs) < 2 ^ 32 ->
  reads_from src offset ss -> length ss = length vs ->
  exists r, ec_code_c_linear dst src offset (pre ++ quots vs ++ post)
              (Z.of_nat (length pre)) (Z.of_nat (length vs)) = Some r /\ combines vs ss r.
Proof.
  intros HF Hlast Hd H32 Hr Hl. destruct vs as [|v vs]; [done|]. destruct ss as [|s ss]; [done|].
  apply Forall_cons in HF as [Hv HF]. apply reads_from_cons in Hr as [[Hs Hok] Hr].
  injection Hl as Hl. unfold ec_code_c_linear. rewrite Hs. cbn [mbind option_bind].
  rewrite muladd_copy_ok by done. rewrite u32_small by (cbn [length] in *; lia).
  destruct (linear_rest vs v src offset ss pre post s (Z.of_nat (length pre)) 0
    (Z.to_nat (Z.of_nat (length (v :: vs)) - 1))) as (r & o & p & E & Hcont); try done.
  { simpl. lia. }
  rewrite E. exists r. split; [done|]. destruct Hcont as [Hok' H]. split; [done|].
  intros i t Hi. rewrite H by done. cbn [fmap list_fmap dot]. reflexivity.
Qed.

(** ** The claims *)

(** Preparing a row of non-zero coefficients that ends in 1 and calling
    [ec_code_c_linear] on consecutive chunks computes their combination with
    the original coefficients. *)
Theorem ec_code_c_linear_correct gf vs pre post dst src ss offset :
  gf_ok gf -> Forall nz8 vs -> last vs = Some 1 -> Z.of_nat (length vs) < 2 ^ 32 ->
  chunk_ok dst -> reads_from src offset ss -> length ss = length vs ->
  exists values r,
    ec_code_c_prepare gf (pre ++ vs ++ post) (Z.of_nat (length pre)) (Z.of_nat (length vs)) = Some values /\
    ec_code_c_linear dst src offset values (Z.of_nat (length pre)) (Z.of_nat (length vs)) = Some r /\
    combines vs ss r.
Proof.
  intros Hgf Hv Hlast H32 Hd Hr Hl. exists (pre ++ quots vs ++ post).
  destruct (linear_ok dst src ss offset vs pre post) as (r & E & H); try done.
  exists r. split; [|done]. apply prepare_ok; [done|]. eapply Forall_impl; [exact Hv|apply nz8_in8].
Qed.

Definition chunk7 : chunk := replicate CHUNK_WORDS 7.

Lemma chunk7_ok : chunk_ok chunk7.
Proof. apply replicate_ok. unfold word. lia. Qed.

Lemma ec_code_c_linear_correct_witness :
  exists values r,
    ec_code_c_prepare gf_init [4; 2; 1] 0 3 = Some values /\
    ec_code_c_linear zero [chunk7; chunk7; chunk7] 0 values 0 3 = Some r /\
    combines [4; 2; 1] [chunk7; chunk7; chunk7] r.
Proof.
  apply (ec_code_c_linear_correct gf_init [4; 2; 1] [] [] zero [chunk7; chunk7; chunk7] [chunk7; chunk7; chunk7] 0).
  - apply gf_init_ok.
  - repeat constructor; unfold nz8; lia.
  - reflexivity.
  - simpl; lia.
  - apply zero_ok.
  - intros k s Hk. do 3 (destruct k as [|k]; [injection Hk as <-; split; [reflexivity|apply chunk7_ok]|]). done.
  - reflexivity.
Defined.

(** Preparing a row that has a non-zero coefficient and calling
    [ec_code_c_interleaved] on the chunks at one offset of several buffers
    computes their combination with the original coefficients, zeros
    anywhere in the row included. *)
Theorem ec_code_c_interleaved_correct gf vs pre post dst src ss offset :
  gf_ok gf -> Forall in8 vs -> Exists (fun v => v <> 0) vs -> chunk_ok dst ->
  Forall2 (reads offset) src ss -> length src = length vs ->
  exists values r,
    ec_code_c_prepare gf (pre ++ vs ++ post) (Z.of_nat (length pre)) (Z.of_nat (length vs)) = Some values /\
    ec_code_c_interleaved dst src offset values (Z.of_nat (length pre)) (Z.of_nat (length vs)) = Some r /\
    combines vs ss r.
Proof.
  intros Hgf Hv Hex Hd Hr Hl. exists (pre ++ quots vs ++ post).
  destruct (interleaved_ok dst src ss offset vs pre post) as (r & E & H); try done.
  exists r. split; [|done]. by apply prepare_ok.
Qed.

Lemma ec_code_c_interleaved_correct_witness :
  exists values r,
    ec_code_c_prepare gf_init [0; 5; 0; 3] 0 4 = Some values /\
    ec_code_c_interleaved zero [[chunk7]; [chunk7]; [chunk7]; [chunk7]] 0 values 0 4 = Some r /\
    combines [0; 5; 0; 3] [chunk7; chunk7; chunk7; chunk7] r.
Proof.
  apply (ec_code_c_interleaved_correct gf_init [0; 5; 0; 3] [] [] zero
    [[chunk7]; [chunk7]; [chunk7]; [chunk7]] [chunk7; chunk7; chunk7; chunk7] 0).
  - apply gf_init_ok.
  - repeat constructor; unfold in8; lia.
  - right. left. lia.
  - apply zero_ok.
  - repeat (constructor; [split; [reflexivity|apply chunk7_ok]|]). constructor.
  - reflexivity.
Defined.
