(* ===== verification/EcProgram.v ===== *)
(** * The programs of ec-gf8.c multiply by their constant

    The meaning of a program is its execution on a register file: copies and
    xors.  Registers 8 and up are scratch, with unknown contents.  A program
    is run once on symbolic registers, the set of initial registers each one
    is the xor of; the result determines what it does on every input. *)
From S2P Require Import Prelude GF256 EcGf8 EcCodeC EcBodies.
#[local] Open Scope gf8_scope.

Definition EC_GF_MAX_REGS : nat := 16.

(** ** Execution *)

(** [EC_GF_OP_XOR3] is a copy followed by a xor, in [ec_code_xor3] and in
    [ec_code_avx_xor3]. *)
Definition run_op {A} `{Xor A} (op : ec_gf_op_t) (R : list A) : option (list A) :=
  match op_code op with
  | EC_GF_OP_COPY => x ← rd R (arg2 op); wr R (arg1 op) x
  | EC_GF_OP_XOR2 => x ← rd R (arg1 op); y ← rd R (arg2 op); wr R (arg1 op) (x ^ y)
  | EC_GF_OP_XOR3 =>
      x ← rd R (arg2 op); R ← wr R (arg1 op) x;
      x ← rd R (arg1 op); y ← rd R (arg3 op); wr R (arg1 op) (x ^ y)
  | _ => Some R
  end.

(** The operations before [EC_GF_OP_END]. *)
Fixpoint until_end (ops : list ec_gf_op_t) : list ec_gf_op_t :=
  match ops with
  | [] => []
  | op :: ops => if decide (op_code op = EC_GF_OP_END) then [] else op :: until_end ops
  end.

Fixpoint run_ops {A} `{Xor A} (ops : list ec_gf_op_t) (R : list A) : option (list A) :=
  match ops with [] => Some R | op :: ops => R ← run_op op R; run_ops ops R end.

(** The registers named by the map of a program. *)
Definition permute {A} (R : list A) (map : list Z) : option (list A) := mapM (rd R) map.

(** The planes after a program: its first eight registers in the order of its map. *)
Definition run_mul {A} `{Xor A} (mul : ec_gf_mul_t) (R : list A) : option (list A) :=
  R ← run_ops (until_end (mul_ops mul)) R;
  P ← permute R (mul_map mul);
  Some (take 8 P).

(** ** Execution commutes with the homomorphisms of xor *)

Section Natural.
Context {A B} `{XA : Xor A} `{XB : Xor B} (h : A -> B) (Hh : forall x y, h (x ^ y) = h x ^ h y).

Abbreviation hs := (fmap (M := list) h).

Lemma rd_fmap (R : list A) i : rd (hs R) i = h <$> rd R i.
Proof. unfold rd. destruct (0 <=? i); [apply list_lookup_fmap|done]. Qed.

Lemma wr_fmap (R : list A) i x : wr (hs R) i (h x) = hs <$> wr R i x.
Proof.
  unfold wr. rewrite length_fmap. destruct (_ && _); [|done].
  cbn. f_equal. by rewrite list_fmap_insert.
Qed.

Lemma run_op_fmap op (R : list A) : run_op op (hs R) = hs <$> run_op op R.
Proof.
  unfold run_op. destruct (op_code op); try done.
  - rewrite rd_fmap. destruct (rd R _) as [x|]; [|done]. cbn [fmap option_fmap option_map mbind option_bind].
    apply wr_fmap.
  - rewrite !rd_fmap. destruct (rd R (arg1 op)) as [x|]; [|done]. destruct (rd R (arg2 op)) as [y|]; [|done].
    cbn [fmap option_fmap option_map mbind option_bind]. rewrite <- Hh. apply wr_fmap.
  - rewrite rd_fmap. destruct (rd R _) as [x|]; [|done]. cbn [fmap option_fmap option_map mbind option_bind].
    rewrite wr_fmap. destruct (wr R _ _) as [R'|]; [|done].
    change (hs <$> Some R') with (Some (hs R')). cbn [mbind option_bind].
    rewrite !rd_fmap. destruct (rd R' (arg1 op)) as [a|]; [|done]. destruct (rd R' (arg3 op)) as [y|]; [|done].
    cbn [fmap option_fmap option_map mbind option_bind]. rewrite <- Hh. apply wr_fmap.
Qed.

Lemma run_ops_fmap ops (R : list A) : run_ops ops (hs R) = hs <$> run_ops ops R.
Proof.
  revert R. induction ops as [|op ops IH]; intros R; [done|]. cbn [run_ops].
  rewrite run_op_fmap. destruct (run_op op R); [apply IH|done].
Qed.

Lemma permute_fmap (R : list A) m : permute (hs R) m = hs <$> permute R m.
Proof.
  unfold permute. induction m as [|i m IH]; [done|]. cbn. rewrite rd_fmap.
  destruct (rd R i); [|done]. cbn. cbn in IH. rewrite IH. by destruct (mapM (rd R) m).
Qed.

Lemma run_mul_fmap mul (R : list A) : run_mul mul (hs R) = hs <$> run_mul mul R.
Proof.
  unfold run_mul. rewrite run_ops_fmap. destruct (run_ops _ R) as [R'|]; [|done].
  change (hs <$> Some R') with (Some (hs R')). cbn [mbind option_bind].
  rewrite permute_fmap. destruct (permute R' _) as [P|]; [|done].
  cbn. by rewrite fmap_take.
Qed.
End Natural.

(** ** Symbolic registers *)

(** Register [i] is the set [{i}]. *)
Definition sym_regs : list Z := (fun i => 2 ^ Z.of_nat i)%Z <$> seq 0 EC_GF_MAX_REGS.

(** The plane [k] of the product by [c]: the bits [j] with bit [k] of [c * 2^j]. *)
Definition mul_mask (c : Z) (k : nat) : Z :=
  foldr (fun j acc => if Z.testbit (gmul c (2 ^ Z.of_nat j)) (Z.of_nat k)
                      then Z.lxor (2 ^ Z.of_nat j) acc else acc) 0 (seq 0 8).

Definition mul_ok (c : Z) (mul : ec_gf_mul_t) : bool :=
  bool_decide (run_mul mul sym_regs = Some (mul_mask c <$> seq 0 8)).

Lemma mul_programs_check :
  forallb (fun c => match ec_gf8_mul !! c with
                    | Some mul => mul_ok (Z.of_nat c) mul
                    | None => false end) (seq 1 255) = true.
Proof. vm_compute. reflexivity. Qed.

(** ** From symbolic registers to bits *)

(** The value of a set of registers: the xor of their contents. *)
Definition mval (x : list bool) (l : list nat) (m : Z) : bool :=
  foldr (fun j acc => xorb (Z.testbit m (Z.of_nat j) && x !!! j) acc) false l.

Lemma mval_xor x l (m n : Z) : mval x l (xor m n) = xor (mval x l m) (mval x l n).
Proof.
  unfold xor, xor_bit, xor_word. induction l as [|j l IH]; [done|].
  change (mval x (j :: l)) with
    (fun m => xorb (Z.testbit m (Z.of_nat j) && x !!! j) (mval x l m)). cbv beta.
  rewrite IH, Z.lxor_spec.
  by destruct (Z.testbit m _), (Z.testbit n _), (x !!! j), (mval x l m), (mval x l n).
Qed.

Lemma mval_0 x l : mval x l 0 = false.
Proof.
  induction l as [|j l IH]; [done|]. cbn [mval foldr]. unfold mval in IH. by rewrite IH, Z.testbit_0_l.
Qed.

Lemma mval_single x s n i :
  mval x (seq s n) (2 ^ Z.of_nat i) = bool_decide (s <= i < s + n)%nat && x !!! i.
Proof.
  revert s. induction n as [|n IH]; intros s; cbn [seq mval foldr].
  - by rewrite bool_decide_false by lia.
  - fold (mval x (seq (S s) n) (2 ^ Z.of_nat i)). rewrite IH, Z.pow2_bits_eqb by lia.
    destruct (decide (i = s)) as [->|Hne].
    + rewrite Z.eqb_refl, bool_decide_false, bool_decide_true by lia. cbn. by destruct (x !!! s).
    + rewrite (proj2 (Z.eqb_neq _ _)) by lia. cbn. do 2 f_equal.
      apply bool_decide_ext. lia.
Qed.

Lemma mval_regs x : length x = EC_GF_MAX_REGS -> mval x (seq 0 EC_GF_MAX_REGS) <$> sym_regs = x.
Proof.
  intros Hx. unfold sym_regs. rewrite <- list_fmap_compose. apply list_eq. intros i.
  rewrite list_lookup_fmap. destruct (decide (i < EC_GF_MAX_REGS)%nat) as [Hi|Hi].
  - rewrite lookup_seq_lt by done. cbn [fmap option_fmap option_map]. unfold compose.
    rewrite mval_single, bool_decide_true by lia. rewrite list_lookup_lookup_total_lt by lia. done.
  - rewrite lookup_seq_ge by lia. by rewrite lookup_ge_None_2 by lia.
Qed.

(** A byte is the sum of its bits. *)
Definition bit_sum (f : nat -> Z) (a : Z) (l : list nat) : Z :=
  foldr (fun j acc => if Z.testbit a (Z.of_nat j) then Z.lxor (f j) acc else acc) 0 l.

Lemma byte_sum a : in8 a -> bit_sum (fun j => (2 ^ Z.of_nat j)%Z) a (seq 0 8) = a.
Proof.
  intros Ha. apply Z.eqb_eq. revert a Ha.
  apply (all_below_spec 256 (fun a => bit_sum _ a _ =? a)). vm_compute. reflexivity.
Qed.

Lemma gmul_bit_sum c f a l : gmul c (bit_sum f a l) = bit_sum (fun j => gmul c (f j)) a l.
Proof.
  induction l as [|j l IH]; [apply gmul_0_r|]. cbn [bit_sum foldr].
  destruct (Z.testbit a _); [|exact IH]. rewrite gmul_lxor_r. by f_equal.
Qed.

Lemma testbit_bit_sum f a l k :
  Z.testbit (bit_sum f a l) k
  = foldr (fun j acc => xorb (Z.testbit a (Z.of_nat j) && Z.testbit (f j) k) acc) false l.
Proof.
  induction l as [|j l IH]; [apply Z.testbit_0_l|]. cbn [bit_sum foldr]. rewrite <- IH.
  destruct (Z.testbit a _); cbn [andb xorb]; [apply Z.lxor_spec|reflexivity].
Qed.

Lemma mval_mask c k x a l :
  (forall j, j ∈ l -> mval x (seq 0 EC_GF_MAX_REGS) (2 ^ Z.of_nat j) = Z.testbit a (Z.of_nat j)) ->
  mval x (seq 0 EC_GF_MAX_REGS)
    (foldr (fun j acc => if Z.testbit (gmul c (2 ^ Z.of_nat j)) k
                         then Z.lxor (2 ^ Z.of_nat j) acc else acc) 0 l)
  = Z.testbit (bit_sum (fun j => gmul c (2 ^ Z.of_nat j)) a l) k.
Proof.
  intros Hx. rewrite testbit_bit_sum. induction l as [|j l IH].
  - apply mval_0.
  - cbn [foldr]. rewrite <- IH by (intros; apply Hx; set_solver).
    rewrite <- (Hx j) by set_solver. destruct (Z.testbit (gmul c _) k).
    + rewrite andb_true_r. exact (mval_xor x (seq 0 EC_GF_MAX_REGS) _ _).
    + by rewrite andb_false_r, xorb_false_l.
Qed.

(** The eight planes of a byte. *)
Definition bits8 (a : Z) : list bool := (fun k => Z.testbit a (Z.of_nat k)) <$> seq 0 8.

Lemma bits8_lookup a j : (j < 8)%nat -> bits8 a !! j = Some (Z.testbit a (Z.of_nat j)).
Proof. intros Hj. unfold bits8. rewrite list_lookup_fmap, lookup_seq_lt by done. done. Qed.

Lemma length_bits8 a : length (bits8 a) = 8%nat.
Proof. done. Qed.

(** The program of [c] multiplies the planes by [c], whatever its scratch
    registers hold. *)
Lemma run_mul_ok c mul a tmp :
  1 <= c < 256 -> rd ec_gf8_mul c = Some mul -> in8 a -> length tmp = 8%nat ->
  run_mul mul (bits8 a ++ tmp) = Some (bits8 (gmul c a)).
Proof.
  intros Hc Hm Ha Ht. set (x := bits8 a ++ tmp).
  assert (Hx : length x = EC_GF_MAX_REGS) by (unfold x; by rewrite length_app, Ht).
  assert (Hok : run_mul mul sym_regs = Some (mul_mask c <$> seq 0 8)).
  { pose proof mul_programs_check as H. rewrite forallb_forall in H.
    specialize (H (Z.to_nat c)). unfold rd in Hm. rewrite (proj2 (Z.leb_le 0 c)) in Hm by lia.
    rewrite Hm, Z2Nat.id in H by lia. eapply bool_decide_eq_true_1, H.
    apply in_seq. lia. }
  rewrite <- (mval_regs x Hx), run_mul_fmap, Hok by apply mval_xor.
  cbn [fmap option_fmap option_map]. f_equal. unfold bits8.
  rewrite <- list_fmap_compose. apply list_fmap_ext. intros i k _. unfold compose, mul_mask.
  rewrite <- (byte_sum a Ha), gmul_bit_sum. apply mval_mask.
  intros j Hj. apply elem_of_seq in Hj. rewrite mval_single, bool_decide_true by (unfold EC_GF_MAX_REGS; lia).
  cbn [andb]. unfold x. rewrite list_lookup_total_alt, lookup_app_l by (rewrite length_bits8; lia).
  rewrite bits8_lookup by lia. done.
Qed.

(** Every program of ec-gf8.c (constants 1 to 255) multiplies the byte
    whose bits are in registers 0 to 7 by its constant: after it, its map names
    the registers that hold the bits of the product, whatever the scratch
    registers held. *)
Theorem ec_gf8_mul_correct (c a : Z) (tmp : list bool) :
  1 <= c < 256 -> in8 a -> length tmp = 8%nat ->
  exists mul, rd ec_gf8_mul c = Some mul /\ run_mul mul (bits8 a ++ tmp) = Some (bits8 (gmul c a)).
Proof.
  intros Hc Ha Ht. destruct (rd_Some ec_gf8_mul c) as (mul & E & _).
  { change (Z.of_nat (length ec_gf8_mul)) with 256. lia. }
  exists mul. split; [done|]. by apply run_mul_ok.
Qed.

Lemma ec_gf8_mul_correct_witness :
  exists mul, rd ec_gf8_mul 0x53 = Some mul /\
    run_mul mul (bits8 0xca ++ replicate 8 true) = Some (bits8 0x8f).
Proof. apply (ec_gf8_mul_correct 0x53 0xca (replicate 8 true)); [lia|unfold in8; lia|reflexivity]. Defined.
