(* ===== verification/EcDynamic.v ===== *)
(** * The dynamic code generator (ec-code.c)

    [ec_code_build_dynamic] turns a row of coefficients into a sequence of
    register operations: it loads the planes of the first source, and for every
    other coefficient multiplies by the program of a quotient and xors the
    planes of the next source from memory.  Multiplication permutes the planes
    only by changing the register map of the builder.  The generators
    (ec-code-x64.c, ec-code-sse.c, ec-code-avx.c) translate each operation to
    machine code; here an operation has the meaning of that code
    on one register per plane, and the loop of the generated
    function runs it for every word of the planes. *)
From S2P Require Import Prelude GF256 EcGf8 EcCodeC EcBodies EcMuladd EcGalois EcMatrix EcInverse EcCombine EcProgram.
#[local] Open Scope gf8_scope.

(** ** The builder *)

(** What the builder looks at in a generator: whether it has [xor3]. *)
Record ec_code_gen_t : Set := mkgen { gen_width : Z; gen_xor3 : bool }.

Definition ec_code_gen_avx : ec_code_gen_t := mkgen 32 true.
Definition ec_code_gen_sse : ec_code_gen_t := mkgen 16 false.
Definition ec_code_gen_x64 : ec_code_gen_t := mkgen 8 false.

Record ec_code_op_t : Set := mkcop { cop : ec_gf_opcode_t; carg1 : Z; carg2 : Z; carg3 : Z }.

(** [b_cap] is the number of operations the allocation has room for and
    [b_ops] the operations written, [builder->count] of them. *)
Record ec_code_builder_t : Set := mkbuilder {
  b_gf : ec_gf_t; b_gen : ec_code_gen_t; b_cap : Z;
  b_regs : Z; b_bits : Z; b_width : Z; b_linear : bool;
  b_map : list Z; b_ops : list ec_code_op_t }.

Definition set_regs (b : ec_code_builder_t) (r : Z) : ec_code_builder_t :=
  mkbuilder (b_gf b) (b_gen b) (b_cap b) r (b_bits b) (b_width b) (b_linear b) (b_map b) (b_ops b).

Definition set_map (b : ec_code_builder_t) (m : list Z) : ec_code_builder_t :=
  mkbuilder (b_gf b) (b_gen b) (b_cap b) (b_regs b) (b_bits b) (b_width b) (b_linear b) m (b_ops b).

Definition ec_code_arg_assign (b : ec_code_builder_t) (reg : Z) : ec_code_builder_t :=
  if b_regs b <=? reg then set_regs b (u32 (reg + 1)) else b.

(** The next operation, with its fields; [None] is a write past the end of the
    allocation. *)
Definition ec_code_op_next (b : ec_code_builder_t) (op : ec_code_op_t) : option ec_code_builder_t :=
  if Z.of_nat (length (b_ops b)) <? b_cap b then
    Some (mkbuilder (b_gf b) (b_gen b) (b_cap b) (b_regs b) (b_bits b) (b_width b) (b_linear b)
            (b_map b) (b_ops b ++ [op]))
  else None.

Definition ec_code_load (b : ec_code_builder_t) (bit offset : Z) : option ec_code_builder_t :=
  r ← rd (b_map b) bit;
  b ← ec_code_op_next b (mkcop EC_GF_OP_LOAD r offset bit);
  Some (ec_code_arg_assign b r).

Definition ec_code_store (b : ec_code_builder_t) (reg bit : Z) : option ec_code_builder_t :=
  r ← rd (b_map b) reg;
  ec_code_op_next b (mkcop EC_GF_OP_STORE r 0 bit).

Definition ec_code_copy (b : ec_code_builder_t) (dst src : Z) : option ec_code_builder_t :=
  d ← rd (b_map b) dst; s ← rd (b_map b) src;
  b ← ec_code_op_next b (mkcop EC_GF_OP_COPY d s 0);
  Some (ec_code_arg_assign b d).

Definition ec_code_xor2 (b : ec_code_builder_t) (dst src : Z) : option ec_code_builder_t :=
  d ← rd (b_map b) dst; s ← rd (b_map b) src;
  ec_code_op_next b (mkcop EC_GF_OP_XOR2 d s 0).

Definition ec_code_xor3 (b : ec_code_builder_t) (dst src1 src2 : Z) : option ec_code_builder_t :=
  if negb (gen_xor3 (b_gen b)) then
    b ← ec_code_copy b dst src1;
    ec_code_xor2 b dst src2
  else
    d ← rd (b_map b) dst; s1 ← rd (b_map b) src1; s2 ← rd (b_map b) src2;
    b ← ec_code_op_next b (mkcop EC_GF_OP_XOR3 d s1 s2);
    Some (ec_code_arg_assign b d).

Definition ec_code_xorm (b : ec_code_builder_t) (bit offset : Z) : option ec_code_builder_t :=
  r ← rd (b_map b) bit;
  ec_code_op_next b (mkcop EC_GF_OP_XORM r offset bit).

Definition ec_code_dup (b : ec_code_builder_t) (op : ec_gf_op_t) : option ec_code_builder_t :=
  match op_code op with
  | EC_GF_OP_COPY => ec_code_copy b (arg1 op) (arg2 op)
  | EC_GF_OP_XOR2 => ec_code_xor2 b (arg1 op) (arg2 op)
  | EC_GF_OP_XOR3 => ec_code_xor3 b (arg1 op) (arg2 op) (arg3 op)
  | _ => Some b
  end.

Definition ec_code_gf_load (b : ec_code_builder_t) (offset : Z) : option ec_code_builder_t :=
  for_up (Z.to_nat (gf_bits (b_gf b))) 0 (fun i b => ec_code_load b i offset) b.

Definition ec_code_gf_load_xor (b : ec_code_builder_t) (offset : Z) : option ec_code_builder_t :=
  for_up (Z.to_nat (gf_bits (b_gf b))) 0 (fun i b => ec_code_xorm b i offset) b.

Definition ec_code_gf_store (b : ec_code_builder_t) : option ec_code_builder_t :=
  for_up (Z.to_nat (gf_bits (b_gf b))) 0 (fun i b => ec_code_store b i i) b.

Definition ec_code_gf_clear (b : ec_code_builder_t) : option ec_code_builder_t :=
  b ← ec_code_xor2 b 0 0;
  for_up (Z.to_nat (gf_bits (b_gf b))) 0 (fun i b => ec_code_store b 0 i) b.

(** [for (op = mul->ops; op->op != EC_GF_OP_END; op++)]; [None] without an end. *)
Fixpoint dup_ops (b : ec_code_builder_t) (ops : list ec_gf_op_t) : option ec_code_builder_t :=
  match ops with
  | [] => None
  | op :: ops =>
      if decide (op_code op = EC_GF_OP_END) then Some b
      else b ← ec_code_dup b op; dup_ops b ops
  end.

Definition ec_code_gf_mul (b : ec_code_builder_t) (value : Z) : option ec_code_builder_t :=
  mul ← rd (gf_table (b_gf b)) value;
  b ← dup_ops b (mul_ops mul);
  map ← mapM (fun i => m ← rd (mul_map mul) (Z.of_nat i); rd (b_map b) m)
          (seq 0 (Z.to_nat (mul_regs mul)));
  Some (set_map b (map ++ drop (Z.to_nat (mul_regs mul)) (b_map b))).

(** [mem] tells whether the allocation succeeds. *)
Definition ec_code_prepare (gf : ec_gf_t) (gen : ec_code_gen_t) (mem : bool) (count width : Z)
    (linear : bool) : Z + ec_code_builder_t :=
  let count := u32 (count * u32 (gf_bits gf + gf_max_ops gf)) in
  let count := u32 (count + gf_bits gf) in
  if mem then
    inr (mkbuilder gf gen count 0 (gf_bits gf) width linear (Z.of_nat <$> seq 0 EC_GF_MAX_REGS) [])
  else inl ENOMEM.

(** The loop of [ec_code_value_next], from [i]; [n] bounds the rounds. *)
Fixpoint value_next_loop (n : nat) (values : list Z) (vo count i next : Z) : option (Z * Z) :=
  if i <? count then
    match n with
    | O => None
    | S n =>
        next ← rd values (vo + i);
        if negb (next =? 0) then Some (next, i) else value_next_loop n values vo count (i + 1) next
    end
  else Some (next, i).

Definition ec_code_value_next (values : list Z) (vo count offset : Z) : option (Z * Z) :=
  value_next_loop (Z.to_nat count) values vo count (u32 (offset + 1)) 0.

(** The [do ... while (next != 0)] loop of [ec_code_build_dynamic]; it returns
    the builder and the last value. *)
Fixpoint build_loop (fuel : nat) (gf : ec_gf_t) (values : list Z) (vo count : Z)
    (b : ec_code_builder_t) (next offset : Z) : option (ec_code_builder_t * Z) :=
  match fuel with
  | O => None
  | S fuel =>
      let val := next in
      '(next, offset) ← ec_code_value_next values vo count offset;
      if negb (next =? 0) then
        d ← ec_gf_div gf val next;
        b ← ec_code_gf_mul b d;
        b ← ec_code_gf_load_xor b offset;
        build_loop fuel gf values vo count b next offset
      else Some (b, val)
  end.

(** The builder at the end of [ec_code_build_dynamic], before it is compiled. *)
Definition build_ops (gf : ec_gf_t) (b : ec_code_builder_t) (values : list Z) (vo count : Z)
    : option ec_code_builder_t :=
  '(next, offset) ← ec_code_value_next values vo count (2 ^ 32 - 1);
  if negb (next =? 0) then
    b ← ec_code_gf_load b offset;
    '(b, val) ← build_loop (S (Z.to_nat count)) gf values vo count b next offset;
    b ← ec_code_gf_mul b val;
    ec_code_gf_store b
  else ec_code_gf_clear b.

(** ** The meaning of the operations *)

(** Registers and the words stored, one per plane. *)
Record machine (A : Type) := Machine { m_regs : list A; m_out : list A }.
Arguments Machine {A}. Arguments m_regs {A}. Arguments m_out {A}.

(** [ins idx bit] is the word of plane [bit] of the source [idx]. *)
Definition exec_op {A} `{Xor A} (ins : Z -> Z -> option A) (m : machine A) (op : ec_code_op_t)
    : option (machine A) :=
  let '(Machine regs out) := m in
  match cop op with
  | EC_GF_OP_LOAD =>
      x ← ins (carg2 op) (carg3 op); regs ← wr regs (carg1 op) x; Some (Machine regs out)
  | EC_GF_OP_STORE =>
      x ← rd regs (carg1 op); out ← wr out (carg3 op) x; Some (Machine regs out)
  | EC_GF_OP_COPY =>
      x ← rd regs (carg2 op); regs ← wr regs (carg1 op) x; Some (Machine regs out)
  | EC_GF_OP_XOR2 =>
      x ← rd regs (carg1 op); y ← rd regs (carg2 op);
      regs ← wr regs (carg1 op) (x ^ y); Some (Machine regs out)
  | EC_GF_OP_XOR3 =>
      x ← rd regs (carg2 op); regs ← wr regs (carg1 op) x;
      x ← rd regs (carg1 op); y ← rd regs (carg3 op);
      regs ← wr regs (carg1 op) (x ^ y); Some (Machine regs out)
  | EC_GF_OP_XORM =>
      x ← rd regs (carg1 op); y ← ins (carg2 op) (carg3 op);
      regs ← wr regs (carg1 op) (x ^ y); Some (Machine regs out)
  | EC_GF_OP_END => Some m
  end.

Fixpoint exec {A} `{Xor A} (ins : Z -> Z -> option A) (m : machine A) (ops : list ec_code_op_t)
    : option (machine A) :=
  match ops with [] => Some m | op :: ops => m ← exec_op ins m op; exec ins m ops end.

Lemma exec_app {A} `{Xor A} ins (m : machine A) ops1 ops2 :
  exec ins m (ops1 ++ ops2) = m ← exec ins m ops1; exec ins m ops2.
Proof.
  revert m. induction ops1 as [|op ops1 IH]; intros m; [done|]. cbn [app exec].
  by destruct (exec_op ins m op); cbn [mbind option_bind].
Qed.

(** ** Registers seen through the map of the builder *)

Record builder_ok (b : ec_code_builder_t) : Prop := {
  bok_gf : gf_ok (b_gf b);
  bok_length : length (b_map b) = EC_GF_MAX_REGS;
  bok_nodup : NoDup (b_map b);
  bok_range : Forall (fun r => 0 <= r < 16) (b_map b) }.

(** [b'] is [b] after [k] more operations. *)
Record next (b : ec_code_builder_t) (k : nat) (b' : ec_code_builder_t) : Prop := {
  next_gf : b_gf b' = b_gf b;
  next_gen : b_gen b' = b_gen b;
  next_cap : b_cap b' = b_cap b;
  next_count : length (b_ops b') = (length (b_ops b) + k)%nat }.

Definition room (b : ec_code_builder_t) (k : nat) : Prop :=
  Z.of_nat (length (b_ops b) + k) <= b_cap b.

Lemma next_refl b : next b 0 b.
Proof. split; auto. Qed.

Lemma next_trans b k b' k' b'' : next b k b' -> next b' k' b'' -> next b (k + k') b''.
Proof. intros [????] [????]. split; try congruence. lia. Qed.

Lemma next_room b k b' j : next b k b' -> room b (k + j) -> room b' j.
Proof. intros [? ? Hc Hn] H. unfold room in *. rewrite Hc, Hn. lia. Qed.

Section Semantics.
Context {A} `{XA : Xor A}.

Definition sees (map : list Z) (regs R : list A) : Prop :=
  length regs = EC_GF_MAX_REGS /\ length R = length map /\
  forall i r, map !! i = Some r -> rd regs r = R !! i.

(** From the machine [m0], the operations of [b] lead to the registers [R] as
    the map shows them and to the stored words [out]. *)
Definition runs (b : ec_code_builder_t) (ins : Z -> Z -> option A) (m0 : machine A)
    (R out : list A) : Prop :=
  exists regs, exec ins m0 (b_ops b) = Some (Machine regs out) /\ sees (b_map b) regs R.

Lemma map_get b i : builder_ok b -> 0 <= i < 16 ->
  exists r, rd (b_map b) i = Some r /\ b_map b !! Z.to_nat i = Some r /\ 0 <= r < 16.
Proof.
  intros [_ Hl _ Hr] Hi. destruct (rd_Some (b_map b) i) as (r & E & Hn).
  { rewrite Hl. done. }
  exists r. split; [done|]. split; [done|]. by apply (Forall_lookup_1 _ _ _ _ Hr Hn).
Qed.

Lemma sees_rd map regs R i r : sees map regs R -> map !! Z.to_nat i = Some r -> 0 <= i ->
  rd regs r = rd R i.
Proof.
  intros (_ & _ & H) Hi H0. rewrite (H _ _ Hi). unfold rd. by rewrite (proj2 (Z.leb_le 0 i)).
Qed.

Lemma sees_wr map regs R i r x :
  NoDup map -> sees map regs R -> map !! Z.to_nat i = Some r -> 0 <= i -> 0 <= r < 16 ->
  exists regs' R', wr regs r x = Some regs' /\ wr R i x = Some R' /\ sees map regs' R'.
Proof.
  intros Hnd (Hl & HlR & H) Hi H0 Hr. apply lookup_lt_Some in Hi as Hlt.
  destruct (wr_spec regs r x) as (regs' & E & El & Hrd); [rewrite Hl; unfold EC_GF_MAX_REGS; lia|].
  destruct (wr_spec R i x) as (R' & E' & El' & Hrd'); [lia|].
  exists regs', R'. split; [done|]. split; [done|]. split; [congruence|]. split; [congruence|].
  intros j s Hj. rewrite Hrd, <- rd_lookup, Hrd', rd_lookup, <- (H _ _ Hj).
  destruct (decide (s = r)) as [->|Hs].
  - rewrite decide_True; [done|]. pose proof (NoDup_lookup _ _ _ _ Hnd Hi Hj). lia.
  - rewrite decide_False; [done|]. intros <-. rewrite Nat2Z.id in Hi. congruence.
Qed.

(** ** One operation *)

Lemma op_next_ok b op : room b 1 ->
  exists b', ec_code_op_next b op = Some b' /\ next b 1 b' /\
    b_map b' = b_map b /\ b_ops b' = b_ops b ++ [op].
Proof.
  intros Hr. unfold ec_code_op_next, room in *. rewrite (proj2 (Z.ltb_lt _ _)) by lia.
  eexists. split; [done|]. split; [|done]. split; cbn; try done. rewrite length_app. cbn. lia.
Qed.

Lemma arg_assign_ok b k b' r :
  next b k b' -> next b k (ec_code_arg_assign b' r) /\
  b_map (ec_code_arg_assign b' r) = b_map b' /\ b_ops (ec_code_arg_assign b' r) = b_ops b'.
Proof. intros [????]. unfold ec_code_arg_assign. destruct (_ <=? _); done. Qed.

Lemma builder_ok_next b k b' : builder_ok b -> next b k b' -> b_map b' = b_map b -> builder_ok b'.
Proof. intros [????] [????] E. split; rewrite ?E; congruence. Qed.

(** A step of the builder: it succeeds, keeps the map and its operations turn
    the registers [R] and the output into those [f] gives. *)
Definition bstep (b : ec_code_builder_t) (k : nat) (res : option ec_code_builder_t)
    (f : (Z -> Z -> option A) -> list A -> list A -> option (list A * list A)) : Prop :=
  exists b', res = Some b' /\ next b k b' /\ b_map b' = b_map b /\
    forall ins m0 R out R' out', runs b ins m0 R out -> f ins R out = Some (R', out') ->
      runs b' ins m0 R' out'.

Lemma runs_snoc b b' op ins m0 regs out R' out' :
  b_map b' = b_map b -> b_ops b' = b_ops b ++ [op] ->
  exec ins m0 (b_ops b) = Some (Machine regs out) ->
  (exists regs', exec_op ins (Machine regs out) op = Some (Machine regs' out') /\
    sees (b_map b) regs' R') ->
  runs b' ins m0 R' out'.
Proof.
  intros Hm Ho E (regs' & E' & Hs). exists regs'. rewrite Hm, Ho, exec_app, E. cbn [mbind option_bind exec].
  rewrite E'. done.
Qed.

Lemma load_step b i off : builder_ok b -> room b 1 -> 0 <= i < 16 ->
  bstep b 1 (ec_code_load b i off)
    (fun ins R out => x ← ins off i; R ← wr R i x; Some (R, out)).
Proof.
  intros Hb Hr Hi. destruct (map_get b i Hb Hi) as (r & E & Hl & Hrr).
  destruct (op_next_ok b (mkcop EC_GF_OP_LOAD r off i) Hr) as (b1 & E1 & Hn & Hm & Ho).
  unfold ec_code_load. rewrite E. cbn [mbind option_bind]. rewrite E1. cbn [mbind option_bind].
  destruct (arg_assign_ok b 1 b1 r Hn) as (Hn' & Hm' & Ho'). eexists. split; [done|].
  split; [done|]. split; [congruence|]. intros ins m0 R out R' out' (regs & Ex & Hs) Hf.
  apply (runs_snoc b _ (mkcop EC_GF_OP_LOAD r off i) ins m0 regs out); [congruence..|done|].
  destruct (ins off i) as [x|] eqn:Ei; [|done]. cbn [mbind option_bind] in Hf.
  destruct (sees_wr _ _ _ _ _ x (bok_nodup _ Hb) Hs Hl) as (regs' & R1 & Ew & Ew' & Hs'); [lia..|].
  rewrite Ew' in Hf. injection Hf as <- <-. exists regs'. split; [|done].
  cbn [exec_op cop carg1 carg2 carg3]. rewrite Ei. cbn [mbind option_bind]. by rewrite Ew.
Qed.

Lemma xorm_step b i off : builder_ok b -> room b 1 -> 0 <= i < 16 ->
  bstep b 1 (ec_code_xorm b i off)
    (fun ins R out => x ← rd R i; y ← ins off i; R ← wr R i (x ^ y); Some (R, out)).
Proof.
  intros Hb Hr Hi. destruct (map_get b i Hb Hi) as (r & E & Hl & Hrr).
  destruct (op_next_ok b (mkcop EC_GF_OP_XORM r off i) Hr) as (b1 & E1 & Hn & Hm & Ho).
  unfold ec_code_xorm. rewrite E. cbn [mbind option_bind].
  exists b1. split; [done|]. split; [done|]. split; [done|].
  intros ins m0 R out R' out' (regs & Ex & Hs) Hf.
  apply (runs_snoc b _ (mkcop EC_GF_OP_XORM r off i) ins m0 regs out); [congruence..|done|].
  cbn [exec_op cop carg1 carg2 carg3]. rewrite (sees_rd _ _ _ i r Hs Hl) by lia.
  destruct (rd R i) as [x|]; [|done]. cbn [mbind option_bind] in Hf |- *.
  destruct (ins off i) as [y|]; [|done]. cbn [mbind option_bind] in Hf |- *.
  destruct (sees_wr _ _ _ _ _ (x ^ y) (bok_nodup _ Hb) Hs Hl) as (regs' & R1 & Ew & Ew' & Hs'); [lia..|].
  rewrite Ew' in Hf. injection Hf as <- <-. exists regs'. split; [|done]. by rewrite Ew.
Qed.

Lemma store_step b i k : builder_ok b -> room b 1 -> 0 <= i < 16 ->
  bstep b 1 (ec_code_store b i k)
    (fun ins R out => x ← rd R i; out ← wr out k x; Some (R, out)).
Proof.
  intros Hb Hr Hi. destruct (map_get b i Hb Hi) as (r & E & Hl & Hrr).
  destruct (op_next_ok b (mkcop EC_GF_OP_STORE r 0 k) Hr) as (b1 & E1 & Hn & Hm & Ho).
  unfold ec_code_store. rewrite E. cbn [mbind option_bind].
  exists b1. split; [done|]. split; [done|]. split; [done|].
  intros ins m0 R out R' out' (regs & Ex & Hs) Hf.
  apply (runs_snoc b _ (mkcop EC_GF_OP_STORE r 0 k) ins m0 regs out); [congruence..|done|].
  cbn [exec_op cop carg1 carg2 carg3]. rewrite (sees_rd _ _ _ i r Hs Hl) by lia.
  destruct (rd R i) as [x|]; [|done]. cbn [mbind option_bind] in Hf |- *.
  destruct (wr out k x) as [o|]; [|done]. injection Hf as <- <-. exists regs. done.
Qed.

(** What an operation on registers does to them. *)
Definition on_regs (op : ec_gf_op_t) (ins : Z -> Z -> option A) (R out : list A)
    : option (list A * list A) :=
  R ← run_op op R; Some (R, out).

Lemma copy_step b d s c : builder_ok b -> room b 1 -> 0 <= d < 16 -> 0 <= s < 16 ->
  bstep b 1 (ec_code_copy b d s) (on_regs (mkop EC_GF_OP_COPY d s c)).
Proof.
  intros Hb Hr Hd Hs. destruct (map_get b d Hb Hd) as (rd_ & E & Hl & Hrr).
  destruct (map_get b s Hb Hs) as (rs & Es & Hls & _).
  destruct (op_next_ok b (mkcop EC_GF_OP_COPY rd_ rs 0) Hr) as (b1 & E1 & Hn & Hm & Ho).
  unfold ec_code_copy. rewrite E. cbn [mbind option_bind]. rewrite Es. cbn [mbind option_bind].
  rewrite E1. cbn [mbind option_bind].
  destruct (arg_assign_ok b 1 b1 rd_ Hn) as (Hn' & Hm' & Ho'). eexists. split; [done|].
  split; [done|]. split; [congruence|]. intros ins m0 R out R' out' (regs & Ex & Hsee) Hf.
  apply (runs_snoc b _ (mkcop EC_GF_OP_COPY rd_ rs 0) ins m0 regs out); [congruence..|done|].
  unfold on_regs, run_op in Hf. cbn [exec_op cop carg1 carg2 carg3 op_code arg1 arg2] in Hf |- *.
  rewrite (sees_rd _ _ _ s rs Hsee Hls) by lia.
  destruct (rd R s) as [x|]; [|done]. cbn [mbind option_bind] in Hf |- *.
  destruct (sees_wr _ _ _ _ _ x (bok_nodup _ Hb) Hsee Hl) as (regs' & R1 & Ew & Ew' & Hs'); [lia..|].
  rewrite Ew' in Hf. injection Hf as <- <-. exists regs'. split; [|done]. by rewrite Ew.
Qed.

Lemma xor2_step b d s c : builder_ok b -> room b 1 -> 0 <= d < 16 -> 0 <= s < 16 ->
  bstep b 1 (ec_code_xor2 b d s) (on_regs (mkop EC_GF_OP_XOR2 d s c)).
Proof.
  intros Hb Hr Hd Hs. destruct (map_get b d Hb Hd) as (rd_ & E & Hl & Hrr).
  destruct (map_get b s Hb Hs) as (rs & Es & Hls & _).
  destruct (op_next_ok b (mkcop EC_GF_OP_XOR2 rd_ rs 0) Hr) as (b1 & E1 & Hn & Hm & Ho).
  unfold ec_code_xor2. rewrite E. cbn [mbind option_bind]. rewrite Es. cbn [mbind option_bind].
  exists b1. split; [done|]. split; [done|]. split; [done|].
  intros ins m0 R out R' out' (regs & Ex & Hsee) Hf.
  apply (runs_snoc b _ (mkcop EC_GF_OP_XOR2 rd_ rs 0) ins m0 regs out); [congruence..|done|].
  unfold on_regs, run_op in Hf. cbn [exec_op cop carg1 carg2 carg3 op_code arg1 arg2] in Hf |- *.
  rewrite (sees_rd _ _ _ s rs Hsee Hls), (sees_rd _ _ _ d rd_ Hsee Hl) by lia.
  destruct (rd R d) as [x|]; [|done]. cbn [mbind option_bind] in Hf |- *.
  destruct (rd R s) as [y|]; [|done]. cbn [mbind option_bind] in Hf |- *.
  destruct (sees_wr _ _ _ _ _ (x ^ y) (bok_nodup _ Hb) Hsee Hl) as (regs' & R1 & Ew & Ew' & Hs'); [lia..|].
  rewrite Ew' in Hf. injection Hf as <- <-. exists regs'. split; [|done]. by rewrite Ew.
Qed.

(** The number of operations that [ec_code_dup] writes. *)
Definition op_cost (gen : ec_code_gen_t) (op : ec_gf_op_t) : nat :=
  match op_code op with
  | EC_GF_OP_COPY | EC_GF_OP_XOR2 => 1
  | EC_GF_OP_XOR3 => if gen_xor3 gen then 1 else 2
  | _ => 0
  end.

Lemma run_xor3 d s1 s2 (R : list A) :
  run_op (mkop EC_GF_OP_XOR3 d s1 s2) R
  = R ← run_op (mkop EC_GF_OP_COPY d s1 0) R; run_op (mkop EC_GF_OP_XOR2 d s2 0) R.
Proof. unfold run_op. cbn [op_code arg1 arg2 arg3]. by destruct (rd R s1). Qed.

Lemma xor3_step b d s1 s2 :
  builder_ok b -> room b (op_cost (b_gen b) (mkop EC_GF_OP_XOR3 d s1 s2)) ->
  0 <= d < 16 -> 0 <= s1 < 16 -> 0 <= s2 < 16 ->
  bstep b (op_cost (b_gen b) (mkop EC_GF_OP_XOR3 d s1 s2)) (ec_code_xor3 b d s1 s2)
    (on_regs (mkop EC_GF_OP_XOR3 d s1 s2)).
Proof.
  intros Hb Hr Hd Hs1 Hs2. unfold op_cost, ec_code_xor3 in *. cbn [op_code] in *.
  destruct (gen_xor3 (b_gen b)); cbn [negb].
  - destruct (map_get b d Hb Hd) as (rd_ & E & Hl & Hrr).
    destruct (map_get b s1 Hb Hs1) as (r1 & E1 & Hl1 & _).
    destruct (map_get b s2 Hb Hs2) as (r2 & E2 & Hl2 & _).
    destruct (op_next_ok b (mkcop EC_GF_OP_XOR3 rd_ r1 r2) Hr) as (b1 & Eb & Hn & Hm & Ho).
    rewrite E, E1, E2. cbn [mbind option_bind]. rewrite Eb. cbn [mbind option_bind].
    destruct (arg_assign_ok b 1 b1 rd_ Hn) as (Hn' & Hm' & Ho'). eexists. split; [done|].
    split; [done|]. split; [congruence|]. intros ins m0 R out R' out' (regs & Ex & Hsee) Hf.
    apply (runs_snoc b _ (mkcop EC_GF_OP_XOR3 rd_ r1 r2) ins m0 regs out); [congruence..|done|].
    unfold on_regs, run_op in Hf. cbn [exec_op cop carg1 carg2 carg3 op_code arg1 arg2 arg3] in Hf |- *.
    rewrite (sees_rd _ _ _ s1 r1 Hsee Hl1) by lia.
    destruct (rd R s1) as [x|]; [|done]. cbn [mbind option_bind] in Hf |- *.
    destruct (sees_wr _ _ _ _ _ x (bok_nodup _ Hb) Hsee Hl) as (g1 & R1 & Ew & Ew' & Hs'); [lia..|].
    rewrite Ew. rewrite Ew' in Hf. cbn [mbind option_bind] in Hf |- *.
    rewrite (sees_rd _ _ _ d rd_ Hs' Hl), (sees_rd _ _ _ s2 r2 Hs' Hl2) by lia.
    destruct (rd R1 d) as [y|]; [|done]. cbn [mbind option_bind] in Hf |- *.
    destruct (rd R1 s2) as [z|]; [|done]. cbn [mbind option_bind] in Hf |- *.
    destruct (sees_wr _ _ _ _ _ (y ^ z) (bok_nodup _ Hb) Hs' Hl) as (g2 & R2 & Ev & Ev' & Hs2'); [lia..|].
    rewrite Ev' in Hf. injection Hf as <- <-. exists g2. split; [|done]. by rewrite Ev.
  - destruct (copy_step b d s1 0 Hb) as (b1 & -> & Hn1 & Hm1 & H1); [unfold room in *; lia|lia..|].
    cbn [mbind option_bind]. pose proof (builder_ok_next _ _ _ Hb Hn1 Hm1) as Hb1.
    destruct (xor2_step b1 d s2 0 Hb1) as (b2 & -> & Hn2 & Hm2 & H2);
      [exact (next_room b 1 b1 1 Hn1 Hr)|lia..|].
    exists b2. split; [done|]. split; [exact (next_trans b 1 b1 1 b2 Hn1 Hn2)|].
    split; [congruence|]. intros ins m0 R out R' out' Hrun Hf.
    unfold on_regs in *. rewrite run_xor3 in Hf.
    destruct (run_op (mkop EC_GF_OP_COPY d s1 0) R) as [R1|] eqn:E1; [|done].
    cbn [mbind option_bind] in Hf.
    apply (H2 ins m0 R1 out); [|done]. apply (H1 ins m0 R out); [done|]. by rewrite E1.
Qed.

(** The registers of an operation are registers of the machine. *)
Definition op_wf (op : ec_gf_op_t) : bool :=
  let ok r := (0 <=? r) && (r <? 16) in
  match op_code op with
  | EC_GF_OP_COPY | EC_GF_OP_XOR2 => ok (arg1 op) && ok (arg2 op)
  | EC_GF_OP_XOR3 => ok (arg1 op) && ok (arg2 op) && ok (arg3 op)
  | _ => false
  end.

Lemma dup_step b op :
  builder_ok b -> op_wf op = true -> room b (op_cost (b_gen b) op) ->
  bstep b (op_cost (b_gen b) op) (ec_code_dup b op) (on_regs op).
Proof.
  intros Hb Hw Hr. destruct op as [c x y z]. unfold op_wf, ec_code_dup in *.
  cbn [op_code arg1 arg2 arg3] in *. destruct c; try done.
  - apply copy_step; [done|exact Hr|lia..].
  - apply xor2_step; [done|exact Hr|lia..].
  - apply xor3_step; [done|exact Hr|lia..].
Qed.

Definition ops_cost (gen : ec_code_gen_t) (ops : list ec_gf_op_t) : nat :=
  foldr (fun op n => (op_cost gen op + n)%nat) 0%nat ops.

Definition has_end (ops : list ec_gf_op_t) : bool :=
  existsb (fun op => bool_decide (op_code op = EC_GF_OP_END)) ops.

Lemma dup_ops_step ops : forall b,
  builder_ok b -> forallb op_wf (until_end ops) = true -> has_end ops = true ->
  room b (ops_cost (b_gen b) (until_end ops)) ->
  bstep b (ops_cost (b_gen b) (until_end ops)) (dup_ops b ops)
    (fun ins R out => R ← run_ops (until_end ops) R; Some (R, out)).
Proof.
  induction ops as [|op ops IH]; intros b Hb Hw He Hr; [done|].
  cbn [until_end dup_ops has_end existsb] in *. case_decide as Hd.
  - exists b. split; [done|]. split; [apply next_refl|]. split; [done|].
    intros ins m0 R out R' out' Hrun [= <- <-]. done.
  - rewrite bool_decide_false in He by done. cbn [orb] in He.
    cbn [forallb] in Hw. apply andb_true_iff in Hw as [Hw Hws].
    cbn [ops_cost foldr] in Hr |- *. fold (ops_cost (b_gen b) (until_end ops)) in Hr |- *.
    destruct (dup_step b op Hb Hw) as (b1 & -> & Hn1 & Hm1 & H1); [unfold room in *; lia|].
    cbn [mbind option_bind]. pose proof (builder_ok_next _ _ _ Hb Hn1 Hm1) as Hb1.
    pose proof (next_gen _ _ _ Hn1) as Hg.
    destruct (IH b1 Hb1 Hws He) as (b2 & -> & Hn2 & Hm2 & H2).
    { rewrite Hg. exact (next_room _ _ _ _ Hn1 Hr). }
    rewrite Hg in Hn2. exists b2. split; [done|]. split; [exact (next_trans _ _ _ _ _ Hn1 Hn2)|].
    split; [congruence|]. intros ins m0 R out R' out' Hrun Hf.
    cbn [run_ops] in Hf. destruct (run_op op R) as [R1|] eqn:E1; [|done].
    apply (H2 ins m0 R1 out); [|exact Hf]. apply (H1 ins m0 R out); [done|].
    unfold on_regs. by rewrite E1.
Qed.
End Semantics.

(** ** Multiplication *)

(** The map of a program is a permutation of its registers, and its operations
    are on the registers of the machine. *)
Definition mul_wf (mul : ec_gf_mul_t) : bool :=
  (8 <=? mul_regs mul) && (mul_regs mul <=? 16) &&
  (Z.of_nat (length (mul_map mul)) =? mul_regs mul) &&
  bool_decide (NoDup (mul_map mul)) &&
  forallb (fun r => (0 <=? r) && (r <? mul_regs mul)) (mul_map mul) &&
  forallb op_wf (until_end (mul_ops mul)) && has_end (mul_ops mul).

Lemma mul_wf_check :
  forallb (fun c => match ec_gf8_mul !! c with Some mul => mul_wf mul | None => false end)
    (seq 1 255) = true.
Proof. vm_compute. reflexivity. Qed.

Lemma mul_get c : 1 <= c < 256 -> exists mul, rd ec_gf8_mul c = Some mul /\ mul_wf mul = true.
Proof.
  intros Hc. pose proof mul_wf_check as H. rewrite forallb_forall in H.
  specialize (H (Z.to_nat c) ltac:(apply in_seq; lia)). unfold rd.
  rewrite (proj2 (Z.leb_le 0 c)) by lia.
  destruct (ec_gf8_mul !! Z.to_nat c) as [mul|]; [eauto|done].
Qed.

(** Operations of the program of [c]. *)
Definition mul_cost (gen : ec_code_gen_t) (c : Z) : nat :=
  match rd ec_gf8_mul c with
  | Some mul => ops_cost gen (until_end (mul_ops mul))
  | None => 0%nat
  end.

(** The new map: the registers of the program in the order of its map. *)
Lemma remap_ok b mul :
  builder_ok b -> mul_wf mul = true ->
  exists map, mapM (fun i => m ← rd (mul_map mul) (Z.of_nat i); rd (b_map b) m)
                (seq 0 (Z.to_nat (mul_regs mul))) = Some map /\
    length map = length (mul_map mul) /\
    (forall i m, mul_map mul !! i = Some m -> map !! i = b_map b !! Z.to_nat m).
Proof.
  intros Hb Hw. unfold mul_wf in Hw. rewrite !andb_true_iff, forallb_forall in Hw.
  destruct Hw as ((((((H8 & H16) & Hlen) & _) & Hr) & _) & _).
  assert (Hrange : forall i m, mul_map mul !! i = Some m -> 0 <= m < 16).
  { intros i m Hi. apply list_elem_of_lookup_2, list_elem_of_In in Hi. specialize (Hr m Hi). lia. }
  replace (Z.to_nat (mul_regs mul)) with (length (mul_map mul)) by lia.
  set (l := mul_map mul) in *. clearbody l.
  assert (G : forall s l1 l0, l = l0 ++ l1 -> s = length l0 -> exists map,
    mapM (fun i => m ← rd l (Z.of_nat i); rd (b_map b) m) (seq s (length l1)) = Some map /\
    length map = length l1 /\
    (forall i m, l1 !! i = Some m -> map !! i = b_map b !! Z.to_nat m)).
  { intros s l1. revert s. induction l1 as [|m l1 IH]; intros s l0 Hl Hs; [by exists []|].
    destruct (IH (S s) (l0 ++ [m])) as (map & E & Hlm & Hm).
    { by rewrite <- app_assoc. }
    { rewrite length_app. simpl. lia. }
    destruct (map_get b m Hb) as (r & Er & Hlr & _).
    { apply (Hrange (length l0)). rewrite Hl. by apply list_lookup_middle. }
    exists (r :: map). cbn [seq length mapM]. rewrite rd_lookup, Hl at 1.
    rewrite (list_lookup_middle l0 l1 m s Hs). cbn [mbind option_bind]. rewrite Er.
    cbn [mbind option_bind]. rewrite E. split; [done|]. split; [cbn; lia|].
    intros [|i] m' Hi; [injection Hi as <-; done|]. by apply Hm. }
  exact (G 0%nat l [] eq_refl eq_refl).
Qed.

(** Where a register of the new map comes from. *)
Lemma remap_lookup b mul map i r :
  mul_wf mul = true -> length map = length (mul_map mul) ->
  (forall i m, mul_map mul !! i = Some m -> map !! i = b_map b !! Z.to_nat m) ->
  (map ++ drop (length (mul_map mul)) (b_map b)) !! i = Some r ->
  exists j, b_map b !! j = Some r /\
    if decide (i < length (mul_map mul))%nat
    then mul_map mul !! i = Some (Z.of_nat j) /\ (j < length (mul_map mul))%nat
    else j = i.
Proof.
  intros Hw Hl Hm Hi. unfold mul_wf in Hw. rewrite !andb_true_iff, forallb_forall in Hw.
  destruct Hw as ((((((H8 & H16) & Hlen) & _) & Hr) & _) & _).
  case_decide as Hd.
  - rewrite lookup_app_l in Hi by lia.
    destruct (lookup_lt_is_Some_2 (mul_map mul) i Hd) as [m Em].
    rewrite (Hm _ _ Em) in Hi. exists (Z.to_nat m). split; [done|].
    pose proof Em as Em'. apply list_elem_of_lookup_2, list_elem_of_In in Em'. specialize (Hr m Em').
    rewrite Z2Nat.id by lia. split; [done|lia].
  - rewrite lookup_app_r in Hi by lia. rewrite lookup_drop in Hi. exists i. split; [|done].
    rewrite <- Hi. f_equal. lia.
Qed.

Lemma remap_builder_ok b mul map :
  builder_ok b -> mul_wf mul = true -> length map = length (mul_map mul) ->
  (forall i m, mul_map mul !! i = Some m -> map !! i = b_map b !! Z.to_nat m) ->
  builder_ok (set_map b (map ++ drop (length (mul_map mul)) (b_map b))).
Proof.
  intros [Hgf Hbl Hnd Hrange] Hw Hl Hm.
  assert (H16 : (length (mul_map mul) <= 16)%nat /\ NoDup (mul_map mul)).
  { unfold mul_wf in Hw. rewrite !andb_true_iff, bool_decide_eq_true in Hw. split; [lia|]. tauto. }
  destruct H16 as [H16 Hmn]. split; cbn [b_gf b_map set_map].
  - done.
  - rewrite length_app, length_drop, Hbl. unfold EC_GF_MAX_REGS. lia.
  - apply NoDup_alt. intros i i' r Hi Hi'.
    destruct (remap_lookup b mul map i r Hw Hl Hm Hi) as (j & Hj & Hc).
    destruct (remap_lookup b mul map i' r Hw Hl Hm Hi') as (j' & Hj' & Hc').
    pose proof (NoDup_lookup _ _ _ _ Hnd Hj Hj') as ->.
    do 2 case_decide; try lia. destruct Hc, Hc'. by apply (NoDup_lookup (mul_map mul) _ _ (Z.of_nat j')).
  - apply Forall_lookup_2. intros i r Hi.
    destruct (remap_lookup b mul map i r Hw Hl Hm Hi) as (j & Hj & _).
    by apply (Forall_lookup_1 _ _ _ _ Hrange Hj).
Qed.

Lemma gf_mul_ok b c :
  builder_ok b -> 1 <= c < 256 -> room b (mul_cost (b_gen b) c) ->
  exists b', ec_code_gf_mul b c = Some b' /\ next b (mul_cost (b_gen b) c) b' /\ builder_ok b' /\
    forall ins m0 a tmp out, in8 a -> length tmp = 8%nat -> runs b ins m0 (bits8 a ++ tmp) out ->
      exists tmp', length tmp' = 8%nat /\ runs b' ins m0 (bits8 (gmul c a) ++ tmp') out.
Proof.
  intros Hb Hc Hr. destruct (mul_get c Hc) as (mul & Em & Hw).
  unfold mul_cost in *. rewrite Em in *. unfold ec_code_gf_mul.
  rewrite (ok_table _ (bok_gf _ Hb)), Em. cbn [mbind option_bind].
  assert (Hw' := Hw). unfold mul_wf in Hw'. rewrite !andb_true_iff in Hw'.
  destruct Hw' as ((((((H8 & H16) & Hlen) & _) & _) & Hops) & Hend).
  destruct (dup_ops_step (A := bool) (mul_ops mul) b Hb Hops Hend Hr) as (b1 & -> & Hn & Hm1 & H1).
  cbn [mbind option_bind]. pose proof (builder_ok_next _ _ _ Hb Hn Hm1) as Hb1.
  destruct (remap_ok b1 mul Hb1 Hw) as (map & -> & Hlm & Hm). cbn [mbind option_bind].
  replace (Z.to_nat (mul_regs mul)) with (length (mul_map mul)) by lia.
  eexists. split; [done|]. split; [by destruct Hn|]. split; [by apply remap_builder_ok|].
  intros ins m0 a tmp out Ha Ht Hrun. pose proof (run_mul_ok c mul a tmp Hc Em Ha Ht) as Hmul.
  unfold run_mul in Hmul. destruct (run_ops _ _) as [R1|] eqn:ER; [|done]. cbn [mbind option_bind] in Hmul.
  destruct (permute R1 _) as [P|] eqn:EP; [|done]. injection Hmul as HP.
  destruct (H1 ins m0 _ out R1 out Hrun) as (regs & Ex & Hsl & HlR & Hs); [by rewrite ER|].
  apply mapM_Some in EP. pose proof (Forall2_length _ _ _ EP) as HlP. rewrite Hm1, (bok_length _ Hb) in HlR.
  exists (drop 8 P ++ drop (length (mul_map mul)) R1). split.
  { rewrite length_app, !length_drop, HlR, <- HlP. unfold EC_GF_MAX_REGS. lia. }
  exists regs. split; [done|]. cbn [b_map set_map]. rewrite <- HP, app_assoc, take_drop.
  split; [done|]. split.
  { rewrite !length_app, !length_drop, HlR, Hlm, <- HlP, Hm1, (bok_length _ Hb). done. }
  intros i r Hi. destruct (remap_lookup b1 mul map i r Hw Hlm Hm Hi) as (j & Hj & Hcase).
  rewrite (Hs _ _ Hj). case_decide as Hd.
  - destruct Hcase as [Hmi Hjl]. rewrite lookup_app_l by lia.
    destruct (Forall2_lookup_l _ _ _ _ _ EP Hmi) as (x & Hx & Hrd). by rewrite Hx, <- Hrd, rd_lookup.
  - subst j. rewrite lookup_app_r by lia. rewrite lookup_drop. f_equal. lia.
Qed.

(** ** Loops over the planes *)

(** A loop that replaces the elements of a list one by one. *)
Lemma elem_loop {A} (G : Z -> list A -> option (list A)) mid : forall mid' pre post,
  length mid = length mid' ->
  (forall k x y pre' post', mid !! k = Some x -> mid' !! k = Some y ->
     length pre' = (length pre + k)%nat ->
     G (Z.of_nat (length pre')) (pre' ++ x :: post') = Some (pre' ++ y :: post')) ->
  for_up (length mid) (Z.of_nat (length pre)) G (pre ++ mid ++ post) = Some (pre ++ mid' ++ post).
Proof.
  induction mid as [|x mid IH]; intros [|y mid'] pre post Hl HG; try done.
  cbn [length for_up app]. rewrite (HG 0%nat x y) by (done || lia). cbn [mbind option_bind].
  specialize (IH mid' (pre ++ [y]) post).
  rewrite <- !app_assoc, length_app, Nat2Z.inj_add in IH. cbn [app length] in IH. apply IH.
  - by injection Hl.
  - intros k x' y' pre' post' Hx Hy Hp. apply (HG (S k)); [done..|]. rewrite Hp. cbn. lia.
Qed.

Lemma for_up_ext {S} (f g : Z -> S -> option S) n i s :
  (forall j s, f j s = g j s) -> for_up n i f s = for_up n i g s.
Proof.
  intros H. revert i s. induction n as [|n IH]; intros i s; [done|]. cbn [for_up]. rewrite H.
  by destruct (g i s); cbn [mbind option_bind].
Qed.

Lemma for_up_fst {A B} (G : Z -> A -> option A) n i a (b : B) :
  for_up n i (fun j '(a, b) => a ← G j a; Some (a, b)) (a, b) = a ← for_up n i G a; Some (a, b).
Proof.
  revert i a. induction n as [|n IH]; intros i a; [done|]. cbn [for_up].
  destruct (G i a); [apply IH|done].
Qed.

Lemma for_up_snd {A B} (G : Z -> A -> option A) n i a (b : B) :
  for_up n i (fun j '(b, a) => a ← G j a; Some (b, a)) (b, a) = a ← for_up n i G a; Some (b, a).
Proof.
  revert i a. induction n as [|n IH]; intros i a; [done|]. cbn [for_up].
  destruct (G i a); [apply IH|done].
Qed.

Lemma loop_step {A} `{Xor A} (g : Z -> ec_code_builder_t -> option ec_code_builder_t)
    (f : Z -> (Z -> Z -> option A) -> list A -> list A -> option (list A * list A)) n : forall i b,
  builder_ok b -> room b n ->
  (forall j b, i <= j < i + Z.of_nat n -> builder_ok b -> room b 1 -> bstep b 1 (g j b) (f j)) ->
  bstep b n (for_up n i g b)
    (fun ins R out => for_up n i (fun j '(R, out) => f j ins R out) (R, out)).
Proof.
  induction n as [|n IH]; intros i b Hb Hr Hg.
  - exists b. split; [done|]. split; [apply next_refl|]. split; [done|].
    intros ins m0 R out R' out' Hrun [= <- <-]. done.
  - destruct (Hg i b) as (b1 & E & Hn & Hm & H1); [lia|done|unfold room in *; lia|].
    cbn [for_up]. rewrite E. cbn [mbind option_bind]. pose proof (builder_ok_next _ _ _ Hb Hn Hm) as Hb1.
    destruct (IH (i + 1) b1 Hb1) as (b2 & E2 & Hn2 & Hm2 & H2).
    { exact (next_room b 1 b1 n Hn Hr). }
    { intros j b' Hj. apply Hg. lia. }
    exists b2. split; [done|]. split; [exact (next_trans b 1 b1 n b2 Hn Hn2)|].
    split; [congruence|]. intros ins m0 R out R' out' Hrun Hf.
    destruct (f i ins R out) as [[R1 out1]|] eqn:Ef; [|done].
    apply (H2 ins m0 R1 out1); [|exact Hf]. by apply (H1 ins m0 R out).
Qed.

(** The planes of a source are the bits of a byte. *)
Definition gives (ins : Z -> Z -> option bool) (off s : Z) : Prop :=
  forall k, (k < 8)%nat -> ins off (Z.of_nat k) = Some (Z.testbit s (Z.of_nat k)).

Lemma split8 {A} (R : list A) : length R = EC_GF_MAX_REGS ->
  exists h t, R = h ++ t /\ length h = 8%nat /\ length t = 8%nat.
Proof.
  intros Hl. exists (take 8 R), (drop 8 R). rewrite take_drop, length_take, length_drop, Hl. done.
Qed.

Lemma bits8_inv a k y : bits8 a !! k = Some y -> (k < 8)%nat /\ y = Z.testbit a (Z.of_nat k).
Proof.
  intros H. pose proof (lookup_lt_Some _ _ _ H) as Hk. rewrite length_bits8 in Hk.
  rewrite bits8_lookup in H by done. injection H as <-. done.
Qed.

Lemma gf_load_ok b off :
  builder_ok b -> room b 8 ->
  exists b', ec_code_gf_load b off = Some b' /\ next b 8 b' /\ builder_ok b' /\
    forall ins m0 R out s, gives ins off s -> runs b ins m0 R out ->
      exists tmp, length tmp = 8%nat /\ runs b' ins m0 (bits8 s ++ tmp) out.
Proof.
  intros Hb Hr. unfold ec_code_gf_load. rewrite (ok_bits _ (bok_gf _ Hb)). change (Z.to_nat 8) with 8%nat.
  destruct (loop_step (A := bool) (fun i b => ec_code_load b i off) (fun i ins R out =>
    x ← ins off i; R ← wr R i x; Some (R, out)) 8 0 b Hb Hr) as (b' & -> & Hn & Hm & H).
  { intros j b1 Hj Hb1 Hr1. apply load_step; [done..|lia]. }
  exists b'. split; [done|]. split; [done|]. split; [by eapply builder_ok_next|].
  intros ins m0 R out s Hs Hrun.
  destruct (split8 R) as (h & t & -> & Hh & Ht).
  { destruct Hrun as (? & _ & _ & -> & _). by rewrite (bok_length _ Hb). }
  exists t. split; [done|]. apply (H ins m0 (h ++ t) out); [done|].
  transitivity (R ← for_up 8 0 (fun j R => x ← ins off j; wr R j x) (h ++ t); Some (R, out)).
  { rewrite <- for_up_fst. apply for_up_ext. intros j [R o]. by destruct (ins off j). }
  pose proof (elem_loop (fun j R => x ← ins off j; wr R j x) h (bits8 s) [] t) as E.
  rewrite Hh in E. cbn [app length] in E. change (Z.of_nat 0) with 0 in E. rewrite E; [done|done|].
  intros k x y pre' post' _ Hy Hp. apply bits8_inv in Hy as [Hk ->]. rewrite Hp. cbn [length Nat.add].
  rewrite Hs by done. cbn [mbind option_bind]. apply wr_app. by rewrite Hp.
Qed.

Lemma gf_load_xor_ok b off :
  builder_ok b -> room b 8 ->
  exists b', ec_code_gf_load_xor b off = Some b' /\ next b 8 b' /\ builder_ok b' /\
    forall ins m0 a tmp out s, gives ins off s -> runs b ins m0 (bits8 a ++ tmp) out ->
      runs b' ins m0 (bits8 (Z.lxor a s) ++ tmp) out.
Proof.
  intros Hb Hr. unfold ec_code_gf_load_xor. rewrite (ok_bits _ (bok_gf _ Hb)). change (Z.to_nat 8) with 8%nat.
  destruct (loop_step (A := bool) (fun i b => ec_code_xorm b i off) (fun i ins R out =>
    x ← rd R i; y ← ins off i; R ← wr R i (x ^ y); Some (R, out)) 8 0 b Hb Hr) as (b' & -> & Hn & Hm & H).
  { intros j b1 Hj Hb1 Hr1. apply xorm_step; [done..|lia]. }
  exists b'. split; [done|]. split; [done|]. split; [by eapply builder_ok_next|].
  intros ins m0 a tmp out s Hs Hrun. apply (H ins m0 (bits8 a ++ tmp) out); [done|].
  transitivity (R ← for_up 8 0 (fun j R => x ← rd R j; y ← ins off j; wr R j (x ^ y)) (bits8 a ++ tmp);
                Some (R, out)).
  { rewrite <- for_up_fst. apply for_up_ext. intros j [R o].
    destruct (rd R j); [|done]. cbn [mbind option_bind]. by destruct (ins off j). }
  pose proof (elem_loop (fun j R => x ← rd R j; y ← ins off j; wr R j (x ^ y))
    (bits8 a) (bits8 (Z.lxor a s)) [] tmp) as E.
  cbn [app length] in E. change (Z.of_nat 0) with 0 in E. rewrite length_bits8 in E. rewrite E; [done|done|].
  intros k x y pre' post' Hx Hy Hp. apply bits8_inv in Hx as [_ ->]. apply bits8_inv in Hy as [Hk ->].
  rewrite rd_app by done. cbn [mbind option_bind]. rewrite Hp. cbn [length Nat.add].
  rewrite Hs by done. cbn [mbind option_bind].
  rewrite wr_app by (by rewrite Hp). do 3 f_equal. symmetry. apply Z.lxor_spec.
Qed.

Lemma gf_store_ok b :
  builder_ok b -> room b 8 ->
  exists b', ec_code_gf_store b = Some b' /\ next b 8 b' /\ builder_ok b' /\
    forall ins m0 a tmp out, length out = 8%nat -> runs b ins m0 (bits8 a ++ tmp) out ->
      runs b' ins m0 (bits8 a ++ tmp) (bits8 a).
Proof.
  intros Hb Hr. unfold ec_code_gf_store. rewrite (ok_bits _ (bok_gf _ Hb)). change (Z.to_nat 8) with 8%nat.
  destruct (loop_step (A := bool) (fun i b => ec_code_store b i i) (fun i ins R out =>
    x ← rd R i; out ← wr out i x; Some (R, out)) 8 0 b Hb Hr) as (b' & -> & Hn & Hm & H).
  { intros j b1 Hj Hb1 Hr1. apply store_step; [done..|lia]. }
  exists b'. split; [done|]. split; [done|]. split; [by eapply builder_ok_next|].
  intros ins m0 a tmp out Ho Hrun. apply (H ins m0 (bits8 a ++ tmp) out); [done|].
  set (R := bits8 a ++ tmp). transitivity (o ← for_up 8 0 (fun j o => x ← rd R j; wr o j x) out; Some (R, o)).
  { pose proof (for_up_snd (fun j o => x ← rd R j; wr o j x) 8 0 out R) as E. rewrite <- E.
    clear -R. generalize 8%nat 0. intros n. revert out. induction n as [|n IH]; intros out i; [done|].
    cbn [for_up]. destruct (rd R i) as [x|]; [|done]. cbn [mbind option_bind].
    destruct (wr out i x); [|done]. cbn [mbind option_bind]. apply IH. }
  pose proof (elem_loop (fun j o => x ← rd R j; wr o j x) out (bits8 a) [] []) as E.
  rewrite !app_nil_r, Ho in E. cbn [app length] in E. change (Z.of_nat 0) with 0 in E. rewrite E; [done|done|].
  intros k x y pre' post' Hx Hy Hp. cbn [length Nat.add] in Hp. apply lookup_lt_Some in Hy as Hk.
  rewrite Hp, rd_lookup. unfold R. rewrite lookup_app_l, Hy by done. cbn [mbind option_bind].
  apply wr_app. by rewrite Hp.
Qed.

(** ** The next coefficient *)

Lemma value_next_loop_some z : forall n pre v post vo count i x,
  (z < n)%nat -> v <> 0 -> vo + i = Z.of_nat (length pre) -> i + Z.of_nat z < count ->
  value_next_loop n (pre ++ replicate z 0 ++ v :: post) vo count i x = Some (v, i + Z.of_nat z).
Proof.
  induction z as [|z IH]; intros [|n] pre v post vo count i x Hn Hv Hi Hc; try lia;
    cbn [value_next_loop replicate app]; rewrite (proj2 (Z.ltb_lt _ _)) by lia;
    rewrite rd_app by done; cbn [mbind option_bind].
  - rewrite (proj2 (Z.eqb_neq v 0)) by done. cbn [negb]. do 2 f_equal. lia.
  - cbn [Z.eqb negb]. specialize (IH n (pre ++ [0]) v post vo count (i + 1) 0).
    rewrite <- app_assoc in IH. cbn [app] in IH.
    rewrite IH; [do 2 f_equal; lia|lia|done|rewrite length_app; cbn; lia|lia].
Qed.

Lemma value_next_loop_none z : forall n pre post vo count i,
  (z <= n)%nat -> vo + i = Z.of_nat (length pre) -> i + Z.of_nat z = count ->
  value_next_loop n (pre ++ replicate z 0 ++ post) vo count i 0 = Some (0, count).
Proof.
  induction z as [|z IH]; intros n pre post vo count i Hn Hi Hc.
  - replace count with i by lia. destruct n; cbn [value_next_loop]; by rewrite Z.ltb_irrefl.
  - destruct n as [|n]; [lia|]. cbn [value_next_loop replicate app].
    rewrite (proj2 (Z.ltb_lt _ _)) by lia. rewrite rd_app by done. cbn [mbind option_bind Z.eqb negb].
    specialize (IH n (pre ++ [0]) post vo count (i + 1)).
    rewrite <- app_assoc in IH. cbn [app] in IH.
    rewrite IH; [done|lia|rewrite length_app; cbn; lia|lia].
Qed.

Lemma zeros_or_split vs : vs = replicate (length vs) 0 \/
  exists z v ws, vs = replicate z 0 ++ v :: ws /\ v <> 0.
Proof.
  destruct (decide (Exists (fun v => v <> 0) vs)) as [H|H]; [right; by apply split_zeros|].
  left. apply not_Exists_Forall in H; [|intros x; exact _].
  induction H as [|x l Hx Hl IH]; [done|]. cbn [length replicate]. f_equal; [by apply dec_stable|done].
Qed.

(** ** The whole row *)

Lemma some_bind {A B} (x : A) (f : A -> option B) : (Some x ≫= f) = f x.
Proof. done. Qed.

(** The operations for the coefficients after the first one that is not zero. *)
Definition quots_cost (gen : ec_code_gen_t) (qs : list Z) : nat :=
  foldr (fun q n => if q =? 0 then n else (mul_cost gen q + 8 + n)%nat) 0%nat qs.

Definition rest_cost (gen : ec_code_gen_t) (cur : Z) (vs : list Z) : nat :=
  (mul_cost gen (gmul cur (ginv (first_nz vs))) + quots_cost gen (quots vs))%nat.

(** The operations of a row. *)
Definition row_cost (gen : ec_code_gen_t) (vs : list Z) : nat :=
  (quots_cost gen (quots vs) + 8)%nat.

Lemma quots_cost_zeros gen z l : quots_cost gen (replicate z 0 ++ l) = quots_cost gen l.
Proof. induction z; [done|]. cbn. done. Qed.

Lemma first_nz_zeros z vs : first_nz (replicate z 0 ++ vs) = first_nz vs.
Proof. induction z as [|z IH]; [done|]. cbn [replicate app]. rewrite first_nz_cons. cbn. done. Qed.

Lemma rest_cost_zeros gen cur z : in8 cur -> rest_cost gen cur (replicate z 0) = mul_cost gen cur.
Proof.
  intros Hc. unfold rest_cost. rewrite <- (app_nil_r (replicate z 0)).
  rewrite first_nz_zeros, quots_zeros, quots_cost_zeros. change (first_nz []) with 1.
  rewrite ginv_1, gmul_1_r by done. apply Nat.add_0_r.
Qed.

Lemma rest_cost_split gen cur z v ws :
  nz8 v -> Forall in8 ws ->
  rest_cost gen cur (replicate z 0 ++ v :: ws)
  = (mul_cost gen (gmul cur (ginv v)) + (8 + rest_cost gen v ws))%nat.
Proof.
  intros Hv Hws. unfold rest_cost. rewrite first_nz_zeros, quots_zeros, quots_cost_zeros.
  rewrite first_nz_cons, quots_cons, (proj2 (Z.eqb_neq v 0)) by (unfold nz8 in Hv; lia).
  cbn [quots_cost foldr]. pose proof (nz8_div v _ Hv (first_nz_nz8 ws Hws)) as Hq.
  rewrite (proj2 (Z.eqb_neq _ 0)) by (unfold nz8 in Hq; lia). fold (quots_cost gen (quots ws)). lia.
Qed.

Lemma row_cost_split gen z v ws :
  nz8 v -> Forall in8 ws ->
  row_cost gen (replicate z 0 ++ v :: ws) = (8 + (rest_cost gen v ws + 8))%nat.
Proof.
  intros Hv HF. unfold row_cost. rewrite quots_zeros, quots_cost_zeros, quots_cons.
  rewrite (proj2 (Z.eqb_neq v 0)) by (unfold nz8 in Hv; lia).
  cbn [quots_cost foldr]. pose proof (nz8_div v _ Hv (first_nz_nz8 ws HF)) as Hq.
  rewrite (proj2 (Z.eqb_neq _ 0)) by (unfold nz8 in Hq; lia).
  unfold rest_cost. fold (quots_cost gen (quots ws)).
  generalize (quots_cost gen (quots ws)) (mul_cost gen (gmul v (ginv (first_nz ws)))). lia.
Qed.

(** The sources from index [i] on. *)
Definition gives_from (ins : Z -> Z -> option bool) (i : Z) (ss : list Z) : Prop :=
  Forall in8 ss /\ forall k s, ss !! k = Some s -> gives ins (i + Z.of_nat k) s.

Lemma gives_from_app ins i ss1 ss2 :
  gives_from ins i (ss1 ++ ss2) -> gives_from ins (i + Z.of_nat (length ss1)) ss2.
Proof.
  intros [HF H]. apply Forall_app in HF as [_ HF]. split; [done|]. intros k s Hk.
  specialize (H (length ss1 + k)%nat s). rewrite lookup_app_r in H by lia.
  replace (length ss1 + k - length ss1)%nat with k in H by lia. specialize (H Hk).
  by replace (i + Z.of_nat (length ss1) + Z.of_nat k) with (i + Z.of_nat (length ss1 + k)) by lia.
Qed.

Lemma gives_from_cons ins i s ss :
  gives_from ins i (s :: ss) -> gives ins i s /\ in8 s /\ gives_from ins (i + 1) ss.
Proof.
  intros H. pose proof (gives_from_app ins i [s] ss H) as H'. destruct H as [[Hs HF]%Forall_cons H].
  split; [|by split]. specialize (H 0%nat s eq_refl). by rewrite Z.add_0_r in H.
Qed.

(** The source of the first coefficient that is not zero, and those after it. *)
Lemma gives_split ins i ss z v ws :
  gives_from ins i ss -> length ss = length (replicate z 0 ++ v :: ws) ->
  exists s ss2, gives ins (i + Z.of_nat z) s /\ in8 s /\ gives_from ins (i + Z.of_nat z + 1) ss2 /\
    length ss2 = length ws /\
    dot (replicate z 0 ++ v :: ws) ss = Z.lxor (gmul v s) (dot ws ss2).
Proof.
  intros Hg Hl. rewrite length_app, length_replicate in Hl. cbn [length] in Hl.
  rewrite <- (take_drop z ss) in Hg |- *.
  assert (Hlt : length (take z ss) = z) by (rewrite length_take; lia).
  assert (Hld : length (drop z ss) = S (length ws)) by (rewrite length_drop; lia).
  apply gives_from_app in Hg. rewrite Hlt in Hg. rewrite dot_zeros by done.
  destruct (drop z ss) as [|s ss2]; [done|]. injection Hld as Hld.
  apply gives_from_cons in Hg as (Hs & Hs8 & Hg). by exists s, ss2.
Qed.

Section Row.
Context (gf : ec_gf_t) (Hgf : gf_ok gf) (pre post : list Z).

(** What a builder [b'] adds to [b]: [cur] times the planes plus the row [vs]
    of the sources from [i] on. *)
Definition adds (b b' : ec_code_builder_t) (cur i : Z) (vs : list Z) : Prop :=
  forall ins m0 a tmp out ss,
    in8 a -> length tmp = 8%nat -> runs b ins m0 (bits8 a ++ tmp) out ->
    gives_from ins i ss -> length ss = length vs ->
    exists tmp', length tmp' = 8%nat /\
      runs b' ins m0 (bits8 (Z.lxor (gmul cur a) (dot vs ss)) ++ tmp') out.

Lemma dot_zero_l z ss : dot (replicate z 0) ss = 0.
Proof.
  revert ss. induction z as [|z IH]; intros [|s ss]; try done. cbn [replicate dot].
  by rewrite gmul_0_l, IH.
Qed.

(** Multiplying by a quotient and adding a source continues the row. *)
Lemma adds_step b b1 b2 b' cur v z ws i :
  nz8 cur -> nz8 v -> Forall in8 ws ->
  (forall ins m0 a tmp out, in8 a -> length tmp = 8%nat -> runs b ins m0 (bits8 a ++ tmp) out ->
     exists tmp', length tmp' = 8%nat /\
       runs b1 ins m0 (bits8 (gmul (gmul cur (ginv v)) a) ++ tmp') out) ->
  (forall ins m0 a tmp out s, gives ins (i + Z.of_nat z) s -> runs b1 ins m0 (bits8 a ++ tmp) out ->
     runs b2 ins m0 (bits8 (Z.lxor a s) ++ tmp) out) ->
  adds b2 b' v (i + Z.of_nat z + 1) ws -> adds b b' cur i (replicate z 0 ++ v :: ws).
Proof.
  intros Hc Hv Hws H1 H2 H ins m0 a tmp out ss Ha Ht Hrun Hg Hl.
  destruct (gives_split ins i ss z v ws Hg Hl) as (s & ss2 & Hs & Hs8 & Hg' & Hld & ->).
  destruct (H1 ins m0 a tmp out Ha Ht Hrun) as (t1 & Ht1 & Hr1).
  apply (H2 _ _ _ _ _ s Hs) in Hr1.
  assert (Ha' : in8 (Z.lxor (gmul (gmul cur (ginv v)) a) s)) by auto 10 using in8_ginv with gf.
  destruct (H ins m0 _ t1 out ss2 Ha' Ht1 Hr1 Hg' Hld) as (t2 & Ht2 & Hr2).
  exists t2. split; [done|].
  rewrite gmul_lxor_r, div_mul_l, Z.lxor_assoc in Hr2 by auto with gf. done.
Qed.

Lemma rest_ok fuel : forall d cur rest b offset count,
  (length rest < fuel)%nat -> nz8 cur -> Forall in8 rest -> builder_ok b ->
  room b (rest_cost (b_gen b) cur rest) ->
  count = Z.of_nat (length (d ++ cur :: rest)) -> count < 2 ^ 32 ->
  offset = Z.of_nat (length d) ->
  exists b',
    ('(b, val) ← build_loop fuel gf (pre ++ (d ++ cur :: rest) ++ post)
                   (Z.of_nat (length pre)) count b cur offset;
     ec_code_gf_mul b val) = Some b' /\
    next b (rest_cost (b_gen b) cur rest) b' /\ builder_ok b' /\ adds b b' cur (offset + 1) rest.
Proof.
  induction fuel as [|fuel IH]; intros d cur rest b offset count Hf Hc HF Hb Hr Hcount H32 Hoff; [lia|].
  cbn [build_loop]. unfold ec_code_value_next. rewrite length_app in Hcount. cbn [length] in Hcount.
  rewrite u32_small by lia. rewrite !app_assoc. rewrite <- (app_assoc (pre ++ d)). cbn [app].
  replace (cur :: rest ++ post) with ([cur] ++ rest ++ post) by done. rewrite (app_assoc (pre ++ d)).
  assert (Hi : Z.of_nat (length pre) + (offset + 1) = Z.of_nat (length ((pre ++ d) ++ [cur])))
    by (rewrite !length_app; cbn; lia).
  destruct (zeros_or_split rest) as [Hz|(z & v & ws & -> & Hv0)].
  - rewrite Hz, value_next_loop_none by (done || lia). cbn [mbind option_bind Z.eqb negb].
    rewrite Hz, rest_cost_zeros in Hr |- * by auto with gf.
    destruct (gf_mul_ok b cur Hb Hc Hr) as (b' & -> & Hn & Hb' & H). exists b'.
    split; [done|]. split; [done|]. split; [done|].
    intros ins m0 a tmp out ss Ha Ht Hrun _ _. rewrite dot_zero_l, Z.lxor_0_r.
    by apply (H ins m0 a tmp out).
  - rewrite length_app, length_replicate in Hf, Hcount. cbn [length] in Hf, Hcount.
    apply Forall_app in HF as [_ [Hv HF]%Forall_cons].
    assert (Hv8 : nz8 v) by (unfold in8, nz8 in *; lia).
    rewrite <- (app_assoc (replicate z 0)). cbn [app].
    rewrite value_next_loop_some by (done || lia). cbn [mbind option_bind].
    rewrite (proj2 (Z.eqb_neq v 0)) by done. cbn [negb].
    rewrite (div_ok gf Hgf) by (auto with gf). rewrite some_bind.
    rewrite rest_cost_split in Hr |- * by done.
    destruct (gf_mul_ok b (gmul cur (ginv v)) Hb) as (b1 & -> & Hn1 & Hb1 & H1);
      [by apply nz8_div|unfold room in *; lia|]. cbn [mbind option_bind].
    pose proof (next_room _ _ _ _ Hn1 Hr) as Hr1.
    destruct (gf_load_xor_ok b1 (offset + 1 + Z.of_nat z) Hb1) as (b2 & -> & Hn2 & Hb2 & H2);
      [unfold room in *; lia|]. cbn [mbind option_bind].
    pose proof (next_room _ _ _ _ Hn2 Hr1) as Hr2.
    assert (Hg : b_gen b2 = b_gen b) by (destruct Hn1, Hn2; congruence).
    destruct (IH (d ++ cur :: replicate z 0) v ws b2 (offset + 1 + Z.of_nat z) count)
      as (b' & E & Hn & Hb' & H); try done; try lia.
    { by rewrite Hg. }
    { rewrite !length_app. cbn [length]. rewrite length_replicate. lia. }
    { rewrite length_app. cbn [length]. rewrite length_replicate. lia. }
    do 2 (rewrite <- ?app_assoc in E |- *; cbn [app] in E |- *).
    rewrite E. exists b'. split; [done|]. rewrite Hg in Hn.
    split; [exact (next_trans _ _ _ _ _ Hn1 (next_trans _ _ _ _ _ Hn2 Hn))|]. split; [done|].
    by eapply adds_step.
Qed.

Lemma build_ops_ok b vs :
  builder_ok b -> room b (row_cost (b_gen b) vs) -> Forall in8 vs -> Exists (fun v => v <> 0) vs ->
  Z.of_nat (length vs) < 2 ^ 32 ->
  exists b', build_ops gf b (pre ++ vs ++ post) (Z.of_nat (length pre)) (Z.of_nat (length vs)) = Some b' /\
    next b (row_cost (b_gen b) vs) b' /\
    forall ins m0 R out ss, runs b ins m0 R out -> length out = 8%nat ->
      gives_from ins 0 ss -> length ss = length vs ->
      exists R', runs b' ins m0 R' (bits8 (dot vs ss)).
Proof.
  intros Hb Hr HF Hex H32. destruct (split_zeros vs Hex) as (z & v & ws & -> & Hv0).
  apply Forall_app in HF as [_ [Hv HF]%Forall_cons].
  assert (Hv8 : nz8 v) by (unfold in8, nz8 in *; lia).
  set (n := Z.of_nat (length (replicate z 0 ++ v :: ws))) in *.
  assert (Hn : n = Z.of_nat z + 1 + Z.of_nat (length ws))
    by (unfold n; rewrite length_app, length_replicate; cbn; lia).
  rewrite row_cost_split in Hr |- * by done. unfold build_ops, ec_code_value_next.
  change (u32 (2 ^ 32 - 1 + 1)) with 0. rewrite <- (app_assoc (replicate z 0)). cbn [app].
  rewrite value_next_loop_some by (done || lia). rewrite some_bind.
  rewrite Z.add_0_l, (proj2 (Z.eqb_neq v 0)) by done. cbn [negb].
  destruct (gf_load_ok b (Z.of_nat z) Hb) as (b1 & -> & Hn1 & Hb1 & H1); [unfold room in *; lia|].
  rewrite some_bind. pose proof (next_room _ _ _ _ Hn1 Hr) as Hr1.
  pose proof (next_gen _ _ _ Hn1) as Hg1.
  destruct (rest_ok (S (Z.to_nat n)) (replicate z 0) v ws b1 (Z.of_nat z) n)
    as (b2 & E & Hn2 & Hb2 & H2); try done; try lia.
  { rewrite Hg1. unfold room in *. lia. }
  { by rewrite length_replicate. }
  rewrite <- app_assoc in E. cbn [app] in E.
  destruct (build_loop _ _ _ _ _ _ _ _) as [[b3 val]|]; [|done]. rewrite some_bind in E |- *.
  rewrite E, some_bind. rewrite Hg1 in Hn2. pose proof (next_room _ _ _ _ Hn2 Hr1) as Hr2.
  destruct (gf_store_ok b2 Hb2 Hr2) as (b' & -> & Hn3 & Hb' & H3). exists b'. split; [done|].
  split; [exact (next_trans _ _ _ _ _ Hn1 (next_trans _ _ _ _ _ Hn2 Hn3))|].
  intros ins m0 R out ss Hrun Ho Hgf' Hl.
  destruct (gives_split ins 0 ss z v ws Hgf' Hl) as (s & ss2 & Hs & Hs8 & Hgs & Hld & ->).
  destruct (H1 ins m0 R out s Hs Hrun) as (t1 & Ht1 & Hr1').
  destruct (H2 ins m0 s t1 out ss2 Hs8 Ht1 Hr1' Hgs Hld) as (t2 & Ht2 & Hr2').
  eexists. by apply (H3 ins m0 _ t2 out).
Qed.
End Row.
