(* ===== verification/EcGenerated.v ===== *)
(** * The generated row functions

    The function that a generator emits for the operations of a builder: its
    loop runs them once for each word of the planes, reading the sources from
    one buffer (linear) or from one buffer per source (interleaved), and
    storing the planes of the destination. *)
From S2P Require Import Prelude GF256 EcGf8 EcCodeC EcBodies EcMuladd EcGalois EcMatrix EcInverse EcCombine EcProgram EcDynamic.
#[local] Open Scope gf8_scope.

(** ** The functions *)

Definition plist {A} (p : planes A) : list A :=
  [out0 p; out1 p; out2 p; out3 p; out4 p; out5 p; out6 p; out7 p].

Definition of_plist {A} (l : list A) : option (planes A) :=
  match l with
  | [a; b; c; d; e; f; g; h] => Some (Planes a b c d e f g h)
  | _ => None
  end.

(** The loop between the prolog and the epilog; [regs] is what the registers
    hold on entry. *)
Definition gen_loop (ins : nat -> Z -> Z -> option Z) (ops : list ec_code_op_t) (regs : list Z)
    (dst : chunk) : option chunk :=
  '(_, dst) ← for_up WIDTH 0
    (fun i '(regs, dst) =>
       m ← exec (ins (Z.to_nat i)) (Machine regs (plist (column dst (Z.to_nat i)))) ops;
       p ← of_plist (m_out m);
       Some (m_regs m, set_column dst (Z.to_nat i) p)) (regs, dst);
  Some dst.

(** The word at position [i] of a plane: [bit * width] bytes into the chunk. *)
Definition plane_word (c : chunk) (i : nat) (bit : Z) : option Z :=
  rd c (bit * Z.of_nat WIDTH + Z.of_nat i).

(** Source [idx] is [idx * width * bits] bytes after the start. *)
Definition gen_linear (ops : list ec_code_op_t) (regs : list Z) (dst : chunk) (src : list chunk)
    (offset : Z) : option chunk :=
  gen_loop (fun i idx bit => c ← rdc src (offset + EC_METHOD_CHUNK_SIZE * idx); plane_word c i bit)
    ops regs dst.

(** Source [idx] is in the buffer [src[idx]]. *)
Definition gen_interleaved (ops : list ec_code_op_t) (regs : list Z) (dst : chunk)
    (src : list (list chunk)) (offset : Z) : option chunk :=
  gen_loop (fun i idx bit => b ← rd src idx; c ← rdc b offset; plane_word c i bit) ops regs dst.

(** ** Execution commutes with the homomorphisms of xor *)

Definition mmap {A B} (h : A -> B) (m : machine A) : machine B :=
  Machine (h <$> m_regs m) (h <$> m_out m).

Section Natural.
Context {A B} `{XA : Xor A} `{XB : Xor B} (h : A -> B) (Hh : forall x y, h (x ^ y) = h x ^ h y).

Lemma exec_op_fmap ins (m : machine A) op :
  exec_op (fun i b => h <$> ins i b) (mmap h m) op = mmap h <$> exec_op ins m op.
Proof.
  destruct m as [regs out], op as [c a1 a2 a3]. unfold exec_op, mmap.
  cbn [m_regs m_out cop carg1 carg2 carg3]. rewrite ?rd_fmap.
  assert (W : forall (R : list A) i x (k : list A -> machine A) (k' : list B -> machine B),
    (forall R, k' (h <$> R) = mmap h (k R)) ->
    (R ← wr (h <$> R) i (h x); Some (k' R)) = mmap h <$> (R ← wr R i x; Some (k R))).
  { intros R i x k k' Hk. rewrite wr_fmap. destruct (wr R i x); [|done]. cbn. by rewrite Hk. }
  destruct c; [| | | | | |done]; rewrite ?rd_fmap.
  - destruct (ins a2 a3); [|done]. by apply W.
  - destruct (rd regs a1); [|done]. by apply W.
  - destruct (rd regs a2); [|done]. by apply W.
  - destruct (rd regs a1) as [x|]; [|done]. destruct (rd regs a2) as [y|]; [|done].
    cbn [fmap option_fmap option_map mbind option_bind]. rewrite <- Hh. by apply W.
  - destruct (rd regs a2) as [x|]; [|done]. cbn [fmap option_fmap option_map mbind option_bind].
    rewrite wr_fmap. destruct (wr regs a1 x) as [R'|]; [|done].
    cbn [fmap option_fmap option_map mbind option_bind]. rewrite !rd_fmap.
    destruct (rd R' a1) as [y|]; [|done]. destruct (rd R' a3) as [z|]; [|done].
    cbn [fmap option_fmap option_map mbind option_bind]. rewrite <- Hh. by apply W.
  - destruct (rd regs a1) as [x|]; [|done]. destruct (ins a2 a3) as [y|]; [|done].
    cbn [fmap option_fmap option_map mbind option_bind]. rewrite <- Hh. by apply W.
Qed.

Lemma exec_fmap ins (m : machine A) ops :
  exec (fun i b => h <$> ins i b) (mmap h m) ops = mmap h <$> exec ins m ops.
Proof.
  revert m. induction ops as [|op ops IH]; intros m; [done|]. cbn [exec].
  rewrite exec_op_fmap. destruct (exec_op ins m op); [apply IH|done].
Qed.
End Natural.

(** ** Words stay words *)

Definition mwords (m : machine Z) : Prop := Forall word (m_regs m) /\ Forall word (m_out m).

Lemma wr_words R i x R' : Forall word R -> word x -> wr R i x = Some R' -> Forall word R'.
Proof.
  unfold wr. intros HR Hx. destruct (_ && _); [|done]. intros [= <-]. by apply Forall_insert.
Qed.

Lemma rd_words R i x : Forall word R -> rd R i = Some x -> word x.
Proof.
  unfold rd. intros HR. destruct (0 <=? i); [|done]. intros E. by apply (Forall_lookup_1 _ _ _ _ HR E).
Qed.

Lemma exec_op_words ins m op m' :
  (forall i b w, ins i b = Some w -> word w) -> mwords m -> exec_op ins m op = Some m' -> mwords m'.
Proof.
  intros Hi. destruct m as [regs out]. intros [Hr Ho]. cbn [m_regs m_out] in *. unfold exec_op.
  assert (W : forall i x m', Forall word regs -> word x ->
    (R ← wr regs i x; Some (Machine R out)) = Some m' -> mwords m').
  { intros i x m1 HR Hx. destruct (wr regs i x) as [R'|] eqn:E; [|done]. intros [= <-].
    split; [exact (wr_words _ _ _ _ HR Hx E)|done]. }
  destruct (cop op); intros H.
  - destruct (ins _ _) eqn:E; [|done]. eapply W; eauto.
  - destruct (rd regs _) eqn:E; [|done]. cbn [mbind option_bind] in H.
    destruct (wr out _ _) eqn:Ew; [|done]. injection H as <-. split; [done|].
    eapply wr_words; [exact Ho| |exact Ew]. exact (rd_words _ _ _ Hr E).
  - destruct (rd regs _) eqn:E; [|done]. eapply W; eauto using rd_words.
  - destruct (rd regs (carg1 op)) eqn:E; [|done]. destruct (rd regs (carg2 op)) eqn:E2; [|done].
    eapply W; [done| |exact H]. apply word_lxor; eauto using rd_words.
  - destruct (rd regs (carg2 op)) eqn:E; [|done]. cbn [mbind option_bind] in H.
    destruct (wr regs _ _) as [R'|] eqn:Ew; [|done]. cbn [mbind option_bind] in H.
    assert (HR' : Forall word R') by (eapply wr_words; [exact Hr| |exact Ew]; exact (rd_words _ _ _ Hr E)).
    destruct (rd R' (carg1 op)) eqn:E1; [|done]. destruct (rd R' (carg3 op)) eqn:E2; [|done].
    cbn [mbind option_bind] in H. destruct (wr R' _ _) eqn:Ew'; [|done]. injection H as <-.
    split; [|done]. eapply wr_words; [exact HR'| |exact Ew']. apply word_lxor; eauto using rd_words.
  - destruct (rd regs (carg1 op)) eqn:E; [|done]. destruct (ins _ _) eqn:E2; [|done].
    eapply W; [done| |exact H]. apply word_lxor; eauto using rd_words.
  - by injection H as <-.
Qed.

Lemma exec_words ins ops : forall m m',
  (forall i b w, ins i b = Some w -> word w) -> mwords m -> exec ins m ops = Some m' -> mwords m'.
Proof.
  induction ops as [|op ops IH]; intros m m' Hi Hm; cbn [exec].
  - by intros [= <-].
  - destruct (exec_op ins m op) eqn:E; [|done]. apply IH; [done|]. by eapply exec_op_words.
Qed.

(** ** Planes of words and bytes *)

Lemma of_plist_plist {A} (p : planes A) : of_plist (plist p) = Some p.
Proof. by destruct p. Qed.

Lemma of_plist_length {A} (l : list A) : length l = 8%nat -> exists p, of_plist l = Some p /\ plist p = l.
Proof.
  intros Hl. do 8 (destruct l as [|? l]; [done|]). destruct l; [|done]. eexists. done.
Qed.

Lemma pall_plist {A} (P : A -> Prop) p : pall P p <-> Forall P (plist p).
Proof. unfold pall, plist. rewrite !Forall_cons, Forall_nil. tauto. Qed.

Lemma plist_pmap {A B} (h : A -> B) p : plist (pmap h p) = h <$> plist p.
Proof. done. Qed.

Lemma bits8_pack p : bits8 (pack p) = plist p.
Proof. destruct p as [[] [] [] [] [] [] [] []]; vm_compute; reflexivity. Qed.

Lemma bits8_inj a b : in8 a -> in8 b -> bits8 a = bits8 b -> a = b.
Proof.
  intros Ha Hb H. rewrite <- (byte_sum a Ha), <- (byte_sum b Hb).
  assert (E : forall k, (k < 8)%nat -> Z.testbit a (Z.of_nat k) = Z.testbit b (Z.of_nat k)).
  { intros k Hk. pose proof (bits8_lookup a k Hk) as Ea. rewrite H, bits8_lookup in Ea by done. congruence. }
  unfold bit_sum. cbn [seq foldr]. by rewrite !E by lia.
Qed.

Lemma bits8_celem c i t : bits8 (celem c i t) = (fun w => Z.testbit w t) <$> plist (column c i).
Proof. unfold celem. by rewrite bits8_pack, plist_pmap. Qed.

Lemma plane_word_column c i k : chunk_ok c -> (i < WIDTH)%nat -> (k < 8)%nat ->
  plane_word c i (Z.of_nat k) = plist (column c i) !! k.
Proof.
  intros [Hl _] Hi Hk. unfold plane_word. change WIDTH with 8%nat in *. change CHUNK_WORDS with 64%nat in Hl.
  replace (Z.of_nat k * Z.of_nat 8 + Z.of_nat i) with (Z.of_nat (8 * k + i)) by lia.
  rewrite rd_lookup, list_lookup_lookup_total_lt by lia.
  do 8 (destruct k as [|k]; [done|]). lia.
Qed.

(** ** Correctness *)

Lemma sees_exists {A} (b : ec_code_builder_t) (regs : list A) :
  builder_ok b -> length regs = EC_GF_MAX_REGS -> exists R, sees (b_map b) regs R.
Proof.
  intros [_ _ _ Hr] Hl.
  assert (G : exists R, length R = length (b_map b) /\
            forall i r, b_map b !! i = Some r -> rd regs r = R !! i).
  { induction Hr as [|r map Hr0 Hr IH]; [by exists []|]. destruct IH as (R & HlR & H).
    destruct (rd_Some regs r) as (x & E & _); [rewrite Hl; exact Hr0|].
    exists (x :: R). split; [cbn; congruence|]. intros [|i] r' Hi; [by injection Hi as <-|]. by apply H. }
  destruct G as (R & HlR & H). by exists R.
Qed.

(** The sources of a column of words. *)
Definition reads_column (ins : Z -> Z -> option Z) (i : nat) (ss : list chunk) : Prop :=
  forall k s, ss !! k = Some s -> chunk_ok s /\
    forall j, (j < 8)%nat -> ins (Z.of_nat k) (Z.of_nat j) = plist (column s i) !! j.

Section Function.
Context (b b' : ec_code_builder_t) (Hb : builder_ok b) (Hops : b_ops b = []) (vs : list Z).
Context (Hrun : forall ins m0 R out ss, runs b ins m0 R out -> length out = 8%nat ->
      gives_from ins 0 ss -> length ss = length vs ->
      exists R', runs b' ins m0 R' (bits8 (dot vs ss))).
Context (Hvs : Forall in8 vs).

Lemma column_ok ins i regs out ss :
  length regs = EC_GF_MAX_REGS -> length out = 8%nat ->
  reads_column ins i ss -> length ss = length vs ->
  exists m, exec ins (Machine regs out) (b_ops b') = Some m /\ length (m_regs m) = EC_GF_MAX_REGS /\
    forall t, (fun w => Z.testbit w t) <$> m_out m = bits8 (dot vs ((fun s => celem s i t) <$> ss)).
Proof.
  intros Hl Ho Hs Hls.
  assert (G : forall t, exists regs' : list bool, length regs' = EC_GF_MAX_REGS /\
    mmap (fun w => Z.testbit w t) <$> exec ins (Machine regs out) (b_ops b')
    = Some (Machine regs' (bits8 (dot vs ((fun s => celem s i t) <$> ss))))).
  { intros t. set (h := fun w => Z.testbit w t).
    rewrite <- (exec_fmap h (testbit_xor t)).
    destruct (sees_exists b (h <$> regs) Hb) as [R HR]; [by rewrite length_fmap|].
    destruct (Hrun (fun k j => h <$> ins k j) (mmap h (Machine regs out)) R (h <$> out)
      ((fun s => celem s i t) <$> ss)) as (R' & regs' & E & Hs' & _).
    - exists (h <$> regs). by rewrite Hops.
    - by rewrite length_fmap.
    - split; [apply Forall_fmap, Forall_true; intros; apply in8_celem|].
      intros k z Hk. rewrite list_lookup_fmap in Hk.
      destruct (ss !! k) as [s|] eqn:Ek; [|done]. injection Hk as <-. intros j Hj.
      rewrite Z.add_0_l. destruct (Hs k s Ek) as [_ Hin]. rewrite Hin by done.
      rewrite <- list_lookup_fmap, <- bits8_lookup by done. by rewrite bits8_celem.
    - by rewrite length_fmap.
    - by exists regs'. }
  destruct (G 0) as (r0 & _ & E0).
  destruct (exec ins (Machine regs out) (b_ops b')) as [m|]; [|done]. exists m. split; [done|].
  split.
  - destruct (G 0) as (r1 & Hr1 & E1). injection E1 as E1 _. apply (f_equal length) in E1.
    rewrite length_fmap in E1. congruence.
  - intros t. destruct (G t) as (r1 & _ & E1). by injection E1 as _ E1.
Qed.

(** The destination after [n] columns. *)
Definition done_cols (ss : list chunk) (n : Z) (s : list Z * chunk) : Prop :=
  let '(regs, dst) := s in
  length regs = EC_GF_MAX_REGS /\ Forall word regs /\ chunk_ok dst /\
  forall j t, Z.of_nat j < n -> celem dst j t = dot vs ((fun s => celem s j t) <$> ss).

Lemma gen_loop_ok ins regs dst ss :
  length regs = EC_GF_MAX_REGS -> Forall word regs -> chunk_ok dst -> length ss = length vs ->
  (forall i, (i < WIDTH)%nat -> reads_column (ins i) i ss) ->
  (forall i k j w, ins i k j = Some w -> word w) ->
  exists r, gen_loop ins (b_ops b') regs dst = Some r /\ combines vs ss r.
Proof.
  intros Hl Hw Hd Hls Hins Hwords. unfold gen_loop.
  loop_inv (done_cols ss) L. destruct L as ([regs' r] & -> & (_ & _ & Hr & H)).
  - repeat split; auto; [apply Hd..|]. intros; lia.
  - intros i [rg d] Hi (Hlr & Hwr & Hdd & Hc). set (i0 := Z.to_nat i).
    assert (Hi0 : (i0 < WIDTH)%nat) by (unfold i0; lia).
    destruct (column_ok (ins i0) i0 rg (plist (column d i0)) ss Hlr eq_refl (Hins i0 Hi0) Hls)
      as (m & E & Hlm & Ht). rewrite E. cbn [mbind option_bind].
    assert (Hmw : mwords m).
    { apply (exec_words (ins i0) (b_ops b') (Machine rg (plist (column d i0)))); [by apply Hwords| |done].
      split; [done|]. destruct Hdd as [_ Hdw]. by apply pall_plist, pall_column. }
    assert (Hlo : length (m_out m) = 8%nat).
    { specialize (Ht 0). apply (f_equal length) in Ht. by rewrite length_fmap in Ht. }
    destruct (of_plist_length (m_out m) Hlo) as (p & -> & Hp). cbn [mbind option_bind].
    eexists. split; [done|]. split; [done|]. split; [apply Hmw|]. destruct Hdd as [Hdl Hdw]. split.
    + split; [by rewrite length_set_column|]. apply words_set_column; [done|].
      destruct Hmw as [_ Hmo]. rewrite <- Hp in Hmo. by apply pall_plist.
    + intros j t Hj. apply bits8_inj; [apply in8_celem|apply dot_in8; [done|]|].
      { apply Forall_fmap, Forall_true. intros; apply in8_celem. }
      rewrite bits8_celem, column_set_column by (done || lia). case_decide as Hc'.
      * subst j. rewrite Hp. apply Ht.
      * rewrite <- bits8_celem, Hc by lia. done.
  - cbn [mbind option_bind]. exists r. split; [done|]. split; [done|]. intros i t Hi. apply H.
    rewrite Z.add_0_l. lia.
Qed.
End Function.

Lemma plane_word_word c i bit w : chunk_ok c -> plane_word c i bit = Some w -> word w.
Proof. intros [_ Hw]. by apply rd_words. Qed.

Lemma rdc_ok src off c : Forall chunk_ok src -> rdc src off = Some c -> chunk_ok c.
Proof.
  unfold rdc, rd. intros HF. destruct (_ =? 0); [|done]. destruct (0 <=? _); [|done].
  intros E. exact (Forall_lookup_1 _ _ _ _ HF E).
Qed.

(** ** A generated function computes the combination of its row *)

Section Generated.
Context (gf : ec_gf_t) (Hgf : gf_ok gf) (gen : ec_code_gen_t) (vs : list Z) (b : ec_code_builder_t).
Context (Hb : builder_ok b) (Hops : b_ops b = []) (Hr : room b (row_cost (b_gen b) vs)).
Context (Hvs : Forall in8 vs) (Hex : Exists (fun v => v <> 0) vs) (H32 : Z.of_nat (length vs) < 2 ^ 32).
Context (pre post : list Z).

Lemma generated_ok :
  exists b', build_ops gf b (pre ++ vs ++ post) (Z.of_nat (length pre)) (Z.of_nat (length vs)) = Some b' /\
    (forall regs dst src ss offset,
       length regs = EC_GF_MAX_REGS -> Forall word regs -> chunk_ok dst -> Forall chunk_ok src ->
       reads_from src offset ss -> length ss = length vs ->
       exists r, gen_linear (b_ops b') regs dst src offset = Some r /\ combines vs ss r) /\
    (forall regs dst src ss offset,
       length regs = EC_GF_MAX_REGS -> Forall word regs -> chunk_ok dst -> Forall (Forall chunk_ok) src ->
       Forall2 (reads offset) src ss -> length ss = length vs ->
       exists r, gen_interleaved (b_ops b') regs dst src offset = Some r /\ combines vs ss r).
Proof.
  destruct (build_ops_ok gf Hgf pre post b vs Hb Hr Hvs Hex H32) as (b' & E & _ & H).
  exists b'. split; [done|]. split; intros regs dst src ss offset Hl Hw Hd Hsrc Hreads Hls.
  - apply (gen_loop_ok b b' Hb Hops vs H Hvs); try done.
    + intros i Hi k s Hk. destruct (Hreads k s Hk) as [Hs Hok]. split; [done|].
      intros j Hj. rewrite Hs. cbn [mbind option_bind]. by apply plane_word_column.
    + intros i k j w. destruct (rdc src _) as [c|] eqn:Ec; [|done]. cbn [mbind option_bind].
      apply plane_word_word. by eapply rdc_ok.
  - apply (gen_loop_ok b b' Hb Hops vs H Hvs); try done.
    + intros i Hi k s Hk. destruct (Forall2_lookup_r _ _ _ _ _ Hreads Hk) as (bf & Hbf & Hs & Hok).
      split; [done|]. intros j Hj. rewrite rd_lookup, Hbf. cbn [mbind option_bind]. rewrite Hs.
      cbn [mbind option_bind]. by apply plane_word_column.
    + intros i k j w. destruct (rd src k) as [bf|] eqn:Eb; [|done]. cbn [mbind option_bind].
      destruct (rdc bf offset) as [c|] eqn:Ec; [|done]. cbn [mbind option_bind].
      apply plane_word_word. eapply rdc_ok; [|exact Ec].
      unfold rd in Eb. destruct (0 <=? k); [|done]. exact (Forall_lookup_1 _ _ _ _ Hsrc Eb).
Qed.
End Generated.
