(* ===== verification/EcBuild.v ===== *)
(** * Building row functions (ec-code.c)

    [ec_code_build] compiles a row dynamically when the code has a generator
    and falls back for good to the precompiled functions when that fails.
    Whatever happens, the function it returns computes the linear combination
    of the row: [linear_func] and [interleaved_func] are the contracts that
    the encoder and the decoder rely on. *)
From S2P Require Import Prelude GF256 EcGf8 EcCodeC EcBodies EcMuladd EcGalois EcMatrix EcInverse EcCombine EcProgram EcDynamic EcGenerated.

(** ** The code *)

Record ec_code_t : Set := mkcode { code_gf : ec_gf_t; code_gen : option ec_code_gen_t }.

(** [GF_MALLOC] is the boolean. *)
Definition ec_code_create (gf : ec_gf_t) (gen : option ec_code_gen_t) (mem : bool) : Z + ec_code_t :=
  if mem then inr (mkcode gf gen) else inl ENOMEM.

(** The functions a row can have; a union in the source. *)
Inductive ec_code_func_t : Set :=
  | func_c_linear
  | func_c_interleaved
  | func_generated (ops : list ec_code_op_t).

(** What the system does during a build: whether the builder is allocated, and
    the error, or 0, of [ec_code_compile] (writing the machine code and
    allocating executable memory for it). *)
Record build_env : Set := mkenv { env_mem : bool; env_compile : ec_code_builder_t -> Z }.

Definition ec_code_build_dynamic (env : build_env) (gf : ec_gf_t) (gen : ec_code_gen_t) (width : Z)
    (values : list Z) (vo count : Z) (linear : bool) : option (Z + ec_code_func_t) :=
  match ec_code_prepare gf gen (env_mem env) count width linear with
  | inl e => Some (inl e)
  | inr b =>
      b ← build_ops gf b values vo count;
      let err := env_compile env b in
      Some (if negb (err =? 0) then inl err else inr (func_generated (b_ops b)))
  end.

Definition ec_code_build (env : build_env) (code : ec_code_t) (width : Z) (values : list Z)
    (vo count : Z) (linear : bool) : option (ec_code_t * list Z * ec_code_func_t) :=
  let precompiled code :=
    values ← ec_code_c_prepare (code_gf code) values vo count;
    Some (code, values, if linear then func_c_linear else func_c_interleaved) in
  match code_gen code with
  | Some gen =>
      r ← ec_code_build_dynamic env (code_gf code) gen width values vo count linear;
      match r with
      | inr func => Some (code, values, func)
      | inl _ => precompiled (mkcode (code_gf code) None)
      end
  | None => precompiled code
  end.

Definition ec_code_build_linear (env : build_env) (code : ec_code_t) (width : Z) (values : list Z)
    (vo count : Z) : option (ec_code_t * list Z * ec_code_func_t) :=
  ec_code_build env code width values vo count true.

Definition ec_code_build_interleaved (env : build_env) (code : ec_code_t) (width : Z)
    (values : list Z) (vo count : Z) : option (ec_code_t * list Z * ec_code_func_t) :=
  ec_code_build env code width values vo count false.

(** Calls through [func.linear] and [func.interleaved]; [regs] is what the
    registers hold when a generated function is called. *)
Definition call_linear (regs : list Z) (f : ec_code_func_t) (dst : chunk) (src : list chunk)
    (offset : Z) (values : list Z) (vo count : Z) : option chunk :=
  match f with
  | func_c_linear => ec_code_c_linear dst src offset values vo count
  | func_c_interleaved => None
  | func_generated ops => gen_linear ops regs dst src offset
  end.

Definition call_interleaved (regs : list Z) (f : ec_code_func_t) (dst : chunk)
    (src : list (list chunk)) (offset : Z) (values : list Z) (vo count : Z) : option chunk :=
  match f with
  | func_c_linear => None
  | func_c_interleaved => ec_code_c_interleaved dst src offset values vo count
  | func_generated ops => gen_interleaved ops regs dst src offset
  end.

(** ** The contracts *)

Definition regs_ok (regs : list Z) : Prop := length regs = EC_GF_MAX_REGS /\ Forall word regs.

(** With the stored row [row], [f] computes the combination with the
    coefficients [vs] of consecutive chunks of a buffer. *)
Definition linear_func (f : ec_code_func_t) (row vs : list Z) : Prop :=
  forall regs dst src ss offset pre post,
    regs_ok regs -> chunk_ok dst -> Forall chunk_ok src ->
    reads_from src offset ss -> length ss = length vs ->
    exists r, call_linear regs f dst src offset (pre ++ row ++ post)
                (Z.of_nat (length pre)) (Z.of_nat (length vs)) = Some r /\ combines vs ss r.

(** The same for chunks at one offset of several buffers. *)
Definition interleaved_func (f : ec_code_func_t) (row vs : list Z) : Prop :=
  forall regs dst src ss offset pre post,
    regs_ok regs -> chunk_ok dst -> Forall (Forall chunk_ok) src ->
    Forall2 (reads offset) src ss -> length ss = length vs ->
    exists r, call_interleaved regs f dst src offset (pre ++ row ++ post)
                (Z.of_nat (length pre)) (Z.of_nat (length vs)) = Some r /\ combines vs ss r.

(** Rows that the precompiled functions can handle. *)
Definition row_ok (linear : bool) (vs : list Z) : Prop :=
  Forall in8 vs /\ Exists (fun v => v <> 0) vs /\ Z.of_nat (length vs) < 2 ^ 27 /\
  if linear then Forall nz8 vs /\ last vs = Some 1 else True.

(** The operations of the row fit in the builder. *)
Definition fits (gen : option ec_code_gen_t) (vs : list Z) : Prop :=
  match gen with Some g => (row_cost g vs <= 26 * length vs + 8)%nat | None => True end.

(** ** Every build gives a function that honours its contract *)

Section Build.
Context (gf : ec_gf_t) (Hgf : gf_ok gf).

Lemma prepare_builder gen count width linear :
  0 <= count < 2 ^ 27 ->
  exists b, ec_code_prepare gf gen true count width linear = inr b /\
    builder_ok b /\ b_ops b = [] /\ b_gen b = gen /\ b_cap b = 26 * count + 8.
Proof.
  intros Hc. eexists. split; [done|]. cbn [b_ops b_gen b_cap].
  rewrite (ok_bits _ Hgf), (ok_max_ops _ Hgf). split; [|split; [done|split; [done|]]].
  - split; cbn [b_gf b_map]; [done|done| |].
    + apply (bool_decide_unpack _). vm_compute. exact I.
    + apply (bool_decide_unpack _). vm_compute. exact I.
  - rewrite (u32_small (8 + 18)) by lia. rewrite !u32_small by (rewrite ?u32_small; lia). lia.
Qed.

Lemma dynamic_ok env gen width vs linear pre post :
  row_ok linear vs -> fits (Some gen) vs ->
  exists r, ec_code_build_dynamic env gf gen width (pre ++ vs ++ post) (Z.of_nat (length pre))
              (Z.of_nat (length vs)) linear = Some r /\
    match r with inl _ => True | inr f => linear_func f vs vs /\ interleaved_func f vs vs end.
Proof.
  intros (HF & Hex & Hlen & _) Hfit. unfold ec_code_build_dynamic.
  destruct (env_mem env); [|eexists; split; [done|exact I]].
  destruct (prepare_builder gen (Z.of_nat (length vs)) width linear) as (b & -> & Hb & Ho & Hg & Hc); [lia|].
  destruct (generated_ok gf Hgf vs b Hb Ho) with (pre := pre) (post := post)
    as (b' & -> & Hlin & Hint); [|done|done|lia|].
  { unfold room, fits in *. rewrite Ho, Hg, Hc. cbn [length]. lia. }
  rewrite some_bind. cbv zeta. eexists. split; [done|]. destruct (negb _); [done|]. split.
  - intros regs dst src ss offset p q [? ?] Hd Hs Hr Hl. by apply Hlin.
  - intros regs dst src ss offset p q [? ?] Hd Hs Hr Hl. by apply Hint.
Qed.

(** The stored row after a build, and its function. *)
Definition built (linear : bool) (f : ec_code_func_t) (row vs : list Z) : Prop :=
  length row = length vs /\ if linear then linear_func f row vs else interleaved_func f row vs.

Lemma precompiled_linear vs : row_ok true vs -> linear_func func_c_linear (quots vs) vs.
Proof.
  intros (HF & Hex & Hlen & Hnz & Hlast) regs dst src ss offset p q Hr Hd Hs Hread Hl.
  cbn [call_linear]. apply linear_ok; try done. lia.
Qed.

Lemma precompiled_interleaved vs : row_ok false vs -> interleaved_func func_c_interleaved (quots vs) vs.
Proof.
  intros (HF & Hex & Hlen & _) regs dst src ss offset p q Hr Hd Hs Hread Hl.
  cbn [call_interleaved]. apply interleaved_ok; try done.
  by rewrite (Forall2_length _ _ _ Hread).
Qed.

Lemma build_ok env code width vs linear pre post :
  code_gf code = gf -> row_ok linear vs -> fits (code_gen code) vs ->
  exists code' row f,
    ec_code_build env code width (pre ++ vs ++ post) (Z.of_nat (length pre)) (Z.of_nat (length vs)) linear
    = Some (code', pre ++ row ++ post, f) /\
    code_gf code' = gf /\ (code_gen code' = code_gen code \/ code_gen code' = None) /\
    built linear f row vs.
Proof.
  intros Hcg Hrow Hfit. unfold ec_code_build.
  assert (P : forall code1, code_gf code1 = gf -> exists row f,
    (values ← ec_code_c_prepare (code_gf code1) (pre ++ vs ++ post) (Z.of_nat (length pre)) (Z.of_nat (length vs));
     Some (code1, values, if linear then func_c_linear else func_c_interleaved))
    = Some (code1, pre ++ row ++ post, f) /\ built linear f row vs).
  { intros code1 H1. rewrite H1, (prepare_ok gf Hgf) by apply Hrow. cbn [mbind option_bind].
    do 2 eexists. split; [done|]. split; [apply length_quots|].
    destruct linear; [by apply precompiled_linear|by apply precompiled_interleaved]. }
  destruct (code_gen code) as [gen|] eqn:Eg.
  - rewrite Hcg. destruct (dynamic_ok env gen width vs linear pre post Hrow Hfit) as (r & -> & Hr).
    rewrite some_bind. destruct r as [e|f].
    + destruct (P (mkcode gf None) eq_refl) as (row & f & E & Hbuilt).
      exists (mkcode gf None), row, f. split; [exact E|]. auto.
    + exists code, vs, f. split; [done|]. split; [done|]. split; [by left|].
      split; [done|]. destruct linear; tauto.
  - destruct (P code Hcg) as (row & f & E & Hbuilt). exists code, row, f. auto.
Qed.
End Build.

(** ** The size of the builder *)

Lemma mul_cost_check (w : Z) :
  forallb (fun c => (mul_cost (mkgen w true) (Z.of_nat c) <=? 18)%nat &&
                    (mul_cost (mkgen w false) (Z.of_nat c) <=? 19)%nat) (seq 1 255) = true.
Proof. vm_compute. reflexivity. Qed.

Lemma mul_cost_bound gen c : nz8 c -> (mul_cost gen c <= if gen_xor3 gen then 18 else 19)%nat.
Proof.
  intros Hc. destruct gen as [w x]. pose proof (mul_cost_check w) as H. rewrite forallb_forall in H.
  specialize (H (Z.to_nat c) ltac:(apply in_seq; unfold nz8 in Hc; lia)).
  unfold nz8 in Hc. rewrite Z2Nat.id in H by lia. apply andb_true_iff in H as [H1 H2].
  apply Nat.leb_le in H1, H2. by destruct x.
Qed.

Lemma mul_cost_1 gen : mul_cost gen 1 = 0%nat.
Proof. reflexivity. Qed.

(** With a bound [k] on the cost of a multiplication. *)
Lemma quots_cost_bound gen k vs :
  Forall in8 vs -> (forall c, nz8 c -> (mul_cost gen c <= k)%nat) ->
  (quots_cost gen (quots vs) <= (k + 8) * length vs)%nat.
Proof.
  intros HF Hk. induction HF as [|v vs Hv HF IH]; [apply Nat.le_0_l|].
  rewrite quots_cons. cbn [quots_cost foldr length]. fold (quots_cost gen (quots vs)).
  destruct (Z.eqb_spec v 0) as [->|Hv0]; [rewrite Z.eqb_refl; lia|].
  assert (Hq : nz8 (gmul v (ginv (first_nz vs)))).
  { apply nz8_div; [unfold in8, nz8 in *; lia|by apply first_nz_nz8]. }
  rewrite (proj2 (Z.eqb_neq _ 0)) by (unfold nz8 in Hq; lia). specialize (Hk _ Hq). lia.
Qed.

(** A generator with [xor3] never overruns the builder. *)
Lemma fits_xor3 gen vs : gen_xor3 gen = true -> Forall in8 vs -> fits (Some gen) vs.
Proof.
  intros Hx HF. unfold fits, row_cost. pose proof (quots_cost_bound gen 18 vs HF) as H.
  assert (forall c, nz8 c -> (mul_cost gen c <= 18)%nat).
  { intros c Hc. pose proof (mul_cost_bound gen c Hc) as B. by rewrite Hx in B. }
  specialize (H H0). lia.
Qed.

(** No generator overruns it for the rows of the encoder. *)
Lemma fits_linear gen vs : row_ok true vs -> (length vs <= 16)%nat -> fits gen vs.
Proof.
  intros (HF & _ & _ & Hnz & Hlast) Hlen. destruct gen as [gen|]; [|done]. unfold fits, row_cost.
  assert (Hk : forall c, nz8 c -> (mul_cost gen c <= 19)%nat).
  { intros c Hc. pose proof (mul_cost_bound gen c Hc). destruct (gen_xor3 gen); lia. }
  assert (H : (quots_cost gen (quots vs) + 19 <= 27 * length vs)%nat).
  { clear Hlen. induction Hnz as [|v vs Hv Hnz IH]; [done|]. rewrite quots_cons.
    cbn [quots_cost foldr length]. fold (quots_cost gen (quots vs)).
    assert (Hv0 : v <> 0) by (unfold nz8 in Hv; lia). rewrite (proj2 (Z.eqb_neq v 0)) by done.
    apply Forall_cons in HF as [_ HF].
    destruct vs as [|v' vs].
    - injection Hlast as ->. change (first_nz []) with 1. rewrite ginv_1, gmul_1_r by auto with gf.
      rewrite mul_cost_1. cbn. lia.
    - specialize (IH HF Hlast). pose proof (nz8_div v _ Hv (first_nz_nz8 _ HF)) as Hq.
      rewrite (proj2 (Z.eqb_neq _ 0)) by (unfold nz8 in Hq; lia). specialize (Hk _ Hq).
      revert Hk IH. generalize (quots_cost gen (quots (v' :: vs))) (mul_cost gen (gmul v (ginv (first_nz (v' :: vs))))).
      cbn [length]. lia. }
  revert H. generalize (quots_cost gen (quots vs)). lia.
Qed.

(** ** The claims *)


Lemma row_ok_example : row_ok false [0; 5; 3].
Proof.
  split; [repeat constructor; unfold in8; lia|]. split; [right; left; lia|]. split; [simpl; lia|done].
Qed.


(** The generated function of a row and the precompiled one write the same
    chunk: for every row, every input and every generator whose operations fit
    the builder, dynamic code generation does not change results. *)
Theorem generated_equals_precompiled gf env gen width vs pre post regs dst src ss offset :
  gf_ok gf -> row_ok false vs -> fits (Some gen) vs -> env_mem env = true -> (forall b, env_compile env b = 0) ->
  regs_ok regs -> chunk_ok dst -> Forall (Forall chunk_ok) src ->
  Forall2 (reads offset) src ss -> length ss = length vs ->
  exists f values r,
    ec_code_build_dynamic env gf gen width (pre ++ vs ++ post) (Z.of_nat (length pre))
      (Z.of_nat (length vs)) false = Some (inr f) /\
    ec_code_c_prepare gf (pre ++ vs ++ post) (Z.of_nat (length pre)) (Z.of_nat (length vs)) = Some values /\
    call_interleaved regs f dst src offset (pre ++ vs ++ post) (Z.of_nat (length pre)) (Z.of_nat (length vs))
      = Some r /\
    ec_code_c_interleaved dst src offset values (Z.of_nat (length pre)) (Z.of_nat (length vs)) = Some r.
Proof.
  intros Hgf Hrow Hfit Hmem Hcomp Hregs Hd Hsrc Hr Hl.
  destruct (dynamic_ok gf Hgf env gen width vs false pre post Hrow Hfit) as (res & E & Hres).
  assert (Hf : exists f, res = inr f).
  { unfold ec_code_build_dynamic in E. rewrite Hmem in E. unfold ec_code_prepare in E. cbv zeta in E.
    destruct (build_ops _ _ _ _ _) as [b|]; [|done]. rewrite some_bind, Hcomp in E. injection E as <-. eauto. }
  destruct Hf as [f ->]. destruct Hres as [_ Hint].
  destruct (Hint regs dst src ss offset pre post Hregs Hd Hsrc Hr Hl) as (r & Er & Hok & Hc).
  destruct (precompiled_interleaved vs Hrow regs dst src ss offset pre post Hregs Hd Hsrc Hr Hl)
    as (r' & Er' & Hok' & Hc'). cbn [call_interleaved] in Er'.
  exists f, (pre ++ quots vs ++ post), r. split; [done|]. split; [apply prepare_ok; [done|apply Hrow]|].
  split; [done|]. rewrite Er'. f_equal. apply chunk_ext; [done|done|]. intros i t Hi Ht.
  by rewrite Hc, Hc'.
Qed.

Lemma regs_example : regs_ok (replicate EC_GF_MAX_REGS 9).
Proof. split; [reflexivity|]. apply Forall_replicate. unfold word. lia. Qed.

Lemma generated_equals_precompiled_witness :
  exists f values r,
    ec_code_build_dynamic (mkenv true (fun _ => 0)) gf_init ec_code_gen_avx 64 [0; 5; 3] 0 3 false = Some (inr f) /\
    ec_code_c_prepare gf_init [0; 5; 3] 0 3 = Some values /\
    call_interleaved (replicate EC_GF_MAX_REGS 9) f zero [[chunk7]; [chunk7]; [chunk7]] 0 [0; 5; 3] 0 3 = Some r /\
    ec_code_c_interleaved zero [[chunk7]; [chunk7]; [chunk7]] 0 values 0 3 = Some r.
Proof.
  apply (generated_equals_precompiled gf_init (mkenv true (fun _ => 0)) ec_code_gen_avx 64 [0; 5; 3] [] []
    (replicate EC_GF_MAX_REGS 9) zero [[chunk7]; [chunk7]; [chunk7]] [chunk7; chunk7; chunk7] 0).
  - apply gf_init_ok.
  - apply row_ok_example.
  - apply (fits_xor3 ec_code_gen_avx); [reflexivity|apply row_ok_example].
  - reflexivity.
  - reflexivity.
  - apply regs_example.
  - apply zero_ok.
  - repeat (constructor; [constructor; [apply chunk7_ok|constructor]|]). constructor.
  - repeat (constructor; [split; [reflexivity|apply chunk7_ok]|]). constructor.
  - reflexivity.
Defined.

(** [ec_code_prepare] allocates enough operations for every row of a
    generator with [xor3], and for the rows of the encoder with any generator:
    building the operations never writes past the end of the builder. *)
Theorem builder_large_enough gf gen width vs linear pre post :
  gf_ok gf -> row_ok linear vs -> (length vs <= 16)%nat ->
  gen_xor3 gen = true \/ linear = true ->
  exists b b', ec_code_prepare gf gen true (Z.of_nat (length vs)) width linear = inr b /\
    build_ops gf b (pre ++ vs ++ post) (Z.of_nat (length pre)) (Z.of_nat (length vs)) = Some b' /\
    Z.of_nat (length (b_ops b')) <= b_cap b'.
Proof.
  intros Hgf Hrow Hlen Hgen.
  assert (Hfit : fits (Some gen) vs).
  { destruct Hgen as [Hx|Hx]; [|subst; by apply fits_linear]. apply fits_xor3; [done|apply Hrow]. }
  destruct (prepare_builder gf Hgf gen (Z.of_nat (length vs)) width linear) as (b & E & Hb & Ho & Hg & Hc); [lia|].
  assert (Hr : room b (row_cost (b_gen b) vs)).
  { unfold room, fits in *. rewrite Ho, Hg, Hc. cbn [length]. lia. }
  destruct Hrow as (HF & Hex & H27 & _).
  destruct (build_ops_ok gf Hgf pre post b vs Hb Hr HF Hex) as (b' & E' & Hn & _); [lia|].
  exists b, b'. split; [done|]. split; [done|]. destruct Hn as [_ _ -> ->]. exact Hr.
Qed.

Lemma builder_large_enough_witness :
  exists b b', ec_code_prepare gf_init ec_code_gen_avx true 3 64 false = inr b /\
    build_ops gf_init b [0; 5; 3] 0 3 = Some b' /\ Z.of_nat (length (b_ops b')) <= b_cap b'.
Proof.
  apply (builder_large_enough gf_init ec_code_gen_avx 64 [0; 5; 3] false [] []);
    [apply gf_init_ok|apply row_ok_example|simpl; lia|by left].
Defined.

(** Without [xor3] (the sse and x64 generators) the same allocation is too
    small for some rows: [ec_gf_prepare] counts an xor of three operands as one
    operation, [ec_code_xor3] writes two, and the row that multiplies twice by
    0x3F needs 62 operations where 60 are allocated. *)
Theorem builder_too_small :
  exists vs, Forall nz8 vs /\
    (exists b, ec_code_prepare gf_init ec_code_gen_sse true 2 64 false = inr b /\
       build_ops gf_init b vs 0 2 = None /\ b_cap b = 60 /\ row_cost ec_code_gen_sse vs = 62%nat).
Proof.
  exists [gmul 0x3F 0x3F; 0x3F]. split.
  - do 2 (apply Forall_cons; split; [vm_compute; split; congruence|]). by apply Forall_nil.
  - eexists. split; [reflexivity|]. split; [vm_compute; reflexivity|]. split; vm_compute; reflexivity.
Qed.
