(* ===== verification/EcMethod.v ===== *)
(** * Matrices, encoding and decoding (ec-method.c)

    A matrix list owns the encoding matrix and a cache of decoding matrices,
    sorted by the mask of the fragments they decode from.  Matrices that no one
    uses are kept in a list in the order they were released; the first of them
    is recycled when the cache is full. *)
From stdpp Require Import gmap.
From S2P Require Import Prelude GF256 EcGf8 EcCodeC EcBodies EcMuladd EcGalois EcMatrix EcInverse EcCombine EcProgram EcDynamic EcGenerated EcBuild.


(** ** Data *)

(** [row_values] is the index of the row in the values of the matrix;
    [row_func] is [None] for NULL. *)
Record ec_matrix_row_t : Set := mkrow { row_func : option ec_code_func_t; row_values : Z }.

Record ec_matrix_t : Set := mkmatrix {
  mx_refs : Z; mx_columns : Z; mx_rows : Z; mx_mask : Z;
  mx_values : list Z; mx_row_data : list ec_matrix_row_t }.

(** Matrices of the cache are at an address. *)
Definition addr : Set := nat.

(** [ml_heap] holds the matrices of the pool that are allocated. *)
Record ec_matrix_list_t : Type := mklist {
  ml_lru : list addr;
  ml_columns : Z; ml_rows : Z; ml_max : Z; ml_count : Z; ml_stripe : Z;
  ml_code : ec_code_t; ml_encode : option ec_matrix_t; ml_objects : list addr;
  ml_heap : gmap addr ec_matrix_t }.

Definition with_lru (l : ec_matrix_list_t) (x : list addr) : ec_matrix_list_t :=
  mklist x (ml_columns l) (ml_rows l) (ml_max l) (ml_count l) (ml_stripe l) (ml_code l)
    (ml_encode l) (ml_objects l) (ml_heap l).
Definition with_count (l : ec_matrix_list_t) (x : Z) : ec_matrix_list_t :=
  mklist (ml_lru l) (ml_columns l) (ml_rows l) (ml_max l) x (ml_stripe l) (ml_code l)
    (ml_encode l) (ml_objects l) (ml_heap l).
Definition with_code (l : ec_matrix_list_t) (x : ec_code_t) : ec_matrix_list_t :=
  mklist (ml_lru l) (ml_columns l) (ml_rows l) (ml_max l) (ml_count l) (ml_stripe l) x
    (ml_encode l) (ml_objects l) (ml_heap l).
Definition with_encode (l : ec_matrix_list_t) (x : option ec_matrix_t) : ec_matrix_list_t :=
  mklist (ml_lru l) (ml_columns l) (ml_rows l) (ml_max l) (ml_count l) (ml_stripe l) (ml_code l)
    x (ml_objects l) (ml_heap l).
Definition with_objects (l : ec_matrix_list_t) (x : list addr) : ec_matrix_list_t :=
  mklist (ml_lru l) (ml_columns l) (ml_rows l) (ml_max l) (ml_count l) (ml_stripe l) (ml_code l)
    (ml_encode l) x (ml_heap l).
Definition with_heap (l : ec_matrix_list_t) (x : gmap addr ec_matrix_t) : ec_matrix_list_t :=
  mklist (ml_lru l) (ml_columns l) (ml_rows l) (ml_max l) (ml_count l) (ml_stripe l) (ml_code l)
    (ml_encode l) (ml_objects l) x.

(** [list_del_init]: a matrix is at most once in the list. *)
Definition list_del (a : addr) (l : list addr) : list addr := filter (fun b => b <> a) l.

(** ** Matrices *)

(** The rounds of the two loops of [ec_method_matrix_init]; [env i] is what the
    system does while the function of row [i] is built. *)
Definition init_row (env : nat -> build_env) (inverse : bool) (columns i : Z)
    (s : ec_code_t * list Z * list ec_matrix_row_t) : option (ec_code_t * list Z * list ec_matrix_row_t) :=
  let '(code, values, row_data) := s in
  let off := i * columns in
  '(code, values, func) ←
    (if inverse
     then ec_code_build_interleaved (env (Z.to_nat i)) code (Z.of_nat EC_METHOD_WORD_SIZE) values off columns
     else ec_code_build_linear (env (Z.to_nat i)) code (Z.of_nat EC_METHOD_WORD_SIZE) values off columns);
  row_data ← wr row_data i (mkrow (Some func) off);
  Some (code, values, row_data).

(** [a0] is the uninitialised array of [ec_method_matrix_inverse]. *)
Definition ec_method_matrix_init (env : nat -> build_env) (a0 : list Z) (l : ec_matrix_list_t)
    (m : ec_matrix_t) (mask : Z) (rows : list Z) (inverse : bool)
    : option (ec_matrix_list_t * ec_matrix_t) :=
  let code := ml_code l in
  let columns := ml_columns l in
  let nrows := if inverse then ml_columns l else ml_rows l in
  values ← (if inverse then ec_method_matrix_inverse (code_gf code) a0 (mx_values m) rows nrows
            else ec_method_matrix_normal (code_gf code) (mx_values m) columns rows nrows);
  '(code, values, row_data) ←
    for_up (Z.to_nat nrows) 0 (init_row env inverse columns) (code, values, mx_row_data m);
  Some (with_code l code, mkmatrix 1 columns nrows mask values row_data).

Definition ec_method_matrix_release (m : ec_matrix_t) : option ec_matrix_t :=
  row_data ← for_up (Z.to_nat (mx_rows m)) 0
    (fun i row_data => r ← rd row_data i; wr row_data i (mkrow None (row_values r))) (mx_row_data m);
  Some (mkmatrix (mx_refs m) (mx_columns m) (mx_rows m) (mx_mask m) (mx_values m) row_data).

(** ** The cache *)

Definition ec_method_matrix_destroy (l : ec_matrix_list_t) (a : addr) : option ec_matrix_list_t :=
  let l := with_lru l (list_del a (ml_lru l)) in
  m ← ml_heap l !! a;
  _ ← ec_method_matrix_release m;
  let l := with_heap l (delete a (ml_heap l)) in
  Some (with_count l (u32 (ml_count l - 1))).

Definition set_refs (m : ec_matrix_t) (refs : Z) : ec_matrix_t :=
  mkmatrix refs (mx_columns m) (mx_rows m) (mx_mask m) (mx_values m) (mx_row_data m).

Definition set_mask (m : ec_matrix_t) (mask : Z) : ec_matrix_t :=
  mkmatrix (mx_refs m) (mx_columns m) (mx_rows m) mask (mx_values m) (mx_row_data m).

Definition ec_method_matrix_unref (l : ec_matrix_list_t) (a : addr) : option ec_matrix_list_t :=
  m ← ml_heap l !! a;
  let refs := u32 (mx_refs m - 1) in
  let l := with_heap l (<[a := set_refs m refs]> (ml_heap l)) in
  if refs =? 0 then
    let l := with_lru l (ml_lru l ++ [a]) in
    if ml_max l <? ml_count l then
      first ← head (ml_lru l);
      ec_method_matrix_destroy l first
    else Some l
  else Some l.

(** The binary search: the matrix, if any, and the position. *)
Fixpoint lookup_loop (fuel : nat) (l : ec_matrix_list_t) (mask i j : Z) : option (option addr * Z) :=
  if i <? j then
    match fuel with
    | O => None
    | S fuel =>
        let k := Z.shiftr (u32 (i + j)) 1 in
        a ← rd (ml_objects l) k;
        m ← ml_heap l !! a;
        if mx_mask m =? mask then Some (Some a, k)
        else if mx_mask m <? mask then lookup_loop fuel l mask (k + 1) j
        else lookup_loop fuel l mask i k
    end
  else Some (None, i).

Definition ec_method_matrix_lookup (l : ec_matrix_list_t) (mask : Z) : option (option addr * Z) :=
  lookup_loop (Z.to_nat (ml_count l)) l mask 0 (ml_count l).

(** [memmove] of [n] elements inside an array. *)
Definition memmove {A} (l : list A) (dst src n : Z) : option (list A) :=
  let len := Z.of_nat (length l) in
  if (0 <=? dst) && (0 <=? src) && (0 <=? n) && (dst + n <=? len) && (src + n <=? len) then
    Some (take (Z.to_nat dst) l ++ take (Z.to_nat n) (drop (Z.to_nat src) l) ++
          drop (Z.to_nat (dst + n)) l)
  else None.

Definition ec_method_matrix_remove (l : ec_matrix_list_t) (mask : Z) : option ec_matrix_list_t :=
  '(found, pos) ← ec_method_matrix_lookup l mask;
  match found with
  | Some _ =>
      let l := with_count l (u32 (ml_count l - 1)) in
      if pos <? ml_count l then
        objects ← memmove (ml_objects l) pos (pos + 1) (ml_count l - pos);
        Some (with_objects l objects)
      else Some l
  | None => Some l
  end.

(** The assertion that the mask is not in the list only logs. *)
Definition ec_method_matrix_insert (l : ec_matrix_list_t) (a : addr) : option ec_matrix_list_t :=
  m ← ml_heap l !! a;
  '(_, pos) ← ec_method_matrix_lookup l (mx_mask m);
  objects ← (if pos <? ml_count l
             then memmove (ml_objects l) (pos + 1) pos (ml_count l - pos)
             else Some (ml_objects l));
  objects ← wr objects pos a;
  Some (with_count (with_objects l objects) (u32 (ml_count l + 1))).

(** Zeroed memory of the pool, with the room for the rows and the values. *)
Definition pool_matrix (columns : Z) : ec_matrix_t :=
  mkmatrix 0 0 0 0 (replicate (Z.to_nat (columns * columns)) 0)
    (replicate (Z.to_nat columns) (mkrow None 0)).

(** The end of [ec_method_matrix_get], for the matrix [m] at [a] that it has
    recycled or allocated. *)
Definition get_finish (env : nat -> build_env) (a0 : list Z) (l : ec_matrix_list_t) (a : addr)
    (m : ec_matrix_t) (mask : Z) (rows : list Z) : option (ec_matrix_list_t * (Z + addr)) :=
  '(l, m) ← ec_method_matrix_init env a0 l m mask rows true;
  if ml_count l <? ml_max l then
    l ← ec_method_matrix_insert (with_heap l (<[a := m]> (ml_heap l))) a;
    Some (l, inr a)
  else Some (with_heap l (<[a := set_mask m 0]> (ml_heap l)), inr a).

(** [mem] is the address that [mem_get0] returns. *)
Definition ec_method_matrix_get (env : nat -> build_env) (a0 : list Z) (mem : option addr)
    (l : ec_matrix_list_t) (mask : Z) (rows : list Z) : option (ec_matrix_list_t * (Z + addr)) :=
  '(found, _) ← ec_method_matrix_lookup l mask;
  match found with
  | Some a =>
      m ← ml_heap l !! a;
      let l := with_lru l (list_del a (ml_lru l)) in
      Some (with_heap l (<[a := set_refs m (u32 (mx_refs m + 1))]> (ml_heap l)), inr a)
  | None =>
      let alloc :=
        match mem with
        | None => Some (l, inl ENOMEM)
        | Some a => get_finish env a0 l a (pool_matrix (ml_columns l)) mask rows
        end in
      match ml_lru l with
      | a :: _ =>
          if ml_max l <=? ml_count l then
            m ← ml_heap l !! a;
            let l := with_lru l (list_del a (ml_lru l)) in
            l ← ec_method_matrix_remove l (mx_mask m);
            m ← ec_method_matrix_release m;
            get_finish env a0 l a m mask rows
          else alloc
      | [] => alloc
      end
  end.

Definition ec_method_matrix_put (l : ec_matrix_list_t) (a : addr) : option ec_matrix_list_t :=
  ec_method_matrix_unref l a.

(** ** Setup *)

(** What the allocations of [ec_method_init] give: the pool and the code
    structure may fail; arrays have arbitrary contents. [ie_gen] is the
    generator that [ec_code_detect] chooses. *)
Record init_env : Type := mkienv {
  ie_pool : bool; ie_objects : option (list addr);
  ie_gf : option ec_gf_t; ie_log : option (list Z); ie_pow : option (list Z);
  ie_matrix : option (list Z * list ec_matrix_row_t);
  ie_code : bool; ie_gen : option ec_code_gen_t;
  ie_build : nat -> build_env }.

Definition ec_method_setup (env : init_env) (l : ec_matrix_list_t) : option (Z + ec_matrix_list_t) :=
  match ie_matrix env with
  | None => Some (inl (- ENOMEM))
  | Some (values0, row_data0) =>
      let m := mkmatrix 0 0 0 0 values0 row_data0 in
      match ec_code_create (code_gf (ml_code l)) (ie_gen env) (ie_code env) with
      | inl e => Some (inl (- e))
      | inr code =>
          let l := with_code l code in
          values ← for_up (Z.to_nat (ml_rows l)) 0 (fun i v => wr v i (u32 (i + 1)))
                     (replicate (Z.to_nat (ml_rows l)) 0);
          '(l, m) ← ec_method_matrix_init (ie_build env) [] l m 0 values false;
          Some (inr (with_encode l (Some m)))
      end
  end.

Definition EC_GF_BITS : Z := 8.
Definition EC_GF_MOD : Z := 0x11D.

Definition ec_method_init (env : init_env) (columns rows max : Z) : option (Z + ec_matrix_list_t) :=
  if ie_pool env then
    match ie_objects env with
    | None => Some (inl (- ENOMEM))
    | Some objects =>
        g ← ec_gf_prepare (ie_gf env) (ie_log env) (ie_pow env) EC_GF_BITS EC_GF_MOD;
        match g with
        | inl e => Some (inl (- e))
        | inr gf =>
            ec_method_setup env
              (mklist [] columns rows max 0 (u32 (EC_METHOD_CHUNK_SIZE * columns)) (mkcode gf None)
                 None objects ∅)
        end
    end
  else Some (inl (- ENOMEM)).

(** The loop of [ec_method_fini]; the list of unused matrices is finite and
    every round removes its first element. *)
Fixpoint fini_loop (fuel : nat) (l : ec_matrix_list_t) : option ec_matrix_list_t :=
  match ml_lru l with
  | [] => Some l
  | a :: _ =>
      match fuel with
      | O => None
      | S fuel => l ← ec_method_matrix_destroy l a; fini_loop fuel l
      end
  end.

(** The result tells whether the assertion [list->count == 0] holds. *)
Definition ec_method_fini (l : ec_matrix_list_t) : option bool :=
  match ml_encode l with
  | None => Some true
  | Some encode =>
      l ← fini_loop (length (ml_lru l)) l;
      let assertion := ml_count l =? 0 in
      _ ← ec_method_matrix_release encode;
      Some assertion
  end.

(** ** Encoding and decoding *)

(** Output buffers with the position of their pointer. *)
Abbreviation outs_t := (list (list chunk * Z)).

(** The row function [i] of the encoding matrix on the stripe at [pos]. *)
Definition encode_row (regs : list Z) (m : ec_matrix_t) (columns : Z) (inb : list chunk) (pos i : Z)
    (outs : outs_t) : option outs_t :=
  '(buf, p) ← rd outs i;
  row ← rd (mx_row_data m) i;
  func ← row_func row;
  dst ← rdc buf p;
  r ← call_linear regs func dst inb pos (mx_values m) (row_values row) columns;
  buf ← wrc buf p r;
  wr outs i (buf, p + EC_METHOD_CHUNK_SIZE).

Fixpoint encode_loop (fuel : nat) (regs : list Z) (l : ec_matrix_list_t) (m : ec_matrix_t)
    (size : Z) (inb : list chunk) (pos : Z) (outs : outs_t) : option outs_t :=
  if pos <? size then
    match fuel with
    | O => None
    | S fuel =>
        outs ← for_up (Z.to_nat (mx_rows m)) 0 (encode_row regs m (ml_columns l) inb pos) outs;
        encode_loop fuel regs l m size inb (u64 (pos + ml_stripe l)) outs
    end
  else Some outs.

(** A stripe is at least one chunk, so the chunks of the input are enough fuel. *)
Definition ec_method_encode (regs : list Z) (l : ec_matrix_list_t) (size : Z) (inb : list chunk)
    (outs : outs_t) : option outs_t :=
  m ← ml_encode l;
  encode_loop (Z.to_nat (size / EC_METHOD_CHUNK_SIZE) + 1) regs l m size inb 0 outs.

Definition decode_row (regs : list Z) (m : ec_matrix_t) (columns : Z) (ins : list (list chunk))
    (pos i : Z) (s : list chunk * Z) : option (list chunk * Z) :=
  let '(out, p) := s in
  row ← rd (mx_row_data m) i;
  func ← row_func row;
  dst ← rdc out p;
  r ← call_interleaved regs func dst ins pos (mx_values m) (row_values row) columns;
  out ← wrc out p r;
  Some (out, p + EC_METHOD_CHUNK_SIZE).

Fixpoint decode_loop (fuel : nat) (regs : list Z) (columns : Z) (m : ec_matrix_t) (size : Z)
    (ins : list (list chunk)) (pos : Z) (s : list chunk * Z) : option (list chunk * Z) :=
  if pos <? size then
    match fuel with
    | O => None
    | S fuel =>
        s ← for_up (Z.to_nat (mx_rows m)) 0 (decode_row regs m columns ins pos) s;
        decode_loop fuel regs columns m size ins (u64 (pos + EC_METHOD_CHUNK_SIZE)) s
    end
  else Some s.

(** The middle of [ec_method_decode], with the matrix it was given. *)
Definition decode_with (regs : list Z) (columns : Z) (m : ec_matrix_t) (size : Z)
    (ins : list (list chunk)) (out : list chunk) : option (list chunk) :=
  '(out, _) ← decode_loop (Z.to_nat (size / EC_METHOD_CHUNK_SIZE) + 1) regs columns m size ins 0 (out, 0);
  Some out.

Definition ec_method_decode (env : nat -> build_env) (a0 : list Z) (mem : option addr) (regs : list Z)
    (l : ec_matrix_list_t) (size mask : Z) (rows : list Z) (ins : list (list chunk))
    (out : list chunk) : option (ec_matrix_list_t * list chunk * Z) :=
  '(l, r) ← ec_method_matrix_get env a0 mem l mask rows;
  match r with
  | inl e => Some (l, out, - e)
  | inr a =>
      m ← ml_heap l !! a;
      out ← decode_with regs (ml_columns l) m size ins out;
      l ← ec_method_matrix_put l a;
      Some (l, out, 0)
  end.
