(* ===== verification/EcCoding.v ===== *)
(** * Correctness of the matrices of ec-method.c

    A matrix built by [ec_method_matrix_init] has, for every row, a function that
    computes the linear combination of the row, whichever way the functions
    were built. *)
From stdpp Require Import gmap.
From S2P Require Import Prelude Poly GF256 EcGf8 EcCodeC EcBodies EcMuladd EcGalois EcMatrix EcInverse EcCombine EcProgram EcDynamic EcGenerated EcBuild EcMethod.

(** ** What it means for a matrix to implement rows of coefficients *)

Definition row_at (linear : bool) (n : nat) (m : ec_matrix_t) (i : nat) (coef : list Z) : Prop :=
  exists pre row post f,
    mx_values m = pre ++ row ++ post /\ length pre = (i * n)%nat /\
    mx_row_data m !! i = Some (mkrow (Some f) (Z.of_nat (i * n))) /\ built linear f row coef.

Record matrix_ok (linear : bool) (n : nat) (coefs : list (list Z)) (m : ec_matrix_t) : Prop := {
  mok_columns : mx_columns m = Z.of_nat n;
  mok_rows : mx_rows m = Z.of_nat (length coefs);
  mok_coefs : Forall (fun c => length c = n) coefs;
  mok_row : forall i coef, coefs !! i = Some coef -> row_at linear n m i coef }.

(** Only these fields matter. *)
Lemma matrix_ok_ext linear n coefs m m' :
  mx_columns m' = mx_columns m -> mx_rows m' = mx_rows m -> mx_values m' = mx_values m ->
  mx_row_data m' = mx_row_data m -> matrix_ok linear n coefs m -> matrix_ok linear n coefs m'.
Proof.
  intros Hc Hr Hv Hd [H1 H2 H3 H4]. split; try congruence.
  intros i coef Hi. unfold row_at. rewrite Hv, Hd. by apply H4.
Qed.

(** ** Building the rows *)

Definition gen_fits (code : ec_code_t) (coefs : list (list Z)) : Prop :=
  Forall (fits (code_gen code)) coefs.

(** The code may lose its generator. *)
Definition code_le (code code' : ec_code_t) : Prop :=
  code_gf code' = code_gf code /\ (code_gen code' = code_gen code \/ code_gen code' = None).

Lemma code_le_refl code : code_le code code.
Proof. split; auto. Qed.

Lemma code_le_trans c1 c2 c3 : code_le c1 c2 -> code_le c2 c3 -> code_le c1 c3.
Proof. intros [? [? | ?]] [? [? | ?]]; split; try congruence; [left|right|right|right]; congruence. Qed.

Lemma code_le_fits code code' coefs : code_le code code' -> gen_fits code coefs -> gen_fits code' coefs.
Proof.
  unfold gen_fits. intros [_ [-> | ->]] H; [done|]. apply Forall_true. intros. exact I.
Qed.

Section Init.
Context (gf : ec_gf_t) (Hgf : gf_ok gf) (env : nat -> build_env) (linear : bool) (n : nat).

(** Rows done, each with its function. *)
Definition done_row (row_data : list ec_matrix_row_t) (i : nat) (row coef : list Z) : Prop :=
  length row = n /\ exists f, row_data !! i = Some (mkrow (Some f) (Z.of_nat (i * n))) /\ built linear f row coef.

Lemma init_row_step code rows coef rest tail row_data :
  code_gf code = gf -> row_ok linear coef -> fits (code_gen code) coef -> length coef = n ->
  Forall (fun r => length r = n) rows -> (length rows < length row_data)%nat ->
  exists code' row f,
    init_row env (negb linear) (Z.of_nat n) (Z.of_nat (length rows))
      (code, concat rows ++ coef ++ concat rest ++ tail, row_data)
    = Some (code', concat rows ++ row ++ concat rest ++ tail,
        <[length rows := mkrow (Some f) (Z.of_nat (length rows * n))]> row_data) /\
    code_le code code' /\ length row = n /\ built linear f row coef.
Proof.
  intros Hc Hrow Hfit Hl HF Hlt. unfold init_row.
  replace (Z.of_nat (length rows) * Z.of_nat n) with (Z.of_nat (length (concat rows)))
    by (rewrite (length_concat_rows n) by done; lia).
  destruct (build_ok gf Hgf (env (Z.to_nat (Z.of_nat (length rows)))) code (Z.of_nat EC_METHOD_WORD_SIZE)
    coef linear (concat rows) (concat rest ++ tail) Hc Hrow Hfit) as (code' & row & f & E & Hg & Hgen & Hb).
  rewrite Hl in E.
  assert (Hw : forall r, wr row_data (Z.of_nat (length rows)) r = Some (<[length rows := r]> row_data)).
  { intros r. rewrite wr_Some by lia. by rewrite Nat2Z.id. }
  exists code', row, f. split; [|split; [split; congruence || tauto|split; [|done]]].
  - destruct linear; cbn [negb]; unfold ec_code_build_linear, ec_code_build_interleaved;
      rewrite E; cbn [mbind option_bind]; rewrite Hw; cbn [mbind option_bind];
      by rewrite (length_concat_rows n) by done.
  - destruct Hb as [Hb _]. congruence.
Qed.

Lemma init_rows_ok coefs : forall code rows done_coefs tail row_data k,
  code_gf code = gf -> Forall (row_ok linear) coefs -> gen_fits code coefs ->
  Forall (fun c => length c = n) coefs -> Forall (fun r => length r = n) rows ->
  length done_coefs = length rows -> (length rows + length coefs <= length row_data)%nat ->
  (forall i row coef, rows !! i = Some row -> done_coefs !! i = Some coef -> done_row row_data i row coef) ->
  k = length coefs ->
  exists code' rows' row_data',
    for_up k (Z.of_nat (length rows)) (init_row env (negb linear) (Z.of_nat n))
      (code, concat rows ++ concat coefs ++ tail, row_data)
    = Some (code', concat (rows ++ rows') ++ tail, row_data') /\
    code_le code code' /\ Forall (fun r => length r = n) rows' /\ length rows' = length coefs /\
    length row_data' = length row_data /\
    forall i row coef, (rows ++ rows') !! i = Some row -> (done_coefs ++ coefs) !! i = Some coef ->
      done_row row_data' i row coef.
Proof.
  induction coefs as [|coef coefs IH]; intros code rows dc tail rdat k Hc Hro Hfit Hlen HF Hdl Hrd Hdone ->.
  - exists code, [], rdat. rewrite !app_nil_r. cbn [concat app length for_up].
    auto 10 using code_le_refl.
  - apply Forall_cons in Hro as [Hr Hro]. apply Forall_cons in Hfit as [Hf Hfit].
    apply Forall_cons in Hlen as [Hl Hlen]. cbn [length] in Hrd.
    destruct (init_row_step code rows coef coefs tail rdat) as (code1 & row & f & E & Hle & Hlr & Hb);
      [done..|lia|].
    set (rdat1 := <[length rows := _]> rdat) in E.
    destruct (IH code1 (rows ++ [row]) (dc ++ [coef]) tail rdat1 (length coefs))
      as (code' & rows' & rdat' & E' & Hle' & HF' & Hl' & Hlrd & Hdone').
    + destruct Hle; congruence.
    + done.
    + by eapply code_le_fits.
    + done.
    + apply Forall_app. split; [done|]. by apply Forall_singleton.
    + rewrite !length_app, Hdl. done.
    + unfold rdat1. rewrite length_app, length_insert. cbn [length]. lia.
    + intros i row' coef' Hi Hi'. apply lookup_lt_Some in Hi as Hlt. rewrite length_app in Hlt. cbn [length] in Hlt.
      destruct (decide (i = length rows)) as [->|Hne].
      * rewrite list_lookup_middle in Hi by done. rewrite list_lookup_middle in Hi' by done.
        injection Hi as <-. injection Hi' as <-. split; [done|]. exists f. split; [|done].
        unfold rdat1. apply list_lookup_insert_eq. lia.
      * rewrite lookup_app_l in Hi by lia. rewrite lookup_app_l in Hi' by lia.
        destruct (Hdone i row' coef' Hi Hi') as [Hlr' (f' & Hf' & Hb')]. split; [done|]. exists f'.
        split; [|done]. unfold rdat1. rewrite list_lookup_insert_ne by lia. done.
    + done.
    + cbn [length for_up concat]. rewrite <- (app_assoc coef). rewrite E, some_bind.
      rewrite length_app, Nat2Z.inj_add, concat_app in E'. cbn [length concat app] in E'.
      rewrite app_nil_r, <- app_assoc in E'. change (Z.of_nat 1) with 1 in E'. rewrite E'.
      exists code', (row :: rows'), rdat'. rewrite <- !app_assoc in *. cbn [app] in *.
      split; [done|]. split; [by eapply code_le_trans|]. split; [by constructor|].
      split; [cbn; lia|]. split; [|done]. rewrite Hlrd. unfold rdat1. by rewrite length_insert.
Qed.
End Init.

(** ** The rows of the encoder and of the decoder *)

Lemma nz8_gmul a b : nz8 a -> nz8 b -> nz8 (gmul a b).
Proof.
  intros Ha Hb. assert (H : in8 (gmul a b)) by auto with gf.
  destruct (decide (gmul a b = 0)) as [E|E]; [|unfold in8, nz8 in *; lia].
  pose proof (gmul_ginv_r b a Hb ltac:(auto with gf)) as H1.
  rewrite (gmul_comm b a), E, gmul_0_l in H1 by auto with gf. unfold nz8 in Ha. lia.
Qed.

Lemma pows_nz8 v n : nz8 v -> Forall nz8 (pows v n).
Proof.
  intros Hv. assert (H1 : nz8 1) by (unfold nz8; lia).
  assert (Hp : forall k, nz8 (gpow v k)) by (intros k; induction k; [done|]; cbn [gpow]; by apply nz8_gmul).
  induction n as [|n IH]; cbn [pows]; constructor; auto.
Qed.

Lemma last_pows v n : last (pows v n) = Some 1.
Proof. induction n as [|n IH]; [done|]. cbn [pows]. by destruct n. Qed.

Lemma encode_row_ok v n : nz8 v -> Z.of_nat (S n) < 2 ^ 27 -> row_ok true (pows v n).
Proof.
  intros Hv Hn. pose proof (pows_nz8 v n Hv) as Hp. split; [|split; [|split; [|split]]].
  - eapply Forall_impl; [exact Hp|apply nz8_in8].
  - apply Exists_exists. exists 1. split; [|done]. apply last_Some_elem_of, last_pows.
  - by rewrite length_pows.
  - done.
  - apply last_pows.
Qed.

Lemma decode_row_ok values t :
  Forall in8 values -> NoDup values -> (t < length values)%nat -> Z.of_nat (length values) < 2 ^ 27 ->
  row_ok false (drow values t).
Proof.
  intros Hv Hnd Ht Hn. split; [by apply drow_in8|]. split; [|split; [by rewrite length_drow|done]].
  destruct (zeros_or_split (drow values t)) as [Hz|(z & v & ws & E & Hv0)].
  - pose proof (drow_decodes values Hv Hnd (unit_vec (length values) t) t) as H.
    rewrite Hz, dot_zero_l in H. unfold unit_vec in H.
    rewrite list_lookup_total_insert_eq in H by (by rewrite length_replicate).
    specialize (H (unit_vec_in8 _ _) (length_unit_vec _ _) Ht). lia.
  - rewrite E. apply Exists_app. right. by constructor.
Qed.

Lemma drows_ok values :
  Forall in8 values -> NoDup values -> Z.of_nat (length values) < 2 ^ 27 ->
  Forall (row_ok false) (drows values).
Proof.
  intros Hv Hnd Hn. apply Forall_fmap, Forall_forall. intros t Ht. apply elem_of_seq in Ht.
  apply decode_row_ok; try done. lia.
Qed.

Lemma length_drows values : length (drows values) = length values.
Proof. unfold drows. by rewrite length_fmap, length_seq. Qed.

(** From the end of the loop to the matrix. *)
Lemma matrix_ok_intro linear n coefs rows tail row_data mask :
  Forall (fun c => length c = n) coefs -> Forall (fun r => length r = n) rows ->
  length rows = length coefs ->
  (forall i row coef, rows !! i = Some row -> coefs !! i = Some coef -> done_row linear n row_data i row coef) ->
  matrix_ok linear n coefs
    (mkmatrix 1 (Z.of_nat n) (Z.of_nat (length coefs)) mask (concat rows ++ tail) row_data).
Proof.
  intros Hc Hr Hl Hd. split; [done|done|done|]. intros i coef Hi.
  destruct (lookup_lt_is_Some_2 rows i) as [row Hrow].
  { apply lookup_lt_Some in Hi. lia. }
  destruct (Hd i row coef Hrow Hi) as [Hlr (f & Hf & Hb)].
  exists (concat (take i rows)), row, (concat (drop (S i) rows) ++ tail), f. cbn [mx_values mx_row_data].
  split; [|split; [|done]].
  - rewrite <- (take_drop_middle rows i row Hrow) at 1. rewrite concat_app. cbn [concat].
    by rewrite <- !app_assoc.
  - rewrite (length_concat_rows n) by (by apply Forall_take).
    apply lookup_lt_Some in Hrow. rewrite length_take. lia.
Qed.

Lemma init_inverse_ok env a0 l m mask values :
  gf_ok (code_gf (ml_code l)) -> Forall in8 values -> NoDup values ->
  ml_columns l = Z.of_nat (length values) -> 2 <= ml_columns l < 2 ^ 27 ->
  length a0 = length values -> (length values * length values <= length (mx_values m))%nat ->
  (length values <= length (mx_row_data m))%nat -> gen_fits (ml_code l) (drows values) ->
  exists code' m', ec_method_matrix_init env a0 l m mask values true = Some (with_code l code', m') /\
    code_le (ml_code l) code' /\ matrix_ok false (length values) (drows values) m' /\
    mx_refs m' = 1 /\ mx_mask m' = mask /\
    length (mx_values m') = length (mx_values m) /\ length (mx_row_data m') = length (mx_row_data m).
Proof.
  intros Hgf Hv Hnd Hcol Hc2 Ha0 Hmv Hmr Hfit. unfold ec_method_matrix_init. rewrite Hcol in *.
  rewrite (matrix_inverse_ok _ Hgf) by (done || lia). rewrite some_bind.
  destruct (init_rows_ok _ Hgf env false (length values) (drows values) (ml_code l) [] []
    (drop (length values * length values) (mx_values m)) (mx_row_data m)
    (Z.to_nat (Z.of_nat (length values)))) as (code' & rows & rdat & E & Hle & HF & Hl & Hlr & Hd); try done.
  { apply drows_ok; try done. lia. }
  { apply drows_length. }
  { rewrite length_drows. cbn [length]. lia. }
  { rewrite length_drows. lia. }
  cbn [concat app length] in E. change (Z.of_nat 0) with 0 in E. cbn [negb] in E. rewrite E, some_bind.
  do 2 eexists. split; [done|]. split; [done|].
  pose proof (matrix_ok_intro false (length values) (drows values) rows
    (drop (length values * length values) (mx_values m)) rdat mask (drows_length values) HF Hl) as Hok.
  rewrite length_drows in Hok, Hl. split; [by apply Hok|]. split; [done|]. split; [done|].
  split; [|done]. cbn [mx_values]. rewrite length_app, (length_concat_rows (length values)), Hl, length_drop by done.
  lia.
Qed.

Lemma init_normal_ok env l m mask values n :
  gf_ok (code_gf (ml_code l)) -> Forall nz8 values ->
  ml_columns l = Z.of_nat (S n) -> ml_rows l = Z.of_nat (length values) -> ml_columns l <= 16 ->
  (length values * S n <= length (mx_values m))%nat ->
  (length values <= length (mx_row_data m))%nat ->
  exists code' m', ec_method_matrix_init env [] l m mask values false = Some (with_code l code', m') /\
    code_le (ml_code l) code' /\ matrix_ok true (S n) ((fun v => pows v n) <$> values) m'.
Proof.
  intros Hgf Hv Hcol Hrows Hc16 Hmv Hmr. unfold ec_method_matrix_init. rewrite Hcol, Hrows in *.
  rewrite (matrix_normal_ok _ Hgf) by (done || lia). rewrite some_bind, vandermonde_concat.
  set (coefs := (fun v => pows v n) <$> values).
  assert (Hlc : Forall (fun c => length c = S n) coefs)
    by (apply Forall_fmap, Forall_true; intros; apply length_pows).
  assert (Hro : Forall (row_ok true) coefs).
  { apply Forall_fmap. eapply Forall_impl; [exact Hv|]. intros v Hv'. apply encode_row_ok; [done|lia]. }
  destruct (init_rows_ok _ Hgf env true (S n) coefs (ml_code l) [] []
    (drop (length values * S n) (mx_values m)) (mx_row_data m)
    (Z.to_nat (Z.of_nat (length values)))) as (code' & rows & rdat & E & Hle & HF & Hl & Hlr & Hd); try done.
  { apply Forall_forall. intros c Hc. rewrite Forall_forall in Hro, Hlc.
    apply fits_linear; [by apply Hro|]. rewrite (Hlc c Hc). lia. }
  { unfold coefs. rewrite length_fmap. cbn [length]. lia. }
  { unfold coefs. rewrite length_fmap. lia. }
  cbn [concat app length] in E. change (Z.of_nat 0) with 0 in E. cbn [negb] in E. rewrite E, some_bind.
  do 2 eexists. split; [done|]. split; [done|].
  pose proof (matrix_ok_intro true (S n) coefs rows (drop (length values * S n) (mx_values m)) rdat mask Hlc HF Hl) as Hok.
  replace (length coefs) with (length values) in Hok by (symmetry; apply length_fmap). by apply Hok.
Qed.
