(* ===== verification/EcCache.v ===== *)
(** * The cache of decoding matrices (ec-method.c)

    The invariant of the cache: the objects are sorted by mask, every cached
    matrix decodes from the fragments of its mask, and the unused matrices are
    exactly those without references.  Every operation preserves it, and the
    matrix that [ec_method_matrix_get] returns decodes from the fragments that
    were asked for. *)
From stdpp Require Import gmap sorting.
From S2P Require Import Prelude Poly GF256 EcGf8 EcCodeC EcBodies EcMuladd EcGalois EcMatrix EcInverse EcCombine EcProgram EcDynamic EcGenerated EcBuild EcMethod EcCoding.

(** ** The sorted array *)

(** The objects in use. *)
Definition objs (l : ec_matrix_list_t) : list addr := take (Z.to_nat (ml_count l)) (ml_objects l).

(** They have the masks [ms], in order. *)
Record sorted_objs (l : ec_matrix_list_t) (ms : list Z) : Prop := {
  so_max : 0 <= ml_max l < 2 ^ 31;
  so_count : 0 <= ml_count l <= ml_max l;
  so_length : Z.of_nat (length (ml_objects l)) = ml_max l;
  so_masks : Forall2 (fun a mk => mx_mask <$> ml_heap l !! a = Some mk) (objs l) ms;
  so_sorted : StronglySorted Z.lt ms }.

Lemma objs_length l ms : sorted_objs l ms -> length (objs l) = Z.to_nat (ml_count l).
Proof. intros [? ? Hl _ _]. unfold objs. rewrite length_take. lia. Qed.

Lemma masks_length l ms : sorted_objs l ms -> length ms = Z.to_nat (ml_count l).
Proof. intros H. rewrite <- (objs_length l ms H). symmetry. eapply Forall2_length, H. Qed.

(** A position separates the smaller masks from the larger ones. *)
Definition splits (ms : list Z) (mask : Z) (p : Z) : Prop :=
  0 <= p <= Z.of_nat (length ms) /\
  Forall (fun x => x < mask) (take (Z.to_nat p) ms) /\
  Forall (fun x => mask < x) (drop (Z.to_nat p) ms).

Lemma sorted_before ms i x : StronglySorted Z.lt ms -> ms !! i = Some x ->
  Forall (fun y => y < x) (take i ms) /\ Forall (fun y => x < y) (drop (S i) ms).
Proof.
  intros Hs Hi. rewrite <- (take_drop_middle ms i x Hi) in Hs. split; apply Forall_forall; intros y Hy.
  - eapply (StronglySorted_app_1_elem_of Z.lt); [exact Hs|done|set_solver].
  - apply StronglySorted_app_1_r in Hs. inversion Hs as [|? ? _ HF]; subst.
    rewrite Forall_forall in HF. by apply HF.
Qed.

Lemma Forall_take_le {A} (P : A -> Prop) (l : list A) i j :
  (i <= j)%nat -> Forall P (take j l) -> Forall P (take i l).
Proof. intros Hij H. replace i with (i `min` j)%nat by lia. rewrite <- take_take. by apply Forall_take. Qed.

Lemma Forall_drop_le {A} (P : A -> Prop) (l : list A) i j :
  (i <= j)%nat -> Forall P (drop i l) -> Forall P (drop j l).
Proof. intros Hij H. replace j with (i + (j - i))%nat by lia. rewrite <- drop_drop. by apply Forall_drop. Qed.

(** The binary search terminates and is right. *)
Lemma lookup_loop_ok l ms mask : sorted_objs l ms -> forall fuel i j,
  0 <= i <= j -> j <= ml_count l -> j - i <= Z.of_nat fuel ->
  Forall (fun x => x < mask) (take (Z.to_nat i) ms) ->
  Forall (fun x => mask < x) (drop (Z.to_nat j) ms) ->
  exists r p, lookup_loop fuel l mask i j = Some (r, p) /\
    match r with
    | Some a => 0 <= p < ml_count l /\ objs l !! Z.to_nat p = Some a /\ ms !! Z.to_nat p = Some mask
    | None => splits ms mask p
    end.
Proof.
  intros H. pose proof (masks_length l ms H) as Hlm. destruct H as [Hmax Hcount Hlen Hms Hsort].
  induction fuel as [|fuel IH]; intros i j Hij Hj Hf Hlo Hhi; cbn [lookup_loop].
  - rewrite (proj2 (Z.ltb_ge _ _)) by lia. exists None, i. split; [done|].
    split; [lia|]. split; [done|]. by replace i with j by lia.
  - destruct (Z.ltb_spec i j) as [Hlt|Hge].
    2: { exists None, i. split; [done|]. split; [lia|]. split; [done|]. by replace i with j by lia. }
    rewrite u32_small, Z.shiftr_div_pow2 by lia. change (2 ^ 1) with 2.
    set (k := (i + j) / 2). assert (Hk : i <= k < j) by (unfold k; Z.to_euclidean_division_equations; lia).
    destruct (lookup_lt_is_Some_2 (objs l) (Z.to_nat k)) as [a Ha].
    { unfold objs. rewrite length_take. lia. }
    destruct (Forall2_lookup_l _ _ _ _ _ Hms Ha) as (mk & Hmk & Hheap).
    assert (Hobj : rd (ml_objects l) k = Some a).
    { unfold rd. rewrite (proj2 (Z.leb_le 0 k)) by lia. unfold objs in Ha.
      by rewrite lookup_take_lt in Ha by lia. }
    rewrite Hobj, some_bind. destruct (ml_heap l !! a) as [m|]; [|done]. injection Hheap as Hheap.
    rewrite some_bind, Hheap. destruct (sorted_before ms (Z.to_nat k) mk Hsort Hmk) as [Hb Haft].
    destruct (Z.eqb_spec mk mask) as [->|Hne]; [|destruct (Z.ltb_spec mk mask)].
    + exists (Some a), k. split; [done|]. split; [lia|]. done.
    + apply IH; try lia; try done. replace (Z.to_nat (k + 1)) with (S (Z.to_nat k)) by lia.
      rewrite (take_S_r _ _ _ Hmk). apply Forall_app. split; [|by apply Forall_singleton].
      eapply Forall_impl; [exact Hb|]. cbn. lia.
    + apply IH; try lia; try done. rewrite (drop_S _ _ _ Hmk). apply Forall_cons. split; [lia|].
      eapply Forall_impl; [exact Haft|]. cbn. lia.
Qed.

Lemma matrix_lookup_ok l ms mask : sorted_objs l ms ->
  exists r p, ec_method_matrix_lookup l mask = Some (r, p) /\
    match r with
    | Some a => 0 <= p < ml_count l /\ objs l !! Z.to_nat p = Some a /\ ms !! Z.to_nat p = Some mask
    | None => splits ms mask p
    end.
Proof.
  intros H. unfold ec_method_matrix_lookup. pose proof (masks_length l ms H) as Hlm.
  pose proof (so_count l ms H). apply (lookup_loop_ok l ms mask H); try lia.
  - constructor.
  - rewrite drop_ge by lia. constructor.
Qed.

(** ** Insertion and removal *)

Lemma list_insert_split {A} (l : list A) p x : (p < length l)%nat ->
  <[p := x]> l = take p l ++ x :: drop (S p) l.
Proof. intros Hp. by apply insert_take_drop. Qed.

(** The array after room is made for one element and it is written. *)
Lemma array_insert {A} (O : list A) (p c : nat) (a : A) :
  (p <= c < length O)%nat ->
  exists O' , (O1 ← (if Z.of_nat p <? Z.of_nat c
           then memmove O (Z.of_nat p + 1) (Z.of_nat p) (Z.of_nat c - Z.of_nat p) else Some O);
         wr O1 (Z.of_nat p) a) = Some O' /\ length O' = length O /\
    take (S c) O' = take p (take c O) ++ a :: drop p (take c O).
Proof.
  intros Hp. destruct (Z.ltb_spec (Z.of_nat p) (Z.of_nat c)) as [Hlt|Hge].
  - unfold memmove. replace (_ && _) with true by lia. rewrite some_bind.
    replace (Z.to_nat (Z.of_nat p + 1)) with (S p) by lia.
    replace (Z.to_nat (Z.of_nat c - Z.of_nat p)) with (c - p)%nat by lia.
    replace (Z.to_nat (Z.of_nat p + 1 + (Z.of_nat c - Z.of_nat p))) with (S c) by lia.
    rewrite Nat2Z.id. destruct (lookup_lt_is_Some_2 O p) as [x Hx]; [lia|].
    rewrite (take_S_r _ _ _ Hx), <- app_assoc. cbn [app].
    rewrite wr_app by (rewrite length_take; lia). eexists. split; [done|].
    assert (Hl : length (take p O) = p) by (rewrite length_take; lia).
    split; [rewrite !length_app; cbn [length]; rewrite length_app, !length_take, !length_drop; lia|].
    rewrite take_app_ge by lia. rewrite Hl. replace (S c - p)%nat with (S (c - p)) by lia. cbn [take].
    rewrite take_take, Nat.min_l by lia. do 2 f_equal.
    rewrite take_app_le by (rewrite length_take, length_drop; lia).
    rewrite take_take, Nat.min_id. by rewrite firstn_skipn_comm; replace (p + (c - p))%nat with c by lia.
  - replace c with p in * by lia. rewrite some_bind, wr_Some, Nat2Z.id by lia. eexists. split; [done|].
    split; [by rewrite length_insert|]. rewrite list_insert_split by lia.
    rewrite take_app_ge, length_take by (rewrite length_take; lia).
    replace (S p - p `min` length O)%nat with 1%nat by lia. cbn [take].
    rewrite take_0, take_take, Nat.min_id, (drop_ge (take p O)) by (rewrite length_take; lia). done.
Qed.

Lemma array_remove {A} (O : list A) (p c : nat) :
  (p <= c < length O)%nat ->
  exists O', (if Z.of_nat p <? Z.of_nat c
              then memmove O (Z.of_nat p) (Z.of_nat p + 1) (Z.of_nat c - Z.of_nat p) else Some O)
    = Some O' /\ length O' = length O /\
    take c O' = take p (take (S c) O) ++ drop (S p) (take (S c) O).
Proof.
  intros Hp. destruct (Z.ltb_spec (Z.of_nat p) (Z.of_nat c)) as [Hlt|Hge].
  - unfold memmove. replace (_ && _) with true by lia.
    replace (Z.to_nat (Z.of_nat p + 1)) with (S p) by lia.
    replace (Z.to_nat (Z.of_nat c - Z.of_nat p)) with (c - p)%nat by lia.
    replace (Z.to_nat (Z.of_nat p + (Z.of_nat c - Z.of_nat p))) with c by lia.
    rewrite Nat2Z.id. eexists. split; [done|].
    split; [rewrite !length_app, !length_take, !length_drop; lia|].
    rewrite take_app_ge by (rewrite length_take; lia). rewrite length_take, Nat.min_l by lia.
    rewrite take_app_le by (rewrite length_take, length_drop; lia).
    rewrite !take_take, Nat.min_id, Nat.min_l by lia. f_equal.
    rewrite firstn_skipn_comm. do 2 f_equal. lia.
  - replace c with p in * by lia. eexists. split; [done|]. split; [done|].
    rewrite take_take, Nat.min_l by lia. rewrite drop_ge by (rewrite length_take; lia).
    by rewrite app_nil_r.
Qed.

Lemma sorted_insert ms mask p :
  StronglySorted Z.lt ms -> splits ms mask p ->
  StronglySorted Z.lt (take (Z.to_nat p) ms ++ mask :: drop (Z.to_nat p) ms).
Proof.
  intros Hs (Hp & Hlo & Hhi). rewrite Forall_forall in Hlo, Hhi.
  pose proof Hs as Hs'. rewrite <- (take_drop (Z.to_nat p) ms) in Hs'.
  apply StronglySorted_app. split; [|split].
  - intros x y Hx Hy. apply elem_of_cons in Hy as [->|Hy]; [by apply Hlo|].
    specialize (Hlo x Hx). specialize (Hhi y Hy). cbn in *. lia.
  - by apply StronglySorted_app_1_l in Hs'.
  - constructor; [by apply StronglySorted_app_1_r in Hs'|]. by apply Forall_forall.
Qed.

Lemma sorted_remove ms p : StronglySorted Z.lt ms -> StronglySorted Z.lt (take p ms ++ drop (S p) ms).
Proof.
  intros Hs. destruct (ms !! p) as [x|] eqn:E.
  - rewrite <- (take_drop_middle ms p x E) in Hs. apply StronglySorted_app. split; [|split].
    + intros y z Hy Hz. eapply (StronglySorted_app_1_elem_of Z.lt); [exact Hs|done|set_solver].
    + by apply StronglySorted_app_1_l in Hs.
    + apply StronglySorted_app_1_r in Hs. by inversion Hs.
  - apply lookup_ge_None in E. by rewrite take_ge, drop_ge, app_nil_r by lia.
Qed.

(** The masks of objects do not depend on other matrices. *)
Lemma masks_frame (h h' : gmap addr ec_matrix_t) os ms :
  (forall a, a ∈ os -> mx_mask <$> h' !! a = mx_mask <$> h !! a) ->
  Forall2 (fun a mk => mx_mask <$> h !! a = Some mk) os ms ->
  Forall2 (fun a mk => mx_mask <$> h' !! a = Some mk) os ms.
Proof.
  intros H HF. induction HF as [|a mk os ms Ha HF IH]; constructor.
  - rewrite H by set_solver. done.
  - apply IH. intros b Hb. apply H. set_solver.
Qed.

Lemma insert_ok l ms a m :
  sorted_objs l ms -> ml_heap l !! a = Some m -> mx_mask m ∉ ms -> ml_count l < ml_max l ->
  exists p os, 0 <= p /\ splits ms (mx_mask m) p /\
    ec_method_matrix_insert l a = Some (with_count (with_objects l os) (ml_count l + 1)) /\
    sorted_objs (with_count (with_objects l os) (ml_count l + 1))
      (take (Z.to_nat p) ms ++ mx_mask m :: drop (Z.to_nat p) ms) /\
    objs (with_count (with_objects l os) (ml_count l + 1))
    = take (Z.to_nat p) (objs l) ++ a :: drop (Z.to_nat p) (objs l).
Proof.
  intros Hs Ha Hn Hc. destruct (matrix_lookup_ok l ms (mx_mask m) Hs) as (r & p & E & Hr).
  destruct r as [b|]; [destruct Hr as (_ & _ & Hr); apply list_elem_of_lookup_2 in Hr; done|].
  pose proof (masks_length l ms Hs) as Hlm. pose proof Hs as [Hmax Hcount Hlen Hms Hsort].
  pose proof Hr as (Hp & _ & _). exists p.
  destruct (array_insert (ml_objects l) (Z.to_nat p) (Z.to_nat (ml_count l)) a) as (os & EO & HlO & HO); [lia|].
  exists os. split; [lia|]. split; [done|].
  assert (Hobj : objs (with_count (with_objects l os) (ml_count l + 1))
    = take (Z.to_nat p) (objs l) ++ a :: drop (Z.to_nat p) (objs l)).
  { unfold objs. cbn [ml_count ml_objects with_count with_objects].
    replace (Z.to_nat (ml_count l + 1)) with (S (Z.to_nat (ml_count l))) by lia. exact HO. }
  split; [|split; [|exact Hobj]].
  - unfold ec_method_matrix_insert. rewrite Ha, some_bind, E, some_bind.
    rewrite !Z2Nat.id in EO by lia. revert EO.
    destruct (if p <? ml_count l then _ else _) as [O1|]; [|done].
    rewrite !some_bind. intros EO. rewrite EO, some_bind, u32_small by lia. done.
  - split; cbn [ml_max ml_count ml_objects ml_heap with_count with_objects].
    + done.
    + lia.
    + lia.
    + rewrite Hobj. apply Forall2_app; [by apply Forall2_take|]. constructor; [by rewrite Ha|].
      by apply Forall2_drop.
    + by apply sorted_insert.
Qed.

(** Removal of a mask: of nothing, or of the object that has it. *)
Lemma remove_ok l ms mask :
  sorted_objs l ms ->
  ((mask ∉ ms) /\ ec_method_matrix_remove l mask = Some l) \/
  (exists p os, ms !! p = Some mask /\
    ec_method_matrix_remove l mask = Some (with_objects (with_count l (ml_count l - 1)) os) /\
    sorted_objs (with_objects (with_count l (ml_count l - 1)) os) (take p ms ++ drop (S p) ms) /\
    objs (with_objects (with_count l (ml_count l - 1)) os) = take p (objs l) ++ drop (S p) (objs l)).
Proof.
  intros Hs. destruct (matrix_lookup_ok l ms mask Hs) as (r & p & E & Hr).
  pose proof (masks_length l ms Hs) as Hlm. pose proof Hs as [Hmax Hcount Hlen Hms Hsort].
  unfold ec_method_matrix_remove. rewrite E, some_bind. destruct r as [a|].
  - right. destruct Hr as (Hp & Ha & Hm).
    destruct (array_remove (ml_objects l) (Z.to_nat p) (Z.to_nat (ml_count l - 1))) as (os & EO & HlO & HO); [lia|].
    exists (Z.to_nat p), os. split; [done|].
    assert (Hobj : objs (with_objects (with_count l (ml_count l - 1)) os)
      = take (Z.to_nat p) (objs l) ++ drop (S (Z.to_nat p)) (objs l)).
    { unfold objs. cbn [ml_count ml_objects with_count with_objects].
      replace (Z.to_nat (ml_count l)) with (S (Z.to_nat (ml_count l - 1))) by lia. exact HO. }
    split; [|split; [|exact Hobj]].
    + cbn [ml_count ml_objects with_count]. rewrite u32_small by lia.
      rewrite !Z2Nat.id in EO by lia. destruct (p <? ml_count l - 1); [by rewrite EO|].
      injection EO as <-. by destruct l.
    + split; cbn [ml_max ml_count ml_objects ml_heap with_count with_objects]; try done; try lia.
      * rewrite Hobj. apply Forall2_app; [by apply Forall2_take|by apply Forall2_drop].
      * by apply sorted_remove.
  - left. split; [|done]. destruct Hr as (_ & Hlo & Hhi). intros Hin.
    rewrite <- (take_drop (Z.to_nat p) ms) in Hin. apply elem_of_app in Hin as [Hin|Hin].
    + rewrite Forall_forall in Hlo. specialize (Hlo _ Hin). cbn in Hlo. lia.
    + rewrite Forall_forall in Hhi. specialize (Hhi _ Hin). cbn in Hhi. lia.
Qed.

(** ** The invariant *)

Section Cache.
(** The fragments that a mask selects: [n] distinct non-zero row numbers. *)
Context (n : nat) (rows_of : Z -> list Z).

Definition rows_good (rows : list Z) : Prop := Forall in8 rows /\ NoDup rows /\ length rows = n.

Definition valid_mask (mask : Z) : Prop := mask <> 0 /\ rows_good (rows_of mask).

Definition decodes (rows : list Z) (m : ec_matrix_t) : Prop := matrix_ok false n (drows rows) m.

Record cache_ok (l : ec_matrix_list_t) : Prop := {
  co_columns : ml_columns l = Z.of_nat n;
  co_n : (2 <= n)%nat /\ Z.of_nat n < 2 ^ 27;
  co_gf : gf_ok (code_gf (ml_code l));
  co_fits : forall rows, rows_good rows -> gen_fits (ml_code l) (drows rows);
  co_objs : exists ms, sorted_objs l ms /\ Forall valid_mask ms;
  co_cached : forall a m, ml_heap l !! a = Some m -> mx_mask m <> 0 ->
    a ∈ objs l /\ decodes (rows_of (mx_mask m)) m;
  co_refs : forall a m, ml_heap l !! a = Some m -> 0 <= mx_refs m < 2 ^ 32 /\ (mx_refs m = 0 <-> a ∈ ml_lru l);
  co_room : forall a m, ml_heap l !! a = Some m ->
    (n * n <= length (mx_values m))%nat /\ (n <= length (mx_row_data m))%nat /\ 0 <= mx_rows m <= Z.of_nat n;
  co_lru : NoDup (ml_lru l) /\ forall a, a ∈ ml_lru l -> is_Some (ml_heap l !! a) }.

(** A matrix in use keeps its contents, whatever the other users do. *)
Definition keeps (l l' : ec_matrix_list_t) (b : addr) : Prop :=
  forall m, ml_heap l !! b = Some m -> 0 < mx_refs m ->
    exists m', ml_heap l' !! b = Some m' /\ mx_refs m <= mx_refs m' /\
      mx_values m' = mx_values m /\ mx_row_data m' = mx_row_data m /\
      mx_rows m' = mx_rows m /\ mx_columns m' = mx_columns m.

Lemma objs_in_heap l ms a : sorted_objs l ms -> a ∈ objs l -> exists m, ml_heap l !! a = Some m /\ mx_mask m ∈ ms.
Proof.
  intros Hs Ha. apply list_elem_of_lookup in Ha as [i Hi].
  destruct (Forall2_lookup_l _ _ _ _ _ (so_masks l ms Hs) Hi) as (mk & Hmk & Hh).
  destruct (ml_heap l !! a) as [m|]; [|done]. injection Hh as <-. exists m. split; [done|].
  by eapply list_elem_of_lookup_2.
Qed.

(** Objects are distinct because their masks are. *)
Lemma objs_NoDup l ms : sorted_objs l ms -> NoDup (objs l).
Proof.
  intros [_ _ _ Hms Hsort]. apply NoDup_alt. intros i j a Hi Hj.
  destruct (Forall2_lookup_l _ _ _ _ _ Hms Hi) as (x & Hx & Ex).
  destruct (Forall2_lookup_l _ _ _ _ _ Hms Hj) as (y & Hy & Ey). assert (x = y) as <- by congruence.
  destruct (sorted_before ms i x Hsort Hx) as [Hb _]. destruct (sorted_before ms j x Hsort Hy) as [Hb' _].
  rewrite Forall_forall in Hb, Hb'. destruct (Nat.lt_trichotomy i j) as [H|[H|H]]; [|done|].
  - specialize (Hb' x). assert (x ∈ take j ms) as Hin; [|specialize (Hb' Hin); cbn in Hb'; lia].
    apply list_elem_of_lookup. exists i. by rewrite lookup_take_lt.
  - specialize (Hb x). assert (x ∈ take i ms) as Hin; [|specialize (Hb Hin); cbn in Hb; lia].
    apply list_elem_of_lookup. exists j. by rewrite lookup_take_lt.
Qed.

Lemma list_del_elem a b (l : list addr) : b ∈ list_del a l <-> b ∈ l /\ b <> a.
Proof. unfold list_del. rewrite list_elem_of_filter. tauto. Qed.

Lemma list_del_NoDup a (l : list addr) : NoDup l -> NoDup (list_del a l).
Proof. apply NoDup_filter. Qed.

(** A change of the references of a matrix, with the list of unused ones. *)
Lemma set_refs_ok l a m r lru :
  cache_ok l -> ml_heap l !! a = Some m -> 0 <= r < 2 ^ 32 -> NoDup lru ->
  (forall b, b ∈ lru <-> (b = a /\ r = 0) \/ (b <> a /\ b ∈ ml_lru l)) ->
  cache_ok (with_heap (with_lru l lru) (<[a := set_refs m r]> (ml_heap l))).
Proof.
  intros [Hcol Hn Hgf Hfits (ms & Hso & Hval) Hcached Hrefs Hroom [Hnd Hlru]] Ha Hr Hnd' Hin.
  assert (Hmask : forall b, mx_mask <$> <[a := set_refs m r]> (ml_heap l) !! b = mx_mask <$> ml_heap l !! b).
  { intros b. destruct (decide (b = a)) as [->|Hne].
    - by rewrite lookup_insert_eq, Ha.
    - by rewrite lookup_insert_ne. }
  split; cbn [ml_columns ml_code ml_heap ml_lru with_heap with_lru]; try done.
  - exists ms. split; [|done]. destruct Hso as [? ? ? Hms ?]. split; try done.
    eapply masks_frame; [|exact Hms]. intros b _. apply Hmask.
  - intros b m' Hb Hm'. destruct (decide (b = a)) as [->|Hne].
    + rewrite lookup_insert_eq in Hb. injection Hb as <-.
      destruct (Hcached a m Ha Hm') as [Hobj Hdec]. split; [done|]. by eapply matrix_ok_ext, Hdec.
    + rewrite lookup_insert_ne in Hb by done. by apply Hcached.
  - intros b m' Hb. rewrite Hin. destruct (decide (b = a)) as [->|Hne].
    + rewrite lookup_insert_eq in Hb. injection Hb as <-. cbn [mx_refs set_refs]. split; [done|]. naive_solver.
    + rewrite lookup_insert_ne in Hb by done. destruct (Hrefs b m' Hb). naive_solver.
  - intros b m' Hb. destruct (decide (b = a)) as [->|Hne].
    + rewrite lookup_insert_eq in Hb. injection Hb as <-. exact (Hroom a m Ha).
    + rewrite lookup_insert_ne in Hb by done. by apply (Hroom b).
  - split; [done|]. intros b Hb. destruct (decide (b = a)) as [->|Hne].
    + by rewrite lookup_insert_eq.
    + rewrite lookup_insert_ne by done. apply Hlru. apply Hin in Hb. naive_solver.
Qed.

Lemma sorted_NoDup ms : StronglySorted Z.lt ms -> NoDup ms.
Proof.
  induction 1 as [|x l Hs IH HF]; constructor; [|done].
  intros Hx. rewrite Forall_forall in HF. specialize (HF x Hx). lia.
Qed.

(** The masks are determined. *)
Lemma sorted_unique l ms ms' : sorted_objs l ms -> sorted_objs l ms' -> ms = ms'.
Proof.
  intros [_ _ _ H _] [_ _ _ H' _]. revert ms' H'.
  induction H as [|a x os ms Hx H IH]; intros ms' H'; inversion H' as [|? y ? ms'' Hy H'']; subst; [done|].
  f_equal; [congruence|]. by apply IH.
Qed.

(** A matrix that is in no list can be forgotten. *)
Lemma forget_ok l a lru c os ms :
  cache_ok l -> a ∈ ml_lru l -> lru = list_del a (ml_lru l) ->
  let l1 := with_objects (with_count (with_lru l lru) c) os in
  sorted_objs l1 ms -> Forall valid_mask ms -> a ∉ objs l1 ->
  (forall b, b <> a -> b ∈ objs l -> b ∈ objs l1) ->
  cache_ok (with_heap l1 (delete a (ml_heap l))) /\ sorted_objs (with_heap l1 (delete a (ml_heap l))) ms.
Proof.
  intros [Hcol Hn Hgf Hfits _ Hcached Hrefs Hroom [Hnd Hlru]] Ha -> l1 Hso Hval Hno Hsub.
  assert (Hdel : forall b m', delete a (ml_heap l) !! b = Some m' -> b <> a /\ ml_heap l !! b = Some m').
  { intros b m'. rewrite lookup_delete_Some. naive_solver. }
  assert (Hso' : sorted_objs (with_heap l1 (delete a (ml_heap l))) ms).
  { destruct Hso as [? ? ? Hms ?]. split; try done. eapply masks_frame; [|exact Hms].
    intros b Hb. cbn [ml_heap with_heap]. rewrite lookup_delete_ne by (intros ->; done). done. }
  split; [|done]. unfold l1 in *.
  split; cbn [ml_columns ml_code ml_heap ml_lru with_heap with_lru with_count with_objects]; try done.
  - by exists ms.
  - intros b m' [Hne Hb]%Hdel Hm'. destruct (Hcached b m' Hb Hm') as [Hobj Hdec].
    split; [by apply Hsub|done].
  - intros b m' [Hne Hb]%Hdel. destruct (Hrefs b m' Hb) as [? Hiff]. split; [done|].
    rewrite list_del_elem. naive_solver.
  - intros b m' [Hne Hb]%Hdel. by apply (Hroom b).
  - split; [by apply list_del_NoDup|]. intros b [Hb Hne]%list_del_elem.
    rewrite lookup_delete_ne by done. by apply Hlru.
Qed.

Lemma elem_take_drop_S {A} (l : list A) p x y : l !! p = Some x -> NoDup l ->
  y ∈ take p l ++ drop (S p) l <-> y ∈ l /\ y <> x.
Proof.
  intros Hp Hnd. pose proof (take_drop_middle l p x Hp) as E. rewrite <- E in Hnd.
  apply NoDup_app in Hnd as (_ & Hdis & [Hx _]%list.NoDup_cons).
  rewrite <- E at 3. rewrite !elem_of_app, elem_of_cons. split.
  - intros [Hy|Hy]; (split; [tauto|]); intros ->; [|done]. apply (Hdis x Hy). set_solver.
  - naive_solver.
Qed.

(** An unused matrix taken out of the cache. *)
Lemma evict_ok l ms a m :
  cache_ok l -> sorted_objs l ms -> a ∈ ml_lru l -> ml_heap l !! a = Some m ->
  exists c os ms', let l1 := with_objects (with_count (with_lru l (list_del a (ml_lru l))) c) os in
    ec_method_matrix_remove (with_lru l (list_del a (ml_lru l))) (mx_mask m) = Some l1 /\
    cache_ok (with_heap l1 (delete a (ml_heap l))) /\
    sorted_objs (with_heap l1 (delete a (ml_heap l))) ms' /\ (forall x, x ∈ ms' -> x ∈ ms).
Proof.
  intros Hok Hso Ha Hm. destruct (co_objs l Hok) as (ms0 & Hso0 & Hval).
  rewrite (sorted_unique l ms0 ms Hso0 Hso) in Hval. clear ms0 Hso0.
  set (l0 := with_lru l (list_del a (ml_lru l))).
  assert (Hso0 : sorted_objs l0 ms) by (destruct Hso; by split).
  destruct (remove_ok l0 ms (mx_mask m) Hso0) as [[Hno E]|(p & os & Hp & E & Hso1 & Hobj)].
  - exists (ml_count l), (ml_objects l), ms. cbv zeta. split; [rewrite E; by destruct l|].
    assert (Hnin : a ∉ objs l).
    { intros Hin. destruct (objs_in_heap l ms a Hso Hin) as (m' & Hm' & Hin').
      rewrite Hm in Hm'. injection Hm' as <-. done. }
    destruct (forget_ok l a (list_del a (ml_lru l)) (ml_count l) (ml_objects l) ms) as [H1 H2]; auto.
  - exists (ml_count l - 1), os, (take p ms ++ drop (S p) ms). cbv zeta. split; [exact E|].
    pose proof (objs_NoDup l ms Hso) as Hnd.
    assert (Hpa : objs l !! p = Some a).
    { assert (Hmk : mx_mask m <> 0).
      { rewrite Forall_forall in Hval. apply list_elem_of_lookup_2 in Hp. by apply (Hval _ Hp). }
      destruct (co_cached l Hok a m Hm Hmk) as [Hin _]. apply list_elem_of_lookup in Hin as [j Hj].
      destruct (Forall2_lookup_l _ _ _ _ _ (so_masks l ms Hso) Hj) as (mk & Hmk' & Eh).
      rewrite Hm in Eh. injection Eh as Eh.
      assert (j = p) as <-; [|done].
      apply (NoDup_lookup ms j p (mx_mask m)); [by eapply sorted_NoDup, so_sorted|congruence|done]. }
    change (objs l0) with (objs l) in Hobj.
    destruct (forget_ok l a (list_del a (ml_lru l)) (ml_count l - 1) os (take p ms ++ drop (S p) ms)) as [H1 H2];
      try done.
    + apply Forall_app. split; [by apply Forall_take|by apply Forall_drop].
    + change (with_objects (with_count (with_lru l (list_del a (ml_lru l))) (ml_count l - 1)) os)
        with (with_objects (with_count l0 (ml_count l0 - 1)) os).
      rewrite Hobj, elem_take_drop_S by done. tauto.
    + intros b Hb Hin.
      change (with_objects (with_count (with_lru l (list_del a (ml_lru l))) (ml_count l - 1)) os)
        with (with_objects (with_count l0 (ml_count l0 - 1)) os).
      rewrite Hobj, elem_take_drop_S by done. done.
    + split; [done|]. split; [done|]. intros x Hx. apply elem_of_app in Hx as [Hx|Hx].
      * apply list_elem_of_lookup in Hx as [i Hi]. apply lookup_take_Some in Hi as [Hi _].
        by eapply list_elem_of_lookup_2.
      * apply list_elem_of_lookup in Hx as [i Hi]. rewrite lookup_drop in Hi. by eapply list_elem_of_lookup_2.
Qed.

(** ** Getting a matrix *)

(** A new matrix with one reference, in the array or as an extra one. *)
Lemma add_ok l a m ms :
  cache_ok l -> ml_heap l !! a = None -> sorted_objs l ms -> mx_refs m = 1 ->
  (n * n <= length (mx_values m))%nat -> (n <= length (mx_row_data m))%nat -> 0 <= mx_rows m <= Z.of_nat n ->
  forall c os ms', let l1 := with_heap (with_count (with_objects l os) c) (<[a := m]> (ml_heap l)) in
  sorted_objs l1 ms' -> Forall valid_mask ms' ->
  (forall b, b ∈ objs l -> b ∈ objs l1) ->
  (mx_mask m <> 0 -> a ∈ objs l1 /\ decodes (rows_of (mx_mask m)) m) ->
  cache_ok l1.
Proof.
  intros Hok Ha Hso Hr1 Hv Hrd Hrows c os ms' l1 Hso' Hval Hsub Hm.
  destruct Hok as [Hcol Hn Hgf Hfits _ Hcached Hrefs Hroom [Hnd Hlru]].
  assert (Hna : a ∉ ml_lru l) by (intros Hin; destruct (Hlru a Hin); congruence).
  unfold l1 in *.
  split; cbn [ml_columns ml_code ml_heap ml_lru with_heap with_count with_objects]; try done.
  - by exists ms'.
  - intros b m' Hb Hm'. destruct (decide (b = a)) as [->|Hne].
    + rewrite lookup_insert_eq in Hb. injection Hb as <-. by apply Hm.
    + rewrite lookup_insert_ne in Hb by done. destruct (Hcached b m' Hb Hm'). auto.
  - intros b m' Hb. destruct (decide (b = a)) as [->|Hne].
    + rewrite lookup_insert_eq in Hb. injection Hb as <-. rewrite Hr1. split; [lia|]. split; [lia|done].
    + rewrite lookup_insert_ne in Hb by done. by apply Hrefs.
  - intros b m' Hb. destruct (decide (b = a)) as [->|Hne].
    + rewrite lookup_insert_eq in Hb. by injection Hb as <-.
    + rewrite lookup_insert_ne in Hb by done. by apply (Hroom b).
  - split; [done|]. intros b Hb. destruct (decide (b = a)) as [->|Hne]; [done|].
    rewrite lookup_insert_ne by done. by apply Hlru.
Qed.

Lemma code_ok l code : cache_ok l -> code_le (ml_code l) code -> cache_ok (with_code l code).
Proof.
  intros [Hcol Hn Hgf Hfits (ms & [? ? ? ? ?] & Hval) Hcached Hrefs Hroom Hlru] Hle.
  split; cbn [ml_columns ml_code ml_heap ml_lru with_code]; try done.
  - destruct Hle as [-> _]. done.
  - intros rows Hrows. by eapply code_le_fits, Hfits.
  - exists ms. split; [by split|done].
Qed.

Lemma finish_ok env a0 l a m mask ms :
  cache_ok l -> ml_heap l !! a = None -> sorted_objs l ms -> mask ∉ ms -> valid_mask mask ->
  length a0 = n -> (n * n <= length (mx_values m))%nat -> (n <= length (mx_row_data m))%nat ->
  exists l' m', get_finish env a0 l a m mask (rows_of mask) = Some (l', inr a) /\ cache_ok l' /\
    ml_heap l' = <[a := m']> (ml_heap l) /\ mx_refs m' = 1 /\ decodes (rows_of mask) m' /\
    ml_encode l' = ml_encode l /\ ml_rows l' = ml_rows l /\ ml_stripe l' = ml_stripe l /\ ml_max l' = ml_max l.
Proof.
  intros Hok Ha Hso Hnin Hvm Ha0 Hv Hrd. destruct Hvm as [Hm0 (Hin8 & Hndr & Hlr)].
  pose proof (co_columns l Hok) as Hcol. destruct (co_n l Hok) as [Hn2 Hn27].
  destruct (init_inverse_ok env a0 l m mask (rows_of mask)) as (code & m1 & E & Hle & Hdec & Href & Hmk & Hlv & Hlrd);
    rewrite ?Hlr; try done; try lia; [apply (co_gf l Hok)|by apply (co_fits l Hok)|].
  unfold get_finish. rewrite E, some_bind. rewrite Hlr in Hdec.
  pose proof (code_ok l code Hok Hle) as Hok1. set (l1 := with_code l code) in *.
  assert (Hso1 : sorted_objs l1 ms) by (destruct Hso; by split).
  assert (Hrows1 : mx_rows m1 = Z.of_nat n).
  { rewrite (mok_rows _ _ _ _ Hdec), length_drows, Hlr. done. }
  assert (Hframe : forall x, sorted_objs (with_heap l1 (<[a := x]> (ml_heap l1))) ms).
  { intros x. destruct Hso1 as [? ? ? Hms ?]. split; try done. eapply masks_frame; [|exact Hms].
    intros b Hb. cbn [ml_heap with_heap]. rewrite lookup_insert_ne; [done|]. intros <-.
    destruct (objs_in_heap l ms a Hso Hb) as (? & ? & _). congruence. }
  destruct (co_objs l Hok) as (ms0 & Hso0 & Hval). rewrite (sorted_unique l ms0 ms Hso0 Hso) in Hval.
  destruct (Z.ltb_spec (ml_count l1) (ml_max l1)) as [Hlt|Hge].
  - destruct (insert_ok (with_heap l1 (<[a := m1]> (ml_heap l1))) ms a m1) as (p & os & Hp & Hsp & E2 & Hso2 & Hobj);
      [apply Hframe|cbn; apply lookup_insert_eq|by rewrite Hmk|done|].
    rewrite E2, some_bind. do 2 eexists. split; [done|].
    assert (Hsub : forall b, b ∈ objs l1 \/ b = a <->
      b ∈ objs (with_count (with_objects (with_heap l1 (<[a:=m1]> (ml_heap l1))) os)
             (ml_count (with_heap l1 (<[a:=m1]> (ml_heap l1))) + 1))).
    { intros b. rewrite Hobj, elem_of_app, elem_of_cons.
      change (objs (with_heap l1 (<[a:=m1]> (ml_heap l1)))) with (objs l1).
      rewrite <- (take_drop (Z.to_nat p) (objs l1)) at 1. rewrite elem_of_app. tauto. }
    split; [|by auto].
    apply (add_ok l1 a m1 ms Hok1 Ha Hso1 Href) with (c := ml_count l1 + 1) (os := os)
        (ms' := take (Z.to_nat p) ms ++ mx_mask m1 :: drop (Z.to_nat p) ms); try lia.
    + exact Hso2.
    + apply Forall_app. split; [by apply Forall_take|]. constructor; [|by apply Forall_drop]. by rewrite Hmk.
    + intros b Hb. apply Hsub. by left.
    + intros _. split; [apply Hsub; by right|]. by rewrite Hmk.
  - do 2 eexists. split; [done|]. split.
    + apply (add_ok l1 a (set_mask m1 0) ms Hok1 Ha Hso1 Href) with (c := ml_count l1) (os := ml_objects l1) (ms' := ms);
        cbn [mx_values mx_row_data mx_rows set_mask]; try lia.
      * apply Hframe.
      * done.
      * done.
      * intros H. done.
    + split; [done|]. split; [done|]. split; [|by auto]. by eapply matrix_ok_ext, Hdec.
Qed.

Lemma release_ok m : 0 <= mx_rows m <= Z.of_nat (length (mx_row_data m)) ->
  exists m', ec_method_matrix_release m = Some m' /\ mx_values m' = mx_values m /\
    length (mx_row_data m') = length (mx_row_data m).
Proof.
  intros Hr. unfold ec_method_matrix_release.
  loop_inv (fun (_ : Z) (d : list ec_matrix_row_t) => length d = length (mx_row_data m)) L.
  destruct L as (d & -> & Hd).
  - done.
  - intros j s Hj Hs. destruct (rd_Some s j) as (r & -> & _); [lia|]. rewrite some_bind.
    rewrite wr_Some by lia. eexists. split; [done|]. by rewrite length_insert.
  - rewrite some_bind. eexists. done.
Qed.

Definition same_setup (l l' : ec_matrix_list_t) : Prop :=
  ml_encode l' = ml_encode l /\ ml_rows l' = ml_rows l /\ ml_stripe l' = ml_stripe l /\ ml_max l' = ml_max l.

Lemma keeps_insert l l' a m' b :
  ml_heap l' = <[a := m']> (ml_heap l) ->
  (forall m, ml_heap l !! a = Some m -> 0 < mx_refs m ->
     mx_refs m <= mx_refs m' /\ mx_values m' = mx_values m /\ mx_row_data m' = mx_row_data m /\
     mx_rows m' = mx_rows m /\ mx_columns m' = mx_columns m) ->
  keeps l l' b.
Proof.
  intros Hh Ha m Hb Hr. rewrite Hh. destruct (decide (b = a)) as [->|Hne].
  - exists m'. rewrite lookup_insert_eq. split; [done|]. by apply Ha.
  - exists m. rewrite lookup_insert_ne by done. auto 10 with lia.
Qed.

(** The end of a request does not look at the old matrix at the address. *)
Lemma get_finish_delete env a0 l a m mask rows :
  get_finish env a0 l a m mask rows
  = get_finish env a0 (with_heap l (delete a (ml_heap l))) a m mask rows.
Proof.
  unfold get_finish, ec_method_matrix_init.
  cbn [ml_code ml_columns ml_rows ml_heap with_heap].
  destruct (ec_method_matrix_inverse _ _ _ _ _) as [v|]; [|done]. rewrite !some_bind.
  destruct (for_up _ _ _ _) as [[[code v'] d]|]; [|done]. rewrite !some_bind.
  cbn [ml_count ml_max ml_heap with_heap with_code].
  destruct (ml_count l <? ml_max l).
  - unfold with_heap, with_code. cbn. by rewrite insert_delete_eq.
  - unfold with_heap, with_code. cbn. by rewrite insert_delete_eq.
Qed.

(** The result of a request: an error only if memory is exhausted, or a matrix
    in use that decodes from the fragments of the mask. *)
Definition got (l l' : ec_matrix_list_t) (mem : option addr) (mask : Z) (r : Z + addr) : Prop :=
  match r with
  | inl e => e = ENOMEM /\ mem = None /\ l' = l
  | inr a => exists m, ml_heap l' !! a = Some m /\ 0 < mx_refs m /\ decodes (rows_of mask) m
  end.

Lemma splits_notin ms mask p : splits ms mask p -> mask ∉ ms.
Proof.
  intros (_ & Hlo & Hhi). rewrite <- (take_drop (Z.to_nat p) ms), elem_of_app.
  rewrite Forall_forall in Hlo, Hhi.
  intros [H|H]; [specialize (Hlo _ H)|specialize (Hhi _ H)]; cbn in *; lia.
Qed.
Section Get.
Context (l : ec_matrix_list_t) (mask : Z) (Hok : cache_ok l) (Hvm : valid_mask mask).

(** What a request promises. *)
Definition get_post (mem : option addr) (res : option (ec_matrix_list_t * (Z + addr))) : Prop :=
  exists l' r, res = Some (l', r) /\
    cache_ok l' /\ (forall b, keeps l l' b) /\ same_setup l l' /\ got l l' mem mask r.

(** A cached matrix gets a reference. *)
Lemma get_found mem a m :
  ml_heap l !! a = Some m -> mx_mask m = mask -> mx_refs m < 2 ^ 32 - 1 ->
  get_post mem (Some (with_heap (with_lru l (list_del a (ml_lru l)))
                  (<[a := set_refs m (u32 (mx_refs m + 1))]> (ml_heap l)), inr a)).
Proof.
  intros Hh Hmask Hrefs. destruct (co_refs l Hok a m Hh) as [Hrange _]. rewrite u32_small by lia.
  do 2 eexists. split; [done|]. split; [|split; [|split; [by split|]]].
  - apply (set_refs_ok l a m (mx_refs m + 1) (list_del a (ml_lru l))); try done;
      [lia|apply list_del_NoDup, (co_lru l Hok)|].
    intros b. rewrite list_del_elem. split; [naive_solver|]. intros [[_ H]|H]; [lia|naive_solver].
  - intros b. eapply keeps_insert; [done|]. intros m' Hm'. rewrite Hh in Hm'. injection Hm' as <-.
    intros _. cbn. auto with lia.
  - exists (set_refs m (mx_refs m + 1)). cbn [ml_heap with_heap with_lru].
    rewrite lookup_insert_eq. split; [done|]. split; [cbn; lia|].
    destruct (co_cached l Hok a m Hh) as [_ Hdec]; [rewrite Hmask; apply Hvm|].
    rewrite Hmask in Hdec. by eapply matrix_ok_ext, Hdec.
Qed.

Context (ms : list Z) (Hso : sorted_objs l ms) (env : nat -> build_env) (a0 : list Z) (Ha0 : length a0 = n).

(** A new matrix, if there is memory. *)
Lemma get_alloc mem :
  mask ∉ ms -> (forall a, mem = Some a -> ml_heap l !! a = None) ->
  get_post mem
    match mem with
    | None => Some (l, inl ENOMEM)
    | Some a => get_finish env a0 l a (pool_matrix (ml_columns l)) mask (rows_of mask)
    end.
Proof.
  intros Hnin Hmem. destruct mem as [a|].
  - destruct (finish_ok env a0 l a (pool_matrix (ml_columns l)) mask ms)
      as (l' & m' & E' & Hok' & Hh' & Hr' & Hd' & Hset);
      try done; [by apply Hmem|cbn; rewrite (co_columns l Hok), length_replicate; lia..|].
    exists l', (inr a). split; [done|]. split; [done|]. split; [|split; [done|]].
    + intros b. eapply keeps_insert; [done|]. intros m Hm. rewrite Hmem in Hm by done. done.
    + exists m'. rewrite Hh', lookup_insert_eq, Hr'. split; [done|]. split; [lia|done].
  - exists l, (inl ENOMEM). split; [done|]. split; [done|]. split; [|done].
    intros b m Hb Hr0. exists m. auto 10 with lia.
Qed.

(** The first unused matrix, for another mask. *)
Lemma get_recycle mem a m :
  mask ∉ ms -> a ∈ ml_lru l -> ml_heap l !! a = Some m ->
  get_post mem
    (l1 ← ec_method_matrix_remove (with_lru l (list_del a (ml_lru l))) (mx_mask m);
     m1 ← ec_method_matrix_release m;
     get_finish env a0 l1 a m1 mask (rows_of mask)).
Proof.
  intros Hnin Hlru Hm.
  destruct (evict_ok l ms a m Hok Hso Hlru Hm) as (c & os & ms' & E1 & Hok1 & Hso1 & Hsub).
  rewrite E1, some_bind. destruct (co_room l Hok a m Hm) as (Hv & Hrd & Hrows).
  destruct (release_ok m) as (m1 & -> & Hv1 & Hrd1); [lia|]. rewrite some_bind.
  set (l1 := with_objects _ os) in *.
  destruct (finish_ok env a0 (with_heap l1 (delete a (ml_heap l))) a m1 mask ms')
    as (l' & m' & E' & Hok' & Hh' & Hr' & Hd' & Hset); rewrite ?Hv1, ?Hrd1; try done.
  { apply lookup_delete_eq. }
  { intros H. apply Hnin. by apply Hsub. }
  rewrite get_finish_delete. exists l', (inr a). split; [exact E'|]. split; [done|].
  assert (Hh : ml_heap l' = <[a := m']> (ml_heap l)) by (rewrite Hh'; apply insert_delete_eq).
  split; [|split; [done|]].
  - intros b. eapply keeps_insert; [exact Hh|]. intros m0 Hm0 Hpos. rewrite Hm in Hm0. injection Hm0 as <-.
    destruct (co_refs l Hok a m Hm) as [_ Hiff]. apply Hiff in Hlru. lia.
  - exists m'. rewrite Hh, lookup_insert_eq, Hr'. split; [done|]. split; [lia|done].
Qed.

End Get.

Lemma get_ok env a0 mem l mask :
  cache_ok l -> valid_mask mask -> length a0 = n ->
  (forall a, mem = Some a -> ml_heap l !! a = None) ->
  (forall a m, ml_heap l !! a = Some m -> mx_refs m < 2 ^ 32 - 1) ->
  get_post l mask mem (ec_method_matrix_get env a0 mem l mask (rows_of mask)).
Proof.
  intros Hok Hvm Ha0 Hmem Hrefs. destruct (co_objs l Hok) as (ms & Hso & Hval).
  destruct (matrix_lookup_ok l ms mask Hso) as (r & p & E & Hr).
  unfold ec_method_matrix_get. rewrite E, some_bind. destruct r as [a|].
  - destruct Hr as (Hp & Ha & Hm).
    destruct (Forall2_lookup_l _ _ _ _ _ (so_masks l ms Hso) Ha) as (mk & Hmk & Eh).
    destruct (ml_heap l !! a) as [m|] eqn:Hh; [|done]. injection Eh as Eh. rewrite some_bind.
    apply (get_found l mask Hok Hvm mem a m); [done|congruence|by apply (Hrefs a)].
  - apply splits_notin in Hr. pose proof (get_alloc l mask Hok Hvm ms Hso env a0 Ha0 mem Hr Hmem) as Halloc.
    destruct (ml_lru l) as [|a lru] eqn:El; [exact Halloc|].
    destruct (ml_max l <=? ml_count l) eqn:Efull; [|exact Halloc].
    assert (Hlru : a ∈ ml_lru l) by (rewrite El; set_solver).
    destruct (co_lru l Hok) as [_ Hall]. destruct (Hall a Hlru) as [m Hm]. rewrite Hm, some_bind.
    rewrite <- El. by apply (get_recycle l mask Hok Hvm ms Hso env a0 Ha0).
Qed.

(** ** Releasing a matrix *)

Lemma put_ok l a m :
  cache_ok l -> ml_heap l !! a = Some m -> 0 < mx_refs m ->
  exists l', ec_method_matrix_put l a = Some l' /\ cache_ok l' /\ same_setup l l' /\
    ml_heap l' = <[a := set_refs m (mx_refs m - 1)]> (ml_heap l).
Proof.
  intros Hok Ha Hr. destruct (co_objs l Hok) as (ms & Hso & _). pose proof (so_count l ms Hso) as Hc.
  destruct (co_refs l Hok a m Ha) as [Hrange Hiff]. destruct (co_lru l Hok) as [Hnd _].
  assert (Hna : a ∉ ml_lru l) by (intros H; apply Hiff in H; lia).
  unfold ec_method_matrix_put, ec_method_matrix_unref. rewrite Ha, some_bind, u32_small by lia. cbv zeta.
  destruct (Z.eqb_spec (mx_refs m - 1) 0) as [E0|E0].
  - cbn [ml_max ml_count with_lru with_heap ml_lru]. rewrite (proj2 (Z.ltb_ge _ _)) by lia.
    eexists. split; [done|]. split; [|by split].
    apply (set_refs_ok l a m (mx_refs m - 1) (ml_lru l ++ [a])); try done; [lia| |].
    + apply NoDup_app. split; [done|]. split; [set_solver|apply NoDup_singleton].
    + intros b. rewrite elem_of_app, list_elem_of_singleton. split; [|naive_solver].
      intros [Hb|Hb]; [right|left]; [|naive_solver]. split; [by intros ->|done].
  - eexists. split; [done|]. split; [|by split].
    apply (set_refs_ok l a m (mx_refs m - 1) (ml_lru l)); try done; [lia|].
    intros b. split; [|naive_solver lia]. intros Hb. right. split; [by intros ->|done].
Qed.
End Cache.

(** ** Users of the cache *)

(** One request or release, under the lock of the list.  A request gives the
    rows of its mask; memory of the pool is fresh; no matrix has as many
    references as its counter can count. *)
Inductive cache_step (n : nat) (rows_of : Z -> list Z) : ec_matrix_list_t -> ec_matrix_list_t -> Prop :=
  | step_get env a0 mem l mask l' r :
      valid_mask n rows_of mask -> length a0 = n ->
      (forall a, mem = Some a -> ml_heap l !! a = None) ->
      (forall a m, ml_heap l !! a = Some m -> mx_refs m < 2 ^ 32 - 1) ->
      ec_method_matrix_get env a0 mem l mask (rows_of mask) = Some (l', r) ->
      cache_step n rows_of l l'
  | step_put l a m l' :
      ml_heap l !! a = Some m -> 0 < mx_refs m ->
      ec_method_matrix_put l a = Some l' ->
      cache_step n rows_of l l'.

Lemma cache_step_ok n rows_of l l' : cache_ok n rows_of l -> cache_step n rows_of l l' -> cache_ok n rows_of l'.
Proof.
  intros Hok Hs. destruct Hs as [env a0 mem l mask l' r Hvm Ha0 Hmem Hrefs E|l a m l' Ha Hr E].
  - destruct (get_ok n rows_of env a0 mem l mask Hok Hvm Ha0 Hmem Hrefs) as (l1 & r1 & E1 & Hok1 & _). congruence.
  - destruct (put_ok n rows_of l a m Hok Ha Hr) as (l1 & E1 & Hok1 & _). congruence.
Qed.

Lemma cache_steps_ok n rows_of l l' :
  cache_ok n rows_of l -> rtc (cache_step n rows_of) l l' -> cache_ok n rows_of l'.
Proof. intros Hok Hs. induction Hs; [done|]. eauto using cache_step_ok. Qed.

(** A step leaves the contents of a matrix in use as they are. *)
Lemma cache_step_keeps n rows_of l l' b m :
  cache_ok n rows_of l -> cache_step n rows_of l l' -> ml_heap l !! b = Some m -> 0 < mx_refs m ->
  exists m', ml_heap l' !! b = Some m' /\ mx_values m' = mx_values m /\ mx_row_data m' = mx_row_data m /\
    mx_rows m' = mx_rows m /\ mx_columns m' = mx_columns m.
Proof.
  intros Hok Hs Hb Hr. destruct Hs as [env a0 mem l mask l' r Hvm Ha0 Hmem Hrefs E|l a m0 l' Ha Hr0 E].
  - destruct (get_ok n rows_of env a0 mem l mask Hok Hvm Ha0 Hmem Hrefs) as (l1 & r1 & E1 & _ & Hk & _).
    rewrite E in E1. injection E1 as <- <-. destruct (Hk b m Hb Hr) as (m' & Hm' & _ & H). eauto.
  - destruct (put_ok n rows_of l a m0 Hok Ha Hr0) as (l1 & E1 & _ & _ & Hh).
    rewrite E in E1. injection E1 as <-. rewrite Hh. destruct (decide (b = a)) as [->|Hne].
    + rewrite lookup_insert_eq. rewrite Ha in Hb. injection Hb as <-. eexists. done.
    + rewrite lookup_insert_ne by done. eexists. done.
Qed.
