(* ===== verification/EcRoundTrip.v ===== *)
(** * Encoding and decoding are inverse (ec-method.c)

    The fragments that [ec_method_encode] writes hold, chunk by chunk, the
    values at the row numbers of the polynomial whose coefficients are the
    chunks of a stripe; decoding from any set of as many fragments as a
    stripe has chunks gives back the data. *)
From stdpp Require Import gmap.
From S2P Require Import Prelude Poly GF256 EcGf8 EcCodeC EcBodies EcMuladd EcGalois EcMatrix EcInverse EcCombine EcProgram EcDynamic EcGenerated EcBuild EcMethod EcCoding EcCache.

(** ** A buffer filled chunk by chunk *)

Record filled (good : nat -> chunk -> Prop) (len q : nat) (s : list chunk * Z) : Prop := {
  filled_pos : s.2 = EC_METHOD_CHUNK_SIZE * Z.of_nat q;
  filled_ok : Forall chunk_ok s.1;
  filled_length : length s.1 = len;
  filled_good : forall k, (k < q)%nat -> exists c, s.1 !! k = Some c /\ good k c }.

Lemma rdc_chunk buf k : rdc buf (EC_METHOD_CHUNK_SIZE * Z.of_nat k) = buf !! k.
Proof.
  unfold rdc. rewrite (Z.mul_comm EC_METHOD_CHUNK_SIZE), Z_mod_mult, Z.eqb_refl.
  rewrite Z_div_mult by (unfold EC_METHOD_CHUNK_SIZE; lia). apply rd_lookup.
Qed.

Lemma wrc_chunk buf k c : (k < length buf)%nat ->
  wrc buf (EC_METHOD_CHUNK_SIZE * Z.of_nat k) c = Some (<[k := c]> buf).
Proof.
  intros Hk. unfold wrc. rewrite (Z.mul_comm EC_METHOD_CHUNK_SIZE), Z_mod_mult, Z.eqb_refl.
  rewrite Z_div_mult by (unfold EC_METHOD_CHUNK_SIZE; lia). rewrite wr_Some by lia. by rewrite Nat2Z.id.
Qed.

Lemma filled_step good len q buf p :
  filled good len q (buf, p) -> (q < len)%nat ->
  exists dst, rdc buf p = Some dst /\ chunk_ok dst /\
    forall r, chunk_ok r -> good q r ->
      exists buf', wrc buf p r = Some buf' /\ filled good len (S q) (buf', p + EC_METHOD_CHUNK_SIZE).
Proof.
  intros [Hp Hok Hl Hg] Hq. cbn [fst snd] in *. subst p.
  destruct (lookup_lt_is_Some_2 buf q) as [dst Hd]; [lia|]. exists dst. rewrite rdc_chunk.
  split; [done|]. split; [by apply (Forall_lookup_1 _ _ _ _ Hok Hd)|]. intros r Hr Hgood.
  exists (<[q := r]> buf). rewrite wrc_chunk by lia. split; [done|]. split; cbn [fst snd].
  - lia.
  - by apply Forall_insert.
  - by rewrite length_insert.
  - intros k Hk. destruct (decide (k = q)) as [->|Hne].
    + exists r. split; [|done]. apply list_lookup_insert_eq. lia.
    + rewrite list_lookup_insert_ne by done. apply Hg. lia.
Qed.

Lemma filled_ext good good' len q s :
  (forall k c, (k < q)%nat -> good k c -> good' k c) -> filled good len q s -> filled good' len q s.
Proof.
  intros H [Hp Hok Hl Hg]. split; [done..|]. intros k Hk. destruct (Hg k Hk) as (c & Hc & Hgc).
  exists c. auto.
Qed.

(** Fragment [i] of the data: at every stripe, the combination of row [i]. *)
Definition stripe (n : nat) (D : list chunk) (k : nat) : list chunk := take n (drop (k * n) D).

Definition frag_good (n : nat) (D : list chunk) (coef : list Z) (k : nat) (c : chunk) : Prop :=
  combines coef (stripe n D k) c.

Lemma stripe_lookup n D k j : (j < n)%nat -> stripe n D k !! j = D !! (k * n + j)%nat.
Proof. intros Hj. unfold stripe. rewrite lookup_take_lt, lookup_drop by done. done. Qed.

Lemma length_stripe n D k K : length D = (K * n)%nat -> (k < K)%nat -> length (stripe n D k) = n.
Proof. intros Hl Hk. unfold stripe. rewrite length_take, length_drop, Hl. nia. Qed.

Lemma stripe_reads n D k : Forall chunk_ok D ->
  reads_from D (EC_METHOD_CHUNK_SIZE * Z.of_nat (k * n)) (stripe n D k).
Proof.
  intros HD j s Hj. apply lookup_lt_Some in Hj as Hlt.
  assert (j < n)%nat by (unfold stripe in Hlt; rewrite length_take in Hlt; lia).
  rewrite stripe_lookup in Hj by done. split; [|by apply (Forall_lookup_1 _ _ _ _ HD Hj)].
  rewrite <- Z.mul_add_distr_l, <- Nat2Z.inj_add, rdc_chunk. done.
Qed.

(** ** Encoding *)

Section Encode.
Context (regs : list Z) (Hregs : regs_ok regs) (n : nat) (coefs : list (list Z)) (m : ec_matrix_t).
Context (Hm : matrix_ok true n coefs m) (D : list chunk) (K : nat).
Context (HD : Forall chunk_ok D) (HlD : length D = (K * n)%nat).

Definition outs_ok (lens : list nat) (q : nat -> nat) (outs : outs_t) : Prop :=
  length outs = length coefs /\
  forall i coef len s, coefs !! i = Some coef -> lens !! i = Some len -> outs !! i = Some s ->
    filled (frag_good n D coef) len (q i) s.

Lemma encode_row_step lens outs i k :
  length lens = length coefs -> Forall (fun len => K <= len)%nat lens ->
  (i < length coefs)%nat -> (k < K)%nat ->
  outs_ok lens (fun j => if decide (j < i)%nat then S k else k) outs ->
  exists outs', encode_row regs m (Z.of_nat n) D (EC_METHOD_CHUNK_SIZE * Z.of_nat (k * n)) (Z.of_nat i) outs
    = Some outs' /\ outs_ok lens (fun j => if decide (j < S i)%nat then S k else k) outs'.
Proof.
  intros Hll HK Hi Hk [Hlo H].
  destruct (lookup_lt_is_Some_2 coefs i Hi) as [coef Hcoef].
  destruct (lookup_lt_is_Some_2 lens i) as [len Hlen]; [lia|].
  destruct (lookup_lt_is_Some_2 outs i) as [[buf p] Ho]; [lia|].
  pose proof (Forall_lookup_1 _ _ _ _ HK Hlen) as HKl. cbn in HKl.
  pose proof (H i coef len _ Hcoef Hlen Ho) as Hfill. rewrite decide_False in Hfill by lia.
  destruct (filled_step _ _ _ _ _ Hfill) as (dst & Ed & Hdst & Hstep); [lia|].
  destruct (mok_row _ _ _ _ Hm i coef Hcoef) as (pre & row & post & f & Ev & Hpre & Hrow & Hlr & Hf).
  pose proof (Forall_lookup_1 _ _ _ _ (mok_coefs _ _ _ _ Hm) Hcoef) as Hlc. cbn in Hlc.
  destruct (Hf regs dst D (stripe n D k) (EC_METHOD_CHUNK_SIZE * Z.of_nat (k * n)) pre post)
    as (r & Er & Hcomb); [done|done|done|by apply stripe_reads|by rewrite (length_stripe _ _ _ K)|].
  destruct (Hstep r (proj1 Hcomb) Hcomb) as (buf' & Ew & Hfill').
  unfold encode_row. rewrite (rd_lookup outs), Ho, some_bind, rd_lookup, Hrow, some_bind.
  cbn [row_func row_values]. rewrite some_bind, Ed, some_bind, Ev.
  rewrite Hpre, Hlc in Er. rewrite Er, some_bind, Ew, some_bind.
  rewrite wr_Some by lia. rewrite Nat2Z.id. eexists. split; [done|]. split; [by rewrite length_insert|].
  intros j coef' len' s Hc' Hl' Hs'. destruct (decide (j = i)) as [->|Hne].
  - rewrite list_lookup_insert_eq in Hs' by lia. injection Hs' as <-. rewrite decide_True by lia. congruence.
  - rewrite list_lookup_insert_ne in Hs' by done. pose proof (H j coef' len' s Hc' Hl' Hs') as Hj.
    destruct (decide (j < i)%nat), (decide (j < S i)%nat); try lia; done.
Qed.

Lemma encode_stripe lens outs k :
  length lens = length coefs -> Forall (fun len => K <= len)%nat lens -> (k < K)%nat ->
  outs_ok lens (fun _ => k) outs ->
  exists outs', for_up (Z.to_nat (mx_rows m)) 0
      (encode_row regs m (Z.of_nat n) D (EC_METHOD_CHUNK_SIZE * Z.of_nat (k * n))) outs = Some outs' /\
    outs_ok lens (fun _ => S k) outs'.
Proof.
  intros Hll HK Hk H. rewrite (mok_rows _ _ _ _ Hm), Nat2Z.id.
  loop_inv (fun i outs => exists j, i = Z.of_nat j /\
    outs_ok lens (fun j' => if decide (j' < j)%nat then S k else k) outs) L.
  destruct L as (outs' & -> & (j & Hj & H')).
  - exists 0%nat. done.
  - intros i s Hi (j & -> & Hs). destruct (encode_row_step lens s j k) as (s' & E & Hs'); try done; [lia|].
    exists s'. split; [done|]. exists (S j). split; [lia|done].
  - exists outs'. split; [done|]. destruct H' as [Hl' H']. split; [done|].
    intros i coef len s Hc Hlen Hs. specialize (H' i coef len s Hc Hlen Hs).
    rewrite decide_True in H'; [done|]. apply lookup_lt_Some in Hc. lia.
Qed.

Lemma encode_loop_ok lens l : forall j k fuel outs,
  ml_columns l = Z.of_nat n -> ml_stripe l = EC_METHOD_CHUNK_SIZE * Z.of_nat n -> (0 < n)%nat ->
  length lens = length coefs -> Forall (fun len => K <= len)%nat lens ->
  (k + j)%nat = K -> (j < fuel)%nat -> EC_METHOD_CHUNK_SIZE * Z.of_nat (K * n) < 2 ^ 64 ->
  outs_ok lens (fun _ => k) outs ->
  exists outs', encode_loop fuel regs l m (EC_METHOD_CHUNK_SIZE * Z.of_nat (K * n)) D
      (EC_METHOD_CHUNK_SIZE * Z.of_nat (k * n)) outs = Some outs' /\ outs_ok lens (fun _ => K) outs'.
Proof.
  unfold EC_METHOD_CHUNK_SIZE.
  induction j as [|j IH]; intros k fuel outs Hcol Hst Hn Hll HK Hkj Hf H64 H.
  - replace K with k in * by lia. exists outs. split; [|done].
    destruct fuel; cbn [encode_loop]; by rewrite Z.ltb_irrefl.
  - destruct fuel as [|fuel]; [lia|]. cbn [encode_loop]. rewrite (proj2 (Z.ltb_lt _ _)) by nia.
    rewrite Hcol. destruct (encode_stripe lens outs k) as (outs1 & E & H1); try done; [lia|].
    unfold EC_METHOD_CHUNK_SIZE in E. rewrite E, some_bind.
    destruct (IH (S k) fuel outs1) as (outs' & E' & H'); try done; try lia.
    exists outs'. split; [|done]. rewrite <- E'. f_equal. unfold u64. rewrite Hst, Z.mod_small by nia. nia.
Qed.
End Encode.

(** ** Decoding *)

Section Decode.
Context (regs : list Z) (Hregs : regs_ok regs) (n : nat) (coefs : list (list Z)) (m : ec_matrix_t).
Context (Hm : matrix_ok false n coefs m) (Hn : length coefs = n) (ins : list (list chunk)) (K : nat).
Context (Hins : length ins = n) (Hbuf : Forall (fun b => Forall chunk_ok b /\ (K <= length b)%nat) ins).

(** The chunks at position [k] of the inputs. *)
Definition slice (k : nat) : list chunk := (fun b => b !!! k) <$> ins.

(** Chunk [q] of the output: row [q mod n] on the chunks at [q / n]. *)
Definition out_good (q : nat) (c : chunk) : Prop :=
  forall coef, coefs !! (q mod n)%nat = Some coef -> combines coef (slice (q / n)) c.

Lemma slice_reads k : (k < K)%nat ->
  Forall2 (reads (EC_METHOD_CHUNK_SIZE * Z.of_nat k)) ins (slice k).
Proof.
  intros Hk. unfold slice. apply Forall2_fmap_r, Forall_Forall2_diag.
  eapply Forall_impl; [exact Hbuf|]. intros b [Hok Hl]. unfold reads. rewrite rdc_chunk.
  rewrite list_lookup_lookup_total_lt by lia. split; [done|].
  apply (Forall_lookup_total_1 chunk_ok); [done|lia].
Qed.

Lemma decode_row_step len k i s :
  (k < K)%nat -> (i < n)%nat -> (K * n <= len)%nat ->
  filled out_good len (k * n + i) s ->
  exists s', decode_row regs m (Z.of_nat n) ins (EC_METHOD_CHUNK_SIZE * Z.of_nat k) (Z.of_nat i) s
    = Some s' /\ filled out_good len (k * n + S i) s'.
Proof.
  intros Hk Hi Hlen Hf. destruct s as [out p].
  destruct (lookup_lt_is_Some_2 coefs i) as [coef Hcoef]; [lia|].
  destruct (filled_step _ _ _ _ _ Hf) as (dst & Ed & Hdst & Hstep); [nia|].
  destruct (mok_row _ _ _ _ Hm i coef Hcoef) as (pre & row & post & f & Ev & Hpre & Hrow & Hlr & Hfun).
  pose proof (Forall_lookup_1 _ _ _ _ (mok_coefs _ _ _ _ Hm) Hcoef) as Hlc. cbn in Hlc.
  destruct (Hfun regs dst ins (slice k) (EC_METHOD_CHUNK_SIZE * Z.of_nat k) pre post)
    as (r & Er & Hcomb); [done|done| |by apply slice_reads|unfold slice; rewrite length_fmap; congruence|].
  { eapply Forall_impl; [exact Hbuf|]. by intros b [? _]. }
  destruct (Hstep r (proj1 Hcomb)) as (out' & Ew & Hf').
  { intros coef' Hc'. replace ((k * n + i) / n)%nat with k.
    - replace ((k * n + i) mod n)%nat with i in Hc'; [congruence|].
      rewrite Nat.add_comm, Nat.Div0.mod_add, Nat.mod_small; lia.
    - rewrite Nat.div_add_l, Nat.div_small by lia. lia. }
  unfold decode_row. rewrite (rd_lookup (mx_row_data m)), Hrow, some_bind. cbn [row_func row_values].
  rewrite some_bind, Ed, some_bind, Ev. rewrite Hpre, Hlc in Er. rewrite Er, some_bind, Ew, some_bind.
  eexists. split; [done|]. replace (k * n + S i)%nat with (S (k * n + i)) by lia. done.
Qed.

Lemma decode_slice len k s :
  (k < K)%nat -> (K * n <= len)%nat -> filled out_good len (k * n) s ->
  exists s', for_up (Z.to_nat (mx_rows m)) 0
      (decode_row regs m (Z.of_nat n) ins (EC_METHOD_CHUNK_SIZE * Z.of_nat k)) s = Some s' /\
    filled out_good len (S k * n) s'.
Proof.
  intros Hk Hlen H. rewrite (mok_rows _ _ _ _ Hm), Nat2Z.id.
  loop_inv (fun i s => exists j, i = Z.of_nat j /\ filled out_good len (k * n + j) s) L.
  destruct L as (s' & -> & (j & Hj & H')).
  - exists 0%nat. by rewrite Nat.add_0_r.
  - intros i s0 Hi (j & -> & Hs). destruct (decode_row_step len k j s0) as (s' & E & Hs'); try done; [lia|].
    exists s'. split; [done|]. exists (S j). split; [lia|done].
  - exists s'. split; [done|]. replace (S k * n)%nat with (k * n + j)%nat by nia. done.
Qed.

Lemma decode_loop_ok len : forall j k fuel s,
  (K * n <= len)%nat -> (k + j)%nat = K -> (j < fuel)%nat -> EC_METHOD_CHUNK_SIZE * Z.of_nat K < 2 ^ 64 ->
  filled out_good len (k * n) s ->
  exists s', decode_loop fuel regs (Z.of_nat n) m (EC_METHOD_CHUNK_SIZE * Z.of_nat K) ins
      (EC_METHOD_CHUNK_SIZE * Z.of_nat k) s = Some s' /\ filled out_good len (K * n) s'.
Proof.
  unfold EC_METHOD_CHUNK_SIZE.
  induction j as [|j IH]; intros k fuel s Hlen Hkj Hf H64 H.
  - replace k with K in * by lia. exists s. split; [|done].
    destruct fuel; cbn [decode_loop]; by rewrite Z.ltb_irrefl.
  - destruct fuel as [|fuel]; [lia|]. cbn [decode_loop]. rewrite (proj2 (Z.ltb_lt _ _)) by lia.
    destruct (decode_slice len k s) as (s1 & E & H1); [lia|done|done|].
    unfold EC_METHOD_CHUNK_SIZE in E. rewrite E, some_bind.
    destruct (IH (S k) fuel s1) as (s' & E' & H'); try done; try lia.
    exists s'. split; [|done]. rewrite <- E'. f_equal. unfold u64, EC_METHOD_CHUNK_SIZE.
    rewrite Z.mod_small by lia. lia.
Qed.

Lemma decode_with_ok out :
  Forall chunk_ok out -> (K * n <= length out)%nat -> EC_METHOD_CHUNK_SIZE * Z.of_nat K < 2 ^ 64 ->
  exists out', decode_with regs (Z.of_nat n) m (EC_METHOD_CHUNK_SIZE * Z.of_nat K) ins out = Some out' /\
    length out' = length out /\ Forall chunk_ok out' /\
    forall q, (q < K * n)%nat -> exists c, out' !! q = Some c /\ out_good q c.
Proof.
  intros Hok Hlen H64. unfold decode_with.
  destruct (decode_loop_ok (length out) K 0 (Z.to_nat (EC_METHOD_CHUNK_SIZE * Z.of_nat K / EC_METHOD_CHUNK_SIZE) + 1)
    (out, 0)) as ([out' p] & E & [_ Hok' Hl' Hg]); try done.
  { rewrite Z.mul_comm, Z_div_mult by (unfold EC_METHOD_CHUNK_SIZE; lia). lia. }
  { split; try done. intros; lia. }
  change (EC_METHOD_CHUNK_SIZE * Z.of_nat 0) with 0 in E. rewrite E, some_bind. eauto.
Qed.
End Decode.

(** ** The round trip *)

(** Data are the chunks whose elements are the coefficients. *)
Definition column_bytes (S : list chunk) (i : nat) (t : Z) : list Z := (fun s => celem s i t) <$> S.

Lemma column_bytes_in8 S i t : Forall in8 (column_bytes S i t).
Proof. apply Forall_fmap, Forall_true. intros. apply in8_celem. Qed.

(** Decoding the values of a stripe at distinct points gives the stripe back. *)
Lemma decode_stripe values S cs t c s :
  Forall in8 values -> NoDup values -> length S = length values -> (0 < length values)%nat ->
  Forall2 (fun v c => combines (pows v (length values - 1)) S c) values cs ->
  (t < length values)%nat -> combines (drow values t) cs c -> S !! t = Some s -> chunk_ok s ->
  c = s.
Proof.
  intros Hv Hnd HlS H0 Hcs Ht [Hc Hdot] Hs Hsok. apply chunk_ext; [done|done|].
  intros i b Hi Hb. rewrite Hdot by done.
  assert (E : (fun c => celem c i b) <$> cs = (fun v => hval v (column_bytes S i b)) <$> values).
  { clear -Hcs Hv HlS H0 Hi. set (N := length values) in *. clearbody N.
    induction Hcs as [|v c values cs [_ Hvc] Hcs IH]; [done|]. apply Forall_cons in Hv as [Hv0 Hv].
    cbn [fmap list_fmap]. f_equal; [|by apply IH]. rewrite Hvc by done.
    apply dot_pows; [done|apply column_bytes_in8|unfold column_bytes; rewrite length_fmap; lia]. }
  rewrite E, drow_decodes; [|done|done|apply column_bytes_in8|unfold column_bytes; by rewrite length_fmap|done].
  unfold column_bytes. rewrite list_lookup_total_alt, list_lookup_fmap, Hs. done.
Qed.

(** ** Setup *)

(** A generator is safe for [n] columns if the operations of every decoding
    row fit in the builder; true of the absence of a generator and of one
    with [xor3]. *)
Definition gen_safe (n : nat) (gen : option ec_code_gen_t) : Prop :=
  forall rows, rows_good n rows -> Forall (fits gen) (drows rows).

Lemma gen_safe_none n : gen_safe n None.
Proof. intros rows _. apply Forall_true. intros. exact I. Qed.

Lemma gen_safe_xor3 n gen : gen_xor3 gen = true -> gen_safe n (Some gen).
Proof.
  intros Hx rows (Hv & Hnd & Hl). apply Forall_fmap, Forall_forall. intros t Ht.
  apply elem_of_seq in Ht. apply fits_xor3; [done|]. apply drow_in8; [done..|lia].
Qed.

(** Allocations that succeed, with arrays of the sizes asked for. *)
Record env_ok (env : init_env) (n R : nat) (max : Z) : Prop := {
  eo_pool : ie_pool env = true;
  eo_objects : exists os, ie_objects env = Some os /\ Z.of_nat (length os) = max;
  eo_gf : is_Some (ie_gf env);
  eo_log : exists t, ie_log env = Some t /\ length t = 511%nat;
  eo_pow : exists t, ie_pow env = Some t /\ length t = 511%nat;
  eo_matrix : exists v d, ie_matrix env = Some (v, d) /\ length v = (n * R)%nat /\ length d = R;
  eo_code : ie_code env = true }.

(** The row numbers of the fragments. *)
Definition all_rows (R : nat) : list Z := (fun i => Z.of_nat i + 1) <$> seq 0 R.

Lemma fill_rows R : Z.of_nat R < 2 ^ 32 ->
  for_up R 0 (fun i v => wr v i (u32 (i + 1))) (replicate R 0) = Some (all_rows R).
Proof.
  intros H.
  pose proof (elem_loop (fun i v => wr v i (u32 (i + 1))) (replicate R 0) (all_rows R) [] []) as E.
  rewrite !app_nil_r, length_replicate in E. cbn [app length] in E. change (Z.of_nat 0) with 0 in E.
  apply E; [unfold all_rows; by rewrite length_fmap, length_seq|].
  intros k x y pre' post' _ Hy Hp. unfold all_rows in Hy. rewrite list_lookup_fmap in Hy.
  destruct (seq 0 R !! k) as [j|] eqn:Ej; [|done]. injection Hy as <-. apply lookup_seq in Ej as [-> Hj].
  rewrite wr_app by done. rewrite Hp, u32_small by lia. done.
Qed.

Lemma all_rows_nz8 R : (R <= 255)%nat -> Forall nz8 (all_rows R).
Proof.
  intros HR. apply Forall_fmap, Forall_forall. intros i Hi. apply elem_of_seq in Hi. unfold compose, nz8. lia.
Qed.

Lemma length_all_rows R : length (all_rows R) = R.
Proof. unfold all_rows. by rewrite length_fmap, length_seq. Qed.

(** The state after a successful initialisation. *)
Record init_ok (n R : nat) (rows_of : Z -> list Z) (l : ec_matrix_list_t) : Prop := {
  io_cache : cache_ok n rows_of l;
  io_stripe : ml_stripe l = EC_METHOD_CHUNK_SIZE * Z.of_nat n;
  io_encode : exists m, ml_encode l = Some m /\ matrix_ok true n ((fun v => pows v (n - 1)) <$> all_rows R) m;
  io_heap : ml_heap l = ∅ }.

Lemma method_init_ok env n R max rows_of :
  env_ok env n R max -> gen_safe n (ie_gen env) ->
  (2 <= n <= 16)%nat -> (R <= 255)%nat -> 0 <= max < 2 ^ 31 ->
  exists l, ec_method_init env (Z.of_nat n) (Z.of_nat R) max = Some (inr l) /\ init_ok n R rows_of l.
Proof.
  intros [Hpool (os & Eos & Hos) [g Hg] (lt & El & Hlt) (pt & Ep & Hpt) (v & d & Hvd & Hv & Hd) Hcode].
  intros Hsafe Hn HR Hmax. unfold ec_method_init. rewrite Hpool, Eos, Hg, El, Ep. unfold EC_GF_BITS, EC_GF_MOD.
  rewrite (prepare_init g lt pt 0x11D Hlt Hpt) by (by right). rewrite some_bind.
  unfold ec_method_setup. rewrite Hvd. unfold ec_code_create. rewrite Hcode.
  cbn [ml_rows with_code]. rewrite Nat2Z.id, fill_rows by lia. rewrite some_bind.
  destruct n as [|k]; [lia|].
  set (l0 := with_code _ _). destruct (init_normal_ok (ie_build env) l0 (mkmatrix 0 0 0 0 v d) 0 (all_rows R) k)
    as (code & m & E & Hle & Hm); try (cbn; rewrite ?length_all_rows; done || lia).
  { apply gf_init_ok. }
  { by apply all_rows_nz8. }
  rewrite E, some_bind. eexists. split; [done|]. split.
  - split; cbn [ml_columns ml_code ml_heap ml_lru with_encode with_code]; try set_solver; try done.
    + split; lia.
    + destruct Hle as [-> _]. apply gf_init_ok.
    + intros rows Hrows. eapply code_le_fits; [exact Hle|]. by apply Hsafe.
    + exists []. split; [|constructor]. split; cbn; try done; try lia. constructor.
    + split; [constructor|set_solver].
  - cbn [ml_stripe with_encode with_code l0]. rewrite u32_small; unfold EC_METHOD_CHUNK_SIZE; lia.
  - exists m. split; [done|]. by replace (S k - 1)%nat with k by lia.
  - done.
Qed.

(** ** Fragments *)

(** [b] holds [K] chunks, the values at [v] of the stripes of [D]. *)
Definition fragment_of (n : nat) (D : list chunk) (K : nat) (v : Z) (b : list chunk) : Prop :=
  Forall chunk_ok b /\ (K <= length b)%nat /\
  forall k, (k < K)%nat -> exists c, b !! k = Some c /\ combines (pows v (n - 1)) (stripe n D k) c.

Definition buffer_ok (K : nat) (b : list chunk) : Prop := Forall chunk_ok b /\ (K <= length b)%nat.

Lemma encode_ok n R rows_of l regs D K bufs :
  init_ok n R rows_of l -> regs_ok regs -> Forall chunk_ok D -> length D = (K * n)%nat ->
  length bufs = R -> Forall (buffer_ok K) bufs -> EC_METHOD_CHUNK_SIZE * Z.of_nat (K * n) < 2 ^ 64 ->
  exists outs, ec_method_encode regs l (EC_METHOD_CHUNK_SIZE * Z.of_nat (K * n)) D ((fun b => (b, 0)) <$> bufs)
    = Some outs /\ length outs = R /\
    forall i s, outs !! i = Some s -> fragment_of n D K (Z.of_nat i + 1) s.1.
Proof.
  intros [Hc Hst (m & Hm & Hmok) _] Hregs HD HlD Hlb Hbufs H64.
  unfold ec_method_encode. rewrite Hm, some_bind. destruct (co_n _ _ _ Hc) as [Hn2 _].
  set (coefs := (fun v => pows v (n - 1)) <$> all_rows R) in *.
  assert (Hlc : length coefs = R) by (unfold coefs; by rewrite length_fmap, length_all_rows).
  destruct (encode_loop_ok regs Hregs n coefs m Hmok D K HD HlD (length <$> bufs) l K 0
    (Z.to_nat (EC_METHOD_CHUNK_SIZE * Z.of_nat (K * n) / EC_METHOD_CHUNK_SIZE) + 1)
    ((fun b => (b, 0)) <$> bufs)) as (outs & E & Hlo & H).
  - apply (co_columns _ _ _ Hc).
  - done.
  - lia.
  - rewrite length_fmap. congruence.
  - apply Forall_fmap. eapply Forall_impl; [exact Hbufs|]. by intros b [_ ?].
  - done.
  - rewrite (Z.mul_comm EC_METHOD_CHUNK_SIZE), Z_div_mult by (unfold EC_METHOD_CHUNK_SIZE; lia). nia.
  - done.
  - split; [rewrite length_fmap; congruence|]. intros i coef len s _ Hl Hs.
    rewrite list_lookup_fmap in Hl. rewrite list_lookup_fmap in Hs. destruct (bufs !! i) as [b|] eqn:Eb; [|done].
    injection Hl as <-. injection Hs as <-. destruct (Forall_lookup_1 _ _ _ _ Hbufs Eb) as [Hok _].
    split; cbn [fst snd]; try done; try lia.
  - exists outs. split; [exact E|]. split; [congruence|]. intros i s Hs.
    apply lookup_lt_Some in Hs as Hi.
    destruct (lookup_lt_is_Some_2 bufs i) as [b Hb]; [congruence|].
    destruct (H i (pows (Z.of_nat i + 1) (n - 1)) (length b) s) as [_ Hok Hlen Hg]; [| |done|].
    + unfold coefs, all_rows. rewrite !list_lookup_fmap, lookup_seq_lt by lia. done.
    + by rewrite list_lookup_fmap, Hb.
    + split; [done|]. split; [|exact Hg]. destruct (Forall_lookup_1 _ _ _ _ Hbufs Hb). lia.
Qed.

Lemma decode_ok n rows_of l regs D K mask env a0 mem ins out :
  cache_ok n rows_of l -> valid_mask n rows_of mask -> regs_ok regs ->
  Forall chunk_ok D -> length D = (K * n)%nat -> EC_METHOD_CHUNK_SIZE * Z.of_nat K < 2 ^ 64 ->
  length a0 = n -> (forall a, mem = Some a -> ml_heap l !! a = None) ->
  (forall a m, ml_heap l !! a = Some m -> mx_refs m < 2 ^ 32 - 1) ->
  Forall2 (fragment_of n D K) (rows_of mask) ins -> buffer_ok (K * n) out ->
  exists l' out' err,
    ec_method_decode env a0 mem regs l (EC_METHOD_CHUNK_SIZE * Z.of_nat K) mask (rows_of mask) ins out
    = Some (l', out', err) /\ cache_ok n rows_of l' /\
    ((err = 0 /\ take (K * n) out' = D) \/ (err = - ENOMEM /\ mem = None /\ out' = out /\ l' = l)).
Proof.
  intros Hok Hvm Hregs HD HlD H64 Ha0 Hmem Hrefs Hfr [Ho Hlo]. unfold ec_method_decode.
  destruct (get_ok n rows_of env a0 mem l mask Hok Hvm Ha0 Hmem Hrefs) as (l1 & r & -> & Hok1 & _ & _ & Hgot).
  rewrite some_bind. destruct r as [e|a].
  { destruct Hgot as (-> & Hm & ->). exists l, out, (- ENOMEM). split; [done|]. split; [done|]. by right. }
  destruct Hgot as (m & Hm & Hr & Hdec). rewrite Hm, some_bind, (co_columns _ _ _ Hok1).
  destruct Hvm as [_ (Hin8 & Hnd & Hl)]. destruct (co_n _ _ _ Hok) as [Hn2 _].
  pose proof (Forall2_length _ _ _ Hfr) as Hlf.
  destruct (decode_with_ok regs Hregs n (drows (rows_of mask)) m Hdec) with (ins := ins) (K := K) (out := out)
    as (out' & -> & Hl' & Hok' & Hg); try done; try congruence.
  { by rewrite length_drows. }
  { eapply Forall2_Forall_r; [exact Hfr|]. apply Forall_true. intros v b (Hb & Hk & _). done. }
  rewrite some_bind.
  destruct (put_ok n rows_of l1 a m Hok1 Hm Hr) as (l2 & -> & Hok2 & _). rewrite some_bind.
  exists l2, out', 0. split; [done|]. split; [done|]. left. split; [done|].
  apply list_eq. intros q. destruct (decide (q < K * n)%nat) as [Hq|Hq].
  2: { rewrite lookup_ge_None_2 by (rewrite length_take; lia). by rewrite lookup_ge_None_2 by lia. }
  rewrite lookup_take_lt by done. destruct (Hg q Hq) as (c & -> & Hgood).
  assert (Hqn : (q / n < K)%nat) by (apply Nat.Div0.div_lt_upper_bound; lia).
  assert (Hqm : (q mod n < n)%nat) by (apply Nat.mod_upper_bound; lia).
  destruct (lookup_lt_is_Some_2 D q) as [s Hs]; [lia|]. rewrite Hs. f_equal.
  assert (Hrow : drows (rows_of mask) !! (q mod n)%nat = Some (drow (rows_of mask) (q mod n))).
  { unfold drows. rewrite list_lookup_fmap, lookup_seq_lt by lia. done. }
  apply (decode_stripe (rows_of mask) (stripe n D (q / n)) (slice ins (q / n)) (q mod n) c s);
    rewrite ?Hl; try done; try lia.
  - by apply (length_stripe n D _ K).
  - unfold slice. apply Forall2_fmap_r. eapply Forall2_impl; [exact Hfr|]. intros v b (Hb & Hk & Hf).
    destruct (Hf (q / n)%nat Hqn) as (x & Hx & Hcomb). cbn.
    by rewrite (list_lookup_total_correct _ _ _ Hx).
  - by apply Hgood.
  - rewrite stripe_lookup by done. rewrite <- Hs. f_equal. rewrite (Nat.div_mod_eq q n) at 3. lia.
  - by apply (Forall_lookup_1 _ _ _ _ HD Hs).
Qed.

(** ** The theorem *)

(** The fragments of the given row numbers. *)
Definition fragments (outs : outs_t) (rows : list Z) : list (list chunk) :=
  (fun v => (outs !!! Z.to_nat (v - 1)).1) <$> rows.

Lemma fragments_ok n D K R outs rows :
  length outs = R -> (forall i s, outs !! i = Some s -> fragment_of n D K (Z.of_nat i + 1) s.1) ->
  Forall (fun v => 1 <= v <= Z.of_nat R) rows -> Forall2 (fragment_of n D K) rows (fragments outs rows).
Proof.
  intros Hl H HF. unfold fragments. apply Forall2_fmap_r, Forall_Forall2_diag.
  eapply Forall_impl; [exact HF|]. intros v Hv. cbn in Hv.
  destruct (lookup_lt_is_Some_2 outs (Z.to_nat (v - 1))) as [s Hs]; [lia|].
  unfold compose. rewrite (list_lookup_total_correct _ _ _ Hs). specialize (H _ _ Hs).
  by replace (Z.of_nat (Z.to_nat (v - 1)) + 1) with v in H by lia.
Qed.

(** C1: erasure coding is correct.  After any successful initialisation with
    [n] data fragments out of [R], encoding [K] stripes succeeds, and at any
    later time, whatever requests and releases of matrices happened meanwhile,
    decoding from any [n] distinct fragments returns 0 and exactly the data,
    or returns -ENOMEM without touching anything when a new matrix was needed
    and memory was exhausted.  The row functions may be generated or
    precompiled, in any mixture. *)
Theorem ec_method_round_trip env n R max rows_of regs D K bufs :
  env_ok env n R max -> gen_safe n (ie_gen env) ->
  (2 <= n <= 16)%nat -> (R <= 255)%nat -> 0 <= max < 2 ^ 31 -> regs_ok regs ->
  Forall chunk_ok D -> length D = (K * n)%nat -> EC_METHOD_CHUNK_SIZE * Z.of_nat (K * n) < 2 ^ 64 ->
  length bufs = R -> Forall (buffer_ok K) bufs ->
  exists l outs,
    ec_method_init env (Z.of_nat n) (Z.of_nat R) max = Some (inr l) /\
    ec_method_encode regs l (EC_METHOD_CHUNK_SIZE * Z.of_nat (K * n)) D ((fun b => (b, 0)) <$> bufs)
      = Some outs /\
    forall l1 mask benv a0 mem regs' out,
      rtc (cache_step n rows_of) l l1 ->
      valid_mask n rows_of mask -> Forall (fun v => 1 <= v <= Z.of_nat R) (rows_of mask) ->
      length a0 = n -> (forall a, mem = Some a -> ml_heap l1 !! a = None) ->
      (forall a m, ml_heap l1 !! a = Some m -> mx_refs m < 2 ^ 32 - 1) ->
      regs_ok regs' -> buffer_ok (K * n) out ->
      exists l2 out' err,
        ec_method_decode benv a0 mem regs' l1 (EC_METHOD_CHUNK_SIZE * Z.of_nat K) mask (rows_of mask)
          (fragments outs (rows_of mask)) out = Some (l2, out', err) /\
        ((err = 0 /\ take (K * n) out' = D) \/ (err = - ENOMEM /\ mem = None /\ out' = out /\ l2 = l1)).
Proof.
  intros Henv Hsafe Hn HR Hmax Hregs HD HlD H64 Hlb Hbufs.
  destruct (method_init_ok env n R max rows_of Henv Hsafe Hn HR Hmax) as (l & El & Hl).
  destruct (encode_ok n R rows_of l regs D K bufs Hl Hregs HD HlD Hlb Hbufs H64) as (outs & Eo & Hlo & Hfr).
  exists l, outs. split; [done|]. split; [done|].
  intros l1 mask benv a0 mem regs' out Hsteps Hvm Hrows Ha0 Hmem Hrefs Hregs' Hout.
  pose proof (cache_steps_ok n rows_of l l1 (io_cache _ _ _ _ Hl) Hsteps) as Hok1.
  destruct (decode_ok n rows_of l1 regs' D K mask benv a0 mem (fragments outs (rows_of mask)) out)
    as (l2 & out' & err & E & _ & Hres); try done.
  - unfold EC_METHOD_CHUNK_SIZE in *. nia.
  - by apply (fragments_ok n D K R).
  - by exists l2, out', err.
Qed.

(** ** A concrete list: two data fragments out of three *)

(** The fragments 1 and 2, 1 and 3, 2 and 3. *)
Definition ex_rows (mask : Z) : list Z :=
  if mask =? 3 then [1; 2] else if mask =? 5 then [1; 3] else [2; 3].

Definition ex_build : nat -> build_env := fun _ => mkenv true (fun _ => 0).

Definition ex_env (max : nat) : init_env :=
  mkienv true (Some (replicate max 0%nat)) (Some gf0) (Some zeros) (Some zeros)
    (Some (replicate 6 0, replicate 3 (mkrow None 0))) true None ex_build.

Lemma ex_env_ok max : env_ok (ex_env max) 2 3 (Z.of_nat max).
Proof.
  split; try done.
  - exists (replicate max 0%nat). split; [done|]. by rewrite length_replicate.
  - by exists zeros.
  - by exists zeros.
  - by exists (replicate 6 0), (replicate 3 (mkrow None 0)).
Qed.

Lemma ex_rows_good mask : rows_good 2 (ex_rows mask).
Proof.
  unfold ex_rows, rows_good. destruct (mask =? 3); [|destruct (mask =? 5)];
    (split; [repeat constructor; unfold in8; lia|]; split; [|done]);
    apply (bool_decide_unpack _); vm_compute; exact I.
Qed.

Lemma ex_valid mask : mask <> 0 -> valid_mask 2 ex_rows mask.
Proof. intros H. split; [done|apply ex_rows_good]. Qed.

Abbreviation ex_init max := (ec_method_init (ex_env max) (Z.of_nat 2) (Z.of_nat 3) (Z.of_nat max)).

Lemma ex_init_ok max : (Z.of_nat max < 2 ^ 31) -> exists l, ex_init max = Some (inr l) /\ init_ok 2 3 ex_rows l.
Proof.
  intros Hm. apply (method_init_ok (ex_env max) 2 3 (Z.of_nat max) ex_rows (ex_env_ok max));
    [apply gen_safe_none|lia..].
Qed.

(** The fragments 1 and 3 of one stripe of two chunks. *)
Lemma ec_method_round_trip_witness :
  exists l outs l2 out' err, let regs := replicate EC_GF_MAX_REGS 9 in
    ec_method_encode regs l (EC_METHOD_CHUNK_SIZE * 2) [zero; chunk7] [([zero], 0); ([zero], 0); ([zero], 0)] = Some outs /\
    ec_method_decode ex_build [0; 0] (Some 7%nat) regs l (EC_METHOD_CHUNK_SIZE * 1) 5 [1; 3] (fragments outs [1; 3])
      [zero; zero] = Some (l2, out', err) /\ take 2 out' = [zero; chunk7].
Proof.
  assert (H2 : Forall chunk_ok [zero; chunk7]) by (constructor; [apply zero_ok|constructor; [apply chunk7_ok|constructor]]).
  assert (H0 : Forall chunk_ok [zero; zero]) by (constructor; [apply zero_ok|constructor; [apply zero_ok|constructor]]).
  assert (H1 : buffer_ok 1 [zero]) by (split; [constructor; [apply zero_ok|constructor]|cbn; lia]).
  destruct (ec_method_round_trip (ex_env 6) 2 3 (Z.of_nat 6) ex_rows (replicate EC_GF_MAX_REGS 9) [zero; chunk7] 1
    [[zero]; [zero]; [zero]] (ex_env_ok 6) (gen_safe_none 2)) as (l & outs & El & Eo & H);
    [lia|lia|lia|apply regs_example|exact H2|reflexivity|unfold EC_METHOD_CHUNK_SIZE; lia|reflexivity|
     repeat (constructor; [exact H1|]); constructor|].
  destruct (ex_init_ok 6) as (l' & El' & Hl); [lia|]. rewrite El in El'. injection El' as <-.
  assert (Hempty : ml_heap l = ∅) by (apply Hl).
  destruct (H l 5 ex_build [0; 0] (Some 7%nat) (replicate EC_GF_MAX_REGS 9) [zero; zero]) as (l2 & out' & err & Ed & Hd);
    [apply rtc_refl|by apply ex_valid|cbn; repeat constructor; lia|reflexivity|rewrite Hempty; intros; reflexivity|
     rewrite Hempty; intros a m Ha; discriminate Ha|apply regs_example|split; [exact H0|cbn; lia]|].
  exists l, outs, l2, out', err. split; [exact Eo|]. split; [exact Ed|].
  destruct Hd as [[_ Hd]|(_ & Hd & _)]; [exact Hd|discriminate Hd].
Defined.
