(* ===== verification/EcCacheClaims.v ===== *)
(** * Claims about the cache of decoding matrices

    The invariant at every reachable state, requests, releases, the binary
    search and the final release of the cache, with a small initialised list
    as the concrete instance. *)
From stdpp Require Import gmap sorting.
From S2P Require Import Prelude Poly GF256 EcGf8 EcCodeC EcBodies EcMuladd EcGalois EcMatrix EcInverse EcCombine EcProgram EcDynamic EcGenerated EcBuild EcMethod EcCoding EcCache EcRoundTrip.

(** ** The invariant *)

(** C31: at every reachable state of the cache (any sequence of requests and
    releases after initialisation) the array of cached matrices is sorted
    strictly by mask and never longer than its maximum, every cached matrix
    decodes from the fragments of its mask, and the list of unused matrices
    holds, without repetition, exactly the matrices without references. *)
Theorem cache_invariant env n R max rows_of l l' :
  env_ok env n R max -> gen_safe n (ie_gen env) ->
  (2 <= n <= 16)%nat -> (R <= 255)%nat -> 0 <= max < 2 ^ 31 ->
  ec_method_init env (Z.of_nat n) (Z.of_nat R) max = Some (inr l) ->
  rtc (cache_step n rows_of) l l' ->
  0 <= ml_count l' <= ml_max l' /\
  (exists ms, Forall2 (fun a mk => mx_mask <$> ml_heap l' !! a = Some mk) (objs l') ms /\
     StronglySorted Z.lt ms) /\
  (forall a m, ml_heap l' !! a = Some m -> mx_mask m <> 0 ->
     a ∈ objs l' /\ matrix_ok false n (drows (rows_of (mx_mask m))) m) /\
  NoDup (ml_lru l') /\ (forall a m, ml_heap l' !! a = Some m -> (mx_refs m = 0 <-> a ∈ ml_lru l')).
Proof.
  intros Henv Hsafe Hn HR Hmax E Hs.
  destruct (method_init_ok env n R max rows_of Henv Hsafe Hn HR Hmax) as (l0 & E0 & Hl0).
  rewrite E in E0. injection E0 as <-.
  pose proof (cache_steps_ok n rows_of l l' (io_cache _ _ _ _ Hl0) Hs) as Hok.
  destruct (co_objs _ _ _ Hok) as (ms & [_ Hc _ Hms Hsort] & _).
  split; [done|]. split; [by exists ms|]. split; [apply (co_cached _ _ _ Hok)|].
  split; [apply (co_lru _ _ _ Hok)|]. intros a m Ha. apply (co_refs _ _ _ Hok a m Ha).
Qed.

Lemma cache_invariant_witness :
  exists l, ex_init 6 = Some (inr l) /\ 0 <= ml_count l <= ml_max l.
Proof.
  destruct (ex_init_ok 6) as (l & E & _); [lia|]. exists l. split; [exact E|].
  refine (proj1 (cache_invariant (ex_env 6) 2 3 (Z.of_nat 6) ex_rows l l (ex_env_ok 6) (gen_safe_none 2)
    _ _ _ E (rtc_refl _ l))); lia.
Defined.

(** ** Requests and releases *)

(** A request for the matrix of a mask succeeds unless a new matrix is
    needed and memory is exhausted; the matrix it returns is referenced and
    decodes from the fragments of that mask, and matrices in use by others
    keep their contents and at least their references. *)
Theorem ec_method_matrix_get_correct n rows_of env a0 mem l mask :
  cache_ok n rows_of l -> valid_mask n rows_of mask -> length a0 = n ->
  (forall a, mem = Some a -> ml_heap l !! a = None) ->
  (forall a m, ml_heap l !! a = Some m -> mx_refs m < 2 ^ 32 - 1) ->
  exists l' r, ec_method_matrix_get env a0 mem l mask (rows_of mask) = Some (l', r) /\
    cache_ok n rows_of l' /\ (forall b, keeps l l' b) /\
    match r with
    | inl e => e = ENOMEM /\ mem = None /\ l' = l
    | inr a => exists m, ml_heap l' !! a = Some m /\ 0 < mx_refs m /\
                 matrix_ok false n (drows (rows_of mask)) m
    end.
Proof.
  intros Hok Hvm Ha0 Hmem Hrefs.
  destruct (get_ok n rows_of env a0 mem l mask Hok Hvm Ha0 Hmem Hrefs) as (l' & r & E & Hok' & Hk & _ & Hg).
  by exists l', r.
Qed.

Lemma ec_method_matrix_get_correct_witness :
  exists l l' r, ex_init 6 = Some (inr l) /\
    ec_method_matrix_get ex_build [0; 0] (Some 7%nat) l 5 [1; 3] = Some (l', r) /\ cache_ok 2 ex_rows l'.
Proof.
  destruct (ex_init_ok 6) as (l & E & Hl); [lia|].
  assert (Hempty : ml_heap l = ∅) by (apply Hl).
  destruct (ec_method_matrix_get_correct 2 ex_rows ex_build [0; 0] (Some 7%nat) l 5) as (l' & r & E' & Hok & _);
    [apply Hl|by apply ex_valid|reflexivity|rewrite Hempty; done|rewrite Hempty; done|].
  exists l, l', r. split; [exact E|]. split; [exact E'|exact Hok].
Defined.

(** A release takes away one reference and nothing else; the matrix joins
    the end of the list of unused ones exactly when it was the last reference.
    In particular the branch of [ec_method_matrix_unref] that destroys a matrix
    is never taken, because the count never exceeds the maximum. *)
Theorem ec_method_matrix_put_correct n rows_of l a m :
  cache_ok n rows_of l -> ml_heap l !! a = Some m -> 0 < mx_refs m ->
  exists l', ec_method_matrix_put l a = Some l' /\ cache_ok n rows_of l' /\
    ml_heap l' = <[a := set_refs m (mx_refs m - 1)]> (ml_heap l) /\ ml_count l' = ml_count l /\
    ml_lru l' = if decide (mx_refs m = 1) then ml_lru l ++ [a] else ml_lru l.
Proof.
  intros Hok Ha Hr. destruct (put_ok n rows_of l a m Hok Ha Hr) as (l' & E & Hok' & _ & Hh).
  exists l'. split; [done|]. split; [done|]. split; [done|].
  destruct (co_objs _ _ _ Hok) as (ms & Hso & _). pose proof (so_count l ms Hso) as Hc.
  destruct (co_refs _ _ _ Hok a m Ha) as [Hrange _].
  unfold ec_method_matrix_put, ec_method_matrix_unref in E. rewrite Ha, some_bind, u32_small in E by lia.
  cbv zeta in E. destruct (Z.eqb_spec (mx_refs m - 1) 0) as [E0|E0].
  - cbn [ml_max ml_count with_lru with_heap ml_lru] in E. rewrite (proj2 (Z.ltb_ge _ _)) in E by lia.
    injection E as <-. rewrite decide_True by lia. done.
  - injection E as <-. rewrite decide_False by lia. done.
Qed.

(** The cache after the first request. *)
Lemma ex_get_ok : exists l a m, cache_ok 2 ex_rows l /\ ml_heap l !! a = Some m /\ 0 < mx_refs m.
Proof.
  destruct (ex_init_ok 6) as (l0 & E & Hl); [lia|].
  assert (Hempty : ml_heap l0 = ∅) by (apply Hl).
  destruct (get_ok 2 ex_rows ex_build [0; 0] (Some 7%nat) l0 5) as (l & [e|a] & E' & Hok & _ & _ & Hg);
    [apply Hl|by apply ex_valid|reflexivity|rewrite Hempty; done|rewrite Hempty; done|..].
  - by destruct Hg as (_ & ? & _).
  - destruct Hg as (m & Ha & Hr & _). exists l, a, m. split; [exact Hok|]. split; [exact Ha|exact Hr].
Qed.

Lemma ec_method_matrix_put_correct_witness :
  exists l a l', ec_method_matrix_put l a = Some l' /\ cache_ok 2 ex_rows l'.
Proof.
  destruct ex_get_ok as (l & a & m & Hok & Ha & Hr).
  destruct (ec_method_matrix_put_correct 2 ex_rows l a m Hok Ha Hr) as (l' & E1 & Hok' & _).
  exists l, a, l'. split; [exact E1|exact Hok'].
Defined.

(** A step of any user while the matrix at [b] is in use. *)
Definition step_in_use (n : nat) (rows_of : Z -> list Z) (b : addr) (l l' : ec_matrix_list_t) : Prop :=
  cache_step n rows_of l l' /\ exists m, ml_heap l !! b = Some m /\ 0 < mx_refs m.

(** C25: as long as a matrix is in use, its rows, its coefficients and its row
    functions stay as they are, whatever the other users of the cache do: it is
    neither recycled nor destroyed under a decoder that holds it. *)
Theorem matrix_stable_in_use n rows_of b l l' m :
  cache_ok n rows_of l -> ml_heap l !! b = Some m -> rtc (step_in_use n rows_of b) l l' ->
  exists m', ml_heap l' !! b = Some m' /\ mx_values m' = mx_values m /\ mx_row_data m' = mx_row_data m /\
    mx_rows m' = mx_rows m /\ mx_columns m' = mx_columns m.
Proof.
  intros Hok Hb Hs. revert m Hok Hb. induction Hs as [l|l l1 l' [Hst (m0 & Hb0 & Hr)] Hs IH]; intros m Hok Hb.
  - eauto 6.
  - rewrite Hb in Hb0. injection Hb0 as <-.
    destruct (cache_step_keeps n rows_of l l1 b m Hok Hst Hb Hr) as (m1 & Hb1 & Hv & Hd & Hw & Hc).
    destruct (IH m1 (cache_step_ok n rows_of l l1 Hok Hst) Hb1) as (m' & Hb' & Hv' & Hd' & Hw' & Hc').
    exists m'. split; [done|]. repeat split; congruence.
Qed.

Lemma matrix_stable_in_use_witness :
  exists l l' a m m', ml_heap l !! a = Some m /\ ec_method_matrix_put l a = Some l' /\
    ml_heap l' !! a = Some m' /\ mx_values m' = mx_values m.
Proof.
  destruct ex_get_ok as (l & a & m & Hok & Ha & Hr). destruct (put_ok 2 ex_rows l a m Hok Ha Hr) as (l' & Ep & _).
  destruct (matrix_stable_in_use 2 ex_rows a l l' m Hok Ha) as (m' & Ha' & Hv & _).
  { apply rtc_once. split; [exact (step_put 2 ex_rows l a m l' Ha Hr Ep)|]. exists m. split; [exact Ha|exact Hr]. }
  exists l, l', a, m, m'. split; [exact Ha|]. split; [exact Ep|]. split; [exact Ha'|exact Hv].
Defined.

(** The binary search over the sorted array of masks terminates: it
    returns the matrix with the mask and its position when there is one, and
    otherwise the position where it has to be inserted. *)
Theorem ec_method_matrix_lookup_correct l ms mask :
  sorted_objs l ms ->
  exists r p, ec_method_matrix_lookup l mask = Some (r, p) /\
    match r with
    | Some a => 0 <= p < ml_count l /\ objs l !! Z.to_nat p = Some a /\ ms !! Z.to_nat p = Some mask
    | None => (mask ∉ ms) /\ splits ms mask p
    end.
Proof.
  intros H. destruct (matrix_lookup_ok l ms mask H) as (r & p & E & Hr). exists r, p.
  split; [done|]. destruct r; [done|]. split; [by eapply splits_notin|done].
Qed.

(** Three cached matrices, with the masks 3, 5 and 6. *)
Definition ex_matrix (mask : Z) : ec_matrix_t := mkmatrix 0 2 2 mask [0; 0; 0; 0] [mkrow None 0; mkrow None 2].
Definition ex_list : ec_matrix_list_t :=
  mklist [8%nat; 7%nat; 9%nat] 2 3 6 3 1024 (mkcode gf0 None) None [9%nat; 7%nat; 8%nat; 0%nat; 0%nat; 0%nat]
    {[7%nat := ex_matrix 5; 8%nat := ex_matrix 6; 9%nat := ex_matrix 3]}.

Lemma ec_method_matrix_lookup_correct_witness :
  exists p, ec_method_matrix_lookup ex_list 4 = Some (None, p) /\ splits [3; 5; 6] 4 p.
Proof.
  destruct (ec_method_matrix_lookup_correct ex_list [3; 5; 6] 4) as (r & p & E & Hr).
  - split; cbn; try lia.
    + repeat (constructor; [reflexivity|]). constructor.
    + repeat constructor; lia.
  - destruct r as [a|]; [vm_compute in E; discriminate|]. exists p. split; [exact E|apply Hr].
Defined.

(** ** The end of the cache *)

Lemma list_del_head a (l : list addr) : a ∉ l -> list_del a (a :: l) = l.
Proof.
  intros Ha. unfold list_del. rewrite filter_cons_False by tauto.
  induction l as [|b l IH]; [done|]. rewrite filter_cons_True by set_solver. f_equal. apply IH. set_solver.
Qed.

(** Destroying the unused matrices takes the count down by their number. *)
Lemma fini_loop_ok lru l :
  ml_lru l = lru -> NoDup lru -> 0 <= ml_count l < 2 ^ 32 ->
  (forall a, a ∈ lru -> exists m, ml_heap l !! a = Some m /\ 0 <= mx_rows m <= Z.of_nat (length (mx_row_data m))) ->
  exists l', fini_loop (length lru) l = Some l' /\ ml_count l' = u32 (ml_count l - Z.of_nat (length lru)).
Proof.
  revert l. induction lru as [|a lru IH]; intros l El Hnd Hc Hm.
  - cbn [fini_loop length]. rewrite El. exists l. split; [done|]. rewrite u32_small; lia.
  - cbn [fini_loop length]. rewrite El. apply list.NoDup_cons in Hnd as [Hna Hnd].
    destruct (Hm a) as (m & Ha & Hw); [set_solver|]. destruct (release_ok m Hw) as (m' & Er & _).
    unfold ec_method_matrix_destroy. cbv zeta. cbn [ml_heap with_lru]. rewrite Ha, some_bind, Er, some_bind.
    rewrite some_bind. cbn [ml_count with_heap with_lru].
    destruct (IH (with_count (with_heap (with_lru l (list_del a (ml_lru l))) (delete a (ml_heap l)))
      (u32 (ml_count l - 1)))) as (l' & E & Hl'); cbn [ml_lru ml_count ml_heap with_count with_heap with_lru].
    + rewrite El. by apply list_del_head.
    + done.
    + apply Z.mod_pos_bound. lia.
    + intros b Hb. rewrite lookup_delete_ne by (intros <-; done). apply Hm. set_solver.
    + exists l'. split; [exact E|]. rewrite Hl'. cbn [ml_count with_count].
      unfold u32. rewrite Zminus_mod_idemp_l. f_equal. lia.
Qed.

(** When every matrix has been released, [ec_method_fini] ends, and its
    assertion that the count of cached matrices is zero holds exactly when no
    matrix was made outside the cache (mask 0): such matrices are destroyed
    with the others and the count goes below zero. *)
Theorem ec_method_fini_assertion n rows_of l e :
  cache_ok n rows_of l -> ml_encode l = Some e -> 0 <= mx_rows e <= Z.of_nat (length (mx_row_data e)) ->
  (forall a m, ml_heap l !! a = Some m -> mx_refs m = 0) -> Z.of_nat (length (ml_lru l)) < 2 ^ 32 ->
  exists b, ec_method_fini l = Some b /\
    (b = true <-> forall a m, ml_heap l !! a = Some m -> mx_mask m <> 0).
Proof.
  intros Hok Ee He Hrefs Hlen. destruct (co_objs _ _ _ Hok) as (ms & Hso & Hval).
  pose proof (so_count l ms Hso) as Hc. pose proof (so_max l ms Hso) as Hmax.
  pose proof (objs_length l ms Hso) as Hlo. destruct (co_lru _ _ _ Hok) as [Hnd Hheap].
  destruct (fini_loop_ok (ml_lru l) l) as (l' & El & Hcount); [done|done|lia|..].
  { intros a Ha. destruct (Hheap a Ha) as [m Hm]. destruct (co_room _ _ _ Hok a m Hm) as (_ & ? & ?).
    exists m. split; [done|lia]. }
  destruct (release_ok e He) as (e' & Er & _).
  unfold ec_method_fini. rewrite Ee, El, some_bind. cbv zeta. rewrite Er, some_bind.
  eexists. split; [reflexivity|]. rewrite Z.eqb_eq, Hcount.
  assert (Hin : forall a m, ml_heap l !! a = Some m -> a ∈ ml_lru l).
  { intros a m Ha. by apply (co_refs _ _ _ Hok a m Ha), (Hrefs a m). }
  assert (Hsub : forall a, a ∈ objs l -> a ∈ ml_lru l /\ exists m, ml_heap l !! a = Some m /\ mx_mask m <> 0).
  { intros a Ha. destruct (objs_in_heap l ms a Hso Ha) as (m & Hm & Hmk). split; [by eapply Hin|].
    exists m. split; [done|]. rewrite Forall_forall in Hval. apply (Hval _ Hmk). }
  pose proof (objs_NoDup l ms Hso) as Hndo. split.
  - intros Hz a m Ha Hm0. assert (Hna : a ∉ objs l).
    { intros H. destruct (Hsub a H) as (_ & m' & Ha' & ?). congruence. }
    assert (Hle : (length (a :: objs l) <= length (ml_lru l))%nat).
    { apply submseteq_length, NoDup_submseteq; [by apply list.NoDup_cons|].
      intros b [-> | Hb]%elem_of_cons; [by eapply Hin|by apply Hsub]. }
    cbn [length] in Hle. unfold u32 in Hz. apply Z.mod_divide in Hz; [|lia]. destruct Hz as [z Hz]. nia.
  - intros Hall. assert (Hle : (length (objs l) <= length (ml_lru l))%nat).
    { apply submseteq_length, NoDup_submseteq; [done|]. intros b Hb. by apply Hsub. }
    assert (Hge : (length (ml_lru l) <= length (objs l))%nat).
    { apply submseteq_length, NoDup_submseteq; [done|]. intros b Hb. destruct (Hheap b Hb) as [m Hm].
      by apply (co_cached _ _ _ Hok b m Hm), (Hall b m). }
    replace (ml_count l - Z.of_nat (length (ml_lru l))) with 0 by lia. done.
Qed.

Lemma ec_method_fini_assertion_witness :
  exists l b, ex_init 6 = Some (inr l) /\ ec_method_fini l = Some b /\ b = true.
Proof.
  destruct (ex_init_ok 6) as (l & E & Hl); [lia|].
  assert (Hempty : ml_heap l = ∅) by (apply Hl). pose proof (io_cache _ _ _ _ Hl) as Hok.
  destruct (io_encode _ _ _ _ Hl) as (e & Ee & [_ He _ Hrow]).
  destruct (ec_method_fini_assertion 2 ex_rows l e Hok Ee) as (b & Eb & Hb).
  - destruct (Hrow 2%nat (pows 3 1)) as (? & ? & ? & f & _ & _ & Hf & _); [reflexivity|]. apply lookup_lt_Some in Hf.
    rewrite He. cbn. lia.
  - rewrite Hempty. intros a m H. discriminate H.
  - destruct (ml_lru l) as [|a lru] eqn:El; [cbn; lia|]. destruct (co_lru _ _ _ Hok) as [_ H].
    destruct (H a) as [m Hm]; [rewrite El; apply elem_of_cons; left; reflexivity|]. rewrite Hempty in Hm. discriminate Hm.
  - exists l, b. split; [exact E|]. split; [exact Eb|]. apply Hb. rewrite Hempty. intros a m H. discriminate H.
Defined.

(** Two decoders at the same time with a cache for one matrix. *)
Definition ex_none : ec_matrix_list_t := mklist [] 0 0 0 0 0 (mkcode gf0 None) None [] ∅.
Definition ex_request (a : addr) (mask : Z) (l : ec_matrix_list_t) : ec_matrix_list_t :=
  match ec_method_matrix_get ex_build [0; 0] (Some a) l mask (ex_rows mask) with
  | Some (l', _) => l'
  | None => ex_none
  end.
Definition ex_release (a : addr) (l : ec_matrix_list_t) : ec_matrix_list_t :=
  match ec_method_matrix_put l a with Some l' => l' | None => ex_none end.
Definition ex_l0 : ec_matrix_list_t :=
  Eval vm_compute in match ex_init 1 with Some (inr l) => l | _ => ex_none end.
Definition ex_l1 : ec_matrix_list_t := Eval vm_compute in ex_request 1%nat 3 ex_l0.
Definition ex_l2 : ec_matrix_list_t := Eval vm_compute in ex_request 2%nat 5 ex_l1.
Definition ex_l3 : ec_matrix_list_t := Eval vm_compute in ex_release 1%nat ex_l2.
Definition ex_l4 : ec_matrix_list_t := Eval vm_compute in ex_release 2%nat ex_l3.

Lemma ex_step_get a mask l l' r :
  mask <> 0 -> ml_heap l !! a = None -> bool_decide (map_Forall (fun _ m => mx_refs m < 2 ^ 32 - 1) (ml_heap l)) = true ->
  ec_method_matrix_get ex_build [0; 0] (Some a) l mask (ex_rows mask) = Some (l', r) ->
  cache_step 2 ex_rows l l'.
Proof.
  intros Hm Ha Hr E. apply (step_get 2 ex_rows ex_build [0; 0] (Some a) l mask l' r); [by apply ex_valid|done| | |done].
  - by intros b [= <-].
  - apply bool_decide_eq_true in Hr. exact Hr.
Qed.

(** The assertion at the end of [ec_method_fini] can fail in a normal run:
    two decoders that need different matrices at the same time, in a cache for
    one matrix, both done. *)
Theorem ec_method_fini_can_fail :
  ec_method_init (ex_env 1) 2 3 1 = Some (inr ex_l0) /\ rtc (cache_step 2 ex_rows) ex_l0 ex_l4 /\
  (forall a m, ml_heap ex_l4 !! a = Some m -> mx_refs m = 0) /\ ec_method_fini ex_l4 = Some false.
Proof.
  split; [vm_compute; reflexivity|]. split; [|split].
  - apply (rtc_l _ _ ex_l1); [|apply (rtc_l _ _ ex_l2); [|apply (rtc_l _ _ ex_l3); [|apply rtc_once]]].
    + apply (ex_step_get 1%nat 3 ex_l0 ex_l1 (inr 1%nat)); [lia|vm_compute; reflexivity..].
    + apply (ex_step_get 2%nat 5 ex_l1 ex_l2 (inr 2%nat)); [lia|vm_compute; reflexivity..].
    + eapply (step_put 2 ex_rows ex_l2 1%nat); vm_compute; reflexivity.
    + eapply (step_put 2 ex_rows ex_l3 2%nat); vm_compute; reflexivity.
  - apply (proj1 (bool_decide_eq_true (map_Forall (fun _ m => mx_refs m = 0) (ml_heap ex_l4)))).
    vm_compute. reflexivity.
  - vm_compute. reflexivity.
Qed.
