(* ===== verification/PlCommon.v ===== *)
(** * POSIX locks of a file (features/locks: common.c)

    The lock list of an inode holds granted and blocked byte-range locks.
    A request is merged with the locks of its owner ([__insert_and_merge]),
    refused or queued when another owner is in the way ([pl_setlk]), and every
    change gives the blocked locks another chance ([__grant_blocked_locks]).

    Memory allocation may fail: [mem] is the list of the outcomes of the next
    allocations.  Using a null or a wild pointer is the outcome [Fault]. *)
From stdpp Require Import gmap.
From S2P Require Import Prelude.

(** ** Data *)

Definition LLONG_MAX : Z := 2 ^ 63 - 1.
Definition ENOTCONN : Z := 107.
Definition EAGAIN : Z := 11.
Definition EBUSY : Z := 16.
Definition EREMOTE : Z := 66.
Definition GD_OP_VERSION_7_0 : Z := 70000.

Inductive lk_type : Set := F_RDLCK | F_WRLCK | F_UNLCK.

#[global] Instance lk_type_eq_dec : EqDecision lk_type.
Proof. solve_decision. Defined.

(** [gf_lkowner_t]: the [len] bytes of [data]. *)
Definition gf_lkowner_t : Set := list Z.

Record gf_flock : Set := mkflock {
  l_type : lk_type; l_whence : Z; l_start : Z; l_len : Z; l_pid : Z; l_owner : gf_lkowner_t }.

(** Pointers ([client], [fd], [frame]) are numbers, 0 is NULL.  [client_uid] and
    [this], which only lock migration and logging read, are left out. *)
Record posix_lock_t : Set := mklock {
  fl_start : Z; fl_end : Z; lk_flags : Z; fl_type : lk_type; blocked : bool;
  user_flock : gf_flock; fd_num : Z; fd : Z; frame : Z;
  blkd_time : Z; granted_time : Z;
  client : Z; owner : gf_lkowner_t; client_pid : Z; blocking : bool }.

Definition set_range (l : posix_lock_t) (s e : Z) : posix_lock_t :=
  mklock s e (lk_flags l) (fl_type l) (blocked l) (user_flock l) (fd_num l) (fd l) (frame l)
    (blkd_time l) (granted_time l) (client l) (owner l) (client_pid l) (blocking l).
Definition set_type (l : posix_lock_t) (t : lk_type) : posix_lock_t :=
  mklock (fl_start l) (fl_end l) (lk_flags l) t (blocked l) (user_flock l) (fd_num l) (fd l) (frame l)
    (blkd_time l) (granted_time l) (client l) (owner l) (client_pid l) (blocking l).
Definition set_blocked (l : posix_lock_t) (b : bool) : posix_lock_t :=
  mklock (fl_start l) (fl_end l) (lk_flags l) (fl_type l) b (user_flock l) (fd_num l) (fd l) (frame l)
    (blkd_time l) (granted_time l) (client l) (owner l) (client_pid l) (blocking l).
Definition set_user (l : posix_lock_t) (u : gf_flock) : posix_lock_t :=
  mklock (fl_start l) (fl_end l) (lk_flags l) (fl_type l) (blocked l) u (fd_num l) (fd l) (frame l)
    (blkd_time l) (granted_time l) (client l) (owner l) (client_pid l) (blocking l).
Definition set_frame (l : posix_lock_t) (f : Z) : posix_lock_t :=
  mklock (fl_start l) (fl_end l) (lk_flags l) (fl_type l) (blocked l) (user_flock l) (fd_num l) (fd l) f
    (blkd_time l) (granted_time l) (client l) (owner l) (client_pid l) (blocking l).
Definition set_blocking (l : posix_lock_t) (b : bool) : posix_lock_t :=
  mklock (fl_start l) (fl_end l) (lk_flags l) (fl_type l) (blocked l) (user_flock l) (fd_num l) (fd l) (frame l)
    (blkd_time l) (granted_time l) (client l) (owner l) (client_pid l) b.
Definition set_times (l : posix_lock_t) (b g : Z) : posix_lock_t :=
  mklock (fl_start l) (fl_end l) (lk_flags l) (fl_type l) (blocked l) (user_flock l) (fd_num l) (fd l) (frame l)
    b g (client l) (owner l) (client_pid l) (blocking l).

Definition set_l_type (f : gf_flock) (t : lk_type) : gf_flock :=
  mkflock t (l_whence f) (l_start f) (l_len f) (l_pid f) (l_owner f).

(** ** Locks *)

Definition is_same_lkowner (o1 o2 : gf_lkowner_t) : bool := bool_decide (o1 = o2).

Definition is_lk_owner_null (o : gf_lkowner_t) : bool := forallb (fun b => b =? 0) o.

(** [opversion] is the version of the client. *)
Definition pl_is_lk_owner_valid (opversion : Z) (o : gf_lkowner_t) (client : Z) : bool :=
  if negb (client =? 0) && (opversion <? GD_OP_VERSION_7_0) then true
  else negb (is_lk_owner_null o).

(** The error is the value of [op_errno]; 0 when it is not set. *)
Definition new_posix_lock (opversion : Z) (m : mem) (flock : gf_flock) (client client_pid : Z)
    (owner : gf_lkowner_t) (fd lk_flags : Z) (blocking : bool) : (Z + posix_lock_t) * mem :=
  if client =? 0 then (inl 0, m) else
  if fd =? 0 then (inl 0, m) else
  if negb (pl_is_lk_owner_valid opversion owner client) then (inl EINVAL, m) else
  let '(ok, m) := alloc m in
  if negb ok then (inl ENOMEM, m) else
  let '(ok, m) := alloc m in
  if negb ok then (inl ENOMEM, m) else
  (inr (mklock (l_start flock)
          (if l_len flock =? 0 then LLONG_MAX else l_start flock + l_len flock - 1)
          lk_flags (l_type flock) false flock fd fd 0 0 0 client owner client_pid blocking), m).

Definition __copy_lock (m : mem) (src : posix_lock_t) : option posix_lock_t * mem :=
  let '(ok, m) := alloc m in
  if negb ok then (None, m) else
  let '(ok, m) := alloc m in
  if negb ok then (None, m) else (Some src, m).

(** The fields of [flock] that are overwritten; [l_whence] stays. *)
Definition posix_lock_to_flock (l : posix_lock_t) (flock : gf_flock) : gf_flock :=
  mkflock (fl_type l) (l_whence flock) (fl_start l)
    (if fl_end l =? LLONG_MAX then 0 else fl_end l - fl_start l + 1)
    (l_pid (user_flock l)) (owner l).

(** [posix_lock_to_flock(l, &l->user_flock)] *)
Definition to_user_flock (l : posix_lock_t) : posix_lock_t :=
  set_user l (posix_lock_to_flock l (user_flock l)).

Definition locks_overlap (l1 l2 : posix_lock_t) : bool :=
  (fl_start l2 <=? fl_end l1) && (fl_start l1 <=? fl_end l2).

Definition same_owner (l1 l2 : posix_lock_t) : bool :=
  is_same_lkowner (owner l1) (owner l2) && (client l1 =? client l2).

(** ** The list of locks *)

Definition __insert_lock (now : Z) (ext_list : list posix_lock_t) (l : posix_lock_t) : list posix_lock_t :=
  ext_list ++ [if blocked l then set_times l now (granted_time l) else set_times l (blkd_time l) now].

Definition __delete_unlck_locks (ext_list : list posix_lock_t) : list posix_lock_t :=
  filter (fun l => fl_type l <> F_UNLCK) ext_list.

Definition add_locks (m : mem) (l1 l2 dst : posix_lock_t) : option posix_lock_t * mem :=
  let '(sum, m) := __copy_lock m dst in
  (sum ← sum; Some (to_user_flock (set_range sum (Z.min (fl_start l1) (fl_start l2)) (Z.max (fl_end l1) (fl_end l2)))),
   m).

(** The locks that are not NULL, in their order in the array. *)
Definition subtract_locks (m : mem) (big small : posix_lock_t) : list posix_lock_t * mem :=
  if (fl_start big =? fl_start small) && (fl_end big =? fl_end small) then
    let '(v0, m) := __copy_lock m big in
    match v0 with
    | Some v0 => ([set_user (set_type v0 (fl_type small)) (set_l_type (user_flock v0) (fl_type small))], m)
    | None => ([], m)
    end
  else if (fl_start big <? fl_start small) && (fl_end small <? fl_end big) then
    let '(v0, m) := __copy_lock m big in
    let '(v1, m) := __copy_lock m small in
    let '(v2, m) := __copy_lock m big in
    match v0, v1, v2 with
    | Some v0, Some v1, Some v2 =>
        ([to_user_flock (set_range v0 (fl_start v0) (fl_start small - 1)); v1;
          to_user_flock (set_range v2 (fl_end small + 1) (fl_end v2))], m)
    | _, _, _ => ([], m)
    end
  else if fl_start small =? fl_start big then
    let '(v0, m) := __copy_lock m big in
    let '(v1, m) := __copy_lock m small in
    match v0, v1 with
    | Some v0, Some v1 => ([to_user_flock (set_range v0 (fl_end small + 1) (fl_end v0)); v1], m)
    | _, _ => ([], m)
    end
  else if fl_end small =? fl_end big then
    let '(v0, m) := __copy_lock m big in
    let '(v1, m) := __copy_lock m small in
    match v0, v1 with
    | Some v0, Some v1 => ([to_user_flock (set_range v0 (fl_start v0) (fl_start small - 1)); v1], m)
    | _, _ => ([], m)
    end
  else ([], m).

Definition conflicts (l lock : posix_lock_t) : bool :=
  bool_decide (fl_type l = F_WRLCK) || bool_decide (fl_type lock = F_WRLCK).

Fixpoint first_conflicting_overlap (ext_list : list posix_lock_t) (lock : posix_lock_t) : option posix_lock_t :=
  match ext_list with
  | [] => None
  | l :: rest =>
      if blocked l then first_conflicting_overlap rest lock
      else if locks_overlap l lock then
        if same_owner l lock then first_conflicting_overlap rest lock
        else if conflicts l lock then Some l
        else first_conflicting_overlap rest lock
      else first_conflicting_overlap rest lock
  end.

Fixpoint first_overlap (ext_list : list posix_lock_t) (lock : posix_lock_t) : option posix_lock_t :=
  match ext_list with
  | [] => None
  | l :: rest =>
      if blocked l then first_overlap rest lock
      else if locks_overlap l lock then Some l
      else first_overlap rest lock
  end.

Fixpoint __is_lock_grantable (ext_list : list posix_lock_t) (lock : posix_lock_t) : bool :=
  match ext_list with
  | [] => true
  | l :: rest =>
      if negb (blocked l) && locks_overlap lock l then
        if conflicts l lock && negb (bool_decide (fl_type lock = F_UNLCK)) && negb (same_owner l lock)
        then false
        else __is_lock_grantable rest lock
      else __is_lock_grantable rest lock
  end.

(** ** Merging a lock into the list *)

(** Where the loop of [__insert_and_merge] stops: at a lock of the same owner,
    its position in the list, at a reader of another owner, or at the end. *)
Inductive merge_scan : Set := Own (i : nat) (conf : posix_lock_t) | Reader | End.

Fixpoint scan_from (i : nat) (rest : list posix_lock_t) (lock : posix_lock_t) : merge_scan :=
  match rest with
  | [] => End
  | conf :: rest =>
      if blocked conf then scan_from (S i) rest lock
      else if negb (locks_overlap conf lock) then scan_from (S i) rest lock
      else if same_owner conf lock then Own i conf
      else if bool_decide (fl_type lock = F_UNLCK) then scan_from (S i) rest lock
      else if bool_decide (fl_type conf = F_RDLCK) && bool_decide (fl_type lock = F_RDLCK) then Reader
      else scan_from (S i) rest lock
  end.

Section Merge.
(** The current time. *)
Context (now : Z).

Fixpoint insert_and_merge (fuel : nat) (m : mem) (ext_list : list posix_lock_t) (lock : posix_lock_t)
    : outcome (list posix_lock_t * mem) :=
  match fuel with
  | O => NoFuel
  | S fuel =>
      match scan_from 0 ext_list lock with
      | Own i conf =>
          if bool_decide (fl_type conf = fl_type lock) && (lk_flags conf =? lk_flags lock) then
            let '(sum, m) := add_locks m lock conf lock in
            match sum with
            | None => Fault
            | Some sum => insert_and_merge fuel m (delete i ext_list) sum
            end
          else
            let '(sum, m) := add_locks m lock conf conf in
            match sum with
            | None => Fault
            | Some sum =>
                let '(v, m) := subtract_locks m sum lock in
                '(ext_list, m) ←
                  foldl (fun r v => '(ext_list, m) ← r; insert_and_merge fuel m ext_list v)
                    (Done (delete i ext_list, m)) v;
                Done (__delete_unlck_locks ext_list, m)
            end
      | Reader => Done (__insert_lock now ext_list lock, m)
      | End =>
          if bool_decide (fl_type lock = F_UNLCK) then Done (ext_list, m)
          else Done (__insert_lock now ext_list lock, m)
      end
  end.

(** Every call takes a piece off the locks of the owner, whose ends are ends of
    the locks in the list: the depth is at most the square of their number. *)
Definition merge_fuel (ext_list : list posix_lock_t) : nat :=
  let n := S (length ext_list) in S (n * (2 * n)).

Definition __insert_and_merge (m : mem) (ext_list : list posix_lock_t) (lock : posix_lock_t)
    : outcome (list posix_lock_t * mem) :=
  insert_and_merge (merge_fuel ext_list) m ext_list lock.

(** ** Granting blocked locks *)

(** The first loop of [__grant_blocked_locks]: [before] is the part of the list
    that it has passed, [tmp_list] what it has taken out. *)
Fixpoint take_unblocked (before rest tmp_list : list posix_lock_t) : list posix_lock_t * list posix_lock_t :=
  match rest with
  | [] => (before, tmp_list)
  | l :: rest =>
      if blocked l then
        match first_overlap (before ++ l :: rest) l with
        | Some _ => take_unblocked (before ++ [l]) rest tmp_list
        | None => take_unblocked before rest (tmp_list ++ [set_blocked l false])
        end
      else take_unblocked (before ++ [l]) rest tmp_list
  end.

(** A granted request: the frame to answer and the lock it got. *)
Definition grant : Set := (Z * gf_flock)%type.

Definition flock0 : gf_flock := mkflock F_RDLCK 0 0 0 0 [].

(** The second loop; [granted] grows at its front. *)
Fixpoint grant_loop (m : mem) (ext_list tmp_list : list posix_lock_t) (granted : list grant)
    : outcome (list posix_lock_t * mem * list grant) :=
  match tmp_list with
  | [] => Done (ext_list, m, granted)
  | l :: tmp_list =>
      if __is_lock_grantable ext_list l then
        let '(ok, m) := alloc m in
        if negb ok then grant_loop m (__insert_lock now ext_list (set_blocked l true)) tmp_list granted
        else
          let conf := (frame l, posix_lock_to_flock l flock0) in
          let l := set_frame l 0 in
          '(ext_list, m) ← __insert_and_merge m ext_list l;
          grant_loop m ext_list tmp_list (conf :: granted)
      else grant_loop m (__insert_lock now ext_list (set_blocked l true)) tmp_list granted
  end.

Definition __grant_blocked_locks (m : mem) (ext_list : list posix_lock_t)
    : outcome (list posix_lock_t * mem * list grant) :=
  let '(ext_list, tmp_list) := take_unblocked [] ext_list [] in
  grant_loop m ext_list tmp_list [].

End Merge.
