(* ===== verification/PlMerge.v ===== *)
(** * What merging a lock does to the bytes that are held

    A list of locks is seen through the bytes that each owner holds with each
    type.  Merging a lock changes the bytes of its range for its owner to its
    type and nothing else; the lemmas at the start hold for any outcome of the
    allocations, the exact ones when none fails. *)
From stdpp Require Import gmap.
From S2P Require Import Prelude PlCommon.

(** ** Views of a list of locks *)

Definition lk_owner (l : posix_lock_t) : gf_lkowner_t * Z := (owner l, client l).

(** A byte of a lock. *)
#[global] Instance byte_of_lock : ElemOf Z posix_lock_t := fun x l => fl_start l <= x <= fl_end l.

#[global] Instance byte_of_lock_dec (x : Z) (l : posix_lock_t) : Decision (x ∈ l).
Proof. unfold elem_of, byte_of_lock. apply _. Defined.

Lemma lock_elem x (l : posix_lock_t) : x ∈ l <-> fl_start l <= x <= fl_end l.
Proof. done. Qed.

(** Owner [o] holds byte [x] with type [t]. *)
Definition holds (ext : list posix_lock_t) (o : gf_lkowner_t * Z) (t : lk_type) (x : Z) : Prop :=
  exists l, l ∈ ext /\ blocked l = false /\ lk_owner l = o /\ fl_type l = t /\ x ∈ l.

(** Bounds of a lock: at least one byte, in 63 bits. *)
Definition wf_range (l : posix_lock_t) : Prop := 0 <= fl_start l <= fl_end l /\ fl_end l <= LLONG_MAX.

Definition wf_lock (l : posix_lock_t) : Prop := wf_range l /\ fl_type l <> F_UNLCK.

(** The locks that a merge for [o] does not touch. *)
Definition apart (o : gf_lkowner_t * Z) (l : posix_lock_t) : Prop := blocked l = true \/ lk_owner l <> o.

#[global] Instance apart_dec o l : Decision (apart o l).
Proof. unfold apart. apply _. Defined.

(** The bytes of [o] after a lock of type [t] on [x ∈ l]. *)
Definition updated (H : lk_type -> Z -> Prop) (l : posix_lock_t) (t : lk_type) (x : Z) : Prop :=
  if decide (x ∈ l) then t = fl_type l /\ t <> F_UNLCK else H t x.

(** At most one type per byte. *)
Definition single (H : lk_type -> Z -> Prop) : Prop := forall t t' x, H t x -> H t' x -> t = t'.

Lemma same_owner_spec l1 l2 : same_owner l1 l2 = true <-> lk_owner l1 = lk_owner l2.
Proof.
  unfold same_owner, is_same_lkowner, lk_owner.
  rewrite andb_true_iff, bool_decide_eq_true, Z.eqb_eq. split; [by intros [-> ->]|by intros [= -> ->]].
Qed.

Lemma same_owner_false l1 l2 : same_owner l1 l2 = false <-> lk_owner l1 <> lk_owner l2.
Proof. rewrite <- same_owner_spec. destruct (same_owner l1 l2); naive_solver. Qed.

Lemma locks_overlap_spec l1 l2 : wf_range l1 -> wf_range l2 ->
  (locks_overlap l1 l2 = true <-> exists x, x ∈ l1 /\ x ∈ l2).
Proof.
  unfold locks_overlap, elem_of, byte_of_lock, wf_range. intros H1 H2.
  rewrite andb_true_iff, !Z.leb_le. split.
  - intros [H3 H4]. exists (Z.max (fl_start l1) (fl_start l2)). lia.
  - intros (x & Hx1 & Hx2). lia.
Qed.

(** Two locks on a list: the holdings only depend on the elements. *)
#[global] Instance holds_proper : Proper ((≡ₚ) ==> eq ==> eq ==> eq ==> iff) holds.
Proof. intros e e' He o ? <- t ? <- x ? <-. unfold holds. by setoid_rewrite He. Qed.

Lemma holds_cons l ext o t x :
  holds (l :: ext) o t x <-> (blocked l = false /\ lk_owner l = o /\ fl_type l = t /\ x ∈ l) \/ holds ext o t x.
Proof. unfold holds. setoid_rewrite elem_of_cons. naive_solver. Qed.

Lemma holds_nil o t x : ~ holds [] o t x.
Proof. intros (l & Hl & _). by apply elem_of_nil in Hl. Qed.

Lemma holds_app ext ext' o t x : holds (ext ++ ext') o t x <-> holds ext o t x \/ holds ext' o t x.
Proof. unfold holds. setoid_rewrite elem_of_app. naive_solver. Qed.

Lemma holds_delete ext i l o t x : ext !! i = Some l ->
  (holds ext o t x <-> (blocked l = false /\ lk_owner l = o /\ fl_type l = t /\ x ∈ l) \/ holds (delete i ext) o t x).
Proof. intros Hi. rewrite <- holds_cons. by rewrite <- (delete_Permutation ext i l Hi). Qed.

Lemma holds_filter_apart ext o o' t x : o' <> o ->
  (holds (filter (apart o) ext) o' t x <-> holds ext o' t x).
Proof.
  intros Ho. unfold holds, apart. setoid_rewrite list_elem_of_filter. split.
  - intros (l & [_ Hl] & H). by exists l.
  - intros (l & Hl & Hb & Hlo & H). exists l. split; [|done]. split; [right; congruence|done].
Qed.

Lemma holds_insert_lock now ext l o t x :
  holds (__insert_lock now ext l) o t x <->
  holds ext o t x \/ (blocked l = false /\ lk_owner l = o /\ fl_type l = t /\ x ∈ l).
Proof.
  unfold __insert_lock. rewrite holds_app, holds_cons.
  assert (Hn : ~ holds [] o t x) by apply holds_nil.
  destruct (blocked l) eqn:E; cbn [blocked lk_owner owner client fl_type set_times];
    rewrite ?E; unfold elem_of, byte_of_lock, lk_owner; cbn [fl_start fl_end set_times]; naive_solver.
Qed.

(** ** The scan *)

Lemma scan_from_spec lock rest : forall i,
  match scan_from i rest lock with
  | Own j conf => exists k, j = (i + k)%nat /\ rest !! k = Some conf /\ blocked conf = false /\
      locks_overlap conf lock = true /\ lk_owner conf = lk_owner lock
  | Reader => fl_type lock = F_RDLCK /\ exists conf, conf ∈ rest /\ blocked conf = false /\
      locks_overlap conf lock = true /\ lk_owner conf <> lk_owner lock /\ fl_type conf = F_RDLCK
  | End => forall conf, conf ∈ rest -> blocked conf = false -> lk_owner conf = lk_owner lock ->
      locks_overlap conf lock = false
  end.
Proof.
  induction rest as [|c rest IH]; intros i; [intros conf Hc; by apply elem_of_nil in Hc|].
  assert (Hnext : (blocked c = false -> lk_owner c = lk_owner lock -> locks_overlap c lock = false) ->
    match scan_from (S i) rest lock with
    | Own j conf => exists k, j = (i + k)%nat /\ (c :: rest) !! k = Some conf /\ blocked conf = false /\
        locks_overlap conf lock = true /\ lk_owner conf = lk_owner lock
    | Reader => fl_type lock = F_RDLCK /\ exists conf, conf ∈ c :: rest /\ blocked conf = false /\
        locks_overlap conf lock = true /\ lk_owner conf <> lk_owner lock /\ fl_type conf = F_RDLCK
    | End => forall conf, conf ∈ c :: rest -> blocked conf = false -> lk_owner conf = lk_owner lock ->
        locks_overlap conf lock = false
    end).
  { intros Hc. specialize (IH (S i)). destruct (scan_from (S i) rest lock).
    - destruct IH as (k & -> & Hk & H). exists (S k). split; [lia|done].
    - destruct IH as (Ht & conf & Hin & H). split; [done|]. exists conf. split; [by right|done].
    - intros conf [-> | Hin]%elem_of_cons; [exact Hc|by apply IH]. }
  cbn [scan_from]. destruct (blocked c) eqn:Eb; [by apply Hnext|].
  destruct (locks_overlap c lock) eqn:Eo; cbn [negb]; [|by apply Hnext].
  destruct (same_owner c lock) eqn:Es.
  { apply same_owner_spec in Es. exists 0%nat. split; [lia|]. done. }
  apply same_owner_false in Es.
  case_bool_decide as Et; [by apply Hnext|].
  case_bool_decide as Ec; case_bool_decide as Er; cbn [andb]; try (by apply Hnext).
  split; [done|]. exists c. split; [by left|]. done.
Qed.

(** ** The pieces *)

(** [l'] is a piece with the owner of [l]. *)
Definition piece_of (l l' : posix_lock_t) : Prop := blocked l' = blocked l /\ lk_owner l' = lk_owner l.

Lemma copy_lock_spec m l r m' : __copy_lock m l = (Some r, m') -> r = l.
Proof. unfold __copy_lock. destruct (alloc m) as [[] m1]; [|done]. destruct (alloc m1) as [[] m2]; naive_solver. Qed.

Lemma copy_lock_nil l : __copy_lock [] l = (Some l, []).
Proof. done. Qed.

Lemma add_locks_spec m l1 l2 dst s m' : add_locks m l1 l2 dst = (Some s, m') ->
  piece_of dst s /\ fl_type s = fl_type dst /\ lk_flags s = lk_flags dst /\
  fl_start s = Z.min (fl_start l1) (fl_start l2) /\ fl_end s = Z.max (fl_end l1) (fl_end l2).
Proof.
  unfold add_locks. destruct (__copy_lock m dst) as [[r|] m1] eqn:E; [|done].
  apply copy_lock_spec in E as ->. intros [= <- _]. done.
Qed.

(** The pieces of [big] around [small], and [small], when nothing fails. *)
Inductive pieces (big small : posix_lock_t) : list posix_lock_t -> Prop :=
  | pieces_fail : pieces big small []
  | pieces_all v : fl_start big = fl_start small -> fl_end big = fl_end small ->
      piece_of big v -> fl_type v = fl_type small -> fl_start v = fl_start small -> fl_end v = fl_end small ->
      pieces big small [v]
  | pieces_mid u w : fl_start big < fl_start small -> fl_end small < fl_end big ->
      piece_of big u -> fl_type u = fl_type big -> fl_start u = fl_start big -> fl_end u = fl_start small - 1 ->
      piece_of big w -> fl_type w = fl_type big -> fl_start w = fl_end small + 1 -> fl_end w = fl_end big ->
      pieces big small [u; small; w]
  | pieces_left w : fl_start big = fl_start small -> fl_end big <> fl_end small ->
      piece_of big w -> fl_type w = fl_type big -> fl_start w = fl_end small + 1 -> fl_end w = fl_end big ->
      pieces big small [w; small]
  | pieces_right u : fl_start big <> fl_start small -> fl_end big = fl_end small ->
      piece_of big u -> fl_type u = fl_type big -> fl_start u = fl_start big -> fl_end u = fl_start small - 1 ->
      pieces big small [u; small].

Lemma subtract_pieces m big small v m' : subtract_locks m big small = (v, m') -> pieces big small v.
Proof.
  unfold subtract_locks.
  destruct (Z.eqb_spec (fl_start big) (fl_start small)) as [Es|Es];
  destruct (Z.eqb_spec (fl_end big) (fl_end small)) as [Ee|Ee]; cbn [andb].
  { destruct (__copy_lock m big) as [[v0|] m1] eqn:E0; intros [= <- _]; [|constructor].
    apply copy_lock_spec in E0 as ->. by apply pieces_all. }
  all: destruct (Z.ltb_spec (fl_start big) (fl_start small)); destruct (Z.ltb_spec (fl_end small) (fl_end big));
    cbn [andb]; try lia.
  all: rewrite ?(Z.eqb_sym (fl_start small)), ?(Z.eqb_sym (fl_end small)).
  all: rewrite ?(proj2 (Z.eqb_eq _ _) Es), ?(proj2 (Z.eqb_neq _ _) Es), ?(proj2 (Z.eqb_eq _ _) Ee), ?(proj2 (Z.eqb_neq _ _) Ee).
  all: try (intros [= <- _]; constructor).
  all: destruct (__copy_lock m big) as [[v0|] m1] eqn:E0;
    destruct (__copy_lock m1 small) as [[v1|] m2] eqn:E1; try (intros [= <- _]; constructor).
  all: try (destruct (__copy_lock m2 big) as [[v2|] m3] eqn:E2; intros [= <- _]; try constructor).
  all: try (intros [= <- _]).
  all: repeat match goal with H : __copy_lock _ _ = (Some _, _) |- _ => apply copy_lock_spec in H as -> end.
  all: first [apply pieces_left; done|apply pieces_right; done|apply pieces_mid; done].
Qed.

(** Nothing fails without allocation failures. *)
Lemma subtract_nil big small : fl_start big <= fl_start small -> fl_end small <= fl_end big ->
  exists v, subtract_locks [] big small = (v, []) /\ v <> [].
Proof.
  intros Hs He. unfold subtract_locks. rewrite !copy_lock_nil.
  destruct (Z.eqb_spec (fl_start big) (fl_start small)) as [E1|E1];
  destruct (Z.eqb_spec (fl_end big) (fl_end small)) as [E2|E2]; cbn [andb]; [by eauto|..].
  all: destruct (Z.ltb_spec (fl_start big) (fl_start small)); destruct (Z.ltb_spec (fl_end small) (fl_end big));
    cbn [andb]; try lia; try (by eauto).
  all: rewrite ?copy_lock_nil.
  - rewrite (proj2 (Z.eqb_eq _ _)) by lia. eauto.
  - rewrite (proj2 (Z.eqb_neq _ _)) by lia. rewrite (proj2 (Z.eqb_eq _ _)) by lia. eauto.
Qed.

Lemma add_locks_nil l1 l2 dst : exists s, add_locks [] l1 l2 dst = (Some s, []).
Proof. unfold add_locks. rewrite copy_lock_nil. eauto. Qed.

(** What each piece is worth: bytes of [big] outside [small], or of [small]. *)
Lemma pieces_in big small v p : pieces big small v -> p ∈ v ->
  wf_range big -> wf_range small -> fl_start big <= fl_start small -> fl_end small <= fl_end big ->
  piece_of big small ->
  piece_of small p /\ wf_range p /\
  ((fl_type p = fl_type small /\ forall x, x ∈ p <-> x ∈ small) \/
   (fl_type p = fl_type big /\ forall x, x ∈ p -> x ∈ big /\ ~ x ∈ small)).
Proof.
  unfold wf_range, elem_of, byte_of_lock, piece_of. intros Hv Hp Hb Hs H1 H2 [Hbl Hbo].
  destruct Hv as [|v ?? [??]|u w ?? [??] ??? [??]|w ?? [??]|u ?? [??]];
    repeat (apply elem_of_cons in Hp as [-> | Hp]); try (by apply elem_of_nil in Hp).
  all: split; [split; congruence|]; split; [lia|].
  all: first [left; split; [congruence|]; intros x; lia|right; split; [congruence|]; intros x Hx; lia].
Qed.

(** Together they cover [big], when there are any. *)
Lemma pieces_cover big small v x : pieces big small v -> v <> [] ->
  fl_start big <= fl_start small -> fl_end small <= fl_end big -> x ∈ big ->
  exists p, p ∈ v /\ x ∈ p.
Proof.
  intros Hv Hne H1 H2 Hx. rewrite lock_elem in Hx.
  destruct Hv as [|v|u w|w|u]; [done|..].
  - exists v. split; [by left|rewrite lock_elem; lia].
  - destruct (decide (x < fl_start small)); [exists u; split; [by left|rewrite lock_elem; lia]|].
    destruct (decide (x <= fl_end small)); [exists small; split; [by right; left|rewrite lock_elem; lia]|].
    exists w. split; [by do 2 right; left|rewrite lock_elem; lia].
  - destruct (decide (x <= fl_end small)); [exists small; split; [by right; left|rewrite lock_elem; lia]|].
    exists w. split; [by left|rewrite lock_elem; lia].
  - destruct (decide (x < fl_start small)); [exists u; split; [by left|rewrite lock_elem; lia]|].
    exists small. split; [by right; left|rewrite lock_elem; lia].
Qed.

(** ** The fold over the pieces *)

Section Fold.
Context (f : mem -> list posix_lock_t -> posix_lock_t -> outcome (list posix_lock_t * mem)).

Definition fold_pieces (r : outcome (list posix_lock_t * mem)) (v : list posix_lock_t) :=
  foldl (fun r v => '(ext_list, m) ← r; f m ext_list v) r v.

Inductive runs_pieces : list posix_lock_t * mem -> list posix_lock_t -> list posix_lock_t * mem -> Prop :=
  | runs_nil s : runs_pieces s [] s
  | runs_cons ext m p v s s' : f m ext p = Done s -> runs_pieces s v s' -> runs_pieces (ext, m) (p :: v) s'.

Lemma fold_stuck v : fold_pieces Fault v = Fault /\ fold_pieces NoFuel v = NoFuel.
Proof. by induction v. Qed.

Lemma fold_runs v : forall s s', fold_pieces (Done s) v = Done s' -> runs_pieces s v s'.
Proof.
  induction v as [|p v IH]; intros [ext m] s'.
  - intros [= <-]. constructor.
  - intros E. change (fold_pieces (f m ext p) v = Done s') in E. destruct (f m ext p) as [s1| |] eqn:Ef.
    + econstructor; eauto.
    + by rewrite (proj1 (fold_stuck v)) in E.
    + by rewrite (proj2 (fold_stuck v)) in E.
Qed.
End Fold.

(** ** Any outcome of the allocations *)

Definition covers (l : posix_lock_t) (t : lk_type) (x : Z) : Prop := t = fl_type l /\ t <> F_UNLCK /\ x ∈ l.

(** [ext'] comes from [ext] by locks of [o] that only cover what [C] says. *)
Record merged (o : gf_lkowner_t * Z) (C : lk_type -> Z -> Prop) (ext ext' : list posix_lock_t) : Prop := {
  mg_wf : Forall wf_lock ext';
  mg_apart : filter (apart o) ext' = filter (apart o) ext;
  mg_own : forall t x, holds ext' o t x -> holds ext o t x \/ C t x }.

Lemma merged_trans o C C' C'' ext1 ext2 ext3 :
  merged o C ext1 ext2 -> merged o C' ext2 ext3 -> (forall t x, C t x \/ C' t x -> C'' t x) ->
  merged o C'' ext1 ext3.
Proof.
  intros [_ H1 H2] [H3 H4 H5] HC. split; [done|congruence|].
  intros t x Hx. destruct (H5 t x Hx) as [H|H]; [destruct (H2 t x H)|]; auto.
Qed.

Lemma merged_fold f o C v : forall s s',
  (forall ext m p s, p ∈ v -> Forall wf_lock ext -> f m ext p = Done s -> merged o (covers p) ext s.1) ->
  Forall wf_lock s.1 -> (forall p t x, p ∈ v -> covers p t x -> C t x) ->
  runs_pieces f s v s' -> merged o C s.1 s'.1.
Proof.
  induction v as [|p v IH]; intros s s' Hf Hwf HC Hr; inversion Hr as [s0|ext m p' v' s1 s2 Ef Hr']; subst.
  - split; [done|done|auto].
  - assert (H1 : merged o (covers p) ext s1.1) by (apply (Hf ext m p s1); [by left|done|done]).
    eapply merged_trans; [exact H1|apply (IH s1 s')|intros t x [H|H]; [|exact H]; by eapply HC; [left|]].
    + intros ext2 m2 p2 s2 Hp2. by apply Hf; right.
    + apply H1.
    + intros p2 t x Hp2. by apply HC; right.
    + done.
Qed.

Lemma filter_apart_delete o (ext : list posix_lock_t) (i : nat) l : ext !! i = Some l -> ~ apart o l ->
  filter (apart o) (delete i ext) = filter (apart o) ext.
Proof.
  intros Hi Hl. rewrite <- (take_drop_middle ext i l Hi) at 2.
  rewrite delete_take_drop, !filter_app, filter_cons_False by done. done.
Qed.

Lemma Forall_delete {A} (P : A -> Prop) (l : list A) (i : nat) : Forall P l -> Forall P (delete i l).
Proof. intros H. rewrite delete_take_drop. apply Forall_app. split; [by apply Forall_take|by apply Forall_drop]. Qed.

Lemma insert_lock_merged now ext l : Forall wf_lock ext -> wf_range l -> blocked l = false -> fl_type l <> F_UNLCK ->
  merged (lk_owner l) (covers l) ext (__insert_lock now ext l).
Proof.
  intros Hwf Hr Hb Ht. split.
  - unfold __insert_lock. rewrite Hb. apply Forall_app. split; [done|]. constructor; [|constructor]. split; [exact Hr|done].
  - unfold __insert_lock. rewrite Hb, filter_app, filter_cons_False, filter_nil, app_nil_r; [done|].
    intros [H|H]; [cbn in H; congruence|by apply H].
  - intros t x [H|(_ & _ & <- & H)]%holds_insert_lock; [by left|right]. by split.
Qed.

Lemma delete_unlck_wf ext : Forall wf_lock ext -> __delete_unlck_locks ext = ext.
Proof.
  intros H. unfold __delete_unlck_locks. induction H as [|l ext [_ Hl] Hf IH]; [done|].
  by rewrite filter_cons_True, IH.
Qed.

Section Any.
Context (now : Z).

Definition merge_any (f : mem -> list posix_lock_t -> posix_lock_t -> outcome (list posix_lock_t * mem)) : Prop :=
  forall m ext lock s, blocked lock = false -> wf_range lock -> Forall wf_lock ext ->
    f m ext lock = Done s -> merged (lk_owner lock) (covers lock) ext s.1.

(** A lock of the owner that overlaps. *)
Record own_conf (ext : list posix_lock_t) (lock : posix_lock_t) (i : nat) (conf : posix_lock_t) : Prop := {
  oc_at : ext !! i = Some conf;
  oc_granted : blocked conf = false;
  oc_owner : lk_owner conf = lk_owner lock;
  oc_overlap : locks_overlap conf lock = true;
  oc_wf : wf_lock conf }.

Lemma scan_own ext lock i conf : Forall wf_lock ext -> scan_from 0 ext lock = Own i conf -> own_conf ext lock i conf.
Proof.
  intros Hwf E. pose proof (scan_from_spec lock ext 0) as H. rewrite E in H.
  destruct H as (k & -> & Hk & Hb & Ho & Hown). split; try done. by eapply Forall_lookup_1.
Qed.

Lemma own_conf_delete ext lock i conf : own_conf ext lock i conf -> Forall wf_lock ext ->
  Forall wf_lock (delete i ext) /\ filter (apart (lk_owner lock)) (delete i ext) = filter (apart (lk_owner lock)) ext /\
  forall t x, holds ext (lk_owner lock) t x <-> covers conf t x \/ holds (delete i ext) (lk_owner lock) t x.
Proof.
  intros [Hi Hb Ho Hov [Hr Ht]] Hwf. split; [by apply Forall_delete|]. split.
  - apply (filter_apart_delete _ ext i conf Hi). intros [H|H]; [congruence|done].
  - intros t x. rewrite (holds_delete ext i conf _ t x Hi).
    split; (intros [H|H]; [left|by right]); [by destruct H as (_ & _ & <- & Hx)|by destruct H as (-> & _ & Hx)].
Qed.

(** The union of two overlapping ranges. *)
Lemma hull_elem conf lock s : wf_range conf -> wf_range lock -> locks_overlap conf lock = true ->
  fl_start s = Z.min (fl_start lock) (fl_start conf) -> fl_end s = Z.max (fl_end lock) (fl_end conf) ->
  wf_range s /\ forall x, x ∈ s <-> x ∈ lock \/ x ∈ conf.
Proof.
  unfold wf_range, locks_overlap. rewrite andb_true_iff, !Z.leb_le. intros. split; [lia|].
  intros x. rewrite !lock_elem. lia.
Qed.

Lemma merge_any_ok fuel : merge_any (insert_and_merge now fuel).
Proof.
  induction fuel as [|fuel IH]; intros m ext lock s Hb Hr Hwf E; [done|]. cbn [insert_and_merge] in E.
  pose proof (scan_from_spec lock ext 0) as Hscan. destruct (scan_from 0 ext lock) as [i conf| |] eqn:Es.
  - apply (scan_own ext lock i conf Hwf) in Es as Hc. destruct (own_conf_delete ext lock i conf Hc Hwf) as (Hwf' & Hap & Hh).
    destruct Hc as [Hi Hbc Hoc Hov [Hrc Htc]].
    destruct (bool_decide (fl_type conf = fl_type lock) && (lk_flags conf =? lk_flags lock)) eqn:Et.
    + destruct (add_locks m lock conf lock) as [[sum|] m1] eqn:Ea; [|done].
      apply andb_true_iff in Et as [Et _]. apply bool_decide_eq_true in Et.
      apply add_locks_spec in Ea as ([Hsb Hso] & Hst & _ & Hss & Hse).
      destruct (hull_elem conf lock sum Hrc Hr Hov Hss Hse) as [Hrs Hx].
      destruct (IH m1 (delete i ext) sum s) as [H1 H2 H3]; [congruence|done|done|done|]. rewrite Hso in *.
      split; [done|congruence|]. intros t x Ht. destruct (H3 t x Ht) as [H|(-> & Hu & H)]; [left; apply Hh; by right|].
      apply Hx in H as [H|H]; [right|left; apply Hh; left]; split; try split; congruence || done.
    + destruct (add_locks m lock conf conf) as [[sum|] m1] eqn:Ea; [|done].
      apply add_locks_spec in Ea as ([Hsb Hso] & Hst & _ & Hss & Hse).
      destruct (hull_elem conf lock sum Hrc Hr Hov Hss Hse) as [Hrs Hx].
      destruct (subtract_locks m1 sum lock) as [v m2] eqn:Ev. apply subtract_pieces in Ev.
      destruct (foldl _ _ v) as [[ext1 m3]| |] eqn:Ef; [|done|done]. injection E as <-.
      apply fold_runs in Ef.
      assert (Hp : forall p, p ∈ v -> piece_of lock p /\ wf_range p /\ ((fl_type p = fl_type lock /\ forall x, x ∈ p <-> x ∈ lock) \/
        (fl_type p = fl_type sum /\ forall x, x ∈ p -> x ∈ sum /\ ~ x ∈ lock))).
      { intros p Hp. eapply pieces_in; eauto; [lia..|]. split; congruence. }
      apply (merged_fold _ (lk_owner lock) (fun t x => covers conf t x \/ covers lock t x)) in Ef.
      * destruct Ef as [H1 H2 H3]. cbn [fst] in *. rewrite (delete_unlck_wf ext1 H1). split; [done|congruence|].
        intros t x Ht. destruct (H3 t x Ht) as [H|[H|H]]; rewrite Hh; auto.
      * intros e m' p s' Hin He Hs'. destruct (Hp p Hin) as ([Hpb Hpo] & Hpr & _). rewrite <- Hpo.
        by apply (IH m' e p s'); [congruence|..].
      * done.
      * intros p t x Hin (-> & Hu & Hxp). destruct (Hp p Hin) as (_ & _ & [[Ht Hxl]|[Ht Hxl]]).
        -- right. split; [done|]. split; [done|by apply Hxl].
        -- left. destruct (Hxl x Hxp) as [H Hn]. apply Hx in H as [H|H]; [done|]. split; [congruence|]. done.
  - injection E as <-. apply insert_lock_merged; try done. destruct Hscan as [-> _]. done.
  - case_bool_decide as Eu; injection E as <-.
    + split; [done|done|]. auto.
    + by apply insert_lock_merged.
Qed.
End Any.
