(* ===== verification/PlFuel.v ===== *)
(** * Merging terminates

    Every recursive call of [__insert_and_merge] works on less: count the ends
    of locks that lie in each lock of the owner.  A merge replaces two locks
    that overlap by their union, or by pieces of it, and the ends of the pieces
    are ends of the two locks. *)
From stdpp Require Import gmap.
From S2P Require Import Prelude PlCommon PlMerge.

Lemma sum_with_le {A} (f g : A -> nat) (l : list A) :
  (forall x, (f x <= g x)%nat) -> (sum_list_with f l <= sum_list_with g l)%nat.
Proof. intros H. induction l as [|x l IH]; cbn; [lia|]. specialize (H x). lia. Qed.

Lemma sum_with_lt {A} (f g : A -> nat) (l : list A) y :
  (forall x, (f x <= g x)%nat) -> y ∈ l -> (f y < g y)%nat -> (sum_list_with f l < sum_list_with g l)%nat.
Proof.
  intros H Hy Hlt. induction l as [|x l IH]; [by apply elem_of_nil in Hy|]. cbn.
  apply elem_of_cons in Hy as [-> | Hy]; [pose proof (sum_with_le f g l H); lia|].
  specialize (IH Hy). specialize (H x). lia.
Qed.

Lemma sum_with_swap {A B} (f : A -> B -> nat) (l : list A) (k : list B) :
  sum_list_with (fun a => sum_list_with (f a) k) l = sum_list_with (fun b => sum_list_with (fun a => f a b) l) k.
Proof.
  assert (H0 : sum_list_with (fun _ : B => 0%nat) k = 0%nat) by (induction k; cbn; auto).
  assert (Ha : forall g h : B -> nat,
    sum_list_with (fun b => g b + h b)%nat k = (sum_list_with g k + sum_list_with h k)%nat).
  { intros g h. clear H0. induction k as [|b k IH]; cbn; [done|]. rewrite IH. lia. }
  induction l as [|a l IH]; cbn; [done|]. by rewrite Ha, IH.
Qed.

(** ** Ends of locks *)

Section Rank.
Context (E : list Z).

Definition ind (l : posix_lock_t) (e : Z) : nat := if decide (e ∈ l) then 1 else 0.

Definition rank (l : posix_lock_t) : nat := sum_list_with (ind l) E.

Definition closed (l : posix_lock_t) : Prop := fl_start l ∈ E /\ fl_end l + 1 ∈ E.

Definition own_rank (o : gf_lkowner_t * Z) (l : posix_lock_t) : nat := if decide (apart o l) then 0 else rank l.

Definition total (o : gf_lkowner_t * Z) (ext : list posix_lock_t) : nat := sum_list_with (own_rank o) ext.

Definition own_closed (o : gf_lkowner_t * Z) (ext : list posix_lock_t) : Prop :=
  Forall (fun l => ~ apart o l -> closed l) ext.

Lemma rank_le l : (rank l <= length E)%nat.
Proof.
  unfold rank. transitivity (sum_list_with (fun _ => 1%nat) E).
  - apply sum_with_le. intros e. unfold ind. case_decide; lia.
  - induction E as [|e E' IH]; cbn; [lia|]. lia.
Qed.

Lemma rank_lt v conf lock :
  (forall e, (sum_list_with (fun p => ind p e) v <= ind conf e + ind lock e)%nat) ->
  (exists e, e ∈ E /\ (sum_list_with (fun p => ind p e) v < ind conf e + ind lock e)%nat) ->
  (sum_list_with rank v < rank conf + rank lock)%nat.
Proof.
  intros H (e & He & Hlt). unfold rank at 1. rewrite (sum_with_swap ind v E).
  replace (rank conf + rank lock)%nat with (sum_list_with (fun e => ind conf e + ind lock e)%nat E).
  - by apply (sum_with_lt _ _ _ e).
  - unfold rank. clear. induction E as [|e E' IH]; cbn; [done|]. rewrite IH. lia.
Qed.

(** The greater of the two starts is in both locks. *)
Lemma overlap_point conf lock : closed conf -> closed lock -> wf_range conf -> wf_range lock ->
  locks_overlap conf lock = true -> exists e, e ∈ E /\ e ∈ conf /\ e ∈ lock.
Proof.
  intros [Hc _] [Hl _] Hr1 Hr2. unfold locks_overlap. rewrite andb_true_iff, !Z.leb_le. intros Ho.
  unfold wf_range in *. exists (Z.max (fl_start conf) (fl_start lock)). rewrite !lock_elem. split; [|lia].
  by destruct (Z.max_spec (fl_start conf) (fl_start lock)) as [[_ ->]|[_ ->]].
Qed.

Ltac by_cases := unfold ind; repeat case_decide; rewrite ?lock_elem in *; lia.

(** The union of two overlapping locks. *)
Lemma hull_rank conf lock s : closed conf -> closed lock -> wf_range conf -> wf_range lock ->
  locks_overlap conf lock = true ->
  fl_start s = Z.min (fl_start lock) (fl_start conf) -> fl_end s = Z.max (fl_end lock) (fl_end conf) ->
  closed s /\ (rank s < rank conf + rank lock)%nat.
Proof.
  intros Hc Hl Hr1 Hr2 Ho Hs He. destruct (overlap_point conf lock Hc Hl Hr1 Hr2 Ho) as (e & HE & Hec & Hel).
  destruct (hull_elem conf lock s Hr1 Hr2 Ho Hs He) as [_ Hx]. split.
  - destruct Hc, Hl. split; [rewrite Hs|rewrite He]; (destruct (Z.min_spec (fl_start lock) (fl_start conf)) as [[_ ->]|[_ ->]] ||
      destruct (Z.max_spec (fl_end lock) (fl_end conf)) as [[_ ->]|[_ ->]]); done.
  - replace (rank s) with (sum_list_with rank [s]) by (cbn; lia). apply rank_lt.
    + intros e'. cbn. unfold ind. specialize (Hx e'). repeat case_decide; tauto || lia.
    + exists e. split; [done|]. cbn. unfold ind. repeat case_decide; tauto || lia.
Qed.

(** The pieces around a lock. *)
Lemma pieces_rank conf lock s v : closed conf -> closed lock -> wf_range conf -> wf_range lock ->
  locks_overlap conf lock = true ->
  fl_start s = Z.min (fl_start lock) (fl_start conf) -> fl_end s = Z.max (fl_end lock) (fl_end conf) ->
  pieces s lock v -> Forall closed v /\ (sum_list_with rank v < rank conf + rank lock)%nat.
Proof.
  intros Hc Hl Hr1 Hr2 Ho Hs He Hv. destruct (overlap_point conf lock Hc Hl Hr1 Hr2 Ho) as (e & HE & Hec & Hel).
  destruct (hull_rank conf lock s Hc Hl Hr1 Hr2 Ho Hs He) as [Hcs _].
  destruct (hull_elem conf lock s Hr1 Hr2 Ho Hs He) as [_ Hx]. rewrite lock_elem in Hec, Hel. unfold wf_range in *.
  split.
  - destruct Hcs, Hl. unfold locks_overlap in Ho.
    destruct Hv as [|p|u w|w|u]; repeat constructor; unfold closed; try (split; congruence);
      repeat match goal with H : fl_start _ = _ |- _ => rewrite H | H : fl_end _ = _ |- _ => rewrite H end;
      rewrite ?Z.sub_add; congruence || done.
  - apply rank_lt.
    + intros e'. specialize (Hx e'). rewrite !lock_elem in Hx. destruct Hv as [|p|u w|w|u]; cbn; by_cases.
    + exists e. split; [done|]. specialize (Hx e). rewrite !lock_elem in Hx. destruct Hv as [|p|u w|w|u]; cbn; by_cases.
Qed.
End Rank.

Arguments total : simpl never.
Arguments own_closed : simpl never.
Arguments rank : simpl never.

(** ** Enough fuel *)

Section Enough.
Context (now : Z) (E : list Z).

(** Result of a merge that does not run out of fuel. *)
Definition in_budget (o : gf_lkowner_t * Z) (n : nat) (r : outcome (list posix_lock_t * mem)) : Prop :=
  match r with
  | Done s => Forall wf_lock s.1 /\ own_closed E o s.1 /\ (total E o s.1 <= n)%nat
  | Fault => True
  | NoFuel => False
  end.

Lemma own_rank_own o l : blocked l = false -> lk_owner l = o -> own_rank E o l = rank E l.
Proof. intros Hb Ho. unfold own_rank. rewrite decide_False; [done|]. intros [H|H]; congruence. Qed.

Lemma insert_lock_budget o ext l : Forall wf_lock ext -> own_closed E o ext -> closed E l -> blocked l = false ->
  lk_owner l = o -> wf_lock l ->
  in_budget o (total E o ext + rank E l) (Done (__insert_lock now ext l, [])).
Proof.
  intros Hwf Hc Hl Hb Ho Hw. unfold in_budget, __insert_lock. cbn [fst]. rewrite Hb.
  split; [|split].
  - apply Forall_app. split; [done|]. by constructor.
  - apply Forall_app. split; [done|]. constructor; [|constructor]. intros _. exact Hl.
  - unfold total. rewrite sum_list_with_app. cbn [sum_list_with].
    rewrite own_rank_own by done. change (rank E (set_times l (blkd_time l) now)) with (rank E l). lia.
Qed.

Lemma in_budget_le o n n' r : in_budget o n r -> (n <= n')%nat -> in_budget o n' r.
Proof. destruct r as [s| |]; cbn; [|done|done]. intros (? & ? & ?) ?. split; [done|]. split; [done|]. lia. Qed.

(** The fold over the pieces stays within what is there and the pieces. *)
Lemma fold_budget f o v : forall n ext m,
  (forall ext m p, p ∈ v -> Forall wf_lock ext -> own_closed E o ext -> (total E o ext + rank E p <= n)%nat ->
    in_budget o (total E o ext + rank E p) (f m ext p)) ->
  Forall wf_lock ext -> own_closed E o ext -> (total E o ext + sum_list_with (rank E) v <= n)%nat ->
  in_budget o (total E o ext + sum_list_with (rank E) v) (fold_pieces f (Done (ext, m)) v).
Proof.
  induction v as [|p v IH]; intros n ext m Hf Hwf Hc Hn.
  - cbn. split; [done|]. split; [done|]. lia.
  - cbn [sum_list_with] in *. change (fold_pieces f (Done (ext, m)) (p :: v)) with (fold_pieces f (f m ext p) v).
    specialize (Hf ext m p) as Hp. destruct (f m ext p) as [[ext1 m1]| |] eqn:Ef.
    + destruct Hp as (Hwf1 & Hc1 & Ht1); [by left|done|done|lia|]. cbn [fst] in *.
      assert (H : in_budget o (total E o ext1 + sum_list_with (rank E) v) (fold_pieces f (Done (ext1, m1)) v)).
      { apply (IH n); [|done|done|lia]. intros e' m' p' Hp'. apply Hf. by right. }
      apply (in_budget_le _ _ _ _ H). lia.
    + by rewrite (proj1 (fold_stuck f v)).
    + exfalso. apply Hp; [by left|done|done|lia].
Qed.

Lemma own_conf_total ext lock i conf : own_conf ext lock i conf -> Forall wf_lock ext -> own_closed E (lk_owner lock) ext ->
  closed E conf /\ own_closed E (lk_owner lock) (delete i ext) /\
  total E (lk_owner lock) ext = (rank E conf + total E (lk_owner lock) (delete i ext))%nat.
Proof.
  intros [Hi Hb Ho _ _] Hwf Hc. split; [|split].
  - eapply (Forall_lookup_1 _ _ _ _ Hc Hi). intros [H|H]; congruence.
  - by apply Forall_delete.
  - unfold total. rewrite (delete_Permutation ext i conf Hi) at 1. cbn [sum_list_with]. by rewrite own_rank_own.
Qed.

Lemma merge_enough fuel : forall m ext lock,
  blocked lock = false -> wf_range lock -> Forall wf_lock ext -> own_closed E (lk_owner lock) ext -> closed E lock ->
  (total E (lk_owner lock) ext + rank E lock < fuel)%nat ->
  in_budget (lk_owner lock) (total E (lk_owner lock) ext + rank E lock) (insert_and_merge now fuel m ext lock).
Proof.
  induction fuel as [|fuel IH]; intros m ext lock Hb Hr Hwf Hcl Hl Hn; [lia|]. cbn [insert_and_merge].
  pose proof (scan_from_spec lock ext 0) as Hscan. destruct (scan_from 0 ext lock) as [i conf| |] eqn:Es.
  - apply (scan_own ext lock i conf Hwf) in Es as Hc.
    destruct (own_conf_total ext lock i conf Hc Hwf Hcl) as (Hcc & Hcl' & Htot).
    destruct (own_conf_delete ext lock i conf Hc Hwf) as (Hwf' & _ & _). destruct Hc as [Hi Hbc Hoc Hov [Hrc Htc]].
    destruct (bool_decide (fl_type conf = fl_type lock) && (lk_flags conf =? lk_flags lock)).
    + destruct (add_locks m lock conf lock) as [[sum|] m1] eqn:Ea; [|exact I].
      apply add_locks_spec in Ea as ([Hsb Hso] & Hst & _ & Hss & Hse).
      destruct (hull_rank E conf lock sum Hcc Hl Hrc Hr Hov Hss Hse) as [Hcs Hrk].
      destruct (hull_elem conf lock sum Hrc Hr Hov Hss Hse) as [Hrs _]. rewrite <- Hso in *.
      apply (in_budget_le _ _ _ _ (IH m1 (delete i ext) sum ltac:(congruence) Hrs Hwf' Hcl' Hcs ltac:(lia))). lia.
    + destruct (add_locks m lock conf conf) as [[sum|] m1] eqn:Ea; [|exact I].
      apply add_locks_spec in Ea as ([Hsb Hso] & Hst & _ & Hss & Hse).
      destruct (hull_elem conf lock sum Hrc Hr Hov Hss Hse) as [Hrs _].
      destruct (subtract_locks m1 sum lock) as [v m2] eqn:Ev. apply subtract_pieces in Ev.
      destruct (pieces_rank E conf lock sum v Hcc Hl Hrc Hr Hov Hss Hse Ev) as [Hcv Hrk].
      assert (Hfold : in_budget (lk_owner lock) (total E (lk_owner lock) (delete i ext) + sum_list_with (rank E) v)
        (fold_pieces (insert_and_merge now fuel) (Done (delete i ext, m2)) v)).
      { apply (fold_budget _ _ _ (total E (lk_owner lock) (delete i ext) + sum_list_with (rank E) v)); try done.
        intros e m' p Hp He Hce Hle. rewrite Forall_forall in Hcv.
        destruct (pieces_in sum lock v p Ev Hp) as ([Hpb Hpo] & Hpr & _); try done; try lia; [split; congruence|].
        rewrite <- Hpo in *. apply IH; try done; try congruence; [by apply Hcv|lia]. }
      unfold fold_pieces in Hfold. destruct (foldl _ _ v) as [[ext1 m3]| |]; cbn in *; try done.
      destruct Hfold as (H1 & H2 & H3). rewrite (delete_unlck_wf ext1 H1). split; [done|]. split; [done|]. lia.
  - apply insert_lock_budget; try done. split; [done|]. destruct Hscan as [-> _]. done.
  - case_bool_decide as Eu; [cbn; split; [done|]; split; [done|]; lia|]. by apply insert_lock_budget.
Qed.
End Enough.

(** The ends of the locks of a list. *)
Definition ends (ext : list posix_lock_t) : list Z := (fl_start <$> ext) ++ ((fun l => fl_end l + 1) <$> ext).

Lemma ends_closed ext l : l ∈ ext -> closed (ends ext) l.
Proof.
  intros Hl. unfold closed, ends. rewrite !elem_of_app, !list_elem_of_fmap. split; [left|right]; by exists l.
Qed.

Lemma total_le E o ext : (total E o ext <= length ext * length E)%nat.
Proof.
  unfold total. induction ext as [|l ext IH]; cbn; [lia|]. assert ((own_rank E o l <= length E)%nat); [|lia].
  unfold own_rank. case_decide; [lia|apply rank_le].
Qed.

(** [merge_fuel] is enough, whatever the allocations do. *)
Lemma merge_terminates now m ext lock :
  blocked lock = false -> wf_range lock -> Forall wf_lock ext -> __insert_and_merge now m ext lock <> NoFuel.
Proof.
  intros Hb Hr Hwf E0. pose proof (merge_enough now (ends (lock :: ext)) (merge_fuel ext) m ext lock Hb Hr Hwf) as H.
  unfold __insert_and_merge in E0. rewrite E0 in H. apply H.
  - apply Forall_forall. intros l Hl _. apply ends_closed. by right.
  - apply ends_closed. by left.
  - pose proof (total_le (ends (lock :: ext)) (lk_owner lock) ext). pose proof (rank_le (ends (lock :: ext)) lock).
    assert (Hlen : length (ends (lock :: ext)) = (2 * S (length ext))%nat) by (unfold ends; rewrite length_app, !length_fmap; cbn; lia).
    unfold merge_fuel. cbv zeta. rewrite Hlen in *. lia.
Qed.
