(* ===== verification/PlExact.v ===== *)
(** * The exact effect of merging a lock

    Without allocation failures a merge gives every byte of the range the type
    of the lock and leaves the other bytes as they are.  There is one
    exception: turning a write lock into a read lock while there are other
    readers may leave parts of the write lock in place; [downgrade_safe] rules
    it out. *)
From stdpp Require Import gmap.
From S2P Require Import Prelude PlCommon PlMerge PlFuel.

Definition downgrade_safe (ext : list posix_lock_t) (lock : posix_lock_t) : Prop :=
  fl_type lock = F_RDLCK ->
  (forall x, x ∈ lock -> ~ holds ext (lk_owner lock) F_WRLCK x) \/
  (forall l, l ∈ ext -> blocked l = false -> lk_owner l <> lk_owner lock -> fl_type l <> F_RDLCK).

Lemma updated_in (H : lk_type -> Z -> Prop) l t x : x ∈ l -> (updated H l t x <-> t = fl_type l /\ t <> F_UNLCK).
Proof. intros Hx. unfold updated. by rewrite decide_True. Qed.

Lemma updated_out (H : lk_type -> Z -> Prop) l t x : ~ x ∈ l -> (updated H l t x <-> H t x).
Proof. intros Hx. unfold updated. by rewrite decide_False. Qed.

Lemma updated_single H l : single H -> single (updated H l).
Proof. intros HH t t' x. unfold updated. case_decide; [intros [-> _] [-> _]; done|apply HH]. Qed.

Lemma updated_iff (H H' : lk_type -> Z -> Prop) l :
  (forall t x, H t x <-> H' t x) -> forall t x, updated H l t x <-> updated H' l t x.
Proof. intros E t x. unfold updated. by case_decide. Qed.

Lemma single_iff (H H' : lk_type -> Z -> Prop) : (forall t x, H t x <-> H' t x) -> single H -> single H'.
Proof. intros E HH t t' x H1 H2. apply (HH t t' x); by apply E. Qed.

(** No byte of another type is left in the range. *)
Lemma wf_holds ext o t x : Forall wf_lock ext -> holds ext o t x -> t <> F_UNLCK.
Proof. intros Hwf (l & Hl & _ & _ & <- & _). rewrite Forall_forall in Hwf. by apply (Hwf l). Qed.

Definition merge_exact (f : mem -> list posix_lock_t -> posix_lock_t -> outcome (list posix_lock_t * mem)) : Prop :=
  forall ext lock s, blocked lock = false -> wf_range lock -> Forall wf_lock ext ->
    single (holds ext (lk_owner lock)) -> downgrade_safe ext lock -> f [] ext lock = Done s ->
    s.2 = [] /\ forall t x, holds s.1 (lk_owner lock) t x <-> updated (holds ext (lk_owner lock)) lock t x.

Definition upd_all (H : lk_type -> Z -> Prop) (v : list posix_lock_t) : lk_type -> Z -> Prop := foldl updated H v.

Lemma upd_all_iff v : forall H H' : lk_type -> Z -> Prop,
  (forall t x, H t x <-> H' t x) -> forall t x, upd_all H v t x <-> upd_all H' v t x.
Proof. induction v as [|p v IH]; intros H H' E; [exact E|]. apply IH, updated_iff, E. Qed.

(** The fold over the pieces, for pieces that are safe at every stage. *)
Lemma exact_fold f o v (Q : list posix_lock_t -> Prop) : merge_exact f -> merge_any f ->
  (forall p, p ∈ v -> blocked p = false /\ wf_range p /\ lk_owner p = o) ->
  (forall ext p, p ∈ v -> Q ext -> downgrade_safe ext p) ->
  (forall ext p s, p ∈ v -> Q ext -> merged o (covers p) ext s -> Q s) ->
  forall ext s, Forall wf_lock ext -> single (holds ext o) -> Q ext -> runs_pieces f (ext, []) v s ->
  s.2 = [] /\ forall t x, holds s.1 o t x <-> upd_all (holds ext o) v t x.
Proof.
  intros Hex Hany Hp Hsafe HQ. induction v as [|p v IH]; intros ext s Hwf Hs Hq Hr;
    inversion Hr as [s0|ext' m' p' v' s1 s2 Ef Hr']; subst; [by split|].
  destruct (Hp p) as (Hb & Hw & Ho); [by left|]. subst o.
  destruct (Hex ext p s1 Hb Hw Hwf Hs) as [Hm Hh]; [by apply Hsafe; [left|]|done|].
  pose proof (Hany [] ext p s1 Hb Hw Hwf Ef) as Hmg. destruct s1 as [ext1 m1]. cbn [fst snd] in *. subst m1.
  destruct (IH ltac:(by intros; apply Hp; right) ltac:(by intros; apply Hsafe; [right|])
    ltac:(by intros e q s3 Hq3; apply HQ; right) ext1 s) as [Hm' Hh'].
  - apply Hmg.
  - eapply single_iff; [intros t x; symmetry; apply Hh|]. by apply updated_single.
  - by eapply HQ; [left| |exact Hmg].
  - done.
  - split; [done|]. intros t x. rewrite Hh'. cbn [upd_all foldl]. apply upd_all_iff, Hh.
Qed.

(** Around [lock], the pieces restore what [conf] had and [lock] gets its type. *)
Lemma upd_pieces (H0 : lk_type -> Z -> Prop) conf lock s v :
  wf_range conf -> wf_range lock -> wf_lock conf -> locks_overlap conf lock = true ->
  fl_type s = fl_type conf ->
  fl_start s = Z.min (fl_start lock) (fl_start conf) -> fl_end s = Z.max (fl_end lock) (fl_end conf) ->
  pieces s lock v -> v <> [] -> forall t x,
  upd_all H0 v t x <->
  if decide (x ∈ lock) then t = fl_type lock /\ t <> F_UNLCK else if decide (x ∈ conf) then t = fl_type conf else H0 t x.
Proof.
  intros Hr1 Hr2 [_ Hu] Ho Ht Hs He Hv Hne t x.
  destruct (hull_elem conf lock s Hr1 Hr2 Ho Hs He) as [_ Hx]. specialize (Hx x).
  unfold wf_range in *. destruct Hv as [|p|u w|w|u]; [done|..]; unfold upd_all; cbn [foldl]; unfold updated;
    repeat case_decide; rewrite ?lock_elem in *; try lia; try tauto.
  all: split; intros; destruct_and?; try split; congruence.
Qed.

(** A piece is safe at every stage of the fold. *)
Lemma piece_safe ext lock i conf sum v ext' p :
  own_conf ext lock i conf -> Forall wf_lock ext -> wf_range lock -> single (holds ext (lk_owner lock)) ->
  downgrade_safe ext lock -> blocked lock = false -> piece_of conf sum -> fl_type sum = fl_type conf ->
  fl_start sum = Z.min (fl_start lock) (fl_start conf) -> fl_end sum = Z.max (fl_end lock) (fl_end conf) ->
  pieces sum lock v -> p ∈ v ->
  merged (lk_owner lock) (fun t x => covers conf t x \/ covers lock t x) (delete i ext) ext' ->
  downgrade_safe ext' p.
Proof.
  intros Hc Hwf Hr Hs Hsafe Hb [Hsb Hso] Hst Hss Hse Hv Hp Hmg Hpt.
  destruct (own_conf_delete ext lock i conf Hc Hwf) as (Hwf' & Hap & Hh). destruct Hc as [Hi Hbc Hoc Hov [Hrc Htc]].
  destruct (hull_elem conf lock sum Hrc Hr Hov Hss Hse) as [Hrs Hx].
  destruct (pieces_in sum lock v p Hv Hp Hrs Hr) as ([Hpb Hpo] & Hpr & Hpx); [lia|lia|split; congruence|].
  assert (Hold : forall t x, holds ext' (lk_owner lock) t x -> holds ext (lk_owner lock) t x \/ covers lock t x).
  { intros t x H. destruct (mg_own _ _ _ _ Hmg t x H) as [H1|[H1|H1]]; [left; apply Hh; by right|left; apply Hh; by left|by right]. }
  destruct Hpx as [[Ht Hpl]|[Ht Hpl]].
  - destruct Hsafe as [HA|HB]; [congruence|left|right].
    + intros x Hxp. rewrite Hpo. intros H. apply Hpl in Hxp.
      destruct (Hold _ _ H) as [H1|(H1 & _)]; [by apply (HA x)|congruence].
    + intros l Hl Hlb Hlo. rewrite Hpo in Hlo. apply (HB l); [|done|done].
      assert (Hin : l ∈ filter (apart (lk_owner lock)) ext) by (rewrite <- Hap, <- (mg_apart _ _ _ _ Hmg); apply list_elem_of_filter; split; [by right|done]).
      by apply list_elem_of_filter in Hin as [_ ?].
  - left. intros x Hxp. rewrite Hpo. intros H. destruct (Hpl x Hxp) as [Hxs Hxl]. apply Hx in Hxs as [?|Hxc]; [done|].
    destruct (Hold _ _ H) as [H1|(_ & _ & ?)]; [|done].
    assert (F_WRLCK = fl_type conf); [|congruence]. apply (Hs _ _ x H1), Hh. left. by split.
Qed.

Section Exact.
Context (now : Z).

Lemma insert_lock_exact ext lock : blocked lock = false -> wf_range lock -> Forall wf_lock ext -> fl_type lock <> F_UNLCK ->
  (forall t x, x ∈ lock -> holds ext (lk_owner lock) t x -> t = fl_type lock) -> forall t x,
  holds (__insert_lock now ext lock) (lk_owner lock) t x <-> updated (holds ext (lk_owner lock)) lock t x.
Proof.
  intros Hb Hr Hwf Hu Hx t x. rewrite holds_insert_lock. unfold updated. case_decide as Hd; [|naive_solver].
  split; [intros [H|(_ & _ & <- & _)]|intros [-> _]; by right]; [|done].
  split; [by apply (Hx t x)|by eapply wf_holds].
Qed.

(** The locks of the owner without [conf]. *)
Lemma own_conf_views ext lock i conf : own_conf ext lock i conf -> Forall wf_lock ext -> single (holds ext (lk_owner lock)) ->
  single (holds (delete i ext) (lk_owner lock)) /\
  (forall t x, x ∈ conf -> (holds ext (lk_owner lock) t x <-> t = fl_type conf)) /\
  (forall t x, ~ x ∈ conf -> (holds ext (lk_owner lock) t x <-> holds (delete i ext) (lk_owner lock) t x)).
Proof.
  intros Hc Hwf Hs. destruct (own_conf_delete ext lock i conf Hc Hwf) as (_ & _ & Hh).
  destruct (oc_wf _ _ _ _ Hc) as [_ Htc]. split; [|split].
  - intros t t' x H1 H2. apply (Hs t t' x); apply Hh; by right.
  - intros t x Hxc. split; [|intros ->; apply Hh; left; done]. intros H. apply (Hs _ _ x H), Hh. by left.
  - intros t x Hxc. rewrite Hh. unfold covers. tauto.
Qed.

(** Merging with a lock of the same type. *)
Lemma exact_same f ext lock i conf sum s : merge_exact f -> own_conf ext lock i conf ->
  blocked lock = false -> wf_range lock -> Forall wf_lock ext -> single (holds ext (lk_owner lock)) ->
  downgrade_safe ext lock -> fl_type conf = fl_type lock -> piece_of lock sum -> fl_type sum = fl_type lock ->
  fl_start sum = Z.min (fl_start lock) (fl_start conf) -> fl_end sum = Z.max (fl_end lock) (fl_end conf) ->
  f [] (delete i ext) sum = Done s ->
  s.2 = [] /\ forall t x, holds s.1 (lk_owner lock) t x <-> updated (holds ext (lk_owner lock)) lock t x.
Proof.
  intros IH Hc Hb Hr Hwf Hs Hsafe Ht [Hsb Hso] Hst Hss Hse E.
  destruct (own_conf_delete ext lock i conf Hc Hwf) as (Hwf' & Hap & Hh).
  destruct (own_conf_views ext lock i conf Hc Hwf Hs) as (Hs' & Hin & Hout).
  destruct Hc as [Hi Hbc Hoc Hov [Hrc Htc]]. destruct (hull_elem conf lock sum Hrc Hr Hov Hss Hse) as [Hrs Hx].
  destruct (IH (delete i ext) sum s) as [Hm H]; [congruence|done|done|by rewrite Hso| |done|].
  { intros Hrd. rewrite Hso. destruct Hsafe as [HA|HB]; [congruence|left|right].
    - intros x [Hxl|Hxc]%Hx Hw; [apply (HA x Hxl), Hh; by right|].
      assert (F_WRLCK = fl_type conf) by (apply Hin with x; [done|]; apply Hh; by right). congruence.
    - intros l Hl. apply HB. rewrite (delete_Permutation ext i conf Hi). by right. }
  split; [done|]. rewrite Hso in H. intros t x. rewrite H. unfold updated.
  destruct (decide (x ∈ sum)) as [Hxs|Hxs]; destruct (decide (x ∈ lock)) as [Hxl|Hxl].
  - by rewrite Hst.
  - apply Hx in Hxs as [?|Hxc]; [done|]. rewrite (Hin t x Hxc), Hst, Ht. split; [tauto|]. intros ->. split; congruence.
  - exfalso. apply Hxs, Hx. by left.
  - symmetry. apply Hout. intros Hxc. apply Hxs, Hx. by right.
Qed.

(** Cutting a lock of another type. *)
Lemma exact_other f ext lock i conf sum v s : merge_exact f -> merge_any f -> own_conf ext lock i conf ->
  blocked lock = false -> wf_range lock -> Forall wf_lock ext -> single (holds ext (lk_owner lock)) ->
  downgrade_safe ext lock -> piece_of conf sum -> fl_type sum = fl_type conf ->
  fl_start sum = Z.min (fl_start lock) (fl_start conf) -> fl_end sum = Z.max (fl_end lock) (fl_end conf) ->
  pieces sum lock v -> v <> [] -> runs_pieces f (delete i ext, []) v s ->
  s.2 = [] /\ forall t x, holds s.1 (lk_owner lock) t x <-> updated (holds ext (lk_owner lock)) lock t x.
Proof.
  intros IH Hany Hc Hb Hr Hwf Hs Hsafe [Hsb Hso] Hst Hss Hse Hv Hne Hruns. pose proof Hc as Hc0.
  destruct (own_conf_delete ext lock i conf Hc Hwf) as (Hwf' & Hap & Hh).
  destruct (own_conf_views ext lock i conf Hc Hwf Hs) as (Hs' & Hin & Hout).
  destruct Hc as [Hi Hbc Hoc Hov [Hrc Htc]]. destruct (hull_elem conf lock sum Hrc Hr Hov Hss Hse) as [Hrs Hx].
  assert (Hp : forall p, p ∈ v -> piece_of lock p /\ wf_range p /\ forall t x, covers p t x -> covers conf t x \/ covers lock t x).
  { intros p Hp. destruct (pieces_in sum lock v p Hv Hp Hrs Hr) as (Hpp & Hpr & Hpx); [lia|lia|split; congruence|].
    split; [done|]. split; [done|]. intros t x (-> & Hu & Hxp). destruct Hpx as [[Ht Hpl]|[Ht Hpl]].
    - right. split; [done|]. split; [done|]. by apply Hpl.
    - destruct (Hpl x Hxp) as [Hxs Hn]. apply Hx in Hxs as [?|?]; [done|]. left. split; [congruence|done]. }
  destruct (exact_fold f (lk_owner lock) v
    (merged (lk_owner lock) (fun t x => covers conf t x \/ covers lock t x) (delete i ext)) IH Hany) with (delete i ext) s as [Hm H];
    try done.
  - intros p Hpv. destruct (Hp p Hpv) as ([Hpb Hpo] & Hpr & _). split; [congruence|]. by split.
  - intros e p Hpv Hmg. by eapply (piece_safe ext lock i conf sum v e p).
  - intros e p e' Hpv Hmg Hmg'. eapply merged_trans; [exact Hmg|exact Hmg'|].
    intros t x [H|H]; [done|]. by apply (Hp p Hpv).
  - split; [done|done|auto].
  - split; [done|]. intros t x. rewrite H, (upd_pieces _ conf lock sum v) by done. unfold updated.
    case_decide; [done|]. case_decide as Hxc; [by rewrite (Hin t x Hxc)|by rewrite (Hout t x Hxc)].
Qed.

Lemma merge_exact_ok fuel : merge_exact (insert_and_merge now fuel).
Proof.
  induction fuel as [|fuel IH]; intros ext lock s Hb Hr Hwf Hs Hsafe E; [done|]. cbn [insert_and_merge] in E.
  pose proof (scan_from_spec lock ext 0) as Hscan. destruct (scan_from 0 ext lock) as [i conf| |] eqn:Es.
  - apply (scan_own ext lock i conf Hwf) in Es as Hc.
    destruct (bool_decide (fl_type conf = fl_type lock) && (lk_flags conf =? lk_flags lock)) eqn:Et.
    + apply andb_true_iff in Et as [Et%bool_decide_eq_true _]. destruct (add_locks_nil lock conf lock) as [sum Ea].
      rewrite Ea in E. apply add_locks_spec in Ea as (Hpc & Hst & _ & Hss & Hse). by eapply exact_same.
    + destruct (add_locks_nil lock conf conf) as [sum Ea]. rewrite Ea in E.
      apply add_locks_spec in Ea as (Hpc & Hst & _ & Hss & Hse).
      destruct (subtract_nil sum lock) as (v & Ev & Hne); [lia|lia|]. rewrite Ev in E. apply subtract_pieces in Ev.
      destruct (foldl _ _ v) as [[ext1 m3]| |] eqn:Ef; [|done|done]. injection E as <-. apply fold_runs in Ef.
      assert (Hwf1 : Forall wf_lock ext1).
      { destruct (own_conf_delete ext lock i conf Hc Hwf) as (Hwf' & _ & _). destruct Hpc, Hc as [? ? ? ? [? ?]].
        destruct (hull_elem conf lock sum) as [Hrs _]; try done.
        apply (merged_fold _ (lk_owner lock) (fun _ _ => True)) in Ef; [apply Ef| |done|done].
        intros e m' p s' Hp He Hs'. destruct (pieces_in sum lock v p) as ([? Hpo] & ? & _); try done; try lia; [split; congruence|].
        rewrite <- Hpo. apply (merge_any_ok now fuel m' e p s'); congruence || done. }
      cbn [fst snd]. rewrite (delete_unlck_wf ext1 Hwf1).
      eapply (exact_other _ ext lock i conf sum v (ext1, m3) IH (merge_any_ok now fuel)); done.
  - injection E as <-. split; [done|]. destruct Hscan as (Ht & conf & Hin & Hbc & Hov & Hne & Hct).
    apply insert_lock_exact; try done; [congruence|]. intros t x Hx H.
    destruct Hsafe as [HA|HB]; [done| |exfalso; by apply (HB conf)].
    pose proof (wf_holds _ _ _ _ Hwf H). destruct t; [done|exfalso; by apply (HA x)|done].
  - assert (Hnone : forall t x, x ∈ lock -> ~ holds ext (lk_owner lock) t x).
    { intros t x Hx (l & Hl & Hlb & Hlo & _ & Hlx). rewrite Forall_forall in Hwf. destruct (Hwf l Hl) as [Hlr _].
      assert (locks_overlap l lock = true) by (apply locks_overlap_spec; eauto). rewrite (Hscan l Hl Hlb Hlo) in *. done. }
    case_bool_decide as Eu; injection E as <-; (split; [done|]).
    + intros t x. unfold updated. case_decide; [|done]. rewrite Eu. split; [intros H'; by apply Hnone in H'|tauto].
    + apply insert_lock_exact; try done. intros t x Hx H. by apply Hnone in H.
Qed.

(** Without failures nothing is dereferenced that is not there. *)
Lemma fold_not_null v (f : mem -> list posix_lock_t -> posix_lock_t -> outcome (list posix_lock_t * mem)) :
  (forall ext p, match f [] ext p with Done s => s.2 = [] | Fault => False | NoFuel => True end) ->
  forall ext, match fold_pieces f (Done (ext, [])) v with Done s => s.2 = [] | Fault => False | NoFuel => True end.
Proof.
  intros Hf. induction v as [|p v IH]; intros ext; [done|].
  change (fold_pieces f (Done (ext, [])) (p :: v)) with (fold_pieces f (f [] ext p) v).
  specialize (Hf ext p). destruct (f [] ext p) as [[e m]| |]; [cbn in Hf; subst m; apply IH|done|].
  by rewrite (proj2 (fold_stuck f v)).
Qed.

Lemma merge_not_null fuel : forall ext lock,
  match insert_and_merge now fuel [] ext lock with Done s => s.2 = [] | Fault => False | NoFuel => True end.
Proof.
  induction fuel as [|fuel IH]; intros ext lock; [done|]. cbn [insert_and_merge].
  destruct (scan_from 0 ext lock) as [i conf| |]; [|done|by case_bool_decide].
  destruct (bool_decide (fl_type conf = fl_type lock) && (lk_flags conf =? lk_flags lock)).
  - destruct (add_locks_nil lock conf lock) as [sum ->]. apply IH.
  - destruct (add_locks_nil lock conf conf) as [sum Ea]. rewrite Ea. apply add_locks_spec in Ea as (_ & _ & _ & Hs & He).
    destruct (subtract_nil sum lock) as (v & -> & _); [lia|lia|].
    pose proof (fold_not_null v (insert_and_merge now fuel) IH (delete i ext)) as H. unfold fold_pieces in H.
    destruct (foldl _ _ v) as [[e m]| |]; done.
Qed.
End Exact.
