(* ===== verification/PlPosix.v ===== *)
(** * Lock requests, reads and writes on a file (features/locks: common.c, posix.c, reservelk.c)

    The state of an inode and the operations that a client reaches: setting,
    testing and dropping locks ([pl_lk], [pl_flush]), mandatory locking of
    reads and writes ([pl_readv], [pl_writev]), and reservations ([pl_reserve_setlk],
    [pl_reserve_unlock]).  An operation is a sequence of sections that run under
    the mutex of the inode ([setlk_section], [grant_blocked_locks],
    [do_blocked_rw], ...); each section is a function on the state, and so is the
    operation when no other comes in between.  What is sent to clients is a list
    of [event]s. *)
From stdpp Require Import gmap.
From S2P Require Import Prelude PlCommon.

(** ** State *)

Inductive mlk_mode_t : Set := MLK_NONE | MLK_FILE_BASED | MLK_FORCED | MLK_OPTIMAL.

#[global] Instance mlk_mode_eq_dec : EqDecision mlk_mode_t.
Proof. solve_decision. Defined.

Inductive fop_t : Set := GF_FOP_READ | GF_FOP_WRITE.

#[global] Instance fop_eq_dec : EqDecision fop_t.
Proof. solve_decision. Defined.

(** A waiting read or write; [stub] is the call to resume. *)
Record pl_rw_req_t : Set := mkrw { rw_stub : Z; rw_fop : fop_t; region : posix_lock_t }.

(** The parts of [struct __pl_inode] that byte-range locking uses. *)
Record pl_inode_t : Set := mkinode {
  ext_list : list posix_lock_t; rw_list : list pl_rw_req_t;
  reservelk_list : list posix_lock_t; blocked_reservelks : list posix_lock_t;
  blocked_calls : list posix_lock_t;
  metalk_list : list Z; queued_locks : list posix_lock_t;
  mandatory : bool; migrated : bool; mlock_enforced : bool;
  fop_wind_count : Z; track_fop_wind_count : bool }.

Definition with_ext (i : pl_inode_t) (x : list posix_lock_t) : pl_inode_t :=
  mkinode x (rw_list i) (reservelk_list i) (blocked_reservelks i) (blocked_calls i) (metalk_list i)
    (queued_locks i) (mandatory i) (migrated i) (mlock_enforced i) (fop_wind_count i) (track_fop_wind_count i).
Definition with_rw (i : pl_inode_t) (x : list pl_rw_req_t) (n : Z) : pl_inode_t :=
  mkinode (ext_list i) x (reservelk_list i) (blocked_reservelks i) (blocked_calls i) (metalk_list i)
    (queued_locks i) (mandatory i) (migrated i) (mlock_enforced i) n (track_fop_wind_count i).
Definition with_reserve (i : pl_inode_t) (r b c : list posix_lock_t) : pl_inode_t :=
  mkinode (ext_list i) (rw_list i) r b c (metalk_list i)
    (queued_locks i) (mandatory i) (migrated i) (mlock_enforced i) (fop_wind_count i) (track_fop_wind_count i).
Definition with_queued (i : pl_inode_t) (x : list posix_lock_t) : pl_inode_t :=
  mkinode (ext_list i) (rw_list i) (reservelk_list i) (blocked_reservelks i) (blocked_calls i) (metalk_list i)
    x (mandatory i) (migrated i) (mlock_enforced i) (fop_wind_count i) (track_fop_wind_count i).

(** What goes out: the answer to a lock request, an I/O request that goes on
    to the next translator or is resumed, an I/O request that is refused. *)
Inductive event : Set :=
  | Lk (frame op_ret op_errno : Z) (flock : gf_flock)
  | Resume (stub : Z)
  | Refuse (stub op_errno : Z).

(** The environment of a call: the time, the configured mode and the state of clients. *)
Record pl_env : Set := mkplenv {
  e_now : Z; e_mode : mlk_mode_t; e_opversion : Z -> Z; e_bind : Z -> Z }.

Definition PL_LOCK_GRANTED : Z := 0.
Definition PL_LOCK_WOULD_BLOCK : Z := 1.
Definition PL_LOCK_QUEUED : Z := 2.
Definition GF_LK_MANDATORY : Z := 1.

Section Ops.
Context (env : pl_env).

Definition pl_is_mandatory_locking_enabled (i : pl_inode_t) : bool :=
  if bool_decide (e_mode env = MLK_FILE_BASED) && mandatory i then true
  else if bool_decide (e_mode env = MLK_FORCED) || bool_decide (e_mode env = MLK_OPTIMAL) then true
  else false.

Definition pl_metalock_is_active (i : pl_inode_t) : bool :=
  match metalk_list i with [] => false | _ => true end.

Definition __pl_queue_lock (i : pl_inode_t) (reqlock : posix_lock_t) : pl_inode_t :=
  with_queued i (queued_locks i ++ [reqlock]).

(** ** Mandatory locking *)

Definition within_range (existing new : posix_lock_t) : bool :=
  (fl_start existing <=? fl_start new) && (fl_end new <=? fl_end existing).

(** The loop of [__rw_allowable] when locks are enforced. *)
Fixpoint enforced_allowable (ext : list posix_lock_t) (region : posix_lock_t) : bool :=
  match ext with
  | [] => false
  | l :: ext =>
      if same_owner l region then
        if locks_overlap l region then within_range l region else enforced_allowable ext region
      else if locks_overlap l region then false
      else enforced_allowable ext region
  end.

(** The other loop. *)
Fixpoint lock_allowable (ext : list posix_lock_t) (region : posix_lock_t) (op : fop_t) : bool :=
  match ext with
  | [] => true
  | l :: ext =>
      if negb (blocked l) && locks_overlap l region && negb (same_owner l region) then
        if bool_decide (op = GF_FOP_READ) && negb (bool_decide (fl_type l = F_WRLCK))
        then lock_allowable ext region op
        else if bool_decide (e_mode env = MLK_OPTIMAL) && (Z.land (lk_flags l) GF_LK_MANDATORY =? 0)
        then lock_allowable ext region op
        else false
      else lock_allowable ext region op
  end.

Definition __rw_allowable (i : pl_inode_t) (region : posix_lock_t) (op : fop_t) : bool :=
  if mlock_enforced i then enforced_allowable (ext_list i) region
  else lock_allowable (ext_list i) region op.

(** The loop of [do_blocked_rw]: requests that stay, the counter, requests to resume. *)
Fixpoint blocked_rw_loop (i : pl_inode_t) (rws : list pl_rw_req_t) (n : Z) : list pl_rw_req_t * Z * list event :=
  match rws with
  | [] => ([], n, [])
  | rw :: rws =>
      if __rw_allowable i (region rw) (rw_fop rw) then
        let n := if mlock_enforced i && track_fop_wind_count i then n + 1 else n in
        let '(stay, n, evs) := blocked_rw_loop i rws n in (stay, n, Resume (rw_stub rw) :: evs)
      else let '(stay, n, evs) := blocked_rw_loop i rws n in (rw :: stay, n, evs)
  end.

Definition do_blocked_rw (i : pl_inode_t) : pl_inode_t * list event :=
  let '(stay, n, evs) := blocked_rw_loop i (rw_list i) (fop_wind_count i) in
  (with_rw i stay n, evs).

(** Whether the operation may go on, and otherwise whether it may wait;
    [nonblock]: the fd is missing or has O_NONBLOCK. *)
Definition pl_is_fop_allowed (i : pl_inode_t) (region : posix_lock_t) (nonblock : bool) (op : fop_t) : bool * bool :=
  if negb (__rw_allowable i region op) then
    if mlock_enforced i then (false, false)
    else if nonblock then (false, false)
    else (false, true)
  else (true, true).

(** [off_t] arithmetic. *)
Definition s64 (x : Z) : Z := (x + 2 ^ 63) mod 2 ^ 64 - 2 ^ 63.

Definition io_region (client pid : Z) (lk_owner : gf_lkowner_t) (fd offset size : Z) : posix_lock_t :=
  mklock offset (s64 (offset + size - 1)) 0 F_RDLCK false flock0 fd 0 0 0 0 client lk_owner pid false.

(** [pl_readv] and [pl_writev]: the two differ in the error when locks are
    enforced.  [stub] stands for the call. *)
Definition pl_rw (op : fop_t) (m : mem) (i : pl_inode_t) (stub client pid : Z) (lk_owner : gf_lkowner_t)
    (fd offset size : Z) (nonblock : bool) : pl_inode_t * mem * list event :=
  let enabled := if pid <? 0 then false else pl_is_mandatory_locking_enabled i in
  if enabled then
    let region := io_region client pid lk_owner fd offset size in
    match pl_is_fop_allowed i region nonblock op with
    | (true, _) =>
        (if mlock_enforced i && track_fop_wind_count i
         then with_rw i (rw_list i) (fop_wind_count i + 1) else i, m, [Resume stub])
    | (false, false) =>
        (i, m, [Refuse stub (if bool_decide (op = GF_FOP_WRITE) && mlock_enforced i then EBUSY else EAGAIN)])
    | (false, true) =>
        let '(ok, m) := alloc m in
        if negb ok then (i, m, [Refuse stub ENOMEM]) else
        let '(ok, m) := alloc m in
        if negb ok then (i, m, [Refuse stub ENOMEM]) else
        (with_rw i (rw_list i ++ [mkrw stub op region]) (fop_wind_count i), m, [])
    end
  else (i, m, [Resume stub]).

Definition pl_readv := pl_rw GF_FOP_READ.
Definition pl_writev := pl_rw GF_FOP_WRITE.

(** ** Setting locks *)

Definition answers (granted : list grant) : list event := (fun g => Lk g.1 0 0 g.2) <$> granted.

Definition grant_blocked_locks (m : mem) (i : pl_inode_t) : outcome (pl_inode_t * mem * list event) :=
  '(ext, m, granted) ← __grant_blocked_locks (e_now env) m (ext_list i);
  Done (with_ext i ext, m, answers granted).

(** The result tells whether the unlock could be made. *)
Definition pl_send_prelock_unlock (m : mem) (i : pl_inode_t) (old_lock : posix_lock_t)
    : outcome (bool * pl_inode_t * mem * list event) :=
  let u := user_flock old_lock in
  let flock := mkflock F_UNLCK (l_whence u) (l_start u) (l_len u) (l_pid u) [] in
  let '(r, m) := new_posix_lock (e_opversion env (client old_lock)) m flock (client old_lock)
                   (client_pid old_lock) (owner old_lock) (fd old_lock) (lk_flags old_lock) false in
  match r with
  | inl _ => Done (false, i, m, [])
  | inr unlock_lock =>
      '(ext, m) ← __insert_and_merge (e_now env) m (ext_list i) unlock_lock;
      '(ext, m, granted) ← __grant_blocked_locks (e_now env) m ext;
      Done (true, with_ext i ext, m, answers granted)
  end.

(** The end of [pl_setlk], after the mutex has been released: two more sections. *)
Definition setlk_finish (ret : Z) (m : mem) (i : pl_inode_t) (evs : list event)
    : outcome (Z * pl_inode_t * mem * list event) :=
  '(i, m, evs1) ← grant_blocked_locks m i;
  let '(i, evs2) := do_blocked_rw i in
  Done (ret, i, m, evs ++ evs1 ++ evs2).

(** The first section of [pl_setlk]; the second result tells whether the others follow. *)
Definition setlk_section (m : mem) (i : pl_inode_t) (lock : posix_lock_t) (can_block : bool)
    : outcome (Z * bool * pl_inode_t * mem * list event) :=
  if (e_bind env (client lock) =? 0) && can_block && negb (bool_decide (fl_type lock = F_UNLCK))
  then Done (- ENOTCONN, false, i, m, [])
  else
    '(_, i, m, evs) ←
      (if can_block && negb (__is_lock_grantable (ext_list i) lock)
       then pl_send_prelock_unlock m i lock else Done (true, i, m, []));
    if __is_lock_grantable (ext_list i) lock then
      if pl_metalock_is_active i then Done (PL_LOCK_QUEUED, false, __pl_queue_lock i lock, m, evs)
      else
        '(ext, m) ← __insert_and_merge (e_now env) m (ext_list i) lock;
        Done (PL_LOCK_GRANTED, true, with_ext i ext, m, evs)
    else if can_block then
      if pl_metalock_is_active i then Done (PL_LOCK_QUEUED, false, __pl_queue_lock i lock, m, evs)
      else
        Done (PL_LOCK_WOULD_BLOCK, true,
          with_ext i (__insert_lock (e_now env) (ext_list i) (set_blocked lock true)), m, evs)
    else Done (PL_LOCK_WOULD_BLOCK, true, i, m, evs).

Definition pl_setlk (m : mem) (i : pl_inode_t) (lock : posix_lock_t) (can_block : bool)
    : outcome (Z * pl_inode_t * mem * list event) :=
  '(ret, finish, i, m, evs) ← setlk_section m i lock can_block;
  if finish : bool then setlk_finish ret m i evs else Done (ret, i, m, evs).

Definition pl_getlk (i : pl_inode_t) (lock : posix_lock_t) : posix_lock_t :=
  match first_conflicting_overlap (ext_list i) lock with
  | None => set_type lock F_UNLCK
  | Some conf => conf
  end.

(** The first loop of [pl_lock_preempt]: what stays, and the blocked locks, in
    the reverse order. *)
Fixpoint preempt_loop (ext : list posix_lock_t) (reqlock : posix_lock_t) (blist : list posix_lock_t)
    : list posix_lock_t * list posix_lock_t :=
  match ext with
  | [] => ([], blist)
  | l :: ext =>
      if blocked l then preempt_loop ext reqlock (l :: blist)
      else if locks_overlap l reqlock && negb (same_owner l reqlock) then preempt_loop ext reqlock blist
      else let '(stay, blist) := preempt_loop ext reqlock blist in (l :: stay, blist)
  end.

Definition pl_lock_preempt (m : mem) (i : pl_inode_t) (reqlock : posix_lock_t)
    : outcome (pl_inode_t * mem * list event) :=
  let '(ext, blist) := preempt_loop (ext_list i) reqlock [] in
  '(ext, m) ← __insert_and_merge (e_now env) m ext reqlock;
  Done (with_rw (with_ext i ext) [] (fop_wind_count i), m,
        ((fun l => Lk (frame l) (-1) EBUSY (user_flock l)) <$> blist) ++
        ((fun rw => Refuse (rw_stub rw) EBUSY) <$> rev (rw_list i))).

(** ** Dropping locks *)

(** The section that takes the locks of an fd out of the list. *)
Definition drop_fd (i : pl_inode_t) (fd : Z) : pl_inode_t := with_ext i (filter (fun l => fd_num l <> fd) (ext_list i)).

Definition delete_locks_of_fd (m : mem) (i : pl_inode_t) (fd : Z) : outcome (pl_inode_t * mem * list event) :=
  let gone := filter (fun l => fd_num l = fd /\ blocked l = true) (ext_list i) in
  let i := drop_fd i fd in
  '(i, m, evs) ← grant_blocked_locks m i;
  let '(i, evs2) := do_blocked_rw i in
  Done (i, m, ((fun l => Lk (frame l) (-1) EAGAIN (user_flock l)) <$> gone) ++ evs ++ evs2).

Definition __delete_locks_of_owner (ext : list posix_lock_t) (client0 : Z) (owner0 : gf_lkowner_t) : list posix_lock_t :=
  filter (fun l => blocked l = true \/ ~ (client l = client0 /\ owner l = owner0)) ext.

(** The locks that a close drops; the call then goes on to the next translator. *)
Definition pl_flush (m : mem) (i : pl_inode_t) (client0 : Z) (lk_owner : gf_lkowner_t) (fd : Z)
    : outcome (Z + pl_inode_t * mem * list event) :=
  if migrated i then Done (inl EREMOTE)
  else if (length lk_owner =? 0)%nat then
    '(i, m, evs) ← delete_locks_of_fd m i fd; Done (inr (i, m, evs))
  else
    let i := with_ext i (__delete_locks_of_owner (ext_list i) client0 lk_owner) in
    '(i, m, evs) ← grant_blocked_locks m i;
    let '(i, evs2) := do_blocked_rw i in
    Done (inr (i, m, evs ++ evs2)).

(** ** Reservations *)

Definition reservelks_equal (l1 l2 : posix_lock_t) : bool :=
  (fl_start l1 =? fl_start l2) && (fl_end l1 =? fl_end l2).

Definition __reservelk_grantable (i : pl_inode_t) (lock : posix_lock_t) : option posix_lock_t :=
  List.find (fun l => reservelks_equal lock l) (reservelk_list i).

Definition find_matching_reservelk (i : pl_inode_t) (lock : posix_lock_t) : option posix_lock_t :=
  List.find (fun l => reservelks_equal l lock) (reservelk_list i).

(** The result of [__matching_reservelk] when the loop ends without a match is
    the head of the list taken for a lock: a wild pointer. *)
Definition __matching_reservelk (i : pl_inode_t) (lock : posix_lock_t) : outcome (option posix_lock_t) :=
  match reservelk_list i with
  | [] => Done None
  | _ => match List.find (fun l => reservelks_equal l lock) (reservelk_list i) with
         | Some l => Done (Some l)
         | None => Fault
         end
  end.

(** The first lock with the same range leaves the list. *)
Fixpoint remove_reservelk (rs : list posix_lock_t) (lock : posix_lock_t) : list posix_lock_t :=
  match rs with
  | [] => []
  | l :: rs => if reservelks_equal l lock then rs else l :: remove_reservelk rs lock
  end.

Definition __reservelk_conflict (i : pl_inode_t) (lock : posix_lock_t) : outcome (bool * pl_inode_t) :=
  conf ← __matching_reservelk i lock;
  match conf with
  | Some conf =>
      if is_same_lkowner (owner lock) (owner conf)
      then Done (false, with_reserve i (remove_reservelk (reservelk_list i) lock) (blocked_reservelks i) (blocked_calls i))
      else Done (true, i)
  | None => Done (false, i)
  end.

(** [true] when the call goes on. *)
Definition pl_verify_reservelk (i : pl_inode_t) (lock : posix_lock_t) (can_block : bool) : outcome (bool * pl_inode_t) :=
  '(conflict, i) ← __reservelk_conflict i lock;
  if conflict : bool
  then Done (false, with_reserve i (reservelk_list i) (blocked_reservelks i) (blocked_calls i ++ [set_blocked lock can_block]))
  else Done (true, i).

Definition __lock_reservelk (i : pl_inode_t) (lock : posix_lock_t) (can_block : bool) : Z * pl_inode_t :=
  match __reservelk_grantable i lock with
  | Some _ =>
      (- EAGAIN, if can_block then with_reserve i (reservelk_list i) (blocked_reservelks i ++ [lock]) (blocked_calls i) else i)
  | None => (0, with_reserve i (lock :: reservelk_list i) (blocked_reservelks i) (blocked_calls i))
  end.

Definition pl_reserve_setlk (i : pl_inode_t) (lock : posix_lock_t) (can_block : bool) : Z * pl_inode_t :=
  __lock_reservelk i lock can_block.

Definition __reserve_unlock_lock (i : pl_inode_t) (lock : posix_lock_t) : option pl_inode_t :=
  match find_matching_reservelk i lock with
  | None => None
  | Some _ => Some (with_reserve i (remove_reservelk (reservelk_list i) lock) (blocked_reservelks i) (blocked_calls i))
  end.

(** [granted] grows at its front. *)
Fixpoint grant_reserve_loop (i : pl_inode_t) (bl granted : list posix_lock_t) : pl_inode_t * list posix_lock_t :=
  match bl with
  | [] => (i, granted)
  | l :: bl =>
      let '(ret, i) := __lock_reservelk i l true in
      grant_reserve_loop i bl (if ret =? 0 then l :: granted else granted)
  end.

Definition grant_blocked_reserve_locks (i : pl_inode_t) : pl_inode_t * list event :=
  let '(i, granted) := grant_reserve_loop (with_reserve i (reservelk_list i) [] (blocked_calls i)) (blocked_reservelks i) [] in
  (i, (fun l => Lk (frame l) 0 0 (user_flock l)) <$> granted).

(** The list head [granted] of [grant_blocked_lock_calls] is not initialised
    before it is walked. *)
Definition grant_blocked_lock_calls (i : pl_inode_t) : outcome pl_inode_t :=
  match blocked_calls i with [] => Done i | _ => Fault end.

Definition pl_reserve_unlock (i : pl_inode_t) (lock : posix_lock_t) : outcome (Z * pl_inode_t * list event) :=
  let '(ret, i) := match __reserve_unlock_lock i lock with None => (- EINVAL, i) | Some i => (0, i) end in
  let '(i, evs) := grant_blocked_reserve_locks i in
  i ← grant_blocked_lock_calls i;
  Done (ret, i, evs).

(** ** The request *)

Inductive lk_cmd : Set := F_RESLK_LCK | F_RESLK_LCKW | F_RESLK_UNLCK | F_GETLK | F_SETLK | F_SETLKW.

Definition pl_locks_by_fd (i : pl_inode_t) (fd : Z) : bool := existsb (fun l => fd_num l =? fd) (ext_list i).

Definition normalise_flock (flock : gf_flock) : gf_flock :=
  if l_len flock <? 0
  then mkflock (l_type flock) (l_whence flock) (l_start flock + l_len flock) (Z.abs (l_len flock)) (l_pid flock) (l_owner flock)
  else flock.

(** [pl_getlk] changes the type of the lock it is given when nothing conflicts;
    here that lock is the first of the reservations. *)
Definition reserved_getlk (i : pl_inode_t) (lock : posix_lock_t) : pl_inode_t :=
  match first_conflicting_overlap (ext_list i) lock with
  | Some _ => i
  | None =>
      with_reserve i (match reservelk_list i with [] => [] | l :: rs => set_type l F_UNLCK :: rs end)
        (blocked_reservelks i) (blocked_calls i)
  end.

(** The case of [F_SETLK] and [F_SETLKW]. *)
Definition lk_set (m : mem) (i : pl_inode_t) (reqlock : posix_lock_t) (frame0 fd0 : Z) (flock : gf_flock) (can_block : bool)
    : outcome (pl_inode_t * mem * list event) :=
  let lock_type := l_type flock in
  if migrated i then Done (i, m, [Lk frame0 (-1) EREMOTE flock]) else
  '(go, i) ← pl_verify_reservelk i reqlock can_block;
  if negb go then Done (i, m, []) else
  if negb (bool_decide (fl_type reqlock = F_UNLCK)) && mlock_enforced i then
    '(i, m, evs) ← pl_lock_preempt m i reqlock;
    Done (i, m, evs ++ [Lk frame0 0 0 flock])
  else
    '(ret, i, m, evs) ← pl_setlk m i reqlock can_block;
    if ret <? 0 then Done (i, m, evs)
    else if ret =? PL_LOCK_WOULD_BLOCK then
      if can_block && negb (bool_decide (F_UNLCK = lock_type)) then Done (i, m, evs)
      else Done (i, m, evs ++ [Lk frame0 (-1) EAGAIN flock])
    else if ret =? PL_LOCK_QUEUED then Done (i, m, evs)
    else if bool_decide (F_UNLCK = l_type flock) then
      Done (i, m, evs ++ [Lk frame0 0 0 (set_l_type flock (if pl_locks_by_fd i fd0 then F_RDLCK else F_UNLCK))])
    else Done (i, m, evs ++ [Lk frame0 0 0 flock]).

Definition pl_lk (m : mem) (i : pl_inode_t) (frame0 client0 pid : Z) (lk_owner : gf_lkowner_t) (fd0 : Z) (cmd : lk_cmd)
    (flock : gf_flock) (flags : Z) : outcome (pl_inode_t * mem * list event) :=
  if (l_start flock <? 0) || (s64 (l_start flock + l_len flock) <? 0)
  then Done (i, m, [Lk frame0 (-1) EINVAL flock])
  else
    let flock := normalise_flock flock in
    let '(ok, m) := alloc m in
    if negb ok then Done (i, m, [Lk frame0 (-1) ENOMEM flock]) else
    let '(r, m) := new_posix_lock (e_opversion env client0) m flock client0 pid lk_owner fd0 flags false in
    match r with
    | inl e => Done (i, m, [Lk frame0 (-1) e flock])
    | inr reqlock =>
        let framed := set_frame reqlock frame0 in
        let reserve can_block :=
          let '(ret, i) := pl_reserve_setlk i framed can_block in
          if ret <? 0 then
            if can_block : bool then Done (i, m, [])
            else Done (i, m, [Lk frame0 (-1) (- ret) flock])
          else
            let conf := pl_getlk i framed in
            Done (reserved_getlk i framed, m, [Lk frame0 0 0 (posix_lock_to_flock conf flock)]) in
        match cmd with
        | F_RESLK_LCKW => reserve true
        | F_RESLK_LCK => reserve false
        | F_RESLK_UNLCK =>
            '(ret, i, evs) ← pl_reserve_unlock i framed;
            Done (i, m, evs ++ [if ret <? 0 then Lk frame0 (-1) (- ret) flock else Lk frame0 0 0 flock])
        | F_GETLK => Done (i, m, [Lk frame0 0 0 (posix_lock_to_flock (pl_getlk i reqlock) flock)])
        | F_SETLKW => lk_set m i (set_blocking framed true) frame0 fd0 flock true
        | F_SETLK => lk_set m i framed frame0 fd0 flock false
        end
    end.

End Ops.
