(* ===== verification/PlInvariant.v ===== *)
(** * Exclusion: the invariant of the lock list

    Two owners never hold the same byte unless both only read it.  The
    invariant is kept by every operation, whatever the allocations do. *)
From stdpp Require Import gmap.
From S2P Require Import Prelude PlCommon PlMerge PlFuel PlExact PlPosix.

Definition exclusive (ext : list posix_lock_t) : Prop :=
  forall o o' t t' x, o <> o' -> holds ext o t x -> holds ext o' t' x -> t = F_RDLCK /\ t' = F_RDLCK.

(** The owner may take [lock] besides what the others hold. *)
Definition compatible (ext : list posix_lock_t) (lock : posix_lock_t) : Prop :=
  fl_type lock = F_UNLCK \/
  forall o t x, o <> lk_owner lock -> holds ext o t x -> x ∈ lock -> t = F_RDLCK /\ fl_type lock = F_RDLCK.

(** A list of locks that a server may have. *)
Record ext_ok (ext : list posix_lock_t) : Prop := { eo_wf : Forall wf_lock ext; eo_excl : exclusive ext }.

(** ** Grantable *)

Lemma grantable_compatible ext lock : Forall wf_lock ext -> wf_range lock ->
  (__is_lock_grantable ext lock = true <-> compatible ext lock).
Proof.
  intros Hwf Hr. induction Hwf as [|l ext [Hlr Hlt] Hwf IH].
  - split; [|done]. intros _. right. intros o t x _ H. by apply holds_nil in H.
  - unfold compatible in *. setoid_rewrite holds_cons. cbn [__is_lock_grantable].
    destruct (blocked l) eqn:Eb; cbn [negb andb].
    { rewrite IH. naive_solver. }
    destruct (locks_overlap lock l) eqn:Eo.
    + apply locks_overlap_spec in Eo as (y & Hy & Hyl); [|done|done].
      destruct (same_owner l lock) eqn:Es; cbn [negb]; rewrite ?andb_false_r, ?andb_true_r.
      { apply same_owner_spec in Es. rewrite IH. split; intros [H|H]; auto; right; intros o t x Ho; [|eauto].
        intros [(_ & Hlo & _)|H1]; [congruence|eauto]. }
      apply same_owner_false in Es. unfold conflicts.
      destruct (decide (fl_type lock = F_UNLCK)) as [Eu|Eu].
      { rewrite (bool_decide_eq_true_2 _ Eu), andb_false_r. rewrite IH. naive_solver. }
      rewrite (bool_decide_eq_false_2 _ Eu), andb_true_r.
      case_bool_decide as E1; cbn [orb].
      { split; [done|]. intros [?|H]; [done|]. destruct (H (lk_owner l) (fl_type l) y); auto; congruence. }
      case_bool_decide as E2.
      { split; [done|]. intros [?|H]; [done|]. destruct (H (lk_owner l) (fl_type l) y); auto; congruence. }
      assert (fl_type l = F_RDLCK /\ fl_type lock = F_RDLCK) as [H1 H2]
        by (destruct (fl_type l), (fl_type lock); done).
      rewrite IH. split; intros [H|H]; auto; right; intros o t x Ho; [|eauto].
      intros [(_ & _ & <- & _)|H3]; [auto|eauto].
    + rewrite IH. split; intros [H|H]; auto; right; intros o t x Ho; [|eauto].
      intros [(_ & _ & _ & Hx)|H1]; [|eauto]. intros Hx'.
      assert (locks_overlap lock l = true) by (apply locks_overlap_spec; eauto). congruence.
Qed.

(** ** Keeping the invariant *)

Lemma merged_foreign o C ext ext' o' t x : merged o C ext ext' -> o' <> o ->
  (holds ext' o' t x <-> holds ext o' t x).
Proof.
  intros Hm Ho. rewrite <- (holds_filter_apart ext' o o' t x Ho), <- (holds_filter_apart ext o o' t x Ho).
  by rewrite (mg_apart _ _ _ _ Hm).
Qed.

Lemma merged_exclusive ext ext' lock : exclusive ext -> compatible ext lock ->
  merged (lk_owner lock) (covers lock) ext ext' -> exclusive ext'.
Proof.
  intros Hex Hc Hm.
  assert (Hown : forall o t t' x, o <> lk_owner lock -> holds ext' (lk_owner lock) t x -> holds ext' o t' x ->
    t = F_RDLCK /\ t' = F_RDLCK).
  { intros o t t' x Ho H1 H2. rewrite (merged_foreign _ _ ext ext' o t' x Hm Ho) in H2.
    destruct (mg_own _ _ _ _ Hm t x H1) as [H|(-> & Hu & Hx)]; [by apply (Hex (lk_owner lock) o t t' x)|].
    destruct Hc as [Hc|Hc]; [congruence|]. destruct (Hc o t' x Ho H2 Hx). done. }
  intros o o' t t' x Hne H1 H2. destruct (decide (o = lk_owner lock)) as [->|Ho]; [by apply (Hown o' t t' x)|].
  destruct (decide (o' = lk_owner lock)) as [->|Ho']; [destruct (Hown o t' t x Ho H2 H1); done|].
  rewrite (merged_foreign _ _ ext ext' o t x Hm Ho) in H1. rewrite (merged_foreign _ _ ext ext' o' t' x Hm Ho') in H2.
  by apply (Hex o o' t t' x).
Qed.

Lemma merge_ext_ok now m ext lock s : ext_ok ext -> blocked lock = false -> wf_range lock -> compatible ext lock ->
  __insert_and_merge now m ext lock = Done s -> ext_ok s.1.
Proof.
  intros [Hwf Hex] Hb Hr Hc E. pose proof (merge_any_ok now _ m ext lock s Hb Hr Hwf E) as Hm.
  split; [apply Hm|by eapply merged_exclusive].
Qed.

(** Fewer granted locks are fine. *)
Lemma ext_ok_sub ext ext' : ext_ok ext -> Forall wf_lock ext' ->
  (forall o t x, holds ext' o t x -> holds ext o t x) -> ext_ok ext'.
Proof. intros [Hwf Hex] Hwf' Hsub. split; [done|]. intros o o' t t' x Hne H1 H2. eauto. Qed.

Lemma insert_blocked_ok now ext l : ext_ok ext -> wf_lock l -> ext_ok (__insert_lock now ext (set_blocked l true)).
Proof.
  intros Hok Hl. apply (ext_ok_sub ext); [done| |].
  - unfold __insert_lock. cbn [blocked set_blocked]. apply Forall_app. split; [apply Hok|]. constructor; [exact Hl|constructor].
  - intros o t x. rewrite holds_insert_lock. cbn [blocked set_blocked]. naive_solver.
Qed.

Lemma ext_ok_filter (P : posix_lock_t -> Prop) `{forall l, Decision (P l)} ext : ext_ok ext -> ext_ok (filter P ext).
Proof.
  intros Hok. apply (ext_ok_sub ext); [done| |].
  - apply Forall_forall. intros l [_ Hl]%list_elem_of_filter. by apply (Forall_forall wf_lock ext), Hl; apply Hok.
  - intros o t x (l & [_ Hl]%list_elem_of_filter & Hx). by exists l.
Qed.

(** ** Granting blocked locks *)

Lemma take_unblocked_ok rest : forall before tmp,
  Forall wf_lock before -> Forall wf_lock rest -> Forall (fun l => wf_lock l /\ blocked l = false) tmp ->
  let r := take_unblocked before rest tmp in
  Forall wf_lock r.1 /\ Forall (fun l => wf_lock l /\ blocked l = false) r.2 /\
  (forall o t x, holds r.1 o t x <-> holds (before ++ rest) o t x).
Proof.
  induction rest as [|l rest IH]; intros before tmp Hb Hr Ht; cbn [take_unblocked].
  - rewrite app_nil_r. done.
  - inversion Hr as [|? ? Hl Hr']; subst.
    assert (Hb' : Forall wf_lock (before ++ [l])) by (apply Forall_app; auto).
    destruct (blocked l) eqn:Eb.
    + destruct (first_overlap (before ++ l :: rest) l) as [c|].
      * destruct (IH (before ++ [l]) tmp Hb' Hr' Ht) as (H1 & H2 & H3). split; [done|]. split; [done|].
        intros o t x. rewrite H3, <- app_assoc. done.
      * destruct (IH before (tmp ++ [set_blocked l false]) Hb Hr') as (H1 & H2 & H3).
        { apply Forall_app. split; [done|]. by constructor. }
        split; [done|]. split; [done|]. intros o t x. rewrite H3, !holds_app, holds_cons, Eb. naive_solver.
    + destruct (IH (before ++ [l]) tmp Hb' Hr' Ht) as (H1 & H2 & H3). split; [done|]. split; [done|].
      intros o t x. rewrite H3, <- app_assoc. done.
Qed.

Lemma grant_loop_ok now tmp : forall m ext granted,
  ext_ok ext -> Forall (fun l => wf_lock l /\ blocked l = false) tmp ->
  match grant_loop now m ext tmp granted with Done (ext', _, _) => ext_ok ext' | Fault => True | NoFuel => False end.
Proof.
  induction tmp as [|l tmp IH]; intros m ext granted Hok Ht; cbn [grant_loop]; [done|].
  inversion Ht as [|? ? [Hl Hb] Ht']; subst.
  assert (Hback : ext_ok (__insert_lock now ext (set_blocked l true))) by (by apply insert_blocked_ok).
  destruct (__is_lock_grantable ext l) eqn:Eg; [|by apply IH].
  destruct (alloc m) as [[] m1]; cbn [negb]; [|by apply IH].
  apply grantable_compatible in Eg; [|apply Hok|apply Hl].
  destruct (__insert_and_merge now m1 ext (set_frame l 0)) as [[ext1 m2]| |] eqn:Em; [|done|].
  - apply (IH m2 ext1); [|done]. apply (merge_ext_ok now m1 ext (set_frame l 0) (ext1, m2)); try done. apply Hl.
  - by eapply (merge_terminates now m1 ext (set_frame l 0)); [|apply Hl|apply Hok|].
Qed.

Lemma grant_blocked_ok now m ext : ext_ok ext ->
  match __grant_blocked_locks now m ext with Done (ext', _, _) => ext_ok ext' | Fault => True | NoFuel => False end.
Proof.
  intros Hok. unfold __grant_blocked_locks.
  destruct (take_unblocked_ok ext [] []) as (H1 & H2 & H3); [constructor|apply Hok|constructor|].
  destruct (take_unblocked [] ext []) as [ext1 tmp]. apply grant_loop_ok; [|done].
  apply (ext_ok_sub ext); [done|done|]. intros o t x. apply H3.
Qed.

(** ** Operations *)

Lemma merge_ends now m ext lock : ext_ok ext -> blocked lock = false -> wf_range lock -> compatible ext lock ->
  ends_with (fun s => ext_ok s.1) (__insert_and_merge now m ext lock).
Proof.
  intros Hok Hb Hr Hc. destruct (__insert_and_merge now m ext lock) as [s| |] eqn:E; [|done|].
  - by apply (merge_ext_ok now m ext lock s).
  - by apply (merge_terminates now m ext lock Hb Hr) in E; [|apply Hok].
Qed.

Lemma grant_ends now m ext : ext_ok ext -> ends_with (fun r => ext_ok r.1.1) (__grant_blocked_locks now m ext).
Proof.
  intros Hok. pose proof (grant_blocked_ok now m ext Hok) as H.
  by destruct (__grant_blocked_locks now m ext) as [[[ext' m'] g]| |].
Qed.

Definition inode_ok (i : pl_inode_t) : Prop := ext_ok (ext_list i).

(** A lock as [new_posix_lock] makes it from a valid range. *)
Record request (lock : posix_lock_t) : Prop := {
  rq_wf : wf_range lock;
  rq_new : blocked lock = false;
  rq_start : l_start (user_flock lock) = fl_start lock;
  rq_end : (if l_len (user_flock lock) =? 0 then LLONG_MAX
            else l_start (user_flock lock) + l_len (user_flock lock) - 1) = fl_end lock }.

Section Operations.
Context (env : pl_env).

Lemma blocked_rw_ext i rws n : let '(i', _) := do_blocked_rw env (with_rw i rws n) in ext_list i' = ext_list i.
Proof. unfold do_blocked_rw. by destruct (blocked_rw_loop _ _ _ _) as [[? ?] ?]. Qed.

Lemma do_blocked_rw_ok i : inode_ok i -> inode_ok (do_blocked_rw env i).1.
Proof. unfold do_blocked_rw, inode_ok. by destruct (blocked_rw_loop _ _ _ _) as [[? ?] ?]. Qed.

Lemma grant_blocked_locks_ok m i : inode_ok i -> ends_with (fun r => inode_ok r.1.1) (grant_blocked_locks env m i).
Proof.
  intros Hi. unfold grant_blocked_locks. eapply ends_bind; [by apply grant_ends|]. by intros [[ext m'] g] H.
Qed.

Lemma setlk_finish_ok ret m i evs : inode_ok i -> ends_with (fun r => inode_ok r.1.1.2) (setlk_finish env ret m i evs).
Proof.
  intros Hi. unfold setlk_finish. eapply ends_bind; [by apply grant_blocked_locks_ok|].
  intros [[i' m'] evs'] H. pose proof (do_blocked_rw_ok i' H) as H'. by destruct (do_blocked_rw env i').
Qed.

Lemma new_posix_lock_spec v m flock c pid o fd0 flags b lock m' :
  new_posix_lock v m flock c pid o fd0 flags b = (inr lock, m') ->
  fl_start lock = l_start flock /\
  fl_end lock = (if l_len flock =? 0 then LLONG_MAX else l_start flock + l_len flock - 1) /\
  blocked lock = false /\ fl_type lock = l_type flock /\ user_flock lock = flock /\ lk_owner lock = (o, c) /\
  lk_flags lock = flags.
Proof.
  unfold new_posix_lock. destruct (c =? 0); [done|]. destruct (fd0 =? 0); [done|].
  destruct (negb (pl_is_lk_owner_valid v o c)); [done|].
  destruct (alloc m) as [[] m1]; cbn [negb]; [|done]. destruct (alloc m1) as [[] m2]; cbn [negb]; [|done].
  intros [= <- _]. done.
Qed.

Lemma prelock_ok m i lock : inode_ok i -> request lock ->
  ends_with (fun r => inode_ok r.1.1.2) (pl_send_prelock_unlock env m i lock).
Proof.
  intros Hi [Hr Hb Hs He]. unfold pl_send_prelock_unlock. cbv zeta.
  destruct (new_posix_lock _ _ _ _ _ _ _ _ _) as [[e|u] m'] eqn:En; [done|].
  apply new_posix_lock_spec in En as (Hus & Hue & Hub & Hut & _). cbn [l_start l_len l_type] in *.
  eapply ends_bind.
  - apply merge_ends; [done|done| |by left]. unfold wf_range in *. rewrite Hus, Hue, He, Hs. done.
  - intros [ext m2] H. eapply ends_bind; [by apply grant_ends|]. by intros [[ext2 m3] g] H2.
Qed.

Lemma setlk_section_ok m i lock b : inode_ok i -> request lock ->
  ends_with (fun r => inode_ok r.1.1.2) (setlk_section env m i lock b).
Proof.
  intros Hi Hq. unfold setlk_section. destruct (_ && _ && _); [done|].
  eapply (ends_bind (fun r => inode_ok r.1.1.2)).
  { destruct (b && negb (__is_lock_grantable (ext_list i) lock)); [by apply prelock_ok|done]. }
  intros [[[ok i1] m1] evs] Hi1. cbn [fst snd] in Hi1.
  destruct (__is_lock_grantable (ext_list i1) lock) eqn:Eg.
  - destruct (pl_metalock_is_active i1); [done|].
    apply grantable_compatible in Eg; [|apply Hi1|apply Hq].
    eapply ends_bind; [apply merge_ends; [done|apply Hq|apply Hq|done]|].
    by intros [ext m2] Hx.
  - destruct b; [|done]. destruct (pl_metalock_is_active i1); [done|].
    apply insert_blocked_ok; [done|]. split; [apply Hq|].
    intros Hu. assert (Hg : __is_lock_grantable (ext_list i1) lock = true); [|congruence].
    apply grantable_compatible; [apply Hi1|apply Hq|by left].
Qed.

Lemma pl_setlk_ok m i lock b : inode_ok i -> request lock ->
  ends_with (fun r => inode_ok r.1.1.2) (pl_setlk env m i lock b).
Proof.
  intros Hi Hq. unfold pl_setlk. eapply ends_bind; [by apply setlk_section_ok|].
  intros [[[[ret fin] i1] m1] evs] Hi1. cbn [fst snd] in Hi1. destruct fin; [by apply setlk_finish_ok|done].
Qed.

(** Preemption leaves no other owner on the range. *)
Lemma preempt_loop_spec ext lock : forall bl,
  (preempt_loop ext lock bl).1 =
  filter (fun l => blocked l = false /\ ~ (locks_overlap l lock = true /\ same_owner l lock = false)) ext.
Proof.
  induction ext as [|l ext IH]; intros bl; cbn [preempt_loop]; [done|].
  destruct (blocked l) eqn:Eb; [rewrite filter_cons_False by (intros [? _]; congruence); apply IH|].
  destruct (locks_overlap l lock) eqn:Eo; destruct (same_owner l lock) eqn:Es; cbn [negb andb].
  2: rewrite filter_cons_False by (intros [_ H]; by apply H); apply IH.
  all: rewrite filter_cons_True by (split; [done|]; intros [? ?]; congruence); specialize (IH bl); destruct (preempt_loop ext lock bl); cbn [fst] in *; by rewrite IH.
Qed.

Lemma pl_lock_preempt_ok m i lock : inode_ok i -> request lock ->
  ends_with (fun r => inode_ok r.1.1) (pl_lock_preempt env m i lock).
Proof.
  intros Hi Hq. unfold pl_lock_preempt. pose proof (preempt_loop_spec (ext_list i) lock []) as Hp.
  destruct (preempt_loop (ext_list i) lock []) as [ext bl]. cbn [fst] in Hp. subst ext.
  eapply ends_bind; [apply merge_ends; [by apply ext_ok_filter|apply Hq|apply Hq|]|by intros [ext m'] H].
  right. intros o t x Ho (l & [[Hb Hn] Hl]%list_elem_of_filter & _ & Hlo & _ & Hlx) Hx. exfalso. apply Hn. split.
  - apply locks_overlap_spec; [|apply Hq|by exists x]. by apply (Forall_forall wf_lock (ext_list i)); [apply Hi|].
  - apply same_owner_false. congruence.
Qed.

Lemma delete_locks_of_fd_ok m i fd0 : inode_ok i -> ends_with (fun r => inode_ok r.1.1) (delete_locks_of_fd env m i fd0).
Proof.
  intros Hi. unfold delete_locks_of_fd. cbv zeta. eapply ends_bind; [apply grant_blocked_locks_ok; by apply ext_ok_filter|].
  intros [[i' m'] evs'] H. pose proof (do_blocked_rw_ok i' H) as H'. by destruct (do_blocked_rw env i').
Qed.

Lemma pl_flush_ok m i c o fd0 : inode_ok i ->
  ends_with (fun r => match r with inl _ => True | inr (i', _, _) => inode_ok i' end) (pl_flush env m i c o fd0).
Proof.
  intros Hi. unfold pl_flush. destruct (migrated i); [done|]. destruct (length o =? 0)%nat.
  - eapply ends_bind; [by apply delete_locks_of_fd_ok|]. by intros [[i' m'] evs'] H.
  - cbv zeta. eapply ends_bind; [apply grant_blocked_locks_ok; by apply ext_ok_filter|].
    intros [[i' m'] evs'] H. pose proof (do_blocked_rw_ok i' H) as H'. by destruct (do_blocked_rw env i').
Qed.

Lemma pl_rw_ok op m i stub c pid o fd0 off sz nb : inode_ok i ->
  inode_ok (pl_rw env op m i stub c pid o fd0 off sz nb).1.1.
Proof.
  intros Hi. unfold pl_rw. destruct (if pid <? 0 then false else _); [|done]. cbv zeta.
  destruct (pl_is_fop_allowed _ _ _ _ _) as [[] []]; try done; try (by destruct (_ && _)).
  destruct (alloc m) as [[] m1]; cbn [negb]; [|done]. by destruct (alloc m1) as [[] m2].
Qed.
(** ** Requests *)

(** The fields of [flock] are in the range of [off_t]. *)
Definition off_t (x : Z) : Prop := - 2 ^ 63 <= x < 2 ^ 63.

Definition flock_off_t (flock : gf_flock) : Prop := off_t (l_start flock) /\ off_t (l_len flock).

(** What the checks of [pl_lk] leave is a range of at least one byte. *)
Lemma normalise_request v m flock c pid o fd0 flags b lock m' :
  flock_off_t flock -> (l_start flock <? 0) || (s64 (l_start flock + l_len flock) <? 0) = false ->
  new_posix_lock v m (normalise_flock flock) c pid o fd0 flags b = (inr lock, m') -> request lock.
Proof.
  unfold flock_off_t, off_t. intros [Hs Hl] Hc E. apply orb_false_iff in Hc as [Hc1%Z.ltb_ge Hc2%Z.ltb_ge].
  apply new_posix_lock_spec in E as (Hls & Hle & Hb & _ & Hu & _).
  assert (Hsum : 0 <= l_start flock + l_len flock < 2 ^ 63).
  { unfold s64 in Hc2. destruct (decide (l_start flock + l_len flock < 2 ^ 63)).
    - rewrite Z.mod_small in Hc2 by lia. lia.
    - rewrite (Z.mod_eq _ (2 ^ 64)) in Hc2 by lia.
      replace ((l_start flock + l_len flock + 2 ^ 63) / 2 ^ 64) with 1 in Hc2; [lia|].
      apply Z.div_unique with (l_start flock + l_len flock + 2 ^ 63 - 2 ^ 64); lia. }
  assert (Hn : 0 <= l_start (normalise_flock flock) /\ 0 <= l_len (normalise_flock flock) /\
    l_start (normalise_flock flock) + l_len (normalise_flock flock) < 2 ^ 63).
  { unfold normalise_flock. destruct (Z.ltb_spec (l_len flock) 0); cbn [l_start l_len]; lia. }
  split; rewrite ?Hu; [|done|done|done]. unfold wf_range, LLONG_MAX in *. rewrite Hls, Hle.
  destruct (Z.eqb_spec (l_len (normalise_flock flock)) 0); lia.
Qed.

Lemma reservelk_conflict_ext i lock : ends_with (fun r => ext_list r.2 = ext_list i) (__reservelk_conflict i lock).
Proof.
  unfold __reservelk_conflict, __matching_reservelk. destruct (reservelk_list i); [done|].
  destruct (List.find _ _) as [conf|]; [|done]. cbn. by destruct (is_same_lkowner _ _).
Qed.

Lemma verify_reservelk_ext i lock b : ends_with (fun r => ext_list r.2 = ext_list i) (pl_verify_reservelk i lock b).
Proof.
  unfold pl_verify_reservelk. eapply ends_bind; [apply reservelk_conflict_ext|]. intros [[] i'] H; done.
Qed.

Lemma lock_reservelk_ext i lock b : ext_list (__lock_reservelk i lock b).2 = ext_list i.
Proof. unfold __lock_reservelk. destruct (__reservelk_grantable i lock); [|done]. by destruct b. Qed.

Lemma grant_reserve_ext bl : forall i g, ext_list (grant_reserve_loop i bl g).1 = ext_list i.
Proof.
  induction bl as [|l bl IH]; intros i g; cbn [grant_reserve_loop]; [done|].
  pose proof (lock_reservelk_ext i l true) as H. destruct (__lock_reservelk i l true) as [ret i']. cbn [snd] in H.
  by rewrite IH.
Qed.

Lemma reserve_unlock_ext i lock : ends_with (fun r => ext_list r.1.2 = ext_list i) (pl_reserve_unlock i lock).
Proof.
  unfold pl_reserve_unlock.
  assert (H : forall j, ext_list j = ext_list i -> ends_with (fun r => ext_list r.1.2 = ext_list i)
    (let '(i, evs) := grant_blocked_reserve_locks j in i ← grant_blocked_lock_calls i; Done (0, i, evs)) /\
    ext_list (grant_blocked_reserve_locks j).1 = ext_list i).
  { intros j Hj. unfold grant_blocked_reserve_locks.
    pose proof (grant_reserve_ext (blocked_reservelks j) (with_reserve j (reservelk_list j) [] (blocked_calls j)) []) as Hg.
    destruct (grant_reserve_loop _ _ _) as [j' g]. cbn [fst] in *. split; [|cbn in Hg; congruence].
    unfold grant_blocked_lock_calls. destruct (blocked_calls j'); cbn in *; [congruence|done]. }
  destruct (__reserve_unlock_lock i lock) as [j|] eqn:Er.
  - assert (Hj : ext_list j = ext_list i).
    { unfold __reserve_unlock_lock in Er. destruct (find_matching_reservelk i lock); [|done]. by injection Er as <-. }
    apply (H j Hj).
  - destruct (H i eq_refl) as [_ H2]. destruct (grant_blocked_reserve_locks i) as [j evs]. cbn [fst] in H2.
    unfold grant_blocked_lock_calls. by destruct (blocked_calls j).
Qed.

Lemma request_frame lock f b : request lock -> request (set_frame lock f) /\ request (set_blocking (set_frame lock f) b).
Proof. intros [? ? ? ?]. by split. Qed.

Lemma lk_set_ok m i lock f fd0 flock b : inode_ok i -> request lock ->
  ends_with (fun r => inode_ok r.1.1) (lk_set env m i lock f fd0 flock b).
Proof.
  intros Hi Hq. unfold lk_set. cbv zeta. destruct (migrated i); [done|].
  eapply ends_bind; [apply verify_reservelk_ext|]. intros [go i1] Hi1. cbn [snd] in Hi1.
  assert (Hok1 : inode_ok i1) by (unfold inode_ok; by rewrite Hi1).
  destruct go; cbn [negb]; [|done]. destruct (negb _ && mlock_enforced i1).
  - eapply ends_bind; [by apply pl_lock_preempt_ok|]. by intros [[i2 m2] evs] H.
  - eapply ends_bind; [by apply pl_setlk_ok|]. intros [[[ret i2] m2] evs] H. cbn [fst snd] in H.
    destruct (ret <? 0); [done|]. destruct (ret =? PL_LOCK_WOULD_BLOCK); [by destruct (b && _)|].
    destruct (ret =? PL_LOCK_QUEUED); [done|]. by case_bool_decide.
Qed.

Lemma pl_lk_ok m i f c pid o fd0 cmd flock flags : inode_ok i -> flock_off_t flock ->
  ends_with (fun r => inode_ok r.1.1) (pl_lk env m i f c pid o fd0 cmd flock flags).
Proof.
  intros Hi Hf. unfold pl_lk. destruct (_ || _) eqn:Ec; [done|]. cbv zeta.
  destruct (alloc m) as [[] m1]; cbn [negb]; [|done].
  destruct (new_posix_lock _ _ _ _ _ _ _ _ _) as [[e|lock] m2] eqn:En; [done|].
  apply (normalise_request _ _ _ _ _ _ _ _ _ _ _ Hf Ec) in En. destruct (request_frame lock f true En) as [Hq Hq'].
  assert (Hres : forall b, ends_with (fun r => inode_ok r.1.1)
    (let '(ret, i0) := pl_reserve_setlk i (set_frame lock f) b in
     if ret <? 0 then if b then Done (i0, m2, []) else Done (i0, m2, [Lk f (-1) (- ret) (normalise_flock flock)])
     else Done (reserved_getlk i0 (set_frame lock f), m2,
            [Lk f 0 0 (posix_lock_to_flock (pl_getlk i0 (set_frame lock f)) (normalise_flock flock))]))).
  { intros b. unfold pl_reserve_setlk. pose proof (lock_reservelk_ext i (set_frame lock f) b) as He.
    destruct (__lock_reservelk _ _ _) as [ret j]. cbn [snd] in He. unfold reserved_getlk, inode_ok.
    destruct (ret <? 0); [destruct b; cbn; by rewrite He|]. cbn. destruct (first_conflicting_overlap _ _); cbn; by rewrite He. }
  destruct cmd; [apply Hres|apply Hres| |done|by apply lk_set_ok|by apply lk_set_ok].
  eapply ends_bind; [apply reserve_unlock_ext|]. intros [[ret i1] evs] Hi1. cbn in *. unfold inode_ok. by rewrite Hi1.
Qed.
End Operations.

(** ** Reachable states *)

(** A section of an operation under the mutex; the sections of the operations of
    several clients may come in any order. *)
Inductive pl_section (env : pl_env) (m : mem) (i : pl_inode_t) : pl_inode_t -> Prop :=
  | sec_setlk lock b ret fin i' m' evs :
      request lock -> setlk_section env m i lock b = Done (ret, fin, i', m', evs) -> pl_section env m i i'
  | sec_grant i' m' evs : grant_blocked_locks env m i = Done (i', m', evs) -> pl_section env m i i'
  | sec_blocked_rw i' evs : do_blocked_rw env i = (i', evs) -> pl_section env m i i'
  | sec_preempt lock i' m' evs :
      request lock -> pl_lock_preempt env m i lock = Done (i', m', evs) -> pl_section env m i i'
  | sec_drop_fd fd0 : pl_section env m i (drop_fd i fd0)
  | sec_drop_owner c o : pl_section env m i (with_ext i (__delete_locks_of_owner (ext_list i) c o))
  | sec_verify lock b go i' : pl_verify_reservelk i lock b = Done (go, i') -> pl_section env m i i'
  | sec_reserve lock b ret i' : pl_reserve_setlk i lock b = (ret, i') -> pl_section env m i i'
  | sec_unreserve lock i' : __reserve_unlock_lock i lock = Some i' -> pl_section env m i i'
  | sec_grant_reserve i' evs : grant_blocked_reserve_locks i = (i', evs) -> pl_section env m i i'
  | sec_grant_calls i' : grant_blocked_lock_calls i = Done i' -> pl_section env m i i'
  | sec_getlk lock : pl_section env m i (reserved_getlk i lock).

(** Whole operations, and sections of operations that others interrupt. *)
Inductive pl_step : pl_inode_t -> pl_inode_t -> Prop :=
  | step_section env m i i' : pl_section env m i i' -> pl_step i i'
  | step_lk env m i f c pid o fd0 cmd flock flags i' m' evs :
      flock_off_t flock -> pl_lk env m i f c pid o fd0 cmd flock flags = Done (i', m', evs) -> pl_step i i'
  | step_flush env m i c o fd0 i' m' evs :
      pl_flush env m i c o fd0 = Done (inr (i', m', evs)) -> pl_step i i'
  | step_rw env op m i stub c pid o fd0 off sz nb i' m' evs :
      pl_rw env op m i stub c pid o fd0 off sz nb = (i', m', evs) -> pl_step i i'.

Lemma reserve_list_ext i lock i' : __reserve_unlock_lock i lock = Some i' -> ext_list i' = ext_list i.
Proof. unfold __reserve_unlock_lock. destruct (find_matching_reservelk i lock); [|done]. by intros [= <-]. Qed.

Lemma grant_reserves_ext i : ext_list (grant_blocked_reserve_locks i).1 = ext_list i.
Proof.
  unfold grant_blocked_reserve_locks. pose proof (grant_reserve_ext (blocked_reservelks i) (with_reserve i (reservelk_list i) [] (blocked_calls i)) []) as H.
  by destruct (grant_reserve_loop _ _ _).
Qed.

Lemma pl_section_ok env m i i' : inode_ok i -> pl_section env m i i' -> inode_ok i'.
Proof.
  intros Hi Hs. destruct Hs as [lock b ret fin i' m' evs Hq E|i' m' evs E|i' evs E|lock i' m' evs Hq E|fd0|c o|lock b go i' E|lock b ret i' E|lock i' E|i' evs E|i' E|lock].
  - pose proof (setlk_section_ok env m i lock b Hi Hq) as H. by rewrite E in H.
  - pose proof (grant_blocked_locks_ok env m i Hi) as H. by rewrite E in H.
  - pose proof (do_blocked_rw_ok env i Hi) as H. by rewrite E in H.
  - pose proof (pl_lock_preempt_ok env m i lock Hi Hq) as H. by rewrite E in H.
  - by apply ext_ok_filter.
  - by apply ext_ok_filter.
  - pose proof (verify_reservelk_ext i lock b) as H. rewrite E in H. unfold inode_ok. cbn in H. by rewrite H.
  - pose proof (lock_reservelk_ext i lock b) as H. unfold pl_reserve_setlk in E. rewrite E in H. unfold inode_ok. cbn in H. by rewrite H.
  - unfold inode_ok. by rewrite (reserve_list_ext i lock i' E).
  - pose proof (grant_reserves_ext i) as H. rewrite E in H. unfold inode_ok. cbn in H. by rewrite H.
  - unfold grant_blocked_lock_calls in E. destruct (blocked_calls i); [by injection E as <-|done].
  - unfold reserved_getlk. by destruct (first_conflicting_overlap _ _).
Qed.

Lemma pl_step_ok i i' : inode_ok i -> pl_step i i' -> inode_ok i'.
Proof.
  intros Hi Hs. revert Hi. destruct Hs as [env m j j' E|env m j f c pid o fd0 cmd flock flags j' m' evs Hf E|env m j c o fd0 j' m' evs E
    |env op m j stub c pid o fd0 off sz nb j' m' evs E]; intros Hi.
  - by apply (pl_section_ok env m j).
  - pose proof (pl_lk_ok env m j f c pid o fd0 cmd flock flags Hi Hf) as H. by rewrite E in H.
  - pose proof (pl_flush_ok env m j c o fd0 Hi) as H. by rewrite E in H.
  - pose proof (pl_rw_ok env op m j stub c pid o fd0 off sz nb Hi) as H. by rewrite E in H.
Qed.

Lemma inode_ok_empty i : ext_list i = [] -> inode_ok i.
Proof. unfold inode_ok. intros ->. split; [constructor|]. intros o o' t t' x _ H. by apply holds_nil in H. Qed.

Lemma pl_steps_ok i i' : inode_ok i -> rtc pl_step i i' -> inode_ok i'.
Proof. intros Hi Hs. induction Hs; eauto using pl_step_ok. Qed.
