(* ===== verification/PlLive.v ===== *)
(** * Total correctness without allocation failures

    When no allocation fails and there are no reservations, every operation
    returns, and no lock waits for a range that is free: each waiting lock
    overlaps a granted one. *)
From stdpp Require Import gmap.
From S2P Require Import Prelude PlCommon PlMerge PlFuel PlExact PlPosix PlInvariant.

(** [o] holds byte [x]. *)
Definition covered (ext : list posix_lock_t) (o : gf_lkowner_t * Z) (x : Z) : Prop := exists t, holds ext o t x.

(** Every waiting lock overlaps a granted one. *)
Definition none_idle (ext : list posix_lock_t) : Prop :=
  forall l, l ∈ ext -> blocked l = true -> exists o x, x ∈ l /\ covered ext o x.

(** ** Merging never uncovers a byte *)

Definition merge_covers (f : mem -> list posix_lock_t -> posix_lock_t -> outcome (list posix_lock_t * mem)) : Prop :=
  forall ext lock s, blocked lock = false -> wf_range lock -> Forall wf_lock ext -> fl_type lock <> F_UNLCK ->
    f [] ext lock = Done s -> s.2 = [] /\
    forall x, covered ext (lk_owner lock) x \/ x ∈ lock -> covered s.1 (lk_owner lock) x.

Lemma covers_fold f o v : merge_covers f -> merge_any f ->
  (forall p, p ∈ v -> blocked p = false /\ wf_range p /\ lk_owner p = o /\ fl_type p <> F_UNLCK) ->
  forall ext s, Forall wf_lock ext -> runs_pieces f (ext, []) v s ->
  s.2 = [] /\ forall x, covered ext o x \/ (exists p, p ∈ v /\ x ∈ p) -> covered s.1 o x.
Proof.
  intros Hc Hany. induction v as [|p v IH]; intros Hp ext s Hwf Hr; inversion Hr as [s0|ext' m' p' v' s1 s2 Ef Hr']; subst.
  - split; [done|]. intros x [H|(p & Hp' & _)]; [done|by apply elem_of_nil in Hp'].
  - destruct (Hp p) as (Hb & Hw & Ho & Hu); [by left|]. subst o.
    destruct (Hc ext p s1 Hb Hw Hwf Hu Ef) as [Hm Hx].
    pose proof (Hany [] ext p s1 Hb Hw Hwf Ef) as Hmg. destruct s1 as [ext1 m1]. cbn [fst snd] in *. subst m1.
    destruct (IH ltac:(by intros; apply Hp; right) ext1 s ltac:(apply Hmg) Hr') as [Hm' Hx']. split; [done|].
    intros x [H|(q & [-> | Hq]%elem_of_cons & Hxq)]; apply Hx'; [left; auto|left; auto|right; by exists q].
Qed.

Lemma insert_covers now ext l : blocked l = false ->
  forall x, covered ext (lk_owner l) x \/ x ∈ l -> covered (__insert_lock now ext l) (lk_owner l) x.
Proof.
  intros Hb x [[t H]|H]; [exists t|exists (fl_type l)]; rewrite holds_insert_lock; [by left|]. by right.
Qed.

Lemma merge_covers_ok now fuel : merge_covers (insert_and_merge now fuel).
Proof.
  induction fuel as [|fuel IH]; intros ext lock s Hb Hr Hwf Hu E; [done|]. cbn [insert_and_merge] in E.
  destruct (scan_from 0 ext lock) as [i conf| |] eqn:Es.
  - apply (scan_own ext lock i conf Hwf) in Es as Hc. destruct (own_conf_delete ext lock i conf Hc Hwf) as (Hwf' & _ & Hh).
    destruct Hc as [Hi Hbc Hoc Hov [Hrc Htc]].
    destruct (bool_decide (fl_type conf = fl_type lock) && (lk_flags conf =? lk_flags lock)).
    + destruct (add_locks_nil lock conf lock) as [sum Ea]. rewrite Ea in E.
      apply add_locks_spec in Ea as ([Hsb Hso] & Hst & _ & Hss & Hse).
      destruct (hull_elem conf lock sum Hrc Hr Hov Hss Hse) as [Hrs Hx].
      destruct (IH (delete i ext) sum s) as [Hm H]; [congruence|done|done|congruence|done|]. rewrite Hso in H.
      split; [done|]. intros x [[t Ht]|Hxl]; apply H; [|right; apply Hx; by left].
      apply Hh in Ht as [(_ & _ & Hxc)|Ht]; [right; apply Hx; by right|left; by exists t].
    + destruct (add_locks_nil lock conf conf) as [sum Ea]. rewrite Ea in E.
      apply add_locks_spec in Ea as ([Hsb Hso] & Hst & _ & Hss & Hse).
      destruct (hull_elem conf lock sum Hrc Hr Hov Hss Hse) as [Hrs Hx].
      destruct (subtract_nil sum lock) as (v & Ev & Hne); [lia|lia|]. rewrite Ev in E. apply subtract_pieces in Ev.
      destruct (foldl _ _ v) as [[ext1 m3]| |] eqn:Ef; [|done|done]. injection E as <-. apply fold_runs in Ef.
      assert (Hp : forall p, p ∈ v -> blocked p = false /\ wf_range p /\ lk_owner p = lk_owner lock /\ fl_type p <> F_UNLCK).
      { intros p Hp. destruct (pieces_in sum lock v p) as ([? Hpo] & ? & [[? _]|[? _]]); try done; try lia;
          try (split; congruence); (split; [congruence|]; split; [done|]; split; congruence). }
      assert (Hwf1 : Forall wf_lock ext1).
      { apply (merged_fold _ (lk_owner lock) (fun _ _ => True)) in Ef; [apply Ef| |done|done].
        intros e m' p s' Hpv He Hs'. destruct (Hp p Hpv) as (? & ? & Hpo & _). rewrite <- Hpo.
        by apply (merge_any_ok now fuel m' e p s'). }
      destruct (covers_fold _ (lk_owner lock) v IH (merge_any_ok now fuel) Hp _ _ Hwf' Ef) as [Hm H]. cbn [fst snd] in *.
      rewrite (delete_unlck_wf ext1 Hwf1). split; [done|]. intros x Hc. apply H.
      assert (Hsum : x ∈ sum -> exists p, p ∈ v /\ x ∈ p) by (intros; eapply pieces_cover; eauto; lia).
      destruct Hc as [[t Ht]|Hxl]; [|right; apply Hsum, Hx; by left].
      apply Hh in Ht as [(_ & _ & Hxc)|Ht]; [right; apply Hsum, Hx; by right|left; by exists t].
  - injection E as <-. split; [done|]. by apply insert_covers.
  - case_bool_decide; [done|]. injection E as <-. split; [done|]. by apply insert_covers.
Qed.

(** ** Triples *)

(** The waiting locks do not change, the granted ones cover as much. *)
Lemma merge_returns now ext lock : ext_ok ext -> blocked lock = false -> wf_range lock -> compatible ext lock ->
  returns (fun s => s.2 = [] /\ ext_ok s.1 /\
    (forall l, l ∈ s.1 -> blocked l = true -> l ∈ ext) /\
    (fl_type lock <> F_UNLCK -> forall o x, covered ext o x -> covered s.1 o x)) (__insert_and_merge now [] ext lock).
Proof.
  intros Hok Hb Hr Hc. pose proof (merge_not_null now (merge_fuel ext) ext lock) as Hn.
  pose proof (merge_terminates now [] ext lock Hb Hr (eo_wf _ Hok)) as Ht. unfold __insert_and_merge in *.
  destruct (insert_and_merge now (merge_fuel ext) [] ext lock) as [s| |] eqn:E; [|done|done]. exists s. split; [done|].
  pose proof (merge_any_ok now _ [] ext lock s Hb Hr (eo_wf _ Hok) E) as Hm. split; [done|]. split; [|split].
  - split; [apply Hm|]. eapply merged_exclusive; [apply Hok|done|done].
  - intros l Hl Hbl. assert (Hin : l ∈ filter (apart (lk_owner lock)) ext).
    { rewrite <- (mg_apart _ _ _ _ Hm). apply list_elem_of_filter. split; [by left|done]. }
    by apply list_elem_of_filter in Hin as [_ ?].
  - intros Hu o x Hx. destruct (decide (o = lk_owner lock)) as [->|Ho].
    + destruct (merge_covers_ok now _ ext lock s Hb Hr (eo_wf _ Hok) Hu E) as [_ H]. apply H. by left.
    + destruct Hx as [t Hxt]. exists t. by rewrite (merged_foreign _ _ ext s.1 o t x Hm Ho).
Qed.

Lemma first_overlap_spec ext l c : first_overlap ext l = Some c ->
  c ∈ ext /\ blocked c = false /\ locks_overlap c l = true.
Proof.
  induction ext as [|d ext IH]; cbn [first_overlap]; [done|].
  destruct (blocked d) eqn:Eb; [|destruct (locks_overlap d l) eqn:Eo].
  2: intros [= ->]; split; [by left|done].
  all: intros H; destruct (IH H) as (? & ? & ?); split; [by right|done].
Qed.

Lemma take_unblocked_idle rest : forall before tmp,
  Forall wf_lock before -> Forall wf_lock rest ->
  (forall l, l ∈ before -> blocked l = true -> exists o x, x ∈ l /\ covered (before ++ rest) o x) ->
  let r := take_unblocked before rest tmp in
  forall l, l ∈ r.1 -> blocked l = true -> exists o x, x ∈ l /\ covered (before ++ rest) o x.
Proof.
  induction rest as [|l rest IH]; intros before tmp Hb Hr Hid; cbn [take_unblocked].
  - rewrite app_nil_r in *. exact Hid.
  - inversion Hr as [|? ? Hl Hr']; subst.
    assert (Hkeep : (blocked l = true -> exists o x, x ∈ l /\ covered (before ++ l :: rest) o x) ->
      forall k, k ∈ (take_unblocked (before ++ [l]) rest tmp).1 -> blocked k = true ->
      exists o x, x ∈ k /\ covered (before ++ l :: rest) o x).
    { intros Hlid. pose proof (IH (before ++ [l]) tmp) as H. rewrite <- app_assoc in H. apply H; [|done|].
      - apply Forall_app. auto.
      - intros k [Hk|Hk]%elem_of_app; [by apply Hid|]. apply list_elem_of_singleton in Hk as ->. done. }
    destruct (blocked l) eqn:Eb; [|by apply Hkeep].
    destruct (first_overlap (before ++ l :: rest) l) as [c|] eqn:Ef.
    + apply Hkeep. intros _. apply first_overlap_spec in Ef as (Hc & Hcb & Hov).
      assert (Hwc : wf_lock c) by (apply (Forall_forall wf_lock (before ++ l :: rest)); [by apply Forall_app|done]).
      apply locks_overlap_spec in Hov as (x & Hxc & Hxl); [|apply Hwc|apply Hl].
      exists (lk_owner c), x. split; [done|]. exists (fl_type c), c. done.
    + assert (Hsub : forall o x, covered (before ++ rest) o x <-> covered (before ++ l :: rest) o x).
      { intros o x. unfold covered. split; intros [t H]; exists t; revert H; rewrite !holds_app, holds_cons, Eb; naive_solver. }
      intros k Hk Hkb. destruct (IH before (tmp ++ [set_blocked l false]) Hb Hr') with k as (o & x & Hx & Hcov); try done.
      * intros j Hj Hjb. destruct (Hid j Hj Hjb) as (o & x & Hx & Hcov). exists o, x. split; [done|]. by apply Hsub.
      * exists o, x. split; [done|]. by apply Hsub.
Qed.

Lemma none_idle_mono ext ext' : none_idle ext -> (forall l, l ∈ ext' -> blocked l = true -> l ∈ ext) ->
  (forall o x, covered ext o x -> covered ext' o x) -> none_idle ext'.
Proof. intros H Hb Hc l Hl Hbl. destruct (H l (Hb l Hl Hbl) Hbl) as (o & x & Hx & Hcov). eauto. Qed.

Lemma not_grantable ext l : Forall wf_lock ext -> wf_range l -> __is_lock_grantable ext l = false ->
  exists o x, x ∈ l /\ covered ext o x.
Proof.
  intros Hwf Hr. induction Hwf as [|c ext [Hc Hct] Hwf IH]; cbn [__is_lock_grantable]; [done|]. intros E.
  assert (Hrest : __is_lock_grantable ext l = false -> exists o x, x ∈ l /\ covered (c :: ext) o x).
  { intros E'. destruct (IH E') as (o & x & Hx & t & Ht). exists o, x. split; [done|]. exists t. apply holds_cons. by right. }
  destruct (blocked c) eqn:Eb; cbn [negb andb] in E; [by apply Hrest|].
  destruct (locks_overlap l c) eqn:Eo; [|by apply Hrest].
  apply locks_overlap_spec in Eo as (x & Hx & Hxc); [|done|done].
  exists (lk_owner c), x. split; [done|]. exists (fl_type c). apply holds_cons. by left.
Qed.

Lemma insert_blocked_idle now ext l : ext_ok ext -> none_idle ext -> wf_lock l -> __is_lock_grantable ext l = false ->
  none_idle (__insert_lock now ext (set_blocked l true)).
Proof.
  intros Hok Hid Hl Hg k Hk Hkb.
  assert (Hc : forall o x, covered ext o x -> covered (__insert_lock now ext (set_blocked l true)) o x).
  { intros o x [t Ht]. exists t. rewrite holds_insert_lock. by left. }
  unfold __insert_lock in Hk. cbn [blocked set_blocked] in Hk. apply elem_of_app in Hk as [Hk|Hk].
  - destruct (Hid k Hk Hkb) as (o & x & Hx & Hcov). eauto.
  - apply list_elem_of_singleton in Hk as ->. destruct (not_grantable ext l) as (o & x & Hx & Hcov); [apply Hok|apply Hl|done|].
    exists o, x. split; [exact Hx|]. by apply Hc.
Qed.

(** What holds of the list after a grant. *)
Definition settled (ext : list posix_lock_t) : Prop := ext_ok ext /\ none_idle ext.

Lemma grant_loop_returns now tmp : forall ext granted,
  settled ext -> Forall (fun l => wf_lock l /\ blocked l = false) tmp ->
  returns (fun r => r.1.2 = [] /\ settled r.1.1) (grant_loop now [] ext tmp granted).
Proof.
  induction tmp as [|l tmp IH]; intros ext granted [Hok Hid] Ht; cbn [grant_loop]; [by apply returns_done|].
  inversion Ht as [|? ? [Hl Hb] Ht']; subst. destruct (__is_lock_grantable ext l) eqn:Eg.
  - cbn [alloc negb]. pose proof Eg as Hc. apply grantable_compatible in Hc; [|apply Hok|apply Hl].
    eapply returns_bind; [apply (merge_returns now ext (set_frame l 0)); [done|done|apply Hl|done]|].
    intros [ext1 m1] (Hm & Hok1 & Hbl & Hcov). cbn [fst snd] in *. subst m1. apply IH; [|done]. split; [done|].
    apply (none_idle_mono ext); [done|done|]. apply Hcov, Hl.
  - apply IH; [|done]. split; [by apply insert_blocked_ok|by apply insert_blocked_idle].
Qed.

Lemma grant_returns now ext : ext_ok ext -> returns (fun r => r.1.2 = [] /\ settled r.1.1) (__grant_blocked_locks now [] ext).
Proof.
  intros Hok. unfold __grant_blocked_locks.
  destruct (take_unblocked_ok ext [] []) as (H1 & H2 & H3); [constructor|apply Hok|constructor|].
  pose proof (take_unblocked_idle ext [] []) as H4. destruct (take_unblocked [] ext []) as [ext1 tmp].
  cbn [fst snd app] in *. apply grant_loop_returns; [|done]. split; [apply (ext_ok_sub ext); [done|done|apply H3]|].
  intros l Hl Hlb. destruct (H4 ltac:(constructor) (eo_wf _ Hok)) with l as (o & x & Hx & t & Hcov); try done.
  { intros k Hk. by apply elem_of_nil in Hk. }
  exists o, x. split; [done|]. exists t. by apply H3.
Qed.

(** ** Operations *)

(** An inode without reservations whose locks satisfy [P]. *)
Record live_with (P : list posix_lock_t -> Prop) (i : pl_inode_t) : Prop := {
  lv_locks : P (ext_list i);
  lv_reserve : reservelk_list i = [];
  lv_calls : blocked_calls i = [] }.

(** All waiting locks overlap granted ones. *)
Abbreviation live := (live_with settled).

(** Operations return whatever waits, and leave a list that satisfies [P] if a
    list after a grant always does. *)
Section Operations.
Context (env : pl_env) (P : list posix_lock_t -> Prop).
Context (P_settled : forall ext, settled ext -> P ext) (P_ok : forall ext, P ext -> ext_ok ext).
Local Abbreviation live := (live_with P).

Lemma live_ext i ext : live i -> settled ext -> live (with_ext i ext).
Proof. intros [_ ? ?] H. split; [by apply P_settled|done|done]. Qed.

Lemma live_same i i' : live i -> ext_list i' = ext_list i -> reservelk_list i' = reservelk_list i ->
  blocked_calls i' = blocked_calls i -> live i'.
Proof. intros [H1 H2 H3] E1 E2 E3. split; congruence. Qed.

Lemma do_blocked_rw_live i : live i -> live (do_blocked_rw env i).1.
Proof. intros Hi. apply (live_same i); [done|..]; unfold do_blocked_rw; by destruct (blocked_rw_loop _ _ _ _) as [[? ?] ?]. Qed.

(** [grant_blocked_locks] and [do_blocked_rw] after a change of the list. *)
Lemma grant_blocked_live i ext : live i -> ext_ok ext ->
  returns (fun r => r.1.2 = [] /\ live r.1.1) (grant_blocked_locks env [] (with_ext i ext)).
Proof.
  intros Hi Hok. unfold grant_blocked_locks. cbn [ext_list with_ext]. eapply returns_bind; [by apply grant_returns|].
  intros [[ext' m'] g] [Hm Hs]. apply returns_done. cbn [fst snd] in *. split; [done|]. exact (live_ext i ext' Hi Hs).
Qed.

Lemma setlk_finish_live ret i ext evs : live i -> ext_ok ext ->
  returns (fun r => r.1.2 = [] /\ live r.1.1.2) (setlk_finish env ret [] (with_ext i ext) evs).
Proof.
  intros Hi Hok. unfold setlk_finish. eapply returns_bind; [by apply grant_blocked_live|].
  intros [[i' m'] evs'] [Hm H]. cbn [fst snd] in *. pose proof (do_blocked_rw_live i' H) as H'.
  destruct (do_blocked_rw env i'). by apply returns_done.
Qed.

Lemma new_posix_lock_nil v flock c pid o fd0 flags b : (new_posix_lock v [] flock c pid o fd0 flags b).2 = [].
Proof.
  unfold new_posix_lock. destruct (c =? 0); [done|]. destruct (fd0 =? 0); [done|]. by destruct (negb _).
Qed.

Lemma prelock_live i lock : live i -> request lock ->
  returns (fun r => r.1.2 = [] /\ live r.1.1.2) (pl_send_prelock_unlock env [] i lock).
Proof.
  intros Hi [Hr Hb Hs He]. unfold pl_send_prelock_unlock. cbv zeta.
  destruct (new_posix_lock _ _ _ _ _ _ _ _ _) as [r m'] eqn:En.
  assert (Hm : m' = []) by (change m' with (r, m').2; rewrite <- En; apply new_posix_lock_nil). subst m'.
  destruct r as [e|u]; [by apply returns_done|].
  apply new_posix_lock_spec in En as (Hus & Hue & Hub & Hut & _). cbn [l_start l_len l_type] in *.
  eapply returns_bind.
  - apply merge_returns; [apply P_ok, Hi|done| |by left]. unfold wf_range in *. rewrite Hus, Hue, He, Hs. done.
  - intros [ext m2] (Hm & Hok & _). cbn [fst snd] in *. subst m2. eapply returns_bind; [by apply grant_returns|].
    intros [[ext2 m3] g] [Hm3 Hset]. apply returns_done. split; [done|]. by apply live_ext.
Qed.

Lemma setlk_section_live i lock b : live i -> request lock ->
  returns (fun r => r.1.2 = [] /\ ext_ok (ext_list r.1.1.2) /\ (r.1.1.1.2 = false -> live r.1.1.2) /\
    exists j ext, live j /\ r.1.1.2 = with_ext j ext) (setlk_section env [] i lock b).
Proof.
  intros Hi Hq. unfold setlk_section. assert (Hsame : forall j, live j -> exists j' ext, live j' /\ j = with_ext j' ext) by (intros j Hj; exists j, (ext_list j); split; [done|]; by destruct j).
  destruct (_ && _ && _); [apply returns_done; cbn; split; [done|]; split; [apply P_ok, Hi|auto]|].
  eapply (returns_bind (fun r => r.1.2 = [] /\ live r.1.1.2)).
  { destruct (b && negb (__is_lock_grantable (ext_list i) lock)); [by apply prelock_live|by apply returns_done]. }
  intros [[[ok i1] m1] evs] [Hm1 Hi1]. cbn [fst snd] in Hm1, Hi1. subst m1. pose proof (P_ok _ (lv_locks _ i1 Hi1)) as Hok1.
  assert (Hqueue : live (__pl_queue_lock i1 lock)) by (by apply (live_same i1)).
  destruct (__is_lock_grantable (ext_list i1) lock) eqn:Eg.
  - destruct (pl_metalock_is_active i1); [apply returns_done; cbn; auto|].
    apply grantable_compatible in Eg; [|apply Hok1|apply Hq].
    eapply returns_bind; [apply merge_returns; [done|apply Hq|apply Hq|done]|].
    intros [ext m2] (Hm2 & Hx & _). cbn [fst snd] in *. subst m2. apply returns_done. cbn. split; [done|]. split; [done|]. split; [done|]. by exists i1, ext.
  - destruct b; [|apply returns_done; cbn; auto]. destruct (pl_metalock_is_active i1); [apply returns_done; cbn; auto|].
    apply returns_done. cbn [fst snd ext_list with_ext]. split; [done|]. split; [|split; [done|]; by eexists i1, _].
    apply insert_blocked_ok; [done|]. split; [apply Hq|].
    intros Hu. assert (Hg : __is_lock_grantable (ext_list i1) lock = true); [|congruence].
    apply grantable_compatible; [apply Hok1|apply Hq|by left].
Qed.

Lemma pl_setlk_live i lock b : live i -> request lock ->
  returns (fun r => r.1.2 = [] /\ live r.1.1.2) (pl_setlk env [] i lock b).
Proof.
  intros Hi Hq. unfold pl_setlk. eapply returns_bind; [by apply setlk_section_live|].
  intros [[[[ret fin] i1] m1] evs] (Hm & Hok & Hlive & j & ext & Hj & Ej). cbn [fst snd] in *. subst m1.
  destruct fin; [|apply returns_done; auto]. subst i1. by apply setlk_finish_live.
Qed.

Lemma pl_lock_preempt_live i lock : live i -> request lock -> fl_type lock <> F_UNLCK ->
  returns (fun r => r.1.2 = [] /\ live r.1.1) (pl_lock_preempt env [] i lock).
Proof.
  intros Hi Hq Hu. pose proof (P_ok _ (lv_locks _ i Hi)) as Hok. unfold pl_lock_preempt.
  pose proof (preempt_loop_spec (ext_list i) lock []) as Hp.
  destruct (preempt_loop (ext_list i) lock []) as [ext bl]. cbn [fst] in Hp. subst ext.
  eapply returns_bind; [apply merge_returns; [by apply ext_ok_filter|apply Hq|apply Hq|]|].
  - right. intros o t x Ho (l & [[Hb Hn] Hl]%list_elem_of_filter & _ & Hlo & _ & Hlx) Hx. exfalso. apply Hn. split.
    + apply locks_overlap_spec; [|apply Hq|by exists x]. by apply (Forall_forall wf_lock (ext_list i)); [apply Hok|].
    + apply same_owner_false. congruence.
  - intros [ext m'] (Hm & Hok' & Hbl & _). apply returns_done. split; [done|]. split; [|apply Hi|apply Hi].
    apply P_settled. split; [done|]. intros l Hl Hlb. apply Hbl in Hl as [[? _] _]%list_elem_of_filter; [congruence|done].
Qed.

Lemma lk_set_live i lock f fd0 flock b : live i -> request lock ->
  returns (fun r => r.1.2 = [] /\ live r.1.1) (lk_set env [] i lock f fd0 flock b).
Proof.
  intros Hi Hq. unfold lk_set. cbv zeta. destruct (migrated i); [by apply returns_done|].
  unfold pl_verify_reservelk, __reservelk_conflict, __matching_reservelk. rewrite (lv_reserve _ i Hi). cbn [mbind outcome_bind negb].
  case_bool_decide as Eu; cbn [negb andb].
  2: destruct (mlock_enforced i); [eapply returns_bind; [by apply pl_lock_preempt_live|];
       intros [[i2 m2] evs] H; by apply returns_done|].
  all: eapply returns_bind; [by apply pl_setlk_live|]; intros [[[ret i2] m2] evs] H; cbn [fst snd] in H;
    destruct (ret <? 0); [by apply returns_done|];
    destruct (ret =? PL_LOCK_WOULD_BLOCK); [destruct (b && _); by apply returns_done|];
    destruct (ret =? PL_LOCK_QUEUED); [by apply returns_done|]; case_bool_decide; by apply returns_done.
Qed.

(** The commands that have to do with locks. *)
Definition lock_cmd (cmd : lk_cmd) : Prop := cmd = F_GETLK \/ cmd = F_SETLK \/ cmd = F_SETLKW.

Lemma grant_reserve_calls bl : forall i g, blocked_calls (grant_reserve_loop i bl g).1 = blocked_calls i.
Proof.
  induction bl as [|l bl IH]; intros i g; cbn [grant_reserve_loop]; [done|].
  assert (H : blocked_calls (__lock_reservelk i l true).2 = blocked_calls i) by (unfold __lock_reservelk; by destruct (__reservelk_grantable i l)).
  destruct (__lock_reservelk i l true) as [ret i']. cbn [snd] in H. by rewrite IH.
Qed.

Lemma reserve_unlock_returns i lock : blocked_calls i = [] -> returns (fun _ => True) (pl_reserve_unlock i lock).
Proof.
  intros Hc. unfold pl_reserve_unlock.
  assert (H : exists ret j, match __reserve_unlock_lock i lock with None => (- EINVAL, i) | Some j => (0, j) end = (ret, j) /\ blocked_calls j = []).
  { unfold __reserve_unlock_lock. destruct (find_matching_reservelk i lock); by do 2 eexists. }
  destruct H as (ret & j & -> & Hj). unfold grant_blocked_reserve_locks.
  pose proof (grant_reserve_calls (blocked_reservelks j) (with_reserve j (reservelk_list j) [] (blocked_calls j)) []) as Hg.
  destruct (grant_reserve_loop _ _ _) as [j' g]. cbn in Hg. rewrite Hj in Hg. unfold grant_blocked_lock_calls. rewrite Hg. by apply returns_done.
Qed.

Lemma pl_lk_live i f c pid o fd0 cmd flock flags : live i -> flock_off_t flock ->
  returns (fun r => r.1.2 = [] /\ (lock_cmd cmd -> live r.1.1)) (pl_lk env [] i f c pid o fd0 cmd flock flags).
Proof.
  intros Hi Hf. unfold pl_lk. destruct (_ || _) eqn:Ec; [by apply returns_done|]. cbn [alloc negb]. cbv zeta.
  destruct (new_posix_lock _ _ _ _ _ _ _ _ _) as [r m2] eqn:En.
  assert (Hm : m2 = []) by (change m2 with (r, m2).2; rewrite <- En; apply new_posix_lock_nil). subst m2.
  destruct r as [e|lock]; [by apply returns_done|].
  apply (normalise_request _ _ _ _ _ _ _ _ _ _ _ Hf Ec) in En. destruct (request_frame lock f true En) as [Hq Hq'].
  assert (Hno : ~ lock_cmd F_RESLK_LCK /\ ~ lock_cmd F_RESLK_LCKW /\ ~ lock_cmd F_RESLK_UNLCK) by (unfold lock_cmd; split_and!; intros [|[|]]; done).
  destruct cmd.
  4: by apply returns_done.
  4: destruct (lk_set_live i (set_frame lock f) f fd0 (normalise_flock flock) false Hi Hq) as (r & E & H1 & H2); by exists r.
  4: destruct (lk_set_live i (set_blocking (set_frame lock f) true) f fd0 (normalise_flock flock) true Hi Hq') as (r & E & H1 & H2); by exists r.
  1, 2: destruct (pl_reserve_setlk _ _ _) as [ret j]; destruct (ret <? 0); apply returns_done; cbn; split; first [done|tauto].
  eapply returns_bind; [apply reserve_unlock_returns, Hi|]. intros [[ret i1] evs] _. apply returns_done. cbn. split; [done|tauto].
Qed.

Lemma pl_flush_live i c o fd0 : live i ->
  returns (fun r => match r with inl _ => True | inr (i', m', _) => m' = [] /\ live i' end) (pl_flush env [] i c o fd0).
Proof.
  intros Hi. pose proof (P_ok _ (lv_locks _ i Hi)) as Hok. unfold pl_flush. destruct (migrated i); [by apply returns_done|].
  assert (Hfin : forall ext evs, ext_ok ext -> returns (fun r => r.1.2 = [] /\ live r.1.1)
    ('(i, m, evs1) ← grant_blocked_locks env [] (with_ext i ext);
     let '(i, evs2) := do_blocked_rw env i in Done (i, m, evs ++ evs1 ++ evs2))).
  { intros ext evs He. eapply returns_bind; [by apply grant_blocked_live|].
    intros [[i' m'] evs'] [Hm H]. cbn [fst snd] in *. pose proof (do_blocked_rw_live i' H) as H'.
    destruct (do_blocked_rw env i'). by apply returns_done. }
  destruct (length o =? 0)%nat.
  - eapply returns_bind; [apply Hfin; by apply ext_ok_filter|]. intros [[i' m'] evs'] H. by apply returns_done.
  - cbv zeta. eapply returns_bind; [apply grant_blocked_live; [done|by apply ext_ok_filter]|].
    intros [[i' m'] evs'] [Hm H]. cbn [fst snd] in *. pose proof (do_blocked_rw_live i' H) as H'.
    destruct (do_blocked_rw env i'). by apply returns_done.
Qed.

Lemma pl_rw_live op i stub c pid o fd0 off sz nb : live i -> live (pl_rw env op [] i stub c pid o fd0 off sz nb).1.1.
Proof.
  intros Hi. apply (live_same i); [done|..]; unfold pl_rw; (destruct (if pid <? 0 then false else _); [|done]); cbv zeta;
    destruct (pl_is_fop_allowed _ _ _ _ _) as [[] []]; try done; by destruct (_ && _).
Qed.
End Operations.

Lemma settled_ok ext : settled ext -> ext_ok ext.
Proof. by intros []. Qed.

(** Whole operations, one after another, without allocation failures and reservations. *)
Inductive live_step : pl_inode_t -> pl_inode_t -> Prop :=
  | live_lk env i f c pid o fd0 cmd flock flags i' m' evs :
      flock_off_t flock -> lock_cmd cmd -> pl_lk env [] i f c pid o fd0 cmd flock flags = Done (i', m', evs) ->
      live_step i i'
  | live_flush env i c o fd0 i' m' evs : pl_flush env [] i c o fd0 = Done (inr (i', m', evs)) -> live_step i i'
  | live_rw env op i stub c pid o fd0 off sz nb i' m' evs :
      pl_rw env op [] i stub c pid o fd0 off sz nb = (i', m', evs) -> live_step i i'.

Lemma live_step_ok i i' : live i -> live_step i i' -> live i'.
Proof.
  intros Hi Hs. revert Hi. destruct Hs as [env j f c pid o fd0 cmd flock flags j' m' evs Hf Hc E|env j c o fd0 j' m' evs E
    |env op j stub c pid o fd0 off sz nb j' m' evs E]; intros Hi.
  - destruct (pl_lk_live env settled ltac:(done) settled_ok j f c pid o fd0 cmd flock flags Hi Hf) as (r & Er & _ & H). rewrite E in Er. injection Er as <-. by apply H.
  - destruct (pl_flush_live env settled ltac:(done) settled_ok j c o fd0 Hi) as (r & Er & H). rewrite E in Er. injection Er as <-. apply H.
  - pose proof (pl_rw_live env settled op j stub c pid o fd0 off sz nb Hi) as H. by rewrite E in H.
Qed.

Lemma live_steps_ok i i' : live i -> rtc live_step i i' -> live i'.
Proof. intros Hi Hs. induction Hs; eauto using live_step_ok. Qed.
