(* ===== verification/PlClaims.v ===== *)
(** * Claims about POSIX locks

    Exclusion, the exact effect of a lock request, termination, no lock
    waiting for a free range, tests of locks, mandatory locking of reads and
    writes, and the states where the code does not do what it should. *)
From stdpp Require Import gmap.
From S2P Require Import Prelude PlCommon PlMerge PlFuel PlExact PlPosix PlInvariant PlLive.

(** ** Concrete requests *)

Definition lk_env : pl_env := mkplenv 0 MLK_FORCED (fun _ => GD_OP_VERSION_7_0) (fun _ => 1).

Definition lk_inode : pl_inode_t := mkinode [] [] [] [] [] [] [] false false false 0 false.

Definition ex_flock (t : lk_type) (start len : Z) : gf_flock := mkflock t 0 start len 1 [].

(** Client [c] sends a request; [c] is also its lock owner and its frame. *)
Definition ex_lk (m : mem) (i : pl_inode_t) (c : Z) (cmd : lk_cmd) (t : lk_type) (start len : Z)
    : outcome (pl_inode_t * mem * list event) :=
  pl_lk lk_env m i c c c [c] 1 cmd (ex_flock t start len) 0.

(** The state after a request. *)
Definition ex_next (i : pl_inode_t) (c : Z) (cmd : lk_cmd) (t : lk_type) (start len : Z) : pl_inode_t :=
  match ex_lk [] i c cmd t start len with Done (i, _, _) => i | _ => lk_inode end.

Lemma ex_step i c cmd t start len i' m' evs : off_t start -> off_t len -> lock_cmd cmd ->
  ex_lk [] i c cmd t start len = Done (i', m', evs) -> live_step i i'.
Proof. intros Hs Hl Hc E. eapply live_lk; [|exact Hc|exact E]. split; done. Qed.

Lemma empty_live i : ext_list i = [] -> reservelk_list i = [] -> blocked_calls i = [] -> live i.
Proof.
  intros He Hr Hc. split; [|done|done]. split; [by apply inode_ok_empty|]. rewrite He. intros l Hl. by apply elem_of_nil in Hl.
Qed.

Lemma lk_inode_live : live lk_inode.
Proof. by apply empty_live. Qed.

(** Client 1 writes the bytes 0 to 9, client 2 waits to read 5 to 14. *)
Definition ex_i1 : pl_inode_t := Eval vm_compute in ex_next lk_inode 1 F_SETLK F_WRLCK 0 10.
Definition ex_i2 : pl_inode_t := Eval vm_compute in ex_next ex_i1 2 F_SETLKW F_RDLCK 5 10.

Ltac by_step c cmd t s l :=
  eapply rtc_l; [eapply (ex_step _ c cmd t s l); [unfold off_t; lia|unfold off_t; lia|unfold lock_cmd; auto|
    vm_compute; reflexivity]|].

Lemma ex_reach : rtc live_step lk_inode ex_i2.
Proof. by_step 1 F_SETLK F_WRLCK 0 10. by_step 2 F_SETLKW F_RDLCK 5 10. apply rtc_refl. Qed.

Lemma live_pl_step i i' : live_step i i' -> pl_step i i'.
Proof. intros []; [by eapply step_lk|by eapply step_flush|by eapply step_rw]. Qed.

Lemma live_pl_steps i i' : rtc live_step i i' -> rtc pl_step i i'.
Proof. induction 1; [apply rtc_refl|]. eapply rtc_l; [by apply live_pl_step|done]. Qed.

(** ** Exclusion *)

(** C6: exclusion.  In every state that lock requests, preemptions, reservations,
    flushes, closes, reads and writes reach from an inode without locks, with the
    sections that they run under the mutex interleaved in any way and any outcome of
    memory allocations, two granted locks of different owners that overlap are both
    read locks, and every lock is a non-empty range of 63-bit offsets. *)
Theorem posix_locks_exclusive i0 i l1 l2 :
  ext_list i0 = [] -> rtc pl_step i0 i -> l1 ∈ ext_list i -> l2 ∈ ext_list i ->
  wf_range l1 /\
  (blocked l1 = false -> blocked l2 = false -> same_owner l1 l2 = false -> locks_overlap l1 l2 = true ->
   fl_type l1 = F_RDLCK /\ fl_type l2 = F_RDLCK).
Proof.
  intros H0 Hs H1 H2. destruct (pl_steps_ok i0 i (inode_ok_empty i0 H0) Hs) as [Hwf Hex].
  rewrite Forall_forall in Hwf. destruct (Hwf l1 H1) as [Hr1 _], (Hwf l2 H2) as [Hr2 _].
  split; [done|]. intros Hb1 Hb2 Ho Hov. apply same_owner_false in Ho.
  apply locks_overlap_spec in Hov as (x & Hx1 & Hx2); [|done|done].
  apply (Hex (lk_owner l1) (lk_owner l2) _ _ x); [done|by exists l1|by exists l2].
Qed.

(** Two readers. *)
Definition ex_r1 : pl_inode_t := Eval vm_compute in ex_next lk_inode 1 F_SETLK F_RDLCK 0 10.
Definition ex_r2 : pl_inode_t := Eval vm_compute in ex_next ex_r1 2 F_SETLK F_RDLCK 5 10.

Lemma posix_locks_exclusive_witness :
  exists l1 l2, ext_list ex_r2 = [l1; l2] /\ fl_type l1 = F_RDLCK /\ fl_type l2 = F_RDLCK.
Proof.
  assert (Hs : rtc live_step lk_inode ex_r2).
  { by_step 1 F_SETLK F_RDLCK 0 10. by_step 2 F_SETLK F_RDLCK 5 10. apply rtc_refl. }
  destruct (ext_list ex_r2) as [|l1 [|l2 [|]]] eqn:E; try discriminate E. exists l1, l2. split; [reflexivity|].
  apply (posix_locks_exclusive lk_inode ex_r2 l1 l2); [reflexivity|apply live_pl_steps, Hs|rewrite E; set_solver|
    rewrite E; set_solver|injection E as <- <-; reflexivity..].
Defined.

(** ** The effect of a request *)

(** C12: With memory available, for a well-formed list of locks and a well-formed
    lock that does not wait and conflicts with no granted lock of another owner,
    whose owner holds no byte in two ways at once, and which, if it is a read lock,
    either covers no byte that its owner has a write lock on or meets no granted
    read lock of another owner in the list (downgrade_safe; the excluded case goes
    wrong in downgrade_incomplete): __insert_and_merge returns a well-formed list in
    which the owner holds every byte of the range exactly as the lock says (not at
    all for an unlock) and every other byte as before; the locks of other owners and
    the waiting locks stay, in their order. *)
Theorem insert_and_merge_correct now ext lock :
  ext_ok ext -> wf_range lock -> blocked lock = false -> compatible ext lock ->
  single (holds ext (lk_owner lock)) -> downgrade_safe ext lock ->
  exists ext', __insert_and_merge now [] ext lock = Done (ext', []) /\ ext_ok ext' /\
    (forall t x, holds ext' (lk_owner lock) t x <->
       if decide (x ∈ lock) then t = fl_type lock /\ t <> F_UNLCK else holds ext (lk_owner lock) t x) /\
    filter (apart (lk_owner lock)) ext' = filter (apart (lk_owner lock)) ext.
Proof.
  intros Hok Hr Hb Hc Hs Hsafe.
  destruct (merge_returns now ext lock Hok Hb Hr Hc) as ([ext' m'] & E & Hm & Hok' & _). cbn [fst snd] in *. subst m'.
  exists ext'. split; [done|]. split; [done|].
  split; [apply (merge_exact_ok now _ ext lock (ext', []) Hb Hr (eo_wf _ Hok) Hs Hsafe E)|].
  apply (mg_apart _ _ _ _ (merge_any_ok now _ [] ext lock (ext', []) Hb Hr (eo_wf _ Hok) E)).
Qed.

(** A lock of owner 1. *)
Definition ex_lock (t : lk_type) (s e : Z) : posix_lock_t :=
  mklock s e 0 t false (ex_flock t s (e - s + 1)) 1 1 1 0 0 1 [1] 1 false.

Lemma insert_and_merge_correct_witness :
  exists ext', __insert_and_merge 0 [] [ex_lock F_WRLCK 0 9] (ex_lock F_RDLCK 3 5) = Done (ext', []) /\
    holds ext' ([1], 1) F_RDLCK 4 /\ holds ext' ([1], 1) F_WRLCK 9.
Proof.
  assert (Hown : forall o t x, holds [ex_lock F_WRLCK 0 9] o t x -> o = ([1], 1) /\ t = F_WRLCK /\ 0 <= x <= 9).
  { intros o t x [(_ & <- & <- & Hx)|H]%holds_cons; [|exfalso; by apply holds_nil in H].
    split; [reflexivity|]. split; [reflexivity|]. exact Hx. }
  destruct (insert_and_merge_correct 0 [ex_lock F_WRLCK 0 9] (ex_lock F_RDLCK 3 5)) as (ext' & E & _ & H & _).
  - split; [constructor; [|constructor]; split; [unfold wf_range, LLONG_MAX; cbn; lia|discriminate]|].
    intros o o' t t' x Hne H1 H2. apply Hown in H1 as [-> _]. apply Hown in H2 as [-> _]. exfalso. apply Hne. reflexivity.
  - unfold wf_range, LLONG_MAX. cbn. lia.
  - reflexivity.
  - right. intros o t x Ho H1. apply Hown in H1 as [-> _]. exfalso. apply Ho. reflexivity.
  - intros t t' x H1 H2. apply Hown in H1 as (_ & -> & _). apply Hown in H2 as (_ & -> & _). reflexivity.
  - intros _. right. intros l Hl _ Ho. apply list_elem_of_singleton in Hl as ->. exfalso. apply Ho. reflexivity.
  - exists ext'. split; [exact E|]. split; apply H.
    + rewrite decide_True by (rewrite lock_elem; cbn; lia). split; [reflexivity|discriminate].
    + rewrite decide_False by (rewrite lock_elem; cbn; lia). apply holds_cons. left.
      split; [reflexivity|]. split; [reflexivity|]. split; [reflexivity|]. rewrite lock_elem. cbn. lia.
Defined.

(** ** Termination and progress *)

(** C27: A lock request never loops. In every state reachable from an inode without
    locks (with the sections of all requests interleaved in any way), for any
    request in the range of off_t and any outcome of the allocations, the recursion
    of __insert_and_merge stops within the bound of merge_fuel, so that pl_lk never
    loops; if no allocation fails and the inode has neither reservations nor calls
    that wait for one, it returns (without a faulty memory access), with the locks
    of the inode well formed and exclusive. *)
Theorem pl_lk_terminates i0 i env m f c pid o fd0 cmd flock flags :
  ext_list i0 = [] -> rtc pl_step i0 i -> flock_off_t flock ->
  pl_lk env m i f c pid o fd0 cmd flock flags <> NoFuel /\
  (m = [] -> reservelk_list i = [] -> blocked_calls i = [] ->
   exists i' evs, pl_lk env m i f c pid o fd0 cmd flock flags = Done (i', [], evs) /\ inode_ok i').
Proof.
  intros H0 Hs Hf. pose proof (pl_steps_ok i0 i (inode_ok_empty i0 H0) Hs) as Hi. pose proof (pl_lk_ok env m i f c pid o fd0 cmd flock flags Hi Hf) as H. split.
  - intros E. by rewrite E in H.
  - intros -> Hr Hc. destruct (pl_lk_live env ext_ok settled_ok ltac:(done) i f c pid o fd0 cmd flock flags) as ([[i' m'] evs] & E & Hm & _); [by split|done|].
    cbn in Hm. subst m'. rewrite E in *. by exists i', evs.
Qed.

Lemma pl_lk_terminates_witness :
  ex_lk [] ex_i2 3 F_SETLKW F_WRLCK 0 20 <> NoFuel /\
  exists i' evs, ex_lk [] ex_i2 3 F_SETLKW F_WRLCK 0 20 = Done (i', [], evs) /\ inode_ok i'.
Proof.
  unfold ex_lk. destruct (pl_lk_terminates lk_inode ex_i2 lk_env [] 3 3 3 [3] 1 F_SETLKW (ex_flock F_WRLCK 0 20) 0) as [H1 H2];
    [reflexivity|apply live_pl_steps, ex_reach|split; unfold off_t; cbn; lia|].
  split; [exact H1|]. apply H2; reflexivity.
Defined.

(** C30: no lock waits for a range that is free of locks.  In every state that lock
    requests (F_GETLK, F_SETLK, F_SETLKW), flushes, closes, reads and writes reach one
    after another from an inode without locks and reservations, without allocation
    failures, each waiting lock overlaps a granted lock (which need not conflict with
    it, see [reader_left_waiting]), and the next request returns without a fault, in
    such a state again. *)
Theorem no_lock_waits_idle i0 i env f c pid o fd0 cmd flock flags :
  ext_list i0 = [] -> reservelk_list i0 = [] -> blocked_calls i0 = [] -> rtc live_step i0 i -> flock_off_t flock -> lock_cmd cmd ->
  (forall l, l ∈ ext_list i -> blocked l = true ->
     exists g, g ∈ ext_list i /\ blocked g = false /\ locks_overlap g l = true) /\
  exists i' evs, pl_lk env [] i f c pid o fd0 cmd flock flags = Done (i', [], evs) /\ live i'.
Proof.
  intros He Hr Hbc Hs Hf Hc. pose proof (live_steps_ok i0 i (empty_live i0 He Hr Hbc) Hs) as Hi. split.
  - intros l Hl Hb. destruct (lv_locks _ i Hi) as [[Hwf _] Hid]. rewrite Forall_forall in Hwf.
    destruct (Hid l Hl Hb) as (o' & x & Hx & t & g & Hg & Hgb & _ & _ & Hxg). exists g. split; [done|]. split; [done|].
    apply locks_overlap_spec; [apply (Hwf g Hg)|apply (Hwf l Hl)|]. by exists x.
  - destruct (pl_lk_live env settled ltac:(done) settled_ok i f c pid o fd0 cmd flock flags Hi Hf) as ([[i' m'] evs] & E & Hm & Hl').
    cbn [fst snd] in *. subst m'. exists i', evs. auto.
Qed.

Lemma no_lock_waits_idle_witness :
  exists i' evs, ex_lk [] ex_i2 1 F_SETLK F_UNLCK 0 10 = Done (i', [], evs) /\ live i'.
Proof.
  unfold ex_lk. apply (no_lock_waits_idle lk_inode ex_i2); [reflexivity|reflexivity|reflexivity|exact ex_reach|split; unfold off_t; cbn; lia|unfold lock_cmd; auto].
Defined.

(** ** Testing a lock *)

Lemma conflicting_grantable ext lock : fl_type lock <> F_UNLCK -> Forall wf_lock ext -> wf_range lock ->
  (first_conflicting_overlap ext lock = None <-> __is_lock_grantable ext lock = true).
Proof.
  intros Hu Hwf Hr. induction Hwf as [|l ext Hl Hwf IH]; [done|]. cbn [first_conflicting_overlap __is_lock_grantable].
  rewrite (bool_decide_eq_false_2 _ Hu), andb_true_r.
  assert (Ho : locks_overlap lock l = locks_overlap l lock) by (unfold locks_overlap; apply andb_comm). rewrite Ho.
  destruct (blocked l); [exact IH|]. destruct (locks_overlap l lock); [|exact IH]. cbn [negb andb].
  destruct (same_owner l lock); [by rewrite andb_false_r|]. rewrite andb_true_r. by destruct (conflicts l lock).
Qed.

(** Testing agrees with setting.  [F_GETLK] answers that the range is free
    exactly when the same [F_SETLK] would be granted at that moment, and
    otherwise answers with a granted lock of another owner that overlaps it
    and of which one is a write lock. *)
Theorem pl_getlk_correct i lock :
  inode_ok i -> wf_range lock -> fl_type lock <> F_UNLCK ->
  let r := pl_getlk i lock in
  (fl_type r = F_UNLCK <-> __is_lock_grantable (ext_list i) lock = true) /\
  (fl_type r <> F_UNLCK -> r ∈ ext_list i /\ blocked r = false /\ locks_overlap r lock = true /\
     same_owner r lock = false /\ (fl_type r = F_WRLCK \/ fl_type lock = F_WRLCK)).
Proof.
  intros [Hwf _] Hr Hu. cbv zeta. rewrite <- (conflicting_grantable (ext_list i) lock Hu Hwf Hr). unfold pl_getlk.
  assert (Hf : forall ext c, first_conflicting_overlap ext lock = Some c -> c ∈ ext /\ blocked c = false /\
    locks_overlap c lock = true /\ same_owner c lock = false /\ conflicts c lock = true).
  { induction ext as [|l ext IH]; intros c; cbn [first_conflicting_overlap]; [done|].
    destruct (blocked l) eqn:Eb; [|destruct (locks_overlap l lock) eqn:Eo; [destruct (same_owner l lock) eqn:Es;
      [|destruct (conflicts l lock) eqn:Ec]|]].
    3: intros [= <-]; split; [by left|done].
    all: intros H; destruct (IH c H) as [? ?]; (split; [by right|done]). }
  destruct (first_conflicting_overlap (ext_list i) lock) as [c|] eqn:E.
  - destruct (Hf _ c E) as (Hin & Hb & Ho & Hs & Hc). rewrite Forall_forall in Hwf. destruct (Hwf c Hin) as [_ Hcu].
    split; [done|]. intros _. repeat (split; [done|]). unfold conflicts in Hc.
    by apply orb_true_iff in Hc as [Hc%bool_decide_eq_true|Hc%bool_decide_eq_true]; [left|right].
  - split; [done|]. by intros H.
Qed.

Lemma pl_getlk_correct_witness : fl_type (pl_getlk ex_i2 (ex_lock F_RDLCK 20 29)) = F_UNLCK.
Proof.
  apply (pl_getlk_correct ex_i2 (ex_lock F_RDLCK 20 29));
    [apply (live_steps_ok lk_inode ex_i2 lk_inode_live ex_reach)|unfold wf_range, LLONG_MAX; cbn; lia|discriminate|reflexivity].
Defined.

(** ** Mandatory locking *)

(** A granted lock of another owner than [who] that excludes an operation on the
    bytes from [off] on: one of the two writes, and in the optimal mode the lock
    was asked for as a mandatory one. *)
Definition excludes (env : pl_env) (op : fop_t) (who : gf_lkowner_t * Z) (off sz : Z) (l : posix_lock_t) : Prop :=
  blocked l = false /\ lk_owner l <> who /\ (exists x, x ∈ l /\ off <= x < off + sz) /\
  (op = GF_FOP_WRITE \/ fl_type l = F_WRLCK) /\ (e_mode env = MLK_OPTIMAL -> Z.land (lk_flags l) GF_LK_MANDATORY <> 0).

Lemma lock_allowable_spec env ext r op off sz : Forall wf_lock ext -> wf_range r -> (forall x, x ∈ r <-> off <= x < off + sz) ->
  if lock_allowable env ext r op then Forall (fun l => ~ excludes env op (lk_owner r) off sz l) ext else Exists (excludes env op (lk_owner r) off sz) ext.
Proof.
  intros Hwf Hr Hx. induction Hwf as [|l ext [Hlr Hlt] Hwf IH]; cbn [lock_allowable]; [done|].
  assert (Hgo : ~ excludes env op (lk_owner r) off sz l -> if lock_allowable env ext r op then
    Forall (fun l => ~ excludes env op (lk_owner r) off sz l) (l :: ext) else Exists (excludes env op (lk_owner r) off sz) (l :: ext)).
  { intros Hn. destruct (lock_allowable env ext r op); [by constructor|by right]. }
  destruct (blocked l) eqn:Eb; cbn [negb andb]; [apply Hgo; intros (H & _); congruence|].
  destruct (locks_overlap l r) eqn:Eo; cbn [andb].
  2: { apply Hgo. intros (_ & _ & (x & Hxl & Hxr) & _). apply Hx in Hxr. assert (locks_overlap l r = true) by (apply locks_overlap_spec; [done|done|by exists x]). congruence. }
  destruct (same_owner l r) eqn:Es; cbn [negb]; [apply same_owner_spec in Es; apply Hgo; by intros (_ & H & _)|]. apply same_owner_false in Es.
  destruct (bool_decide (op = GF_FOP_READ) && negb (bool_decide (fl_type l = F_WRLCK))) eqn:Ec.
  { apply andb_true_iff in Ec as [->%bool_decide_eq_true Et%negb_true_iff%bool_decide_eq_false]. apply Hgo. by intros (_ & _ & _ & [|] & _). }
  destruct (bool_decide (e_mode env = MLK_OPTIMAL) && (Z.land (lk_flags l) GF_LK_MANDATORY =? 0)) eqn:Em.
  { apply andb_true_iff in Em as [Hm%bool_decide_eq_true Hf%Z.eqb_eq]. apply Hgo. intros (_ & _ & _ & _ & H). by apply H. }
  left. split; [done|]. split; [done|]. apply locks_overlap_spec in Eo as (y & Hy & Hyr); [|done|done]. split; [exists y; split; [done|by apply Hx]|]. split.
  - destruct op; [|by left]. rewrite bool_decide_eq_true_2 in Ec by done. apply negb_false_iff, bool_decide_eq_true in Ec. by right.
  - intros Hm Hf. by rewrite (bool_decide_eq_true_2 _ Hm), Hf in Em.
Qed.

(** C38: Mandatory locking, for an inode whose locks are well formed. When mandatory
    locks are enabled (forced, optimal, or for a file that asks for them) and not
    enforced by preemption, a read or a write of a user process (pid is not
    negative) of at least one byte, up to the largest offset, goes on at once if no
    granted lock of another owner excludes it: a lock on one of its bytes of which,
    or of the operation, one writes (in the optimal mode only locks asked for as
    mandatory count). Otherwise nothing goes on: it is refused with EAGAIN if it
    must not block; and if it may, it waits at the end of the queue, or is refused
    with ENOMEM if an allocation fails; no lock changes. *)
Theorem pl_rw_mandatory env op m i stub c pid o fd0 off sz nb :
  inode_ok i -> pl_is_mandatory_locking_enabled env i = true -> mlock_enforced i = false -> 0 <= pid ->
  0 <= off -> 0 < sz -> off + sz <= 2 ^ 63 ->
  let r := pl_rw env op m i stub c pid o fd0 off sz nb in
  (Forall (fun l => ~ excludes env op (o, c) off sz l) (ext_list i) -> r = (i, m, [Resume stub])) /\
  (Exists (excludes env op (o, c) off sz) (ext_list i) ->
   if nb then r = (i, m, [Refuse stub EAGAIN]) else
   exists m', r = (with_rw i (rw_list i ++ [mkrw stub op (io_region c pid o fd0 off sz)]) (fop_wind_count i), m', []) \/
     r = (i, m', [Refuse stub ENOMEM]) /\ m <> []).
Proof.
  intros [Hwf _] Hen Henf Hpid Ho Hs Hend. unfold pl_rw. rewrite (proj2 (Z.ltb_ge pid 0)), Hen by lia. cbv zeta.
  set (r := io_region c pid o fd0 off sz).
  assert (Hx : forall x, x ∈ r <-> off <= x < off + sz).
  { intros x. rewrite lock_elem. unfold r, io_region, s64. cbn [fl_start fl_end]. rewrite Z.mod_small by lia. lia. }
  assert (Hr : wf_range r) by (unfold r, io_region, wf_range, s64, LLONG_MAX; cbn [fl_start fl_end]; rewrite Z.mod_small by lia; lia).
  pose proof (lock_allowable_spec env (ext_list i) r op off sz Hwf Hr Hx) as Ha. change (lk_owner r) with (o, c) in Ha.
  unfold pl_is_fop_allowed, __rw_allowable. rewrite Henf. destruct (lock_allowable env (ext_list i) r op); cbn [negb andb].
  - split; [done|]. intros He. exfalso. rewrite Exists_exists in He. rewrite Forall_forall in Ha. destruct He as (l & Hl & He). by apply (Ha l).
  - split; [intros Hf; exfalso; rewrite Exists_exists in Ha; rewrite Forall_forall in Hf; destruct Ha as (l & Hl & He); by apply (Hf l)|]. intros _.
    rewrite andb_false_r. destruct nb; [done|]. destruct m as [|[] m]; cbn; [eexists; by left| |eexists; by right].
    destruct m as [|[] m]; cbn; [eexists; by left|eexists; by left|eexists; by right].
Qed.

(** Client 2 writes behind the lock of client 1, and on it. *)
Lemma pl_rw_mandatory_witness :
  pl_writev lk_env [] ex_i2 77 2 2 [2] 1 10 5 false = (ex_i2, [], [Resume 77]) /\
  exists m', pl_writev lk_env [] ex_i2 78 2 2 [2] 1 5 10 false =
      (with_rw ex_i2 (rw_list ex_i2 ++ [mkrw 78 GF_FOP_WRITE (io_region 2 2 [2] 1 5 10)]) (fop_wind_count ex_i2), m', []) \/
    pl_writev lk_env [] ex_i2 78 2 2 [2] 1 5 10 false = (ex_i2, m', [Refuse 78 ENOMEM]) /\ @nil bool <> [].
Proof.
  split.
  - apply (pl_rw_mandatory lk_env GF_FOP_WRITE [] ex_i2 77 2 2 [2] 1 10 5 false);
      [apply (live_steps_ok lk_inode ex_i2 lk_inode_live ex_reach)|reflexivity|reflexivity|lia|lia|lia|lia|].
    repeat constructor; intros (Hb & _ & (x & Hx & Hr) & _); [rewrite lock_elem in Hx; cbn in Hx; lia|discriminate Hb].
  - apply (pl_rw_mandatory lk_env GF_FOP_WRITE [] ex_i2 78 2 2 [2] 1 5 10 false);
      [apply (live_steps_ok lk_inode ex_i2 lk_inode_live ex_reach)|reflexivity|reflexivity|lia|lia|lia|lia|].
    left. split; [reflexivity|]. split; [discriminate|]. split; [exists 5; rewrite lock_elem; cbn; lia|]. split; [by left|discriminate].
Defined.

(** ** Where the code goes wrong *)

(** Client 1 reads 0 to 4, client 2 writes 5 to 9, client 3 waits to read 0 to 9;
    then client 2 unlocks. *)
Definition ex_w1 : pl_inode_t := Eval vm_compute in ex_next lk_inode 1 F_SETLK F_RDLCK 0 5.
Definition ex_w2 : pl_inode_t := Eval vm_compute in ex_next ex_w1 2 F_SETLK F_WRLCK 5 5.
Definition ex_w3 : pl_inode_t := Eval vm_compute in ex_next ex_w2 3 F_SETLKW F_RDLCK 0 10.
Definition ex_w4 : pl_inode_t := Eval vm_compute in ex_next ex_w3 2 F_SETLK F_UNLCK 5 5.

(** A reader can be left waiting although nothing is in its way.  A lock
    that waits is only tried again when it overlaps no granted lock at all, so
    a read lock that overlaps another read lock is not granted when the writer
    it waited for goes away: it stays blocked in a state where the same
    request would be granted. *)
Theorem reader_left_waiting :
  rtc live_step lk_inode ex_w4 /\
  exists l, l ∈ ext_list ex_w4 /\ blocked l = true /\ fl_type l = F_RDLCK /\
    __is_lock_grantable (ext_list ex_w4) l = true.
Proof.
  split.
  - by_step 1 F_SETLK F_RDLCK 0 5. by_step 2 F_SETLK F_WRLCK 5 5. by_step 3 F_SETLKW F_RDLCK 0 10.
    by_step 2 F_SETLK F_UNLCK 5 5. apply rtc_refl.
  - destruct (ext_list ex_w4) as [|a [|l [|]]] eqn:E; try discriminate E. exists l. split; [set_solver|].
    injection E as <- <-. done.
Qed.

(** Client 2 reads 5 to 9, client 1 writes 0 to 4 and asks to read 0 to 9. *)
Definition ex_d1 : pl_inode_t := Eval vm_compute in ex_next lk_inode 2 F_SETLK F_RDLCK 5 5.
Definition ex_d2 : pl_inode_t := Eval vm_compute in ex_next ex_d1 1 F_SETLK F_WRLCK 0 5.
Definition ex_d3 : pl_inode_t := Eval vm_compute in ex_next ex_d2 1 F_SETLK F_RDLCK 0 10.

(** A granted downgrade can leave the write lock in place.  When the scan
    of [__insert_and_merge] meets a reader of another owner first, it inserts
    the new read lock without looking at the locks of its own owner: the owner
    then holds byte 0 both ways, and another reader of byte 0 is refused. *)
Theorem downgrade_incomplete :
  rtc live_step lk_inode ex_d3 /\
  holds (ext_list ex_d3) ([1], 1) F_RDLCK 0 /\ holds (ext_list ex_d3) ([1], 1) F_WRLCK 0 /\
  exists i' m' evs, ex_lk [] ex_d3 3 F_SETLK F_RDLCK 0 1 = Done (i', m', evs) /\ Lk 3 (-1) EAGAIN (ex_flock F_RDLCK 0 1) ∈ evs.
Proof.
  split; [|split; [|split]].
  - by_step 2 F_SETLK F_RDLCK 5 5. by_step 1 F_SETLK F_WRLCK 0 5. by_step 1 F_SETLK F_RDLCK 0 10. apply rtc_refl.
  - destruct (ext_list ex_d3) as [|a [|b [|c [|]]]] eqn:E; try discriminate E. exists c. split; [set_solver|].
    injection E as <- <- <-. do 3 (split; [reflexivity|]). rewrite lock_elem. cbn. lia.
  - destruct (ext_list ex_d3) as [|a [|b [|c [|]]]] eqn:E; try discriminate E. exists b. split; [set_solver|].
    injection E as <- <- <-. do 3 (split; [reflexivity|]). rewrite lock_elem. cbn. lia.
  - do 3 eexists. split; [vm_compute; reflexivity|]. set_solver.
Qed.

(** A failed allocation can take a lock away.  Client 1 holds a read lock
    and asks for a write lock on the same range; when the copy in
    [subtract_locks] fails, the request is answered with success and the
    client holds nothing. *)
Theorem upgrade_lost_without_memory :
  exists i' m', ex_lk [true; true; true; true; true; false] ex_r1 1 F_SETLK F_WRLCK 0 10 =
    Done (i', m', [Lk 1 0 0 (ex_flock F_WRLCK 0 10)]) /\ ext_list ex_r1 <> [] /\ ext_list i' = [].
Proof. do 2 eexists. split; [vm_compute; reflexivity|]. split; [discriminate|reflexivity]. Qed.

(** A reservation breaks later lock requests.  With a reservation in the
    list, setting a lock on any range that is not exactly a reserved one
    makes [__matching_reservelk] use the head of the list as a lock. *)
Theorem reservation_wild_pointer env m i f c pid o fd0 flock flags b lock m1 :
  migrated i = false -> reservelk_list i <> [] -> Forall (fun l => reservelks_equal l lock = false) (reservelk_list i) ->
  (l_start flock <? 0) || (s64 (l_start flock + l_len flock) <? 0) = false -> (alloc m).1 = true ->
  new_posix_lock (e_opversion env c) (alloc m).2 (normalise_flock flock) c pid o fd0 flags false = (inr lock, m1) ->
  pl_lk env m i f c pid o fd0 (if b : bool then F_SETLKW else F_SETLK) flock flags = Fault.
Proof.
  intros Hm Hne Hall Hc Ha Hn. unfold pl_lk. rewrite Hc. cbv zeta. destruct (alloc m) as [ok m0]. cbn [fst snd] in *. subst ok.
  cbn [negb]. rewrite Hn.
  assert (Hf : forall l, fl_start l = fl_start lock -> fl_end l = fl_end lock -> __matching_reservelk i l = Fault).
  { intros l Hs He. unfold __matching_reservelk.
    assert (E : List.find (fun k => reservelks_equal k l) (reservelk_list i) = None).
    { unfold reservelks_equal in *. rewrite Hs, He. clear - Hall. induction Hall as [|k ks Hk Hks IH]; cbn; [done|]. by rewrite Hk. }
    rewrite E. by destruct (reservelk_list i). }
  destruct b; unfold lk_set, pl_verify_reservelk, __reservelk_conflict; rewrite Hm, Hf by done; done.
Qed.

(** A reservation of 0 to 9. *)
Definition ex_res : pl_inode_t := Eval vm_compute in ex_next lk_inode 1 F_RESLK_LCK F_WRLCK 0 10.

Lemma reservation_wild_pointer_witness : ex_lk [] ex_res 2 F_SETLK F_RDLCK 20 10 = Fault.
Proof.
  unfold ex_lk. eapply (reservation_wild_pointer lk_env [] ex_res 2 2 2 [2] 1 (ex_flock F_RDLCK 20 10) 0 false);
    [reflexivity|discriminate| |reflexivity|reflexivity|vm_compute; reflexivity].
  constructor; [reflexivity|constructor].
Defined.
