(* ===== verification/CrHash.v ===== *)
(** * Hashes and logarithms of CRUSH (ceph/src/crush: hash.c, crush_ln_table.h, mapper.c)

    The 32-bit mixing functions on which every placement decision is based, and
    the table-driven logarithm of the straw2 buckets. *)
From S2P Require Import Prelude.

(** ** Robert Jenkins' hash *)

Definition crush_hashmix (a b c : Z) : Z * Z * Z :=
  let a := Z.lxor (u32 (u32 (a - b) - c)) (Z.shiftr c 13) in
  let b := Z.lxor (u32 (u32 (b - c) - a)) (u32 (Z.shiftl a 8)) in
  let c := Z.lxor (u32 (u32 (c - a) - b)) (Z.shiftr b 13) in
  let a := Z.lxor (u32 (u32 (a - b) - c)) (Z.shiftr c 12) in
  let b := Z.lxor (u32 (u32 (b - c) - a)) (u32 (Z.shiftl a 16)) in
  let c := Z.lxor (u32 (u32 (c - a) - b)) (Z.shiftr b 5) in
  let a := Z.lxor (u32 (u32 (a - b) - c)) (Z.shiftr c 3) in
  let b := Z.lxor (u32 (u32 (b - c) - a)) (u32 (Z.shiftl a 10)) in
  let c := Z.lxor (u32 (u32 (c - a) - b)) (Z.shiftr b 15) in
  (a, b, c).

Definition crush_hash_seed : Z := 1315423911.

Definition crush_hash32_rjenkins1 (a : Z) : Z :=
  let hash := Z.lxor crush_hash_seed a in
  let b := a in
  let x := 231232 in
  let y := 1232 in
  let '(b, x, hash) := crush_hashmix b x hash in
  let '(y, a, hash) := crush_hashmix y a hash in
  hash.

Definition crush_hash32_rjenkins1_2 (a b : Z) : Z :=
  let hash := Z.lxor (Z.lxor crush_hash_seed a) b in
  let x := 231232 in
  let y := 1232 in
  let '(a, b, hash) := crush_hashmix a b hash in
  let '(x, a, hash) := crush_hashmix x a hash in
  let '(b, y, hash) := crush_hashmix b y hash in
  hash.

Definition crush_hash32_rjenkins1_3 (a b c : Z) : Z :=
  let hash := Z.lxor (Z.lxor (Z.lxor crush_hash_seed a) b) c in
  let x := 231232 in
  let y := 1232 in
  let '(a, b, hash) := crush_hashmix a b hash in
  let '(c, x, hash) := crush_hashmix c x hash in
  let '(y, a, hash) := crush_hashmix y a hash in
  let '(b, x, hash) := crush_hashmix b x hash in
  let '(y, c, hash) := crush_hashmix y c hash in
  hash.

Definition crush_hash32_rjenkins1_4 (a b c d : Z) : Z :=
  let hash := Z.lxor (Z.lxor (Z.lxor (Z.lxor crush_hash_seed a) b) c) d in
  let x := 231232 in
  let y := 1232 in
  let '(a, b, hash) := crush_hashmix a b hash in
  let '(c, d, hash) := crush_hashmix c d hash in
  let '(a, x, hash) := crush_hashmix a x hash in
  let '(y, b, hash) := crush_hashmix y b hash in
  let '(c, x, hash) := crush_hashmix c x hash in
  let '(y, d, hash) := crush_hashmix y d hash in
  hash.

Definition crush_hash32_rjenkins1_5 (a b c d e : Z) : Z :=
  let hash := Z.lxor (Z.lxor (Z.lxor (Z.lxor (Z.lxor crush_hash_seed a) b) c) d) e in
  let x := 231232 in
  let y := 1232 in
  let '(a, b, hash) := crush_hashmix a b hash in
  let '(c, d, hash) := crush_hashmix c d hash in
  let '(e, x, hash) := crush_hashmix e x hash in
  let '(y, a, hash) := crush_hashmix y a hash in
  let '(b, x, hash) := crush_hashmix b x hash in
  let '(y, c, hash) := crush_hashmix y c hash in
  let '(d, x, hash) := crush_hashmix d x hash in
  let '(y, e, hash) := crush_hashmix y e hash in
  hash.

Definition CRUSH_HASH_RJENKINS1 : Z := 0.

(** The arguments are converted to [__u32] by the calls. *)
Definition crush_hash32 (type a : Z) : Z :=
  if type =? CRUSH_HASH_RJENKINS1 then crush_hash32_rjenkins1 (u32 a) else 0.
Definition crush_hash32_2 (type a b : Z) : Z :=
  if type =? CRUSH_HASH_RJENKINS1 then crush_hash32_rjenkins1_2 (u32 a) (u32 b) else 0.
Definition crush_hash32_3 (type a b c : Z) : Z :=
  if type =? CRUSH_HASH_RJENKINS1 then crush_hash32_rjenkins1_3 (u32 a) (u32 b) (u32 c) else 0.
Definition crush_hash32_4 (type a b c d : Z) : Z :=
  if type =? CRUSH_HASH_RJENKINS1 then crush_hash32_rjenkins1_4 (u32 a) (u32 b) (u32 c) (u32 d) else 0.
Definition crush_hash32_5 (type a b c d e : Z) : Z :=
  if type =? CRUSH_HASH_RJENKINS1 then crush_hash32_rjenkins1_5 (u32 a) (u32 b) (u32 c) (u32 d) (u32 e) else 0.

(** ** The logarithm *)

(** Reciprocals and logarithms of 1 + k/128. *)
Definition __RH_LH_tbl : list Z :=
  [ 0x1000000000000; 0x0; 0xfe03f80fe040; 0x2dfca16dde1; 0xfc0fc0fc0fc1; 0x5b9e5a170b4;
    0xfa232cf25214; 0x88e68ea899a; 0xf83e0f83e0f9; 0xb5d69bac77e; 0xf6603d980f67; 0xe26fd5c8555;
    0xf4898d5f85bc; 0x10eb389fa29f; 0xf2b9d6480f2c; 0x13aa2fdd27f1; 0xf0f0f0f0f0f1; 0x1663f6fac913;
    0xef2eb71fc435; 0x1918a16e4633; 0xed7303b5cc0f; 0x1bc84240adab; 0xebbdb2a5c162; 0x1e72ec117fa5;
    0xea0ea0ea0ea1; 0x2118b119b4f3; 0xe865ac7b7604; 0x23b9a32eaa56; 0xe6c2b4481cd9; 0x2655d3c4f15c;
    0xe525982af70d; 0x28ed53f307ee; 0xe38e38e38e39; 0x2b803473f7ad; 0xe1fc780e1fc8; 0x2e0e85a9de04;
    0xe070381c0e08; 0x309857a05e07; 0xdee95c4ca038; 0x331dba0efce1; 0xdd67c8a60dd7; 0x359ebc5b69d9;
    0xdbeb61eed19d; 0x381b6d9bb29b; 0xda740da740db; 0x3a93dc9864b2; 0xd901b2036407; 0x3d0817ce9cd4;
    0xd79435e50d7a; 0x3f782d7204d0; 0xd62b80d62b81; 0x41e42b6ec0c0; 0xd4c77b03531e; 0x444c1f6b4c2d;
    0xd3680d3680d4; 0x46b016ca47c1; 0xd20d20d20d21; 0x49101eac381c; 0xd0b69fcbd259; 0x4b6c43f1366a;
    0xcf6474a8819f; 0x4dc4933a9337; 0xce168a772509; 0x501918ec6c11; 0xcccccccccccd; 0x5269e12f346e;
    0xcb8727c065c4; 0x54b6f7f1325a; 0xca4587e6b750; 0x570068e7ef5a; 0xc907da4e8712; 0x59463f919dee;
    0xc7ce0c7ce0c8; 0x5b8887367433; 0xc6980c6980c7; 0x5dc74ae9fbec; 0xc565c87b5f9e; 0x6002958c5871;
    0xc4372f855d83; 0x623a71cb82c8; 0xc30c30c30c31; 0x646eea247c5c; 0xc1e4bbd595f7; 0x66a008e4788c;
    0xc0c0c0c0c0c1; 0x68cdd829fd81; 0xbfa02fe80bfb; 0x6af861e5fc7d; 0xbe82fa0be830; 0x6d1fafdce20a;
    0xbd6910470767; 0x6f43cba79e40; 0xbc52640bc527; 0x7164beb4a56d; 0xbb3ee721a54e; 0x73829248e961;
    0xba2e8ba2e8bb; 0x759d4f80cba8; 0xb92143fa36f6; 0x77b4ff5108d9; 0xb81702e05c0c; 0x79c9aa879d53;
    0xb70fbb5a19bf; 0x7bdb59cca388; 0xb60b60b60b61; 0x7dea15a32c1b; 0xb509e68a9b95; 0x7ff5e66a0ffe;
    0xb40b40b40b41; 0x81fed45cbccb; 0xb30f63528918; 0x8404e793fb81; 0xb21642c8590c; 0x86082806b1d5;
    0xb11fd3b80b12; 0x88089d8a9e47; 0xb02c0b02c0b1; 0x8a064fd50f2a; 0xaf3addc680b0; 0x8c01467b94bb;
    0xae4c415c9883; 0x8df988f4ae80; 0xad602b580ad7; 0x8fef1e987409; 0xac7691840ac8; 0x91e20ea1393e;
    0xab8f69e2835a; 0x93d2602c2e5f; 0xaaaaaaaaaaab; 0x95c01a39fbd6; 0xa9c84a47a080; 0x97ab43af59f9;
    0xa8e83f5717c1; 0x9993e355a4e5; 0xa80a80a80a81; 0x9b79ffdb6c8b; 0xa72f0539782a; 0x9d5d9fd5010b;
    0xa655c4392d7c; 0x9f3ec9bcfb80; 0xa57eb50295fb; 0xa11d83f4c355; 0xa4a9cf1d9684; 0xa2f9d4c51039;
    0xa3d70a3d70a4; 0xa4d3c25e68dc; 0xa3065e3fae7d; 0xa6ab52d99e76; 0xa237c32b16d0; 0xa8808c384547;
    0xa16b312ea8fd; 0xaa5374652a1c; 0xa0a0a0a0a0a1; 0xac241134c4e9; 0x9fd809fd80a0; 0xadf26865a8a1;
    0x9f1165e72549; 0xafbe7fa0f04d; 0x9e4cad23dd60; 0xb1885c7aa982; 0x9d89d89d89d9; 0xb35004723c46;
    0x9cc8e160c3fc; 0xb5157cf2d078; 0x9c09c09c09c1; 0xb6d8cb53b0ca; 0x9b4c6f9ef03b; 0xb899f4d8ab63;
    0x9a90e7d95bc7; 0xba58feb2703a; 0x99d722dabde6; 0xbc15edfeed32; 0x991f1a515886; 0xbdd0c7c9a817;
    0x9868c809868d; 0xbf89910c1678; 0x97b425ed097c; 0xc1404eadf383; 0x97012e025c05; 0xc2f5058593d9;
    0x964fda6c0965; 0xc4a7ba58377c; 0x95a02568095b; 0xc65871da59dd; 0x94f2094f2095; 0xc80730b00016;
    0x944580944581; 0xc9b3fb6d0559; 0x939a85c4093a; 0xcb5ed69565af; 0x92f113840498; 0xcd07c69d8702;
    0x924924924925; 0xceaecfea8085; 0x91a2b3c4d5e7; 0xd053f6d26089; 0x90fdbc090fdc; 0xd1f73f9c70c0;
    0x905a38633e07; 0xd398ae817906; 0x8fb823ee08fc; 0xd53847ac00a6; 0x8f1779d9fdc4; 0xd6d60f388e41;
    0x8e78356d1409; 0xd8720935e643; 0x8dda5202376a; 0xda0c39a54804; 0x8d3dcb08d3dd; 0xdba4a47aa996;
    0x8ca29c046515; 0xdd3b4d9cf24b; 0x8c08c08c08c1; 0xded038e633f3; 0x8b70344a139c; 0xe0636a23e2ee;
    0x8ad8f2fba939; 0xe1f4e5170d02; 0x8a42f870566a; 0xe384ad748f0e; 0x89ae4089ae41; 0xe512c6e54998;
    0x891ac73ae982; 0xe69f35065448; 0x888888888889; 0xe829fb693044; 0x87f78087f781; 0xe9b31d93f98e;
    0x8767ab5f34e5; 0xeb3a9f019750; 0x86d905447a35; 0xecc08321eb30; 0x864b8a7de6d2; 0xee44cd59ffab;
    0x85bf37612cef; 0xefc781043579; 0x853408534086; 0xf148a170700a; 0x84a9f9c8084b; 0xf2c831e44116;
    0x842108421085; 0xf446359b1353; 0x839930523fbf; 0xf5c2afc65447; 0x83126e978d50; 0xf73da38d9d4a;
    0x828cbfbeb9a1; 0xf8b7140edbb1; 0x820820820821; 0xfa2f045e7832; 0x81848da8faf1; 0xfba577877d7d;
    0x810204081021; 0xfd1a708bbe11; 0x808080808081; 0xfe8df263f957; 0x800000000000; 0xffff00000000 ].

(** The correction for the low bits. *)
Definition __LL_tbl : list Z :=
  [ 0x0; 0x2e2a60a00; 0x70cb64ec5; 0x9ef50ce67; 0xcd1e588fd; 0xfb4747e9c;
    0x1296fdaf5e; 0x1579811b58; 0x185bfec2a1; 0x1b3e76a552; 0x1e20e8c380; 0x2103551d43;
    0x23e5bbb2b2; 0x26c81c83e4; 0x29aa7790f0; 0x2c8cccd9ed; 0x2f6f1c5ef2; 0x3251662017;
    0x3533aa1d71; 0x3815e8571a; 0x3af820cd26; 0x3dda537fae; 0x40bc806ec8; 0x439ea79a8c;
    0x4680c90310; 0x4962e4a86c; 0x4c44fa8ab6; 0x4f270aaa06; 0x5209150672; 0x54eb19a013;
    0x57cd1876fd; 0x5aaf118b4a; 0x5d9104dd0f; 0x6072f26c64; 0x6354da3960; 0x6636bc441a;
    0x6918988ca8; 0x6bfa6f1322; 0x6edc3fd79f; 0x71be0ada35; 0x749fd01afd; 0x77818f9a0c;
    0x7a6349577a; 0x7d44fd535e; 0x8026ab8dce; 0x83085406e3; 0x85e9f6beb2; 0x88cb93b552;
    0x8bad2aeadc; 0x8e8ebc5f65; 0x9170481305; 0x9451ce05d3; 0x97334e37e5; 0x9a14c8a953;
    0x9cf63d5a33; 0x9fd7ac4a9d; 0xa2b07f3458; 0xa59a78ea6a; 0xa87bd699fb; 0xab5d2e8970;
    0xae3e80b8e3; 0xb11fcd2869; 0xb40113d818; 0xb6e254c80a; 0xb9c38ff853; 0xbca4c5690c;
    0xbf85f51a4a; 0xc2671f0c26; 0xc548433eb6; 0xc82961b211; 0xcb0a7a664d; 0xcdeb8d5b82;
    0xd0cc9a91c8; 0xd3ada20933; 0xd68ea3c1dd; 0xd96f9fbbdb; 0xdc5095f744; 0xdf31867430;
    0xe2127132b5; 0xe4f35632ea; 0xe7d43574e6; 0xeab50ef8c1; 0xed95e2be90; 0xf076b0c66c;
    0xf35779106a; 0xf6383b9ca2; 0xf918f86b2a; 0xfbf9af7c1a; 0xfeda60cf88; 0x101bb0c658c;
    0x1049bb23e3c; 0x1077c5259af; 0x10a5cecb7fc; 0x10d3d81593a; 0x1101e103d7f; 0x112fe9964e4;
    0x115df1ccf7e; 0x118bf9a7d64; 0x11ba0126ead; 0x11e8084a371; 0x12160f11bc6; 0x1244157d7c3;
    0x12721b8d77f; 0x12a02141b10; 0x12ce269a28e; 0x12fc2b96e0f; 0x132a3037daa; 0x1358347d177;
    0x1386386698c; 0x13b43bf45ff; 0x13e23f266e9; 0x141041fcc5e; 0x143e4477678; 0x146c469654b;
    0x149a48598f0; 0x14c849c117c; 0x14f64accf08; 0x15244b7d1a9; 0x15524bd1976; 0x15804bca687;
    0x15ae4b678f2; 0x15dc4aa90ce; 0x160a498ee31; 0x16384819134; 0x166646479ec; 0x1694441a870;
    0x16c24191cd7; 0x16df6ca19bd; 0x171e3b6d7aa; 0x174c37d1e44; 0x177a33dab1c; 0x17a82f87e49;
    0x17d62ad97e2; 0x180425cf7fe; 0x182b07f3458; 0x18601aa8c19; 0x188e148c046; 0x18bc0e13b52;
    0x18ea073fd52; 0x1918001065d; 0x1945f88568b; 0x1973f09edf2; 0x19a1e85ccaa; 0x19cfdfbf2c8;
    0x19fdd6c6063; 0x1a2bcd71593; 0x1a59c3c126e; 0x1a87b9b570b; 0x1ab5af4e380; 0x1ae3a48b7e5;
    0x1b11996d450; 0x1b3f8df38d9; 0x1b6d821e595; 0x1b9b75eda9b; 0x1bc96961803; 0x1bf75c79de3;
    0x1c254f36c51; 0x1c534198365; 0x1c81339e336; 0x1caf2548bd9; 0x1cdd1697d67; 0x1d0b078b7f5;
    0x1d38f823b9a; 0x1d66e86086d; 0x1d94d841e86; 0x1dc2c7c7df9; 0x1df0b6f26df; 0x1e1ea5c194e;
    0x1e4c943555d; 0x1e7a824db23; 0x1ea8700aab5; 0x1ed65d6c42b; 0x1f044a7279d; 0x1f32371d51f;
    0x1f60236ccca; 0x1f8e0f60eb3; 0x1fbbfaf9af3; 0x1fe9e63719e; 0x2017d1192cc; 0x2045bb9fe94;
    0x2073a5cb50d; 0x209c06e6212; 0x20cf791026a; 0x20fd622997c; 0x212b07f3458; 0x2159334a8d8;
    0x21871b52150; 0x21b502fe517; 0x21d6a73a78f; 0x2210d144eee; 0x223eb7df52c; 0x226c9e1e713;
    0x229a84024bb; 0x22c23679b4e; 0x22f64eb83a8; 0x2324338a51b; 0x235218012a9; 0x237ffc1cc69;
    0x23a2c3b0ea4; 0x23d13ee805b; 0x24035e9221f; 0x243788faf25; 0x24656b4e735; 0x247ed646bfe;
    0x24c12ee3d98; 0x24ef1025c1a; 0x251cf10c799; 0x25492644d65; 0x2578b1c85ee; 0x25a6919d8f0;
    0x25d13ee805b; 0x26025036716; 0x26296453882; 0x265e0d62b53; 0x268beb701f3; 0x26b9c92265e;
    0x26d32f798a9; 0x271583758eb; 0x2743601673b; 0x27713c5c3b0; 0x279f1846e5f; 0x27ccf3d6761;
    0x27e6580aecb; 0x2828a9e44b3; 0x28568462932; 0x287bdbf5255; 0x28b2384de4a; 0x28d13ee805b;
    0x29035e9221f; 0x29296453882; 0x29699bdfb61; 0x29902a37aab; 0x29c54b864c9; 0x29deabd1083;
    0x2a20f9c0bb5; 0x2a4c7605d61; 0x2a7bdbf5255; 0x2a96056dafc; 0x2ac3daf14ef; 0x2af1b019eca;
    0x2b296453882; 0x2b5d022d80f; 0x2b8fa471cb3; 0x2ba9012e713; 0x2bd6d4901cc; 0x2c04a796cf6;
    0x2c327a428a6; 0x2c61a5e8f4c; 0x2c8e1e891f6; 0x2cbbf023fc2; 0x2ce9c163e6e; 0x2d179248e13;
    0x2d4562d2ec6; 0x2d73330209d; 0x2da102d63b0; 0x2dced24f814 ].

(** [__builtin_clz] of a number that is not 0. *)
Definition clz32 (x : Z) : Z := 31 - Z.log2 x.

(** From the normalised number to the result. *)
Definition ln_lookup (x iexpon : Z) : option Z :=
  let index1 := Z.shiftl (Z.shiftr x 8) 1 in
  RH ← rd __RH_LH_tbl (index1 - 256);
  LH ← rd __RH_LH_tbl (index1 + 1 - 256);
  let xl64 := Z.shiftr (u64 (x * RH)) 48 in
  let result := Z.shiftl iexpon (12 + 32) in
  let index2 := Z.land xl64 0xff in
  LL ← rd __LL_tbl index2;
  let LH := u64 (LH + LL) in
  let LH := Z.shiftr LH (48 - 12 - 32) in
  Some (u64 (result + LH)).

Definition crush_ln (xin : Z) : option Z :=
  let x := u32 (xin + 1) in
  if Z.land x 0x18000 =? 0 then
    let bits := clz32 (Z.land x 0x1FFFF) - 16 in ln_lookup (u32 (Z.shiftl x bits)) (15 - bits)
  else ln_lookup x 15.

(** ** Properties of the logarithm *)

Definition RHq (q : Z) : Z := default 0 (rd __RH_LH_tbl (2 * q - 256)).
Definition LHq (q : Z) : Z := default 0 (rd __RH_LH_tbl (2 * q + 1 - 256)).
Definition LLi (i : Z) : Z := default 0 (rd __LL_tbl i).

(** The low bits of the normalised number [256 * q + s]. *)
Definition low (q s : Z) : Z := ((256 * q + s) * RHq q) / 2 ^ 48 - 2 ^ 15.
Definition mant (q s : Z) : Z := LHq q + LLi (low q s).

Definition rows_check (q : Z) : bool :=
  let q := q + 128 in
  (0 <? RHq q) && (RHq q <=? 2 ^ 48) && (0 <=? LHq q) && (0 <=? low q 0) && (low q 255 <? 256) &&
  (mant q 255 <? if q =? 255 then 2 ^ 48 else mant (q + 1) 0).

Lemma rows_ok q : 128 <= q < 256 -> rows_check (q - 128) = true.
Proof.
  intros H. apply (all_below_spec 128 rows_check); [vm_compute; reflexivity|]. lia.
Qed.

Lemma LL_steps i : 0 <= i < 255 -> 0 <= LLi i <= LLi (i + 1).
Proof.
  intros H. apply (all_below_dec 255 (fun i => 0 <= LLi i <= LLi (i + 1))); [vm_compute; reflexivity|]. lia.
Qed.

Lemma LL_mono i j : 0 <= i <= j -> j < 256 -> 0 <= LLi i <= LLi j.
Proof.
  intros Hij Hj. assert (H0 : 0 <= LLi i).
  { destruct (decide (i < 255)) as [Hi|Hi]; [destruct (LL_steps i); lia|].
    replace i with 255 by lia. vm_compute. discriminate. }
  split; [done|]. replace j with (i + Z.of_nat (Z.to_nat (j - i))) in Hj |- * by lia.
  destruct Hij as [Hi _]. revert Hj. generalize (Z.to_nat (j - i)). intros n Hn. induction n as [|n IH].
  - rewrite Z.add_0_r. lia.
  - specialize (IH ltac:(lia)). pose proof (LL_steps (i + Z.of_nat n) ltac:(lia)) as Hs.
    replace (i + Z.of_nat n + 1) with (i + Z.of_nat (S n)) in Hs by lia. lia.
Qed.

Lemma low_mono q s t : 128 <= q < 256 -> 0 <= s <= t -> t < 256 -> low q s <= low q t.
Proof.
  intros Hq Hs Ht. pose proof (rows_ok q Hq) as H. unfold rows_check in H. replace (q - 128 + 128) with q in H by lia.
  rewrite !andb_true_iff, !Z.ltb_lt in H. unfold low.
  apply Z.sub_le_mono_r, Z.div_le_mono; [lia|]. apply Z.mul_le_mono_nonneg_r; lia.
Qed.

Lemma low_bounds q s : 128 <= q < 256 -> 0 <= s < 256 -> 0 <= low q s < 256.
Proof.
  intros Hq Hs. pose proof (rows_ok q Hq) as H. unfold rows_check in H. replace (q - 128 + 128) with q in H by lia.
  rewrite !andb_true_iff, !Z.ltb_lt, !Z.leb_le in H.
  pose proof (low_mono q 0 s Hq ltac:(lia) ltac:(lia)). pose proof (low_mono q s 255 Hq ltac:(lia) ltac:(lia)). lia.
Qed.

Lemma mant_in_row q s t : 128 <= q < 256 -> 0 <= s <= t -> t < 256 -> 0 <= mant q s <= mant q t.
Proof.
  intros Hq Hs Ht. pose proof (low_bounds q s Hq ltac:(lia)). pose proof (low_bounds q t Hq ltac:(lia)).
  pose proof (low_mono q s t Hq Hs Ht). pose proof (LL_mono (low q s) (low q t) ltac:(lia) ltac:(lia)).
  pose proof (rows_ok q Hq) as Hr. unfold rows_check in Hr. replace (q - 128 + 128) with q in Hr by lia.
  rewrite !andb_true_iff, !Z.leb_le in Hr. unfold mant. lia.
Qed.

Lemma mant_next q : 128 <= q < 256 -> mant q 255 < if q =? 255 then 2 ^ 48 else mant (q + 1) 0.
Proof.
  intros Hq. pose proof (rows_ok q Hq) as H. unfold rows_check in H. replace (q - 128 + 128) with q in H by lia.
  rewrite !andb_true_iff, !Z.ltb_lt in H. apply H.
Qed.

Lemma mant_rows q n : 128 <= q -> q + Z.of_nat n < 256 -> mant q 0 <= mant (q + Z.of_nat n) 0.
Proof.
  induction n as [|n IH]; intros Hq Hn; [rewrite Z.add_0_r; lia|].
  specialize (IH Hq ltac:(lia)). pose proof (mant_next (q + Z.of_nat n) ltac:(lia)) as H.
  rewrite (proj2 (Z.eqb_neq _ _)) in H by lia. replace (q + Z.of_nat n + 1) with (q + Z.of_nat (S n)) in H by lia.
  pose proof (mant_in_row (q + Z.of_nat n) 0 255 ltac:(lia) ltac:(lia) ltac:(lia)). lia.
Qed.

Definition mantx (x : Z) : Z := mant (x / 256) (x mod 256).

Lemma mantx_mono x y : 2 ^ 15 <= x <= y -> y < 2 ^ 16 -> 0 <= mantx x <= mantx y /\ mantx y < 2 ^ 48.
Proof.
  intros Hx Hy. unfold mantx.
  assert (Hm : forall z, 2 ^ 15 <= z < 2 ^ 16 -> 128 <= z / 256 < 256 /\ 0 <= z mod 256 < 256).
  { intros z Hz. split; [|by apply Z.mod_pos_bound]. split; [apply Z.div_le_lower_bound|apply Z.div_lt_upper_bound]; lia. }
  destruct (Hm x ltac:(lia)) as [Hqx Hsx], (Hm y ltac:(lia)) as [Hqy Hsy].
  pose proof (Z.div_mod x 256 ltac:(lia)). pose proof (Z.div_mod y 256 ltac:(lia)).
  revert Hqx Hsx Hqy Hsy H H0. generalize (x / 256) (x mod 256) (y / 256) (y mod 256). intros q s q' s' Hq Hs Hq' Hs' Ex Ey.
  assert (Hlast : mant q' s' < 2 ^ 48).
  { pose proof (mant_in_row q' s' 255 Hq' ltac:(lia) ltac:(lia)). pose proof (mant_next 255 ltac:(lia)) as Hl. cbn in Hl.
    pose proof (mant_in_row 255 0 255 ltac:(lia) ltac:(lia) ltac:(lia)).
    destruct (decide (q' = 255)) as [->|Hne]; [lia|]. pose proof (mant_next q' Hq') as Hn.
    rewrite (proj2 (Z.eqb_neq _ _)) in Hn by lia.
    pose proof (mant_rows (q' + 1) (Z.to_nat (255 - (q' + 1))) ltac:(lia) ltac:(lia)) as Hr.
    replace (q' + 1 + Z.of_nat (Z.to_nat (255 - (q' + 1)))) with 255 in Hr by lia. lia. }
  split; [|done]. destruct (decide (q = q')) as [<-|Hne]; [apply mant_in_row; lia|].
  pose proof (mant_in_row q s 255 Hq ltac:(lia) ltac:(lia)). pose proof (mant_next q Hq) as Hn.
  rewrite (proj2 (Z.eqb_neq _ _)) in Hn by lia.
  pose proof (mant_rows (q + 1) (Z.to_nat (q' - (q + 1))) ltac:(lia) ltac:(lia)) as Hr.
  replace (q + 1 + Z.of_nat (Z.to_nat (q' - (q + 1)))) with q' in Hr by lia.
  pose proof (mant_in_row q' 0 s' Hq' ltac:(lia) ltac:(lia)). lia.
Qed.

Lemma high_bits x : 0 <= x < 2 ^ 16 -> (Z.land x 0x18000 =? 0) = (x <? 2 ^ 15).
Proof.
  intros Hx. assert (Hs : Z.shiftr (Z.land x 0x18000) 15 = Z.land (x / 2 ^ 15) 3).
  { rewrite Z.shiftr_land, Z.shiftr_div_pow2 by lia. reflexivity. }
  destruct (x <? 2 ^ 15) eqn:Hlt.
  - apply Z.ltb_lt in Hlt. apply Z.eqb_eq. change 0x18000 with (Z.shiftl 3 15).
    apply Z.bits_inj'. intros n Hn. rewrite Z.land_spec, Z.bits_0. destruct (decide (n < 15)).
    + by rewrite (Z.shiftl_spec_low 3 15 n), andb_false_r by lia.
    + rewrite (Z.bits_above_log2 x n); [done|lia|]. apply Z.le_lt_trans with (Z.log2 (2 ^ 15 - 1)); [apply Z.log2_le_mono; lia|].
      change (Z.log2 (2 ^ 15 - 1)) with 14. lia.
  - apply Z.ltb_ge in Hlt. apply Z.eqb_neq. intros H0. rewrite H0 in Hs. cbn in Hs.
    assert (x / 2 ^ 15 = 1) as Hd; [|rewrite Hd in Hs; discriminate].
    symmetry. apply Z.div_unique with (x - 2 ^ 15); lia.
Qed.

Lemma rd_RH q : 128 <= q < 256 -> rd __RH_LH_tbl (2 * q - 256) = Some (RHq q).
Proof.
  intros H. unfold RHq. destruct (rd_Some __RH_LH_tbl (2 * q - 256)) as (v & -> & _); [cbn; lia|done].
Qed.

Lemma rd_LH q : 128 <= q < 256 -> rd __RH_LH_tbl (2 * q + 1 - 256) = Some (LHq q).
Proof.
  intros H. unfold LHq. destruct (rd_Some __RH_LH_tbl (2 * q + 1 - 256)) as (v & -> & _); [cbn; lia|done].
Qed.

Lemma rd_LL i : 0 <= i < 256 -> rd __LL_tbl i = Some (LLi i).
Proof. intros H. unfold LLi. destruct (rd_Some __LL_tbl i) as (v & -> & _); [cbn; lia|done]. Qed.

Lemma ln_lookup_row x e : 2 ^ 15 <= x < 2 ^ 16 -> 0 <= e <= 15 ->
  ln_lookup x e = Some (e * 2 ^ 44 + mantx x / 16).
Proof.
  intros Hx He. unfold ln_lookup. rewrite (Z.shiftr_div_pow2 x), (Z.shiftl_mul_pow2 _ 1) by lia.
  change (2 ^ 8) with 256. change (2 ^ 1) with 2.
  assert (Hq : 128 <= x / 256 < 256) by (split; [apply Z.div_le_lower_bound|apply Z.div_lt_upper_bound]; lia).
  rewrite (Z.mul_comm _ 2), rd_RH, rd_LH by done. cbn [mbind option_bind].
  pose proof (Z.mod_pos_bound x 256 ltac:(lia)) as Hs. pose proof (Z.div_mod x 256 ltac:(lia)) as Hdm.
  pose proof (low_bounds _ _ Hq Hs) as Hl. unfold low in Hl. rewrite <- Hdm in Hl.
  set (P := x * RHq (x / 256)) in *.
  assert (HP2 : u64 P = P).
  { unfold u64. apply Z.mod_small. pose proof (Z.div_mod P (2 ^ 48) ltac:(lia)). pose proof (Z.mod_pos_bound P (2 ^ 48) ltac:(lia)). lia. }
  rewrite HP2, (Z.shiftr_div_pow2 P) by lia. change 0xff with (Z.ones 8). rewrite Z.land_ones by lia.
  replace ((P / 2 ^ 48) mod 2 ^ 8) with (P / 2 ^ 48 - 2 ^ 15) by (apply Z.mod_unique with 128; lia).
  rewrite rd_LL by lia. cbn [mbind option_bind].
  assert (Hm : LHq (x / 256) + LLi (P / 2 ^ 48 - 2 ^ 15) = mantx x) by (unfold mantx, mant, low; rewrite <- Hdm; done).
  rewrite Hm. pose proof (mantx_mono x x ltac:(lia) ltac:(lia)) as Hmx.
  unfold u64. rewrite (Z.mod_small (mantx x)) by lia. rewrite Z.shiftr_div_pow2, Z.shiftl_mul_pow2 by lia.
  change (2 ^ (48 - 12 - 32)) with 16. change (12 + 32) with 44. f_equal. apply Z.mod_small.
  pose proof (Z.div_pos (mantx x) 16 ltac:(lia) ltac:(lia)). pose proof (Z.div_lt_upper_bound (mantx x) 16 (2 ^ 44) ltac:(lia) ltac:(lia)). nia.
Qed.

(** The value on numbers of [e + 1] bits. *)
Lemma crush_ln_norm u e : 0 <= e <= 15 -> 2 ^ e <= u + 1 < 2 ^ (e + 1) ->
  2 ^ 15 <= (u + 1) * 2 ^ (15 - e) < 2 ^ 16 /\ crush_ln u = Some (e * 2 ^ 44 + mantx ((u + 1) * 2 ^ (15 - e)) / 16).
Proof.
  intros He Hu. assert (2 ^ (e + 1) <= 2 ^ 16) by (apply Z.pow_le_mono_r; lia).
  assert (Hp : 2 ^ e * 2 ^ (15 - e) = 2 ^ 15) by (rewrite <- Z.pow_add_r by lia; f_equal; lia).
  assert (Hp' : 2 ^ (e + 1) * 2 ^ (15 - e) = 2 ^ 16) by (rewrite <- Z.pow_add_r by lia; f_equal; lia).
  assert (0 < 2 ^ e) by (apply Z.pow_pos_nonneg; lia). assert (0 < 2 ^ (15 - e)) by (apply Z.pow_pos_nonneg; lia).
  assert (Hx : 2 ^ 15 <= (u + 1) * 2 ^ (15 - e) < 2 ^ 16) by nia. split; [done|].
  unfold crush_ln. rewrite (u32_small (u + 1)) by lia. rewrite high_bits by lia.
  destruct (u + 1 <? 2 ^ 15) eqn:Hlt; [|apply Z.ltb_ge in Hlt].
  - change 0x1FFFF with (Z.ones 17). rewrite Z.land_ones, Z.mod_small by lia. unfold clz32.
    rewrite (Z.log2_unique (u + 1) e) by (rewrite ?Z.add_1_r in *; lia).
    rewrite Z.shiftl_mul_pow2 by lia. replace (31 - e - 16) with (15 - e) by lia.
    rewrite u32_small by lia. replace (15 - (15 - e)) with e by lia. by apply ln_lookup_row.
  - assert (e = 15) as ->.
    { destruct (decide (e = 15)); [done|]. assert (2 ^ (e + 1) <= 2 ^ 15) by (apply Z.pow_le_mono_r; lia). lia. }
    rewrite Z.mul_1_r in *. by apply ln_lookup_row.
Qed.

Lemma crush_ln_total u : 0 <= u < 2 ^ 16 -> exists v, crush_ln u = Some v /\ 0 <= v < 2 ^ 48.
Proof.
  intros Hu. destruct (decide (u = 2 ^ 16 - 1)) as [->|Hne].
  { eexists. split; [vm_compute; reflexivity|]. lia. }
  pose proof (Z.log2_spec (u + 1) ltac:(lia)) as Hl. pose proof (Z.log2_nonneg (u + 1)).
  assert (Z.log2 (u + 1) < 16) by (apply Z.log2_lt_pow2; lia).
  destruct (crush_ln_norm u (Z.log2 (u + 1)) ltac:(lia) ltac:(rewrite Z.add_1_r; exact Hl)) as [Hx ->].
  eexists. split; [done|]. pose proof (mantx_mono _ _ (conj (proj1 Hx) (Z.le_refl _)) (proj2 Hx)) as Hm.
  pose proof (Z.div_pos (mantx ((u + 1) * 2 ^ (15 - Z.log2 (u + 1)))) 16 ltac:(lia) ltac:(lia)).
  pose proof (Z.div_lt_upper_bound (mantx ((u + 1) * 2 ^ (15 - Z.log2 (u + 1)))) 16 (2 ^ 44) ltac:(lia) ltac:(lia)). nia.
Qed.

Lemma crush_ln_le u v a b : 0 <= u <= v -> v < 2 ^ 16 - 1 -> crush_ln u = Some a -> crush_ln v = Some b -> a <= b.
Proof.
  intros Huv Hv Ha Hb. set (e := Z.log2 (u + 1)). set (f := Z.log2 (v + 1)).
  assert (He : 0 <= e) by apply Z.log2_nonneg. assert (Hef : e <= f) by (apply Z.log2_le_mono; lia).
  assert (Hf : f < 16) by (apply Z.log2_lt_pow2; lia).
  destruct (crush_ln_norm u e ltac:(lia) ltac:(rewrite Z.add_1_r; apply Z.log2_spec; lia)) as [Hx Hx'].
  destruct (crush_ln_norm v f ltac:(lia) ltac:(rewrite Z.add_1_r; apply Z.log2_spec; lia)) as [Hy Hy'].
  rewrite Hx' in Ha. rewrite Hy' in Hb. injection Ha as <-. injection Hb as <-.
  destruct (decide (e = f)) as [Heq|Hne].
  - rewrite <- Heq in *. apply Z.add_le_mono_l, Z.div_le_mono; [lia|]. apply (mantx_mono _ _); [|lia].
    split; [lia|]. apply Z.mul_le_mono_nonneg_r; [apply Z.pow_nonneg|]; lia.
  - pose proof (mantx_mono _ _ (conj (proj1 Hx) (Z.le_refl _)) (proj2 Hx)) as Hm.
    pose proof (mantx_mono _ _ (conj (proj1 Hy) (Z.le_refl _)) (proj2 Hy)) as Hm'.
    pose proof (Z.div_lt_upper_bound _ 16 (2 ^ 44) ltac:(lia) (proj2 Hm)).
    pose proof (Z.div_pos _ 16 (proj1 (proj1 Hm')) ltac:(lia)). nia.
Qed.
