(* ===== verification/CrBucket.v ===== *)
(** * Buckets of a CRUSH map (ceph/src/crush: crush.h, mapper.c)

    A bucket has items and one of five ways of choosing an item for an input
    [x] and a replica number [r].  Reading or writing outside an array, a null
    pointer and a failed [BUG_ON] are the outcome [Fault]. *)
From S2P Require Import Prelude CrHash.

(** ** Data *)

(** The part of a bucket that depends on its algorithm; [OtherAlg] is any
    other value of [alg]. *)
Inductive bucket_body : Set :=
  | Uniform (item_weight : Z)
  | BList (item_weights sum_weights : list Z)
  | Tree (num_nodes : Z) (node_weights : list Z)
  | Straw (item_weights straws : list Z)
  | Straw2 (item_weights : list Z)
  | OtherAlg (alg : Z).

Record crush_bucket : Set := mkbucket {
  b_id : Z; b_type : Z; b_hash : Z; b_weight : Z; b_size : Z; b_items : list Z; b_body : bucket_body }.

(** The items of a bucket; the array may be longer. *)
Definition items_of (b : crush_bucket) : list Z := take (Z.to_nat (b_size b)) (b_items b).

Definition CRUSH_BUCKET_UNIFORM : Z := 1.
Definition CRUSH_BUCKET_LIST : Z := 2.
Definition CRUSH_BUCKET_TREE : Z := 3.
Definition CRUSH_BUCKET_STRAW : Z := 4.
Definition CRUSH_BUCKET_STRAW2 : Z := 5.

Definition b_alg (b : crush_bucket) : Z :=
  match b_body b with
  | Uniform _ => CRUSH_BUCKET_UNIFORM
  | BList _ _ => CRUSH_BUCKET_LIST
  | Tree _ _ => CRUSH_BUCKET_TREE
  | Straw _ _ => CRUSH_BUCKET_STRAW
  | Straw2 _ => CRUSH_BUCKET_STRAW2
  | OtherAlg a => a
  end.

(** Replacements for the weights and the ids of a straw2 bucket; the number of
    positions is the length of [weight_set]. *)
Record crush_choose_arg : Set := mkarg { ids : option (list Z); weight_set : option (list (list Z)) }.

Record crush_work_bucket : Set := mkwork { perm_x : Z; perm_n : Z; perm : list Z }.

(** ** Choosing by a permutation *)

(** [for (i = from; i < size; i++) perm[i] = i;] *)
Definition perm_fill (from size : Z) (p : list Z) : option (list Z) :=
  for_up (Z.to_nat (size - from)) from (fun i p => wr p i i) p.

(** One round of the loop that extends the permutation. *)
Definition perm_step (b : crush_bucket) (x : Z) (p : Z) (a : list Z) : option (list Z) :=
  if p <? u32 (b_size b - 1) then
    let i := crush_hash32_3 (b_hash b) x (b_id b) p mod (b_size b - p) in
    if i =? 0 then Some a else
    t ← rd a (p + i);
    c ← rd a p;
    a ← wr a (p + i) c;
    wr a p t
  else Some a.

(** [while (work->perm_n <= pr)]. *)
Definition perm_extend (b : crush_bucket) (x pr : Z) (w : crush_work_bucket) : option crush_work_bucket :=
  a ← for_up (Z.to_nat (pr + 1 - perm_n w)) (perm_n w) (perm_step b x) (perm w);
  Some (mkwork (perm_x w) (Z.max (perm_n w) (pr + 1)) a).

Definition PERM_MAGIC : Z := 0xffff.

Definition bucket_perm_choose (b : crush_bucket) (w : crush_work_bucket) (x r : Z) : outcome (Z * crush_work_bucket) :=
  if b_size b =? 0 then Fault else
  let pr := u32 r mod b_size b in
  let fresh := negb (perm_x w =? u32 x) || (perm_n w =? 0) in
  if fresh && (pr =? 0) then
    let s := crush_hash32_3 (b_hash b) x (b_id b) 0 mod b_size b in
    a ← need (wr (perm w) 0 s);
    item ← need (rd (b_items b) s);
    Done (item, mkwork (u32 x) PERM_MAGIC a)
  else
    w ← (if fresh then a ← need (perm_fill 0 (b_size b) (perm w)); Done (mkwork (u32 x) 0 a)
         else if perm_n w =? PERM_MAGIC then
           a ← need (perm_fill 1 (b_size b) (perm w));
           p0 ← need (rd a 0);
           a ← need (wr a p0 0);
           Done (mkwork (perm_x w) 1 a)
         else Done w);
    w ← need (perm_extend b x pr w);
    s ← need (rd (perm w) pr);
    item ← need (rd (b_items b) s);
    Done (item, w).

(** ** The algorithms *)

Definition bucket_uniform_choose := bucket_perm_choose.

(** From item [n - 1] down. *)
Fixpoint list_choose_loop (b : crush_bucket) (item_weights sum_weights : list Z) (x r : Z) (n : nat) : outcome Z :=
  match n with
  | O => need (rd (b_items b) 0)
  | S n =>
      let i := Z.of_nat n in
      item ← need (rd (b_items b) i);
      let w := Z.land (crush_hash32_4 (b_hash b) x item r (b_id b)) 0xffff in
      sw ← need (rd sum_weights i);
      iw ← need (rd item_weights i);
      let w := Z.shiftr (u64 (w * sw)) 16 in
      if w <? iw then need (rd (b_items b) i)
      else list_choose_loop b item_weights sum_weights x r n
  end.

Definition bucket_list_choose (b : crush_bucket) (item_weights sum_weights : list Z) (x r : Z) : outcome Z :=
  list_choose_loop b item_weights sum_weights x r (Z.to_nat (s32 (b_size b))).

(** [height] of a node number; it does not end on 0. *)
Fixpoint height (fuel : nat) (n : Z) : outcome Z :=
  match fuel with
  | O => NoFuel
  | S fuel => if Z.land n 1 =? 0 then h ← height fuel (Z.shiftr n 1); Done (h + 1) else Done 0
  end.

(** Node numbers are below 2^8. *)
Definition height_fuel : nat := 9.

Definition tree_left (n : Z) : outcome Z := h ← height height_fuel n; Done (n - Z.shiftl 1 (h - 1)).
Definition tree_right (n : Z) : outcome Z := h ← height height_fuel n; Done (n + Z.shiftl 1 (h - 1)).
Definition terminal (n : Z) : bool := negb (Z.land n 1 =? 0).

Fixpoint tree_choose_loop (fuel : nat) (b : crush_bucket) (node_weights : list Z) (x r : Z) (n : Z) : outcome Z :=
  match fuel with
  | O => NoFuel
  | S fuel =>
      if terminal n then Done n else
      w ← need (rd node_weights n);
      let t := Z.shiftr (u64 (crush_hash32_4 (b_hash b) x n r (b_id b) * w)) 32 in
      l ← tree_left n;
      wl ← need (rd node_weights l);
      n ← (if t <? wl then Done l else tree_right n);
      tree_choose_loop fuel b node_weights x r n
  end.

Definition bucket_tree_choose (b : crush_bucket) (num_nodes : Z) (node_weights : list Z) (x r : Z) : outcome Z :=
  n ← tree_choose_loop height_fuel b node_weights x r (Z.shiftr num_nodes 1);
  need (rd (b_items b) (Z.shiftr n 1)).

(** The loop of the straw buckets: the position with the largest draw, the
    first one of several; [best] is the position and draw so far. *)
Fixpoint best_loop (draw : Z -> outcome Z) (n : nat) (i : Z) (best : Z * Z) : outcome Z :=
  match n with
  | O => Done best.1
  | S n =>
      d ← draw i;
      best_loop draw n (i + 1) (if (i =? 0) || (best.2 <? d) then (i, d) else best)
  end.

Definition straw_draw (b : crush_bucket) (straws : list Z) (x r i : Z) : outcome Z :=
  item ← need (rd (b_items b) i);
  straw ← need (rd straws i);
  Done (u64 (Z.land (crush_hash32_3 (b_hash b) x item r) 0xffff * straw)).

Definition bucket_straw_choose (b : crush_bucket) (straws : list Z) (x r : Z) : outcome Z :=
  high ← best_loop (straw_draw b straws x r) (Z.to_nat (b_size b)) 0 (0, 0);
  need (rd (b_items b) high).

Definition get_choose_arg_weights (item_weights : list Z) (arg : option crush_choose_arg) (position : Z)
    : outcome (list Z) :=
  match arg ≫= weight_set with
  | None => Done item_weights
  | Some ws =>
      let n := Z.of_nat (length ws) in
      need (rd ws (if n <=? position then n - 1 else position))
  end.

Definition get_choose_arg_ids (b : crush_bucket) (arg : option crush_choose_arg) : list Z :=
  default (b_items b) (arg ≫= ids).

Definition S64_MIN : Z := - 2 ^ 63.

Definition generate_exponential_distribution (type x y z weight : Z) : outcome Z :=
  let u := Z.land (crush_hash32_3 type x y z) 0xffff in
  ln ← need (crush_ln u);
  let ln := ln - 0x1000000000000 in
  if weight =? 0 then Fault else Done (Z.quot ln weight).

(** The weight is passed as an [int]. *)
Definition straw2_draw (b : crush_bucket) (weights ids : list Z) (x r i : Z) : outcome Z :=
  weight ← need (rd weights i);
  if weight =? 0 then Done S64_MIN else
  id ← need (rd ids i);
  generate_exponential_distribution (b_hash b) x id r (s32 weight).

Definition bucket_straw2_choose (b : crush_bucket) (item_weights : list Z) (x r : Z)
    (arg : option crush_choose_arg) (position : Z) : outcome Z :=
  weights ← get_choose_arg_weights item_weights arg position;
  let ids := get_choose_arg_ids b arg in
  high ← best_loop (straw2_draw b weights ids x r) (Z.to_nat (b_size b)) 0 (0, 0);
  need (rd (b_items b) high).

Definition crush_bucket_choose (b : crush_bucket) (w : crush_work_bucket) (x r : Z)
    (arg : option crush_choose_arg) (position : Z) : outcome (Z * crush_work_bucket) :=
  if b_size b =? 0 then Fault else
  let unchanged item := item ← item; Done (item, w) in
  match b_body b with
  | Uniform _ => bucket_uniform_choose b w x r
  | BList item_weights sum_weights => unchanged (bucket_list_choose b item_weights sum_weights x r)
  | Tree num_nodes node_weights => unchanged (bucket_tree_choose b num_nodes node_weights x r)
  | Straw _ straws => unchanged (bucket_straw_choose b straws x r)
  | Straw2 item_weights => unchanged (bucket_straw2_choose b item_weights x r arg position)
  | OtherAlg _ => unchanged (need (rd (b_items b) 0))
  end.
