(* ===== verification/CrMapper.v ===== *)
(** * Mapping inputs to devices (ceph/src/crush: crush.h, mapper.c)

    [crush_do_rule] runs the steps of a rule.  Its working set is a list of
    items; a choose step replaces every bucket of it by items chosen below the
    bucket, first-n ([crush_choose_firstn]) or by position
    ([crush_choose_indep]). *)
From S2P Require Import Prelude CrHash CrBucket.

(** ** Data *)

Record crush_rule_step : Set := mkstep { s_op : Z; s_arg1 : Z; s_arg2 : Z }.

Definition CRUSH_RULE_NOOP : Z := 0.
Definition CRUSH_RULE_TAKE : Z := 1.
Definition CRUSH_RULE_CHOOSE_FIRSTN : Z := 2.
Definition CRUSH_RULE_CHOOSE_INDEP : Z := 3.
Definition CRUSH_RULE_EMIT : Z := 4.
Definition CRUSH_RULE_CHOOSELEAF_FIRSTN : Z := 6.
Definition CRUSH_RULE_CHOOSELEAF_INDEP : Z := 7.
Definition CRUSH_RULE_SET_CHOOSE_TRIES : Z := 8.
Definition CRUSH_RULE_SET_CHOOSELEAF_TRIES : Z := 9.
Definition CRUSH_RULE_SET_CHOOSE_LOCAL_TRIES : Z := 10.
Definition CRUSH_RULE_SET_CHOOSE_LOCAL_FALLBACK_TRIES : Z := 11.
Definition CRUSH_RULE_SET_CHOOSELEAF_VARY_R : Z := 12.
Definition CRUSH_RULE_SET_CHOOSELEAF_STABLE : Z := 13.

Definition CRUSH_ITEM_UNDEF : Z := 0x7ffffffe.
Definition CRUSH_ITEM_NONE : Z := 0x7fffffff.

(** The sizes [max_buckets] and [max_rules] are the lengths of the arrays. *)
Record crush_map : Set := mkmap {
  buckets : list (option crush_bucket); rules : list (option (list crush_rule_step)); max_devices : Z;
  choose_local_tries : Z; choose_local_fallback_tries : Z; choose_total_tries : Z;
  chooseleaf_descend_once : Z; chooseleaf_vary_r : Z; chooseleaf_stable : Z }.

Definition max_buckets (m : crush_map) : Z := Z.of_nat (length (buckets m)).
Definition max_rules (m : crush_map) : Z := Z.of_nat (length (rules m)).

(** What a mapping changes: the working area of each bucket, and the histogram
    [map->choose_tries] when profiling is on. *)
Record state : Set := mkstate { work : list (option crush_work_bucket); profile : option (list Z) }.

(** [map->buckets[-1-item]], not null. *)
Definition bucket_at (m : crush_map) (item : Z) : outcome crush_bucket :=
  o ← need (rd (buckets m) (-1 - item)); need o.

Definition work_at (s : state) (id : Z) : outcome crush_work_bucket :=
  o ← need (rd (work s) (-1 - id)); need o.

Definition set_work (s : state) (id : Z) (w : crush_work_bucket) : outcome state :=
  ws ← need (wr (work s) (-1 - id) (Some w)); Done (mkstate ws (profile s)).

(** [if (map->choose_tries && ftotal <= map->choose_total_tries) map->choose_tries[ftotal]++]. *)
Definition count_tries (m : crush_map) (ftotal : Z) (s : state) : outcome state :=
  match profile s with
  | Some h =>
      if ftotal <=? choose_total_tries m then
        n ← need (rd h ftotal); h ← need (wr h ftotal (u32 (n + 1))); Done (mkstate (work s) (Some h))
      else Done s
  | None => Done s
  end.

Section Mapper.
Context (m : crush_map).
(** The weights of the devices; [weight_max] is their number. *)
Context (weight : list Z).
(** The input, and the replacements of weights, one entry for each bucket. *)
Context (x : Z) (choose_args : option (list crush_choose_arg)).

Definition is_out (item : Z) : outcome bool :=
  if Z.of_nat (length weight) <=? item then Done true else
  w ← need (rd weight item);
  if 0x10000 <=? w then Done false
  else if w =? 0 then Done true
  else if Z.land (crush_hash32_2 CRUSH_HASH_RJENKINS1 x item) 0xffff <? w then Done false
  else Done true.

(** A choice in bucket [b]; [fallback] asks for the permutation. *)
Definition choose_in (fallback : bool) (b : crush_bucket) (r outpos : Z) (s : state) : outcome (Z * state) :=
  w ← work_at s (b_id b);
  '(item, w) ←
    (if fallback then bucket_perm_choose b w x r
     else
       arg ← match choose_args with
             | None => Done None
             | Some args => a ← need (rd args (-1 - b_id b)); Done (Some a)
             end;
       crush_bucket_choose b w x r arg outpos);
  s ← set_work s (b_id b) w;
  Done (item, s).

Definition item_type (item : Z) : outcome Z :=
  if item <? 0 then b ← bucket_at m item; Done (b_type b) else Done 0.

(** ** First n *)

Section Firstn.
(** The arguments of the call that do not change: [leaf] is the recursive call,
    on the bucket, the position, the room and the parent's [r]. *)
Context (bucket : crush_bucket) (type tries local_retries local_fallback_retries : Z)
        (recurse_to_leaf : bool) (vary_r : Z) (parent_r : Z)
        (leaf : crush_bucket -> list Z -> Z -> Z -> Z -> state -> outcome (Z * list Z * state)).

(** Is there a leaf below the item, not used yet?  The result is [reject]. *)
Definition try_leaf (item r outpos count : Z) (out2 : list Z) (s : state) : outcome (bool * list Z * state) :=
  if item <? 0 then
    if 32 <=? vary_r - 1 then Fault else
    let sub_r := if vary_r =? 0 then 0 else Z.shiftr r (vary_r - 1) in
    b ← bucket_at m item;
    '(n, out2, s) ← leaf b out2 outpos count sub_r s;
    Done (n <=? outpos, out2, s)
  else
    out2 ← need (wr out2 outpos item);
    Done (false, out2, s).

(** After a rejected item or a collision: try again in the same bucket, from
    the top, or stop. *)
Definition after_failure {R} (collide : bool) (in_ : crush_bucket) (ftotal flocal : Z)
    (again : crush_bucket -> Z -> Z -> R) (stop : R) : R :=
  let ftotal := u32 (ftotal + 1) in
  let flocal := u32 (flocal + 1) in
  if collide && (flocal <=? local_retries) then again in_ ftotal flocal
  else if (0 <? local_fallback_retries) && (flocal <=? u32 (b_size in_ + local_fallback_retries))
  then again in_ ftotal flocal
  else if ftotal <? tries then again bucket ftotal 0
  else stop.

(** The two nested [do] loops for replica [rep]: the item that was found with
    the number of failures, or nothing. *)
Fixpoint try_replica (fuel : nat) (rep outpos count : Z) (out : list Z) (in_ : crush_bucket) (ftotal flocal : Z)
    (out2 : list Z) (s : state) : outcome (option (Z * Z) * list Z * state) :=
  match fuel with
  | O => NoFuel
  | S fuel =>
      let r := s32 (rep + parent_r + ftotal) in
      let failed collide out2 s :=
        after_failure collide in_ ftotal flocal
          (fun in_ ftotal flocal => try_replica fuel rep outpos count out in_ ftotal flocal out2 s)
          (Done (None, out2, s)) in
      if b_size in_ =? 0 then failed false out2 s else
      let fallback := (0 <? local_fallback_retries) && (Z.shiftr (b_size in_) 1 <=? flocal) &&
                      (local_fallback_retries <? flocal) in
      '(item, s) ← choose_in fallback in_ r outpos s;
      if max_devices m <=? item then Done (None, out2, s) else
      itemtype ← item_type item;
      if negb (itemtype =? type) then
        if (0 <=? item) || (max_buckets m <=? -1 - item) then Done (None, out2, s) else
        in_ ← bucket_at m item;
        try_replica fuel rep outpos count out in_ ftotal flocal out2 s
      else
        let collide := existsb (Z.eqb item) (take (Z.to_nat outpos) out) in
        '(reject, out2, s) ←
          (if negb collide && recurse_to_leaf then try_leaf item r outpos count out2 s else Done (false, out2, s));
        reject ← (if negb reject && negb collide && (itemtype =? 0) then is_out item else Done reject);
        if reject || collide then failed collide out2 s
        else Done (Some (item, ftotal), out2, s)
  end.

(** Failures are counted by [ftotal], or by [flocal] once the tries are used
    up; between two of them the descent visits every bucket at most once. *)
Definition replica_fuel : nat :=
  let sizes := foldr Z.max 0 ((fun o : option crush_bucket => from_option b_size 0 o) <$> buckets m) in
  let failures := Z.max 0 tries + Z.max 0 local_retries + Z.max 0 local_fallback_retries + sizes + 2 in
  Z.to_nat (failures * (max_buckets m + 2)).

(** The loop over the replicas, [n] of them from [rep] on. *)
Fixpoint firstn_loop (n : nat) (rep outpos count : Z) (out out2 : list Z) (s : state)
    : outcome (Z * list Z * list Z * state) :=
  match n with
  | O => Done (outpos, out, out2, s)
  | S n =>
      if negb (0 <? count) then Done (outpos, out, out2, s) else
      '(res, out2, s) ← try_replica replica_fuel rep outpos count out bucket 0 0 out2 s;
      match res with
      | None => firstn_loop n (rep + 1) outpos count out out2 s
      | Some (item, ftotal) =>
          out ← need (wr out outpos item);
          s ← count_tries m ftotal s;
          firstn_loop n (rep + 1) (outpos + 1) (count - 1) out out2 s
      end
  end.
End Firstn.

(** The recursive call, which does not recurse. *)
Definition choose_firstn_leaf (numrep recurse_tries local_retries local_fallback_retries vary_r stable : Z)
    (bucket : crush_bucket) (out : list Z) (outpos count parent_r : Z) (s : state) : outcome (Z * list Z * state) :=
  let rep := if stable =? 0 then outpos else 0 in
  '(outpos, out, _, s) ←
    firstn_loop bucket 0 recurse_tries local_retries local_fallback_retries false vary_r parent_r
      (fun _ _ _ _ _ _ => Fault) (Z.to_nat (numrep - rep)) rep outpos count out [] s;
  Done (outpos, out, s).

Definition crush_choose_firstn (bucket : crush_bucket) (numrep type : Z) (out : list Z) (outpos out_size : Z)
    (tries recurse_tries local_retries local_fallback_retries : Z) (recurse_to_leaf : bool) (vary_r stable : Z)
    (out2 : list Z) (parent_r : Z) (s : state) : outcome (Z * list Z * list Z * state) :=
  let rep := if stable =? 0 then outpos else 0 in
  firstn_loop bucket type tries local_retries local_fallback_retries recurse_to_leaf vary_r parent_r
    (fun b out2 outpos count sub_r s =>
       choose_firstn_leaf (if stable =? 0 then outpos + 1 else 1) recurse_tries local_retries local_fallback_retries
         vary_r stable b out2 outpos count sub_r s)
    (Z.to_nat (numrep - rep)) rep outpos out_size out out2 s.

(** ** By position *)

(** [out2] may be null. *)
Definition put2 (out2 : option (list Z)) (rep v : Z) : outcome (option (list Z)) :=
  match out2 with
  | None => Done None
  | Some o => o ← need (wr o rep v); Done (Some o)
  end.

Section Indep.
Context (bucket : crush_bucket) (numrep type outpos endpos : Z) (recurse_to_leaf : bool) (parent_r : Z)
        (leaf : crush_bucket -> option (list Z) -> Z -> Z -> state -> outcome (option (list Z) * state)).

(** What a position and the number of open ones become. *)
Definition slots : Set := (Z * list Z * option (list Z) * state)%type.

(** The position stays empty. *)
Definition abandon (rep left : Z) (out : list Z) (out2 : option (list Z)) (s : state) : outcome slots :=
  out ← need (wr out rep CRUSH_ITEM_NONE);
  out2 ← put2 out2 rep CRUSH_ITEM_NONE;
  Done (left - 1, out, out2, s).

(** The leaf for [rep]; the result tells whether there is none. *)
Definition indep_leaf (item r rep : Z) (out2 : option (list Z)) (s : state) : outcome (bool * option (list Z) * state) :=
  if item <? 0 then
    b ← bucket_at m item;
    '(out2, s) ← leaf b out2 rep r s;
    none ← match out2 with
           | None => Done false
           | Some o => v ← need (rd o rep); Done (v =? CRUSH_ITEM_NONE)
           end;
    Done (none, out2, s)
  else
    out2 ← put2 out2 rep item;
    Done (false, out2, s).

(** The descent for one position. *)
Fixpoint try_position (fuel : nat) (rep ftotal : Z) (in_ : crush_bucket) (left : Z) (out : list Z)
    (out2 : option (list Z)) (s : state) : outcome slots :=
  match fuel with
  | O => NoFuel
  | S fuel =>
      if numrep =? 0 then Fault else
      let r := s32 (rep + parent_r +
                    (if (b_alg in_ =? CRUSH_BUCKET_UNIFORM) && (b_size in_ mod u32 numrep =? 0)
                     then (numrep + 1) * ftotal else numrep * ftotal)) in
      if b_size in_ =? 0 then Done (left, out, out2, s) else
      '(item, s) ← choose_in false in_ r outpos s;
      if max_devices m <=? item then abandon rep left out out2 s else
      itemtype ← item_type item;
      if negb (itemtype =? type) then
        if (0 <=? item) || (max_buckets m <=? -1 - item) then abandon rep left out out2 s else
        in_ ← bucket_at m item;
        try_position fuel rep ftotal in_ left out out2 s
      else if existsb (Z.eqb item) (take (Z.to_nat (endpos - outpos)) (drop (Z.to_nat outpos) out))
      then Done (left, out, out2, s) else
      '(none, out2, s) ← (if recurse_to_leaf then indep_leaf item r rep out2 s else Done (false, out2, s));
      if none : bool then Done (left, out, out2, s) else
      rejected ← (if itemtype =? 0 then is_out item else Done false);
      if rejected : bool then Done (left, out, out2, s) else
      out ← need (wr out rep item);
      Done (left - 1, out, out2, s)
  end.

(** A descent visits every bucket at most once. *)
Definition position_fuel : nat := S (S (length (buckets m))).

(** One pass over the positions, [n] of them from [rep] on. *)
Fixpoint indep_pass (n : nat) (rep ftotal left : Z) (out : list Z) (out2 : option (list Z)) (s : state) : outcome slots :=
  match n with
  | O => Done (left, out, out2, s)
  | S n =>
      v ← need (rd out rep);
      if negb (v =? CRUSH_ITEM_UNDEF) then indep_pass n (rep + 1) ftotal left out out2 s else
      '(left, out, out2, s) ← try_position position_fuel rep ftotal bucket left out out2 s;
      indep_pass n (rep + 1) ftotal left out out2 s
  end.

(** The passes, at most [n] more; the result has the number of passes. *)
Fixpoint indep_rounds (n : nat) (ftotal left : Z) (out : list Z) (out2 : option (list Z)) (s : state)
    : outcome (Z * list Z * option (list Z) * state) :=
  match n with
  | O => Done (ftotal, out, out2, s)
  | S n =>
      if negb (0 <? left) then Done (ftotal, out, out2, s) else
      '(left, out, out2, s) ← indep_pass (Z.to_nat (endpos - outpos)) outpos ftotal left out out2 s;
      indep_rounds n (ftotal + 1) left out out2 s
  end.

(** [for (rep = outpos; rep < endpos; rep++)] before and after the passes. *)
Fixpoint set_undef (n : nat) (rep : Z) (out : list Z) (out2 : option (list Z)) : outcome (list Z * option (list Z)) :=
  match n with
  | O => Done (out, out2)
  | S n =>
      out ← need (wr out rep CRUSH_ITEM_UNDEF);
      out2 ← put2 out2 rep CRUSH_ITEM_UNDEF;
      set_undef n (rep + 1) out out2
  end.

Definition undef_to_none (out : list Z) (rep : Z) : outcome (list Z) :=
  v ← need (rd out rep);
  if v =? CRUSH_ITEM_UNDEF then need (wr out rep CRUSH_ITEM_NONE) else Done out.

Fixpoint set_none (n : nat) (rep : Z) (out : list Z) (out2 : option (list Z)) : outcome (list Z * option (list Z)) :=
  match n with
  | O => Done (out, out2)
  | S n =>
      out ← undef_to_none out rep;
      out2 ← match out2 with None => Done None | Some o => o ← undef_to_none o rep; Done (Some o) end;
      set_none n (rep + 1) out out2
  end.

Definition indep_body (tries left : Z) (out : list Z) (out2 : option (list Z)) (s : state)
    : outcome (list Z * option (list Z) * state) :=
  let n := Z.to_nat (endpos - outpos) in
  '(out, out2) ← set_undef n outpos out out2;
  '(ftotal, out, out2, s) ← indep_rounds (Z.to_nat tries) 0 left out out2 s;
  '(out, out2) ← set_none n outpos out out2;
  s ← count_tries m ftotal s;
  Done (out, out2, s).
End Indep.

(** The recursive call: one position of [out2], a device. *)
Definition choose_indep_leaf (numrep recurse_tries : Z) (bucket : crush_bucket) (out2 : option (list Z))
    (rep parent_r : Z) (s : state) : outcome (option (list Z) * state) :=
  match out2 with
  | None => Fault
  | Some out =>
      '(out, _, s) ← indep_body bucket numrep 0 rep (rep + 1) false parent_r (fun _ _ _ _ _ => Fault)
                       recurse_tries 1 out None s;
      Done (Some out, s)
  end.

Definition crush_choose_indep (bucket : crush_bucket) (left numrep type : Z) (out : list Z) (outpos : Z)
    (tries recurse_tries : Z) (recurse_to_leaf : bool) (out2 : option (list Z)) (parent_r : Z) (s : state)
    : outcome (list Z * option (list Z) * state) :=
  indep_body bucket numrep type outpos (outpos + left) recurse_to_leaf parent_r
    (choose_indep_leaf numrep recurse_tries) tries left out out2 s.

(** ** Rules *)

(** The two working arrays (the working set [w] and the output [o]) with the
    array [c] of leaves, the result so far and the settings of the rule. *)
Record run : Set := mkrun {
  w_set : list Z; wsize : Z; o_set : list Z; c_set : list Z; result : list Z; result_len : Z;
  choose_tries : Z; choose_leaf_tries : Z; choose_local_retries : Z; choose_local_fallback_retries : Z;
  vary_r : Z; stable : Z }.

Definition take_step (arg1 : Z) (k : run) : outcome run :=
  if ((0 <=? arg1) && (arg1 <? max_devices m)) ||
     ((0 <=? -1 - arg1) && (-1 - arg1 <? max_buckets m) &&
      match rd (buckets m) (-1 - arg1) with Some (Some _) => true | _ => false end)
  then w ← need (wr (w_set k) 0 arg1);
       Done (mkrun w 1 (o_set k) (c_set k) (result k) (result_len k) (choose_tries k) (choose_leaf_tries k)
               (choose_local_retries k) (choose_local_fallback_retries k) (vary_r k) (stable k))
  else Done k.

(** One bucket of the working set: [o + osize] and [c + osize] are the arrays
    that the choice gets. *)
Definition choose_one (firstn recurse_to_leaf : bool) (arg1 arg2 result_max : Z) (k : run) (wi : Z)
    (o c : list Z) (osize : Z) (s : state) : outcome (list Z * list Z * Z * state) :=
  let numrep := if arg1 <=? 0 then arg1 + result_max else arg1 in
  if numrep <=? 0 then Done (o, c, osize, s) else
  let bno := -1 - wi in
  if (bno <? 0) || (max_buckets m <=? bno) then Done (o, c, osize, s) else
  b ← bucket_at m wi;
  let n := Z.to_nat osize in
  if firstn then
    let recurse_tries := if choose_leaf_tries k =? 0
                         then if chooseleaf_descend_once m =? 0 then choose_tries k else 1
                         else choose_leaf_tries k in
    '(len, out, out2, s) ←
      crush_choose_firstn b numrep arg2 (drop n o) 0 (result_max - osize) (u32 (choose_tries k)) (u32 recurse_tries)
        (u32 (choose_local_retries k)) (u32 (choose_local_fallback_retries k)) recurse_to_leaf
        (u32 (vary_r k)) (u32 (stable k)) (drop n c) 0 s;
    Done (take n o ++ out, take n c ++ out2, osize + len, s)
  else
    let out_size := if numrep <? result_max - osize then numrep else result_max - osize in
    '(out, out2, s) ←
      crush_choose_indep b out_size numrep arg2 (drop n o) 0 (u32 (choose_tries k))
        (u32 (if choose_leaf_tries k =? 0 then 1 else choose_leaf_tries k)) recurse_to_leaf
        (Some (drop n c)) 0 s;
    Done (take n o ++ out, take n c ++ default [] out2, osize + out_size, s).

Fixpoint choose_all (firstn recurse_to_leaf : bool) (arg1 arg2 result_max : Z) (k : run) (ws : list Z)
    (o c : list Z) (osize : Z) (s : state) : outcome (list Z * list Z * Z * state) :=
  match ws with
  | [] => Done (o, c, osize, s)
  | wi :: ws =>
      '(o, c, osize, s) ← choose_one firstn recurse_to_leaf arg1 arg2 result_max k wi o c osize s;
      choose_all firstn recurse_to_leaf arg1 arg2 result_max k ws o c osize s
  end.

Definition choose_step (firstn recurse_to_leaf : bool) (arg1 arg2 result_max : Z) (k : run) (s : state)
    : outcome (run * state) :=
  if wsize k =? 0 then Done (k, s) else
  '(o, c, osize, s) ←
    choose_all firstn recurse_to_leaf arg1 arg2 result_max k (take (Z.to_nat (wsize k)) (w_set k))
      (o_set k) (c_set k) 0 s;
  let n := Z.to_nat osize in
  let o := if recurse_to_leaf then take n c ++ drop n o else o in
  Done (mkrun o osize (w_set k) c (result k) (result_len k) (choose_tries k) (choose_leaf_tries k)
          (choose_local_retries k) (choose_local_fallback_retries k) (vary_r k) (stable k), s).

(** [for (i = 0; i < wsize && result_len < result_max; i++)]. *)
Fixpoint emit_loop (ws : list Z) (result_max : Z) (result : list Z) (result_len : Z) : outcome (list Z * Z) :=
  match ws with
  | [] => Done (result, result_len)
  | wi :: ws =>
      if negb (result_len <? result_max) then Done (result, result_len) else
      result ← need (wr result result_len wi);
      emit_loop ws result_max result (result_len + 1)
  end.

Definition emit_step (result_max : Z) (k : run) : outcome run :=
  '(res, len) ← emit_loop (take (Z.to_nat (wsize k)) (w_set k)) result_max (result k) (result_len k);
  Done (mkrun (w_set k) 0 (o_set k) (c_set k) res len (choose_tries k) (choose_leaf_tries k)
          (choose_local_retries k) (choose_local_fallback_retries k) (vary_r k) (stable k)).

Definition set_tries (k : run) (t lt lr lf v st : Z) : run :=
  mkrun (w_set k) (wsize k) (o_set k) (c_set k) (result k) (result_len k) t lt lr lf v st.

Definition rule_step (result_max : Z) (step : crush_rule_step) (k : run) (s : state) : outcome (run * state) :=
  let op := s_op step in
  let arg1 := s_arg1 step in
  let keep k := Done (k, s) in
  if op =? CRUSH_RULE_TAKE then k ← take_step arg1 k; Done (k, s)
  else if op =? CRUSH_RULE_SET_CHOOSE_TRIES then
    keep (if 0 <? arg1 then set_tries k arg1 (choose_leaf_tries k) (choose_local_retries k)
            (choose_local_fallback_retries k) (vary_r k) (stable k) else k)
  else if op =? CRUSH_RULE_SET_CHOOSELEAF_TRIES then
    keep (if 0 <? arg1 then set_tries k (choose_tries k) arg1 (choose_local_retries k)
            (choose_local_fallback_retries k) (vary_r k) (stable k) else k)
  else if op =? CRUSH_RULE_SET_CHOOSE_LOCAL_TRIES then
    keep (if 0 <=? arg1 then set_tries k (choose_tries k) (choose_leaf_tries k) arg1
            (choose_local_fallback_retries k) (vary_r k) (stable k) else k)
  else if op =? CRUSH_RULE_SET_CHOOSE_LOCAL_FALLBACK_TRIES then
    keep (if 0 <=? arg1 then set_tries k (choose_tries k) (choose_leaf_tries k) (choose_local_retries k)
            arg1 (vary_r k) (stable k) else k)
  else if op =? CRUSH_RULE_SET_CHOOSELEAF_VARY_R then
    keep (if 0 <=? arg1 then set_tries k (choose_tries k) (choose_leaf_tries k) (choose_local_retries k)
            (choose_local_fallback_retries k) arg1 (stable k) else k)
  else if op =? CRUSH_RULE_SET_CHOOSELEAF_STABLE then
    keep (if 0 <=? arg1 then set_tries k (choose_tries k) (choose_leaf_tries k) (choose_local_retries k)
            (choose_local_fallback_retries k) (vary_r k) arg1 else k)
  else if (op =? CRUSH_RULE_CHOOSELEAF_FIRSTN) || (op =? CRUSH_RULE_CHOOSE_FIRSTN) then
    choose_step true (op =? CRUSH_RULE_CHOOSELEAF_FIRSTN) arg1 (s_arg2 step) result_max k s
  else if (op =? CRUSH_RULE_CHOOSELEAF_INDEP) || (op =? CRUSH_RULE_CHOOSE_INDEP) then
    choose_step false (op =? CRUSH_RULE_CHOOSELEAF_INDEP) arg1 (s_arg2 step) result_max k s
  else if op =? CRUSH_RULE_EMIT then k ← emit_step result_max k; Done (k, s)
  else Done (k, s).

Fixpoint rule_steps (result_max : Z) (steps : list crush_rule_step) (k : run) (s : state) : outcome (run * state) :=
  match steps with
  | [] => Done (k, s)
  | step :: steps => '(k, s) ← rule_step result_max step k s; rule_steps result_max steps k s
  end.

(** [scratch] is the memory behind the working area of the buckets, three
    arrays of [result_max] numbers; [res] is the caller's array. *)
Definition crush_do_rule (ruleno : Z) (res : list Z) (result_max : Z) (scratch : list Z) (s : state)
    : outcome (list Z * state) :=
  if max_rules m <=? u32 ruleno then Done ([], s) else
  o ← need (rd (rules m) ruleno);
  steps ← need o;
  let n := Z.to_nat result_max in
  let k := mkrun (take n scratch) 0 (take n (drop n scratch)) (take n (drop n (drop n scratch))) res 0
             (s32 (choose_total_tries m + 1)) 0 (s32 (choose_local_tries m)) (s32 (choose_local_fallback_tries m))
             (chooseleaf_vary_r m) (chooseleaf_stable m) in
  '(k, s) ← rule_steps result_max steps k s;
  Done (take (Z.to_nat (result_len k)) (result k), s).

End Mapper.

(** The working area of a map, in the memory that the caller gives: [garbage]
    is what it holds before. *)
Definition crush_init_workspace (m : crush_map) (garbage : nat -> list Z) : list (option crush_work_bucket) :=
  imap (fun i o => (fun b => mkwork 0 0 (take (Z.to_nat (b_size b)) (garbage i))) <$> o) (buckets m).
