(* ===== verification/CrPerm.v ===== *)
(** * The permutation of a bucket is a function of the input (mapper.c: bucket_perm_choose)

    [bucket_perm_choose] builds a permutation of the positions of a bucket step
    by step, in a working area that it keeps between calls, with a shortcut for
    the first position.  Whatever calls came before, it answers with the item
    at position [r] of one permutation, [permutation b x]. *)
From stdpp Require Import sorting.
From S2P Require Import Prelude CrHash CrBucket.

Lemma u32_u32 x : u32 (u32 x) = u32 x.
Proof. unfold u32. by rewrite Z.mod_mod. Qed.

Lemma hash3_u32 t x y z : crush_hash32_3 t (u32 x) y z = crush_hash32_3 t x y z.
Proof. unfold crush_hash32_3. by rewrite u32_u32. Qed.

Lemma for_up_app {S} n k i (f : Z -> S -> option S) s :
  for_up (n + k) i f s = for_up n i f s ≫= for_up k (i + Z.of_nat n) f.
Proof.
  revert i s. induction n as [|n IH]; intros i s; cbn [for_up Nat.add].
  - by rewrite Z.add_0_r.
  - destruct (f i s) as [s1|]; cbn; [|done]. rewrite IH.
    by replace (i + 1 + Z.of_nat n) with (i + Z.of_nat (Datatypes.S n)) by lia.
Qed.

Lemma rd_range n k : 0 <= k < Z.of_nat n -> rd (range n) k = Some k.
Proof.
  intros Hk. unfold rd, range. rewrite (proj2 (Z.leb_le 0 k)), list_lookup_fmap, lookup_seq_lt by lia.
  cbn. f_equal. lia.
Qed.

Lemma length_range n : length (range n) = n.
Proof. unfold range. by rewrite length_fmap, length_seq. Qed.

Lemma rd_item_in b i item : i < b_size b -> rd (b_items b) i = Some item -> item ∈ items_of b.
Proof.
  unfold rd, items_of. intros Hi E. destruct (Z.leb_spec 0 i); [|done]. apply list_elem_of_lookup. exists (Z.to_nat i).
  rewrite lookup_take_lt by lia. done.
Qed.

Section Perm.
Context (b : crush_bucket).
Local Abbreviation size := (b_size b).
Context (Hsize : 0 < size < 2 ^ 32) (Hitems : size <= Z.of_nat (length (b_items b))).

(** ** The permutation *)

(** The positions after [k] rounds. *)
Definition perms (x : Z) (k : nat) : option (list Z) := for_up k 0 (perm_step b x) (range (Z.to_nat size)).

Definition permutation (x : Z) : list Z := default [] (perms x (Z.to_nat size)).

(** [a'] is [a] with the elements from [p] on in another order. *)
Definition shuffled (p : Z) (a a' : list Z) : Prop :=
  a' ≡ₚ a /\ forall k, k < p -> rd a' k = rd a k.

Lemma shuffled_length p a a' : shuffled p a a' -> length a' = length a.
Proof. intros [H _]. by apply Permutation_length. Qed.

Lemma swap_shuffled p i (a : list Z) : 0 <= p < i -> i < Z.of_nat (length a) ->
  exists t c a1 a2, rd a i = Some t /\ rd a p = Some c /\ wr a i c = Some a1 /\ wr a1 p t = Some a2 /\ shuffled p a a2.
Proof.
  intros Hp Hi. destruct (rd_Some a i) as (t & Ht & Ht'); [lia|]. destruct (rd_Some a p) as (c & Hc & Hc'); [lia|].
  exists t, c. rewrite wr_Some by lia. do 2 eexists. do 3 (split; [done|]).
  rewrite wr_Some by (rewrite length_insert; lia). split; [done|]. split.
  - apply Permutation_insert_swap; done.
  - intros k Hk. unfold rd. destruct (0 <=? k) eqn:Hk0; [|done]. apply Z.leb_le in Hk0.
    rewrite !list_lookup_insert_ne by lia. done.
Qed.

Lemma perm_step_ok x p a : 0 <= p -> Z.of_nat (length a) = size ->
  exists a', perm_step b x p a = Some a' /\ shuffled p a a'.
Proof.
  intros Hp Hl. unfold perm_step. assert (Hrefl : shuffled p a a) by (split; [done|done]).
  rewrite u32_small by lia. destruct (Z.ltb_spec p (b_size b - 1)) as [Hlt|]; [|by exists a]. cbv zeta.
  set (i := _ mod _). pose proof (Z.mod_pos_bound (crush_hash32_3 (b_hash b) x (b_id b) p) (b_size b - p) ltac:(lia)).
  destruct (Z.eqb_spec i 0); [by exists a|].
  destruct (swap_shuffled p (p + i) a) as (t & c & a1 & a2 & E1 & E2 & E3 & E4 & Hs); [lia|lia|].
  exists a2. rewrite E1; cbn; rewrite E2; cbn; rewrite E3; cbn. done.
Qed.

Lemma perms_extend x k n a : perms x k = Some a ->
  exists a', for_up n (Z.of_nat k) (perm_step b x) a = Some a' /\ perms x (k + n) = Some a' /\ shuffled (Z.of_nat k) a a'.
Proof.
  intros Ha. unfold perms in *. rewrite for_up_app, Ha. cbn [mbind option_bind].
  rewrite Z.add_0_l.
  assert (Hlen : Z.of_nat (length a) = size).
  { pose proof (for_up_inv (fun _ s => Z.of_nat (length s) = size) k 0 (perm_step b x) (range (Z.to_nat size))) as H.
    destruct H as (s & Hs & H); [rewrite length_range; lia| |].
    - intros j s Hj Hs. destruct (perm_step_ok x j s) as (s' & E & Hs'); [lia|done|].
      exists s'. split; [done|]. by rewrite (shuffled_length _ _ _ Hs').
    - congruence. }
  pose proof (for_up_inv (fun _ s => shuffled (Z.of_nat k) a s) n (Z.of_nat k) (perm_step b x) a) as H.
  destruct H as (s & Hs & H); [by split| |by exists s].
  intros j s Hj Hs. destruct (perm_step_ok x j s) as (s' & E & [Hp Hk]); [lia|by rewrite (shuffled_length _ _ _ Hs)|].
  exists s'. split; [done|]. destruct Hs as [Hp' Hk']. split; [by rewrite Hp|].
  intros i Hi. rewrite Hk, Hk' by lia. done.
Qed.

Lemma perms_total x k : exists a, perms x k = Some a /\ a ≡ₚ range (Z.to_nat size).
Proof.
  destruct (perms_extend x 0 k (range (Z.to_nat size)) eq_refl) as (a & _ & E & [H _]). by exists a.
Qed.

(** A prefix of the permutation is final once it is reached. *)
Lemma perms_prefix x k a i : perms x k = Some a -> (k <= Z.to_nat size)%nat -> i < Z.of_nat k -> rd a i = rd (permutation x) i.
Proof.
  intros Ha Hk Hi. destruct (perms_extend x k (Z.to_nat size - k) a Ha) as (a' & _ & E & [_ H]).
  unfold permutation. replace (Z.to_nat size) with (k + (Z.to_nat size - k))%nat at 1 by lia.
  rewrite E. cbn. symmetry. by apply H.
Qed.

Lemma permutation_perm x : permutation x ≡ₚ range (Z.to_nat size).
Proof. destruct (perms_total x (Z.to_nat size)) as (a & E & H). unfold permutation. by rewrite E. Qed.

(** ** The first round *)

Definition first_pos (x : Z) : Z := crush_hash32_3 (b_hash b) x (b_id b) 0 mod size.

Lemma first_pos_range x : 0 <= first_pos x < size.
Proof. apply Z.mod_pos_bound. lia. Qed.

(** The positions after the first round: [first_pos x] and 0 exchanged. *)
Lemma perms_one x : exists a, perms x 1 = Some a /\
  forall k, 0 <= k < size -> rd a k = Some (if decide (k = first_pos x) then 0 else if decide (k = 0) then first_pos x else k).
Proof.
  pose proof (first_pos_range x) as Hf. unfold perms, perm_step. cbn [for_up]. rewrite u32_small by lia.
  set (n := Z.to_nat size). assert (Hn : Z.of_nat n = size) by lia.
  destruct (Z.ltb_spec 0 (b_size b - 1)) as [Hlt|Hge].
  - rewrite Z.sub_0_r. change (_ mod b_size b) with (first_pos x). cbv zeta. rewrite Z.add_0_l.
    destruct (Z.eqb_spec (first_pos x) 0) as [H0|H0].
    + cbn. eexists. split; [done|]. intros k Hk. rewrite rd_range by lia. f_equal. repeat case_decide; lia.
    + rewrite !rd_range by lia. cbn [mbind option_bind].
      destruct (wr_spec (range n) (first_pos x) 0) as (a1 & -> & L1 & R1); [rewrite length_range; lia|]. cbn [mbind option_bind].
      destruct (wr_spec a1 0 (first_pos x)) as (a2 & -> & L2 & R2); [rewrite L1, length_range; lia|]. cbn [mbind option_bind].
      exists a2. split; [done|]. intros k Hk. rewrite R2, R1. repeat case_decide; try lia; try done. apply rd_range. lia.
  - cbn. eexists. split; [done|]. intros k Hk. rewrite rd_range by lia. f_equal. repeat case_decide; lia.
Qed.

(** ** The working area *)

Record work_ok (w : crush_work_bucket) : Prop := {
  work_len : Z.of_nat (length (perm w)) = size;
  work_n : 0 <= perm_n w;
  work_first : perm_n w <> 0 -> rd (perm w) 0 = Some (first_pos (perm_x w));
  work_perms : perm_n w <> 0 -> perm_n w <> PERM_MAGIC ->
    perm_n w <= size /\ perms (perm_x w) (Z.to_nat (perm_n w)) = Some (perm w) }.

Lemma perms_u32 x k : perms (u32 x) k = perms x k.
Proof.
  unfold perms. generalize 0 (range (Z.to_nat size)). induction k as [|k IH]; intros i s; [done|]. cbn [for_up].
  assert (perm_step b (u32 x) i s = perm_step b x i s) as -> by (unfold perm_step; by rewrite hash3_u32).
  destruct (perm_step b x i s); [apply IH|done].
Qed.

Lemma perm_fill_ok from (p : list Z) : 0 <= from <= size -> Z.of_nat (length p) = size ->
  exists a, perm_fill from size p = Some a /\ length a = length p /\
            forall k, rd a k = if decide (from <= k < size) then Some k else rd p k.
Proof.
  intros Hf Hp. unfold perm_fill. loop_inv (fun j (a : list Z) => length a = length p /\
    forall k, rd a k = if decide (from <= k < j) then Some k else rd p k) H.
  destruct H as (a & E & Hl & Ha).
  - split; [done|]. intros k. by rewrite decide_False by lia.
  - intros j a Hj [Hl Ha]. destruct (wr_spec a j j) as (a' & E & L & R); [lia|]. exists a'. split; [done|].
    split; [congruence|]. intros k. rewrite R, Ha. repeat case_decide; subst; try done; lia.
  - exists a. split; [done|]. split; [done|]. replace (from + Z.of_nat (Z.to_nat (size - from))) with size in Ha by lia. done.
Qed.

(** What the rounds start from: [perm_n] rounds are done for input [x]. *)
Definition started (x : Z) (w : crush_work_bucket) : Prop :=
  perm_x w = u32 x /\ 0 <= perm_n w <= size /\ perms x (Z.to_nat (perm_n w)) = Some (perm w).

Lemma start_fresh x p : Z.of_nat (length p) = size ->
  exists a, perm_fill 0 size p = Some a /\ started x (mkwork (u32 x) 0 a).
Proof.
  intros Hp. destruct (perm_fill_ok 0 p) as (a & E & L & R); [lia|done|]. exists a. split; [done|].
  split; [done|]. split; [cbn; lia|]. change (Some (range (Z.to_nat size)) = Some a). f_equal.
  apply rd_ext; rewrite length_range; [lia|].
  intros k Hk. rewrite R, decide_True by lia. apply rd_range. lia.
Qed.

Lemma start_magic x w : work_ok w -> perm_x w = u32 x -> perm_n w <> 0 ->
  exists a a', perm_fill 1 size (perm w) = Some a /\ rd a 0 = Some (first_pos x) /\
    wr a (first_pos x) 0 = Some a' /\ started x (mkwork (perm_x w) 1 a').
Proof.
  intros Hw Hx Hn. pose proof (work_len w Hw) as Hl. pose proof (work_first w Hw Hn) as H0.
  assert (Hfp : first_pos (perm_x w) = first_pos x) by (unfold first_pos; by rewrite Hx, hash3_u32).
  rewrite Hfp in H0. pose proof (first_pos_range x) as Hf.
  destruct (perm_fill_ok 1 (perm w)) as (a & E & L & R); [lia|done|].
  destruct (wr_spec a (first_pos x) 0) as (a' & E' & L' & R'); [lia|].
  exists a, a'. split; [done|]. split; [rewrite R, decide_False by lia; done|]. split; [done|].
  split; [done|]. split; [cbn; lia|]. change (perms x 1 = Some a'). destruct (perms_one x) as (c & Ec & Hc).
  destruct (perms_total x 1) as (c' & Ec' & Hperm). rewrite Ec in Ec'. injection Ec' as <-.
  rewrite Ec. f_equal. apply rd_ext; [rewrite (Permutation_length Hperm), length_range; lia|].
  intros k Hk. rewrite (Permutation_length Hperm), length_range in Hk. rewrite Hc, R', R by lia.
  destruct (decide (k = first_pos x)); [done|]. destruct (decide (k = 0)) as [->|].
  - rewrite decide_False by lia. done.
  - by rewrite decide_True by lia.
Qed.

Lemma extend_ok x pr w : started x w -> 0 <= pr < size ->
  exists w', perm_extend b x pr w = Some w' /\ started x w' /\ perm_n w' <> 0 /\
             rd (perm w') pr = rd (permutation x) pr.
Proof.
  intros (Hx & Hn & Hp) Hpr. unfold perm_extend.
  destruct (perms_extend x (Z.to_nat (perm_n w)) (Z.to_nat (pr + 1 - perm_n w)) (perm w) Hp) as (a & E & E' & _).
  rewrite Z2Nat.id in E by lia. rewrite E. cbn [mbind option_bind]. eexists. split; [done|].
  replace (Z.to_nat (perm_n w) + Z.to_nat (pr + 1 - perm_n w))%nat with (Z.to_nat (Z.max (perm_n w) (pr + 1))) in E' by lia.
  split; [split; [done|]; split; [cbn; lia|done]|]. split; [cbn; lia|]. cbn.
  apply (perms_prefix x (Z.to_nat (Z.max (perm_n w) (pr + 1)))); [done|lia|lia].
Qed.

Lemma started_ok x w : started x w -> perm_n w <> 0 -> work_ok w.
Proof.
  intros (Hx & Hn & Hp) H0. destruct (perms_total x (Z.to_nat (perm_n w))) as (a & E & Hperm).
  rewrite Hp in E. injection E as <-. split.
  - rewrite (Permutation_length Hperm), length_range. lia.
  - lia.
  - intros _. rewrite Hx. unfold first_pos. rewrite hash3_u32. fold (first_pos x).
    rewrite (perms_prefix x _ _ 0 Hp) by lia. destruct (perms_one x) as (c & Ec & Hc).
    rewrite <- (perms_prefix x 1 c 0 Ec) by lia. rewrite Hc by lia. f_equal. repeat case_decide; lia.
  - intros _ _. rewrite Hx, perms_u32. split; [lia|done].
Qed.

(** ** The choice *)

(** Position [r] of the permutation, and the item there. *)
Definition perm_item (x r : Z) : option Z :=
  s ← rd (permutation x) (u32 r mod size); rd (b_items b) s.

Lemma perm_item_total x r : exists s item, rd (permutation x) (u32 r mod size) = Some s /\
  rd (b_items b) s = Some item /\ item ∈ items_of b.
Proof.
  pose proof (permutation_perm x) as Hp. pose proof (Z.mod_pos_bound (u32 r) size ltac:(lia)) as Hr.
  pose proof (Permutation_length Hp) as Hl. rewrite length_range in Hl.
  destruct (rd_Some (permutation x) (u32 r mod size)) as (s & Es & Hs); [lia|].
  assert (s ∈ range (Z.to_nat size)) as Hin%elem_of_range by (rewrite <- Hp; by eapply list_elem_of_lookup_2).
  destruct (rd_Some (b_items b) s) as (item & Ei & Hi); [lia|].
  exists s, item. split; [done|]. split; [done|]. apply (rd_item_in b s item); [lia|done].
Qed.

Lemma perm_choose_ok w x r : work_ok w ->
  exists item w', bucket_perm_choose b w x r = Done (item, w') /\ perm_item x r = Some item /\ work_ok w'.
Proof.
  intros Hw. unfold bucket_perm_choose. rewrite (proj2 (Z.eqb_neq (b_size b) 0)) by lia. cbv zeta.
  pose proof (Z.mod_pos_bound (u32 r) size ltac:(lia)) as Hr.
  destruct (perm_item_total x r) as (s & item & Es & Ei & _). pose proof (work_len w Hw) as Hl.
  assert (Hitem : perm_item x r = Some item) by (unfold perm_item; rewrite Es; done).
  revert Hr Es. generalize (u32 r mod size). intros pr Hr Es.
  set (fresh := negb (perm_x w =? u32 x) || (perm_n w =? 0)).
  assert (Hrest : forall w1, started x w1 -> exists w', (w2 ← need (perm_extend b x pr w1);
      s0 ← need (rd (perm w2) pr); it ← need (rd (b_items b) s0); Done (it, w2)) = Done (item, w') /\ work_ok w').
  { intros w1 Hw1. destruct (extend_ok x pr w1 Hw1 Hr) as (w' & E & Hs & Hn & Hrd). exists w'. rewrite E. cbn.
    rewrite Hrd, Es. cbn. rewrite Ei. cbn. split; [done|]. by apply (started_ok x). }
  destruct (fresh && (pr =? 0)) eqn:Hf0.
  - apply andb_true_iff in Hf0. destruct Hf0 as [_ ->%Z.eqb_eq]. fold (first_pos x).
    destruct (wr_spec (perm w) 0 (first_pos x)) as (a & -> & L & R); [lia|]. cbn.
    destruct (perms_one x) as (c & Ec & Hc). rewrite <- (perms_prefix x 1 c 0 Ec), Hc in Es by lia.
    assert (s = first_pos x) as -> by (injection Es as <-; repeat case_decide; lia).
    rewrite Ei. cbn. do 2 eexists. split; [done|]. split; [done|]. split; cbn [perm perm_n perm_x]; [congruence|done| |done].
    intros _. rewrite R, decide_True by done. unfold first_pos. by rewrite hash3_u32.
  - assert (Hgo : exists w', (w1 ← (if fresh then a ← need (perm_fill 0 size (perm w)); Done (mkwork (u32 x) 0 a)
         else if perm_n w =? PERM_MAGIC then
           a ← need (perm_fill 1 size (perm w)); p0 ← need (rd a 0); a ← need (wr a p0 0); Done (mkwork (perm_x w) 1 a)
         else Done w); w2 ← need (perm_extend b x pr w1); s0 ← need (rd (perm w2) pr);
         it ← need (rd (b_items b) s0); Done (it, w2)) = Done (item, w') /\ work_ok w').
    { destruct fresh eqn:Hfr.
      - destruct (start_fresh x (perm w) Hl) as (a & -> & Hst). cbn. by apply Hrest.
      - unfold fresh in Hfr. apply orb_false_iff in Hfr. destruct Hfr as [Hx%negb_false_iff%Z.eqb_eq Hn%Z.eqb_neq].
        destruct (Z.eqb_spec (perm_n w) PERM_MAGIC) as [Hm|Hm].
        + destruct (start_magic x w Hw Hx Hn) as (a & a' & -> & E0 & E1 & Hst). cbn [need mbind outcome_bind]. rewrite E0. cbn [need mbind outcome_bind]. rewrite E1. cbn [need mbind outcome_bind].
          by apply Hrest.
        + cbn [mbind outcome_bind]. apply Hrest. destruct (work_perms w Hw Hn Hm) as [Hle Hp]. pose proof (work_n w Hw).
          split; [done|]. split; [lia|]. by rewrite <- perms_u32, <- Hx. }
    destruct Hgo as (w' & E & Hok). eauto.
Qed.
End Perm.
