(* ===== verification/CrChoose.v ===== *)
(** * What the choices in a bucket promise (mapper.c)

    In a well-formed bucket every algorithm answers with an item of the bucket,
    reads inside its arrays, and depends on the working area in no way. *)
From S2P Require Import Prelude CrHash CrBucket CrPerm.

(** ** The largest draw *)

(** [h] is the first of the [n] positions where [d] is largest. *)
Definition first_max (d : Z -> Z) (n h : Z) : Prop :=
  0 <= h < n /\ forall j, 0 <= j < n -> d j <= d h /\ (j < h -> d j < d h).

Lemma first_max_unique d n h h' : first_max d n h -> first_max d n h' -> h = h'.
Proof.
  intros [H1 H2] [H3 H4]. destruct (Z.lt_trichotomy h h') as [Hlt|[->|Hlt]]; [|done|].
  - destruct (H4 h H1) as [_ H]. destruct (H2 h' H3). specialize (H Hlt). lia.
  - destruct (H2 h' H3) as [_ H]. destruct (H4 h H1). specialize (H Hlt). lia.
Qed.

Lemma best_loop_ok draw d n : forall i best, 0 <= i ->
  (forall j, i <= j < i + Z.of_nat n -> draw j = Done (d j)) ->
  (i = 0 \/ (best.2 = d best.1 /\ first_max d i best.1)) -> 0 < i + Z.of_nat n ->
  exists h, best_loop draw n i best = Done h /\ first_max d (i + Z.of_nat n) h.
Proof.
  induction n as [|n IH]; intros i best Hi Hd Hb Hpos; cbn [best_loop].
  - exists best.1. split; [done|]. rewrite Z.add_0_r in *. destruct Hb as [->|[_ Hb]]; [lia|done].
  - rewrite Hd by lia. run. replace (i + Z.of_nat (S n)) with (i + 1 + Z.of_nat n) in * by lia.
    apply IH; [lia| |right|lia].
    { intros j Hj. apply Hd. lia. }
    destruct Hb as [->|[Hb1 [Hb2 Hb3]]]; cbn [Z.eqb orb fst snd].
    + split; [done|]. split; [lia|]. intros j Hj. assert (j = 0) as -> by lia. lia.
    + destruct (Z.eqb_spec i 0); [lia|]. cbn [orb]. rewrite Hb1. destruct (Z.ltb_spec (d best.1) (d i)); cbn [fst snd].
      * split; [done|]. split; [lia|]. intros j Hj. destruct (decide (j = i)) as [->|]; [lia|]. destruct (Hb3 j); lia.
      * split; [done|]. split; [lia|]. intros j Hj. destruct (decide (j = i)) as [->|]; [lia|]. destruct (Hb3 j); lia.
Qed.

Lemma best_ok draw d n : 0 < n -> (forall j, 0 <= j < n -> draw j = Done (d j)) ->
  exists h, best_loop draw (Z.to_nat n) 0 (0, 0) = Done h /\ first_max d n h.
Proof.
  intros Hn Hd. destruct (best_loop_ok draw d (Z.to_nat n) 0 (0, 0)) as (h & E & H); [lia| |by left|lia|].
  - intros j Hj. apply Hd. lia.
  - exists h. split; [done|]. by replace (0 + Z.of_nat (Z.to_nat n)) with n in H by lia.
Qed.

(** ** Well-formed buckets *)

(** The nodes of a tree bucket: [2 ^ j * (2 * k + 1)] has height [j]; its
    weight is the sum of those of its children, and leaves beyond the items
    weigh nothing. *)
Definition tree_weights (num_nodes : Z) (W : list Z) : Prop :=
  num_nodes <= Z.of_nat (length W) /\
  (forall n, 0 <= n < num_nodes -> 0 <= W !!! Z.to_nat n < 2 ^ 32) /\
  (forall j k, 1 <= j -> 0 <= k -> 2 ^ j * (2 * k + 1) < num_nodes ->
     W !!! Z.to_nat (2 ^ j * (2 * k + 1)) =
     W !!! Z.to_nat (2 ^ j * (2 * k + 1) - 2 ^ (j - 1)) + W !!! Z.to_nat (2 ^ j * (2 * k + 1) + 2 ^ (j - 1))).

Definition tree_ok (size num_nodes : Z) (W : list Z) : Prop :=
  exists h, 1 <= h <= 7 /\ num_nodes = 2 ^ h /\ tree_weights num_nodes W /\
  0 < W !!! Z.to_nat (2 ^ (h - 1)) /\
  (forall i, size <= i -> 2 * i + 1 < num_nodes -> W !!! Z.to_nat (2 * i + 1) = 0).

Definition u32s (l : list Z) : Prop := Forall (fun w => 0 <= w < 2 ^ 32) l.

Definition body_ok (size : Z) (body : bucket_body) : Prop :=
  match body with
  | Uniform _ | OtherAlg _ => True
  | BList item_weights sum_weights => size <= Z.of_nat (length item_weights) /\ size <= Z.of_nat (length sum_weights)
  | Tree num_nodes node_weights => tree_ok size num_nodes node_weights
  | Straw _ straws => size <= Z.of_nat (length straws)
  | Straw2 item_weights => size <= Z.of_nat (length item_weights) /\ u32s item_weights
  end.

Record bucket_ok (b : crush_bucket) : Prop := {
  ok_size : 0 <= b_size b < 2 ^ 31;
  ok_items : b_size b <= Z.of_nat (length (b_items b));
  ok_body : 0 < b_size b -> body_ok (b_size b) (b_body b) }.

Definition arg_ok (b : crush_bucket) (arg : crush_choose_arg) : Prop :=
  (forall l, ids arg = Some l -> b_size b <= Z.of_nat (length l)) /\
  (forall ws, weight_set arg = Some ws -> ws <> [] /\ Forall (fun l => b_size b <= Z.of_nat (length l) /\ u32s l) ws).

(** ** The algorithms *)

(** A choice: the call returns an item of the bucket. *)
Definition chooses (b : crush_bucket) (r : outcome Z) : Prop := returns (fun item => item ∈ items_of b) r.

Lemma chooses_rd b i : bucket_ok b -> 0 <= i < b_size b -> chooses b (need (rd (b_items b) i)).
Proof.
  intros Hb Hi. destruct (rd_Some (b_items b) i) as (v & E & Hv); [pose proof (ok_items b Hb); lia|].
  apply (returns_need _ _ v E). apply (rd_item_in b i v); [lia|done].
Qed.

Lemma chooses_best b draw d : bucket_ok b -> 0 < b_size b ->
  (forall j, 0 <= j < b_size b -> draw j = Done (d j)) ->
  chooses b (high ← best_loop draw (Z.to_nat (b_size b)) 0 (0, 0); need (rd (b_items b) high)).
Proof.
  intros Hb Hs Hd. destruct (best_ok draw d (b_size b) Hs Hd) as (h & -> & [Hh _]). run. by apply chooses_rd.
Qed.

Lemma list_choose_ok b iw sw x r : bucket_ok b -> 0 < b_size b ->
  b_size b <= Z.of_nat (length iw) -> b_size b <= Z.of_nat (length sw) -> chooses b (bucket_list_choose b iw sw x r).
Proof.
  intros Hb Hs Hi Hw. unfold bucket_list_choose. rewrite s32_small by (pose proof (ok_size b Hb); lia).
  assert (Hn : Z.of_nat (Z.to_nat (b_size b)) <= b_size b) by lia. revert Hn. generalize (Z.to_nat (b_size b)).
  induction n as [|n IH]; intros Hn; cbn [list_choose_loop]; [apply chooses_rd; [done|lia]|].
  destruct (rd_Some (b_items b) (Z.of_nat n)) as (item & E & Hin); [pose proof (ok_items b Hb); lia|]. rewrite E. run.
  destruct (rd_Some sw (Z.of_nat n)) as (s & -> & _); [lia|]. run.
  destruct (rd_Some iw (Z.of_nat n)) as (i & -> & _); [lia|]. run.
  destruct (_ <? i); [|apply IH; lia]. eexists. split; [done|]. apply (rd_item_in b (Z.of_nat n) item); [lia|done].
Qed.

Lemma straw_choose_ok b straws x r : bucket_ok b -> 0 < b_size b -> b_size b <= Z.of_nat (length straws) ->
  chooses b (bucket_straw_choose b straws x r).
Proof.
  intros Hb Hs Hl. apply (chooses_best b _ (fun j =>
    u64 (Z.land (crush_hash32_3 (b_hash b) x (b_items b !!! Z.to_nat j) r) 0xffff * (straws !!! Z.to_nat j)))); [done|done|].
  intros j Hj. unfold straw_draw. rewrite (rd_total (b_items b)) by (pose proof (ok_items b Hb); lia). run. by rewrite rd_total by lia.
Qed.

Lemma land_ffff h : 0 <= Z.land h 0xffff < 2 ^ 16.
Proof. change 0xffff with (Z.ones 16). rewrite Z.land_ones by lia. apply Z.mod_pos_bound. lia. Qed.

(** The logarithm of the hash of an item, at most 0. *)
Definition straw2_ln (b : crush_bucket) (x id r : Z) : Z :=
  default 0 (crush_ln (Z.land (crush_hash32_3 (b_hash b) x id r) 0xffff)) - 2 ^ 48.

Lemma straw2_ln_spec b x id r :
  crush_ln (Z.land (crush_hash32_3 (b_hash b) x id r) 0xffff) = Some (straw2_ln b x id r + 2 ^ 48) /\
  - 2 ^ 48 <= straw2_ln b x id r < 0.
Proof.
  unfold straw2_ln. destruct (crush_ln_total _ (land_ffff (crush_hash32_3 (b_hash b) x id r))) as (v & -> & Hv).
  cbn [default from_option]. unfold Datatypes.id. split; [f_equal; lia|lia].
Qed.

(** The draw of an item. *)
Definition draw2 (b : crush_bucket) (x r : Z) (weight id : Z) : Z :=
  if weight =? 0 then S64_MIN else Z.quot (straw2_ln b x id r) (s32 weight).

Lemma s32_nonzero w : 0 < w < 2 ^ 32 -> s32 w <> 0.
Proof.
  intros Hw. unfold s32. destruct (decide (w < 2 ^ 31)); [rewrite Z.mod_small; lia|].
  replace (w + 2 ^ 31) with (w - 2 ^ 31 + 1 * 2 ^ 32) by lia. rewrite Z.mod_add, Z.mod_small by lia. lia.
Qed.

Lemma straw2_draw_ok b ws ids x r j : u32s ws -> 0 <= j < Z.of_nat (length ws) -> 0 <= j < Z.of_nat (length ids) ->
  straw2_draw b ws ids x r j = Done (draw2 b x r (ws !!! Z.to_nat j) (ids !!! Z.to_nat j)).
Proof.
  intros Hu Hj Hj'. unfold straw2_draw, draw2. rewrite (rd_total ws) by lia. run.
  destruct (lookup_lt_is_Some_2 ws (Z.to_nat j)) as [w Hw]; [lia|]. rewrite (list_lookup_total_correct _ _ _ Hw).
  pose proof (Forall_lookup_1 _ _ _ _ Hu Hw) as Hr. cbn in Hr.
  destruct (Z.eqb_spec w 0); [done|]. rewrite (rd_total ids) by lia. run. unfold generate_exponential_distribution. cbv zeta.
  destruct (straw2_ln_spec b x (ids !!! Z.to_nat j) r) as [-> _]. run.
  rewrite (proj2 (Z.eqb_neq _ _)) by (apply s32_nonzero; lia). do 2 f_equal. lia.
Qed.

(** The weights and the ids a straw2 choice uses. *)
Definition weights_of (iw : list Z) (arg : option crush_choose_arg) (position : Z) : list Z :=
  match arg ≫= weight_set with
  | None => iw
  | Some ws => ws !!! Z.to_nat (Z.min position (Z.of_nat (length ws) - 1))
  end.

Definition option_arg_ok (b : crush_bucket) (arg : option crush_choose_arg) : Prop :=
  match arg with None => True | Some a => arg_ok b a end.

Lemma weights_of_ok b iw arg position : bucket_ok b -> b_size b <= Z.of_nat (length iw) -> u32s iw ->
  option_arg_ok b arg -> 0 <= position ->
  get_choose_arg_weights iw arg position = Done (weights_of iw arg position) /\
  b_size b <= Z.of_nat (length (weights_of iw arg position)) /\ u32s (weights_of iw arg position).
Proof.
  intros Hb Hl Hu Ha Hp. unfold get_choose_arg_weights, weights_of. destruct arg as [a|]; cbn [mbind option_bind]; [|done].
  destruct (weight_set a) as [ws|] eqn:Ew; [|done]. destruct Ha as [_ Ha]. destruct (Ha ws Ew) as [Hne Hf].
  assert (Hpos : 0 < Z.of_nat (length ws)) by (destruct ws; [done|cbn; lia]). cbv zeta.
  replace (if Z.of_nat (length ws) <=? position then Z.of_nat (length ws) - 1 else position)
    with (Z.min position (Z.of_nat (length ws) - 1)) by (destruct (Z.leb_spec (Z.of_nat (length ws)) position); lia).
  rewrite rd_total by lia. split; [done|].
  destruct (lookup_lt_is_Some_2 ws (Z.to_nat (Z.min position (Z.of_nat (length ws) - 1)))) as [w Hw]; [lia|].
  rewrite (list_lookup_total_correct _ _ _ Hw). exact (Forall_lookup_1 _ _ _ _ Hf Hw).
Qed.

Lemma ids_length b arg : bucket_ok b -> option_arg_ok b arg -> b_size b <= Z.of_nat (length (get_choose_arg_ids b arg)).
Proof.
  intros Hb Ha. unfold get_choose_arg_ids. destruct arg as [a|]; cbn [mbind option_bind]; [|cbn; apply (ok_items b Hb)].
  destruct (ids a) as [l|] eqn:E; cbn; [by apply Ha|apply (ok_items b Hb)].
Qed.

(** The result is the item with the first largest draw. *)
Lemma straw2_choose_max b iw x r arg position : bucket_ok b -> 0 < b_size b -> b_size b <= Z.of_nat (length iw) -> u32s iw ->
  option_arg_ok b arg -> 0 <= position ->
  exists h, bucket_straw2_choose b iw x r arg position = Done (b_items b !!! Z.to_nat h) /\
    first_max (fun j => draw2 b x r (weights_of iw arg position !!! Z.to_nat j) (get_choose_arg_ids b arg !!! Z.to_nat j))
      (b_size b) h.
Proof.
  intros Hb Hs Hl Hu Ha Hp. unfold bucket_straw2_choose.
  destruct (weights_of_ok b iw arg position) as (-> & Hw & Huw); [done..|]. run.
  pose proof (ids_length b arg Hb Ha) as Hi.
  destruct (best_ok (straw2_draw b (weights_of iw arg position) (get_choose_arg_ids b arg) x r)
     (fun j => draw2 b x r (weights_of iw arg position !!! Z.to_nat j) (get_choose_arg_ids b arg !!! Z.to_nat j)) (b_size b))
    as (h & E & Hh); [done| |].
  { intros j Hj. apply straw2_draw_ok; [done|lia|lia]. }
  exists h. rewrite E. run. split; [|done]. destruct Hh as [Hh _]. rewrite (rd_total (b_items b)) by (pose proof (ok_items b Hb); lia). done.
Qed.

(** ** The tree *)

Lemma land_1 n : Z.land n 1 = n mod 2.
Proof. change 1 with (Z.ones 1) at 1. by rewrite Z.land_ones by lia. Qed.

Lemma odd_mod k : (2 * k + 1) mod 2 = 1.
Proof. symmetry. apply Z.mod_unique with k; lia. Qed.

Lemma height_ok fuel j k : 0 <= j -> 0 <= k -> j < Z.of_nat fuel -> height fuel (2 ^ j * (2 * k + 1)) = Done j.
Proof.
  intros Hj Hk. revert j Hj. induction fuel as [|fuel IH]; intros j Hj Hf; [lia|]. cbn [height]. rewrite land_1.
  destruct (decide (j = 0)) as [->|Hne].
  - rewrite Z.mul_1_l, odd_mod. done.
  - replace (2 ^ j * (2 * k + 1)) with (2 ^ (j - 1) * (2 * k + 1) * 2)
      by (replace (2 ^ j) with (2 ^ (j - 1) * 2) by (rewrite Z.mul_comm, <- Z.pow_succ_r by lia; f_equal; lia); ring).
    rewrite Z.mod_mul, Z.shiftr_div_pow2, Z.pow_1_r, Z.div_mul by lia. cbn [Z.eqb]. rewrite IH by lia. run. f_equal. lia.
Qed.

Lemma pow_half j : 1 <= j -> 2 ^ j = 2 * 2 ^ (j - 1).
Proof. intros. rewrite <- Z.pow_succ_r by lia. f_equal. lia. Qed.

(** The point that the hash picks lies below the weight of the node. *)
Lemma tree_point h w : 0 <= h < 2 ^ 32 -> 0 <= w < 2 ^ 32 -> 0 < w -> 0 <= Z.shiftr (u64 (h * w)) 32 < w.
Proof.
  intros Hh Hw Hp. unfold u64. rewrite Z.mod_small by nia. rewrite Z.shiftr_div_pow2 by lia. split; [apply Z.div_pos; nia|].
  apply Z.div_lt_upper_bound; nia.
Qed.

Lemma lxor_u32 a b : 0 <= a < 2 ^ 32 -> 0 <= b < 2 ^ 32 -> 0 <= Z.lxor a b < 2 ^ 32.
Proof. apply lxor_range. lia. Qed.

Lemma shiftr_u32 c n : 0 <= n -> 0 <= c < 2 ^ 32 -> 0 <= Z.shiftr c n < 2 ^ 32.
Proof.
  intros Hn Hc. rewrite Z.shiftr_div_pow2 by lia. assert (0 < 2 ^ n) by (apply Z.pow_pos_nonneg; lia).
  split; [apply Z.div_pos; lia|]. apply Z.div_lt_upper_bound; nia.
Qed.

Lemma hashmix_range a b c : 0 <= c < 2 ^ 32 -> 0 <= (crush_hashmix a b c).2 < 2 ^ 32.
Proof.
  intros Hc. unfold crush_hashmix. cbv zeta. cbn [snd].
  repeat (apply lxor_u32 || apply shiftr_u32 || apply u32_range || lia).
Qed.

Lemma hash4_range t x y z u : 0 <= crush_hash32_4 t x y z u < 2 ^ 32.
Proof.
  unfold crush_hash32_4. destruct (t =? _); [|lia]. unfold crush_hash32_rjenkins1_4. cbv zeta.
  assert (H0 : 0 <= Z.lxor (Z.lxor (Z.lxor (Z.lxor crush_hash_seed (u32 x)) (u32 y)) (u32 z)) (u32 u) < 2 ^ 32).
  { repeat apply lxor_u32; try apply u32_range. unfold crush_hash_seed. lia. }
  revert H0. generalize (Z.lxor (Z.lxor (Z.lxor (Z.lxor crush_hash_seed (u32 x)) (u32 y)) (u32 z)) (u32 u)). intros h H0.
  repeat match goal with
  | H : 0 <= ?c < _ |- context [crush_hashmix ?a ?b ?c] =>
      pose proof (hashmix_range a b c H); clear H; destruct (crush_hashmix a b c) as [[? ?] ?]; cbn [snd] in *
  end. done.
Qed.

Lemma tree_loop_ok b num_nodes W x r : tree_weights num_nodes W ->
  forall fuel j k, (fuel <= height_fuel)%nat -> 0 <= j < Z.of_nat fuel -> 0 <= k -> 2 ^ j * (2 * k + 1) + 2 ^ j <= num_nodes ->
  0 < W !!! Z.to_nat (2 ^ j * (2 * k + 1)) ->
  exists i, tree_choose_loop fuel b W x r (2 ^ j * (2 * k + 1)) = Done (2 * i + 1) /\ 0 <= i /\ 2 * i + 1 < num_nodes /\
            0 < W !!! Z.to_nat (2 * i + 1).
Proof.
  intros (Hlen & HW & Hsum) fuel. induction fuel as [|fuel IH]; intros j k Hfl Hj Hk Hlt Hpos; [lia|].
  assert (Hpj : 0 < 2 ^ j) by (apply Z.pow_pos_nonneg; lia).
  cbn [tree_choose_loop]. unfold terminal. rewrite land_1. destruct (decide (j = 0)) as [->|Hne].
  { rewrite Z.pow_0_r, Z.mul_1_l in *. rewrite odd_mod. exists k. split; [done|]. split; [lia|]. split; [lia|done]. }
  pose proof (pow_half j ltac:(lia)) as Hp2. assert (0 < 2 ^ (j - 1)) by (apply Z.pow_pos_nonneg; lia).
  pose proof (Hsum j k ltac:(lia) Hk ltac:(lia)) as Hs.
  set (node := 2 ^ j * (2 * k + 1)) in *. assert (Hnode : node = 2 * 2 ^ (j - 1) * (2 * k + 1)) by (unfold node; rewrite Hp2; ring).
  replace (node mod 2) with 0 by (symmetry; rewrite Hnode, (Z.mul_comm 2), <- Z.mul_assoc, (Z.mul_comm 2), Z.mul_assoc; apply Z.mod_mul; lia).
  cbn [Z.eqb negb]. rewrite (rd_total W) by nia. run. unfold tree_left, tree_right.
  replace (height height_fuel node) with (Done j) by (symmetry; apply height_ok; lia). run.
  replace (Z.shiftl 1 (j - 1)) with (2 ^ (j - 1)) by (rewrite Z.shiftl_mul_pow2; lia).
  assert (Hl : node - 2 ^ (j - 1) = 2 ^ (j - 1) * (2 * (2 * k) + 1)) by (rewrite Hnode; ring).
  assert (Hr : node + 2 ^ (j - 1) = 2 ^ (j - 1) * (2 * (2 * k + 1) + 1)) by (rewrite Hnode; ring).
  rewrite (rd_total W) by nia. run.
  pose proof (tree_point (crush_hash32_4 (b_hash b) x node r (b_id b)) (W !!! Z.to_nat node)
    (hash4_range _ _ _ _ _) (HW node ltac:(nia)) Hpos) as Ht. revert Ht. generalize (Z.shiftr (u64 (crush_hash32_4 (b_hash b) x node r (b_id b) * W !!! Z.to_nat node)) 32).
  intros t Ht. pose proof (HW (node - 2 ^ (j - 1)) ltac:(nia)). destruct (Z.ltb_spec t (W !!! Z.to_nat (node - 2 ^ (j - 1)))) as [Hlt2|Hge]; run.
  - rewrite Hl. apply IH; [lia|lia|lia|rewrite <- Hl; nia|rewrite <- Hl; lia].
  - rewrite Hr. apply IH; [lia|lia|lia|rewrite <- Hr; nia|rewrite <- Hr; lia].
Qed.

Lemma tree_choose_ok b nn W x r : bucket_ok b -> tree_ok (b_size b) nn W -> chooses b (bucket_tree_choose b nn W x r).
Proof.
  intros Hb (h & Hh & Hn & Hw & Hroot & Hz). unfold bucket_tree_choose.
  assert (Hstart : Z.shiftr nn 1 = 2 ^ (h - 1) * (2 * 0 + 1)).
  { rewrite Z.shiftr_div_pow2, Hn, (pow_half h), Z.mul_comm, Z.pow_1_r, Z.div_mul by lia. ring. }
  rewrite Hstart. destruct (tree_loop_ok b nn W x r Hw height_fuel (h - 1) 0)
    as (i & -> & Hi & Hi2 & Hpos); [lia|unfold height_fuel; lia|lia| | |].
  - rewrite Hn, (pow_half h) by lia. lia.
  - by rewrite Z.mul_0_r, Z.add_0_l, Z.mul_1_r.
  - run. rewrite Z.shiftr_div_pow2, Z.pow_1_r by lia.
    replace ((2 * i + 1) / 2) with i by (apply Z.div_unique with 1; lia).
    apply chooses_rd; [done|]. split; [done|]. destruct (decide (i < b_size b)); [done|]. rewrite Hz in Hpos by lia. lia.
Qed.

(** ** Any bucket *)

(** The item of a choice as a function of the input. *)
Definition choice (b : crush_bucket) (x r : Z) (arg : option crush_choose_arg) (position : Z) : outcome Z :=
  match b_body b with
  | Uniform _ => need (perm_item b x r)
  | BList item_weights sum_weights => bucket_list_choose b item_weights sum_weights x r
  | Tree num_nodes node_weights => bucket_tree_choose b num_nodes node_weights x r
  | Straw _ straws => bucket_straw_choose b straws x r
  | Straw2 item_weights => bucket_straw2_choose b item_weights x r arg position
  | OtherAlg _ => need (rd (b_items b) 0)
  end.

Lemma perm_choose_in b w x r : bucket_ok b -> 0 < b_size b -> work_ok b w ->
  exists item w', bucket_perm_choose b w x r = Done (item, w') /\ need (perm_item b x r) = Done item /\
    item ∈ items_of b /\ work_ok b w'.
Proof.
  intros Hb Hs Hw. pose proof (ok_size b Hb). pose proof (ok_items b Hb) as Hi.
  destruct (perm_choose_ok b ltac:(lia) Hi w x r Hw) as (item & w' & E & Ep & Hw'). exists item, w'.
  rewrite E, Ep. split; [done|]. split; [done|]. split; [|done].
  destruct (perm_item_total b ltac:(lia) Hi x r) as (s & item' & E1 & E2 & Hin).
  unfold perm_item in Ep. rewrite E1 in Ep. cbn in Ep. rewrite E2 in Ep. congruence.
Qed.

Lemma bucket_choose_ok b w x r arg position : bucket_ok b -> 0 < b_size b -> option_arg_ok b arg -> 0 <= position ->
  work_ok b w ->
  exists item w', crush_bucket_choose b w x r arg position = Done (item, w') /\ choice b x r arg position = Done item /\
    item ∈ items_of b /\ work_ok b w'.
Proof.
  intros Hb Hs Ha Hp Hw. pose proof (ok_body b Hb Hs) as Hbody.
  assert (Hsame : forall c, chooses b c -> exists item w', (i ← c; Done (i, w)) = Done (item, w') /\ c = Done item /\
      item ∈ items_of b /\ work_ok b w').
  { intros c (item & -> & Hin). exists item, w. done. }
  unfold crush_bucket_choose, choice. rewrite (proj2 (Z.eqb_neq _ _)) by lia.
  destruct (b_body b) as [iw|iw sw|nn W|iw straws|iw|alg]; cbn in Hbody.
  - by apply perm_choose_in.
  - apply Hsame. destruct Hbody. by apply list_choose_ok.
  - apply Hsame. by apply tree_choose_ok.
  - apply Hsame. by apply straw_choose_ok.
  - apply Hsame. destruct Hbody as [Hl Hu].
    destruct (straw2_choose_max b iw x r arg position) as (h & -> & [Hh _]); [done|done|lia|done..|].
    eexists. split; [done|]. apply (rd_item_in b h); [lia|]. apply rd_total. pose proof (ok_items b Hb). lia.
  - apply Hsame. apply chooses_rd; [done|lia].
Qed.
