(* ===== verification/CrStraw2.v ===== *)
(** * Data movement (mapper.c: the straw2 and list buckets)

    The properties for which these buckets exist: after a change of weight only
    the items that have to move do, and an item without weight gets nothing. *)
From S2P Require Import Prelude CrHash CrBucket CrPerm CrChoose.

(** ** Draws *)

Lemma quot_neg a d : 0 < d -> Z.quot a d = - Z.quot (- a) d.
Proof. intros Hd. rewrite Z.quot_opp_l by lia. lia. Qed.

Lemma quot_neg_le a d : a <= 0 -> 0 < d -> Z.quot a d <= 0.
Proof.
  intros Ha Hd. rewrite quot_neg, Z.quot_div_nonneg by lia. pose proof (Z.div_pos (- a) d). lia.
Qed.

Lemma quot_neg_mono a p q : a <= 0 -> 0 < p <= q -> Z.quot a p <= Z.quot a q.
Proof.
  intros Ha Hpq. rewrite (quot_neg a p), (quot_neg a q), !Z.quot_div_nonneg by lia.
  pose proof (Z.div_le_compat_l (- a) p q). lia.
Qed.

Lemma draw2_low b x r w id : 0 <= w < 2 ^ 32 -> w <> 0 -> S64_MIN < draw2 b x r w id.
Proof.
  intros Hw H0. unfold draw2. rewrite (proj2 (Z.eqb_neq w 0)) by done.
  destruct (straw2_ln_spec b x id r) as [_ Hl]. pose proof (s32_nonzero w ltac:(lia)) as Hs. unfold S64_MIN.
  pose proof (Z.quot_abs (straw2_ln b x id r) (s32 w) Hs) as Hq.
  rewrite Z.quot_div_nonneg in Hq by lia. pose proof (Z.div_le_upper_bound (Z.abs (straw2_ln b x id r)) (Z.abs (s32 w)) (2 ^ 48) ltac:(lia) ltac:(nia)).
  lia.
Qed.

(** More weight, a larger draw. *)
Lemma draw2_mono b x r w w' id : 0 <= w <= w' -> w' < 2 ^ 31 -> draw2 b x r w id <= draw2 b x r w' id.
Proof.
  intros Hw Hw'. destruct (Z.eqb_spec w 0) as [->|H0].
  { destruct (Z.eqb_spec w' 0) as [->|H0]; [lia|]. pose proof (draw2_low b x r w' id ltac:(lia) H0). cbn [draw2]. unfold draw2 at 1. cbn [Z.eqb]. lia. }
  unfold draw2. rewrite !(proj2 (Z.eqb_neq _ 0)), !s32_small by lia.
  destruct (straw2_ln_spec b x id r) as [_ Hl]. apply quot_neg_mono; lia.
Qed.

(** Raising one draw moves the maximum nowhere else. *)
Lemma first_max_raise d d' n j h h' : (forall k, 0 <= k < n -> k <> j -> d' k = d k) -> (0 <= j < n -> d j <= d' j) ->
  first_max d n h -> first_max d' n h' -> h' = h \/ h' = j.
Proof.
  intros Hd Hj Hh Hh'. destruct (decide (h' = j)) as [|Hne]; [by right|left].
  apply (first_max_unique d n); [|done]. destruct Hh' as [Hr Hmax]. split; [done|]. intros k Hk.
  destruct (Hmax k Hk) as [Hle Hlt]. rewrite (Hd h') in Hle, Hlt by done.
  destruct (decide (k = j)) as [->|Hk']; [|by rewrite (Hd k) in Hle, Hlt].
  specialize (Hj Hk). split; [lia|]. intros Hkh. specialize (Hlt Hkh). lia.
Qed.

(** ** Straw2 *)

(** C24: Straw2 buckets move no more data than needed: when the weight of one item
    grows, every input either keeps its item or moves to that one item (read
    backwards: when it shrinks, only inputs on that item move). *)
Theorem straw2_optimal_movement b w1 w2 j x r position : bucket_ok b -> 0 < b_size b ->
  Z.of_nat (length w1) = b_size b -> Z.of_nat (length w2) = b_size b -> u32s w1 -> u32s w2 -> 0 <= position ->
  (forall k, k <> j -> rd w2 k = rd w1 k) -> (forall a a', rd w1 j = Some a -> rd w2 j = Some a' -> a <= a' < 2 ^ 31) ->
  exists item1 item2, bucket_straw2_choose b w1 x r None position = Done item1 /\
    bucket_straw2_choose b w2 x r None position = Done item2 /\ (item2 = item1 \/ rd (b_items b) j = Some item2).
Proof.
  intros Hb Hs L1 L2 U1 U2 Hp Hsame Hj. pose proof (ok_items b Hb) as Hi.
  destruct (straw2_choose_max b w1 x r None position) as (h & E1 & Hh); [done|done|lia|done|done|done|].
  destruct (straw2_choose_max b w2 x r None position) as (h' & E2 & Hh'); [done|done|lia|done|done|done|].
  rewrite E1, E2. do 2 eexists. split; [done|]. split; [done|].
  assert (Hcase : h' = h \/ h' = j); [|destruct Hcase as [->| ->]; [by left|right]].
  2: { rewrite (rd_total (b_items b)) by (destruct Hh'; lia). done. }
  eapply first_max_raise; [..|exact Hh|exact Hh'].
  - intros k Hk Hkj. cbn [weights_of mbind option_bind]. specialize (Hsame k Hkj).
    rewrite !rd_total in Hsame by lia. injection Hsame as ->. done.
  - intros Hjr. cbn [weights_of mbind option_bind]. specialize (Hj (w1 !!! Z.to_nat j) (w2 !!! Z.to_nat j)).
    rewrite !rd_total in Hj by lia. specialize (Hj eq_refl eq_refl). apply draw2_mono; [|lia].
    split; [|lia]. apply (Forall_lookup_total_1 _ _ (Z.to_nat j)) in U1; [cbn in U1; lia|lia].
Qed.

(** A straw2 bucket chooses an item of weight 0 only when all its items have weight 0. *)
Theorem straw2_zero_weight b ws x r position k w : bucket_ok b -> Z.of_nat (length ws) = b_size b -> u32s ws -> 0 <= position ->
  rd ws k = Some w -> w <> 0 ->
  exists h w', bucket_straw2_choose b ws x r None position = Done (b_items b !!! Z.to_nat h) /\
    0 <= h < b_size b /\ rd ws h = Some w' /\ w' <> 0.
Proof.
  intros Hb L U Hp Hk Hw. assert (Hkr : 0 <= k < b_size b).
  { unfold rd in Hk. destruct (Z.leb_spec 0 k); [|done]. apply lookup_lt_Some in Hk. lia. }
  destruct (straw2_choose_max b ws x r None position) as (h & E & Hr & Hmax); [done|lia|lia|done|done|done|].
  exists h, (ws !!! Z.to_nat h). split; [done|]. split; [done|]. rewrite (rd_total ws) by lia. split; [done|].
  intros H0. destruct (Hmax k Hkr) as [Hle _]. cbn [weights_of mbind option_bind] in Hle. rewrite H0 in Hle.
  rewrite (rd_total ws) in Hk by lia. injection Hk as Hk. rewrite Hk in Hle.
  pose proof (Forall_lookup_total_1 _ _ (Z.to_nat k) U ltac:(lia)) as Hu. cbn in Hu. rewrite Hk in Hu.
  pose proof (draw2_low b x r w (get_choose_arg_ids b None !!! Z.to_nat k) ltac:(lia) Hw) as Hlow.
  unfold draw2 at 2 in Hle. cbn [Z.eqb] in Hle. lia.
Qed.

(** The weight of an item is passed on as an int: an item of weight 2^31 or more
    (32768.0 in the 16.16 format) that comes first in a straw2 bucket is chosen for
    every input, whatever the other weights below 2^31 are. *)
Theorem straw2_heavy_takes_all b w0 ws x r position : bucket_ok b -> Z.of_nat (length (w0 :: ws)) = b_size b ->
  2 ^ 31 <= w0 < 2 ^ 32 -> Forall (fun w => 0 <= w < 2 ^ 31) ws -> 0 <= position ->
  bucket_straw2_choose b (w0 :: ws) x r None position = Done (b_items b !!! 0%nat).
Proof.
  intros Hb L Hw0 Hws Hp. assert (U : u32s (w0 :: ws)).
  { constructor; [lia|]. eapply Forall_impl; [exact Hws|]. cbn. intros. lia. }
  cbn [length] in L. destruct (straw2_choose_max b (w0 :: ws) x r None position) as (h & E & Hh); [done|lia|cbn [length]; lia|done|done|done|].
  rewrite E. replace h with 0; [done|]. eapply first_max_unique; [|exact Hh]. split; [lia|]. intros j Hj. split; [|lia]. cbn [weights_of mbind option_bind Z.to_nat].
  assert (H0 : 0 <= draw2 b x r w0 (get_choose_arg_ids b None !!! 0%nat)).
  { unfold draw2. rewrite (proj2 (Z.eqb_neq w0 0)) by lia. destruct (straw2_ln_spec b x (get_choose_arg_ids b None !!! 0%nat) r) as [_ Hl].
    replace (s32 w0) with (- (2 ^ 32 - w0)).
    - rewrite Z.quot_opp_r by lia. pose proof (quot_neg_le (straw2_ln b x (get_choose_arg_ids b None !!! 0%nat) r) (2 ^ 32 - w0)). lia.
    - unfold s32. replace (w0 + 2 ^ 31) with (w0 - 2 ^ 31 + 1 * 2 ^ 32) by lia. rewrite Z.mod_add, Z.mod_small by lia. lia. }
  destruct (decide (j = 0)) as [->|Hne]; [done|]. replace (Z.to_nat j) with (S (Z.to_nat (j - 1))) by lia.
  change ((w0 :: ws) !!! S (Z.to_nat (j - 1))) with (ws !!! Z.to_nat (j - 1)). apply Z.le_trans with 0; [|done].
  pose proof (Forall_lookup_total_1 _ _ (Z.to_nat (j - 1)) Hws ltac:(lia)) as Hu. cbn in Hu.
  unfold draw2. destruct (Z.eqb_spec (ws !!! Z.to_nat (j - 1)) 0) as [|Hz]; [unfold S64_MIN; lia|]. rewrite s32_small by lia.
  destruct (straw2_ln_spec b x (get_choose_arg_ids b None !!! S (Z.to_nat (j - 1))) r) as [_ Hl].
  apply quot_neg_le; lia.
Qed.

(** A bucket of two items. *)
Definition two : crush_bucket := mkbucket (-1) 1 0 0x30000 2 [10; 11] (Straw2 [0x10000; 0x20000]).

Lemma two_ok : bucket_ok two.
Proof. split; [cbn; lia|done|]. intros _. split; [done|]. repeat constructor; lia. Qed.

Lemma straw2_optimal_movement_witness : exists item1 item2,
  bucket_straw2_choose two [0x10000; 0x20000] 7 0 None 0 = Done item1 /\
  bucket_straw2_choose two [0x10000; 0x30000] 7 0 None 0 = Done item2 /\ (item2 = item1 \/ rd (b_items two) 1 = Some item2).
Proof.
  apply (straw2_optimal_movement two _ _ 1 7 0 0 two_ok); try (cbn; lia); try (repeat constructor; lia).
  - intros k Hk. unfold rd. destruct (Z.leb_spec 0 k); [|done]. destruct (Z.to_nat k) as [|[|n]] eqn:E; [done|lia|done].
  - intros a a' [= <-] [= <-]. lia.
Defined.

Lemma straw2_zero_weight_witness : exists h w',
  bucket_straw2_choose two [0; 0x20000] 7 0 None 0 = Done (b_items two !!! Z.to_nat h) /\
  0 <= h < 2 /\ rd [0; 0x20000] h = Some w' /\ w' <> 0.
Proof.
  apply (straw2_zero_weight two [0; 0x20000] 7 0 0 1 0x20000 two_ok); try done; repeat constructor; lia.
Defined.

Lemma straw2_heavy_takes_all_witness : bucket_straw2_choose two [0x80000000; 0x7fffffff] 7 0 None 0 = Done 10.
Proof.
  apply (straw2_heavy_takes_all two 0x80000000 [0x7fffffff] 7 0 0 two_ok); try done; repeat constructor; lia.
Defined.

(** ** Lists *)

(** The loop looks at nothing beyond its first [n] items. *)
Lemma list_loop_prefix b b' iw sw a c d x r n : b_hash b' = b_hash b -> b_id b' = b_id b ->
  b_items b' = b_items b ++ a -> (n <= length (b_items b))%nat -> length iw = length (b_items b) -> length sw = length (b_items b) ->
  (0 < length (b_items b))%nat ->
  list_choose_loop b' (iw ++ c) (sw ++ d) x r n = list_choose_loop b iw sw x r n.
Proof.
  intros Hh Hid Hit Hn Hi Hs H0. induction n as [|n IH]; cbn [list_choose_loop].
  - change 0 with (Z.of_nat 0). rewrite !rd_lookup, Hit, lookup_app_l by done. done.
  - rewrite Hh, Hid, Hit, !rd_lookup, !lookup_app_l by lia. rewrite IH by lia. done.
Qed.

(** List buckets suit clusters that grow: when an item is added, every input moves
    to the new item or keeps the item it had. *)
Theorem list_growth b b' iw sw item w s x r : bucket_ok b -> bucket_ok b' -> 0 < b_size b ->
  Z.of_nat (length (b_items b)) = b_size b -> b_size b' = b_size b + 1 ->
  Z.of_nat (length iw) = b_size b -> Z.of_nat (length sw) = b_size b ->
  b_hash b' = b_hash b -> b_id b' = b_id b -> b_items b' = b_items b ++ [item] ->
  bucket_list_choose b' (iw ++ [w]) (sw ++ [s]) x r = Done item \/
  bucket_list_choose b' (iw ++ [w]) (sw ++ [s]) x r = bucket_list_choose b iw sw x r.
Proof.
  intros Hb Hb' H0 Hl Hl' Hi Hs Hh Hid Hit. pose proof (ok_size b Hb). pose proof (ok_size b' Hb').
  unfold bucket_list_choose. rewrite !s32_small by lia. replace (Z.to_nat (b_size b')) with (S (Z.to_nat (b_size b))) by lia.
  cbn [list_choose_loop]. rewrite Hit, !rd_app by lia. run.
  destruct (_ <? w); [by left|right]. apply (list_loop_prefix b b' iw sw [item]); done || lia.
Qed.

Lemma list_growth_witness :
  let b := mkbucket (-1) 1 0 0x30000 2 [10; 11] (BList [0x10000; 0x20000] [0x10000; 0x30000]) in
  let b' := mkbucket (-1) 1 0 0x40000 3 [10; 11; 12] (BList [0x10000; 0x20000; 0x10000] [0x10000; 0x30000; 0x40000]) in
  bucket_list_choose b' [0x10000; 0x20000; 0x10000] [0x10000; 0x30000; 0x40000] 7 0 = Done 12 \/
  bucket_list_choose b' [0x10000; 0x20000; 0x10000] [0x10000; 0x30000; 0x40000] 7 0 =
  bucket_list_choose b [0x10000; 0x20000] [0x10000; 0x30000] 7 0.
Proof.
  cbv zeta. apply (list_growth _ _ [0x10000; 0x20000] [0x10000; 0x30000] 12 0x10000 0x40000 7 0); done.
Defined.

(** ** Trees *)

Lemma tree_zero_step b W x r fuel n l n' : terminal n = false -> rd W n = Some 0 -> tree_left n = Done l ->
  rd W l = Some 0 -> tree_right n = Done n' -> tree_choose_loop (S fuel) b W x r n = tree_choose_loop fuel b W x r n'.
Proof. intros Ht Hn Hl Hw Hr. cbn [tree_choose_loop]. rewrite Ht, Hn. run. rewrite Hl. run. rewrite Hw. run. by rewrite Z.mul_0_r, Hr. Qed.

(** In a tree bucket whose weights are all 0 the descent always turns right; with
    three items it ends at the fourth leaf, and the item is read behind the end of
    the array, for every input. *)
Theorem tree_without_weight x r :
  bucket_tree_choose (mkbucket (-1) 1 0 0 3 [10; 11; 12] (Tree 8 (repeat 0 8))) 8 (repeat 0 8) x r = Fault.
Proof.
  unfold bucket_tree_choose, height_fuel. change (Z.shiftr 8 1) with 4.
  rewrite (tree_zero_step _ _ _ _ _ 4 2 6), (tree_zero_step _ _ _ _ _ 6 5 7) by reflexivity. reflexivity.
Qed.
