(* ===== verification/CrMap.v ===== *)
(** * Well-formed maps and states; runs that agree (ceph/src/crush)

    A map is well formed when every bucket is, when the buckets that items name
    exist, and when no bucket contains itself, however deep.  The theorems on
    the mapper compare two runs from two well-formed working areas: both
    return, with the same result. *)
From S2P Require Import Prelude CrHash CrBucket CrMapper CrPerm CrChoose.

(** ** Maps *)

Definition in_map (m : crush_map) (b : crush_bucket) : Prop := bucket_at m (b_id b) = Done b.

(** The largest size of a bucket. *)
Definition max_size (m : crush_map) : Z :=
  foldr Z.max 0 ((fun o : option crush_bucket => from_option b_size 0 o) <$> buckets m).

Record map_ok (m : crush_map) : Prop := {
  map_ids : forall i b, buckets m !! i = Some (Some b) -> b_id b = -1 - Z.of_nat i;
  map_buckets : forall b, in_map m b -> bucket_ok b /\ 0 < b_type b;
  map_items : forall b item, in_map m b -> item ∈ items_of b -> item < 0 -> exists c, bucket_at m item = Done c;
  map_rank : exists rank : Z -> nat, forall b, in_map m b -> (rank (b_id b) <= length (buckets m))%nat /\
    forall item, item ∈ items_of b -> item < 0 -> (rank item < rank (b_id b))%nat;
  map_devices : max_devices m <= CRUSH_ITEM_UNDEF }.

Lemma bucket_at_in m item b : map_ok m -> bucket_at m item = Done b -> b_id b = item /\ in_map m b /\ item < 0.
Proof.
  intros Hm Hb. unfold bucket_at, rd in Hb. destruct (Z.leb_spec 0 (-1 - item)); [|done].
  destruct (buckets m !! Z.to_nat (-1 - item)) as [[c|]|] eqn:E; cbn in Hb; try done. injection Hb as ->.
  pose proof (map_ids m Hm _ _ E) as Hid. assert (Hi : b_id b = item) by lia. split; [done|]. split; [|lia].
  unfold in_map, bucket_at, rd. rewrite Hi, (proj2 (Z.leb_le 0 (-1 - item))) by lia. by rewrite E.
Qed.

Lemma in_map_lookup m b : in_map m b -> 0 <= -1 - b_id b < max_buckets m /\ buckets m !! Z.to_nat (-1 - b_id b) = Some (Some b).
Proof.
  unfold in_map, bucket_at, rd, max_buckets. intros Hb. destruct (Z.leb_spec 0 (-1 - b_id b)); [|done].
  destruct (buckets m !! Z.to_nat (-1 - b_id b)) as [[c|]|] eqn:E; cbn in Hb; try done. injection Hb as ->.
  split; [|done]. apply lookup_lt_Some in E. lia.
Qed.

Lemma max_size_le m b : in_map m b -> b_size b <= max_size m.
Proof.
  intros Hb. destruct (in_map_lookup m b Hb) as [_ Hl]. unfold max_size. revert Hl.
  generalize (Z.to_nat (-1 - b_id b)). induction (buckets m) as [|o l IH]; intros i; [done|].
  destruct i; cbn; [intros [= ->]; cbn; lia|]. intros H. specialize (IH _ H). cbn in IH. lia.
Qed.

Lemma max_size_nonneg m : 0 <= max_size m.
Proof. unfold max_size. induction (buckets m); cbn; lia. Qed.

(** ** States *)

Record state_ok (m : crush_map) (s : state) : Prop := {
  st_work : forall b, in_map m b -> exists w, work_at s (b_id b) = Done w /\ work_ok b w;
  st_len : length (work s) = length (buckets m);
  st_profile : forall h, profile s = Some h -> Z.of_nat (length h) = choose_total_tries m + 1 }.

Lemma work_at_lookup s id w : work_at s id = Done w -> 0 <= -1 - id /\ work s !! Z.to_nat (-1 - id) = Some (Some w).
Proof.
  unfold work_at, rd. destruct (Z.leb_spec 0 (-1 - id)); [|done].
  destruct (work s !! Z.to_nat (-1 - id)) as [[c|]|] eqn:E; cbn; try done. by intros [= ->].
Qed.

Lemma set_work_ok m s b w : map_ok m -> state_ok m s -> in_map m b -> work_ok b w ->
  exists s', set_work s (b_id b) w = Done s' /\ state_ok m s'.
Proof.
  intros Hm Hs Hb Hw. destruct (in_map_lookup m b Hb) as [Hr Hl]. unfold max_buckets in Hr.
  unfold set_work. rewrite wr_Some by (rewrite (st_len m s Hs); lia). run. eexists. split; [done|]. split; cbn.
  - intros c Hc. destruct (in_map_lookup m c Hc) as [Hrc Hlc]. unfold work_at, rd. cbn.
    rewrite (proj2 (Z.leb_le 0 _)) by lia. destruct (decide (Z.to_nat (-1 - b_id c) = Z.to_nat (-1 - b_id b))) as [E|E].
    + rewrite E, list_lookup_insert_eq by (rewrite (st_len m s Hs); lia). exists w. split; [done|].
      rewrite E in Hlc. rewrite Hlc in Hl. by injection Hl as ->.
    + rewrite list_lookup_insert_ne by done. destruct (st_work m s Hs c Hc) as (v & Hv & Hok).
      apply work_at_lookup in Hv. destruct Hv as [_ ->]. by exists v.
  - rewrite length_insert. apply (st_len m s Hs).
  - apply (st_profile m s Hs).
Qed.

Lemma count_tries_ok m ftotal s : state_ok m s -> 0 <= ftotal -> exists s', count_tries m ftotal s = Done s' /\ state_ok m s'.
Proof.
  intros Hs Hf. unfold count_tries. destruct (profile s) as [h|] eqn:Ep; [|by exists s].
  pose proof (st_profile m s Hs h Ep) as Hl. destruct (Z.leb_spec ftotal (choose_total_tries m)); [|by exists s].
  destruct (rd_Some h ftotal) as (n & -> & _); [lia|]. run. rewrite wr_Some by lia. run. eexists. split; [done|].
  split; cbn; [apply Hs|apply Hs|]. intros h' [= <-]. by rewrite length_insert.
Qed.

(** ** Two runs *)

(** Both return, with the same result, which satisfies [P], in well-formed states. *)
Definition agree {A} (m : crush_map) (P : A -> Prop) (r1 r2 : outcome (A * state)) : Prop :=
  exists a s1 s2, r1 = Done (a, s1) /\ r2 = Done (a, s2) /\ P a /\ state_ok m s1 /\ state_ok m s2.

Section Agree.
Context (m : crush_map).

Lemma agree_done {A} (P : A -> Prop) a s1 s2 : P a -> state_ok m s1 -> state_ok m s2 ->
  agree m P (Done (a, s1)) (Done (a, s2)).
Proof. intros. by exists a, s1, s2. Qed.

Lemma agree_bind {A B} (P : A -> Prop) (Q : B -> Prop) r1 r2 (f1 f2 : A * state -> outcome (B * state)) :
  agree m P r1 r2 ->
  (forall a s1 s2, P a -> state_ok m s1 -> state_ok m s2 -> agree m Q (f1 (a, s1)) (f2 (a, s2))) ->
  agree m Q (r1 ≫= f1) (r2 ≫= f2).
Proof. intros (a & s1 & s2 & -> & -> & Ha & H1 & H2) H. by apply H. Qed.

Lemma agree_mono {A} (P Q : A -> Prop) r1 r2 : agree m P r1 r2 -> (forall a, P a -> Q a) -> agree m Q r1 r2.
Proof. intros (a & s1 & s2 & -> & -> & Ha & H1 & H2) H. exists a, s1, s2. auto. Qed.

End Agree.

(** ** Items *)

(** The items at any depth below a bucket. *)
Inductive below (m : crush_map) : crush_bucket -> Z -> Prop :=
  | below_here b item : item ∈ items_of b -> below m b item
  | below_down b c item : b_id c ∈ items_of b -> in_map m c -> below m c item -> below m b item.

Definition type_of (m : crush_map) (item : Z) : Z :=
  match item_type m item with Done t => t | _ => 0 end.

(** The item exists: a device number, or a bucket of the map. *)
Definition exists_item (m : crush_map) (item : Z) : Prop := 0 <= item \/ exists c, bucket_at m item = Done c.

Lemma item_type_ok m item : exists_item m item -> item_type m item = Done (type_of m item).
Proof.
  intros H. unfold type_of. unfold item_type. destruct (Z.ltb_spec item 0) as [Hn|]; [|done].
  destruct H as [|[c ->]]; [lia|]. done.
Qed.

Lemma type_of_zero m item : map_ok m -> exists_item m item -> (type_of m item = 0 <-> 0 <= item).
Proof.
  intros Hm H. unfold type_of, item_type. destruct (Z.ltb_spec item 0) as [Hn|]; [|done].
  destruct H as [|[c Hc]]; [lia|]. rewrite Hc. run. destruct (bucket_at_in m item c Hm Hc) as (_ & Hin & _).
  destruct (map_buckets m Hm c Hin). split; lia.
Qed.

Lemma items_exist m b item : map_ok m -> in_map m b -> item ∈ items_of b -> exists_item m item.
Proof.
  intros Hm Hb Hi. destruct (decide (item < 0)); [right; by apply (map_items m Hm b)|left; lia].
Qed.

Section Items.
Context (m : crush_map) (weight : list Z) (x : Z) (choose_args : option (list crush_choose_arg)).
Context (Hm : map_ok m).
Context (Hargs : forall args b, choose_args = Some args -> in_map m b ->
           exists a, rd args (-1 - b_id b) = Some a /\ arg_ok b a).

Lemma choose_in_agree fallback b r outpos s1 s2 : in_map m b -> 0 < b_size b -> 0 <= outpos ->
  state_ok m s1 -> state_ok m s2 ->
  agree m (fun item => item ∈ items_of b) (choose_in x choose_args fallback b r outpos s1)
    (choose_in x choose_args fallback b r outpos s2).
Proof.
  intros Hb Hsz Ho H1 H2. destruct (map_buckets m Hm b Hb) as [Hok _]. unfold choose_in.
  destruct (st_work m s1 H1 b Hb) as (w1 & -> & Hw1), (st_work m s2 H2 b Hb) as (w2 & -> & Hw2). run.
  assert (Hc : exists item w1' w2', item ∈ items_of b /\ work_ok b w1' /\ work_ok b w2' /\ forall w w', (w = w1 /\ w' = w1' \/ w = w2 /\ w' = w2') ->
    (if fallback then bucket_perm_choose b w x r
     else arg ← match choose_args with
                | None => Done None
                | Some args => a ← need (rd args (-1 - b_id b)); Done (Some a)
                end; crush_bucket_choose b w x r arg outpos) = Done (item, w')).
  { destruct fallback.
    - destruct (perm_choose_in b w1 x r) as (i1 & w1' & E1 & P1 & Hin & Hk1); [done..|].
      destruct (perm_choose_in b w2 x r) as (i2 & w2' & E2 & P2 & _ & Hk2); [done..|].
      assert (i2 = i1) as -> by congruence. exists i1, w1', w2'. naive_solver.
    - assert (Harg : exists arg, option_arg_ok b arg /\ match choose_args with
                | None => Done None
                | Some args => a ← need (rd args (-1 - b_id b)); Done (Some a)
                end = Done arg).
      { destruct choose_args as [args|] eqn:Ea; [|by exists None]. destruct (Hargs args b eq_refl Hb) as (a & -> & Ha). by exists (Some a). }
      destruct Harg as (arg & Harg & Earg).
      destruct (bucket_choose_ok b w1 x r arg outpos) as (i1 & w1' & E1 & P1 & Hin & Hk1); [done..|].
      destruct (bucket_choose_ok b w2 x r arg outpos) as (i2 & w2' & E2 & P2 & _ & Hk2); [done..|].
      assert (i2 = i1) as -> by congruence. exists i1, w1', w2'. do 3 (split; [done|]).
      intros w w' Hw. rewrite Earg. run. naive_solver. }
  destruct Hc as (item & w1' & w2' & Hin & Hk1 & Hk2 & Hrun).
  rewrite (Hrun w1 w1'), (Hrun w2 w2') by auto. run.
  destruct (set_work_ok m s1 b w1') as (s1' & -> & Hs1'); [done..|]. destruct (set_work_ok m s2 b w2') as (s2' & -> & Hs2'); [done..|].
  run. by apply agree_done.
Qed.

(** Whether a device is out. *)
Definition out_b (item : Z) : bool := match is_out weight x item with Done o => o | _ => true end.

Lemma is_out_ok item : 0 <= item -> is_out weight x item = Done (out_b item).
Proof.
  intros Hi. unfold out_b. unfold is_out. destruct (Z.leb_spec (Z.of_nat (length weight)) item); [done|].
  destruct (rd_Some weight item) as (w & -> & _); [lia|]. run. by repeat case_match.
Qed.

(** A choice of type [type] below [b]: a device has to be in. *)
Record chosen (b : crush_bucket) (type item : Z) : Prop := {
  ch_below : below m b item;
  ch_exists : exists_item m item;
  ch_type : type_of m item = type;
  ch_device : item < max_devices m;
  ch_in : type = 0 -> out_b item = false }.

Lemma chosen_down b c type item : b_id c ∈ items_of b -> in_map m c -> chosen c type item -> chosen b type item.
Proof. intros Hb Hc [? ? ? ? ?]. split; [|done..]. by apply (below_down m b c). Qed.

Lemma chosen_sign b type item : chosen b type item -> (item <? 0) = negb (type =? 0).
Proof.
  intros [? He Ht ? ?]. pose proof (type_of_zero m item Hm He) as Hz. rewrite Ht in Hz.
  destruct (Z.ltb_spec item 0), (Z.eqb_spec type 0); try done; lia.
Qed.
End Items.
