(* ===== verification/CrFirstn.v ===== *)
(** * Choosing the first n (mapper.c: crush_choose_firstn)

    The loops end, and every item of the result has the type that was asked
    for, lies below the bucket, is not out, and is different from the items
    before it; with [recurse_to_leaf] the same holds for the leaves. *)
From S2P Require Import Prelude CrHash CrBucket CrMapper CrPerm CrChoose CrMap.

(** ** Prefixes *)

Lemma take_le {A} (j k : Z) (o o' : list A) : 0 <= j <= k ->
  take (Z.to_nat k) o = take (Z.to_nat k) o' -> take (Z.to_nat j) o = take (Z.to_nat j) o'.
Proof.
  intros Hj H. rewrite <- (Nat.min_l (Z.to_nat j) (Z.to_nat k)), <- !take_take, H by lia. done.
Qed.

Lemma take_rd {A} (j k : Z) (o o' : list A) : j < k ->
  take (Z.to_nat k) o = take (Z.to_nat k) o' -> rd o j = rd o' j.
Proof.
  intros Hj H. unfold rd. destruct (Z.leb_spec 0 j); [|done].
  rewrite <- (lookup_take_lt o (Z.to_nat k)), H, lookup_take_lt by lia. done.
Qed.

Lemma take_wr {A} (j k : Z) (o o' : list A) v : 0 <= j <= k -> wr o k v = Some o' -> take (Z.to_nat j) o' = take (Z.to_nat j) o.
Proof.
  unfold wr. intros Hj H. destruct ((0 <=? k) && (k <? Z.of_nat (length o))); [|done]. injection H as <-.
  by rewrite take_insert_ge by lia.
Qed.

Section Firstn.
Context (m : crush_map) (weight : list Z) (x : Z) (choose_args : option (list crush_choose_arg)).
Context (Hm : map_ok m).
Context (Hargs : forall args b, choose_args = Some args -> in_map m b ->
           exists a, rd args (-1 - b_id b) = Some a /\ arg_ok b a).

Local Abbreviation chosen := (chosen m weight x).

(** The leaf that goes with an item. *)
Definition leaf_of (item leaf : Z) (before : list Z) : Prop :=
  if item <? 0 then exists c, bucket_at m item = Done c /\ chosen c 0 leaf /\ leaf ∉ before else leaf = item.

Definition leaf_post (c : crush_bucket) (out2 : list Z) (outpos : Z) (a : Z * list Z) : Prop :=
  length a.2 = length out2 /\ take (Z.to_nat outpos) a.2 = take (Z.to_nat outpos) out2 /\
  (a.1 <= outpos \/ exists leaf, rd a.2 outpos = Some leaf /\ chosen c 0 leaf /\ leaf ∉ take (Z.to_nat outpos) out2).

Section Call.
Context (bucket : crush_bucket) (type tries local_retries local_fallback_retries : Z)
        (recurse_to_leaf : bool) (vary_r parent_r : Z)
        (leaf : crush_bucket -> list Z -> Z -> Z -> Z -> state -> outcome (Z * list Z * state)).
Context (Hbucket : in_map m bucket).
Context (Htries : 0 <= tries) (Hlr : 0 <= local_retries) (Hfb : 0 <= local_fallback_retries).

Local Abbreviation L := (local_retries + local_fallback_retries + max_size m).

Context (Hbound : tries + L + 2 < 2 ^ 32).
Context (Hvary : recurse_to_leaf = true -> 0 <= vary_r <= 32).
Context (Hleaf : recurse_to_leaf = true -> forall c out2 outpos count sub_r s1 s2, in_map m c ->
  0 <= outpos -> 0 < count -> outpos + count <= Z.of_nat (length out2) -> state_ok m s1 -> state_ok m s2 ->
  agree m (leaf_post c out2 outpos) (leaf c out2 outpos count sub_r s1) (leaf c out2 outpos count sub_r s2)).

(** ** Counting failures *)

(** How many more failures there can be. *)
Definition failures (ftotal flocal : Z) : Z :=
  if ftotal <? tries then tries - ftotal + L + 1 else L + 1 - flocal.

Record counters (ftotal flocal : Z) : Prop := {
  ct_total : 0 <= ftotal;
  ct_local : 0 <= flocal <= ftotal;
  ct_left : 1 <= failures ftotal flocal;
  ct_sum : ftotal + failures ftotal flocal <= tries + L + 1 }.

Lemma counters_start : counters 0 0.
Proof.
  pose proof (max_size_nonneg m). split; [lia|lia| |]; unfold failures; destruct (Z.ltb_spec 0 tries); lia.
Qed.

Lemma after_failure_ok {R} (P : R -> R -> Prop) collide in_ ftotal flocal again1 again2 stop1 stop2 :
  in_map m in_ -> counters ftotal flocal ->
  (forall in' ft fl, counters ft fl -> failures ft fl + 1 <= failures ftotal flocal -> in' = in_ \/ in' = bucket ->
     P (again1 in' ft fl) (again2 in' ft fl)) -> P stop1 stop2 ->
  P (after_failure bucket tries local_retries local_fallback_retries collide in_ ftotal flocal again1 stop1)
    (after_failure bucket tries local_retries local_fallback_retries collide in_ ftotal flocal again2 stop2).
Proof.
  intros Hin [H1 H2 H3 H4] Hagain Hstop. unfold after_failure. cbv zeta. pose proof (max_size_le m in_ Hin) as Hsz.
  pose proof (max_size_nonneg m).
  assert (Hs0 : 0 <= b_size in_) by (destruct (map_buckets m Hm in_ Hin) as [[[? _] _ _] _]; done).
  rewrite (u32_small (ftotal + 1)), (u32_small (flocal + 1)) by lia.
  assert (Hsame : flocal + 1 <= L ->
    P (again1 in_ (ftotal + 1) (flocal + 1)) (again2 in_ (ftotal + 1) (flocal + 1))).
  { intros Hl. apply Hagain; [|unfold failures in *; destruct (Z.ltb_spec ftotal tries), (Z.ltb_spec (ftotal + 1) tries); lia|by left].
    split; [lia|lia| |]; unfold failures in *; destruct (Z.ltb_spec ftotal tries), (Z.ltb_spec (ftotal + 1) tries); lia. }
  destruct (collide && (flocal + 1 <=? local_retries)) eqn:E1.
  { apply andb_true_iff in E1. destruct E1 as [_ E1%Z.leb_le]. apply Hsame. lia. }
  destruct ((0 <? local_fallback_retries) && _) eqn:E2.
  { apply andb_true_iff in E2. destruct E2 as [_ E2%Z.leb_le]. apply Hsame.
    rewrite u32_small in E2 by lia. lia. }
  destruct (Z.ltb_spec (ftotal + 1) tries) as [E3|E3]; [|done].
  apply Hagain; [|unfold failures in *; destruct (Z.ltb_spec ftotal tries), (Z.ltb_spec (ftotal + 1) tries); lia|by right].
  split; [lia|lia| |]; unfold failures in *; destruct (Z.ltb_spec ftotal tries), (Z.ltb_spec (ftotal + 1) tries); lia.
Qed.

(** ** One replica *)

Definition found_post (outpos : Z) (out out2 : list Z) (a : option (Z * Z) * list Z) : Prop :=
  length a.2 = length out2 /\ take (Z.to_nat outpos) a.2 = take (Z.to_nat outpos) out2 /\
  match a.1 with
  | None => True
  | Some (item, ftotal) =>
      0 <= ftotal /\ chosen bucket type item /\ item ∉ take (Z.to_nat outpos) out /\
      (recurse_to_leaf = true -> exists lf, rd a.2 outpos = Some lf /\ leaf_of item lf (take (Z.to_nat outpos) out2))
  end.

Definition reject_post (item outpos : Z) (out2 : list Z) (a : bool * list Z) : Prop :=
  length a.2 = length out2 /\ take (Z.to_nat outpos) a.2 = take (Z.to_nat outpos) out2 /\
  (a.1 = false -> exists lf, rd a.2 outpos = Some lf /\ leaf_of item lf (take (Z.to_nat outpos) out2)).

Lemma try_leaf_agree item r outpos count out2 s1 s2 : recurse_to_leaf = true -> exists_item m item ->
  0 <= outpos -> 0 < count -> outpos + count <= Z.of_nat (length out2) -> state_ok m s1 -> state_ok m s2 ->
  agree m (reject_post item outpos out2) (try_leaf m vary_r leaf item r outpos count out2 s1)
    (try_leaf m vary_r leaf item r outpos count out2 s2).
Proof.
  intros Hrec He Ho Hc Hroom H1 H2. unfold try_leaf, reject_post, leaf_of. destruct (Z.ltb_spec item 0) as [Hn|Hn].
  - specialize (Hvary Hrec). rewrite (proj2 (Z.leb_gt 32 (vary_r - 1))) by lia. cbv zeta.
    destruct He as [|[c Hcb]]; [lia|]. rewrite Hcb. run. destruct (bucket_at_in m item c Hm Hcb) as (_ & Hin & _).
    eapply agree_bind; [by apply Hleaf|]. intros [n o2] t1 t2 (Hl & Ht & Hres) Ht1 Ht2. cbn [fst snd] in *.
    apply agree_done; [|done..]. cbn [fst snd]. split; [done|]. split; [done|]. intros Hle%Z.leb_gt.
    destruct Hres as [|(lf & Hrd & Hch & Hni)]; [lia|]. exists lf. split; [done|]. by exists c.
  - destruct (wr_spec out2 outpos item) as (o & E & Hl & Hrd); [lia|]. rewrite E. run. apply agree_done; [|done..].
    cbn [fst snd]. split; [done|]. split; [|intros _; exists item; split; [rewrite Hrd, decide_True by done; done|done]].
    rewrite wr_Some in E by lia. injection E as <-. by rewrite take_insert_ge by lia.
Qed.

Lemma existsb_in item (l : list Z) : existsb (Z.eqb item) l = true <-> item ∈ l.
Proof.
  rewrite existsb_exists. split.
  - intros (y & Hy & ->%Z.eqb_eq). by apply list_elem_of_In.
  - intros H. exists item. split; [by apply list_elem_of_In|apply Z.eqb_refl].
Qed.

Context (rank : Z -> nat) (Hrank : forall b, in_map m b -> (rank (b_id b) <= length (buckets m))%nat /\
    forall item, item ∈ items_of b -> item < 0 -> (rank item < rank (b_id b))%nat).

Local Abbreviation D := (max_buckets m).

(** Enough fuel in bucket [in_] with these counters. *)
Definition enough (fuel : nat) (in_ : crush_bucket) (ftotal flocal : Z) : Prop :=
  failures ftotal flocal * (D + 1) + Z.of_nat (rank (b_id in_)) + 1 <= Z.of_nat fuel.

Local Abbreviation attempt := (try_replica m weight x choose_args bucket type tries local_retries
  local_fallback_retries recurse_to_leaf vary_r parent_r leaf).
Local Abbreviation failed := (after_failure bucket tries local_retries local_fallback_retries).

Section Replica.
Context (rep outpos count : Z) (out : list Z) (Ho : 0 <= outpos) (Hcount : 0 < count).

(** The leaves before and after an attempt. *)
Definition same_leaves (out0 out2 : list Z) : Prop :=
  length out2 = length out0 /\ take (Z.to_nat outpos) out2 = take (Z.to_nat outpos) out0.

(** An attempt with this much fuel ends well, from any bucket and counters. *)
Definition attempt_ok (fuel : nat) : Prop := forall in_ ftotal flocal out0 out2 s1 s2,
  in_map m in_ -> (forall item, chosen in_ type item -> chosen bucket type item) ->
  counters ftotal flocal -> enough fuel in_ ftotal flocal ->
  (recurse_to_leaf = true -> outpos + count <= Z.of_nat (length out2)) -> same_leaves out0 out2 ->
  state_ok m s1 -> state_ok m s2 ->
  agree m (found_post outpos out out0) (attempt fuel rep outpos count out in_ ftotal flocal out2 s1)
    (attempt fuel rep outpos count out in_ ftotal flocal out2 s2).

Lemma stop_agree out0 o s1 s2 : same_leaves out0 o -> state_ok m s1 -> state_ok m s2 ->
  agree m (found_post outpos out out0) (Done (None, o, s1)) (Done (None, o, s2)).
Proof. intros [Hl Ht] H1 H2. by apply agree_done. Qed.

Lemma failed_agree fuel in_ ftotal flocal out0 : attempt_ok fuel ->
  in_map m in_ -> (forall item, chosen in_ type item -> chosen bucket type item) ->
  counters ftotal flocal -> enough (S fuel) in_ ftotal flocal ->
  (recurse_to_leaf = true -> outpos + count <= Z.of_nat (length out0)) ->
  forall collide o s1 s2, same_leaves out0 o -> state_ok m s1 -> state_ok m s2 ->
  agree m (found_post outpos out out0)
    (failed collide in_ ftotal flocal (fun in_ ftotal flocal => attempt fuel rep outpos count out in_ ftotal flocal o s1)
       (Done (None, o, s1)))
    (failed collide in_ ftotal flocal (fun in_ ftotal flocal => attempt fuel rep outpos count out in_ ftotal flocal o s2)
       (Done (None, o, s2))).
Proof.
  intros IH Hin Hup Hct Hen Hr2 collide o t1 t2 Hs Hs1 Hs2. apply after_failure_ok; [done|done| |by apply stop_agree].
  intros in' ft fl Hc Hf Hin'. pose proof (proj1 (Hrank bucket Hbucket)). unfold enough, max_buckets in *.
  apply IH; [by destruct Hin' as [->| ->]|by destruct Hin' as [->| ->]|done| |rewrite (proj1 Hs); done|done..].
  unfold enough, max_buckets. destruct Hin' as [->| ->]; nia.
Qed.

Lemma final_reject item reject collide : exists_item m item ->
  exists rj, (if negb reject && negb collide && (type_of m item =? 0) then is_out weight x item else Done reject) = Done rj /\
    (rj = false -> reject = false /\ (collide = false -> type_of m item = 0 -> out_b weight x item = false)).
Proof.
  intros He. destruct reject, collide; cbn [negb andb]; try (eexists; split; [done|]; naive_solver).
  destruct (Z.eqb_spec (type_of m item) 0) as [E0|]; [|eexists; split; [done|]; naive_solver].
  rewrite is_out_ok by exact (proj1 (type_of_zero m item Hm He) E0). eexists. split; [done|]. naive_solver.
Qed.

(** An item of the right type has been chosen in [in_]. *)
Lemma found_agree fuel in_ ftotal flocal out0 out2 item r s1 s2 : attempt_ok fuel ->
  in_map m in_ -> (forall i, chosen in_ type i -> chosen bucket type i) ->
  counters ftotal flocal -> enough (S fuel) in_ ftotal flocal ->
  (recurse_to_leaf = true -> outpos + count <= Z.of_nat (length out0)) -> same_leaves out0 out2 ->
  item ∈ items_of in_ -> item < max_devices m -> type_of m item = type -> state_ok m s1 -> state_ok m s2 ->
  let collide := existsb (Z.eqb item) (take (Z.to_nat outpos) out) in
  let go s :=
    '(reject, o, s) ← (if negb collide && recurse_to_leaf then try_leaf m vary_r leaf item r outpos count out2 s
                       else Done (false, out2, s));
    reject ← (if negb reject && negb collide && (type_of m item =? 0) then is_out weight x item else Done reject);
    if reject || collide
    then failed collide in_ ftotal flocal (fun in_ ftotal flocal => attempt fuel rep outpos count out in_ ftotal flocal o s)
           (Done (None, o, s))
    else Done (Some (item, ftotal), o, s) in
  agree m (found_post outpos out out0) (go s1) (go s2).
Proof.
  intros IH Hin Hup Hct Hen Hr2 [Hlen Htake] Hitem Hdev Ety H1 H2 collide. cbv zeta.
  pose proof (items_exist m in_ item Hm Hin Hitem) as He.
  eapply (agree_bind m (fun a => same_leaves out0 a.2 /\
     (a.1 = false -> collide = false -> recurse_to_leaf = true ->
      exists lf, rd a.2 outpos = Some lf /\ leaf_of item lf (take (Z.to_nat outpos) out0)))).
  { destruct (negb collide && recurse_to_leaf) eqn:Ec.
    - apply andb_true_iff in Ec. destruct Ec as [_ Hrec].
      eapply agree_mono; [apply try_leaf_agree; [done|done|done|done|rewrite Hlen; by apply Hr2|done..]|].
      intros [rej o] (Hl & Ht & Hf). unfold same_leaves. cbn [fst snd] in *. rewrite Hl, Ht, Hlen, Htake in *. auto.
    - apply agree_done; [|done..]. cbn [fst snd]. split; [done|]. intros _ -> ->. done. }
  intros [reject o2] u1 u2 (Hs & Hlf) Hu1 Hu2. cbn [fst snd] in *.
  destruct (final_reject item reject collide He) as (rj & -> & Hrj). run.
  destruct (rj || collide) eqn:Erc; [by apply failed_agree|].
  apply orb_false_iff in Erc. destruct Erc as [-> Hcol]. destruct (Hrj eq_refl) as [-> Hout].
  apply agree_done; [|done..]. split; [apply Hs|]. split; [apply Hs|]. cbn [fst snd]. split; [apply Hct|]. split.
  { apply Hup. split; [by constructor|done|done|done|]. intros ->. by apply Hout. }
  split; [|by apply Hlf]. intros Hbad%existsb_in. unfold collide in Hcol. congruence.
Qed.

Lemma try_replica_agree fuel : attempt_ok fuel.
Proof.
  induction fuel as [|fuel IH]; intros in_ ftotal flocal out0 out2 s1 s2 Hin Hup Hct Hen Hr2 Hs H1 H2.
  { exfalso. unfold enough in Hen. pose proof (ct_left _ _ Hct). unfold max_buckets in Hen. nia. }
  cbn [try_replica]. cbv zeta. rewrite (proj1 Hs) in Hr2.
  destruct (Z.eqb_spec (b_size in_) 0) as [Hz|Hz]; [by apply failed_agree|].
  destruct (map_buckets m Hm in_ Hin) as [Hbok _]. pose proof (ok_size in_ Hbok).
  eapply agree_bind; [apply choose_in_agree; done || lia|]. intros item t1 t2 Hitem Ht1 Ht2.
  destruct (Z.leb_spec (max_devices m) item) as [|Hdev]; [by apply stop_agree|].
  pose proof (items_exist m in_ item Hm Hin Hitem) as He. rewrite (item_type_ok m item He). run.
  destruct (Z.eqb_spec (type_of m item) type) as [Ety|Ety]; cbn [negb]; [by apply found_agree|].
  destruct (Z.leb_spec 0 item) as [|Hneg]; [by apply stop_agree|]. cbn [orb].
  destruct (Z.leb_spec (max_buckets m) (-1 - item)); [by apply stop_agree|].
  destruct He as [|[c Hc]]; [lia|]. rewrite Hc. run. destruct (bucket_at_in m item c Hm Hc) as (Hid & Hcin & _).
  apply IH; [done| |done| |rewrite (proj1 Hs); done|done..].
  - intros i Hi. apply Hup. apply (chosen_down m weight x in_ c); [by rewrite Hid|done|done].
  - unfold enough in *. pose proof (proj2 (Hrank in_ Hin) item Hitem Hneg). rewrite Hid. lia.
Qed.
End Replica.

(** ** The loop over the replicas *)

Lemma fuel_enough : enough (replica_fuel m tries local_retries local_fallback_retries) bucket 0 0.
Proof.
  unfold enough, replica_fuel. fold (max_size m). pose proof (proj1 (Hrank bucket Hbucket)).
  pose proof (max_size_nonneg m). rewrite !Z.max_r by lia.
  assert (failures 0 0 <= tries + L + 1) by (pose proof (ct_sum _ _ counters_start); lia).
  rewrite Z2Nat.id by (unfold max_buckets; nia). unfold max_buckets in *. nia.
Qed.

(** Position [j] of the result. *)
Definition placed (o o2 : list Z) (j : Z) : Prop :=
  exists item, rd o j = Some item /\ chosen bucket type item /\ item ∉ take (Z.to_nat j) o /\
    (recurse_to_leaf = true -> exists lf, rd o2 j = Some lf /\ leaf_of item lf (take (Z.to_nat j) o2)).

Definition loop_post (n : nat) (outpos count : Z) (out out2 : list Z) (a : Z * list Z * list Z) : Prop :=
  let '(p, o, o2) := a in
  outpos <= p <= outpos + Z.of_nat n /\ p <= outpos + Z.max 0 count /\
  length o = length out /\ length o2 = length out2 /\
  take (Z.to_nat outpos) o = take (Z.to_nat outpos) out /\ take (Z.to_nat outpos) o2 = take (Z.to_nat outpos) out2 /\
  forall j, outpos <= j < p -> placed o o2 j.

Lemma firstn_loop_agree n : forall rep outpos count out out2 s1 s2, 0 <= outpos ->
  outpos + count <= Z.of_nat (length out) -> (recurse_to_leaf = true -> outpos + count <= Z.of_nat (length out2)) ->
  state_ok m s1 -> state_ok m s2 ->
  agree m (loop_post n outpos count out out2)
    (firstn_loop m weight x choose_args bucket type tries local_retries local_fallback_retries recurse_to_leaf
       vary_r parent_r leaf n rep outpos count out out2 s1)
    (firstn_loop m weight x choose_args bucket type tries local_retries local_fallback_retries recurse_to_leaf
       vary_r parent_r leaf n rep outpos count out out2 s2).
Proof.
  induction n as [|n IH]; intros rep outpos count out out2 s1 s2 Ho Hroom Hroom2 H1 H2; cbn [firstn_loop].
  { apply agree_done; [|done..]. split; [lia|]. split; [lia|]. do 4 (split; [done|]). lia. }
  destruct (Z.ltb_spec 0 count) as [Hc|Hc]; cbn [negb].
  2: { apply agree_done; [|done..]. split; [lia|]. split; [lia|]. do 4 (split; [done|]). lia. }
  eapply agree_bind; [apply (try_replica_agree rep outpos count out Ho Hc) with (out0 := out2); try done|].
  { apply counters_start. } { apply fuel_enough. }
  intros [res o2] t1 t2 (Hl2 & Ht2 & Hres) Ht1 Ht2'. cbn [fst snd] in *. destruct res as [[item ftotal]|].
  - destruct Hres as (Hft & Hch & Hni & Hlf). destruct (wr_spec out outpos item) as (o & Ew & Hl & Hrd); [lia|].
    rewrite Ew. run.
    destruct (count_tries_ok m ftotal t1) as (u1 & -> & Hu1); [done..|]. destruct (count_tries_ok m ftotal t2) as (u2 & -> & Hu2); [done..|].
    run. eapply agree_mono; [apply IH; [lia|lia|intros Hr; specialize (Hroom2 Hr); lia|done|done]|].
    intros [[p o'] o2'] (Hp & Hp2 & Hlo & Hlo2 & Hto & Hto2 & Hpl).
    assert (Htake : take (Z.to_nat outpos) o' = take (Z.to_nat outpos) out).
    { rewrite (take_le outpos (outpos + 1) o' o) by (lia || done). by apply (take_wr outpos outpos out o item); [lia|]. }
    assert (Htake2 : take (Z.to_nat outpos) o2' = take (Z.to_nat outpos) out2).
    { by rewrite (take_le outpos (outpos + 1) o2' o2) by (lia || done). }
    split; [lia|]. split; [lia|]. do 2 (split; [congruence|]). split; [done|]. split; [done|].
    intros j Hj. destruct (decide (j = outpos)) as [->|Hne]; [|apply Hpl; lia]. exists item.
    rewrite (take_rd outpos (outpos + 1) o' o), Hrd, decide_True by (lia || done). split; [done|]. split; [done|].
    rewrite Htake, Htake2, (take_rd outpos (outpos + 1) o2' o2) by (lia || done). done.
  - eapply agree_mono; [apply IH; [lia|lia|intros Hr; specialize (Hroom2 Hr); lia|done|done]|].
    intros [[p o'] o2'] (Hp & Hp2 & Hlo & Hlo2 & Hto & Hto2 & Hpl).
    split; [lia|]. split; [lia|]. split; [done|]. split; [congruence|]. split; [done|]. split; [congruence|done].
Qed.
End Call.

(** ** The calls *)

Definition bounds_ok (tries local_retries local_fallback_retries : Z) : Prop :=
  0 <= tries /\ 0 <= local_retries /\ 0 <= local_fallback_retries /\
  tries + (local_retries + local_fallback_retries + max_size m) + 2 < 2 ^ 32.

Lemma leaf_call_agree numrep tries lr fb vary_r stable c out2 outpos count sub_r s1 s2 :
  bounds_ok tries lr fb -> in_map m c -> 0 <= outpos -> outpos + count <= Z.of_nat (length out2) ->
  state_ok m s1 -> state_ok m s2 ->
  agree m (leaf_post c out2 outpos)
    (choose_firstn_leaf m weight x choose_args numrep tries lr fb vary_r stable c out2 outpos count sub_r s1)
    (choose_firstn_leaf m weight x choose_args numrep tries lr fb vary_r stable c out2 outpos count sub_r s2).
Proof.
  intros (B1 & B2 & B3 & B4) Hc Ho Hroom H1 H2. destruct (map_rank m Hm) as [rank Hrank]. unfold choose_firstn_leaf. cbv zeta.
  eapply agree_bind; [eapply (firstn_loop_agree c 0 tries lr fb false); done|].
  intros [[p o] o2] t1 t2 (Hp & _ & Hlo & _ & Hto & _ & Hpl) Ht1 Ht2. apply agree_done; [|done..].
  split; [done|]. split; [done|]. cbn [fst snd]. destruct (decide (p <= outpos)); [by left|right].
  destruct (Hpl outpos) as (item & Hrd & Hch & Hni & _); [lia|]. exists item. by rewrite <- Hto.
Qed.

Lemma firstn_agree bucket numrep type out outpos out_size tries recurse_tries lr fb recurse vary_r stable out2 parent_r s1 s2 :
  in_map m bucket -> bounds_ok tries lr fb -> (recurse = true -> bounds_ok recurse_tries lr fb /\ 0 <= vary_r <= 32) ->
  0 <= outpos -> outpos + out_size <= Z.of_nat (length out) ->
  (recurse = true -> outpos + out_size <= Z.of_nat (length out2)) -> state_ok m s1 -> state_ok m s2 ->
  agree m (loop_post bucket type recurse (Z.to_nat (numrep - if stable =? 0 then outpos else 0)) outpos out_size out out2)
    (crush_choose_firstn m weight x choose_args bucket numrep type out outpos out_size tries recurse_tries lr fb recurse
       vary_r stable out2 parent_r s1)
    (crush_choose_firstn m weight x choose_args bucket numrep type out outpos out_size tries recurse_tries lr fb recurse
       vary_r stable out2 parent_r s2).
Proof.
  intros Hb (B1 & B2 & B3 & B4) Hrec Ho Hroom Hroom2 H1 H2. destruct (map_rank m Hm) as [rank Hrank].
  unfold crush_choose_firstn. cbv zeta. eapply firstn_loop_agree; try done.
  - intros Hr. by apply Hrec.
  - intros Hr c o2 op cnt sub t1 t2 Hc Hop Hcnt Ht1 Ht2. apply leaf_call_agree; [by apply Hrec|done..].
Qed.
End Firstn.
