(* ===== verification/CrIndep.v ===== *)
(** * Choosing by position (mapper.c: crush_choose_indep)

    Every position of the result gets an item of the right type that is not out
    and that no other position has, or stays empty ([CRUSH_ITEM_NONE]); the
    leaves go with the items. *)
From S2P Require Import Prelude CrHash CrBucket CrMapper CrPerm CrChoose CrMap.

(** ** Arrays that may be null *)

Definition rd2 (o2 : option (list Z)) (j : Z) : option Z := l ← o2; rd l j.

(** [o'] differs from [o] at position [rep] at most. *)
Definition only_at (rep : Z) (o o' : list Z) : Prop := length o' = length o /\ forall k, k <> rep -> rd o' k = rd o k.

Definition only_at2 (rep : Z) (o2 o2' : option (list Z)) : Prop :=
  match o2, o2' with
  | None, None => True
  | Some l, Some l' => only_at rep l l'
  | _, _ => False
  end.

Lemma only_at_refl rep o : only_at rep o o.
Proof. done. Qed.

Lemma only_at2_refl rep o2 : only_at2 rep o2 o2.
Proof. by destruct o2. Qed.

Lemma only_at2_rd rep o2 o2' k : only_at2 rep o2 o2' -> k <> rep -> rd2 o2' k = rd2 o2 k.
Proof. destruct o2, o2'; cbn; try done. intros [_ H] Hk. by apply H. Qed.

Lemma wr_only rep o v : 0 <= rep < Z.of_nat (length o) ->
  exists o', wr o rep v = Some o' /\ only_at rep o o' /\ rd o' rep = Some v.
Proof.
  intros Hr. destruct (wr_spec o rep v Hr) as (o' & E & Hl & H). exists o'. split; [done|].
  split; [|by rewrite H, decide_True]. split; [done|]. intros k Hk. by rewrite H, decide_False.
Qed.

(** The array reaches to [n], if there is one. *)
Definition room2 (n : Z) (o2 : option (list Z)) : Prop := forall l, o2 = Some l -> n <= Z.of_nat (length l).

Lemma put2_only rep n o2 v : 0 <= rep < n -> room2 n o2 ->
  exists o2', put2 o2 rep v = Done o2' /\ only_at2 rep o2 o2' /\ (o2 <> None -> rd2 o2' rep = Some v).
Proof.
  intros Hr Hn. destruct o2 as [l|]; cbn [put2]; [|by exists None]. specialize (Hn l eq_refl).
  destruct (wr_only rep l v) as (l' & -> & H & Hv); [lia|]. run. by exists (Some l').
Qed.

Section Indep.
Context (m : crush_map) (weight : list Z) (x : Z) (choose_args : option (list crush_choose_arg)).
Context (Hm : map_ok m).
Context (Hargs : forall args b, choose_args = Some args -> in_map m b ->
           exists a, rd args (-1 - b_id b) = Some a /\ arg_ok b a).

Local Abbreviation chosen := (chosen m weight x).
Local Abbreviation UNDEF := CRUSH_ITEM_UNDEF.
Local Abbreviation NONE := CRUSH_ITEM_NONE.

Lemma chosen_real b type item : chosen b type item -> item <> UNDEF /\ item <> NONE.
Proof.
  intros H. pose proof (ch_device _ _ _ _ _ _ H). pose proof (map_devices m Hm). unfold CRUSH_ITEM_UNDEF, CRUSH_ITEM_NONE in *. lia.
Qed.

Definition leaf_result (c : crush_bucket) (rep : Z) (o2 : list Z) (o2' : option (list Z)) : Prop :=
  only_at2 rep (Some o2) o2' /\ exists v, rd2 o2' rep = Some v /\ (v = NONE \/ chosen c 0 v).

Section Call.
Context (bucket : crush_bucket) (numrep type outpos endpos : Z) (recurse_to_leaf : bool) (parent_r : Z)
        (leaf : crush_bucket -> option (list Z) -> Z -> Z -> state -> outcome (option (list Z) * state)).
Context (Hbucket : in_map m bucket) (Hnumrep : numrep <> 0) (Hpos : 0 <= outpos).
Context (Hleaf : recurse_to_leaf = true -> forall c o2 rep r s1 s2, in_map m c ->
  0 <= rep < Z.of_nat (length o2) -> state_ok m s1 -> state_ok m s2 ->
  agree m (leaf_result c rep o2) (leaf c (Some o2) rep r s1) (leaf c (Some o2) rep r s2)).

(** ** The invariant of the positions *)

(** What the leaf of a position may hold; when devices are chosen it is no
    more than some device number. *)
Definition leaf_slot (v v2 : Z) : Prop :=
  if decide (type = 0) then 0 <= v2 else
  v = UNDEF /\ (v2 = UNDEF \/ v2 = NONE) \/ v = NONE /\ v2 = NONE \/
  chosen bucket type v /\ exists c, bucket_at m v = Done c /\ chosen c 0 v2.

Definition slot (o : list Z) (o2 : option (list Z)) (j : Z) : Prop :=
  exists v, rd o j = Some v /\ (v = UNDEF \/ v = NONE \/ chosen bucket type v) /\
    (recurse_to_leaf = true -> exists v2, rd2 o2 j = Some v2 /\ leaf_slot v v2).

Definition distinct (o : list Z) : Prop := forall i j v, outpos <= i < j -> j < endpos ->
  rd o i = Some v -> rd o j = Some v -> v = UNDEF \/ v = NONE.

Record slots_ok (out : list Z) (out2 : option (list Z)) (o : list Z) (o2 : option (list Z)) : Prop := {
  sl_len : length o = length out;
  sl_room : endpos <= Z.of_nat (length o);
  sl_room2 : room2 endpos o2;
  sl_two : recurse_to_leaf = true -> o2 <> None;
  sl_frame : forall k, ~ (outpos <= k < endpos) -> rd o k = rd out k;
  sl_frame2 : forall l l2, out2 = Some l -> o2 = Some l2 -> length l2 = length l /\
     forall k, ~ (outpos <= k < endpos) -> rd l2 k = rd l k;
  sl_none : out2 = None <-> o2 = None;
  sl_slots : forall j, outpos <= j < endpos -> slot o o2 j;
  sl_distinct : distinct o }.

(** Changing one position. *)
Lemma slots_set out out2 o o2 rep o' o2' : slots_ok out out2 o o2 -> outpos <= rep < endpos ->
  only_at rep o o' -> only_at2 rep o2 o2' -> slot o' o2' rep ->
  (forall v, rd o' rep = Some v -> v = UNDEF \/ v = NONE \/ forall j, outpos <= j < endpos -> rd o j <> Some v) ->
  slots_ok out out2 o' o2'.
Proof.
  intros [H1 H2 H3 H4 H5 H6 H7 H8 H9] Hr [Hl Ho] Ho2 Hslot Hnew. split.
  - congruence.
  - lia.
  - intros l' ->. destruct o2 as [l|]; [|done]. destruct Ho2 as [El _]. rewrite El. by apply H3.
  - intros Hrec. specialize (H4 Hrec). by destruct o2, o2'.
  - intros k Hk. rewrite Ho by lia. by apply H5.
  - intros l l2' -> ->. destruct o2 as [l2|]; [|done]. destruct Ho2 as [El Hk]. destruct (H6 l l2 eq_refl eq_refl) as [E Hf].
    split; [congruence|]. intros k Hk'. rewrite Hk by lia. by apply Hf.
  - rewrite H7. by destruct o2, o2'.
  - intros j Hj. destruct (decide (j = rep)) as [->|Hne]; [done|]. destruct (H8 j Hj) as (v & E & Hv & Hlf).
    exists v. rewrite Ho, (only_at2_rd rep o2 o2') by done. done.
  - intros i j v Hi Hj Ei Ej. destruct (decide (i = rep)) as [->|Hni], (decide (j = rep)) as [->|Hnj]; [lia| | |].
    + destruct (Hnew v Ei) as [|[|Hd]]; [by left|by right|]. rewrite Ho in Ej by done. by destruct (Hd j ltac:(lia)).
    + destruct (Hnew v Ej) as [|[|Hd]]; [by left|by right|]. rewrite Ho in Ei by done. by destruct (Hd i ltac:(lia)).
    + rewrite Ho in Ei, Ej by done. by apply (H9 i j).
Qed.

Definition step_post (out : list Z) (out2 : option (list Z)) (a : Z * list Z * option (list Z)) : Prop :=
  slots_ok out out2 a.1.2 a.2.

Lemma give_up_agree out out2 rep left o o2 s1 s2 : slots_ok out out2 o o2 -> outpos <= rep < endpos ->
  state_ok m s1 -> state_ok m s2 -> agree m (step_post out out2) (abandon rep left o o2 s1) (abandon rep left o o2 s2).
Proof.
  intros Hs Hr H1 H2. pose proof (sl_room _ _ _ _ Hs). unfold abandon.
  destruct (wr_only rep o NONE) as (o' & -> & Ho & Hv); [lia|]. run.
  destruct (put2_only rep endpos o2 NONE) as (o2' & -> & Ho2 & Hv2); [lia|apply Hs|]. run. apply agree_done; [|done..].
  apply (slots_set out out2 o o2 rep); [done..| |].
  - exists NONE. split; [done|]. split; [by right; left|]. intros Hrec. exists NONE.
    split; [apply Hv2, Hs, Hrec|]. unfold leaf_slot. case_decide; [done|by right; left].
  - intros v Ev. cbn in Ev. right; left. congruence.
Qed.

(** ** The descent *)

Definition leaf_step (item rep : Z) (o2 : option (list Z)) (a : bool * option (list Z)) : Prop :=
  only_at2 rep o2 a.2 /\ exists v2, rd2 a.2 rep = Some v2 /\
    if a.1 then item < 0 /\ v2 = NONE
    else if item <? 0 then exists c, bucket_at m item = Done c /\ chosen c 0 v2 else v2 = item.

Lemma indep_leaf_agree item r rep o2 s1 s2 : recurse_to_leaf = true -> exists_item m item ->
  outpos <= rep < endpos -> room2 endpos o2 -> o2 <> None -> state_ok m s1 -> state_ok m s2 ->
  agree m (leaf_step item rep o2) (indep_leaf m leaf item r rep o2 s1) (indep_leaf m leaf item r rep o2 s2).
Proof.
  intros Hrec He Hr Hroom Hne H1 H2. unfold indep_leaf, leaf_step. destruct (Z.ltb_spec item 0) as [Hn|Hn].
  - destruct He as [|[c Hc]]; [lia|]. rewrite Hc. run. destruct (bucket_at_in m item c Hm Hc) as (_ & Hin & _).
    destruct o2 as [l|]; [|done]. pose proof (Hroom l eq_refl).
    eapply agree_bind; [apply (Hleaf Hrec c l rep r s1 s2 Hin ltac:(lia) H1 H2)|].
    intros o2' t1 t2 (Ho & v & Hv & Hch) Ht1 Ht2. destruct o2' as [l'|]; [|done]. cbn [rd2 mbind option_bind] in Hv.
    rewrite Hv. run. apply agree_done; [|done..]. cbn [fst snd]. split; [done|]. exists v. split; [done|].
    destruct (Z.eqb_spec v NONE) as [->|Hv']; [done|]. destruct Hch as [|Hch]; [done|]. by exists c.
  - destruct (put2_only rep endpos o2 item) as (o2' & -> & Ho & Hv); [lia|done|]. run. apply agree_done; [|done..].
    cbn [fst snd]. split; [done|]. exists item. split; [by apply Hv|done].
Qed.

Lemma region_in item (o : list Z) j : 0 <= outpos ->
  existsb (Z.eqb item) (take (Z.to_nat (endpos - outpos)) (drop (Z.to_nat outpos) o)) = false ->
  outpos <= j < endpos -> rd o j <> Some item.
Proof.
  intros Hp He Hj Hrd. assert (Ht : existsb (Z.eqb item) (take (Z.to_nat (endpos - outpos)) (drop (Z.to_nat outpos) o)) = true); [|congruence].
  apply existsb_exists. exists item. split; [|apply Z.eqb_refl]. apply list_elem_of_In.
  apply (list_elem_of_lookup_2 _ (Z.to_nat (j - outpos))). rewrite lookup_take_lt, lookup_drop by lia.
  unfold rd in Hrd. rewrite (proj2 (Z.leb_le 0 j)) in Hrd by lia. rewrite <- Hrd. f_equal. lia.
Qed.

(** An item of the right type that no position has. *)
(** A position that stays open keeps the slots, whatever is stored in its leaf. *)
Lemma slots_keep out out2 rep o o2 : slots_ok out out2 o o2 -> outpos <= rep < endpos -> rd o rep = Some UNDEF ->
  forall o2', only_at2 rep o2 o2' ->
  (recurse_to_leaf = true -> exists v2, rd2 o2' rep = Some v2 /\ leaf_slot UNDEF v2) -> slots_ok out out2 o o2'.
Proof.
  intros Hs Hr Hrd o2' Ho2 Hv2. apply (slots_set out out2 o o2 rep); [done|done|apply only_at_refl|done| |].
  - exists UNDEF. split; [done|]. split; [by left|]. done.
  - intros v Ev. rewrite Hrd in Ev. left. congruence.
Qed.

Lemma rejected_ok item : exists_item m item -> type_of m item = type ->
  (out_b weight x item = false \/ type <> 0 -> chosen bucket type item) ->
  exists rj, (if type =? 0 then is_out weight x item else Done false) = Done rj /\
    (rj = true -> type = 0) /\ (rj = false -> chosen bucket type item).
Proof.
  intros He Ety Hch. pose proof (type_of_zero m item Hm He) as Hz. rewrite Ety in Hz.
  destruct (Z.eqb_spec type 0) as [E0|E0]; [|exists false; split; [done|]; split; [done|]; intros _; apply Hch; by right].
  rewrite is_out_ok by (by apply Hz). exists (out_b weight x item). split; [done|]. split; [done|]. intros E. apply Hch. by left.
Qed.

Lemma place_agree out out2 item r rep left o o2 s1 s2 : slots_ok out out2 o o2 -> outpos <= rep < endpos ->
  rd o rep = Some UNDEF -> (forall j, outpos <= j < endpos -> rd o j <> Some item) -> exists_item m item ->
  type_of m item = type -> (out_b weight x item = false \/ type <> 0 -> chosen bucket type item) ->
  state_ok m s1 -> state_ok m s2 ->
  let go s :=
    '(none, o2, s) ← (if recurse_to_leaf then indep_leaf m leaf item r rep o2 s else Done (false, o2, s));
    if none : bool then Done (left, o, o2, s) else
    rejected ← (if type_of m item =? 0 then is_out weight x item else Done false);
    if rejected : bool then Done (left, o, o2, s) else
    o ← need (wr o rep item);
    Done (left - 1, o, o2, s) in
  agree m (step_post out out2) (go s1) (go s2).
Proof.
  intros Hs Hr Hrd Hfresh He Ety Hch H1 H2. cbv zeta. pose proof (sl_room _ _ _ _ Hs).
  pose proof (slots_keep out out2 rep o o2 Hs Hr Hrd) as Hkeep.
  eapply (agree_bind m (fun a => if recurse_to_leaf then leaf_step item rep o2 a else a = (false, o2))).
  { destruct (decide (recurse_to_leaf = true)) as [Hrec|Hrec%not_true_is_false]; rewrite Hrec; [|by apply agree_done].
    apply indep_leaf_agree; [done|done|done|apply Hs|by apply Hs|done..]. }
  intros [none o2'] t1 t2 Hl Ht1 Ht2. destruct none.
  { destruct (decide (recurse_to_leaf = true)) as [Hrec|Hrec%not_true_is_false]; rewrite Hrec in Hl; [|done]. destruct Hl as (Ho2 & v2 & Hv2 & _ & ->). apply agree_done; [|done..].
    apply Hkeep; [done|]. intros _. exists NONE. split; [done|]. unfold leaf_slot. case_decide; [done|]. left. auto. }
  assert (Ho2 : only_at2 rep o2 o2').
  { destruct (decide (recurse_to_leaf = true)) as [Hrec|Hrec%not_true_is_false]; rewrite Hrec in Hl; [apply Hl|]. injection Hl as ->. apply only_at2_refl. }
  pose proof (type_of_zero m item Hm He) as Hz. pose proof (rejected_ok item He Ety Hch) as Hrej. rewrite Ety in *.
  destruct Hrej as (rj & -> & Hrt & Hrf). run. destruct rj.
  { apply agree_done; [|done..]. apply Hkeep; [done|]. intros Hrec. rewrite Hrec in Hl. destruct Hl as (_ & v2 & Hv2 & Hlf).
    exists v2. split; [done|]. unfold leaf_slot. rewrite decide_True by (by apply Hrt). cbn [fst] in Hlf.
    assert (0 <= item) by (by apply Hz, Hrt). rewrite (proj2 (Z.ltb_ge item 0)) in Hlf by done. lia. }
  destruct (wr_only rep o item) as (o' & -> & Ho & Hv); [lia|]. run. apply agree_done; [|done..].
  apply (slots_set out out2 o o2 rep); [done..| |].
  - exists item. split; [done|]. split; [right; right; by apply Hrf|]. intros Hrec. rewrite Hrec in Hl.
    destruct Hl as (_ & v2 & Hv2 & Hlf). exists v2. split; [done|]. cbn [fst] in Hlf.
    rewrite (chosen_sign m weight x Hm bucket type item (Hrf eq_refl)) in Hlf. unfold leaf_slot.
    destruct (Z.eqb_spec type 0) as [E0|E0]; [rewrite decide_True by done; rewrite Hlf; by apply Hz|].
    rewrite decide_False by done. right. right. split; [by apply Hrf|done].
  - intros v Ev. cbn in Ev. rewrite Hv in Ev. injection Ev as <-. right. right. done.
Qed.

Context (rank : Z -> nat) (Hrank : forall b, in_map m b -> (rank (b_id b) <= length (buckets m))%nat /\
    forall item, item ∈ items_of b -> item < 0 -> (rank item < rank (b_id b))%nat).

Local Abbreviation descend := (try_position m weight x choose_args numrep type outpos endpos recurse_to_leaf parent_r leaf).

Lemma try_position_agree out out2 rep ftotal left o o2 : slots_ok out out2 o o2 -> outpos <= rep < endpos ->
  rd o rep = Some UNDEF -> forall fuel in_ s1 s2, in_map m in_ ->
  (forall item, chosen in_ type item -> chosen bucket type item) -> (rank (b_id in_) < fuel)%nat ->
  state_ok m s1 -> state_ok m s2 ->
  agree m (step_post out out2) (descend fuel rep ftotal in_ left o o2 s1) (descend fuel rep ftotal in_ left o o2 s2).
Proof.
  intros Hs Hr Hrd fuel. induction fuel as [|fuel IH]; intros in_ s1 s2 Hin Hup Hf H1 H2; [lia|].
  cbn [try_position]. rewrite (proj2 (Z.eqb_neq numrep 0) Hnumrep). cbv zeta.
  destruct (Z.eqb_spec (b_size in_) 0) as [Hz|Hz]; [by apply agree_done|].
  destruct (map_buckets m Hm in_ Hin) as [Hbok _]. pose proof (ok_size in_ Hbok).
  eapply agree_bind; [apply choose_in_agree; done || lia|]. intros item t1 t2 Hitem Ht1 Ht2.
  destruct (Z.leb_spec (max_devices m) item) as [|Hdev]; [by apply give_up_agree|].
  pose proof (items_exist m in_ item Hm Hin Hitem) as He. rewrite (item_type_ok m item He). run.
  destruct (Z.eqb_spec (type_of m item) type) as [Ety|Ety]; cbn [negb].
  - destruct (existsb (Z.eqb item) _) eqn:Ec; [by apply agree_done|].
    apply place_agree; [done|done|done|by intros j; apply region_in|done|done| |done|done].
    intros Hor. apply Hup. split; [by constructor|done|done|done|]. intros ->. destruct Hor; done.
  - destruct (Z.leb_spec 0 item) as [|Hneg]; [by apply give_up_agree|]. cbn [orb].
    destruct (Z.leb_spec (max_buckets m) (-1 - item)); [by apply give_up_agree|].
    destruct He as [|[c Hc]]; [lia|]. rewrite Hc. run. destruct (bucket_at_in m item c Hm Hc) as (Hid & Hcin & _).
    apply IH; [done| | |done|done].
    + intros i Hi. apply Hup. apply (chosen_down m weight x in_ c); [by rewrite Hid|done|done].
    + pose proof (proj2 (Hrank in_ Hin) item Hitem Hneg). rewrite Hid. lia.
Qed.

(** ** The passes *)

Lemma indep_pass_agree out out2 ftotal n : forall rep left o o2 s1 s2, slots_ok out out2 o o2 ->
  outpos <= rep -> rep + Z.of_nat n <= endpos -> state_ok m s1 -> state_ok m s2 ->
  agree m (step_post out out2)
    (indep_pass m weight x choose_args bucket numrep type outpos endpos recurse_to_leaf parent_r leaf n rep ftotal left o o2 s1)
    (indep_pass m weight x choose_args bucket numrep type outpos endpos recurse_to_leaf parent_r leaf n rep ftotal left o o2 s2).
Proof.
  induction n as [|n IH]; intros rep left o o2 s1 s2 Hs Hr Hn H1 H2; cbn [indep_pass]; [by apply agree_done|].
  destruct (sl_slots _ _ _ _ Hs rep) as (v & Hv & _); [lia|]. rewrite Hv. run.
  destruct (Z.eqb_spec v UNDEF) as [->|]; cbn [negb]; [|apply IH; done || lia].
  eapply agree_bind; [apply (try_position_agree out out2 rep ftotal left o o2 Hs); [lia|done|done|done| |done|done]|].
  { unfold position_fuel. pose proof (proj1 (Hrank bucket Hbucket)). lia. }
  intros [[left' o'] o2'] t1 t2 Hs' Ht1 Ht2. apply IH; done || lia.
Qed.

Definition rounds_post (out : list Z) (out2 : option (list Z)) (a : Z * list Z * option (list Z)) : Prop :=
  0 <= a.1.1 /\ slots_ok out out2 a.1.2 a.2.

Lemma indep_rounds_agree out out2 n : forall ftotal left o o2 s1 s2, slots_ok out out2 o o2 -> 0 <= ftotal ->
  state_ok m s1 -> state_ok m s2 ->
  agree m (rounds_post out out2)
    (indep_rounds m weight x choose_args bucket numrep type outpos endpos recurse_to_leaf parent_r leaf n ftotal left o o2 s1)
    (indep_rounds m weight x choose_args bucket numrep type outpos endpos recurse_to_leaf parent_r leaf n ftotal left o o2 s2).
Proof.
  induction n as [|n IH]; intros ftotal left o o2 s1 s2 Hs Hf H1 H2; cbn [indep_rounds]; [by apply agree_done|].
  destruct (Z.ltb_spec 0 left); cbn [negb]; [|by apply agree_done].
  destruct (decide (outpos <= endpos)) as [Hle|Hgt].
  - eapply agree_bind; [apply (indep_pass_agree out out2); [done|lia|lia|done|done]|].
    intros [[left' o'] o2'] t1 t2 Hs' Ht1 Ht2. apply IH; done || lia.
  - replace (Z.to_nat (endpos - outpos)) with 0%nat by lia. cbn [indep_pass]. run. apply IH; done || lia.
Qed.

(** ** Before and after *)

(** The part that the call works on, filled by [f]. *)
Lemma set_undef_ok n : forall rep o o2, 0 <= rep -> rep + Z.of_nat n <= Z.of_nat (length o) -> room2 (rep + Z.of_nat n) o2 ->
  exists o' o2', set_undef n rep o o2 = Done (o', o2') /\ length o' = length o /\
    (forall k, rd o' k = if decide (rep <= k < rep + Z.of_nat n) then Some UNDEF else rd o k) /\
    (forall l, o2 = Some l -> exists l', o2' = Some l' /\ length l' = length l /\
      forall k, rd l' k = if decide (rep <= k < rep + Z.of_nat n) then Some UNDEF else rd l k) /\
    (o2 = None -> o2' = None).
Proof.
  induction n as [|n IH]; intros rep o o2 Hr Hl Hl2; cbn [set_undef].
  { exists o, o2. split; [done|]. split; [done|]. split; [intros k; by rewrite decide_False by lia|].
    split; [|done]. intros l ->. exists l. split; [done|]. split; [done|]. intros k. by rewrite decide_False by lia. }
  destruct (wr_only rep o UNDEF) as (o1 & -> & [L1 O1] & V1); [lia|]. run.
  destruct (put2_only rep (rep + Z.of_nat (S n)) o2 UNDEF) as (o3 & -> & O3 & V3); [lia|done|]. run.
  destruct (IH (rep + 1) o1 o3) as (o' & o2' & E & L & F & G & N); [lia|lia| |].
  { intros l ->. destruct o2 as [l0|]; [|done]. destruct O3 as [-> _]. specialize (Hl2 l0 eq_refl). lia. }
  exists o', o2'. split; [done|]. split; [congruence|]. split; [|split].
  - intros k. rewrite F. repeat case_decide; try lia; try done; [|by apply O1; lia].
    assert (k = rep) as -> by lia. done.
  - intros l ->. destruct o3 as [l3|]; [|done]. destruct (G l3 eq_refl) as (l' & -> & L' & F'). destruct O3 as [L3 O3].
    exists l'. split; [done|]. split; [congruence|]. intros k. rewrite F'. repeat case_decide; try lia; try done; [|by apply O3; lia].
    assert (k = rep) as -> by lia. by apply V3.
  - intros ->. apply N. by destruct o3.
Qed.

Definition none_of (v : Z) : Z := if v =? UNDEF then NONE else v.

Lemma undef_to_none_ok o rep : 0 <= rep < Z.of_nat (length o) ->
  exists o', undef_to_none o rep = Done o' /\ only_at rep o o' /\ rd o' rep = none_of <$> rd o rep.
Proof.
  intros Hr. unfold undef_to_none. destruct (rd_Some o rep Hr) as (v & Ev & _). rewrite Ev. run. cbn [fmap option_fmap option_map].
  unfold none_of. destruct (v =? UNDEF) eqn:E; [|by exists o]. destruct (wr_only rep o NONE Hr) as (o' & -> & Ho & Hv).
  by exists o'.
Qed.

Lemma set_none_ok n : forall rep o o2, 0 <= rep -> rep + Z.of_nat n <= Z.of_nat (length o) -> room2 (rep + Z.of_nat n) o2 ->
  exists o' o2', set_none n rep o o2 = Done (o', o2') /\ length o' = length o /\
    (forall k, rd o' k = if decide (rep <= k < rep + Z.of_nat n) then none_of <$> rd o k else rd o k) /\
    (forall l, o2 = Some l -> exists l', o2' = Some l' /\ length l' = length l /\
      forall k, rd l' k = if decide (rep <= k < rep + Z.of_nat n) then none_of <$> rd l k else rd l k) /\
    (o2 = None -> o2' = None).
Proof.
  induction n as [|n IH]; intros rep o o2 Hr Hl Hl2; cbn [set_none].
  { exists o, o2. split; [done|]. split; [done|]. split; [intros k; by rewrite decide_False by lia|].
    split; [|done]. intros l ->. exists l. split; [done|]. split; [done|]. intros k. by rewrite decide_False by lia. }
  destruct (undef_to_none_ok o rep) as (o1 & -> & [L1 O1] & V1); [lia|]. run.
  assert (H2 : exists o3, match o2 with None => Done None | Some o => o ← undef_to_none o rep; Done (Some o) end = Done o3 /\
    only_at2 rep o2 o3 /\ rd2 o3 rep = none_of <$> rd2 o2 rep).
  { destruct o2 as [l|]; [|by exists None]. specialize (Hl2 l eq_refl).
    destruct (undef_to_none_ok l rep) as (l' & -> & Hol & Hvl); [lia|]. run. by exists (Some l'). }
  destruct H2 as (o3 & -> & O3 & V3). run. destruct (IH (rep + 1) o1 o3) as (o' & o2' & E & L & F & G & N); [lia|lia| |].
  { intros l ->. destruct o2 as [l0|]; [|done]. destruct O3 as [-> _]. specialize (Hl2 l0 eq_refl). lia. }
  exists o', o2'. split; [done|]. split; [congruence|]. split; [|split].
  - intros k. rewrite F. destruct (decide (k = rep)) as [->|]; [rewrite decide_False, decide_True by lia; done|].
    rewrite O1 by done. repeat case_decide; try lia; done.
  - intros l ->. destruct o3 as [l3|]; [|done]. destruct (G l3 eq_refl) as (l' & -> & L' & F'). destruct O3 as [L3 O3].
    exists l'. split; [done|]. split; [congruence|]. intros k. rewrite F'.
    destruct (decide (k = rep)) as [->|]; [rewrite decide_False, decide_True by lia; done|].
    rewrite O3 by done. repeat case_decide; try lia; done.
  - intros ->. apply N. by destruct o3.
Qed.

(** What a position holds in the end. *)
Definition filled (o : list Z) (o2 : option (list Z)) (j : Z) : Prop :=
  exists v, rd o j = Some v /\ (v = NONE \/ chosen bucket type v) /\
    (recurse_to_leaf = true -> exists v2, rd2 o2 j = Some v2 /\
       if decide (type = 0) then 0 <= v2 else
       v = NONE /\ v2 = NONE \/ chosen bucket type v /\ exists c, bucket_at m v = Done c /\ chosen c 0 v2).

Record indep_post (out : list Z) (out2 : option (list Z)) (a : list Z * option (list Z)) : Prop := {
  ip_len : length a.1 = length out;
  ip_frame : forall k, ~ (outpos <= k < endpos) -> rd a.1 k = rd out k;
  ip_two : forall l, out2 = Some l -> exists l2, a.2 = Some l2 /\ length l2 = length l /\
     forall k, ~ (outpos <= k < endpos) -> rd l2 k = rd l k;
  ip_filled : forall j, outpos <= j < endpos -> filled a.1 a.2 j;
  ip_distinct : forall i j v, outpos <= i < j -> j < endpos -> rd a.1 i = Some v -> rd a.1 j = Some v -> v = NONE }.

Lemma start_slots out out2 o o2 : outpos <= endpos -> endpos <= Z.of_nat (length out) -> room2 endpos out2 ->
  (recurse_to_leaf = true -> out2 <> None) -> length o = length out ->
  (forall k, rd o k = if decide (outpos <= k < endpos) then Some UNDEF else rd out k) ->
  (forall l, out2 = Some l -> exists l', o2 = Some l' /\ length l' = length l /\
      forall k, rd l' k = if decide (outpos <= k < endpos) then Some UNDEF else rd l k) ->
  (out2 = None -> o2 = None) -> slots_ok out out2 o o2.
Proof.
  intros Hle Hroom Hroom2 Htwo L F G N. split.
  - done.
  - lia.
  - intros l ->. destruct out2 as [l0|]; [|by specialize (N eq_refl)]. destruct (G l0 eq_refl) as (l' & [= ->] & -> & _). by apply Hroom2.
  - intros Hrec. specialize (Htwo Hrec). destruct out2 as [l0|]; [|done]. by destruct (G l0 eq_refl) as (l' & -> & _).
  - intros k Hk. by rewrite F, decide_False.
  - intros l l2 -> ->. destruct (G l eq_refl) as (l' & [= ->] & L' & F'). split; [done|]. intros k Hk. by rewrite F', decide_False.
  - split; [done|]. intros ->. destruct out2 as [l0|]; [|done]. by destruct (G l0 eq_refl) as (l' & ? & _).
  - intros j Hj. exists UNDEF. rewrite F, decide_True by done. split; [done|]. split; [by left|]. intros Hrec.
    specialize (Htwo Hrec). destruct out2 as [l0|]; [|done]. destruct (G l0 eq_refl) as (l' & -> & _ & F').
    exists UNDEF. cbn [rd2 mbind option_bind]. rewrite F', decide_True by done. split; [done|].
    unfold leaf_slot. case_decide; [done|]. left. auto.
  - intros i j v Hi Hj Ei _. rewrite F, decide_True in Ei by lia. injection Ei as <-. by left.
Qed.

Lemma end_slots out out2 o o2 o' o2' : outpos <= endpos -> slots_ok out out2 o o2 -> length o' = length o ->
  (forall k, rd o' k = if decide (outpos <= k < endpos) then none_of <$> rd o k else rd o k) ->
  (forall l, o2 = Some l -> exists l', o2' = Some l' /\ length l' = length l /\
      forall k, rd l' k = if decide (outpos <= k < endpos) then none_of <$> rd l k else rd l k) ->
  indep_post out out2 (o', o2').
Proof.
  intros Hle Hs L F G. assert (Hreal : forall b t v, chosen b t v -> none_of v = v).
  { intros b t v Hc. unfold none_of. destruct (chosen_real b t v Hc). by rewrite (proj2 (Z.eqb_neq _ _)). }
  split; cbn [fst snd].
  - rewrite L. apply Hs.
  - intros k Hk. rewrite F, decide_False by done. by apply Hs.
  - intros l ->. destruct o2 as [l0|] eqn:E0.
    + destruct (G l0 eq_refl) as (l' & -> & L' & F'). destruct (sl_frame2 _ _ _ _ Hs l l0 eq_refl eq_refl) as [L0 F0].
      exists l'. split; [done|]. split; [congruence|]. intros k Hk. rewrite F', decide_False by done. by apply F0.
    + discriminate (proj2 (sl_none _ _ _ _ Hs) eq_refl).
  - intros j Hj. destruct (sl_slots _ _ _ _ Hs j Hj) as (v & Ev & Hv & Hlf). exists (none_of v).
    rewrite F, decide_True, Ev by done. split; [done|]. split.
    { destruct Hv as [->|[->|Hc]]; [by left|by left|right; by rewrite (Hreal _ _ _ Hc)]. }
    intros Hrec. destruct (Hlf Hrec) as (v2 & Ev2 & Hl2). destruct o2 as [l0|]; [|done].
    destruct (G l0 eq_refl) as (l' & -> & L' & F'). exists (none_of v2). cbn [rd2 mbind option_bind] in *.
    rewrite F', decide_True, Ev2 by done. split; [done|]. unfold leaf_slot in Hl2.
    case_decide; [unfold none_of; by destruct (v2 =? UNDEF)|]. destruct Hl2 as [(-> & [->| ->])|[(-> & ->)|(Hc & c & Ec & Hcc)]]; [by left..|].
    right. rewrite (Hreal _ _ _ Hc), (Hreal _ _ _ Hcc). eauto.
  - intros i j v Hi Hj Ei Ej. rewrite F, decide_True in Ei by lia. rewrite F, decide_True in Ej by lia.
    destruct (sl_slots _ _ _ _ Hs i ltac:(lia)) as (vi & Evi & Hvi & _), (sl_slots _ _ _ _ Hs j ltac:(lia)) as (vj & Evj & Hvj & _).
    rewrite Evi in Ei. rewrite Evj in Ej. injection Ei as <-. injection Ej as Ej.
    destruct Hvi as [->|[->|Hci]]; [done|done|]. destruct Hvj as [->|[->|Hcj]]; [done|done|].
    rewrite (Hreal _ _ _ Hci), (Hreal _ _ _ Hcj) in Ej. subst vj. destruct (chosen_real _ _ _ Hci).
    destruct (sl_distinct _ _ _ _ Hs i j vi); done.
Qed.

Lemma indep_body_agree tries left out out2 s1 s2 : outpos <= endpos -> endpos <= Z.of_nat (length out) -> room2 endpos out2 ->
  (recurse_to_leaf = true -> out2 <> None) -> state_ok m s1 -> state_ok m s2 ->
  agree m (indep_post out out2)
    (indep_body m weight x choose_args bucket numrep type outpos endpos recurse_to_leaf parent_r leaf tries left out out2 s1)
    (indep_body m weight x choose_args bucket numrep type outpos endpos recurse_to_leaf parent_r leaf tries left out out2 s2).
Proof.
  intros Hle Hroom Hroom2 Htwo H1 H2. unfold indep_body. cbv zeta.
  assert (Hn : outpos + Z.of_nat (Z.to_nat (endpos - outpos)) = endpos) by lia.
  destruct (set_undef_ok (Z.to_nat (endpos - outpos)) outpos out out2) as (o & o2 & -> & L & F & G & N);
    [done|lia|by rewrite Hn|]. run. rewrite Hn in F. rewrite Hn in G.
  eapply agree_bind; [apply (indep_rounds_agree out out2); [by apply start_slots|lia|done|done]|].
  intros [[ftotal o'] o2'] t1 t2 [Hft Hs] Ht1 Ht2. cbn [fst snd] in *.
  destruct (set_none_ok (Z.to_nat (endpos - outpos)) outpos o' o2') as (o'' & o2'' & -> & L' & F' & G' & N');
    [done|rewrite Hn; apply Hs|rewrite Hn; apply Hs|]. run. rewrite Hn in F'. rewrite Hn in G'.
  destruct (count_tries_ok m ftotal t1) as (u1 & -> & Hu1); [done..|]. destruct (count_tries_ok m ftotal t2) as (u2 & -> & Hu2); [done..|].
  run. apply agree_done; [|done..]. by apply (end_slots out out2 o' o2').
Qed.
End Call.

(** ** The calls *)

Lemma indep_leaf_call_agree numrep tries c o2 rep r s1 s2 : numrep <> 0 -> in_map m c -> 0 <= rep < Z.of_nat (length o2) ->
  state_ok m s1 -> state_ok m s2 ->
  agree m (leaf_result c rep o2) (choose_indep_leaf m weight x choose_args numrep tries c (Some o2) rep r s1)
    (choose_indep_leaf m weight x choose_args numrep tries c (Some o2) rep r s2).
Proof.
  intros Hn Hc Hr H1 H2. destruct (map_rank m Hm) as [rank Hrank]. unfold choose_indep_leaf.
  eapply agree_bind; [eapply (indep_body_agree c numrep 0 rep (rep + 1) false); try done; lia|].
  intros [o o2'] t1 t2 Hp Ht1 Ht2. apply agree_done; [|done..]. split.
  - split; [apply (ip_len _ _ _ _ _ _ _ _ Hp)|]. intros k Hk. apply (ip_frame _ _ _ _ _ _ _ _ Hp). lia.
  - destruct (ip_filled _ _ _ _ _ _ _ _ Hp rep) as (v & Ev & Hv & _); [lia|]. by exists v.
Qed.

Lemma indep_agree bucket left numrep type out outpos tries recurse_tries recurse out2 parent_r s1 s2 :
  in_map m bucket -> numrep <> 0 -> 0 <= outpos -> 0 <= left -> outpos + left <= Z.of_nat (length out) ->
  room2 (outpos + left) out2 -> (recurse = true -> out2 <> None) -> state_ok m s1 -> state_ok m s2 ->
  agree m (indep_post bucket type outpos (outpos + left) recurse out out2)
    (crush_choose_indep m weight x choose_args bucket left numrep type out outpos tries recurse_tries recurse out2 parent_r s1)
    (crush_choose_indep m weight x choose_args bucket left numrep type out outpos tries recurse_tries recurse out2 parent_r s2).
Proof.
  intros Hb Hn Ho Hl Hroom Hroom2 Htwo H1 H2. destruct (map_rank m Hm) as [rank Hrank]. unfold crush_choose_indep.
  eapply indep_body_agree; try done; [|lia]. intros _ c l2 rep r t1 t2 Hc Hr Ht1 Ht2. by apply indep_leaf_call_agree.
Qed.
End Indep.
