(* ===== verification/CrRule.v ===== *)
(** * Running a rule (mapper.c: crush_do_rule)

    On a well-formed map a rule with bounded tries returns for every input,
    stays inside its arrays, and gives the same result whatever the working
    area holds from earlier calls. *)
From S2P Require Import Prelude CrHash CrBucket CrMapper CrPerm CrChoose CrMap CrFirstn CrIndep.

Lemma Forall_take_rd (P : Z -> Prop) (n : Z) (l : list Z) : (forall j, 0 <= j < n -> exists v, rd l j = Some v /\ P v) ->
  Forall P (take (Z.to_nat n) l).
Proof.
  intros H. apply Forall_lookup_2. intros i v Hv. apply lookup_take_Some in Hv. destruct Hv as [Hv Hi].
  destruct (H (Z.of_nat i)) as (v' & E & Hp); [lia|]. rewrite rd_lookup in E. congruence.
Qed.

(** The first [n] elements of [o] are kept, [p] new ones follow. *)
Lemma Forall_take_app (P : Z -> Prop) (n p : Z) (o out : list Z) : 0 <= n <= Z.of_nat (length o) -> 0 <= p ->
  Forall P (take (Z.to_nat n) o) -> Forall P (take (Z.to_nat p) out) ->
  Forall P (take (Z.to_nat (n + p)) (take (Z.to_nat n) o ++ out)).
Proof.
  intros Hn Hp Ho Hout. replace (Z.to_nat (n + p)) with (length (take (Z.to_nat n) o) + Z.to_nat p)%nat
    by (rewrite length_take; lia). rewrite take_app_add. by apply Forall_app.
Qed.

Section Rule.
Context (m : crush_map) (weight : list Z) (x : Z) (choose_args : option (list crush_choose_arg)).
Context (Hm : map_ok m).
Context (Hargs : forall args b, choose_args = Some args -> in_map m b ->
           exists a, rd args (-1 - b_id b) = Some a /\ arg_ok b a).

Local Abbreviation chosen := (chosen m weight x).

(** ** What a rule may ask for *)

Definition small (t : Z) : Prop := 0 <= t < 2 ^ 29.

Record tunables_ok : Prop := {
  tn_total : small (choose_total_tries m + 1) /\ 0 <= choose_total_tries m;
  tn_local : small (choose_local_tries m);
  tn_fallback : small (choose_local_fallback_tries m);
  tn_vary : 0 <= chooseleaf_vary_r m <= 32;
  tn_size : max_size m < 2 ^ 29 }.

Context (Htun : tunables_ok).

(** The numbers of tries that a step sets. *)
Definition step_ok (step : crush_rule_step) : Prop :=
  (s_op step = CRUSH_RULE_SET_CHOOSE_TRIES \/ s_op step = CRUSH_RULE_SET_CHOOSELEAF_TRIES \/
   s_op step = CRUSH_RULE_SET_CHOOSE_LOCAL_TRIES \/ s_op step = CRUSH_RULE_SET_CHOOSE_LOCAL_FALLBACK_TRIES ->
   s_arg1 step < 2 ^ 29) /\
  (s_op step = CRUSH_RULE_SET_CHOOSELEAF_VARY_R -> s_arg1 step <= 32).

(** ** The invariant *)

(** An entry of the working set: if it has the number of a bucket, the bucket exists. *)
Definition valid (v : Z) : Prop := 0 <= -1 - v < max_buckets m -> exists c, bucket_at m v = Done c.

Lemma valid_device v : 0 <= v -> valid v.
Proof. intros Hv H. lia. Qed.

Lemma valid_chosen b type v : chosen b type v -> valid v.
Proof. intros Hc Hv. destruct (ch_exists _ _ _ _ _ _ Hc); [lia|done]. Qed.

Record settings_ok (k : run) : Prop := {
  se_tries : small (choose_tries k);
  se_leaf : small (choose_leaf_tries k);
  se_local : small (choose_local_retries k);
  se_fallback : small (choose_local_fallback_retries k);
  se_vary : 0 <= vary_r k <= 32 }.

Record run_ok (rmax : Z) (k : run) : Prop := {
  ru_w : Z.of_nat (length (w_set k)) = rmax;
  ru_o : Z.of_nat (length (o_set k)) = rmax;
  ru_c : Z.of_nat (length (c_set k)) = rmax;
  ru_wsize : 0 <= wsize k <= rmax;
  ru_valid : Forall valid (take (Z.to_nat (wsize k)) (w_set k));
  ru_result : rmax <= Z.of_nat (length (result k));
  ru_len : 0 <= result_len k <= rmax;
  ru_settings : settings_ok k }.

Lemma bounds_small t lr fb : small t -> small lr -> small fb -> bounds_ok m (u32 t) (u32 lr) (u32 fb).
Proof.
  unfold small. intros Ht Hl Hf. pose proof (tn_size Htun). pose proof (max_size_nonneg m).
  unfold bounds_ok. rewrite !u32_small by lia. lia.
Qed.

(** ** Choosing *)

(** The arrays after a choice in some buckets of the working set. *)
Definition chosen_post (rmax : Z) (recurse : bool) (o c : list Z) (osize : Z) (a : list Z * list Z * Z) : Prop :=
  let '(o', c', osize') := a in
  length o' = length o /\ length c' = length c /\ osize <= osize' <= rmax /\
  Forall valid (take (Z.to_nat osize') (if recurse then c' else o')).

Lemma firstn_valid recurse bucket type n outpos count out out2 p o o2 :
  outpos = 0 -> loop_post m weight x bucket type recurse n outpos count out out2 (p, o, o2) ->
  Forall valid (take (Z.to_nat p) (if recurse then o2 else o)).
Proof.
  intros -> (_ & _ & _ & _ & _ & _ & Hpl). apply Forall_take_rd. intros j Hj.
  destruct (Hpl j ltac:(lia)) as (item & Hrd & Hch & _ & Hlf). destruct recurse.
  - destruct (Hlf eq_refl) as (lf & Hlf' & Hof). exists lf. split; [done|]. unfold leaf_of in Hof.
    destruct (item <? 0); [|subst lf; by eapply valid_chosen]. destruct Hof as (c & _ & Hc & _). by eapply valid_chosen.
  - exists item. split; [done|]. by eapply valid_chosen.
Qed.

Lemma indep_valid recurse bucket type n out out2 o o2 :
  indep_post m weight x bucket type 0 n recurse out (Some out2) (o, o2) ->
  Forall valid (take (Z.to_nat n) (if recurse then default [] o2 else o)).
Proof.
  intros Hp. assert (Hnone : valid CRUSH_ITEM_NONE) by (apply valid_device; done). apply Forall_take_rd. intros j Hj.
  destruct (ip_filled _ _ _ _ _ _ _ _ _ _ _ Hp j ltac:(lia)) as (v & Hrd & Hv & Hlf). destruct recurse.
  - destruct (Hlf eq_refl) as (v2 & Hv2 & Hc). exists v2. destruct o2 as [l2|]; [|done]. split; [done|].
    case_decide; [by apply valid_device|]. destruct Hc as [[_ ->]|(_ & c & _ & Hc)]; [done|by eapply valid_chosen].
  - exists v. split; [done|]. destruct Hv as [->|Hc]; [done|by eapply valid_chosen].
Qed.

Lemma take_drop_length {A} n (o out : list A) : length out = length (drop n o) -> length (take n o ++ out) = length o.
Proof. intros H. rewrite length_app, H, length_take, length_drop. lia. Qed.

Lemma choose_one_agree firstn recurse arg1 arg2 rmax k wi o c osize s1 s2 : settings_ok k -> valid wi ->
  Z.of_nat (length o) = rmax -> Z.of_nat (length c) = rmax -> 0 <= osize <= rmax ->
  Forall valid (take (Z.to_nat osize) (if recurse : bool then c else o)) -> state_ok m s1 -> state_ok m s2 ->
  agree m (chosen_post rmax recurse o c osize)
    (choose_one m weight x choose_args firstn recurse arg1 arg2 rmax k wi o c osize s1)
    (choose_one m weight x choose_args firstn recurse arg1 arg2 rmax k wi o c osize s2).
Proof.
  intros [S1 S2 S3 S4 S5] Hwi Ho Hc Hos Hv H1 H2. unfold choose_one. cbv zeta.
  assert (Hsame : agree m (chosen_post rmax recurse o c osize) (Done (o, c, osize, s1)) (Done (o, c, osize, s2))).
  { apply agree_done; [|done..]. split; [done|]. split; [done|]. split; [lia|done]. }
  set (numrep := if arg1 <=? 0 then arg1 + rmax else arg1). destruct (Z.leb_spec numrep 0) as [|Hn]; [done|].
  destruct ((-1 - wi <? 0) || (max_buckets m <=? -1 - wi)) eqn:Hb; [done|].
  apply orb_false_iff in Hb. destruct Hb as [Hb1%Z.ltb_ge Hb2%Z.leb_gt].
  destruct (Hwi ltac:(lia)) as [b Hbat]. rewrite Hbat. run. destruct (bucket_at_in m wi b Hm Hbat) as (_ & Hin & _).
  assert (Hlo : Z.of_nat (length (drop (Z.to_nat osize) o)) = rmax - osize) by (rewrite length_drop; lia).
  assert (Hlc : Z.of_nat (length (drop (Z.to_nat osize) c)) = rmax - osize) by (rewrite length_drop; lia).
  destruct firstn.
  - eapply agree_bind; [eapply firstn_agree; try done; try lia|].
    + by apply bounds_small.
    + intros _. split; [|by rewrite u32_small by lia]. apply bounds_small; try done.
      unfold small in *. destruct (choose_leaf_tries k =? 0), (chooseleaf_descend_once m =? 0); lia.
    + intros [[p out] out2] t1 t2 Hp Ht1 Ht2. pose proof (firstn_valid _ _ _ _ _ _ _ _ _ _ _ eq_refl Hp) as Hpv.
      destruct Hp as (Hp & Hpc & Hl1 & Hl2 & _). apply agree_done; [|done..].
      split; [by apply take_drop_length|]. split; [by apply take_drop_length|]. split; [lia|].
      destruct recurse; (apply Forall_take_app; [lia|lia|done|done]).
  - set (out_size := if numrep <? rmax - osize then numrep else rmax - osize).
    assert (Hos2 : 0 <= out_size <= rmax - osize) by (unfold out_size; destruct (Z.ltb_spec numrep (rmax - osize)); lia).
    eapply agree_bind; [eapply indep_agree; try done; try lia|].
    + intros l [= <-]. lia.
    + intros [out out2] t1 t2 Hp Ht1 Ht2. pose proof (indep_valid _ _ _ _ _ _ _ _ Hp) as Hpv.
      pose proof (ip_len _ _ _ _ _ _ _ _ _ _ _ Hp) as Hl1. destruct (ip_two _ _ _ _ _ _ _ _ _ _ _ Hp _ eq_refl) as (l2 & E2 & Hl2 & _).
      cbn [fst snd] in Hl1, E2. rewrite E2 in *. cbn [default from_option] in *. unfold id in *. apply agree_done; [|done..].
      split; [by apply take_drop_length|]. split; [by apply take_drop_length|]. split; [lia|].
      destruct recurse; (apply Forall_take_app; [lia|lia|done|done]).
Qed.

Lemma choose_all_agree firstn recurse arg1 arg2 rmax k ws : settings_ok k -> Forall valid ws ->
  forall o c osize s1 s2, Z.of_nat (length o) = rmax -> Z.of_nat (length c) = rmax -> 0 <= osize <= rmax ->
  Forall valid (take (Z.to_nat osize) (if recurse : bool then c else o)) -> state_ok m s1 -> state_ok m s2 ->
  agree m (chosen_post rmax recurse o c osize)
    (choose_all m weight x choose_args firstn recurse arg1 arg2 rmax k ws o c osize s1)
    (choose_all m weight x choose_args firstn recurse arg1 arg2 rmax k ws o c osize s2).
Proof.
  intros Hk Hws. induction Hws as [|wi ws Hwi Hws IH]; intros o c osize s1 s2 Ho Hc Hos Hv H1 H2; cbn [choose_all].
  { apply agree_done; [|done..]. split; [done|]. split; [done|]. split; [lia|done]. }
  eapply agree_bind; [by apply choose_one_agree|]. intros [[o' c'] osize'] t1 t2 (Hlo & Hlc & Hos' & Hv') Ht1 Ht2.
  eapply agree_mono; [apply IH; done || lia|]. intros [[o'' c''] osize''] (Hlo' & Hlc' & Hos'' & Hv'').
  split; [congruence|]. split; [congruence|]. split; [lia|done].
Qed.

Lemma choose_step_agree firstn recurse arg1 arg2 rmax k s1 s2 : run_ok rmax k -> state_ok m s1 -> state_ok m s2 ->
  agree m (run_ok rmax) (choose_step m weight x choose_args firstn recurse arg1 arg2 rmax k s1)
    (choose_step m weight x choose_args firstn recurse arg1 arg2 rmax k s2).
Proof.
  intros Hk H1 H2. unfold choose_step. destruct (wsize k =? 0); [by apply agree_done|]. pose proof Hk as [K1 K2 K3 K4 K5 K6 K7 K8].
  eapply agree_bind; [apply choose_all_agree; [done|done|done|done|lia|by destruct recurse|done|done]|].
  intros [[o c] osize] t1 t2 (Hlo & Hlc & Hos & Hv) Ht1 Ht2. cbv zeta. apply agree_done; [|done..].
  split; cbn; try done; try lia.
  - destruct recurse; [|lia]. rewrite length_app, length_take, length_drop. lia.
  - destruct recurse; [|done]. rewrite take_app_le by (rewrite length_take; lia). by rewrite take_take, Nat.min_id.
  - by destruct K8; split.
Qed.

(** ** The other steps *)

Lemma take_step_ok arg1 rmax k : run_ok rmax k -> 0 < rmax -> returns (run_ok rmax) (take_step m arg1 k).
Proof.
  intros Hk Hr. unfold take_step. destruct (_ || _) eqn:Ht; [|by apply returns_done]. pose proof Hk as [K1 K2 K3 K4 K5 K6 K7 K8].
  destruct (wr_spec (w_set k) 0 arg1) as (w & -> & Hl & Hrd); [lia|]. run. apply returns_done.
  split; cbn; try done; try lia; [|by destruct K8; split]. apply Forall_take_rd. intros j Hj. assert (j = 0) as -> by lia.
  exists arg1. split; [rewrite Hrd, decide_True by done; done|]. intros Hb. apply orb_true_iff in Ht. destruct Ht as [Ht|Ht].
  - apply andb_true_iff in Ht. destruct Ht as [Ht%Z.leb_le _]. lia.
  - apply andb_true_iff in Ht. destruct Ht as [_ Ht]. unfold bucket_at. destruct (rd (buckets m) (-1 - arg1)) as [[b|]|]; [|done..].
    by exists b.
Qed.

Lemma emit_loop_ok ws rmax : forall res len, rmax <= Z.of_nat (length res) -> 0 <= len <= rmax ->
  returns (fun a => rmax <= Z.of_nat (length a.1) /\ 0 <= a.2 <= rmax) (emit_loop ws rmax res len).
Proof.
  induction ws as [|wi ws IH]; intros res len Hr Hl; cbn [emit_loop]; [by apply returns_done|].
  destruct (Z.ltb_spec len rmax); cbn [negb]; [|by apply returns_done].
  destruct (wr_spec res len wi) as (res' & -> & Hl' & _); [lia|]. run. apply IH; lia.
Qed.

Lemma emit_step_ok rmax k : run_ok rmax k -> returns (run_ok rmax) (emit_step rmax k).
Proof.
  intros Hk. pose proof Hk as [K1 K2 K3 K4 K5 K6 K7 K8]. unfold emit_step.
  eapply returns_bind; [by apply emit_loop_ok|]. intros [res len] [Hr Hl]. apply returns_done.
  split; cbn; try done; try lia. by destruct K8; split.
Qed.

Lemma set_tries_ok rmax k t lt lr lf v st : run_ok rmax k -> small t -> small lt -> small lr -> small lf -> 0 <= v <= 32 ->
  run_ok rmax (set_tries k t lt lr lf v st).
Proof. intros [K1 K2 K3 K4 K5 K6 K7 K8] ? ? ? ? ?. by split; cbn. Qed.

Lemma agree_returns {A} (P : A -> Prop) (r : outcome A) s1 s2 : returns P r -> state_ok m s1 -> state_ok m s2 ->
  agree m P (a ← r; Done (a, s1)) (a ← r; Done (a, s2)).
Proof. intros (a & -> & Ha) H1 H2. by apply agree_done. Qed.

Lemma rule_step_agree rmax step k s1 s2 : 0 < rmax -> step_ok step -> run_ok rmax k -> state_ok m s1 -> state_ok m s2 ->
  agree m (run_ok rmax) (rule_step m weight x choose_args rmax step k s1) (rule_step m weight x choose_args rmax step k s2).
Proof.
  intros Hr [Hst Hvr] Hk H1 H2. unfold rule_step. cbv zeta.
  assert (Hset : forall (c : bool) k', (c = true -> run_ok rmax k') ->
    agree m (run_ok rmax) (Done (if c then k' else k, s1)) (Done (if c then k' else k, s2))).
  { intros c k' Hk'. apply agree_done; [|done..]. destruct c; auto. }
  pose proof (ru_settings _ _ Hk) as [S1 S2 S3 S4 S5]. unfold small in Hst.
  destruct (Z.eqb_spec (s_op step) CRUSH_RULE_TAKE); [by apply agree_returns, H2; [apply take_step_ok|]|].
  destruct (Z.eqb_spec (s_op step) CRUSH_RULE_SET_CHOOSE_TRIES) as [E|_].
  { apply Hset. intros Ha%Z.ltb_lt. specialize (Hst ltac:(auto)). apply set_tries_ok; try done. split; lia. }
  destruct (Z.eqb_spec (s_op step) CRUSH_RULE_SET_CHOOSELEAF_TRIES) as [E|_].
  { apply Hset. intros Ha%Z.ltb_lt. specialize (Hst ltac:(auto)). apply set_tries_ok; try done. split; lia. }
  destruct (Z.eqb_spec (s_op step) CRUSH_RULE_SET_CHOOSE_LOCAL_TRIES) as [E|_].
  { apply Hset. intros Ha%Z.leb_le. specialize (Hst ltac:(auto)). by apply set_tries_ok. }
  destruct (Z.eqb_spec (s_op step) CRUSH_RULE_SET_CHOOSE_LOCAL_FALLBACK_TRIES) as [E|_].
  { apply Hset. intros Ha%Z.leb_le. specialize (Hst ltac:(auto)). by apply set_tries_ok. }
  destruct (Z.eqb_spec (s_op step) CRUSH_RULE_SET_CHOOSELEAF_VARY_R) as [E|_].
  { apply Hset. intros Ha%Z.leb_le. specialize (Hvr E). by apply set_tries_ok. }
  destruct (Z.eqb_spec (s_op step) CRUSH_RULE_SET_CHOOSELEAF_STABLE) as [E|_].
  { apply Hset. intros _. by apply set_tries_ok. }
  destruct (_ || _); [by apply choose_step_agree|]. destruct (_ || _); [by apply choose_step_agree|].
  destruct (_ =? _); [by apply agree_returns, H2; [apply emit_step_ok|]|]. by apply agree_done.
Qed.

Lemma rule_steps_agree rmax steps : 0 < rmax -> Forall step_ok steps -> forall k s1 s2,
  run_ok rmax k -> state_ok m s1 -> state_ok m s2 ->
  agree m (run_ok rmax) (rule_steps m weight x choose_args rmax steps k s1) (rule_steps m weight x choose_args rmax steps k s2).
Proof.
  intros Hr Hst. induction Hst as [|step steps Hs Hst IH]; intros k s1 s2 Hk H1 H2; cbn [rule_steps]; [by apply agree_done|].
  eapply agree_bind; [by apply rule_step_agree|]. intros k' t1 t2 Hk' Ht1 Ht2. by apply IH.
Qed.

(** The state in which the steps start. *)
Definition start_run (res scratch : list Z) (rmax : Z) : run :=
  let n := Z.to_nat rmax in
  mkrun (take n scratch) 0 (take n (drop n scratch)) (take n (drop n (drop n scratch))) res 0
    (s32 (choose_total_tries m + 1)) 0 (s32 (choose_local_tries m)) (s32 (choose_local_fallback_tries m))
    (chooseleaf_vary_r m) (chooseleaf_stable m).

Lemma start_run_ok res scratch rmax : 0 <= rmax -> rmax <= Z.of_nat (length res) -> 3 * rmax <= Z.of_nat (length scratch) ->
  run_ok rmax (start_run res scratch rmax).
Proof.
  intros Hr Hres Hsc. destruct Htun as [[T1 T1'] T2 T3 T4 T5]. unfold small in *. unfold start_run.
  split; cbn; rewrite ?length_take, ?length_drop; try lia; [done|].
  split; cbn; unfold small; rewrite ?s32_small by lia; lia.
Qed.

Lemma do_rule_agree ruleno steps res rmax scratch s1 s2 : rd (rules m) ruleno = Some (Some steps) -> Forall step_ok steps ->
  ruleno < 2 ^ 32 -> 0 < rmax -> rmax <= Z.of_nat (length res) -> 3 * rmax <= Z.of_nat (length scratch) ->
  state_ok m s1 -> state_ok m s2 ->
  agree m (fun l => Z.of_nat (length l) <= rmax) (crush_do_rule m weight x choose_args ruleno res rmax scratch s1)
    (crush_do_rule m weight x choose_args ruleno res rmax scratch s2).
Proof.
  intros Hrule Hsteps Hno Hr Hres Hsc H1 H2. unfold crush_do_rule.
  assert (Hlt : 0 <= ruleno < max_rules m).
  { unfold rd in Hrule. destruct (Z.leb_spec 0 ruleno); [|done]. apply lookup_lt_Some in Hrule. unfold max_rules. lia. }
  rewrite u32_small by lia. rewrite (proj2 (Z.leb_gt _ _)) by lia. rewrite Hrule. run. cbv zeta.
  fold (start_run res scratch rmax). eapply agree_bind; [apply rule_steps_agree; [done|done|apply start_run_ok; lia|done|done]|].
  intros k t1 t2 Hk Ht1 Ht2. apply agree_done; [|done..]. rewrite length_take. pose proof (ru_len _ _ Hk). lia.
Qed.

(** ** Rules of the usual shape: take a bucket, choose below it, emit *)

Lemma emit_all ws rmax : forall res len, 0 <= len -> len + Z.of_nat (length ws) <= rmax -> rmax <= Z.of_nat (length res) ->
  exists res', emit_loop ws rmax res len = Done (res', len + Z.of_nat (length ws)) /\
    take (Z.to_nat (len + Z.of_nat (length ws))) res' = take (Z.to_nat len) res ++ ws.
Proof.
  induction ws as [|wi ws IH]; intros res len Hl Hr Hres; cbn [emit_loop].
  { exists res. rewrite Z.add_0_r, app_nil_r. done. }
  cbn [length] in Hr. rewrite (proj2 (Z.ltb_lt len rmax)) by lia. cbn [negb].
  destruct (wr_spec res len wi) as (res1 & E & Hl1 & Hrd); [lia|]. rewrite E. run.
  destruct (IH res1 (len + 1)) as (res' & -> & Ht); [lia|lia|lia|]. exists res'.
  replace (len + Z.of_nat (length (wi :: ws))) with (len + 1 + Z.of_nat (length ws)) by (cbn [length]; lia).
  split; [done|]. rewrite Ht. replace (Z.to_nat (len + 1)) with (S (Z.to_nat len)) by lia.
  rewrite (take_S_r _ _ wi), <- app_assoc by (rewrite <- rd_lookup, Z2Nat.id, Hrd, decide_True by lia; done).
  by rewrite (take_wr len len res res1 wi) by (done || lia).
Qed.

Definition numrep_of (arg1 rmax : Z) : Z := if arg1 <=? 0 then arg1 + rmax else arg1.

(** The step and its two flags. *)
Inductive choose_op : Z -> bool -> bool -> Prop :=
  | op_firstn : choose_op CRUSH_RULE_CHOOSE_FIRSTN true false
  | op_firstn_leaf : choose_op CRUSH_RULE_CHOOSELEAF_FIRSTN true true
  | op_indep : choose_op CRUSH_RULE_CHOOSE_INDEP false false
  | op_indep_leaf : choose_op CRUSH_RULE_CHOOSELEAF_INDEP false true.

(** The state of the rule after the take step. *)
Definition taken (root : Z) (k : run) : run :=
  mkrun (<[0%nat := root]> (w_set k)) 1 (o_set k) (c_set k) (result k) (result_len k) (choose_tries k) (choose_leaf_tries k)
    (choose_local_retries k) (choose_local_fallback_retries k) (vary_r k) (stable k).

Lemma take_bucket root b rmax k : bucket_at m root = Done b -> run_ok rmax k -> 0 < rmax -> take_step m root k = Done (taken root k).
Proof.
  intros Hb Hk Hr. pose proof (ru_w _ _ Hk). destruct (bucket_at_in m root b Hm Hb) as (Hid & Hin & Hneg).
  destruct (in_map_lookup m b Hin) as [Hrange Hl]. rewrite Hid in *. unfold take_step.
  rewrite (proj2 (Z.leb_gt 0 root)), (proj2 (Z.leb_le 0 (-1 - root))), (proj2 (Z.ltb_lt (-1 - root) (max_buckets m))) by lia.
  cbn [andb orb]. unfold rd. rewrite (proj2 (Z.leb_le 0 (-1 - root))), Hl by lia. by rewrite wr_Some by lia.
Qed.

Lemma rule_step_take rmax root k s :
  rule_step m weight x choose_args rmax (mkstep CRUSH_RULE_TAKE root 0) k s = (k ← take_step m root k; Done (k, s)).
Proof. done. Qed.

Lemma rule_step_emit rmax k s :
  rule_step m weight x choose_args rmax (mkstep CRUSH_RULE_EMIT 0 0) k s = (k ← emit_step rmax k; Done (k, s)).
Proof. done. Qed.

Lemma rule_step_choose rmax op firstn recurse arg1 arg2 k s : choose_op op firstn recurse ->
  rule_step m weight x choose_args rmax (mkstep op arg1 arg2) k s =
  choose_step m weight x choose_args firstn recurse arg1 arg2 rmax k s.
Proof. by intros []. Qed.

Lemma simple_rule ruleno root op arg1 arg2 firstn recurse res rmax scratch s o c n s' b :
  rd (rules m) ruleno = Some (Some [mkstep CRUSH_RULE_TAKE root 0; mkstep op arg1 arg2; mkstep CRUSH_RULE_EMIT 0 0]) ->
  choose_op op firstn recurse -> ruleno < 2 ^ 32 -> bucket_at m root = Done b ->
  0 < rmax -> rmax <= Z.of_nat (length res) -> 3 * rmax <= Z.of_nat (length scratch) ->
  let k := start_run res scratch rmax in
  choose_one m weight x choose_args firstn recurse arg1 arg2 rmax (taken root k) root (o_set k) (c_set k) 0 s = Done (o, c, n, s') ->
  0 <= n <= rmax -> Z.of_nat (length o) = rmax -> Z.of_nat (length c) = rmax ->
  crush_do_rule m weight x choose_args ruleno res rmax scratch s = Done (take (Z.to_nat n) (if recurse then c else o), s').
Proof.
  intros Hrule Hop Hno Hroot Hr Hres Hsc k Hone Hn Ho Hc. unfold crush_do_rule.
  assert (Hlt : 0 <= ruleno < max_rules m).
  { unfold rd in Hrule. destruct (Z.leb_spec 0 ruleno); [|done]. apply lookup_lt_Some in Hrule. unfold max_rules. lia. }
  rewrite u32_small by lia. rewrite (proj2 (Z.leb_gt _ _)) by lia. rewrite Hrule. run. cbv zeta.
  fold (start_run res scratch rmax). fold k. pose proof (start_run_ok res scratch rmax ltac:(lia) Hres Hsc) as Hk. fold k in Hk.
  cbn [rule_steps]. rewrite rule_step_take, (take_bucket root b rmax k Hroot Hk Hr). run.
  rewrite (rule_step_choose rmax op firstn recurse) by done. unfold choose_step. cbn [wsize taken Z.eqb w_set o_set c_set].
  assert (Hw : take (Z.to_nat 1) (<[0%nat:=root]> (w_set k)) = [root]).
  { pose proof (ru_w _ _ Hk). destruct (w_set k) as [|w ws]; [cbn in *; lia|done]. }
  rewrite Hw. cbn [choose_all]. fold (taken root k). rewrite Hone. run. cbv zeta.
  set (arr := if recurse then take (Z.to_nat n) c ++ drop (Z.to_nat n) o else o).
  assert (Harr : take (Z.to_nat n) arr = take (Z.to_nat n) (if recurse then c else o)).
  { unfold arr. destruct recurse; [|done]. rewrite take_app_le by (rewrite length_take; lia). by rewrite take_take, Nat.min_id. }
  assert (Hlen : Z.of_nat (length (take (Z.to_nat n) arr)) = n) by (rewrite Harr, length_take; destruct recurse; lia).
  rewrite rule_step_emit. unfold emit_step. cbn [w_set wsize result result_len].
  change (result (taken root k)) with res. change (result_len (taken root k)) with 0.
  destruct (emit_all (take (Z.to_nat n) arr) rmax res 0) as (res' & -> & Ht); [lia|lia|lia|]. run. rewrite Hlen, Z.add_0_l in *.
  cbn [result result_len]. rewrite Ht. cbn [take Z.to_nat app]. by rewrite Harr.
Qed.
End Rule.
