(* ===== verification/CrClaims.v ===== *)
(** * The promises of the mapper (ceph/src/crush)

    The theorems on whole mappings: they return, they do not depend on what the
    working area was used for before, and the usual rules give devices that are
    in and lie in different failure domains. *)
From S2P Require Import Prelude CrHash CrBucket CrMapper CrPerm CrChoose CrMap CrFirstn CrIndep CrRule.

(** ** Maps that can be used *)

Record crushmap_ok (m : crush_map) : Prop := {
  cm_map : map_ok m;
  cm_tunables : tunables_ok m;
  cm_rules : forall i steps, rd (rules m) i = Some (Some steps) -> Forall step_ok steps;
  cm_count : max_rules m < 2 ^ 32 }.

Definition args_ok (m : crush_map) (choose_args : option (list crush_choose_arg)) : Prop :=
  forall args b, choose_args = Some args -> in_map m b -> exists a, rd args (-1 - b_id b) = Some a /\ arg_ok b a.

(** The states that a working area and the histogram go through: set up by
    [crush_init_workspace], then used by mappings. *)
Inductive used (m : crush_map) : state -> Prop :=
  | used_init garbage prof :
      (forall i b, buckets m !! i = Some (Some b) -> b_size b <= Z.of_nat (length (garbage i))) ->
      (forall h, prof = Some h -> Z.of_nat (length h) = choose_total_tries m + 1) ->
      used m (mkstate (crush_init_workspace m garbage) prof)
  | used_rule s weight x choose_args ruleno res rmax scratch l s' :
      used m s -> args_ok m choose_args -> 0 <= ruleno < 2 ^ 31 -> 0 < rmax ->
      rmax <= Z.of_nat (length res) -> 3 * rmax <= Z.of_nat (length scratch) ->
      crush_do_rule m weight x choose_args ruleno res rmax scratch s = Done (l, s') -> used m s'.

Lemma init_state_ok m garbage prof : map_ok m ->
  (forall i b, buckets m !! i = Some (Some b) -> b_size b <= Z.of_nat (length (garbage i))) ->
  (forall h, prof = Some h -> Z.of_nat (length h) = choose_total_tries m + 1) ->
  state_ok m (mkstate (crush_init_workspace m garbage) prof).
Proof.
  intros Hm Hg Hp. split; cbn; [|by unfold crush_init_workspace; rewrite length_imap|done].
  intros b Hb. destruct (in_map_lookup m b Hb) as [Hr Hl]. unfold work_at, rd. cbn [work].
  rewrite (proj2 (Z.leb_le 0 _)) by lia. unfold crush_init_workspace. rewrite list_lookup_imap, Hl. cbn.
  eexists. split; [done|]. specialize (Hg _ _ Hl). destruct (map_buckets m Hm b Hb) as [[Hs _ _] _].
  split; cbn; [rewrite length_take; lia|done|done|done].
Qed.

Lemma used_ok m s : crushmap_ok m -> used m s -> state_ok m s.
Proof.
  intros Hm Hu. induction Hu as [garbage prof Hg Hp|s weight x args ruleno res rmax scratch l s' Hu IH Ha Hno Hr Hres Hsc Hrun].
  - apply init_state_ok; [apply Hm|done|done].
  - unfold crush_do_rule in Hrun. rewrite u32_small in Hrun by lia.
    destruct (Z.leb_spec (max_rules m) ruleno); [by injection Hrun as _ <-|].
    destruct (rd (rules m) ruleno) as [[steps|]|] eqn:Er; cbn in Hrun; try done.
    destruct (do_rule_agree m weight x args (cm_map m Hm) Ha (cm_tunables m Hm) ruleno steps res rmax scratch s s)
      as (l' & s1 & s2 & E1 & _ & _ & Hok & _); [done|by apply (cm_rules m Hm ruleno)|lia|done..|].
    unfold crush_do_rule in E1. rewrite u32_small in E1 by lia. rewrite (proj2 (Z.leb_gt _ _)) in E1 by lia.
    rewrite Er in E1. cbn in E1. rewrite E1 in Hrun. by injection Hrun as _ <-.
Qed.

Lemma rule_number m i v : crushmap_ok m -> rd (rules m) i = Some v -> 0 <= i < 2 ^ 32.
Proof.
  intros Hm H. pose proof (cm_count m Hm). unfold rd in H. destruct (Z.leb_spec 0 i); [|done].
  apply lookup_lt_Some in H. unfold max_rules in *. lia.
Qed.

(** C14: On a well-formed map every mapping returns, within its arrays, at most
    result_max items; and the result is a function of the map, the rule, the weights
    and the input: whatever mappings filled the permutations that the working area
    caches, the answer is the same. *)
Theorem crush_do_rule_deterministic m weight x choose_args ruleno steps res rmax scratch s1 s2 :
  crushmap_ok m -> args_ok m choose_args -> rd (rules m) ruleno = Some (Some steps) ->
  0 < rmax -> rmax <= Z.of_nat (length res) -> 3 * rmax <= Z.of_nat (length scratch) -> used m s1 -> used m s2 ->
  exists l s1' s2', crush_do_rule m weight x choose_args ruleno res rmax scratch s1 = Done (l, s1') /\
    crush_do_rule m weight x choose_args ruleno res rmax scratch s2 = Done (l, s2') /\ Z.of_nat (length l) <= rmax.
Proof.
  intros Hm Ha Hrule Hr Hres Hsc H1 H2. pose proof (rule_number m _ _ Hm Hrule).
  destruct (do_rule_agree m weight x choose_args (cm_map m Hm) Ha (cm_tunables m Hm) ruleno steps res rmax scratch s1 s2)
    as (l & t1 & t2 & E1 & E2 & Hl & _); [done|by apply (cm_rules m Hm ruleno)|lia|done..|by apply used_ok|by apply used_ok|].
  by exists l, t1, t2.
Qed.

(** ** Placements *)

(** A failure domain of type [t] below [b] and a device in it, both usable. *)
Definition placement (m : crush_map) (weight : list Z) (x : Z) (b : crush_bucket) (t d dev : Z) : Prop :=
  chosen m weight x b t d /\ exists c, bucket_at m d = Done c /\ chosen m weight x c 0 dev.

Lemma NoDup_take_rd p (o : list Z) : (forall j, 0 <= j < p -> exists v, rd o j = Some v /\ v ∉ take (Z.to_nat j) o) ->
  NoDup (take (Z.to_nat p) o).
Proof.
  intros H. apply NoDup_alt. intros i j v Hi Hj.
  assert (Hlt : forall a b, take (Z.to_nat p) o !! a = Some v -> take (Z.to_nat p) o !! b = Some v -> ~ (a < b)%nat).
  { intros a b Hva Hvb Hab. apply lookup_take_Some in Hva. destruct Hva as [Hva Ha]. apply lookup_take_Some in Hvb. destruct Hvb as [Hvb Hb].
    destruct (H (Z.of_nat b)) as (v' & E & Hn); [lia|]. rewrite rd_lookup, Hvb in E. injection E as <-. apply Hn.
    rewrite Nat2Z.id. apply (list_elem_of_lookup_2 _ a). by rewrite lookup_take_lt. }
  pose proof (Hlt i j Hi Hj). pose proof (Hlt j i Hj Hi). lia.
Qed.

Lemma Forall2_take_rd (P : Z -> Z -> Prop) n (o o2 : list Z) : n <= Z.of_nat (length o) -> n <= Z.of_nat (length o2) ->
  (forall j, 0 <= j < n -> exists v v2, rd o j = Some v /\ rd o2 j = Some v2 /\ P v v2) ->
  Forall2 P (take (Z.to_nat n) o) (take (Z.to_nat n) o2).
Proof.
  intros Ho Ho2 H. apply Forall2_same_length_lookup_2; [rewrite !length_take; lia|]. intros i v v2 Hv Hv2.
  apply lookup_take_Some in Hv, Hv2. destruct Hv as [Hv Hi], Hv2 as [Hv2 _].
  destruct (H (Z.of_nat i)) as (w & w2 & E & E2 & HP); [lia|]. rewrite rd_lookup in E, E2. congruence.
Qed.

(** The setting of both theorems: a rule that takes a bucket and chooses leaves below it. *)
Section Placement.
Context (m : crush_map) (weight : list Z) (x : Z) (choose_args : option (list crush_choose_arg)).
Context (Hm : crushmap_ok m) (Ha : args_ok m choose_args).
Context (ruleno root : Z) (b : crush_bucket) (n t : Z) (Ht : t <> 0) (Hroot : bucket_at m root = Done b).
Context (res : list Z) (rmax : Z) (scratch : list Z).
Context (Hr : 0 < rmax) (Hres : rmax <= Z.of_nat (length res)) (Hsc : 3 * rmax <= Z.of_nat (length scratch)).
Context (Hn : 0 < numrep_of n rmax).

Local Abbreviation k0 := (start_run m res scratch rmax).

Lemma root_valid : in_map m b /\ (-1 - root <? 0) || (max_buckets m <=? -1 - root) = false.
Proof.
  destruct (bucket_at_in m root b (cm_map m Hm) Hroot) as (Hid & Hin & Hneg). split; [done|].
  destruct (in_map_lookup m b Hin) as [Hrange _]. rewrite Hid in Hrange. apply orb_false_iff.
  split; [apply Z.ltb_ge; lia|apply Z.leb_gt; lia].
Qed.

Lemma start_ok : run_ok m rmax k0.
Proof. apply start_run_ok; [apply Hm|lia|done|done]. Qed.

Lemma firstn_choice s : state_ok m s -> exists p o c s',
  choose_one m weight x choose_args true true n t rmax (taken root k0) root (o_set k0) (c_set k0) 0 s = Done (o, c, p, s') /\
  loop_post m weight x b t true (Z.to_nat (numrep_of n rmax)) 0 rmax (o_set k0) (c_set k0) (p, o, c).
Proof.
  intros Hs. destruct root_valid as [Hin Hbno]. pose proof start_ok as Hk.
  pose proof (ru_o _ _ _ Hk). pose proof (ru_c _ _ _ Hk). pose proof (ru_settings _ _ _ Hk) as [S1 S2 S3 S4 S5].
  unfold choose_one. cbv zeta. fold (numrep_of n rmax). rewrite (proj2 (Z.leb_gt _ _)) by lia. rewrite Hbno, Hroot. run.
  rewrite !drop_0, !Z.sub_0_r. set (call := crush_choose_firstn _ _ _ _ _ _ _ _ _ _ _ _ _ _ _ _ _ _ _ s).
  assert (Hc : agree m (loop_post m weight x b t true (Z.to_nat (numrep_of n rmax)) 0 rmax (o_set k0) (c_set k0)) call call).
  { eapply agree_mono; [apply firstn_agree; [apply Hm|done|done|by apply bounds_small; [apply Hm|..]| |done|lia|intros _; lia|done|done]|].
    - intros _. change (vary_r (taken root k0)) with (vary_r k0). split; [|by rewrite u32_small by lia].
      apply bounds_small; [apply Hm| |done|done]. repeat case_match; done.
    - intros a. destruct (u32 (stable (taken root k0)) =? 0); by rewrite Z.sub_0_r. }
  destruct Hc as ([[p o] c] & s' & _ & -> & _ & Hp & _). run. exists p, o, c, s'. done.
Qed.

(** C4: A rule that takes a bucket and chooses leaves, first n, under failure
    domains of type t: it returns at most the number of replicas asked for; the
    devices are different, below the bucket and in, and they lie in different
    failure domains of that type. *)
Theorem crush_firstn_placement s :
  rd (rules m) ruleno = Some (Some [mkstep CRUSH_RULE_TAKE root 0; mkstep CRUSH_RULE_CHOOSELEAF_FIRSTN n t; mkstep CRUSH_RULE_EMIT 0 0]) ->
  used m s ->
  exists devs domains s', crush_do_rule m weight x choose_args ruleno res rmax scratch s = Done (devs, s') /\
    Z.of_nat (length devs) <= Z.min (numrep_of n rmax) rmax /\ NoDup devs /\ NoDup domains /\
    Forall2 (placement m weight x b t) domains devs.
Proof.
  intros Hrule Hu. pose proof start_ok as Hk. pose proof (ru_o _ _ _ Hk) as Ho. pose proof (ru_c _ _ _ Hk) as Hc.
  destruct (firstn_choice s (used_ok m s Hm Hu)) as (p & o & c & s' & E & Hp1 & Hp2 & Hlo & Hlc & _ & _ & Hpl).
  exists (take (Z.to_nat p) c), (take (Z.to_nat p) o), s'.
  rewrite (simple_rule m weight x choose_args (cm_map m Hm) (cm_tunables m Hm) ruleno root _ n t true true res rmax scratch s o c p s' b Hrule)
    by (done || lia || constructor || apply (rule_number m _ _ Hm Hrule)).
  assert (Hplace : forall j, 0 <= j < p -> exists d dev, rd o j = Some d /\ rd c j = Some dev /\ (d ∉ take (Z.to_nat j) o) /\
    (dev ∉ take (Z.to_nat j) c) /\ placement m weight x b t d dev).
  { intros j Hj. destruct (Hpl j Hj) as (d & Hd & Hch & Hnd & Hlf). destruct (Hlf eq_refl) as (dev & Hdev & Hof).
    unfold leaf_of in Hof. rewrite (chosen_sign m weight x (cm_map m Hm) b t d Hch), (proj2 (Z.eqb_neq t 0) Ht) in Hof.
    destruct Hof as (cb & Hcb & Hcc & Hnl). exists d, dev. do 4 (split; [done|]). split; [done|]. by exists cb. }
  split; [done|]. split; [rewrite length_take; lia|]. split; [|split].
  - apply NoDup_take_rd. intros j Hj. destruct (Hplace j Hj) as (d & dev & _ & ? & _ & ? & _). by exists dev.
  - apply NoDup_take_rd. intros j Hj. destruct (Hplace j Hj) as (d & dev & ? & _ & ? & _). by exists d.
  - apply Forall2_take_rd; [lia|lia|]. intros j Hj. destruct (Hplace j Hj) as (d & dev & ? & ? & _ & _ & ?). by exists d, dev.
Qed.

Lemma indep_choice s : state_ok m s -> exists o c s',
  choose_one m weight x choose_args false true n t rmax (taken root k0) root (o_set k0) (c_set k0) 0 s =
    Done (o, c, Z.min (numrep_of n rmax) rmax, s') /\
  indep_post m weight x b t 0 (Z.min (numrep_of n rmax) rmax) true (o_set k0) (Some (c_set k0)) (o, Some c).
Proof.
  intros Hs. destruct root_valid as [Hin Hbno]. pose proof start_ok as Hk.
  pose proof (ru_o _ _ _ Hk). pose proof (ru_c _ _ _ Hk).
  unfold choose_one. cbv zeta. fold (numrep_of n rmax). rewrite (proj2 (Z.leb_gt _ _)) by lia. rewrite Hbno, Hroot. run.
  rewrite !drop_0, !Z.sub_0_r.
  replace (if numrep_of n rmax <? rmax then numrep_of n rmax else rmax) with (Z.min (numrep_of n rmax) rmax)
    by (destruct (Z.ltb_spec (numrep_of n rmax) rmax); lia).
  set (call := crush_choose_indep _ _ _ _ _ _ _ _ _ _ _ _ _ _ _ s).
  assert (Hc : agree m (indep_post m weight x b t 0 (0 + Z.min (numrep_of n rmax) rmax) true (o_set k0) (Some (c_set k0))) call call).
  { apply indep_agree; [apply Hm|done|done|lia|lia|lia|lia| |done|done|done]. intros l El. assert (l = c_set k0) as -> by congruence. lia. }
  destruct Hc as ([o o2] & s' & _ & -> & _ & Hp & _). run. rewrite Z.add_0_l in Hp.
  destruct (ip_two _ _ _ _ _ _ _ _ _ _ _ Hp _ eq_refl) as (c & E & _). cbn [snd] in E. rewrite E in *. by exists o, c, s'.
Qed.

(** C10: The rule take, chooseleaf indep n of type t, emit, by position, as
    erasure-coded pools use it, for failure domains that are buckets (t is not 0,
    the type of devices): on a well-formed map with supported tunables (no cycles,
    existing items, numbers of tries below 2^29), whatever earlier mappings left in
    the working area, with arrays that hold result_max entries and three times as
    many, a positive number of positions asked for (n, or result_max plus n if n is
    not positive) and replacement weights, if there are any, that fit the buckets,
    the mapping returns as many positions as asked for (at most result_max); every
    position holds a device that is in and lies in a failure domain of type t below
    the taken bucket, or is empty (CRUSH_ITEM_NONE), and the failure domains of
    different positions differ. *)
Theorem crush_indep_placement s :
  rd (rules m) ruleno = Some (Some [mkstep CRUSH_RULE_TAKE root 0; mkstep CRUSH_RULE_CHOOSELEAF_INDEP n t; mkstep CRUSH_RULE_EMIT 0 0]) ->
  used m s ->
  exists devs domains s', crush_do_rule m weight x choose_args ruleno res rmax scratch s = Done (devs, s') /\
    Z.of_nat (length devs) = Z.min (numrep_of n rmax) rmax /\
    Forall2 (fun d dev => d = CRUSH_ITEM_NONE /\ dev = CRUSH_ITEM_NONE \/ placement m weight x b t d dev) domains devs /\
    forall i j d, i <> j -> domains !! i = Some d -> domains !! j = Some d -> d = CRUSH_ITEM_NONE.
Proof.
  intros Hrule Hu. pose proof start_ok as Hk. pose proof (ru_o _ _ _ Hk) as Ho. pose proof (ru_c _ _ _ Hk) as Hc.
  destruct (indep_choice s (used_ok m s Hm Hu)) as (o & c & s' & E & Hp). set (p := Z.min (numrep_of n rmax) rmax) in *.
  destruct (ip_two _ _ _ _ _ _ _ _ _ _ _ Hp _ eq_refl) as (c' & [= <-] & Hlc & _). pose proof (ip_len _ _ _ _ _ _ _ _ _ _ _ Hp) as Hlo. cbn [fst] in Hlo.
  exists (take (Z.to_nat p) c), (take (Z.to_nat p) o), s'.
  rewrite (simple_rule m weight x choose_args (cm_map m Hm) (cm_tunables m Hm) ruleno root _ n t false true res rmax scratch s o c p s' b Hrule)
    by (done || lia || constructor || apply (rule_number m _ _ Hm Hrule)).
  split; [done|]. split; [rewrite length_take; lia|]. split.
  - apply Forall2_take_rd; [lia|lia|]. intros j Hj. destruct (ip_filled _ _ _ _ _ _ _ _ _ _ _ Hp j Hj) as (d & Hd & _ & Hlf).
    destruct (Hlf eq_refl) as (dev & Hdev & Hof). rewrite decide_False in Hof by done. exists d, dev. do 2 (split; [done|]). exact Hof.
  - assert (Hlt : forall i j d, (i < j)%nat -> take (Z.to_nat p) o !! i = Some d -> take (Z.to_nat p) o !! j = Some d -> d = CRUSH_ITEM_NONE).
    { intros i j d Hij Hi Hj. apply lookup_take_Some in Hi, Hj. destruct Hi as [Hi _], Hj as [Hj Hjp].
      apply (ip_distinct _ _ _ _ _ _ _ _ _ _ _ Hp (Z.of_nat i) (Z.of_nat j)); [lia|lia|by rewrite rd_lookup|by rewrite rd_lookup]. }
    intros i j d Hij Hi Hj. destruct (decide (i < j)%nat); [by apply (Hlt i j)|apply (Hlt j i); [lia|done|done]].
Qed.
End Placement.

(** ** Examples *)

Definition ex_host (id a b : Z) : crush_bucket := mkbucket id 1 0 0x20000 2 [a; b] (Straw2 [0x10000; 0x10000]).
Definition ex_root : crush_bucket := mkbucket (-1) 10 0 0x60000 3 [-2; -3; -4] (Straw2 [0x20000; 0x20000; 0x20000]).
Definition ex_rule (op n t : Z) : list crush_rule_step :=
  [mkstep CRUSH_RULE_TAKE (-1) 0; mkstep op n t; mkstep CRUSH_RULE_EMIT 0 0].

(** Three hosts with two devices each; a replicated and an erasure-coded rule. *)
Definition ex_map : crush_map :=
  mkmap [Some ex_root; Some (ex_host (-2) 0 1); Some (ex_host (-3) 2 3); Some (ex_host (-4) 4 5)]
    [Some (ex_rule CRUSH_RULE_CHOOSELEAF_FIRSTN 0 1); Some (ex_rule CRUSH_RULE_CHOOSELEAF_INDEP 0 1)] 6 0 0 19 1 1 1.

Lemma ex_in_map b : in_map ex_map b -> b = ex_root \/ b = ex_host (-2) 0 1 \/ b = ex_host (-3) 2 3 \/ b = ex_host (-4) 4 5.
Proof.
  intros Hb. destruct (in_map_lookup ex_map b Hb) as [_ Hl]. revert Hl. generalize (Z.to_nat (-1 - b_id b)).
  intros [|[|[|[|i]]]] Hl; cbn in Hl; try discriminate Hl; injection Hl as <-; auto.
Qed.

Lemma ex_bucket_ok b : in_map ex_map b -> bucket_ok b /\ 0 < b_type b.
Proof.
  intros Hb. destruct (ex_in_map b Hb) as [->|[->|[->| ->]]]; (split; [|done]); (split; [cbn; lia|done|]; intros _; split; [done|];
    repeat constructor; lia).
Qed.

Lemma ex_map_ok : crushmap_ok ex_map.
Proof.
  split.
  - split; [| |intros b item Hb Hi Hn| |done].
    + intros [|[|[|[|i]]]] b Hl; cbn in Hl; try discriminate Hl; injection Hl as <-; done.
    + apply ex_bucket_ok.
    + destruct (ex_in_map b Hb) as [->|[->|[->| ->]]]; unfold items_of in Hi; simpl in Hi; rewrite !elem_of_cons in Hi;
        destruct_or! Hi; subst; try lia; try (by apply elem_of_nil in Hi); eexists; reflexivity.
    + exists (fun i => if i =? -1 then 1%nat else 0%nat). intros b Hb. destruct (ex_in_map b Hb) as [->|[->|[->| ->]]]; (split; [cbn; lia|]);
        intros item Hi Hn; unfold items_of in Hi; simpl in Hi; rewrite !elem_of_cons in Hi; destruct_or! Hi; subst; try lia; try (by apply elem_of_nil in Hi); cbn; lia.
  - split; unfold small; cbn; lia.
  - intros i steps Hi. unfold rd in Hi. destruct (0 <=? i); [|done].
    destruct (Z.to_nat i) as [|[|k]]; cbn in Hi; try discriminate Hi; injection Hi as <-;
      repeat constructor; cbn; intros H; (destruct_or! H || idtac); discriminate H.
  - done.
Qed.

Definition ex_state (v : Z) : state := mkstate (crush_init_workspace ex_map (fun _ => repeat v 3)) None.

Lemma ex_used v : used ex_map (ex_state v).
Proof.
  apply used_init; [|done]. intros i b Hl. rewrite repeat_length.
  destruct i as [|[|[|[|i]]]]; cbn in Hl; try discriminate Hl; injection Hl as <-; cbn; lia.
Qed.

Lemma no_args m : args_ok m None.
Proof. done. Qed.

Lemma crush_do_rule_deterministic_witness : exists l s1' s2',
  crush_do_rule ex_map (repeat 0x10000 6) 5 None 0 (repeat 0 3) 3 (repeat 0 9) (ex_state 0) = Done (l, s1') /\
  crush_do_rule ex_map (repeat 0x10000 6) 5 None 0 (repeat 0 3) 3 (repeat 0 9) (ex_state 7) = Done (l, s2') /\
  Z.of_nat (length l) <= 3.
Proof.
  apply (crush_do_rule_deterministic ex_map (repeat 0x10000 6) 5 None 0 (ex_rule CRUSH_RULE_CHOOSELEAF_FIRSTN 0 1)
    (repeat 0 3) 3 (repeat 0 9) (ex_state 0) (ex_state 7) ex_map_ok (no_args _)); try apply ex_used; done.
Defined.

Lemma crush_firstn_placement_witness : exists devs domains s',
  crush_do_rule ex_map (repeat 0x10000 6) 5 None 0 (repeat 0 3) 3 (repeat 0 9) (ex_state 0) = Done (devs, s') /\
  Z.of_nat (length devs) <= 3 /\ NoDup devs /\ NoDup domains /\
  Forall2 (placement ex_map (repeat 0x10000 6) 5 ex_root 1) domains devs.
Proof.
  apply (crush_firstn_placement ex_map (repeat 0x10000 6) 5 None ex_map_ok (no_args _) 0 (-1) ex_root 0 1); try apply ex_used; done.
Defined.

Lemma crush_indep_placement_witness : exists devs domains s',
  crush_do_rule ex_map (repeat 0x10000 6) 5 None 1 (repeat 0 3) 3 (repeat 0 9) (ex_state 0) = Done (devs, s') /\
  Z.of_nat (length devs) = 3 /\
  Forall2 (fun d dev => d = CRUSH_ITEM_NONE /\ dev = CRUSH_ITEM_NONE \/ placement ex_map (repeat 0x10000 6) 5 ex_root 1 d dev) domains devs /\
  forall i j d, i <> j -> domains !! i = Some d -> domains !! j = Some d -> d = CRUSH_ITEM_NONE.
Proof.
  apply (crush_indep_placement ex_map (repeat 0x10000 6) 5 None ex_map_ok (no_args _) 1 (-1) ex_root 0 1); try apply ex_used; done.
Defined.

(** ** Choosing devices by position *)

(** Two devices in one bucket: leaves chosen by position, and devices chosen by position. *)
Definition flat_map : crush_map :=
  mkmap [Some (mkbucket (-1) 1 0 0x20000 2 [0; 1] (Straw2 [0x10000; 0x10000]))]
    [Some (ex_rule CRUSH_RULE_CHOOSELEAF_INDEP 2 0); Some (ex_rule CRUSH_RULE_CHOOSE_INDEP 2 0)] 2 0 0 3 1 1 1.

Definition flat_run (x ruleno : Z) : outcome (list Z) :=
  '(l, _) ← crush_do_rule flat_map [0; 0x10000] x None ruleno [0; 0] 2 (repeat 0 6)
              (mkstate (crush_init_workspace flat_map (fun _ => [0; 0])) None);
  Done l.

(** Choosing leaves by position when the failure domain is the device itself
    puts devices that are out into the result: the leaf is stored before the device
    is checked, and stays when the device is rejected. Device 0 has weight 0 and is
    given out; choosing devices directly leaves the position empty. *)
Theorem chooseleaf_indep_gives_out :
  flat_run 0 0 = Done [0; 1] /\ is_out [0; 0x10000] 0 0 = Done true /\ flat_run 0 1 = Done [CRUSH_ITEM_NONE; 1].
Proof. vm_compute. done. Qed.

(** ** Permutations and logarithms *)

(** C28: The choice by permutation, with its lazily built and cached permutation and
    its shortcut for the first position, answers with one permutation of the
    positions of the bucket for each input, whatever calls were made before. *)
Theorem bucket_perm_correct b : bucket_ok b -> 0 < b_size b ->
  exists sigma : Z -> list Z, forall x, sigma x ≡ₚ range (Z.to_nat (b_size b)) /\
    forall w r, work_ok b w -> exists s item w', rd (sigma x) (u32 r mod b_size b) = Some s /\ rd (b_items b) s = Some item /\
      bucket_perm_choose b w x r = Done (item, w') /\ work_ok b w'.
Proof.
  intros Hb Hs. pose proof (ok_size b Hb). pose proof (ok_items b Hb) as Hi. exists (permutation b). intros x.
  split; [apply permutation_perm; lia|]. intros w r Hw.
  destruct (perm_choose_ok b ltac:(lia) Hi w x r Hw) as (item & w' & E & Ep & Hw').
  destruct (perm_item_total b ltac:(lia) Hi x r) as (s & item' & E1 & E2 & _).
  unfold perm_item in Ep. rewrite E1 in Ep. cbn in Ep. rewrite E2 in Ep. injection Ep as ->. by exists s, item, w'.
Qed.

Lemma bucket_perm_correct_witness : exists sigma : Z -> list Z, forall x, sigma x ≡ₚ range 3 /\
    forall w r, work_ok ex_root w -> exists s item w', rd (sigma x) (u32 r mod 3) = Some s /\ rd [-2; -3; -4] s = Some item /\
      bucket_perm_choose ex_root w x r = Done (item, w') /\ work_ok ex_root w'.
Proof. apply (bucket_perm_correct ex_root); [by apply ex_bucket_ok|done]. Defined.

(** C39: The table-driven logarithm reads inside its tables for all 16-bit inputs,
    its values are in [0, 2^48), so that the logarithms of draws are negative; it is
    monotone on all inputs but the largest, where it drops. *)
Theorem crush_ln_correct :
  (forall u, 0 <= u < 2 ^ 16 -> exists v, crush_ln u = Some v /\ 0 <= v < 2 ^ 48) /\
  (forall u v a b, 0 <= u <= v -> v < 2 ^ 16 - 1 -> crush_ln u = Some a -> crush_ln v = Some b -> a <= b) /\
  (exists a b, crush_ln (2 ^ 16 - 2) = Some a /\ crush_ln (2 ^ 16 - 1) = Some b /\ b < a).
Proof.
  split; [exact crush_ln_total|]. split; [exact crush_ln_le|]. do 2 eexists. split; [vm_compute; reflexivity|].
  split; [vm_compute; reflexivity|]. lia.
Qed.
