(* ===== verification/Doubles.v ===== *)
(** * Doubles

    The type [double] of C, as the floating-point numbers of the Standard Library
    with 53 bits of precision, and the conversions from and to integers. *)
From Stdlib Require Import SpecFloat.
From S2P Require Import Prelude.

Definition double : Set := spec_float.
Definition double_of (x : Z) : double := binary_normalize 53 1024 x 0 false.
Definition dadd : double -> double -> double := SFadd 53 1024.
Definition dsub : double -> double -> double := SFsub 53 1024.
Definition dmul : double -> double -> double := SFmul 53 1024.
Definition ddiv : double -> double -> double := SFdiv 53 1024.

(** The integer part of a double that fits in 32 bits. *)
Definition trunc32 (x : double) : option Z :=
  match x with
  | S754_zero _ => Some 0
  | S754_finite false m e =>
      let v := Z.shiftl (Zpos m) e in if v <? 2 ^ 32 then Some v else None
  | _ => None
  end.
