(* ===== verification/CrBuilder.v ===== *)
(** * Building buckets (ceph/src/crush: builder.c, crush.c, crush.h)

    The functions that make a bucket, add an item to it, remove one, and change
    a weight, for each of the five algorithms.  A bucket is a value; its arrays
    have as many cells as were allocated, which may be more than its size.
    [fresh] is what memory holds after an allocation, [mem] says which
    allocations succeed.  Results of signed arithmetic wrap around. *)
From S2P Require Import Prelude Doubles CrHash CrBucket.

Definition ENOENT : Z := 2.
Definition ERANGE : Z := 34.

Definition u8 (x : Z) : Z := x mod 2 ^ 8.
Definition u16 (x : Z) : Z := x mod 2 ^ 16.

(** ** Safe arithmetic *)

Definition crush_addition_is_unsafe (a b : Z) : bool := 2 ^ 32 - 1 - b <? a.

Definition crush_multiplication_is_unsafe (a b : Z) : bool :=
  if a =? 0 then false
  else if b =? 0 then true
  else (2 ^ 32 - 1) / b <? a.

(** ** The nodes of a tree bucket *)

Definition crush_calc_tree_node (i : Z) : Z := Z.shiftl (i + 1) 1 - 1.

Definition on_right (n h : Z) : bool := negb (Z.land n (Z.shiftl 1 (h + 1)) =? 0).

Definition parent (n : Z) : outcome Z :=
  h ← height height_fuel n;
  Done (if on_right n h then n - Z.shiftl 1 h else n + Z.shiftl 1 h).

Fixpoint depth_loop (fuel : nat) (t depth : Z) : outcome Z :=
  match fuel with
  | O => NoFuel
  | S fuel => if t =? 0 then Done depth else depth_loop fuel (Z.shiftr t 1) (depth + 1)
  end.

(** An [int] has 31 bits besides its sign. *)
Definition calc_depth (size : Z) : outcome Z :=
  if size =? 0 then Done 0 else depth_loop 32 (size - 1) 1.

(** [for (j = 1; j < depth; j++)]: the weight is added to [n] ancestors of a
    node; the result is [false] when one of them would overflow. *)
Fixpoint climb_add (n : nat) (node weight : Z) (W : list Z) : outcome (bool * list Z) :=
  match n with
  | O => Done (true, W)
  | S n =>
      node ← parent node;
      w ← need (rd W node);
      if crush_addition_is_unsafe w weight then Done (false, W) else
      W ← need (wr W node (u32 (w + weight)));
      climb_add n node weight W
  end.

(** The same loop without the check, in 32-bit arithmetic. *)
Fixpoint climb (n : nat) (node diff : Z) (W : list Z) : outcome (list Z) :=
  match n with
  | O => Done W
  | S n =>
      node ← parent node;
      w ← need (rd W node);
      W ← need (wr W node (u32 (w + diff)));
      climb n node diff W
  end.

(** ** Straw lengths *)

Section Straw.
(** The library function [pow], the value that the conversion of a double that
    does not fit gives, and the tunable of the map. *)
Context (pow : double -> double -> double) (wild : double -> Z) (straw_calc_version : Z).

Definition to_u32 (x : double) : Z := default (u32 (wild x)) (trunc32 x).

(** The first position [j >= from] of the sorted part whose weight is larger. *)
Fixpoint find_place (n : nat) (from w : Z) (weights reverse : list Z) : outcome Z :=
  match n with
  | O => Done from
  | S n =>
      p ← need (rd reverse from);
      v ← need (rd weights p);
      if w <? v then Done from else find_place n (from + 1) w weights reverse
  end.

(** [for (k = i; k > j; k--) reverse[k] = reverse[k-1];], [n] rounds from [k] down. *)
Fixpoint shift_cells (n : nat) (k : Z) (reverse : list Z) : option (list Z) :=
  match n with
  | O => Some reverse
  | S n => p ← rd reverse (k - 1); r ← wr reverse k p; shift_cells n (k - 1) r
  end.

Definition insert_position (weights : list Z) (i : Z) (reverse : list Z) : outcome (list Z) :=
  w ← need (rd weights i);
  j ← find_place (Z.to_nat i) 0 w weights reverse;
  reverse ← need (shift_cells (Z.to_nat (i - j)) i reverse);
  need (wr reverse j i).

Fixpoint sort_loop (n : nat) (i : Z) (weights reverse : list Z) : outcome (list Z) :=
  match n with
  | O => Done reverse
  | S n => reverse ← insert_position weights i reverse; sort_loop n (i + 1) weights reverse
  end.

(** The positions of the bucket in the order of their weights. *)
Definition sort_positions (size : Z) (weights reverse : list Z) : outcome (list Z) :=
  reverse ← (if size =? 0 then Done reverse else need (wr reverse 0 0));
  sort_loop (Z.to_nat (size - 1)) 1 weights reverse.

(** [for (j = i; j < size; j++) if (weights[reverse[j]] == w) numleft--; else break;] *)
Fixpoint count_same (n : nat) (j w numleft : Z) (weights reverse : list Z) : outcome Z :=
  match n with
  | O => Done numleft
  | S n =>
      p ← need (rd reverse j);
      v ← need (rd weights p);
      if v =? w then count_same n (j + 1) w (numleft - 1) weights reverse else Done numleft
  end.

(** The local variables of the second loop. *)
Record straw_vars : Set := mkvars { numleft : Z; straw : double; wbelow : double; lastw : double }.

(** [adjust straw for next guy], from the weight [wi1] to the weight [wi]; the
    difference of the weights is taken and multiplied in 32 bits. *)
Definition next_straw (v : straw_vars) (left wi1 wi : Z) : straw_vars :=
  let wbelow := dadd (wbelow v) (dmul (dsub (double_of wi1) (lastw v)) (double_of (numleft v))) in
  let wnext := double_of (u32 (left * u32 (wi - wi1))) in
  let pbelow := ddiv wbelow (dadd wbelow wnext) in
  let one := double_of 1 in
  mkvars left (dmul (straw v) (pow (ddiv one pbelow) (ddiv one (double_of left)))) wbelow (double_of wi1).

Fixpoint straw_loop (n : nat) (i size : Z) (weights reverse : list Z) (v : straw_vars) (straws : list Z)
    : outcome (list Z) :=
  match n with
  | O => Done straws
  | S n =>
      p ← need (rd reverse i);
      w ← need (rd weights p);
      if w =? 0 then
        straws ← need (wr straws p 0);
        let left := if straw_calc_version =? 0 then numleft v else numleft v - 1 in
        straw_loop n (i + 1) size weights reverse (mkvars left (straw v) (wbelow v) (lastw v)) straws
      else
        straws ← need (wr straws p (to_u32 (dmul (straw v) (double_of 0x10000))));
        let i := i + 1 in
        if i =? size then Done straws else
        q ← need (rd reverse i);
        wi ← need (rd weights q);
        if straw_calc_version =? 0 then
          if wi =? w then straw_loop n i size weights reverse v straws else
          left ← count_same (Z.to_nat (size - i)) i wi (numleft v) weights reverse;
          straw_loop n i size weights reverse (next_straw v left w wi) straws
        else straw_loop n i size weights reverse (next_straw v (numleft v - 1) w wi) straws
  end.

(** [scratch] is the array [reverse] as it is allocated.  The result is the
    return value and the straws. *)
Definition crush_calc_straw (m : mem) (scratch : list Z) (size : Z) (weights straws : list Z)
    : outcome (Z * list Z * mem) :=
  let '(ok, m) := alloc m in
  if negb ok then Done (- ENOMEM, straws, m) else
  reverse ← sort_positions size weights scratch;
  straws ← straw_loop (Z.to_nat size) 0 size weights reverse
             (mkvars size (double_of 1) (double_of 0) (double_of 0)) straws;
  Done (0, straws, m).

End Straw.
