(* ===== verification/CrBuildOps.v ===== *)
(** * Making and changing buckets (ceph/src/crush: builder.c, crush.c)

    One definition per function of the source.  A function that makes a bucket
    returns it, or nothing when an allocation fails or a weight overflows; a
    function that changes a bucket returns its code and the bucket as it is
    left, also when the code is an error. *)
From S2P Require Import Prelude Doubles CrHash CrBucket CrBuilder.

(** ** Memory *)

Section Builder.
(** What fresh memory holds; [pow], the conversion of doubles that do not fit,
    and the tunable for straw buckets. *)
Context (fresh : Z -> Z) (pow : double -> double -> double) (wild : double -> Z) (straw_calc_version : Z).

(** A cell has 32 bits. *)
Definition fresh_cells (from n : nat) : list Z := (fun k => u32 (fresh (Z.of_nat k))) <$> seq from n.

(** [malloc] of [n] cells; a negative number is too large as a [size_t]. *)
Definition malloc (m : mem) (n : Z) : option (list Z) * mem :=
  let '(ok, m) := alloc m in
  if ok && (0 <=? n) then (Some (fresh_cells 0 (Z.to_nat n)), m) else (None, m).

Definition resize (l : list Z) (n : nat) : list Z := take n l ++ fresh_cells (length l) (n - length l).

(** [realloc] to [n] cells: whether it succeeds, and the array afterwards.
    With no cells it frees the array and returns null. *)
Definition realloc (m : mem) (l : list Z) (n : Z) : bool * list Z * mem :=
  if n =? 0 then (false, [], m) else
  let '(ok, m) := alloc m in
  if ok && (0 <? n) then (true, resize l (Z.to_nat n), m) else (false, l, m).

(** [for (i = 0; i < size; i++) to[i] = from[i];] *)
Definition copy_cells (size : Z) (from to : list Z) : option (list Z) :=
  for_up (Z.to_nat size) 0 (fun i a => x ← rd from i; wr a i x) to.

(** The first position of an item. *)
Fixpoint find_item (n : nat) (i : Z) (items : list Z) (item : Z) : outcome (option Z) :=
  match n with
  | O => Done None
  | S n =>
      x ← need (rd items i);
      if x =? item then Done (Some i) else find_item n (i + 1) items item
  end.

Definition item_position (b : crush_bucket) (item : Z) : outcome (option Z) :=
  find_item (Z.to_nat (b_size b)) 0 (b_items b) item.

(** [n] cells from [j] on take the value of the next cell. *)
Definition close_gap (n : nat) (j : Z) (l : list Z) : option (list Z) :=
  for_up n j (fun j a => x ← rd a (j + 1); wr a j x) l.

(** [b] with another weight, size, items and arrays. *)
Definition updated (b : crush_bucket) (weight size : Z) (items : list Z) (body : bucket_body) : crush_bucket :=
  mkbucket (b_id b) (b_type b) (b_hash b) weight size items body.

(** A bucket as [memset] and the assignments of its header leave it. *)
Definition new_bucket (hash type size weight : Z) (items : list Z) (body : bucket_body) : crush_bucket :=
  mkbucket 0 (u16 type) (u8 hash) weight (u32 size) items body.

(** ** Making a bucket *)

Definition crush_make_uniform_bucket (m : mem) (hash type size : Z) (items : list Z) (item_weight : Z)
    : outcome (option crush_bucket * mem) :=
  let '(ok, m) := alloc m in
  if negb ok then Done (None, m) else
  if crush_multiplication_is_unsafe (u32 size) (u32 item_weight) then Done (None, m) else
  let made its := new_bucket hash type size (u32 (size * item_weight)) its (Uniform (u32 item_weight)) in
  if size =? 0 then Done (Some (made []), m) else
  let '(its, m) := malloc m size in
  match its with
  | None => Done (None, m)
  | Some its => its ← need (copy_cells size items its); Done (Some (made its), m)
  end.

(** The loop of the list bucket: nothing when the sum of the weights overflows. *)
Fixpoint list_fill (n : nat) (i w : Z) (items weights its iw sw : list Z) : outcome (option (list Z * list Z * list Z * Z)) :=
  match n with
  | O => Done (Some (its, iw, sw, w))
  | S n =>
      item ← need (rd items i);
      its ← need (wr its i item);
      x ← need (rd weights i);
      iw ← need (wr iw i (u32 x));
      if crush_addition_is_unsafe (u32 w) (u32 x) then Done None else
      let w := s32 (w + x) in
      sw ← need (wr sw i (u32 w));
      list_fill n (i + 1) w items weights its iw sw
  end.

Definition crush_make_list_bucket (m : mem) (hash type size : Z) (items weights : list Z)
    : outcome (option crush_bucket * mem) :=
  let '(ok, m) := alloc m in
  if negb ok then Done (None, m) else
  if size =? 0 then Done (Some (new_bucket hash type size 0 [] (BList [] [])), m) else
  let '(its, m) := malloc m size in
  match its with None => Done (None, m) | Some its =>
  let '(iw, m) := malloc m size in
  match iw with None => Done (None, m) | Some iw =>
  let '(sw, m) := malloc m size in
  match sw with None => Done (None, m) | Some sw =>
  r ← list_fill (Z.to_nat size) 0 0 items weights its iw sw;
  match r with
  | None => Done (None, m)
  | Some (its, iw, sw, w) => Done (Some (new_bucket hash type size (u32 w) its (BList iw sw)), m)
  end end end end.

(** The loop of the tree bucket: the items, the weights of the nodes and the
    weight of the bucket. *)
Fixpoint tree_fill (n : nat) (i depth : Z) (items weights its W : list Z) (weight : Z)
    : outcome (option (list Z * list Z * Z)) :=
  match n with
  | O => Done (Some (its, W, weight))
  | S n =>
      item ← need (rd items i);
      its ← need (wr its i item);
      let node := crush_calc_tree_node i in
      x ← need (rd weights i);
      W ← need (wr W node (u32 x));
      if crush_addition_is_unsafe weight (u32 x) then Done None else
      '(ok, W) ← climb_add (Z.to_nat (depth - 1)) node (u32 x) W;
      if ok : bool then tree_fill n (i + 1) depth items weights its W (u32 (weight + x)) else Done None
  end.

Definition crush_make_tree_bucket (m : mem) (hash type size : Z) (items weights : list Z)
    : outcome (option crush_bucket * mem) :=
  let '(ok, m) := alloc m in
  if negb ok then Done (None, m) else
  if size =? 0 then Done (Some (new_bucket hash type size 0 [] (Tree 0 [])), m) else
  let '(its, m) := malloc m size in
  match its with None => Done (None, m) | Some its =>
  depth ← calc_depth size;
  let num_nodes := u8 (Z.shiftl 1 depth) in
  let '(W, m) := malloc m num_nodes in
  match W with None => Done (None, m) | Some _ =>
  r ← tree_fill (Z.to_nat size) 0 depth items weights (replicate (length its) 0) (replicate (Z.to_nat num_nodes) 0) 0;
  match r with
  | None => Done (None, m)
  | Some (its, W, weight) =>
      root ← need (rd W (num_nodes / 2));
      if negb (root =? weight) then Fault else
      Done (Some (new_bucket hash type size weight its (Tree num_nodes W)), m)
  end end end.

(** The loop of the straw buckets: the items, their weights, and the sum. *)
Fixpoint weights_fill (n : nat) (i : Z) (items weights its iw : list Z) (weight : Z) : outcome (list Z * list Z * Z) :=
  match n with
  | O => Done (its, iw, weight)
  | S n =>
      item ← need (rd items i);
      its ← need (wr its i item);
      x ← need (rd weights i);
      iw ← need (wr iw i (u32 x));
      weights_fill n (i + 1) items weights its iw (u32 (weight + x))
  end.

Definition calc_straw (m : mem) (size : Z) (weights straws : list Z) : outcome (Z * list Z * mem) :=
  crush_calc_straw pow wild straw_calc_version m (fresh_cells 0 (Z.to_nat size)) size weights straws.

Definition crush_make_straw_bucket (m : mem) (hash type size : Z) (items weights : list Z)
    : outcome (option crush_bucket * mem) :=
  let '(ok, m) := alloc m in
  if negb ok then Done (None, m) else
  let '(its, m) := malloc m size in
  match its with None => Done (None, m) | Some its =>
  let '(iw, m) := malloc m size in
  match iw with None => Done (None, m) | Some iw =>
  let '(straws, m) := malloc m size in
  match straws with None => Done (None, m) | Some straws =>
  '(its, iw, weight) ← weights_fill (Z.to_nat size) 0 items weights its iw 0;
  '(r, straws, m) ← calc_straw m (s32 size) iw straws;
  if r <? 0 then Done (None, m) else
  Done (Some (new_bucket hash type size weight its (Straw iw straws)), m)
  end end end.

Definition crush_make_straw2_bucket (m : mem) (hash type size : Z) (items weights : list Z)
    : outcome (option crush_bucket * mem) :=
  let '(ok, m) := alloc m in
  if negb ok then Done (None, m) else
  if size =? 0 then Done (Some (new_bucket hash type size 0 [] (Straw2 [])), m) else
  let '(its, m) := malloc m size in
  match its with None => Done (None, m) | Some its =>
  let '(iw, m) := malloc m size in
  match iw with None => Done (None, m) | Some iw =>
  '(its, iw, weight) ← weights_fill (Z.to_nat size) 0 items weights its iw 0;
  Done (Some (new_bucket hash type size weight its (Straw2 iw)), m)
  end end.

(** The array of weights may be null. *)
Definition crush_make_bucket (m : mem) (alg hash type size : Z) (items : list Z) (weights : option (list Z))
    : outcome (option crush_bucket * mem) :=
  let ws := default [] weights in
  if alg =? CRUSH_BUCKET_UNIFORM then
    item_weight ← (match weights with
                   | Some ws => if size =? 0 then Done 0 else need (rd ws 0)
                   | None => Done 0
                   end);
    crush_make_uniform_bucket m hash type size items item_weight
  else if alg =? CRUSH_BUCKET_LIST then crush_make_list_bucket m hash type size items ws
  else if alg =? CRUSH_BUCKET_TREE then crush_make_tree_bucket m hash type size items ws
  else if alg =? CRUSH_BUCKET_STRAW then crush_make_straw_bucket m hash type size items ws
  else if alg =? CRUSH_BUCKET_STRAW2 then crush_make_straw2_bucket m hash type size items ws
  else Done (None, m).

(** ** Adding an item *)

Definition crush_add_uniform_bucket_item (m : mem) (b : crush_bucket) (item_weight item weight : Z)
    : outcome (Z * crush_bucket * mem) :=
  let newsize := s32 (b_size b + 1) in
  if negb (item_weight =? u32 weight) then Done (- EINVAL, b, m) else
  let '(ok, items, m) := realloc m (b_items b) newsize in
  if negb ok then Done (- ENOMEM, updated b (b_weight b) (b_size b) items (b_body b), m) else
  items ← need (wr items (newsize - 1) item);
  if crush_addition_is_unsafe (b_weight b) (u32 weight)
  then Done (- ERANGE, updated b (b_weight b) (b_size b) items (b_body b), m) else
  Done (0, updated b (u32 (b_weight b + weight)) (u32 (b_size b + 1)) items (b_body b), m).

Definition crush_add_list_bucket_item (m : mem) (b : crush_bucket) (item_weights sum_weights : list Z) (item weight : Z)
    : outcome (Z * crush_bucket * mem) :=
  let newsize := s32 (b_size b + 1) in
  let left items iw sw := updated b (b_weight b) (b_size b) items (BList iw sw) in
  let '(ok, items, m) := realloc m (b_items b) newsize in
  if negb ok then Done (- ENOMEM, left items item_weights sum_weights, m) else
  let '(ok, iw, m) := realloc m item_weights newsize in
  if negb ok then Done (- ENOMEM, left items iw sum_weights, m) else
  let '(ok, sw, m) := realloc m sum_weights newsize in
  if negb ok then Done (- ENOMEM, left items iw sw, m) else
  items ← need (wr items (newsize - 1) item);
  iw ← need (wr iw (newsize - 1) (u32 weight));
  let added sw := Done (0, updated b (u32 (b_weight b + weight)) (u32 (b_size b + 1)) items (BList iw sw), m) in
  if 1 <? newsize then
    last ← need (rd sw (newsize - 2));
    if crush_addition_is_unsafe last (u32 weight) then Done (- ERANGE, left items iw sw, m) else
    sw ← need (wr sw (newsize - 1) (u32 (last + weight)));
    added sw
  else
    sw ← need (wr sw (newsize - 1) (u32 weight));
    added sw.

Definition crush_add_tree_bucket_item (m : mem) (b : crush_bucket) (node_weights : list Z) (item weight : Z)
    : outcome (Z * crush_bucket * mem) :=
  let newsize := s32 (b_size b + 1) in
  depth ← calc_depth newsize;
  let num_nodes := u8 (Z.shiftl 1 depth) in
  let left items W := updated b (b_weight b) (b_size b) items (Tree num_nodes W) in
  let '(ok, items, m) := realloc m (b_items b) newsize in
  if negb ok then Done (- ENOMEM, left items node_weights, m) else
  let '(ok, W, m) := realloc m node_weights num_nodes in
  if negb ok then Done (- ENOMEM, left items W, m) else
  let node := crush_calc_tree_node (newsize - 1) in
  W ← need (wr W node (u32 weight));
  let root := num_nodes / 2 in
  W ← (if (2 <=? depth) && (node - 1 =? root)
       then w ← need (rd W (root / 2)); need (wr W root w) else Done W);
  '(ok, W) ← climb_add (Z.to_nat (depth - 1)) node (u32 weight) W;
  if negb ok then Done (- ERANGE, left items W, m) else
  if crush_addition_is_unsafe (b_weight b) (u32 weight) then Done (- ERANGE, left items W, m) else
  items ← need (wr items (newsize - 1) item);
  Done (0, updated b (u32 (b_weight b + weight)) (u32 (b_size b + 1)) items (Tree num_nodes W), m).

Definition crush_add_straw_bucket_item (m : mem) (b : crush_bucket) (item_weights straws : list Z) (item weight : Z)
    : outcome (Z * crush_bucket * mem) :=
  let newsize := s32 (b_size b + 1) in
  let left items iw straws := updated b (b_weight b) (b_size b) items (Straw iw straws) in
  let '(ok, items, m) := realloc m (b_items b) newsize in
  if negb ok then Done (- ENOMEM, left items item_weights straws, m) else
  let '(ok, iw, m) := realloc m item_weights newsize in
  if negb ok then Done (- ENOMEM, left items iw straws, m) else
  let '(ok, straws, m) := realloc m straws newsize in
  if negb ok then Done (- ENOMEM, left items iw straws, m) else
  items ← need (wr items (newsize - 1) item);
  iw ← need (wr iw (newsize - 1) (u32 weight));
  if crush_addition_is_unsafe (b_weight b) (u32 weight) then Done (- ERANGE, left items iw straws, m) else
  let size := u32 (b_size b + 1) in
  '(r, straws, m) ← calc_straw m (s32 size) iw straws;
  Done (r, updated b (u32 (b_weight b + weight)) size items (Straw iw straws), m).

Definition crush_add_straw2_bucket_item (m : mem) (b : crush_bucket) (item_weights : list Z) (item weight : Z)
    : outcome (Z * crush_bucket * mem) :=
  let newsize := s32 (b_size b + 1) in
  let left items iw := updated b (b_weight b) (b_size b) items (Straw2 iw) in
  let '(ok, items, m) := realloc m (b_items b) newsize in
  if negb ok then Done (- ENOMEM, left items item_weights, m) else
  let '(ok, iw, m) := realloc m item_weights newsize in
  if negb ok then Done (- ENOMEM, left items iw, m) else
  items ← need (wr items (newsize - 1) item);
  iw ← need (wr iw (newsize - 1) (u32 weight));
  if crush_addition_is_unsafe (b_weight b) (u32 weight) then Done (- ERANGE, left items iw, m) else
  Done (0, updated b (u32 (b_weight b + weight)) (u32 (b_size b + 1)) items (Straw2 iw), m).

Definition crush_bucket_add_item (m : mem) (b : crush_bucket) (item weight : Z) : outcome (Z * crush_bucket * mem) :=
  match b_body b with
  | Uniform item_weight => crush_add_uniform_bucket_item m b item_weight item weight
  | BList iw sw => crush_add_list_bucket_item m b iw sw item weight
  | Tree _ W => crush_add_tree_bucket_item m b W item weight
  | Straw iw straws => crush_add_straw_bucket_item m b iw straws item weight
  | Straw2 iw => crush_add_straw2_bucket_item m b iw item weight
  | OtherAlg _ => Done (-1, b, m)
  end.

(** ** Removing an item *)

(** The weight of a bucket without an item of weight [w]. *)
Definition less_weight (w weight : Z) : Z := if w <? weight then weight - w else 0.

Definition crush_remove_uniform_bucket_item (m : mem) (b : crush_bucket) (item_weight item : Z)
    : outcome (Z * crush_bucket * mem) :=
  o ← item_position b item;
  match o with
  | None => Done (- ENOENT, b, m)
  | Some i =>
      items ← need (close_gap (Z.to_nat (b_size b - i)) i (b_items b));
      let newsize := b_size b - 1 in
      let '(ok, items, m) := realloc m items newsize in
      let b := updated b (less_weight item_weight (b_weight b)) newsize items (b_body b) in
      Done (if ok then 0 else - ENOMEM, b, m)
  end.

(** The loop of the list bucket, on its three arrays. *)
Definition list_close_gap (n : nat) (j weight : Z) (arrays : list Z * list Z * list Z) : option (list Z * list Z * list Z) :=
  for_up n j (fun j a =>
    let '(items, iw, sw) := a in
    x ← rd items (j + 1);
    items ← wr items j x;
    w ← rd iw (j + 1);
    iw ← wr iw j w;
    s ← rd sw (j + 1);
    sw ← wr sw j (u32 (s - weight));
    Some (items, iw, sw)) arrays.

Definition crush_remove_list_bucket_item (m : mem) (b : crush_bucket) (item_weights sum_weights : list Z) (item : Z)
    : outcome (Z * crush_bucket * mem) :=
  o ← item_position b item;
  match o with
  | None => Done (- ENOENT, b, m)
  | Some i =>
      weight ← need (rd item_weights i);
      '(items, iw, sw) ← need (list_close_gap (Z.to_nat (b_size b - i)) i weight (b_items b, item_weights, sum_weights));
      let newsize := b_size b - 1 in
      let left items iw sw := updated b (less_weight weight (b_weight b)) newsize items (BList iw sw) in
      let '(ok, items, m) := realloc m items newsize in
      if negb ok then Done (- ENOMEM, left items iw sw, m) else
      let '(ok, iw, m) := realloc m iw newsize in
      if negb ok then Done (- ENOMEM, left items iw sw, m) else
      let '(ok, sw, m) := realloc m sw newsize in
      Done (if ok then 0 else - ENOMEM, left items iw sw, m)
  end.

(** [while (newsize > 0)]: the size up to the last leaf with a weight. *)
Fixpoint trimmed_size (newsize : nat) (W : list Z) : outcome Z :=
  match newsize with
  | O => Done 0
  | S n =>
      w ← need (rd W (crush_calc_tree_node (Z.of_nat n)));
      if negb (w =? 0) then Done (Z.of_nat newsize) else trimmed_size n W
  end.

Definition crush_remove_tree_bucket_item (m : mem) (b : crush_bucket) (num_nodes : Z) (node_weights : list Z) (item : Z)
    : outcome (Z * crush_bucket * mem) :=
  o ← item_position b item;
  match o with
  | None => Done (- ENOENT, b, m)
  | Some i =>
      depth ← calc_depth (b_size b);
      items ← need (wr (b_items b) i 0);
      let node := crush_calc_tree_node i in
      weight ← need (rd node_weights node);
      W ← need (wr node_weights node 0);
      W ← climb (Z.to_nat (depth - 1)) node (- weight) W;
      let bw := less_weight weight (b_weight b) in
      newsize ← trimmed_size (Z.to_nat (b_size b)) W;
      if newsize =? b_size b then Done (0, updated b bw (b_size b) items (Tree num_nodes W), m) else
      let '(ok, items, m) := realloc m items newsize in
      if negb ok then Done (- ENOMEM, updated b bw (b_size b) items (Tree num_nodes W), m) else
      newdepth ← calc_depth newsize;
      if depth =? newdepth then Done (0, updated b bw newsize items (Tree num_nodes W), m) else
      let num_nodes := u8 (Z.shiftl 1 newdepth) in
      let '(ok, W, m) := realloc m W num_nodes in
      if negb ok then Done (- ENOMEM, updated b bw (b_size b) items (Tree num_nodes W), m) else
      Done (0, updated b bw newsize items (Tree num_nodes W), m)
  end.

Definition crush_remove_straw_bucket_item (m : mem) (b : crush_bucket) (item_weights straws : list Z) (item : Z)
    : outcome (Z * crush_bucket * mem) :=
  let newsize := b_size b - 1 in
  o ← item_position b item;
  match o with
  | None => Done (- ENOENT, b, m)
  | Some i =>
      w ← need (rd item_weights i);
      let bw := less_weight w (b_weight b) in
      items ← need (close_gap (Z.to_nat (b_size b - 1 - i)) i (b_items b));
      iw ← need (close_gap (Z.to_nat (b_size b - 1 - i)) i item_weights);
      let left items iw straws := updated b bw newsize items (Straw iw straws) in
      if newsize =? 0 then Done (0, left items iw straws, m) else
      let '(ok, items, m) := realloc m items newsize in
      if negb ok then Done (- ENOMEM, left items iw straws, m) else
      let '(ok, iw, m) := realloc m iw newsize in
      if negb ok then Done (- ENOMEM, left items iw straws, m) else
      let '(ok, straws, m) := realloc m straws newsize in
      if negb ok then Done (- ENOMEM, left items iw straws, m) else
      '(r, straws, m) ← calc_straw m (s32 newsize) iw straws;
      Done (r, left items iw straws, m)
  end.

Definition crush_remove_straw2_bucket_item (m : mem) (b : crush_bucket) (item_weights : list Z) (item : Z)
    : outcome (Z * crush_bucket * mem) :=
  let newsize := b_size b - 1 in
  o ← item_position b item;
  match o with
  | None => Done (- ENOENT, b, m)
  | Some i =>
      w ← need (rd item_weights i);
      let bw := less_weight w (b_weight b) in
      items ← need (close_gap (Z.to_nat (b_size b - 1 - i)) i (b_items b));
      iw ← need (close_gap (Z.to_nat (b_size b - 1 - i)) i item_weights);
      let left items iw := updated b bw newsize items (Straw2 iw) in
      if newsize =? 0 then Done (0, left items iw, m) else
      let '(ok, items, m) := realloc m items newsize in
      if negb ok then Done (- ENOMEM, left items iw, m) else
      let '(ok, iw, m) := realloc m iw newsize in
      Done (if ok then 0 else - ENOMEM, left items iw, m)
  end.

Definition crush_bucket_remove_item (m : mem) (b : crush_bucket) (item : Z) : outcome (Z * crush_bucket * mem) :=
  match b_body b with
  | Uniform item_weight => crush_remove_uniform_bucket_item m b item_weight item
  | BList iw sw => crush_remove_list_bucket_item m b iw sw item
  | Tree num_nodes W => crush_remove_tree_bucket_item m b num_nodes W item
  | Straw iw straws => crush_remove_straw_bucket_item m b iw straws item
  | Straw2 iw => crush_remove_straw2_bucket_item m b iw item
  | OtherAlg _ => Done (-1, b, m)
  end.

(** ** Changing a weight *)

Definition crush_adjust_uniform_bucket_item_weight (b : crush_bucket) (item_weight weight : Z) : Z * crush_bucket :=
  let diff := s32 ((weight - item_weight) * b_size b) in
  (diff, updated b (u32 (u32 weight * b_size b)) (b_size b) (b_items b) (Uniform (u32 weight))).

(** [for (j = i; j < size; j++) sum_weights[j] += diff;] *)
Definition shift_sums (n : nat) (i diff : Z) (sw : list Z) : option (list Z) :=
  for_up n i (fun j a => s ← rd a j; wr a j (u32 (s + diff))) sw.

Definition crush_adjust_list_bucket_item_weight (b : crush_bucket) (item_weights sum_weights : list Z) (item weight : Z)
    : outcome (Z * crush_bucket) :=
  o ← item_position b item;
  match o with
  | None => Done (0, b)
  | Some i =>
      w ← need (rd item_weights i);
      let diff := s32 (weight - w) in
      iw ← need (wr item_weights i (u32 weight));
      sw ← need (shift_sums (Z.to_nat (b_size b - i)) i diff sum_weights);
      Done (diff, updated b (u32 (b_weight b + diff)) (b_size b) (b_items b) (BList iw sw))
  end.

Definition crush_adjust_tree_bucket_item_weight (b : crush_bucket) (num_nodes : Z) (node_weights : list Z) (item weight : Z)
    : outcome (Z * crush_bucket) :=
  depth ← calc_depth (b_size b);
  o ← item_position b item;
  match o with
  | None => Done (0, b)
  | Some i =>
      let node := crush_calc_tree_node i in
      w ← need (rd node_weights node);
      let diff := s32 (weight - w) in
      W ← need (wr node_weights node (u32 weight));
      W ← climb (Z.to_nat (depth - 1)) node diff W;
      Done (diff, updated b (u32 (b_weight b + diff)) (b_size b) (b_items b) (Tree num_nodes W))
  end.

Definition crush_adjust_straw_bucket_item_weight (m : mem) (b : crush_bucket) (item_weights straws : list Z) (item weight : Z)
    : outcome (Z * crush_bucket * mem) :=
  o ← item_position b item;
  match o with
  | None => Done (0, b, m)
  | Some i =>
      w ← need (rd item_weights i);
      let diff := s32 (weight - w) in
      iw ← need (wr item_weights i (u32 weight));
      '(r, straws, m) ← calc_straw m (s32 (b_size b)) iw straws;
      let b := updated b (u32 (b_weight b + diff)) (b_size b) (b_items b) (Straw iw straws) in
      Done (if r <? 0 then r else diff, b, m)
  end.

Definition crush_adjust_straw2_bucket_item_weight (b : crush_bucket) (item_weights : list Z) (item weight : Z)
    : outcome (Z * crush_bucket) :=
  o ← item_position b item;
  match o with
  | None => Done (0, b)
  | Some i =>
      w ← need (rd item_weights i);
      let diff := s32 (weight - w) in
      iw ← need (wr item_weights i (u32 weight));
      Done (diff, updated b (u32 (b_weight b + diff)) (b_size b) (b_items b) (Straw2 iw))
  end.

Definition crush_bucket_adjust_item_weight (m : mem) (b : crush_bucket) (item weight : Z) : outcome (Z * crush_bucket * mem) :=
  let pure r := '(d, b) ← r; Done (d, b, m) in
  match b_body b with
  | Uniform item_weight => pure (Done (crush_adjust_uniform_bucket_item_weight b item_weight weight))
  | BList iw sw => pure (crush_adjust_list_bucket_item_weight b iw sw item weight)
  | Tree num_nodes W => pure (crush_adjust_tree_bucket_item_weight b num_nodes W item weight)
  | Straw iw straws => crush_adjust_straw_bucket_item_weight m b iw straws item weight
  | Straw2 iw => pure (crush_adjust_straw2_bucket_item_weight b iw item weight)
  | OtherAlg _ => Done (-1, b, m)
  end.

End Builder.

(** The weight of the item at a position, 0 beyond the items. *)
Definition crush_get_bucket_item_weight (b : crush_bucket) (p : Z) : outcome Z :=
  if b_size b <=? u32 p then Done 0 else
  match b_body b with
  | Uniform item_weight => Done (s32 item_weight)
  | BList iw _ | Straw iw _ | Straw2 iw => w ← need (rd iw p); Done (s32 w)
  | Tree _ W => w ← need (rd W (crush_calc_tree_node p)); Done (s32 w)
  | OtherAlg _ => Done 0
  end.
