(* ===== verification/CrBuildMap.v ===== *)
(** * Building maps (ceph/src/crush: builder.c)

    A map under construction: the arrays of the map with the sizes that the
    source keeps besides them, and what only the builder uses.  Buckets are
    reached through the map, so that a change to one is seen by all. *)
From S2P Require Import Prelude Doubles CrHash CrBucket CrMapper CrBuilder CrBuildOps.

Definition ENOSPC : Z := 28.
Definition EEXIST : Z := 17.
Definition CRUSH_MAX_RULES : Z := Z.shiftl 1 8.

Record building : Set := mkbuilding {
  the_map : crush_map; size_buckets : Z; size_rules : Z; straw_calc_version : Z; allowed_bucket_algs : Z; working_size : Z }.

Record crush_rule : Set := mkrule {
  r_type : Z; r_min_size : Z; r_max_size : Z; r_steps : list crush_rule_step }.

(** ** Changing one part of a map *)

Definition with_buckets (m : crush_map) (bs : list (option crush_bucket)) : crush_map :=
  mkmap bs (rules m) (max_devices m) (choose_local_tries m) (choose_local_fallback_tries m) (choose_total_tries m)
    (chooseleaf_descend_once m) (chooseleaf_vary_r m) (chooseleaf_stable m).

Definition with_rules (m : crush_map) (rs : list (option (list crush_rule_step))) : crush_map :=
  mkmap (buckets m) rs (max_devices m) (choose_local_tries m) (choose_local_fallback_tries m) (choose_total_tries m)
    (chooseleaf_descend_once m) (chooseleaf_vary_r m) (chooseleaf_stable m).

Definition with_devices (m : crush_map) (n : Z) : crush_map :=
  mkmap (buckets m) (rules m) n (choose_local_tries m) (choose_local_fallback_tries m) (choose_total_tries m)
    (chooseleaf_descend_once m) (chooseleaf_vary_r m) (chooseleaf_stable m).

(** The bucket with an id is replaced: a write through the pointer to it. *)
Definition set_bucket (m : crush_map) (id : Z) (b : crush_bucket) : outcome crush_map :=
  bs ← need (wr (buckets m) (-1 - id) (Some b)); Done (with_buckets m bs).

(** ** The map *)

Definition set_optimal_crush_map (g : building) : building :=
  let m := the_map g in
  mkbuilding (mkmap (buckets m) (rules m) (max_devices m) 0 0 50 1 1 1) (size_buckets g) (size_rules g)
    (straw_calc_version g)
    (Z.lor (Z.shiftl 1 CRUSH_BUCKET_UNIFORM) (Z.lor (Z.shiftl 1 CRUSH_BUCKET_LIST)
      (Z.lor (Z.shiftl 1 CRUSH_BUCKET_STRAW) (Z.shiftl 1 CRUSH_BUCKET_STRAW2))))
    (working_size g).

Definition set_legacy_crush_map (g : building) : building :=
  let m := the_map g in
  mkbuilding (mkmap (buckets m) (rules m) (max_devices m) 2 5 19 0 0 0) (size_buckets g) (size_rules g) 0
    (Z.lor (Z.shiftl 1 CRUSH_BUCKET_UNIFORM) (Z.lor (Z.shiftl 1 CRUSH_BUCKET_LIST) (Z.shiftl 1 CRUSH_BUCKET_STRAW)))
    (working_size g).

Definition crush_create (m : mem) : option building * mem :=
  let '(ok, m) := alloc m in
  if ok then (Some (set_optimal_crush_map (mkbuilding (mkmap [] [] 0 0 0 0 0 0 0) 0 0 0 0 0)), m) else (None, m).

(** The sizes of [struct crush_work], of [struct crush_work_bucket], of a
    pointer and of a [__u32] in bytes. *)
Definition sizeof_crush_work : Z := 8.
Definition sizeof_crush_work_bucket : Z := 16.
Definition sizeof_pointer : Z := 8.
Definition sizeof_u32 : Z := 4.

(** [max_devices] after the items of a bucket. *)
Definition scan_items (n : nat) (items : list Z) (max : Z) : option Z :=
  for_up n 0 (fun i max => item ← rd items i; Some (if max <=? item then s32 (item + 1) else max)) max.

(** The loop of [crush_finalize] over the buckets: [max_devices] and [working_size]. *)
Fixpoint scan_buckets (bs : list (option crush_bucket)) (max size : Z) : outcome (Z * Z) :=
  match bs with
  | [] => Done (max, size)
  | None :: bs => scan_buckets bs max size
  | Some b :: bs =>
      max ← need (scan_items (Z.to_nat (b_size b)) (b_items b) max);
      scan_buckets bs max (u64 (u64 (size + sizeof_crush_work_bucket) + b_size b * sizeof_u32))
  end.

Definition crush_finalize (g : building) : outcome building :=
  let m := the_map g in
  if negb (size_buckets g <=? max_buckets m) then Fault else
  let size := u64 (sizeof_crush_work + size_buckets g * sizeof_pointer) in
  '(max, size) ← scan_buckets (take (Z.to_nat (size_buckets g)) (buckets m)) 0 size;
  Done (mkbuilding (with_devices m max) (size_buckets g) (size_rules g) (straw_calc_version g) (allowed_bucket_algs g) size).

(** How far [crush_init_workspace] gets in the memory it is given; the
    assertion at its end compares this with [working_size]. *)
Fixpoint workspace_end (bs : list (option crush_bucket)) (point : Z) : Z :=
  match bs with
  | [] => point
  | None :: bs => workspace_end bs point
  | Some b :: bs => workspace_end bs (point + sizeof_crush_work_bucket + b_size b * sizeof_u32)
  end.

Definition init_workspace_ok (g : building) : bool :=
  workspace_end (take (Z.to_nat (size_buckets g)) (buckets (the_map g)))
    (sizeof_crush_work + size_buckets g * sizeof_pointer) =? working_size g.

(** ** Rules *)

(** The steps hold what was in the memory before. *)
Definition crush_make_rule (m : mem) (garbage : list crush_rule_step) (len type : Z) : option crush_rule * mem :=
  let '(ok, m) := alloc m in
  if ok && (0 <=? len) then (Some (mkrule (u8 type) 1 100 (take (Z.to_nat len) garbage)), m) else (None, m).

Definition crush_rule_set_step (r : crush_rule) (n op arg1 arg2 : Z) : outcome crush_rule :=
  if negb (u32 n <? Z.of_nat (length (r_steps r))) then Fault else
  steps ← need (wr (r_steps r) n (mkstep (u32 op) arg1 arg2));
  Done (mkrule (r_type r) (r_min_size r) (r_max_size r) steps).

(** The first null entry from [i] on, or [i + n] when the [n] entries are used. *)
Fixpoint first_null {A} (n : nat) (i : Z) (l : list (option A)) : outcome Z :=
  match n with
  | O => Done i
  | S n => o ← need (rd l i); if o is Some _ then first_null n (i + 1) l else Done i
  end.

(** Memory is cleared when an array grows. *)
Definition grown {A} (l : list (option A)) (n : Z) : list (option A) :=
  take (Z.to_nat n) l ++ replicate (Z.to_nat n - length l) None.

Definition crush_add_rule (mm : mem) (g : building) (rule : crush_rule) (ruleno : Z) : outcome (Z * building * mem) :=
  let m := the_map g in
  r ← (if ruleno <? 0 then first_null (Z.to_nat (size_rules g)) 0 (rules m) else Done (u32 ruleno));
  if (ruleno <? 0) && negb (r <? CRUSH_MAX_RULES) then Fault else
  let store g mm :=
    rs ← need (wr (rules (the_map g)) r (Some (r_steps rule)));
    Done (s32 r, mkbuilding (with_rules (the_map g) rs) (size_buckets g) (size_rules g) (straw_calc_version g)
                   (allowed_bucket_algs g) (working_size g), mm) in
  if size_rules g <=? r then
    if CRUSH_MAX_RULES <? u32 (size_rules g + 1) then Done (- ENOSPC, g, mm) else
    let n := u32 (r + 1) in
    let sized rs := mkbuilding (with_rules m rs) (size_buckets g) n (straw_calc_version g) (allowed_bucket_algs g) (working_size g) in
    let '(ok, mm) := alloc mm in
    if ok then store (sized (grown (rules m) n)) mm else Done (- ENOMEM, sized (rules m), mm)
  else store g mm.

(** ** Buckets *)

Definition crush_get_next_bucket_id (g : building) : outcome Z :=
  pos ← first_null (Z.to_nat (size_buckets g)) 0 (buckets (the_map g));
  Done (-1 - pos).

(** [while (pos >= map->max_buckets)]: the array is doubled until it has the
    position; [false] when memory runs out. *)
Fixpoint grow_buckets (fuel : nat) (mm : mem) (pos : Z) (g : building) : outcome (bool * building * mem) :=
  match fuel with
  | O => NoFuel
  | S fuel =>
      if size_buckets g <=? pos then
        let n := if size_buckets g =? 0 then 8 else s32 (size_buckets g * 2) in
        let m := the_map g in
        let sized bs := mkbuilding (with_buckets m bs) n (size_rules g) (straw_calc_version g) (allowed_bucket_algs g) (working_size g) in
        let '(ok, mm) := alloc mm in
        if ok && (0 <? n) then grow_buckets fuel mm pos (sized (grown (buckets m) n))
        else Done (false, sized (buckets m), mm)
      else Done (true, g, mm)
  end.

(** The size goes from 8 to more than any position in at most 30 steps. *)
Definition grow_fuel : nat := 32.

(** The result has the id that [idout] receives. *)
Definition crush_add_bucket (mm : mem) (g : building) (id : Z) (b : crush_bucket) : outcome (Z * Z * building * mem) :=
  id ← (if id =? 0 then crush_get_next_bucket_id g else Done id);
  let pos := -1 - id in
  '(ok, g, mm) ← grow_buckets grow_fuel mm pos g;
  if negb ok then Done (- ENOMEM, 0, g, mm) else
  old ← need (rd (buckets (the_map g)) pos);
  match old with
  | Some _ => Done (- EEXIST, 0, g, mm)
  | None =>
      m ← set_bucket (the_map g) id
            (mkbucket id (b_type b) (b_hash b) (b_weight b) (b_size b) (b_items b) (b_body b));
      Done (0, id, mkbuilding m (size_buckets g) (size_rules g) (straw_calc_version g) (allowed_bucket_algs g) (working_size g), mm)
  end.

Definition crush_remove_bucket (g : building) (id : Z) : outcome building :=
  let pos := -1 - id in
  if negb (pos <? size_buckets g) then Fault else
  bs ← need (wr (buckets (the_map g)) pos None);
  Done (mkbuilding (with_buckets (the_map g) bs) (size_buckets g) (size_rules g) (straw_calc_version g)
          (allowed_bucket_algs g) (working_size g)).

(** ** Weights of a hierarchy *)

Section Reweight.
Context (fresh : Z -> Z) (pow : double -> double -> double) (wild : double -> Z).

(** [bucket->h.weight] and the arrays of the bucket with an id. *)
Definition set_weight (b : crush_bucket) (w : Z) : crush_bucket := updated b w (b_size b) (b_items b) (b_body b).
Definition set_body (b : crush_bucket) (body : bucket_body) : crush_bucket :=
  updated b (b_weight b) (b_size b) (b_items b) body.

(** The weight of the item at a position in the arrays of a bucket. *)
Definition get_weight (b : crush_bucket) (i : Z) : option Z :=
  match b_body b with
  | BList iw _ | Straw iw _ | Straw2 iw => rd iw i
  | Tree _ W => rd W (crush_calc_tree_node i)
  | _ => None
  end.

Definition put_weight (b : crush_bucket) (i w : Z) : option crush_bucket :=
  match b_body b with
  | BList iw sw => iw ← wr iw i w; Some (set_body b (BList iw sw))
  | Straw iw straws => iw ← wr iw i w; Some (set_body b (Straw iw straws))
  | Straw2 iw => iw ← wr iw i w; Some (set_body b (Straw2 iw))
  | Tree nn W => W ← wr W (crush_calc_tree_node i) w; Some (set_body b (Tree nn W))
  | _ => None
  end.

(** The loop that the list, tree, straw and straw2 buckets have in common: [n]
    items from [i] on; [false] when the sum overflows.  [child] is the
    recursive call, whose code is not looked at. *)
Fixpoint reweight_items (child : Z -> crush_map -> mem -> outcome (crush_map * mem)) (n : nat) (i id : Z)
    (m : crush_map) (mm : mem) : outcome (bool * crush_map * mem) :=
  match n with
  | O => Done (true, m, mm)
  | S n =>
      b ← bucket_at m id;
      item ← need (rd (b_items b) i);
      '(m, mm) ←
        (if item <? 0 then
           '(m, mm) ← child item m mm;
           c ← bucket_at m item;
           b ← bucket_at m id;
           b ← need (put_weight b i (b_weight c));
           m ← set_bucket m id b;
           Done (m, mm)
         else Done (m, mm));
      b ← bucket_at m id;
      w ← need (get_weight b i);
      if crush_addition_is_unsafe (b_weight b) w then Done (false, m, mm) else
      m ← set_bucket m id (set_weight b (u32 (b_weight b + w)));
      reweight_items child n (i + 1) id m mm
  end.

(** The loop of the uniform buckets: the sum of the weights of the buckets
    below, their number, and the number of devices. *)
Fixpoint reweight_children (child : Z -> crush_map -> mem -> outcome (crush_map * mem)) (n : nat) (i id sum cnt leaves : Z)
    (m : crush_map) (mm : mem) : outcome (bool * (Z * Z * Z) * crush_map * mem) :=
  match n with
  | O => Done (true, (sum, cnt, leaves), m, mm)
  | S n =>
      b ← bucket_at m id;
      item ← need (rd (b_items b) i);
      if item <? 0 then
        '(m, mm) ← child item m mm;
        c ← bucket_at m item;
        if crush_addition_is_unsafe sum (b_weight c) then Done (false, (sum, cnt, leaves), m, mm) else
        reweight_children child n (i + 1) id (u32 (sum + b_weight c)) (cnt + 1) leaves m mm
      else reweight_children child n (i + 1) id sum cnt (leaves + 1) m mm
  end.

Definition crush_reweight_uniform_bucket (child : Z -> crush_map -> mem -> outcome (crush_map * mem)) (id : Z)
    (m : crush_map) (mm : mem) : outcome (Z * crush_map * mem) :=
  b ← bucket_at m id;
  '(ok, (sum, n, leaves), m, mm) ← reweight_children child (Z.to_nat (b_size b)) 0 id 0 0 0 m mm;
  if negb ok then Done (- ERANGE, m, mm) else
  b ← bucket_at m id;
  match b_body b with
  | Uniform w =>
      let w := if leaves <? n then sum / n else w in
      m ← set_bucket m id (updated b (u32 (w * b_size b)) (b_size b) (b_items b) (Uniform w));
      Done (0, m, mm)
  | _ => Fault
  end.

(** What the functions of these buckets have in common. *)
Definition crush_reweight_sum_bucket (child : Z -> crush_map -> mem -> outcome (crush_map * mem)) (id : Z)
    (m : crush_map) (mm : mem) : outcome (Z * crush_map * mem) :=
  b ← bucket_at m id;
  m ← set_bucket m id (set_weight b 0);
  '(ok, m, mm) ← reweight_items child (Z.to_nat (b_size b)) 0 id m mm;
  Done (if ok : bool then 0 else - ERANGE, m, mm).

Definition crush_reweight_list_bucket := crush_reweight_sum_bucket.
Definition crush_reweight_tree_bucket := crush_reweight_sum_bucket.
Definition crush_reweight_straw2_bucket := crush_reweight_sum_bucket.

(** The straws are calculated again at the end; the code is not looked at. *)
Definition crush_reweight_straw_bucket (version : Z) (child : Z -> crush_map -> mem -> outcome (crush_map * mem)) (id : Z)
    (m : crush_map) (mm : mem) : outcome (Z * crush_map * mem) :=
  '(r, m, mm) ← crush_reweight_sum_bucket child id m mm;
  if r <? 0 then Done (r, m, mm) else
  b ← bucket_at m id;
  match b_body b with
  | Straw iw straws =>
      '(_, straws, mm) ← calc_straw fresh pow wild version mm (s32 (b_size b)) iw straws;
      m ← set_bucket m id (set_body b (Straw iw straws));
      Done (0, m, mm)
  | _ => Fault
  end.

Fixpoint crush_reweight_bucket (fuel : nat) (version id : Z) (m : crush_map) (mm : mem) : outcome (Z * crush_map * mem) :=
  match fuel with
  | O => NoFuel
  | S fuel =>
      let child (item : Z) (m : crush_map) (mm : mem) : outcome (crush_map * mem) :=
        '(_, m, mm) ← crush_reweight_bucket fuel version item m mm; Done (m, mm) in
      b ← bucket_at m id;
      match b_body b with
      | Uniform _ => crush_reweight_uniform_bucket child id m mm
      | BList _ _ => crush_reweight_list_bucket child id m mm
      | Tree _ _ => crush_reweight_tree_bucket child id m mm
      | Straw2 _ => crush_reweight_straw2_bucket child id m mm
      | Straw _ _ => crush_reweight_straw_bucket version child id m mm
      | OtherAlg _ => Done (-1, m, mm)
      end
  end.

End Reweight.

(** ** Replacement weights *)

(** The array at the place of [item_weights] in a straw2 bucket: lists and
    straw buckets have theirs there, the others something that is no pointer. *)
Definition as_straw2_weights (b : crush_bucket) : option (list Z) :=
  match b_body b with
  | BList iw _ | Straw iw _ | Straw2 iw => Some iw
  | _ => None
  end.

(** One entry: [num_positions] copies of the weights, and the ids. *)
Definition make_choose_arg (num_positions : Z) (b : crush_bucket) : outcome crush_choose_arg :=
  let n := Z.to_nat (b_size b) in
  let copy l := if b_size b <=? Z.of_nat (length l) then Done (take n l) else Fault in
  ws ← (if (num_positions <=? 0) || (b_size b =? 0) then Done []
        else iw ← need (as_straw2_weights b); copy iw);
  ids ← copy (b_items b);
  Done (mkarg (Some ids) (Some (replicate (Z.to_nat num_positions) ws))).

Fixpoint make_choose_arg_list (num_positions : Z) (bs : list (option crush_bucket)) : outcome (list crush_choose_arg) :=
  match bs with
  | [] => Done []
  | None :: bs => l ← make_choose_arg_list num_positions bs; Done (mkarg None None :: l)
  | Some b :: bs =>
      a ← make_choose_arg num_positions b;
      l ← make_choose_arg_list num_positions bs;
      Done (a :: l)
  end.

(** The allocation is not checked: without memory the entries are written
    through a null pointer. *)
Definition crush_make_choose_args (mm : mem) (g : building) (num_positions : Z) : outcome (list crush_choose_arg * mem) :=
  let '(ok, mm) := alloc mm in
  let bs := take (Z.to_nat (size_buckets g)) (buckets (the_map g)) in
  if negb (size_buckets g <=? max_buckets (the_map g)) || (negb ok && negb (bool_decide (bs = []))) then Fault else
  l ← make_choose_arg_list num_positions bs;
  Done (l, mm).
