(* ===== verification/CrBuildArrays.v ===== *)
(** * The arrays of a bucket under construction (ceph/src/crush: builder.c)

    What growing, filling and closing gaps do to arrays, and the loops that fill
    the arrays of a new bucket. *)
From S2P Require Import Prelude CrHash CrBucket CrPerm CrChoose CrBuilder CrBuildOps.

(** ** Sums *)

Fixpoint sumz (l : list Z) : Z := match l with [] => 0 | x :: l => x + sumz l end.

Lemma sumz_app l k : sumz (l ++ k) = sumz l + sumz k.
Proof. induction l; cbn in *; lia. Qed.

Lemma sumz_nonneg l : u32s l -> 0 <= sumz l.
Proof. induction 1; cbn in *; lia. Qed.

Lemma sumz_insert l (i : nat) x y : l !! i = Some x -> sumz (<[i := y]> l) = sumz l - x + y.
Proof.
  revert i. induction l as [|z l IH]; intros [|i] E; simpl in *; try discriminate.
  - injection E as ->. lia.
  - rewrite (IH i E). lia.
Qed.

Lemma sumz_delete l (i : nat) x : l !! i = Some x -> sumz (delete i l) = sumz l - x.
Proof.
  revert i. induction l as [|z l IH]; intros [|i] E; simpl in *; try discriminate.
  - injection E as ->. lia.
  - rewrite (IH i E). lia.
Qed.

Lemma sumz_elem l x : u32s l -> x ∈ l -> x <= sumz l.
Proof.
  induction 1 as [|y l Hy Hl IH]; intros Hx; [by apply elem_of_nil in Hx|].
  apply elem_of_cons in Hx as [->|Hx]; cbn in *; pose proof (sumz_nonneg l Hl); [lia|].
  specialize (IH Hx). lia.
Qed.

Lemma sumz_const w l : Forall (eq w) l -> sumz l = Z.of_nat (length l) * w.
Proof. induction 1 as [|x k <- Hk IH]; cbn [length sumz]; [done|]. rewrite IH. lia. Qed.

(** The sums of the first 1, 2, ... numbers. *)
Fixpoint sums_from (s : Z) (l : list Z) : list Z :=
  match l with [] => [] | x :: l => (s + x) :: sums_from (s + x) l end.

Definition prefix_sums (l : list Z) : list Z := sums_from 0 l.

Lemma length_sums_from s l : length (sums_from s l) = length l.
Proof. revert s. induction l; intros s; cbn; auto. Qed.

Lemma sums_from_app s l k : sums_from s (l ++ k) = sums_from s l ++ sums_from (s + sumz l) k.
Proof.
  revert s. induction l as [|x l IH]; intros s; cbn; [by rewrite Z.add_0_r|].
  rewrite IH. by replace (s + x + sumz l) with (s + (x + sumz l)) by lia.
Qed.

Lemma sums_from_u32s s l : 0 <= s -> u32s l -> s + sumz l < 2 ^ 32 -> u32s (sums_from s l).
Proof.
  intros Hs Hl. revert s Hs. induction Hl as [|x l Hx Hl IH]; intros s Hs Hb; cbn in *; constructor.
  - pose proof (sumz_nonneg l Hl). lia.
  - apply IH; lia.
Qed.

(** ** Safe arithmetic *)

Lemma addition_safe a b : crush_addition_is_unsafe a b = false <-> a + b < 2 ^ 32.
Proof. unfold crush_addition_is_unsafe. rewrite Z.ltb_ge. lia. Qed.

Lemma addition_unsafe a b : crush_addition_is_unsafe a b = true <-> 2 ^ 32 <= a + b.
Proof. unfold crush_addition_is_unsafe. rewrite Z.ltb_lt. lia. Qed.

Lemma u32_add_l a b : u32 (u32 a + b) = u32 (a + b).
Proof. unfold u32. by rewrite Z.add_mod_idemp_l. Qed.

Lemma u32_add_r a b : u32 (a + u32 b) = u32 (a + b).
Proof. unfold u32. by rewrite Z.add_mod_idemp_r. Qed.

Lemma u32_s32 a : u32 (s32 a) = u32 a.
Proof.
  unfold u32, s32. rewrite Zminus_mod_idemp_l. f_equal. lia.
Qed.

(** ** Growing *)

Section Arrays.
Context (fresh : Z -> Z).

Lemma length_fresh from n : length (fresh_cells fresh from n) = n.
Proof. unfold fresh_cells. by rewrite length_fmap, length_seq. Qed.

Lemma length_resize l n : length (resize fresh l n) = n.
Proof. unfold resize. rewrite length_app, length_take, length_fresh. lia. Qed.

Lemma fresh_u32s from n : u32s (fresh_cells fresh from n).
Proof. unfold fresh_cells. apply Forall_fmap, Forall_true. intros k. apply u32_range. Qed.

Lemma resize_u32s l n : u32s l -> u32s (resize fresh l n).
Proof. intros Hl. apply Forall_app. split; [by apply Forall_take|apply fresh_u32s]. Qed.

Lemma take_resize l n k : (k <= n)%nat -> (k <= length l)%nat -> take k (resize fresh l n) = take k l.
Proof.
  intros Hn Hl. unfold resize. rewrite take_app_le by (rewrite length_take; lia). rewrite take_take. f_equal. lia.
Qed.

(** A cell is added behind [k] cells. *)
Lemma resize_snoc l k x : 0 <= k <= Z.of_nat (length l) ->
  wr (resize fresh l (Z.to_nat (k + 1))) k x = Some (take (Z.to_nat k) l ++ [x]).
Proof.
  intros Hk. assert (Hl : length (resize fresh l (Z.to_nat (k + 1))) = S (Z.to_nat k)) by (rewrite length_resize; lia).
  rewrite <- (take_drop (Z.to_nat k) (resize fresh l (Z.to_nat (k + 1)))), take_resize by lia.
  destruct (drop (Z.to_nat k) (resize fresh l (Z.to_nat (k + 1)))) as [|y [|]] eqn:E;
    apply (f_equal length) in E; rewrite length_drop, Hl in E; cbn in E; try lia.
  apply wr_app. rewrite length_take. lia.
Qed.

(** All allocations succeed. *)
Definition memory (m : mem) : Prop := Forall (eq true) m.

Lemma memory_alloc m : memory m -> (alloc m).1 = true /\ memory (alloc m).2.
Proof. intros Hm. destruct m as [|b m]; [done|]. apply Forall_cons in Hm as [<- Hm]. done. Qed.

Lemma malloc_cases m n : 0 <= n -> exists m',
  (malloc fresh m n = (None, m') /\ ~ memory m) \/
  (exists l, malloc fresh m n = (Some l, m') /\ Z.of_nat (length l) = n /\ u32s l /\ (memory m -> memory m')).
Proof.
  intros Hn. pose proof (memory_alloc m) as Hm. unfold malloc. destruct (alloc m) as [ok m']. cbn in Hm.
  rewrite (proj2 (Z.leb_le 0 n)), andb_true_r by lia. exists m'. destruct ok; [right|left].
  - eexists. split; [done|]. rewrite length_fresh. split; [lia|]. split; [apply fresh_u32s|tauto].
  - split; [done|]. intros H. by destruct (Hm H).
Qed.

Lemma realloc_cases m l n : 0 < n -> exists m',
  (realloc fresh m l n = (false, l, m') /\ ~ memory m) \/
  (realloc fresh m l n = (true, resize fresh l (Z.to_nat n), m') /\ (memory m -> memory m')).
Proof.
  intros Hn. pose proof (memory_alloc m) as Hm. unfold realloc. rewrite (proj2 (Z.eqb_neq n 0)) by lia.
  destruct (alloc m) as [ok m']. cbn in Hm. rewrite (proj2 (Z.ltb_lt 0 n)), andb_true_r by lia. exists m'. destruct ok; [right|left].
  - split; [done|tauto].
  - split; [done|]. intros H. by destruct (Hm H).
Qed.

End Arrays.

(** ** Filling *)

(** The first [i] cells of an array are set, and the next one is written. *)
Lemma wr_next (pre : list Z) (a : list Z) (i : Z) x : i = Z.of_nat (length pre) -> take (length pre) a = pre -> i < Z.of_nat (length a) ->
  exists a', wr a i x = Some a' /\ length a' = length a /\ take (length (pre ++ [x])) a' = pre ++ [x].
Proof.
  intros -> Ht Hl. destruct (drop (length pre) a) as [|y r] eqn:E.
  { apply (f_equal length) in E. rewrite length_drop in E. cbn in E. lia. }
  assert (Ha : a = pre ++ y :: r) by (rewrite <- (take_drop (length pre) a), Ht, E; done).
  exists (pre ++ x :: r). rewrite Ha, wr_app by done. split; [done|]. rewrite !length_app. split; [done|].
  rewrite take_app_ge by (cbn; lia). f_equal. by replace (length pre + length [x] - length pre)%nat with 1%nat by (cbn; lia).
Qed.

Lemma take_S_rd (l : list Z) (i : Z) x : 0 <= i -> rd l i = Some x -> take (Z.to_nat (i + 1)) l = take (Z.to_nat i) l ++ [x].
Proof.
  intros Hi E. unfold rd in E. rewrite (proj2 (Z.leb_le 0 i)) in E by lia.
  replace (Z.to_nat (i + 1)) with (S (Z.to_nat i)) by lia. by apply take_S_r.
Qed.

Lemma copy_cells_ok size from to : 0 <= size <= Z.of_nat (length from) -> Z.of_nat (length to) = size ->
  copy_cells size from to = Some (take (Z.to_nat size) from).
Proof.
  intros Hs Ht. unfold copy_cells.
  destruct (for_up_inv (fun i a => length a = length to /\ take (Z.to_nat i) a = take (Z.to_nat i) from)
    (Z.to_nat size) 0 (fun i a => x ← rd from i; wr a i x) to) as (a & -> & Hl & Ha); [done| |].
  - intros i a Hi [Hl Ha]. destruct (rd_Some from i) as (x & E & _); [lia|]. rewrite E. cbn [mbind option_bind].
    assert (Hlen : length (take (Z.to_nat i) from) = Z.to_nat i) by (rewrite length_take; lia).
    destruct (wr_next (take (Z.to_nat i) from) a i x) as (a' & -> & Hl' & Ha'); [lia|by rewrite Hlen|lia|].
    exists a'. split; [done|]. split; [lia|]. rewrite (take_S_rd from i x) by (done || lia).
    rewrite <- Ha'. f_equal. rewrite length_app, Hlen. cbn. lia.
  - f_equal. rewrite Z.add_0_l, Z2Nat.id in Ha by lia. rewrite <- Ha. symmetry. apply take_ge. lia.
Qed.

(** [a] has [n] cells and starts with [pre]. *)
Definition holds (n : nat) (pre a : list Z) : Prop := length a = n /\ take (length pre) a = pre.

Lemma holds_none n a : length a = n -> holds n [] a.
Proof. by split. Qed.

Lemma holds_full n pre a : holds n pre a -> length pre = n -> a = pre.
Proof. intros [Hl Ht] <-. rewrite <- Ht, take_ge; [done|lia]. Qed.

Lemma holds_wr n pre a x : holds n pre a -> (length pre < n)%nat ->
  exists a', wr a (Z.of_nat (length pre)) x = Some a' /\ holds n (pre ++ [x]) a'.
Proof.
  intros [Hl Ht] Hn. destruct (wr_next pre a (Z.of_nat (length pre)) x) as (a' & -> & Hl' & Ht'); [done|done|lia|].
  exists a'. split; [done|]. split; [lia|done].
Qed.

Lemma rd_middle (pi ki ri : list Z) x p : p = Z.of_nat (length pi) -> rd (pi ++ (x :: ki) ++ ri) p = Some x.
Proof. intros ->. by apply rd_app. Qed.

Lemma snoc_middle (pi ki ri : list Z) x : pi ++ (x :: ki) ++ ri = (pi ++ [x]) ++ ki ++ ri.
Proof. by rewrite <- app_assoc. Qed.

Lemma weights_fill_ok ri rw n ki : forall kw pi pw its iw w, length kw = length ki -> length pw = length pi ->
  holds n pi its -> holds n (u32 <$> pw) iw -> (length (pi ++ ki) <= n)%nat -> w = u32 (sumz (u32 <$> pw)) ->
  exists its' iw', weights_fill (length ki) (Z.of_nat (length pi)) (pi ++ ki ++ ri) (pw ++ kw ++ rw) its iw w =
      Done (its', iw', u32 (sumz (u32 <$> (pw ++ kw)))) /\
    holds n (pi ++ ki) its' /\ holds n (u32 <$> (pw ++ kw)) iw'.
Proof.
  induction ki as [|x ki IH]; intros [|y kw] pi pw its iw w Hk Hp Hi Hw Hn Ew; cbn [length] in Hk; try lia; cbn [weights_fill length].
  { exists its, iw. rewrite !app_nil_r, Ew. done. }
  assert (Hlt : (length pi < n)%nat) by (rewrite length_app in Hn; cbn in Hn; lia).
  rewrite (rd_middle pi ki ri x) by done. run. destruct (holds_wr n pi its x Hi Hlt) as (its1 & -> & Hi1). run.
  rewrite (rd_middle pw kw rw y) by lia. run.
  destruct (holds_wr n (u32 <$> pw) iw (u32 y) Hw) as (iw1 & Ei & Hw1); [rewrite length_fmap; lia|].
  rewrite length_fmap, Hp in Ei. rewrite Ei. run. rewrite !snoc_middle.
  destruct (IH kw (pi ++ [x]) (pw ++ [y]) its1 iw1 (u32 (w + y))) as (its' & iw' & E & H1 & H2).
  - lia.
  - rewrite !length_app, Hp. done.
  - done.
  - by rewrite fmap_app.
  - by rewrite <- app_assoc.
  - rewrite Ew, fmap_app, sumz_app. cbn [fmap list_fmap sumz]. by rewrite Z.add_0_r, u32_add_l, u32_add_r.
  - exists its', iw'. rewrite <- !app_assoc in *. cbn [app] in *. rewrite length_app in E. cbn [length] in E.
    replace (Z.of_nat (length pi) + 1) with (Z.of_nat (length pi + 1)) by lia. rewrite E. done.
Qed.

Lemma list_fill_ok ri rw n ki : forall kw pi pw its iw sw w, length kw = length ki -> length pw = length pi ->
  holds n pi its -> holds n (u32 <$> pw) iw -> holds n (prefix_sums (u32 <$> pw)) sw -> (length (pi ++ ki) <= n)%nat ->
  u32 w = sumz (u32 <$> pw) ->
  let r := list_fill (length ki) (Z.of_nat (length pi)) w (pi ++ ki ++ ri) (pw ++ kw ++ rw) its iw sw in
  if decide (sumz (u32 <$> (pw ++ kw)) < 2 ^ 32) then
    exists its' iw' sw' w', r = Done (Some (its', iw', sw', w')) /\ u32 w' = sumz (u32 <$> (pw ++ kw)) /\
      holds n (pi ++ ki) its' /\ holds n (u32 <$> (pw ++ kw)) iw' /\ holds n (prefix_sums (u32 <$> (pw ++ kw))) sw'
  else r = Done None.
Proof.
  induction ki as [|x ki IH]; intros [|y kw] pi pw its iw sw w Hk Hp Hi Hw Hs Hn Ew; cbn [length] in Hk; try lia; cbn [list_fill length].
  { cbv zeta. rewrite !app_nil_r, <- Ew, decide_True by (apply u32_range). exists its, iw, sw, w. done. }
  assert (Hlt : (length pi < n)%nat) by (rewrite length_app in Hn; cbn in Hn; lia). cbv zeta.
  rewrite (rd_middle pi ki ri x) by done. run. destruct (holds_wr n pi its x Hi Hlt) as (its1 & -> & Hi1). run.
  rewrite (rd_middle pw kw rw y) by lia. run.
  destruct (holds_wr n (u32 <$> pw) iw (u32 y) Hw) as (iw1 & Ei & Hw1); [rewrite length_fmap; lia|].
  rewrite length_fmap, Hp in Ei. rewrite Ei. run.
  assert (Hsum : sumz (u32 <$> (pw ++ [y])) = u32 w + u32 y).
  { rewrite fmap_app, sumz_app, Ew. cbn [fmap list_fmap sumz]. lia. }
  replace (pw ++ y :: kw) with ((pw ++ [y]) ++ kw) by (by rewrite <- app_assoc).
  assert (Hu : 0 <= sumz (u32 <$> kw)) by (apply sumz_nonneg, Forall_fmap, Forall_true; intros z; apply u32_range).
  destruct (crush_addition_is_unsafe (u32 w) (u32 y)) eqn:Ea.
  { apply addition_unsafe in Ea. rewrite decide_False; [done|]. rewrite fmap_app, sumz_app, Hsum. lia. }
  apply addition_safe in Ea. rewrite !snoc_middle.
  assert (Ew' : u32 (s32 (w + y)) = sumz (u32 <$> (pw ++ [y]))).
  { rewrite u32_s32, Hsum, <- u32_add_l, <- u32_add_r. apply u32_small. pose proof (u32_range w). pose proof (u32_range y). lia. }
  destruct (holds_wr n (prefix_sums (u32 <$> pw)) sw (u32 (s32 (w + y))) Hs) as (sw1 & Es & Hs1);
    [unfold prefix_sums; rewrite length_sums_from, length_fmap; lia|].
  unfold prefix_sums in Es, Hs1. rewrite length_sums_from, length_fmap, Hp in Es. rewrite Es. run.
  specialize (IH kw (pi ++ [x]) (pw ++ [y]) its1 iw1 sw1 (s32 (w + y))).
  replace (Z.of_nat (length pi) + 1) with (Z.of_nat (length (pi ++ [x]))) by (rewrite length_app; cbn; lia).
  replace (pi ++ x :: ki) with ((pi ++ [x]) ++ ki) by (by rewrite <- app_assoc).
  apply IH; [lia|rewrite !length_app; cbn; lia|done|by rewrite fmap_app| |rewrite <- app_assoc; done|done].
  unfold prefix_sums. rewrite fmap_app, sums_from_app. cbn [fmap list_fmap sums_from]. rewrite Z.add_0_l, <- Ew.
  replace (u32 w + u32 y) with (u32 (s32 (w + y))) by lia. done.
Qed.
