(* ===== verification/CrBuildStraw.v ===== *)
(** * The lengths of straws (ceph/src/crush: builder.c, [crush_calc_straw])

    The insertion sort orders the positions by weight, and the second loop sets
    every straw once, whatever the arrays held before. *)
From stdpp Require Import sorting.
From S2P Require Import Prelude Doubles CrHash CrBucket CrPerm CrChoose CrBuilder CrBuildOps CrBuildArrays.

(** ** The order of the positions *)

Section Sort.
Context (wt : Z -> Z).

(** [i] goes before the first position with a larger weight. *)
Fixpoint place (i : Z) (l : list Z) : list Z :=
  match l with
  | [] => [i]
  | p :: l => if wt i <? wt p then i :: p :: l else p :: place i l
  end.

Fixpoint order (n : nat) : list Z :=
  match n with O => [] | S n => place (Z.of_nat n) (order n) end.

Definition lighter (p q : Z) : Prop := wt p <= wt q.

Lemma place_perm i l : place i l ≡ₚ i :: l.
Proof.
  induction l as [|p l IH]; cbn; [done|]. destruct (wt i <? wt p); [done|]. rewrite IH. apply Permutation_swap.
Qed.

Lemma order_perm n : order n ≡ₚ range n.
Proof.
  induction n as [|n IH]; cbn [order]; [done|]. rewrite place_perm, IH. unfold range. rewrite seq_S, fmap_app. cbn.
  by rewrite Permutation_cons_append.
Qed.

Lemma length_order n : length (order n) = n.
Proof. rewrite (Permutation_length (order_perm n)). apply length_range. Qed.

Lemma order_range n p : p ∈ order n -> 0 <= p < Z.of_nat n.
Proof. rewrite order_perm. apply elem_of_range. Qed.

Lemma place_sorted i l : StronglySorted lighter l -> StronglySorted lighter (place i l).
Proof.
  induction 1 as [|p l Hs IH Hp]; cbn; [repeat constructor|]. destruct (Z.ltb_spec (wt i) (wt p)).
  - constructor; [by constructor|]. constructor; [unfold lighter; lia|]. eapply Forall_impl; [exact Hp|]. unfold lighter. lia.
  - constructor; [done|]. rewrite place_perm. constructor; [done|done].
Qed.

Lemma order_sorted n : StronglySorted lighter (order n).
Proof. induction n; cbn; [constructor|by apply place_sorted]. Qed.

Lemma place_at i l : exists l1 l2, l = l1 ++ l2 /\ place i l = l1 ++ i :: l2.
Proof.
  induction l as [|p l (l1 & l2 & -> & E)]; cbn; [by exists [], []|].
  destruct (wt i <? wt p); [by exists [], (p :: l1 ++ l2)|]. rewrite E. by exists (p :: l1), l2.
Qed.

End Sort.

(** ** The insertion sort *)

Section SortLoop.
Context (weights : list Z) (wt : Z -> Z) (size : nat) (Hwt : forall p, 0 <= p < Z.of_nat size -> rd weights p = Some (wt p)).

Lemma find_place_ok i l2 : forall l1 r, Forall (fun p => 0 <= p < Z.of_nat size) l2 ->
  exists k, find_place (length l2) (Z.of_nat (length l1)) (wt i) weights (l1 ++ l2 ++ r) = Done (Z.of_nat (length l1 + k)) /\
    (k <= length l2)%nat /\ place wt i l2 = take k l2 ++ i :: drop k l2.
Proof.
  induction l2 as [|p l2 IH]; intros l1 r Hf; cbn [find_place length].
  { exists 0%nat. rewrite Nat.add_0_r. done. }
  apply Forall_cons in Hf as [Hp Hf]. rewrite (rd_middle l1 l2 r p) by done. run. rewrite Hwt by done. run. cbn [place].
  destruct (wt i <? wt p); [exists 0%nat; rewrite Nat.add_0_r; split; [done|]; split; [lia|done]|].
  destruct (IH (l1 ++ [p]) r Hf) as (k & E & Hk & Ep). rewrite snoc_middle.
  replace (Z.of_nat (length l1) + 1) with (Z.of_nat (length (l1 ++ [p]))) by (rewrite length_app; cbn; lia). rewrite E.
  exists (S k). rewrite length_app. cbn. split; [f_equal; lia|]. split; [lia|]. by rewrite Ep.
Qed.

Lemma shift_cells_ok (a : list Z) b : forall c r, exists z,
  shift_cells (length b) (Z.of_nat (length (a ++ b))) (a ++ b ++ c :: r) = Some (a ++ z :: b ++ r).
Proof.
  induction b as [|y b IH] using rev_ind; intros c r; cbn [shift_cells length]; [by exists c|].
  rewrite length_app. cbn [length]. rewrite Nat.add_1_r. cbn [shift_cells].
  assert (Hl : Z.of_nat (length (a ++ b ++ [y])) - 1 = Z.of_nat (length (a ++ b))) by (rewrite !length_app; cbn; lia).
  rewrite Hl. replace (a ++ (b ++ [y]) ++ c :: r) with ((a ++ b) ++ y :: c :: r) by (by rewrite <- !app_assoc).
  rewrite rd_app by done. cbn [mbind option_bind].
  replace ((a ++ b) ++ y :: c :: r) with ((a ++ b ++ [y]) ++ c :: r) by (by rewrite <- !app_assoc).
  rewrite wr_app by done. cbn [mbind option_bind].
  replace ((a ++ b ++ [y]) ++ y :: r) with (a ++ b ++ y :: y :: r) by (by rewrite <- !app_assoc).
  destruct (IH y (y :: r)) as (z & ->). exists z. by rewrite <- !app_assoc.
Qed.

Lemma insert_position_ok i r c : (i < size)%nat ->
  insert_position weights (Z.of_nat i) (order wt i ++ c :: r) = Done (order wt (S i) ++ r).
Proof.
  intros Hi. unfold insert_position. rewrite Hwt by lia. run. rewrite Nat2Z.id.
  assert (Hf : Forall (fun p => 0 <= p < Z.of_nat size) (order wt i)).
  { apply Forall_forall. intros p Hp%order_range. lia. }
  destruct (find_place_ok (Z.of_nat i) (order wt i) [] (c :: r) Hf) as (k & E & Hk & Ep). rewrite length_order in E, Hk.
  cbn [app length] in E. change (Z.of_nat 0) with 0 in E. rewrite E. run. cbn [Nat.add] in *. cbn [order]. rewrite Ep.
  set (l1 := take k (order wt i)) in *. set (l2 := drop k (order wt i)) in *.
  assert (Hl : order wt i = l1 ++ l2) by (symmetry; apply take_drop).
  assert (H1 : length l1 = k) by (unfold l1; rewrite length_take, length_order; lia).
  assert (H2 : length l2 = (i - k)%nat) by (unfold l2; rewrite length_drop, length_order; lia).
  rewrite Hl, <- app_assoc. destruct (shift_cells_ok l1 l2 c r) as (z & Ez).
  replace (Z.to_nat (Z.of_nat i - Z.of_nat k)) with (length l2) by lia.
  replace (Z.of_nat i) with (Z.of_nat (length (l1 ++ l2))) at 1 by (rewrite length_app; lia). rewrite Ez. run.
  rewrite wr_app by lia. run. by rewrite <- app_assoc.
Qed.

Lemma sort_loop_ok n : forall i r, (i + n <= size)%nat -> (n <= length r)%nat ->
  sort_loop n (Z.of_nat i) weights (order wt i ++ r) = Done (order wt (i + n) ++ drop n r).
Proof.
  induction n as [|n IH]; intros i r Hi Hr; cbn [sort_loop]; [by rewrite Nat.add_0_r|].
  destruct r as [|c r]; [cbn in Hr; lia|]. rewrite insert_position_ok by lia. run.
  replace (Z.of_nat i + 1) with (Z.of_nat (S i)) by lia. rewrite IH by (cbn in Hr; lia).
  by replace (S i + n)%nat with (i + S n)%nat by lia.
Qed.

(** The array starts with the positions in their order. *)
Lemma sort_positions_ok scratch : (size <= length scratch)%nat ->
  sort_positions (Z.of_nat size) weights scratch = Done (order wt size ++ drop size scratch).
Proof.
  intros Hs. unfold sort_positions. destruct (Z.eqb_spec (Z.of_nat size) 0) as [H0|H0].
  { replace size with 0%nat by lia. run. by rewrite drop_0. }
  destruct scratch as [|c r]; [cbn in Hs; lia|]. rewrite (wr_app [] r c 0) by done. run.
  pose proof (sort_loop_ok (size - 1) 1 r ltac:(lia) ltac:(cbn in Hs; lia)) as E. cbn [order place app] in E.
  change (Z.of_nat 1) with 1 in E. change (Z.of_nat 0) with 0 in E.
  replace (Z.to_nat (Z.of_nat size - 1)) with (size - 1)%nat by lia. cbn [app]. rewrite E.
  destruct size as [|s]; [lia|]. cbn. by rewrite Nat.sub_0_r.
Qed.

End SortLoop.

(** ** Setting the straws *)

Lemma to_u32_range wild x : 0 <= to_u32 wild x < 2 ^ 32.
Proof.
  unfold to_u32. destruct (trunc32 x) as [v|] eqn:E; cbn; [|apply u32_range].
  destruct x as [| | |[] m e]; cbn in E; try discriminate; [injection E as <-; unfold Datatypes.id; lia|].
  destruct (Z.ltb_spec (Z.shiftl (Zpos m) e) (2 ^ 32)); [|discriminate]. injection E as <-. unfold Datatypes.id.
  split; [apply Z.shiftl_nonneg; lia|done].
Qed.

Section Straws.
Context (pow : double -> double -> double) (wild : double -> Z) (version : Z) (wt : Z -> Z).

Fixpoint left_after (w k : Z) (l : list Z) : Z :=
  match l with [] => k | p :: l => if wt p =? w then left_after w (k - 1) l else k end.

(** The positions, in their order, with their straws. *)
Fixpoint straw_list (l : list Z) (v : straw_vars) : list (Z * Z) :=
  match l with
  | [] => []
  | p :: l =>
      if wt p =? 0 then
        (p, 0) :: straw_list l (mkvars (if version =? 0 then numleft v else numleft v - 1) (straw v) (wbelow v) (lastw v))
      else
        (p, to_u32 wild (dmul (straw v) (double_of 0x10000))) ::
        match l with
        | [] => []
        | q :: _ =>
            if version =? 0 then
              if wt q =? wt p then straw_list l v
              else straw_list l (next_straw pow v (left_after (wt q) (numleft v) l) (wt p) (wt q))
            else straw_list l (next_straw pow v (numleft v - 1) (wt p) (wt q))
        end
  end.

Definition assign (s : list Z) (l : list (Z * Z)) : list Z := foldl (fun s '(p, x) => <[Z.to_nat p := x]> s) s l.

Lemma straw_list_fst l : forall v, (straw_list l v).*1 = l.
Proof.
  induction l as [|p l IH]; intros v; cbn [straw_list]; [done|]. destruct (wt p =? 0); cbn; [by rewrite IH|].
  destruct l as [|q l]; [done|]. destruct (version =? 0); [destruct (wt q =? wt p)|]; by rewrite IH.
Qed.

Lemma straw_list_snd l : forall v, Forall (fun px => 0 <= px.2 < 2 ^ 32 /\ (wt px.1 = 0 -> px.2 = 0)) (straw_list l v).
Proof.
  induction l as [|p l IH]; intros v; cbn [straw_list]; [done|]. destruct (Z.eqb_spec (wt p) 0) as [Hz|Hz].
  - constructor; [cbn; lia|apply IH].
  - constructor; [cbn; split; [apply to_u32_range|done]|]. destruct l as [|q l]; [done|].
    destruct (version =? 0); [destruct (wt q =? wt p)|]; apply IH.
Qed.

Lemma length_assign l : forall s, length (assign s l) = length s.
Proof. induction l as [|[p x] l IH]; intros s; [done|]. cbn. unfold assign in IH. by rewrite IH, length_insert. Qed.

Lemma assign_keep l (p : nat) : forall s, Forall (fun px => 0 <= px.1) l -> Z.of_nat p ∉ l.*1 -> assign s l !! p = s !! p.
Proof.
  induction l as [|[q x] l IH]; intros s Hf Hp; [done|]. apply Forall_cons in Hf as [Hq Hf]. cbn in Hp, Hq.
  apply not_elem_of_cons in Hp as [Hne Hp]. change (assign s ((q, x) :: l)) with (assign (<[Z.to_nat q := x]> s) l).
  rewrite IH by done. apply list_lookup_insert_ne. lia.
Qed.

Lemma assign_set l p x : forall s, Forall (fun px => 0 <= px.1) l -> NoDup l.*1 -> (p, x) ∈ l -> (Z.to_nat p < length s)%nat ->
  assign s l !! Z.to_nat p = Some x.
Proof.
  induction l as [|[q y] l IH]; intros s Hf Hnd Hin Hp; [by apply elem_of_nil in Hin|]. apply Forall_cons in Hf as [Hq Hf].
  cbn in Hnd, Hq. apply NoDup_cons in Hnd as [Hn Hnd]. change (assign s ((q, y) :: l)) with (assign (<[Z.to_nat q := y]> s) l).
  apply elem_of_cons in Hin as [[= -> ->]|Hin].
  - rewrite assign_keep; [by apply list_lookup_insert_eq|done|]. by rewrite Z2Nat.id by lia.
  - apply IH; [done|done|done|]. by rewrite length_insert.
Qed.

(** *** The loop *)

Context (weights : list Z) (size : nat) (Hwt : forall p, 0 <= p < Z.of_nat size -> rd weights p = Some (wt p)) (rest : list Z).
Local Abbreviation reverse := (order wt size ++ rest).

Lemma reverse_at i p l : drop i (order wt size) = p :: l ->
  rd reverse (Z.of_nat i) = Some p /\ rd weights p = Some (wt p) /\ 0 <= p < Z.of_nat size /\
  drop (S i) (order wt size) = l /\ size = (i + S (length l))%nat.
Proof.
  intros E. assert (Hp : order wt size !! i = Some p) by (rewrite <- (Nat.add_0_r i), <- lookup_drop, E; done).
  assert (Hi : (i < length (order wt size))%nat) by (by eapply lookup_lt_Some).
  assert (Hr : 0 <= p < Z.of_nat size) by (apply (order_range wt); by eapply list_elem_of_lookup_2).
  rewrite rd_lookup, lookup_app_l by done. split; [done|]. split; [by apply Hwt|]. split; [done|].
  rewrite (drop_S _ p) in E by done. injection E as E. split; [done|].
  apply (f_equal length) in E. rewrite length_drop, length_order in *. lia.
Qed.

Lemma count_same_ok w l : forall j k, drop j (order wt size) = l ->
  count_same (length l) (Z.of_nat j) w k weights reverse = Done (left_after w k l).
Proof.
  induction l as [|p l IH]; intros j k E; cbn [count_same length left_after]; [done|].
  destruct (reverse_at j p l E) as (-> & Ew & _ & E' & _). run. rewrite Ew. run.
  destruct (wt p =? w); [|done]. replace (Z.of_nat j + 1) with (Z.of_nat (S j)) by lia. by apply IH.
Qed.

Lemma straw_loop_ok l : forall i v s, drop i (order wt size) = l -> (size <= length s)%nat ->
  straw_loop pow wild version (length l) (Z.of_nat i) (Z.of_nat size) weights reverse v s = Done (assign s (straw_list l v)).
Proof.
  induction l as [|p l IH]; intros i v s E Hs; cbn [straw_loop length straw_list]; [done|].
  destruct (reverse_at i p l E) as (-> & Ew & Hp & E' & Hl). run. rewrite Ew. run.
  replace (Z.of_nat i + 1) with (Z.of_nat (S i)) by lia.
  assert (Hnext : forall v x, straw_loop pow wild version (length l) (Z.of_nat (S i)) (Z.of_nat size) weights reverse v
    (<[Z.to_nat p := x]> s) = Done (assign s ((p, x) :: straw_list l v))).
  { intros v' x. apply IH; [done|]. by rewrite length_insert. }
  destruct (wt p =? 0); [rewrite wr_Some by lia; run; apply Hnext|]. rewrite wr_Some by lia. run.
  destruct l as [|q l]; [rewrite (proj2 (Z.eqb_eq _ _)) by (cbn in Hl; lia); done|].
  rewrite (proj2 (Z.eqb_neq (Z.of_nat (S i)) _)) by (cbn in Hl; lia).
  destruct (reverse_at (S i) q l E') as (-> & Ewq & _ & _ & _). run. rewrite Ewq. run.
  destruct (version =? 0); [|apply Hnext]. destruct (wt q =? wt p); [apply Hnext|].
  pose proof (count_same_ok (wt q) (q :: l) (S i) (numleft v) E') as Ec. cbn [length] in Ec.
  replace (Z.to_nat (Z.of_nat size - Z.of_nat (S i))) with (S (length l)) by (cbn in Hl; lia). rewrite Ec. run. apply Hnext.
Qed.

End Straws.

(** ** The whole calculation *)

Section Calc.
Context (pow : double -> double -> double) (wild : double -> Z) (version : Z).

(** The straws of the items with weights [ws]. *)
Definition straws_of (ws : list Z) : list Z :=
  let wt p := ws !!! Z.to_nat p in
  assign (replicate (length ws) 0)
    (straw_list pow wild version wt (order wt (length ws)) (mkvars (Z.of_nat (length ws)) (double_of 1) (double_of 0) (double_of 0))).

Lemma length_straws_of ws : length (straws_of ws) = length ws.
Proof. unfold straws_of. cbv zeta. by rewrite length_assign, length_replicate. Qed.

(** A run on arrays that start with the weights [ws]: the straws of these
    weights are at the start of the array, and the rest of it does not change. *)
Lemma calc_straw_ok m scratch ws junk s : (length ws <= length scratch)%nat -> (length ws <= length s)%nat -> (alloc m).1 = true ->
  crush_calc_straw pow wild version m scratch (Z.of_nat (length ws)) (ws ++ junk) s =
    Done (0, straws_of ws ++ drop (length ws) s, (alloc m).2).
Proof.
  intros Hsc Hs Hm. unfold crush_calc_straw. destruct (alloc m) as [ok m1]. cbn in Hm. subst ok. cbn [negb fst snd].
  set (n := length ws). set (wt := fun p => ws !!! Z.to_nat p).
  assert (Hwt : forall p, 0 <= p < Z.of_nat n -> rd (ws ++ junk) p = Some (wt p)).
  { intros p Hp. unfold rd. rewrite (proj2 (Z.leb_le 0 p)), lookup_app_l by lia. apply list_lookup_lookup_total_lt. lia. }
  rewrite (sort_positions_ok (ws ++ junk) wt n Hwt) by done. run. rewrite Nat2Z.id.
  pose proof (straw_loop_ok pow wild version wt (ws ++ junk) n Hwt (drop n scratch) (order wt n) 0
    (mkvars (Z.of_nat n) (double_of 1) (double_of 0) (double_of 0)) s eq_refl Hs) as E.
  rewrite length_order in E. change (Z.of_nat 0) with 0 in E. rewrite E. run. do 3 f_equal.
  unfold straws_of. cbv zeta. fold n wt. set (asg := straw_list pow wild version wt (order wt n) _).
  assert (Hnd : NoDup asg.*1).
  { unfold asg. rewrite straw_list_fst, order_perm. unfold range. apply NoDup_fmap; [intros a b; lia|apply NoDup_seq]. }
  assert (Hin : forall p, p ∈ asg.*1 <-> 0 <= p < Z.of_nat n) by (intros p; unfold asg; rewrite straw_list_fst, order_perm; apply elem_of_range).
  assert (Hpos : Forall (fun px : Z * Z => 0 <= px.1) asg).
  { apply Forall_forall. intros px Hpx. apply (list_elem_of_fmap_2 fst) in Hpx. apply Hin in Hpx. lia. }
  apply list_eq. intros i. destruct (decide (i < n)%nat) as [Hi|Hi].
  - rewrite lookup_app_l by (rewrite length_assign, length_replicate; done).
    pose proof (proj2 (Hin (Z.of_nat i)) ltac:(lia)) as Hx. apply list_elem_of_fmap in Hx as ([p x] & Ep & Hx). cbn in Ep. subst p.
    pose proof (assign_set asg _ x s Hpos Hnd Hx) as E1. pose proof (assign_set asg _ x (replicate n 0) Hpos Hnd Hx) as E2.
    rewrite length_replicate in E2. rewrite Nat2Z.id in E1, E2. by rewrite E1, E2 by lia.
  - rewrite lookup_app_r, length_assign, length_replicate, lookup_drop by (rewrite length_assign, length_replicate; lia).
    replace (n + (i - n))%nat with i by lia. apply assign_keep; [done|]. rewrite Hin. lia.
Qed.

Lemma straws_of_spec ws p x : ws !! p = Some x -> exists v, straws_of ws !! p = Some v /\ 0 <= v < 2 ^ 32 /\ (x = 0 -> v = 0).
Proof.
  intros Hp. unfold straws_of. cbv zeta. set (wt := fun p => ws !!! Z.to_nat p). set (asg := straw_list _ _ _ _ _ _).
  assert (Hl : (p < length ws)%nat) by (by eapply lookup_lt_Some).
  assert (Hin : Z.of_nat p ∈ asg.*1) by (unfold asg; rewrite straw_list_fst, order_perm; apply elem_of_range; lia).
  apply list_elem_of_fmap in Hin as ([q v] & Eq & Hin). cbn in Eq. subst q.
  pose proof (straw_list_snd pow wild version wt (order wt (length ws)) (mkvars (Z.of_nat (length ws)) (double_of 1) (double_of 0) (double_of 0))) as Hv.
  rewrite Forall_forall in Hv. destruct (Hv _ Hin) as [Hr Hz]. cbn in Hr, Hz. exists v. split; [|split; [done|]].
  - rewrite <- (Nat2Z.id p) at 1. apply assign_set.
    + apply Forall_forall. intros px Hpx. apply (list_elem_of_fmap_2 fst) in Hpx. unfold asg in Hpx.
      rewrite straw_list_fst in Hpx. apply order_range in Hpx. lia.
    + unfold asg. rewrite straw_list_fst, order_perm. unfold range. apply NoDup_fmap; [intros a b; lia|apply NoDup_seq].
    + done.
    + rewrite length_replicate. lia.
  - intros ->. apply Hz. unfold wt. rewrite Nat2Z.id. by apply list_lookup_total_correct.
Qed.

Lemma straws_of_u32s ws : u32s (straws_of ws).
Proof.
  apply Forall_lookup. intros p v Hv. assert (Hl : (p < length ws)%nat) by (apply lookup_lt_Some in Hv; by rewrite length_straws_of in Hv).
  destruct (lookup_lt_is_Some_2 ws p Hl) as [x Hx]. destruct (straws_of_spec ws p x Hx) as (v' & E & Hr & _). congruence.
Qed.

End Calc.
