(* ===== verification/CrBuildTree.v ===== *)
(** * The nodes of tree buckets (ceph/src/crush: builder.c)

    Node [2 ^ j * (2 * k + 1)] is the [k]-th node of height [j], and its weight
    is the sum of the leaves below it: [tsum].  Adding a weight to a leaf and to
    its ancestors keeps this. *)
From S2P Require Import Prelude CrHash CrBucket CrPerm CrChoose CrBuilder CrBuildOps CrBuildArrays.

(** ** Numbers of nodes *)

Definition node (j k : Z) : Z := 2 ^ j * (2 * k + 1).

Lemma pow2_pos j : 0 <= j -> 0 < 2 ^ j.
Proof. intros. apply Z.pow_pos_nonneg; lia. Qed.

Lemma pow2_succ j : 0 <= j -> 2 ^ (j + 1) = 2 * 2 ^ j.
Proof. intros. rewrite <- Z.pow_succ_r by lia. done. Qed.

Lemma node_leaf i : crush_calc_tree_node i = node 0 i.
Proof. unfold crush_calc_tree_node, node. rewrite Z.shiftl_mul_pow2 by lia. lia. Qed.

Lemma land_pow2 a m : 0 <= m -> Z.land a (2 ^ m) = if Z.testbit a m then 2 ^ m else 0.
Proof.
  intros Hm. apply Z.bits_inj'. intros n Hn. rewrite Z.land_spec, Z.pow2_bits_eqb by lia.
  destruct (Z.eqb_spec m n) as [->|Hne].
  - destruct (Z.testbit a n); [rewrite Z.pow2_bits_eqb, Z.eqb_refl by lia; done|by rewrite Z.bits_0].
  - rewrite andb_false_r. destruct (Z.testbit a m); [|by rewrite Z.bits_0].
    rewrite Z.pow2_bits_eqb by lia. symmetry. by apply Z.eqb_neq.
Qed.

Lemma on_right_node j k : 0 <= j -> on_right (node j k) j = Z.odd k.
Proof.
  intros Hj. unfold on_right. rewrite Z.shiftl_mul_pow2, Z.mul_1_l, land_pow2 by lia.
  assert (E : Z.testbit (node j k) (j + 1) = Z.odd k).
  { unfold node. rewrite Z.mul_comm, Z.mul_pow2_bits by lia. replace (j + 1 - j) with (Z.succ 0) by lia.
    rewrite Z.testbit_odd_succ by lia. apply Z.bit0_odd. }
  rewrite E. destruct (Z.odd k); [|done]. pose proof (pow2_pos (j + 1) ltac:(lia)).
  rewrite (proj2 (Z.eqb_neq _ _)) by lia. done.
Qed.

Lemma parent_node j k : 0 <= j < Z.of_nat height_fuel -> 0 <= k -> parent (node j k) = Done (node (j + 1) (k / 2)).
Proof.
  intros Hj Hk. unfold parent.
  assert (E : height height_fuel (node j k) = Done j) by (apply height_ok; lia). rewrite E. run. rewrite on_right_node by lia.
  rewrite Z.shiftl_mul_pow2, Z.mul_1_l by lia. unfold node. rewrite pow2_succ by lia. f_equal.
  pose proof (Zdiv2_odd_eqn k) as Ek. rewrite Zdiv2_div in Ek. destruct (Z.odd k); nia.
Qed.

Lemma node_inj j k j' k' : 0 <= j -> 0 <= j' -> 0 <= k -> 0 <= k' -> node j k = node j' k' -> j = j' /\ k = k'.
Proof.
  intros Hj Hj' Hk Hk' E. pose proof (height_ok (Z.to_nat (j + j' + 1)) j k Hj Hk ltac:(lia)) as E1.
  pose proof (height_ok (Z.to_nat (j + j' + 1)) j' k' Hj' Hk' ltac:(lia)) as E2. fold (node j k) in E1. fold (node j' k') in E2.
  rewrite E in E1. assert (j = j') as -> by congruence. split; [done|]. unfold node in E. pose proof (pow2_pos j' Hj'). nia.
Qed.

(** The ancestor of leaf [i] at height [j] is a node of the tree. *)
Lemma node_bound d i j : 0 <= j < d -> 0 <= i < 2 ^ (d - 1) -> 0 <= i / 2 ^ j /\ 0 < node j (i / 2 ^ j) < 2 ^ d.
Proof.
  intros Hj Hi. pose proof (pow2_pos j ltac:(lia)). assert (0 <= i / 2 ^ j) by (apply Z.div_pos; lia).
  split; [done|]. unfold node. split; [nia|].
  assert (Hd : 2 ^ (d - 1) = 2 ^ j * 2 ^ (d - 1 - j)) by (rewrite <- Z.pow_add_r by lia; f_equal; lia).
  assert (Hdd : 2 ^ d = 2 * 2 ^ (d - 1)) by (rewrite <- pow2_succ by lia; f_equal; lia).
  assert (i / 2 ^ j < 2 ^ (d - 1 - j)) by (apply Z.div_lt_upper_bound; lia). nia.
Qed.

Lemma div_pow2_succ i j : 0 <= j -> i / 2 ^ j / 2 = i / 2 ^ (j + 1).
Proof. intros Hj. pose proof (pow2_pos j Hj). rewrite pow2_succ, Z.div_div by lia. f_equal. lia. Qed.

(** ** Sums *)

Fixpoint tsum (f : Z -> Z) (j : nat) (k : Z) : Z :=
  match j with O => f k | S j => tsum f j (2 * k) + tsum f j (2 * k + 1) end.

Lemma tsum_ext f g j : (forall k, 0 <= k -> f k = g k) -> forall k, 0 <= k -> tsum f j k = tsum g j k.
Proof. intros H. induction j as [|j IH]; intros k Hk; cbn; [by apply H|]. rewrite !IH by lia. done. Qed.

Lemma tsum_add f i x j : 0 <= i -> forall k,
  tsum (fun k => f k + (if k =? i then x else 0)) j k = tsum f j k + (if k =? i / 2 ^ Z.of_nat j then x else 0).
Proof.
  intros Hi. induction j as [|j IH]; intros k; cbn [tsum]; [by rewrite Z.div_1_r|].
  rewrite !IH. replace (Z.of_nat (S j)) with (Z.of_nat j + 1) by lia. rewrite <- div_pow2_succ by lia.
  generalize (i / 2 ^ Z.of_nat j). intros q. pose proof (Zdiv2_odd_eqn q) as E. rewrite Zdiv2_div in E.
  destruct (Z.eqb_spec (2 * k) q), (Z.eqb_spec (2 * k + 1) q), (Z.eqb_spec k (q / 2)); destruct (Z.odd q); lia.
Qed.

(** The weights of the leaves. *)
Definition leaves (us : list Z) (k : Z) : Z := nth (Z.to_nat k) us 0.

Lemma leaves_snoc us x k : 0 <= k -> leaves (us ++ [x]) k = leaves us k + (if k =? Z.of_nat (length us) then x else 0).
Proof.
  intros Hk. unfold leaves. destruct (Z.eqb_spec k (Z.of_nat (length us))) as [->|Hne].
  - rewrite Nat2Z.id, nth_middle, nth_overflow by lia. lia.
  - destruct (decide (k < Z.of_nat (length us))); [rewrite app_nth1 by lia; lia|].
    rewrite !nth_overflow by (rewrite ?length_app; cbn; lia). lia.
Qed.

Lemma tsum_snoc us x j k : 0 <= k ->
  tsum (leaves (us ++ [x])) j k = tsum (leaves us) j k + (if k =? Z.of_nat (length us) / 2 ^ Z.of_nat j then x else 0).
Proof.
  intros Hk. rewrite <- tsum_add by lia. apply tsum_ext; [|done]. intros i Hi. by apply leaves_snoc.
Qed.

Lemma tsum_nil j k : 0 <= k -> tsum (leaves []) j k = 0.
Proof.
  revert k. induction j as [|j IH]; intros k Hk; cbn; [unfold leaves; by destruct (Z.to_nat k)|]. rewrite !IH by lia. done.
Qed.

Lemma tsum_bounds us j k : u32s us -> 0 <= k -> 0 <= tsum (leaves us) j k <= sumz us.
Proof.
  intros Hu Hk. induction us as [|x us IH] using rev_ind; [rewrite tsum_nil by done; cbn; lia|].
  apply Forall_app in Hu as [Hu Hx]. apply Forall_cons in Hx as [Hx _]. rewrite tsum_snoc, sumz_app by done. cbn.
  specialize (IH Hu). case_match; lia.
Qed.

(** The root has the sum of all leaves. *)
Lemma tsum_root us j : Z.of_nat (length us) <= 2 ^ Z.of_nat j -> tsum (leaves us) j 0 = sumz us.
Proof.
  intros Hl. induction us as [|x us IH] using rev_ind; [by apply tsum_nil|]. rewrite length_app in Hl. cbn in Hl.
  rewrite tsum_snoc, sumz_app, IH by lia. cbn. rewrite Z.div_small by lia. cbn. lia.
Qed.

(** ** Trees *)

(** An array whose first [2 ^ d] cells are the nodes over the leaves [f]. *)
Record tree_is (d : Z) (f : Z -> Z) (W : list Z) : Prop := {
  tr_len : 2 ^ d <= Z.of_nat (length W);
  tr_u32 : u32s W;
  tr_node : forall j k, 0 <= j -> 0 <= k -> node j k < 2 ^ d -> W !!! Z.to_nat (node j k) = tsum f (Z.to_nat j) k }.

(** The same while the weight [x] of leaf [i] has been added up to height [h]. *)
Record tree_part (d : Z) (f : Z -> Z) (i x h : Z) (W : list Z) : Prop := {
  tp_len : 2 ^ d <= Z.of_nat (length W);
  tp_u32 : u32s W;
  tp_node : forall j k, 0 <= j -> 0 <= k -> node j k < 2 ^ d ->
    W !!! Z.to_nat (node j k) = tsum f (Z.to_nat j) k + (if (j <? h) && (k =? i / 2 ^ j) then x else 0) }.

Lemma tree_part_done d f i x W : 0 <= i -> 0 <= d -> tree_part d f i x d W -> tree_is d (fun k => f k + (if k =? i then x else 0)) W.
Proof.
  intros Hi Hd [Hl Hu Hn]. split; [done..|]. intros j k Hj Hk Hb. rewrite Hn, tsum_add, Z2Nat.id by lia. f_equal.
  destruct (Z.ltb_spec j d); [done|]. exfalso. unfold node in Hb.
  assert (2 ^ d <= 2 ^ j) by (apply Z.pow_le_mono_r; lia). pose proof (pow2_pos d Hd). nia.
Qed.

Lemma tree_part_start d f i x W W' : 1 <= d -> 0 <= i < 2 ^ (d - 1) -> tree_is d f W -> 0 <= f i + x < 2 ^ 32 ->
  wr W (node 0 i) (f i + x) = Some W' -> tree_part d f i x 1 W'.
Proof.
  intros Hd Hi [Hl Hu Hn] Hx E. pose proof (node_bound d i 0 ltac:(lia) Hi) as [_ Hb]. rewrite Z.pow_0_r, Z.div_1_r in Hb.
  rewrite wr_Some in E by lia. injection E as <-. split; [by rewrite length_insert|by apply Forall_insert|].
  intros j k Hj Hk Hjk. destruct (decide (node j k = node 0 i)) as [En|En].
  - destruct (node_inj j k 0 i) as [-> ->]; [lia..|done|]. rewrite list_lookup_total_insert_eq by lia.
    cbn. rewrite Z.div_1_r, Z.eqb_refl. done.
  - rewrite list_lookup_total_insert_ne by (pose proof (pow2_pos j Hj); unfold node in *; nia). rewrite Hn by done.
    destruct (Z.ltb_spec j 1); [|cbn; lia]. replace j with 0 in * by lia. rewrite Z.pow_0_r, Z.div_1_r.
    destruct (Z.eqb_spec k i); [by subst|cbn; lia].
Qed.

Lemma tree_part_step d f i x h W : 1 <= h < d -> 0 <= i < 2 ^ (d - 1) -> tree_part d f i x h W ->
  0 <= tsum f (Z.to_nat h) (i / 2 ^ h) + x < 2 ^ 32 ->
  rd W (node h (i / 2 ^ h)) = Some (tsum f (Z.to_nat h) (i / 2 ^ h)) /\
  exists W', wr W (node h (i / 2 ^ h)) (tsum f (Z.to_nat h) (i / 2 ^ h) + x) = Some W' /\ tree_part d f i x (h + 1) W'.
Proof.
  intros Hh Hi [Hl Hu Hn] Hx. destruct (node_bound d i h ltac:(lia) Hi) as [Hk Hb].
  split; [rewrite (rd_total W) by lia; rewrite Hn by lia; rewrite (proj2 (Z.ltb_ge h h)) by lia; cbn; f_equal; lia|].
  rewrite wr_Some by lia. eexists. split; [done|]. split; [by rewrite length_insert|by apply Forall_insert|].
  intros j k Hj Hk' Hjk. destruct (decide (node j k = node h (i / 2 ^ h))) as [En|En].
  - destruct (node_inj j k h (i / 2 ^ h)) as [-> ->]; [lia..|done|]. rewrite list_lookup_total_insert_eq by lia.
    rewrite (proj2 (Z.ltb_lt h (h + 1))), Z.eqb_refl by lia. done.
  - rewrite list_lookup_total_insert_ne by (pose proof (pow2_pos j Hj); unfold node in *; nia). rewrite Hn by done. f_equal.
    destruct (Z.eqb_spec k (i / 2 ^ j)); [|by rewrite !andb_false_r]. rewrite !andb_true_r.
    destruct (decide (j = h)) as [->|Hne]; [by subst|]. destruct (Z.ltb_spec j h), (Z.ltb_spec j (h + 1)); lia || done.
Qed.

(** ** The climbs *)

Lemma climb_add_ok d f i x : d <= Z.of_nat height_fuel -> 0 <= i < 2 ^ (d - 1) ->
  (forall j, 0 <= j < d -> 0 <= tsum f (Z.to_nat j) (i / 2 ^ j) + x < 2 ^ 32) ->
  forall n h W, 1 <= h -> h + Z.of_nat n = d -> tree_part d f i x h W ->
  exists W', climb_add n (node (h - 1) (i / 2 ^ (h - 1))) x W = Done (true, W') /\ tree_part d f i x d W' /\ length W' = length W.
Proof.
  intros Hd Hi Hx. induction n as [|n IH]; intros h W Hh Hn HW; cbn [climb_add].
  { replace h with d in HW by lia. by exists W. }
  pose proof (pow2_pos (h - 1) ltac:(lia)). rewrite parent_node by (try apply Z.div_pos; lia). run.
  rewrite div_pow2_succ by lia. replace (h - 1 + 1) with h by lia.
  destruct (tree_part_step d f i x h W ltac:(lia) Hi HW (Hx h ltac:(lia))) as [-> (W1 & E & HW1)]. run.
  pose proof (Hx h ltac:(lia)) as Hb. rewrite (proj2 (addition_safe _ _)) by lia. rewrite u32_small by lia. rewrite E. run.
  destruct (IH (h + 1) W1) as (W' & E' & HW' & Hl); [lia|lia|done|]. replace (h + 1 - 1) with h in E' by lia.
  exists W'. split; [done|]. split; [done|]. rewrite Hl. unfold wr in E. case_match; [|done]. injection E as <-. apply length_insert.
Qed.

Lemma climb_ok d f i x y : d <= Z.of_nat height_fuel -> 0 <= i < 2 ^ (d - 1) -> u32 y = u32 x ->
  (forall j, 0 <= j < d -> 0 <= tsum f (Z.to_nat j) (i / 2 ^ j) + x < 2 ^ 32) ->
  forall n h W, 1 <= h -> h + Z.of_nat n = d -> tree_part d f i x h W ->
  exists W', climb n (node (h - 1) (i / 2 ^ (h - 1))) y W = Done W' /\ tree_part d f i x d W' /\ length W' = length W.
Proof.
  intros Hd Hi Hy Hx. induction n as [|n IH]; intros h W Hh Hn HW; cbn [climb].
  { replace h with d in HW by lia. by exists W. }
  pose proof (pow2_pos (h - 1) ltac:(lia)). rewrite parent_node by (try apply Z.div_pos; lia). run.
  rewrite div_pow2_succ by lia. replace (h - 1 + 1) with h by lia.
  destruct (tree_part_step d f i x h W ltac:(lia) Hi HW (Hx h ltac:(lia))) as [-> (W1 & E & HW1)]. run.
  pose proof (Hx h ltac:(lia)) as Hb. rewrite <- u32_add_r, Hy, u32_add_r, u32_small by lia. rewrite E. run.
  destruct (IH (h + 1) W1) as (W' & E' & HW' & Hl); [lia|lia|done|]. replace (h + 1 - 1) with h in E' by lia.
  exists W'. split; [done|]. split; [done|]. rewrite Hl. unfold wr in E. case_match; [|done]. injection E as <-. apply length_insert.
Qed.

(** ** The depth *)

Lemma depth_loop_ok fuel : forall t depth, 0 <= t < 2 ^ (Z.of_nat fuel - 1) ->
  depth_loop fuel t depth = Done (depth + (if t =? 0 then 0 else Z.log2 t + 1)).
Proof.
  induction fuel as [|fuel IH]; intros t depth Ht; [cbn in Ht; lia|]. cbn [depth_loop].
  destruct (Z.eqb_spec t 0) as [->|Hne]; [by rewrite Z.add_0_r|].
  assert (Hd : Z.shiftr t 1 = t / 2) by (rewrite Z.shiftr_div_pow2 by lia; done). rewrite Hd.
  assert (Hp : 2 ^ (Z.of_nat (S fuel) - 1) = 2 ^ Z.of_nat fuel) by (f_equal; lia). rewrite Hp in Ht.
  destruct (decide (fuel = 0%nat)) as [->|Hf]; [cbn in Ht; lia|].
  assert (2 ^ Z.of_nat fuel = 2 * 2 ^ (Z.of_nat fuel - 1)) by (rewrite <- pow2_succ by lia; f_equal; lia).
  rewrite IH by (split; [apply Z.div_pos; lia|apply Z.div_lt_upper_bound; lia]). f_equal.
  destruct (decide (t = 1)) as [->|H1]; [change (1 / 2) with 0; change (Z.log2 1) with 0; cbn [Z.eqb]; lia|].
  assert (0 < t / 2) by (apply Z.div_str_pos; lia). rewrite (proj2 (Z.eqb_neq (t / 2) 0)) by lia.
  assert (Z.log2 t = Z.log2 (t / 2) + 1); [|lia].
  pose proof (Zdiv2_odd_eqn t) as E. rewrite Zdiv2_div in E. rewrite E at 1. destruct (Z.odd t).
  - rewrite Z.log2_succ_double by lia. lia.
  - rewrite Z.add_0_r, Z.log2_double by lia. lia.
Qed.

Lemma calc_depth_ok size : 0 < size <= 2 ^ 31 -> calc_depth size = Done (Z.log2_up size + 1).
Proof.
  intros Hs. unfold calc_depth. rewrite (proj2 (Z.eqb_neq size 0)) by lia.
  rewrite depth_loop_ok by (change (2 ^ (Z.of_nat 32 - 1)) with (2 ^ 31); lia). f_equal.
  destruct (Z.eqb_spec (size - 1) 0); [replace size with 1 by lia; done|].
  rewrite Z.log2_up_eqn by lia. unfold Z.pred, Z.succ. change (size + -1) with (size - 1). lia.
Qed.

Lemma log2_up_bounds size : 0 < size -> size <= 2 ^ Z.log2_up size.
Proof.
  intros Hs. destruct (decide (size = 1)) as [->|]; [done|]. apply (Z.log2_log2_up_spec size). lia.
Qed.

Lemma log2_up_64 size : 0 < size <= 64 -> 0 <= Z.log2_up size <= 6.
Proof.
  intros Hs. split; [apply Z.log2_up_nonneg|]. change 6 with (Z.log2_up 64). apply Z.log2_up_le_mono. lia.
Qed.

(** ** Filling a tree *)

Lemma tree_is_zero d n : 0 <= d -> n = Z.to_nat (2 ^ d) -> tree_is d (leaves []) (replicate n 0).
Proof.
  intros Hd ->. pose proof (pow2_pos d Hd). split; [rewrite length_replicate; lia|apply Forall_replicate; lia|].
  intros j k Hj Hk Hb. rewrite tsum_nil by done. apply list_lookup_total_correct, lookup_replicate_2. lia.
Qed.

(** A leaf behind the last one gets its weight. *)
Lemma tree_add_leaf d us x W : 1 <= d <= Z.of_nat height_fuel -> Z.of_nat (length us) < 2 ^ (d - 1) -> u32s us -> 0 <= x < 2 ^ 32 ->
  sumz us + x < 2 ^ 32 -> tree_is d (leaves us) W ->
  exists W1 W2, wr W (crush_calc_tree_node (Z.of_nat (length us))) x = Some W1 /\
    climb_add (Z.to_nat (d - 1)) (crush_calc_tree_node (Z.of_nat (length us))) x W1 = Done (true, W2) /\
    tree_is d (leaves (us ++ [x])) W2 /\ length W2 = length W.
Proof.
  intros Hd Hl Hu Hx Hs HW. rewrite node_leaf. set (i := Z.of_nat (length us)) in *. pose proof (tr_len _ _ _ HW) as Hlen.
  assert (Hi : 0 <= i < 2 ^ (d - 1)) by lia. pose proof (node_bound d i 0 ltac:(lia) Hi) as [_ Hb]. rewrite Z.pow_0_r, Z.div_1_r in Hb.
  assert (Hfi : leaves us i = 0) by (unfold leaves, i; rewrite Nat2Z.id, nth_overflow; lia).
  destruct (wr W (node 0 i) x) as [W1|] eqn:E1; [|rewrite wr_Some in E1 by lia; done]. exists W1.
  assert (HW1 : tree_part d (leaves us) i x 1 W1).
  { apply (tree_part_start d (leaves us) i x W W1); [lia|done|done|lia|]. by rewrite Hfi, Z.add_0_l. }
  destruct (climb_add_ok d (leaves us) i x) with (n := Z.to_nat (d - 1)) (h := 1) (W := W1) as (W2 & E2 & HW2 & Hl2); [lia|lia| |lia|lia|done|].
  { intros j Hj. pose proof (tsum_bounds us (Z.to_nat j) (i / 2 ^ j) Hu) as Ht. pose proof (pow2_pos j ltac:(lia)).
    specialize (Ht ltac:(apply Z.div_pos; lia)). lia. }
  cbn [Z.sub] in E2. rewrite Z.pow_0_r, Z.div_1_r in E2. exists W2. split; [done|]. split; [done|].
  apply tree_part_done in HW2; [|lia|lia]. split.
  - destruct HW2 as [A B C]. split; [done..|]. intros j k Hj Hk Hjk. rewrite C by done. apply tsum_ext; [|done].
    intros k' Hk'. symmetry. by apply leaves_snoc.
  - rewrite Hl2. unfold wr in E1. case_match; [|done]. injection E1 as <-. apply length_insert.
Qed.

Lemma tree_fill_ok ri rw n d ki : 1 <= d <= Z.of_nat height_fuel -> Z.of_nat n <= 2 ^ (d - 1) ->
  forall kw pi pw its W w, length kw = length ki -> length pw = length pi ->
  holds n pi its -> tree_is d (leaves (u32 <$> pw)) W -> (length (pi ++ ki) <= n)%nat -> w = sumz (u32 <$> pw) -> w < 2 ^ 32 ->
  let r := tree_fill (length ki) (Z.of_nat (length pi)) d (pi ++ ki ++ ri) (pw ++ kw ++ rw) its W w in
  if decide (sumz (u32 <$> (pw ++ kw)) < 2 ^ 32) then
    exists its' W', r = Done (Some (its', W', sumz (u32 <$> (pw ++ kw)))) /\
      holds n (pi ++ ki) its' /\ tree_is d (leaves (u32 <$> (pw ++ kw))) W' /\ length W' = length W
  else r = Done None.
Proof.
  intros Hd Hcap. induction ki as [|x ki IH]; intros [|y kw] pi pw its W w Hk Hp Hi HW Hn Ew Hw; cbn [length] in Hk; try lia; cbn [tree_fill length].
  { cbv zeta. rewrite !app_nil_r, decide_True by lia. exists its, W. by rewrite Ew. }
  assert (Hlt : (length pi < n)%nat) by (rewrite length_app in Hn; cbn in Hn; lia). cbv zeta.
  rewrite (rd_middle pi ki ri x) by done. run. destruct (holds_wr n pi its x Hi Hlt) as (its1 & -> & Hi1). run.
  rewrite (rd_middle pw kw rw y) by lia. run.
  replace (pw ++ y :: kw) with ((pw ++ [y]) ++ kw) by (by rewrite <- app_assoc).
  assert (Hsum : sumz (u32 <$> (pw ++ [y])) = w + u32 y) by (rewrite fmap_app, sumz_app, Ew; cbn; lia).
  assert (Hus : forall l, u32s (u32 <$> l)) by (intros l; apply Forall_fmap, Forall_true; intros z; apply u32_range).
  pose proof (sumz_nonneg _ (Hus kw)) as Hnn. pose proof (u32_range y) as Hy.
  assert (Hlen : length (u32 <$> pw) = length pi) by (by rewrite length_fmap).
  destruct (wr W (crush_calc_tree_node (Z.of_nat (length pi))) (u32 y)) as [W0|] eqn:E0.
  2: { rewrite node_leaf, wr_Some in E0; [done|]. pose proof (tr_len _ _ _ HW).
       pose proof (node_bound d (Z.of_nat (length pi)) 0 ltac:(lia) ltac:(lia)) as [_ Hb]. rewrite Z.pow_0_r, Z.div_1_r in Hb. lia. }
  run. destruct (crush_addition_is_unsafe w (u32 y)) eqn:Ea.
  { apply addition_unsafe in Ea. rewrite decide_False; [done|]. rewrite fmap_app, sumz_app, Hsum. lia. }
  apply addition_safe in Ea. destruct (tree_add_leaf d (u32 <$> pw) (u32 y) W) as (W1 & W2 & E1 & E2 & HW2 & Hl2);
    [lia|rewrite Hlen; lia|apply Hus|done|lia|done|]. rewrite Hlen in E1, E2. rewrite E1 in E0. injection E0 as ->. rewrite E2. run.
  rewrite !snoc_middle. replace (Z.of_nat (length pi) + 1) with (Z.of_nat (length (pi ++ [x]))) by (rewrite length_app; cbn; lia).
  replace (pi ++ x :: ki) with ((pi ++ [x]) ++ ki) by (by rewrite <- app_assoc). rewrite <- Hl2.
  pose proof (sumz_nonneg _ (Hus pw)).
  apply IH; [lia|rewrite !length_app; cbn; lia|done|by rewrite fmap_app|by rewrite <- app_assoc| |rewrite <- u32_add_r; apply u32_range].
  rewrite Hsum, <- u32_add_r, u32_small by lia. done.
Qed.
