(* ===== verification/CrBuildRefine.v ===== *)
(** * Buckets as lists of items with weights (ceph/src/crush: builder.c)

    The abstract bucket is a list of items with their weights.  [represents]
    relates a bucket to it: the arrays start with the items, their weights and
    what is calculated from them, and the weight of the bucket is the sum.
    [shape] is what holds of every bucket, also after an error. *)
From S2P Require Import Prelude Doubles CrHash CrBucket CrPerm CrChoose CrBuilder CrBuildOps CrBuildArrays CrBuildStraw CrBuildTree.

(** ** The shape of a bucket *)

Definition long (size : Z) (a : list Z) : Prop := size <= Z.of_nat (length a) /\ u32s a.

Definition body_shape (size : Z) (body : bucket_body) : Prop :=
  match body with
  | Uniform w => 0 <= w < 2 ^ 32
  | BList iw sw => long size iw /\ long size sw
  | Straw iw straws => long size iw /\ long size straws
  | Straw2 iw => long size iw
  | Tree _ _ | OtherAlg _ => False
  end.

Record shape (b : crush_bucket) : Prop := {
  sh_size : 0 <= b_size b < 2 ^ 31;
  sh_items : b_size b <= Z.of_nat (length (b_items b));
  sh_weight : 0 <= b_weight b < 2 ^ 32;
  sh_body : body_shape (b_size b) (b_body b) }.

(** The mapper can use a bucket of the right shape. *)
Lemma shape_ok b : shape b -> bucket_ok b.
Proof.
  intros [Hs Hi Hw Hb]. split; [done..|]. intros _. destruct (b_body b); cbn in *; unfold long in *; tauto.
Qed.

(** ** The contents of a bucket *)

Section Refine.
Context (fresh : Z -> Z) (pow : double -> double -> double) (wild : double -> Z) (version : Z).

Definition starts_with (ws a : list Z) : Prop := take (length ws) a = ws.

Definition tree_depth (n : nat) : Z := Z.log2_up (Z.of_nat n) + 1.

Definition body_is (ws : list Z) (body : bucket_body) : Prop :=
  match body with
  | Uniform w => Forall (eq w) ws
  | BList iw sw => starts_with ws iw /\ starts_with (prefix_sums ws) sw
  | Tree nn W => ws <> [] -> (length ws <= 64)%nat /\ nn = 2 ^ tree_depth (length ws) /\
                 tree_is (tree_depth (length ws)) (leaves ws) W
  | Straw iw straws => starts_with ws iw /\ starts_with (straws_of pow wild version ws) straws
  | Straw2 iw => starts_with ws iw
  | OtherAlg _ => False
  end.

Record represents (b : crush_bucket) (l : list (Z * Z)) : Prop := {
  rp_size : b_size b = Z.of_nat (length l);
  rp_items : starts_with l.*1 (b_items b);
  rp_weights : u32s l.*2;
  rp_weight : b_weight b = sumz l.*2;
  rp_total : sumz l.*2 < 2 ^ 32;
  rp_body : body_is l.*2 (b_body b) }.

Lemma starts_with_length ws a : starts_with ws a -> (length ws <= length a)%nat.
Proof. unfold starts_with. intros H. apply (f_equal length) in H. rewrite length_take in H. lia. Qed.

Lemma starts_with_lookup ws a i : starts_with ws a -> (i < length ws)%nat -> a !! i = ws !! i.
Proof. unfold starts_with. intros H Hi. rewrite <- (lookup_take_lt a (length ws)) by done. by rewrite H. Qed.

Lemma starts_with_app ws a : starts_with ws a -> exists junk, a = ws ++ junk.
Proof. unfold starts_with. intros H. exists (drop (length ws) a). rewrite <- H at 1. by rewrite take_drop. Qed.

Lemma starts_with_refl a : starts_with a a.
Proof. unfold starts_with. by apply take_ge. Qed.

Lemma represents_items b l : represents b l -> items_of b = l.*1.
Proof.
  intros H. unfold items_of. rewrite (rp_size b l H), Nat2Z.id. pose proof (rp_items b l H) as Hi. unfold starts_with in Hi.
  by rewrite length_fmap in Hi.
Qed.

(** A tree with weight can be used by the mapper. *)
Lemma tree_usable ws nn W : ws <> [] -> u32s ws -> 0 < sumz ws -> body_is ws (Tree nn W) -> tree_ok (Z.of_nat (length ws)) nn W.
Proof.
  intros Hne Hu Hpos Hb. destruct (Hb Hne) as (Hl & -> & [Hlen HuW Hnode]). set (d := tree_depth (length ws)) in *.
  assert (Hn : 0 < Z.of_nat (length ws)) by (destruct ws; [done|cbn; lia]).
  pose proof (log2_up_64 (Z.of_nat (length ws)) ltac:(lia)) as Hd. exists d. unfold d, tree_depth in *.
  set (q := Z.log2_up (Z.of_nat (length ws))) in *. split; [lia|]. split; [done|]. split; [|split].
  - split; [done|]. split.
    + intros n Hn'. destruct (lookup_lt_is_Some_2 W (Z.to_nat n)) as [w Hw]; [lia|]. rewrite (list_lookup_total_correct _ _ _ Hw).
      exact (Forall_lookup_1 _ _ _ _ HuW Hw).
    + intros j k Hj Hk Hb'. pose proof (pow2_pos (j - 1) ltac:(lia)) as Hp. pose proof (pow_half j Hj) as Hh.
      replace (2 ^ j * (2 * k + 1) - 2 ^ (j - 1)) with (node (j - 1) (2 * k)) by (unfold node; rewrite Hh; ring).
      replace (2 ^ j * (2 * k + 1) + 2 ^ (j - 1)) with (node (j - 1) (2 * k + 1)) by (unfold node; rewrite Hh; ring).
      change (2 ^ j * (2 * k + 1)) with (node j k). rewrite !Hnode; [|lia|lia|unfold node|lia|lia|unfold node|lia|lia|done].
      * replace (Z.to_nat j) with (S (Z.to_nat (j - 1))) by lia. done.
      * assert (E : 2 ^ (q + 1) = 2 ^ (j - 1) * (2 * 2 ^ (q + 1 - j))).
        { rewrite <- pow2_succ, <- Z.pow_add_r; [f_equal; lia|lia|..]; destruct (decide (j <= q + 1)); try lia;
            assert (2 ^ (q + 1) <= 2 ^ j) by (apply Z.pow_le_mono_r; lia); nia. }
        rewrite E in Hb' |- *. rewrite Hh in Hb'. clear E. set (M := 2 ^ (q + 1 - j)) in *.
        assert (2 * k + 1 < M) by nia. nia.
      * nia.
  - replace (q + 1 - 1) with q by lia. replace (2 ^ q) with (node q 0) by (unfold node; lia).
    rewrite Hnode by (unfold node; rewrite ?pow2_succ by lia; pose proof (pow2_pos q ltac:(lia)); lia).
    rewrite tsum_root; [done|]. rewrite Z2Nat.id by lia. apply log2_up_bounds. done.
  - intros i Hi Hi2. replace (2 * i + 1) with (node 0 i) in * by (unfold node; lia). rewrite Hnode by lia.
    cbn. unfold leaves. apply nth_overflow. lia.
Qed.

(** ** Buckets with arrays of their size *)

Definition exact_body (ws : list Z) (body : bucket_body) : Prop :=
  match body with
  | Uniform w => 0 <= w < 2 ^ 32 /\ Forall (eq w) ws
  | BList iw sw => iw = ws /\ sw = prefix_sums ws
  | Straw iw straws => iw = ws /\ straws = straws_of pow wild version ws
  | Straw2 iw => iw = ws
  | Tree _ _ | OtherAlg _ => False
  end.

Lemma length_prefix_sums ws : length (prefix_sums ws) = length ws.
Proof. apply length_sums_from. Qed.

Lemma long_exact size ws : size = Z.of_nat (length ws) -> u32s ws -> long size ws.
Proof. intros -> Hu. split; [lia|done]. Qed.

Lemma exact_represents b l : b_size b = Z.of_nat (length l) -> Z.of_nat (length l) < 2 ^ 31 -> b_items b = l.*1 ->
  u32s l.*2 -> b_weight b = sumz l.*2 -> sumz l.*2 < 2 ^ 32 -> exact_body l.*2 (b_body b) -> represents b l /\ shape b.
Proof.
  intros Hs Hn Hi Hu Hw Ht Hb. pose proof (sumz_nonneg _ Hu). assert (Hl : Z.of_nat (length l) = Z.of_nat (length l.*2)) by (by rewrite length_fmap).
  split; split; try done; try lia.
  - rewrite Hi. apply starts_with_refl.
  - destruct (b_body b); cbn in *; try done; destruct_and?; subst; auto using starts_with_refl.
  - rewrite Hi, length_fmap. lia.
  - rewrite Hs. destruct (b_body b); cbn [exact_body body_shape] in *; try done; destruct_and?; subst; [lia|..].
    + split; [by apply long_exact|]. apply long_exact; [by rewrite length_prefix_sums|].
      apply sums_from_u32s; [lia|done|lia].
    + split; [by apply long_exact|]. apply long_exact; [by rewrite length_straws_of|apply straws_of_u32s].
    + by apply long_exact.
Qed.

(** ** Making a bucket *)

(** The contents that a call with these arguments asks for. *)
Definition contents_of (size : Z) (items weights : list Z) : list (Z * Z) :=
  zip (take (Z.to_nat size) items) (u32 <$> take (Z.to_nat size) weights).

Lemma calc_straw_at n m junk ss us : n = Z.of_nat (length us) -> (length us <= length ss)%nat -> (alloc m).1 = true ->
  calc_straw fresh pow wild version m n (us ++ junk) ss = Done (0, straws_of pow wild version us ++ drop (length us) ss, (alloc m).2).
Proof. intros -> Hl Hm. unfold calc_straw. apply calc_straw_ok; [rewrite length_fresh; lia|done|done]. Qed.

Lemma calc_straw_failed n m us ss : (alloc m).1 = false -> calc_straw fresh pow wild version m n us ss = Done (- ENOMEM, ss, (alloc m).2).
Proof. intros Hm. unfold calc_straw, crush_calc_straw. destruct (alloc m) as [ok m1]. cbn in Hm. by subst ok. Qed.

Section Make.
Context (hash type size : Z) (items weights : list Z).
Context (Hsize : 0 <= size < 2 ^ 31) (Hitems : size <= Z.of_nat (length items)) (Hweights : size <= Z.of_nat (length weights)).
Local Abbreviation l := (contents_of size items weights).
Local Abbreviation ks := (take (Z.to_nat size) items).
Local Abbreviation ws := (take (Z.to_nat size) weights).

Lemma contents_lengths : length ks = Z.to_nat size /\ length ws = Z.to_nat size /\ length l = Z.to_nat size /\ l.*1 = ks /\ l.*2 = u32 <$> ws.
Proof.
  assert (H1 : length ks = Z.to_nat size) by (rewrite length_take; lia).
  assert (H2 : length ws = Z.to_nat size) by (rewrite length_take; lia). unfold contents_of.
  split; [done|]. split; [done|]. split; [rewrite length_zip_with, length_fmap; lia|].
  split; [apply fst_zip; rewrite length_fmap; lia|apply snd_zip; rewrite length_fmap; lia].
Qed.

Lemma contents_u32s : u32s l.*2.
Proof. destruct contents_lengths as (_ & _ & _ & _ & ->). apply Forall_fmap, Forall_true. intros x. apply u32_range. Qed.

(** The call returns nothing only when memory is short; what it returns has the contents. *)
Definition makes (alg : Z) (m : mem) (r : outcome (option crush_bucket * mem)) : Prop :=
  exists o m', r = Done (o, m') /\ (memory m -> is_Some o /\ memory m') /\
  forall b, o = Some b -> represents b l /\ b_alg b = alg /\ b_type b = u16 type /\ (alg <> CRUSH_BUCKET_TREE -> shape b).

Lemma makes_none alg m m' : ~ memory m -> makes alg m (Done (None, m')).
Proof. intros Hm. exists None, m'. split; [done|]. split; [done|]. by intros b [=]. Qed.

Lemma makes_some alg m m' b : (memory m -> memory m') -> represents b l -> b_alg b = alg -> b_type b = u16 type ->
  (alg <> CRUSH_BUCKET_TREE -> shape b) -> makes alg m (Done (Some b, m')).
Proof. intros Hm Hr Ha Ht Hs. exists (Some b), m'. split; [done|]. split; [eauto|]. by intros b' [= <-]. Qed.

Lemma makes_exact alg m m' weight its body : (memory m -> memory m') -> its = l.*1 -> weight = sumz l.*2 -> sumz l.*2 < 2 ^ 32 ->
  exact_body l.*2 body -> b_alg (new_bucket hash type size weight its body) = alg ->
  makes alg m (Done (Some (new_bucket hash type size weight its body), m')).
Proof.
  intros Hm Hi Hw Ht Hb Ha. destruct contents_lengths as (_ & _ & Hl & _ & _).
  destruct (exact_represents (new_bucket hash type size weight its body) l) as [Hr Hs]; try done; cbn.
  - rewrite u32_small by lia. lia.
  - lia.
  - apply contents_u32s.
  - by apply makes_some.
Qed.

Lemma array_holds_nil (a : list Z) : Z.of_nat (length a) = size -> holds (Z.to_nat size) [] a.
Proof. intros H. apply holds_none. lia. Qed.

Lemma make_list_ok m : sumz l.*2 < 2 ^ 32 -> makes CRUSH_BUCKET_LIST m (crush_make_list_bucket fresh m hash type size items weights).
Proof.
  intros Ht. unfold crush_make_list_bucket. destruct contents_lengths as (Hk & Hw & Hl & E1 & E2).
  pose proof (memory_alloc m) as Ha. destruct (alloc m) as [ok m1]. cbn in Ha.
  destruct ok; cbn [negb]; [|apply makes_none; intros H; by destruct (Ha H)].
  destruct (Z.eqb_spec size 0) as [H0|H0].
  { apply makes_exact; try done; [by intros H; apply Ha|rewrite E1, H0; done|..]; rewrite E2, H0; done. }
  destruct (malloc_cases fresh m1 size ltac:(lia)) as (m2 & [[-> Hno]|(its & -> & Li & _ & Hm2)]); [by apply makes_none; tauto|].
  destruct (malloc_cases fresh m2 size ltac:(lia)) as (m3 & [[-> Hno]|(iw & -> & Lw & _ & Hm3)]); [by apply makes_none; tauto|].
  destruct (malloc_cases fresh m3 size ltac:(lia)) as (m4 & [[-> Hno]|(sw & -> & Ls & _ & Hm4)]); [by apply makes_none; tauto|].
  pose proof (list_fill_ok (drop (Z.to_nat size) items) (drop (Z.to_nat size) weights) (Z.to_nat size) ks ws [] [] its iw sw 0) as H.
  cbv zeta in H. cbn [app length fmap list_fmap] in H. rewrite !take_drop, Hk in H. change (Z.of_nat 0) with 0 in H.
  rewrite E2 in Ht. rewrite decide_True in H by done.
  destruct H as (its' & iw' & sw' & w' & -> & Ew & Hi & Hw' & Hs); try (by apply array_holds_nil); try lia; [done|].
  run. apply holds_full in Hi, Hw', Hs; [|rewrite ?length_prefix_sums, ?length_fmap; lia..]. subst its' iw' sw'.
  apply makes_exact; try done; [tauto|by rewrite E2|by rewrite E2|cbn; by rewrite E2].
Qed.

Lemma make_straw2_ok m : sumz l.*2 < 2 ^ 32 -> makes CRUSH_BUCKET_STRAW2 m (crush_make_straw2_bucket fresh m hash type size items weights).
Proof.
  intros Ht. unfold crush_make_straw2_bucket. destruct contents_lengths as (Hk & Hw & Hl & E1 & E2).
  pose proof (memory_alloc m) as Ha. destruct (alloc m) as [ok m1]. cbn in Ha.
  destruct ok; cbn [negb]; [|apply makes_none; intros H; by destruct (Ha H)].
  destruct (Z.eqb_spec size 0) as [H0|H0].
  { apply makes_exact; try done; [by intros H; apply Ha|rewrite E1, H0; done|..]; rewrite E2, H0; done. }
  destruct (malloc_cases fresh m1 size ltac:(lia)) as (m2 & [[-> Hno]|(its & -> & Li & _ & Hm2)]); [by apply makes_none; tauto|].
  destruct (malloc_cases fresh m2 size ltac:(lia)) as (m3 & [[-> Hno]|(iw & -> & Lw & _ & Hm3)]); [by apply makes_none; tauto|].
  destruct (weights_fill_ok (drop (Z.to_nat size) items) (drop (Z.to_nat size) weights) (Z.to_nat size) ks ws [] [] its iw 0)
    as (its' & iw' & E & Hi & Hw'); try (by apply array_holds_nil); try done; [lia|cbn; lia|].
  cbn [app length] in *. rewrite !take_drop, Hk in E. change (Z.of_nat 0) with 0 in E. rewrite E. run.
  apply holds_full in Hi, Hw'; [|rewrite ?length_fmap; lia..]. subst its' iw'. pose proof (sumz_nonneg _ contents_u32s).
  rewrite <- E2. rewrite u32_small by lia. apply makes_exact; [tauto|done..].
Qed.

Lemma make_straw_ok m : sumz l.*2 < 2 ^ 32 -> makes CRUSH_BUCKET_STRAW m (crush_make_straw_bucket fresh pow wild version m hash type size items weights).
Proof.
  intros Ht. unfold crush_make_straw_bucket. destruct contents_lengths as (Hk & Hw & Hl & E1 & E2).
  pose proof (memory_alloc m) as Ha. destruct (alloc m) as [ok m1]. cbn in Ha.
  destruct ok; cbn [negb]; [|apply makes_none; intros H; by destruct (Ha H)].
  destruct (malloc_cases fresh m1 size ltac:(lia)) as (m2 & [[-> Hno]|(its & -> & Li & _ & Hm2)]); [by apply makes_none; tauto|].
  destruct (malloc_cases fresh m2 size ltac:(lia)) as (m3 & [[-> Hno]|(iw & -> & Lw & _ & Hm3)]); [by apply makes_none; tauto|].
  destruct (malloc_cases fresh m3 size ltac:(lia)) as (m4 & [[-> Hno]|(ss & -> & Ls & _ & Hm4)]); [by apply makes_none; tauto|].
  destruct (weights_fill_ok (drop (Z.to_nat size) items) (drop (Z.to_nat size) weights) (Z.to_nat size) ks ws [] [] its iw 0)
    as (its' & iw' & E & Hi & Hw'); try (by apply array_holds_nil); try done; [lia|cbn; lia|].
  cbn [app length] in *. rewrite !take_drop, Hk in E. change (Z.of_nat 0) with 0 in E. rewrite E. run.
  apply holds_full in Hi, Hw'; [|rewrite ?length_fmap; lia..]. subst its' iw'. pose proof (sumz_nonneg _ contents_u32s).
  assert (Hlen : length (u32 <$> ws) = Z.to_nat size) by (by rewrite length_fmap).
  rewrite s32_small by lia. destruct (alloc m4).1 eqn:Eok.
  - rewrite <- (app_nil_r (u32 <$> ws)). rewrite calc_straw_at by (done || lia). run. cbn [Z.ltb Z.compare]. rewrite app_nil_r.
    rewrite <- E2 in *. rewrite u32_small by lia. rewrite drop_ge, app_nil_r by lia.
    apply makes_exact; try done. intros Hm. apply (memory_alloc m4). tauto.
  - rewrite calc_straw_failed by done. run. apply makes_none. intros Hm. destruct (memory_alloc m4) as [H4 _]; [tauto|congruence].
Qed.

Lemma multiplication_safe a b : 0 <= a -> 0 < b -> a * b < 2 ^ 32 -> crush_multiplication_is_unsafe a b = false.
Proof.
  intros Ha Hb Hab. unfold crush_multiplication_is_unsafe. destruct (a =? 0); [done|]. rewrite (proj2 (Z.eqb_neq b 0)) by lia.
  apply Z.ltb_ge. apply Z.div_le_lower_bound; nia.
Qed.

(** All items have the weight [w], which is not zero. *)
Lemma make_uniform_ok m w : sumz l.*2 < 2 ^ 32 -> Forall (eq (u32 w)) l.*2 -> (size <> 0 -> 0 < u32 w) ->
  makes CRUSH_BUCKET_UNIFORM m (crush_make_uniform_bucket fresh m hash type size items w).
Proof.
  intros Ht Hf Hpos. unfold crush_make_uniform_bucket. destruct contents_lengths as (Hk & Hw & Hl & E1 & E2).
  pose proof (memory_alloc m) as Ha. destruct (alloc m) as [ok m1]. cbn in Ha.
  destruct ok; cbn [negb]; [|apply makes_none; intros H; by destruct (Ha H)].
  assert (Hsum : sumz l.*2 = size * u32 w).
  { rewrite (sumz_const _ _ Hf), length_fmap. lia. }
  rewrite Hsum in Ht. pose proof (u32_range w) as Hr. rewrite (u32_small size) by lia.
  assert (Hs : crush_multiplication_is_unsafe size (u32 w) = false).
  { destruct (decide (size = 0)) as [->|H0]; [done|]. apply multiplication_safe; lia. }
  rewrite Hs. assert (Ew : u32 (size * w) = sumz l.*2).
  { rewrite Hsum. unfold u32. rewrite <- Zmult_mod_idemp_r. apply Z.mod_small. fold (u32 w). nia. }
  destruct (Z.eqb_spec size 0) as [H0|H0].
  { apply makes_exact; try done; [by intros H; apply Ha|rewrite E1, H0; done|lia]. }
  destruct (malloc_cases fresh m1 size ltac:(lia)) as (m2 & [[-> Hno]|(its & -> & Li & _ & Hm2)]); [by apply makes_none; tauto|].
  rewrite copy_cells_ok by lia. run. apply makes_exact; try done; [tauto|lia].
Qed.

(** At most 64 items. *)
Lemma make_tree_ok m : sumz l.*2 < 2 ^ 32 -> size <= 64 -> makes CRUSH_BUCKET_TREE m (crush_make_tree_bucket fresh m hash type size items weights).
Proof.
  intros Ht H64. unfold crush_make_tree_bucket. destruct contents_lengths as (Hk & Hw & Hl & E1 & E2).
  pose proof (memory_alloc m) as Ha. destruct (alloc m) as [ok m1]. cbn in Ha.
  destruct ok; cbn [negb]; [|apply makes_none; intros H; by destruct (Ha H)].
  destruct (Z.eqb_spec size 0) as [H0|H0].
  { apply makes_some; try done; [by intros H; apply Ha|]. assert (El : l = []) by (apply nil_length_inv; lia). rewrite El.
    split; cbn; try done; [by rewrite H0|constructor]. }
  destruct (malloc_cases fresh m1 size ltac:(lia)) as (m2 & [[-> Hno]|(its & -> & Li & _ & Hm2)]); [by apply makes_none; tauto|].
  rewrite calc_depth_ok by lia. run. pose proof (log2_up_64 size ltac:(lia)) as Hd. pose proof (log2_up_bounds size ltac:(lia)) as Hcap.
  set (q := Z.log2_up size) in *. assert (Hnn : u8 (Z.shiftl 1 (q + 1)) = 2 ^ (q + 1)).
  { rewrite Z.shiftl_mul_pow2, Z.mul_1_l by lia. apply Z.mod_small. split; [apply Z.pow_nonneg; lia|]. apply Z.pow_lt_mono_r; lia. }
  rewrite Hnn. pose proof (pow2_pos (q + 1) ltac:(lia)) as Hp.
  destruct (malloc_cases fresh m2 (2 ^ (q + 1)) ltac:(lia)) as (m3 & [[-> Hno]|(W0 & -> & _ & _ & Hm3)]); [by apply makes_none; tauto|].
  pose proof (tree_fill_ok (drop (Z.to_nat size) items) (drop (Z.to_nat size) weights) (Z.to_nat size) (q + 1) ks) as H.
  specialize (H ltac:(unfold height_fuel; lia) ltac:(replace (q + 1 - 1) with q by lia; lia) ws [] [] (replicate (length its) 0) (replicate (Z.to_nat (2 ^ (q + 1))) 0) 0).
  cbv zeta in H. cbn [app length fmap list_fmap] in H. rewrite !take_drop, Hk in H. change (Z.of_nat 0) with 0 in H.
  rewrite E2 in Ht. rewrite decide_True in H by done.
  destruct H as (its' & W' & -> & Hi & HW & Hlen); try done; try lia; [by apply holds_none; rewrite length_replicate; lia|by apply tree_is_zero; lia|].
  run. apply holds_full in Hi; [|lia]. subst its'.
  assert (Hroot : rd W' (2 ^ (q + 1) / 2) = Some (sumz (u32 <$> ws))).
  { rewrite pow2_succ, Z.mul_comm, Z.div_mul by lia. replace (2 ^ q) with (node q 0) by (unfold node; lia).
    destruct HW as [L U N]. pose proof (pow2_pos q ltac:(lia)). rewrite pow2_succ in * by lia.
    rewrite (rd_total W') by (unfold node; lia). rewrite N by (unfold node; lia). f_equal. apply tsum_root.
    rewrite length_fmap, Hw, !Z2Nat.id by lia. done. }
  rewrite Hroot. run. rewrite Z.eqb_refl. cbn [negb]. apply makes_some; try done; [tauto|].
  split; cbn; rewrite ?E1, ?E2; try done.
  - rewrite u32_small by lia. lia.
  - apply starts_with_refl.
  - apply Forall_fmap, Forall_true. intros x. apply u32_range.
  - intros _. rewrite length_fmap, Hw. unfold tree_depth. rewrite Z2Nat.id by lia. fold q. split; [lia|done].
Qed.

(** What the arguments have to satisfy for the algorithm. *)
Definition can_make (alg : Z) : Prop :=
  sumz l.*2 < 2 ^ 32 /\ CRUSH_BUCKET_UNIFORM <= alg <= CRUSH_BUCKET_STRAW2 /\
  (alg = CRUSH_BUCKET_TREE -> size <= 64) /\
  (alg = CRUSH_BUCKET_UNIFORM -> exists w, Forall (eq w) l.*2 /\ (size <> 0 -> 0 < w)).

Lemma make_bucket_ok m alg : can_make alg ->
  makes alg m (crush_make_bucket fresh pow wild version m alg hash type size items (Some weights)).
Proof.
  intros (Ht & Hr & Htree & Huni). unfold CRUSH_BUCKET_UNIFORM, CRUSH_BUCKET_STRAW2 in Hr. unfold crush_make_bucket. cbn [default from_option].
  assert (Hcase : alg = 1 \/ alg = 2 \/ alg = 3 \/ alg = 4 \/ alg = 5) by lia.
  destruct Hcase as [->|[->|[->|[->| ->]]]]; cbn [Z.eqb CRUSH_BUCKET_UNIFORM CRUSH_BUCKET_LIST CRUSH_BUCKET_TREE CRUSH_BUCKET_STRAW CRUSH_BUCKET_STRAW2 Pos.eqb].
  - destruct (Huni eq_refl) as (w & Hf & Hw). destruct contents_lengths as (_ & Lw & Hl & _ & E2).
    destruct (Z.eqb_spec size 0) as [H0|H0]; run.
    + apply make_uniform_ok; [done| |done]. rewrite E2, H0. constructor.
    + destruct (rd_Some weights 0) as (w0 & -> & E0); [lia|]. run. apply make_uniform_ok; [done|..].
      * assert (Hin : u32 w0 = w); [|by rewrite Hin]. symmetry. rewrite Forall_forall in Hf. apply Hf. rewrite E2.
        apply (list_elem_of_fmap_2 u32). apply list_elem_of_lookup. exists 0%nat. rewrite lookup_take_lt by lia. done.
      * intros _. assert (Hin : u32 w0 = w); [|rewrite Hin; auto]. symmetry. rewrite Forall_forall in Hf. apply Hf. rewrite E2.
        apply (list_elem_of_fmap_2 u32). apply list_elem_of_lookup. exists 0%nat. rewrite lookup_take_lt by lia. done.
  - by apply make_list_ok.
  - by apply make_tree_ok; auto.
  - by apply make_straw_ok.
  - by apply make_straw2_ok.
Qed.
End Make.
End Refine.
