(* ===== verification/CrBuildChange.v ===== *)
(** * Adding an item to a bucket (ceph/src/crush: builder.c)

    The item is appended to the contents, or an error leaves them as they were.
    Whatever the memory does, a bucket keeps its shape. *)
From S2P Require Import Prelude Doubles CrHash CrBucket CrPerm CrChoose CrBuilder CrBuildOps CrBuildArrays CrBuildStraw CrBuildTree CrBuildRefine.

Definition same_header (b b' : crush_bucket) : Prop :=
  b_id b' = b_id b /\ b_type b' = b_type b /\ b_hash b' = b_hash b /\ b_alg b' = b_alg b.

(** The alternatives of an array that changes its length. *)
Ltac grow m a n m' H :=
  match goal with |- context [realloc ?fr _ _ _] =>
    destruct (realloc_cases fr m a n ltac:(lia)) as (m' & [[-> H]|[-> H]]); cbn [negb] end.

(** The body changes, not the algorithm. *)
Ltac same_alg Hb := unfold b_alg; cbn; by rewrite Hb.

(** What a bucket with a known body represents. *)
Ltac contents Hr Hb := let H := fresh "Hbi" in
  pose proof (rp_body _ _ _ _ _ Hr) as H; rewrite Hb in H; cbn [body_is] in H.

Section Change.
Context (fresh : Z -> Z) (pow : double -> double -> double) (wild : double -> Z) (version : Z).
Local Abbreviation rep := (represents pow wild version).
Local Abbreviation resize := (resize fresh).

(** ** Arrays *)

Lemma starts_resize ws a n : starts_with ws a -> (length ws <= n)%nat -> starts_with ws (resize a n).
Proof. intros H Hn. pose proof (starts_with_length _ _ H). unfold starts_with in *. by rewrite take_resize by lia. Qed.

Lemma starts_snoc ws a x : starts_with ws a -> starts_with ws (take (length ws) a ++ [x]).
Proof. unfold starts_with. intros ->. by rewrite take_app_length. Qed.

Lemma long_resize size a n : long size a -> (Z.to_nat size <= n)%nat -> long size (resize a n).
Proof. intros [Hl Hu] Hn. split; [rewrite length_resize; lia|by apply resize_u32s]. Qed.

Lemma long_snoc size a x : 0 <= size -> long size a -> 0 <= x < 2 ^ 32 -> long (size + 1) (take (Z.to_nat size) a ++ [x]).
Proof.
  intros Hs [Hl Hu] Hx. split; [rewrite length_app, length_take; cbn; lia|].
  apply Forall_app. split; [by apply Forall_take|by apply Forall_singleton].
Qed.

Lemma long_le size size' a : size' <= size -> long size a -> long size' a.
Proof. intros H [Hl Hu]. split; [lia|done]. Qed.

Lemma long_snoc_le size a x : 0 <= size -> long size a -> 0 <= x < 2 ^ 32 -> long size (take (Z.to_nat size) a ++ [x]).
Proof. intros Hs Ha Hx. apply (long_le (size + 1)); [lia|by apply long_snoc]. Qed.

(** The parts of a bucket change, not its contents. *)
Lemma keep_represents b l items body : rep b l -> starts_with l.*1 items -> body_is pow wild version l.*2 body ->
  rep (updated b (b_weight b) (b_size b) items body) l.
Proof. intros [A B C D E F] Hi Hb. by split. Qed.

Lemma keep_shape b items body : shape b -> b_size b <= Z.of_nat (length items) -> body_shape (b_size b) body ->
  shape (updated b (b_weight b) (b_size b) items body).
Proof. intros [A B C D] Hi Hb. by split. Qed.

(** ** Adding an item *)

Definition fits (b : crush_bucket) (l : list (Z * Z)) (weight : Z) : Prop :=
  sumz l.*2 + u32 weight < 2 ^ 32 /\ forall w, b_body b = Uniform w -> w = u32 weight.

Definition adds (m : mem) (b : crush_bucket) (item weight : Z) (r : outcome (Z * crush_bucket * mem)) : Prop :=
  exists code b' m', r = Done (code, b', m') /\ shape b' /\ same_header b b' /\
  forall l, rep b l -> (code = 0 -> rep b' (l ++ [(item, u32 weight)])) /\
    (code <> 0 -> b_alg b <> CRUSH_BUCKET_STRAW -> rep b' l) /\ (memory m -> fits b l weight -> code = 0).

Lemma adds_failed m b item weight code items body m' : shape b -> b_size b <= Z.of_nat (length items) ->
  body_shape (b_size b) body -> b_alg (updated b (b_weight b) (b_size b) items body) = b_alg b -> code <> 0 ->
  (forall l, rep b l -> starts_with l.*1 items /\ body_is pow wild version l.*2 body /\ (memory m -> ~ fits b l weight)) ->
  adds m b item weight (Done (code, updated b (b_weight b) (b_size b) items body, m')).
Proof.
  intros Hs Hi Hb Ha Hc Hr. do 3 eexists. split; [done|]. split; [by apply keep_shape|]. split; [done|].
  intros l Hl. destruct (Hr l Hl) as (H1 & H2 & H3). split; [done|]. split; [intros _ _; by apply keep_represents|].
  intros Hm Hf. exfalso. by apply H3.
Qed.

Lemma adds_done m b item weight items body m' : shape b -> b_size b + 1 < 2 ^ 31 ->
  items = take (Z.to_nat (b_size b)) (b_items b) ++ [item] -> body_shape (b_size b + 1) body -> b_alg (updated b 0 0 [] body) = b_alg b ->
  (forall l, rep b l -> b_weight b + u32 weight < 2 ^ 32 /\ body_is pow wild version (l.*2 ++ [u32 weight]) body) ->
  adds m b item weight (Done (0, updated b (u32 (b_weight b + weight)) (u32 (b_size b + 1)) items body, m')).
Proof.
  intros Hs Hsz -> Hb Ha Hr. pose proof (sh_size b Hs). pose proof (sh_weight b Hs). pose proof (u32_range weight).
  rewrite (u32_small (b_size b + 1)) by lia. do 3 eexists. split; [done|]. split; [|split; [done|]].
  { split; cbn; [lia| |apply u32_range|done]. rewrite length_app, length_take. pose proof (sh_items b Hs). cbn. lia. }
  intros l Hl. destruct (Hr l Hl) as [Hw Hbi]. destruct Hl as [A B C D E F].
  assert (Ew : u32 (b_weight b + weight) = b_weight b + u32 weight) by (rewrite <- u32_add_r; apply u32_small; lia).
  split; [intros _|by split]. split; cbn; rewrite ?fmap_app; cbn [fmap list_fmap fst snd].
  - rewrite length_app. cbn. lia.
  - unfold starts_with in *. rewrite A, Nat2Z.id. rewrite length_fmap in B. rewrite B. by apply take_ge.
  - apply Forall_app. split; [done|by apply Forall_singleton].
  - rewrite sumz_app, Ew. cbn. lia.
  - rewrite sumz_app. cbn. lia.
  - done.
Qed.

Lemma overflow_unfit b l weight : rep b l -> 2 ^ 32 <= b_weight b + u32 weight -> ~ fits b l weight.
Proof. intros Hr Ho [Hf _]. rewrite (rp_weight _ _ _ b l Hr) in Ho. lia. Qed.

(** The size that the source computes, and the array of items after [realloc]. *)
Ltac sizes b Hs := pose proof (sh_size b Hs); pose proof (sh_items b Hs); rewrite ?(s32_small (b_size b + 1)) by lia.

Lemma starts_size b l (a : list Z) ws : rep b l -> length ws = length l -> starts_with ws a ->
  starts_with ws (resize a (Z.to_nat (b_size b + 1))).
Proof. intros Hr Hl Ha. apply starts_resize; [done|]. rewrite (rp_size _ _ _ b l Hr). lia. Qed.

Lemma snoc_items b l x : rep b l -> starts_with l.*1 (take (Z.to_nat (b_size b)) (b_items b) ++ [x]).
Proof.
  intros Hr. rewrite (rp_size _ _ _ _ _ Hr), Nat2Z.id, <- (length_fmap fst). apply starts_snoc, (rp_items _ _ _ _ _ Hr).
Qed.

Lemma snoc_contents b l ws a x : rep b l -> length ws = length l -> starts_with ws a ->
  starts_with (ws ++ [x]) (take (Z.to_nat (b_size b)) a ++ [x]).
Proof.
  intros Hr Hl Ha. unfold starts_with in *. rewrite (rp_size _ _ _ _ _ Hr), Nat2Z.id, <- Hl, Ha. by apply take_ge.
Qed.

Lemma add_straw2_ok m b iw item weight : b_body b = Straw2 iw -> shape b -> b_size b + 1 < 2 ^ 31 ->
  adds m b item weight (crush_add_straw2_bucket_item fresh m b iw item weight).
Proof.
  intros Hb Hs Hsz. unfold crush_add_straw2_bucket_item. sizes b Hs. pose proof (sh_body b Hs) as Hbs. rewrite Hb in Hbs. cbn in Hbs.
  pose proof (u32_range weight) as Hu.
  grow m (b_items b) (b_size b + 1) m1 Hm1.
  { apply adds_failed; try done; [same_alg Hb|]. intros l Hr. contents Hr Hb. split; [apply Hr|done]. }
  grow m1 iw (b_size b + 1) m2 Hm2.
  { apply adds_failed; try done; [rewrite length_resize; lia|same_alg Hb|]. intros l Hr. contents Hr Hb.
    split; [|tauto]. apply (starts_size b l); [done|apply length_fmap|apply Hr]. }
  replace (b_size b + 1 - 1) with (b_size b) by lia. destruct Hbs as [Hl Hus]. rewrite !resize_snoc by lia. run.
  destruct (crush_addition_is_unsafe (b_weight b) (u32 weight)) eqn:Eo.
  - apply addition_unsafe in Eo. apply adds_failed; try done; [rewrite length_app, length_take; cbn; lia|by apply long_snoc_le; [lia|..]|same_alg Hb|].
    intros l Hr. contents Hr Hb.
    split; [by apply (snoc_items b l)|]. split; [|intros _; by apply overflow_unfit].
    cbn. rewrite (rp_size _ _ _ _ _ Hr), Nat2Z.id, <- (length_fmap snd). by apply starts_snoc.
  - apply addition_safe in Eo. apply adds_done; try done; [by apply long_snoc; [lia|..]|same_alg Hb|].
    intros l Hr. contents Hr Hb. split; [done|]. cbn. apply (snoc_contents b l); [done|apply length_fmap|done].
Qed.

Lemma add_uniform_ok m b w item weight : b_body b = Uniform w -> shape b -> b_size b + 1 < 2 ^ 31 ->
  adds m b item weight (crush_add_uniform_bucket_item fresh m b w item weight).
Proof.
  intros Hb Hs Hsz. unfold crush_add_uniform_bucket_item. sizes b Hs. pose proof (sh_body b Hs) as Hbs. rewrite Hb in Hbs. cbn [body_shape] in Hbs.
  rewrite Hb. destruct (Z.eqb_spec w (u32 weight)) as [Ew|Ew]; cbn [negb].
  2: { exists (- EINVAL), b, m. split; [done|]. split; [done|]. split; [done|]. intros l Hr. split; [done|]. split; [done|].
       intros _ [_ Hf]. by apply Hf in Hb. }
  grow m (b_items b) (b_size b + 1) m1 Hm1.
  { apply adds_failed; try done; [same_alg Hb|]. intros l Hr. contents Hr Hb. split; [apply Hr|done]. }
  replace (b_size b + 1 - 1) with (b_size b) by lia. rewrite !resize_snoc by lia. run.
  destruct (crush_addition_is_unsafe (b_weight b) (u32 weight)) eqn:Eo.
  - apply addition_unsafe in Eo. apply adds_failed; try done; [rewrite length_app, length_take; cbn; lia|same_alg Hb|].
    intros l Hr. contents Hr Hb. split; [by apply (snoc_items b l)|]. split; [done|]. intros _. by apply overflow_unfit.
  - apply addition_safe in Eo. apply adds_done; try done; [same_alg Hb|].
    intros l Hr. contents Hr Hb. split; [done|]. cbn. apply Forall_app. split; [done|by apply Forall_singleton].
Qed.

Lemma sums_snoc ws x : prefix_sums (ws ++ [x]) = prefix_sums ws ++ [sumz ws + x].
Proof. unfold prefix_sums. rewrite sums_from_app. done. Qed.

(** The last sum is the weight of the bucket. *)
Lemma last_sum b l sw s : rep b l -> starts_with (prefix_sums l.*2) sw -> 0 < b_size b -> rd sw (b_size b - 1) = Some s -> s = sumz l.*2.
Proof.
  intros Hr Hs Hpos E. pose proof (rp_size _ _ _ _ _ Hr) as Hsz. destruct l as [|p l _] using rev_ind; [cbn in Hsz; lia|].
  rewrite fmap_app in *. cbn [fmap list_fmap] in *. rewrite length_app in Hsz. cbn in Hsz.
  replace (b_size b - 1) with (Z.of_nat (length l)) in E by lia. rewrite rd_lookup in E.
  rewrite (starts_with_lookup _ _ _ Hs), sums_snoc in E.
  - rewrite lookup_app_r in E by (rewrite length_prefix_sums, length_fmap; lia).
    rewrite length_prefix_sums, length_fmap, Nat.sub_diag in E. injection E as <-. rewrite sumz_app. cbn. lia.
  - rewrite length_prefix_sums, length_app, length_fmap. cbn. lia.
Qed.

Lemma add_list_ok m b iw sw item weight : b_body b = BList iw sw -> shape b -> b_size b + 1 < 2 ^ 31 ->
  adds m b item weight (crush_add_list_bucket_item fresh m b iw sw item weight).
Proof.
  intros Hb Hs Hsz. unfold crush_add_list_bucket_item. sizes b Hs. pose proof (sh_body b Hs) as Hbs. rewrite Hb in Hbs. cbn [body_shape] in Hbs.
  destruct Hbs as [Hiw Hsw]. pose proof (u32_range weight) as Hu.
  grow m (b_items b) (b_size b + 1) m1 Hm1.
  { apply adds_failed; try done; [same_alg Hb|]. intros l Hr. contents Hr Hb. split; [apply Hr|done]. }
  grow m1 iw (b_size b + 1) m2 Hm2.
  { apply adds_failed; try done; [rewrite length_resize; lia|same_alg Hb|]. intros l Hr. contents Hr Hb.
    split; [apply (starts_size b l); [done|apply length_fmap|apply Hr]|split; [exact Hbi|tauto]]. }
  grow m2 sw (b_size b + 1) m3 Hm3.
  { apply adds_failed; try done; [rewrite length_resize; lia|by split; [apply long_resize; [|lia]|]|same_alg Hb|].
    intros l Hr. contents Hr Hb. split; [apply (starts_size b l); [done|apply length_fmap|apply Hr]|]. cbn. split; [|tauto].
    split; [|tauto]. apply (starts_size b l); [done|apply length_fmap|tauto]. }
  replace (b_size b + 1 - 1) with (b_size b) by lia. replace (b_size b + 1 - 2) with (b_size b - 1) by lia.
  destruct Hiw as [Li Ui], Hsw as [Ls Us]. rewrite !resize_snoc by lia. run.
  assert (Hlong : long (b_size b + 1) (take (Z.to_nat (b_size b)) iw ++ [u32 weight])) by (apply long_snoc; done || lia).
  destruct (Z.ltb_spec 1 (b_size b + 1)) as [Hpos|Hpos].
  - destruct (rd_Some (resize sw (Z.to_nat (b_size b + 1))) (b_size b - 1)) as (s & Es & Hsl); [rewrite length_resize; lia|]. rewrite Es. run.
    assert (Es' : rd sw (b_size b - 1) = Some s).
    { unfold rd in *. rewrite (proj2 (Z.leb_le 0 _)) in * by lia. rewrite <- (lookup_take_lt sw (Z.to_nat (b_size b))) by lia.
      rewrite <- Es, <- (take_resize fresh sw (Z.to_nat (b_size b + 1))) by lia. apply lookup_take_lt. lia. }
    assert (Hsr : 0 <= s < 2 ^ 32) by (unfold rd in Es'; case_match; [|done]; by apply (Forall_lookup_1 _ _ _ _ Us Es')).
    destruct (crush_addition_is_unsafe s (u32 weight)) eqn:Eo.
    + apply addition_unsafe in Eo. apply adds_failed; try done; [rewrite length_app, length_take; cbn; lia| |same_alg Hb|].
      { split; [apply (long_le (b_size b + 1)); [lia|done]|by apply long_resize; [|lia]]. }
      intros l Hr. contents Hr Hb. destruct Hbi as [Hb1 Hb2]. split; [by apply (snoc_items b l)|]. cbn. split; [split|].
      * rewrite (rp_size _ _ _ _ _ Hr), Nat2Z.id, <- (length_fmap snd). by apply starts_snoc.
      * apply (starts_size b l); [done|by rewrite length_prefix_sums, length_fmap|done].
      * intros _. apply overflow_unfit; [done|]. rewrite (rp_weight _ _ _ _ _ Hr).
        by rewrite <- (last_sum b l sw s Hr Hb2 ltac:(lia) Es').
    + apply addition_safe in Eo. rewrite resize_snoc by lia. run.
      assert (Ew : u32 (s + weight) = s + u32 weight) by (rewrite <- u32_add_r; apply u32_small; lia). rewrite Ew.
      apply adds_done; try done; [split; [done|]; apply long_snoc; [lia|done|lia]|same_alg Hb|].
      intros l Hr. contents Hr Hb. destruct Hbi as [Hb1 Hb2]. pose proof (last_sum b l sw s Hr Hb2 ltac:(lia) Es') as ->.
      rewrite (rp_weight _ _ _ _ _ Hr). split; [lia|]. cbn. split; [apply (snoc_contents b l); [done|apply length_fmap|done]|].
      rewrite sums_snoc. apply (snoc_contents b l); [done|by rewrite length_prefix_sums, length_fmap|done].
  - apply adds_done; try done; [split; [done|]; apply long_snoc; [lia|done|lia]|same_alg Hb|].
    intros l Hr. contents Hr Hb. assert (El : l = []) by (apply nil_length_inv; rewrite (rp_size _ _ _ _ _ Hr) in *; lia). subst l.
    rewrite (rp_weight _ _ _ _ _ Hr). cbn. split; [lia|]. replace (b_size b) with 0 by lia. done.
Qed.

Lemma add_straw_ok m b iw straws item weight : b_body b = Straw iw straws -> shape b -> b_size b + 1 < 2 ^ 31 ->
  adds m b item weight (crush_add_straw_bucket_item fresh pow wild version m b iw straws item weight).
Proof.
  intros Hb Hs Hsz. unfold crush_add_straw_bucket_item. sizes b Hs. pose proof (sh_body b Hs) as Hbs. rewrite Hb in Hbs. cbn [body_shape] in Hbs.
  destruct Hbs as [Hiw Hst]. pose proof (u32_range weight) as Hu.
  grow m (b_items b) (b_size b + 1) m1 Hm1.
  { apply adds_failed; try done; [same_alg Hb|]. intros l Hr. contents Hr Hb. split; [apply Hr|done]. }
  grow m1 iw (b_size b + 1) m2 Hm2.
  { apply adds_failed; try done; [rewrite length_resize; lia|same_alg Hb|]. intros l Hr. contents Hr Hb.
    split; [apply (starts_size b l); [done|apply length_fmap|apply Hr]|split; [exact Hbi|tauto]]. }
  grow m2 straws (b_size b + 1) m3 Hm3.
  { apply adds_failed; try done; [rewrite length_resize; lia|by split; [apply long_resize; [|lia]|]|same_alg Hb|].
    intros l Hr. contents Hr Hb. split; [apply (starts_size b l); [done|apply length_fmap|apply Hr]|]. cbn. split; [|tauto].
    split; [|tauto]. apply (starts_size b l); [done|apply length_fmap|tauto]. }
  replace (b_size b + 1 - 1) with (b_size b) by lia. destruct Hiw as [Li Ui]. rewrite !resize_snoc by lia. run.
  assert (Hlong : long (b_size b + 1) (take (Z.to_nat (b_size b)) iw ++ [u32 weight])) by (apply long_snoc; done || lia).
  assert (Hlen : length (take (Z.to_nat (b_size b)) iw ++ [u32 weight]) = Z.to_nat (b_size b + 1)) by (rewrite length_app, length_take; cbn; lia).
  destruct (crush_addition_is_unsafe (b_weight b) (u32 weight)) eqn:Eo.
  { apply addition_unsafe in Eo. apply adds_failed; try done; [rewrite length_app, length_take; cbn; lia| |same_alg Hb|].
    { split; [apply (long_le (b_size b + 1)); [lia|done]|by apply long_resize; [|lia]]. }
    intros l Hr. contents Hr Hb. destruct Hbi as [Hb1 Hb2]. split; [by apply (snoc_items b l)|]. cbn. split; [split|].
    - rewrite (rp_size _ _ _ _ _ Hr), Nat2Z.id, <- (length_fmap snd). by apply starts_snoc.
    - apply (starts_size b l); [done|by rewrite length_straws_of, length_fmap|done].
    - intros _. by apply overflow_unfit. }
  apply addition_safe in Eo. assert (Es : s32 (u32 (b_size b + 1)) = b_size b + 1) by (rewrite u32_small, s32_small; lia).
  rewrite Es. destruct (alloc m3).1 eqn:Eok.
  - pose proof (calc_straw_at fresh pow wild version (b_size b + 1) m3 [] (resize straws (Z.to_nat (b_size b + 1))) _ ltac:(rewrite Hlen; lia)
      ltac:(rewrite Hlen, length_resize; lia) Eok) as E. rewrite app_nil_r, drop_ge, app_nil_r in E by (rewrite length_resize; lia). rewrite E. run.
    apply adds_done; try done; [|same_alg Hb|].
    { split; [done|]. apply long_exact; [rewrite length_straws_of; lia|apply straws_of_u32s]. }
    intros l Hr. contents Hr Hb. destruct Hbi as [Hb1 _]. split; [done|]. cbn.
    assert (Et : take (Z.to_nat (b_size b)) iw = l.*2).
    { rewrite (rp_size _ _ _ _ _ Hr), Nat2Z.id, <- (length_fmap snd). exact Hb1. }
    rewrite Et. split; apply starts_with_refl.
  - rewrite calc_straw_failed by done. run. do 3 eexists. split; [done|]. split; [|split; [split; [done|]; split; [done|]; split; [done|]; same_alg Hb|]].
    + rewrite (u32_small (b_size b + 1)) by lia. split; cbn; [lia|rewrite length_app, length_take; cbn; lia|apply u32_range|].
      split; [done|]. destruct Hst as [Lst Ust]. split; [rewrite length_resize; lia|by apply resize_u32s].
    + assert (Halg : b_alg b = CRUSH_BUCKET_STRAW) by (unfold b_alg; by rewrite Hb).
      intros l Hr. split; [done|]. split; [done|]. intros Hm. destruct (memory_alloc m3) as [H3 _]; [tauto|congruence].
Qed.

Lemma add_item_ok m b item weight : shape b -> b_size b + 1 < 2 ^ 31 ->
  adds m b item weight (crush_bucket_add_item fresh pow wild version m b item weight).
Proof.
  intros Hs Hsz. unfold crush_bucket_add_item. pose proof (sh_body b Hs) as Hbs. destruct (b_body b) eqn:Hb; cbn in Hbs; try done.
  - by apply add_uniform_ok.
  - by apply add_list_ok.
  - by apply add_straw_ok.
  - by apply add_straw2_ok.
Qed.
End Change.
