(* ===== verification/CrBuildRemove.v ===== *)
(** * Removing an item from a bucket (ceph/src/crush: builder.c)

    The first occurrence of the item leaves the contents of a straw or straw2
    bucket; an item that is not there is reported.  The functions for uniform
    and list buckets read one cell past the end of the arrays. *)
From S2P Require Import Prelude Doubles CrHash CrBucket CrPerm CrChoose CrBuilder CrBuildOps CrBuildArrays CrBuildStraw CrBuildTree CrBuildRefine CrBuildChange.

(** [j] is the first position of [item] in [k]. *)
Definition first_at (k : list Z) (item : Z) (j : nat) : Prop := k !! j = Some item /\ item ∉ take j k.

Lemma find_item_ok items item k : forall i, (forall j, (j < length k)%nat -> rd items (i + Z.of_nat j) = k !! j) ->
  (find_item (length k) i items item = Done None /\ item ∉ k) \/
  exists j, find_item (length k) i items item = Done (Some (i + Z.of_nat j)) /\ first_at k item j.
Proof.
  induction k as [|x k IH]; intros i Hrd; cbn [find_item length].
  { left. split; [done|]. apply not_elem_of_nil. }
  pose proof (Hrd 0%nat ltac:(cbn; lia)) as E0. rewrite Z.add_0_r in E0. cbn in E0. rewrite E0. run.
  destruct (Z.eqb_spec x item) as [->|Hne].
  { right. exists 0%nat. rewrite Z.add_0_r. split; [done|]. split; [done|]. apply not_elem_of_nil. }
  destruct (IH (i + 1)) as [[-> Hn]|(j & -> & Hj & Hn)].
  - intros j Hj. specialize (Hrd (S j) ltac:(cbn; lia)). change ((x :: k) !! S j) with (k !! j) in Hrd. rewrite <- Hrd. f_equal. lia.
  - left. split; [done|]. apply not_elem_of_cons. split; [congruence|done].
  - right. exists (S j). split; [do 2 f_equal; lia|]. split; [done|]. cbn. apply not_elem_of_cons. split; [congruence|done].
Qed.

Lemma first_at_unique k item i j : first_at k item i -> first_at k item j -> i = j.
Proof.
  intros [Hi Ni] [Hj Nj]. destruct (Nat.lt_trichotomy i j) as [H|[H|H]]; [|done|].
  - exfalso. apply Nj. apply list_elem_of_lookup. exists i. by rewrite lookup_take_lt.
  - exfalso. apply Ni. apply list_elem_of_lookup. exists j. by rewrite lookup_take_lt.
Qed.

Lemma position_ok b item : 0 <= b_size b <= Z.of_nat (length (b_items b)) ->
  (item_position b item = Done None /\ item ∉ items_of b) \/
  exists j, item_position b item = Done (Some (Z.of_nat j)) /\ first_at (items_of b) item j /\ Z.of_nat j < b_size b.
Proof.
  intros Hs. assert (Hl : length (items_of b) = Z.to_nat (b_size b)) by (unfold items_of; rewrite length_take; lia).
  unfold item_position. rewrite <- Hl. destruct (find_item_ok (b_items b) item (items_of b) 0) as [[-> Hn]|(j & -> & Hj)].
  - intros j Hj. rewrite Z.add_0_l, rd_lookup. unfold items_of. rewrite lookup_take_lt by lia. done.
  - by left.
  - right. exists j. rewrite Z.add_0_l. split; [done|]. split; [done|]. destruct Hj as [Hj _]. apply lookup_lt_Some in Hj. lia.
Qed.

Lemma item_position_ok b item : shape b ->
  (item_position b item = Done None /\ item ∉ items_of b) \/
  exists j, item_position b item = Done (Some (Z.of_nat j)) /\ first_at (items_of b) item j /\ Z.of_nat j < b_size b.
Proof. intros Hs. apply position_ok. pose proof (sh_size b Hs). pose proof (sh_items b Hs). lia. Qed.

Lemma close_gap_ok p q : forall x r, exists z,
  close_gap (length q) (Z.of_nat (length p)) (p ++ x :: q ++ r) = Some (p ++ q ++ z :: r) /\ z ∈ x :: q.
Proof.
  revert p. induction q as [|y q IH]; intros p x r; cbn [length]; unfold close_gap; cbn [for_up].
  { exists x. split; [done|]. apply list_elem_of_here. }
  replace (p ++ x :: (y :: q) ++ r) with ((p ++ [x]) ++ y :: q ++ r) by (by rewrite <- app_assoc).
  rewrite rd_app by (rewrite length_app; cbn; lia). cbn [mbind option_bind].
  replace ((p ++ [x]) ++ y :: q ++ r) with (p ++ x :: y :: q ++ r) by (by rewrite <- app_assoc).
  rewrite wr_app by done. cbn [mbind option_bind]. destruct (IH (p ++ [y]) y r) as (z & E & Hz). unfold close_gap in E.
  rewrite length_app in E. cbn [length] in E. rewrite <- !app_assoc in E. cbn [app] in E.
  replace (Z.of_nat (length p) + 1) with (Z.of_nat (length p + 1)) by lia. exists z. rewrite E. split; [done|]. by right.
Qed.

(** The cell at position [j] of an array leaves its first [size] cells. *)
Lemma close_gap_at a size j : Z.of_nat j < size -> size <= Z.of_nat (length a) ->
  exists a', close_gap (Z.to_nat (size - 1 - Z.of_nat j)) (Z.of_nat j) a = Some a' /\ length a' = length a /\ (u32s a -> u32s a') /\
    take (Z.to_nat (size - 1)) a' = delete j (take (Z.to_nat size) a).
Proof.
  intros Hj Hl. set (k := take (Z.to_nat size) a). assert (Hk : length k = Z.to_nat size) by (unfold k; rewrite length_take; lia).
  destruct (lookup_lt_is_Some_2 k j) as [x Hx]; [lia|]. pose proof (take_drop_middle k j x Hx) as Ek.
  set (p := take j k) in *. set (q := drop (S j) k) in *. set (r := drop (Z.to_nat size) a).
  assert (Hp : length p = j) by (unfold p; rewrite length_take; lia). assert (Hq : length q = (Z.to_nat size - S j)%nat) by (unfold q; rewrite length_drop; lia).
  assert (Ea : a = p ++ x :: q ++ r).
  { rewrite <- (take_drop (Z.to_nat size) a) at 1. fold k r. rewrite <- Ek. by rewrite <- app_assoc. }
  destruct (close_gap_ok p q x r) as (z & E & Hz). exists (p ++ q ++ z :: r).
  replace (Z.to_nat (size - 1 - Z.of_nat j)) with (length q) by lia. rewrite <- Hp at 1. rewrite Ea at 1. split; [done|].
  assert (Hlen : length (p ++ q ++ z :: r) = length a) by (rewrite Ea, !length_app; cbn; rewrite length_app; lia).
  split; [done|]. split.
  { intros Hu. rewrite Ea in Hu. unfold u32s in *. rewrite !Forall_app in *. rewrite !Forall_cons in *. rewrite !Forall_app in *.
    destruct Hu as (A & B & C & D). split; [done|]. split; [done|]. split; [|done]. apply elem_of_cons in Hz as [->|Hz]; [done|].
    rewrite Forall_forall in C. by apply C. }
  rewrite app_assoc, take_app_le, take_ge by (rewrite length_app; lia).
  rewrite <- Ek. clearbody p q. subst j. by rewrite delete_middle.
Qed.

(** Two lists of pairs, without one pair. *)
Lemma fmap_delete {A B} (f : A -> B) (l : list A) j : f <$> delete j l = delete j (f <$> l).
Proof. revert j. induction l as [|x l IH]; intros [|j]; simpl; try done. by rewrite IH. Qed.

Section Remove.
Context (fresh : Z -> Z) (pow : double -> double -> double) (wild : double -> Z) (version : Z).
Local Abbreviation rep := (represents pow wild version).

Definition removes (m : mem) (b : crush_bucket) (item : Z) (r : outcome (Z * crush_bucket * mem)) : Prop :=
  exists code b' m', r = Done (code, b', m') /\ shape b' /\ same_header b b' /\
  forall l, rep b l -> (item ∉ l.*1 -> code = - ENOENT /\ b' = b) /\
    forall j, first_at l.*1 item j -> (code = 0 \/ code = - ENOMEM) /\ (memory m -> code = 0) /\
      (code = 0 \/ b_alg b <> CRUSH_BUCKET_STRAW -> rep b' (delete j l)).

Lemma removes_missing m b item : shape b -> item ∉ items_of b -> removes m b item (Done (- ENOENT, b, m)).
Proof.
  intros Hs Hn. exists (- ENOENT), b, m. split; [done|]. split; [done|]. split; [done|]. intros l Hr. split; [done|].
  intros j [Hj _]. exfalso. apply Hn. rewrite (represents_items _ _ _ b l Hr). by eapply list_elem_of_lookup_2.
Qed.
Lemma starts_take ws a n : n = length ws -> take n a = ws -> starts_with ws a.
Proof. by intros ->. Qed.

(** What is left after the item at position [j] is taken out. *)
Lemma removes_done m m' b item j iw code items body : shape b -> first_at (items_of b) item j -> Z.of_nat j < b_size b ->
  b_size b - 1 <= Z.of_nat (length items) -> take (Z.to_nat (b_size b - 1)) items = delete j (items_of b) ->
  body_shape (b_size b - 1) body -> b_alg (updated b 0 0 [] body) = b_alg b -> 0 <= iw < 2 ^ 32 ->
  (forall l, rep b l -> l.*2 !! j = Some iw /\ (code = 0 \/ code = - ENOMEM) /\ (memory m -> code = 0) /\
     (code = 0 \/ b_alg b <> CRUSH_BUCKET_STRAW -> body_is pow wild version (delete j l.*2) body)) ->
  removes m b item (Done (code, updated b (less_weight iw (b_weight b)) (b_size b - 1) items body, m')).
Proof.
  intros Hs Hf Hj Hi Ht Hb Ha Hiw Hr. pose proof (sh_size b Hs). pose proof (sh_weight b Hs). do 3 eexists. split; [done|].
  split; [split; cbn; try done; [lia|unfold less_weight; case_match; lia]|]. split; [done|]. intros l Hl.
  destruct (Hr l Hl) as (Hw & Hc & Hm & Hbi). pose proof (represents_items _ _ _ b l Hl) as Ei. rewrite Ei in *.
  split; [intros Hn; exfalso; apply Hn; destruct Hf as [Hf _]; by eapply list_elem_of_lookup_2|].
  intros j' Hj'. rewrite (first_at_unique _ _ _ _ Hj' Hf). split; [done|]. split; [done|]. intros Hok. specialize (Hbi Hok).
  destruct Hl as [A B C D E F]. pose proof (sumz_delete _ _ _ Hw) as Es.
  assert (Hlen : length (delete j l) = (length l - 1)%nat) by (rewrite length_delete; [done|apply lookup_lt_is_Some_2; lia]).
  assert (Hu : u32s (delete j l.*2)) by (by apply Forall_delete). pose proof (sumz_nonneg _ Hu).
  split; cbn; rewrite ?fmap_delete; try done; try lia.
  - apply (starts_take _ _ (Z.to_nat (b_size b - 1))); [rewrite length_delete by (rewrite list_lookup_fmap; apply fmap_is_Some, lookup_lt_is_Some_2; lia); rewrite length_fmap; lia|done].
  - unfold less_weight. case_match; lia.
Qed.
(** An item and its weight leave the arrays. *)
Lemma taken_items b j : shape b -> Z.of_nat j < b_size b -> exists items,
  close_gap (Z.to_nat (b_size b - 1 - Z.of_nat j)) (Z.of_nat j) (b_items b) = Some items /\
  b_size b - 1 <= Z.of_nat (length items) /\ take (Z.to_nat (b_size b - 1)) items = delete j (items_of b).
Proof.
  intros Hs Hj. pose proof (sh_items b Hs). destruct (close_gap_at (b_items b) (b_size b) j) as (items & -> & Hil & _ & Hit); [lia..|].
  exists items. split; [done|]. split; [lia|done].
Qed.

Lemma taken_weight size iw j : Z.of_nat j < size -> long size iw -> exists w iw',
  rd iw (Z.of_nat j) = Some w /\ 0 <= w < 2 ^ 32 /\
  close_gap (Z.to_nat (size - 1 - Z.of_nat j)) (Z.of_nat j) iw = Some iw' /\ long (size - 1) iw' /\
  forall ws, size = Z.of_nat (length ws) -> starts_with ws iw -> ws !! j = Some w /\ starts_with (delete j ws) iw'.
Proof.
  intros Hj [Li Ui]. destruct (rd_Some iw (Z.of_nat j)) as (w & Ew & Hw); [lia|]. rewrite Nat2Z.id in Hw.
  destruct (close_gap_at iw size j) as (iw' & E & Hwl & Hwu & Hwt); [lia|lia|]. exists w, iw'.
  split; [done|]. split; [exact (Forall_lookup_1 _ _ _ _ Ui Hw)|]. split; [done|]. split; [split; [lia|tauto]|].
  intros ws Hl Hst. split; [by rewrite <- (starts_with_lookup _ _ j Hst) by lia|].
  apply (starts_take _ _ (Z.to_nat (size - 1))); [rewrite length_delete by (apply lookup_lt_is_Some_2; lia); lia|].
  rewrite Hwt. unfold starts_with in Hst. by rewrite Hl, Nat2Z.id, Hst.
Qed.

Lemma take_resize_same (a : list Z) n : (n <= length a)%nat -> take n (resize fresh a n) = take n a.
Proof. intros Hl. apply take_resize; lia. Qed.

(** The weights without one of them, and the array cut to their number. *)
Lemma starts_cut ws a size j : size = Z.of_nat (length ws) -> Z.of_nat j < size ->
  starts_with (delete j ws) a -> starts_with (delete j ws) (resize fresh a (Z.to_nat (size - 1))).
Proof. intros Hl Hj Ha. apply starts_resize; [done|]. rewrite length_delete by (apply lookup_lt_is_Some_2; lia). lia. Qed.

Lemma cut_exact ws a size j : size = Z.of_nat (length ws) -> Z.of_nat j < size ->
  starts_with (delete j ws) a -> resize fresh a (Z.to_nat (size - 1)) = delete j ws.
Proof.
  intros Hl Hj Ha. pose proof (starts_cut _ _ _ _ Hl Hj Ha) as H. unfold starts_with in H.
  rewrite length_delete, take_ge in H; [done|..]; [rewrite length_resize; lia|apply lookup_lt_is_Some_2; lia].
Qed.

Lemma rep_size b l : rep b l -> b_size b = Z.of_nat (length l.*2).
Proof. intros Hr. rewrite length_fmap. apply Hr. Qed.
Local Hint Resolve rep_size : core.

Lemma remove_straw2_ok m b iw item : b_body b = Straw2 iw -> shape b ->
  removes m b item (crush_remove_straw2_bucket_item fresh m b iw item).
Proof.
  intros Hb Hs. unfold crush_remove_straw2_bucket_item. pose proof (sh_size b Hs).
  pose proof (sh_body b Hs) as Hiw. rewrite Hb in Hiw. cbn in Hiw.
  destruct (item_position_ok b item Hs) as [[-> Hn]|(j & -> & Hf & Hj)]; run; [by apply removes_missing|].
  destruct (taken_weight (b_size b) iw j Hj Hiw) as (w & iw' & -> & Hw & E & Hl & Hc). run.
  destruct (taken_items b j Hs Hj) as (items & -> & Hil & Hit). run. rewrite E. run.
  destruct (Z.eqb_spec (b_size b - 1) 0) as [E0|E0].
  { apply (removes_done _ _ _ _ j); try done; [same_alg Hb|]. intros l Hr. contents Hr Hb. destruct (Hc _ (rep_size b l Hr) Hbi). cbn [body_is]. tauto. }
  grow m items (b_size b - 1) m1 Hm1.
  { apply (removes_done _ _ _ _ j); try done; [same_alg Hb|]. intros l Hr. contents Hr Hb. destruct (Hc _ (rep_size b l Hr) Hbi). cbn [body_is]. tauto. }
  grow m1 iw' (b_size b - 1) m2 Hm2.
  { apply (removes_done _ _ _ _ j); try done; [rewrite length_resize; lia|by rewrite take_resize_same by lia|same_alg Hb|].
    intros l Hr. contents Hr Hb. destruct (Hc _ (rep_size b l Hr) Hbi). cbn [body_is]. tauto. }
  apply (removes_done _ _ _ _ j); try done; [rewrite length_resize; lia|by rewrite take_resize_same by lia| |same_alg Hb|].
  { by apply long_resize. }
  intros l Hr. contents Hr Hb. destruct (Hc _ (rep_size b l Hr) Hbi). split; [done|]. split; [by left|]. split; [done|].
  intros _. cbn. apply starts_cut; auto.
Qed.

Lemma remove_straw_ok m b iw straws item : b_body b = Straw iw straws -> shape b ->
  removes m b item (crush_remove_straw_bucket_item fresh pow wild version m b iw straws item).
Proof.
  intros Hb Hs. unfold crush_remove_straw_bucket_item. pose proof (sh_size b Hs).
  assert (Halg : b_alg b = CRUSH_BUCKET_STRAW) by (unfold b_alg; by rewrite Hb).
  pose proof (sh_body b Hs) as Hiw. rewrite Hb in Hiw. cbn in Hiw. destruct Hiw as [Hiw Hst].
  assert (Hst' : long (b_size b - 1) straws) by (apply (long_le (b_size b)); [lia|done]).
  destruct (item_position_ok b item Hs) as [[-> Hn]|(j & -> & Hf & Hj)]; run; [by apply removes_missing|].
  destruct (taken_weight (b_size b) iw j Hj Hiw) as (w & iw' & -> & Hw & E & Hl & Hc). run.
  destruct (taken_items b j Hs Hj) as (items & -> & Hil & Hit). run. rewrite E. run.
  assert (Hc' : forall l, rep b l -> l.*2 !! j = Some w /\ starts_with (delete j l.*2) iw').
  { intros l Hr. contents Hr Hb. apply Hc; [by apply rep_size|]. apply Hbi. }
  destruct (Z.eqb_spec (b_size b - 1) 0) as [E0|E0].
  { apply (removes_done _ _ _ _ j); try done. intros l Hr. destruct (Hc' l Hr). split; [done|]. split; [by left|].
    split; [done|]. intros _. pose proof (rep_size b l Hr). cbn. destruct l.*2 as [|? []]; cbn in *; try lia. destruct j; [done|lia]. }
  grow m items (b_size b - 1) m1 Hm1.
  { apply (removes_done _ _ _ _ j); try done. intros l Hr. destruct (Hc' l Hr). intuition (discriminate || auto). }
  grow m1 iw' (b_size b - 1) m2 Hm2.
  { apply (removes_done _ _ _ _ j); try done; [rewrite length_resize; lia|by rewrite take_resize_same by lia|].
    intros l Hr. destruct (Hc' l Hr). intuition (discriminate || auto). }
  grow m2 straws (b_size b - 1) m3 Hm3.
  { apply (removes_done _ _ _ _ j); try done; [rewrite length_resize; lia|by rewrite take_resize_same by lia| |].
    { cbn. split; [|done]. by apply long_resize. }
    intros l Hr. destruct (Hc' l Hr). intuition (discriminate || auto). }
  set (iw2 := resize fresh iw' (Z.to_nat (b_size b - 1))). assert (L2 : length iw2 = Z.to_nat (b_size b - 1)) by apply length_resize.
  rewrite s32_small by lia. destruct (alloc m3).1 eqn:Eok.
  - pose proof (calc_straw_at fresh pow wild version (b_size b - 1) m3 [] (resize fresh straws (Z.to_nat (b_size b - 1))) iw2 ltac:(lia)
      ltac:(rewrite L2, length_resize; lia) Eok) as E2. rewrite app_nil_r, drop_ge, app_nil_r in E2 by (rewrite length_resize; lia). rewrite E2. run.
    apply (removes_done _ _ _ _ j); try done; [rewrite length_resize; lia|by rewrite take_resize_same by lia| |].
    { cbn. split; [by apply long_resize|]. apply long_exact; [rewrite length_straws_of; lia|apply straws_of_u32s]. }
    intros l Hr. destruct (Hc' l Hr) as [H1 H2]. split; [done|]. split; [by left|]. split; [done|]. intros _. cbn.
    unfold iw2. rewrite (cut_exact l.*2 iw' (b_size b) j) by auto. split; apply starts_with_refl.
  - rewrite calc_straw_failed by done. run.
    apply (removes_done _ _ _ _ j); try done; [rewrite length_resize; lia|by rewrite take_resize_same by lia| |].
    { cbn. split; [by apply long_resize|]. by apply long_resize. }
    intros l Hr. destruct (Hc' l Hr). pose proof (memory_alloc m3) as Hm4.
    assert (~ memory m) by (intros Hm; destruct Hm4 as [Hm4 _]; [auto|congruence]). intuition (discriminate || auto).
Qed.
Lemma remove_item_ok m b item : shape b -> b_alg b = CRUSH_BUCKET_STRAW \/ b_alg b = CRUSH_BUCKET_STRAW2 ->
  removes m b item (crush_bucket_remove_item fresh pow wild version m b item).
Proof.
  intros Hs Ha. unfold crush_bucket_remove_item. pose proof (sh_body b Hs) as Hbs. unfold b_alg in Ha.
  destruct (b_body b) eqn:Hb; cbn in Hbs, Ha; try (destruct Ha; discriminate); try done.
  - by apply remove_straw_ok.
  - by apply remove_straw2_ok.
Qed.

(** ** Reading past the end *)

Lemma rd_past {A} (a : list A) i : Z.of_nat (length a) <= i -> rd a i = None.
Proof. intros H. unfold rd. rewrite (proj2 (Z.leb_le 0 _)) by lia. apply lookup_ge_None_2. lia. Qed.

(** The loop up to [size] reads the cell after the last one. *)
Lemma close_gap_past a j : (j < length a)%nat -> close_gap (length a - j) (Z.of_nat j) a = None.
Proof.
  remember (length a - j)%nat as n eqn:En. revert a j En. induction n as [|n IH]; intros a j En Hj; [lia|].
  unfold close_gap. cbn [for_up]. destruct (decide (S j < length a)%nat) as [H|H].
  - destruct (rd_Some a (Z.of_nat j + 1)) as (x & -> & _); [lia|]. cbn [mbind option_bind]. destruct (wr_spec a (Z.of_nat j) x) as (a' & -> & Hl & _); [lia|].
    cbn [mbind option_bind]. unfold close_gap in IH.
    replace (Z.of_nat j + 1) with (Z.of_nat (S j)) by lia. apply IH; lia.
  - rewrite rd_past by lia. done.
Qed.

Lemma remove_uniform_past m b w item : b_body b = Uniform w -> shape b -> Z.of_nat (length (b_items b)) = b_size b ->
  item ∈ b_items b -> crush_bucket_remove_item fresh pow wild version m b item = Fault.
Proof.
  intros Hb Hs Hl Hin. unfold crush_bucket_remove_item, crush_remove_uniform_bucket_item. rewrite Hb.
  destruct (item_position_ok b item Hs) as [[-> Hn]|(j & -> & Hf & Hj)]; run.
  - exfalso. apply Hn. unfold items_of. by rewrite <- Hl, Nat2Z.id, take_ge.
  - replace (Z.to_nat (b_size b - Z.of_nat j)) with (length (b_items b) - j)%nat by lia. rewrite close_gap_past by lia. done.
Qed.

(** The items of the list bucket change as those of the uniform one. *)
Lemma list_gap_past items iw sw w j : (j < length items)%nat ->
  list_close_gap (length items - j) (Z.of_nat j) w (items, iw, sw) = None.
Proof.
  remember (length items - j)%nat as n eqn:En. revert items iw sw j En. induction n as [|n IH]; intros items iw sw j En Hj; [lia|].
  unfold list_close_gap. cbn [for_up]. destruct (decide (S j < length items)%nat) as [H|H].
  - destruct (rd_Some items (Z.of_nat j + 1)) as (x & -> & _); [lia|]. cbn [mbind option_bind]. destruct (wr_spec items (Z.of_nat j) x) as (a' & -> & Hl & _); [lia|].
    cbn [mbind option_bind]. unfold list_close_gap in IH.
    replace (Z.of_nat j + 1) with (Z.of_nat (S j)) by lia.
    destruct (rd iw (Z.of_nat (S j))); [|done]. cbn [mbind option_bind]. destruct (wr iw (Z.of_nat j) z); [|done]. cbn [mbind option_bind].
    destruct (rd sw (Z.of_nat (S j))); [|done]. cbn [mbind option_bind]. destruct (wr sw (Z.of_nat j) _); [|done]. cbn [mbind option_bind].
    apply IH; lia.
  - rewrite (rd_past items) by lia. done.
Qed.

Lemma remove_list_past m b iw sw item : b_body b = BList iw sw -> shape b -> Z.of_nat (length (b_items b)) = b_size b ->
  item ∈ b_items b -> crush_bucket_remove_item fresh pow wild version m b item = Fault.
Proof.
  intros Hb Hs Hl Hin. unfold crush_bucket_remove_item, crush_remove_list_bucket_item. rewrite Hb.
  destruct (item_position_ok b item Hs) as [[-> Hn]|(j & -> & Hf & Hj)]; run.
  - exfalso. apply Hn. unfold items_of. by rewrite <- Hl, Nat2Z.id, take_ge.
  - destruct (rd iw (Z.of_nat j)); [|done]. run.
    replace (Z.to_nat (b_size b - Z.of_nat j)) with (length (b_items b) - j)%nat by lia. rewrite list_gap_past by lia. done.
Qed.
End Remove.
