(* ===== verification/CrBuildAdjust.v ===== *)
(** * Changing the weight of an item (ceph/src/crush: builder.c)

    The weight replaces the one at the first occurrence of the item, with all
    that is calculated from it; in a uniform bucket it replaces every weight.
    The functions do not check for overflow: the contents are as expected when
    the new sum fits 32 bits. *)
From S2P Require Import Prelude Doubles CrHash CrBucket CrPerm CrChoose CrBuilder CrBuildOps CrBuildArrays CrBuildStraw CrBuildTree CrBuildRefine CrBuildChange.
From S2P Require Import CrBuildRemove.

(** ** Arrays *)

Lemma starts_insert ws a j x : (j < length ws)%nat -> starts_with ws a -> starts_with (<[j := x]> ws) (<[j := x]> a).
Proof.
  intros Hj Hs. destruct (starts_with_app _ _ Hs) as [junk ->]. rewrite insert_app_l by done. unfold starts_with.
  by rewrite take_app_length.
Qed.

Lemma fmap_insert {A B} (f : A -> B) (l : list A) j x : f <$> <[j := x]> l = <[j := f x]> (f <$> l).
Proof. apply list_fmap_insert. Qed.

(** Adding the difference of two ints to a 32-bit number. *)
Lemma u32_add_diff s weight w : 0 <= s + (u32 weight - w) < 2 ^ 32 -> u32 (s + s32 (weight - w)) = s + (u32 weight - w).
Proof.
  intros H. rewrite <- u32_add_r, u32_s32, u32_add_r. rewrite <- (u32_small (s + (u32 weight - w))) by done.
  replace (s + (weight - w)) with (weight + (s - w)) by lia. replace (s + (u32 weight - w)) with (u32 weight + (s - w)) by lia.
  by rewrite u32_add_l.
Qed.

Lemma u32_cong a b : (exists k, a = b + k * 2 ^ 32) -> u32 a = u32 b.
Proof. intros [k ->]. unfold u32. apply Z_mod_plus_full. Qed.

Lemma u32_mod_eq a : u32 a = a - 2 ^ 32 * (a / 2 ^ 32).
Proof. unfold u32. apply Z.mod_eq. lia. Qed.

Lemma s32_cong a b : u32 a = u32 b -> s32 a = s32 b.
Proof.
  unfold u32, s32. intros H. rewrite <- (Zplus_mod_idemp_l a), <- (Zplus_mod_idemp_l b). by rewrite H.
Qed.

Lemma sums_from_shift s d l : sums_from (s + d) l = (fun t => t + d) <$> sums_from s l.
Proof.
  revert s. induction l as [|x l IH]; intros s; cbn; [done|]. f_equal; [lia|]. rewrite <- IH. f_equal. lia.
Qed.

Lemma shift_sums_ok p q r d : shift_sums (length q) (Z.of_nat (length p)) d (p ++ q ++ r) =
  Some (p ++ ((fun s => u32 (s + d)) <$> q) ++ r).
Proof.
  revert p. induction q as [|y q IH]; intros p; unfold shift_sums; cbn [length for_up]; [done|].
  cbn [app]. rewrite rd_app by done. cbn [mbind option_bind]. rewrite wr_app by done. cbn [mbind option_bind].
  specialize (IH (p ++ [u32 (y + d)])). unfold shift_sums in IH. rewrite length_app in IH. cbn [length] in IH.
  rewrite <- !app_assoc in IH. cbn [app] in IH. replace (Z.of_nat (length p) + 1) with (Z.of_nat (length p + 1)) by lia. done.
Qed.

Lemma shift_sums_long size a j d : 0 <= j < size -> long size a ->
  exists a', shift_sums (Z.to_nat (size - j)) j d a = Some a' /\ long size a'.
Proof.
  intros Hj [Hl Hu]. set (p := take (Z.to_nat j) a). set (q := take (Z.to_nat (size - j)) (drop (Z.to_nat j) a)).
  set (r := drop (Z.to_nat (size - j)) (drop (Z.to_nat j) a)).
  assert (Ea : a = p ++ q ++ r) by (unfold p, q, r; by rewrite !take_drop).
  assert (Hp : length p = Z.to_nat j) by (unfold p; rewrite length_take; lia).
  assert (Hq : length q = Z.to_nat (size - j)) by (unfold q; rewrite length_take, length_drop; lia).
  clearbody p q r. subst a. pose proof (shift_sums_ok p q r d) as E. rewrite Hp, Hq, Z2Nat.id in E by lia.
  rewrite E. eexists. split; [done|]. rewrite !length_app in Hl. split; [rewrite !length_app, length_fmap; lia|].
  unfold u32s in *. rewrite !Forall_app in *. destruct Hu as (H1 & H2 & H3). split; [done|]. split; [|done].
  apply Forall_fmap, Forall_true. intros x. apply u32_range.
Qed.

Lemma sums_from_bounds s l i t : u32s l -> sums_from s l !! i = Some t -> s <= t <= s + sumz l.
Proof.
  intros Hu. revert s i. induction Hu as [|x l Hx Hu IH]; intros s [|i] Hi; cbn in *; try discriminate; pose proof (sumz_nonneg l Hu).
  - injection Hi as <-. lia.
  - apply IH in Hi. lia.
Qed.

(** The sums after the weight at a position is replaced. *)
Lemma shift_prefix_sums ws j w weight sw : ws !! j = Some w -> u32s ws -> sumz (<[j := u32 weight]> ws) < 2 ^ 32 ->
  starts_with (prefix_sums ws) sw ->
  exists sw', shift_sums (length ws - j) (Z.of_nat j) (s32 (weight - w)) sw = Some sw' /\
    starts_with (prefix_sums (<[j := u32 weight]> ws)) sw'.
Proof.
  intros Hj Hu Hsum Hst. destruct (starts_with_app _ _ Hst) as [junk ->]. pose proof (take_drop_middle ws j w Hj) as E.
  pose proof (lookup_lt_Some _ _ _ Hj) as Hlt. set (p := take j ws) in *. set (q := drop (S j) ws) in *.
  assert (Hp : length p = j) by (unfold p; rewrite length_take; lia). clearbody p q. subst ws j.
  rewrite insert_app_r_alt, Nat.sub_diag in Hsum |- * by lia. cbn [insert list_insert] in *.
  unfold prefix_sums in *. rewrite !sums_from_app, <- !app_assoc. rewrite <- (length_sums_from 0 p). rewrite length_app.
  replace (length p + length (w :: q) - length (sums_from 0 p))%nat with (length (sums_from (0 + sumz p) (w :: q)))
    by (rewrite !length_sums_from; lia).
  rewrite shift_sums_ok. eexists. split; [done|].
  assert (Ef : ((fun s => u32 (s + s32 (weight - w))) <$> sums_from (0 + sumz p) (w :: q)) = sums_from (0 + sumz p) (u32 weight :: q)).
  { cbn [sums_from]. replace (0 + sumz p + u32 weight) with (0 + sumz p + w + (u32 weight - w)) by lia.
    rewrite (sums_from_shift (0 + sumz p + w)). rewrite sumz_app in Hsum. cbn [sumz] in Hsum. apply Forall_app in Hu as [Hup Huq]. inversion Huq as [|? ? Hw Huq']; subst.
    pose proof (sumz_nonneg _ Hup). pose proof (sumz_nonneg _ Huq'). pose proof (u32_range weight).
    cbn [fmap list_fmap]. f_equal; [apply u32_add_diff; lia|]. apply list_fmap_ext. intros i s Hs. apply u32_add_diff.
    pose proof (sums_from_bounds _ _ _ _ Huq' Hs). lia. }
  rewrite Ef. unfold starts_with. rewrite app_assoc, take_app_length. done.
Qed.

(** ** Straw, straw2 and list buckets *)

Section Adjust.
Context (fresh : Z -> Z) (pow : double -> double -> double) (wild : double -> Z) (version : Z).
Local Abbreviation rep := (represents pow wild version).

Definition adjusts (m : mem) (b : crush_bucket) (item weight : Z) (r : outcome (Z * crush_bucket * mem)) : Prop :=
  exists code b' m', r = Done (code, b', m') /\ shape b' /\ same_header b b' /\
  forall l, rep b l -> (item ∉ l.*1 -> code = 0 /\ b' = b) /\
    forall j w, first_at l.*1 item j -> l.*2 !! j = Some w -> sumz l.*2 - w + u32 weight < 2 ^ 32 ->
      memory m \/ b_alg b <> CRUSH_BUCKET_STRAW -> code = s32 (weight - w) /\ rep b' (<[j := (item, u32 weight)]> l).

Lemma adjusts_missing m b item weight : shape b -> item ∉ items_of b -> adjusts m b item weight (Done (0, b, m)).
Proof.
  intros Hs Hn. exists 0, b, m. split; [done|]. split; [done|]. split; [done|]. intros l Hr. split; [done|].
  intros j w [Hj _]. exfalso. apply Hn. rewrite (represents_items _ _ _ b l Hr). by eapply list_elem_of_lookup_2.
Qed.

(** The item keeps its place, the weight at it is replaced. *)
Lemma adjusted_represents b l item weight j w body : rep b l -> first_at l.*1 item j -> l.*2 !! j = Some w ->
  sumz l.*2 - w + u32 weight < 2 ^ 32 -> body_is pow wild version (<[j := u32 weight]> l.*2) body ->
  rep (updated b (u32 (b_weight b + s32 (weight - w))) (b_size b) (b_items b) body) (<[j := (item, u32 weight)]> l).
Proof.
  intros [A B C D E F] [Hf _] Hw Hsum Hb. pose proof (sumz_insert _ _ _ (u32 weight) Hw) as Es. pose proof (u32_range weight).
  assert (Hu : u32s (<[j := u32 weight]> l.*2)) by (by apply Forall_insert). pose proof (sumz_nonneg _ Hu).
  split; cbn; rewrite ?length_insert, ?fmap_insert; cbn [fst snd]; try done; try lia.
  - by rewrite list_insert_id.
  - rewrite u32_add_diff; lia.
Qed.

Lemma adjusts_done m m' b item weight j w code body : shape b -> first_at (items_of b) item j ->
  body_shape (b_size b) body -> b_alg (updated b 0 0 [] body) = b_alg b ->
  (forall l, rep b l -> l.*2 !! j = Some w /\ (sumz l.*2 - w + u32 weight < 2 ^ 32 -> memory m \/ b_alg b <> CRUSH_BUCKET_STRAW ->
     code = s32 (weight - w) /\ body_is pow wild version (<[j := u32 weight]> l.*2) body)) ->
  adjusts m b item weight (Done (code, updated b (u32 (b_weight b + s32 (weight - w))) (b_size b) (b_items b) body, m')).
Proof.
  intros Hs Hf Hb Ha Hr. do 3 eexists. split; [done|].
  split; [destruct Hs; split; cbn; try done; apply u32_range|]. split; [done|]. intros l Hl.
  destruct (Hr l Hl) as (Hw & Hc). rewrite (represents_items _ _ _ b l Hl) in Hf.
  split; [intros Hn; exfalso; apply Hn; destruct Hf as [Hf _]; by eapply list_elem_of_lookup_2|].
  intros j' w' Hj' Hw' Hsum Hm. pose proof (first_at_unique _ _ _ _ Hj' Hf) as ->. assert (w' = w) as -> by congruence.
  destruct (Hc Hsum Hm). split; [done|]. by apply adjusted_represents.
Qed.

(** The weight at the position of the item is written. *)
Lemma new_weight size iw j weight : Z.of_nat j < size -> long size iw -> exists w,
  rd iw (Z.of_nat j) = Some w /\ wr iw (Z.of_nat j) (u32 weight) = Some (<[j := u32 weight]> iw) /\ long size (<[j := u32 weight]> iw) /\
  forall ws, size = Z.of_nat (length ws) -> starts_with ws iw -> ws !! j = Some w /\ starts_with (<[j := u32 weight]> ws) (<[j := u32 weight]> iw).
Proof.
  intros Hj [Li Ui]. destruct (rd_Some iw (Z.of_nat j)) as (w & Ew & Hw); [lia|]. rewrite Nat2Z.id in Hw. exists w. split; [done|].
  split; [rewrite wr_Some by lia; by rewrite Nat2Z.id|].
  split; [split; [by rewrite length_insert|apply Forall_insert; [done|apply u32_range]]|].
  intros ws Hl Hst. split; [by rewrite <- (starts_with_lookup _ _ j Hst) by lia|]. apply starts_insert; [lia|done].
Qed.

Lemma adjust_straw2_ok m b iw item weight : b_body b = Straw2 iw -> shape b ->
  adjusts m b item weight ('(d, b) ← crush_adjust_straw2_bucket_item_weight b iw item weight; Done (d, b, m)).
Proof.
  intros Hb Hs. unfold crush_adjust_straw2_bucket_item_weight. pose proof (sh_body b Hs) as Hiw. rewrite Hb in Hiw. cbn in Hiw.
  destruct (item_position_ok b item Hs) as [[-> Hn]|(j & -> & Hf & Hj)]; run; [by apply adjusts_missing|].
  destruct (new_weight (b_size b) iw j weight Hj Hiw) as (w & -> & Ew & Hl & Hc). run. rewrite Ew. run.
  apply (adjusts_done _ _ _ _ _ j); try done; [same_alg Hb|]. intros l Hr. contents Hr Hb.
  destruct (Hc _ (rep_size _ _ _ b l Hr) Hbi). done.
Qed.

Lemma adjust_list_ok m b iw sw item weight : b_body b = BList iw sw -> shape b ->
  adjusts m b item weight ('(d, b) ← crush_adjust_list_bucket_item_weight b iw sw item weight; Done (d, b, m)).
Proof.
  intros Hb Hs. unfold crush_adjust_list_bucket_item_weight. pose proof (sh_body b Hs) as Hiw. rewrite Hb in Hiw. cbn in Hiw.
  destruct Hiw as [Hiw Hsw]. destruct (item_position_ok b item Hs) as [[-> Hn]|(j & -> & Hf & Hj)]; run; [by apply adjusts_missing|].
  destruct (new_weight (b_size b) iw j weight Hj Hiw) as (w & -> & Ew & Hl & Hc). run. rewrite Ew. run.
  destruct (shift_sums_long (b_size b) sw (Z.of_nat j) (s32 (weight - w)) ltac:(lia) Hsw) as (sw' & Es & Hsw'). rewrite Es. run.
  apply (adjusts_done _ _ _ _ _ j); try done; [same_alg Hb|]. intros l Hr. contents Hr Hb. destruct Hbi as [Hi1 Hi2].
  pose proof (rep_size _ _ _ b l Hr) as Hsz. destruct (Hc _ Hsz Hi1) as [Hw Hi]. split; [done|].
  intros Hsum _. split; [done|]. cbn. split; [done|].
  destruct (shift_prefix_sums l.*2 j w weight sw Hw (rp_weights _ _ _ _ _ Hr) ltac:(rewrite (sumz_insert _ _ _ _ Hw); lia) Hi2) as (sw2 & Es2 & Hs2).
  replace (Z.to_nat (b_size b - Z.of_nat j)) with (length l.*2 - j)%nat in Es by lia. congruence.
Qed.

Lemma adjust_straw_ok m b iw straws item weight : b_body b = Straw iw straws -> shape b ->
  adjusts m b item weight (crush_adjust_straw_bucket_item_weight fresh pow wild version m b iw straws item weight).
Proof.
  intros Hb Hs. unfold crush_adjust_straw_bucket_item_weight. pose proof (sh_body b Hs) as Hiw. rewrite Hb in Hiw. cbn in Hiw.
  pose proof (sh_size b Hs). assert (Halg : b_alg b = CRUSH_BUCKET_STRAW) by (unfold b_alg; by rewrite Hb).
  destruct Hiw as [Hiw Hst]. destruct (item_position_ok b item Hs) as [[-> Hn]|(j & -> & Hf & Hj)]; run; [by apply adjusts_missing|].
  destruct (new_weight (b_size b) iw j weight Hj Hiw) as (w & -> & Ew & Hl & Hc). run. rewrite Ew. run. rewrite (s32_small (b_size b)) by lia.
  set (iw2 := <[j := u32 weight]> iw) in *. destruct (alloc m).1 eqn:Eok.
  - destruct Hl as [Hl Hu]. 
    assert (L1 : length (take (Z.to_nat (b_size b)) iw2) = Z.to_nat (b_size b)) by (apply length_take_le; lia).
    destruct Hst as [Ls Us].
    pose proof (calc_straw_at fresh pow wild version (b_size b) m (drop (Z.to_nat (b_size b)) iw2) straws (take (Z.to_nat (b_size b)) iw2)
      ltac:(lia) ltac:(lia) Eok) as E. rewrite take_drop in E. rewrite E. run.
    apply (adjusts_done _ _ _ _ _ j); try done.
    { cbn. split; [done|]. split; [rewrite length_app, length_straws_of; lia|]. apply Forall_app. split; [apply straws_of_u32s|by apply Forall_drop]. }
    intros l Hr. contents Hr Hb. destruct Hbi as [Hi1 Hi2]. pose proof (rep_size _ _ _ b l Hr) as Hsz. destruct (Hc _ Hsz Hi1) as [Hw Hi].
    split; [done|]. intros _ _. split; [done|]. cbn. split; [done|]. unfold starts_with in Hi. rewrite length_insert in Hi.
    rewrite Hsz, Nat2Z.id, Hi. unfold starts_with. by rewrite take_app_length.
  - rewrite calc_straw_failed by done. run. apply (adjusts_done _ _ _ _ _ j); try done.
    intros l Hr. contents Hr Hb. destruct Hbi as [Hi1 Hi2]. destruct (Hc _ (rep_size _ _ _ b l Hr) Hi1) as [Hw Hi].
    split; [done|]. intros _ [Hm|]; [|done]. exfalso. destruct (memory_alloc m Hm). congruence.
Qed.

Lemma adjust_item_ok m b item weight : shape b -> b_alg b <> CRUSH_BUCKET_UNIFORM ->
  adjusts m b item weight (crush_bucket_adjust_item_weight fresh pow wild version m b item weight).
Proof.
  intros Hs Ha. unfold crush_bucket_adjust_item_weight. pose proof (sh_body b Hs) as Hbs. unfold b_alg in Ha.
  destruct (b_body b) eqn:Hb; cbn in Hbs, Ha; try done.
  - by apply adjust_list_ok.
  - by apply adjust_straw_ok.
  - by apply adjust_straw2_ok.
Qed.

(** ** Uniform buckets *)

Lemma adjust_uniform_ok m b w item weight l : b_body b = Uniform w -> rep b l ->
  Z.of_nat (length l) * u32 weight < 2 ^ 32 ->
  exists b', crush_bucket_adjust_item_weight fresh pow wild version m b item weight = Done (s32 (b_weight b' - b_weight b), b', m) /\
    same_header b b' /\ rep b' ((fun p => (p.1, u32 weight)) <$> l).
Proof.
  intros Hb [A B C D E F] Hsum. rewrite Hb in F. cbn in F. unfold crush_bucket_adjust_item_weight, crush_adjust_uniform_bucket_item_weight.
  rewrite Hb. run. pose proof (u32_range weight) as Hu. rewrite A.
  assert (E2 : ((fun p => (p.1, u32 weight)) <$> l).*2 = replicate (length l) (u32 weight)).
  { clear. induction l; cbn in *; [done|]. by f_equal. }
  assert (E1 : ((fun p => (p.1, u32 weight)) <$> l).*1 = l.*1) by (rewrite <- list_fmap_compose; by apply list_fmap_ext).
  assert (Ew : u32 (u32 weight * Z.of_nat (length l)) = Z.of_nat (length l) * u32 weight) by (rewrite u32_small; lia). rewrite Ew.
  assert (Es : sumz (replicate (length l) (u32 weight)) = Z.of_nat (length l) * u32 weight).
  { rewrite (sumz_const (u32 weight)); [by rewrite length_replicate|]. by apply Forall_replicate. }
  assert (Ed : s32 ((weight - w) * Z.of_nat (length l)) = s32 (Z.of_nat (length l) * u32 weight - b_weight b)).
  { apply s32_cong. rewrite D, (sumz_const w), length_fmap by done. apply u32_cong. rewrite (u32_mod_eq weight). exists (Z.of_nat (length l) * (weight / 2 ^ 32)). lia. }
  rewrite Ed. exists (updated b (Z.of_nat (length l) * u32 weight) (Z.of_nat (length l)) (b_items b) (Uniform (u32 weight))). split; [done|split; [split; [done|]; split; [done|]; split; [done|]; same_alg Hb|]].
  split; cbn; rewrite ?E1, ?E2, ?Es; try done; [by rewrite length_fmap|by apply Forall_replicate..].
Qed.
(** ** Trees *)

Lemma leaves_insert us (j : nat) w x k : us !! j = Some w -> 0 <= k ->
  leaves (<[j := x]> us) k = leaves us k + (if k =? Z.of_nat j then x - w else 0).
Proof.
  intros Hj Hk. unfold leaves. rewrite !nth_lookup. destruct (Z.eqb_spec k (Z.of_nat j)) as [->|Hne].
  - rewrite Nat2Z.id, list_lookup_insert_eq by (by eapply lookup_lt_Some). rewrite Hj. cbn. lia.
  - rewrite list_lookup_insert_ne by lia. lia.
Qed.

Lemma tsum_insert us (j : nat) w x h k : us !! j = Some w -> 0 <= k ->
  tsum (leaves (<[j := x]> us)) h k = tsum (leaves us) h k + (if k =? Z.of_nat j / 2 ^ Z.of_nat h then x - w else 0).
Proof.
  intros Hj Hk. rewrite <- tsum_add by lia. apply tsum_ext; [|done]. intros k' Hk'. by apply leaves_insert.
Qed.

(** A leaf gets another weight, and its ancestors the difference. *)
Lemma tree_set_leaf d us (j : nat) w weight W : 1 <= d <= Z.of_nat height_fuel -> Z.of_nat (length us) <= 2 ^ (d - 1) -> u32s us ->
  us !! j = Some w -> sumz us - w + u32 weight < 2 ^ 32 -> tree_is d (leaves us) W ->
  exists W1 W2, rd W (crush_calc_tree_node (Z.of_nat j)) = Some w /\
    wr W (crush_calc_tree_node (Z.of_nat j)) (u32 weight) = Some W1 /\
    climb (Z.to_nat (d - 1)) (crush_calc_tree_node (Z.of_nat j)) (s32 (weight - w)) W1 = Done W2 /\
    tree_is d (leaves (<[j := u32 weight]> us)) W2.
Proof.
  intros Hd Hl Hu Hj Hsum HW. pose proof (lookup_lt_Some _ _ _ Hj) as Hlt. set (i := Z.of_nat j).
  assert (Hi : 0 <= i < 2 ^ (d - 1)) by lia. pose proof (node_bound d i 0 ltac:(lia) Hi) as [_ Hb]. rewrite Z.pow_0_r, Z.div_1_r in Hb.
  assert (Hf : leaves us i = w) by (unfold leaves; rewrite nth_lookup; unfold i; by rewrite Nat2Z.id, Hj).
  pose proof (u32_range weight) as Hw. assert (Hu' : u32s (<[j := u32 weight]> us)) by (by apply Forall_insert).
  pose proof (sumz_insert _ _ _ (u32 weight) Hj) as Hs'. pose proof (tr_len _ _ _ HW). rewrite node_leaf.
  assert (E0 : rd W (node 0 i) = Some w) by (rewrite rd_total, (tr_node _ _ _ HW) by lia; change (tsum (leaves us) (Z.to_nat 0) i) with (leaves us i); by rewrite Hf).
  destruct (wr_spec W (node 0 i) (u32 weight)) as (W1 & E1 & _); [lia|].
  assert (Hp : tree_part d (leaves us) i (u32 weight - w) 1 W1).
  { apply (tree_part_start d _ i _ W); try done; [lia|rewrite Hf; lia|]. rewrite Hf. replace (w + (u32 weight - w)) with (u32 weight) by lia. done. }
  destruct (climb_ok d (leaves us) i (u32 weight - w) (s32 (weight - w)) ltac:(lia) Hi) with (n := Z.to_nat (d - 1)) (h := 1) (W := W1) as (W2 & E2 & HW2 & _); try done; try lia.
  - rewrite u32_s32. unfold u32. by rewrite Zminus_mod_idemp_l.
  - intros h Hh. pose proof (node_bound d i h ltac:(lia) Hi) as [Hk _]. pose proof (tsum_insert us j w (u32 weight) (Z.to_nat h) (i / 2 ^ h) Hj Hk) as Et.
    rewrite Z2Nat.id, Z.eqb_refl in Et by lia. pose proof (tsum_bounds _ (Z.to_nat h) (i / 2 ^ h) Hu' Hk). lia.
  - exists W1, W2. replace (node (1 - 1) (i / 2 ^ (1 - 1))) with (node 0 i) in E2 by (by rewrite Z.div_1_r).
    split; [done|]. split; [done|]. split; [done|]. pose proof (tree_part_done d _ i _ _ ltac:(lia) ltac:(lia) HW2) as [A B C].
    split; [done|done|]. intros h k Hh Hk Hn. rewrite C by done. apply tsum_ext; [|done]. intros k' Hk'. symmetry. by apply leaves_insert.
Qed.

Lemma adjust_tree_ok m b nn W item weight l j w : b_body b = Tree nn W -> rep b l -> first_at l.*1 item j -> l.*2 !! j = Some w ->
  sumz l.*2 - w + u32 weight < 2 ^ 32 ->
  exists b', crush_bucket_adjust_item_weight fresh pow wild version m b item weight = Done (s32 (weight - w), b', m) /\
    same_header b b' /\ rep b' (<[j := (item, u32 weight)]> l).
Proof.
  intros Hb Hr Hf Hw Hsum. contents Hr Hb. unfold crush_bucket_adjust_item_weight, crush_adjust_tree_bucket_item_weight. rewrite Hb. run.
  pose proof (rep_size _ _ _ b l Hr) as Hsz. assert (Hne : l.*2 <> []) by (by intros E; rewrite E in Hw).
  destruct (Hbi Hne) as (H64 & -> & HW). assert (Hn : 0 < b_size b) by (destruct l.*2; [done|cbn in Hsz; lia]).
  rewrite calc_depth_ok by lia. run. pose proof (starts_with_length _ _ (rp_items _ _ _ _ _ Hr)) as Hil. rewrite length_fmap in Hil.
  pose proof (represents_items _ _ _ b l Hr) as Ei. rewrite (rp_size _ _ _ _ _ Hr) in *.
  destruct (position_ok b item) as [[-> Hni]|(j' & -> & Hf' & _)]; [rewrite (rp_size _ _ _ _ _ Hr); lia| |].
  { exfalso. apply Hni. rewrite Ei. destruct Hf as [Hf _]. by eapply list_elem_of_lookup_2. }
  rewrite Ei in Hf'. pose proof (first_at_unique _ _ _ _ Hf' Hf) as ->. run. unfold tree_depth in HW. rewrite length_fmap in HW.
  set (q := Z.log2_up (Z.of_nat (length l))) in *. pose proof (log2_up_64 (Z.of_nat (length l)) ltac:(rewrite length_fmap in H64; lia)) as Hq. fold q in Hq.
  pose proof (log2_up_bounds (Z.of_nat (length l)) Hn) as Hq2. fold q in Hq2.
  destruct (tree_set_leaf (q + 1) l.*2 j w weight W) as (W1 & W2 & -> & -> & E & HW2); try done; [unfold height_fuel; lia|..].
  { rewrite length_fmap. replace (q + 1 - 1) with q by lia. done. }
  { apply Hr. }
  run. rewrite E. run. eexists. split; [done|]. split; [split; [done|]; split; [done|]; split; [done|]; same_alg Hb|].
  pose proof (adjusted_represents b l item weight j w (Tree (2 ^ tree_depth (length l.*2)) W2) Hr Hf Hw Hsum) as Hr'.
  rewrite (rp_size _ _ _ _ _ Hr) in Hr'. apply Hr'. cbn. rewrite length_insert. intros _. split; [done|]. split; [done|].
  unfold tree_depth. rewrite length_fmap. done.
Qed.
End Adjust.
