(* ===== verification/CrBuildWf.v ===== *)
(** * Maps under construction stay well formed (ceph/src/crush: builder.c)

    [building_ok] relates the arrays of a map to the sizes that the source
    keeps besides them and to the ids of the buckets.  Every operation returns,
    and keeps it unless memory runs out while an array of the map grows: then
    the size is already that of the larger array. *)
From S2P Require Import Prelude CrHash CrBucket CrMapper CrPerm CrChoose CrMap CrBuilder CrBuildOps CrBuildMap CrBuildArrays CrBuildStraw.
From S2P Require Import CrBuildTree CrBuildRefine CrBuildChange CrBuildRemove CrBuildAdjust.

(** ** Well-formed maps *)

Record building_ok (g : building) : Prop := {
  bk_size : size_buckets g = max_buckets (the_map g);
  bk_bound : size_buckets g < 2 ^ 31;
  bk_ids : forall i b, buckets (the_map g) !! i = Some (Some b) -> b_id b = -1 - Z.of_nat i;
  bk_shape : forall i b, buckets (the_map g) !! i = Some (Some b) -> shape b;
  bk_rules : size_rules g = max_rules (the_map g);
  bk_count : size_rules g <= CRUSH_MAX_RULES }.

Definition with_map (g : building) (m : crush_map) : building :=
  mkbuilding m (size_buckets g) (size_rules g) (straw_calc_version g) (allowed_bucket_algs g) (working_size g).

(** The same map but for its buckets. *)
Definition same_rest (g g' : building) : Prop :=
  rules (the_map g') = rules (the_map g) /\ size_rules g' = size_rules g /\ straw_calc_version g' = straw_calc_version g.

Lemma bucket_at_lookup m id b : bucket_at m id = Done b <-> id < 0 /\ buckets m !! Z.to_nat (-1 - id) = Some (Some b).
Proof.
  unfold bucket_at, rd. destruct (Z.leb_spec 0 (-1 - id)) as [H|H].
  - split.
    + intros E. destruct (buckets m !! Z.to_nat (-1 - id)) as [[c|]|]; cbn in E; try done. injection E as ->. split; [lia|done].
    + intros [_ ->]. done.
  - split; [done|]. lia.
Qed.

Lemma bucket_ok_at g id b : building_ok g -> bucket_at (the_map g) id = Done b -> shape b /\ b_id b = id.
Proof.
  intros Hg Hb. apply bucket_at_lookup in Hb as [Hn Hl]. split; [by eapply (bk_shape g Hg)|].
  apply (bk_ids g Hg) in Hl. lia.
Qed.

(** An entry of the array of buckets is written. *)
Lemma store_ok g id o : building_ok g -> 0 <= -1 - id < size_buckets g -> (forall b, o = Some b -> shape b /\ b_id b = id) ->
  exists bs, wr (buckets (the_map g)) (-1 - id) o = Some bs /\ building_ok (with_map g (with_buckets (the_map g) bs)) /\
    forall k, bucket_at (with_buckets (the_map g) bs) k = if decide (k = id) then need o else bucket_at (the_map g) k.
Proof.
  intros Hg Hid Ho. pose proof (bk_size g Hg) as Hsz. unfold max_buckets in Hsz. rewrite wr_Some by lia. eexists. split; [done|].
  assert (Hat : forall i c, <[Z.to_nat (-1 - id):=o]> (buckets (the_map g)) !! i = Some (Some c) ->
    i = Z.to_nat (-1 - id) /\ o = Some c \/ buckets (the_map g) !! i = Some (Some c)).
  { intros i c Hc. destruct (decide (i = Z.to_nat (-1 - id))) as [->|Hne].
    - rewrite list_lookup_insert_eq in Hc by lia. injection Hc as ->. by left.
    - rewrite list_lookup_insert_ne in Hc by done. by right. }
  split.
  - destruct Hg as [A B C D E F]. split; cbn; try done.
    + unfold max_buckets in *. cbn. by rewrite length_insert.
    + intros i c Hc. destruct (Hat i c Hc) as [[-> Ec]|Hc']; [destruct (Ho c Ec); lia|by apply C].
    + intros i c Hc. destruct (Hat i c Hc) as [[-> Ec]|Hc']; [by destruct (Ho c Ec)|by apply (D i)].
  - intros k. unfold bucket_at, rd. cbn. case_decide as Hk.
    + subst k. rewrite (proj2 (Z.leb_le 0 _)), list_lookup_insert_eq by lia. done.
    + destruct (Z.leb_spec 0 (-1 - k)); [|done]. rewrite list_lookup_insert_ne by lia. done.
Qed.

(** A write through the pointer to a bucket. *)
Lemma set_bucket_ok g id b b' : building_ok g -> bucket_at (the_map g) id = Done b -> shape b' -> b_id b' = id ->
  exists m', set_bucket (the_map g) id b' = Done m' /\ building_ok (with_map g m') /\ same_rest g (with_map g m') /\
    forall k, bucket_at m' k = if decide (k = id) then Done b' else bucket_at (the_map g) k.
Proof.
  intros Hg Hb Hs Hid. apply bucket_at_lookup in Hb as [Hn Hl]. pose proof (lookup_lt_Some _ _ _ Hl) as Hlt.
  pose proof (bk_size g Hg) as Hsz. unfold max_buckets in Hsz.
  destruct (store_ok g id (Some b') Hg) as (bs & E & Hok & Hat); [lia|by intros c [= <-]|].
  unfold set_bucket. rewrite E. run. by eexists.
Qed.

(** ** Growing arrays *)

Lemma grown_longer {A} (l : list (option A)) n : Z.of_nat (length l) <= n ->
  grown l n = l ++ replicate (Z.to_nat n - length l) None /\ Z.of_nat (length (grown l n)) = n.
Proof.
  intros Hn. unfold grown. rewrite take_ge by lia. split; [done|]. rewrite length_app, length_replicate. lia.
Qed.

Lemma grown_lookup {A} (l : list (option A)) n i x : Z.of_nat (length l) <= n -> grown l n !! i = Some (Some x) <-> l !! i = Some (Some x).
Proof.
  intros Hn. destruct (grown_longer l n Hn) as [-> _]. split; intros H.
  - apply lookup_app_Some in H as [H|[_ H]]; [done|]. apply lookup_replicate in H as [H _]. done.
  - by apply lookup_app_l_Some.
Qed.

Lemma grown_bucket_at m n : Z.of_nat (length (buckets m)) <= n -> forall k, bucket_at (with_buckets m (grown (buckets m) n)) k = bucket_at m k.
Proof.
  intros Hn k. destruct (bucket_at m k) as [b| |] eqn:E.
  - apply bucket_at_lookup in E as [Hk E]. apply bucket_at_lookup. split; [done|]. by apply grown_lookup.
  - destruct (bucket_at (with_buckets m _) k) as [b| |] eqn:E2; [|done|].
    + apply bucket_at_lookup in E2 as [Hk E2]. apply grown_lookup in E2; [|done]. rewrite (proj2 (bucket_at_lookup m k b)) in E; done.
    + unfold bucket_at in E2. destruct (rd _ _) as [[]|]; done.
  - unfold bucket_at in E. destruct (rd _ _) as [[]|]; done.
Qed.

Lemma grown_ok g n : building_ok g -> size_buckets g <= n < 2 ^ 31 ->
  building_ok (mkbuilding (with_buckets (the_map g) (grown (buckets (the_map g)) n)) n (size_rules g) (straw_calc_version g)
    (allowed_bucket_algs g) (working_size g)).
Proof.
  intros [A B C D E F] Hn. unfold max_buckets in A. split; cbn; try done; [|lia|..].
  - unfold max_buckets. cbn. symmetry. apply grown_longer. lia.
  - intros i b Hi. apply grown_lookup in Hi; [|lia]. by apply C.
  - intros i b Hi. apply grown_lookup in Hi; [|lia]. by apply (D i).
Qed.

Lemma grow_buckets_ok pos : 0 <= pos < 2 ^ 30 -> forall fuel mm g, building_ok g ->
  pos < (if size_buckets g =? 0 then 4 else size_buckets g) * 2 ^ (Z.of_nat fuel - 1) -> (size_buckets g = 0 -> (1 < fuel)%nat) ->
  exists ok g' mm', grow_buckets fuel mm pos g = Done (ok, g', mm') /\ (memory mm -> ok = true) /\
    (ok = true -> building_ok g' /\ same_rest g g' /\ pos < size_buckets g' /\
       forall k, bucket_at (the_map g') k = bucket_at (the_map g) k).
Proof.
  intros Hpos. induction fuel as [|fuel IH]; intros mm g Hg Hb Hf0.
  { exfalso. pose proof (bk_size g Hg). unfold max_buckets in *. change (2 ^ (Z.of_nat 0 - 1)) with 0 in Hb. lia. }
  cbn [grow_buckets]. destruct (Z.leb_spec (size_buckets g) pos) as [Hle|Hgt].
  2: { exists true, g, mm. done. }
  set (s := if size_buckets g =? 0 then 4 else size_buckets g) in *. pose proof (bk_size g Hg) as Hsz. unfold max_buckets in Hsz.
  assert (En : (if size_buckets g =? 0 then 8 else s32 (size_buckets g * 2)) = 2 * s).
  { unfold s. destruct (Z.eqb_spec (size_buckets g) 0); [done|]. rewrite s32_small; lia. }
  assert (Hs : size_buckets g < 2 * s < 2 ^ 31) by (unfold s; destruct (Z.eqb_spec (size_buckets g) 0); lia).
  rewrite En. pose proof (memory_alloc mm) as Hm. destruct (alloc mm) as [ok0 mm']. rewrite (proj2 (Z.ltb_lt 0 (2 * s))), andb_true_r by lia. destruct ok0.
  - destruct (IH mm' _ (grown_ok g (2 * s) Hg ltac:(lia))) as (ok & g' & mm2 & -> & Hok & Hres).
    { cbn [size_buckets]. rewrite (proj2 (Z.eqb_neq (2 * s) 0)) by lia. replace (Z.of_nat (S fuel) - 1) with (Z.of_nat fuel - 1 + 1) in Hb by lia.
      destruct (decide (fuel = 0%nat)) as [->|Hf].
      - change (2 ^ (Z.of_nat 0 - 1 + 1)) with 1 in Hb. unfold s in Hb. destruct (Z.eqb_spec (size_buckets g) 0); lia.
      - rewrite pow2_succ in Hb by lia. lia. }
    { cbn [size_buckets]. lia. }
    exists ok, g', mm2. split; [done|]. split; [intros H; apply Hok, Hm, H|]. intros E. destruct (Hres E) as (H1 & H2 & H3 & H4).
    split; [done|]. split; [done|]. split; [done|]. intros k. rewrite H4. apply grown_bucket_at. lia.
  - exists false. do 2 eexists. split; [done|]. split; [|done]. intros H. destruct (Hm H). done.
Qed.

(** ** Adding and removing buckets *)

Lemma bind_done {A B} (a : A) (f : A -> outcome B) : (Done a ≫= f) = f a.
Proof. done. Qed.

Lemma first_null_ok {A} (l : list (option A)) n : forall i, 0 <= i -> i + Z.of_nat n = Z.of_nat (length l) ->
  exists p, first_null n i l = Done p /\ i <= p <= Z.of_nat (length l) /\ (p < Z.of_nat (length l) -> rd l p = Some None) /\
    forall k, i <= k < p -> exists x, rd l k = Some (Some x).
Proof.
  induction n as [|n IH]; intros i Hi Hl; cbn [first_null].
  - exists i. split; [done|]. split; [lia|]. split; [lia|]. lia.
  - destruct (rd_Some l i) as (o & E & _); [lia|]. rewrite E. run. destruct o as [x|].
    + destruct (IH (i + 1)) as (p & -> & Hp & Hn & Hk); [lia|lia|]. exists p. split; [done|]. split; [lia|]. split; [done|].
      intros k Hk'. destruct (decide (k = i)) as [->|]; [by exists x|]. apply Hk. lia.
    + exists i. split; [done|]. split; [lia|]. split; [done|]. lia.
Qed.

(** The bucket as the map holds it under an id. *)
Definition with_id (b : crush_bucket) (id : Z) : crush_bucket :=
  mkbucket id (b_type b) (b_hash b) (b_weight b) (b_size b) (b_items b) (b_body b).

(** The ids that can be used. *)
Definition free_id (g : building) (id : Z) : Prop := forall b, bucket_at (the_map g) id <> Done b.

(** A code, the id, and the map with the new bucket. *)
Definition added (mm : mem) (g : building) (id : Z) (b : crush_bucket) (r : outcome (Z * Z * building * mem)) : Prop :=
  exists code id' g' mm', r = Done (code, id', g', mm') /\ (memory mm -> code <> - ENOMEM) /\
    (code <> - ENOMEM -> building_ok g' /\ same_rest g g') /\
    ((code = 0 /\ free_id g id' /\ (id <> 0 -> id' = id) /\
        forall k, bucket_at (the_map g') k = if decide (k = id') then Done (with_id b id') else bucket_at (the_map g) k) \/
     (code = - EEXIST /\ id <> 0 /\ ~ free_id g id /\ forall k, bucket_at (the_map g') k = bucket_at (the_map g) k) \/
     code = - ENOMEM).

Lemma next_id_ok g : building_ok g -> exists id, crush_get_next_bucket_id g = Done id /\ free_id g id /\
  - 1 - size_buckets g <= id < 0 /\ forall k, id < k < 0 -> ~ free_id g k.
Proof.
  intros Hg. pose proof (bk_size g Hg) as Hs. unfold max_buckets in Hs. unfold crush_get_next_bucket_id.
  destruct (first_null_ok (buckets (the_map g)) (Z.to_nat (size_buckets g)) 0) as (p & -> & Hp & Hn & Hk); [lia|lia|]. run.
  exists (-1 - p). split; [done|]. split; [|split; [lia|]].
  - intros b Hb. unfold bucket_at in Hb. replace (-1 - (-1 - p)) with p in Hb by lia. destruct (decide (p < Z.of_nat (length (buckets (the_map g))))).
    + rewrite Hn in Hb by done. done.
    + rewrite rd_past in Hb by lia. done.
  - intros k Hk' Hf. destruct (Hk (-1 - k)) as [x Hx]; [lia|]. apply (Hf x). unfold bucket_at. by rewrite Hx.
Qed.

Lemma add_bucket_ok mm g id b : building_ok g -> shape b -> - 2 ^ 30 <= id <= 0 -> (id = 0 -> size_buckets g < 2 ^ 30) ->
  added mm g id b (crush_add_bucket mm g id b).
Proof.
  intros Hg Hs Hid Hroom. unfold crush_add_bucket. remember grow_fuel as fuel eqn:Ef.
  assert (Hid' : exists id', (if id =? 0 then crush_get_next_bucket_id g else Done id) = Done id' /\ - 2 ^ 30 <= id' < 0 /\
    (id <> 0 -> id' = id) /\ (id = 0 -> free_id g id')).
  { destruct (Z.eqb_spec id 0) as [H0|H0]; [|exists id; split; [done|]; split; [lia|done]].
    destruct (next_id_ok g Hg) as (id' & -> & Hf & Hb & _). specialize (Hroom H0). exists id'. split; [done|]. split; [lia|done]. }
  destruct Hid' as (id' & -> & Hb & Hsame & Hfree). rewrite bind_done. clear Hid Hroom.
  destruct (grow_buckets_ok (-1 - id') ltac:(lia) fuel mm g Hg) as (ok & g' & mm' & -> & Hok & Hres).
  { pose proof (bk_size g Hg). unfold max_buckets in *. assert (Ep : 2 ^ (Z.of_nat fuel - 1) = 2 ^ 31) by (by rewrite Ef). rewrite Ep.
    destruct (Z.eqb_spec (size_buckets g) 0); lia. }
  { unfold grow_fuel in Ef. lia. }
  run. destruct ok; cbn [negb].
  2: { exists (- ENOMEM), 0, g', mm'. split; [done|]. split; [intros H; by apply Hok in H|]. split; [done|]. by right; right. }
  destruct (Hres eq_refl) as (Hg' & Hr & Hpos & Hat). pose proof (bk_size g' Hg') as Hsz. unfold max_buckets in Hsz.
  destruct (rd_Some (buckets (the_map g')) (-1 - id')) as (o & Eo & Hl); [lia|]. rewrite Eo. run. destruct o as [c|].
  { exists (- EEXIST), 0, g', mm'. split; [done|]. split; [done|]. split; [done|]. right; left. split; [done|].
    assert (Hc : bucket_at (the_map g) id' = Done c) by (rewrite <- Hat; unfold bucket_at; by rewrite Eo).
    assert (Hne : id <> 0) by (intros H0; by apply (Hfree H0 c)). rewrite (Hsame Hne) in Hc. split; [done|]. split; [|done].
    intros Hf. by apply (Hf c). }
  assert (Hfr : free_id g id') by (intros c Hc; rewrite <- Hat in Hc; unfold bucket_at in Hc; by rewrite Eo in Hc).
  destruct (store_ok g' id' (Some (with_id b id')) Hg') as (bs & E & Hg2 & Hat2); [lia|by intros c [= <-]; destruct Hs|].
  unfold set_bucket. fold (with_id b id'). rewrite E. run. do 4 eexists. split; [done|]. split; [done|]. split; [done|].
  left. split; [done|]. split; [done|]. split; [done|]. intros k. cbn [the_map]. rewrite Hat2, Hat. done.
Qed.

Lemma remove_bucket_ok g id b : building_ok g -> bucket_at (the_map g) id = Done b ->
  exists g', crush_remove_bucket g id = Done g' /\ building_ok g' /\ same_rest g g' /\ free_id g' id /\
    forall k, k <> id -> bucket_at (the_map g') k = bucket_at (the_map g) k.
Proof.
  intros Hg Hb. apply bucket_at_lookup in Hb as [Hn Hl]. apply lookup_lt_Some in Hl. pose proof (bk_size g Hg) as Hsz. unfold max_buckets in Hsz.
  destruct (store_ok g id None Hg) as (bs & E & Hok & Hat); [lia|done|].
  unfold crush_remove_bucket. rewrite (proj2 (Z.ltb_lt _ _)) by lia. cbn [negb]. rewrite E. run. eexists. split; [done|].
  split; [done|]. split; [done|]. split.
  - intros c Hc. cbn [the_map] in Hc. rewrite Hat, decide_True in Hc by done. done.
  - intros k Hk. cbn [the_map]. by rewrite Hat, decide_False.
Qed.
