(* ===== verification/CrBuildReweight.v ===== *)
(** * Weights of a hierarchy (ceph/src/crush: builder.c)

    [crush_reweight_bucket] returns on every hierarchy without cycles, and
    makes the weight of each bucket below the given one the sum of what is in
    it.  The specification is an assignment of weights to buckets that
    satisfies the equations of the hierarchy. *)
From stdpp Require Import relations.
From S2P Require Import Prelude Doubles CrHash CrBucket CrMapper CrPerm CrChoose CrMap CrBuilder CrBuildOps CrBuildMap CrBuildArrays CrBuildStraw.
From S2P Require Import CrBuildTree CrBuildRefine CrBuildChange CrBuildRemove CrBuildAdjust CrBuildWf.

(** ** The weights that a hierarchy should have *)

Definition uniform (b : crush_bucket) : bool := if b_body b is Uniform _ then true else false.

Definition weight_at (b : crush_bucket) (i : nat) : Z := default 0 (get_weight b (Z.of_nat i)).

(** The weight of each item, when [W] has those of the buckets. *)
Definition parts (W : Z -> Z) (b : crush_bucket) : list Z :=
  imap (fun i item => if item <? 0 then W item else weight_at b i) (items_of b).

Definition kids (b : crush_bucket) : list Z := filter (fun item => item < 0) (items_of b).

(** A uniform bucket with more buckets than devices takes their average weight. *)
Definition uniform_weight (W : Z -> Z) (b : crush_bucket) (w : Z) : Z :=
  let n := Z.of_nat (length (kids b)) in
  if b_size b - n <? n then sumz (W <$> kids b) / n else w.

Definition bucket_sum (W : Z -> Z) (b : crush_bucket) : Z :=
  match b_body b with
  | Uniform w => uniform_weight W b w * b_size b
  | _ => sumz (parts W b)
  end.

Record weighing (m : crush_map) (W : Z -> Z) : Prop := {
  wg_sum : forall b id, bucket_at m id = Done b -> W id = bucket_sum W b;
  wg_range : forall b id, bucket_at m id = Done b -> 0 <= W id < 2 ^ 32;
  wg_kids : forall b id, bucket_at m id = Done b -> uniform b = true -> sumz (W <$> kids b) < 2 ^ 32 }.

(** ** What reweighting leaves alone *)

Record like (b b' : crush_bucket) : Prop := {
  lk_header : same_header b b';
  lk_size : b_size b' = b_size b;
  lk_items : b_items b' = b_items b;
  lk_shape : shape b';
  lk_parts : forall W, parts W b' = parts W b;
  lk_sum : forall W, bucket_sum W b' = bucket_sum W b }.

Lemma like_refl b : shape b -> like b b.
Proof. by split. Qed.

Lemma like_trans b c d : like b c -> like c d -> like b d.
Proof.
  intros [(A1 & A2 & A3 & A4) B C D E F] [(A1' & A2' & A3' & A4') B' C' D' E' F']. unfold same_header. split; try congruence.
  split; [congruence|]. split; [congruence|]. split; congruence.
Qed.

Lemma like_items b b' : like b b' -> items_of b' = items_of b.
Proof. intros H. unfold items_of. by rewrite (lk_size b b' H), (lk_items b b' H). Qed.

Lemma like_uniform b b' : shape b -> like b b' -> uniform b' = uniform b.
Proof.
  intros Hs H. destruct (lk_header b b' H) as (_ & _ & _ & Ha). unfold b_alg in Ha. unfold uniform.
  pose proof (sh_body b Hs). pose proof (sh_body b' (lk_shape b b' H)). destruct (b_body b), (b_body b'); cbn in *; done.
Qed.

Definition all_shape (m : crush_map) : Prop := forall k b, bucket_at m k = Done b -> shape b.

Record like_map (m m' : crush_map) : Prop := {
  lm_rest : exists bs, m' = with_buckets m bs;
  lm_length : length (buckets m') = length (buckets m);
  lm_at : forall k b, bucket_at m k = Done b -> exists b', bucket_at m' k = Done b' /\ like b b';
  lm_back : forall k b', bucket_at m' k = Done b' -> exists b, bucket_at m k = Done b }.

Lemma like_map_refl m : all_shape m -> like_map m m.
Proof. intros Hs. split; [by exists (buckets m); destruct m|done| |eauto]. intros k b Hb. exists b. split; [done|]. apply like_refl. by apply (Hs k). Qed.

Lemma like_map_trans m1 m2 m3 : like_map m1 m2 -> like_map m2 m3 -> like_map m1 m3.
Proof.
  intros [[bs1 ->] B C D] [[bs2 ->] B' C' D']. split; [by exists bs2|congruence|..].
  - intros k b Hb. destruct (C k b Hb) as (c & Hc & Hl). destruct (C' k c Hc) as (d & Hd & Hl'). exists d. split; [done|by eapply like_trans].
  - intros k b Hb. destruct (D' k b Hb) as (c & Hc). eauto.
Qed.

Lemma like_map_shape m m' : like_map m m' -> all_shape m'.
Proof.
  intros H k b Hb. destruct (lm_back m m' H k b Hb) as (c & Hc). destruct (lm_at m m' H k c Hc) as (b' & Hb' & Hl).
  rewrite Hb in Hb'. injection Hb' as ->. apply (lk_shape _ _ Hl).
Qed.

Lemma write_bucket m id b b' : all_shape m -> bucket_at m id = Done b -> like b b' ->
  exists m', set_bucket m id b' = Done m' /\ like_map m m' /\ forall k, bucket_at m' k = if decide (k = id) then Done b' else bucket_at m k.
Proof.
  intros Hs Hb Hl. pose proof (proj1 (bucket_at_lookup m id b) Hb) as [Hn Hlk]. pose proof (lookup_lt_Some _ _ _ Hlk) as Hlt.
  unfold set_bucket. rewrite wr_Some by lia. run. eexists. split; [done|].
  assert (Hat : forall k, bucket_at (with_buckets m (<[Z.to_nat (-1 - id):=Some b']> (buckets m))) k = if decide (k = id) then Done b' else bucket_at m k).
  { intros k. unfold bucket_at, rd. cbn. case_decide as Hk.
    - subst k. rewrite (proj2 (Z.leb_le 0 _)), list_lookup_insert_eq by lia. done.
    - destruct (Z.leb_spec 0 (-1 - k)); [|done]. rewrite list_lookup_insert_ne by lia. done. }
  split; [|done]. split; [eauto|cbn; by rewrite length_insert|..].
  - intros k c Hc. rewrite Hat. case_decide as Hk; [|exists c; split; [done|]; apply like_refl; by apply (Hs k)].
    subst k. exists b'. split; [done|]. by assert (c = b) as -> by congruence.
  - intros k c Hc. rewrite Hat in Hc. case_decide as Hk; [subst k; by exists b|eauto].
Qed.

(** ** The parts of a bucket *)

Lemma lookup_parts W b i item : items_of b !! i = Some item -> parts W b !! i = Some (if item <? 0 then W item else weight_at b i).
Proof. intros H. unfold parts. by rewrite list_lookup_imap, H. Qed.

Lemma parts_ext W b b' : items_of b' = items_of b ->
  (forall i item, items_of b !! i = Some item -> 0 <= item -> weight_at b' i = weight_at b i) -> parts W b' = parts W b.
Proof.
  intros Hi H. unfold parts. rewrite Hi. apply imap_ext. intros i item Hl. destruct (Z.ltb_spec item 0); [done|]. by apply (H i item).
Qed.

Lemma set_weight_like b w : shape b -> 0 <= w < 2 ^ 32 -> like b (set_weight b w).
Proof. intros [A B C D] Hw. by split. Qed.

(** The arrays of weights have a cell for each item. *)
Lemma get_weight_ok b i : shape b -> uniform b = false -> 0 <= i < b_size b -> exists w, get_weight b i = Some w /\ 0 <= w < 2 ^ 32.
Proof.
  intros Hs Hu Hi. pose proof (sh_body b Hs) as Hb. unfold get_weight, uniform in *. 
  assert (Hrd : forall iw, long (b_size b) iw -> exists w, rd iw i = Some w /\ 0 <= w < 2 ^ 32).
  { intros iw [Hl Hus]. destruct (rd_Some iw i) as (w & E & Hw); [lia|]. exists w. split; [done|]. exact (Forall_lookup_1 _ _ _ _ Hus Hw). }
  destruct (b_body b); cbn in *; try done; apply Hrd; tauto.
Qed.

Lemma put_weight_ok b i item w : shape b -> uniform b = false -> items_of b !! i = Some item -> item < 0 -> 0 <= w < 2 ^ 32 ->
  exists b', put_weight b (Z.of_nat i) w = Some b' /\ like b b' /\ b_weight b' = b_weight b /\
    get_weight b' (Z.of_nat i) = Some w /\ forall j, j <> Z.of_nat i -> get_weight b' j = get_weight b j.
Proof.
  intros Hs Hu Hi Hn Hw. assert (Hsz : Z.of_nat i < b_size b).
  { apply lookup_lt_Some in Hi. unfold items_of in Hi. rewrite length_take in Hi. pose proof (sh_size b Hs). lia. }
  pose proof (sh_body b Hs) as Hb.
  assert (Hset : forall body, body_shape (b_size b) body -> b_alg (set_body b body) = b_alg b -> uniform (set_body b body) = false ->
    get_weight (set_body b body) (Z.of_nat i) = Some w -> (forall j, j <> Z.of_nat i -> get_weight (set_body b body) j = get_weight b j) ->
    exists b', Some (set_body b body) = Some b' /\ like b b' /\ b_weight b' = b_weight b /\
      get_weight b' (Z.of_nat i) = Some w /\ forall j, j <> Z.of_nat i -> get_weight b' j = get_weight b j).
  { intros body Hbs Ha Hub Hgi Hgj. eexists. split; [done|]. split; [|done].
    assert (Hp : forall W, parts W (set_body b body) = parts W b).
    { intros W. apply parts_ext; [done|]. intros j it Hj Hit. unfold weight_at. rewrite Hgj; [done|]. intros E.
      assert (j = i) as -> by lia. rewrite Hi in Hj. injection Hj as ->. lia. }
    split; [split; [done|]; split; [done|]; by split|done|done| |done|].
    - destruct Hs. by split.
    - intros W. unfold bucket_sum. rewrite !Hp. unfold uniform in Hu, Hub. destruct (b_body b), (b_body (set_body b body)); done. }
  assert (Hwr : forall iw, long (b_size b) iw -> wr iw (Z.of_nat i) w = Some (<[i := w]> iw) /\ long (b_size b) (<[i := w]> iw) /\
    rd (<[i := w]> iw) (Z.of_nat i) = Some w /\ forall j, j <> Z.of_nat i -> rd (<[i := w]> iw) j = rd iw j).
  { intros iw [Hl Hus]. rewrite wr_Some by lia. rewrite Nat2Z.id. split; [done|]. split; [split; [by rewrite length_insert|by apply Forall_insert]|].
    split; [rewrite rd_lookup; apply list_lookup_insert_eq; lia|]. intros j Hj. unfold rd. destruct (Z.leb_spec 0 j); [|done].
    apply list_lookup_insert_ne. lia. }
  unfold put_weight, uniform in *. destruct (b_body b) as [|iw sw| |iw st|iw|] eqn:Eb; cbn in Hb; try done.
  - destruct (Hwr iw) as (-> & H1 & H2 & H3); [tauto|]. apply Hset; try done; [cbn; tauto|same_alg Eb|]. intros j Hj. unfold get_weight. rewrite Eb. by apply H3.
  - destruct (Hwr iw) as (-> & H1 & H2 & H3); [tauto|]. apply Hset; try done; [cbn; tauto|same_alg Eb|]. intros j Hj. unfold get_weight. rewrite Eb. by apply H3.
  - destruct (Hwr iw) as (-> & H1 & H2 & H3); [tauto|]. apply Hset; try done; [same_alg Eb|]. intros j Hj. unfold get_weight. rewrite Eb. by apply H3.
Qed.

(** ** The recursion *)

Section Reweighing.
Context (fresh : Z -> Z) (pow : double -> double -> double) (wild : double -> Z) (version : Z).
Context (m0 : crush_map) (rank : Z -> nat) (W : Z -> Z).
Context (Hshape : all_shape m0).
Context (Hitems : forall b id item, bucket_at m0 id = Done b -> item ∈ items_of b -> item < 0 -> exists c, bucket_at m0 item = Done c).
Context (Hrank : forall b id item, bucket_at m0 id = Done b -> item ∈ items_of b -> item < 0 -> (rank item < rank id)%nat).

Definition child_of (a c : Z) : Prop := exists b, bucket_at m0 a = Done b /\ c ∈ items_of b /\ c < 0.

(** The bucket and its items have the weights of [W]. *)
Definition settled (m : crush_map) (k : Z) : Prop := exists b, bucket_at m k = Done b /\ b_weight b = W k /\
  (uniform b = false -> forall i item, items_of b !! i = Some item -> item < 0 -> get_weight b (Z.of_nat i) = Some (W item)).

(** What a call for [id] does to the map. *)
Record reweighed (id : Z) (m m' : crush_map) : Prop := {
  rw_like : like_map m m';
  rw_above : forall k, (rank id < rank k)%nat -> bucket_at m' k = bucket_at m k;
  rw_settled : weighing m0 W -> forall k, rtc child_of id k -> settled m' k;
  rw_keep : weighing m0 W -> forall k, settled m k -> settled m' k }.

Definition returns_reweighed (child : Z -> crush_map -> mem -> outcome (crush_map * mem)) (id : Z) : Prop :=
  forall item m mm, child_of id item -> like_map m0 m -> exists m' mm', child item m mm = Done (m', mm') /\ reweighed item m m'.

(** *** The loop over the items of a list, straw or straw2 bucket *)

Section Loop.
Context (child : Z -> crush_map -> mem -> outcome (crush_map * mem)) (id : Z) (b0 : crush_bucket).
Context (Hchild : returns_reweighed child id) (Hb0 : bucket_at m0 id = Done b0) (Hu0 : uniform b0 = false).

(** The first [i] items are done. *)
Record items_done (i : nat) (m : crush_map) (b : crush_bucket) : Prop := {
  id_weight : b_weight b = sumz (take i (parts W b0));
  id_items : forall j item, (j < i)%nat -> items_of b0 !! j = Some item -> item < 0 -> get_weight b (Z.of_nat j) = Some (W item);
  id_settled : forall j item k, (j < i)%nat -> items_of b0 !! j = Some item -> item < 0 -> rtc child_of item k -> settled m k }.

Lemma settled_other m m' k b : (forall k, bucket_at m' k = if decide (k = id) then Done b else bucket_at m k) ->
  k <> id -> settled m k -> settled m' k.
Proof. intros Hat Hk (c & Hc & H). exists c. rewrite Hat, decide_False by done. done. Qed.

Lemma below_other item k : child_of id item -> rtc child_of item k -> k <> id.
Proof.
  intros Hc Hr ->. assert (Hlt : forall a c, rtc child_of a c -> (rank c <= rank a)%nat).
  { intros a c H. induction H as [|a d c (b & Hb & Hd & Hn) _ IH]; [done|]. pose proof (Hrank b a d Hb Hd Hn). lia. }
  apply Hlt in Hr. destruct Hc as (b & Hb & Hd & Hn). pose proof (Hrank b id item Hb Hd Hn). lia.
Qed.

Lemma parts_nonneg : weighing m0 W -> u32s (parts W b0).
Proof.
  intros Hw. apply Forall_lookup_2. intros i w Hi. unfold parts in Hi. rewrite list_lookup_imap in Hi.
  destruct (items_of b0 !! i) as [item|] eqn:E; [|done]. injection Hi as <-.
  destruct (Z.ltb_spec item 0).
  - destruct (Hitems b0 id item Hb0) as [c Hc]; [by eapply list_elem_of_lookup_2|done|]. by apply (wg_range m0 W Hw c).
  - unfold weight_at. pose proof (Hshape id b0 Hb0) as Hs. apply lookup_lt_Some in E. unfold items_of in E. rewrite length_take in E.
    pose proof (sh_size b0 Hs). destruct (get_weight_ok b0 (Z.of_nat i) Hs Hu0) as (w & -> & Hr); [lia|]. done.
Qed.

Lemma sumz_take_le (l : list Z) i x : u32s l -> l !! i = Some x -> 0 <= sumz (take i l) /\ sumz (take i l) + x <= sumz l.
Proof.
  intros Hu Hi. split; [by apply sumz_nonneg, Forall_take|]. rewrite <- (take_drop_middle l i x Hi) at 2. rewrite sumz_app. cbn.
  pose proof (sumz_nonneg (drop (S i) l) ltac:(by apply Forall_drop)). lia.
Qed.

(** The child of the item is reweighed and its weight stored. *)
Lemma item_step i item m mm b : like_map m0 m -> bucket_at m id = Done b -> items_of b0 !! i = Some item -> 
  exists m' mm' b',
    (if item <? 0 then
       '(m, mm) ← child item m mm;
       c ← bucket_at m item;
       b ← bucket_at m id;
       b ← need (put_weight b (Z.of_nat i) (b_weight c));
       m ← set_bucket m id b;
       Done (m, mm)
     else Done (m, mm)) = Done (m', mm') /\ like_map m m' /\ bucket_at m' id = Done b' /\ b_weight b' = b_weight b /\
    (forall k, (rank id < rank k)%nat -> bucket_at m' k = bucket_at m k) /\
    (forall j, (j <> i)%nat -> get_weight b' (Z.of_nat j) = get_weight b (Z.of_nat j)) /\
    (weighing m0 W -> get_weight b' (Z.of_nat i) = if item <? 0 then Some (W item) else get_weight b (Z.of_nat i)) /\
    (weighing m0 W -> item < 0 -> forall k, rtc child_of item k -> settled m' k) /\
    (weighing m0 W -> forall k, k <> id -> settled m k -> settled m' k).
Proof.
  intros Hm Hb Hi. destruct (Z.ltb_spec item 0) as [Hn|Hn].
  2: { exists m, mm, b. split; [done|]. split; [apply like_map_refl; by eapply like_map_shape|]. repeat split; try done. lia. }
  assert (Hc : child_of id item) by (exists b0; split; [done|]; split; [by eapply list_elem_of_lookup_2|done]).
  pose proof Hc as (b1 & Hb1 & Hin & _). pose proof (Hrank b1 id item Hb1 Hin Hn) as Hlt.
  destruct (Hchild item m mm Hc Hm) as (m1 & mm1 & -> & [Hl Ha Hst Hk]). run.
  destruct (Hitems b1 id item Hb1 Hin Hn) as (c0 & Hc0). destruct (lm_at _ _ (like_map_trans _ _ _ Hm Hl) item c0 Hc0) as (c & Ec & Lc).
  rewrite Ec. run. rewrite (Ha id Hlt), Hb. run.
  destruct (lm_at _ _ Hm id b0 Hb0) as (b' & Hb' & Lb). assert (b' = b) as -> by congruence.
  pose proof (sh_weight c (lk_shape _ _ Lc)) as Hcw.
  destruct (put_weight_ok b i item (b_weight c)) as (b2 & E2 & L2 & W2 & G2 & O2); try done.
  { apply (lk_shape _ _ Lb). } { rewrite (like_uniform b0 b); [done|by apply (Hshape id)|done]. } { by rewrite (like_items b0 b). }
  rewrite E2. run. destruct (write_bucket m1 id b b2) as (m2 & -> & L3 & At); [by eapply like_map_shape|by rewrite Ha|done|]. run.
  exists m2, mm1, b2. split; [done|]. split; [by eapply like_map_trans|]. split; [by rewrite At, decide_True|]. split; [done|].
  split; [intros k Hk'; rewrite At, decide_False by (intros ->; lia); apply Ha; lia|]. split; [intros j Hj; apply O2; lia|]. split; [|split].
  - intros Hw. rewrite G2. f_equal. destruct (Hst Hw item (rtc_refl _ _)) as (c' & Hc' & Hcw' & _). congruence.
  - intros Hw _ k Hk'. apply (settled_other m1 m2 k b2 At); [by apply (below_other item)|by apply Hst].
  - intros Hw k Hne Hset. apply (settled_other m1 m2 k b2 At); [done|by apply Hk].
Qed.

Lemma next_done i item m m1 m2 b b1 w : items_done i m b -> items_of b0 !! i = Some item -> parts W b0 !! i = Some w ->
  b_weight b1 = b_weight b -> (forall j, (j <> i)%nat -> get_weight b1 (Z.of_nat j) = get_weight b (Z.of_nat j)) ->
  get_weight b1 (Z.of_nat i) = (if item <? 0 then Some (W item) else get_weight b (Z.of_nat i)) ->
  (item < 0 -> forall k, rtc child_of item k -> settled m1 k) -> (forall k, k <> id -> settled m k -> settled m1 k) ->
  (forall k, bucket_at m2 k = if decide (k = id) then Done (set_weight b1 (b_weight b1 + w)) else bucket_at m1 k) ->
  items_done (S i) m2 (set_weight b1 (b_weight b1 + w)).
Proof.
  intros [H1 H2 H3] Hi Hp Hw1 Ho Hg Hs Hk At. split.
  - cbn. rewrite (take_S_r _ _ _ Hp), sumz_app, Hw1, H1. cbn. lia.
  - intros j it Hj Hit Hneg. change (get_weight (set_weight b1 (b_weight b1 + w)) (Z.of_nat j)) with (get_weight b1 (Z.of_nat j)).
    destruct (decide (j = i)) as [->|Hji].
    + rewrite Hi in Hit. injection Hit as <-. rewrite Hg. by rewrite (proj2 (Z.ltb_lt item 0)).
    + rewrite Ho by done. apply (H2 j); [lia|done|done].
  - intros j it k Hj Hit Hneg Hr.
    assert (Hc : child_of id it) by (exists b0; split; [done|]; split; [by eapply list_elem_of_lookup_2|done]).
    pose proof (below_other it k Hc Hr) as Hne. apply (settled_other m1 m2 k _ At Hne). destruct (decide (j = i)) as [->|Hji].
    + rewrite Hi in Hit. injection Hit as <-. by apply Hs.
    + apply Hk; [done|]. apply (H3 j it); [lia|done..].
Qed.

Lemma items_loop n : forall i m mm b, like_map m0 m -> bucket_at m id = Done b -> (i + n = length (items_of b0))%nat ->
  (weighing m0 W -> items_done i m b) ->
  exists ok m' mm' b', reweight_items child n (Z.of_nat i) id m mm = Done (ok, m', mm') /\ like_map m m' /\ bucket_at m' id = Done b' /\
    (forall k, (rank id < rank k)%nat -> bucket_at m' k = bucket_at m k) /\
    (weighing m0 W -> ok = true /\ items_done (length (items_of b0)) m' b' /\ forall k, k <> id -> settled m k -> settled m' k).
Proof.
  induction n as [|n IH]; intros i m mm b Hm Hb Hn Hdone; cbn [reweight_items].
  { exists true, m, mm, b. split; [done|]. split; [apply like_map_refl; by eapply like_map_shape|]. split; [done|]. split; [done|].
    intros Hw. split; [done|]. split; [|done]. replace (length (items_of b0)) with i by lia. by apply Hdone. }
  destruct (lookup_lt_is_Some_2 (items_of b0) i) as [item Hi]; [lia|].
  destruct (lm_at _ _ Hm id b0 Hb0) as (b' & Hb' & Lb). assert (b' = b) as -> by congruence. clear Hb'.
  rewrite Hb. run. assert (Er : rd (b_items b) (Z.of_nat i) = Some item).
  { rewrite rd_lookup, (lk_items _ _ Lb). unfold items_of in Hi. apply lookup_take_Some in Hi as [Hi _]. done. }
  rewrite Er. run. destruct (item_step i item m mm b Hm Hb Hi) as (m1 & mm1 & b1 & -> & L1 & Hb1 & Hw1 & Ha1 & Ho1 & Hg1 & Hs1 & Hk1). run.
  rewrite Hb1. run. pose proof (like_map_trans _ _ _ Hm L1) as L01.
  destruct (lm_at _ _ L01 id b0 Hb0) as (b1' & Hb1' & Lb1). assert (b1' = b1) as -> by congruence. clear Hb1'.
  pose proof (Hshape id b0 Hb0) as Hs0. assert (Hsz : Z.of_nat i < b_size b1).
  { rewrite (lk_size _ _ Lb1). apply lookup_lt_Some in Hi. unfold items_of in Hi. rewrite length_take in Hi. pose proof (sh_size b0 Hs0). lia. }
  destruct (get_weight_ok b1 (Z.of_nat i)) as (w & Ew & Hwr); [apply (lk_shape _ _ Lb1)|by rewrite (like_uniform b0 b1)|lia|]. rewrite Ew. run.
  (* the weight of the item is its part *)
  assert (Hpart : weighing m0 W -> parts W b0 !! i = Some w).
  { intros Hw. rewrite <- (lk_parts _ _ Lb1 W). rewrite (lookup_parts W b1 i item) by (by rewrite (like_items b0 b1)).
    unfold weight_at. rewrite Ew. specialize (Hg1 Hw). destruct (Z.ltb_spec item 0); [|done]. cbn in *. congruence. }
  assert (Hsum : weighing m0 W -> b_weight b1 = sumz (take i (parts W b0)) /\ b_weight b1 + w <= W id).
  { intros Hw. destruct (Hdone Hw) as [H1 _ _]. rewrite Hw1, H1. split; [done|]. rewrite (wg_sum m0 W Hw b0 id Hb0). unfold bucket_sum.
    destruct (sumz_take_le (parts W b0) i w (parts_nonneg Hw) (Hpart Hw)) as [_ H]. unfold uniform in Hu0. destruct (b_body b0); done. }
  destruct (crush_addition_is_unsafe (b_weight b1) w) eqn:Eo.
  { apply addition_unsafe in Eo. exists false, m1, mm1, b1. split; [done|]. split; [done|]. split; [done|]. split; [done|].
    intros Hw. exfalso. destruct (Hsum Hw). pose proof (wg_range m0 W Hw b0 id Hb0). lia. }
  apply addition_safe in Eo. pose proof (sh_weight b1 (lk_shape _ _ Lb1)) as Hwb. rewrite (u32_small (b_weight b1 + w)) by lia.
  destruct (write_bucket m1 id b1 (set_weight b1 (b_weight b1 + w))) as (m2 & -> & L2 & At2);
    [by eapply like_map_shape|done|apply set_weight_like; [apply (lk_shape _ _ Lb1)|lia]|]. run.
  replace (Z.of_nat i + 1) with (Z.of_nat (S i)) by lia.
  destruct (IH (S i) m2 mm1 (set_weight b1 (b_weight b1 + w))) as (ok & m3 & mm3 & b3 & -> & L3 & Hb3 & Ha3 & Hd3);
    [by eapply like_map_trans|by rewrite At2, decide_True|lia| |].
  { intros Hw. eapply (next_done i item m m1 m2 b b1 w); eauto. }
  exists ok, m3, mm3, b3. split; [done|]. split; [by eapply like_map_trans; [|eapply like_map_trans]|]. split; [done|]. split.
  - intros k Hk. rewrite Ha3, At2, decide_False by (done || intros ->; lia). by apply Ha1.
  - intros Hw. destruct (Hd3 Hw) as (-> & Hd & Hkeep). split; [done|]. split; [done|]. intros k Hne Hset.
    apply Hkeep; [done|]. apply (settled_other m1 m2 k _ At2 Hne). by apply Hk1.
Qed.

(** All items are done. *)
Lemma all_done m b : weighing m0 W -> like_map m0 m -> bucket_at m id = Done b -> items_done (length (items_of b0)) m b ->
  forall k, rtc child_of id k -> settled m k.
Proof.
  intros Hw Hm Hb [H1 H2 H3] k Hk. destruct (lm_at _ _ Hm id b0 Hb0) as (b' & Hb' & Lb). assert (b' = b) as -> by congruence.
  apply rtc_inv in Hk as [<-|(item & Hc & Hk)].
  - exists b. split; [done|]. split.
    + rewrite H1, take_ge by (unfold parts; rewrite length_imap; lia). rewrite (wg_sum m0 W Hw b0 id Hb0). unfold bucket_sum, uniform in *.
      destruct (b_body b0); done.
    + intros _ i item Hi Hn. rewrite (like_items b0 b Lb) in Hi. apply (H2 i); [by eapply lookup_lt_Some|done|done].
  - destruct Hc as (b1 & Hb1 & Hin & Hn). assert (b1 = b0) as -> by congruence. apply list_elem_of_lookup in Hin as [j Hj].
    apply (H3 j item); [by eapply lookup_lt_Some|done..].
Qed.

Lemma sum_bucket_ok m mm : like_map m0 m -> exists code m' mm', crush_reweight_sum_bucket child id m mm = Done (code, m', mm') /\
  reweighed id m m' /\ (weighing m0 W -> code = 0).
Proof.
  intros Hm. destruct (lm_at _ _ Hm id b0 Hb0) as (b & Hb & Lb). unfold crush_reweight_sum_bucket. rewrite Hb. run.
  pose proof (lk_shape _ _ Lb) as Hs. destruct (write_bucket m id b (set_weight b 0)) as (m1 & -> & L1 & At1);
    [by eapply like_map_shape|done|by apply set_weight_like|]. run.
  pose proof (sh_size b Hs) as Hsz. pose proof (sh_items b Hs) as Hil.
  assert (Hlen : Z.to_nat (b_size b) = length (items_of b0)).
  { rewrite <- (like_items b0 b Lb). unfold items_of. rewrite length_take. lia. }
  destruct (items_loop (Z.to_nat (b_size b)) 0 m1 mm (set_weight b 0)) as (ok & m2 & mm2 & b2 & E & L2 & Hb2 & Ha2 & Hd2);
    [by eapply like_map_trans|by rewrite At1, decide_True|lia|intros _; split; [done|lia..]|].
  change (Z.of_nat 0) with 0 in E. rewrite E. run. eexists _, m2, mm2. split; [done|].
  assert (L02 : like_map m0 m2) by (eapply like_map_trans; [|exact L2]; by eapply like_map_trans).
  split; [split|].
  - by eapply like_map_trans.
  - intros k Hk. rewrite Ha2, At1, decide_False by (done || intros ->; lia). done.
  - intros Hw. destruct (Hd2 Hw) as (_ & Hd & _). by apply (all_done m2 b2).
  - intros Hw k Hset. destruct (Hd2 Hw) as (_ & Hd & Hk). destruct (decide (k = id)) as [->|Hne].
    + apply (all_done m2 b2); [done..|apply rtc_refl].
    + apply Hk; [done|]. by apply (settled_other m m1 k _ At1).
  - intros Hw. by destruct (Hd2 Hw) as (-> & _).
Qed.
End Loop.

(** *** Straws *)

Lemma calc_straw_total n mm iw ss : long n iw -> long n ss -> 0 <= n ->
  exists r ss' mm', calc_straw fresh pow wild version mm n iw ss = Done (r, ss', mm') /\ long n ss'.
Proof.
  intros [Hl Hu] [Hl2 Hu2] Hn. destruct (alloc mm).1 eqn:Ea.
  - pose proof (calc_straw_at fresh pow wild version n mm (drop (Z.to_nat n) iw) ss (take (Z.to_nat n) iw)) as E. rewrite take_drop in E.
    rewrite length_take_le in E by lia. rewrite E by (done || lia). do 3 eexists. split; [done|].
    split; [rewrite length_app, length_straws_of, length_take, length_drop; lia|]. apply Forall_app. split; [apply straws_of_u32s|by apply Forall_drop].
  - rewrite calc_straw_failed by done. by do 3 eexists.
Qed.

Lemma set_straws_like b iw ss ss' : b_body b = Straw iw ss -> shape b -> long (b_size b) ss' -> like b (set_body b (Straw iw ss')).
Proof.
  intros Hb Hs Hl. assert (Hp : forall V, parts V (set_body b (Straw iw ss')) = parts V b).
  { intros V. apply parts_ext; [done|]. intros i item _ _. unfold weight_at, get_weight. cbn. by rewrite Hb. }
  split; try done.
  - split; [done|]. split; [done|]. split; [done|]. same_alg Hb.
  - pose proof (sh_body b Hs) as Hbs. rewrite Hb in Hbs. destruct Hs. split; try done. cbn in *. tauto.
  - intros V. unfold bucket_sum. cbn. by rewrite Hp, Hb.
Qed.

Lemma straw_bucket_ok child id b0 iw0 ss0 m mm : returns_reweighed child id -> bucket_at m0 id = Done b0 -> b_body b0 = Straw iw0 ss0 ->
  like_map m0 m -> exists code m' mm', crush_reweight_straw_bucket fresh pow wild version child id m mm = Done (code, m', mm') /\
    reweighed id m m' /\ (weighing m0 W -> code = 0).
Proof.
  intros Hchild Hb0 Hbody Hm. unfold crush_reweight_straw_bucket.
  destruct (sum_bucket_ok child id b0 Hchild Hb0 ltac:(unfold uniform; by rewrite Hbody) m mm Hm) as (code & m1 & mm1 & -> & [A B C D] & Hc). run.
  destruct (Z.ltb_spec code 0) as [Hneg|Hpos]; [by exists code, m1, mm1|].
  destruct (lm_at _ _ (like_map_trans _ _ _ Hm A) id b0 Hb0) as (b & Hb & Lb). rewrite Hb. run. pose proof (lk_shape _ _ Lb) as Hs.
  pose proof (sh_body b Hs) as Hbs. pose proof (sh_size b Hs). destruct (lk_header _ _ Lb) as (_ & _ & _ & Ha). unfold b_alg in Ha. rewrite Hbody in Ha.
  destruct (b_body b) as [| | |iw ss| |] eqn:Eb; cbn in Hbs, Ha; try done. rewrite s32_small by lia.
  destruct (calc_straw_total (b_size b) mm1 iw ss) as (r & ss' & mm2 & -> & Hl); [tauto|tauto|lia|]. run.
  destruct (write_bucket m1 id b (set_body b (Straw iw ss'))) as (m2 & -> & L2 & At2); [by eapply like_map_shape|done|by eapply set_straws_like|]. run.
  exists 0, m2, mm2. split; [done|]. split; [|done].
  assert (Hset : forall k, settled m1 k -> settled m2 k).
  { intros k (c & Hck & Hcw & Hci). unfold settled. rewrite At2. case_decide as Hk; [|by exists c]. subst k.
    assert (c = b) as -> by congruence. eexists. split; [done|]. split; [done|]. intros _ i item Hi Hn.
    rewrite <- (Hci ltac:(unfold uniform; by rewrite Eb) i item Hi Hn). unfold get_weight. cbn. by rewrite Eb. }
  split.
  - by eapply like_map_trans.
  - intros k Hk. rewrite At2, decide_False by (intros ->; lia). by apply B.
  - intros Hw k Hk. by apply Hset, C.
  - intros Hw k Hk. by apply Hset, D.
Qed.
(** *** Uniform buckets *)

Section Uniform.
Context (child : Z -> crush_map -> mem -> outcome (crush_map * mem)) (id : Z) (b0 : crush_bucket).
Context (Hchild : returns_reweighed child id) (Hb0 : bucket_at m0 id = Done b0).

(** The buckets among the first [i] items. *)
Definition first_kids (i : nat) : list Z := filter (fun item => item < 0) (take i (items_of b0)).

Lemma first_kids_S i item : items_of b0 !! i = Some item -> first_kids (S i) = first_kids i ++ (if decide (item < 0) then [item] else []).
Proof. intros Hi. unfold first_kids. rewrite (take_S_r _ _ _ Hi), filter_app. f_equal. Qed.

Lemma first_kids_sum i : weighing m0 W -> uniform b0 = true -> sumz (W <$> first_kids i) < 2 ^ 32.
Proof.
  intros Hw Hu. pose proof (wg_kids m0 W Hw b0 id Hb0 Hu) as Hk. unfold kids in Hk. rewrite <- (take_drop i (items_of b0)), filter_app, fmap_app, sumz_app in Hk.
  assert (0 <= sumz (W <$> filter (fun item => item < 0) (drop i (items_of b0)))); [|unfold first_kids; lia].
  apply sumz_nonneg, Forall_fmap, Forall_forall. intros item Hin. apply list_elem_of_filter in Hin as [Hn Hin].
  destruct (Hitems b0 id item Hb0) as [c Hc]; [rewrite <- (take_drop i (items_of b0)); apply elem_of_app; by right|done|]. by apply (wg_range m0 W Hw c).
Qed.

Lemma children_loop n : forall i m mm sum, like_map m0 m -> (i + n = length (items_of b0))%nat -> 0 <= sum < 2 ^ 32 ->
  (weighing m0 W -> sum = sumz (W <$> first_kids i) /\ forall item k, item ∈ first_kids i -> rtc child_of item k -> settled m k) ->
  exists ok sum' cnt leaves m' mm', reweight_children child n (Z.of_nat i) id sum (Z.of_nat (length (first_kids i)))
      (Z.of_nat i - Z.of_nat (length (first_kids i))) m mm = Done (ok, (sum', cnt, leaves), m', mm') /\
    like_map m m' /\ (forall k, (rank id <= rank k)%nat -> bucket_at m' k = bucket_at m k) /\
    (ok = true -> cnt = Z.of_nat (length (kids b0)) /\ leaves = Z.of_nat (length (items_of b0)) - cnt /\ 0 <= sum' < 2 ^ 32) /\
    (weighing m0 W -> uniform b0 = true -> ok = true /\ sum' = sumz (W <$> kids b0) /\
      (forall item k, item ∈ kids b0 -> rtc child_of item k -> settled m' k) /\ forall k, settled m k -> settled m' k).
Proof.
  induction n as [|n IH]; intros i m mm sum Hm Hn Hsum Hdone; cbn [reweight_children].
  { assert (Ek : first_kids i = kids b0) by (unfold first_kids, kids; by rewrite take_ge by lia). rewrite Ek in *.
    do 6 eexists. split; [done|]. split; [apply like_map_refl; by eapply like_map_shape|]. split; [done|].
    split; [intros _; split; [done|]; split; [lia|done]|]. intros Hw Hu. destruct (Hdone Hw). done. }
  destruct (lookup_lt_is_Some_2 (items_of b0) i) as [item Hi]; [lia|].
  destruct (lm_at _ _ Hm id b0 Hb0) as (b & Hb & Lb). rewrite Hb. run. assert (Er : rd (b_items b) (Z.of_nat i) = Some item).
  { rewrite rd_lookup, (lk_items _ _ Lb). unfold items_of in Hi. apply lookup_take_Some in Hi as [Hi _]. done. }
  rewrite Er. run. pose proof (first_kids_S i item Hi) as Ek. replace (Z.of_nat i + 1) with (Z.of_nat (S i)) by lia.
  destruct (Z.ltb_spec item 0) as [Hneg|Hpos].
  2: { rewrite decide_False, app_nil_r in Ek by lia. specialize (IH (S i) m mm sum Hm ltac:(lia) Hsum). rewrite Ek in IH.
       replace (Z.of_nat i - Z.of_nat (length (first_kids i)) + 1) with (Z.of_nat (S i) - Z.of_nat (length (first_kids i))) by lia. by apply IH. }
  rewrite decide_True in Ek by done.
  assert (Hc : child_of id item) by (exists b0; split; [done|]; split; [by eapply list_elem_of_lookup_2|done]).
  pose proof (Hrank b0 id item Hb0 ltac:(by eapply list_elem_of_lookup_2) Hneg) as Hlt.
  destruct (Hchild item m mm Hc Hm) as (m1 & mm1 & -> & [L1 Ha1 Hs1 Hk1]). run.
  destruct (Hitems b0 id item Hb0) as (c0 & Hc0); [by eapply list_elem_of_lookup_2|done|].
  pose proof (like_map_trans _ _ _ Hm L1) as L01. destruct (lm_at _ _ L01 item c0 Hc0) as (c & Ec & Lc). rewrite Ec. run.
  pose proof (sh_weight c (lk_shape _ _ Lc)) as Hcw.
  assert (Hcw' : weighing m0 W -> sum + b_weight c = sumz (W <$> first_kids (S i))).
  { intros Hw. destruct (Hdone Hw) as [-> _]. destruct (Hs1 Hw item (rtc_refl _ _)) as (c' & Hc' & Hcw' & _).
    assert (c' = c) as -> by congruence. rewrite Ek, fmap_app, sumz_app. cbn. lia. }
  destruct (crush_addition_is_unsafe sum (b_weight c)) eqn:Eo.
  { apply addition_unsafe in Eo. do 6 eexists. split; [done|]. split; [done|]. split; [intros k Hk; apply Ha1; lia|]. split; [done|].
    intros Hw Hu. exfalso. pose proof (first_kids_sum (S i) Hw Hu). specialize (Hcw' Hw). lia. }
  apply addition_safe in Eo. rewrite u32_small by lia.
  destruct (IH (S i) m1 mm1 (sum + b_weight c)) as (ok & sum' & cnt & leaves & m2 & mm2 & E & L2 & Ha2 & Hok & Hres); [done|lia|lia| |].
  { intros Hw. split; [by apply Hcw'|]. intros it k Hit Hr. rewrite Ek in Hit. apply elem_of_app in Hit as [Hit|Hit].
    - apply Hk1; [done|]. by apply (proj2 (Hdone Hw) it).
    - apply list_elem_of_singleton in Hit as ->. by apply Hs1. }
  rewrite Ek, length_app in E. cbn [length] in E.
  replace (Z.of_nat (length (first_kids i) + 1)) with (Z.of_nat (length (first_kids i)) + 1) in E by lia.
  replace (Z.of_nat (S i) - (Z.of_nat (length (first_kids i)) + 1)) with (Z.of_nat i - Z.of_nat (length (first_kids i))) in E by lia.
  rewrite E. exists ok, sum', cnt, leaves, m2, mm2. split; [done|]. split; [by eapply like_map_trans|].
  split; [intros k Hk; rewrite Ha2 by done; apply Ha1; lia|]. split; [done|]. intros Hw Hu. destruct (Hres Hw Hu) as (H1 & H2 & H3 & H4).
  split; [done|]. split; [done|]. split; [done|]. intros k Hk. by apply H4, Hk1.
Qed.

Lemma uniform_like b w w' : b_body b = Uniform w -> shape b -> 0 <= w' < 2 ^ 32 ->
  ((b_size b - Z.of_nat (length (kids b)) <? Z.of_nat (length (kids b))) = false -> w' = w) ->
  like b (updated b (u32 (w' * b_size b)) (b_size b) (b_items b) (Uniform w')).
Proof.
  intros Hb Hs Hw Hsame. split; try done.
  - split; [done|]. split; [done|]. split; [done|]. same_alg Hb.
  - destruct Hs. split; try done. apply u32_range.
  - intros V. apply parts_ext; [done|]. intros i item _ _. unfold weight_at, get_weight. cbn. by rewrite Hb.
  - intros V. unfold bucket_sum. cbn [b_body updated b_size]. rewrite Hb. unfold uniform_weight.
    change (kids (updated b (u32 (w' * b_size b)) (b_size b) (b_items b) (Uniform w'))) with (kids b). cbn [b_size updated].
    destruct (_ <? _); [done|]. by rewrite Hsame.
Qed.

Lemma uniform_bucket_ok w0 m mm : b_body b0 = Uniform w0 -> like_map m0 m ->
  exists code m' mm', crush_reweight_uniform_bucket child id m mm = Done (code, m', mm') /\ reweighed id m m' /\ (weighing m0 W -> code = 0).
Proof.
  intros Hbody Hm. assert (Hu : uniform b0 = true) by (unfold uniform; by rewrite Hbody). destruct (lm_at _ _ Hm id b0 Hb0) as (b & Hb & Lb).
  pose proof (lk_shape _ _ Lb) as Hs. pose proof (sh_size b Hs) as Hsz. pose proof (sh_items b Hs) as Hil.
  assert (Hlen : Z.of_nat (length (items_of b0)) = b_size b) by (rewrite <- (like_items b0 b Lb); unfold items_of; rewrite length_take; lia).
  unfold crush_reweight_uniform_bucket. rewrite Hb. run.
  destruct (children_loop (Z.to_nat (b_size b)) 0 m mm 0) as (ok & sum & cnt & leaves & m1 & mm1 & E & L1 & Ha1 & Hok & Hres);
    [done|lia|lia|intros _; split; [done|]; intros item k H; by apply elem_of_nil in H|].
  change (Z.of_nat (length (first_kids 0))) with 0 in E. change (Z.of_nat 0 - 0) with 0 in E. change (Z.of_nat 0) with 0 in E. rewrite E. run.
  destruct ok; cbn [negb].
  2: { exists (- ERANGE), m1, mm1. split; [done|]. split; [split|]; [done|intros k Hk; apply Ha1; lia|..]; intros Hw; by destruct (Hres Hw Hu). }
  destruct (Hok eq_refl) as (-> & -> & Hsum). rewrite (Ha1 id), Hb by lia. run.
  assert (Ek : kids b = kids b0) by (unfold kids; by rewrite (like_items b0 b Lb)).
  destruct (lk_header _ _ Lb) as (_ & _ & _ & Ha). unfold b_alg in Ha. rewrite Hbody in Ha. pose proof (sh_body b Hs) as Hbs.
  destruct (b_body b) as [w| | | | |] eqn:Eb; cbn in Hbs, Ha; try done. rewrite Hlen, <- Ek.
  set (n := Z.of_nat (length (kids b))) in *. set (w' := if b_size b - n <? n then sum / n else w).
  assert (Hw' : 0 <= w' < 2 ^ 32).
  { unfold w'. destruct (Z.ltb_spec (b_size b - n) n); [|done]. assert (0 < n) by lia.
    split; [apply Z.div_pos; lia|]. apply Z.div_lt_upper_bound; nia. }
  pose proof (uniform_like b w w' Eb Hs Hw') as Hlike. fold n in Hlike. specialize (Hlike ltac:(unfold w'; intros H; by rewrite H)).
  destruct (write_bucket m1 id b _ ltac:(by eapply like_map_shape) ltac:(rewrite Ha1; [done|lia]) Hlike) as (m2 & -> & L2 & At2). run.
  exists 0, m2, mm1. split; [done|]. split; [|done].
  assert (Hset : weighing m0 W -> settled m2 id).
  { intros Hw. destruct (Hres Hw Hu) as (_ & Hsum' & _ & _). eexists. rewrite At2, decide_True by done. split; [done|]. split; [|done].
    rewrite (wg_sum m0 W Hw b0 id Hb0), <- (lk_sum _ _ Lb W). pose proof (wg_range m0 W Hw b0 id Hb0) as Hrange. rewrite (wg_sum m0 W Hw b0 id Hb0), <- (lk_sum _ _ Lb W) in Hrange.
    unfold bucket_sum in *. rewrite Eb in *. unfold uniform_weight in *. fold n in Hrange |- *. cbn. unfold w'. rewrite Hsum', <- Ek. by apply u32_small. }
  split.
  - by eapply like_map_trans.
  - intros k Hk. rewrite At2, decide_False by (intros ->; lia). apply Ha1. lia.
  - intros Hw k Hk. apply rtc_inv in Hk as [<-|(item & Hc & Hk)]; [by apply Hset|].
    apply (settled_other id m1 m2 k _ At2); [by apply (below_other id item)|]. destruct (Hres Hw Hu) as (_ & _ & H3 & _).
    destruct Hc as (b1 & Hb1 & Hin & Hn). assert (b1 = b0) as -> by congruence. apply (H3 item); [by apply list_elem_of_filter|done].
  - intros Hw k Hk. destruct (decide (k = id)) as [->|Hne]; [by apply Hset|]. apply (settled_other id m1 m2 k _ At2 Hne).
    destruct (Hres Hw Hu) as (_ & _ & _ & H4). by apply H4.
Qed.
End Uniform.

Lemma reweight_ok fuel : forall id b0 m mm, (rank id < fuel)%nat -> bucket_at m0 id = Done b0 -> like_map m0 m ->
  exists code m' mm', crush_reweight_bucket fresh pow wild fuel version id m mm = Done (code, m', mm') /\
    reweighed id m m' /\ (weighing m0 W -> code = 0).
Proof.
  induction fuel as [|fuel IH]; intros id b0 m mm Hr Hb0 Hm; [lia|]. cbn [crush_reweight_bucket].
  set (child := fun item m mm => _). assert (Hchild : returns_reweighed child id).
  { intros item m1 mm1 (b & Hb & Hin & Hn) Hm1. pose proof (Hrank b id item Hb Hin Hn). destruct (Hitems b id item Hb Hin Hn) as [c Hc].
    unfold child. destruct (IH item c m1 mm1 ltac:(lia) Hc Hm1) as (code & m' & mm' & -> & Hrw & _). run. by exists m', mm'. }
  destruct (lm_at _ _ Hm id b0 Hb0) as (b & Hb & Lb). rewrite Hb. run. pose proof (like_uniform b0 b (Hshape id b0 Hb0) Lb) as Hu.
  destruct (lk_header _ _ Lb) as (_ & _ & _ & Ha). pose proof (sh_body b (lk_shape _ _ Lb)) as Hbs. pose proof (sh_body b0 (Hshape id b0 Hb0)) as Hbs0.
  unfold b_alg in Ha. unfold uniform in Hu. destruct (b_body b0) eqn:E0, (b_body b) eqn:Eb; cbn in Hbs, Hbs0, Ha, Hu; try done.
  - by eapply (uniform_bucket_ok child id b0 Hchild Hb0).
  - apply (sum_bucket_ok child id b0 Hchild Hb0); [unfold uniform; by rewrite E0|done].
  - by eapply straw_bucket_ok.
  - apply (sum_bucket_ok child id b0 Hchild Hb0); [unfold uniform; by rewrite E0|done].
Qed.
End Reweighing.

(** ** The weights exist *)

Lemma bucket_sum_ext V V' b : (forall item, item ∈ items_of b -> item < 0 -> V item = V' item) -> bucket_sum V b = bucket_sum V' b.
Proof.
  intros H. assert (Hp : parts V b = parts V' b).
  { unfold parts. apply imap_ext. intros i item Hi. destruct (Z.ltb_spec item 0); [|done]. apply H; [by eapply list_elem_of_lookup_2|done]. }
  assert (Hk : V <$> kids b = V' <$> kids b).
  { apply list_fmap_ext. intros i item Hi. apply list_elem_of_lookup_2 in Hi. unfold kids in Hi. apply list_elem_of_filter in Hi as [Hn Hi]. auto. }
  unfold bucket_sum. rewrite Hp. destruct (b_body b); try done. unfold uniform_weight. by rewrite Hk.
Qed.

(** The weight of a bucket, from the weights of the devices below it. *)
Fixpoint weight_below (m : crush_map) (fuel : nat) (id : Z) : Z :=
  match fuel with
  | O => 0
  | S fuel => if bucket_at m id is Done b then bucket_sum (weight_below m fuel) b else 0
  end.

Definition hierarchy_weight (m : crush_map) (id : Z) : Z := weight_below m (S (length (buckets m))) id.

Section Hierarchy.
Context (m : crush_map) (rank : Z -> nat) (Hshape : all_shape m).
Context (Hrank : forall b id item, bucket_at m id = Done b -> item ∈ items_of b -> item < 0 -> (rank item < rank id)%nat).
Context (Hbound : forall b id, bucket_at m id = Done b -> (rank id <= length (buckets m))%nat).

Lemma weight_below_enough f : forall g id, (rank id < f)%nat -> (rank id < g)%nat -> weight_below m f id = weight_below m g id.
Proof.
  induction f as [|f IH]; intros g id Hf Hg; [lia|]. destruct g as [|g]; [lia|]. cbn. destruct (bucket_at m id) as [b| |] eqn:Eb; [|done..].
  apply bucket_sum_ext. intros item Hi Hn. pose proof (Hrank b id item Eb Hi Hn). apply IH; lia.
Qed.

Lemma hierarchy_weight_sum b id : bucket_at m id = Done b -> hierarchy_weight m id = bucket_sum (hierarchy_weight m) b.
Proof.
  intros Hb. unfold hierarchy_weight at 1. cbn [weight_below]. rewrite Hb. apply bucket_sum_ext. intros item Hi Hn.
  pose proof (Hrank b id item Hb Hi Hn). pose proof (Hbound b id Hb). apply weight_below_enough; lia.
Qed.

Lemma weight_below_nonneg f id : 0 <= weight_below m f id.
Proof.
  revert id. induction f as [|f IH]; intros id; [done|]. cbn. destruct (bucket_at m id) as [b| |] eqn:Eb; [|done..].
  assert (Hp : 0 <= sumz (parts (weight_below m f) b)).
  2: { unfold bucket_sum. pose proof (Hshape id b Eb) as Hs. pose proof (sh_body b Hs) as Hbs. pose proof (sh_size b Hs) as Hsz. destruct (b_body b) as [w| | | | |]; try done.
       apply Z.mul_nonneg_nonneg; [|lia]. unfold uniform_weight. destruct (_ <? _); [|apply Hbs]. apply Z_div_nonneg_nonneg; [|lia].
       clear -IH. induction (kids b) as [|k ks IHk]; cbn; [done|]. pose proof (IH k). lia. }
  assert (Hall : Forall (fun x => 0 <= x) (parts (weight_below m f) b)).
  { apply Forall_lookup_2. intros i x Hx. unfold parts in Hx. rewrite list_lookup_imap in Hx. destruct (items_of b !! i) as [item|] eqn:Ei; [|done].
    injection Hx as <-. destruct (item <? 0); [apply IH|]. unfold weight_at. destruct (uniform b) eqn:Eu.
    - unfold get_weight, uniform in *. by destruct (b_body b).
    - pose proof (Hshape id b Eb) as Hs. apply lookup_lt_Some in Ei. unfold items_of in Ei. rewrite length_take in Ei. pose proof (sh_size b Hs).
      destruct (get_weight_ok b (Z.of_nat i) Hs Eu) as (w & -> & Hw); [lia|]. cbn. lia. }
  induction Hall; cbn; lia.
Qed.

(** No sum exceeds 32 bits. *)
Definition sums_fit : Prop := forall b id, bucket_at m id = Done b -> hierarchy_weight m id < 2 ^ 32 /\
  (uniform b = true -> sumz (hierarchy_weight m <$> kids b) < 2 ^ 32).

Lemma hierarchy_weighing : sums_fit -> weighing m (hierarchy_weight m).
Proof.
  intros Hf. split.
  - intros b id Hb. by apply hierarchy_weight_sum.
  - intros b id Hb. split; [apply weight_below_nonneg|by apply (Hf b)].
  - intros b id Hb Hu. by apply (Hf b id).
Qed.
End Hierarchy.
