(* ===== verification/CrBuildSteps.v ===== *)
(** * Building a map (ceph/src/crush: builder.c, crush.c)

    The operations of the builder as steps on a map, what they keep, and how a
    finished map meets what the mapper and its working area rely on. *)
From stdpp Require Import relations.
From S2P Require Import Prelude Doubles CrHash CrBucket CrMapper CrPerm CrChoose CrMap CrRule CrClaims CrBuilder CrBuildOps CrBuildMap.
From S2P Require Import CrBuildArrays CrBuildStraw CrBuildTree CrBuildRefine CrBuildChange CrBuildRemove CrBuildAdjust CrBuildWf CrBuildReweight.

(** ** Rules *)

(** The rule is stored under its number, the others stay. *)
Definition rule_added (mm : mem) (g : building) (rule : crush_rule) (ruleno : Z) (r : outcome (Z * building * mem)) : Prop :=
  exists code g' mm', r = Done (code, g', mm') /\ (memory mm -> code <> - ENOMEM) /\
    (code = - ENOMEM \/ building_ok g' /\ buckets (the_map g') = buckets (the_map g) /\ size_buckets g' = size_buckets g /\
      straw_calc_version g' = straw_calc_version g /\ 0 <= code < CRUSH_MAX_RULES /\ (0 <= ruleno -> code = ruleno) /\
      (ruleno < 0 -> forall steps, rd (rules (the_map g)) code <> Some (Some steps)) /\
      forall k steps, rd (rules (the_map g')) k = Some (Some steps) <->
        (k = code /\ steps = r_steps rule) \/ (k <> code /\ rd (rules (the_map g)) k = Some (Some steps))).

Lemma rules_ok g rs n : building_ok g -> n = Z.of_nat (length rs) -> n <= CRUSH_MAX_RULES ->
  building_ok (mkbuilding (with_rules (the_map g) rs) (size_buckets g) n (straw_calc_version g) (allowed_bucket_algs g) (working_size g)).
Proof. intros [A B C D E F] Hn Hm. by split. Qed.

Lemma rd_grown {A} (l : list (option A)) n k x : Z.of_nat (length l) <= n -> rd (grown l n) k = Some (Some x) <-> rd l k = Some (Some x).
Proof. intros Hn. unfold rd. destruct (0 <=? k); [|done]. by apply grown_lookup. Qed.

(** The number under which the rule is stored. *)
Lemma rule_slot g ruleno : building_ok g -> ruleno < CRUSH_MAX_RULES ->
  (ruleno < 0 -> size_rules g < CRUSH_MAX_RULES \/ exists k, rd (rules (the_map g)) k = Some None) ->
  exists r, (if ruleno <? 0 then first_null (Z.to_nat (size_rules g)) 0 (rules (the_map g)) else Done (u32 ruleno)) = Done r /\
    0 <= r < CRUSH_MAX_RULES /\ (0 <= ruleno -> r = ruleno) /\ (ruleno < 0 -> forall steps, rd (rules (the_map g)) r <> Some (Some steps)).
Proof.
  intros Hg Hmax Hroom. pose proof (bk_rules g Hg) as Hsz. unfold max_rules in Hsz. pose proof (bk_count g Hg) as Hcnt.
  change CRUSH_MAX_RULES with 256 in *. destruct (Z.ltb_spec ruleno 0) as [Hn|Hn].
  - destruct (first_null_ok (rules (the_map g)) (Z.to_nat (size_rules g)) 0) as (p & -> & Hp & Hnull & Hfull); [lia|lia|].
    exists p. split; [done|]. split; [|split; [lia|]].
    + split; [lia|]. destruct (Hroom Hn) as [H|[k Hk]]; [lia|]. destruct (decide (k < p)) as [Hlt|Hge].
      * destruct (Hfull k) as [x Hx]; [|congruence]. unfold rd in Hk. destruct (Z.leb_spec 0 k); [lia|done].
      * assert (k < Z.of_nat (length (rules (the_map g)))); [|lia]. unfold rd in Hk. destruct (0 <=? k); [|done]. apply lookup_lt_Some in Hk. lia.
    + intros _ steps Hs. destruct (decide (p < Z.of_nat (length (rules (the_map g))))); [rewrite Hnull in Hs by done; done|].
      rewrite rd_past in Hs by lia. done.
  - exists ruleno. rewrite u32_small by lia. split; [done|]. split; [lia|]. split; [done|lia].
Qed.

Lemma add_rule_ok mm g rule ruleno : building_ok g -> ruleno < CRUSH_MAX_RULES ->
  (ruleno < 0 -> size_rules g < CRUSH_MAX_RULES \/ exists k, rd (rules (the_map g)) k = Some None) ->
  rule_added mm g rule ruleno (crush_add_rule mm g rule ruleno).
Proof.
  intros Hg Hmax Hroom. pose proof (bk_rules g Hg) as Hsz. unfold max_rules in Hsz. pose proof (bk_count g Hg) as Hcnt.
  destruct (rule_slot g ruleno Hg Hmax Hroom) as (r & E & Hr & Hsame & Hfree). unfold crush_add_rule. rewrite E, bind_done. clear E.
  change CRUSH_MAX_RULES with 256 in *.
  rewrite (proj2 (Z.ltb_lt r 256)), andb_false_r, (s32_small r) by lia.
  assert (Hstore : forall rs n mm', n = Z.of_nat (length rs) -> r < n -> n <= 256 ->
    (forall k steps, rd rs k = Some (Some steps) <-> rd (rules (the_map g)) k = Some (Some steps)) -> 
    rule_added mm g rule ruleno (rs ← need (wr rs r (Some (r_steps rule)));
      Done (r, mkbuilding (with_rules (the_map g) rs) (size_buckets g) n (straw_calc_version g) (allowed_bucket_algs g) (working_size g), mm'))).
  { intros rs n mm' Hn Hrn Hn2 Hrs. destruct (wr_spec rs r (Some (r_steps rule))) as (rs' & -> & Hl & Hrd); [lia|]. run. do 3 eexists. split; [done|].
    split; [unfold ENOMEM; lia|]. right. split; [apply rules_ok; [done|lia|done]|]. do 3 (split; [done|]). split; [done|]. split; [done|]. split; [done|].
    intros k steps. cbn. rewrite Hrd. case_decide as Hk.
    - subst k. split; [intros [= <-]; by left|]. intros [[_ ->]|[]]; done.
    - rewrite Hrs. tauto. }
  destruct (Z.leb_spec (size_rules g) r) as [Hle|Hgt].
  - rewrite (u32_small (size_rules g + 1)), (u32_small (r + 1)) by lia. rewrite (proj2 (Z.ltb_ge 256 _)) by lia.
    pose proof (memory_alloc mm) as Hm. destruct (alloc mm) as [[|] mm'].
    + apply (Hstore (grown (rules (the_map g)) (r + 1)) (r + 1) mm'); [symmetry; apply grown_longer; lia|lia|lia|]. intros k steps. apply rd_grown. lia.
    + do 3 eexists. split; [done|]. split; [intros H; by destruct (Hm H)|]. by left.
  - destruct g as [m sb sr v al ws]. apply (Hstore (rules m) sr mm); cbn in *; [done|lia|lia|done].
Qed.

(** ** Finishing a map *)

(** The items of the buckets of a list. *)
Definition has_item (bs : list (option crush_bucket)) (item : Z) : Prop := exists b, Some b ∈ bs /\ item ∈ items_of b.

Lemma scan_items_ok b bound max : shape b -> (forall item, item ∈ items_of b -> item < bound) -> 0 <= max <= bound -> bound < 2 ^ 31 ->
  exists max', scan_items (Z.to_nat (b_size b)) (b_items b) max = Some max' /\ max <= max' <= bound /\
    (forall item, item ∈ items_of b -> item < max') /\ (max' = max \/ exists item, item ∈ items_of b /\ max' = item + 1).
Proof.
  intros Hs Hitems Hmax Hbound. pose proof (sh_size b Hs). pose proof (sh_items b Hs).
  assert (Hin : forall i item, (i < Z.to_nat (b_size b))%nat -> b_items b !! i = Some item -> item ∈ items_of b).
  { intros i item Hi E. apply list_elem_of_lookup. exists i. unfold items_of. by rewrite lookup_take_lt. }
  unfold scan_items. loop_inv (fun i v => max <= v <= bound /\ (forall j item, (Z.of_nat j < i) -> b_items b !! j = Some item -> item < v) /\
    (v = max \/ exists item, item ∈ items_of b /\ v = item + 1)) Hinv.
  destruct Hinv as (max' & -> & Hb & Hall & Hwhich).
  - split; [lia|]. split; [lia|by left].
  - intros i v Hi (Hv & Hall & Hwhich). destruct (rd_Some (b_items b) i) as (item & -> & E); [lia|]. run. cbn. eexists. split; [done|].
    assert (Hit : item ∈ items_of b) by (apply (Hin (Z.to_nat i)); [lia|done]). pose proof (Hitems item Hit).
    destruct (Z.leb_spec v item) as [Hle|Hgt].
    + rewrite s32_small by lia. split; [lia|]. split; [|right; by exists item]. intros j x Hj Ex.
      destruct (decide (Z.of_nat j = i)) as [<-|]; [rewrite Nat2Z.id in E; assert (x = item) by congruence; lia|]. specialize (Hall j x ltac:(lia) Ex). lia.
    + split; [lia|]. split; [|done]. intros j x Hj Ex.
      destruct (decide (Z.of_nat j = i)) as [<-|]; [rewrite Nat2Z.id in E; assert (x = item) by congruence; lia|]. by apply (Hall j x ltac:(lia)).
  - exists max'. split; [done|]. split; [done|]. split; [|done]. intros item Hi. apply list_elem_of_lookup in Hi as [j Hj]. unfold items_of in Hj.
    apply lookup_take_Some in Hj as [Hj Hlt]. apply (Hall j); [lia|done].
Qed.

Lemma workspace_end_le bs point : (forall b, Some b ∈ bs -> 0 <= b_size b) -> point <= workspace_end bs point.
Proof.
  revert point. induction bs as [|[b|] bs IH]; intros point Hs; cbn; [lia|..].
  - assert (0 <= b_size b) by (apply Hs; left). etransitivity; [|apply IH; intros c Hc; apply Hs; by right]. unfold sizeof_crush_work_bucket, sizeof_u32. lia.
  - apply IH. intros c Hc. apply Hs. by right.
Qed.

Lemma scan_buckets_ok bound : bound < 2 ^ 31 -> forall bs max size, (forall b, Some b ∈ bs -> shape b) -> (forall item, has_item bs item -> item < bound) ->
  0 <= max <= bound -> 0 <= size -> workspace_end bs size < 2 ^ 64 ->
  exists max', scan_buckets bs max size = Done (max', workspace_end bs size) /\ max <= max' <= bound /\
    (forall item, has_item bs item -> item < max') /\ (max' = max \/ exists item, has_item bs item /\ max' = item + 1).
Proof.
  intros Hbound. induction bs as [|o bs IH]; intros max size Hs Hi Hmax Hsize Hend.
  { exists max. split; [done|]. split; [lia|]. split; [|by left]. intros item (b & Hb & _). by apply elem_of_nil in Hb. }
  assert (Hs' : forall b, Some b ∈ bs -> shape b) by (intros b Hb; apply Hs; by right).
  assert (Hi' : forall item, has_item bs item -> item < bound) by (intros item (b & Hb & Hin); apply Hi; exists b; split; [by right|done]).
  destruct o as [b|]; cbn [scan_buckets workspace_end] in *.
  2: { destruct (IH max size Hs' Hi' Hmax Hsize Hend) as (max' & E & Hb & Hall & Hw). exists max'. split; [done|]. split; [done|]. split.
       - intros item (b & Hb' & Hin). apply elem_of_cons in Hb' as [|Hb']; [done|]. apply Hall. by exists b.
       - destruct Hw as [|(item & (b & Hb' & Hin) & ->)]; [by left|right]. exists item. split; [|done]. exists b. split; [by right|done]. }
  assert (Hb : shape b) by (apply Hs; left). pose proof (sh_size b Hb) as Hsz.
  destruct (scan_items_ok b bound max Hb) as (max1 & -> & H1 & H2 & H3); [|done|done|].
  { intros item Hin. apply Hi. exists b. split; [left|done]. }
  run. unfold sizeof_crush_work_bucket, sizeof_u32 in *.
  pose proof (workspace_end_le bs (size + 16 + b_size b * 4) ltac:(intros c Hc; apply (sh_size c (Hs' c Hc)))) as Hle.
  assert (Eu : u64 (u64 (size + 16) + b_size b * 4) = size + 16 + b_size b * 4) by (unfold u64; rewrite (Z.mod_small (size + 16)) by lia; apply Z.mod_small; lia). rewrite Eu.
  destruct (IH max1 (size + 16 + b_size b * 4) Hs' Hi' ltac:(lia) ltac:(lia) Hend) as (max' & -> & H4 & H5 & H6).
  exists max'. split; [done|]. split; [lia|]. split.
  - intros item (c & Hc & Hin). apply elem_of_cons in Hc as [[= ->]|Hc]; [specialize (H2 item Hin); lia|]. apply H5. by exists c.
  - destruct H6 as [->|(item & (c & Hc & Hin) & ->)].
    + destruct H3 as [->|(item & Hin & ->)]; [by left|right]. exists item. split; [|done]. exists b. split; [left|done].
    + right. exists item. split; [|done]. exists c. split; [by right|done].
Qed.

Lemma finalize_ok g bound : building_ok g -> (forall item, has_item (buckets (the_map g)) item -> item < bound) -> 0 <= bound < 2 ^ 31 ->
  workspace_end (buckets (the_map g)) (sizeof_crush_work + size_buckets g * sizeof_pointer) < 2 ^ 64 ->
  exists g', crush_finalize g = Done g' /\ building_ok g' /\ the_map g' = with_devices (the_map g) (max_devices (the_map g')) /\
    init_workspace_ok g' = true /\ 0 <= max_devices (the_map g') <= bound /\
    (forall item, has_item (buckets (the_map g)) item -> item < max_devices (the_map g')) /\
    (max_devices (the_map g') = 0 \/ exists item, has_item (buckets (the_map g)) item /\ max_devices (the_map g') = item + 1).
Proof.
  intros Hg Hi Hb Hend. pose proof (bk_size g Hg) as Hsz. pose proof (bk_bound g Hg) as Hbd. unfold max_buckets in Hsz.
  unfold crush_finalize, max_buckets. rewrite (proj2 (Z.leb_le _ _)) by lia. cbn [negb]. rewrite take_ge by lia.
  assert (Eu : u64 (sizeof_crush_work + size_buckets g * sizeof_pointer) = sizeof_crush_work + size_buckets g * sizeof_pointer).
  { unfold u64, sizeof_crush_work, sizeof_pointer. apply Z.mod_small. lia. }
  rewrite Eu. destruct (scan_buckets_ok bound ltac:(lia) (buckets (the_map g)) 0 (sizeof_crush_work + size_buckets g * sizeof_pointer))
    as (max & -> & H1 & H2 & H3); [|done|lia|unfold sizeof_crush_work, sizeof_pointer; lia|done|].
  { intros b Hbin. apply list_elem_of_lookup in Hbin as [i Hbin]. by apply (bk_shape g Hg i). }
  run. eexists. split; [done|]. split; [by destruct Hg; split|]. split; [done|]. split; [|done].
  unfold init_workspace_ok. cbn. rewrite take_ge by lia. apply Z.eqb_refl.
Qed.

(** ** Steps *)

Section Steps.
Context (fresh : Z -> Z) (pow : double -> double -> double) (wild : double -> Z).

(** A call of the builder on a map.  Not every call is a step: what is left out is
    what the caller has to see to, because the code does not keep its arrays then.
    New buckets are no trees ([tree_grows_uninitialised], [tree_of_65_items]) and
    are made of arrays of their size that [can_make] allows; an array of the map
    that could not grow ends the construction, since its recorded size has
    changed already; items are removed from straw and straw2 buckets only
    ([remove_reads_past_end]); only hierarchies without cycles are reweighted; and
    rules have numbers below CRUSH_MAX_RULES ([rule_beyond_max]). *)
Inductive build_step (g : building) : building -> Prop :=
  | step_optimal : build_step g (set_optimal_crush_map g)
  | step_legacy : build_step g (set_legacy_crush_map g)
  | step_add_bucket mm mm1 mm2 alg hash type size items weights b id code id' g' :
      0 <= size < 2 ^ 31 -> size <= Z.of_nat (length items) -> size <= Z.of_nat (length weights) ->
      can_make size items weights alg -> alg <> CRUSH_BUCKET_TREE ->
      crush_make_bucket fresh pow wild (straw_calc_version g) mm alg hash type size items (Some weights) = Done (Some b, mm1) ->
      - 2 ^ 30 <= id <= 0 -> (id = 0 -> size_buckets g < 2 ^ 30) ->
      crush_add_bucket mm1 g id b = Done (code, id', g', mm2) -> code <> - ENOMEM -> build_step g g'
  | step_remove_bucket id b g' :
      bucket_at (the_map g) id = Done b -> crush_remove_bucket g id = Done g' -> build_step g g'
  | step_add_item mm id b item weight code b' mm' m' :
      bucket_at (the_map g) id = Done b -> b_size b + 1 < 2 ^ 31 ->
      crush_bucket_add_item fresh pow wild (straw_calc_version g) mm b item weight = Done (code, b', mm') ->
      set_bucket (the_map g) id b' = Done m' -> build_step g (with_map g m')
  | step_remove_item mm id b item code b' mm' m' :
      bucket_at (the_map g) id = Done b -> b_alg b = CRUSH_BUCKET_STRAW \/ b_alg b = CRUSH_BUCKET_STRAW2 ->
      crush_bucket_remove_item fresh pow wild (straw_calc_version g) mm b item = Done (code, b', mm') ->
      set_bucket (the_map g) id b' = Done m' -> build_step g (with_map g m')
  | step_adjust_weight mm id b item weight code b' mm' m' :
      bucket_at (the_map g) id = Done b ->
      crush_bucket_adjust_item_weight fresh pow wild (straw_calc_version g) mm b item weight = Done (code, b', mm') ->
      set_bucket (the_map g) id b' = Done m' -> build_step g (with_map g m')
  | step_reweight mm id b rank fuel code m' mm' :
      bucket_at (the_map g) id = Done b ->
      (forall b id item, bucket_at (the_map g) id = Done b -> item ∈ items_of b -> item < 0 ->
         (exists c, bucket_at (the_map g) item = Done c) /\ (rank item < rank id)%nat) ->
      (rank id < fuel)%nat ->
      crush_reweight_bucket fresh pow wild fuel (straw_calc_version g) id (the_map g) mm = Done (code, m', mm') ->
      build_step g (with_map g m')
  | step_add_rule mm rule ruleno code g' mm' :
      ruleno < CRUSH_MAX_RULES ->
      (ruleno < 0 -> size_rules g < CRUSH_MAX_RULES \/ exists k, rd (rules (the_map g)) k = Some None) ->
      crush_add_rule mm g rule ruleno = Done (code, g', mm') -> code <> - ENOMEM -> build_step g g'
  | step_finalize g' : crush_finalize g = Done g' -> build_step g g'.

(** The maps that calls lead to. *)
Definition built (g : building) : Prop := exists mm g0 mm', crush_create mm = (Some g0, mm') /\ rtc build_step g0 g.

Lemma step_changed g id b b' m' : building_ok g -> bucket_at (the_map g) id = Done b -> shape b' -> same_header b b' ->
  set_bucket (the_map g) id b' = Done m' -> building_ok (with_map g m').
Proof.
  intros Hg Hb Hs (Hid & _) E. destruct (bucket_ok_at g id b Hg Hb) as [_ Hid'].
  destruct (set_bucket_ok g id b b' Hg Hb Hs ltac:(congruence)) as (m2 & E2 & Hok & _). congruence.
Qed.

Lemma adjust_shape mm version b item weight code b' mm' : shape b ->
  crush_bucket_adjust_item_weight fresh pow wild version mm b item weight = Done (code, b', mm') -> shape b' /\ same_header b b'.
Proof.
  intros Hs E. destruct (decide (b_alg b = CRUSH_BUCKET_UNIFORM)) as [Ha|Ha].
  - unfold crush_bucket_adjust_item_weight in E. pose proof (sh_body b Hs) as Hbs. unfold b_alg in Ha.
    destruct (b_body b) as [w| | | | |] eqn:Hb; cbn in Hbs, Ha; try done. unfold crush_adjust_uniform_bucket_item_weight in E. injection E as <- <- <-.
    split; [destruct Hs; split; cbn; try done; apply u32_range|]. split; [done|]. split; [done|]. split; [done|]. same_alg Hb.
  - destruct (adjust_item_ok fresh pow wild version mm b item weight Hs Ha) as (c & b2 & m2 & E2 & Hs2 & Hh & _). rewrite E in E2.
    injection E2 as -> -> ->. done.
Qed.

Lemma adjust_returns mm version b item weight : shape b ->
  exists r, crush_bucket_adjust_item_weight fresh pow wild version mm b item weight = Done r.
Proof.
  intros Hs. destruct (decide (b_alg b = CRUSH_BUCKET_UNIFORM)) as [Ha|Ha].
  - unfold crush_bucket_adjust_item_weight. pose proof (sh_body b Hs) as Hbs. unfold b_alg in Ha.
    destruct (b_body b) as [w| | | | |] eqn:Hb; cbn in Hbs, Ha; try done. by eexists.
  - destruct (adjust_item_ok fresh pow wild version mm b item weight Hs Ha) as (c & b2 & m2 & E2 & _). by eexists.
Qed.

Lemma like_building g m' : building_ok g -> like_map (the_map g) m' -> building_ok (with_map g m').
Proof.
  intros Hg Hl. destruct (lm_rest _ _ Hl) as [bs Ebs].
  assert (Hat : forall i c, buckets m' !! i = Some (Some c) -> exists b, buckets (the_map g) !! i = Some (Some b) /\ like b c).
  { intros i c Hc. assert (Hc' : bucket_at m' (-1 - Z.of_nat i) = Done c).
    { apply bucket_at_lookup. split; [lia|]. by replace (Z.to_nat (-1 - (-1 - Z.of_nat i))) with i by lia. }
    destruct (lm_back _ _ Hl _ _ Hc') as [b Hb]. destruct (lm_at _ _ Hl _ _ Hb) as (c' & Hc'' & Lc). assert (c' = c) as -> by congruence.
    exists b. split; [|done]. apply bucket_at_lookup in Hb as [_ Hb]. by replace (Z.to_nat (-1 - (-1 - Z.of_nat i))) with i in Hb by lia. }
  pose proof (lm_length _ _ Hl) as Hlen. destruct Hg as [A B C D E F]. split; cbn; try done.
  - unfold max_buckets in *. congruence.
  - intros i c Hc. destruct (Hat i c Hc) as (b & Hb & Lb). destruct (lk_header _ _ Lb) as [-> _]. by apply C.
  - intros i c Hc. destruct (Hat i c Hc) as (b & Hb & Lb). apply (lk_shape _ _ Lb).
  - unfold max_rules in *. rewrite Ebs. done.
Qed.

Lemma building_shape g : building_ok g -> all_shape (the_map g).
Proof. intros Hg k b Hb. by apply (bucket_ok_at g k b Hg). Qed.

Lemma finalize_keeps g g' : building_ok g -> crush_finalize g = Done g' -> building_ok g'.
Proof.
  intros Hg E. unfold crush_finalize in E. destruct (negb _); [done|]. destruct (scan_buckets _ _ _) as [[max size]| |]; cbn in E; try done.
  injection E as <-. by destruct Hg; split.
Qed.

Lemma step_keeps g g' : building_ok g -> build_step g g' -> building_ok g'.
Proof.
  intros Hg Hstep. destruct Hstep as [| |mm mm1 mm2 alg hash type size items weights b id code id' g' Hs Hi Hw Hc Ht Hmake Hid Hroom Hadd Hcode
    |id b g' Hb E|mm id b item weight code b' mm' m' Hb Hs E Eset|mm id b item code b' mm' m' Hb Ha E Eset
    |mm id b item weight code b' mm' m' Hb E Eset|mm id b rank fuel code m' mm' Hb Hr Hf E|mm rule ruleno code g' mm' Hn Hroom E Hcode|g' E].
  - by destruct Hg; split.
  - by destruct Hg; split.
  - destruct (make_bucket_ok fresh pow wild (straw_calc_version g) hash type size items weights Hs Hi Hw mm alg Hc) as (o & m' & E & _ & Hmade).
    rewrite Hmake in E. injection E as <- <-. destruct (Hmade b eq_refl) as (_ & _ & _ & Hshape).
    destruct (add_bucket_ok mm1 g id b Hg (Hshape Ht) Hid Hroom) as (c2 & id2 & g2 & mm3 & E & _ & Hok & _). rewrite Hadd in E.
    injection E as -> -> -> ->. by apply Hok.
  - destruct (remove_bucket_ok g id b Hg Hb) as (g2 & E2 & Hok & _). congruence.
  - destruct (bucket_ok_at g id b Hg Hb) as [Hsh _]. destruct (add_item_ok fresh pow wild (straw_calc_version g) mm b item weight Hsh Hs)
      as (c2 & b2 & m2 & E2 & Hs2 & Hh & _). rewrite E in E2. injection E2 as -> -> ->. by apply (step_changed g id b b2).
  - destruct (bucket_ok_at g id b Hg Hb) as [Hsh _]. destruct (remove_item_ok fresh pow wild (straw_calc_version g) mm b item Hsh Ha)
      as (c2 & b2 & m2 & E2 & Hs2 & Hh & _). rewrite E in E2. injection E2 as -> -> ->. by apply (step_changed g id b b2).
  - destruct (bucket_ok_at g id b Hg Hb) as [Hsh _]. destruct (adjust_shape _ _ _ _ _ _ _ _ Hsh E) as [Hs2 Hh]. by apply (step_changed g id b b').
  - destruct (reweight_ok fresh pow wild (straw_calc_version g) (the_map g) rank (hierarchy_weight (the_map g)) (building_shape g Hg)
      ltac:(intros; by eapply Hr) ltac:(intros; by eapply Hr) fuel id b (the_map g) mm Hf Hb (like_map_refl _ (building_shape g Hg)))
      as (c2 & m2 & mm2 & E2 & Hrw & _). rewrite E in E2. injection E2 as -> -> ->. apply like_building; [done|apply Hrw].
  - destruct (add_rule_ok mm g rule ruleno Hg Hn Hroom) as (c2 & g2 & mm2 & E2 & _ & Hor). rewrite E in E2. injection E2 as -> -> ->.
    destruct Hor as [|[Hok _]]; done.
  - by apply (finalize_keeps g).
Qed.

Lemma built_ok g : built g -> building_ok g.
Proof.
  intros (mm & g0 & mm' & E & Hr). assert (H0 : building_ok g0).
  { unfold crush_create in E. destruct (alloc mm) as [[|] m1]; [|done]. injection E as <- _. by split. }
  clear E. induction Hr as [|g1 g2 g3 Hs _ IH]; [done|]. apply IH. by apply (step_keeps g1).
Qed.

(** ** Finished maps *)

(** What the caller of the builder has to see to: no bucket has type 0, the
    buckets that are items exist, none contains itself, and the rules and
    tunables are ones that the mapper supports. *)
Record complete (m : crush_map) (rank : Z -> nat) : Prop := {
  cp_types : forall b id, bucket_at m id = Done b -> 0 < b_type b;
  cp_items : forall b id item, bucket_at m id = Done b -> item ∈ items_of b -> item < 0 -> exists c, bucket_at m item = Done c;
  cp_rank : forall b id item, bucket_at m id = Done b -> item ∈ items_of b -> item < 0 -> (rank item < rank id)%nat;
  cp_bound : forall b id, bucket_at m id = Done b -> (rank id <= length (buckets m))%nat;
  cp_devices : forall item, has_item (buckets m) item -> item < CRUSH_ITEM_UNDEF;
  cp_tunables : tunables_ok m;
  cp_rules : forall i steps, rd (rules m) i = Some (Some steps) -> Forall step_ok steps }.

Lemma in_map_at m b : in_map m b -> exists id, bucket_at m id = Done b.
Proof. intros Hb. by exists (b_id b). Qed.

Lemma complete_usable g g' rank : building_ok g -> complete (the_map g) rank -> crush_finalize g = Done g' ->
  workspace_end (buckets (the_map g)) (sizeof_crush_work + size_buckets g * sizeof_pointer) < 2 ^ 64 -> crushmap_ok (the_map g').
Proof.
  intros Hg [C1 C2 C3 C4 C5 C6 C7] E Hend.
  destruct (finalize_ok g CRUSH_ITEM_UNDEF Hg C5 ltac:(unfold CRUSH_ITEM_UNDEF; lia) Hend) as (g2 & E2 & Hg2 & Hm & _ & Hdev & _).
  rewrite E in E2. injection E2 as <-. pose proof (bk_rules g Hg) as Hru. pose proof (bk_count g Hg) as Hcnt. rewrite Hm.
  split; [|by destruct C6; split|done|unfold max_rules in *; change CRUSH_MAX_RULES with 256 in *; cbn; lia].
  split; cbn; [apply (bk_ids g Hg)| | | |lia].
  - intros b Hb. change (in_map (the_map g) b) in Hb. split; [|by apply (C1 b (b_id b))].
    apply shape_ok. by apply (bucket_ok_at g (b_id b) b Hg).
  - intros b item Hb. by apply (C2 b (b_id b)).
  - exists rank. intros b Hb. split; [by apply (C4 b)|]. intros item. by apply (C3 b (b_id b)).
Qed.
End Steps.
