(* ===== verification/CrBuildArgs.v ===== *)
(** * Replacement weights (ceph/src/crush: builder.c)

    The entries that [crush_make_choose_args] makes hold the weights and the
    ids of the buckets themselves: no mapping changes. *)
From S2P Require Import Prelude CrHash CrBucket CrMapper CrPerm CrChoose CrMap CrBuilder CrBuildOps CrBuildMap CrBuildArrays CrBuildStraw.
From S2P Require Import CrBuildTree CrBuildRefine CrBuildChange CrBuildRemove CrBuildAdjust CrBuildWf.

Lemma bind_ext {A B} (r : outcome A) (f g : A -> outcome B) : (forall a, r = Done a -> f a = g a) -> (r ≫= f) = (r ≫= g).
Proof. intros H. destruct r as [a| |]; [|done..]. by apply H. Qed.

Lemma bind_same {A B} (r1 r2 : outcome A) (f : A -> outcome B) : r1 = r2 -> (r1 ≫= f) = (r2 ≫= f).
Proof. by intros ->. Qed.

(** ** Mappings with equal choices *)

Section Same.
Context (m : crush_map) (weight : list Z) (x : Z) (a1 a2 : option (list crush_choose_arg)).
Context (Hat : forall item b, bucket_at m item = Done b -> in_map m b).
Context (Hsame : forall fallback b r outpos s, in_map m b -> 0 <= outpos ->
           choose_in x a1 fallback b r outpos s = choose_in x a2 fallback b r outpos s).

Section Firstn.
Context (bucket : crush_bucket) (type tries local_retries local_fallback_retries : Z) (recurse_to_leaf : bool) (vary_r parent_r : Z).
Context (leaf1 leaf2 : crush_bucket -> list Z -> Z -> Z -> Z -> state -> outcome (Z * list Z * state)).
Context (Hb : in_map m bucket).
Context (Hleaf : forall b out2 outpos count sub_r s, in_map m b -> 0 <= outpos -> leaf1 b out2 outpos count sub_r s = leaf2 b out2 outpos count sub_r s).

Lemma try_leaf_same item r outpos count out2 s : 0 <= outpos ->
  try_leaf m vary_r leaf1 item r outpos count out2 s = try_leaf m vary_r leaf2 item r outpos count out2 s.
Proof.
  intros Hp. unfold try_leaf. destruct (item <? 0); [|done]. destruct (32 <=? vary_r - 1); [done|].
  apply bind_ext. intros b E. by rewrite Hleaf by (by apply (Hat item) || done).
Qed.

Lemma try_replica_same fuel : forall rep outpos count out in_ ftotal flocal out2 s, in_map m in_ -> 0 <= outpos ->
  try_replica m weight x a1 bucket type tries local_retries local_fallback_retries recurse_to_leaf vary_r parent_r leaf1 fuel rep outpos count out in_ ftotal flocal out2 s =
  try_replica m weight x a2 bucket type tries local_retries local_fallback_retries recurse_to_leaf vary_r parent_r leaf2 fuel rep outpos count out in_ ftotal flocal out2 s.
Proof.
  induction fuel as [|fuel IH]; intros rep outpos count out in_ ftotal flocal out2 s Hin Hp; cbn [try_replica]; [done|].
  assert (Hfail : forall collide out2 s, after_failure bucket tries local_retries local_fallback_retries collide in_ ftotal flocal
      (fun in_ ftotal flocal => try_replica m weight x a1 bucket type tries local_retries local_fallback_retries recurse_to_leaf vary_r parent_r leaf1 fuel rep outpos count out in_ ftotal flocal out2 s)
      (Done (None, out2, s)) = after_failure bucket tries local_retries local_fallback_retries collide in_ ftotal flocal
      (fun in_ ftotal flocal => try_replica m weight x a2 bucket type tries local_retries local_fallback_retries recurse_to_leaf vary_r parent_r leaf2 fuel rep outpos count out in_ ftotal flocal out2 s)
      (Done (None, out2, s))).
  { intros collide o2 s2. unfold after_failure. by rewrite !IH. }
  destruct (b_size in_ =? 0); [apply Hfail|]. rewrite Hsame by done. apply bind_ext. intros [item s2] _.
  destruct (max_devices m <=? item); [done|]. apply bind_ext. intros itemtype _. destruct (negb (itemtype =? type)).
  - destruct (_ || _); [done|]. apply bind_ext. intros c Ec. apply IH; [by apply (Hat item)|done].
  - rewrite (try_leaf_same item) by done. apply bind_ext. intros [[reject o2] s3] _. apply bind_ext. intros rj _.
    destruct (rj || _); [apply Hfail|done].
Qed.

Lemma firstn_loop_same n : forall rep outpos count out out2 s, 0 <= outpos ->
  firstn_loop m weight x a1 bucket type tries local_retries local_fallback_retries recurse_to_leaf vary_r parent_r leaf1 n rep outpos count out out2 s =
  firstn_loop m weight x a2 bucket type tries local_retries local_fallback_retries recurse_to_leaf vary_r parent_r leaf2 n rep outpos count out out2 s.
Proof.
  induction n as [|n IH]; intros rep outpos count out out2 s Hp; cbn [firstn_loop]; [done|]. destruct (negb _); [done|].
  rewrite try_replica_same by done. apply bind_ext. intros [[[[item ftotal]|] o2] s2] _; [|by apply IH].
  apply bind_ext. intros o _. apply bind_ext. intros s3 _. apply IH. lia.
Qed.
End Firstn.

Lemma choose_firstn_same bucket numrep type out outpos out_size tries recurse_tries local_retries local_fallback_retries recurse_to_leaf vary_r stable out2 parent_r s :
  in_map m bucket -> 0 <= outpos ->
  crush_choose_firstn m weight x a1 bucket numrep type out outpos out_size tries recurse_tries local_retries local_fallback_retries recurse_to_leaf vary_r stable out2 parent_r s =
  crush_choose_firstn m weight x a2 bucket numrep type out outpos out_size tries recurse_tries local_retries local_fallback_retries recurse_to_leaf vary_r stable out2 parent_r s.
Proof.
  intros Hb Hp. unfold crush_choose_firstn. apply firstn_loop_same; [done| |done]. intros b o2 op count sub_r s2 Hin Hop.
  unfold choose_firstn_leaf. apply bind_same. by apply firstn_loop_same.
Qed.

Section Indep.
Context (bucket : crush_bucket) (numrep type outpos endpos : Z) (recurse_to_leaf : bool) (parent_r : Z).
Context (leaf1 leaf2 : crush_bucket -> option (list Z) -> Z -> Z -> state -> outcome (option (list Z) * state)).
Context (Hb : in_map m bucket) (Hp : 0 <= outpos).
Context (Hleaf : forall b out2 rep r s, in_map m b -> 0 <= rep -> leaf1 b out2 rep r s = leaf2 b out2 rep r s).

Lemma try_position_same fuel : forall rep ftotal in_ left out out2 s, in_map m in_ -> 0 <= rep ->
  try_position m weight x a1 numrep type outpos endpos recurse_to_leaf parent_r leaf1 fuel rep ftotal in_ left out out2 s =
  try_position m weight x a2 numrep type outpos endpos recurse_to_leaf parent_r leaf2 fuel rep ftotal in_ left out out2 s.
Proof.
  induction fuel as [|fuel IH]; intros rep ftotal in_ left out out2 s Hin Hr; cbn [try_position]; [done|].
  destruct (numrep =? 0); [done|]. destruct (b_size in_ =? 0); [done|]. rewrite Hsame by done. apply bind_ext. intros [item s2] _.
  destruct (max_devices m <=? item); [done|]. apply bind_ext. intros itemtype _. destruct (negb (itemtype =? type)).
  - destruct (_ || _); [done|]. apply bind_ext. intros c Ec. apply IH; [by apply (Hat item)|done].
  - destruct (existsb _ _); [done|]. apply bind_same. destruct recurse_to_leaf; [|done]. unfold indep_leaf. destruct (item <? 0); [|done].
    apply bind_ext. intros c Ec. by rewrite Hleaf by (by apply (Hat item) || done).
Qed.

Lemma indep_pass_same n : forall rep ftotal left out out2 s, 0 <= rep ->
  indep_pass m weight x a1 bucket numrep type outpos endpos recurse_to_leaf parent_r leaf1 n rep ftotal left out out2 s =
  indep_pass m weight x a2 bucket numrep type outpos endpos recurse_to_leaf parent_r leaf2 n rep ftotal left out out2 s.
Proof.
  induction n as [|n IH]; intros rep ftotal left out out2 s Hr; cbn [indep_pass]; [done|]. apply bind_ext. intros v _.
  destruct (negb _); [apply IH; lia|]. rewrite try_position_same by done. apply bind_ext. intros [[[lf o] o2] s2] _. apply IH. lia.
Qed.

Lemma indep_body_same tries left out out2 s :
  indep_body m weight x a1 bucket numrep type outpos endpos recurse_to_leaf parent_r leaf1 tries left out out2 s =
  indep_body m weight x a2 bucket numrep type outpos endpos recurse_to_leaf parent_r leaf2 tries left out out2 s.
Proof.
  unfold indep_body. apply bind_ext. intros [o o2] _. apply bind_same. generalize (Z.to_nat tries) 0 left o o2 s. clear left out out2 s o o2.
  induction n as [|n IH]; intros ftotal left out out2 s; cbn [indep_rounds]; [done|]. destruct (negb _); [done|].
  rewrite indep_pass_same by done. apply bind_ext. intros [[[lf o] o2] s2] _. apply IH.
Qed.
End Indep.

Lemma choose_indep_same bucket left numrep type out outpos tries recurse_tries recurse_to_leaf out2 parent_r s :
  in_map m bucket -> 0 <= outpos ->
  crush_choose_indep m weight x a1 bucket left numrep type out outpos tries recurse_tries recurse_to_leaf out2 parent_r s =
  crush_choose_indep m weight x a2 bucket left numrep type out outpos tries recurse_tries recurse_to_leaf out2 parent_r s.
Proof.
  intros Hb Hp. unfold crush_choose_indep. apply indep_body_same; [done|done|]. intros b o2 rep r s2 Hin Hr.
  unfold choose_indep_leaf. destruct o2 as [o|]; [|done]. apply bind_same. by apply indep_body_same.
Qed.

Lemma choose_all_same firstn leaf arg1 arg2 rmax k ws : forall o c osize s,
  choose_all m weight x a1 firstn leaf arg1 arg2 rmax k ws o c osize s = choose_all m weight x a2 firstn leaf arg1 arg2 rmax k ws o c osize s.
Proof.
  induction ws as [|wi ws IH]; intros o c osize s; cbn [choose_all]; [done|].
  assert (E : choose_one m weight x a1 firstn leaf arg1 arg2 rmax k wi o c osize s = choose_one m weight x a2 firstn leaf arg1 arg2 rmax k wi o c osize s).
  { unfold choose_one. destruct (_ <=? 0); [done|]. destruct (_ || _); [done|]. apply bind_ext. intros b Eb. pose proof (Hat _ _ Eb).
    destruct firstn; [by rewrite choose_firstn_same|by rewrite choose_indep_same]. }
  rewrite E. apply bind_ext. intros [[[o' c'] os] s2] _. apply IH.
Qed.

Lemma do_rule_same ruleno res rmax scratch s :
  crush_do_rule m weight x a1 ruleno res rmax scratch s = crush_do_rule m weight x a2 ruleno res rmax scratch s.
Proof.
  unfold crush_do_rule. destruct (_ <=? _); [done|]. apply bind_ext. intros o _. apply bind_ext. intros steps _. apply bind_same.
  generalize (mkrun (take (Z.to_nat rmax) scratch) 0 (take (Z.to_nat rmax) (drop (Z.to_nat rmax) scratch))
    (take (Z.to_nat rmax) (drop (Z.to_nat rmax) (drop (Z.to_nat rmax) scratch))) res 0 (s32 (choose_total_tries m + 1)) 0
    (s32 (choose_local_tries m)) (s32 (choose_local_fallback_tries m)) (chooseleaf_vary_r m) (chooseleaf_stable m)).
  intros k. revert k s. induction steps as [|step steps IH]; intros k s; cbn [rule_steps]; [done|].
  assert (E : rule_step m weight x a1 rmax step k s = rule_step m weight x a2 rmax step k s).
  { unfold rule_step, choose_step. by rewrite !choose_all_same. }
  rewrite E. apply bind_ext. intros [k2 s2] _. apply IH.
Qed.
End Same.

(** ** The entries *)

Lemma best_loop_ext d1 d2 n : forall i best, (forall k, i <= k < i + Z.of_nat n -> d1 k = d2 k) -> best_loop d1 n i best = best_loop d2 n i best.
Proof.
  induction n as [|n IH]; intros i best H; cbn [best_loop]; [done|]. rewrite H by lia. apply bind_ext. intros d _. apply IH.
  intros k Hk. apply H. lia.
Qed.

Lemma rd_take {A} (l : list A) n i : i < Z.of_nat n -> rd (take n l) i = rd l i.
Proof. intros Hi. unfold rd. destruct (Z.leb_spec 0 i); [|done]. apply lookup_take_lt. lia. Qed.

(** The array that the code takes for the weights of a straw2 bucket is one. *)
Definition has_weights (b : crush_bucket) : Prop := 0 < b_size b -> exists iw, as_straw2_weights b = Some iw.

Lemma make_arg_ok np b : shape b -> has_weights b -> 0 < np -> exists a, make_choose_arg np b = Done a /\
  ids a = Some (take (Z.to_nat (b_size b)) (b_items b)) /\
  exists ws, weight_set a = Some (replicate (Z.to_nat np) ws) /\ forall iw, as_straw2_weights b = Some iw -> ws = take (Z.to_nat (b_size b)) iw.
Proof.
  intros Hs Hw Hnp. pose proof (sh_size b Hs) as Hsz. unfold make_choose_arg. rewrite (proj2 (Z.leb_gt np 0)) by lia. cbn [orb].
  rewrite (proj2 (Z.leb_le (b_size b) (Z.of_nat (length (b_items b))))) by apply (sh_items b Hs).
  destruct (Z.eqb_spec (b_size b) 0) as [H0|H0].
  - run. eexists. split; [done|]. split; [done|]. eexists. split; [done|]. intros iw _. by rewrite H0.
  - destruct Hw as [iw Hiw]; [lia|]. rewrite Hiw. run. assert (Hl : b_size b <= Z.of_nat (length iw)).
    { pose proof (sh_body b Hs) as Hb. unfold as_straw2_weights in Hiw. destruct (b_body b); cbn in Hb; try done; injection Hiw as <-; unfold long in Hb; tauto. }
    rewrite (proj2 (Z.leb_le (b_size b) (Z.of_nat (length iw)))) by done. run. eexists. split; [done|]. split; [done|]. eexists. split; [done|].
    by intros iw' [= <-].
Qed.

Lemma straw2_same np b iw a x r position : shape b -> b_body b = Straw2 iw -> 0 < np -> make_choose_arg np b = Done a -> 0 <= position ->
  bucket_straw2_choose b iw x r (Some a) position = bucket_straw2_choose b iw x r None position.
Proof.
  intros Hs Hb Hnp E Hp. assert (Hw : as_straw2_weights b = Some iw) by (unfold as_straw2_weights; by rewrite Hb).
  destruct (make_arg_ok np b Hs ltac:(intros _; by exists iw) Hnp) as (a' & E' & Hids & ws & Hws & Heq). rewrite E in E'. injection E' as <-.
  rewrite (Heq iw Hw) in Hws. unfold bucket_straw2_choose, get_choose_arg_weights, get_choose_arg_ids. cbn [mbind option_bind]. rewrite Hids, Hws. cbn [default from_option id].
  rewrite length_replicate.
  assert (Hrd : rd (replicate (Z.to_nat np) (take (Z.to_nat (b_size b)) iw)) (if Z.of_nat (Z.to_nat np) <=? position then Z.of_nat (Z.to_nat np) - 1 else position)
    = Some (take (Z.to_nat (b_size b)) iw)).
  { unfold rd. destruct (Z.leb_spec (Z.of_nat (Z.to_nat np)) position); rewrite (proj2 (Z.leb_le 0 _)) by lia; apply lookup_replicate_2; lia. }
  rewrite Hrd. run. apply bind_same. apply best_loop_ext. intros k Hk. unfold straw2_draw. rewrite !rd_take by lia. done.
Qed.

Lemma make_args_list np bs : (forall b, Some b ∈ bs -> shape b /\ has_weights b) -> 0 < np ->
  exists l, make_choose_arg_list np bs = Done l /\ forall i b, bs !! i = Some (Some b) -> exists a, l !! i = Some a /\ make_choose_arg np b = Done a.
Proof.
  intros Hs Hnp. induction bs as [|o bs IH]; cbn [make_choose_arg_list]; [by exists []|].
  destruct IH as (l & E & Hl); [intros b Hb; apply Hs; by right|]. destruct o as [b|].
  - destruct (Hs b ltac:(left)) as [H1 H2]. destruct (make_arg_ok np b H1 H2 Hnp) as (a & Ea & _). rewrite Ea. run. rewrite E. run.
    eexists. split; [done|]. intros [|i] c Hc; cbn in Hc; [injection Hc as ->; by exists a|by apply Hl].
  - rewrite E. run. eexists. split; [done|]. intros [|i] c Hc; cbn in Hc; [done|by apply Hl].
Qed.

Lemma make_args_ok mm g np : building_ok g -> memory mm -> (forall b id, bucket_at (the_map g) id = Done b -> has_weights b) -> 0 < np ->
  exists args mm', crush_make_choose_args mm g np = Done (args, mm') /\
    forall b id, bucket_at (the_map g) id = Done b -> exists a, rd args (-1 - id) = Some a /\ make_choose_arg np b = Done a.
Proof.
  intros Hg Hmm Hw Hnp. pose proof (bk_size g Hg) as Hsz. unfold max_buckets in Hsz. unfold crush_make_choose_args, max_buckets.
  destruct (memory_alloc mm Hmm) as [Ha _]. destruct (alloc mm) as [ok mm']. cbn in Ha. subst ok.
  rewrite (proj2 (Z.leb_le _ _)) by lia. cbn [negb orb andb]. rewrite take_ge by lia.
  destruct (make_args_list np (buckets (the_map g))) as (l & -> & Hl); [|done|].
  { intros b Hb. apply list_elem_of_lookup in Hb as [i Hi]. split; [by apply (bk_shape g Hg i)|].
    apply (Hw b (-1 - Z.of_nat i)). apply bucket_at_lookup. split; [lia|]. by replace (Z.to_nat (-1 - (-1 - Z.of_nat i))) with i by lia. }
  run. exists l, mm'. split; [done|]. intros b id Hb. apply bucket_at_lookup in Hb as [Hn Hb]. destruct (Hl _ _ Hb) as (a & Hla & Ea).
  exists a. split; [|done]. unfold rd. by rewrite (proj2 (Z.leb_le 0 _)) by lia.
Qed.

Lemma args_neutral mm g np args mm' weight x ruleno res rmax scratch s : building_ok g -> memory mm ->
  (forall b id, bucket_at (the_map g) id = Done b -> has_weights b) -> 0 < np -> crush_make_choose_args mm g np = Done (args, mm') ->
  crush_do_rule (the_map g) weight x (Some args) ruleno res rmax scratch s = crush_do_rule (the_map g) weight x None ruleno res rmax scratch s.
Proof.
  intros Hg Hmm Hw Hnp E. destruct (make_args_ok mm g np Hg Hmm Hw Hnp) as (l & m2 & E2 & Hl). rewrite E in E2. injection E2 as <- <-.
  apply do_rule_same.
  - intros item b Hb. destruct (bucket_ok_at g item b Hg Hb) as [_ Hid]. unfold in_map. by rewrite Hid.
  - intros fallback b r outpos s2 Hb Hp. unfold choose_in. apply bind_ext. intros w _. apply bind_same. destruct fallback; [done|].
    destruct (Hl b (b_id b) Hb) as (a & -> & Ea). run. unfold crush_bucket_choose. destruct (b_size b =? 0); [done|].
    destruct (b_body b) as [| | | |iw|] eqn:Eb; try done. apply bind_same. apply (straw2_same np); try done. by apply (bucket_ok_at g (b_id b)).
Qed.
