(* ===== verification/CrBuildClaims.v ===== *)
(** * The promises of the builder (ceph/src/crush: builder.c, crush.c)

    The theorems on making and changing buckets, on maps under construction,
    and on the way from an empty map to a mapping. *)
From stdpp Require Import relations.
From S2P Require Import Prelude Doubles CrHash CrBucket CrMapper CrPerm CrChoose CrMap CrFirstn CrIndep CrRule CrClaims CrBuilder.
From S2P Require Import CrBuildOps CrBuildMap CrBuildArrays CrBuildStraw CrBuildTree CrBuildRefine CrBuildChange CrBuildRemove CrBuildAdjust CrBuildWf CrBuildReweight CrBuildSteps.
From S2P Require Import CrBuildArgs.

(** ** Buckets *)

Section Buckets.
Context (fresh : Z -> Z) (pow : double -> double -> double) (wild : double -> Z) (version : Z).
Local Abbreviation rep := (represents pow wild version).

Lemma tree_mapper_ok b l nn W : b_body b = Tree nn W -> rep b l -> Z.of_nat (length l) < 2 ^ 31 -> 0 < sumz l.*2 -> bucket_ok b.
Proof.
  intros Hb Hr Hlen Hsum. contents Hr Hb. pose proof (rp_size _ _ _ _ _ Hr) as Hsz. pose proof (starts_with_length _ _ (rp_items _ _ _ _ _ Hr)) as Hi.
  rewrite length_fmap in Hi. split; [lia|lia|]. intros Hpos. rewrite Hb, Hsz, <- (length_fmap snd). cbn.
  apply (tree_usable pow wild version); [intros E; by rewrite E in Hsum|apply Hr|done|done].
Qed.

(** C19: Making a bucket of one of the five algorithms with the weight of every item
    given, for a size below 2^31, arrays at least that long, weights whose sum fits
    32 bits, at most 64 items in a tree, and, in a uniform bucket, equal weights
    that are not 0: the call returns without touching memory outside the arrays;
    with memory available it returns a bucket, and any bucket it returns holds
    exactly the given items with their weights, all sums, straw lengths and tree
    nodes calculated from them, and can be used by the mapper (a tree needs a
    positive weight for that). *)
Theorem crush_make_bucket_correct m alg hash type size items weights :
  0 <= size < 2 ^ 31 -> size <= Z.of_nat (length items) -> size <= Z.of_nat (length weights) -> can_make size items weights alg ->
  exists o m', crush_make_bucket fresh pow wild version m alg hash type size items (Some weights) = Done (o, m') /\ (memory m -> is_Some o) /\
    forall b, o = Some b -> represents pow wild version b (contents_of size items weights) /\ b_alg b = alg /\ b_type b = u16 type /\
      (alg = CRUSH_BUCKET_TREE -> 0 < b_weight b -> bucket_ok b) /\ (alg <> CRUSH_BUCKET_TREE -> bucket_ok b).
Proof.
  intros Hs Hi Hw Hc. destruct (make_bucket_ok fresh pow wild version hash type size items weights Hs Hi Hw m alg Hc) as (o & m' & E & Hm & Hb).
  exists o, m'. split; [done|]. split; [intros H; by apply Hm|]. intros b Eb. destruct (Hb b Eb) as (Hr & Ha & Ht & Hsh). split; [done|].
  split; [done|]. split; [done|]. split; [|intros H; by apply shape_ok, Hsh]. intros Htree Hpos.
  rewrite (rp_weight _ _ _ _ _ Hr) in Hpos. destruct (contents_lengths size items weights) as (_ & _ & Hl & _); [done..|].
  unfold b_alg in Ha. pose proof (rp_body _ _ _ _ _ Hr) as Hbi. destruct (b_body b) eqn:Eb2; rewrite Htree in Ha; try done.
  eapply tree_mapper_ok; [done|done|lia|done].
Qed.

(** C20: Adding an item to a well-formed uniform, list, straw or straw2 bucket of
    fewer than 2^31 - 1 items: the call returns a bucket that the mapper can use,
    with the same id and algorithm; after the code 0 it holds the old contents
    followed by the item with its weight; after any other code it holds the old
    contents, except for a straw bucket, of which nothing more is said (a failed
    calculation of the straws leaves the item in it); the code is 0 when memory is
    available, the sum of the weights fits 32 bits, and the weight equals the item
    weight of the bucket if it is uniform. *)
Theorem crush_bucket_add_item_correct m b item weight : shape b -> b_size b + 1 < 2 ^ 31 ->
  exists code b' m', crush_bucket_add_item fresh pow wild version m b item weight = Done (code, b', m') /\ bucket_ok b' /\
    b_id b' = b_id b /\ b_alg b' = b_alg b /\
    forall l, represents pow wild version b l ->
      (code = 0 -> represents pow wild version b' (l ++ [(item, u32 weight)])) /\
      (code <> 0 -> b_alg b <> CRUSH_BUCKET_STRAW -> represents pow wild version b' l) /\
      (memory m -> sumz l.*2 + u32 weight < 2 ^ 32 -> (forall w, b_body b = Uniform w -> w = u32 weight) -> code = 0).
Proof.
  intros Hs Hsz. destruct (add_item_ok fresh pow wild version m b item weight Hs Hsz) as (code & b' & m' & E & Hs' & (H1 & _ & _ & H4) & Hl).
  exists code, b', m'. split; [done|]. split; [by apply shape_ok|]. split; [done|]. split; [done|]. intros l Hr. destruct (Hl l Hr) as (A & B & C).
  split; [done|]. split; [done|]. intros Hm Hf Hu. by apply C.
Qed.

(** Removing an item from a straw or straw2 bucket: an item that is not there
    is answered with -ENOENT and changes nothing; otherwise its first occurrence
    leaves the contents and the weights and straws follow, the code is 0 with memory
    available, and without it -ENOMEM with the contents of a straw2 bucket changed
    all the same. *)
Theorem crush_bucket_remove_item_correct m b item : shape b -> b_alg b = CRUSH_BUCKET_STRAW \/ b_alg b = CRUSH_BUCKET_STRAW2 ->
  exists code b' m', crush_bucket_remove_item fresh pow wild version m b item = Done (code, b', m') /\ bucket_ok b' /\
    b_id b' = b_id b /\ b_alg b' = b_alg b /\
    forall l, represents pow wild version b l -> (item ∉ l.*1 -> code = - ENOENT /\ b' = b) /\
      forall j, first_at l.*1 item j -> (code = 0 \/ code = - ENOMEM) /\ (memory m -> code = 0) /\
        (code = 0 \/ b_alg b = CRUSH_BUCKET_STRAW2 -> represents pow wild version b' (delete j l)).
Proof.
  intros Hs Ha. destruct (remove_item_ok fresh pow wild version m b item Hs Ha) as (code & b' & m' & E & Hs' & (H1 & _ & _ & H4) & Hl).
  exists code, b', m'. split; [done|]. split; [by apply shape_ok|]. split; [done|]. split; [done|]. intros l Hr. destruct (Hl l Hr) as (A & B).
  split; [done|]. intros j Hj. destruct (B j Hj) as (B1 & B2 & B3). split; [done|]. split; [done|]. intros [H|H]; apply B3; [by left|right].
  rewrite H. done.
Qed.

(** Changing the weight of an item of a list, tree, straw or straw2 bucket,
    when the new sum fits 32 bits: the call returns the difference to the old
    weight, and the new weight takes the place of the old one at the first
    occurrence of the item, in the sums, nodes and straws too. *)
Theorem crush_bucket_adjust_item_weight_correct m b item weight l j w :
  represents pow wild version b l -> shape b \/ b_alg b = CRUSH_BUCKET_TREE -> b_alg b <> CRUSH_BUCKET_UNIFORM ->
  first_at l.*1 item j -> l.*2 !! j = Some w -> sumz l.*2 - w + u32 weight < 2 ^ 32 -> memory m ->
  exists b' m', crush_bucket_adjust_item_weight fresh pow wild version m b item weight = Done (s32 (weight - w), b', m') /\
    b_id b' = b_id b /\ b_alg b' = b_alg b /\ represents pow wild version b' (<[j := (item, u32 weight)]> l).
Proof.
  intros Hr [Hs|Ht] Ha Hf Hw Hsum Hm.
  - destruct (adjust_item_ok fresh pow wild version m b item weight Hs Ha) as (code & b' & m' & E & _ & (H1 & _ & _ & H4) & Hl).
    destruct (Hl l Hr) as (_ & B). destruct (B j w Hf Hw Hsum ltac:(by left)) as [-> Hr']. by exists b', m'.
  - pose proof (rp_body _ _ _ _ _ Hr) as Hbi. unfold b_alg in Ht. destruct (b_body b) as [| |nn W| | |] eqn:Hb; try done.
    destruct (adjust_tree_ok fresh pow wild version m b nn W item weight l j w Hb Hr Hf Hw Hsum) as (b' & E & (H1 & _ & _ & H4) & Hr').
    by exists b', m.
Qed.

(** Removing an item from a uniform or a list bucket whose arrays have exactly its
    size, as every new bucket's do, reads the cell after the end of the arrays: the
    loop that closes the gap runs one step too far. *)
Theorem remove_reads_past_end m b item : shape b -> Z.of_nat (length (b_items b)) = b_size b ->
  b_alg b = CRUSH_BUCKET_UNIFORM \/ b_alg b = CRUSH_BUCKET_LIST -> item ∈ b_items b ->
  crush_bucket_remove_item fresh pow wild version m b item = Fault.
Proof.
  intros Hs Hl Ha Hin. pose proof (sh_body b Hs) as Hbs. unfold b_alg in Ha.
  destruct (b_body b) eqn:Hb; cbn in Hbs, Ha; try (destruct Ha; discriminate); try done.
  - by eapply remove_uniform_past.
  - by eapply remove_list_past.
Qed.
End Buckets.

(** ** Maps *)

Section Maps.
Context (fresh : Z -> Z) (pow : double -> double -> double) (wild : double -> Z).

(** C32: Every map that calls of the builder lead to from crush_create is well
    formed (its arrays have the recorded sizes, each bucket lies at the place of its
    id and has arrays at least as long as its size with entries of 32 bits), as long
    as the calls make no tree buckets, make buckets of arguments that
    crush_make_bucket accepts (sums of 32 bits, equal weights other than 0 in a
    uniform bucket) with ids down to -2^30, remove items from straw and straw2
    buckets only, reweight only hierarchies without cycles, add rules below
    CRUSH_MAX_RULES, and the construction ends when an array of the map could not
    grow (-ENOMEM). On such a map the calls return: adding a bucket under an id from
    -2^30 to -1, adding a rule with a number below CRUSH_MAX_RULES, removing a
    bucket, and adding an item to a bucket (of fewer than 2^31 - 1 items) or
    changing a weight in it never reach memory outside the arrays. *)
Theorem built_maps_well_formed g : built fresh pow wild g -> building_ok g /\
  (forall mm id b, shape b -> - 2 ^ 30 <= id < 0 -> exists r, crush_add_bucket mm g id b = Done r) /\
  (forall mm rule ruleno, 0 <= ruleno < CRUSH_MAX_RULES -> exists r, crush_add_rule mm g rule ruleno = Done r) /\
  forall id b, bucket_at (the_map g) id = Done b ->
    (exists g', crush_remove_bucket g id = Done g') /\
    (forall mm item weight, b_size b + 1 < 2 ^ 31 -> exists r, crush_bucket_add_item fresh pow wild (straw_calc_version g) mm b item weight = Done r) /\
    (forall mm item weight, exists r, crush_bucket_adjust_item_weight fresh pow wild (straw_calc_version g) mm b item weight = Done r) /\
    forall b', shape b' -> b_id b' = id -> exists m', set_bucket (the_map g) id b' = Done m'.
Proof.
  intros Hb. pose proof (built_ok fresh pow wild g Hb) as Hg. split; [done|]. split; [|split].
  - intros mm id b Hs Hid. destruct (add_bucket_ok mm g id b Hg Hs) as (c & i & g' & m' & E & _); [lia|lia|]. by eexists.
  - intros mm rule ruleno Hn. destruct (add_rule_ok mm g rule ruleno Hg) as (c & g' & m' & E & _); [lia|lia|]. by eexists.
  - intros id b Hat. destruct (bucket_ok_at g id b Hg Hat) as [Hs Hid]. split; [|split; [|split]].
    + destruct (remove_bucket_ok g id b Hg Hat) as (g' & E & _). by exists g'.
    + intros mm item weight Hsz. destruct (add_item_ok fresh pow wild (straw_calc_version g) mm b item weight Hs Hsz) as (c & b' & m' & E & _). by eexists.
    + intros mm item weight. by apply adjust_returns.
    + intros b' Hs' Hid'. destruct (set_bucket_ok g id b b' Hg Hat Hs' Hid') as (m' & E & _). by exists m'.
Qed.

(** Adding a bucket to a map: under the id that is asked for, or, for 0, under
    the highest free one; the array of buckets doubles until it has the place,
    within the 32 rounds of the model. On success the id was free, the bucket is
    found under it, and all other buckets are as before; an id that is taken is
    answered with -EEXIST and no bucket changes; only missing memory gives -ENOMEM. *)
Theorem crush_add_bucket_correct mm g id b : building_ok g -> shape b -> - 2 ^ 30 <= id <= 0 -> (id = 0 -> size_buckets g < 2 ^ 30) ->
  exists code id' g' mm', crush_add_bucket mm g id b = Done (code, id', g', mm') /\ (memory mm -> code <> - ENOMEM) /\
    (code <> - ENOMEM -> building_ok g' /\ rules (the_map g') = rules (the_map g)) /\
    ((code = 0 /\ free_id g id' /\ (id <> 0 -> id' = id) /\
        bucket_at (the_map g') id' = Done (with_id b id') /\ forall k, k <> id' -> bucket_at (the_map g') k = bucket_at (the_map g) k) \/
     (code = - EEXIST /\ id <> 0 /\ ~ free_id g id /\ forall k, bucket_at (the_map g') k = bucket_at (the_map g) k) \/
     code = - ENOMEM).
Proof.
  intros Hg Hs Hid Hroom. destruct (add_bucket_ok mm g id b Hg Hs Hid Hroom) as (code & id' & g' & mm' & E & Hm & Hok & Hor).
  exists code, id', g', mm'. split; [done|]. split; [done|]. split; [intros H; destruct (Hok H) as [H1 [H2 _]]; done|].
  destruct Hor as [(-> & Hf & Hsame & Hat)|[H|H]]; [left|right; left; done|right; right; done].
  split; [done|]. split; [done|]. split; [done|]. split; [by rewrite Hat, decide_True|]. intros k Hk. by rewrite Hat, decide_False.
Qed.

(** C13: From an empty map to a mapping: when calls of the builder have led to a map
    as in built_maps_well_formed (no trees, no call that ended in -ENOMEM, items
    removed from straw and straw2 buckets only, hierarchies without cycles
    reweighted only), and the map is complete (bucket types are positive, the
    buckets among the items exist, no bucket contains itself, device numbers are
    below CRUSH_ITEM_UNDEF, sizes, tunables and numbers of tries of the rules are
    below 2^29 and vary_r at most 32) with a working area below 2^64 bytes, then
    crush_finalize makes max_devices one more than the largest item (or 0) and
    working_size what crush_init_workspace uses up, so that its assertion holds, and
    a mapping without replacement weights with any rule of the map, into arrays that
    hold result_max (positive) and three times as many entries, returns within its
    arrays, at most result_max items. *)
Theorem built_map_maps g rank weight x ruleno steps res rmax scratch garbage :
  built fresh pow wild g -> complete (the_map g) rank ->
  workspace_end (buckets (the_map g)) (sizeof_crush_work + size_buckets g * sizeof_pointer) < 2 ^ 64 ->
  rd (rules (the_map g)) ruleno = Some (Some steps) -> 0 < rmax -> rmax <= Z.of_nat (length res) -> 3 * rmax <= Z.of_nat (length scratch) ->
  (forall i b, buckets (the_map g) !! i = Some (Some b) -> b_size b <= Z.of_nat (length (garbage i))) ->
  exists g', crush_finalize g = Done g' /\ init_workspace_ok g' = true /\
    (forall item, has_item (buckets (the_map g)) item -> item < max_devices (the_map g')) /\
    (max_devices (the_map g') = 0 \/ has_item (buckets (the_map g)) (max_devices (the_map g') - 1)) /\
    exists l s, crush_do_rule (the_map g') weight x None ruleno res rmax scratch
                  (mkstate (crush_init_workspace (the_map g') garbage) None) = Done (l, s) /\ Z.of_nat (length l) <= rmax.
Proof.
  intros Hb Hc Hend Hrule Hr Hres Hsc Hgar. pose proof (built_ok fresh pow wild g Hb) as Hg.
  destruct (finalize_ok g CRUSH_ITEM_UNDEF Hg (cp_devices _ _ Hc) ltac:(unfold CRUSH_ITEM_UNDEF; lia) Hend) as (g' & E & Hg' & Hm & Hws & Hdev & Hmax & Hex).
  pose proof (complete_usable g g' rank Hg Hc E Hend) as Hok. exists g'. split; [done|]. split; [done|]. split; [done|].
  split; [destruct Hex as [|(item & Hi & ->)]; [by left|right; by replace (item + 1 - 1) with item by lia]|].
  assert (Hrule' : rd (rules (the_map g')) ruleno = Some (Some steps)) by (by rewrite Hm).
  pose proof (rule_number _ _ _ Hok Hrule') as Hno.
  set (s := mkstate (crush_init_workspace (the_map g') garbage) None).
  assert (Hs : state_ok (the_map g') s) by (apply init_state_ok; [apply Hok|rewrite Hm; done|done]).
  destruct (do_rule_agree (the_map g') weight x None (cm_map _ Hok) ltac:(done) (cm_tunables _ Hok) ruleno steps res rmax scratch s s)
    as (l & t1 & t2 & E1 & _ & Hl & _); [done|by apply (cm_rules _ Hok ruleno)|lia|done..|].
  by exists l, t1.
Qed.

(** C18: Reweighting a well-formed map without tree buckets, whose child buckets
    exist and in which no bucket contains itself: crush_reweight_bucket returns,
    with the recursion bounded by the number of buckets; ids, types, algorithms,
    hash functions, sizes and items of all buckets stay, and so do the weights of
    devices in list, straw and straw2 buckets. When no sum exceeds 32 bits (the
    weight of every bucket, for a uniform bucket the product of item weight and
    size, and the sum over the child buckets of a uniform bucket) it returns 0 and
    every bucket at or below the given one gets the weight that the devices below it
    determine, also where it is an item of a list, straw or straw2 bucket: the sum
    of the weights of its items, or, for a uniform bucket, the item weight times the
    size, the item weight being the average weight of the child buckets if there are
    more of them than devices. *)
Theorem crush_reweight_bucket_correct version m rank id b mm fuel : all_shape m ->
  (forall b id item, bucket_at m id = Done b -> item ∈ items_of b -> item < 0 -> exists c, bucket_at m item = Done c) ->
  (forall b id item, bucket_at m id = Done b -> item ∈ items_of b -> item < 0 -> (rank item < rank id)%nat) ->
  (forall b id, bucket_at m id = Done b -> (rank id <= length (buckets m))%nat) ->
  bucket_at m id = Done b -> (length (buckets m) < fuel)%nat ->
  exists code m' mm', crush_reweight_bucket fresh pow wild fuel version id m mm = Done (code, m', mm') /\ like_map m m' /\
    (sums_fit m -> code = 0 /\ forall k, rtc (child_of m) id k -> settled (hierarchy_weight m) m' k).
Proof.
  intros Hs Hi Hr Hbound Hb Hf. pose proof (Hbound b id Hb) as Hid.
  destruct (reweight_ok fresh pow wild version m rank (hierarchy_weight m) Hs Hi Hr fuel id b m mm ltac:(lia) Hb (like_map_refl m Hs))
    as (code & m' & mm' & E & [Hl _ Hset _] & Hc).
  exists code, m', mm'. split; [done|]. split; [done|]. intros Hfit. pose proof (hierarchy_weighing m rank Hs Hr Hbound Hfit) as Hw.
  split; [by apply Hc|by apply Hset].
Qed.

End Maps.

(** ** Examples *)

(** Some content of fresh memory; the powers and conversions do not matter here. *)
Definition ex_fresh (k : Z) : Z := 0xabad1dea.
Definition ex_pow (a b : double) : double := a.
Definition ex_wild (d : double) : Z := 0.

Definition result_or {A} (d : A) (r : outcome A) : A := if r is Done a then a else d.
Definition no_bucket : crush_bucket := mkbucket 0 0 0 0 0 [] (OtherAlg 0).

Definition ex_make (alg type : Z) (items weights : list Z) : crush_bucket :=
  default no_bucket (result_or (None, []) (crush_make_bucket ex_fresh ex_pow ex_wild 0 [] alg 0 type (Z.of_nat (length items)) items (Some weights))).1.

Definition ex_host2 : crush_bucket := Eval vm_compute in ex_make CRUSH_BUCKET_STRAW2 1 [0; 1] [0x10000; 0x20000].
Definition ex_root2 : crush_bucket := Eval vm_compute in ex_make CRUSH_BUCKET_LIST 10 [-2; 2] [0x20000; 0x30000].
Definition ex_flat : crush_bucket := Eval vm_compute in ex_make CRUSH_BUCKET_UNIFORM 1 [4; 5] [0x10000; 0x10000].
Definition ex_tree : crush_bucket := Eval vm_compute in ex_make CRUSH_BUCKET_TREE 1 [4; 5; 6] [1; 2; 3].

Definition ex_g0 : building := Eval vm_compute in default (mkbuilding (mkmap [] [] 0 0 0 0 0 0 0) 0 0 0 0 0) (crush_create []).1.
Definition ex_add (g : building) (id : Z) (b : crush_bucket) : building := (result_or (0, 0, g, []) (crush_add_bucket [] g id b)).1.2.
Definition ex_g1 : building := Eval vm_compute in ex_add ex_g0 (-2) ex_host2.
Definition ex_g2 : building := Eval vm_compute in ex_add ex_g1 0 ex_root2.
Definition ex_rule2 : crush_rule := mkrule 1 1 100 (ex_rule CRUSH_RULE_CHOOSELEAF_FIRSTN 2 0).
Definition ex_g3 : building := Eval vm_compute in (result_or (0, ex_g2, []) (crush_add_rule [] ex_g2 ex_rule2 (-1))).1.2.

Lemma ex_step_bucket g g' alg type items weights b id : 0 <= Z.of_nat (length items) < 2 ^ 31 -> length weights = length items ->
  can_make (Z.of_nat (length items)) items weights alg -> alg <> CRUSH_BUCKET_TREE -> straw_calc_version g = 0 ->
  crush_make_bucket ex_fresh ex_pow ex_wild 0 [] alg 0 type (Z.of_nat (length items)) items (Some weights) = Done (Some b, []) ->
  - 2 ^ 30 <= id <= 0 -> size_buckets g < 2 ^ 30 -> (exists id', crush_add_bucket [] g id b = Done (0, id', g', [])) ->
  build_step ex_fresh ex_pow ex_wild g g'.
Proof.
  intros Hl Hw Hc Ht Hv E Hid Hsz [id' E2]. eapply (step_add_bucket _ _ _ g [] [] [] alg 0 type (Z.of_nat (length items)) items weights b id 0 id');
    [lia|lia|lia|exact Hc|exact Ht|rewrite Hv; exact E|exact Hid|intros _; exact Hsz|exact E2|unfold ENOMEM; lia].
Qed.

Lemma ex_built : built ex_fresh ex_pow ex_wild ex_g3.
Proof.
  exists [], ex_g0, []. split; [done|]. apply (rtc_l _ _ ex_g1).
  { eapply (ex_step_bucket _ _ CRUSH_BUCKET_STRAW2 1 [0; 1] [0x10000; 0x20000] ex_host2 (-2)); try done. by eexists. }
  apply (rtc_l _ _ ex_g2).
  { eapply (ex_step_bucket _ _ CRUSH_BUCKET_LIST 10 [-2; 2] [0x20000; 0x30000] ex_root2 0); try done. by eexists. }
  apply (rtc_l _ _ ex_g3); [|apply rtc_refl]. apply (step_add_rule _ _ _ ex_g2 [] ex_rule2 (-1) 0 ex_g3 []); try done. intros _. left. done.
Qed.

Lemma ex_at id b : bucket_at (the_map ex_g3) id = Done b ->
  id = -1 /\ b = with_id ex_root2 (-1) \/ id = -2 /\ b = with_id ex_host2 (-2).
Proof.
  intros Hb. apply bucket_at_lookup in Hb as [Hn Hb]. remember (Z.to_nat (-1 - id)) as i eqn:Ei.
  destruct i as [|[|[|[|[|[|[|[|i]]]]]]]]; cbn in Hb; try discriminate Hb; injection Hb as <-; [left|right]; (split; [lia|done]).
Qed.

Definition ex_rank (id : Z) : nat := if id =? -1 then 1 else 0.

Lemma ex_complete : complete (the_map ex_g3) ex_rank.
Proof.
  assert (Hit : forall b id item, bucket_at (the_map ex_g3) id = Done b -> item ∈ items_of b -> item < 0 -> id = -1 /\ item = -2).
  { intros b id item Hb Hi Hn. destruct (ex_at id b Hb) as [[-> ->]|[-> ->]]; unfold items_of in Hi; simpl in Hi;
      rewrite !elem_of_cons, elem_of_nil in Hi; destruct_or! Hi; subst; try lia; done. }
  split.
  - intros b id Hb. destruct (ex_at id b Hb) as [[-> ->]|[-> ->]]; done.
  - intros b id item Hb Hi Hn. destruct (Hit b id item Hb Hi Hn) as [-> ->]. by eexists.
  - intros b id item Hb Hi Hn. destruct (Hit b id item Hb Hi Hn) as [-> ->]. cbn. lia.
  - intros b id Hb. destruct (ex_at id b Hb) as [[-> ->]|[-> ->]]; cbn; lia.
  - intros item (b & Hb & Hi). apply list_elem_of_lookup in Hb as [i Hb].
    destruct i as [|[|[|[|[|[|[|[|i]]]]]]]]; cbn in Hb; try discriminate Hb; injection Hb as <-; unfold items_of in Hi; simpl in Hi;
      rewrite !elem_of_cons, elem_of_nil in Hi; unfold CRUSH_ITEM_UNDEF; destruct_or! Hi; subst; done.
  - split; unfold small; cbn; lia.
  - intros i steps Hi. unfold rd in Hi. destruct (0 <=? i); [|done].
    destruct (Z.to_nat i) as [|k]; cbn in Hi; [|done]. injection Hi as <-. repeat constructor; cbn; intros H; (destruct_or! H || idtac); discriminate H.
Qed.

Lemma ex_building : building_ok ex_g3.
Proof. apply (built_ok ex_fresh ex_pow ex_wild), ex_built. Qed.

Lemma ex_host_shape : shape ex_host2.
Proof. split; [cbn; lia|cbn; lia|cbn; lia|]. split; [done|]. repeat constructor; lia. Qed.

Lemma ex_flat_shape : shape ex_flat.
Proof. split; cbn; lia. Qed.

Lemma ex_host_contents : represents ex_pow ex_wild 0 ex_host2 [(0, 0x10000); (1, 0x20000)].
Proof. split; try done. cbn. repeat (apply Forall_cons; split; [lia|]). apply Forall_nil_2. Qed.

(** *** Witnesses *)

Lemma crush_make_bucket_correct_witness : exists o m',
  crush_make_bucket ex_fresh ex_pow ex_wild 0 [] CRUSH_BUCKET_TREE 0 1 3 [4; 5; 6] (Some [1; 2; 3]) = Done (o, m') /\ (memory [] -> is_Some o) /\
    forall b, o = Some b -> represents ex_pow ex_wild 0 b (contents_of 3 [4; 5; 6] [1; 2; 3]) /\ b_alg b = CRUSH_BUCKET_TREE /\ b_type b = u16 1 /\
      (CRUSH_BUCKET_TREE = CRUSH_BUCKET_TREE -> 0 < b_weight b -> bucket_ok b) /\ (CRUSH_BUCKET_TREE <> CRUSH_BUCKET_TREE -> bucket_ok b).
Proof.
  apply (crush_make_bucket_correct ex_fresh ex_pow ex_wild 0 [] CRUSH_BUCKET_TREE 0 1 3 [4; 5; 6] [1; 2; 3]); try (cbn; lia).
  split; [done|]. split; [done|]. split; [lia|by intros [=]].
Defined.

Lemma crush_bucket_add_item_correct_witness : exists code b' m',
  crush_bucket_add_item ex_fresh ex_pow ex_wild 0 [] ex_host2 7 0x30000 = Done (code, b', m') /\ bucket_ok b' /\
    b_id b' = b_id ex_host2 /\ b_alg b' = b_alg ex_host2 /\
    forall l, represents ex_pow ex_wild 0 ex_host2 l ->
      (code = 0 -> represents ex_pow ex_wild 0 b' (l ++ [(7, u32 0x30000)])) /\
      (code <> 0 -> b_alg ex_host2 <> CRUSH_BUCKET_STRAW -> represents ex_pow ex_wild 0 b' l) /\
      (memory [] -> sumz l.*2 + u32 0x30000 < 2 ^ 32 -> (forall w, b_body ex_host2 = Uniform w -> w = u32 0x30000) -> code = 0).
Proof. apply (crush_bucket_add_item_correct ex_fresh ex_pow ex_wild 0 [] ex_host2 7 0x30000); [apply ex_host_shape|cbn; lia]. Defined.

Lemma crush_bucket_remove_item_correct_witness : exists code b' m',
  crush_bucket_remove_item ex_fresh ex_pow ex_wild 0 [] ex_host2 0 = Done (code, b', m') /\ bucket_ok b' /\
    b_id b' = b_id ex_host2 /\ b_alg b' = b_alg ex_host2 /\
    forall l, represents ex_pow ex_wild 0 ex_host2 l -> (0 ∉ l.*1 -> code = - ENOENT /\ b' = ex_host2) /\
      forall j, first_at l.*1 0 j -> (code = 0 \/ code = - ENOMEM) /\ (memory [] -> code = 0) /\
        (code = 0 \/ b_alg ex_host2 = CRUSH_BUCKET_STRAW2 -> represents ex_pow ex_wild 0 b' (delete j l)).
Proof. apply (crush_bucket_remove_item_correct ex_fresh ex_pow ex_wild 0 [] ex_host2 0); [apply ex_host_shape|by right]. Defined.

Lemma crush_bucket_adjust_item_weight_correct_witness : exists b' m',
  crush_bucket_adjust_item_weight ex_fresh ex_pow ex_wild 0 [] ex_host2 1 0x8000 = Done (s32 (0x8000 - 0x20000), b', m') /\
    b_id b' = b_id ex_host2 /\ b_alg b' = b_alg ex_host2 /\
    represents ex_pow ex_wild 0 b' (<[1%nat := (1, u32 0x8000)]> [(0, 0x10000); (1, 0x20000)]).
Proof.
  apply (crush_bucket_adjust_item_weight_correct ex_fresh ex_pow ex_wild 0 [] ex_host2 1 0x8000 [(0, 0x10000); (1, 0x20000)] 1 0x20000);
    [apply ex_host_contents|left; apply ex_host_shape|done| |done|done|constructor].
  split; [done|]. cbn. rewrite list_elem_of_singleton. done.
Defined.

Lemma remove_reads_past_end_witness : crush_bucket_remove_item ex_fresh ex_pow ex_wild 0 [] ex_flat 4 = Fault.
Proof.
  apply (remove_reads_past_end ex_fresh ex_pow ex_wild 0 [] ex_flat 4); [apply ex_flat_shape|done|by left|]. cbn. apply list_elem_of_here.
Defined.

Lemma built_maps_well_formed_witness : building_ok ex_g3 /\
  (forall mm id b, shape b -> - 2 ^ 30 <= id < 0 -> exists r, crush_add_bucket mm ex_g3 id b = Done r) /\
  (forall mm rule ruleno, 0 <= ruleno < CRUSH_MAX_RULES -> exists r, crush_add_rule mm ex_g3 rule ruleno = Done r) /\
  forall id b, bucket_at (the_map ex_g3) id = Done b ->
    (exists g', crush_remove_bucket ex_g3 id = Done g') /\
    (forall mm item weight, b_size b + 1 < 2 ^ 31 -> exists r, crush_bucket_add_item ex_fresh ex_pow ex_wild 0 mm b item weight = Done r) /\
    (forall mm item weight, exists r, crush_bucket_adjust_item_weight ex_fresh ex_pow ex_wild 0 mm b item weight = Done r) /\
    forall b', shape b' -> b_id b' = id -> exists m', set_bucket (the_map ex_g3) id b' = Done m'.
Proof. apply (built_maps_well_formed ex_fresh ex_pow ex_wild ex_g3), ex_built. Defined.

Lemma crush_add_bucket_correct_witness : exists code id' g' mm', crush_add_bucket [] ex_g3 (-9) ex_flat = Done (code, id', g', mm') /\
    (memory [] -> code <> - ENOMEM) /\ (code <> - ENOMEM -> building_ok g' /\ rules (the_map g') = rules (the_map ex_g3)) /\
    ((code = 0 /\ free_id ex_g3 id' /\ (-9 <> 0 -> id' = -9) /\
        bucket_at (the_map g') id' = Done (with_id ex_flat id') /\ forall k, k <> id' -> bucket_at (the_map g') k = bucket_at (the_map ex_g3) k) \/
     (code = - EEXIST /\ -9 <> 0 /\ ~ free_id ex_g3 (-9) /\ forall k, bucket_at (the_map g') k = bucket_at (the_map ex_g3) k) \/
     code = - ENOMEM).
Proof. apply (crush_add_bucket_correct [] ex_g3 (-9) ex_flat); [apply ex_building|apply ex_flat_shape|lia|lia]. Defined.

Lemma built_map_maps_witness : exists g', crush_finalize ex_g3 = Done g' /\ init_workspace_ok g' = true /\
    (forall item, has_item (buckets (the_map ex_g3)) item -> item < max_devices (the_map g')) /\
    (max_devices (the_map g') = 0 \/ has_item (buckets (the_map ex_g3)) (max_devices (the_map g') - 1)) /\
    exists l s, crush_do_rule (the_map g') (repeat 0x10000 3) 5 None 0 (repeat 0 2) 2 (repeat 0 6)
                  (mkstate (crush_init_workspace (the_map g') (fun _ => repeat 7 2)) None) = Done (l, s) /\ Z.of_nat (length l) <= 2.
Proof.
  apply (built_map_maps ex_fresh ex_pow ex_wild ex_g3 ex_rank (repeat 0x10000 3) 5 0 (ex_rule CRUSH_RULE_CHOOSELEAF_FIRSTN 2 0) (repeat 0 2) 2
    (repeat 0 6) (fun _ => repeat 7 2)); [apply ex_built|apply ex_complete|done|done|lia|done|done|].
  intros i b Hb. destruct i as [|[|[|[|[|[|[|[|i]]]]]]]]; cbn in Hb; try discriminate Hb; injection Hb as <-; cbn; lia.
Defined.

Lemma crush_reweight_bucket_correct_witness : exists code m' mm',
  crush_reweight_bucket ex_fresh ex_pow ex_wild 9 0 (-1) (the_map ex_g3) [] = Done (code, m', mm') /\ like_map (the_map ex_g3) m' /\
    (sums_fit (the_map ex_g3) -> code = 0 /\
       forall k, rtc (child_of (the_map ex_g3)) (-1) k -> settled (hierarchy_weight (the_map ex_g3)) m' k).
Proof.
  apply (crush_reweight_bucket_correct ex_fresh ex_pow ex_wild 0 (the_map ex_g3) ex_rank (-1) (with_id ex_root2 (-1)) [] 9);
    [apply building_shape, ex_building|apply ex_complete|apply ex_complete|apply ex_complete|done|cbn; lia].
Defined.

(** The sums of the example fit, and the weight of its root is the sum of its devices. *)
Lemma ex_sums : sums_fit (the_map ex_g3) /\ hierarchy_weight (the_map ex_g3) (-1) = 0x60000.
Proof.
  split; [|done]. intros b id Hb. destruct (ex_at id b Hb) as [[-> ->]|[-> ->]]; (split; [done|by intros [=]]).
Qed.


(** *** Defects *)

(** When a tree bucket grows by a level, only the root of the new level is set: the
    node above the third of three items is what was in the fresh memory, plus the
    weight of the item, while the same bucket made at once has the weight there. The
    choice among the items then follows the garbage. *)
Theorem tree_grows_uninitialised :
  b_body ex_tree = Tree 8 [0; 1; 3; 2; 6; 3; 3; 0] /\
  crush_bucket_add_item ex_fresh ex_pow ex_wild 0 [] (ex_make CRUSH_BUCKET_TREE 1 [4; 5] [1; 2]) 6 3 =
    Done (0, mkbucket 0 1 0 6 3 [4; 5; 6] (Tree 8 [0; 1; 3; 2; 6; 3; ex_fresh 6 + 3; ex_fresh 7]), []).
Proof. vm_compute. done. Qed.

(** The number of nodes of a tree has 8 bits: 65 items need 256 nodes, 0 are allocated. *)
Theorem tree_of_65_items :
  crush_make_bucket ex_fresh ex_pow ex_wild 0 [] CRUSH_BUCKET_TREE 0 1 65 (range 65) (Some (repeat 1 65)) = Fault /\
  is_Some (result_or (None, []) (crush_make_bucket ex_fresh ex_pow ex_wild 0 [] CRUSH_BUCKET_TREE 0 1 64 (range 64) (Some (repeat 1 64)))).1.
Proof. split; vm_compute; [done|by eexists]. Qed.

(** The check of the multiplication refuses the factor 0: no uniform bucket whose items have no weight. *)
Theorem uniform_without_weight :
  crush_make_bucket ex_fresh ex_pow ex_wild 0 [] CRUSH_BUCKET_UNIFORM 0 1 2 [4; 5] (Some [0; 0]) = Done (None, []).
Proof. vm_compute. done. Qed.

(** Reweighting a list bucket leaves the sums by which it chooses as they were. *)
Theorem reweight_list_stale : exists m', crush_reweight_bucket ex_fresh ex_pow ex_wild 9 0 (-1) (the_map ex_g3) [] = Done (0, m', []) /\
  bucket_at m' (-1) = Done (mkbucket (-1) 10 0 0x60000 2 [-2; 2] (BList [0x30000; 0x30000] [0x20000; 0x50000])).
Proof. vm_compute. by eexists. Qed.

(** The weight of a uniform bucket is cut to 32 bits, and the code is 0: two items of weight 2^31 leave 0. *)
Theorem reweight_uniform_wraps :
  let b w := mkbucket (-1) 1 0 w 2 [4; 5] (Uniform (2 ^ 31)) in
  let m w := mkmap [Some (b w)] [] 6 0 0 50 1 1 1 in
  crush_reweight_bucket ex_fresh ex_pow ex_wild 2 0 (-1) (m 7) [] = Done (0, m 0, []) /\ hierarchy_weight (m 7) (-1) = 2 ^ 32.
Proof. vm_compute. done. Qed.

(** A rule number beyond CRUSH_MAX_RULES is taken. *)
Theorem rule_beyond_max : (result_or (0, ex_g3, []) (crush_add_rule [] ex_g3 ex_rule2 300)).1.1 = 300 /\ CRUSH_MAX_RULES = 256.
Proof. vm_compute. done. Qed.

(** A uniform bucket is taken for a straw2 bucket: its weight is used as an address. *)
Theorem choose_args_of_uniform : crush_make_choose_args [] (ex_add ex_g3 0 ex_flat) 1 = Fault.
Proof. vm_compute. done. Qed.
