(* ===== verification/PbAddress.v ===== *)
(** * From file offsets to physical addresses (api-server)

    The manager joins the extents of the parts of a file and notes the range of
    offsets each extent covers (lba2pba_manager.py); the query agent looks
    offsets up in these ranges (lba2pba_query_agent.py); the newer agent walks
    the extents without ranges (db_agent.py).  The specification is the
    sequence of physical bytes that a list of extents stands for. *)
From stdpp Require Import strings.
From S2P Require Import Prelude.

(** ** Extents *)

Record extent : Set := mkextent { HOST : string; DISK : string; OFFSET : Z; LENGTH : Z }.

(** An extent with its key RANGE. *)
Record ranged : Set := mkranged { the_extent : extent; RANGE : Z * Z }.

(** ** The manager *)

Module Manager.

(** What a worker answers for one file: the disk and the chunks. *)
Record file_dict : Set := mkfile { fd_disk : string; CHUNKS : list (Z * Z) }.

Definition file2PBA (host : string) (LIST : list file_dict) : list extent :=
  flat_map (fun file => (fun chunk => mkextent host (fd_disk file) chunk.1 chunk.2) <$> CHUNKS file) LIST.

(** [for i in range(len(data))]: each extent covers the offsets after the ones before it. *)
Fixpoint set_ranges (ran : Z) (data : list extent) : list ranged :=
  match data with
  | [] => []
  | x :: data => mkranged x (ran, ran + LENGTH x) :: set_ranges (ran + LENGTH x) data
  end.

(** The parts of a file, as the other functions find them: host and path. *)
Record shard : Set := mkshard { sh_path : string; sh_host : string }.

(** [sorted] by the path: a stable sort with the order of strings. *)
Fixpoint insert_shard (x : shard) (l : list shard) : list shard :=
  match l with
  | [] => [x]
  | y :: l => if String.leb (sh_path y) (sh_path x) then y :: insert_shard x l else x :: y :: l
  end.

Definition sort_shards (l : list shard) : list shard := foldl (fun acc x => insert_shard x acc) [] l.

(** The end of [getShardList]: the parts in the directories of shards, then the first part in front. *)
Definition shard_list (first : shard) (found : list shard) : list shard := first :: sort_shards found.

(** [getPBA], for the parts of the file; [query] is the request to the worker of a host. *)
Definition getPBA (query : string -> string -> list file_dict) (shards : list shard) : list ranged :=
  set_ranges 0 (flat_map (fun s => file2PBA (sh_host s) (query (sh_host s) (sh_path s))) shards).

End Manager.

(** ** The query agent *)

Module QueryAgent.

(** The two flags and the result of the loop over the extents. *)
Record scan : Set := mkscan { schk : bool; echk : bool; result : list extent }.

Definition scan_step (start end_ : Z) (st : scan) (fpba : ranged) : scan :=
  let x := the_extent fpba in
  let '(s, e) := RANGE fpba in
  if negb (schk st) then
    if (s <=? start) && (start <? e) then
      let piece len := mkextent (HOST x) (DISK x) (OFFSET x + (start - s)) len in
      if end_ <? e then mkscan true true (result st ++ [piece (end_ - start)])
      else mkscan true (echk st) (result st ++ [piece (e - start)])
    else st
  else if negb (echk st) then
    let piece len := mkextent (HOST x) (DISK x) (OFFSET x) len in
    if (s <=? e) && (end_ <? e) then mkscan (schk st) true (result st ++ [piece (end_ - s)])
    else mkscan (schk st) (echk st) (result st ++ [piece (LENGTH x)])
  else st.

(** The files with their extents, in the order of the dictionary. *)
Definition file_map : Set := list (string * list ranged).

Definition LB2PBA (FM : file_map) (path : string) (sector length : Z) : list extent :=
  foldl (fun res f =>
    if negb (String.eqb path f.1) then res else
    result (foldl (scan_step sector (sector + length)) (mkscan false false res) f.2)) [] FM.

(** [getPBA]: the answer for each request of a list of offsets and lengths, under its index. *)
Definition getPBA (FM : file_map) (fpath : string) (offsets : list (string * (Z * Z))) : list (string * list extent) :=
  (fun o => (o.1, LB2PBA FM fpath o.2.1 o.2.2)) <$> offsets.

End QueryAgent.

(** ** The database agent *)

Module DBAgent.

Record walk : Set := mkwalk { start_chk : bool; end_chk : bool; left_len : Z; wresult : list extent }.

Definition walk_step (start : Z) (st : walk) (pba : extent) : walk :=
  let s := OFFSET pba in
  let e := s + LENGTH pba in
  if negb (start_chk st) then
    if start <=? LENGTH pba then
      let piece len := mkextent (HOST pba) (DISK pba) (s + start) len in
      if s + start + left_len st <=? e
      then mkwalk true true (left_len st) (wresult st ++ [piece (left_len st)])
      else mkwalk true (end_chk st) (left_len st - (e - (s + start))) (wresult st ++ [piece (e - (s + start))])
    else st
  else if negb (end_chk st) then
    let piece len := mkextent (HOST pba) (DISK pba) s len in
    if s + left_len st <? e
    then mkwalk true true (left_len st) (wresult st ++ [piece (left_len st)])
    else mkwalk true (end_chk st) (left_len st) (wresult st ++ [piece (LENGTH pba)])
  else st.

(** The inner function [get] of [getPba]. *)
Definition get (start length : Z) (pbaList : list extent) : list extent :=
  wresult (foldl (walk_step start) (mkwalk false false length []) pbaList).

End DBAgent.

(** ** The specification *)

Definition place : Set := string * string * Z.

(** The bytes of an extent, and of the extents of a file. *)
Definition bytes_of (x : extent) : list place := (fun i => (HOST x, DISK x, OFFSET x + i)) <$> range (Z.to_nat (LENGTH x)).
Definition content (data : list extent) : list place := flat_map bytes_of data.

Definition lengths_ok (data : list extent) : Prop := Forall (fun x => 0 <= LENGTH x) data.

Lemma length_bytes x : length (bytes_of x) = Z.to_nat (LENGTH x).
Proof. unfold bytes_of, range. by rewrite !length_fmap, length_seq. Qed.

Lemma content_app a b : content (a ++ b) = content a ++ content b.
Proof. apply flat_map_app. Qed.

Lemma content_cons x l : content (x :: l) = bytes_of x ++ content l.
Proof. done. Qed.

Lemma content_one x : content [x] = bytes_of x.
Proof. cbn. apply app_nil_r. Qed.

(** A piece of an extent. *)
Lemma bytes_piece h d o len k n : 0 <= k -> 0 <= n -> k + n <= len ->
  bytes_of (mkextent h d (o + k) n) = take (Z.to_nat n) (drop (Z.to_nat k) (bytes_of (mkextent h d o len))).
Proof.
  intros Hk Hn Hl. unfold bytes_of, range. cbn. apply list_eq. intros i. rewrite !list_lookup_fmap.
  destruct (decide (i < Z.to_nat n)%nat) as [Hi|Hi].
  - rewrite lookup_take_lt, lookup_drop, !list_lookup_fmap by done. rewrite !lookup_seq_lt by lia. cbn. do 2 f_equal. lia.
  - rewrite (lookup_seq_ge _ _ i), (lookup_take_ge _ _ i) by lia. done.
Qed.

Lemma extent_eta x : mkextent (HOST x) (DISK x) (OFFSET x) (LENGTH x) = x.
Proof. by destruct x. Qed.

(** The first bytes of an extent. *)
Lemma bytes_prefix x n : 0 <= n <= LENGTH x -> bytes_of (mkextent (HOST x) (DISK x) (OFFSET x) n) = take (Z.to_nat n) (bytes_of x).
Proof.
  intros Hn. pose proof (bytes_piece (HOST x) (DISK x) (OFFSET x) (LENGTH x) 0 n) as H. rewrite Z.add_0_r, extent_eta in H. by rewrite H by lia.
Qed.

Lemma bytes_middle x k n : 0 <= k -> 0 <= n -> k + n <= LENGTH x ->
  bytes_of (mkextent (HOST x) (DISK x) (OFFSET x + k) n) = take (Z.to_nat n) (drop (Z.to_nat k) (bytes_of x)).
Proof. intros Hk Hn Hl. rewrite (bytes_piece _ _ _ (LENGTH x)) by done. by rewrite extent_eta. Qed.

(** Taking from a list that starts with an extent. *)
Lemma take_extent x rest n : Z.of_nat n <= LENGTH x -> take n (bytes_of x ++ rest) = take n (bytes_of x).
Proof. intros H. apply take_app_le. rewrite length_bytes. lia. Qed.

Lemma take_past x rest n : 0 <= LENGTH x <= n ->
  take (Z.to_nat n) (bytes_of x ++ rest) = bytes_of x ++ take (Z.to_nat (n - LENGTH x)) rest.
Proof. intros H. rewrite take_app, take_ge, length_bytes by (rewrite length_bytes; lia). do 2 f_equal. lia. Qed.

Section Scan.
Import Manager QueryAgent.
Context (start end_ : Z).

Lemma scan_done res l : foldl (scan_step start end_) (mkscan true true res) l = mkscan true true res.
Proof. induction l as [|x l IH]; [done|]. cbn [foldl]. unfold scan_step at 2. cbn. by destruct (RANGE x). Qed.

Lemma scan_rest data : lengths_ok data -> forall ran res, ran <= end_ ->
  content (result (foldl (scan_step start end_) (mkscan true false res) (set_ranges ran data))) =
  content res ++ take (Z.to_nat (end_ - ran)) (content data).
Proof.
  induction 1 as [|x data Hx _ IH]; intros ran res Hr; cbn [set_ranges foldl].
  { cbn. by rewrite take_nil, app_nil_r. }
  unfold scan_step at 2. cbn. rewrite (proj2 (Z.leb_le _ _)) by lia. cbn [andb].
  destruct (Z.ltb_spec end_ (ran + LENGTH x)) as [Hlt|Hge].
  - rewrite scan_done. cbn. rewrite content_app, content_one, bytes_prefix by lia. by rewrite take_extent by lia.
  - rewrite IH by lia. rewrite extent_eta, content_app, content_one, take_past by lia. rewrite <- app_assoc. do 4 f_equal. lia.
Qed.

Lemma scan_start data : lengths_ok data -> forall ran res, ran <= start <= end_ ->
  content (result (foldl (scan_step start end_) (mkscan false false res) (set_ranges ran data))) =
  content res ++ take (Z.to_nat (end_ - start)) (drop (Z.to_nat (start - ran)) (content data)).
Proof.
  induction 1 as [|x data Hx Hd IH]; intros ran res Hr; cbn [set_ranges foldl].
  { cbn. by rewrite drop_nil, take_nil, app_nil_r. }
  unfold scan_step at 2. cbn [schk RANGE the_extent negb echk result]. rewrite (proj2 (Z.leb_le ran start)) by lia. cbn [andb].
  destruct (Z.ltb_spec start (ran + LENGTH x)) as [Hin|Hout].
  - assert (Hdrop : drop (Z.to_nat (start - ran)) (content (x :: data)) = drop (Z.to_nat (start - ran)) (bytes_of x) ++ content data).
    { cbn. apply drop_app_le. rewrite length_bytes. lia. }
    rewrite Hdrop. destruct (Z.ltb_spec end_ (ran + LENGTH x)) as [Hlt|Hge].
    + rewrite scan_done. cbn [result]. rewrite content_app, content_one, bytes_middle by lia. f_equal.
      symmetry. apply take_app_le. rewrite length_drop, length_bytes. lia.
    + rewrite scan_rest by (done || lia). rewrite content_app, content_one, bytes_middle by lia. rewrite <- app_assoc. f_equal.
      rewrite take_app, length_drop, length_bytes. f_equal.
      * rewrite !take_ge; [done|rewrite length_drop, length_bytes; lia..].
      * f_equal. lia.
  - rewrite IH by lia. do 2 f_equal. cbn. rewrite drop_app_ge by (rewrite length_bytes; lia). rewrite length_bytes. f_equal. lia.
Qed.
End Scan.

Lemma LB2PBA_only FM path data sector length : NoDup FM.*1 -> (path, data) ∈ FM ->
  QueryAgent.LB2PBA FM path sector length =
  QueryAgent.result (foldl (QueryAgent.scan_step sector (sector + length)) (QueryAgent.mkscan false false []) data).
Proof.
  unfold QueryAgent.LB2PBA. intros Hnd Hin.
  assert (Hno : forall l res, path ∉ l.*1 -> foldl (fun res f => if negb (String.eqb path f.1) then res else
    QueryAgent.result (foldl (QueryAgent.scan_step sector (sector + length)) (QueryAgent.mkscan false false res) f.2)) res l = res).
  { induction l as [|f l IH]; intros res Hn; [done|]. cbn in Hn. apply not_elem_of_cons in Hn as [Hne Hn]. cbn [foldl].
    rewrite (proj2 (String.eqb_neq path f.1)) by congruence. cbn [negb]. by apply IH. }
  induction FM as [|f FM IH]; [by apply elem_of_nil in Hin|]. cbn in Hnd. apply NoDup_cons in Hnd as [Hf Hnd]. cbn [foldl].
  apply elem_of_cons in Hin as [<-|Hin].
  - cbn [fst] in *. rewrite String.eqb_refl. cbn [negb]. by rewrite Hno.
  - assert (Hne : path <> f.1) by (intros ->; apply Hf; by apply (list_elem_of_fmap_2 fst FM (f.1, data))).
    rewrite (proj2 (String.eqb_neq path f.1)) by done. cbn [negb]. by apply IH.
Qed.

(** A request to the query agent for length bytes at an offset of a file, whose
    extents the manager has joined and given their ranges, is answered with extents
    that stand for exactly the physical bytes of the file from the offset on, as
    many as were asked for or as the file has. *)
Theorem LB2PBA_correct FM path data sector length : NoDup FM.*1 -> (path, Manager.set_ranges 0 data) ∈ FM -> lengths_ok data ->
  0 <= sector -> 0 <= length ->
  content (QueryAgent.LB2PBA FM path sector length) = take (Z.to_nat length) (drop (Z.to_nat sector) (content data)).
Proof.
  intros Hnd Hin Hl Hs Hlen. rewrite (LB2PBA_only _ _ _ _ _ Hnd Hin). rewrite scan_start by (done || lia). cbn [content flat_map app]. do 2 f_equal; lia.
Qed.

Definition ex_data : list extent := [mkextent "a" "sda" 1000 10; mkextent "b" "sdb" 2000 20; mkextent "a" "sda" 5000 30]%string.

Lemma LB2PBA_correct_witness :
  content (QueryAgent.LB2PBA [("f"%string, Manager.set_ranges 0 ex_data)] "f" 5 40) = take 40 (drop 5 (content ex_data)).
Proof.
  apply (LB2PBA_correct [("f"%string, Manager.set_ranges 0 ex_data)] "f" ex_data 5 40).
  - apply NoDup_singleton.
  - apply list_elem_of_here.
  - repeat constructor; cbn; lia.
  - lia.
  - lia.
Defined.

(** A request that ends where an extent ends has an empty extent behind it. *)
Theorem LB2PBA_empty_extent :
  QueryAgent.LB2PBA [("f"%string, Manager.set_ranges 0 ex_data)] "f" 5 5 =
    [mkextent "a" "sda" 1005 5; mkextent "b" "sdb" 2000 0]%string.
Proof. vm_compute. done. Qed.

(** The parts are put into the order of their names, not of their numbers: the tenth before the second. *)
Theorem shards_out_of_order :
  Manager.sh_path <$> Manager.shard_list (Manager.mkshard "f" "a") (flip Manager.mkshard "a" <$> ["g.1"; "g.2"; "g.10"]) = ["f"; "g.1"; "g.10"; "g.2"]%string.
Proof. vm_compute. done. Qed.

(** ** The walk of the database agent *)

Section Walk.
Import DBAgent.
Context (start : Z).

Lemma walk_done left res l : foldl (walk_step start) (mkwalk true true left res) l = mkwalk true true left res.
Proof. induction l as [|x l IH]; [done|]. cbn [foldl]. unfold walk_step at 2. by cbn. Qed.
End Walk.

(** The database agent answers a request that starts in the first extent of a
    file with the physical bytes asked for, when it ends in that extent or before
    the end of the second one. *)
Theorem DBAgent_get_correct x y rest start length : 0 <= start <= LENGTH x -> 0 <= length -> 0 <= LENGTH y ->
  start + length <= LENGTH x \/ start + length < LENGTH x + LENGTH y ->
  content (DBAgent.get start length (x :: y :: rest)) = take (Z.to_nat length) (drop (Z.to_nat start) (content (x :: y :: rest))).
Proof.
  intros Hs Hl Hy Hor. unfold DBAgent.get. cbn [foldl]. unfold DBAgent.walk_step at 3. cbn [DBAgent.start_chk negb DBAgent.left_len DBAgent.wresult DBAgent.end_chk].
  rewrite (proj2 (Z.leb_le start (LENGTH x))) by lia.
  assert (Hdrop : drop (Z.to_nat start) (content (x :: y :: rest)) = drop (Z.to_nat start) (bytes_of x) ++ bytes_of y ++ content rest).
  { cbn. apply drop_app_le. rewrite length_bytes. lia. }
  rewrite Hdrop. destruct (Z.leb_spec (OFFSET x + start + length) (OFFSET x + LENGTH x)) as [Hin|Hout].
  - unfold DBAgent.walk_step at 2. cbn. rewrite walk_done. cbn. rewrite app_nil_r, bytes_middle by lia.
    symmetry. apply take_app_le. rewrite length_drop, length_bytes. lia.
  - unfold DBAgent.walk_step at 2. cbn [DBAgent.start_chk negb DBAgent.left_len DBAgent.wresult DBAgent.end_chk].
    set (left := length - (OFFSET x + LENGTH x - (OFFSET x + start))).
    rewrite (proj2 (Z.ltb_lt (OFFSET y + left) (OFFSET y + LENGTH y))) by lia. rewrite walk_done. cbn [DBAgent.wresult app].
    rewrite content_cons, content_one, bytes_prefix, bytes_middle by lia.
    rewrite take_app, length_drop, length_bytes, take_app_le by (rewrite length_bytes; lia). f_equal.
    + rewrite !take_ge; [done|rewrite length_drop, length_bytes; lia..].
    + f_equal. lia.
Qed.

Lemma DBAgent_get_correct_witness : content (DBAgent.get 5 20 ex_data) = take 20 (drop 5 (content ex_data)).
Proof.
  apply (DBAgent_get_correct (mkextent "a" "sda" 1000 10) (mkextent "b" "sdb" 2000 20) [mkextent "a" "sda" 5000 30] 5 20); cbn; lia.
Defined.

(** When the database agent skips the first extent it does not subtract its length
    from the offset: every request that starts behind the first extent and whose
    offset is smaller than the length of the second one is answered with a place too
    far into the second extent, so with bytes that are not the ones asked for. *)
Theorem DBAgent_start_not_reduced x y rest start length : 0 < LENGTH x < start -> 0 < length -> start + length <= LENGTH y ->
  DBAgent.get start length (x :: y :: rest) = [mkextent (HOST y) (DISK y) (OFFSET y + start) length] /\
  content (DBAgent.get start length (x :: y :: rest)) <> take (Z.to_nat length) (drop (Z.to_nat start) (content (x :: y :: rest))).
Proof.
  intros Hx Hl Hy. assert (E : DBAgent.get start length (x :: y :: rest) = [mkextent (HOST y) (DISK y) (OFFSET y + start) length]).
  { unfold DBAgent.get. cbn [foldl]. unfold DBAgent.walk_step at 3. cbn [DBAgent.start_chk negb DBAgent.left_len DBAgent.wresult DBAgent.end_chk].
    rewrite (proj2 (Z.leb_gt start (LENGTH x))) by lia. unfold DBAgent.walk_step at 2. cbn [DBAgent.start_chk negb DBAgent.left_len DBAgent.wresult DBAgent.end_chk].
    rewrite (proj2 (Z.leb_le start (LENGTH y))), (proj2 (Z.leb_le (OFFSET y + start + length) _)) by lia. by rewrite walk_done. }
  split; [done|]. rewrite E, content_one. intros H. apply (f_equal (fun l => l !! 0%nat)) in H.
  rewrite lookup_take_lt, lookup_drop, Nat.add_0_r in H by lia.
  rewrite !content_cons, lookup_app_r, length_bytes, lookup_app_l in H by (rewrite length_bytes; lia).
  unfold bytes_of, range in H. rewrite !list_lookup_fmap, !lookup_seq_lt in H by (cbn; lia). cbn in H. injection H as H. lia.
Qed.

Lemma DBAgent_start_not_reduced_witness :
  DBAgent.get 12 5 ex_data = [mkextent "b" "sdb" (2000 + 12) 5]%string /\
  content (DBAgent.get 12 5 ex_data) <> take 5 (drop 12 (content ex_data)).
Proof.
  apply (DBAgent_start_not_reduced (mkextent "a" "sda" 1000 10) (mkextent "b" "sdb" 2000 20) [mkextent "a" "sda" 5000 30] 12 5); cbn; lia.
Defined.

(** What is left to find is not reduced by the second extent: a request for the 30
    bytes of the first two extents is answered with 50. *)
Theorem DBAgent_end_missed :
  DBAgent.get 0 30 ex_data = [mkextent "a" "sda" 1000 10; mkextent "b" "sdb" 2000 20; mkextent "a" "sda" 5000 20]%string.
Proof. vm_compute. done. Qed.
