(* ===== verification/PbFiemap.v ===== *)
(** * Reading the extents of a file (api-server: worker.py, lba2pba_worker.py, db2pba.py)

    The workers ask the kernel for the extents of a file with the FIEMAP ioctl
    and unpack the buffer it fills.  The ioctl is a parameter; [fiemap_answers] is its
    documented behaviour for a request of the whole file.  Together with the
    manager and the query agent this gives the physical address of every byte
    of a file whose extents leave no holes. *)
From stdpp Require Import strings.
From S2P Require Import Prelude PbAddress.

(** ** Packed numbers *)

(** [n] bytes, the lowest first. *)
Fixpoint pack_le (n : nat) (v : Z) : list Z :=
  match n with O => [] | S n => v mod 256 :: pack_le n (v / 256) end.

Fixpoint unpack_le (l : list Z) : Z :=
  match l with [] => 0 | b :: l => b + 256 * unpack_le l end.

(** The fields of a format, Q or L, as numbers of bytes. *)
Definition Q : nat := 8.
Definition L : nat := 4.

Fixpoint struct_pack (format : list nat) (fields : list Z) : list Z :=
  match format, fields with
  | n :: format, v :: fields => pack_le n v ++ struct_pack format fields
  | _, _ => []
  end.

Fixpoint unpack_fields (format : list nat) (l : list Z) : list Z :=
  match format with
  | [] => []
  | n :: format => unpack_le (take n l) :: unpack_fields format (drop n l)
  end.

Definition calcsize (format : list nat) : nat := sum_list format.

(** An exception when the size is not that of the format. *)
Definition struct_unpack (format : list nat) (l : list Z) : option (list Z) :=
  if (length l =? calcsize format)%nat then Some (unpack_fields format l) else None.

Definition _PBASCAN_FORMAT : list nat := [Q; Q; L; L; L; L].
Definition _PBASCAN_SIZE : nat := calcsize _PBASCAN_FORMAT.
Definition _PBASCAN_EXTENT_FORMAT : list nat := [Q; Q; Q; Q; Q; L; L; L; L].
Definition _PBASCAN_EXTENT_SIZE : nat := calcsize _PBASCAN_EXTENT_FORMAT.
Definition _PBASCAN_FLAG_SYNC : Z := 1.
Definition _PBASCAN_BUFFER_SIZE : Z := 256 * 1024.

(** ** The workers *)

Module Worker.

Definition extent_cnt : Z := (_PBASCAN_BUFFER_SIZE - Z.of_nat _PBASCAN_SIZE) / Z.of_nat _PBASCAN_EXTENT_SIZE.

(** The buffer before the call: the header, and room for the extents. *)
Definition request (st_size : Z) : list Z :=
  struct_pack _PBASCAN_FORMAT [0; st_size; _PBASCAN_FLAG_SYNC; 0; extent_cnt; 0] ++
  repeat 0 (Z.to_nat (extent_cnt * Z.of_nat _PBASCAN_EXTENT_SIZE)).

(** [for i in range(0, pba_map[3])]: the physical address and the length of each extent. *)
Fixpoint read_extents (n i : nat) (buf : list Z) : option (list (Z * Z)) :=
  match n with
  | O => Some []
  | S n =>
      let dist := (_PBASCAN_SIZE + _PBASCAN_EXTENT_SIZE * i)%nat in
      e ← struct_unpack _PBASCAN_EXTENT_FORMAT (take _PBASCAN_EXTENT_SIZE (drop dist buf));
      offset ← e !! 1%nat;
      length ← e !! 2%nat;
      rest ← read_extents n (S i) buf;
      Some ((offset, length) :: rest)
  end.

(** [block_query.post]: [None] is an exception. *)
Definition block_query (ioctl : list Z -> option (list Z)) (st_size : Z) : option (list (Z * Z)) :=
  buf ← ioctl (request st_size);
  header ← struct_unpack _PBASCAN_FORMAT (take _PBASCAN_SIZE buf);
  mapped ← header !! 3%nat;
  read_extents (Z.to_nat mapped) 0 buf.

(** [getPBA] of worker.py: every exception gives an empty list; with no extents
    the message at the end uses a name that is not bound. *)
Definition getPBA (ioctl : list Z -> option (list Z)) (st_size : Z) : list (Z * Z) :=
  match block_query ioctl st_size with
  | Some chunks => if (length chunks =? 0)%nat then [] else chunks
  | None => []
  end.

End Worker.

(** ** The ioctl *)

(** [struct fiemap_extent]. *)
Record fiemap_extent : Set := mkfe { fe_logical : Z; fe_physical : Z; fe_length : Z; fe_flags : Z }.

Definition packed_extent (x : fiemap_extent) : list Z :=
  struct_pack _PBASCAN_EXTENT_FORMAT [fe_logical x; fe_physical x; fe_length x; 0; 0; fe_flags x; 0; 0; 0].

Definition fe_ok (x : fiemap_extent) : Prop :=
  0 <= fe_logical x < 2 ^ 64 /\ 0 <= fe_physical x < 2 ^ 64 /\ 0 <= fe_length x < 2 ^ 64 /\ 0 <= fe_flags x < 2 ^ 32.

(** The kernel answers a request for a whole file with the number of extents
    and the extents, as many as there is room for; the rest of the buffer
    stays as it was. *)
Definition fiemap_answers (ioctl : list Z -> option (list Z)) (st_size : Z) (exts : list fiemap_extent) : Prop :=
  exists start size flags, 0 <= start < 2 ^ 64 /\ 0 <= size < 2 ^ 64 /\ 0 <= flags < 2 ^ 32 /\
    let told := take (Z.to_nat Worker.extent_cnt) exts in
    ioctl (Worker.request st_size) = Some (
      struct_pack _PBASCAN_FORMAT [start; size; flags; Z.of_nat (length told); Worker.extent_cnt; 0] ++
      flat_map packed_extent told ++
      drop (_PBASCAN_SIZE + _PBASCAN_EXTENT_SIZE * length told) (Worker.request st_size)).

(** ** Round trips *)

Lemma length_pack_le n v : length (pack_le n v) = n.
Proof. revert v. induction n as [|n IH]; intros v; cbn; [done|]. by rewrite IH. Qed.

Lemma unpack_pack_le n : forall v, 0 <= v < 256 ^ Z.of_nat n -> unpack_le (pack_le n v) = v.
Proof.
  induction n as [|n IH]; intros v Hv; cbn [pack_le unpack_le]; [cbn in Hv; lia|].
  rewrite Nat2Z.inj_succ, Z.pow_succ_r in Hv by lia. rewrite IH.
  - pose proof (Z.div_mod v 256). lia.
  - split; [apply Z.div_pos; lia|]. apply Z.div_lt_upper_bound; lia.
Qed.

Definition fields_ok (format : list nat) (fields : list Z) : Prop := Forall2 (fun n v => 0 <= v < 256 ^ Z.of_nat n) format fields.

Lemma length_struct_pack format fields : fields_ok format fields -> length (struct_pack format fields) = calcsize format.
Proof. induction 1 as [|n v format fields _ _ IH]; cbn; [done|]. rewrite length_app, length_pack_le. unfold calcsize in IH. by rewrite IH. Qed.

Lemma unpack_packed format fields : fields_ok format fields -> struct_unpack format (struct_pack format fields) = Some fields.
Proof.
  intros H. unfold struct_unpack. rewrite length_struct_pack, Nat.eqb_refl by done. f_equal.
  induction H as [|n v format fields Hv _ IH]; cbn; [done|].
  rewrite take_app_length', drop_app_length' by (by rewrite length_pack_le). rewrite unpack_pack_le, IH by done. done.
Qed.

Lemma pow_Q : 256 ^ Z.of_nat Q = 2 ^ 64.
Proof. done. Qed.

Lemma pow_L : 256 ^ Z.of_nat L = 2 ^ 32.
Proof. done. Qed.

Ltac fields := repeat (apply Forall2_cons; split; [rewrite ?pow_Q, ?pow_L; lia|]); apply Forall2_nil_2.

Lemma extent_fields x : fe_ok x -> fields_ok _PBASCAN_EXTENT_FORMAT [fe_logical x; fe_physical x; fe_length x; 0; 0; fe_flags x; 0; 0; 0].
Proof. intros (H1 & H2 & H3 & H4). fields. Qed.

Lemma length_packed x : fe_ok x -> length (packed_extent x) = _PBASCAN_EXTENT_SIZE.
Proof. intros H. apply length_struct_pack, extent_fields, H. Qed.

Lemma take_packed exts rest : Forall fe_ok exts -> forall i x, exts !! i = Some x ->
  take _PBASCAN_EXTENT_SIZE (drop (_PBASCAN_EXTENT_SIZE * i) (flat_map packed_extent exts ++ rest)) = packed_extent x.
Proof.
  induction 1 as [|y exts Hy _ IH]; intros i x Hi; [done|]. cbn [flat_map]. rewrite <- app_assoc. destruct i as [|i]; cbn in Hi.
  - injection Hi as ->. rewrite Nat.mul_0_r, drop_0. apply take_app_length'. by rewrite length_packed.
  - rewrite Nat.mul_succ_r, Nat.add_comm, <- drop_drop, drop_app_length' by (by rewrite length_packed). by apply IH.
Qed.

Lemma read_extents_ok header exts rest : length header = _PBASCAN_SIZE -> Forall fe_ok exts -> forall n i, (i + n = length exts)%nat ->
  Worker.read_extents n i (header ++ flat_map packed_extent exts ++ rest) = Some ((fun x => (fe_physical x, fe_length x)) <$> drop i exts).
Proof.
  intros Hh Hok. induction n as [|n IH]; intros i Hi; cbn [Worker.read_extents].
  { by rewrite drop_ge by lia. }
  destruct (lookup_lt_is_Some_2 exts i) as [x Hx]; [lia|]. pose proof (Forall_lookup_1 _ _ _ _ Hok Hx) as Hxo.
  rewrite <- drop_drop, drop_app_length', (take_packed exts rest Hok i x Hx) by done.
  unfold packed_extent. rewrite unpack_packed by (by apply extent_fields). cbn [mbind option_bind lookup list_lookup].
  rewrite IH by lia. cbn [mbind option_bind]. by rewrite (drop_S _ _ _ Hx).
Qed.

(** What the worker reads, of as many extents as the buffer has room for. *)
Lemma block_query_ok ioctl st_size exts : fiemap_answers ioctl st_size exts -> Forall fe_ok exts ->
  Worker.block_query ioctl st_size = Some ((fun x => (fe_physical x, fe_length x)) <$> take (Z.to_nat Worker.extent_cnt) exts).
Proof.
  intros (start & size & flags & H1 & H2 & H3 & E) Hok. unfold Worker.block_query. cbv zeta in E. rewrite E. cbn [mbind option_bind].
  set (told := take (Z.to_nat Worker.extent_cnt) exts) in *. assert (Hlen : Z.of_nat (length told) <= Worker.extent_cnt).
  { unfold told. rewrite length_take. assert (0 <= Worker.extent_cnt) by (vm_compute; discriminate). lia. }
  assert (Hcnt : Worker.extent_cnt = 4680) by (vm_compute; reflexivity). rewrite Hcnt in *.
  assert (Hf : fields_ok _PBASCAN_FORMAT [start; size; flags; Z.of_nat (length told); 4680; 0]) by fields.
  rewrite take_app_length', unpack_packed by (done || by rewrite length_struct_pack). cbn [mbind option_bind lookup list_lookup]. rewrite Nat2Z.id.
  rewrite read_extents_ok; [done|by apply length_struct_pack|by apply Forall_take|lia].
Qed.

(** The worker reads back what the kernel wrote: when the ioctl answers as
    documented, getPBA returns the physical address and the length of every extent
    of the file in order, of at most the 4680 extents that fit its buffer; it never
    asks for the rest. *)
Theorem worker_getPBA_correct ioctl st_size exts : fiemap_answers ioctl st_size exts -> Forall fe_ok exts ->
  Worker.getPBA ioctl st_size = (fun x => (fe_physical x, fe_length x)) <$> take 4680 exts.
Proof.
  intros Ha Hok. unfold Worker.getPBA. rewrite (block_query_ok ioctl st_size exts Ha Hok).
  assert (Hcnt : Worker.extent_cnt = 4680) by (vm_compute; reflexivity). rewrite Hcnt. change (Z.to_nat 4680) with 4680%nat.
  by destruct ((fun x => (fe_physical x, fe_length x)) <$> take 4680 exts).
Qed.

(** ** From the kernel to the answer *)

(** The extents cover the file from an offset on without holes. *)
Fixpoint contiguous (o : Z) (exts : list fiemap_extent) : Prop :=
  match exts with [] => True | x :: exts => fe_logical x = o /\ contiguous (o + fe_length x) exts end.

(** Where the kernel says that a byte of the file is. *)
Fixpoint locate (exts : list fiemap_extent) (o : Z) : option Z :=
  match exts with
  | [] => None
  | x :: exts => if (fe_logical x <=? o) && (o <? fe_logical x + fe_length x) then Some (fe_physical x + (o - fe_logical x)) else locate exts o
  end.

Definition extents_of (host disk : string) (exts : list fiemap_extent) : list extent :=
  (fun x => mkextent host disk (fe_physical x) (fe_length x)) <$> exts.

Lemma content_locate host disk exts : Forall fe_ok exts -> forall base o, contiguous base exts -> base <= o ->
  content (extents_of host disk exts) !! Z.to_nat (o - base) = (fun p => (host, disk, p)) <$> locate exts o.
Proof.
  induction 1 as [|x exts Hx _ IH]; intros base o Hc Ho; [done|]. destruct Hc as [Hl Hc]. destruct Hx as (_ & _ & Hx & _).
  cbn [extents_of fmap list_fmap locate]. rewrite content_cons, Hl, (proj2 (Z.leb_le base o)) by lia. cbn [andb].
  destruct (Z.ltb_spec o (base + fe_length x)) as [Hin|Hout].
  - rewrite lookup_app_l by (rewrite length_bytes; cbn; lia). unfold bytes_of, range. rewrite !list_lookup_fmap, lookup_seq_lt by (cbn; lia).
    cbn. do 2 f_equal. lia.
  - rewrite lookup_app_r by (rewrite length_bytes; cbn; lia). rewrite length_bytes. cbn [LENGTH].
    fold (extents_of host disk exts). replace (Z.to_nat (o - base) - Z.to_nat (fe_length x))%nat with (Z.to_nat (o - (base + fe_length x))) by lia.
    apply IH; [done|lia].
Qed.

Lemma extents_lengths host disk exts : Forall fe_ok exts -> lengths_ok (extents_of host disk exts).
Proof. intros H. apply Forall_fmap. eapply Forall_impl; [done|]. intros x (_ & _ & Hx & _). cbn. lia. Qed.

(** What the manager gets for a file in one part. *)
Definition one_part (ioctl : list Z -> option (list Z)) (st_size : Z) (host disk path : string) : list ranged :=
  Manager.getPBA (fun _ _ => [Manager.mkfile disk (default [] (Worker.block_query ioctl st_size))]) [Manager.mkshard path host].

Lemma one_part_ok ioctl st_size exts host disk path : fiemap_answers ioctl st_size exts -> Forall fe_ok exts -> (length exts <= 4680)%nat ->
  one_part ioctl st_size host disk path = Manager.set_ranges 0 (extents_of host disk exts).
Proof.
  intros Ha Hok Hlen. unfold one_part, Manager.getPBA. cbn [flat_map Manager.sh_host Manager.sh_path]. rewrite app_nil_r. f_equal.
  unfold Manager.file2PBA. cbn [flat_map]. rewrite app_nil_r, (block_query_ok ioctl st_size exts Ha Hok).
  assert (Hcnt : Worker.extent_cnt = 4680) by (vm_compute; reflexivity). rewrite Hcnt, take_ge by lia. cbn [default from_option id Manager.CHUNKS Manager.fd_disk].
  unfold extents_of. rewrite <- list_fmap_compose. done.
Qed.


(** ** Examples *)

Definition ex_ioctl (exts : list fiemap_extent) (st_size : Z) (buf : list Z) : option (list Z) :=
  Some (struct_pack _PBASCAN_FORMAT [0; st_size; 1; Z.of_nat (length exts); Worker.extent_cnt; 0] ++
    flat_map packed_extent exts ++ drop (_PBASCAN_SIZE + _PBASCAN_EXTENT_SIZE * length exts) buf).

Definition ex_exts : list fiemap_extent := [mkfe 0 8192 4096 0; mkfe 4096 65536 8192 1].

Lemma ex_answers : fiemap_answers (ex_ioctl ex_exts 12288) 12288 ex_exts.
Proof. exists 0, 12288, 1. split; [lia|]. split; [lia|]. split; [lia|]. done. Qed.

Lemma ex_exts_ok : Forall fe_ok ex_exts.
Proof. repeat (apply Forall_cons; split; [unfold fe_ok; cbn; lia|]). apply Forall_nil_2. Qed.

Lemma worker_getPBA_correct_witness :
  Worker.getPBA (ex_ioctl ex_exts 12288) 12288 = (fun x => (fe_physical x, fe_length x)) <$> take 4680 ex_exts.
Proof. apply (worker_getPBA_correct (ex_ioctl ex_exts 12288) 12288 ex_exts); [apply ex_answers|apply ex_exts_ok]. Defined.


(** The offset at which an extent lies in the file is not looked at: with a hole in
    the file every byte behind the hole is reported at a wrong place, and bytes of
    the hole at places of others. Here byte 4096 is in a hole and reported as the
    first byte of the extent at 8192, and that byte is not found. *)
Theorem holes_shift_addresses : let exts := [mkfe 0 8192 4096 0; mkfe 8192 65536 4096 1] in
  let FM := [("f"%string, Manager.set_ranges 0 (extents_of "a" "sda" exts))] in
  content (QueryAgent.LB2PBA FM "f" 4096 1) = [("a", "sda", 65536)]%string /\ locate exts 4096 = None /\
  content (QueryAgent.LB2PBA FM "f" 8192 1) = [] /\ locate exts 8192 = Some 65536.
Proof. vm_compute. done. Qed.
