(* ===== verification/PbTrace.v ===== *)
(** * The trace service (api-server: lba2pba/trace/trace.py)

    The service keeps the extents of the files of each node, and tells
    registered managers about changes that workers report.  Dictionaries are
    lists of keys and values in the order of insertion.  A handler is a function
    on the state that may raise: what it did before stays done, and the handler
    answers Fail.  The answers to shell commands ([getstatusoutput], which may raise)
    and the delivery of messages are parameters.  The handlers run one after
    another here; the server runs them on ten threads without a lock, so that they
    may also overlap between two statements. *)
From Stdlib Require Import Ascii.
From stdpp Require Import strings.
From S2P Require Import Prelude.

(** ** Strings *)

(** [sub in s]. *)
Fixpoint contains (sub s : string) : bool :=
  String.prefix sub s || match s with EmptyString => false | String _ s => contains sub s end.

(** [s.split(c)[-1]] and [s.split(c)[0]]. *)
Fixpoint last_part (sep : ascii) (s : string) : string :=
  match s with
  | EmptyString => EmptyString
  | String c s' =>
      if contains (String sep EmptyString) s' then last_part sep s' else if Ascii.eqb c sep then s' else s
  end.

Fixpoint first_part (sep : ascii) (s : string) : string :=
  match s with
  | EmptyString => EmptyString
  | String c s => if Ascii.eqb c sep then EmptyString else String c (first_part sep s)
  end.

(** [s.split(sep)[-1]] for a longer separator that does not overlap itself. *)
Fixpoint after_last (sep s : string) : string :=
  match s with
  | EmptyString => EmptyString
  | String _ s' =>
      if contains sep s' then after_last sep s'
      else if String.prefix sep s then String.substring (String.length sep) (String.length s) s else s
  end.

(** [s.replace('-','')]. *)
Fixpoint without_dashes (s : string) : string :=
  match s with
  | EmptyString => EmptyString
  | String c s => if Ascii.eqb c "-"%char then without_dashes s else String c (without_dashes s)
  end.

(** [int(s)] of a string of ASCII characters: spaces around it, a sign, and
    underscores between digits are allowed. *)
Definition is_space (c : ascii) : bool :=
  let n := nat_of_ascii c in ((9 <=? n)%nat && (n <=? 13)%nat) || ((28 <=? n)%nat && (n <=? 32)%nat).

Fixpoint skip_spaces (s : string) : string :=
  match s with String c s' => if is_space c then skip_spaces s' else s | EmptyString => EmptyString end.

Fixpoint digits (s : string) (acc : Z) (after_digit : bool) : option Z :=
  match s with
  | EmptyString => if after_digit then Some acc else None
  | String c s =>
      let n := nat_of_ascii c in
      if (48 <=? n)%nat && (n <=? 57)%nat then digits s (10 * acc + Z.of_nat (n - 48)) true
      else if Ascii.eqb c "_"%char then if after_digit then digits s acc false else None
      else if is_space c && after_digit && (if skip_spaces s is EmptyString then true else false) then Some acc
      else None
  end.

Definition int (s : string) : option Z :=
  match skip_spaces s with
  | String c s' =>
      if Ascii.eqb c "-"%char then Z.opp <$> digits s' 0 false
      else if Ascii.eqb c "+"%char then digits s' 0 false
      else digits (String c s') 0 false
  | EmptyString => None
  end.

(** ** Dictionaries *)

Section Dict.
Context {K A : Type} `{EqDecision K}.

Fixpoint dget (d : list (K * A)) (k : K) : option A :=
  match d with [] => None | (k', a) :: d => if decide (k' = k) then Some a else dget d k end.

Fixpoint dset (d : list (K * A)) (k : K) (a : A) : list (K * A) :=
  match d with [] => [(k, a)] | (k', a') :: d => if decide (k' = k) then (k, a) :: d else (k', a') :: dset d k a end.

Fixpoint ddel (d : list (K * A)) (k : K) : list (K * A) :=
  match d with [] => [] | (k', a) :: d => if decide (k' = k) then d else (k', a) :: ddel d k end.

Lemma dget_dset d k k' a : dget (dset d k a) k' = if decide (k = k') then Some a else dget d k'.
Proof.
  induction d as [|[j b] d IH]; cbn; [done|]. destruct (decide (j = k)) as [->|H1]; cbn; [by destruct (decide (k = k'))|].
  destruct (decide (j = k')) as [->|H2]; [by rewrite decide_False by congruence|apply IH].
Qed.

Lemma dget_keys d k : k ∈ d.*1 <-> is_Some (dget d k).
Proof.
  induction d as [|[j b] d IH]; cbn; [split; [by intros H%elem_of_nil|by intros [? [=]]]|]. rewrite elem_of_cons. case_decide as H.
  - subst j. split; [by eexists|by left].
  - rewrite IH. split; [intros [->|]; done|by right].
Qed.

Lemma dset_keys d k a k' : k' ∈ (dset d k a).*1 <-> k' = k \/ k' ∈ d.*1.
Proof. rewrite !dget_keys, dget_dset. case_decide as H; split; [by left|by eexists|by right|]. intros [->|]; done. Qed.

Lemma dset_nodup d k a : NoDup d.*1 -> NoDup (dset d k a).*1.
Proof.
  induction d as [|[j b] d IH]; cbn; [intros _; apply NoDup_singleton|]. intros Hn. apply NoDup_cons in Hn as [Hj Hn]. case_decide as H; cbn.
  - subst j. by apply NoDup_cons.
  - apply NoDup_cons. split; [|by apply IH]. intros Hin. apply dset_keys in Hin as [->|]; done.
Qed.

Lemma ddel_keys d k k' : NoDup d.*1 -> k' ∈ (ddel d k).*1 <-> k' <> k /\ k' ∈ d.*1.
Proof.
  induction d as [|[j b] d IH]; cbn; [intros _; split; [by intros H%elem_of_nil|by intros [_ H%elem_of_nil]]|]. intros Hn.
  apply NoDup_cons in Hn as [Hj Hn]. case_decide as H; cbn.
  - subst j. split; [intros Hin; split; [by intros ->|by right]|intros [Hne Hin]; by apply elem_of_cons in Hin as [|]].
  - rewrite !elem_of_cons, (IH Hn). split; [intros [->|[]]; auto|intros [Hne [->|]]; auto].
Qed.

Lemma ddel_nodup d k : NoDup d.*1 -> NoDup (ddel d k).*1.
Proof.
  induction d as [|[j b] d IH]; cbn; [done|]. intros Hn. apply NoDup_cons in Hn as [Hj Hn]. case_decide as H; cbn; [done|].
  apply NoDup_cons. split; [|by apply IH]. intros Hin. apply (ddel_keys d k j Hn) in Hin as [_ Hin]. done.
Qed.
End Dict.

(** ** Messages *)

Record PBA : Set := mkpba { disk : string; host : string; offset : Z; length_ : Z; major : Z; minor : Z }.

Record FilePBA : Set := mkfilepba { pba : list PBA; rPba : list (string * list PBA); fileName : string; volName : string; type : string }.

(** ** The state *)

(** [fmDict[node][fname]]: the shards, the extents of the first part, and the type. *)
Record entry : Set := mkentry { e_shard : list (string * FilePBA); e_pba : list PBA; e_type : string }.

Record trace : Set := mktrace {
  fmDict : list (string * list (string * entry));
  rawFM : list (string * list (string * FilePBA));
  shardDict : list (option string * string);
  agent : list string;
  sent : list (string * string * FilePBA) }.

(** Handlers: a result or an exception, and the state. *)
Definition handler (A : Type) : Type := trace -> option A * trace.
#[global] Instance handler_ret : MRet handler := fun A a s => (Some a, s).
#[global] Instance handler_bind : MBind handler := fun A B f h s =>
  match h s with (Some a, s) => f a s | (None, s) => (None, s) end.

Definition raise {A} : handler A := fun s => (None, s).
Definition or_raise {A} (o : option A) : handler A := fun s => (o, s).
Definition gets {A} (f : trace -> A) : handler A := fun s => (Some (f s), s).
Definition modify (f : trace -> trace) : handler () := fun s => (Some (), f s).

Definition set_fm (d : list (string * list (string * entry))) (s : trace) : trace := mktrace d (rawFM s) (shardDict s) (agent s) (sent s).
Definition set_raw (d : list (string * list (string * FilePBA))) (s : trace) : trace := mktrace (fmDict s) d (shardDict s) (agent s) (sent s).
Definition set_shard (d : list (option string * string)) (s : trace) : trace := mktrace (fmDict s) (rawFM s) d (agent s) (sent s).
Definition set_agent (l : list string) (s : trace) : trace := mktrace (fmDict s) (rawFM s) (shardDict s) l (sent s).
Definition set_sent (l : list (string * string * FilePBA)) (s : trace) : trace := mktrace (fmDict s) (rawFM s) (shardDict s) (agent s) l.

(** ** The name of the shards of a file *)

(** [subprocess.getstatusoutput]: the status and the output, or an exception. *)
Definition commands : Type := string -> option (Z * string).

Definition quote : string := String "034"%char EmptyString.

Definition gfidCmd (f host : string) : string :=
  "ssh " +:+ host +:+ " " +:+ quote +:+ "getfattr -d -m. -e hex --absolute-name " +:+ f +:+
  " | grep gfid=0x | cut -d" +:+ quote +:+ "=" +:+ quote +:+ " -f2" +:+ quote.

(** The outer [None] is an exception, the inner one the answer [None]. *)
Definition toShard (getstatusoutput : commands) (f host : string) : option (option string) :=
  '(err, res) ← getstatusoutput (gfidCmd f host);
  Some (if err =? 0 then Some (after_last "0x" res) else None).

(** ** Handlers *)

Section Trace.
(** The answers to commands, and whether a message reaches an agent. *)
Context (getstatusoutput : commands) (delivered : string -> bool).

(** [d[node][fname]] of the two dictionaries. *)
Definition fm_entry (node fname : string) : handler entry :=
  fm ← gets fmDict; files ← or_raise (dget fm node); or_raise (dget files fname).
Definition put_entry (node fname : string) (e : entry) : handler () :=
  fm ← gets fmDict; files ← or_raise (dget fm node); modify (set_fm (dset fm node (dset files fname e))).
Definition raw_entry (node fname : string) : handler FilePBA :=
  raw ← gets rawFM; files ← or_raise (dget raw node); or_raise (dget files fname).
Definition put_raw (node fname : string) (f : FilePBA) : handler () :=
  raw ← gets rawFM; files ← or_raise (dget raw node); modify (set_raw (dset raw node (dset files fname f))).

(** [for agent in self.agent: stub.PushPba(...)]. *)
Fixpoint push_all (agents : list string) (action : string) (message : handler FilePBA) : handler () :=
  match agents with
  | [] => mret ()
  | a :: agents =>
      f ← message;
      if delivered a then
        log ← gets sent; _ ← modify (set_sent (log ++ [(a, action, f)]));
        push_all agents action message
      else raise
  end.

(** [shardList.sort()]: the keys of a dictionary cannot be sorted; an empty list is not. *)
Definition sort_keys (shards : list (string * FilePBA)) : handler () :=
  match shards with [] => mret () | _ :: _ => raise end.

(** The key of a shard, from its file name. *)
Definition shard_key (sName : string) : string := without_dashes (last_part "/"%char sName).

(** The statements in front of the call of [toShard] and behind it. *)
Definition create_begin (node : string) (fPba : FilePBA) : handler () :=
  let fname := fileName fPba in
  fm ← gets fmDict;
  files ← or_raise (dget fm node);
  if dget files fname is Some _ then mret () else put_entry node fname (mkentry [] (pba fPba) (type fPba)).

Definition create_end (node : string) (fPba : FilePBA) (shardName : option string) : handler string :=
  let fname := fileName fPba in
  shards ← gets shardDict;
  _ ← modify (set_shard (dset shards shardName (last_part "/"%char fname)));
  _ ← put_raw node fname (mkfilepba (pba fPba) [] fname "" (type fPba));
  mret fname.

Definition create_file (node : string) (fPba : FilePBA) : handler string :=
  _ ← create_begin node fPba;
  shardName ← or_raise (toShard getstatusoutput (fileName fPba) node);
  create_end node fPba shardName.

Definition create_shard (node : string) (fPba : FilePBA) : handler string :=
  let sName := fileName fPba in
  shards ← gets shardDict;
  fname ← or_raise (dget shards (Some (shard_key sName)));
  e ← fm_entry node fname;
  let e := mkentry (dset (e_shard e) sName fPba) (e_pba e) (e_type e) in
  _ ← put_entry node fname e;
  _ ← sort_keys (e_shard e);
  _ ← put_raw node fname (mkfilepba (e_pba e) [] fname "" (e_type e));
  mret fname.

(** The name of the shards is read and not used. *)
Definition modify_file (node : string) (fPba : FilePBA) : handler string :=
  let fname := fileName fPba in
  _ ← or_raise (toShard getstatusoutput fname node);
  e ← fm_entry node fname;
  _ ← put_entry node fname (mkentry (e_shard e) (pba fPba) (e_type e));
  _ ← sort_keys (e_shard e);
  mret fname.

(** [self.fmDict[fname]['shard']] is looked up without the node; the keys of
    what might be there cannot be sorted either. *)
Definition modify_shard (node : string) (fPba : FilePBA) : handler string :=
  let sName := fileName fPba in
  shards ← gets shardDict;
  fname ← or_raise (dget shards (Some (shard_key sName)));
  e ← fm_entry node fname;
  _ ← put_entry node fname (mkentry (dset (e_shard e) sName fPba) (e_pba e) (e_type e));
  fm ← gets fmDict;
  files ← or_raise (dget fm fname);
  _ ← or_raise (dget files "shard");
  raise.

(** The first key with the value is deleted, and the loop over the dictionary
    that has changed raises. *)
Definition forget_shards (fname : string) : handler () :=
  shards ← gets shardDict;
  match list_find (fun kv => kv.2 = fname) shards with
  | None => mret ()
  | Some (_, (k, _)) => _ ← modify (set_shard (ddel shards k)); raise
  end.

Definition delete_file (node : string) (fPba : FilePBA) : handler () :=
  let fname := fileName fPba in
  _ ← fm_entry node fname;
  fm ← gets fmDict; files ← or_raise (dget fm node);
  _ ← modify (set_fm (dset fm node (ddel files fname)));
  _ ← raw_entry node fname;
  raw ← gets rawFM; rfiles ← or_raise (dget raw node);
  _ ← modify (set_raw (dset raw node (ddel rfiles fname)));
  _ ← forget_shards fname;
  agents ← gets agent;
  push_all agents "delete" (mret (mkfilepba [] [] fname "" (type fPba))).

(** [self.rawFM[fname]] is looked up without the node: what might be there is
    no message unless it is empty. *)
Definition delete_shard (node : string) (fPba : FilePBA) : handler () :=
  let sName := fileName fPba in
  shards ← gets shardDict;
  fname ← or_raise (dget shards (Some (shard_key sName)));
  e ← fm_entry node fname;
  _ ← or_raise (dget (e_shard e) sName);
  let e := mkentry (ddel (e_shard e) sName) (e_pba e) (e_type e) in
  _ ← put_entry node fname e;
  _ ← sort_keys (e_shard e);
  _ ← put_raw node fname (mkfilepba (e_pba e) [] fname "" "");
  agents ← gets agent;
  push_all agents "modify"
    (raw ← gets rawFM; files ← or_raise (dget raw fname);
     if files is [] then mret (mkfilepba [] [] "" "" "") else raise).

(** The body of [TChangeFile]: what it answers. *)
Definition change_file (action : string) (fPba : FilePBA) : handler string :=
  first ← or_raise (pba fPba !! 0%nat);
  let node := host first in
  let shard := contains ".shard" (fileName fPba) in
  if String.eqb action "create" then
    fname ← (if shard then create_shard node fPba else create_file node fPba);
    agents ← gets agent;
    _ ← push_all agents "create" (raw_entry node fname);
    mret "OK"%string
  else if String.eqb action "modify" then
    fname ← (if shard then modify_shard node fPba else modify_file node fPba);
    agents ← gets agent;
    _ ← push_all agents "modify" (raw_entry node fname);
    mret "OK"%string
  else if String.eqb action "delete" then
    _ ← (if shard then delete_shard node fPba else delete_file node fPba);
    mret "OK"%string
  else mret "Fail"%string.

Definition TChangeFile (action : string) (fPba : FilePBA) (s : trace) : string * trace :=
  match change_file action fPba s with (Some r, s) => (r, s) | (None, s) => ("Fail"%string, s) end.

End Trace.

(** ** The first scan *)

Section Init.
Context (getstatusoutput : commands).

Record scanned : Set := mkscanned {
  rawFilePba : list FilePBA; shardPba : list FilePBA; scanned_shards : list (option string * string) }.

Definition scan_file (peer : string) (sc : scanned) (f : FilePBA) : option scanned :=
  let fname := fileName f in
  if contains "/.shard/" fname then Some (mkscanned (rawFilePba sc) (shardPba sc ++ [f]) (scanned_shards sc))
  else
    shardName ← toShard getstatusoutput fname peer;
    Some (mkscanned (rawFilePba sc ++ [f]) (shardPba sc) (dset (scanned_shards sc) shardName fname)).

Fixpoint scan_files (peer : string) (files : list FilePBA) (sc : scanned) : option scanned :=
  match files with [] => Some sc | f :: files => sc ← scan_file peer sc f; scan_files peer files sc end.

Fixpoint scan_peers (peers : list (string * list FilePBA)) (sc : scanned) : option scanned :=
  match peers with [] => Some sc | p :: peers => sc ← scan_files p.1 p.2 sc; scan_peers peers sc end.

Definition empty_dicts {A} (peers : list string) : list (string * list (string * A)) :=
  foldl (fun d p => dset d p []) [] peers.

(** The entries of the files, and the node of the last one. *)
Fixpoint file_entries (files : list FilePBA) (fm : list (string * list (string * entry))) (node : string) :
    option (list (string * list (string * entry)) * string) :=
  match files with
  | [] => Some (fm, node)
  | f :: files =>
      first ← pba f !! 0%nat;
      let node := host first in
      known ← dget fm node;
      let fm := match dget known (fileName f) with
                | Some _ => fm
                | None => dset fm node (dset known (fileName f) (mkentry [] (pba f) (type f)))
                end in
      file_entries files fm node
  end.

(** Every shard goes to the node that the loop before left in its variable. *)
Fixpoint shard_entries (shards : list FilePBA) (names : list (option string * string)) (node : string)
    (fm : list (string * list (string * entry))) : option (list (string * list (string * entry))) :=
  match shards with
  | [] => Some fm
  | f :: shards =>
      let sKey := first_part "."%char (shard_key (fileName f)) in
      fname ← dget names (Some sKey);
      files ← dget fm node;
      e ← dget files fname;
      shard_entries shards names node
        (dset fm node (dset files fname (mkentry (dset (e_shard e) (fileName f) f) (e_pba e) (e_type e))))
  end.

(** [sorted(shards, key=lambda x: int(x.rsplit('.',1)[1]))]. *)
Definition shard_number (x : string) : option Z :=
  if contains "." x then int (last_part "."%char x) else None.

Fixpoint insert_numbered (x : Z * (string * FilePBA)) (l : list (Z * (string * FilePBA))) : list (Z * (string * FilePBA)) :=
  match l with [] => [x] | y :: l => if x.1 <=? y.1 then x :: y :: l else y :: insert_numbered x l end.

Definition sorted_shards (shards : list (string * FilePBA)) : option (list (Z * (string * FilePBA))) :=
  numbered ← mapM (fun sh => n ← shard_number sh.1; Some (n, sh)) shards;
  Some (foldr insert_numbered [] numbered).

Definition raw_of (fname : string) (e : entry) : option FilePBA :=
  shards ← sorted_shards (e_shard e);
  Some (mkfilepba (e_pba e ++ flat_map (fun sh => pba sh.2.2) shards) [] fname "" (e_type e)).

Definition raw_files (files : list (string * entry)) : option (list (string * FilePBA)) :=
  mapM (fun kv => f ← raw_of kv.1 kv.2; Some (kv.1, f)) files.

Definition raw_map (fm : list (string * list (string * entry))) : option (list (string * list (string * FilePBA))) :=
  mapM (fun kv => files ← raw_files kv.2; Some (kv.1, files)) fm.

(** [__init__], with the answers of the workers; [None] when it raises. *)
Definition init (peers : list (string * list FilePBA)) : option trace :=
  sc ← scan_peers peers (mkscanned [] [] []);
  let fm := empty_dicts peers.*1 in
  match rawFilePba sc with
  | [] => Some (mktrace fm (empty_dicts peers.*1) (scanned_shards sc) [] [])
  | _ :: _ =>
      '(fm, node) ← file_entries (rawFilePba sc) fm "";
      fm ← shard_entries (shardPba sc) (scanned_shards sc) node fm;
      raw ← raw_map fm;
      Some (mktrace fm raw (scanned_shards sc) [] [])
  end.
End Init.

Definition TGetFileMap (s : trace) : list FilePBA := flat_map (fun node => node.2.*2) (rawFM s).

Definition TRegister (addr : string) (s : trace) : trace := set_agent (agent s ++ [addr]) s.

(** [list(set(...))]: [set_order] is the order in which a set is listed; [None]
    is the exception for an address that is not there. *)
Definition TDeregister (set_order : list string -> list string) (addr : string) (s : trace) : option trace :=
  let agents := set_order (remove_dups (agent s)) in
  if decide (addr ∈ agents) then Some (set_agent (filter (fun a => a <> addr) agents) s) else None.
