(* ===== verification/PbTraceClaims.v ===== *)
(** * What the trace service keeps true, and where it fails

    In every state the service reaches by requests one after another, also after
    one that raised half way, each record has an entry, and the two dictionaries
    have the same files if no shell command raised.  After the first
    scan each record holds the extents of the file and then those of its shards
    in the order of their numbers.  Reports about shards are always refused. *)
From Stdlib Require Import Ascii.
From stdpp Require Import strings sorting.
From S2P Require Import Prelude PbTrace.

(** ** Handlers that keep a property *)

Ltac handle := cbv beta iota zeta delta [mbind handler_bind mret handler_ret gets or_raise modify raise].

(** From a state with [P] a handler ends with [Q] of its result, or raises with [R]. *)
Definition triple {A} (P : trace -> Prop) (h : handler A) (Q : A -> trace -> Prop) (R : trace -> Prop) : Prop :=
  forall s, P s -> match h s with (Some a, s) => Q a s | (None, s) => R s end.

Lemma triple_bind {A B} P (h : handler A) (f : A -> handler B) M Q R :
  triple P h M R -> (forall a, triple (M a) (f a) Q R) -> triple P (h ≫= f) Q R.
Proof.
  intros Hh Hf s Hs. unfold mbind, handler_bind. specialize (Hh s Hs). destruct (h s) as [[a|] s']; [|done]. by apply Hf.
Qed.

Definition keeps {A} (P : trace -> Prop) (h : handler A) : Prop := triple P h (fun _ => P) P.

Lemma keeps_bind {A B} P (h : handler A) (f : A -> handler B) : keeps P h -> (forall a, keeps P (f a)) -> keeps P (h ≫= f).
Proof. intros Hh Hf. exact (triple_bind P h f (fun _ => P) (fun _ => P) P Hh Hf). Qed.
Lemma keeps_ret {A} P (a : A) : keeps P (mret a).
Proof. by intros s Hs. Qed.
Lemma keeps_gets {A} P (f : trace -> A) : keeps P (gets f).
Proof. by intros s Hs. Qed.
Lemma keeps_raise {A} P : keeps P (@raise A).
Proof. by intros s Hs. Qed.
Lemma keeps_or_raise {A} P (o : option A) : keeps P (or_raise o).
Proof. intros s Hs. by destruct o. Qed.
Lemma keeps_modify (P : trace -> Prop) f : (forall s, P s -> P (f s)) -> keeps P (modify f).
Proof. intros H s Hs. by apply H. Qed.
Lemma keeps_if {A} P (b : bool) (h k : handler A) : keeps P h -> keeps P k -> keeps P (if b then h else k).
Proof. by destruct b. Qed.

Create HintDb keeps.
#[export] Hint Resolve keeps_ret keeps_gets keeps_raise keeps_or_raise keeps_if : keeps.
Ltac keep := repeat first [solve [auto with keeps] | apply keeps_bind; [|intros ?]].

Lemma keeps_push P delivered agents action message :
  (forall s l, P s -> P (set_sent l s)) -> keeps P message -> keeps P (push_all delivered agents action message).
Proof.
  intros HP Hm. induction agents as [|a agents IH]; cbn [push_all]; [apply keeps_ret|].
  apply keeps_bind; [done|]. intros f. apply keeps_if; [|apply keeps_raise]. apply keeps_bind; [apply keeps_gets|]. intros log.
  apply keeps_bind; [apply keeps_modify; auto|]. intros _. exact IH.
Qed.

Lemma keeps_sort_keys P shards : keeps P (sort_keys shards).
Proof. destruct shards; [apply keeps_ret|apply keeps_raise]. Qed.
Lemma keeps_fm_entry P node fname : keeps P (fm_entry node fname).
Proof. unfold fm_entry. keep. Qed.
Lemma keeps_raw_entry P node fname : keeps P (raw_entry node fname).
Proof. unfold raw_entry. keep. Qed.
#[export] Hint Resolve keeps_sort_keys keeps_fm_entry keeps_raw_entry keeps_push : keeps.

Lemma triple_weaken {A} (P P' : trace -> Prop) (h : handler A) Q Q' R :
  (forall s, P s -> P' s) -> (forall a s, Q' a s -> Q a s) -> triple P' h Q' R -> triple P h Q R.
Proof. intros HP HQ H s Hs. specialize (H s (HP s Hs)). destruct (h s) as [[a|] s']; auto. Qed.

(** Handlers that only read do not matter in between. *)
Lemma triple_or_raise {A B} (P : trace -> Prop) (o : option A) (f : A -> handler B) Q (R : trace -> Prop) :
  (forall s, P s -> R s) -> (forall a, triple P (f a) Q R) -> triple P (or_raise o ≫= f) Q R.
Proof. intros HR H. apply (triple_bind P _ f (fun _ => P)); [|done]. intros s Hs. destruct o; cbn; auto. Qed.

Lemma triple_gets {A B} (P : trace -> Prop) (g : trace -> A) (f : A -> handler B) Q (R : trace -> Prop) :
  (forall a, triple P (f a) Q R) -> triple P (gets g ≫= f) Q R.
Proof. intros H. apply (triple_bind P _ f (fun _ => P)); [|done]. by intros s Hs. Qed.

(** What a request answers depends on the handler only; what it leaves behind is
    what the handler does, raised or not. *)
Lemma TChangeFile_keeps P gs delivered action f s :
  keeps P (change_file gs delivered action f) -> P s -> P (TChangeFile gs delivered action f s).2.
Proof.
  intros H Hs. unfold TChangeFile. specialize (H s Hs). by destruct (change_file _ _ _ _ s) as [[r|] s'].
Qed.

(** ** The requests *)

(** The states the service reaches from one by requests, one after another; the
    answers to commands, for which [allowed] holds, may be others each time. *)
Inductive reaches (allowed : commands -> Prop) (s0 : trace) : trace -> Prop :=
| reaches_start : reaches allowed s0 s0
| reaches_change gs delivered action f s : allowed gs ->
    reaches allowed s0 s -> reaches allowed s0 (TChangeFile gs delivered action f s).2
| reaches_register addr s : reaches allowed s0 s -> reaches allowed s0 (TRegister addr s)
| reaches_deregister order addr s s' :
    reaches allowed s0 s -> TDeregister order addr s = Some s' -> reaches allowed s0 s'.

Lemma reaches_inv (P : trace -> Prop) (allowed : commands -> Prop) s0 s :
  (forall s l, P s -> P (set_agent l s)) ->
  (forall gs delivered action f, allowed gs -> keeps P (change_file gs delivered action f)) ->
  P s0 -> reaches allowed s0 s -> P s.
Proof.
  intros Ha Hc H0 Hr. induction Hr as [|gs delivered action f s Hg Hr IH|addr s Hr IH|order addr s s' Hr IH E]; [done| | |].
  - apply TChangeFile_keeps; auto.
  - by apply Ha.
  - unfold TDeregister in E. case_decide; [|done]. injection E as <-. by apply Ha.
Qed.

(** ** The two dictionaries *)

(** The nodes are the same; a node has each file once; a file with a record has an
    entry, and, if [strict], the other way round. *)
Definition agree (strict : Prop) (fm : option (list (string * entry))) (raw : option (list (string * FilePBA))) : Prop :=
  match fm, raw with
  | Some f, Some r => NoDup f.*1 /\ NoDup r.*1 /\ (forall x, x ∈ r.*1 -> x ∈ f.*1) /\ (strict -> forall x, x ∈ f.*1 -> x ∈ r.*1)
  | None, None => True
  | _, _ => False
  end.
Definition maps_ok (strict : Prop) (s : trace) : Prop := forall node, agree strict (dget (fmDict s) node) (dget (rawFM s) node).

(** Every record has an entry; and both are the same files. *)
Definition records_known : trace -> Prop := maps_ok False.
Definition same_files : trace -> Prop := maps_ok True.

(** A command that raises: its answer is missing. *)
Definition answering (gs : commands) : Prop := forall cmd, is_Some (gs cmd).

(** A file is in the first dictionary of its node. *)
Definition known (node fname : string) (s : trace) : Prop := exists f, dget (fmDict s) node = Some f /\ fname ∈ f.*1.

Section Agree.
Context (strict : Prop).
Local Abbreviation ok := (maps_ok strict).

(** The dictionaries are as they should be, but the file of a node that is in the
    first may not be in the second yet. *)
Definition half (node fname : string) (s : trace) : Prop :=
  (forall n, n <> node -> agree strict (dget (fmDict s) n) (dget (rawFM s) n)) /\
  exists f r, dget (fmDict s) node = Some f /\ dget (rawFM s) node = Some r /\ NoDup f.*1 /\ NoDup r.*1 /\
    fname ∈ f.*1 /\ (forall x, x ∈ r.*1 -> x ∈ f.*1) /\ (strict -> forall x, x ∈ f.*1 -> x = fname \/ x ∈ r.*1).

Lemma half_known node fname s : ok s -> known node fname s -> half node fname s.
Proof.
  intros H (f & E & Hin). split; [intros n _; apply H|]. specialize (H node). rewrite E in H. destruct (dget (rawFM s) node) as [r|] eqn:Er; [|done].
  destruct H as (H1 & H2 & H3 & H4). exists f, r. split_and!; auto.
Qed.

(** Without the second step the dictionaries are not the same. *)
Lemma half_ok node fname s : ~ strict -> half node fname s -> ok s.
Proof.
  intros Hn (Ho & f & r & E & Er & H1 & H2 & H3 & H4 & H5) n. destruct (decide (n = node)) as [->|Hne]; [|by apply Ho]. rewrite E, Er. split_and!; auto. by intros.
Qed.

Lemma put_entry_half node fname e : triple ok (put_entry node fname e) (fun _ => half node fname) ok.
Proof.
  intros s H. unfold put_entry. handle. destruct (dget (fmDict s) node) as [f|] eqn:E; [|done]. split.
  - intros n Hn. cbn -[dset]. rewrite dget_dset, decide_False by congruence. apply H.
  - specialize (H node). rewrite E in H. destruct (dget (rawFM s) node) as [r|] eqn:Er; [|done]. destruct H as (H1 & H2 & H3 & H4).
    exists (dset f fname e), r. cbn -[dset]. rewrite dget_dset, decide_True by done. split_and!; auto using dset_nodup.
    + apply dset_keys. by left.
    + intros x Hx. apply dset_keys. auto.
    + intros Hs x Hx. apply dset_keys in Hx as [|]; auto.
Qed.

Lemma put_raw_same node fname g : triple (half node fname) (put_raw node fname g) (fun _ => ok) ok.
Proof.
  intros s (Ho & f & r & E & Er & H1 & H2 & H3 & H4 & H5). unfold put_raw. handle. rewrite Er. intros n. cbn -[dset].
  rewrite dget_dset. case_decide as Hn; [subst n|apply Ho; congruence]. rewrite E. split_and!; auto using dset_nodup.
  - intros x Hx. apply dset_keys in Hx as [->|]; auto.
  - intros Hs x Hx. apply dset_keys. auto.
Qed.

Lemma fm_entry_known node fname :
  triple ok (fm_entry node fname) (fun _ s => ok s /\ known node fname s) ok.
Proof.
  intros s H. unfold fm_entry. handle. destruct (dget (fmDict s) node) as [f|] eqn:E; [|done].
  destruct (dget f fname) as [e|] eqn:Ee; [|done]. split; [done|]. exists f. split; [done|]. apply dget_keys. by eexists.
Qed.

(** Storing into an entry that is there. *)
Lemma put_known node fname e :
  triple (fun s => ok s /\ known node fname s) (put_entry node fname e) (fun _ s => ok s /\ known node fname s) ok.
Proof.
  intros s (H & f & E & Hin). unfold put_entry. handle. rewrite E. split.
  - intros n. cbn -[dset]. rewrite dget_dset. specialize (H n). case_decide as Hn; [subst n|done]. rewrite E in H.
    destruct (dget (rawFM s) node) as [r|]; [|done]. destruct H as (H1 & H2 & H3 & H4). split_and!; auto using dset_nodup.
    + intros x Hx. apply dset_keys. auto.
    + intros Hs x Hx. apply dset_keys in Hx as [->|]; auto.
  - exists (dset f fname e). cbn -[dset]. rewrite dget_dset, decide_True by done. split; [done|]. apply dset_keys. by left.
Qed.

Lemma same_shard s d : ok s -> ok (set_shard d s).
Proof. intros H n. exact (H n). Qed.
Lemma same_sent s l : ok s -> ok (set_sent l s).
Proof. intros H n. exact (H n). Qed.
Hint Resolve same_shard same_sent : keeps.

Lemma create_begin_half node f : triple ok (create_begin node f) (fun _ => half node (fileName f)) ok.
Proof.
  intros s Hs. unfold create_begin. handle. destruct (dget (fmDict s) node) as [files|] eqn:E; [|done].
  destruct (dget files (fileName f)) as [e|] eqn:Ee; [|by apply put_entry_half].
  apply half_known; [done|]. exists files. split; [done|]. apply dget_keys. by eexists.
Qed.

Lemma create_end_same node f name : triple (half node (fileName f)) (create_end node f name) (fun _ => ok) ok.
Proof.
  unfold create_end. apply triple_gets. intros shards. apply (triple_bind _ _ _ (fun _ => half node (fileName f))); [by intros s Hs|]. intros _.
  apply (triple_bind _ _ _ _ _ _ (put_raw_same node _ _)). intros _. by intros s Hs.
Qed.

Lemma create_file_same gs node f : (strict -> answering gs) -> keeps ok (create_file gs node f).
Proof.
  intros Hg. unfold create_file, keeps. apply (triple_bind _ _ _ _ _ _ (create_begin_half node f)). intros _. unfold toShard.
  destruct (gs (gfidCmd (fileName f) node)) as [[err res]|] eqn:E.
  - cbn. apply (triple_bind _ _ _ (fun _ => half node (fileName f))); [by intros s Hs|]. intros name. apply create_end_same.
  - intros s Hs. cbn. apply (half_ok node (fileName f)); [|done]. intros Hst. destruct (Hg Hst (gfidCmd (fileName f) node)) as [x Hx]. congruence.
Qed.

Lemma create_shard_same node f : keeps ok (create_shard node f).
Proof.
  unfold create_shard, keeps. apply triple_gets. intros shards. apply triple_or_raise; [done|]. intros fname.
  apply (triple_bind _ _ _ _ _ _ (fm_entry_known node fname)). intros e. apply (triple_bind _ _ _ _ _ _ (put_known node fname _)). intros _.
  destruct (dset _ _ _) as [|sh l]; [|by intros s [Hs _]].
  apply (triple_bind _ _ _ (fun _ => half node fname)); [intros s [Hs Hk]; by apply half_known|]. intros _.
  apply (triple_bind _ _ _ _ _ _ (put_raw_same node fname _)). intros _. by intros s Hs.
Qed.

Lemma modify_file_same gs node f : keeps ok (modify_file gs node f).
Proof.
  unfold modify_file, keeps. apply triple_or_raise; [done|]. intros _. apply (triple_bind _ _ _ _ _ _ (fm_entry_known node _)). intros e.
  apply (triple_bind _ _ _ _ _ _ (put_known node _ _)). intros _. apply (triple_weaken _ ok _ _ (fun _ => ok)); [by intros s []|done|].
  apply keeps_bind; [apply keeps_sort_keys|]. intros _. apply keeps_ret.
Qed.

Lemma modify_shard_same node f : keeps ok (modify_shard node f).
Proof.
  unfold modify_shard, keeps. apply triple_gets. intros shards. apply triple_or_raise; [done|]. intros fname.
  apply (triple_bind _ _ _ _ _ _ (fm_entry_known node fname)). intros e. apply (triple_bind _ _ _ _ _ _ (put_known node fname _)). intros _.
  apply (triple_weaken _ ok _ _ (fun _ => ok)); [by intros s []|done|]. change (keeps ok
    (fm ← gets fmDict; files ← or_raise (dget fm fname); _ ← or_raise (dget files "shard"); @raise string)). keep.
Qed.

Lemma delete_shard_same delivered node f : keeps ok (delete_shard delivered node f).
Proof.
  unfold delete_shard, keeps. apply triple_gets. intros shards. apply triple_or_raise; [done|]. intros fname.
  apply (triple_bind _ _ _ _ _ _ (fm_entry_known node fname)). intros e. apply triple_or_raise; [by intros s []|]. intros g.
  apply (triple_bind _ _ _ _ _ _ (put_known node fname _)). intros _.
  destruct (ddel _ _) as [|sh l]; [|by intros s [Hs _]].
  apply (triple_bind _ _ _ (fun _ => half node fname)); [intros s [Hs Hk]; by apply half_known|]. intros _.
  apply (triple_bind _ _ _ _ _ _ (put_raw_same node fname _)). intros _. apply keeps_bind; [apply keeps_gets|]. intros agents.
  apply keeps_push; [intros; by apply same_sent|]. apply keeps_bind; [apply keeps_gets|]. intros raw.
  apply keeps_bind; [apply keeps_or_raise|]. intros files. destruct files; auto with keeps.
Qed.

Lemma forget_shards_keeps P fname : (forall s d, P s -> P (set_shard d s)) -> keeps P (forget_shards fname).
Proof.
  intros HP. unfold forget_shards. apply keeps_bind; [apply keeps_gets|]. intros shards. destruct (list_find _ shards) as [[i [k v]]|]; [|apply keeps_ret].
  apply keeps_bind; [apply keeps_modify; auto|]. intros _. apply keeps_raise.
Qed.

(** An entry without a record is deleted before the missing record raises. *)
Lemma delete_file_same delivered node f : keeps ok (delete_file delivered node f).
Proof.
  intros s Hs. unfold delete_file. remember (_ ← forget_shards (fileName f); _) as rest eqn:Er. unfold fm_entry, raw_entry. handle.
  destruct (dget (fmDict s) node) as [files|] eqn:E; [|done]. destruct (dget files (fileName f)) as [e|] eqn:Ee; [|done].
  rewrite E. pose proof (Hs node) as Hn. rewrite E in Hn. destruct (dget (rawFM s) node) as [r|] eqn:Ew; [|done].
  destruct Hn as (H1 & H2 & H3 & H4). cbn -[dset ddel]. rewrite Ew. destruct (dget r (fileName f)) as [g|] eqn:Eg.
  - assert (Hk : keeps ok rest).
    { subst rest. apply keeps_bind; [apply forget_shards_keeps; intros; by apply same_shard|]. intros _. apply keeps_bind; [apply keeps_gets|].
      intros agents. apply keeps_push; [intros; by apply same_sent|apply keeps_ret]. }
    cbn [rawFM set_fm]. rewrite Ew. apply Hk. intros n. cbn -[dset ddel]. rewrite !dget_dset. case_decide as Hn; [|apply Hs]. split_and!; auto using ddel_nodup.
    + intros x. rewrite !ddel_keys by done. naive_solver.
    + intros Hst x. rewrite !ddel_keys by done. naive_solver.
  - intros n. cbn -[dset ddel]. rewrite dget_dset. case_decide as Hn; [subst n|apply Hs]. rewrite Ew. assert (Hni : fileName f ∉ r.*1).
    { intros Hin. apply dget_keys in Hin as [x Hx]. congruence. }
    split_and!; auto using ddel_nodup.
    + intros x Hx. apply ddel_keys; [done|]. split; [by intros ->|auto].
    + intros Hst x Hx. apply ddel_keys in Hx as [_ Hx]; auto.
Qed.

Lemma change_file_same gs delivered action f : (strict -> answering gs) -> keeps ok (change_file gs delivered action f).
Proof.
  intros Hg. pose proof (fun node => create_file_same gs node f Hg). pose proof create_shard_same. pose proof modify_file_same. pose proof modify_shard_same.
  pose proof delete_shard_same. pose proof delete_file_same. unfold change_file. apply keeps_bind; [apply keeps_or_raise|]. intros first. repeat (apply keeps_if; [keep|]); keep.
Qed.
End Agree.

(** ** The first scan *)

(** Every dictionary of a node has each file once. *)
Definition once {A} (fm : list (string * list (string * A))) : Prop := forall node f, dget fm node = Some f -> NoDup f.*1.

Lemma once_dset {A} (fm : list (string * list (string * A))) node f : once fm -> NoDup f.*1 -> once (dset fm node f).
Proof. intros H Hf n g. rewrite dget_dset. case_decide; [intros [= <-]; done|apply H]. Qed.

Lemma empty_dicts_empty {A} peers (d : list (string * list (string * A))) node f :
  (forall n g, dget d n = Some g -> g = []) -> dget (foldl (fun d p => dset d p []) d peers) node = Some f -> f = [].
Proof.
  revert d. induction peers as [|p peers IH]; intros d Hd; [apply Hd|]. cbn. apply IH. intros n g. rewrite dget_dset.
  case_decide; [by intros [= <-]|apply Hd].
Qed.

Lemma empty_dicts_once {A} peers : once (@empty_dicts A peers).
Proof. intros node f H. apply empty_dicts_empty in H as ->; [apply NoDup_nil_2|by intros]. Qed.

Lemma file_entries_once files fm node fm' node' : once fm -> file_entries files fm node = Some (fm', node') -> once fm'.
Proof.
  revert fm node. induction files as [|f files IH]; intros fm node Ho; cbn [file_entries]; [by intros [= <- _]|].
  destruct (pba f !! 0%nat) as [x|]; cbn; [|done]. destruct (dget fm (host x)) as [g|] eqn:E; cbn; [|done]. apply IH.
  destruct (dget g (fileName f)); [done|]. apply once_dset; [done|]. by apply dset_nodup, (Ho (host x)).
Qed.

Lemma shard_entries_once shards names node fm fm' : once fm -> shard_entries shards names node fm = Some fm' -> once fm'.
Proof.
  revert fm. induction shards as [|f shards IH]; intros fm Ho; cbn [shard_entries]; [by intros [= <-]|].
  destruct (dget names _) as [fname|]; cbn; [|done]. destruct (dget fm node) as [g|] eqn:E; cbn; [|done].
  destruct (dget g fname) as [e|]; cbn; [|done]. apply IH, once_dset; [done|]. by apply dset_nodup, (Ho node).
Qed.

(** A loop that computes a dictionary from another, key by key. *)
Lemma mapM_dict {A B} (g : string -> A -> option B) (d : list (string * A)) (d' : list (string * B)) :
  mapM (fun kv => b ← g kv.1 kv.2; Some (kv.1, b)) d = Some d' ->
  d'.*1 = d.*1 /\ forall k, match dget d k, dget d' k with Some a, Some b => g k a = Some b | None, None => True | _, _ => False end.
Proof.
  revert d'. induction d as [|[j a] d IH]; intros d'; cbn; [by intros [= <-]|]. destruct (g j a) as [b|] eqn:E; cbn; [|done].
  destruct (mapM _ d) as [l|] eqn:El; cbn; [|done]. intros [= <-]. destruct (IH l eq_refl) as [Hk Hl]. split; [cbn; by rewrite Hk|].
  intros k. cbn. case_decide as Hj; [by subst j|apply Hl].
Qed.

Lemma raw_map_lookup fm raw node :
  raw_map fm = Some raw ->
  match dget fm node, dget raw node with Some f, Some r => raw_files f = Some r | None, None => True | _, _ => False end.
Proof. intros H. apply (mapM_dict (fun _ f => raw_files f)) in H as [_ H]. apply H. Qed.

Lemma init_same gs peers s strict : init gs peers = Some s -> maps_ok strict s.
Proof.
  unfold init. destruct (scan_peers gs peers _) as [sc|]; cbn; [|done]. destruct (rawFilePba sc) as [|x l] eqn:El.
  - intros [= <-] n. cbn.
    assert (H : forall d d', (forall n, agree strict (dget d n) (dget d' n)) ->
      agree strict (dget (foldl (fun d p => dset d p []) d peers.*1) n) (dget (foldl (fun d p => dset d p []) d' peers.*1) n)).
    { induction (peers.*1) as [|p ps IH]; intros d d' H; [apply H|]. apply IH. intros m. rewrite !dget_dset. case_decide; [|apply H].
      split_and!; [apply NoDup_nil_2|apply NoDup_nil_2|done|done]. }
    apply H. done.
  - destruct (file_entries _ _ _) as [[fm node]|] eqn:E1; cbn; [|done]. destruct (shard_entries _ _ _ fm) as [fm'|] eqn:E2; cbn; [|done].
    destruct (raw_map fm') as [raw|] eqn:E3; cbn; [|done]. intros [= <-] n. cbn.
    pose proof (shard_entries_once _ _ _ _ _ (file_entries_once _ _ _ _ _ (empty_dicts_once _) E1) E2 n) as Ho.
    pose proof (raw_map_lookup _ _ n E3) as Hr. destruct (dget fm' n) as [f|], (dget raw n) as [r|]; try done.
    apply (mapM_dict raw_of) in Hr as [Hk _]. specialize (Ho f eq_refl). cbn. rewrite Hk. split_and!; done.
Qed.

(** The shards are sorted by number, none lost. *)
Lemma insert_numbered_perm x l : insert_numbered x l ≡ₚ x :: l.
Proof. induction l as [|y l IH]; cbn; [done|]. destruct (x.1 <=? y.1); [done|]. rewrite IH. constructor. Qed.

Lemma insert_numbered_sorted x l :
  StronglySorted (fun a b : Z * (string * FilePBA) => a.1 <= b.1) l -> StronglySorted (fun a b => a.1 <= b.1) (insert_numbered x l).
Proof.
  induction l as [|y l IH]; cbn; [by repeat constructor|]. intros H. inversion H as [|? ? Hs Hf]; subst.
  destruct (Z.leb_spec x.1 y.1).
  - constructor; [done|]. constructor; [done|]. eapply Forall_impl; [exact Hf|]. cbn. lia.
  - constructor; [by apply IH|]. rewrite insert_numbered_perm. constructor; [lia|done].
Qed.

Lemma sorted_shards_spec shards l :
  sorted_shards shards = Some l ->
  StronglySorted (fun a b => a.1 <= b.1) l /\ l.*2 ≡ₚ shards /\ Forall (fun x => shard_number x.2.1 = Some x.1) l.
Proof.
  unfold sorted_shards. destruct (mapM _ shards) as [ns|] eqn:E; cbn; [|done]. intros [= <-].
  assert (Hn : ns.*2 = shards /\ Forall (fun x => shard_number x.2.1 = Some x.1) ns).
  { revert ns E. induction shards as [|sh shards IH]; intros ns; cbn; [by intros [= <-]|].
    destruct (shard_number sh.1) as [n|] eqn:En; cbn; [|done]. destruct (mapM _ shards) as [ns'|]; cbn; [|done]. intros [= <-].
    destruct (IH ns' eq_refl) as [<- Hf]. split; [done|by constructor]. }
  destruct Hn as [<- Hf]. assert (Hp : foldr insert_numbered [] ns ≡ₚ ns).
  { clear. induction ns as [|x ns IH]; cbn; [done|]. by rewrite insert_numbered_perm, IH. }
  split_and!; [|by rewrite Hp|by rewrite Hp]. clear. induction ns; cbn; [constructor|by apply insert_numbered_sorted].
Qed.

(** ** Reports about shards *)

(** No key of a shard has a dot in it. *)
Definition dotless_keys (d : list (option string * string)) : Prop := forall k, Some k ∈ d.*1 -> contains "." k = false.
Definition dotless (s : trace) : Prop := dotless_keys (shardDict s).

Lemma contains_cons c d s : contains (String c EmptyString) (String d s) = bool_decide (c = d) || contains (String c EmptyString) s.
Proof. cbn. destruct (ascii_dec c d) as [->|H]; [rewrite bool_decide_true by done; by destruct s|by rewrite bool_decide_false by done]. Qed.

Lemma without_dashes_dots s : contains "." (without_dashes s) = contains "." s.
Proof.
  induction s as [|c s IH]; [done|]. cbn [without_dashes]. destruct (Ascii.eqb_spec c "-") as [->|Hc]; rewrite !contains_cons, ?IH; [|done].
  by rewrite bool_decide_false.
Qed.

Lemma ddel_subset {K A} `{EqDecision K} (d : list (K * A)) k k' : k' ∈ (ddel d k).*1 -> k' ∈ d.*1.
Proof.
  induction d as [|[j b] d IH]; cbn; [done|]. case_decide; cbn; [by right|]. rewrite !elem_of_cons. intros [->|]; auto.
Qed.

Lemma dotless_set_fm s d : dotless s -> dotless (set_fm d s).
Proof. done. Qed.
Lemma dotless_set_raw s d : dotless s -> dotless (set_raw d s).
Proof. done. Qed.
Lemma dotless_set_sent s d : dotless s -> dotless (set_sent d s).
Proof. done. Qed.
#[export] Hint Resolve dotless_set_fm dotless_set_raw dotless_set_sent keeps_modify : keeps.

Lemma put_entry_dotless node fname e : keeps dotless (put_entry node fname e).
Proof. unfold put_entry. keep. Qed.
Lemma put_raw_dotless node fname f : keeps dotless (put_raw node fname f).
Proof. unfold put_raw. keep. Qed.
#[export] Hint Resolve put_entry_dotless put_raw_dotless : keeps.

Lemma forget_shards_dotless fname : keeps dotless (forget_shards fname).
Proof.
  intros s Hs. unfold forget_shards. handle. destruct (list_find _ _) as [[i [k v]]|]; [|done]. intros j Hj. apply Hs. exact (ddel_subset _ _ _ Hj).
Qed.
#[export] Hint Resolve forget_shards_dotless : keeps.

Lemma dotless_dset d k v : dotless_keys d -> (forall j, k = Some j -> contains "." j = false) -> dotless_keys (dset d k v).
Proof. intros H Hk j Hj. apply dset_keys in Hj as [E|Hj]; [by apply Hk|by apply H]. Qed.

Lemma create_shard_dotless node f : keeps dotless (create_shard node f).
Proof. unfold create_shard. keep. Qed.
Lemma modify_file_dotless gs node f : keeps dotless (modify_file gs node f).
Proof. unfold modify_file. keep. Qed.
Lemma modify_shard_dotless node f : keeps dotless (modify_shard node f).
Proof. unfold modify_shard. keep. Qed.
Lemma delete_file_dotless delivered node f : keeps dotless (delete_file delivered node f).
Proof. unfold delete_file. keep. Qed.
Lemma delete_shard_dotless delivered node f : keeps dotless (delete_shard delivered node f).
Proof.
  unfold delete_shard. keep. apply keeps_push; [auto with keeps|]. keep.
  match goal with |- keeps _ (match ?files with _ => _ end) => destruct files; auto with keeps end.
Qed.
#[export] Hint Resolve create_shard_dotless modify_file_dotless modify_shard_dotless delete_file_dotless delete_shard_dotless : keeps.

(** The attribute is printed as hexadecimal digits (option [-e hex] of getfattr). *)
Definition hex_names (gs : commands) : Prop := forall f h k, toShard gs f h = Some (Some k) -> contains "." k = false.

Section Dotless.
Context (gs : commands) (hex_name : hex_names gs).

Lemma create_file_dotless node f : keeps dotless (create_file gs node f).
Proof.
  unfold create_file. apply keeps_bind.
  { unfold create_begin. apply keeps_bind; [apply keeps_gets|]. intros fm. apply keeps_bind; [apply keeps_or_raise|]. intros files. destruct (dget files _); auto with keeps. }
  intros _. destruct (toShard gs (fileName f) node) as [name|] eqn:E; [|by intros s Hs]. apply (triple_bind _ _ _ (fun a s => dotless s /\ a = name)); [by intros s Hs|].
  intros name'. unfold create_end. apply (triple_bind _ _ _ (fun d s => (dotless s /\ name' = name) /\ d = shardDict s)); [by intros s Hs|].
  intros d. apply (triple_bind _ _ _ (fun _ => dotless)); [intros s [[Hs ->] ->]; apply dotless_dset; [done|by intros j ->; eapply hex_name]|].
  intros _. change (keeps dotless (_ ← put_raw node (fileName f) (mkfilepba (pba f) [] (fileName f) "" (type f)); mret (fileName f))). keep.
Qed.

Lemma change_file_dotless delivered action f : keeps dotless (change_file gs delivered action f).
Proof.
  unfold change_file. apply keeps_bind; [apply keeps_or_raise|]. intros first. pose proof create_file_dotless.
  repeat (apply keeps_if; [keep|]); keep.
Qed.

Lemma scan_files_dotless peer files sc sc' : dotless_keys (scanned_shards sc) -> scan_files gs peer files sc = Some sc' -> dotless_keys (scanned_shards sc').
Proof.
  revert sc. induction files as [|f files IH]; intros sc H; cbn [scan_files]; [by intros [= <-]|]. unfold scan_file. destruct (contains _ _); cbn [mbind option_bind]; [by apply IH|].
  destruct (toShard gs _ _) as [name|] eqn:E; cbn [mbind option_bind]; [|done]. apply IH. apply dotless_dset; [done|]. intros j ->. by eapply hex_name.
Qed.

Lemma scan_peers_dotless peers sc sc' : dotless_keys (scanned_shards sc) -> scan_peers gs peers sc = Some sc' -> dotless_keys (scanned_shards sc').
Proof.
  revert sc. induction peers as [|[p files] peers IH]; intros sc H; cbn [scan_peers]; [by intros [= <-]|].
  destruct (scan_files gs _ _ sc) as [sc1|] eqn:E; cbn [mbind option_bind]; [|done]. apply IH. by eapply scan_files_dotless.
Qed.

Lemma init_dotless peers s : init gs peers = Some s -> dotless s.
Proof.
  unfold init. destruct (scan_peers gs peers _) as [sc|] eqn:E; cbn; [|done].
  assert (H : dotless_keys (scanned_shards sc)) by (eapply scan_peers_dotless; [|exact E]; by intros k Hk%elem_of_nil).
  destruct (rawFilePba _); [by intros [= <-]|]. destruct (file_entries _ _ _) as [[fm node]|]; cbn; [|done].
  destruct (shard_entries _ _ _ fm) as [fm'|]; cbn; [|done]. destruct (raw_map fm'); cbn; [|done]. by intros [= <-].
Qed.
End Dotless.

(** ** Messages *)

Lemma push_sends delivered node fname rec files agents action s :
  dget (rawFM s) node = Some files -> dget files fname = Some rec -> Forall (fun a => delivered a = true) agents ->
  push_all delivered agents action (raw_entry node fname) s = (Some (), set_sent (sent s ++ map (fun a => (a, action, rec)) agents) s).
Proof.
  intros E Ef Hd. revert s E. induction Hd as [|a agents Ha Hd IH]; intros s E; cbn [push_all map].
  - rewrite app_nil_r. by destruct s.
  - assert (Hr : raw_entry node fname s = (Some rec, s)) by (unfold raw_entry; handle; by rewrite E, Ef).
    handle. rewrite Hr, Ha, IH by done. cbn [sent set_sent]. by rewrite <- app_assoc.
Qed.

(** ** Claims *)

(** C33: From a first scan that succeeds and through any sequence of reports,
    registrations and deregistrations handled one after another, also when a handler
    raises half way, the two dictionaries of the trace service have the same nodes,
    each file is at most once in a dictionary of a node, and every file with a
    record (rawFM) has an entry (fmDict); if no shell command raises, both have the
    same files. *)
Theorem trace_maps_agree gs peers allowed s0 s :
  init gs peers = Some s0 -> reaches allowed s0 s ->
  records_known s /\ ((forall gs, allowed gs -> answering gs) -> same_files s).
Proof.
  intros H0 Hr. assert (H : forall strict : Prop, (strict -> forall gs, allowed gs -> answering gs) -> maps_ok strict s).
  { intros strict Ha. apply (reaches_inv (maps_ok strict) allowed s0); [by intros s1 l H n; apply H| |by apply (init_same gs peers)|done].
    intros gs' delivered action f Hg. apply change_file_same. auto. }
  split; [by apply H|]. intros Ha. by apply H.
Qed.

(** After the first scan, the record sent to the managers for a file has the
    extents of the file followed by those of all its shards, in the increasing
    order of the numbers their names end with. *)
Theorem init_collects_shards gs peers s node files fname e :
  init gs peers = Some s -> dget (fmDict s) node = Some files -> dget files fname = Some e ->
  exists recs shards,
    dget (rawFM s) node = Some recs /\
    dget recs fname = Some (mkfilepba (e_pba e ++ flat_map (fun sh => pba sh.2.2) shards) [] fname "" (e_type e)) /\
    shards.*2 ≡ₚ e_shard e /\ StronglySorted (fun a b => a.1 <= b.1) shards /\
    Forall (fun sh => shard_number sh.2.1 = Some sh.1) shards.
Proof.
  unfold init. destruct (scan_peers gs peers _) as [sc|]; cbn; [|done]. destruct (rawFilePba _) as [|x l].
  - intros [= <-] E. cbn in E. apply empty_dicts_empty in E as ->; [done|by intros].
  - destruct (file_entries _ _ _) as [[fm last]|]; cbn; [|done]. destruct (shard_entries _ _ _ fm) as [fm'|]; cbn; [|done].
    destruct (raw_map fm') as [raw|] eqn:Er; cbn; [|done]. intros [= <-] E Ee. cbn in E |- *.
    pose proof (raw_map_lookup _ _ node Er) as Hr. rewrite E in Hr. destruct (dget raw node) as [recs|]; [|done].
    apply (mapM_dict raw_of) in Hr as [_ Hr]. specialize (Hr fname). rewrite Ee in Hr. destruct (dget recs fname) as [rec|] eqn:Ec; [|done].
    unfold raw_of in Hr. destruct (sorted_shards (e_shard e)) as [shards|] eqn:Es; cbn in Hr; [|done]. injection Hr as <-.
    apply sorted_shards_spec in Es as (H1 & H2 & H3). by exists recs, shards.
Qed.

(** C40: the key of a reported shard keeps the number of the shard, which no key
    of the dictionary has (the attribute is read as hexadecimal digits): in every
    state the service reaches, request after request, each report about a shard named after its file
    and number is answered with Fail and changes nothing. *)
Theorem shard_changes_refused gs0 peers s0 s gs delivered action f :
  hex_names gs0 -> init gs0 peers = Some s0 -> reaches hex_names s0 s ->
  contains ".shard" (fileName f) = true -> contains "." (last_part "/" (fileName f)) = true ->
  TChangeFile gs delivered action f s = ("Fail"%string, s).
Proof.
  intros Hx H0 Hr Hf Hl. assert (Hd : dotless s).
  { apply (reaches_inv dotless hex_names s0); [done| |by apply (init_dotless gs0 Hx peers)|done]. intros. by apply change_file_dotless. }
  assert (Hk : dget (shardDict s) (Some (shard_key (fileName f))) = None).
  { apply eq_None_not_Some. intros Hin. apply dget_keys, Hd in Hin. unfold shard_key in Hin. rewrite without_dashes_dots in Hin. congruence. }
  unfold TChangeFile, change_file. handle. destruct (pba f !! 0%nat) as [x|]; [|done]. rewrite Hf.
  destruct (String.eqb action "create"); [unfold create_shard; handle; by rewrite Hk|].
  destruct (String.eqb action "modify"); [unfold modify_shard; handle; by rewrite Hk|].
  destruct (String.eqb action "delete"); [unfold delete_shard; handle; by rewrite Hk|done].
Qed.

Lemma answering_name gs f h : answering gs -> is_Some (toShard gs f h).
Proof. intros H. unfold toShard. destruct (H (gfidCmd f h)) as [[err res] ->]. by eexists. Qed.

(** The report of a new plain file, on a known node, is answered with OK when
    the command answers and the messages arrive; the file map then has the reported extents for it, and
    each registered manager was sent exactly that record. *)
Theorem create_recorded gs delivered f s first files recs : answering gs ->
  pba f !! 0%nat = Some first -> contains ".shard" (fileName f) = false ->
  dget (fmDict s) (host first) = Some files -> dget (rawFM s) (host first) = Some recs ->
  Forall (fun a => delivered a = true) (agent s) ->
  let rec := mkfilepba (pba f) [] (fileName f) "" (type f) in
  exists s', TChangeFile gs delivered "create" f s = ("OK"%string, s') /\
    dget (rawFM s') (host first) = Some (dset recs (fileName f) rec) /\
    sent s' = sent s ++ map (fun a => (a, "create"%string, rec)) (agent s).
Proof.
  intros Hg Hp Hf Hm Hr Hd rec. unfold TChangeFile, change_file. rewrite Hp, Hf. unfold create_file, create_begin, create_end, put_raw, put_entry.
  destruct (answering_name gs (fileName f) (host first) Hg) as [name Et].
  change (String.eqb "create" "create") with true. handle. rewrite Et, Hm.
  destruct (dget files (fileName f)); cbn -[dset push_all]; rewrite ?Hm; cbn -[dset push_all]; rewrite Hr; cbn -[dset push_all];
    (erewrite push_sends; [|cbn -[dset]; by rewrite dget_dset, decide_True by done|by rewrite dget_dset, decide_True by done|done]);
    eexists; (split; [reflexivity|]); cbn -[dset]; rewrite dget_dset, decide_True by done; done.
Qed.

(** The report of a change of a plain file without shards is answered with OK
    although the file map keeps the extents from before, and these are what the
    managers are sent. *)
Theorem modify_sends_old gs delivered f s first files recs e old : answering gs ->
  pba f !! 0%nat = Some first -> contains ".shard" (fileName f) = false ->
  dget (fmDict s) (host first) = Some files -> dget files (fileName f) = Some e -> e_shard e = [] ->
  dget (rawFM s) (host first) = Some recs -> dget recs (fileName f) = Some old ->
  Forall (fun a => delivered a = true) (agent s) ->
  exists s', TChangeFile gs delivered "modify" f s = ("OK"%string, s') /\ rawFM s' = rawFM s /\
    sent s' = sent s ++ map (fun a => (a, "modify"%string, old)) (agent s).
Proof.
  intros Hg Hp Hf Hm He Hs Hr Ho Hd. unfold TChangeFile, change_file. rewrite Hp, Hf. unfold modify_file, fm_entry, put_entry.
  destruct (answering_name gs (fileName f) (host first) Hg) as [name Et].
  change (String.eqb "modify" "create") with false. change (String.eqb "modify" "modify") with true. handle. rewrite Et.
  cbn -[dset push_all]. rewrite Hm. cbn -[dset push_all]. rewrite He. cbn -[dset push_all]. rewrite ?Hm. cbn -[dset push_all]. rewrite Hs. cbn -[dset push_all].
  erewrite push_sends; [|exact Hr|exact Ho|done]. by eexists.
Qed.

(** ** Examples *)

Definition ex_pba (o : Z) : PBA := mkpba "sda" "n1" o 4096 8 0.
Definition ex_name : commands := fun _ => Some (0, "0x9f"%string).

Lemma ex_name_answering : answering ex_name.
Proof. intros cmd. by eexists. Qed.

Lemma ex_name_hex : hex_names ex_name.
Proof. intros f h k [= <-]. reflexivity. Qed.

Definition ex_file (name : string) (o : Z) : FilePBA := mkfilepba [ex_pba o] [] name "vol" "Distribute".
Definition ex_peers : list (string * list FilePBA) :=
  [("n1", [ex_file "/b/.shard/9-f.10" 300; ex_file "/b/a" 100; ex_file "/b/.shard/9-f.9" 200])]%string.
Definition ex_trace : trace := match init ex_name ex_peers with Some s => s | None => mktrace [] [] [] [] [] end.
Definition ex_listening : trace := TRegister "m:23831" ex_trace.

Lemma trace_maps_agree_witness :
  let s := (TChangeFile ex_name (fun _ => true) "delete" (ex_file "/b/a" 100) ex_listening).2 in
  records_known s /\ ((forall gs, gs = ex_name -> answering gs) -> same_files s).
Proof.
  apply (trace_maps_agree ex_name ex_peers (fun gs => gs = ex_name) ex_trace); [vm_compute; reflexivity|].
  apply reaches_change; [reflexivity|]. apply reaches_register, reaches_start.
Defined.

Lemma init_collects_shards_witness :
  exists recs shards,
    dget (rawFM ex_trace) "n1"%string = Some recs /\
    dget recs "/b/a"%string = Some (mkfilepba ([ex_pba 100] ++ flat_map (fun sh : Z * (string * FilePBA) => pba sh.2.2) shards) [] "/b/a" "" "Distribute") /\
    shards.*2 ≡ₚ [("/b/.shard/9-f.10"%string, ex_file "/b/.shard/9-f.10" 300); ("/b/.shard/9-f.9"%string, ex_file "/b/.shard/9-f.9" 200)] /\
    StronglySorted (fun a b => a.1 <= b.1) shards /\ Forall (fun sh => shard_number sh.2.1 = Some sh.1) shards.
Proof.
  refine (init_collects_shards ex_name ex_peers ex_trace "n1" _ "/b/a"
    (mkentry [("/b/.shard/9-f.10"%string, ex_file "/b/.shard/9-f.10" 300); ("/b/.shard/9-f.9"%string, ex_file "/b/.shard/9-f.9" 200)] [ex_pba 100] "Distribute") _ _ _);
    vm_compute; reflexivity.
Defined.

Lemma shard_changes_refused_witness :
  TChangeFile ex_name (fun _ => true) "create" (ex_file "/b/.shard/9-f.11" 400) ex_listening = ("Fail"%string, ex_listening).
Proof.
  apply (shard_changes_refused ex_name ex_peers ex_trace); [exact ex_name_hex|vm_compute; reflexivity|apply reaches_register, reaches_start|reflexivity..].
Defined.

Lemma create_recorded_witness :
  exists s', TChangeFile ex_name (fun _ => true) "create" (ex_file "/b/c" 500) ex_listening = ("OK"%string, s') /\
    sent s' = [("m:23831"%string, "create"%string, mkfilepba [ex_pba 500] [] "/b/c" "" "Distribute")].
Proof.
  edestruct (create_recorded ex_name (fun _ => true) (ex_file "/b/c" 500) ex_listening) as (s' & H1 & _ & H2);
    [exact ex_name_answering|reflexivity|reflexivity|vm_compute; reflexivity|vm_compute; reflexivity|vm_compute; apply Forall_cons; split; [reflexivity|apply Forall_nil; exact I]|].
  exists s'. split; [exact H1|exact H2].
Defined.

(** Deleting a file of the first scan: it is gone from both dictionaries, but the
    loop over the dictionary of shards raises, the answer is Fail and no manager
    is told. *)
Theorem delete_of_initial_file :
  let r := TChangeFile ex_name (fun _ => true) "delete" (ex_file "/b/a" 100) ex_listening in
  r.1 = "Fail"%string /\ TGetFileMap r.2 = [] /\ sent r.2 = [].
Proof. by vm_compute. Qed.

(** The command that reads the name of the shards raises when a new file is
    reported: the file has an entry and no record, and the answer is Fail. *)
Theorem create_without_record :
  let r := TChangeFile (fun _ => None) (fun _ => true) "create" (ex_file "/b/c" 500) ex_listening in
  r.1 = "Fail"%string /\ is_Some (fm_entry "n1" "/b/c" r.2).1 /\ (raw_entry "n1" "/b/c" r.2).1 = None.
Proof. split; [vm_compute; reflexivity|]. split; [vm_compute; by eexists|vm_compute; reflexivity]. Qed.

(** A new file is reported as deleted while the handler of its creation waits for
    the name of its shards: the file is left with a record and no entry. *)
Theorem create_delete_overlap :
  let s1 := (create_begin "n1" (ex_file "/b/c" 500) ex_listening).2 in
  let s2 := (TChangeFile ex_name (fun _ => true) "delete" (ex_file "/b/c" 500) s1).2 in
  let s3 := (create_end "n1" (ex_file "/b/c" 500) (Some "9f"%string) s2).2 in
  (fm_entry "n1" "/b/c" s3).1 = None /\ is_Some (raw_entry "n1" "/b/c" s3).1.
Proof. split; [vm_compute; reflexivity|vm_compute; by eexists]. Qed.
