(* ===== verification/Striper.v ===== *)
(** * Striping of files over objects (ceph/src/osdc: Striper.cc, StriperTypes.h)

    A file is cut into blocks of [stripe_unit] bytes that go round robin to
    [stripe_count] objects, until these are [object_size] bytes long and the next
    set of objects starts.  [file_to_extents] turns a range of a file into one
    range per object, each with the places of its bytes in the buffer of the
    caller; [StripedReadResult] puts the answers of the objects together.  A
    division by zero and a failed [ceph_assert] are [Fault]. *)
From stdpp Require Import strings.
From S2P Require Import Prelude.

(** ** Layouts (include/fs_types.h, common/fs_types.cc) *)

Record file_layout_t : Set := mklayout {
  stripe_unit : Z; stripe_count : Z; object_size : Z; pool_id : Z; pool_ns : string }.

Definition get_period (l : file_layout_t) : Z := u64 (stripe_count l * object_size l).

Definition CEPH_MIN_STRIPE_UNIT : Z := 65536.

Definition is_valid (l : file_layout_t) : bool :=
  if (stripe_unit l =? 0) || negb (Z.land (stripe_unit l) (CEPH_MIN_STRIPE_UNIT - 1) =? 0) then false else
  if (object_size l =? 0) || negb (Z.land (object_size l) (CEPH_MIN_STRIPE_UNIT - 1) =? 0) then false else
  if (object_size l <? stripe_unit l) || negb (object_size l mod stripe_unit l =? 0) then false else
  if stripe_count l =? 0 then false else true.

(** ** Extents *)

Record LightweightObjectExtent : Set := mkextent {
  object_no : Z; oe_offset : Z; oe_length : Z; truncate_size : Z; buffer_extents : list (Z * Z) }.

Definition ceph_assert (b : bool) : outcome () := if b then Done () else Fault.

Definition over (a b : Z) : outcome Z := if b =? 0 then Fault else Done (a / b).
Definition rest (a b : Z) : outcome Z := if b =? 0 then Fault else Done (a mod b).

Definition object_truncate_size (l : file_layout_t) (objectno trunc_size : Z) : outcome Z :=
  if (trunc_size =? 0) || (trunc_size =? 2 ^ 64 - 1) then Done trunc_size else
  let su := stripe_unit l in
  _ ← ceph_assert (su <=? object_size l);
  stripes_per_object ← over (object_size l) su;
  objectsetno ← over objectno (stripe_count l);
  q ← over trunc_size (object_size l);
  trunc_objectsetno ← over q (stripe_count l);
  if trunc_objectsetno <? objectsetno then Done 0 else
  if objectsetno <? trunc_objectsetno then Done (object_size l) else
  trunc_blockno ← over trunc_size su;
  trunc_stripeno ← over trunc_blockno (stripe_count l);
  trunc_stripepos ← rest trunc_blockno (stripe_count l);
  let trunc_objectno := u64 (trunc_objectsetno * stripe_count l + trunc_stripepos) in
  row ← rest trunc_stripeno stripes_per_object;
  if objectno <? trunc_objectno then Done (u64 ((row + 1) * su)) else
  if trunc_objectno <? objectno then Done (u64 (row * su)) else
  last ← rest trunc_size su;
  Done (u64 (row * su + last)).

(** [std::upper_bound] with [OrderByObject]: the extents before the first one of a later object. *)
Fixpoint upper_bound (objectno : Z) (exts : list LightweightObjectExtent) :
    list LightweightObjectExtent * list LightweightObjectExtent :=
  match exts with
  | [] => ([], [])
  | e :: exts =>
      if objectno <? object_no e then ([], e :: exts)
      else let '(before, after) := upper_bound objectno exts in (e :: before, after)
  end.

(** The last extent before a position, if the next piece continues it. *)
Fixpoint extend_last (before : list LightweightObjectExtent) (objectno x_offset x_len pos : Z) :
    option (list LightweightObjectExtent) :=
  match before with
  | [] => None
  | [e] =>
      if (object_no e =? objectno) && (u64 (oe_offset e + oe_length e) =? x_offset)
      then Some [mkextent (object_no e) (oe_offset e) (u64 (oe_length e + x_len)) (truncate_size e)
                   (buffer_extents e ++ [(pos, x_len)])]
      else None
  | e :: before => before ← extend_last before objectno x_offset x_len pos; Some (e :: before)
  end.

Definition add_piece (l : file_layout_t) (trunc_size : Z) (exts : list LightweightObjectExtent)
    (objectno x_offset x_len pos : Z) : outcome (list LightweightObjectExtent) :=
  let '(before, after) := upper_bound objectno exts in
  match extend_last before objectno x_offset x_len pos with
  | Some before => Done (before ++ after)
  | None =>
      trunc ← object_truncate_size l objectno trunc_size;
      Done (before ++ mkextent objectno x_offset x_len trunc [(pos, x_len)] :: after)
  end.

(** [while (left > 0)]. *)
Fixpoint extents_loop (fuel : nat) (l : file_layout_t) (su stripes_per_object offset trunc_size buffer_offset cur left : Z)
    (exts : list LightweightObjectExtent) : outcome (list LightweightObjectExtent) :=
  match fuel with
  | O => NoFuel
  | S fuel =>
      if left =? 0 then Done exts else
      blockno ← over cur su;
      stripeno ← over blockno (stripe_count l);
      stripepos ← rest blockno (stripe_count l);
      objectsetno ← over stripeno stripes_per_object;
      let objectno := u64 (objectsetno * stripe_count l + stripepos) in
      row ← rest stripeno stripes_per_object;
      let block_start := u64 (row * su) in
      block_off ← rest cur su;
      let max := su - block_off in
      let x_offset := u64 (block_start + block_off) in
      let x_len := if max <? left then max else left in
      exts ← add_piece l trunc_size exts objectno x_offset x_len (u64 (cur - offset + buffer_offset));
      extents_loop fuel l su stripes_per_object offset trunc_size buffer_offset (u64 (cur + x_len)) (left - x_len) exts
  end.

Definition file_to_extents (l : file_layout_t) (offset len trunc_size buffer_offset : Z)
    (exts : list LightweightObjectExtent) : outcome (list LightweightObjectExtent) :=
  _ ← ceph_assert (0 <? len);
  _ ← ceph_assert (stripe_unit l <=? object_size l);
  let su := if stripe_count l =? 1 then object_size l else stripe_unit l in
  stripes_per_object ← over (object_size l) su;
  extents_loop (Z.to_nat (len / su + 3)) l su stripes_per_object offset trunc_size buffer_offset offset len exts.

(** [while (len > 0)] of [extent_to_file]. *)
Fixpoint to_file_loop (fuel : nat) (l : file_layout_t) (stripes_per_object objectno off len off_in_block : Z) :
    outcome (list (Z * Z)) :=
  match fuel with
  | O => NoFuel
  | S fuel =>
      if len =? 0 then Done [] else
      let su := stripe_unit l in
      stripepos ← rest objectno (stripe_count l);
      objectsetno ← over objectno (stripe_count l);
      q ← over off su;
      let stripeno := u64 (q + objectsetno * stripes_per_object) in
      let blockno := u64 (stripeno * stripe_count l + stripepos) in
      let extent_off := u64 (blockno * su + off_in_block) in
      let extent_len := Z.min len (su - off_in_block) in
      rest ← to_file_loop fuel l stripes_per_object objectno (u64 (off + extent_len)) (len - extent_len) 0;
      Done ((extent_off, extent_len) :: rest)
  end.

Definition extent_to_file (l : file_layout_t) (objectno off len : Z) : outcome (list (Z * Z)) :=
  _ ← ceph_assert (stripe_unit l <=? object_size l);
  stripes_per_object ← over (object_size l) (stripe_unit l);
  off_in_block ← rest off (stripe_unit l);
  to_file_loop (Z.to_nat (len / stripe_unit l + 3)) l stripes_per_object objectno off len off_in_block.

Definition get_num_objects (l : file_layout_t) (size : Z) : outcome Z :=
  let period := get_period l in
  num_periods ← over (u64 (size + period - 1)) period;
  remainder_bytes ← rest size period;
  remainder_objs ←
    (if (0 <? remainder_bytes) && (remainder_bytes <? u64 (stripe_count l * stripe_unit l))
     then q ← over (u64 (remainder_bytes + stripe_unit l - 1)) (stripe_unit l); Done (u64 (stripe_count l - q))
     else Done 0);
  Done (u64 (num_periods * stripe_count l - remainder_objs)).

Definition get_file_offset (l : file_layout_t) (objectno off : Z) : outcome Z :=
  _ ← ceph_assert (stripe_unit l <=? object_size l);
  stripes_per_object ← over (object_size l) (stripe_unit l);
  off_in_block ← rest off (stripe_unit l);
  stripepos ← rest objectno (stripe_count l);
  objectsetno ← over objectno (stripe_count l);
  q ← over off (stripe_unit l);
  let stripeno := u64 (q + objectsetno * stripes_per_object) in
  let blockno := u64 (stripeno * stripe_count l + stripepos) in
  Done (u64 (blockno * stripe_unit l + off_in_block)).

(** ** Putting answers together *)

(** [m[k]] of a [std::map], kept in the order of the keys: made with a default
    when it is not there, and changed. *)
Fixpoint at_key {A} (d : A) (k : Z) (f : A -> A) (m : list (Z * A)) : list (Z * A) :=
  match m with
  | [] => [(k, f d)]
  | (k', a) :: m =>
      if k <? k' then (k, f d) :: (k', a) :: m
      else if k =? k' then (k, f a) :: m else (k', a) :: at_key d k f m
  end.

(** From offsets to data and intended length. *)
Definition partial_map : Set := list (Z * (list Z * Z)).

Record StripedReadResult : Set := mkresult { partial : partial_map; total_intended_len : Z }.

(** [partial[pos]] gets more data and a length, which is added to the sum. *)
Definition put (r : StripedReadResult) (pos : Z) (f : list Z -> list Z) (n : Z) : StripedReadResult :=
  mkresult (at_key ([], 0) pos (fun d => (f d.1, n)) (partial r)) (u64 (total_intended_len r + n)).

(** [bl.splice(0, len, ...)]: the first [len] bytes, and what is left. *)
Definition splice (bl : list Z) (len : Z) : outcome (list Z * list Z) :=
  let len := u32 len in
  if len <=? Z.of_nat (length bl) then Done (take (Z.to_nat len) bl, drop (Z.to_nat len) bl) else Fault.

(** [add_partial_result]: each place takes what is there of its length; the rest
    of [bl] is left to the caller. *)
Fixpoint add_partial_result (r : StripedReadResult) (bl : list Z) (extents : list (Z * Z)) : outcome (StripedReadResult * list Z) :=
  match extents with
  | [] => Done (r, bl)
  | (pos, n) :: extents =>
      let actual := Z.min (Z.of_nat (length bl)) n in
      '(piece, bl) ← splice bl actual;
      add_partial_result (put r pos (fun d => d ++ piece) n) bl extents
  end.

(** The variant for temporaries: an only place takes all of [bl]. *)
Definition add_partial_result_move (r : StripedReadResult) (bl : list Z) (extents : list (Z * Z)) : outcome StripedReadResult :=
  match extents with
  | [(pos, n)] => Done (put r pos (fun _ => bl) n)
  | _ => '(r, _) ← add_partial_result r bl extents; Done r
  end.

(** [while (tlen > 0)] of the sparse variant: [s] are the extents of the answer
    that are left, [bl_off] is the position in the object. *)
Fixpoint sparse_loop (fuel : nat) (r : StripedReadResult) (bl : list Z) (s : list (Z * Z)) (bl_off tofs tlen : Z) :
    outcome (StripedReadResult * list Z * list (Z * Z) * Z) :=
  match fuel with
  | O => NoFuel
  | S fuel =>
      if tlen =? 0 then Done (r, bl, s, bl_off) else
      match s with
      | [] => Done (put r tofs id tlen, bl, s, bl_off)
      | (first, second) :: s' =>
          if second =? 0 then sparse_loop fuel r bl s' bl_off tofs tlen else
          let gap := if bl_off <? first then Z.min (first - bl_off) tlen else 0 in
          let r := if bl_off <? first then put r tofs id gap else r in
          let bl_off := u64 (bl_off + gap) in
          let tofs := u64 (tofs + gap) in
          let tlen := tlen - gap in
          if tlen =? 0 then sparse_loop fuel r bl s bl_off tofs tlen else
          _ ← ceph_assert (first <=? bl_off);
          let left := u64 (u64 (first + second) - bl_off) in
          let actual := Z.min left tlen in
          '(r, bl) ← (if 0 <? actual then
                        '(piece, bl) ← splice bl actual;
                        Done (put r tofs (fun d => d ++ piece) actual, bl)
                      else Done (r, bl));
          sparse_loop fuel r bl (if actual =? left then s' else s) (u64 (bl_off + actual)) (u64 (tofs + actual)) (tlen - actual)
      end
  end.

Fixpoint sparse_extents (r : StripedReadResult) (bl : list Z) (s : list (Z * Z)) (bl_off : Z) (extents : list (Z * Z)) :
    outcome (StripedReadResult * list Z) :=
  match extents with
  | [] => Done (r, bl)
  | (pos, n) :: extents =>
      '(r, bl, s, bl_off) ← sparse_loop (Z.to_nat n + length s + 2) r bl s bl_off pos n;
      sparse_extents r bl s bl_off extents
  end.

Definition add_partial_sparse_result (r : StripedReadResult) (bl : list Z) (bl_map : list (Z * Z)) (bl_off : Z)
    (extents : list (Z * Z)) : outcome (StripedReadResult * list Z) :=
  if (length bl_map =? 0)%nat then add_partial_result r bl extents else sparse_extents r bl bl_map bl_off extents.

(** [assemble_result] into a buffer list: zeros where data is missing, at the end if [zero_tail]. *)
Fixpoint assemble_loop (m : partial_map) (bl : list Z) (zeros : Z) : list Z * Z :=
  match m with
  | [] => (bl, zeros)
  | (_, (data, expect)) :: m =>
      let got := Z.of_nat (length data) in
      let '(bl, zeros) := if got =? 0 then (bl, zeros) else (bl ++ replicate (Z.to_nat zeros) 0 ++ data, 0) in
      assemble_loop m bl (u64 (zeros + u64 (expect - got)))
  end.

Definition assemble_result (r : StripedReadResult) (bl : list Z) (zero_tail : bool) : StripedReadResult * list Z :=
  let '(bl, zeros) := assemble_loop (partial r) bl 0 in
  (mkresult [] (total_intended_len r), if zero_tail then bl ++ replicate (Z.to_nat zeros) 0 else bl).

(** [memcpy] and [memset] into the buffer of the caller. *)
Definition write_at (buffer : list Z) (pos : Z) (data : list Z) : outcome (list Z) :=
  if (0 <=? pos) && (pos + Z.of_nat (length data) <=? Z.of_nat (length buffer))
  then Done (take (Z.to_nat pos) buffer ++ data ++ drop (Z.to_nat pos + length data) buffer)
  else Fault.

(** The loop from the last entry to the first. *)
Fixpoint buffer_loop (m : partial_map) (buffer : list Z) (curr end_ : Z) : outcome (list Z * Z) :=
  match m with
  | [] => Done (buffer, curr)
  | (first, (data, second)) :: m =>
      let len := Z.of_nat (length data) in
      _ ← ceph_assert (first =? u64 (end_ - second));
      _ ← ceph_assert (second <=? curr);
      let curr := curr - second in
      buffer ← write_at buffer curr data;
      buffer ← (if len <? second then write_at buffer (curr + len) (replicate (Z.to_nat (second - len)) 0) else Done buffer);
      buffer_loop m buffer curr first
  end.

Definition assemble_result_buffer (r : StripedReadResult) (buffer : list Z) : outcome (StripedReadResult * list Z) :=
  let length := Z.of_nat (length buffer) in
  _ ← ceph_assert (length =? total_intended_len r);
  match reverse (partial r) with
  | [] => Done (r, buffer)
  | (first, (data, second)) :: m =>
      '(buffer, curr) ← buffer_loop ((first, (data, second)) :: m) buffer length (u64 (first + second));
      _ ← ceph_assert (curr =? 0);
      Done (mkresult [] (total_intended_len r), buffer)
  end.

(** Into a map of extents with the data behind each other. *)
Fixpoint assemble_extents (m : partial_map) (extent_map : list (Z * Z)) (bl : list Z) : list (Z * Z) * list Z :=
  match m with
  | [] => (extent_map, bl)
  | (off, (data, _)) :: m =>
      let len := Z.of_nat (length data) in
      if 0 <? len then assemble_extents m (at_key 0 off (fun _ => len) extent_map) (bl ++ data)
      else assemble_extents m extent_map bl
  end.

Definition assemble_result_sparse (r : StripedReadResult) (extent_map : list (Z * Z)) (bl : list Z) :
    StripedReadResult * (list (Z * Z) * list Z) * Z :=
  (mkresult [] (total_intended_len r), assemble_extents (partial r) extent_map bl, total_intended_len r).
