(* ===== verification/StriperLayout.v ===== *)
(** * Where the bytes of a striped file are

    The place of a byte of a file, its object and its offset there, and the
    inverse, [position]: first on numbers without bounds, for a stripe unit, a
    number of objects in a set and a number of stripes in an object; then the
    arithmetic of Striper.cc on valid layouts, in 64-bit numbers, with
    [get_file_offset] and the part of an object in front of the end of the file,
    [object_truncate_size]. *)
From S2P Require Import Prelude Striper.

Section Geometry.
Context (su sc spo : Z) (Hsu : 0 < su) (Hsc : 0 < sc) (Hspo : 0 < spo).

Definition object_of (o : Z) : Z := o / su / sc / spo * sc + (o / su) mod sc.
Definition offset_of (o : Z) : Z := (o / su / sc) mod spo * su + o mod su.
Definition position (no x : Z) : Z := ((x / su + no / sc * spo) * sc + no mod sc) * su + x mod su.

(** A byte by its set of objects, its stripe there, its object in the set, and its place in the block. *)
Definition byte_at (set row col r : Z) : Z := ((set * spo + row) * sc + col) * su + r.

Lemma byte_split o : 0 <= o -> exists set row col r, 0 <= set /\ 0 <= row < spo /\ 0 <= col < sc /\ 0 <= r < su /\ o = byte_at set row col r.
Proof.
  intros Ho. exists (o / su / sc / spo), ((o / su / sc) mod spo), ((o / su) mod sc), (o mod su).
  assert (H1 : 0 <= o / su) by (apply Z.div_pos; lia). assert (H2 : 0 <= o / su / sc) by (apply Z.div_pos; lia).
  split; [apply Z.div_pos; lia|]. split; [apply Z.mod_pos_bound; lia|]. split; [apply Z.mod_pos_bound; lia|]. split; [apply Z.mod_pos_bound; lia|].
  unfold byte_at. pose proof (Z.div_mod o su ltac:(lia)). pose proof (Z.div_mod (o / su) sc ltac:(lia)). pose proof (Z.div_mod (o / su / sc) spo ltac:(lia)). lia.
Qed.

Lemma place_split no x : 0 <= no -> 0 <= x < spo * su ->
  exists set row col r, 0 <= set /\ 0 <= row < spo /\ 0 <= col < sc /\ 0 <= r < su /\ no = set * sc + col /\ x = row * su + r.
Proof.
  intros Hno Hx. exists (no / sc), (x / su), (no mod sc), (x mod su). split; [apply Z.div_pos; lia|].
  split; [split; [apply Z.div_pos; lia|apply Z.div_lt_upper_bound; lia]|]. split; [apply Z.mod_pos_bound; lia|]. split; [apply Z.mod_pos_bound; lia|].
  pose proof (Z.div_mod no sc ltac:(lia)). pose proof (Z.div_mod x su ltac:(lia)). lia.
Qed.

Lemma div_split q d r : 0 <= r < d -> (q * d + r) / d = q.
Proof. intros H. rewrite Z.div_add_l, Z.div_small by lia. lia. Qed.
Lemma mod_split q d r : 0 <= r < d -> (q * d + r) mod d = r.
Proof. intros H. rewrite Z.add_comm, Z.mod_add, Z.mod_small by lia. done. Qed.

Section At.
Context (set row col r : Z) (Hrow : 0 <= row < spo) (Hcol : 0 <= col < sc) (Hr : 0 <= r < su).

Lemma object_at : object_of (byte_at set row col r) = set * sc + col.
Proof. unfold object_of, byte_at. rewrite !div_split, mod_split by done. done. Qed.
Lemma offset_at : offset_of (byte_at set row col r) = row * su + r.
Proof. unfold offset_of, byte_at. rewrite !div_split, !mod_split by done. done. Qed.
Lemma position_at : position (set * sc + col) (row * su + r) = byte_at set row col r.
Proof. unfold position, byte_at. rewrite !div_split, !mod_split by done. f_equal. f_equal. f_equal. lia. Qed.
End At.

(** The two directions. *)
Lemma position_place o : 0 <= o -> position (object_of o) (offset_of o) = o.
Proof.
  intros Ho. destruct (byte_split o Ho) as (set & row & col & r & Hs & Hrow & Hcol & Hr & ->).
  by rewrite object_at, offset_at, position_at.
Qed.

Lemma place_position no x : 0 <= no -> 0 <= x < spo * su -> object_of (position no x) = no /\ offset_of (position no x) = x.
Proof.
  intros Hno Hx. destruct (place_split no x Hno Hx) as (set & row & col & r & Hs & Hrow & Hcol & Hr & -> & ->).
  by rewrite position_at, object_at, offset_at.
Qed.

Lemma object_nonneg o : 0 <= o -> 0 <= object_of o.
Proof.
  intros Ho. destruct (byte_split o Ho) as (set & row & col & r & Hs & Hrow & Hcol & Hr & ->). rewrite object_at by done. nia.
Qed.
Lemma offset_range o : 0 <= o -> 0 <= offset_of o < spo * su.
Proof.
  intros Ho. destruct (byte_split o Ho) as (set & row & col & r & Hs & Hrow & Hcol & Hr & ->). rewrite offset_at by done. nia.
Qed.
Lemma position_nonneg no x : 0 <= no -> 0 <= x -> 0 <= position no x.
Proof.
  intros Hno Hx. unfold position. assert (0 <= x / su) by (apply Z.div_pos; lia). assert (0 <= no / sc) by (apply Z.div_pos; lia).
  pose proof (Z.mod_pos_bound no sc Hsc). pose proof (Z.mod_pos_bound x su Hsu). nia.
Qed.
Lemma object_le o : 0 <= o -> object_of o <= o.
Proof.
  intros Ho. destruct (byte_split o Ho) as (set & row & col & r & Hs & Hrow & Hcol & Hr & ->). rewrite object_at by done. unfold byte_at.
  assert (set * sc <= set * spo * sc) by nia. nia.
Qed.

(** In one object, later offsets are later in the file. *)
Lemma position_mono no x y : 0 <= no -> 0 <= x < y -> position no x < position no y.
Proof.
  intros Hno Hxy. unfold position. pose proof (Z.div_mod x su ltac:(lia)). pose proof (Z.div_mod y su ltac:(lia)).
  pose proof (Z.mod_pos_bound x su Hsu). pose proof (Z.mod_pos_bound y su Hsu).
  assert (x / su <= y / su) by (apply Z.div_le_mono; lia). destruct (decide (x / su = y / su)) as [E|E]; [rewrite E in *; lia|].
  assert ((x / su + 1) * sc <= y / su * sc) by nia. nia.
Qed.

(** Within a block, the place moves along with the byte. *)
Lemma place_in_block o j : 0 <= o -> 0 <= j < su - o mod su -> object_of (o + j) = object_of o /\ offset_of (o + j) = offset_of o + j.
Proof.
  intros Ho Hj. destruct (byte_split o Ho) as (set & row & col & r & Hs & Hrow & Hcol & Hr & ->).
  assert (Hm : byte_at set row col r mod su = r) by (unfold byte_at; by rewrite mod_split). rewrite Hm in Hj.
  replace (byte_at set row col r + j) with (byte_at set row col (r + j)) by (unfold byte_at; lia).
  rewrite !object_at, !offset_at by lia. lia.
Qed.

(** The order of the bytes is the order of sets, stripes, objects and places. *)
Lemma digit_lt a b a' b' d : 0 <= b < d -> 0 <= b' < d -> a * d + b < a' * d + b' <-> a < a' \/ a = a' /\ b < b'.
Proof. intros Hb Hb'. split; [intros H; destruct (Z.lt_trichotomy a a') as [|[->|]]; [by left|right; lia|nia]|intros [|[-> ]]; nia]. Qed.
Lemma digit_eq a b a' b' d : 0 <= b < d -> 0 <= b' < d -> a * d + b = a' * d + b' <-> a = a' /\ b = b'.
Proof. intros Hb Hb'. split; [|intros [-> ->]; done]. intros H. destruct (Z_idx_inj d b b' a a'); [lia..|done]. Qed.

Lemma byte_lt set row col r set' row' col' r' : 0 <= row < spo -> 0 <= col < sc -> 0 <= r < su -> 0 <= row' < spo -> 0 <= col' < sc -> 0 <= r' < su ->
  byte_at set row col r < byte_at set' row' col' r' <->
  set < set' \/ set = set' /\ (row < row' \/ row = row' /\ (col < col' \/ col = col' /\ r < r')).
Proof. intros. unfold byte_at. rewrite !digit_lt, !digit_eq by done. tauto. Qed.
End Geometry.

(** With one object in a set the stripe unit does not matter. *)
Lemma one_object su spo o : 0 < su -> 0 < spo ->
  object_of su 1 spo o = object_of (spo * su) 1 1 o /\ offset_of su 1 spo o = offset_of (spo * su) 1 1 o.
Proof.
  intros Hsu Hspo. unfold object_of, offset_of. rewrite !Z.div_1_r, !Z.mod_1_r, Z.div_div by lia. split; [f_equal; f_equal; f_equal; lia|].
  rewrite Z.mul_0_l, (Z.mul_comm spo su), Z.rem_mul_r by lia. lia.
Qed.

(** ** Layouts *)

(** What [is_valid] asks of the 32-bit fields, except that it also wants multiples of 64k. *)
Record layout_ok (l : file_layout_t) : Prop := {
  lo_su : 0 < stripe_unit l;
  lo_sc : 0 < stripe_count l < 2 ^ 32;
  lo_os : stripe_unit l <= object_size l < 2 ^ 32;
  lo_multiple : object_size l mod stripe_unit l = 0 }.

Lemma is_valid_ok l :
  0 <= stripe_unit l < 2 ^ 32 -> 0 <= stripe_count l < 2 ^ 32 -> 0 <= object_size l < 2 ^ 32 -> is_valid l = true -> layout_ok l.
Proof.
  intros Hsu Hsc Hos. unfold is_valid. destruct (Z.eqb_spec (stripe_unit l) 0); [done|]. cbn [orb].
  destruct (negb _); [done|]. destruct (Z.eqb_spec (object_size l) 0); [done|]. cbn [orb]. destruct (negb _); [done|].
  destruct (Z.ltb_spec (object_size l) (stripe_unit l)); [done|]. cbn [orb].
  destruct (Z.eqb_spec (object_size l mod stripe_unit l) 0); [|done]. cbn. destruct (Z.eqb_spec (stripe_count l) 0); [done|]. intros _.
  split; lia.
Qed.

Definition stripes (l : file_layout_t) : Z := object_size l / stripe_unit l.

(** The object of a byte of the file, its offset there, and back. *)
Definition file_object (l : file_layout_t) : Z -> Z := object_of (stripe_unit l) (stripe_count l) (stripes l).
Definition file_offset (l : file_layout_t) : Z -> Z := offset_of (stripe_unit l) (stripe_count l) (stripes l).
Definition file_position (l : file_layout_t) : Z -> Z -> Z := position (stripe_unit l) (stripe_count l) (stripes l).

Lemma over_done a b : 0 < b -> over a b = Done (a / b).
Proof. intros H. unfold over. by rewrite (proj2 (Z.eqb_neq b 0)) by lia. Qed.
Lemma rest_done a b : 0 < b -> rest a b = Done (a mod b).
Proof. intros H. unfold rest. by rewrite (proj2 (Z.eqb_neq b 0)) by lia. Qed.
Lemma assert_done b : b = true -> ceph_assert b = Done ().
Proof. by intros ->. Qed.

Create HintDb striper.

(** Runs divisions by positive numbers. *)
Ltac divide := repeat (first [rewrite over_done by lia | rewrite rest_done by lia]; run).

Section Layout.
Context (l : file_layout_t) (Hl : layout_ok l).
Local Abbreviation su := (stripe_unit l).
Local Abbreviation sc := (stripe_count l).
Local Abbreviation os := (object_size l).

Lemma stripes_size : stripes l * su = os.
Proof. unfold stripes. destruct Hl. pose proof (Z.div_mod os su ltac:(lia)). lia. Qed.
Lemma stripes_pos : 0 < stripes l.
Proof. unfold stripes. destruct Hl. apply Z.div_str_pos. lia. Qed.
Lemma unit_pos : 0 < su. Proof. apply Hl. Qed.
Lemma count_pos : 0 < sc. Proof. apply Hl. Qed.
Lemma size_pos : 0 < os < 2 ^ 32. Proof. destruct Hl. lia. Qed.
Local Hint Resolve stripes_pos unit_pos count_pos : striper.

Lemma file_position_place o : 0 <= o -> file_position l (file_object l o) (file_offset l o) = o.
Proof. apply position_place; auto with striper. Qed.
Lemma file_place_position no x : 0 <= no -> 0 <= x < os -> file_object l (file_position l no x) = no /\ file_offset l (file_position l no x) = x.
Proof. intros Hn Hx. apply place_position; auto with striper. by rewrite stripes_size. Qed.
Lemma file_object_range o : 0 <= o -> 0 <= file_object l o <= o.
Proof. intros Ho. split; [apply object_nonneg|apply object_le]; auto with striper. Qed.
Lemma file_offset_range o : 0 <= o -> 0 <= file_offset l o < os.
Proof. intros Ho. rewrite <- stripes_size. apply offset_range; auto with striper. Qed.
Lemma file_position_mono no x y : 0 <= no -> 0 <= x < y -> file_position l no x < file_position l no y.
Proof. apply position_mono; auto with striper. Qed.
Lemma file_position_nonneg no x : 0 <= no -> 0 <= x -> 0 <= file_position l no x.
Proof. apply position_nonneg; auto with striper. Qed.

(** ** The inverse *)

Lemma get_file_offset_done no x : 0 <= no -> 0 <= x < os -> file_position l no x < 2 ^ 64 -> get_file_offset l no x = Done (file_position l no x).
Proof.
  intros Hno Hx Hb. pose proof stripes_pos as Hsp. pose proof unit_pos. pose proof count_pos. unfold get_file_offset.
  rewrite (assert_done (su <=? os)) by (apply Z.leb_le, Hl). run. divide. fold (stripes l).
  unfold file_position, position in Hb |- *. assert (0 <= x / su) by (apply Z.div_pos; lia). assert (0 <= no / sc) by (apply Z.div_pos; lia).
  pose proof (Z.mod_pos_bound no sc count_pos). pose proof (Z.mod_pos_bound x su unit_pos).
  set (a := x / su + no / sc * stripes l) in *. assert (0 <= a) by nia. assert (a <= a * sc) by nia.
  set (b := a * sc + no mod sc) in *. assert (b <= b * su) by nia.
  rewrite (u64_small a) by lia. fold b. rewrite (u64_small b) by lia. rewrite u64_small by lia. done.
Qed.

(** ** Truncation *)

(** How many bytes of an object are in front of an end of the file. *)
Definition cut (no trunc t : Z) : Prop := 0 <= t <= os /\ forall x, 0 <= x < os -> file_position l no x < trunc <-> x < t.

Lemma truncate_done no trunc : 0 <= no -> 0 <= trunc < 2 ^ 64 ->
  exists t, object_truncate_size l no trunc = Done t /\ (trunc = 2 ^ 64 - 1 /\ t = trunc \/ trunc <> 2 ^ 64 - 1 /\ cut no trunc t).
Proof.
  intros Hno Ht. pose proof stripes_pos as Hsp. pose proof unit_pos as Hup. pose proof count_pos as Hcp. pose proof size_pos as Hos. pose proof stripes_size as Hsz.
  unfold object_truncate_size. destruct (Z.eqb_spec trunc 0) as [->|Hn0]; cbn [orb].
  { exists 0. split; [done|right]. split; [lia|]. split; [lia|]. intros x Hx. pose proof (file_position_nonneg no x Hno ltac:(lia)). lia. }
  destruct (Z.eqb_spec trunc (2 ^ 64 - 1)) as [->|Hn1]; [exists (2 ^ 64 - 1); auto|].
  rewrite (assert_done (su <=? os)) by (apply Z.leb_le, Hl). run. divide. fold (stripes l).
  destruct (byte_split su sc (stripes l) Hup Hcp Hsp trunc ltac:(lia)) as (S & R & C & r & HS & HR & HC & Hr & Et).
  assert (E1 : trunc / su = (S * stripes l + R) * sc + C) by (subst trunc; unfold byte_at; by rewrite div_split).
  assert (E2 : trunc / os / sc = S).
  { rewrite Z.div_div by lia. replace (os * sc) with (su * (sc * stripes l)) by nia.
    rewrite <- Z.div_div by nia. rewrite E1, <- Z.div_div, !div_split by lia. done. }
  assert (E3 : trunc mod su = r) by (subst trunc; unfold byte_at; by rewrite mod_split).
  rewrite E2.
  assert (Hno' : exists s c, 0 <= s /\ 0 <= c < sc /\ no = s * sc + c).
  { exists (no / sc), (no mod sc). pose proof (Z.div_mod no sc ltac:(lia)). pose proof (Z.mod_pos_bound no sc Hcp). split; [apply Z.div_pos; lia|lia]. }
  destruct Hno' as (s & c & Hs & Hc & ->). rewrite (div_split s sc c) by lia.
  assert (Hx : forall x, 0 <= x < os -> exists row i, 0 <= row < stripes l /\ 0 <= i < su /\ x = row * su + i /\
    (file_position l (s * sc + c) x < trunc <-> s < S \/ s = S /\ (row < R \/ row = R /\ (c < C \/ c = C /\ i < r)))).
  { intros x Hx. exists (x / su), (x mod su). pose proof (Z.div_mod x su ltac:(lia)). pose proof (Z.mod_pos_bound x su Hup).
    assert (Hrow : 0 <= x / su < stripes l) by (split; [apply Z.div_pos; lia|apply Z.div_lt_upper_bound; lia]).
    split; [done|]. split; [lia|]. split; [lia|]. rewrite <- (byte_lt su sc (stripes l)) by lia. rewrite <- Et.
    replace x with (x / su * su + x mod su) at 1 by lia. unfold file_position. by rewrite position_at by lia. }
  assert (Hu : u64 (S * sc + C) = S * sc + C) by (apply u64_small; subst trunc; unfold byte_at in *; nia).
  assert (HR1 : (R + 1) * su <= os) by (rewrite <- Hsz; nia).
  assert (HR2 : R * su + r < os) by nia.
  destruct (Z.ltb_spec S s); [|destruct (Z.ltb_spec s S)].
  - exists 0. split; [done|right]. split; [done|]. split; [lia|]. intros x Hx'. destruct (Hx x Hx') as (row & i & Hw & Hi & -> & ->). nia.
  - exists os. split; [done|right]. split; [done|]. split; [lia|]. intros x Hx'. destruct (Hx x Hx') as (row & i & Hw & Hi & -> & ->). nia.
  - assert (s = S) as -> by lia. divide. rewrite E1, E3, !div_split, !mod_split, Hu by lia. destruct (Z.ltb_spec (S * sc + c) (S * sc + C)); [|destruct (Z.ltb_spec (S * sc + C) (S * sc + c))].
    + exists ((R + 1) * su). rewrite u64_small by lia. split; [done|right]. split; [done|]. split; [lia|]. intros x Hx'. destruct (Hx x Hx') as (row & i & Hw & Hi & -> & ->). nia.
    + exists (R * su). rewrite u64_small by lia. split; [done|right]. split; [done|]. split; [nia|]. intros x Hx'. destruct (Hx x Hx') as (row & i & Hw & Hi & -> & ->). nia.
    + exists (R * su + r). rewrite u64_small by lia. split; [done|right]. split; [done|]. split; [nia|]. intros x Hx'. destruct (Hx x Hx') as (row & i & Hw & Hi & -> & ->). nia.
Qed.
End Layout.
