(* ===== verification/StriperExtents.v ===== *)
(** * Ranges of a file as extents of objects

    What [file_to_extents] computes: one extent for each object that has bytes of
    the range, in the order of the objects; together with the places in the
    buffer every byte of the range is named exactly once. *)
From stdpp Require Import sorting.
From S2P Require Import Prelude Striper StriperLayout.

(** ** Places in the buffer *)

(** Pieces that follow each other from [b] to [e]. *)
Fixpoint chain (b : Z) (l : list (Z * Z)) (e : Z) : Prop :=
  match l with [] => b = e | (p, n) :: l => p = b /\ 0 < n /\ chain (b + n) l e end.

Lemma chain_app b l e p n : chain b l e -> p = e -> 0 < n -> chain b (l ++ [(p, n)]) (e + n).
Proof. revert b. induction l as [|[q m] l IH]; intros b; cbn; [intros -> ->; done|]. intros (-> & Hm & H) Hp Hn. auto. Qed.

(** ** Extents in order *)

Lemma sorted_middle (a b : list Z) n :
  StronglySorted Z.lt (a ++ b) -> Forall (fun x => x < n) a -> Forall (Z.lt n) b -> StronglySorted Z.lt (a ++ n :: b).
Proof.
  intros Hs Ha Hb. induction Ha as [|x a Hx Ha IH]; cbn in *; [by constructor|]. inversion Hs as [|? ? Hs' Hf]; subst.
  constructor; [by apply IH|]. apply Forall_app in Hf as [Hf1 Hf2]. apply Forall_app. split; [done|]. by constructor.
Qed.

Lemma upper_bound_spec no exts : StronglySorted Z.lt (object_no <$> exts) ->
  exists before after, upper_bound no exts = (before, after) /\ exts = before ++ after /\
    Forall (fun e => object_no e <= no) before /\ Forall (fun e => no < object_no e) after.
Proof.
  induction exts as [|e exts IH]; cbn; intros Hs; [by exists [], []|]. inversion Hs as [|? ? Hs' Hf]; subst.
  destruct (Z.ltb_spec no (object_no e)) as [Hlt|Hge].
  - exists [], (e :: exts). repeat split; [constructor|]. constructor; [done|]. rewrite Forall_fmap in Hf. eapply Forall_impl; [exact Hf|].
    cbn. intros x Hx. lia.
  - destruct (IH Hs') as (before & after & E & -> & Hb & Ha). rewrite E. exists (e :: before), after. repeat split; [|done]. by constructor.
Qed.

Lemma extend_last_cons e before no x n pos : before <> [] ->
  extend_last (e :: before) no x n pos = (before ← extend_last before no x n pos; Some (e :: before)).
Proof. by destruct before. Qed.

Lemma extend_last_app before e no x n pos :
  extend_last (before ++ [e]) no x n pos =
  if (object_no e =? no) && (u64 (oe_offset e + oe_length e) =? x)
  then Some (before ++ [mkextent (object_no e) (oe_offset e) (u64 (oe_length e + n)) (truncate_size e) (buffer_extents e ++ [(pos, n)])])
  else None.
Proof.
  induction before as [|e0 before IH]; [done|]. cbn [app]. rewrite extend_last_cons, IH by (by destruct before). by destruct (_ && _).
Qed.

Lemma extend_last_other before no x n pos : Forall (fun e => object_no e <> no) before -> extend_last before no x n pos = None.
Proof.
  intros H. destruct before as [|e before _] using rev_ind; [done|]. rewrite extend_last_app.
  apply Forall_app in H as [_ H]. inversion H as [|? ? Hne _]; subst. by rewrite (proj2 (Z.eqb_neq (object_no e) no)).
Qed.

Section Range.
(** [l] gives the geometry, [lt] is the layout that objects are cut with. *)
Context (l lt : file_layout_t) (Hl : layout_ok l) (Hlt : layout_ok lt) (offset trunc boff : Z).
Local Abbreviation os := (object_size l).

(** The bytes of the file that the places of an extent stand for, from offset [x] of the object on. *)
Fixpoint mapped (no x : Z) (bes : list (Z * Z)) (e : Z) : Prop :=
  match bes with
  | [] => x = e
  | (p, n) :: bes => 0 < n /\ (forall j, 0 <= j < n -> file_object l (offset + (p - boff) + j) = no /\ file_offset l (offset + (p - boff) + j) = x + j) /\
      mapped no (x + n) bes e
  end.

Lemma mapped_app no x bes e p n : mapped no x bes e -> 0 < n ->
  (forall j, 0 <= j < n -> file_object l (offset + (p - boff) + j) = no /\ file_offset l (offset + (p - boff) + j) = e + j) ->
  mapped no x (bes ++ [(p, n)]) (e + n).
Proof. revert x. induction bes as [|[q m] bes IH]; intros x; cbn; [intros -> ? ?; done|]. intros (H1 & H2 & H3) Hn Hj. auto. Qed.

(** An extent lies in its object, knows its places and where the object is cut. *)
Record extent_ok (e : LightweightObjectExtent) : Prop := {
  eo_no : 0 <= object_no e;
  eo_offset : 0 <= oe_offset e;
  eo_length : 0 < oe_length e;
  eo_end : oe_offset e + oe_length e <= os;
  eo_mapped : mapped (object_no e) (oe_offset e) (buffer_extents e) (oe_offset e + oe_length e);
  eo_trunc : object_truncate_size lt (object_no e) trunc = Done (truncate_size e) }.

(** The extents of the bytes from [offset] to [cur]. *)
Record covers (cur : Z) (exts : list LightweightObjectExtent) : Prop := {
  cv_sorted : StronglySorted Z.lt (object_no <$> exts);
  cv_ok : Forall extent_ok exts;
  cv_bytes : forall no x, 0 <= no -> 0 <= x < os ->
    offset <= file_position l no x < cur <-> exists e, e ∈ exts /\ object_no e = no /\ oe_offset e <= x < oe_offset e + oe_length e;
  cv_places : exists pieces, chain boff pieces (boff + (cur - offset)) /\ flat_map buffer_extents exts ≡ₚ pieces }.

Lemma same_object exts e e' : StronglySorted Z.lt (object_no <$> exts) -> e ∈ exts -> e' ∈ exts -> object_no e = object_no e' -> e = e'.
Proof.
  induction exts as [|e0 exts IH]; cbn; intros Hs He He' Hno; [by apply elem_of_nil in He|]. inversion Hs as [|? ? Hs' Hf]; subst.
  rewrite Forall_fmap, Forall_forall in Hf. apply elem_of_cons in He as [->|He]; apply elem_of_cons in He' as [->|He']; [done| | |auto].
  - specialize (Hf e' He'). cbn in Hf. lia.
  - specialize (Hf e He). cbn in Hf. lia.
Qed.

(** The bytes of a part of a block. *)
Lemma block_bytes cur n no x : 0 <= cur -> 0 < n <= stripe_unit l - cur mod stripe_unit l -> 0 <= no -> 0 <= x < os ->
  cur <= file_position l no x < cur + n <-> no = file_object l cur /\ file_offset l cur <= x < file_offset l cur + n.
Proof.
  intros Hc Hn Hno Hx. pose proof (stripes_pos l Hl) as Hsp. pose proof (unit_pos l Hl) as Hup. pose proof (count_pos l Hl) as Hcp. split.
  - intros Hp. pose proof (file_place_position l Hl no x Hno Hx) as [E1 E2].
    destruct (place_in_block (stripe_unit l) (stripe_count l) (stripes l)) with (o := cur) (j := file_position l no x - cur) as [H1 H2]; [done..|lia|].
    fold (file_object l) in H1. fold (file_offset l) in H2. replace (cur + (file_position l no x - cur)) with (file_position l no x) in * by lia. lia.
  - intros [-> Hr]. destruct (place_in_block (stripe_unit l) (stripe_count l) (stripes l)) with (o := cur) (j := x - file_offset l cur) as [H1 H2]; [done..|lia|].
    fold (file_object l) in H1. fold (file_offset l) in H2. replace (file_offset l cur + (x - file_offset l cur)) with x in H2 by lia.
    pose proof (file_position_place l Hl (cur + (x - file_offset l cur)) ltac:(lia)) as Hp. rewrite H1, H2 in Hp. lia.
Qed.

(** An extent of the object that a new piece goes to ends where the piece starts. *)
Lemma extent_continues cur exts e : 0 <= offset <= cur -> covers cur exts -> e ∈ exts -> object_no e = file_object l cur ->
  oe_offset e + oe_length e = file_offset l cur.
Proof.
  intros Hc Hcov He Hno. pose proof (proj1 (Forall_forall _ _) (cv_ok _ _ Hcov) e He) as Hok. destruct Hok as [H1 H2 H3 H4 _ _].
  pose proof (file_position_place l Hl cur ltac:(lia)) as Hpos. pose proof (file_offset_range l Hl cur ltac:(lia)) as Hoff.
  rewrite <- Hno in Hpos. set (hi := oe_offset e + oe_length e) in *.
  assert (Hlast : offset <= file_position l (object_no e) (hi - 1) < cur) by (apply (cv_bytes _ _ Hcov); [done|lia|exists e; split; [done|]; lia]).
  assert (Hle : hi <= file_offset l cur).
  { destruct (decide (file_offset l cur <= hi - 1)); [|lia]. exfalso. destruct (decide (file_offset l cur = hi - 1)) as [E|E]; [rewrite E in Hpos; lia|].
    pose proof (file_position_mono l Hl (object_no e) (file_offset l cur) (hi - 1) H1 ltac:(lia)). lia. }
  destruct (decide (hi = file_offset l cur)); [done|]. exfalso.
  pose proof (file_position_mono l Hl (object_no e) (hi - 1) hi H1 ltac:(lia)).
  pose proof (file_position_mono l Hl (object_no e) hi (file_offset l cur) H1 ltac:(lia)).
  destruct (proj1 (cv_bytes _ _ Hcov (object_no e) hi H1 ltac:(lia)) ltac:(lia)) as (e' & He' & Hno' & Hhi).
  rewrite (same_object exts e' e (cv_sorted _ _ Hcov) He' He Hno') in Hhi. lia.
Qed.

Lemma covers_member cur exts e no x : covers cur exts -> e ∈ exts -> object_no e = no -> 0 <= no -> 0 <= x < os ->
  offset <= file_position l no x < cur <-> oe_offset e <= x < oe_offset e + oe_length e.
Proof.
  intros Hc He Hno Hn Hx. rewrite (cv_bytes _ _ Hc no x Hn Hx). split; [|intros H; by exists e].
  intros (e' & He' & Hno' & Hr). by rewrite (same_object exts e' e (cv_sorted _ _ Hc) He' He) in Hr by congruence.
Qed.

(** A piece [n] bytes long at [cur]: its places. *)
Lemma piece_mapped cur n : 0 <= offset <= cur -> 0 < n <= stripe_unit l - cur mod stripe_unit l ->
  forall j, 0 <= j < n -> let o := offset + (boff + (cur - offset) - boff) + j in
    file_object l o = file_object l cur /\ file_offset l o = file_offset l cur + j.
Proof.
  intros Hc Hn j Hj o. subst o. replace (offset + (boff + (cur - offset) - boff) + j) with (cur + j) by lia.
  apply place_in_block; [apply (unit_pos l Hl)|apply (count_pos l Hl)|apply (stripes_pos l Hl)|lia|lia].
Qed.

Lemma elem_middle {A} (x y : A) a b : x ∈ a ++ y :: b <-> x = y \/ x ∈ a ++ b.
Proof. rewrite !elem_of_app, elem_of_cons. tauto. Qed.

Lemma bytes_step cur n exts no x : 0 <= offset <= cur -> 0 < n <= stripe_unit l - cur mod stripe_unit l -> covers cur exts ->
  0 <= no -> 0 <= x < os ->
  offset <= file_position l no x < cur + n <->
  (exists e, e ∈ exts /\ object_no e = no /\ oe_offset e <= x < oe_offset e + oe_length e) \/
  no = file_object l cur /\ file_offset l cur <= x < file_offset l cur + n.
Proof. intros Hc Hn Hcov Hno Hx. rewrite <- (cv_bytes _ _ Hcov) by done. rewrite <- (block_bytes cur n) by (done || lia). lia. Qed.

Lemma places_middle a (e : LightweightObjectExtent) b bes p n :
  buffer_extents e = bes ++ [(p, n)] -> flat_map buffer_extents (a ++ e :: b) ≡ₚ flat_map buffer_extents a ++ bes ++ flat_map buffer_extents b ++ [(p, n)].
Proof. intros E. rewrite flat_map_app. cbn. rewrite E, <- !app_assoc. apply Permutation_app_head, Permutation_app_head, Permutation_app_comm. Qed.

(** A piece that continues an extent. *)
Lemma covers_extend cur n a e b : 0 <= offset <= cur -> 0 < n <= stripe_unit l - cur mod stripe_unit l -> file_offset l cur + n <= os ->
  covers cur (a ++ e :: b) -> object_no e = file_object l cur ->
  covers (cur + n) (a ++ mkextent (object_no e) (oe_offset e) (oe_length e + n) (truncate_size e)
                           (buffer_extents e ++ [(boff + (cur - offset), n)]) :: b).
Proof.
  intros Hc Hn Hos Hcov Hno. assert (He : e ∈ a ++ e :: b) by (apply elem_middle; by left).
  pose proof (extent_continues cur _ e Hc Hcov He Hno) as Hend.
  pose proof (eo_length _ (proj1 (Forall_forall _ _) (cv_ok _ _ Hcov) e He)) as Hpos. split.
  - pose proof (cv_sorted _ _ Hcov) as Hs. by rewrite fmap_app in *.
  - pose proof (cv_ok _ _ Hcov) as Hok. apply Forall_app in Hok as [Ha Hok]. inversion Hok as [|? ? Hoke Hokb]; subst.
    apply Forall_app. split; [done|]. constructor; [|done]. destruct Hoke as [H1 H2 H3 H4 H5 H6]. split; cbn; [done|done|lia|lia| |done].
    rewrite Z.add_assoc. apply mapped_app; [done|lia|]. intros j Hj. rewrite Hno, Hend. by apply piece_mapped with (n := n).
  - intros no x Hno0 Hx. rewrite (bytes_step cur n _ no x Hc Hn Hcov Hno0 Hx). setoid_rewrite elem_middle. split.
    + intros [(e0 & [->|H0] & H1 & H2)|[-> Hr]]; [|exists e0; auto|]; (eexists; split; [by left|cbn; split; [done|lia]]).
    + intros (e0 & [->|H0] & H1 & H2); [|left; exists e0; auto]. cbn in *. destruct (decide (x < file_offset l cur)); [left; exists e; auto with lia|right].
      split; [congruence|lia].
  - destruct (cv_places _ _ Hcov) as (pieces & Hch & Hp). exists (pieces ++ [(boff + (cur - offset), n)]). split.
    + replace (boff + (cur + n - offset)) with (boff + (cur - offset) + n) by lia. apply chain_app; [done|done|lia].
    + etrans; [by apply places_middle|]. rewrite <- Hp, flat_map_app. cbn. by rewrite <- !app_assoc.
Qed.

(** A piece that starts an extent. *)
Lemma covers_new cur n a b t : 0 <= offset <= cur -> 0 < n <= stripe_unit l - cur mod stripe_unit l -> file_offset l cur + n <= os ->
  covers cur (a ++ b) -> Forall (fun e => object_no e < file_object l cur) a -> Forall (fun e => file_object l cur < object_no e) b ->
  object_truncate_size lt (file_object l cur) trunc = Done t ->
  covers (cur + n) (a ++ mkextent (file_object l cur) (file_offset l cur) n t [(boff + (cur - offset), n)] :: b).
Proof.
  intros Hc Hn Hos Hcov Ha Hb Ht. pose proof (file_object_range l Hl cur ltac:(lia)) as Hobj. pose proof (file_offset_range l Hl cur ltac:(lia)) as Hoff. split.
  - pose proof (cv_sorted _ _ Hcov) as Hs. rewrite fmap_app in *. rewrite fmap_cons. apply sorted_middle; [done|by apply Forall_fmap..].
  - pose proof (cv_ok _ _ Hcov) as Hok. apply Forall_app in Hok as [Hoka Hokb]. apply Forall_app. split; [done|]. constructor; [|done].
    split; cbn; [lia..| |done]. split; [lia|]. split; [|done]. intros j Hj. by apply piece_mapped with (n := n).
  - intros no x Hno0 Hx. rewrite (bytes_step cur n _ no x Hc Hn Hcov Hno0 Hx). setoid_rewrite elem_middle. split.
    + intros [(e0 & H0 & H1 & H2)|[-> Hr]]; [exists e0; auto|]. eexists; split; [by left|done].
    + intros (e0 & [->|H0] & H1 & H2); [right; cbn in *; auto|left; exists e0; auto].
  - destruct (cv_places _ _ Hcov) as (pieces & Hch & Hp). exists (pieces ++ [(boff + (cur - offset), n)]). split.
    + replace (boff + (cur + n - offset)) with (boff + (cur - offset) + n) by lia. apply chain_app; [done|done|lia].
    + etrans; [by apply (places_middle a _ b [])|]. rewrite <- Hp, flat_map_app. cbn. by rewrite <- !app_assoc.
Qed.

Lemma add_piece_covers cur n exts : 0 <= trunc < 2 ^ 64 -> 0 <= offset <= cur -> 0 < n <= stripe_unit l - cur mod stripe_unit l ->
  file_offset l cur + n <= os -> covers cur exts ->
  exists exts', add_piece lt trunc exts (file_object l cur) (file_offset l cur) n (boff + (cur - offset)) = Done exts' /\ covers (cur + n) exts'.
Proof.
  intros Htr Hc Hn Hos Hcov. pose proof (file_object_range l Hl cur ltac:(lia)) as Hobj. pose proof (size_pos l Hl) as Hsz. unfold add_piece.
  destruct (upper_bound_spec (file_object l cur) exts (cv_sorted _ _ Hcov)) as (before & after & -> & -> & Hb & Ha).
  destruct before as [|e before _] using rev_ind.
  { cbn [extend_last]. destruct (truncate_done lt Hlt (file_object l cur) trunc ltac:(lia) Htr) as (t & E & _). rewrite E. run.
    eexists. split; [done|]. by apply covers_new. }
  apply Forall_app in Hb as [Hb He]. inversion He as [|? ? Hle _]; subst. rewrite extend_last_app.
  pose proof (cv_sorted _ _ Hcov) as Hs. rewrite <- app_assoc in Hcov, Hs. cbn [app] in Hcov, Hs.
  destruct (Z.eqb_spec (object_no e) (file_object l cur)) as [Heq|Hne].
  - assert (Hin : e ∈ before ++ e :: after) by (apply elem_middle; by left).
    pose proof (proj1 (Forall_forall _ _) (cv_ok _ _ Hcov) e Hin) as Hok. pose proof (eo_length _ Hok). pose proof (eo_offset _ Hok). pose proof (eo_end _ Hok).
    pose proof (extent_continues cur _ e Hc Hcov Hin Heq) as Hend. rewrite Hend, u64_small, Z.eqb_refl by lia. cbn [andb].
    rewrite u64_small by lia. eexists. split; [done|]. rewrite <- app_assoc. by apply covers_extend.
  - cbn [andb]. destruct (truncate_done lt Hlt (file_object l cur) trunc ltac:(lia) Htr) as (t & E & _). rewrite E. run.
    eexists. split; [done|]. apply covers_new; [done..|by rewrite <- app_assoc| |done|done].
    apply Forall_app. split; [|constructor; [lia|done]]. rewrite fmap_app in Hs. rewrite Forall_forall. intros e0 He0.
    assert (object_no e0 < object_no e); [|lia]. clear - Hs He0. induction before as [|e1 before IH]; [by apply elem_of_nil in He0|].
    cbn in Hs. inversion Hs as [|? ? Hs' Hf]; subst. apply elem_of_cons in He0 as [->|He0]; [|by apply IH].
    apply Forall_app in Hf as [_ Hf]. by inversion Hf.
Qed.

(** ** The loop *)

Lemma block_fits cur : 0 <= cur -> file_offset l cur + (stripe_unit l - cur mod stripe_unit l) <= os.
Proof.
  intros Hc. pose proof (unit_pos l Hl) as Hup. pose proof (stripes_pos l Hl) as Hsp. pose proof (stripes_size l Hl) as Hsz.
  unfold file_offset, offset_of. pose proof (Z.mod_pos_bound (cur / stripe_unit l / stripe_count l) (stripes l) Hsp). nia.
Qed.

Lemma extents_loop_covers fuel cur left exts : stripe_count lt = stripe_count l -> 0 <= trunc < 2 ^ 64 -> 0 <= offset <= cur -> 0 <= left -> cur + left <= 2 ^ 64 ->
  0 <= boff -> boff + (cur - offset) + left <= 2 ^ 64 -> left + cur mod stripe_unit l <= (Z.of_nat fuel - 1) * stripe_unit l ->
  covers cur exts ->
  exists exts', extents_loop fuel lt (stripe_unit l) (stripes l) offset trunc boff cur left exts = Done exts' /\ covers (cur + left) exts'.
Proof.
  intros Hsc Htr. pose proof (unit_pos l Hl) as Hup. pose proof (count_pos l Hl) as Hcp. pose proof (stripes_pos l Hl) as Hsp. pose proof (size_pos l Hl) as Hos.
  pose proof (stripes_size l Hl) as Hsz. revert cur left exts. induction fuel as [|fuel IH]; intros cur left exts Hc Hleft Hend Hb Hbuf Hfuel Hcov.
  { pose proof (Z.mod_pos_bound cur (stripe_unit l) Hup). lia. }
  cbn [extents_loop]. destruct (Z.eqb_spec left 0) as [->|Hne]; [exists exts; by rewrite Z.add_0_r|]. rewrite Hsc. divide.
  pose proof (Z.mod_pos_bound cur (stripe_unit l) Hup) as Hm. pose proof (block_fits cur ltac:(lia)) as Hfit.
  pose proof (file_object_range l Hl cur ltac:(lia)) as Hobj. pose proof (file_offset_range l Hl cur ltac:(lia)) as Hoff.
  assert (Hrow : 0 <= (cur / stripe_unit l / stripe_count l) mod stripes l * stripe_unit l <= file_offset l cur).
  { unfold file_offset, offset_of. pose proof (Z.mod_pos_bound (cur / stripe_unit l / stripe_count l) (stripes l) Hsp). nia. }
  rewrite (u64_small (_ mod stripes l * _)) by lia. fold (object_of (stripe_unit l) (stripe_count l) (stripes l) cur). fold (file_object l cur).
  fold (offset_of (stripe_unit l) (stripe_count l) (stripes l) cur). fold (file_offset l cur).
  rewrite (u64_small (file_object l cur)), (u64_small (file_offset l cur)), (u64_small (cur - offset + boff)) by lia.
  set (n := if stripe_unit l - cur mod stripe_unit l <? left then stripe_unit l - cur mod stripe_unit l else left).
  assert (Hn : 0 < n <= stripe_unit l - cur mod stripe_unit l /\ n <= left /\ (n = stripe_unit l - cur mod stripe_unit l \/ n = left)).
  { subst n. destruct (Z.ltb_spec (stripe_unit l - cur mod stripe_unit l) left); lia. }
  replace (cur - offset + boff) with (boff + (cur - offset)) by lia.
  destruct (add_piece_covers cur n exts Htr Hc ltac:(lia) ltac:(lia) Hcov) as (exts' & E & Hcov'). rewrite E. run.
  destruct (decide (left - n = 0)) as [E0|E0].
  - rewrite E0. replace (cur + left) with (cur + n) by lia. exists exts'. split; [|done].
    destruct fuel as [|fuel]; [|done]. exfalso. nia.
  - rewrite u64_small by lia. replace (cur + left) with (cur + n + (left - n)) by lia. apply IH; [lia..| |done].
    assert (Hblock : (cur + n) mod stripe_unit l = 0).
    { replace (cur + n) with ((cur / stripe_unit l + 1) * stripe_unit l) by (pose proof (Z.div_mod cur (stripe_unit l) ltac:(lia)); lia).
      apply Z.mod_mul. lia. }
    rewrite Hblock. nia.
Qed.
End Range.

(** ** Whole calls *)

(** The geometry that [file_to_extents] uses: with one object in a set, blocks as large as objects. *)
Definition effective (l : file_layout_t) : file_layout_t :=
  if stripe_count l =? 1 then mklayout (object_size l) 1 (object_size l) (pool_id l) (pool_ns l) else l.

Lemma effective_ok l : layout_ok l -> layout_ok (effective l).
Proof.
  intros Hl. unfold effective. destruct (Z.eqb_spec (stripe_count l) 1) as [E|E]; [|done]. pose proof (size_pos l Hl). split; cbn; [lia..|]. apply Z.mod_same. lia.
Qed.

Lemma effective_place l o : layout_ok l -> file_object (effective l) o = file_object l o /\ file_offset (effective l) o = file_offset l o.
Proof.
  intros Hl. unfold effective. destruct (Z.eqb_spec (stripe_count l) 1) as [E|E]; [|done]. unfold file_object, file_offset. cbn [stripe_unit stripe_count].
  pose proof (one_object (stripe_unit l) (stripes l) o (unit_pos l Hl) (stripes_pos l Hl)) as [H1 H2]. rewrite stripes_size in H1, H2 by done.
  unfold stripes at 1 3. cbn [stripe_unit object_size]. rewrite Z.div_same by (pose proof (size_pos l Hl); lia). by rewrite E, H1, H2.
Qed.

Lemma effective_size l : object_size (effective l) = object_size l.
Proof. unfold effective. by destruct (_ =? _). Qed.

Lemma effective_position l no x : layout_ok l -> 0 <= no -> 0 <= x < object_size l -> file_position (effective l) no x = file_position l no x.
Proof.
  intros Hl Hno Hx. pose proof (effective_ok l Hl) as He. pose proof (effective_size l) as Hsz.
  pose proof (file_place_position (effective l) He no x Hno ltac:(lia)) as [E1 E2].
  pose proof (file_position_nonneg (effective l) He no x Hno ltac:(lia)) as Hp.
  destruct (effective_place l (file_position (effective l) no x) Hl) as [E3 E4].
  rewrite <- (file_position_place l Hl _ Hp), <- E3, <- E4, E1, E2. done.
Qed.

Lemma covers_start l lt offset trunc boff : covers l lt offset trunc boff offset [].
Proof.
  split; [constructor|constructor| |].
  - intros no x _ _. split; [lia|]. intros (e & He & _). by apply elem_of_nil in He.
  - exists []. split; [cbn; lia|done].
Qed.

Lemma file_to_extents_covers l offset len trunc boff : layout_ok l -> 0 <= offset -> 0 < len -> offset + len <= 2 ^ 64 -> 0 <= trunc < 2 ^ 64 ->
  0 <= boff -> boff + len <= 2 ^ 64 ->
  exists exts, file_to_extents l offset len trunc boff [] = Done exts /\ covers (effective l) l offset trunc boff (offset + len) exts.
Proof.
  intros Hl Ho Hlen Hend Htr Hb Hbl. pose proof (effective_ok l Hl) as He. pose proof (unit_pos _ He) as Hup. unfold file_to_extents.
  rewrite (assert_done (0 <? len)) by (apply Z.ltb_lt; lia). run. rewrite (assert_done (_ <=? _)) by (apply Z.leb_le, Hl). run.
  assert (E : (if stripe_count l =? 1 then object_size l else stripe_unit l) = stripe_unit (effective l)) by (unfold effective; by destruct (_ =? 1)).
  rewrite E, <- (effective_size l), over_done by done. run. fold (stripes (effective l)).
  apply extents_loop_covers; [done|done|unfold effective; destruct (Z.eqb_spec (stripe_count l) 1); cbn; lia|lia..| |apply covers_start].
  pose proof (Z.mod_pos_bound offset (stripe_unit (effective l)) Hup). pose proof (Z.div_mod len (stripe_unit (effective l)) ltac:(lia)).
  pose proof (Z.mod_pos_bound len (stripe_unit (effective l)) Hup). assert (0 <= len / stripe_unit (effective l)) by (apply Z.div_pos; lia). nia.
Qed.
