(* ===== verification/StriperRead.v ===== *)
(** * Answers of objects put together

    What [StripedReadResult] holds while answers come in, in any order, full,
    short or sparse, and what the three ways to assemble them give. *)
From stdpp Require Import sorting.
From S2P Require Import Prelude Striper StriperLayout StriperExtents.

(** ** The map of pieces *)

Abbreviation entry := (Z * (list Z * Z))%type.
Abbreviation size l := (Z.of_nat (length l)) (only parsing).

Definition before {A} (a b : Z * A) : Prop := a.1 < b.1.

#[global] Instance before_antisymm {A} : AntiSymm (=) (@before A).
Proof. intros a b. unfold before. lia. Qed.

Lemma at_key_fresh {A} (d : A) k f m : Forall (fun e => e.1 <> k) m -> StronglySorted before m ->
  at_key d k f m ≡ₚ (k, f d) :: m /\ StronglySorted before (at_key d k f m).
Proof.
  induction m as [|[k' a] m IH]; cbn; intros Hk Hs; [split; [done|repeat constructor]|]. inversion Hk as [|? ? Hne Hk']; subst. cbn in Hne.
  inversion Hs as [|? ? Hs' Hf]; subst. destruct (Z.ltb_spec k k') as [Hlt|Hge].
  - split; [done|]. constructor; [done|]. constructor; [done|]. eapply Forall_impl; [exact Hf|]. unfold before. cbn. lia.
  - rewrite (proj2 (Z.eqb_neq k k')) by lia. destruct (IH Hk' Hs') as [Hp Hs2]. split.
    + rewrite Hp. apply Permutation_swap.
    + constructor; [done|]. rewrite Hp. constructor; [unfold before; cbn; lia|done].
Qed.

Lemma at_key_last {A} (d : A) k f m : Forall (fun e => e.1 < k) m -> at_key d k f m = m ++ [(k, f d)].
Proof.
  induction 1 as [|[k' a] m Hk Hm IH]; [done|]. cbn in *. rewrite (proj2 (Z.ltb_ge k k')), (proj2 (Z.eqb_neq k k')), IH by lia. done.
Qed.

(** The result holds the entries [ents], [total] bytes long. *)
Record held (r : StripedReadResult) (ents : list entry) (total : Z) : Prop := {
  he_sorted : StronglySorted before (partial r);
  he_entries : partial r ≡ₚ ents;
  he_total : total_intended_len r = total }.

Lemma put_held r ents total pos f n : held r ents total -> Forall (fun e => e.1 <> pos) ents -> 0 <= total -> 0 <= n -> total + n < 2 ^ 64 ->
  held (put r pos f n) ((pos, (f [], n)) :: ents) (total + n).
Proof.
  intros [Hs Hp Ht] Hpos H0 Hn Hlt. unfold put.
  destruct (at_key_fresh ([], 0) pos (fun d : list Z * Z => (f d.1, n)) (partial r)) as [H1 H2]; [by rewrite Hp|done|].
  split; cbn; [done|by rewrite H1, Hp|rewrite Ht; apply u64_small; lia].
Qed.

(** ** Pieces that do not meet *)

Definition apart_from (p q : Z * Z) : Prop := p.1 + p.2 <= q.1 \/ q.1 + q.2 <= p.1.

Fixpoint apart (l : list (Z * Z)) : Prop :=
  match l with [] => True | p :: l => Forall (apart_from p) l /\ apart l end.

#[global] Instance apart_proper : Proper ((≡ₚ) ==> iff) apart.
Proof.
  assert (H : forall l l', l ≡ₚ l' -> apart l -> apart l').
  { induction 1 as [|p l l' Hp IH|p q l|l l' l'' _ IH1 _ IH2]; cbn; [done| | |auto].
    - intros [H1 H2]. split; [by rewrite <- Hp|auto].
    - intros [H1 [H2 H3]]. inversion H1 as [|? ? H4 H5]; subst. repeat split; [|done..]. constructor; [|done]. unfold apart_from in *. lia. }
  intros l l' Hl. split; by apply H.
Qed.

Lemma chain_le b l e : chain b l e -> b <= e.
Proof. revert b. induction l as [|[p n] l IH]; intros b; cbn; [lia|]. intros (-> & Hn & H). specialize (IH _ H). lia. Qed.

Lemma chain_from b l e : chain b l e -> Forall (fun p => b <= p.1) l.
Proof.
  revert b. induction l as [|[p n] l IH]; intros b; cbn; [constructor|]. intros (-> & Hn & H). constructor; [cbn; lia|].
  eapply Forall_impl; [by apply IH|]. cbn. lia.
Qed.

Lemma chain_apart b l e : chain b l e -> apart l.
Proof.
  revert b. induction l as [|[p n] l IH]; intros b; cbn; [done|]. intros (-> & Hn & H). split; [|by eapply IH].
  eapply Forall_impl; [by eapply chain_from|]. intros q Hq. left. exact Hq.
Qed.

Section Want.
(** The bytes that belong to the places of the buffer. *)
Context (want : Z -> Z).

Definition wanted (p n : Z) : list Z := want <$> seqZ p n.

Lemma wanted_split p n m : 0 <= n -> 0 <= m -> wanted p (n + m) = wanted p n ++ wanted (p + n) m.
Proof. intros. unfold wanted. by rewrite seqZ_app, fmap_app by lia. Qed.

Lemma wanted_size p n : 0 <= n -> size (wanted p n) = n.
Proof. intros. unfold wanted. rewrite length_fmap, length_seqZ. lia. Qed.

(** Entries behind each other from [b] to [e]: data, and zeros for what is missing. *)
Fixpoint tiles (b : Z) (g : list entry) (e : Z) : Prop :=
  match g with
  | [] => b = e
  | (p, (data, n)) :: g => p = b /\ 0 < n /\ size data <= n /\ data ++ replicate (Z.to_nat (n - size data)) 0 = wanted b n /\ tiles (b + n) g e
  end.

Lemma tiles_le b g e : tiles b g e -> b <= e.
Proof. revert b. induction g as [|[p [data n]] g IH]; intros b; cbn; [lia|]. intros (-> & Hn & _ & _ & H). specialize (IH _ H). lia. Qed.

Lemma tiles_app b g m g' e : tiles b g m -> tiles m g' e -> tiles b (g ++ g') e.
Proof.
  revert b. induction g as [|[p [data n]] g IH]; intros b; cbn; [by intros ->|]. intros (-> & H1 & H2 & H3 & H4) H. repeat split; auto.
Qed.

Lemma tiles_snoc b g p data n e : tiles b (g ++ [(p, (data, n))]) e -> tiles b g p /\ tiles p [(p, (data, n))] e.
Proof.
  revert b. induction g as [|[q [data' n']] g IH]; intros b; cbn; [intros (-> & H); done|]. intros (-> & H1 & H2 & H3 & H4).
  destruct (IH _ H4) as [H5 H6]. done.
Qed.

Lemma tiles_keys b g e : tiles b g e -> Forall (fun x => b <= x.1 < e) g.
Proof.
  revert b. induction g as [|[p [data n]] g IH]; intros b; cbn; [constructor|]. intros (-> & Hn & _ & _ & H). pose proof (tiles_le _ _ _ H).
  constructor; [cbn; lia|]. eapply Forall_impl; [by apply IH|]. cbn. lia.
Qed.

Lemma tiles_sorted b g e : tiles b g e -> StronglySorted before g.
Proof.
  revert b. induction g as [|[p [data n]] g IH]; intros b; cbn; [constructor|]. intros (-> & Hn & _ & _ & H). constructor; [by eapply IH|].
  eapply Forall_impl; [by eapply tiles_keys|]. unfold before. cbn. lia.
Qed.

Lemma tile_one p data n : 0 < n -> size data <= n -> data ++ replicate (Z.to_nat (n - size data)) 0 = wanted p n -> tiles p [(p, (data, n))] (p + n).
Proof. intros. by repeat split. Qed.

(** What a result holds after some of the pieces: for each one its entries. *)
Definition collected (r : StripedReadResult) (pieces : list (Z * Z)) (total : Z) : Prop :=
  exists gs, Forall2 (fun p g => tiles p.1 g (p.1 + p.2)) pieces gs /\ held r (concat gs) total.

(** No entry starts in [b, e). *)
Definition clear (b e : Z) (ents : list entry) : Prop := Forall (fun x => ~ (b <= x.1 < e)) ents.

Lemma collected_clear pieces gs p n : Forall2 (fun p g => tiles p.1 g (p.1 + p.2)) pieces gs -> Forall (apart_from (p, n)) pieces ->
  clear p (p + n) (concat gs).
Proof.
  induction 1 as [|q g pieces gs Hg _ IH]; cbn; intros H; [constructor|]. inversion H as [|? ? Hq H']; subst. apply Forall_app. split; [|exact (IH H')].
  eapply Forall_impl; [by eapply tiles_keys|]. intros x. unfold apart_from in Hq. cbn in *. lia.
Qed.

(** The entries of all pieces, in order. *)
Lemma collected_all r pieces total b e : collected r pieces total -> (exists ps, chain b ps e /\ pieces ≡ₚ ps) -> tiles b (partial r) e.
Proof.
  intros (gs & Hgs & [Hs Hp _]) (ps & Hch & Hperm). destruct (Permutation_Forall2 Hperm Hgs) as (gs' & Hgs' & H2).
  assert (Ht : tiles b (concat gs') e).
  { clear - Hch H2. revert b Hch. induction H2 as [|[p n] g ps gs Hg _ IH]; intros b; cbn; [done|]. intros (-> & Hn & H). eapply tiles_app; [exact Hg|]. by apply IH. }
  replace (partial r) with (concat gs'); [done|]. apply (StronglySorted_unique before); [by eapply tiles_sorted|done|]. by rewrite Hp, Hgs'.
Qed.

(** ** Assembling *)

Lemma assemble_loop_tiles m : forall b e bl zeros, tiles b m e -> 0 <= zeros -> zeros + (e - b) < 2 ^ 64 ->
  exists bl' zeros', assemble_loop m bl zeros = (bl', zeros') /\ 0 <= zeros' /\
    bl' ++ replicate (Z.to_nat zeros') 0 = bl ++ replicate (Z.to_nat zeros) 0 ++ wanted b (e - b).
Proof.
  induction m as [|[p [data n]] m IH]; cbn [tiles assemble_loop]; intros b e bl zeros.
  { intros <- H0 _. exists bl, zeros. rewrite Z.sub_diag. unfold wanted. cbn. by rewrite app_nil_r. }
  intros (-> & Hn & Hd & Hw & H) H0 Hlt. pose proof (tiles_le _ _ _ H) as Hle.
  replace (e - b) with (n + (e - (b + n))) by lia. rewrite wanted_split, <- Hw by lia. rewrite (u64_small (n - _)) by lia.
  destruct (Z.eqb_spec (size data) 0) as [E|E].
  - destruct data; [|cbn in E; lia]. cbn [length] in *. rewrite u64_small by lia.
    destruct (IH (b + n) e bl (zeros + (n - Z.of_nat 0)) H ltac:(lia) ltac:(lia)) as (bl' & z' & E1 & Hz & E2). exists bl', z'. rewrite E1, E2. split; [done|].
    split; [done|]. f_equal. cbn [app]. rewrite Z2Nat.inj_add, replicate_add by lia. by rewrite <- app_assoc.
  - rewrite u64_small by lia. destruct (IH (b + n) e (bl ++ replicate (Z.to_nat zeros) 0 ++ data) (0 + (n - size data)) H ltac:(lia) ltac:(lia)) as (bl' & z' & E1 & Hz & E2).
    exists bl', z'. rewrite E1, E2. split; [done|]. split; [done|]. by rewrite <- !app_assoc.
Qed.

Lemma write_at_done buffer pos data : 0 <= pos -> pos + size data <= size buffer ->
  write_at buffer pos data = Done (take (Z.to_nat pos) buffer ++ data ++ drop (Z.to_nat pos + length data) buffer).
Proof. intros. unfold write_at. by rewrite (proj2 (Z.leb_le 0 pos)), (proj2 (Z.leb_le _ (size buffer))) by lia. Qed.

(** Two writes behind each other are one. *)
Lemma write_at_twice buffer pos a b : 0 <= pos -> pos + size (a ++ b) <= size buffer ->
  (buffer ← write_at buffer pos a; write_at buffer (pos + size a) b) = write_at buffer pos (a ++ b).
Proof.
  rewrite length_app. intros H0 Hlt. rewrite !write_at_done by (rewrite ?length_app; lia). run.
  assert (Hta : length (take (Z.to_nat pos) buffer ++ a) = (Z.to_nat pos + length a)%nat) by (rewrite length_app, length_take; lia).
  rewrite (app_assoc _ a (drop _ _)). set (front := take (Z.to_nat pos) buffer ++ a) in *.
  rewrite write_at_done by (rewrite ?length_app, ?length_drop; lia). rewrite take_app_length' by lia.
  replace (Z.to_nat (pos + size a) + length b)%nat with (length front + length b)%nat by lia.
  rewrite drop_app_add', drop_drop by done. subst front. rewrite <- !app_assoc, length_app, Nat.add_assoc. done.
Qed.

Lemma buffer_loop_tiles base m : forall b e buffer, tiles b m e -> base <= b -> e - base <= size buffer -> 0 <= b -> e < 2 ^ 64 ->
  exists buffer', buffer_loop (reverse m) buffer (e - base) e = Done (buffer', b - base) /\
    buffer' = take (Z.to_nat (b - base)) buffer ++ wanted b (e - b) ++ drop (Z.to_nat (e - base)) buffer.
Proof.
  induction m as [|[p [data n]] m IH] using rev_ind; intros b e buffer.
  { cbn. intros <- _ _ _ _. eexists. split; [done|]. rewrite Z.sub_diag. unfold wanted. rewrite seqZ_nil by lia. cbn. by rewrite take_drop. }
  intros H Hb He H0 Hlt. apply tiles_snoc in H as [H1 (_ & Hn & Hd & Hw & H2)]. cbn in H2. pose proof (tiles_le _ _ _ H1) as Hle.
  rewrite reverse_snoc. cbn [buffer_loop]. rewrite u64_small, (assert_done (_ =? _)) by (try apply Z.eqb_eq; lia). run. rewrite (assert_done (_ <=? _)) by (apply Z.leb_le; lia). run.
  assert (E : (buffer ← write_at buffer (e - base - n) data;
               if size data <? n then write_at buffer (e - base - n + size data) (replicate (Z.to_nat (n - size data)) 0) else Done buffer)
              = write_at buffer (p - base) (wanted p n)).
  { rewrite <- Hw. replace (e - base - n) with (p - base) by lia. destruct (Z.ltb_spec (size data) n).
    - apply write_at_twice; [lia|]. rewrite Hw, wanted_size; lia.
    - replace (Z.to_nat (n - size data)) with 0%nat by lia. cbn [replicate]. rewrite app_nil_r. by destruct (write_at _ _ data). }
  rewrite (write_at_done buffer (e - base - n)) in * by lia. rewrite (write_at_done buffer (p - base)) in E by (rewrite ?wanted_size; lia).
  revert E. run. intros E. rewrite E. run. replace (e - base - n) with (p - base) by lia.
  match goal with |- context [buffer_loop _ ?x _ _] => set (buffer1 := x) end.
  assert (Hw1 : length (wanted p n) = Z.to_nat n) by (pose proof (wanted_size p n); lia).
  destruct (IH b p buffer1 H1 Hb) as (buffer' & E1 & ->); [|lia..|].
  { subst buffer1. rewrite !length_app, length_take, length_drop. lia. }
  eexists. split; [exact E1|]. subst buffer1. rewrite take_app_le, take_take, drop_app_length' by (rewrite length_take; lia).
  replace (Z.to_nat (b - base) `min` Z.to_nat (p - base))%nat with (Z.to_nat (b - base)) by lia.
  replace (e - b) with ((p - b) + n) by lia. rewrite (wanted_split b), <- !app_assoc by lia. replace (b + (p - b)) with p by lia.
  do 4 f_equal. lia.
Qed.
End Want.

(** ** Sparse answers *)

(** Extents from [lo] on with their data behind each other: the bytes of [c] up to [hi], zeros between. *)
Fixpoint sparse_rep (c : Z -> Z) (lo hi : Z) (s : list (Z * Z)) (bl : list Z) : Prop :=
  match s with
  | [] => bl = [] /\ lo <= hi /\ forall y, lo <= y < hi -> c y = 0
  | (f, k) :: s => lo <= f /\ 0 <= k /\ (forall y, lo <= y < f -> c y = 0) /\
      exists bl', bl = wanted c f k ++ bl' /\ sparse_rep c (f + k) hi s bl'
  end.

Lemma sparse_rep_le c lo hi s bl : sparse_rep c lo hi s bl -> lo <= hi.
Proof.
  revert lo bl. induction s as [|[f k] s IH]; intros lo bl; cbn; [lia|]. intros (H1 & H2 & _ & bl' & _ & H). specialize (IH _ _ H). lia.
Qed.

(** More zeros in front, or fewer. *)
Lemma sparse_rep_from c lo lo' hi s bl : lo <= lo' -> (forall y, lo <= y < lo' -> c y = 0) -> sparse_rep c lo' hi s bl -> sparse_rep c lo hi s bl.
Proof.
  intros Hl Hz. destruct s as [|[f k] s]; cbn.
  - intros (H1 & H2 & H3). split; [done|]. split; [lia|]. intros y Hy. destruct (decide (y < lo')); [apply Hz; lia|apply H3; lia].
  - intros (H1 & H2 & H3 & H4). split; [lia|]. split; [done|]. split; [|done]. intros y Hy. destruct (decide (y < lo')); [apply Hz; lia|apply H3; lia].
Qed.

Lemma sparse_rep_skip c lo lo' hi f k s bl : lo <= lo' <= f -> sparse_rep c lo hi ((f, k) :: s) bl -> sparse_rep c lo' hi ((f, k) :: s) bl.
Proof. cbn. intros Hl (H1 & H2 & H3 & H4). split; [lia|]. split; [done|]. split; [|done]. intros y Hy. apply H3. lia. Qed.

Lemma wanted_zero c p n : 0 <= n -> (forall y, p <= y < p + n -> c y = 0) -> replicate (Z.to_nat n) 0 = wanted c p n.
Proof.
  intros Hn Hz. unfold wanted. apply list_eq. intros i. rewrite list_lookup_fmap. destruct (decide (Z.of_nat i < n)).
  - rewrite lookup_replicate_2, lookup_seqZ_lt by lia. cbn. by rewrite Hz by lia.
  - rewrite lookup_seqZ_ge by lia. apply lookup_replicate_None. lia.
Qed.

Lemma wanted_ext c c' p p' n : (forall j, 0 <= j < n -> c (p + j) = c' (p' + j)) -> wanted c p n = wanted c' p' n.
Proof.
  intros H. unfold wanted. apply list_eq. intros i. rewrite !list_lookup_fmap. destruct (decide (Z.of_nat i < n)).
  - rewrite !lookup_seqZ_lt by lia. cbn. by rewrite H by lia.
  - by rewrite !lookup_seqZ_ge by lia.
Qed.

(** The position of a reader: before the next extent, or in it. *)
Definition reading (c : Z -> Z) (off hi : Z) (s : list (Z * Z)) (bl : list Z) : Prop :=
  sparse_rep c off hi s bl \/
  exists f k s', s = (f, k) :: s' /\ f < off < f + k /\ sparse_rep c off hi ((off, f + k - off) :: s') bl.

Lemma reading_data c off hi f k s bl : reading c off hi ((f, k) :: s) bl -> f <= off -> k <> 0 -> off < f + k /\
  exists bl', bl = wanted c off (f + k - off) ++ bl' /\ sparse_rep c (f + k) hi s bl'.
Proof.
  intros [(H1 & H2 & H3 & bl' & -> & H)|(f' & k' & s' & [= <- <- <-] & Hoff & _ & _ & _ & bl' & -> & H)] Hf Hk.
  - assert (off = f) as -> by lia. split; [lia|]. replace (f + k - f) with k by lia. by exists bl'.
  - split; [lia|]. exists bl'. replace (off + (f + k - off)) with (f + k) in H by lia. done.
Qed.

Lemma reading_move c off n hi f k s bl' : f <= off -> 0 < n < f + k - off -> sparse_rep c (f + k) hi s bl' ->
  reading c (off + n) hi ((f, k) :: s) (wanted c (off + n) (f + k - (off + n)) ++ bl').
Proof.
  intros Hf Hn H. right. exists f, k, s. split; [done|]. split; [lia|]. cbn. split; [lia|]. split; [lia|]. split; [intros y; lia|].
  exists bl'. split; [done|]. by replace (off + n + (f + k - (off + n))) with (f + k) by lia.
Qed.

Lemma splice_done a b n : n = size a -> n < 2 ^ 32 -> splice (a ++ b) n = Done (a, b).
Proof.
  intros -> H. unfold splice. replace (u32 (size a)) with (size a) by (symmetry; apply Z.mod_small; lia). rewrite length_app, (proj2 (Z.leb_le _ _)) by lia.
  rewrite Nat2Z.id. by rewrite take_app_length, drop_app_length.
Qed.

(** ** Adding the answer of an object *)

Section Add.
Context (want : Z -> Z).

(** [r'] has what [r] has, and the places from [tofs] on. *)
Definition filled (ents : list entry) (total tofs tlen : Z) (r' : StripedReadResult) : Prop :=
  exists g, held r' (g ++ ents) (total + tlen) /\ tiles want tofs g (tofs + tlen).

Lemma held_perm r ents ents' total : ents ≡ₚ ents' -> held r ents total -> held r ents' total.
Proof. intros Hp [H1 H2 H3]. split; [done|by rewrite H2|done]. Qed.

Lemma filled_none r ents total tofs : held r ents total -> filled ents total tofs 0 r.
Proof. intros H. exists []. cbn. rewrite !Z.add_0_r. done. Qed.

(** One entry, and then the rest. *)
Lemma filled_put r ents total tofs tlen f n r' : held r ents total -> clear tofs (tofs + tlen) ents -> 0 < n <= tlen -> 0 <= total -> total + tlen < 2 ^ 64 ->
  size (f []) <= n -> f [] ++ replicate (Z.to_nat (n - size (f []))) 0 = wanted want tofs n ->
  (held (put r tofs f n) ((tofs, (f [], n)) :: ents) (total + n) -> clear (tofs + n) (tofs + tlen) ((tofs, (f [], n)) :: ents) ->
   filled ((tofs, (f [], n)) :: ents) (total + n) (tofs + n) (tlen - n) r') ->
  filled ents total tofs tlen r'.
Proof.
  intros Hh Hc Hn Ht Htl Hs Hw Hk. destruct Hk as (g & Hg & Hti).
  - apply put_held; [done| |lia..]. eapply Forall_impl; [exact Hc|]. cbn. lia.
  - constructor; [cbn; lia|]. eapply Forall_impl; [exact Hc|]. cbn. lia.
  - exists ((tofs, (f [], n)) :: g). split.
    + replace (total + tlen) with (total + n + (tlen - n)) by lia. eapply held_perm; [|exact Hg]. symmetry. apply Permutation_middle.
    + repeat split; [lia|done|done|]. by replace (tofs + tlen) with (tofs + n + (tlen - n)) by lia.
Qed.

Lemma data_step c hi f k s bl x tlen : reading c x hi ((f, k) :: s) bl -> 0 <= f <= x -> k <> 0 -> hi < 2 ^ 64 -> 0 < tlen < 2 ^ 32 ->
  let left := u64 (u64 (f + k) - x) in let actual := Z.min left tlen in
  0 < actual <= tlen /\ exists bl', splice bl actual = Done (wanted c x actual, bl') /\
    reading c (x + actual) hi (if actual =? left then s else (f, k) :: s) bl'.
Proof.
  intros Hr Hf Hk Hhi Hl. destruct (reading_data c x hi f k s bl Hr ltac:(lia) Hk) as (Hx & bl' & -> & Hrep). pose proof (sparse_rep_le _ _ _ _ _ Hrep).
  rewrite (u64_small (f + k)), (u64_small (f + k - x)) by lia. cbn zeta. set (left := f + k - x). assert (Hact : 0 < Z.min left tlen <= tlen) by lia. split; [done|].
  set (actual := Z.min left tlen) in *. assert (Hw : wanted c x left = wanted c x actual ++ wanted c (x + actual) (left - actual)) by (rewrite <- wanted_split by lia; f_equal; lia).
  rewrite Hw, <- app_assoc.
  eexists. split.
  - apply splice_done; [rewrite wanted_size|]; lia.
  - destruct (Z.eqb_spec actual left) as [E|E].
    + rewrite E. left. rewrite Z.sub_diag. unfold wanted. rewrite seqZ_nil by lia. cbn. by replace (x + left) with (f + k) by lia.
    + replace (left - actual) with (f + k - (x + actual)) by lia. apply reading_move; [lia|lia|done].
Qed.

(** What the loop starts with: [x] is the position in the object. *)
Record loop_pre (c : Z -> Z) (hi : Z) (r : StripedReadResult) (bl : list Z) (s : list (Z * Z)) (off x tofs tlen : Z) (ents : list entry) (total : Z) : Prop := {
  lp_held : held r ents total;
  lp_clear : clear tofs (tofs + tlen) ents;
  lp_reading : reading c x hi s bl;
  lp_off : s <> [] -> off = x;
  lp_want : forall j, 0 <= j < tlen -> want (tofs + j) = c (x + j);
  lp_first : Forall (fun e => 0 <= e.1) s;
  lp_bounds : 0 <= tlen < 2 ^ 32 /\ 0 <= tofs /\ tofs + tlen < 2 ^ 64 /\ 0 <= x /\ x + tlen <= hi /\ hi < 2 ^ 64 /\ 0 <= total /\ total + tlen < 2 ^ 64 }.

(** What it ends with. *)
Definition loop_post (c : Z -> Z) (hi x tofs tlen : Z) (ents : list entry) (total : Z)
    (o : outcome (StripedReadResult * list Z * list (Z * Z) * Z)) : Prop :=
  exists r' bl' s' off', o = Done (r', bl', s', off') /\ filled ents total tofs tlen r' /\
    reading c (x + tlen) hi s' bl' /\ (s' <> [] -> off' = x + tlen) /\ Forall (fun e => 0 <= e.1) s'.

(** An entry of [n] bytes, and the loop from there. *)
Lemma loop_put c hi r bl s off x tofs tlen ents total f n bl' s' o : loop_pre c hi r bl s off x tofs tlen ents total -> 0 < n <= tlen ->
  size (f []) <= n -> f [] ++ replicate (Z.to_nat (n - size (f []))) 0 = wanted c x n -> reading c (x + n) hi s' bl' -> Forall (fun e => 0 <= e.1) s' ->
  (loop_pre c hi (put r tofs f n) bl' s' (x + n) (x + n) (tofs + n) (tlen - n) ((tofs, (f [], n)) :: ents) (total + n) ->
   loop_post c hi (x + n) (tofs + n) (tlen - n) ((tofs, (f [], n)) :: ents) (total + n) o) ->
  loop_post c hi x tofs tlen ents total o.
Proof.
  intros [Hh Hc Hr Hoff Hwant Hf Hb] Hn Hs Hw Hr' Hf' Hk. rewrite <- (wanted_ext want c tofs x) in Hw by (intros; apply Hwant; lia).
  assert (Hfill := fun r' => filled_put r ents total tofs tlen f n r' Hh Hc Hn ltac:(lia) ltac:(lia) Hs Hw).
  destruct Hk as (r' & bl2 & s2 & off2 & -> & H1 & H2 & H3 & H4).
  - split; [apply put_held; [done| |lia..]| |done|done| |done|lia].
    + eapply Forall_impl; [exact Hc|]. cbn. lia.
    + constructor; [cbn; lia|]. eapply Forall_impl; [exact Hc|]. cbn. lia.
    + intros j Hj. rewrite <- !Z.add_assoc. apply Hwant. lia.
  - exists r', bl2, s2, off2. replace (x + tlen) with (x + n + (tlen - n)) by lia. split; [done|]. split; [|done]. apply Hfill. by intros _ _.
Qed.

Lemma loop_none c hi r bl s off x tofs ents total : loop_pre c hi r bl s off x tofs 0 ents total ->
  loop_post c hi x tofs 0 ents total (Done (r, bl, s, off)).
Proof. intros [Hh Hc Hr Hoff _ Hf _]. exists r, bl, s, off. rewrite Z.add_0_r. auto using filled_none. Qed.

Abbreviation loop_ok c hi fuel := (forall r bl s off x tofs tlen ents total, loop_pre c hi r bl s off x tofs tlen ents total ->
  (Z.to_nat tlen + length s + 1 <= fuel)%nat -> loop_post c hi x tofs tlen ents total (sparse_loop fuel r bl s off tofs tlen)).

(** The data of an extent. *)
Lemma loop_data c hi fuel r bl f k s x tofs tlen ents total : loop_ok c hi fuel -> loop_pre c hi r bl ((f, k) :: s) x x tofs tlen ents total ->
  f <= x -> k <> 0 -> tlen <> 0 -> (Z.to_nat tlen + length s + 1 <= fuel)%nat ->
  loop_post c hi x tofs tlen ents total (sparse_loop (S fuel) r bl ((f, k) :: s) x tofs tlen).
Proof.
  intros IH Hpre Hf Hk Htl Hfuel. pose proof (lp_bounds _ _ _ _ _ _ _ _ _ _ _ Hpre) as Hb. pose proof (lp_first _ _ _ _ _ _ _ _ _ _ _ Hpre) as Hfst.
  inversion Hfst as [|? ? Hf0 Hfst']; subst. cbn in Hf0. cbn [sparse_loop].
  rewrite (proj2 (Z.eqb_neq tlen 0)), (proj2 (Z.eqb_neq k 0)), (proj2 (Z.ltb_ge x f)) by lia. rewrite !Z.add_0_r, Z.sub_0_r, !u64_small by lia.
  rewrite (proj2 (Z.eqb_neq tlen 0)), assert_done by (try apply Z.leb_le; lia). run.
  destruct (data_step c hi f k s bl x tlen (lp_reading _ _ _ _ _ _ _ _ _ _ _ Hpre) ltac:(lia) Hk ltac:(lia) ltac:(lia)) as (Hact & bl' & E & Hr').
  set (left := u64 (u64 (f + k) - x)) in *. set (actual := Z.min left tlen) in *. rewrite (proj2 (Z.ltb_lt 0 actual)), E by lia. run.
  rewrite !u64_small by lia. eapply (loop_put c hi r bl _ x x tofs tlen ents total (fun d => d ++ wanted c x actual) actual); [exact Hpre|done| |  |exact Hr'|by destruct (_ =? _)|].
  - cbn. rewrite wanted_size; lia.
  - cbn. rewrite wanted_size, Z.sub_diag by lia. apply app_nil_r.
  - intros H. apply IH; [exact H|]. destruct (_ =? _); cbn [length]; lia.
Qed.

(** The zeros before an extent, and its data if there is room. *)
Lemma loop_gap c hi fuel r bl f k s x tofs tlen ents total : loop_ok c hi fuel -> loop_pre c hi r bl ((f, k) :: s) x x tofs tlen ents total ->
  x < f -> k <> 0 -> tlen <> 0 -> (Z.to_nat tlen + length s + 1 <= fuel)%nat ->
  loop_post c hi x tofs tlen ents total (sparse_loop (S fuel) r bl ((f, k) :: s) x tofs tlen).
Proof.
  intros IH Hpre Hf Hk Htl Hfuel. pose proof (lp_bounds _ _ _ _ _ _ _ _ _ _ _ Hpre) as Hb. pose proof (lp_first _ _ _ _ _ _ _ _ _ _ _ Hpre) as Hfst.
  destruct (lp_reading _ _ _ _ _ _ _ _ _ _ _ Hpre) as [Hr|(? & ? & ? & [= <- <- <-] & Hoff & _)]; [|lia].
  set (gap := Z.min (f - x) tlen).
  assert (E : sparse_loop (S fuel) r bl ((f, k) :: s) x tofs tlen =
              if tlen - gap =? 0 then sparse_loop fuel (put r tofs id gap) bl ((f, k) :: s) (x + gap) (tofs + gap) (tlen - gap)
              else sparse_loop (S fuel) (put r tofs id gap) bl ((f, k) :: s) (x + gap) (tofs + gap) (tlen - gap)).
  { cbn [sparse_loop]. rewrite (proj2 (Z.eqb_neq tlen 0)), (proj2 (Z.eqb_neq k 0)), (proj2 (Z.ltb_lt x f)) by lia. fold gap. rewrite !(u64_small (_ + gap)) by lia.
    destruct (Z.eqb_spec (tlen - gap) 0); [done|]. rewrite (proj2 (Z.ltb_ge (x + gap) f)) by lia.
    rewrite !Z.add_0_r, Z.sub_0_r, (u64_small (x + gap)), (u64_small (tofs + gap)) by lia. by rewrite (proj2 (Z.eqb_neq (tlen - gap) 0)) by lia. }
  rewrite E. eapply (loop_put c hi r bl _ x x tofs tlen ents total id gap); [exact Hpre|lia|cbn; lia| |left; by eapply sparse_rep_skip; [|exact Hr]; lia|exact Hfst|].
  - cbn. rewrite Z.sub_0_r. apply wanted_zero; [lia|]. intros y Hy. destruct Hr as (_ & _ & Hz & _). apply Hz. lia.
  - intros H. destruct (Z.eqb_spec (tlen - gap) 0) as [E0|E0]; [|apply loop_data; [done|exact H|lia..]].
    rewrite E0 in *. destruct fuel as [|fuel]; [lia|]. by apply loop_none.
Qed.

Lemma sparse_loop_fills c hi fuel : loop_ok c hi fuel.
Proof.
  induction fuel as [|fuel IH]; [lia|]. intros r bl s off x tofs tlen ents total Hpre Hfuel. destruct (decide (tlen = 0)) as [->|Hne]; [by apply loop_none|].
  pose proof Hpre as [Hh Hc Hr Hoff Hwant Hf Hb]. destruct s as [|[f k] s].
  - cbn [sparse_loop]. rewrite (proj2 (Z.eqb_neq tlen 0)) by lia. destruct Hr as [(-> & Hle & Hz)|(? & ? & ? & ? & _)]; [|done].
    eapply (loop_put c hi r [] [] off x tofs tlen ents total id tlen); [done|lia|cbn; lia| | |constructor|].
    + cbn. rewrite Z.sub_0_r. apply wanted_zero; [lia|]. intros y Hy. apply Hz. lia.
    + left. cbn. split; [done|]. split; [lia|]. intros y Hy. apply Hz. lia.
    + intros H. rewrite Z.sub_diag in *. destruct (loop_none _ _ _ _ _ _ _ _ _ _ H) as (r' & bl' & s' & off' & [= <- <- <- <-] & H1 & H2 & _).
      exists (put r tofs id tlen), [], [], off. done.
  - rewrite (Hoff ltac:(done)) in *. cbn [length] in Hfuel. destruct (decide (k = 0)) as [->|Hk].
    + cbn [sparse_loop]. rewrite (proj2 (Z.eqb_neq tlen 0)), Z.eqb_refl by lia. apply IH; [|lia]. split; [done..| | |done|by inversion Hf|done]; [|done].
      destruct Hr as [(H1 & H2 & H3 & bl' & -> & H)|(f' & k' & s' & [= <- <- <-] & Hlt & _)]; [|lia]. rewrite Z.add_0_r in H. left.
      eapply sparse_rep_from; [exact H1|done|]. unfold wanted. by rewrite seqZ_nil by lia.
    + destruct (decide (x < f)); [apply loop_gap|apply loop_data]; (done || lia).
Qed.

(** ** All places of an extent *)

#[global] Instance collected_proper r : Proper ((≡ₚ) ==> (=) ==> iff) (collected want r).
Proof.
  assert (H : forall ps ps' total, ps ≡ₚ ps' -> collected want r ps total -> collected want r ps' total).
  { intros ps ps' total Hp (gs & Hgs & Hh). destruct (Permutation_Forall2 Hp Hgs) as (gs' & Hperm & H2). exists gs'. split; [done|].
    eapply held_perm; [|exact Hh]. by rewrite Hperm. }
  intros ps ps' Hp t t' <-. split; by apply H.
Qed.

Lemma collected_piece pieces total p n r r' : collected want r pieces total -> Forall (apart_from (p, n)) pieces ->
  (forall ents, held r ents total -> clear p (p + n) ents -> filled ents total p n r') -> collected want r' ((p, n) :: pieces) (total + n).
Proof.
  intros (gs & Hgs & Hh) Hap Hf. destruct (Hf _ Hh) as (g & Hg & Ht); [by eapply collected_clear|]. exists (g :: gs). split; [by constructor|done].
Qed.

(** The places of an extent and the bytes of the object from [x] to [e]. *)
Fixpoint placed (c : Z -> Z) (x : Z) (bes : list (Z * Z)) (e : Z) : Prop :=
  match bes with
  | [] => x = e
  | (p, n) :: bes => 0 < n /\ (forall j, 0 <= j < n -> want (p + j) = c (x + j)) /\ placed c (x + n) bes e
  end.

Lemma placed_le c x bes e : placed c x bes e -> x <= e.
Proof. revert x. induction bes as [|[p n] bes IH]; intros x; cbn; [lia|]. intros (Hn & _ & H). specialize (IH _ H). lia. Qed.

(** The whole range of an object, or its start if the object is shorter. *)
Definition dense_rep (c : Z -> Z) (lo hi : Z) (bl : list Z) : Prop :=
  size bl <= hi - lo /\ forall y, lo <= y < hi -> c y = default 0 (bl !! Z.to_nat (y - lo)).

Lemma dense_wanted c lo hi bl n : dense_rep c lo hi bl -> 0 <= n <= hi - lo ->
  let piece := take (Z.to_nat n) bl in piece ++ replicate (Z.to_nat (n - size piece)) 0 = wanted c lo n.
Proof.
  intros [Hs Hc] Hn piece. apply list_eq. intros i. unfold wanted. rewrite list_lookup_fmap. destruct (decide (Z.of_nat i < n)) as [Hi|Hi].
  - rewrite lookup_seqZ_lt by lia. cbn. rewrite Hc by lia. replace (Z.to_nat (lo + Z.of_nat i - lo)) with i by lia. subst piece. destruct (bl !! i) as [b|] eqn:E.
    + rewrite lookup_app_l by (rewrite length_take; apply lookup_lt_Some in E; lia). by rewrite lookup_take_lt by lia.
    + apply lookup_ge_None in E. rewrite lookup_app_r by (rewrite length_take; lia). rewrite length_take. apply lookup_replicate_2. lia.
  - rewrite lookup_seqZ_ge by lia. apply lookup_ge_None. rewrite length_app, length_replicate. subst piece. rewrite length_take. lia.
Qed.

Lemma dense_drop c lo hi bl n : dense_rep c lo hi bl -> 0 <= n <= hi - lo -> dense_rep c (lo + n) hi (drop (Z.to_nat n) bl).
Proof.
  intros [Hs Hc] Hn. split; [rewrite length_drop; lia|]. intros y Hy. rewrite Hc, lookup_drop by lia. do 2 f_equal. lia.
Qed.

Lemma splice_take bl n : 0 <= n < 2 ^ 32 -> splice bl (Z.min (size bl) n) = Done (take (Z.to_nat n) bl, drop (Z.to_nat n) bl).
Proof. intros Hn. rewrite <- (take_drop (Z.to_nat n) bl) at 1. apply splice_done; rewrite ?length_take; lia. Qed.

Definition places_in (bes : list (Z * Z)) : Prop := Forall (fun p => 0 <= p.1 /\ p.1 + p.2 < 2 ^ 64) bes.

Lemma add_partial_collected c hi bes : forall r bl x pieces total, collected want r pieces total -> apart (bes ++ pieces) -> placed c x bes hi -> dense_rep c x hi bl ->
  places_in bes -> 0 <= x -> hi < 2 ^ 32 -> 0 <= total -> total + (hi - x) < 2 ^ 64 ->
  exists r' bl', add_partial_result r bl bes = Done (r', bl') /\ collected want r' (bes ++ pieces) (total + (hi - x)).
Proof.
  induction bes as [|[p n] bes IH]; cbn [add_partial_result placed]; intros r bl x pieces total Hcol Hap Hpl Hd Hin Hx Hhi Ht Htt.
  { subst x. exists r, bl. rewrite Z.sub_diag, Z.add_0_r. done. }
  destruct Hpl as (Hn & Hwant & Hpl). pose proof (placed_le _ _ _ _ Hpl) as Hle. rewrite splice_take by lia. run.
  inversion Hin as [|? ? Hp Hin']; subst. cbn in Hp. destruct Hap as [Hap1 Hap2]. apply Forall_app in Hap1 as [Hap3 Hap4].
  destruct (IH (put r p (fun d => d ++ take (Z.to_nat n) bl) n) (drop (Z.to_nat n) bl) (x + n) ((p, n) :: pieces) (total + n)) as (r' & bl' & E & H); [|  |done| |done|lia..|].
  - eapply collected_piece; [done|done|]. intros ents Hh Hcl.
    apply (filled_put r ents total p n (fun d => d ++ take (Z.to_nat n) bl) n); [done|done|lia..|cbn; rewrite length_take; lia| |].
    + cbn. rewrite (dense_wanted c x hi) by (done || lia). symmetry. by apply wanted_ext.
    + intros H _. rewrite Z.sub_diag. by eapply filled_none.
  - rewrite <- Permutation_middle. cbn. split; [by apply Forall_app|done].
  - apply dense_drop; [done|lia].
  - exists r', bl'. split; [exact E|]. replace (total + (hi - x)) with (total + n + (hi - (x + n))) by lia. cbn. by rewrite Permutation_middle.
Qed.

Lemma sparse_extents_collected c hi bes : forall r bl s off x pieces total, collected want r pieces total -> apart (bes ++ pieces) -> placed c x bes hi -> reading c x hi s bl ->
  (s <> [] -> off = x) -> Forall (fun e => 0 <= e.1) s ->
  places_in bes -> 0 <= x -> hi < 2 ^ 32 -> 0 <= total -> total + (hi - x) < 2 ^ 64 ->
  exists r' bl', sparse_extents r bl s off bes = Done (r', bl') /\ collected want r' (bes ++ pieces) (total + (hi - x)).
Proof.
  induction bes as [|[p n] bes IH]; cbn [sparse_extents placed]; intros r bl s off x pieces total Hcol Hap Hpl Hr Hoff Hf Hin Hx Hhi Ht Htt.
  { subst x. exists r, bl. rewrite Z.sub_diag, Z.add_0_r. done. }
  destruct Hpl as (Hn & Hwant & Hpl). pose proof (placed_le _ _ _ _ Hpl) as Hle.
  inversion Hin as [|? ? Hp Hin']; subst. cbn in Hp. destruct Hap as [Hap1 Hap2]. apply Forall_app in Hap1 as [Hap3 Hap4].
  assert (Hloop := fun ents Hh Hcl => sparse_loop_fills c hi (Z.to_nat n + length s + 2) r bl s off x p n ents total
    (Build_loop_pre c hi r bl s off x p n ents total Hh Hcl Hr Hoff Hwant Hf ltac:(lia)) ltac:(lia)).
  pose proof Hcol as (gs & Hgs & Hh). destruct (Hloop _ Hh ltac:(by eapply collected_clear)) as (r1 & bl1 & s1 & off1 & E & _ & H2 & H3 & H4). rewrite E. run.
  destruct (IH r1 bl1 s1 off1 (x + n) ((p, n) :: pieces) (total + n)) as (r' & bl' & E' & H); [| |done..|lia|lia|lia|lia|].
  - eapply collected_piece; [done|done|]. intros ents Hh' Hcl. destruct (Hloop ents Hh' Hcl) as (? & ? & ? & ? & E2 & H & _). rewrite E in E2. by injection E2 as <- _ _ _.
  - rewrite <- Permutation_middle. cbn. split; [by apply Forall_app|done].
  - exists r', bl'. split; [exact E'|]. replace (total + (hi - x)) with (total + n + (hi - (x + n))) by lia. cbn. by rewrite Permutation_middle.
Qed.
End Add.

(** ** Assembling into extents *)

Lemma tile_bytes want b data n : 0 < n -> size data <= n -> data ++ replicate (Z.to_nat (n - size data)) 0 = wanted want b n ->
  data = wanted want b (size data) /\ forall y, b + size data <= y < b + n -> want y = 0.
Proof.
  intros Hn Hs E. replace n with (size data + (n - size data)) in E at 2 by lia. rewrite wanted_split in E by lia.
  assert (Hl : length data = length (wanted want b (size data))) by (pose proof (wanted_size want b (size data)); lia).
  apply app_inj_1 in E as [E1 E2]; [|done]. split; [done|]. intros y Hy.
  assert (H : wanted want (b + size data) (n - size data) !! Z.to_nat (y - (b + size data)) = Some 0) by (rewrite <- E2; apply lookup_replicate_2; lia).
  unfold wanted in H. rewrite list_lookup_fmap, lookup_seqZ_lt in H by lia. cbn in H. injection H as H. rewrite <- H. f_equal. lia.
Qed.

Lemma assemble_extents_tiles want m : forall b e em bl, tiles want b m e -> Forall (fun x => x.1 < b) em ->
  exists s d, assemble_extents m em bl = (em ++ s, bl ++ d) /\ sparse_rep want b e s d.
Proof.
  induction m as [|[p [data n]] m IH]; cbn [tiles assemble_extents]; intros b e em bl.
  { intros <- _. exists [], []. rewrite !app_nil_r. cbn. split; [done|]. split; [done|]. split; [lia|]. lia. }
  intros (-> & Hn & Hd & Hw & H) Hem. destruct (tile_bytes want b data n Hn Hd Hw) as [Hdata Hz]. destruct (Z.ltb_spec 0 (size data)) as [Hp|Hp].
  - rewrite at_key_last by done. destruct (IH (b + n) e (em ++ [(b, size data)]) (bl ++ data) H) as (s & d & E & Hr).
    { apply Forall_app. split; [eapply Forall_impl; [exact Hem|]; cbn; lia|repeat constructor; cbn; lia]. }
    exists ((b, size data) :: s), (data ++ d). rewrite E, <- !app_assoc. split; [done|]. cbn. split; [lia|]. split; [lia|]. split; [lia|].
    exists d. split; [by rewrite <- Hdata|]. eapply sparse_rep_from; [|exact Hz|exact Hr]. lia.
  - destruct (IH (b + n) e em bl H) as (s & d & E & Hr); [eapply Forall_impl; [exact Hem|]; cbn; lia|]. exists s, d. split; [done|].
    eapply sparse_rep_from; [|intros y Hy; apply Hz|exact Hr]; lia.
Qed.

(** ** Answers *)

(** The answer of an object to the read of an extent: its bytes (fewer if the
    object is shorter), passed by reference or moved, or the extents that have data. *)
Inductive answer : Set := Full (bl : list Z) | Moved (bl : list Z) | Holes (bl_map : list (Z * Z)) (bl : list Z).

Definition add_answer (r : StripedReadResult) (e : LightweightObjectExtent) (a : answer) : outcome StripedReadResult :=
  match a with
  | Full bl => '(r, _) ← add_partial_result r bl (buffer_extents e); Done r
  | Moved bl => add_partial_result_move r bl (buffer_extents e)
  | Holes bl_map bl => '(r, _) ← add_partial_sparse_result r bl bl_map (oe_offset e) (buffer_extents e); Done r
  end.

Fixpoint add_answers (r : StripedReadResult) (l : list (LightweightObjectExtent * answer)) : outcome StripedReadResult :=
  match l with [] => Done r | (e, a) :: l => r ← add_answer r e a; add_answers r l end.

(** An answer that tells the bytes [c] of the object in the extent. *)
Definition answers (c : Z -> Z) (e : LightweightObjectExtent) (a : answer) : Prop :=
  match a with
  | Full bl | Moved bl => dense_rep c (oe_offset e) (oe_offset e + oe_length e) bl
  | Holes bl_map bl => sparse_rep c (oe_offset e) (oe_offset e + oe_length e) bl_map bl
  end.

Lemma sparse_rep_first c lo hi s bl : 0 <= lo -> sparse_rep c lo hi s bl -> Forall (fun e => 0 <= e.1) s.
Proof.
  revert lo bl. induction s as [|[f k] s IH]; intros lo bl; cbn; [constructor|]. intros H0 (H1 & H2 & _ & bl' & _ & H).
  constructor; [cbn; lia|]. eapply IH; [|exact H]. lia.
Qed.

(** Moving is the same as copying. *)
Lemma add_move_collected want c hi bes r bl x pieces total : collected want r pieces total -> apart (bes ++ pieces) -> placed want c x bes hi -> dense_rep c x hi bl ->
  places_in bes -> 0 <= x -> hi < 2 ^ 32 -> 0 <= total -> total + (hi - x) < 2 ^ 64 ->
  exists r', add_partial_result_move r bl bes = Done r' /\ collected want r' (bes ++ pieces) (total + (hi - x)).
Proof.
  intros Hcol Hap Hpl Hd Hin Hx Hhi Ht Htt. destruct (add_partial_collected want c hi bes r bl x pieces total) as (r' & bl' & E & H); [done..|].
  unfold add_partial_result_move. destruct bes as [|[p n] [|q bes]]; [rewrite E; run; by exists r'| |rewrite E; run; by exists r'].
  eexists. split; [done|]. destruct Hpl as (Hn & Hwant & Hend). cbn in Hend. destruct Hap as [Hap _].
  replace (total + (hi - x)) with (total + n) by lia. eapply collected_piece; [done|done|]. intros ents Hh Hcl.
  assert (Hall : take (Z.to_nat n) bl = bl) by (apply take_ge; destruct Hd; lia).
  apply (filled_put want r ents total p n (fun _ => bl) n); [done|done|lia..|destruct Hd; lia| |].
  - pose proof (dense_wanted c x hi bl n Hd ltac:(lia)) as Hw. cbn zeta in Hw. rewrite Hall in Hw. rewrite Hw. symmetry. by apply wanted_ext.
  - intros H2 _. rewrite Z.sub_diag. by eapply filled_none.
Qed.

Lemma add_answer_collected want c r e a pieces total : collected want r pieces total -> apart (buffer_extents e ++ pieces) ->
  placed want c (oe_offset e) (buffer_extents e) (oe_offset e + oe_length e) -> answers c e a -> places_in (buffer_extents e) ->
  0 <= oe_offset e -> oe_offset e + oe_length e < 2 ^ 32 -> 0 <= total -> total + oe_length e < 2 ^ 64 ->
  exists r', add_answer r e a = Done r' /\ collected want r' (buffer_extents e ++ pieces) (total + oe_length e).
Proof.
  intros Hcol Hap Hpl Ha Hin Hx Hhi Ht Htt. replace (oe_length e) with (oe_offset e + oe_length e - oe_offset e) in Htt |- * by lia.
  set (hi := oe_offset e + oe_length e) in *. destruct a as [bl|bl|bl_map bl]; cbn [add_answer answers] in *.
  - destruct (add_partial_collected want c hi (buffer_extents e) r bl (oe_offset e) pieces total) as (r' & bl' & E & H); [done..|]. rewrite E. run. by exists r'.
  - by apply (add_move_collected want c).
  - unfold add_partial_sparse_result. destruct (Nat.eqb_spec (length bl_map) 0) as [E0|_].
    + destruct bl_map; [|done]. destruct Ha as (-> & Hle & Hz).
      assert (Hd : dense_rep c (oe_offset e) hi []) by (split; [cbn; lia|intros y Hy; by rewrite Hz]).
      destruct (add_partial_collected want c hi (buffer_extents e) r [] (oe_offset e) pieces total) as (r' & bl' & E & H); [done..|].
      rewrite E. run. by exists r'.
    + assert (Hr : reading c (oe_offset e) hi bl_map bl) by (by left). pose proof (sparse_rep_first _ _ _ _ _ Hx Ha) as Hf.
      destruct (sparse_extents_collected want c hi (buffer_extents e) r bl bl_map (oe_offset e) (oe_offset e) pieces total) as (r' & bl' & E & H); [done..|]. rewrite E. run. by exists r'.
Qed.
