(* ===== verification/StriperClaims.v ===== *)
(** * Theorems on striping

    Ranges of files as ranges of objects and back, the number of objects, the cut
    of an object by the end of the file, and reads put together from the answers
    of the objects. *)
From stdpp Require Import strings.
From S2P Require Import Prelude Striper StriperLayout StriperExtents StriperRead.

(** ** The number of objects *)

Lemma last_byte l size : layout_ok l -> 0 < size -> exists set row col r, 0 <= set /\ 0 <= row < stripes l /\ 0 <= col < stripe_count l /\
  0 <= r < stripe_unit l /\ size - 1 = byte_at (stripe_unit l) (stripe_count l) (stripes l) set row col r.
Proof. intros Hl Hs. apply byte_split; [apply (unit_pos l Hl)|apply (count_pos l Hl)|apply (stripes_pos l Hl)|lia]. Qed.

(** The objects of a file, by its last byte: all of the sets before, and those of the last set up to its column or all. *)
Lemma objects_before l size set row col r : layout_ok l -> 0 <= set -> 0 <= row < stripes l -> 0 <= col < stripe_count l -> 0 <= r < stripe_unit l ->
  size - 1 = byte_at (stripe_unit l) (stripe_count l) (stripes l) set row col r ->
  let n := set * stripe_count l + (if row =? 0 then col + 1 else stripe_count l) in
  (forall o, 0 <= o < size -> file_object l o < n) /\ exists o, 0 <= o < size /\ file_object l o = n - 1.
Proof.
  intros Hl Hset Hrow Hcol Hr E n. pose proof (unit_pos l Hl) as Hup. pose proof (count_pos l Hl) as Hcp. pose proof (stripes_pos l Hl) as Hsp. split.
  - intros o Ho. destruct (byte_split _ _ _ Hup Hcp Hsp o ltac:(lia)) as (s & w & c & i & Hs & Hw & Hc & Hi & ->).
    unfold file_object. rewrite object_at by done. subst n.
    assert (Hlt : ~ byte_at (stripe_unit l) (stripe_count l) (stripes l) set row col r < byte_at (stripe_unit l) (stripe_count l) (stripes l) s w c i) by lia.
    rewrite byte_lt in Hlt by lia. destruct (Z.eqb_spec row 0); nia.
  - destruct (Z.eqb_spec row 0) as [->|Hne].
    + exists (size - 1). unfold n, file_object. rewrite E, object_at by done. unfold byte_at in *. nia.
    + exists (byte_at (stripe_unit l) (stripe_count l) (stripes l) set 0 (stripe_count l - 1) 0). unfold file_object. rewrite object_at by lia.
      assert (H : byte_at (stripe_unit l) (stripe_count l) (stripes l) set 0 (stripe_count l - 1) 0 < size - 1) by (rewrite E; apply byte_lt; lia).
      unfold n. split; [|lia]. unfold byte_at in *. nia.
Qed.

Lemma first_row sc su row col r : 0 < sc -> 0 < su -> 0 <= row -> 0 <= col -> 0 <= r -> (row * sc + col) * su + r + 1 < sc * su -> row = 0.
Proof.
  intros Hsc Hsu Hrow Hcol Hr H. destruct (decide (row = 0)); [done|]. assert (sc * su <= row * (sc * su)) by nia. assert (0 <= col * su) by nia. lia.
Qed.

Lemma get_num_objects_value l size set row col r : layout_ok l -> 0 < size -> size + stripe_count l * object_size l <= 2 ^ 64 ->
  0 <= set -> 0 <= row < stripes l -> 0 <= col < stripe_count l -> 0 <= r < stripe_unit l ->
  size - 1 = byte_at (stripe_unit l) (stripe_count l) (stripes l) set row col r ->
  get_num_objects l size = Done (set * stripe_count l + (if row =? 0 then col + 1 else stripe_count l)).
Proof.
  intros Hl Hs Hb Hset Hrow Hcol Hr E. pose proof (unit_pos l Hl) as Hup. pose proof (count_pos l Hl) as Hcp. pose proof (stripes_size l Hl) as Hsz. pose proof (size_pos l Hl) as Hos.
  unfold get_num_objects, get_period. set (su := stripe_unit l) in *. set (sc := stripe_count l) in *. set (P := sc * object_size l) in *.
  assert (HP : 0 < P) by (apply Z.mul_pos_pos; lia). rewrite (u64_small P), (u64_small (size + P - 1)) by lia. divide.
  set (t := (row * sc + col) * su + r). assert (Et : size - 1 = set * P + t) by (rewrite E; unfold byte_at, t, P; rewrite <- Hsz; ring).
  assert (Ht : 0 <= t < P).
  { assert (H1 : (row * sc + col) * su + r < (row * sc + col + 1) * su) by lia. assert (H2 : row * sc + col + 1 <= (row + 1) * sc) by lia.
    assert (H3 : (row * sc + col + 1) * su <= (row + 1) * sc * su) by nia. assert (H4 : (row + 1) * sc * su <= stripes l * sc * su) by nia.
    assert (H5 : 0 <= (row * sc + col) * su) by (apply Z.mul_nonneg_nonneg; [|lia]; assert (0 <= row * sc) by (apply Z.mul_nonneg_nonneg; lia); lia).
    unfold t, P. rewrite <- Hsz. fold su in Hsz. lia. }
  assert (Eq : (size + P - 1) / P = set + 1) by (replace (size + P - 1) with ((set + 1) * P + t) by lia; by apply div_split).
  assert (Em : size mod P = if t + 1 =? P then 0 else t + 1).
  { destruct (Z.eqb_spec (t + 1) P); [replace size with ((set + 1) * P + 0) by lia|replace size with (set * P + (t + 1)) by lia]; apply mod_split; lia. }
  rewrite Eq, Em. assert (Hsc : sc * su <= P) by (unfold P; apply Z.mul_le_mono_nonneg_l; [lia|apply Hl]). rewrite (u64_small (sc * su)) by lia.
  assert (Hn : 0 <= set * sc /\ (set + 1) * sc < 2 ^ 64).
  { assert (sc <= P) by (unfold P; nia). clear - H Et Hs Hset Hcp Hb Ht. assert ((set + 1) * sc <= (set + 1) * P) by nia. split; [nia|lia]. }
  destruct ((0 <? _) && _) eqn:Eb; run.
  - apply andb_prop in Eb as [Eb1 Eb2]. apply Z.ltb_lt in Eb1, Eb2. destruct (Z.eqb_spec (t + 1) P); [lia|].
    assert (row = 0) as -> by (apply (first_row sc su row col r); lia).
    assert (Hw : (sc + 1) * su <= 2 ^ 32 * su) by (apply Z.mul_le_mono_nonneg_r; [|destruct Hl; subst sc]; lia).
    rewrite Z.eqb_refl, (u64_small (t + 1 + su - 1)) by (destruct Hl; lia). replace (t + 1 + su - 1) with ((col + 1) * su + r) by (unfold t; lia).
    rewrite div_split by done. rewrite (u64_small (sc - (col + 1))) by lia. rewrite u64_small by lia. f_equal. lia.
  - rewrite Z.sub_0_r, u64_small by lia. f_equal. apply andb_false_iff in Eb. rewrite !Z.ltb_ge in Eb.
    destruct (Z.eqb_spec row 0) as [->|]; [|lia]. enough (col = sc - 1) by lia. assert (t + 1 <= (col + 1) * su) by (unfold t; lia).
    destruct (decide (col = sc - 1)); [done|]. exfalso. assert ((col + 1) * su < sc * su) by (apply Z.mul_lt_mono_pos_r; lia). destruct (Z.eqb_spec (t + 1) P); lia.
Qed.

(** ** From an object to the file *)

(** Pieces of the file for the bytes of an object from [x] to [e]. *)
Fixpoint located (l : file_layout_t) (no x : Z) (pieces : list (Z * Z)) (e : Z) : Prop :=
  match pieces with
  | [] => x = e
  | (p, n) :: pieces => 0 < n /\ (forall j, 0 <= j < n -> file_position l no (x + j) = p + j) /\ located l no (x + n) pieces e
  end.

Lemma position_in_block l no x j : layout_ok l -> 0 <= j < stripe_unit l - x mod stripe_unit l -> file_position l no (x + j) = file_position l no x + j.
Proof.
  intros Hl Hj. pose proof (unit_pos l Hl) as Hup. pose proof (Z.mod_pos_bound x (stripe_unit l) Hup). pose proof (Z.div_mod x (stripe_unit l) ltac:(lia)).
  unfold file_position, position. replace (x + j) with (x / stripe_unit l * stripe_unit l + (x mod stripe_unit l + j)) by lia.
  rewrite div_split, mod_split by lia. lia.
Qed.

Lemma to_file_loop_located l no fuel : layout_ok l -> 0 <= no -> forall x len, 0 <= x -> 0 <= len -> x + len <= object_size l ->
  (0 < len -> file_position l no (x + len - 1) < 2 ^ 64) -> len + x mod stripe_unit l <= (Z.of_nat fuel - 1) * stripe_unit l ->
  exists pieces, to_file_loop fuel l (stripes l) no x len (x mod stripe_unit l) = Done pieces /\ located l no x pieces (x + len).
Proof.
  intros Hl Hno. pose proof (unit_pos l Hl) as Hup. pose proof (count_pos l Hl) as Hcp. pose proof (size_pos l Hl) as Hos.
  induction fuel as [|fuel IH]; intros x len Hx Hlen Hend Hpos Hfuel; pose proof (Z.mod_pos_bound x (stripe_unit l) Hup) as Hm; [lia|].
  cbn [to_file_loop]. destruct (Z.eqb_spec len 0) as [->|Hne]; [exists []; cbn; split; [done|lia]|].
  set (n := Z.min len (stripe_unit l - x mod stripe_unit l)).
  assert (Hp : file_position l no x < 2 ^ 64).
  { destruct (decide (len = 1)) as [->|]; [specialize (Hpos ltac:(lia)); by replace (x + 1 - 1) with x in Hpos by lia|].
    pose proof (file_position_mono l Hl no x (x + len - 1) Hno ltac:(lia)). lia. }
  pose proof (get_file_offset_done l Hl no x Hno ltac:(lia) Hp) as Hg. unfold get_file_offset in Hg.
  rewrite (assert_done (_ <=? _)) in Hg by (apply Z.leb_le, Hl). revert Hg. run. divide. fold (stripes l). intros [= Hg]. rewrite Hg. fold n.
  assert (Hn : 0 < n <= len) by (unfold n; lia). rewrite (u64_small (x + n)) by lia.
  assert (E : exists pieces, to_file_loop fuel l (stripes l) no (x + n) (len - n) 0 = Done pieces /\ located l no (x + n) pieces (x + len)).
  { destruct (decide (len = n)) as [E|E].
    - replace (len - n) with 0 by lia. destruct fuel; [nia|]. cbn. exists []. split; [done|cbn; lia].
    - assert (Hmod : (x + n) mod stripe_unit l = 0).
      { replace (x + n) with ((x / stripe_unit l + 1) * stripe_unit l) by (pose proof (Z.div_mod x (stripe_unit l) ltac:(lia)); unfold n in *; lia).
        apply Z.mod_mul. lia. }
      destruct (IH (x + n) (len - n)) as (pieces & E1 & E2); [lia|lia|lia|intros _|rewrite Hmod; unfold n in *; nia|].
      + replace (x + n + (len - n) - 1) with (x + len - 1) by lia. apply Hpos. lia.
      + rewrite Hmod in E1. exists pieces. split; [done|]. by replace (x + n + (len - n)) with (x + len) in E2 by lia. }
  destruct E as (pieces & E1 & E2). rewrite E1. run. eexists. split; [done|]. cbn. split; [lia|]. split; [|done].
  intros j Hj. apply position_in_block; [done|]. unfold n in *. lia.
Qed.

(** ** Whole reads *)

Fixpoint lengths (ps : list (Z * Z)) : Z := match ps with [] => 0 | p :: ps => p.2 + lengths ps end.

#[global] Instance lengths_proper : Proper ((≡ₚ) ==> (=)) lengths.
Proof. induction 1 as [|p l l' _ IH|p q l|l l' l'' _ IH1 _ IH2]; cbn; [done|lia|lia|congruence]. Qed.

Lemma lengths_app a b : lengths (a ++ b) = lengths a + lengths b.
Proof. induction a as [|p a IH]; cbn; [done|]. rewrite IH. lia. Qed.
Lemma chain_lengths b l e : chain b l e -> lengths l = e - b.
Proof. revert b. induction l as [|[p n] l IH]; intros b; cbn; [lia|]. intros (-> & Hn & H). rewrite (IH _ H). lia. Qed.
Lemma placed_lengths want c x bes e : placed want c x bes e -> lengths bes = e - x.
Proof. revert x. induction bes as [|[p n] bes IH]; intros x; cbn; [lia|]. intros (Hn & _ & H). rewrite (IH _ H). lia. Qed.

(** An extent whose object has the bytes that belong to its places. *)
Record asked (want : Z -> Z) (c : Z -> Z -> Z) (e : LightweightObjectExtent) : Prop := {
  as_placed : placed want (c (object_no e)) (oe_offset e) (buffer_extents e) (oe_offset e + oe_length e);
  as_in : places_in (buffer_extents e);
  as_bounds : 0 <= oe_offset e /\ 0 < oe_length e /\ oe_offset e + oe_length e < 2 ^ 32 }.

Lemma add_answers_collected want c l : forall r pieces total, collected want r pieces total -> apart (flat_map buffer_extents (l.*1) ++ pieces) ->
  Forall (fun ea => asked want c ea.1 /\ answers (c (object_no ea.1)) ea.1 ea.2) l -> 0 <= total -> total + lengths (flat_map buffer_extents (l.*1)) < 2 ^ 64 ->
  exists r', add_answers r l = Done r' /\ collected want r' (flat_map buffer_extents (l.*1) ++ pieces) (total + lengths (flat_map buffer_extents (l.*1))).
Proof.
  induction l as [|[e a] l IH]; intros r pieces total Hcol Hap Hall Ht Htt; [exists r; by rewrite Z.add_0_r|].
  inversion Hall as [|? ? [Has Ha] Hall']; subst. destruct Has as [Hpl Hin Hb]. cbn [fst snd fmap list_fmap flat_map add_answers] in *.
  rewrite lengths_app, (placed_lengths _ _ _ _ _ Hpl) in *. replace (oe_offset e + oe_length e - oe_offset e) with (oe_length e) in * by lia.
  assert (Hl0 : 0 <= lengths (flat_map buffer_extents l.*1)).
  { clear - Hall'. induction Hall' as [|[e a] l [[Hpl _ Hb] _] _ IH]; [done|]. cbn in Hpl, Hb |- *. rewrite lengths_app, (placed_lengths _ _ _ _ _ Hpl). cbn in Hb. lia. }
  set (rest := flat_map buffer_extents l.*1) in *. rewrite <- app_assoc in Hap.
  assert (Hap1 : apart (buffer_extents e ++ pieces)).
  { clear - Hap. rewrite Permutation_app_swap_app in Hap. induction rest as [|p rest IH]; [done|]. destruct Hap as [_ Hap]. by apply IH. }
  destruct (add_answer_collected want (c (object_no e)) r e a pieces total) as (r1 & E & Hr1); [done..|lia|lia|lia|lia|]. rewrite E. run.
  destruct (IH r1 (buffer_extents e ++ pieces) (total + oe_length e)) as (r' & E' & Hr'); [done| |done|lia|lia|].
  { by rewrite Permutation_app_swap_app in Hap. }
  exists r'. split; [done|]. rewrite Z.add_assoc. rewrite <- app_assoc, Permutation_app_swap_app. done.
Qed.

(** The blocks of [effective l] are those of [l]. *)
Lemma covers_effective l offset trunc boff cur exts : layout_ok l -> covers (effective l) l offset trunc boff cur exts -> covers l l offset trunc boff cur exts.
Proof.
  intros Hl [Hs Hok Hb Hp]. rewrite effective_size in Hb. split; [done| | |done].
  - eapply Forall_impl; [exact Hok|]. intros e [H1 H2 H3 H4 H5 H6]. rewrite effective_size in H4. split; try done. clear - Hl H5. revert H5.
    generalize (oe_offset e) at 1 3. induction (buffer_extents e) as [|[p n] bes IH]; intros x; cbn; [done|]. intros (Hn & Hj & H). split; [done|]. split; [|auto].
    intros j Hj'. destruct (Hj j Hj') as [E1 E2]. destruct (effective_place l (offset + (p - boff) + j) Hl) as [E3 E4]. by rewrite <- E3, <- E4.
  - intros no x Hno Hx. rewrite <- effective_position by done. by apply Hb.
Qed.

(** The byte at a place of the buffer, with the bytes of the objects. *)
Definition buffer_byte (l : file_layout_t) (offset boff : Z) (c : Z -> Z -> Z) (p : Z) : Z :=
  let o := offset + (p - boff) in c (file_object l o) (file_offset l o).

Lemma mapped_placed l offset boff c no x bes e : mapped l offset boff no x bes e -> placed (buffer_byte l offset boff c) (c no) x bes e.
Proof.
  revert x. induction bes as [|[p n] bes IH]; intros x; cbn; [done|]. intros (Hn & Hj & H). split; [done|]. split; [|auto].
  intros j Hj'. unfold buffer_byte. replace (offset + (p + j - boff)) with (offset + (p - boff) + j) by lia. by destruct (Hj j Hj') as [-> ->].
Qed.

Lemma chain_within b l e : chain b l e -> Forall (fun p => b <= p.1 /\ p.1 + p.2 <= e) l.
Proof.
  revert b. induction l as [|[p n] l IH]; intros b; cbn; [constructor|]. intros (-> & Hn & H). pose proof (chain_le _ _ _ H).
  constructor; [cbn; lia|]. eapply Forall_impl; [by apply IH|]. cbn. lia.
Qed.

(** The extents of a range ask the objects for its bytes. *)
Lemma covers_asked l offset trunc boff len exts c : layout_ok l -> 0 <= boff -> boff + len < 2 ^ 64 -> covers l l offset trunc boff (offset + len) exts ->
  Forall (asked (buffer_byte l offset boff c) c) exts.
Proof.
  intros Hl Hb Hbl [_ Hok _ (ps & Hch & Hp)]. pose proof (size_pos l Hl). apply chain_within in Hch. rewrite <- Hp in Hch.
  apply Forall_forall. intros e He. destruct (proj1 (Forall_forall _ _) Hok e He) as [H1 H2 H3 H4 H5 H6]. split; [by apply mapped_placed| |lia].
  apply Forall_forall. intros p Hin. rewrite Forall_forall in Hch. assert (Hin' : p ∈ flat_map buffer_extents exts).
  { apply list_elem_of_In, in_flat_map. exists e. by rewrite <- !list_elem_of_In. }
  specialize (Hch p Hin'). lia.
Qed.

Lemma add_answers_tiles l offset len trunc boff c exts al : layout_ok l -> 0 <= boff -> 0 <= len -> boff + len < 2 ^ 64 ->
  covers l l offset trunc boff (offset + len) exts -> al.*1 ≡ₚ exts -> Forall (fun ea => answers (c (object_no ea.1)) ea.1 ea.2) al ->
  exists r, add_answers (mkresult [] 0) al = Done r /\ total_intended_len r = len /\ tiles (buffer_byte l offset boff c) boff (partial r) (boff + len).
Proof.
  intros Hl Hb Hlen Hbl Hcov Hal Hans. pose proof (cv_places _ _ _ _ _ _ _ Hcov) as (ps & Hch & Hps). replace (boff + (offset + len - offset)) with (boff + len) in Hch by lia.
  assert (Hperm : flat_map buffer_extents al.*1 ≡ₚ ps) by (by rewrite Hal). pose proof (chain_lengths _ _ _ Hch) as Hlen'.
  pose proof (covers_asked l offset trunc boff len exts c Hl Hb Hbl Hcov) as Has. rewrite <- Hal in Has. apply (Forall_fmap fst) in Has.
  destruct (add_answers_collected (buffer_byte l offset boff c) c al (mkresult [] 0) [] 0) as (r & E & Hr).
  - exists []. split; [constructor|]. split; [constructor|done|done].
  - rewrite app_nil_r, Hperm. by eapply chain_apart.
  - apply Forall_and. split; [exact Has|exact Hans].
  - done.
  - rewrite Hperm. lia.
  - exists r. split; [done|]. rewrite app_nil_r, Hperm in Hr. split; [destruct Hr as (gs & _ & [_ _ ->]); lia|]. eapply collected_all; [exact Hr|]. by exists ps.
Qed.

(** ** Theorems *)

(** C9: [file_to_extents] of a valid layout returns one extent per object, in the
    order of the objects; a byte of an object is in an extent just when it is a byte
    of the range; the places of all extents cut the buffer, in pieces without gaps or
    overlaps, each with the bytes of the file that the object has there; and every
    extent has the cut of its object. *)
Theorem file_to_extents_correct l offset len trunc boff :
  layout_ok l -> 0 <= offset -> 0 < len -> offset + len <= 2 ^ 64 -> 0 <= trunc < 2 ^ 64 -> 0 <= boff -> boff + len <= 2 ^ 64 ->
  exists exts, file_to_extents l offset len trunc boff [] = Done exts /\ covers l l offset trunc boff (offset + len) exts.
Proof.
  intros Hl Ho Hlen Hend Htr Hb Hbl. destruct (file_to_extents_covers l offset len trunc boff) as (exts & E & Hcov); [done..|].
  exists exts. split; [done|]. by apply covers_effective.
Qed.

(** C3: answers of the objects for the extents of a range, added in any order, each
    one full, short or sparse, give the bytes of the file: as a buffer list with
    zeros where objects have no data, in a buffer of the caller, and as extents with
    data, which leave out zeros only. *)
Theorem striped_read_correct l offset len trunc boff (c : Z -> Z -> Z) exts al buffer :
  layout_ok l -> 0 <= offset -> 0 < len -> offset + len <= 2 ^ 64 -> 0 <= trunc < 2 ^ 64 -> 0 <= boff -> boff + len < 2 ^ 64 ->
  file_to_extents l offset len trunc boff [] = Done exts ->
  al.*1 ≡ₚ exts -> Forall (fun ea => answers (c (object_no ea.1)) ea.1 ea.2) al -> size buffer = len ->
  let bytes := (fun o => c (file_object l o) (file_offset l o)) <$> seqZ offset len in
  exists r, add_answers (mkresult [] 0) al = Done r /\ total_intended_len r = len /\
    (assemble_result r [] true).2 = bytes /\
    assemble_result_buffer r buffer = Done (mkresult [] len, bytes) /\
    exists s d, assemble_result_sparse r [] [] = (mkresult [] len, (s, d), len) /\ sparse_rep (buffer_byte l offset boff c) boff (boff + len) s d.
Proof.
  intros Hl Ho Hlen Hend Htr Hb Hbl E Hal Hans Hbuf bytes. destruct (file_to_extents_covers l offset len trunc boff) as (exts' & E' & Hcov); [done..|lia|].
  rewrite E in E'. injection E' as <-. apply covers_effective in Hcov; [|done].
  destruct (add_answers_tiles l offset len trunc boff c exts al) as (r & Er & Ht & Htiles); [done|done|lia|done..|]. exists r.
  assert (Hbytes : wanted (buffer_byte l offset boff c) boff (boff + len - boff) = bytes).
  { replace (boff + len - boff) with len by lia. apply wanted_ext. intros j Hj. unfold buffer_byte. by replace (offset + (boff + j - boff)) with (offset + j) by lia. }
  split; [done|]. split; [done|]. split; [|split].
  - destruct (assemble_loop_tiles _ _ _ _ [] 0 Htiles ltac:(lia) ltac:(lia)) as (bl & z & E1 & _ & E2). unfold assemble_result. rewrite E1. cbn in *. by rewrite E2.
  - destruct (buffer_loop_tiles _ boff _ _ _ buffer Htiles ltac:(lia) ltac:(lia) ltac:(lia) ltac:(lia)) as (b' & E1 & ->).
    unfold assemble_result_buffer. rewrite Ht, assert_done by (apply Z.eqb_eq; lia). run. rewrite Z.sub_diag, Hbytes in E1. replace (boff + len - boff) with len in E1 by lia.
    cbn [take app] in E1. rewrite drop_ge, app_nil_r in E1 by lia. rewrite Hbuf.
    destruct (reverse (partial r)) as [|[p [data n]] m] eqn:Em.
    + apply (f_equal reverse) in Em. rewrite reverse_involutive in Em. rewrite Em in Htiles. cbn in Htiles. lia.
    + assert (Hend' : u64 (p + n) = boff + len).
      { apply (f_equal reverse) in Em. rewrite reverse_involutive, reverse_cons in Em. rewrite Em in Htiles. apply tiles_snoc in Htiles as [H1 (_ & Hn & _ & _ & H2)].
        pose proof (tiles_le _ _ _ _ H1). cbn in H2. rewrite u64_small by lia. done. }
      rewrite Hend', E1. run. by rewrite assert_done by done.
  - unfold assemble_result_sparse. rewrite Ht. destruct (assemble_extents_tiles _ _ _ _ [] [] Htiles ltac:(constructor)) as (s & d & E1 & Hrep).
    exists s, d. rewrite E1. done.
Qed.

(** C35: For a layout whose stripe unit divides the object size (all sizes positive,
    fitting their types), an object number that is not negative and a 64-bit size of
    the file, object_truncate_size returns the mark of no truncation, 2^64 - 1, if
    it is given that mark; otherwise it returns the number of bytes of the object
    that are in front of the end of the file, at most the object size. *)
Theorem object_truncate_size_correct l no trunc : layout_ok l -> 0 <= no -> 0 <= trunc < 2 ^ 64 ->
  exists t, object_truncate_size l no trunc = Done t /\
    if trunc =? 2 ^ 64 - 1 then t = trunc else
    0 <= t <= object_size l /\ forall x, 0 <= x < object_size l -> file_position l no x < trunc <-> x < t.
Proof.
  intros Hl Hno Ht. destruct (truncate_done l Hl no trunc Hno Ht) as (t & E & H). exists t. split; [done|].
  destruct (Z.eqb_spec trunc (2 ^ 64 - 1)); [destruct H as [[_ ?]|[? _]]; done|]. destruct H as [[? _]|[_ [H1 H2]]]; done.
Qed.

(** [get_num_objects] is the number of the last object with a byte of the file,
    plus one (0 for an empty file), if the size and a period fit in 64 bits. *)
Theorem get_num_objects_correct l size : layout_ok l -> 0 <= size -> size + stripe_count l * object_size l <= 2 ^ 64 ->
  exists n, get_num_objects l size = Done n /\ (forall o, 0 <= o < size -> file_object l o < n) /\
    (n = 0 /\ size = 0 \/ exists o, 0 <= o < size /\ file_object l o = n - 1).
Proof.
  intros Hl Hs Hb. destruct (decide (size = 0)) as [->|Hne].
  - exists 0. unfold get_num_objects, get_period. assert (HP : 0 < stripe_count l * object_size l < 2 ^ 64) by (destruct Hl; nia).
    rewrite (u64_small (_ * object_size l)) by lia. set (P := stripe_count l * object_size l) in *. rewrite (u64_small (0 + P - 1)) by lia. divide.
    rewrite Z.div_small, Z.mod_0_l by lia. cbn. split; [done|]. split; [lia|auto].
  - destruct (last_byte l size Hl ltac:(lia)) as (set & row & col & r & Hset & Hrow & Hcol & Hr & E). eexists. split; [by eapply get_num_objects_value; [|lia|..]|].
    destruct (objects_before l size set row col r) as [H1 H2]; [done..|]. split; [exact H1|]. by right.
Qed.

(** C34: [extent_to_file] gives the pieces of the file of a range of an object, in
    order, and every byte of a piece is found by [get_file_offset]; [file_object] and
    [file_offset], the division of [file_to_extents], lead back. *)
Theorem extent_to_file_correct l no x len : layout_ok l -> 0 <= no -> 0 <= x -> 0 < len -> x + len <= object_size l ->
  file_position l no (x + len - 1) < 2 ^ 64 ->
  (exists pieces, extent_to_file l no x len = Done pieces /\ located l no x pieces (x + len)) /\
  forall y, x <= y < x + len -> exists o, get_file_offset l no y = Done o /\ o = file_position l no y /\ file_object l o = no /\ file_offset l o = y.
Proof.
  intros Hl Hno Hx Hlen Hend Hpos. pose proof (unit_pos l Hl) as Hup. split.
  - unfold extent_to_file. rewrite assert_done by (apply Z.leb_le, Hl). run. divide. fold (stripes l). apply to_file_loop_located; [done|done|done|lia|done|done|].
    pose proof (Z.mod_pos_bound x (stripe_unit l) Hup). pose proof (Z.div_mod len (stripe_unit l) ltac:(lia)).
    pose proof (Z.mod_pos_bound len (stripe_unit l) Hup). assert (0 <= len / stripe_unit l) by (apply Z.div_pos; lia). nia.
  - intros y Hy. exists (file_position l no y). assert (Hle : file_position l no y <= file_position l no (x + len - 1)).
    { destruct (decide (y = x + len - 1)) as [->|]; [done|]. apply Z.lt_le_incl, file_position_mono; [done|done|lia]. }
    split; [apply get_file_offset_done; (done || lia)|]. split; [done|]. by apply file_place_position; [|lia|lia].
Qed.

(** ** The theorems at work *)

(** Blocks of 2 bytes over 2 objects of 4 bytes. *)
Definition small : file_layout_t := mklayout 2 2 4 1 "data".

Lemma small_ok : layout_ok small.
Proof. split; [cbn; lia..|reflexivity]. Qed.

(** Objects with 3 bytes each. *)
Definition three (no x : Z) : Z := if x <? 3 then 10 * no + x + 1 else 0.

Lemma file_to_extents_correct_witness :
  file_to_extents small 1 9 0 100 [] = Done
    [mkextent 0 1 3 0 [(100, 1); (103, 2)]; mkextent 1 0 4 0 [(101, 2); (105, 2)]; mkextent 2 0 2 0 [(107, 2)]] /\
  exists exts, file_to_extents small 1 9 0 100 [] = Done exts /\ covers small small 1 0 100 10 exts.
Proof. split; [reflexivity|]. apply (file_to_extents_correct small 1 9 0 100 small_ok); lia. Defined.

(** Answers in another order: one sparse, one moved, one by reference. *)
Lemma striped_read_correct_witness :
  let e0 := mkextent 0 1 3 0 [(100, 1); (103, 2)] in let e1 := mkextent 1 0 4 0 [(101, 2); (105, 2)] in let e2 := mkextent 2 0 2 0 [(107, 2)] in
  let al := [(e1, Holes [(1, 2)] [12; 13]); (e2, Moved [21; 22]); (e0, Full [2; 3])] in
  let c no x := if (no =? 1) && (x =? 0) then 0 else three no x in
  exists r, add_answers (mkresult [] 0) al = Done r /\ total_intended_len r = 9 /\
    (assemble_result r [] true).2 = [2; 0; 12; 3; 0; 13; 0; 21; 22] /\
    assemble_result_buffer r (replicate 9 7) = Done (mkresult [] 9, [2; 0; 12; 3; 0; 13; 0; 21; 22]) /\
    exists s d, assemble_result_sparse r [] [] = (mkresult [] 9, (s, d), 9) /\ sparse_rep (buffer_byte small 1 100 c) 100 109 s d.
Proof.
  intros e0 e1 e2 al c. apply (striped_read_correct small 1 9 0 100 c [e0; e1; e2] al (replicate 9 7) small_ok); [lia..|reflexivity| | |reflexivity].
  - cbn. apply (Permutation_app_comm [e1; e2] [e0]).
  - repeat constructor; cbn.
    + lia.
    + lia.
    + intros y Hy. assert (y = 0) as -> by lia. reflexivity.
    + exists []. split; [reflexivity|]. split; [done|]. split; [lia|]. intros y Hy. assert (y = 3) as -> by lia. reflexivity.
    + lia.
    + intros y Hy. assert (y = 0 \/ y = 1) as [-> | ->] by lia; reflexivity.
    + lia.
    + intros y Hy. assert (y = 1 \/ y = 2 \/ y = 3) as [-> | [-> | ->]] by lia; reflexivity.
Defined.

Lemma object_truncate_size_correct_witness :
  object_truncate_size small 1 7 = Done 3 /\
  exists t, object_truncate_size small 1 7 = Done t /\ 0 <= t <= 4 /\ forall x, 0 <= x < 4 -> file_position small 1 x < 7 <-> x < t.
Proof. split; [reflexivity|]. apply (object_truncate_size_correct small 1 7 small_ok); lia. Defined.

Lemma get_num_objects_correct_witness :
  get_num_objects small 9 = Done 3 /\
  exists n, get_num_objects small 9 = Done n /\ (forall o, 0 <= o < 9 -> file_object small o < n) /\
    (n = 0 /\ 9 = 0 \/ exists o, 0 <= o < 9 /\ file_object small o = n - 1).
Proof. split; [reflexivity|]. apply (get_num_objects_correct small 9 small_ok); cbn; lia. Defined.

Lemma extent_to_file_correct_witness :
  extent_to_file small 2 1 3 = Done [(9, 1); (12, 2)] /\
  (exists pieces, extent_to_file small 2 1 3 = Done pieces /\ located small 2 1 pieces 4) /\
  forall y, 1 <= y < 4 -> exists o, get_file_offset small 2 y = Done o /\ o = file_position small 2 y /\ file_object small o = 2 /\ file_offset small o = y.
Proof. split; [reflexivity|]. apply (extent_to_file_correct small 2 1 3 small_ok); [lia..|cbn; lia|vm_compute; reflexivity]. Defined.
