(* ===== verification/DhtHash.v ===== *)
(** * Hashes of names (glusterfs: dht-hashfn.c, libglusterfs/src/hashfn.c)

    The Davies-Meyer hash that places names in the ranges of a directory, the
    hash of Paul Hsieh, and the choice of the part of a name that is hashed.
    Strings are lists of bytes; a [char] is signed.  A read outside of the string
    is [Fault]. *)
From S2P Require Import Prelude.

(** ** hashfn.c *)

(** A [char] as an [int]. *)
Definition char (b : Z) : Z := if b <? 128 then b else b - 256.

Definition DM_DELTA : Z := 0x9E3779B9.
Definition DM_FULLROUNDS : nat := 10.
Definition DM_PARTROUNDS : nat := 6.

(** Words of two and four bytes in memory, on a little-endian machine. *)
Definition get16bits (data : list Z) (p : Z) : outcome Z :=
  b0 ← need (rd data p); b1 ← need (rd data (p + 1)); Done (b0 + 256 * b1).

Definition word (msg : list Z) (p : Z) : outcome Z :=
  b0 ← need (rd msg p); b1 ← need (rd msg (p + 1)); b2 ← need (rd msg (p + 2)); b3 ← need (rd msg (p + 3));
  Done (b0 + 256 * (b1 + 256 * (b2 + 256 * b3))).

Definition shl (x n : Z) : Z := u32 (Z.shiftl x n).

(** The main loop of [SuperFastHash]. *)
Fixpoint sf_loop (len : nat) (data : list Z) (p hash : Z) : outcome (Z * Z) :=
  match len with
  | O => Done (p, hash)
  | S len =>
      w ← get16bits data p;
      let hash := u32 (hash + w) in
      w ← get16bits data (p + 2);
      let tmp := Z.lxor (shl w 11) hash in
      let hash := Z.lxor (shl hash 16) tmp in
      sf_loop len data (p + 4) (u32 (hash + Z.shiftr hash 11))
  end.

Definition sf_tail (rem : Z) (data : list Z) (p hash : Z) : outcome Z :=
  if rem =? 3 then
    w ← get16bits data p;
    b ← need (rd data (p + 2));
    let hash := u32 (hash + w) in
    let hash := Z.lxor hash (shl hash 16) in
    let hash := Z.lxor hash (shl (char b) 18) in
    Done (u32 (hash + Z.shiftr hash 11))
  else if rem =? 2 then
    w ← get16bits data p;
    let hash := u32 (hash + w) in
    let hash := Z.lxor hash (shl hash 11) in
    Done (u32 (hash + Z.shiftr hash 17))
  else if rem =? 1 then
    b ← need (rd data p);
    let hash := u32 (hash + char b) in
    let hash := Z.lxor hash (shl hash 10) in
    Done (u32 (hash + Z.shiftr hash 1))
  else Done hash.

Definition SuperFastHash (data : option (list Z)) (len : Z) : outcome Z :=
  match data with
  | None => Done 1
  | Some data =>
      if len <=? 1 then Done 1 else
      '(p, hash) ← sf_loop (Z.to_nat (Z.shiftr len 2)) data 0 (u32 len);
      hash ← sf_tail (Z.land len 3) data p hash;
      let hash := Z.lxor hash (shl hash 3) in
      let hash := u32 (hash + Z.shiftr hash 5) in
      let hash := Z.lxor hash (shl hash 4) in
      let hash := u32 (hash + Z.shiftr hash 17) in
      let hash := Z.lxor hash (shl hash 25) in
      Done (u32 (hash + Z.shiftr hash 6))
  end.

(** [do ... while (--n)] of [dm_round]. *)
Fixpoint dm_loop (n : nat) (array : Z * Z * Z * Z) (sum b0 b1 : Z) : Z * Z :=
  match n with
  | O => (b0, b1)
  | S n =>
      let '(a0, a1, a2, a3) := array in
      let sum := u32 (sum + DM_DELTA) in
      let b0 := u32 (b0 + Z.lxor (Z.lxor (u32 (shl b1 4 + a0)) (u32 (b1 + sum))) (u32 (Z.shiftr b1 5 + a1))) in
      let b1 := u32 (b1 + Z.lxor (Z.lxor (u32 (shl b0 4 + a2)) (u32 (b0 + sum))) (u32 (Z.shiftr b0 5 + a3))) in
      dm_loop n array sum b0 b1
  end.

Definition dm_round (rounds : nat) (array : Z * Z * Z * Z) (h : Z * Z) : Z * Z :=
  let '(b0, b1) := dm_loop rounds array 0 h.1 h.2 in (u32 (h.1 + b0), u32 (h.2 + b1)).

Definition pad_of (len : Z) : Z :=
  let pad := Z.lor (u32 len) (shl (u32 len) 8) in Z.lor pad (shl pad 16).

(** The loop over groups of four words. *)
Fixpoint quads (n : nat) (msg : list Z) (p : Z) (h : Z * Z) : outcome (Z * (Z * Z)) :=
  match n with
  | O => Done (p, h)
  | S n =>
      a0 ← word msg p; a1 ← word msg (p + 4); a2 ← word msg (p + 8); a3 ← word msg (p + 12);
      quads n msg (p + 16) (dm_round DM_PARTROUNDS (a0, a1, a2, a3) h)
  end.

(** [while (full_bytes)]: the bytes at the end of the message go into [acc]. *)
Fixpoint tail_bytes (full_bytes : nat) (msg : list Z) (len acc : Z) : outcome Z :=
  match full_bytes with
  | O => Done acc
  | S n => b ← need (rd msg (len - Z.of_nat full_bytes)); tail_bytes n msg len (Z.lor (shl acc 8) (u32 (char b)))
  end.

(** One of the last four words: a word of the message, or padding; with the
    position, the number of words left and the number of bytes left. *)
Definition last_word (msg : list Z) (len pad : Z) (st : Z * nat * nat) : outcome (Z * (Z * nat * nat)) :=
  let '(p, full_words, full_bytes) := st in
  match full_words with
  | S w => a ← word msg p; Done (a, ((p + 4), w, (full_bytes - 4)%nat))
  | O => a ← tail_bytes full_bytes msg len pad; Done (a, (p, O, O))
  end.

(** A negative length: above -4 there is no word, and bytes are read far over the end
    of the string; below, four words are read, since their number is not 0. *)
Definition negative_length (msg : list Z) (len : Z) : outcome Z :=
  if (-4 <? len) || (len - 16 <? - 2 ^ 31) then Fault else
  a0 ← word msg 0; a1 ← word msg 4; a2 ← word msg 8; a3 ← word msg 12;
  let '(h0, h1) := dm_round DM_FULLROUNDS (a0, a1, a2, a3) (0x9464a485, 0x542e1a94) in
  Done (Z.lxor h0 h1).

(** The length is an [int]. *)
Definition gf_dm_hashfn (msg : list Z) (len : Z) : outcome Z :=
  if len <? 0 then negative_length msg len else
  let pad := pad_of len in
  let full_quads := Z.to_nat (len / 16) in
  '(p, h) ← quads full_quads msg 0 (0x9464a485, 0x542e1a94);
  let st := (p, Z.to_nat (len / 4 - 4 * (len / 16)), Z.to_nat (len - 16 * (len / 16))) in
  '(a0, st) ← last_word msg len pad st;
  '(a1, st) ← last_word msg len pad st;
  '(a2, st) ← last_word msg len pad st;
  '(a3, st) ← last_word msg len pad st;
  let '(h0, h1) := dm_round DM_FULLROUNDS (a0, a1, a2, a3) h in
  Done (Z.lxor h0 h1).

(** ** dht-hashfn.c *)

Definition DHT_HASH_TYPE_DM : Z := 0.
Definition DHT_HASH_TYPE_DM_USER : Z := 1.

(** What [regexec] returns, with the place of the first group. *)
Inductive regexec_result : Set := REG_NOMATCH | REG_ERROR | REG_MATCH (rm_so rm_eo : Z).

(** The compiled expressions of the translator, if they are set. *)
Record regexes : Set := mkregexes {
  extra_regex : option (list Z -> regexec_result); rsync_regex : option (list Z -> regexec_result) }.

Definition dht_hash_compute_internal (type : Z) (name : list Z) (len : Z) : outcome (option Z) :=
  if (type =? DHT_HASH_TYPE_DM) || (type =? DHT_HASH_TYPE_DM_USER)
  then hash ← gf_dm_hashfn name len; Done (Some hash) else Done None.

(** The new name and its length with the final zero as an [int], or the old name
    and 0.  The array of matches is zero when [regexec] fails for another reason. *)
Definition dht_munge_name (original : list Z) (len : Z) (re : list Z -> regexec_result) : list Z * Z :=
  let found := match re original with REG_NOMATCH => None | REG_ERROR => Some (0, 0) | REG_MATCH so eo => Some (so, eo) end in
  match found with
  | Some (so, eo) =>
      let new_len := u64 (eo - so) in
      if negb (so =? -1) && (new_len <? len) then (take (Z.to_nat new_len) (drop (Z.to_nat so) original), s32 (new_len + 1)) else (original, 0)
  | None => (original, 0)
  end.

(** The length that is hashed is converted from [size_t] to [int]. *)
Definition dht_hash_compute (re : regexes) (type : Z) (name : option (list Z)) : outcome (option Z) :=
  match name with
  | None => Done None
  | Some name =>
      let len := Z.of_nat (length name) + 1 in
      let '(friendly, munged) := match extra_regex re with Some r => dht_munge_name name len r | None => (name, 0) end in
      let '(friendly, munged) :=
        match rsync_regex re with Some r => if munged =? 0 then dht_munge_name name len r else (friendly, munged) | None => (friendly, munged) end in
      if munged =? 0 then dht_hash_compute_internal type name (s32 (len - 1)) else dht_hash_compute_internal type friendly (s32 (munged - 1))
  end.
