(* ===== verification/DhtLayout.v ===== *)
(** * Layouts of directories (glusterfs: xlators/cluster/dht/src: dht-layout.c, dht-common.h)

    A layout gives each subvolume a range of 32-bit hashes.  It is written to the
    subvolumes as an extended attribute, put together again from what they
    answer, sorted, and checked for holes and overlaps; a name goes to the
    subvolume whose range has its hash.  Subvolumes are numbers, [volname] gives
    their names. *)
From stdpp Require Import sorting.
From S2P Require Import Prelude DhtHash.

(** ** Data *)

Definition ENOENT : Z := 2.
Definition EINVAL : Z := 22.
Definition ENOSPC : Z := 28.
Definition ENOTCONN : Z := 107.
Definition ESTALE : Z := 116.

Record dht_layout_entry : Set := mkentry { err : Z; start : Z; stop : Z; commit_hash : Z; xlator : option Z }.

Record dht_layout : Set := mkdht {
  spread_cnt : Z; preset : bool; layout_hash : Z; gen : Z; type : Z; ref : Z; entries : list dht_layout_entry }.

Definition cnt (l : dht_layout) : Z := Z.of_nat (length (entries l)).

Definition DHT_LAYOUT_HASH_INVALID : Z := 1.

Definition with_entries (l : dht_layout) (es : list dht_layout_entry) : dht_layout :=
  mkdht (spread_cnt l) (preset l) (layout_hash l) (gen l) (type l) (ref l) es.

Definition set_err (e : Z) (x : dht_layout_entry) : dht_layout_entry := mkentry e (start x) (stop x) (commit_hash x) (xlator x).
Definition set_range (s t : Z) (x : dht_layout_entry) : dht_layout_entry := mkentry (err x) s t (commit_hash x) (xlator x).

(** [layout->list[i] = f(layout->list[i])]. *)
Definition change (i : Z) (f : dht_layout_entry -> dht_layout_entry) (l : dht_layout) : outcome dht_layout :=
  e ← need (rd (entries l) i); es ← need (wr (entries l) i (f e)); Done (with_entries l es).

(** The parts of [dht_conf_t] that layouts need. *)
Record dht_conf : Set := mkconf {
  dir_spread_cnt : Z; conf_gen : Z; subvolumes : list Z; file_layouts : list dht_layout; decommissioned_bricks : list (option Z);
  decommission_subvols_cnt : Z; do_weighting : bool; du_stats : option (list Z); randomize_by_gfid : bool }.

Definition subvolume_cnt (c : dht_conf) : Z := Z.of_nat (length (subvolumes c)).

(** Memory from [GF_CALLOC] is zero. *)
Definition zero_entry : dht_layout_entry := mkentry 0 0 0 0 None.

Definition dht_layout_new (conf : option dht_conf) (n : Z) (m : mem) : option dht_layout * mem :=
  let '(ok, m) := alloc m in
  if ok then
    let '(spread, g) := match conf with Some c => (dir_spread_cnt c, conf_gen c) | None => (0, 0) end in
    (Some (mkdht spread false 0 g DHT_HASH_TYPE_DM 1 (replicate (Z.to_nat n) zero_entry)), m)
  else (None, m).

(** ** Looking for a subvolume *)

(** The first entry whose range has the hash; its subvolume may be [NULL]. *)
Fixpoint find_range (hash : Z) (es : list dht_layout_entry) : option Z :=
  match es with
  | [] => None
  | e :: es => if (start e <=? hash) && (hash <=? stop e) then xlator e else find_range hash es
  end.

Definition dht_layout_search (re : regexes) (l : dht_layout) (name : option (list Z)) : outcome (option Z) :=
  hash ← dht_hash_compute re (type l) name;
  Done (match hash with Some hash => find_range hash (entries l) | None => None end).

(** The index of the first entry of a subvolume, or the number of entries. *)
Fixpoint index_from (i : Z) (subvol : option Z) (es : list dht_layout_entry) : Z :=
  match es with
  | [] => i
  | e :: es => if bool_decide (xlator e = subvol) then i else index_from (i + 1) subvol es
  end.

Definition dht_layout_index_for_subvol (l : dht_layout) (subvol : option Z) : Z :=
  let i := index_from 0 subvol (entries l) in if i =? cnt l then -1 else i.

Fixpoint layout_of_subvol (subvol : Z) (subvols : list Z) (layouts : list dht_layout) : outcome (option dht_layout) :=
  match subvols with
  | [] => Done None
  | x :: subvols =>
      match layouts with
      | [] => Fault
      | l :: layouts => if x =? subvol then Done (Some l) else layout_of_subvol subvol subvols layouts
      end
  end.

Definition dht_layout_for_subvol (conf : option dht_conf) (subvol : Z) : outcome (option dht_layout) :=
  match conf with Some c => layout_of_subvol subvol (subvolumes c) (file_layouts c) | None => Done None end.

(** The layouts of files: one entry without a range, never freed. *)
Fixpoint init_layouts (c : dht_conf) (subvols : list Z) (m : mem) : option (list dht_layout) * mem :=
  match subvols with
  | [] => (Some [], m)
  | x :: subvols =>
      let '(l, m) := dht_layout_new (Some c) 1 m in
      match l with
      | None => (None, m)
      | Some l =>
          let l := mkdht (spread_cnt l) true (layout_hash l) (gen l) (type l) (ref l) [mkentry 0 0 0 0 (Some x)] in
          let '(ls, m) := init_layouts c subvols m in (ls ← ls; Some (l :: ls), m)
      end
  end.

Definition dht_layouts_init (c : dht_conf) (m : mem) : option dht_conf * mem :=
  let '(ok, m) := alloc m in
  if ok then
    let '(ls, m) := init_layouts c (subvolumes c) m in
    (ls ← ls; Some (mkconf (dir_spread_cnt c) (conf_gen c) (subvolumes c) ls (decommissioned_bricks c) (decommission_subvols_cnt c)
                      (do_weighting c) (du_stats c) (randomize_by_gfid c)), m)
  else (None, m).

(** ** On disk *)

(** [htobe32] in memory, and back. *)
Definition be32 (x : Z) : list Z :=
  let x := u32 x in [Z.shiftr x 24; Z.land (Z.shiftr x 16) 255; Z.land (Z.shiftr x 8) 255; Z.land x 255].

Definition from_be32 (bytes : list Z) (p : Z) : outcome Z :=
  b0 ← need (rd bytes p); b1 ← need (rd bytes (p + 1)); b2 ← need (rd bytes (p + 2)); b3 ← need (rd bytes (p + 3));
  Done (((b0 * 256 + b1) * 256 + b2) * 256 + b3).

Definition dht_disk_layout_extract (l : dht_layout) (pos : Z) (m : mem) : outcome (option (list Z) * mem) :=
  let '(ok, m) := alloc m in
  if ok then
    e ← need (rd (entries l) pos);
    Done (Some (be32 (commit_hash e) ++ be32 (type l) ++ be32 (start e) ++ be32 (stop e)), m)
  else Done (None, m).

Definition dht_disk_layout_extract_for_subvol (l : dht_layout) (subvol : Z) (m : mem) : outcome (option (list Z) * mem) :=
  let i := index_from 0 (Some subvol) (entries l) in
  if i =? cnt l then Done (None, m) else dht_disk_layout_extract l i m.

(** The copy into four integers overruns for a longer attribute, and leaves them unset for a shorter one. *)
Definition dht_disk_layout_merge (l : dht_layout) (pos : Z) (raw : list Z) : outcome (option dht_layout) :=
  if negb (length raw =? 16)%nat then Fault else
  t ← from_be32 raw 4;
  if (t =? DHT_HASH_TYPE_DM_USER) || (t =? DHT_HASH_TYPE_DM) then
    let l := if t =? DHT_HASH_TYPE_DM_USER then mkdht (spread_cnt l) (preset l) (layout_hash l) (gen l) t (ref l) (entries l) else l in
    h ← from_be32 raw 0;
    s ← from_be32 raw 8;
    e ← from_be32 raw 12;
    l ← change pos (fun x => mkentry (err x) s e h (xlator x)) l;
    Done (Some l)
  else Done None.

(** The first entry without a subvolume takes the answer. *)
Fixpoint claim_entry (i : Z) (subvol e : Z) (es : list dht_layout_entry) : Z * list dht_layout_entry :=
  match es with
  | [] => (i, [])
  | x :: es =>
      match xlator x with
      | None => (i, mkentry e (start x) (stop x) (commit_hash x) (Some subvol) :: es)
      | Some _ => let '(i, es) := claim_entry (i + 1) subvol e es in (i, x :: es)
      end
  end.

(** The answer of a subvolume to a lookup; [xattr] is the attribute, if there is a
    dictionary and it has one.  The result is the layout and what the call returns. *)
Definition dht_layout_merge (l : dht_layout) (subvol op_ret op_errno : Z) (xattr : option (list Z)) : outcome (dht_layout * Z) :=
  let e := if op_ret =? 0 then -1 else op_errno in
  let '(i, es) := claim_entry 0 subvol e (entries l) in
  let l := with_entries l es in
  if negb (op_ret =? 0) then Done (l, 0) else
  match xattr with
  | None => l ← change i (set_err 0) l; Done (l, 0)
  | Some raw =>
      merged ← dht_disk_layout_merge l i raw;
      match merged with
      | None => Done (l, -1)
      | Some l =>
          x ← need (rd (entries l) i);
          let h := if layout_hash l =? 0 then commit_hash x else if negb (layout_hash l =? commit_hash x) then DHT_LAYOUT_HASH_INVALID else layout_hash l in
          l ← change i (set_err 0) (mkdht (spread_cnt l) (preset l) h (gen l) (type l) (ref l) (entries l));
          Done (l, 0)
      end
  end.

(** Does the attribute differ from the layout in memory? *)
Definition dht_layout_dir_mismatch (l : dht_layout) (subvol : Z) (has_dict : bool) (xattr : option (list Z)) : outcome Z :=
  let pos := index_from 0 (Some subvol) (entries l) in
  if pos =? cnt l then Done 1 else
  x ← need (rd (entries l) pos);
  if negb has_dict then Done (if err x =? 0 then -1 else 0) else
  match xattr with
  | None => Done (if (err x =? 0) && negb (stop x =? 0) then -1 else 0)
  | Some raw =>
      start_off ← from_be32 raw 8;
      stop_off ← from_be32 raw 12;
      hash ← from_be32 raw 0;
      Done (if negb (start x =? start_off) || negb (stop x =? stop_off) || negb (commit_hash x =? hash) then 1 else 0)
  end.

(** ** Order *)

(** [qsort] as the merge sort of the C library. *)
Fixpoint merge {A} (cmp : A -> A -> Z) (l1 : list A) : list A -> list A :=
  match l1 with
  | [] => fun l2 => l2
  | a :: l1' =>
      fix go (l2 : list A) : list A :=
        match l2 with
        | [] => a :: l1'
        | b :: l2' => if cmp a b <=? 0 then a :: merge cmp l1' l2 else b :: go l2'
        end
  end.

Fixpoint msort {A} (fuel : nat) (cmp : A -> A -> Z) (l : list A) : list A :=
  match fuel with
  | O => l
  | S fuel =>
      if (length l <=? 1)%nat then l else
      let n := Nat.div2 (length l) in merge cmp (msort fuel cmp (take n l)) (msort fuel cmp (drop n l))
  end.

Definition qsort {A} (cmp : A -> A -> Z) (l : list A) : list A := msort (length l) cmp l.

Definition dht_layout_entry_cmp (x y : dht_layout_entry) : Z :=
  let diff := if (start y =? 0) && (stop y =? 0) then stop x - stop y else start x - start y in
  if diff =? 0 then 0 else if diff <? 0 then -1 else 1.

Definition dht_layout_sort (l : dht_layout) : dht_layout := with_entries l (qsort dht_layout_entry_cmp (entries l)).

Definition dht_layout_range_swap (i j : Z) (l : dht_layout) : outcome dht_layout :=
  a ← need (rd (entries l) i);
  b ← need (rd (entries l) j);
  l ← change i (set_range (start b) (stop b)) l;
  change j (set_range (start a) (stop a)) l.

(** ** Anomalies *)

Record anomalies : Set := mkan { holes : Z; overlaps : Z; missing : Z; down : Z; misc : Z; no_space : Z }.

Definition inc (x : Z) : Z := u32 (x + 1).

(** The body of the loop, with [prev_stop] and [is_virgin]. *)
Definition anomaly_step (e : dht_layout_entry) (st : anomalies * Z * bool) : anomalies * Z * bool :=
  let '(a, prev_stop, virgin) := st in
  if (err e =? -1) || (err e =? ENOENT) || (err e =? ESTALE) then
    (mkan (holes a) (overlaps a) (inc (missing a)) (down a) (misc a) (no_space a), prev_stop, virgin)
  else if err e =? ENOTCONN then (mkan (holes a) (overlaps a) (missing a) (inc (down a)) (misc a) (no_space a), prev_stop, virgin)
  else if err e =? ENOSPC then (mkan (holes a) (overlaps a) (missing a) (down a) (misc a) (inc (no_space a)), prev_stop, virgin)
  else if err e =? 0 then
    if start e =? stop e then st else
    let h := if u32 (prev_stop + 1) <? start e then inc (holes a) else holes a in
    let o := if start e <? u32 (prev_stop + 1) then inc (overlaps a) else overlaps a in
    (mkan h o (missing a) (down a) (misc a) (no_space a), stop e, false)
  else (mkan (holes a) (overlaps a) (missing a) (down a) (inc (misc a)) (no_space a), prev_stop, virgin).

Fixpoint anomaly_loop (es : list dht_layout_entry) (st : anomalies * Z * bool) : anomalies * Z * bool :=
  match es with [] => st | e :: es => anomaly_loop es (anomaly_step e st) end.

Definition dht_layout_anomalies (l : dht_layout) : outcome anomalies :=
  e ← need (rd (entries l) 0);
  let last_stop := u32 (start e - 1) in
  let '(a, prev_stop, virgin) := anomaly_loop (entries l) (mkan 0 0 0 0 0 0, last_stop, true) in
  let h := if negb (last_stop =? prev_stop) || virgin then inc (holes a) else holes a in
  Done (mkan h (overlaps a) (missing a) (down a) (misc a) (no_space a)).

Definition dht_layout_missing_dirs (l : option dht_layout) : Z :=
  match l with
  | None => 0
  | Some l => Z.of_nat (length (filter (fun e => (err e = ENOENT) \/ (err e = -1 /\ start e = 0 /\ stop e = 0)) (entries l)))
  end.

(** The sorted layout, and -1 or the number of missing directories. *)
Definition dht_layout_normalize (l : dht_layout) : outcome (dht_layout * Z) :=
  let l := dht_layout_sort l in
  a ← dht_layout_anomalies l;
  Done (l, if negb (holes a =? 0) || negb (overlaps a =? 0) then -1 else dht_layout_missing_dirs (Some l)).

(** ** By name *)

Section Names.
Context (volname : Z -> list Z).

(** [strcmp] on the bytes of two names. *)
Fixpoint strcmp (a b : list Z) : Z :=
  match a, b with
  | [], [] => 0
  | [], y :: _ => - y
  | x :: _, [] => x
  | x :: a, y :: b => if x =? y then strcmp a b else x - y
  end.

(** The name of [layout->list[i].xlator]. *)
Definition name_of (e : dht_layout_entry) : outcome (list Z) := x ← need (xlator e); Done (volname x).

Fixpoint in_layout (name : list Z) (es : list dht_layout_entry) : outcome bool :=
  match es with
  | [] => Done false
  | e :: es => n ← name_of e; if strcmp n name =? 0 then Done (negb (start e =? stop e)) else in_layout name es
  end.

Definition dht_is_subvol_in_layout (l : dht_layout) (subvol : Z) : outcome bool := in_layout (volname subvol) (entries l).

Definition dht_layout_entry_cmp_volname (x y : dht_layout_entry) : Z :=
  match xlator x, xlator y with Some a, Some b => strcmp (volname a) (volname b) | _, _ => 0 end.

(** A comparison of two entries reads both names. *)
Definition dht_layout_sort_volname (l : dht_layout) : outcome dht_layout :=
  if (2 <=? cnt l) && existsb (fun e => negb (bool_decide (is_Some (xlator e)))) (entries l) then Fault
  else Done (with_entries l (qsort dht_layout_entry_cmp_volname (entries l))).
End Names.
