(* ===== verification/DhtRanges.v ===== *)
(** * Ranges without holes and overlaps

    The order of [dht_layout_sort], and what the counts of [dht_layout_anomalies]
    say about the ranges of a sorted layout. *)
From stdpp Require Import sorting.
From S2P Require Import Prelude DhtHash DhtLayout.

(** ** Merge sort *)

Lemma merge_perm {A} (cmp : A -> A -> Z) l1 l2 : merge cmp l1 l2 ≡ₚ l1 ++ l2.
Proof.
  revert l2. induction l1 as [|a l1 IH]; intros l2; [done|]. induction l2 as [|b l2 IH2]; cbn; [by rewrite app_nil_r|].
  destruct (cmp a b <=? 0); [by rewrite IH|]. change (b :: merge cmp (a :: l1) l2 ≡ₚ a :: l1 ++ b :: l2). rewrite IH2. cbn.
  rewrite <- Permutation_middle. apply Permutation_swap.
Qed.

Lemma msort_perm {A} fuel (cmp : A -> A -> Z) l : msort fuel cmp l ≡ₚ l.
Proof.
  revert l. induction fuel as [|fuel IH]; intros l; cbn; [done|]. destruct (_ <=? 1)%nat; [done|]. by rewrite merge_perm, !IH, take_drop.
Qed.

Lemma qsort_perm {A} (cmp : A -> A -> Z) l : qsort cmp l ≡ₚ l.
Proof. apply msort_perm. Qed.

(** A comparison that orders the elements of [P]. *)
Class Orders {A} (P : A -> Prop) (cmp : A -> A -> Z) : Prop := {
  cmp_total a b : P a -> P b -> 0 < cmp a b -> cmp b a <= 0;
  cmp_trans a b c : P a -> P b -> P c -> cmp a b <= 0 -> cmp b c <= 0 -> cmp a c <= 0 }.

Abbreviation le_by cmp := (fun a b => cmp a b <= 0).

Section Sorted.
Context {A} (P : A -> Prop) (cmp : A -> A -> Z) `{!Orders P cmp}.

Lemma merge_sorted l1 l2 : Forall P l1 -> Forall P l2 -> StronglySorted (le_by cmp) l1 -> StronglySorted (le_by cmp) l2 -> StronglySorted (le_by cmp) (merge cmp l1 l2).
Proof.
  intros HP1. revert l2. induction HP1 as [|a l1 Ha HP1 IH]; intros l2 HP2 H1 H2; [done|]. induction HP2 as [|b l2 Hb HP2 IH2]; [done|]. cbn [merge].
  inversion H1 as [|? ? H1' Hf1]; subst. inversion H2 as [|? ? H2' Hf2]; subst. destruct (Z.leb_spec (cmp a b) 0) as [Hle|Hlt].
  - constructor; [apply IH; [by constructor|done|done]|]. rewrite merge_perm. apply Forall_app. split; [done|]. constructor; [done|].
    apply Forall_forall. intros c Hc. rewrite Forall_forall in Hf2, HP2. eapply (cmp_trans a b c); auto.
  - change (StronglySorted (le_by cmp) (b :: merge cmp (a :: l1) l2)). constructor; [by apply IH2|].
    change (Forall (fun x => cmp b x <= 0) (merge cmp (a :: l1) l2)). rewrite merge_perm. cbn.
    assert (Hba : cmp b a <= 0) by (by apply cmp_total). constructor; [done|]. apply Forall_app. split; [|done].
    apply Forall_forall. intros c Hc. rewrite Forall_forall in Hf1, HP1. eapply (cmp_trans b a c); auto.
Qed.

Lemma qsort_sorted l : Forall P l -> StronglySorted (le_by cmp) (qsort cmp l).
Proof.
  unfold qsort. intros HP. assert (Hn : (length l <= length l)%nat) by lia. revert Hn. generalize (length l) at 2 3. intros n. revert l HP.
  induction n as [|n IH]; intros l HP Hn; cbn.
  - destruct l; [constructor|cbn in Hn; lia].
  - destruct (Nat.leb_spec (length l) 1) as [H1|H1].
    + destruct l as [|a [|b l]]; cbn in H1; [constructor|repeat constructor|lia].
    + assert (Hd : (0 < Nat.div2 (length l) < length l)%nat).
      { pose proof (Nat.div2_odd (length l)) as E. destruct (Nat.odd (length l)); cbn [Nat.b2n] in E; lia. }
      assert (Ht : Forall P (take (Nat.div2 (length l)) l)) by (by apply Forall_take).
      assert (Hdr : Forall P (drop (Nat.div2 (length l)) l)) by (by apply Forall_drop).
      apply merge_sorted; [by rewrite msort_perm|by rewrite msort_perm| |]; apply IH; [done|rewrite length_take; lia|done|rewrite length_drop; lia].
Qed.
End Sorted.

(** ** The order of entries *)

Definition range_ok (e : dht_layout_entry) : Prop := 0 <= start e <= stop e /\ stop e < 2 ^ 32.

(** Entries without a range come first, the others by their start. *)
Definition no_range (e : dht_layout_entry) : Prop := start e = 0 /\ stop e = 0.

Lemma entry_cmp_spec x y : range_ok x -> range_ok y ->
  dht_layout_entry_cmp x y <= 0 <-> no_range x \/ ~ no_range y /\ start x <= start y.
Proof.
  unfold range_ok, no_range, dht_layout_entry_cmp. intros Hx Hy. destruct (Z.eqb_spec (start y) 0), (Z.eqb_spec (stop y) 0); cbn [andb];
    match goal with |- context [?d =? 0] => destruct (Z.eqb_spec d 0); [|destruct (Z.ltb_spec d 0)] end; lia.
Qed.

#[global] Instance entry_orders : Orders range_ok dht_layout_entry_cmp.
Proof.
  split.
  - intros a b Ha Hb H. apply entry_cmp_spec; [done|done|]. destruct (decide (dht_layout_entry_cmp a b <= 0)) as [|Hn]; [lia|].
    rewrite entry_cmp_spec in Hn by done. unfold no_range, range_ok in *. lia.
  - intros a b c Ha Hb Hc. rewrite !entry_cmp_spec by done. unfold no_range, range_ok in *. lia.
Qed.

(** ** Participating entries *)

Definition participates (e : dht_layout_entry) : Prop := err e = 0 /\ start e <> stop e.

#[global] Instance participates_dec e : Decision (participates e).
Proof. unfold participates. apply _. Defined.

Definition contains (hash : Z) (e : dht_layout_entry) : Prop := start e <= hash <= stop e.

(** Ranges that follow each other, modulo 2^32. *)
Fixpoint linked (p : Z) (es : list dht_layout_entry) (q : Z) : Prop :=
  match es with [] => p = q | e :: es => start e = u32 (p + 1) /\ linked (stop e) es q end.

Definition end_of (p : Z) (es : list dht_layout_entry) : Z := foldl (fun _ e => stop e) p es.

Lemma linked_end p es q : linked p es q -> q = end_of p es.
Proof. revert p. induction es as [|e es IH]; intros p; cbn; [done|]. intros [_ H]. by apply IH. Qed.

Lemma inc_small x : 0 <= x < 2 ^ 32 - 1 -> inc x = x + 1.
Proof. intros. unfold inc. apply u32_small. lia. Qed.

(** One step of the check: an anomaly is counted, or the entry follows the one before or does not take part. *)
Lemma anomaly_step_spec e a p v a' p' v' : 0 <= holes a < 2 ^ 32 - 1 -> 0 <= overlaps a < 2 ^ 32 - 1 -> anomaly_step e (a, p, v) = (a', p', v') ->
  holes a <= holes a' <= holes a + 1 /\ overlaps a <= overlaps a' <= overlaps a + 1 /\
  (participates e /\ p' = stop e /\ v' = false /\ (holes a' = holes a /\ overlaps a' = overlaps a <-> start e = u32 (p + 1)) \/
   ~ participates e /\ p' = p /\ v' = v /\ holes a' = holes a /\ overlaps a' = overlaps a).
Proof.
  intros Hh Ho. unfold anomaly_step, participates, ENOENT, ESTALE, ENOTCONN, ENOSPC.
  assert (Hskip : forall e, ~ (err e = 0 /\ start e <> stop e) -> forall h o, h = holes a -> o = overlaps a ->
    holes a <= h <= holes a + 1 /\ overlaps a <= o <= overlaps a + 1 /\
    (err e = 0 /\ start e <> stop e /\ p = stop e /\ v = false /\ (h = holes a /\ o = overlaps a <-> start e = u32 (p + 1)) \/
     ~ (err e = 0 /\ start e <> stop e) /\ p = p /\ v = v /\ h = holes a /\ o = overlaps a)).
  { intros e0 Hn h o -> ->. split; [lia|]. split; [lia|]. right. done. }
  destruct (Z.eqb_spec (err e) (-1)), (Z.eqb_spec (err e) 2), (Z.eqb_spec (err e) 116), (Z.eqb_spec (err e) 107), (Z.eqb_spec (err e) 28), (Z.eqb_spec (err e) 0); cbn [orb];
    try lia; try (intros [= <- <- <-]; specialize (Hskip e ltac:(lia) _ _ eq_refl eq_refl); tauto).
  destruct (Z.eqb_spec (start e) (stop e)); [intros [= <- <- <-]; specialize (Hskip e ltac:(lia) _ _ eq_refl eq_refl); tauto|].
  intros [= <- <- <-]; cbn. destruct (Z.ltb_spec (u32 (p + 1)) (start e)), (Z.ltb_spec (start e) (u32 (p + 1))); rewrite ?inc_small by lia;
    (split; [lia|]; split; [lia|]; left; split; [done|]; split; [done|]; split; [done|]; lia).
Qed.

Lemma anomaly_loop_spec es : forall a p v a' p' v', 0 <= holes a -> 0 <= overlaps a -> holes a + Z.of_nat (length es) < 2 ^ 32 - 1 ->
  overlaps a + Z.of_nat (length es) < 2 ^ 32 - 1 -> anomaly_loop es (a, p, v) = (a', p', v') ->
  let ps := filter participates es in
  holes a <= holes a' <= holes a + Z.of_nat (length es) /\ overlaps a <= overlaps a' <= overlaps a + Z.of_nat (length es) /\
  (holes a' = holes a /\ overlaps a' = overlaps a <-> linked p ps p') /\ v' = (v && bool_decide (ps = [])) /\ p' = end_of p ps.
Proof.
  induction es as [|e es IH]; intros a p v a' p' v' Hh Ho Hhl Hol; cbn [anomaly_loop length] in *.
  { intros [= <- <- <-]. cbn. rewrite andb_true_r. split; [lia|]. split; [lia|]. done. }
  destruct (anomaly_step e (a, p, v)) as [[a1 p1] v1] eqn:E. apply anomaly_step_spec in E as (H1 & H2 & H3); [|lia|lia]. intros Hl.
  destruct (IH a1 p1 v1 a' p' v') as (I1 & I2 & I3 & I4 & I5); [lia..|done|]. split; [lia|]. split; [lia|].
  destruct H3 as [(Hp & -> & -> & Heq)|(Hp & -> & -> & Heq)].
  - rewrite filter_cons_True by done. cbn [linked]. split; [|split; [rewrite I4; by rewrite andb_false_r|done]]. rewrite <- I3, <- Heq. lia.
  - rewrite filter_cons_False by done. split; [|done]. rewrite <- I3. lia.
Qed.

(** No anomaly: the ranges of the entries that take part, one after the other, go once around. *)
Lemma anomalies_linked l a e es : entries l = e :: es -> Z.of_nat (length (entries l)) < 2 ^ 32 - 2 -> dht_layout_anomalies l = Done a ->
  holes a = 0 /\ overlaps a = 0 <-> filter participates (entries l) <> [] /\ linked (u32 (start e - 1)) (filter participates (entries l)) (u32 (start e - 1)).
Proof.
  intros El Hlen. unfold dht_layout_anomalies. replace (rd (entries l) 0) with (Some e) by (by rewrite El). run.
  destruct (anomaly_loop (entries l) _) as [[a' p'] v'] eqn:E. apply anomaly_loop_spec in E as (H1 & H2 & H3 & -> & Hend); [|cbn; lia..]. cbn in H1, H2, H3. intros [= <-]. cbn.
  set (last := u32 (start e - 1)) in *. destruct (Z.eqb_spec last p') as [Ep|Ep]; cbn [negb orb].
  - rewrite <- Ep in H3. case_bool_decide as Eb; cbn; [rewrite inc_small by lia; split; [lia|by intros [? _]]|]. rewrite H3. tauto.
  - rewrite inc_small by lia. split; [lia|]. intros [_ Hl]. apply linked_end in Hl. congruence.
Qed.

(** ** Sorted layouts *)

Lemma linked_cover ps : forall p hash, linked p ps (2 ^ 32 - 1) -> Forall range_ok ps -> ps <> [] -> u32 (p + 1) <= hash < 2 ^ 32 ->
  Exists (contains hash) ps.
Proof.
  induction ps as [|e ps IH]; intros p hash; cbn; [done|]. intros [Hs Hl] Hok _ Hh. inversion Hok as [|? ? He Hok']; subst. unfold range_ok in He.
  destruct (decide (hash <= stop e)); [left; unfold contains; lia|]. right. destruct ps as [|e' ps]; [cbn in Hl; lia|].
  apply (IH (stop e)); [done|done|done|]. rewrite u32_small by lia. lia.
Qed.

(** Ranges one behind the other. *)
Definition follows (x y : dht_layout_entry) : Prop := stop x < start y.

(** A range of all hashes, alone. *)
Definition not_doubled (ps : list dht_layout_entry) : Prop := forall e, e ∈ ps -> start e = 0 -> stop e = 2 ^ 32 - 1 -> ps = [e].

Lemma linked_apart ps : forall p, linked p ps (2 ^ 32 - 1) -> Forall range_ok ps -> StronglySorted (fun x y => start x <= start y) ps -> not_doubled ps ->
  StronglySorted follows ps.
Proof.
  assert (H : forall ps p, linked p ps (2 ^ 32 - 1) -> Forall range_ok ps -> StronglySorted (fun x y => start x <= start y) ps ->
    (forall e, e ∈ ps -> ~ (start e = 0 /\ stop e = 2 ^ 32 - 1)) -> StronglySorted follows ps /\ Forall (fun x => u32 (p + 1) <= start x) ps).
  { clear ps. induction ps as [|e ps IH]; intros p; cbn; [intros; split; constructor|]. intros [Hs Hl] Hok Hso Hnd.
    inversion Hok as [|? ? He Hok']; subst. inversion Hso as [|? ? Hso' Hf]; subst. unfold range_ok in He.
    destruct (IH (stop e) Hl Hok' Hso') as [H1 H2]; [intros x Hx; apply Hnd; by constructor|]. split.
    - constructor; [done|]. destruct ps as [|e' ps]; [constructor|]. assert (stop e <> 2 ^ 32 - 1).
      { intros Eq. destruct Hl as [Hs' _]. rewrite Eq in Hs'. unfold u32 in Hs'. change ((2 ^ 32 - 1 + 1) mod 2 ^ 32) with 0 in Hs'.
        inversion Hf as [|? ? Hle _]; subst. apply (Hnd e); [by constructor|lia]. }
      eapply Forall_impl; [exact H2|]. intros x. cbn. rewrite u32_small by lia. unfold follows. lia.
    - constructor; [lia|]. eapply Forall_impl; [exact Hf|]. cbn. lia. }
  intros p Hl Hok Hso Hnd. destruct (decide (length ps = 1%nat)) as [E|E].
  { destruct ps as [|e [|e' ps]]; cbn in E; [lia|repeat constructor|lia]. }
  apply (H ps p); [done..|]. intros e He [H1 H2]. by rewrite (Hnd e He H1 H2) in E.
Qed.

Lemma apart_unique ps hash i j x y : StronglySorted follows ps -> Forall range_ok ps -> ps !! i = Some x -> ps !! j = Some y -> contains hash x -> contains hash y -> i = j.
Proof.
  intros Hs. revert i j. induction Hs as [|e ps Hs IH Hf]; intros i j Hok Hi Hj Hx Hy; [done|]. inversion Hok; subst. unfold contains, follows in *.
  destruct i as [|i], j as [|j]; cbn in Hi, Hj; [done| | |f_equal; by apply IH].
  - injection Hi as <-. rewrite Forall_lookup in Hf. specialize (Hf _ _ Hj). cbn in Hf. lia.
  - injection Hj as <-. rewrite Forall_lookup in Hf. specialize (Hf _ _ Hi). cbn in Hf. lia.
Qed.

Lemma end_of_last p ps : ps <> [] -> exists x, x ∈ ps /\ end_of p ps = stop x.
Proof.
  revert p. induction ps as [|e ps IH]; intros p H; [done|]. destruct ps as [|e' ps]; [exists e; split; [by constructor|done]|].
  destruct (IH (stop e)) as (x & Hx & E); [done|]. exists x. split; [by constructor|done].
Qed.

(** The first entry of a sorted layout without anomalies starts at 0. *)
Lemma sorted_head_zero e es : StronglySorted (le_by dht_layout_entry_cmp) (e :: es) -> Forall range_ok (e :: es) ->
  let ps := filter participates (e :: es) in ps <> [] -> linked (u32 (start e - 1)) ps (u32 (start e - 1)) -> start e = 0.
Proof.
  intros Hs Hok ps Hne Hl. destruct (end_of_last (u32 (start e - 1)) ps Hne) as (x & Hx & E). rewrite <- (linked_end _ _ _ Hl) in E.
  inversion Hok as [|? ? He Hok']; subst. inversion Hs as [|? ? Hs' Hf]; subst. destruct (decide (start e = 0)); [done|]. exfalso.
  unfold range_ok in He. rewrite u32_small in E by lia. apply list_elem_of_filter in Hx as [_ Hx]. apply elem_of_cons in Hx as [->|Hx]; [lia|].
  rewrite Forall_forall in Hf, Hok'. specialize (Hf _ Hx). specialize (Hok' _ Hx). cbn in Hf. rewrite entry_cmp_spec in Hf by done.
  unfold no_range, range_ok in *. lia.
Qed.

Lemma participates_sorted es : StronglySorted (le_by dht_layout_entry_cmp) es -> Forall range_ok es ->
  StronglySorted (fun x y => start x <= start y) (filter participates es).
Proof.
  intros Hs Hok. induction Hs as [|e es Hs IH Hf]; [constructor|]. inversion Hok as [|? ? He Hok']; subst. rewrite filter_cons.
  destruct (decide (participates e)) as [Hp|]; [|by apply IH]. constructor; [by apply IH|]. apply Forall_forall. intros x Hx. apply list_elem_of_filter in Hx as [Hpx Hx].
  rewrite Forall_forall in Hf, Hok'. specialize (Hf _ Hx). specialize (Hok' _ Hx). cbn in Hf. rewrite entry_cmp_spec in Hf by done.
  unfold no_range, participates, range_ok in *. lia.
Qed.

(** What the sorted entries are when nothing is wrong with them. *)
Record sound (es : list dht_layout_entry) : Prop := {
  so_sorted : StronglySorted (le_by dht_layout_entry_cmp) es;
  so_ranges : Forall range_ok es;
  so_some : filter participates es <> [];
  so_linked : linked (2 ^ 32 - 1) (filter participates es) (2 ^ 32 - 1) }.

Lemma normalize_sound l l' r : Forall range_ok (entries l) -> Z.of_nat (length (entries l)) < 2 ^ 32 - 2 -> dht_layout_normalize l = Done (l', r) -> 0 <= r ->
  l' = dht_layout_sort l /\ sound (entries l').
Proof.
  unfold dht_layout_normalize. intros Hok Hlen. assert (Hperm : entries (dht_layout_sort l) ≡ₚ entries l) by apply qsort_perm.
  assert (Hs : StronglySorted (le_by dht_layout_entry_cmp) (entries (dht_layout_sort l))) by (apply (qsort_sorted range_ok dht_layout_entry_cmp _ Hok)).
  set (l1 := dht_layout_sort l) in *. rewrite <- Hperm in Hok, Hlen.
  destruct (entries l1) as [|e es] eqn:E; [unfold dht_layout_anomalies; by rewrite E|]. destruct (dht_layout_anomalies l1) as [a| |] eqn:Ea; [|done..]. run. intros [= <- <-] Hr.
  split; [done|]. rewrite E. rewrite <- E in Hlen. pose proof (anomalies_linked l1 a e es E Hlen Ea) as Ha.
  assert (Hzero : holes a = 0 /\ overlaps a = 0) by (destruct (Z.eqb_spec (holes a) 0), (Z.eqb_spec (overlaps a) 0); cbn in Hr; lia).
  apply Ha in Hzero as [Hne Hl]. rewrite E in Hne, Hl. assert (start e = 0) as E0 by (by eapply sorted_head_zero). rewrite E0 in Hl. by split.
Qed.

Section Sound.
Context (es : list dht_layout_entry) (Hes : sound es).

Lemma sound_part_ranges : Forall range_ok (filter participates es).
Proof. apply Forall_forall. intros x Hx. apply list_elem_of_filter in Hx as [_ Hx]. pose proof (so_ranges _ Hes) as H. rewrite Forall_forall in H. auto. Qed.

Lemma sound_cover hash : 0 <= hash < 2 ^ 32 -> exists e, e ∈ es /\ participates e /\ contains hash e.
Proof.
  intros Hh. pose proof (linked_cover (filter participates es) (2 ^ 32 - 1) hash (so_linked _ Hes) sound_part_ranges (so_some _ Hes)) as H.
  apply Exists_exists in H as (e & He & Hc); [|exact Hh]. apply list_elem_of_filter in He as [Hp He]. by exists e.
Qed.

Lemma sound_apart : not_doubled (filter participates es) -> StronglySorted follows (filter participates es).
Proof. apply linked_apart with (p := 2 ^ 32 - 1); [apply Hes|apply sound_part_ranges|apply participates_sorted; apply Hes]. Qed.

Lemma sound_unique hash x y : not_doubled (filter participates es) -> x ∈ es -> participates x -> contains hash x -> y ∈ es -> participates y -> contains hash y -> x = y.
Proof.
  intros Hnd Hx Hpx Hcx Hy Hpy Hcy. assert (Hx' : x ∈ filter participates es) by (by apply list_elem_of_filter).
  assert (Hy' : y ∈ filter participates es) by (by apply list_elem_of_filter). apply list_elem_of_lookup in Hx' as [i Hi], Hy' as [j Hj].
  pose proof (apart_unique _ hash i j x y (sound_apart Hnd) sound_part_ranges Hi Hj Hcx Hcy). congruence.
Qed.
End Sound.

Lemma find_range_spec hash es : Exists (contains hash) es -> exists y, y ∈ es /\ contains hash y /\ find_range hash es = xlator y.
Proof.
  unfold contains. induction es as [|e es IH]; [by inversion 1|]. intros H. cbn. destruct (decide (start e <= hash <= stop e)) as [Hc|Hc].
  - exists e. split; [by constructor|]. split; [done|]. by rewrite (proj2 (Z.leb_le _ _)), (proj2 (Z.leb_le _ _)) by lia.
  - inversion H as [|? ? H']; [done|]; subst. destruct (IH H') as (y & Hy & Hyc & E). exists y. split; [by constructor|]. split; [done|]. rewrite <- E.
    destruct (Z.leb_spec (start e) hash), (Z.leb_spec hash (stop e)); cbn; [lia|done..].
Qed.

(** ** Ranges that are known to be right *)

Lemma follows_start x y : range_ok x -> follows x y -> start x < start y.
Proof. unfold range_ok, follows. lia. Qed.

(** Sorting brings entries with ranges one behind the other into this order. *)
Lemma sorted_participants es qs : StronglySorted (le_by dht_layout_entry_cmp) es -> Forall range_ok es -> filter participates es ≡ₚ qs -> StronglySorted follows qs ->
  filter participates es = qs.
Proof.
  intros Hs Hok Hp Hq. assert (Hqok : Forall range_ok qs).
  { rewrite <- Hp. apply Forall_forall. intros x Hx. apply list_elem_of_filter in Hx as [_ Hx]. rewrite Forall_forall in Hok. auto. }
  apply (StronglySorted_unique_strong (fun x y => start x <= start y)); [|by apply participates_sorted| |done].
  - intros x1 x2 H1 H2 Hle Hge. rewrite Hp in H1. apply list_elem_of_lookup in H1 as [i Hi], H2 as [j Hj].
    pose proof (proj1 (Forall_lookup _ _) Hqok _ _ Hi) as O1. pose proof (proj1 (Forall_lookup _ _) Hqok _ _ Hj) as O2. unfold range_ok in O1, O2.
    assert (i = j) by (apply (apart_unique qs (start x1) i j x1 x2); (done || unfold contains; lia)). congruence.
  - clear - Hq Hqok. induction Hq as [|x qs Hq IH Hf]; [constructor|]. inversion Hqok as [|? ? Hx Hqok']; subst. constructor; [by apply IH|].
    eapply Forall_impl; [exact Hf|]. intros y Hy. cbn. pose proof (follows_start _ _ Hx Hy). lia.
Qed.

Lemma anomalies_done l e es : entries l = e :: es -> exists a, dht_layout_anomalies l = Done a.
Proof.
  intros E. unfold dht_layout_anomalies. replace (rd (entries l) 0) with (Some e) by (by rewrite E). run. destruct (anomaly_loop _ _) as [[a p] v]. by eexists.
Qed.

Lemma no_missing_dirs l : Forall (fun e => err e = 0) (entries l) -> dht_layout_missing_dirs (Some l) = 0.
Proof.
  unfold dht_layout_missing_dirs. induction 1 as [|e es He _ IH]; [done|]. rewrite filter_cons_False; [done|]. rewrite He. unfold ENOENT. lia.
Qed.

(** A layout whose ranges go once around passes the check. *)
Lemma linked_normalizes l qs : Forall range_ok (entries l) -> Forall (fun e => err e = 0 /\ (participates e \/ no_range e)) (entries l) ->
  Z.of_nat (length (entries l)) < 2 ^ 32 - 2 -> qs <> [] -> filter participates (entries l) ≡ₚ qs -> StronglySorted follows qs -> linked (2 ^ 32 - 1) qs (2 ^ 32 - 1) ->
  dht_layout_normalize l = Done (dht_layout_sort l, 0) /\ sound (entries (dht_layout_sort l)) /\ filter participates (entries (dht_layout_sort l)) = qs.
Proof.
  intros Hok Herr Hlen Hne Hp Hq Hl. assert (Hperm : entries (dht_layout_sort l) ≡ₚ entries l) by apply qsort_perm.
  assert (Hs : StronglySorted (le_by dht_layout_entry_cmp) (entries (dht_layout_sort l))) by (apply (qsort_sorted range_ok dht_layout_entry_cmp _ Hok)).
  rewrite <- Hperm in Hok, Herr, Hlen, Hp. set (l1 := dht_layout_sort l) in *. pose proof (sorted_participants _ _ Hs Hok Hp Hq) as Hf.
  split; [|split; [split; [done|done|by rewrite Hf|by rewrite Hf]|done]]. unfold dht_layout_normalize. fold l1.
  destruct (entries l1) as [|e es] eqn:E; [cbn in Hf; congruence|]. destruct (anomalies_done l1 e es E) as [a Ea]. rewrite Ea.
  run. rewrite <- E in Hlen. pose proof (anomalies_linked l1 a e es E Hlen Ea) as Ha.
  assert (E0 : start e = 0).
  { pose proof (Forall_inv Herr) as [_ [He|He]]; [|apply He]. rewrite filter_cons_True in Hf by done. rewrite <- Hf in Hl. destruct Hl as [Hl _]. rewrite Hl. done. }
  rewrite E0, E, Hf in Ha. destruct (proj2 Ha) as [-> ->]; [done|]. cbn [Z.eqb negb orb]. do 2 f_equal.
  apply no_missing_dirs. rewrite E. eapply Forall_impl; [exact Herr|]. by intros x [? _].
Qed.
