(* ===== verification/DhtSelfheal.v ===== *)
(** * Giving ranges to subvolumes (glusterfs: xlators/cluster/dht/src: dht-selfheal.c)

    Ranges of a new directory, ranges after subvolumes were added or removed so
    that as few names as possible move, the decisions when a layout is to be
    written, and what is written where.  A conversion of a double that does not
    fit is [Fault].  Dictionaries are always allocated; [m] says which other
    allocations succeed. *)
From S2P Require Import Prelude Doubles DhtHash DhtLayout.

(** [for (i = from; i < from + n; i++)]. *)
Fixpoint loop {S} (n : nat) (i : Z) (f : Z -> S -> outcome S) (s : S) : outcome S :=
  match n with O => Done s | Datatypes.S n => s ← f i s; loop n (i + 1) f s end.

(** ** Overlaps *)

Definition dht_overlap_calc (old : dht_layout) (o : Z) (new : dht_layout) (n : Z) : outcome Z :=
  if (cnt old <=? o) || (cnt new <=? n) then Done 0 else
  a ← need (rd (entries old) o);
  b ← need (rd (entries new) n);
  Done (if (0 <? err a) || (0 <? err b) then 0
        else if start a =? stop a then 0
        else if start b =? stop b then 0
        else if (stop b <? start a) || (stop a <? start b) then 0
        else u32 (Z.min (stop a) (stop b) - Z.max (start a) (start b) + 1)).

(** ** When a layout is written *)

(** The decision, the two layouts, and the counts. *)
Definition dht_should_heal_layout (force_mkdir : Z) (heal ondisk : option dht_layout) :
    outcome (bool * option dht_layout * option dht_layout * option anomalies) :=
  match heal, ondisk with
  | Some h, Some d =>
      a ← dht_layout_anomalies d;
      let heal_missing_dirs := if negb (force_mkdir =? 0) then force_mkdir else dht_layout_missing_dirs heal in
      let swap := (holes a =? 0) && (overlaps a =? 0) && negb (heal_missing_dirs =? 0) in
      let fixit := negb (holes a =? 0) || negb (overlaps a =? 0) || negb (heal_missing_dirs =? 0) in
      Done (if swap then (fixit, ondisk, heal, Some a) else (fixit, heal, ondisk, Some a))
  | _, _ => Done (true, heal, ondisk, None)
  end.

Definition dht_layout_span (l : dht_layout) : Z :=
  Z.of_nat (length (filter (fun e => err e = 0 /\ start e <> stop e) (entries l))).

(** [decommissioned_bricks] has an element, maybe [NULL], for each subvolume. *)
Definition is_brick (x : option Z) (brick : option Z) : bool :=
  match brick with Some b => bool_decide (x = Some b) | None => false end.

Definition dht_decommissioned_bricks_in_layout (c : dht_conf) (l : option dht_layout) : Z :=
  match l with
  | None => 0
  | Some l => Z.of_nat (length (flat_map (fun e => List.filter (is_brick (xlator e)) (decommissioned_bricks c)) (entries l)))
  end.

Inductive dht_distribution_type_t : Set := GF_DHT_EQUAL_DISTRIBUTION | GF_DHT_WEIGHTED_DISTRIBUTION.

Fixpoint distribution_loop (n start_range : Z) (es : list dht_layout_entry) : dht_distribution_type_t :=
  match es with
  | [] => GF_DHT_EQUAL_DISTRIBUTION
  | e :: es =>
      if start_range =? 0 then distribution_loop n (u32 (stop e - start e)) es else
      let range := u32 (stop e - start e) in
      let diff := if start_range <=? range then range - start_range else start_range - range in
      if negb (range =? 0) && (n <? diff) then GF_DHT_WEIGHTED_DISTRIBUTION else distribution_loop n start_range es
  end.

Definition dht_distribution_type (l : option dht_layout) : dht_distribution_type_t :=
  match l with None => GF_DHT_EQUAL_DISTRIBUTION | Some l => distribution_loop (cnt l) 0 (entries l) end.

Definition dht_should_fix_layout (c : dht_conf) (inmem ondisk : option dht_layout) : outcome bool :=
  match inmem, ondisk with
  | Some i, Some d =>
      a ← dht_layout_anomalies d;
      if negb (down a =? 0) || negb (misc a =? 0) then Done false else
      if negb (holes a =? 0) || negb (overlaps a =? 0) then Done true else
      if negb (layout_hash i =? layout_hash d) then Done true else
      let same := match dht_distribution_type inmem, dht_distribution_type ondisk with
                  | GF_DHT_EQUAL_DISTRIBUTION, GF_DHT_EQUAL_DISTRIBUTION => true
                  | GF_DHT_WEIGHTED_DISTRIBUTION, GF_DHT_WEIGHTED_DISTRIBUTION => true
                  | _, _ => false end in
      Done (negb ((dht_decommissioned_bricks_in_layout c ondisk =? 0) &&
                  (dht_layout_span d =? subvolume_cnt c - decommission_subvols_cnt c) && same))
  | _, _ => Done true
  end.

(** ** Ranges of a new directory *)

(** Where the rotation starts: by the hash of [str], the path or the identifier. *)
Definition dht_selfheal_layout_alloc_start (re : regexes) (str : list Z) (l : dht_layout) : outcome Z :=
  hash ← dht_hash_compute re (type l) (Some str);
  match hash with Some h => if cnt l =? 0 then Fault else Done (h mod cnt l) | None => Done 0 end.

Definition mark_decommissioned (c : dht_conf) (e : dht_layout_entry) : dht_layout_entry :=
  if existsb (is_brick (xlator e)) (decommissioned_bricks c) then set_err EINVAL e else e.

(** Entries that can take a range get [err = -1] or keep [ENOENT]. *)
Definition usable (e : dht_layout_entry) : bool := (err e =? -1) || (err e =? 0) || (err e =? ENOENT).

Definition count_if {A} (p : A -> bool) (l : list A) : Z := Z.of_nat (length (List.filter p l)).

Definition dht_get_layout_count (c : dht_conf) (l : dht_layout) (new_layout : bool) : dht_layout * Z :=
  let es := map (mark_decommissioned c) (entries l) in
  let n := count_if usable es in
  let es := map (fun e => if usable e && (err e =? 0) then set_err (-1) e else e) es in
  let '(es, n) :=
    if (n =? 0) || negb new_layout
    then (map (fun e => if err e =? ENOSPC then set_err (-1) e else e) es, n + count_if (fun e => err e =? ENOSPC) es)
    else (es, n) in
  (with_entries l es,
   if negb (spread_cnt l =? 0) && (spread_cnt l <=? n) then spread_cnt l else if negb (n =? 0) then n else 1).

(** The first [bricks_used] entries that can take a range: the sum of their sizes, and whether all sizes are known. *)
Fixpoint sum_sizes (chunks : option Z -> Z) (bricks_to_use : Z) (es : list dht_layout_entry) (total used : Z) (weight : bool) : Z * bool :=
  match es with
  | [] => (total, weight)
  | e :: es =>
      if negb (err e =? -1) && negb (err e =? ENOENT) then sum_sizes chunks bricks_to_use es total used weight else
      let curr := chunks (xlator e) in
      if curr =? 0 then (total, false) else
      let total := u64 (total + curr) in
      if bricks_to_use <=? used + 1 then (total, weight) else sum_sizes chunks bricks_to_use es total (used + 1) weight
  end.

(** The loop over [real_i]. *)
Fixpoint assign (n : nat) (chunks : option Z -> Z) (weight : bool) (chunk : double) (bricks_to_use start_subvol real_i : Z) (l : dht_layout)
    (from used : Z) : outcome dht_layout :=
  match n with
  | O => Done l
  | S n =>
      let i := (real_i + start_subvol) mod cnt l in
      e ← need (rd (entries l) i);
      if negb (err e =? -1) && negb (err e =? ENOENT) then assign n chunks weight chunk bricks_to_use start_subvol (real_i + 1) l from used else
      let curr := if weight then chunks (xlator e) else 1 in
      if curr =? 0 then assign n chunks weight chunk bricks_to_use start_subvol (real_i + 1) l from used else
      range_size ← need (trunc32 (dmul chunk (double_of curr)));
      _ ← need (xlator e);
      l ← change i (fun e => mkentry (err e) from (u32 (from + range_size - 1)) (layout_hash l) (xlator e)) l;
      if bricks_to_use <=? used + 1 then change i (fun e => mkentry (err e) (start e) 0xffffffff (commit_hash e) (xlator e)) l
      else assign n chunks weight chunk bricks_to_use start_subvol (real_i + 1) l (u32 (from + range_size)) (used + 1)
  end.

Section Directory.
(** The configuration, the subvolumes in the order of the graph, the expressions
    for names, and the names of subvolumes. *)
Context (c : dht_conf) (children : list Z) (re : regexes) (volname : Z -> list Z).

Fixpoint chunks_at (index : Z) (stats : list Z) (children : list Z) (child : option Z) : Z :=
  match children with
  | [] => 0
  | x :: children => if bool_decide (child = Some x) then default 0 (rd stats index) else chunks_at (index + 1) stats children child
  end.

Definition dht_get_chunks_from_xl (child : option Z) : Z :=
  match du_stats c with None => 0 | Some stats => chunks_at 0 stats children child end.

Definition dht_selfheal_layout_new_directory (str : list Z) (l : dht_layout) : outcome dht_layout :=
  let '(l, bricks_to_use) := dht_get_layout_count c l true in
  let '(total_size, weight) := sum_sizes dht_get_chunks_from_xl bricks_to_use (entries l) 0 0 (do_weighting c) in
  let weight := weight && negb (total_size =? 0) in
  let chunk := ddiv (double_of 0xffffffff) (double_of (if weight then total_size else bricks_to_use)) in
  start_subvol ← dht_selfheal_layout_alloc_start re str l;
  let l := with_entries l (map (set_range 0 0) (entries l)) in
  assign (length (entries l)) dht_get_chunks_from_xl weight chunk bricks_to_use start_subvol 0 l 0 0.

(** The layout of a directory that was just made. *)
Definition dht_selfheal_new_directory (str : list Z) (l : dht_layout) : outcome dht_layout :=
  l ← dht_layout_sort_volname volname l; dht_selfheal_layout_new_directory str l.

(** ** Keeping names where they are *)

(** [OV_ENTRY(x, y)], in a table of [old->cnt * new->cnt] cells. *)
Definition ov (new : dht_layout) (x y : Z) : Z := x * cnt new + y.

(** The best partner for the range of [i] among the later entries. *)
Definition best_swap (new : dht_layout) (table : list Z) (i : Z) : outcome (Z * Z) :=
  loop (Z.to_nat (cnt new - (i + 1))) (i + 1) (fun j '(max_overlap, idx) =>
    e ← need (rd (entries new) j);
    if 0 <? err e then Done (max_overlap, idx) else
    ii ← need (rd table (ov new i i)); jj ← need (rd table (ov new j j));
    ij ← need (rd table (ov new i j)); ji ← need (rd table (ov new j i));
    let curr_overlap := u32 (ii + jj) in
    let overlap := u32 (ij + ji) in
    if (curr_overlap <? overlap) && (max_overlap <? overlap - curr_overlap) then Done (overlap - curr_overlap, j) else Done (max_overlap, idx)) (0, i).

Definition swap_rows (old new : dht_layout) (i k : Z) (table : list Z) : outcome (list Z) :=
  loop (length (entries old)) 0 (fun j table =>
    a ← need (rd table (ov new i j));
    b ← need (rd table (ov new k j));
    table ← need (wr table (ov new i j) b);
    need (wr table (ov new k j) a)) table.

Definition overlap_table (old new : dht_layout) : outcome (list Z) :=
  loop (length (entries new)) 0 (fun i table =>
    loop (length (entries old)) 0 (fun j table =>
      v ← dht_overlap_calc old j new i; need (wr table (ov new i j) v)) table)
    (replicate (length (entries old) * length (entries new)) 0).

Definition swap_step (old : dht_layout) (i : Z) (st : dht_layout * list Z) : outcome (dht_layout * list Z) :=
  let '(new, table) := st in
  e ← need (rd (entries new) i);
  if 0 <? err e then Done (new, table) else
  '(_, k) ← best_swap new table i;
  if k =? i then Done (new, table) else
  new' ← dht_layout_range_swap i k new;
  table ← swap_rows old new i k table;
  Done (new', table).

(** The new layout, and the old one sorted by name. *)
Definition dht_selfheal_layout_maximize_overlap (new old : dht_layout) : outcome (dht_layout * dht_layout) :=
  old ← dht_layout_sort_volname volname old;
  table ← overlap_table old new;
  '(new, _) ← loop (length (entries new)) 0 (swap_step old) (new, table);
  Done (new, old).

(** Have all subvolumes as many chunks as the first? *)
Definition same_chunks (stats : list Z) : outcome bool :=
  loop (length (subvolumes c)) 0 (fun i same =>
    x ← need (rd stats i); y ← need (rd stats 0);
    Done (same && ((i =? 0) || (x =? y)))) true.

(** What becomes of the layout in [local]: none if a subvolume is down. *)
Definition dht_fix_layout_of_directory (str : list Z) (l : dht_layout) (m : mem) : outcome (option dht_layout * mem) :=
  if type l =? DHT_HASH_TYPE_DM_USER then Done (Some l, m) else
  let '(new, m) := dht_layout_new (Some c) (subvolume_cnt c) m in
  match new with
  | None => Done (Some l, m)
  | Some new =>
      a ← dht_layout_anomalies l;
      if negb (down a =? 0) then Done (None, m) else
      new ← loop (length (entries new)) 0 (fun i new =>
        e ← need (rd (entries l) i);
        change i (fun x => mkentry (if negb (err e =? ENOSPC) then err e else -1) (start x) (stop x) (commit_hash x) (xlator e)) new) new;
      let new := mkdht (spread_cnt new) (preset new) (layout_hash l) (gen new) (type new) (ref new) (entries new) in
      same ← match du_stats c with Some stats => same_chunks stats | None => Done true end;
      new ← dht_layout_sort_volname volname new;
      new ← dht_selfheal_layout_new_directory str new;
      if same || negb (do_weighting c) then
        '(new, _) ← dht_selfheal_layout_maximize_overlap new l; Done (Some new, m)
      else Done (Some new, m)
  end.

(** ** Self heal *)

(** New ranges if the counts of the last check say so; the second result is what the call returns. *)
Definition dht_selfheal_dir_getafix (a : anomalies) (str : list Z) (l : dht_layout) : outcome (dht_layout * Z) :=
  '(l, ret) ←
    (if negb (holes a =? 0) || negb (overlaps a =? 0) then
       l ← dht_selfheal_layout_new_directory str
             (mkdht (spread_cnt l) (preset l) DHT_LAYOUT_HASH_INVALID (gen l) (type l) (ref l) (entries l));
       Done (l, 0)
     else Done (l, -1));
  Done (l, if existsb (fun e => err e =? ENOENT) (entries l) then 0 else ret).

(** The layout to heal with, and whether its attributes are written; none if a
    subvolume is down or has another error. *)
Definition dht_selfheal_directory (str : list Z) (l : dht_layout) : outcome (option (dht_layout * bool)) :=
  a ← dht_layout_anomalies l;
  if negb (down a =? 0) then Done None else
  if negb (misc a =? 0) then Done None else
  l ← dht_layout_sort_volname volname l;
  '(l, _) ← dht_selfheal_dir_getafix a str l;
  Done (Some (l, negb ((holes a =? 0) && (overlaps a =? 0) && (missing a =? 0)))).

(** ** Attributes *)

(** The attribute of entry [i], for its own subvolume or the one asked for. *)
Definition dht_selfheal_dir_xattr_persubvol (l : dht_layout) (i : Z) (req_subvol : option Z) : outcome (Z * list Z) :=
  subvol ← match req_subvol with Some x => Done x | None => e ← need (rd (entries l) i); need (xlator e) end;
  '(disk, _) ← dht_disk_layout_extract l i [];
  disk ← need disk;
  Done (subvol, disk).

(** The answer to a write of the attribute. *)
Definition dht_selfheal_dir_xattr_cbk (subvol op_ret op_errno : Z) (l : dht_layout) : outcome dht_layout :=
  let i := index_from 0 (Some subvol) (entries l) in
  if i =? cnt l then Done l else change i (set_err (if op_ret =? 0 then 0 else op_errno)) l.

Definition needs_xattr (e : dht_layout_entry) : bool := (err e =? -1) && negb (stop e =? 0).

(** The writes for entries that have none yet, at most [missing_xattr]; what is left of that. *)
Fixpoint write_ranges (n : nat) (i : Z) (l : dht_layout) (missing_xattr : Z) : outcome (list (Z * list Z) * Z) :=
  match n with
  | O => Done ([], missing_xattr)
  | S n =>
      e ← need (rd (entries l) i);
      if negb (needs_xattr e) then write_ranges n (i + 1) l missing_xattr else
      w ← dht_selfheal_dir_xattr_persubvol l i None;
      if missing_xattr - 1 =? 0 then Done ([w], 0) else
      '(ws, missing_xattr) ← write_ranges n (i + 1) l (missing_xattr - 1);
      Done (w :: ws, missing_xattr)
  end.

(** The writes of an empty range to subvolumes that do not take part. *)
Fixpoint write_zeros (subvols : list Z) (l dummy : dht_layout) (missing_xattr : Z) : outcome (list (Z * list Z)) :=
  match subvols with
  | [] => Done []
  | x :: subvols =>
      if missing_xattr =? 0 then Done [] else
      inside ← dht_is_subvol_in_layout volname l x;
      if inside : bool then write_zeros subvols l dummy missing_xattr else
      w ← dht_selfheal_dir_xattr_persubvol dummy 0 (Some x);
      ws ← write_zeros subvols l dummy (missing_xattr - 1);
      Done (w :: ws)
  end.

Fixpoint count_outside (subvols : list Z) (l : dht_layout) : outcome Z :=
  match subvols with
  | [] => Done 0
  | x :: subvols => inside ← dht_is_subvol_in_layout volname l x; n ← count_outside subvols l; Done (if inside : bool then n else n + 1)
  end.

(** All writes of attributes, subvolume and value. *)
Definition dht_selfheal_dir_xattr (l : dht_layout) (m : mem) : outcome (list (Z * list Z)) :=
  outside ← count_outside (subvolumes c) l;
  let missing_xattr := count_if needs_xattr (entries l) + outside in
  if missing_xattr =? 0 then Done [] else
  '(ws, missing_xattr) ← write_ranges (length (entries l)) 0 l missing_xattr;
  match (dht_layout_new (Some c) 1 m).1 with
  | None => Done ws
  | Some dummy => zs ← write_zeros (subvolumes c) l dummy missing_xattr; Done (ws ++ zs)
  end.

(** The writes for all entries, at most [count]; what is left of that. *)
Fixpoint write_all (n : nat) (i : Z) (l : dht_layout) (count : Z) : outcome (list (Z * list Z) * Z) :=
  match n with
  | O => Done ([], count)
  | S n =>
      w ← dht_selfheal_dir_xattr_persubvol l i None;
      if count - 1 =? 0 then Done ([w], 0) else
      '(ws, count) ← write_all n (i + 1) l (count - 1);
      Done (w :: ws, count)
  end.

Definition dht_fix_dir_xattr (l : dht_layout) (m : mem) : outcome (list (Z * list Z)) :=
  '(ws, count) ← write_all (length (entries l)) 0 l (subvolume_cnt c);
  if count =? 0 then Done ws else
  match (dht_layout_new (Some c) 1 m).1 with
  | None => Done ws
  | Some dummy =>
      let dummy := mkdht (spread_cnt dummy) (preset dummy) (layout_hash l) (gen dummy) (type dummy) (ref dummy) (entries dummy) in
      zs ← write_zeros (subvolumes c) l dummy count; Done (ws ++ zs)
  end.
End Directory.
