(* ===== verification/DhtDirectory.v ===== *)
(** * New directories

    The loop of [dht_selfheal_layout_new_directory]: the entries that get a range,
    in the order of the rotation, and the ranges, which go once around the hashes.
    The hash of a name is always computed; [dht_get_layout_count] marks as many
    entries as it counts; [dht_selfheal_layout_new_directory] gives ranges to as
    many of them. *)
From stdpp Require Import sorting.
From S2P Require Import Prelude Doubles DhtHash DhtLayout DhtRanges DhtSelfheal.

(** ** Changes of entries *)

Lemma change_done l i e f : entries l !! i = Some e -> change (Z.of_nat i) f l = Done (with_entries l (<[i := f e]> (entries l))).
Proof.
  intros H. unfold change. rewrite rd_lookup, H. run. unfold wr. apply lookup_lt_Some in H.
  rewrite (proj2 (Z.leb_le 0 _)), (proj2 (Z.ltb_lt _ _)) by lia. by rewrite Nat2Z.id.
Qed.

Lemma insert_alter {A} (l : list A) i x f : l !! i = Some x -> <[i := f x]> l = alter f i l.
Proof. intros H. rewrite list_insert_alter. apply list_alter_ext; [|done]. intros y Hy. congruence. Qed.

(** Ranges for some of the entries. *)
Fixpoint place (h : Z) (ps : list (nat * (Z * Z))) (es : list dht_layout_entry) : list dht_layout_entry :=
  match ps with
  | [] => es
  | (i, (s, t)) :: ps => place h ps (alter (fun e => mkentry (err e) s t h (xlator e)) i es)
  end.

Lemma place_length h ps es : length (place h ps es) = length es.
Proof. revert es. induction ps as [|[i [s t]] ps IH]; intros es; cbn; [done|]. by rewrite IH, length_alter. Qed.

Lemma place_other h ps es i : i ∉ ps.*1 -> place h ps es !! i = es !! i.
Proof.
  revert es. induction ps as [|[j [s t]] ps IH]; intros es; cbn; [done|]. rewrite not_elem_of_cons. intros [Hne Hi]. rewrite IH by done.
  by apply list_lookup_alter_ne.
Qed.

Lemma place_assigned h ps es i s t e : NoDup (ps.*1) -> (i, (s, t)) ∈ ps -> es !! i = Some e -> place h ps es !! i = Some (mkentry (err e) s t h (xlator e)).
Proof.
  revert es. induction ps as [|[j [s' t']] ps IH]; intros es Hnd Hin He; cbn; [by apply elem_of_nil in Hin|]. inversion Hnd as [|? ? Hj Hnd']; subst.
  apply elem_of_cons in Hin as [[= <- <- <-]|Hin].
  - rewrite place_other by done. by rewrite list_lookup_alter_eq, He.
  - apply IH; [done|done|]. rewrite list_lookup_alter_ne; [done|]. intros ->. apply Hj. apply list_elem_of_fmap. by exists (i, (s, t)).
Qed.

(** ** Ranges one after the other *)

(** Sizes become ranges; the last one ends at the end. *)
Fixpoint give (from : Z) (sizes : list Z) : list (Z * Z) :=
  match sizes with
  | [] => []
  | [_] => [(from, 2 ^ 32 - 1)]
  | r :: sizes => (from, u32 (from + r - 1)) :: give (u32 (from + r)) sizes
  end.

Lemma give_length from sizes : length (give from sizes) = length sizes.
Proof. revert from. induction sizes as [|r [|r' sizes] IH]; intros from; [done|done|]. cbn in *. by rewrite IH. Qed.

(** ** The loop *)

Definition open_entry (e : dht_layout_entry) : bool := (err e =? -1) || (err e =? ENOENT).

Section Assign.
Context (chunks : option Z -> Z) (weight : bool) (chunk : double) (start_subvol : Z).

(** The size of the range of an entry. *)
Definition size_of (e : dht_layout_entry) : Z := if weight then chunks (xlator e) else 1.

(** The entries in the order of the loop. *)
Definition order (n : nat) (real_i : Z) (es : list dht_layout_entry) : list nat :=
  (fun k => Z.to_nat ((k + start_subvol) mod Z.of_nat (length es))) <$> seqZ real_i (Z.of_nat n).

(** Those that take a range. *)
Definition takers (es : list dht_layout_entry) (order : list nat) : list nat :=
  List.filter (fun i => match es !! i with Some e => open_entry e && negb (size_of e =? 0) | None => false end) order.

Definition share (es : list dht_layout_entry) (i : nat) : option Z :=
  e ← es !! i; _ ← xlator e; trunc32 (dmul chunk (double_of (size_of e))).

Lemma order_cons n real_i es : order (S n) real_i es = Z.to_nat ((real_i + start_subvol) mod Z.of_nat (length es)) :: order n (real_i + 1) es.
Proof. unfold order. rewrite seqZ_cons by lia. cbn. do 3 f_equal; lia. Qed.

Lemma order_fresh n real_i es : (S n <= length es)%nat -> Z.to_nat ((real_i + start_subvol) mod Z.of_nat (length es)) ∉ order n (real_i + 1) es.
Proof.
  intros Hn Hin. unfold order in Hin. apply list_elem_of_fmap in Hin as (k & E & Hk). apply elem_of_seqZ in Hk.
  pose proof (Z.mod_pos_bound (real_i + start_subvol) (Z.of_nat (length es)) ltac:(lia)). pose proof (Z.mod_pos_bound (k + start_subvol) (Z.of_nat (length es)) ltac:(lia)).
  assert (E' : (real_i + start_subvol) mod Z.of_nat (length es) = (k + start_subvol) mod Z.of_nat (length es)) by lia.
  assert (Hd : (k - real_i) mod Z.of_nat (length es) = 0).
  { replace (k - real_i) with ((k + start_subvol) - (real_i + start_subvol)) by lia. rewrite Zminus_mod, <- E', Z.sub_diag. apply Z.mod_0_l. lia. }
  rewrite Z.mod_small in Hd by lia. lia.
Qed.

Lemma takers_cons es i js e : es !! i = Some e -> takers es (i :: js) = if open_entry e && negb (size_of e =? 0) then i :: takers es js else takers es js.
Proof. intros He. unfold takers. cbn. by rewrite He. Qed.

(** A change of another entry is not seen. *)
Lemma takers_alter es f i js : i ∉ js -> takers (alter f i es) js = takers es js.
Proof.
  induction js as [|j js IH]; [done|]. rewrite not_elem_of_cons. intros [Hne Hi]. unfold takers in *. cbn. rewrite list_lookup_alter_ne by done. by rewrite IH.
Qed.

Lemma takers_sub es js i : i ∈ takers es js -> i ∈ js /\ exists e, es !! i = Some e /\ open_entry e = true /\ size_of e <> 0.
Proof.
  unfold takers. rewrite !list_elem_of_In, filter_In. intros [Hi H]. split; [done|]. destruct (es !! i) as [e|]; [|done]. exists e.
  apply andb_prop in H as [H1 H2]. split; [done|]. split; [done|]. by destruct (Z.eqb_spec (size_of e) 0).
Qed.

Lemma share_alter es f i j : i <> j -> share (alter f i es) j = share es j.
Proof. intros Hne. unfold share. by rewrite list_lookup_alter_ne. Qed.

Lemma shares_alter es f i js : i ∉ js -> mapM (share (alter f i es)) js = mapM (share es) js.
Proof.
  induction js as [|j js IH]; [done|]. rewrite not_elem_of_cons. intros [Hne Hi]. cbn. by rewrite share_alter, IH.
Qed.

Lemma assign_spec b n : forall real_i l from used sizes, let es := entries l in let ts := takers es (order n real_i es) in
  0 <= start_subvol -> 0 <= real_i -> (n <= length es)%nat -> 0 <= used < b -> b - used <= Z.of_nat (length ts) ->
  mapM (share es) (take (Z.to_nat (b - used)) ts) = Some sizes ->
  assign n chunks weight chunk b start_subvol real_i l from used =
  Done (with_entries l (place (layout_hash l) (zip (take (Z.to_nat (b - used)) ts) (give from sizes)) es)).
Proof.
  induction n as [|n IH]; intros real_i l from used sizes es ts Hs Hr Hn Hu Hts Hsz.
  { subst ts. unfold order in Hts. rewrite seqZ_nil in Hts by lia. cbn in Hts. lia. }
  subst ts. rewrite order_cons in Hts, Hsz |- *. set (i := Z.to_nat ((real_i + start_subvol) mod Z.of_nat (length es))) in *. cbn [assign].
  pose proof (Z.mod_pos_bound (real_i + start_subvol) (Z.of_nat (length es)) ltac:(lia)) as Hm.
  replace ((real_i + start_subvol) mod cnt l) with (Z.of_nat i) by (unfold cnt; fold es; lia). rewrite rd_lookup. fold es.
  destruct (es !! i) as [e|] eqn:He; [|apply lookup_ge_None in He; lia]. run.
  pose proof (order_fresh n real_i es ltac:(lia)) as Hfresh. fold i in Hfresh. rewrite (takers_cons es i _ e He) in Hts, Hsz |- *.
  replace (negb (err e =? -1) && negb (err e =? ENOENT)) with (negb (open_entry e)) by (unfold open_entry; by destruct (_ =? -1), (_ =? ENOENT)).
  assert (Hn' : (n <= length (entries l))%nat) by (fold es; lia).
  destruct (open_entry e); cbn [negb andb] in *; [|apply IH; (done || lia)]. change (if weight then chunks (xlator e) else 1) with (size_of e).
  destruct (Z.eqb_spec (size_of e) 0) as [E0|E0]; cbn [negb] in *; [apply IH; (done || lia)|].
  set (ts := takers es (order n (real_i + 1) es)) in *. 
  replace (Z.to_nat (b - used)) with (S (Z.to_nat (b - (used + 1)))) in * by lia. cbn [take] in Hsz |- *.
  assert (Hts' : i ∉ ts) by (intros H; by apply takers_sub in H as [H _]).
  apply mapM_Some in Hsz. inversion Hsz as [|? r ? sizes' Hsh Hszs]; subst. unfold share in Hsh. rewrite He in Hsh. cbn in Hsh.
  destruct (xlator e) as [x|] eqn:Ex; [|done]. cbn in Hsh. rewrite Hsh. run. rewrite (change_done _ _ _ _ He). run.
  set (f := fun e0 : dht_layout_entry => mkentry (err e0) from (u32 (from + r - 1)) (layout_hash l) (xlator e0)).
  assert (Hes1 : <[i:=f e]> es = alter f i es) by (by apply insert_alter). change (mkentry (err e) from _ _ _) with (f e). fold es. rewrite Hes1.
  destruct (Z.leb_spec b (used + 1)) as [Hlast|Hmore].
  - replace (Z.to_nat (b - (used + 1))) with 0%nat in * by lia. cbn [take] in Hszs. inversion Hszs; subst sizes'. cbn [take zip give place].
    rewrite (change_done _ i (f e)) by (cbn; by rewrite list_lookup_alter_eq, He). cbn [entries with_entries]. do 2 f_equal.
    rewrite (insert_alter (alter f i es) i (f e) (fun e => mkentry (err e) (start e) 0xffffffff (commit_hash e) (xlator e)))
      by (by rewrite list_lookup_alter_eq, He). rewrite list_alter_alter_eq. by apply list_alter_ext.
  - apply (IH (real_i + 1) (with_entries l (alter f i es)) (u32 (from + r)) (used + 1) sizes') in Hs as Hres; cbn [entries with_entries layout_hash] in *.
    + rewrite Hres. unfold order in *. rewrite length_alter in *. fold (order n (real_i + 1) es) in *. rewrite takers_alter by done. fold ts.
      destruct sizes' as [|r' sizes']; [apply Forall2_length in Hszs; rewrite length_take in Hszs; cbn in Hts, Hszs; lia|]. done.
    + lia.
    + by rewrite length_alter.
    + lia.
    + unfold order. rewrite length_alter. fold (order n (real_i + 1) es). rewrite takers_alter by done. fold ts. cbn in Hts. lia.
    + unfold order. rewrite length_alter. fold (order n (real_i + 1) es). rewrite takers_alter by done. fold ts. rewrite shares_alter; [by apply mapM_Some|].
      intros H. apply Hts'. by eapply elem_of_take_1 || (apply elem_of_take in H as (k & Hk & _); by apply list_elem_of_lookup_2 in Hk).
Qed.
End Assign.

(** ** Once around *)

(** Ranges from [b] to the end of the hashes. *)
Fixpoint spans (b : Z) (rs : list (Z * Z)) : Prop :=
  match rs with [] => b = 2 ^ 32 | (s, t) :: rs => s = b /\ s < t < 2 ^ 32 /\ spans (t + 1) rs end.

(** Sizes for which no range is too small and the last one has a place. *)
Fixpoint fits (from : Z) (sizes : list Z) : Prop :=
  match sizes with [] => False | [_] => from < 2 ^ 32 - 1 | r :: sizes => 2 <= r /\ fits (from + r) sizes end.

Lemma fits_below from sizes : fits from sizes -> from < 2 ^ 32 - 1.
Proof.
  revert from. induction sizes as [|r [|r' sizes] IH]; intros from H; [done|done|]. destruct H as [H1 H2]. specialize (IH _ H2). lia.
Qed.

Lemma give_spans from sizes : 0 <= from -> fits from sizes -> spans from (give from sizes).
Proof.
  revert from. induction sizes as [|r [|r' sizes] IH]; intros from H0 H; [done|cbn in *; lia|]. destruct H as [H1 H2]. pose proof (fits_below _ _ H2).
  cbn [give spans]. rewrite (u32_small (from + r)), (u32_small (from + r - 1)) by lia. split; [done|]. split; [lia|].
  replace (from + r - 1 + 1) with (from + r) by lia. apply IH; [lia|done].
Qed.

(** Equal shares of the hashes. *)
Definition equal_share (b : Z) : option Z := trunc32 (dmul (ddiv (double_of 0xffffffff) (double_of b)) (double_of 1)).

Definition equal_ok (b : Z) : bool :=
  match equal_share (b + 1) with Some r => (2 <=? r) && (b * r <? 2 ^ 32 - 1) | None => false end.

Lemma equal_ok_all : all_below 1024 equal_ok = true.
Proof. vm_compute. reflexivity. Qed.

Lemma equal_share_fits b : 1 <= b <= 1024 -> exists r, equal_share b = Some r /\ 2 <= r /\ (b - 1) * r < 2 ^ 32 - 1.
Proof.
  intros Hb. pose proof (all_below_spec 1024 equal_ok equal_ok_all (b - 1) ltac:(lia)) as H. unfold equal_ok in H.
  replace (b - 1 + 1) with b in H by lia. destruct (equal_share b) as [r|]; [|done]. exists r. apply andb_prop in H as [H1 H2].
  apply Z.leb_le in H1. apply Z.ltb_lt in H2. done.
Qed.

Lemma fits_replicate n r from : 2 <= r -> from + Z.of_nat n * r < 2 ^ 32 - 1 -> fits from (replicate (S n) r).
Proof.
  intros Hr. revert from. induction n as [|n IH]; intros from H; [cbn in *; lia|]. split; [done|]. apply IH. lia.
Qed.

(** ** Hashes *)

Lemma rd_in {A} (l : list A) p : 0 <= p < Z.of_nat (length l) -> exists x, rd l p = Some x.
Proof.
  intros Hp. unfold rd. rewrite (proj2 (Z.leb_le 0 p)) by lia. destruct (l !! Z.to_nat p) as [x|] eqn:E; [by exists x|].
  apply lookup_ge_None in E. lia.
Qed.

Lemma word_done msg p : 0 <= p -> p + 4 <= Z.of_nat (length msg) -> exists w, word msg p = Done w.
Proof.
  intros H0 H. unfold word. destruct (rd_in msg p) as [b0 ->]; [lia|]. destruct (rd_in msg (p + 1)) as [b1 ->]; [lia|].
  destruct (rd_in msg (p + 2)) as [b2 ->]; [lia|]. destruct (rd_in msg (p + 3)) as [b3 ->]; [lia|]. run. eauto.
Qed.

Lemma quads_done n msg p h : 0 <= p -> p + 16 * Z.of_nat n <= Z.of_nat (length msg) -> exists h', quads n msg p h = Done (p + 16 * Z.of_nat n, h').
Proof.
  revert p h. induction n as [|n IH]; intros p h H0 H; [exists h; cbn; by rewrite Z.add_0_r|]. cbn [quads].
  destruct (word_done msg p) as [a0 ->]; [lia..|]. destruct (word_done msg (p + 4)) as [a1 ->]; [lia..|].
  destruct (word_done msg (p + 8)) as [a2 ->]; [lia..|]. destruct (word_done msg (p + 12)) as [a3 ->]; [lia..|]. run.
  destruct (IH (p + 16) (dm_round DM_PARTROUNDS (a0, a1, a2, a3) h)) as [h' ->]; [lia..|]. exists h'. do 2 f_equal. lia.
Qed.

Lemma tail_bytes_done n msg len acc : Z.of_nat n <= len <= Z.of_nat (length msg) -> exists a, tail_bytes n msg len acc = Done a.
Proof.
  revert acc. induction n as [|n IH]; intros acc H; [by exists acc|]. cbn [tail_bytes].
  destruct (rd_in msg (len - Z.of_nat (S n))) as [b ->]; [lia|]. run. apply IH. lia.
Qed.

(** The state of the last loop: words and bytes that are left from [p] on. *)
Definition tail_state (len : Z) (st : Z * nat * nat) : Prop :=
  let '(p, w, b) := st in 0 <= p /\ (p + Z.of_nat b = len \/ w = 0%nat) /\ (4 * w <= b)%nat /\ Z.of_nat b <= len.

Lemma last_word_done msg len pad st : len <= Z.of_nat (length msg) -> tail_state len st -> exists a st', last_word msg len pad st = Done (a, st') /\ tail_state len st'.
Proof.
  intros Hl. destruct st as [[p w] b]. intros (H0 & H1 & H2 & H3). destruct w as [|w]; cbn [last_word].
  - destruct (tail_bytes_done b msg len pad) as [a ->]; [lia|]. run. do 2 eexists. split; [done|]. cbn. lia.
  - destruct H1 as [H1|H1]; [|lia]. destruct (word_done msg p) as [a ->]; [lia..|]. run. do 2 eexists. split; [done|]. cbn. lia.
Qed.

Lemma gf_dm_hashfn_done msg len : 0 <= len <= Z.of_nat (length msg) -> exists h, gf_dm_hashfn msg len = Done h /\ 0 <= h < 2 ^ 32.
Proof.
  intros Hl. unfold gf_dm_hashfn. rewrite (proj2 (Z.ltb_ge len 0)) by lia. pose proof (Z.div_mod len 16 ltac:(lia)). pose proof (Z.mod_pos_bound len 16 ltac:(lia)). pose proof (Z.div_pos len 16 ltac:(lia) ltac:(lia)).
  pose proof (Z.div_mod len 4 ltac:(lia)). pose proof (Z.mod_pos_bound len 4 ltac:(lia)).
  destruct (quads_done (Z.to_nat (len / 16)) msg 0 (0x9464a485, 0x542e1a94)) as [h ->]; [lia..|]. run.
  set (st := (0 + _, _, _)). assert (Hst : tail_state len st) by (cbn; lia). clearbody st.
  do 4 (match goal with |- context [last_word _ _ _ ?st] => destruct (last_word_done msg len (pad_of len) st) as (? & ? & -> & ?); [lia|done|]; run end).
  unfold dm_round. destruct (dm_loop _ _ _ _ _) as [b0 b1]. eexists. split; [done|]. apply lxor_range; [lia|apply u32_range..].
Qed.

(** Documented behaviour of [regexec]: a group that matched lies in the string. *)
Definition regex_ok (r : list Z -> regexec_result) : Prop :=
  forall name so eo, r name = REG_MATCH so eo -> so = -1 \/ 0 <= so <= eo /\ eo <= Z.of_nat (length name).

Definition regexes_ok (re : regexes) : Prop :=
  (forall r, extra_regex re = Some r -> regex_ok r) /\ (forall r, rsync_regex re = Some r -> regex_ok r).

Lemma munge_length name r : regex_ok r -> Z.of_nat (length name) < 2 ^ 31 - 1 ->
  let '(friendly, munged) := dht_munge_name name (Z.of_nat (length name) + 1) r in
  munged = 0 \/ 0 < munged <= 2 ^ 31 - 1 /\ munged - 1 <= Z.of_nat (length friendly).
Proof.
  intros Hr Hlen. unfold dht_munge_name. destruct (r name) as [| |so eo] eqn:E; [by left| |].
  { change (u64 (0 - 0)) with 0. rewrite (proj2 (Z.ltb_lt 0 (Z.of_nat (length name) + 1))) by lia. change (s32 (0 + 1)) with 1. right. cbn. lia. }
  destruct (Hr _ _ _ E) as [->|(H1 & H2)]; [by left|]. rewrite u64_small by lia. destruct (Z.eqb_spec so (-1)); [lia|]. cbn [negb andb].
  destruct (Z.ltb_spec (eo - so) (Z.of_nat (length name) + 1)); [|by left]. right. rewrite s32_small, length_take, length_drop by lia. lia.
Qed.

Lemma hash_internal_done type name len : 0 <= len <= Z.of_nat (length name) ->
  exists h, dht_hash_compute_internal type name len = Done h /\ forall x, h = Some x -> 0 <= x < 2 ^ 32.
Proof.
  intros Hl. unfold dht_hash_compute_internal. destruct (_ || _); [|exists None; split; [done|intros x Hx; done]]. destruct (gf_dm_hashfn_done name len Hl) as (h & -> & Hh). run.
  exists (Some h). split; [done|]. by intros x [= <-].
Qed.

Lemma dht_hash_compute_done re type name : regexes_ok re -> Z.of_nat (length name) < 2 ^ 31 - 1 ->
  exists h, dht_hash_compute re type (Some name) = Done h /\ forall x, h = Some x -> 0 <= x < 2 ^ 32.
Proof.
  intros [H1 H2] Hlen. unfold dht_hash_compute. set (len := Z.of_nat (length name) + 1). destruct (match extra_regex re with Some _ => _ | None => _ end) as [f1 m1] eqn:E1.
  assert (P1 : m1 = 0 \/ 0 < m1 <= 2 ^ 31 - 1 /\ m1 - 1 <= Z.of_nat (length f1)).
  { destruct (extra_regex re) as [r|] eqn:Er; [|injection E1 as <- <-; by left]. pose proof (munge_length name r (H1 r eq_refl) Hlen) as Hm. fold len in Hm. by rewrite E1 in Hm. }
  destruct (match rsync_regex re with Some _ => _ | None => _ end) as [f2 m2] eqn:E2.
  assert (P2 : m2 = 0 \/ 0 < m2 <= 2 ^ 31 - 1 /\ m2 - 1 <= Z.of_nat (length f2)).
  { destruct (rsync_regex re) as [r|] eqn:Er; [|by injection E2 as <- <-]. destruct (m1 =? 0); [|by injection E2 as <- <-].
    pose proof (munge_length name r (H2 r eq_refl) Hlen) as Hm. fold len in Hm. by rewrite E2 in Hm. }
  destruct (Z.eqb_spec m2 0); rewrite s32_small by lia; apply hash_internal_done; subst len; lia.
Qed.

(** ** Counting *)

Lemma mark_xlator c e : xlator (mark_decommissioned c e) = xlator e.
Proof. unfold mark_decommissioned. by destruct (existsb _ _). Qed.

Lemma count_map {A B} (p : B -> bool) (f : A -> B) l : count_if p (map f l) = count_if (fun x => p (f x)) l.
Proof. unfold count_if. induction l as [|x l IH]; cbn; [done|]. destruct (p (f x)); cbn in *; lia. Qed.

Lemma count_ext {A} (p q : A -> bool) l : Forall (fun x => p x = q x) l -> count_if p l = count_if q l.
Proof. unfold count_if. induction 1 as [|x l E _ IH]; cbn; [done|]. rewrite E. destruct (q x); cbn in *; lia. Qed.

Lemma count_none {A} (p : A -> bool) l : count_if p l = 0 -> Forall (fun x => p x = false) l.
Proof. unfold count_if. induction l as [|x l IH]; cbn; [constructor|]. destruct (p x) eqn:E; cbn; [lia|]. intros H. constructor; [done|]. apply IH. lia. Qed.

(** The entries keep their ranges and subvolumes. *)
Definition only_err (f : dht_layout_entry -> dht_layout_entry) : Prop :=
  forall e, start (f e) = start e /\ stop (f e) = stop e /\ commit_hash (f e) = commit_hash e /\ xlator (f e) = xlator e.

(** As many bricks as the spread says, if there are so many. *)
Definition bricks (spread n : Z) : Z := if negb (spread =? 0) && (spread <=? n) then spread else if negb (n =? 0) then n else 1.

Lemma bricks_range spread n : 0 <= spread -> 0 < n -> 1 <= bricks spread n <= n.
Proof.
  intros Hs Hn. unfold bricks. destruct (Z.eqb_spec spread 0), (Z.leb_spec spread n), (Z.eqb_spec n 0); cbn; lia.
Qed.

Lemma only_err_compose f g : only_err f -> only_err g -> only_err (fun e => g (f e)).
Proof. intros Hf Hg e. destruct (Hf e) as (? & ? & ? & ?), (Hg (f e)) as (? & ? & ? & ?). repeat split; congruence. Qed.

(** The bricks to use are counted by the entries that are open for a range. *)
Lemma layout_count_spec c l :
  exists f, only_err f /\ (forall e, err e = 0 -> existsb (is_brick (xlator e)) (decommissioned_bricks c) = false -> err (f e) = -1) /\ dht_get_layout_count c l true = (with_entries l (map f (entries l)), bricks (spread_cnt l) (count_if open_entry (map f (entries l)))).
Proof.
  unfold dht_get_layout_count. set (mk := mark_decommissioned c). set (f1 := fun e => if usable e && (err e =? 0) then set_err (-1) e else e).
  set (f2 := fun e => if err e =? ENOSPC then set_err (-1) e else e).
  assert (Hmk : only_err mk) by (intros e; unfold mk, mark_decommissioned; by destruct (existsb _ _)).
  assert (Hf1 : only_err f1) by (intros e; unfold f1; by destruct (_ && _)). assert (Hf2 : only_err f2) by (intros e; unfold f2; by destruct (_ =? _)).
  assert (Hopen : forall e, open_entry (f1 e) = usable e).
  { intros e. unfold f1, open_entry, usable. destruct (Z.eqb_spec (err e) (-1)) as [E|E], (Z.eqb_spec (err e) 0) as [E0|E0], (Z.eqb_spec (err e) ENOENT) as [E2|E2]; cbn; unfold ENOENT in *;
      rewrite ?E, ?E2; try done; try lia. }
  assert (Hgood : forall e, err e = 0 -> existsb (is_brick (xlator e)) (decommissioned_bricks c) = false -> err (f1 (mk e)) = -1).
  { intros e He Hd. unfold f1, mk, mark_decommissioned. rewrite Hd. unfold usable. by rewrite He. }
  destruct (Z.eqb_spec (count_if usable (map mk (entries l))) 0) as [E|E]; cbn [orb negb].
  - exists (fun e => f2 (f1 (mk e))). split; [|split; [intros e He Hd; pose proof (Hgood e He Hd); unfold f2; by destruct (_ =? ENOSPC)|]]; [by apply (only_err_compose (fun e => f1 (mk e)) f2); [apply only_err_compose|]|].
    rewrite !map_map. f_equal. rewrite E, Z.add_0_l. fold (bricks (spread_cnt l) (count_if (fun e => err e =? ENOSPC) (map (fun x => f1 (mk x)) (entries l)))).
    f_equal. rewrite !count_map. apply count_ext. rewrite count_map in E. apply count_none in E. eapply Forall_impl; [exact E|]. intros e Hu. cbn in Hu.
    rewrite <- Hopen in Hu. unfold f2. by destruct (Z.eqb_spec (err (f1 (mk e))) ENOSPC).
  - exists (fun e => f1 (mk e)). split; [by apply only_err_compose|]. split; [done|]. rewrite !map_map. f_equal.
    fold (bricks (spread_cnt l) (count_if usable (map mk (entries l)))). f_equal. rewrite !count_map. apply count_ext, Forall_forall. intros e _. by rewrite Hopen.
Qed.

(** ** The rotation visits every entry *)

Lemma order_all s es : es <> [] -> order s (length es) 0 es ≡ₚ seq 0 (length es).
Proof.
  intros Hne. assert (Hpos : (0 < length es)%nat) by (destruct es; [done|cbn; lia]). assert (Hnd : NoDup (order s (length es) 0 es)).
  { assert (H : forall n k, (n <= length es)%nat -> NoDup (order s n k es)); [|by apply H].
    induction n as [|n IH]; intros k Hn; [unfold order; rewrite seqZ_nil by lia; constructor|]. rewrite order_cons. constructor; [apply order_fresh; lia|apply IH; lia]. }
  assert (Hsub : order s (length es) 0 es ⊆+ seq 0 (length es)).
  { apply NoDup_submseteq; [done|]. intros i Hi. unfold order in Hi. apply list_elem_of_fmap in Hi as (k & -> & _).
    pose proof (Z.mod_pos_bound (k + s) (Z.of_nat (length es)) ltac:(lia)). apply elem_of_seq. lia. }
  apply submseteq_length_Permutation; [done|]. unfold order. rewrite length_seq, length_fmap, length_seqZ. lia.
Qed.

Lemma filter_indices (p : dht_layout_entry -> bool) es :
  Z.of_nat (length (List.filter (fun i => match es !! i with Some e => p e | None => false end) (seq 0 (length es)))) = count_if p es.
Proof.
  unfold count_if. induction es as [|e es IH] using rev_ind; [done|]. rewrite length_app. cbn [length]. rewrite Nat.add_1_r, seq_S, !List.filter_app, !length_app.
  rewrite Nat2Z.inj_add, Nat2Z.inj_add. f_equal.
  - rewrite <- IH. do 2 f_equal. apply List.filter_ext_in. intros i Hi. apply in_seq in Hi. by rewrite lookup_app_l by lia.
  - cbn. rewrite lookup_app_r, Nat.sub_diag by lia. cbn. by destruct (p e).
Qed.

Lemma takers_count chunks s es : es <> [] -> Z.of_nat (length (takers chunks false es (order s (length es) 0 es))) = count_if open_entry es.
Proof.
  intros Hne. rewrite <- filter_indices. unfold takers. f_equal.
  assert (E : forall js, List.filter (fun i => match es !! i with Some e => open_entry e && negb (size_of chunks false e =? 0) | None => false end) js
                = List.filter (fun i => match es !! i with Some e => open_entry e | None => false end) js).
  { intros js. apply List.filter_ext. intros i. destruct (es !! i); [|done]. cbn. apply andb_true_r. }
  rewrite E. apply Permutation_length. pose proof (order_all s es Hne) as Hp. induction Hp as [|x l l' _ IH|x y l|l l' l'' _ IH1 _ IH2]; cbn; [done| | |by etrans].
  - destruct (match es !! x with Some _ => _ | None => _ end); [by constructor|done].
  - destruct (match es !! x with Some _ => _ | None => _ end), (match es !! y with Some _ => _ | None => _ end); try done. by apply Permutation_swap.
Qed.

(** ** Ranges of a new directory *)

Lemma sum_sizes_false chunks b es total used : (sum_sizes chunks b es total used false).2 = false.
Proof.
  revert total used. induction es as [|e es IH]; intros total used; cbn; [done|]. destruct (_ && _); [done|]. destruct (_ =? 0); [done|]. by destruct (_ <=? _).
Qed.

Lemma shares_equal chunks b es js r : equal_share b = Some r -> Forall (fun i => exists e, es !! i = Some e /\ is_Some (xlator e)) js ->
  mapM (share chunks false (ddiv (double_of 0xffffffff) (double_of b)) es) js = Some (replicate (length js) r).
Proof.
  intros Hr Hj. induction Hj as [|i js (e & He & [x Hx]) _ IH]; [done|]. set (ch := ddiv _ _) in *.
  assert (Hi : share chunks false ch es i = Some r) by (unfold share; rewrite He; cbn; rewrite Hx; exact Hr). cbn. rewrite Hi. cbn. by rewrite IH.
Qed.

(** What a list of places gives out: different entries, ranges once around. *)
Record dealt (es : list dht_layout_entry) (b : Z) (ps : list (nat * (Z * Z))) : Prop := {
  de_nodup : NoDup (ps.*1);
  de_spans : spans 0 (ps.*2);
  de_length : Z.of_nat (length ps) = b;
  de_open : Forall (fun i => exists e, es !! i = Some e /\ open_entry e = true) (ps.*1) }.

Lemma new_directory_spec c children re str l : do_weighting c = false -> regexes_ok re -> Z.of_nat (length str) < 2 ^ 31 - 1 -> 0 <= spread_cnt l ->
  Forall (fun e => is_Some (xlator e)) (entries l) ->
  exists f, only_err f /\ (forall e, err e = 0 -> existsb (is_brick (xlator e)) (decommissioned_bricks c) = false -> err (f e) = -1) /\ let es := map f (entries l) in let b := bricks (spread_cnt l) (count_if open_entry es) in
    dht_get_layout_count c l true = (with_entries l es, b) /\
    (0 < count_if open_entry es -> b <= 1024 -> exists ps, dealt es b ps /\
       dht_selfheal_layout_new_directory c children re str l = Done (with_entries l (place (layout_hash l) ps (map (set_range 0 0) es)))).
Proof.
  intros Hw Hre Hstr Hs Hx. destruct (layout_count_spec c l) as (f & Hf & Hgood & E). exists f. split; [done|]. split; [done|]. set (es := map f (entries l)) in *.
  set (b := bricks (spread_cnt l) (count_if open_entry es)) in *. cbn zeta. split; [done|]. intros Hn Hb.
  pose proof (bricks_range (spread_cnt l) (count_if open_entry es) Hs Hn) as Hbr. fold b in Hbr. destruct (equal_share_fits b ltac:(lia)) as (r & Er & Hr2 & Hrb).
  assert (Hne : es <> []) by (intros H0; rewrite H0 in Hn; unfold count_if in Hn; cbn in Hn; lia).
  unfold dht_selfheal_layout_new_directory. rewrite E, Hw. destruct (sum_sizes _ _ _ _ _ _) as [total w] eqn:Ew.
  assert (w = false) as -> by (pose proof (sum_sizes_false (dht_get_chunks_from_xl c children) b (entries (with_entries l es)) 0 0) as H; by rewrite Ew in H). cbn [andb].
  assert (Hst : exists s, dht_selfheal_layout_alloc_start re str (with_entries l es) = Done s /\ 0 <= s).
  { unfold dht_selfheal_layout_alloc_start. destruct (dht_hash_compute_done re (type (with_entries l es)) str Hre Hstr) as (h & -> & _). run. destruct h as [h|]; [|exists 0; split; [done|lia]].
    assert (Hc : 0 < cnt (with_entries l es)) by (unfold cnt; cbn; destruct es; [done|cbn; lia]).
    rewrite (proj2 (Z.eqb_neq _ 0)) by lia. eexists. split; [done|]. apply Z.mod_pos_bound. lia. }
  destruct Hst as (s & -> & Hs0). run. cbn [with_entries entries]. set (es0 := map (set_range 0 0) es). set (chunks := dht_get_chunks_from_xl c children).
  assert (Hes0 : es0 <> []) by (subst es0; by destruct es). assert (Hlen : length es0 = length es) by apply length_map.
  assert (Hopen : forall i e, es0 !! i = Some e -> exists e', es !! i = Some e' /\ open_entry e' = open_entry e /\ is_Some (xlator e)).
  { intros i e He. subst es0. rewrite list_lookup_fmap in He. destruct (es !! i) as [e'|] eqn:E'; [|done]. injection He as <-. exists e'. split; [done|]. split; [done|].
    subst es. rewrite list_lookup_fmap in E'. destruct (entries l !! i) as [e0|] eqn:E0; [|done]. injection E' as <-. cbn. destruct (Hf e0) as (_ & _ & _ & ->).
    rewrite Forall_lookup in Hx. by eapply Hx. }
  assert (Hcount : count_if open_entry es0 = count_if open_entry es) by (subst es0; rewrite count_map; reflexivity).
  set (ts := takers chunks false es0 (order s (length es0) 0 es0)). assert (Hts : Z.of_nat (length ts) = count_if open_entry es) by (rewrite <- Hcount; by apply takers_count).
  assert (Htake : length (take (Z.to_nat b) ts) = Z.to_nat b) by (rewrite length_take; lia).
  assert (Hin : Forall (fun i => exists e, es0 !! i = Some e /\ open_entry e = true) (take (Z.to_nat b) ts)).
  { apply Forall_take, Forall_forall. intros i Hi. apply takers_sub in Hi as (_ & e & He & Ho & _). by exists e. }
  assert (Hsh : mapM (share chunks false (ddiv (double_of 0xffffffff) (double_of b)) es0) (take (Z.to_nat (b - 0)) ts) = Some (replicate (Z.to_nat b) r)).
  { rewrite Z.sub_0_r, (shares_equal chunks b es0 _ r Er), Htake; [done|]. eapply Forall_impl; [exact Hin|]. intros i (e & He & _). exists e. split; [done|].
    by destruct (Hopen i e He) as (_ & _ & _ & ?). }
  exists (zip (take (Z.to_nat b) ts) (give 0 (replicate (Z.to_nat b) r))). split.
  - assert (Hgl : length (give 0 (replicate (Z.to_nat b) r)) = Z.to_nat b) by (rewrite give_length; apply length_replicate). split.
    + rewrite fst_zip by lia. eapply sublist_NoDup; [|apply sublist_take]. unfold ts, takers. assert (Hnd : NoDup (order s (length es0) 0 es0)) by (rewrite order_all by done; apply NoDup_seq).
      apply NoDup_ListNoDup, List.NoDup_filter, NoDup_ListNoDup, Hnd.
    + rewrite snd_zip by lia. apply give_spans; [lia|]. replace (Z.to_nat b) with (S (Z.to_nat (b - 1))) by lia. apply fits_replicate; [done|lia].
    + rewrite length_zip_with. lia.
    + rewrite fst_zip by lia. eapply Forall_impl; [exact Hin|]. intros i (e & He & Ho). destruct (Hopen i e He) as (e' & He' & Ho' & _). exists e'. by rewrite Ho'.
  - rewrite (assign_spec chunks false _ s b (length es0) 0 (with_entries l es0) 0 0 (replicate (Z.to_nat b) r)); cbn [entries with_entries layout_hash]; [|lia..| |done].
    + rewrite Z.sub_0_r. done.
    + unfold ts in Hts. lia.
Qed.
