(* ===== verification/DhtMkdir.v ===== *)
(** * From a new directory to a lookup

    What is written as an attribute is read back; answers to a lookup fill the
    entries of a fresh layout; [dht_selfheal_dir_xattr] writes to every subvolume
    once.  The ranges of a new directory are written to all subvolumes; a lookup
    puts the answers together, in any order, to a layout that sends every hash to
    one subvolume. *)
From stdpp Require Import sorting.
From S2P Require Import Prelude Doubles DhtHash DhtLayout DhtRanges DhtSelfheal DhtDirectory.

(** ** Bytes *)

Lemma be32_value x : let x := u32 x in
  ((Z.shiftr x 24 * 256 + Z.land (Z.shiftr x 16) 255) * 256 + Z.land (Z.shiftr x 8) 255) * 256 + Z.land x 255 = x.
Proof.
  intros y. subst y. pose proof (u32_range x) as Hx. set (y := u32 x) in *. clearbody y. change 255 with (Z.ones 8). rewrite !Z.land_ones, !Z.shiftr_div_pow2 by lia.
  change (2 ^ 24) with 16777216. change (2 ^ 16) with 65536. change (2 ^ 8) with 256.
  replace (y / 16777216) with (y / 65536 / 256) by (rewrite Z.div_div by lia; done). replace (y / 65536) with (y / 256 / 256) by (rewrite Z.div_div by lia; done).
  pose proof (Z.div_mod y 256 ltac:(lia)). pose proof (Z.div_mod (y / 256) 256 ltac:(lia)). pose proof (Z.div_mod (y / 256 / 256) 256 ltac:(lia)). lia.
Qed.

Lemma rd_at {A} (a b : list A) x p : p = Z.of_nat (length a) -> rd (a ++ x :: b) p = Some x.
Proof. intros ->. rewrite rd_lookup. rewrite lookup_app_r, Nat.sub_diag by lia. done. Qed.

Lemma rd_skip {A} (a l : list A) p k : p = Z.of_nat (length a) + Z.of_nat k -> rd (a ++ l) p = l !! k.
Proof. intros ->. rewrite <- Nat2Z.inj_add, rd_lookup, lookup_app_r by lia. f_equal. lia. Qed.

Lemma from_be32_be32 a x b p : p = Z.of_nat (length a) -> from_be32 (a ++ be32 x ++ b) p = Done (u32 x).
Proof.
  intros Hp. unfold from_be32, be32. rewrite (rd_skip a _ p 0), (rd_skip a _ (p + 1) 1), (rd_skip a _ (p + 2) 2), (rd_skip a _ (p + 3) 3) by lia.
  cbn [app lookup list_lookup]. run. f_equal. apply be32_value.
Qed.

(** The attribute with a commit hash, a type and a range. *)
Definition disk_of (h t s e : Z) : list Z := be32 h ++ be32 t ++ be32 s ++ be32 e.

Lemma disk_fields h t s e : length (disk_of h t s e) = 16%nat /\
  from_be32 (disk_of h t s e) 0 = Done (u32 h) /\ from_be32 (disk_of h t s e) 4 = Done (u32 t) /\
  from_be32 (disk_of h t s e) 8 = Done (u32 s) /\ from_be32 (disk_of h t s e) 12 = Done (u32 e).
Proof.
  split; [done|]. split; [by apply (from_be32_be32 [])|]. split; [by apply (from_be32_be32 (be32 h))|]. unfold disk_of. split.
  - rewrite (app_assoc (be32 h)). by apply (from_be32_be32 (be32 h ++ be32 t)).
  - rewrite (app_assoc (be32 h)), (app_assoc (be32 h ++ be32 t)). rewrite <- (app_nil_r (be32 e)). by apply (from_be32_be32 ((be32 h ++ be32 t) ++ be32 s)).
Qed.

(** ** Answers to a lookup *)

Lemma claim_entry_first i x e pre post : Forall (fun y => is_Some (xlator y)) pre ->
  claim_entry i x e (pre ++ zero_entry :: post) = (i + Z.of_nat (length pre), pre ++ mkentry e 0 0 0 (Some x) :: post).
Proof.
  intros H. revert i. induction H as [|y pre [z Hz] _ IH]; intros i; cbn; [by rewrite Z.add_0_r|]. rewrite Hz, IH. f_equal. lia.
Qed.

Lemma change_middle l pre y post f p : entries l = pre ++ y :: post -> p = Z.of_nat (length pre) -> change p f l = Done (with_entries l (pre ++ f y :: post)).
Proof.
  intros E ->. rewrite (change_done l (length pre) y) by (by rewrite E, lookup_app_r, Nat.sub_diag). by rewrite E, insert_app_r_alt, Nat.sub_diag by lia.
Qed.

(** A layout with its first entries filled. *)
Record filled_with (l : dht_layout) (es : list dht_layout_entry) (room : nat) : Prop := {
  fw_entries : entries l = es ++ replicate room zero_entry;
  fw_xlators : Forall (fun y => is_Some (xlator y)) es;
  fw_type : type l = DHT_HASH_TYPE_DM }.

Lemma merge_one l es room x h s e : filled_with l es (S room) -> exists l',
  dht_layout_merge l x 0 0 (Some (disk_of h DHT_HASH_TYPE_DM s e)) = Done (l', 0) /\ filled_with l' (es ++ [mkentry 0 (u32 s) (u32 e) (u32 h) (Some x)]) room.
Proof.
  intros [He Hx Ht]. unfold dht_layout_merge. rewrite He. cbn [replicate Z.eqb]. rewrite claim_entry_first by done. cbn [negb].
  destruct (disk_fields h DHT_HASH_TYPE_DM s e) as (Hlen & F0 & F4 & F8 & F12). unfold dht_disk_layout_merge. rewrite Hlen, F4. run.
  change (u32 DHT_HASH_TYPE_DM) with 0. cbn [negb Nat.eqb Z.eqb orb]. change (_ || _) with true. cbn iota. rewrite F0, F8, F12. run.
  rewrite (change_middle _ es (mkentry (-1) 0 0 0 (Some x)) (replicate room zero_entry)) by (done || lia). run.
  cbn [entries with_entries err start stop xlator commit_hash]. rewrite rd_at by lia. run.
  rewrite (change_middle _ es (mkentry (-1) (u32 s) (u32 e) (u32 h) (Some x)) (replicate room zero_entry)) by (done || lia). run. eexists. split; [done|].
  split; cbn; [by rewrite <- app_assoc|apply Forall_app; split; [done|]; repeat constructor; by exists x|done].
Qed.

(** What a subvolume has on disk. *)
Record on_disk : Set := mkdisk { dk_subvol : Z; dk_hash : Z; dk_start : Z; dk_stop : Z }.

Definition disk_entry (d : on_disk) : dht_layout_entry := mkentry 0 (u32 (dk_start d)) (u32 (dk_stop d)) (u32 (dk_hash d)) (Some (dk_subvol d)).
Definition disk_write (d : on_disk) : Z * list Z := (dk_subvol d, disk_of (dk_hash d) DHT_HASH_TYPE_DM (dk_start d) (dk_stop d)).

(** The answers of all subvolumes, one after the other. *)
Fixpoint merge_all (l : dht_layout) (answers : list (Z * list Z)) : outcome dht_layout :=
  match answers with [] => Done l | (x, raw) :: answers => '(l, _) ← dht_layout_merge l x 0 0 (Some raw); merge_all l answers end.

Lemma merge_all_filled ds : forall l es, filled_with l es (length ds) ->
  exists l', merge_all l (disk_write <$> ds) = Done l' /\ filled_with l' (es ++ (disk_entry <$> ds)) 0.
Proof.
  induction ds as [|d ds IH]; intros l es Hl; [exists l; by rewrite app_nil_r|]. cbn [merge_all fmap list_fmap disk_write]. cbn [length] in Hl.
  destruct (merge_one l es (length ds) (dk_subvol d) (dk_hash d) (dk_start d) (dk_stop d) Hl) as (l1 & -> & H1). run.
  destruct (IH l1 _ H1) as (l' & E & H'). exists l'. split; [exact E|]. by rewrite <- app_assoc in H'.
Qed.

(** ** Writing the attributes *)

Lemma strcmp_zero a b : Forall (Z.lt 0) a -> Forall (Z.lt 0) b -> strcmp a b = 0 <-> a = b.
Proof.
  intros Ha. revert b. induction Ha as [|x a Hx Ha IH]; intros b Hb; (destruct Hb as [|y b Hy Hb]; cbn; [split; [try lia; done|try done; lia]|]).
  - split; [lia|done].
  - destruct (Z.eqb_spec x y) as [->|Hne]; [rewrite IH by done; split; congruence|]. split; [lia|congruence].
Qed.

Section Writes.
Context (c : dht_conf) (volname : Z -> list Z).
Hypothesis volname_inj : forall x y, volname x = volname y -> x = y.
Hypothesis volname_bytes : forall x, Forall (Z.lt 0) (volname x).

(** Does the subvolume take part? *)
Definition taking (es : list dht_layout_entry) (x : Z) : bool := existsb (fun e => bool_decide (xlator e = Some x) && negb (start e =? stop e)) es.

Lemma taking_none es x : Some x ∉ xlator <$> es -> taking es x = false.
Proof.
  induction es as [|e es IH]; [done|]. cbn. rewrite not_elem_of_cons. intros [Hne Hx]. rewrite bool_decide_eq_false_2 by congruence. cbn. by apply IH.
Qed.

Lemma in_layout_taking es x : Forall (fun e => is_Some (xlator e)) es -> NoDup (xlator <$> es) -> in_layout volname (volname x) es = Done (taking es x).
Proof.
  intros Hs. induction Hs as [|e es [z Hz] _ IH]; cbn; intros Hnd; [done|]. inversion Hnd as [|? ? Hni Hnd']; subst. unfold name_of. rewrite Hz. run.
  destruct (Z.eqb_spec (strcmp (volname z) (volname x)) 0) as [E|E].
  - rewrite strcmp_zero in E by done. apply volname_inj in E as ->. rewrite bool_decide_eq_true_2 by done. cbn. rewrite Hz in Hni. fold (taking es x). by rewrite taking_none, orb_false_r.
  - rewrite bool_decide_eq_false_2; [by apply IH|]. intros [= ->]. apply E. by apply strcmp_zero.
Qed.

Context (l : dht_layout) (Hs : Forall (fun e => is_Some (xlator e)) (entries l)) (Hnd : NoDup (xlator <$> entries l)).

Lemma count_outside_spec xs : count_outside volname xs l = Done (count_if (fun x => negb (taking (entries l) x)) xs).
Proof.
  induction xs as [|x xs IH]; [done|]. cbn. unfold dht_is_subvol_in_layout. rewrite in_layout_taking by done. run. rewrite IH. run. unfold count_if. cbn.
  destruct (taking (entries l) x); cbn; [done|]. f_equal. lia.
Qed.

Definition entry_write (e : dht_layout_entry) : Z * list Z := (default 0 (xlator e), disk_of (commit_hash e) (type l) (start e) (stop e)).

Lemma persubvol_done i e : entries l !! i = Some e -> dht_selfheal_dir_xattr_persubvol l (Z.of_nat i) None = Done (entry_write e).
Proof.
  intros He. unfold dht_selfheal_dir_xattr_persubvol, dht_disk_layout_extract. cbn [alloc]. rewrite rd_lookup, He. run.
  pose proof (proj1 (Forall_lookup _ _) Hs i e He) as [x Hx]. rewrite Hx. run. unfold entry_write. by rewrite Hx.
Qed.

Lemma write_ranges_spec n : forall i m, (i + n = length (entries l))%nat -> count_if needs_xattr (drop i (entries l)) <= m -> 0 < m ->
  write_ranges n (Z.of_nat i) l m = Done (entry_write <$> List.filter needs_xattr (drop i (entries l)), m - count_if needs_xattr (drop i (entries l))).
Proof.
  induction n as [|n IH]; intros i m Hi Hc Hm; cbn [write_ranges].
  { rewrite drop_ge by lia. unfold count_if. cbn. by rewrite Z.sub_0_r. }
  destruct (entries l !! i) as [e|] eqn:He; [|apply lookup_ge_None in He; lia]. rewrite rd_lookup, He. run.
  rewrite (drop_S _ e i He) in Hc |- *. unfold count_if in *. cbn [List.filter] in *. destruct (needs_xattr e); cbn [negb length fmap list_fmap] in *.
  - rewrite (persubvol_done i e He). run. destruct (Z.eqb_spec (m - 1) 0) as [E|E].
    + assert (Hnil : List.filter needs_xattr (drop (S i) (entries l)) = []) by (apply nil_length_inv; lia). rewrite Hnil. cbn. do 2 f_equal. lia.
    + replace (Z.of_nat i + 1) with (Z.of_nat (S i)) by lia. rewrite IH by lia. run. do 2 f_equal. lia.
  - replace (Z.of_nat i + 1) with (Z.of_nat (S i)) by lia. apply IH; lia.
Qed.

(** The range of a subvolume that does not take part. *)
Definition zero_write (x : Z) : Z * list Z := (x, disk_of 0 DHT_HASH_TYPE_DM 0 0).

Lemma write_zeros_spec dummy xs m : dht_selfheal_dir_xattr_persubvol dummy 0 (Some 0) = Done (zero_write 0) -> count_if (fun x => negb (taking (entries l) x)) xs <= m ->
  write_zeros volname xs l dummy m = Done (zero_write <$> List.filter (fun x => negb (taking (entries l) x)) xs).
Proof.
  intros Hd. revert m. induction xs as [|x xs IH]; intros m Hc; cbn [write_zeros]; [done|]. unfold count_if in *. cbn [List.filter] in *. destruct (Z.eqb_spec m 0) as [->|Hm].
  - destruct (negb (taking (entries l) x)); cbn [length] in Hc; [lia|].
    assert (Hnil : List.filter (fun x => negb (taking (entries l) x)) xs = []) by (apply nil_length_inv; lia). by rewrite Hnil.
  - unfold dht_is_subvol_in_layout. rewrite in_layout_taking by done. run. destruct (taking (entries l) x); cbn [negb length fmap list_fmap] in *; [by apply IH|].
    replace (dht_selfheal_dir_xattr_persubvol dummy 0 (Some x)) with (Done (zero_write x)); [run; rewrite IH by lia; done|].
    clear - Hd. unfold dht_selfheal_dir_xattr_persubvol in *. revert Hd. run. destruct (dht_disk_layout_extract dummy 0 []) as [[[d|] m]| |]; run; [|done..]. by intros [= ->].
Qed.

Lemma dir_xattr_spec : dht_selfheal_dir_xattr c volname l [] =
  Done ((entry_write <$> List.filter needs_xattr (entries l)) ++ (zero_write <$> List.filter (fun x => negb (taking (entries l) x)) (subvolumes c))).
Proof.
  unfold dht_selfheal_dir_xattr. rewrite count_outside_spec. run. set (n := count_if needs_xattr (entries l)). set (o := count_if _ (subvolumes c)).
  assert (0 <= n /\ 0 <= o) by (unfold n, o, count_if; lia). destruct (Z.eqb_spec (n + o) 0) as [E|E].
  - assert (Hn : List.filter needs_xattr (entries l) = []) by (apply nil_length_inv; unfold n, count_if in *; lia).
    assert (Ho : List.filter (fun x => negb (taking (entries l) x)) (subvolumes c) = []) by (apply nil_length_inv; unfold o, count_if in *; lia). by rewrite Hn, Ho.
  - rewrite (write_ranges_spec (length (entries l)) 0) by (rewrite ?drop_0; fold n; lia). run. rewrite drop_0. fold n.
    change (dht_layout_new (Some c) 1 []).1 with (Some (mkdht (dir_spread_cnt c) false 0 (conf_gen c) DHT_HASH_TYPE_DM 1 [zero_entry])). cbn iota.
    rewrite write_zeros_spec; [done|done|]. fold o. lia.
Qed.
End Writes.

(** ** Ranges once around *)

Definition range_of (e : dht_layout_entry) : Z * Z := (start e, stop e).

Lemma spans_linked qs : forall b p, 0 <= b -> spans b (range_of <$> qs) -> p + 1 = b \/ p = 2 ^ 32 - 1 /\ b = 0 ->
  Forall range_ok qs /\ StronglySorted follows qs /\ linked p qs (2 ^ 32 - 1) /\ Forall (fun e => b <= start e < stop e) qs.
Proof.
  induction qs as [|e qs IH]; intros b p Hb; cbn [fmap list_fmap spans range_of linked]; [intros -> Hp; repeat split; try constructor; lia|]. intros (Es & Ht & Hs) Hp.
  destruct (IH (stop e + 1) (stop e) ltac:(lia) Hs ltac:(lia)) as (H1 & H2 & H3 & H4). split; [constructor; [unfold range_ok; lia|done]|].
  split; [constructor; [done|]; eapply Forall_impl; [exact H4|]; unfold follows; cbn; lia|]. split; [split; [|done]|].
  - rewrite Es. destruct Hp as [Hp|[-> ->]]; [rewrite Hp, u32_small; lia|done].
  - constructor; [lia|]. eapply Forall_impl; [exact H4|]. cbn. lia.
Qed.

(** ** The entries with a range *)

(** The entry that a place makes. *)
Definition given (h : Z) (es : list dht_layout_entry) (p : nat * (Z * Z)) : dht_layout_entry :=
  let e := default zero_entry (es !! p.1) in mkentry (err e) p.2.1 p.2.2 h (xlator e).

Lemma filter_alter {A} (p : A -> bool) f i (es : list A) e : es !! i = Some e -> p e = false -> p (f e) = true ->
  List.filter p (alter f i es) ≡ₚ f e :: List.filter p es.
Proof.
  revert i. induction es as [|x es IH]; intros [|i] He Hp Hf; [done|done|injection He as ->; cbn; by rewrite Hf, Hp|]. cbn in *.
  destruct (p x); [|by apply IH]. rewrite (IH i He Hp Hf). apply Permutation_swap.
Qed.

Lemma filter_place h ps es : NoDup (ps.*1) -> Forall (fun i => exists e, es !! i = Some e /\ needs_xattr e = false /\ err e = -1) (ps.*1) -> Forall (fun p => p.2.2 <> 0) ps ->
  List.filter needs_xattr (place h ps es) ≡ₚ (given h es <$> ps) ++ List.filter needs_xattr es.
Proof.
  revert es. induction ps as [|[i [s t]] ps IH]; intros es Hnd Hin Ht; [done|]. cbn [place fmap list_fmap]. inversion Hnd as [|? ? Hi Hnd']; subst. inversion Hin as [|? ? (e & He & Hn & Her) Hin']; subst.
  inversion Ht as [|? ? Ht0 Ht']; subst. set (f := fun e0 : dht_layout_entry => mkentry (err e0) s t h (xlator e0)). cbn in Hi, He, Ht0.
  assert (Hother : forall j, j ∈ ps.*1 -> alter f i es !! j = es !! j) by (intros j Hj; apply list_lookup_alter_ne; by intros ->).
  rewrite IH; [|done| |done].
  - assert (Hg : given h (alter f i es) <$> ps = given h es <$> ps).
    { apply list_fmap_ext. intros k p Hk. unfold given. rewrite Hother; [done|]. apply list_elem_of_fmap. exists p. split; [done|]. by eapply list_elem_of_lookup_2. }
    rewrite Hg, (filter_alter needs_xattr f i es e He Hn).
    + rewrite <- Permutation_middle. cbn [app]. replace (given h es (i, (s, t))) with (f e); [done|]. unfold given. cbn. by rewrite He.
    + unfold needs_xattr, f. cbn. rewrite Her. by rewrite (proj2 (Z.eqb_neq t 0)) by lia.
  - rewrite Forall_forall in Hin' |- *. intros j Hj. rewrite Hother by done. auto.
Qed.

(** ** The disks *)

Definition subvol_of (e : dht_layout_entry) : Z := default 0 (xlator e).
Definition disk_range (e : dht_layout_entry) : on_disk := mkdisk (subvol_of e) (commit_hash e) (start e) (stop e).
Definition disk_zero (e : dht_layout_entry) : on_disk := mkdisk (subvol_of e) 0 0 0.

Lemma filter_perm {A} (p : A -> bool) l l' : l ≡ₚ l' -> List.filter p l ≡ₚ List.filter p l'.
Proof.
  induction 1 as [|x l l' _ IH|x y l|l l' l'' _ IH1 _ IH2]; cbn; [done| | |by etrans].
  - destruct (p x); [by constructor|done].
  - destruct (p x), (p y); try done. apply Permutation_swap.
Qed.

Lemma filter_map {A B} (p : B -> bool) (f : A -> B) l : List.filter p (f <$> l) = f <$> List.filter (fun x => p (f x)) l.
Proof. induction l as [|x l IH]; cbn; [done|]. destruct (p (f x)); cbn; by rewrite IH. Qed.

Lemma filter_split {A} (p : A -> bool) l : List.filter p l ++ List.filter (fun x => negb (p x)) l ≡ₚ l.
Proof. induction l as [|x l IH]; cbn; [done|]. destruct (p x); cbn; [by rewrite IH|]. by rewrite <- Permutation_middle, IH. Qed.

(** An entry takes part just when it is written with its range. *)
Lemma taking_needs es e : Forall (fun e => err e = -1 /\ (start e < stop e /\ 0 <= start e \/ no_range e)) es -> NoDup (xlator <$> es) -> Forall (fun e => is_Some (xlator e)) es -> e ∈ es ->
  taking es (subvol_of e) = needs_xattr e.
Proof.
  intros Hr Hnd Hx He. assert (Hn : forall e, e ∈ es -> needs_xattr e = negb (start e =? stop e)).
  { intros x Hin. rewrite Forall_forall in Hr. destruct (Hr x Hin) as [E Hc]. unfold needs_xattr, no_range in *. rewrite E. cbn.
    destruct (Z.eqb_spec (stop x) 0), (Z.eqb_spec (start x) (stop x)); cbn; (done || lia). }
  clear Hr. induction es as [|x es IH]; [by apply elem_of_nil in He|]. inversion Hnd as [|? ? Hni Hnd']; subst. inversion Hx as [|? ? [z Hz] Hx']; subst. cbn.
  apply elem_of_cons in He as [->|He].
  - unfold subvol_of. rewrite Hz. cbn. rewrite bool_decide_eq_true_2 by done. cbn. fold (taking es z). rewrite taking_none by (by rewrite Hz in Hni). rewrite orb_false_r.
    symmetry. apply Hn. by constructor.
  - assert (Hne : xlator x <> Some (subvol_of e)).
    { rewrite Forall_forall in Hx'. destruct (Hx' e He) as [y Hy]. unfold subvol_of. rewrite Hy. cbn. intros E. apply Hni. rewrite E, <- Hy. by apply list_elem_of_fmap_2. }
    rewrite bool_decide_eq_false_2 by done. cbn. apply IH; [done|done|done|]. intros y Hy. apply Hn. by constructor.
Qed.

(** ** A new directory *)

Lemma place_keep {B} (g : dht_layout_entry -> B) h ps es : (forall e s t, g (mkentry (err e) s t h (xlator e)) = g e) -> g <$> place h ps es = g <$> es.
Proof.
  intros Hg. revert es. induction ps as [|[i [s t]] ps IH]; intros es; cbn; [done|]. rewrite IH. apply list_eq. intros j. rewrite !list_lookup_fmap, list_lookup_alter.
  case_decide as E; [subst j|done]. destruct (es !! i) as [e|]; [|done]. cbn. by rewrite Hg.
Qed.

Lemma spans_each b rs : 0 <= b -> spans b rs -> Forall (fun p => 0 <= p.1 < p.2 /\ p.2 < 2 ^ 32) rs.
Proof.
  revert b. induction rs as [|[s t] rs IH]; intros b Hb; cbn; [constructor|]. intros (-> & Ht & H). constructor; [cbn; lia|]. eapply IH; [|exact H]. lia.
Qed.

(** The entries after the ranges were given. *)
Lemma place_entries h ps es : NoDup (ps.*1) -> spans 0 (ps.*2) -> Forall (fun i => exists e, es !! i = Some e) (ps.*1) -> Forall (fun e => err e = -1 /\ no_range e) es ->
  Forall (fun e => err e = -1 /\ (start e < stop e /\ 0 <= start e \/ no_range e)) (place h ps es).
Proof.
  intros Hnd Hsp Hin Hes. apply Forall_lookup. intros i e He. destruct (decide (i ∈ ps.*1)) as [Hi|Hi].
  - apply list_elem_of_fmap in Hi as ([j [s t]] & -> & Hp). cbn in He.
    assert (Hj : j ∈ ps.*1) by (apply list_elem_of_fmap; by exists (j, (s, t))). destruct (proj1 (Forall_forall _ _) Hin j Hj) as [e0 He0].
    rewrite (place_assigned h ps es j s t e0 Hnd Hp He0) in He. injection He as <-. cbn. split; [by destruct (proj1 (Forall_lookup _ _) Hes j e0 He0)|]. left.
    pose proof (spans_each 0 _ ltac:(lia) Hsp) as Hs. rewrite Forall_forall in Hs. specialize (Hs (s, t)). cbn in Hs. lapply Hs; [lia|]. apply list_elem_of_fmap. by exists (j, (s, t)).
  - rewrite place_other in He by done. destruct (proj1 (Forall_lookup _ _) Hes i e He). auto.
Qed.

Record new_directory_pre (c : dht_conf) (l : dht_layout) : Prop := {
  nd_subvols : NoDup (subvolumes c);
  nd_count : (1 <= length (subvolumes c) <= 1024)%nat;
  nd_bricks : Forall (fun b => b = None) (decommissioned_bricks c);
  nd_weighting : do_weighting c = false;
  nd_xlators : xlator <$> entries l ≡ₚ Some <$> subvolumes c;
  nd_errs : Forall (fun e => err e = 0) (entries l);
  nd_type : type l = DHT_HASH_TYPE_DM;
  nd_spread : 0 <= spread_cnt l }.

Section Mkdir.
Context (c : dht_conf) (children : list Z) (re : regexes) (volname : Z -> list Z) (str : list Z).
Hypothesis volname_inj : forall x y, volname x = volname y -> x = y.
Hypothesis volname_bytes : forall x, Forall (Z.lt 0) (volname x).
Hypothesis re_ok : regexes_ok re.
Hypothesis str_short : Z.of_nat (length str) < 2 ^ 31 - 1.

Lemma sort_volname_done l : Forall (fun e => is_Some (xlator e)) (entries l) ->
  dht_layout_sort_volname volname l = Done (with_entries l (qsort (dht_layout_entry_cmp_volname volname) (entries l))).
Proof.
  intros H. unfold dht_layout_sort_volname. replace (existsb _ (entries l)) with false; [by rewrite andb_false_r|]. symmetry.
  induction H as [|e es He _ IH]; [done|]. cbn. rewrite bool_decide_eq_true_2 by done. by rewrite IH.
Qed.

(** The ranges are given to the entries, which keep their subvolumes. *)
Lemma mkdir_ranges l : new_directory_pre c l -> exists l' es ps, dht_selfheal_new_directory c children re volname str l = Done l' /\
  type l' = DHT_HASH_TYPE_DM /\ entries l' = place (layout_hash l) ps es /\ xlator <$> es ≡ₚ Some <$> subvolumes c /\ Forall (fun e => err e = -1 /\ no_range e) es /\
  NoDup (ps.*1) /\ spans 0 (ps.*2) /\ Forall (fun i => exists e, es !! i = Some e) (ps.*1) /\
  Z.of_nat (length ps) = bricks (spread_cnt l) (Z.of_nat (length (subvolumes c))).
Proof.
  intros [Hnd Hcnt Hbr Hw Hx Herr Hty Hsp]. assert (Hsome : Forall (fun e => is_Some (xlator e)) (entries l)).
  { apply (Forall_fmap xlator is_Some). rewrite Hx. apply Forall_fmap, Forall_forall. intros x _. by eexists. }
  assert (Hlen : length (entries l) = length (subvolumes c)) by (apply Permutation_length in Hx; by rewrite !length_fmap in Hx).
  unfold dht_selfheal_new_directory. rewrite sort_volname_done by done. run. set (es1 := qsort _ (entries l)). assert (Hp : es1 ≡ₚ entries l) by apply qsort_perm.
  rewrite <- Hp in Hsome, Hx, Herr, Hlen. destruct (new_directory_spec c children re str (with_entries l es1) Hw re_ok str_short Hsp Hsome) as (f & Hf & Hgood & E & H).
  cbn [entries with_entries spread_cnt layout_hash] in *. set (es := map f es1) in *.
  assert (Hes : Forall (fun e => err e = -1) es).
  { apply (Forall_fmap f (fun e => err e = -1)). eapply Forall_impl; [exact Herr|]. intros e He. cbn. apply Hgood; [done|]. clear - Hbr. induction Hbr as [|b bs -> _ IH]; [done|]. exact IH. }
  assert (Hcount : count_if open_entry es = Z.of_nat (length (subvolumes c))).
  { rewrite <- Hlen. unfold count_if. replace (length es1) with (length es) by apply length_map. f_equal. f_equal. clear - Hes. induction Hes as [|e es He _ IH]; [done|]. cbn.
    unfold open_entry at 1. rewrite He. cbn. by rewrite IH. }
  rewrite Hcount in H. destruct H as (ps & [D1 D2 D3 D4] & E'); [lia|pose proof (bricks_range (spread_cnt l) (Z.of_nat (length (subvolumes c)))); lia|].
  rewrite E'. eexists _, (map (set_range 0 0) es), ps. split; [done|]. split; [done|]. split; [done|]. split.
  - rewrite <- Hx. replace (xlator <$> map (set_range 0 0) es) with (xlator <$> es1); [done|]. unfold es. rewrite <- !list_fmap_compose. apply list_fmap_ext.
    intros i e _. cbn. by destruct (Hf e) as (_ & _ & _ & ->).
  - split; [apply (Forall_fmap (set_range 0 0) (fun e => err e = -1 /\ no_range e)); eapply Forall_impl; [exact Hes|]; done|]. split; [done|]. split; [done|]. split; [|done].
    eapply Forall_impl; [exact D4|]. intros i (e & He & _). exists (set_range 0 0 e). by rewrite list_lookup_fmap, He.
Qed.

(** Every subvolume is written once: with its range, or with none. *)
Lemma mkdir_disks l : new_directory_pre c l -> exists l' ds qs zs, dht_selfheal_new_directory c children re volname str l = Done l' /\
  dht_selfheal_dir_xattr c volname l' [] = Done (disk_write <$> ds) /\ dk_subvol <$> ds ≡ₚ subvolumes c /\
  disk_entry <$> ds ≡ₚ qs ++ zs /\ spans 0 (range_of <$> qs) /\ Forall (fun e => err e = 0) qs /\ Forall (fun e => err e = 0 /\ no_range e) zs /\
  Z.of_nat (length qs) = bricks (spread_cnt l) (Z.of_nat (length (subvolumes c))).
Proof.
  intros Hpre. destruct (mkdir_ranges l Hpre) as (l' & es & ps & E & Hty & Hes' & Hx & Hes & Hnd & Hsp & Hin & Hlen). exists l'.
  set (es' := place (layout_hash l) ps es) in *. assert (Hx' : xlator <$> es' = xlator <$> es) by (by apply place_keep).
  assert (Hxnd : NoDup (xlator <$> es')) by (rewrite Hx', Hx; apply NoDup_fmap; [apply _|apply Hpre]).
  assert (Hsome : Forall (fun e => is_Some (xlator e)) es').
  { apply (Forall_fmap xlator is_Some). rewrite Hx', Hx. apply Forall_fmap, Forall_forall. intros x _. by eexists. }
  pose proof (place_entries (layout_hash l) ps es Hnd Hsp Hin Hes) as Hall. fold es' in Hall.
  assert (Hsub : subvolumes c ≡ₚ subvol_of <$> es').
  { assert (H : default 0 <$> (xlator <$> es') ≡ₚ default 0 <$> (Some <$> subvolumes c)) by (by rewrite Hx', Hx). rewrite <- !list_fmap_compose in H.
    etrans; [|symmetry; exact H]. replace ((default 0 ∘ Some) <$> subvolumes c) with (subvolumes c); [done|]. symmetry. apply list_fmap_id. }
  assert (Hout : List.filter (fun x => negb (taking es' x)) (subvolumes c) ≡ₚ subvol_of <$> List.filter (fun e => negb (needs_xattr e)) es').
  { rewrite (filter_perm _ _ _ Hsub), filter_map. replace (List.filter (fun e => negb (taking es' (subvol_of e))) es') with (List.filter (fun e => negb (needs_xattr e)) es'); [done|].
    apply List.filter_ext_in. intros e He. apply list_elem_of_In in He. by rewrite taking_needs. }
  set (out := List.filter (fun x => negb (taking es' x)) (subvolumes c)) in *.
  exists ((disk_range <$> List.filter needs_xattr es') ++ ((fun x => mkdisk x 0 0 0) <$> out)).
  assert (Hneeds : List.filter needs_xattr es' ≡ₚ given (layout_hash l) es <$> ps).
  { unfold es'. rewrite filter_place; [|done| |].
    - replace (List.filter needs_xattr es) with (@nil dht_layout_entry); [by rewrite app_nil_r|]. symmetry. clear - Hes. induction Hes as [|e es [He [H1 H2]] _ IH]; [done|]. cbn.
      unfold needs_xattr at 1. rewrite He, H2. done.
    - eapply Forall_impl; [exact Hin|]. intros i [e He]. exists e. destruct (proj1 (Forall_lookup _ _) Hes i e He) as [H1 [H2 H3]]. unfold needs_xattr. rewrite H1, H3. done.
    - pose proof (spans_each 0 _ ltac:(lia) Hsp) as Hs. apply (Forall_fmap snd) in Hs. eapply Forall_impl; [exact Hs|]. cbn. intros p. lia. }
  pose proof (spans_each 0 _ ltac:(lia) Hsp) as Hbnd. apply (Forall_fmap snd) in Hbnd. rewrite Forall_lookup in Hbnd.
  exists ((fun p => disk_entry (disk_range (given (layout_hash l) es p))) <$> ps), ((fun x => disk_entry (mkdisk x 0 0 0)) <$> out). split; [done|]. split; [|split; [|split; [|split; [|split; [|split]]]]].
  - rewrite dir_xattr_spec by (rewrite ?Hes'; done). rewrite Hes'. fold out. rewrite fmap_app, <- !list_fmap_compose. do 2 f_equal. apply list_fmap_ext. intros i e _. cbn.
    unfold entry_write, disk_write. cbn. by rewrite Hty.
  - rewrite fmap_app, <- !list_fmap_compose. etrans; [|symmetry; exact Hsub]. rewrite <- (filter_split needs_xattr es') at 2. rewrite fmap_app, <- Hout.
    apply Permutation_app; [done|]. by rewrite (list_fmap_id out) || (change (dk_subvol ∘ (fun x => mkdisk x 0 0 0)) with (fun x : Z => x); by rewrite list_fmap_id).
  - rewrite fmap_app, <- !list_fmap_compose. apply Permutation_app; [|done]. rewrite Hneeds. by rewrite <- list_fmap_compose.
  - rewrite <- list_fmap_compose. replace (_ <$> ps) with (ps.*2); [done|]. apply list_fmap_ext. intros i p Hi. cbn. unfold range_of. cbn.
    pose proof (Hbnd i p Hi) as Hb. cbn in Hb. rewrite !u32_small by lia. by destruct p as [? [? ?]].
  - apply Forall_fmap, Forall_forall. done.
  - apply Forall_fmap, Forall_forall. intros x _. done.
  - by rewrite length_fmap.
Qed.
End Mkdir.
