(* ===== verification/DhtOverlap.v ===== *)
(** * Ranges that stay where they are

    [dht_selfheal_layout_maximize_overlap] only exchanges ranges, and never makes
    the number of hashes that keep their subvolume smaller. *)
From stdpp Require Import sorting.
From S2P Require Import Prelude Doubles DhtHash DhtLayout DhtRanges DhtSelfheal DhtDirectory DhtMkdir.

(** ** Loops *)

Lemma loop_ind {S} (P : Z -> S -> Prop) n i f (s : S) : P i s ->
  (forall k s, i <= k < i + Z.of_nat n -> P k s -> exists s', f k s = Done s' /\ P (k + 1) s') ->
  exists s', loop n i f s = Done s' /\ P (i + Z.of_nat n) s'.
Proof.
  revert i s. induction n as [|n IH]; intros i s H0 Hf; [exists s; by rewrite Z.add_0_r|]. cbn [loop].
  destruct (Hf i s ltac:(lia) H0) as (s1 & -> & H1). run. destruct (IH (i + 1) s1 H1) as (s' & E & H').
  - intros k s2 Hk. apply Hf. lia.
  - exists s'. split; [done|]. by replace (i + Z.of_nat (Datatypes.S n)) with (i + 1 + Z.of_nat n) by lia.
Qed.

(** ** Overlaps *)

(** The hashes that two entries share, as [dht_overlap_calc] counts them. *)
Definition overlap (a b : dht_layout_entry) : Z :=
  if (0 <? err a) || (0 <? err b) then 0
  else if start a =? stop a then 0
  else if start b =? stop b then 0
  else if (stop b <? start a) || (stop a <? start b) then 0
  else u32 (Z.min (stop a) (stop b) - Z.max (start a) (start b) + 1).

Lemma overlap_calc_done old o new n a b : entries old !! o = Some a -> entries new !! n = Some b ->
  dht_overlap_calc old (Z.of_nat o) new (Z.of_nat n) = Done (overlap a b).
Proof.
  intros Ha Hb. pose proof (lookup_lt_Some _ _ _ Ha). pose proof (lookup_lt_Some _ _ _ Hb). unfold dht_overlap_calc, cnt.
  rewrite (proj2 (Z.leb_gt _ _)), (proj2 (Z.leb_gt _ _)) by lia. cbn [orb]. by rewrite !rd_lookup, Ha, Hb.
Qed.

Lemma overlap_bounds a b : range_ok a -> range_ok b -> 0 <= overlap a b <= stop b - start b + 1.
Proof.
  unfold range_ok, overlap. intros Ha Hb. destruct (_ || _); [lia|]. destruct (_ =? _); [lia|]. destruct (_ =? _); [lia|].
  destruct (Z.ltb_spec (stop b) (start a)); cbn [orb]; [lia|]. destruct (Z.ltb_spec (stop a) (start b)); [lia|].
  set (x := Z.min (stop a) (stop b) - Z.max (start a) (start b) + 1). assert (Hx : 0 < x <= stop b - start b + 1 /\ x <= 2 ^ 32) by lia.
  destruct (decide (x = 2 ^ 32)) as [->|]; [unfold u32; rewrite Z.mod_same by lia; lia|]. rewrite u32_small by lia. lia.
Qed.

(** The error of the new entry only says whether it counts. *)
Lemma overlap_ranges a b b' : start b = start b' -> stop b = stop b' -> err b <= 0 -> err b' <= 0 -> overlap a b = overlap a b'.
Proof.
  unfold overlap. intros -> -> H1 H2. by rewrite (proj2 (Z.ltb_ge 0 (err b))), (proj2 (Z.ltb_ge 0 (err b'))) by lia.
Qed.

(** Hashes that keep their subvolume: those that an old and a new entry of the
    same subvolume share. *)
Definition kept (os ns : list dht_layout_entry) : Z :=
  foldr (fun b s => foldr (fun a s => (if decide (xlator a = xlator b) then overlap a b else 0) + s) 0 os + s) 0 ns.

Lemma kept_perm os os' ns : os ≡ₚ os' -> kept os ns = kept os' ns.
Proof.
  intros Hp. induction ns as [|b ns IH]; [done|]. unfold kept in *. cbn. rewrite IH. f_equal. clear IH.
  induction Hp as [|x l l' _ IH|x y l|l1 l2 l3 _ IH1 _ IH2]; cbn; lia.
Qed.

(** The same for entries at the same places. *)
Fixpoint kept_at (os ns : list dht_layout_entry) : Z :=
  match os, ns with a :: os, b :: ns => overlap a b + kept_at os ns | _, _ => 0 end.

Lemma kept_at_insert os ns i a b b' : os !! i = Some a -> ns !! i = Some b -> kept_at os (<[i := b']> ns) = kept_at os ns - overlap a b + overlap a b'.
Proof.
  revert os i. induction ns as [|x ns IH]; intros [|y os] [|i] Ha Hb; try done.
  - injection Ha as <-. injection Hb as <-. cbn. lia.
  - cbn in Ha, Hb. change (overlap y x + kept_at os (<[i := b']> ns) = overlap y x + kept_at os ns - overlap a b + overlap a b'). rewrite (IH os i Ha Hb). lia.
Qed.

Lemma kept_absent os b : xlator b ∉ xlator <$> os -> foldr (fun a s => (if decide (xlator a = xlator b) then overlap a b else 0) + s) 0 os = 0.
Proof.
  induction os as [|a os IH]; [done|]. rewrite fmap_cons, not_elem_of_cons. intros [Ha Hos]. cbn. rewrite decide_False by done. by rewrite IH.
Qed.

Lemma kept_aligned os ns : xlator <$> os = xlator <$> ns -> NoDup (xlator <$> ns) -> kept os ns = kept_at os ns.
Proof.
  revert os. induction ns as [|b ns IH]; intros [|a os] E Hnd; try done. rewrite !fmap_cons in E. injection E as Ea E. rewrite fmap_cons in Hnd. apply NoDup_cons in Hnd as [Hb Hnd].
  cbn [kept_at]. rewrite <- (IH os E Hnd). unfold kept. cbn. rewrite decide_True by done. rewrite kept_absent by (by rewrite E).
  assert (H : forall ns', Forall (fun x => xlator x <> xlator a) ns' ->
    foldr (fun b s => (if decide (xlator a = xlator b) then overlap a b else 0) + foldr (fun a s => (if decide (xlator a = xlator b) then overlap a b else 0) + s) 0 os + s) 0 ns' =
    foldr (fun b s => foldr (fun a s => (if decide (xlator a = xlator b) then overlap a b else 0) + s) 0 os + s) 0 ns').
  { induction 1 as [|x l Hx _ IH']; [done|]. cbn. rewrite IH'. by rewrite decide_False by congruence. }
  rewrite H; [lia|]. apply Forall_forall. intros x Hx Exa. apply Hb. rewrite <- Ea, <- Exa. by apply list_elem_of_fmap_2.
Qed.

(** ** The order of names *)

Lemma strcmp_swap a b : strcmp b a = - strcmp a b.
Proof. revert b. induction a as [|x a IH]; intros [|y b]; cbn; [done|lia|lia|]. rewrite (Z.eqb_sym y x). destruct (Z.eqb_spec x y); [apply IH|lia]. Qed.

Lemma strcmp_trans a b c : Forall (Z.lt 0) a -> Forall (Z.lt 0) b -> Forall (Z.lt 0) c -> strcmp a b <= 0 -> strcmp b c <= 0 -> strcmp a c <= 0.
Proof.
  intros Ha. revert b c. induction Ha as [|x a Hx Ha IH]; intros b c Hb Hc; destruct Hb as [|y b Hy Hb], Hc as [|z c Hz Hc]; cbn; try lia.
  destruct (Z.eqb_spec x y), (Z.eqb_spec y z), (Z.eqb_spec x z); try lia. apply IH; done.
Qed.

Section Names.
Context (volname : Z -> list Z).
Hypothesis volname_inj : forall x y, volname x = volname y -> x = y.
Hypothesis volname_bytes : forall x, Forall (Z.lt 0) (volname x).

#[local] Instance volname_orders : Orders (fun e => is_Some (xlator e)) (dht_layout_entry_cmp_volname volname).
Proof.
  unfold dht_layout_entry_cmp_volname. split.
  - intros a b [x ->] [y ->] H. rewrite strcmp_swap. lia.
  - intros a b c [x ->] [y ->] [z ->]. by apply strcmp_trans.
Qed.

Definition name_le (x y : option Z) : Prop := match x, y with Some a, Some b => strcmp (volname a) (volname b) <= 0 | _, _ => True end.

(** Entries in the order of their names. *)
Definition by_name (es : list dht_layout_entry) : Prop := StronglySorted (fun a b => dht_layout_entry_cmp_volname volname a b <= 0) es.

Lemma by_name_xlators es : by_name es -> StronglySorted name_le (xlator <$> es).
Proof.
  induction 1 as [|a es _ IH Hf]; [constructor|]. rewrite fmap_cons. constructor; [done|]. apply Forall_fmap. eapply Forall_impl; [exact Hf|].
  intros b. unfold dht_layout_entry_cmp_volname, name_le. cbn. by destruct (xlator a), (xlator b).
Qed.

(** Sorting by name brings the entries to the places of their subvolumes. *)
Lemma sorted_aligned os ns : Forall (fun e => is_Some (xlator e)) os -> xlator <$> os ≡ₚ xlator <$> ns -> by_name ns ->
  xlator <$> qsort (dht_layout_entry_cmp_volname volname) os = xlator <$> ns.
Proof.
  intros Hs Hp Hn. assert (Hq : qsort (dht_layout_entry_cmp_volname volname) os ≡ₚ os) by apply qsort_perm.
  apply (StronglySorted_unique_strong name_le); [|by apply by_name_xlators, (qsort_sorted _ _ os)|by apply by_name_xlators|by rewrite Hq].
  intros x y Hx Hy. rewrite Hq, Hp in Hx. rewrite <- Hp in Hx, Hy. apply list_elem_of_fmap in Hx as (a & -> & Ha), Hy as (b & -> & Hb).
  rewrite Forall_forall in Hs. destruct (Hs a Ha) as [x ->], (Hs b Hb) as [y ->]. cbn. rewrite (strcmp_swap (volname x)). intros H1 H2.
  f_equal. apply volname_inj, strcmp_zero; [done|done|lia].
Qed.
End Names.

(** ** The exchange of two ranges *)

Definition take_range (x y : dht_layout_entry) : dht_layout_entry := set_range (start y) (stop y) x.

Definition swapped (i k : nat) (x y : dht_layout_entry) (ns : list dht_layout_entry) : list dht_layout_entry := <[k := take_range y x]> (<[i := take_range x y]> ns).

Lemma range_swap_done new i k x y : entries new !! i = Some x -> entries new !! k = Some y -> i <> k ->
  dht_layout_range_swap (Z.of_nat i) (Z.of_nat k) new = Done (with_entries new (swapped i k x y (entries new))).
Proof.
  intros Hx Hy Hne. unfold dht_layout_range_swap. rewrite !rd_lookup, Hx, Hy. run. rewrite (change_done _ _ _ _ Hx). run.
  rewrite (change_done _ k y) by (cbn; by rewrite list_lookup_insert_ne). done.
Qed.

Lemma insert_perm {A} (l : list A) i x y : l !! i = Some x -> x :: <[i := y]> l ≡ₚ y :: l.
Proof.
  revert i. induction l as [|z l IH]; intros [|i] H; [done|done|injection H as ->; apply Permutation_swap|].
  change (x :: z :: <[i := y]> l ≡ₚ y :: z :: l). rewrite (Permutation_swap z x), (IH i H). apply Permutation_swap.
Qed.

Lemma swap_perm {A} (l : list A) i k x y : l !! i = Some x -> l !! k = Some y -> i <> k -> <[k := x]> (<[i := y]> l) ≡ₚ l.
Proof.
  intros Hx Hy Hne. apply (Permutation_cons_inv (a := y)). etrans; [apply insert_perm; by rewrite list_lookup_insert_ne|]. by apply insert_perm.
Qed.

Lemma swapped_ranges i k x y ns : ns !! i = Some x -> ns !! k = Some y -> i <> k -> range_of <$> swapped i k x y ns ≡ₚ range_of <$> ns.
Proof.
  intros Hx Hy Hne. unfold swapped. rewrite !list_fmap_insert. apply swap_perm; [by rewrite list_lookup_fmap, Hx|by rewrite list_lookup_fmap, Hy|done].
Qed.

(** Entries keep all but their range. *)
Definition rest_of (e : dht_layout_entry) : Z * Z * option Z := (err e, commit_hash e, xlator e).

Lemma rest_xlators (es es' : list dht_layout_entry) : rest_of <$> es = rest_of <$> es' -> xlator <$> es = xlator <$> es'.
Proof. intros E. apply (f_equal (fmap snd)) in E. by rewrite <- !list_fmap_compose in E. Qed.

Lemma swapped_rest i k x y ns : ns !! i = Some x -> ns !! k = Some y -> i <> k -> rest_of <$> swapped i k x y ns = rest_of <$> ns.
Proof.
  intros Hx Hy Hne. unfold swapped. rewrite !list_fmap_insert. apply list_eq. intros j. destruct (decide (j = k)) as [->|Hk].
  - rewrite list_lookup_insert_eq, list_lookup_fmap, Hy; [done|]. rewrite length_insert, length_fmap. by eapply lookup_lt_Some.
  - rewrite list_lookup_insert_ne by done. destruct (decide (j = i)) as [->|Hi]; [|by rewrite list_lookup_insert_ne].
    rewrite list_lookup_insert_eq, list_lookup_fmap, Hx; [done|]. rewrite length_fmap. by eapply lookup_lt_Some.
Qed.

Lemma swapped_lookup i k x y ns j : ns !! i = Some x -> ns !! k = Some y -> i <> k ->
  swapped i k x y ns !! j = if decide (j = k) then Some (take_range y x) else if decide (j = i) then Some (take_range x y) else ns !! j.
Proof.
  intros Hx Hy Hne. unfold swapped. case_decide as Ek.
  - subst j. apply list_lookup_insert_eq. rewrite length_insert. by eapply lookup_lt_Some.
  - rewrite list_lookup_insert_ne by done. case_decide as Ei; [subst j; apply list_lookup_insert_eq; by eapply lookup_lt_Some|by apply list_lookup_insert_ne].
Qed.

Lemma swapped_kept_at os ns i k x y a b : os !! i = Some a -> os !! k = Some b -> ns !! i = Some x -> ns !! k = Some y -> i <> k -> err x <= 0 -> err y <= 0 ->
  kept_at os (swapped i k x y ns) = kept_at os ns - overlap a x - overlap b y + overlap a y + overlap b x.
Proof.
  intros Ha Hb Hx Hy Hne Ex Ey. unfold swapped. rewrite (kept_at_insert _ _ k b y) by (done || by rewrite list_lookup_insert_ne). rewrite (kept_at_insert os ns i a x) by done.
  rewrite (overlap_ranges a (take_range x y) y), (overlap_ranges b (take_range y x) x) by done. lia.
Qed.

(** ** The table *)

(** Row [i] has the overlaps of the new range [i] with the old ones. *)
Definition table_ok (os ns : list dht_layout_entry) (table : list Z) : Prop :=
  forall i j a b, os !! j = Some a -> ns !! i = Some b -> table !! (i * length ns + j)%nat = Some (overlap a b).

Lemma ov_nat new i j : ov new (Z.of_nat i) (Z.of_nat j) = Z.of_nat (i * length (entries new) + j).
Proof. unfold ov, cnt. lia. Qed.

Lemma cell_eq n i j i' j' : (j < n)%nat -> (j' < n)%nat -> (i * n + j = i' * n + j')%nat -> i = i' /\ j = j'.
Proof. intros Hj Hj' H. assert (i = i') as -> by nia. lia. Qed.

Lemma wr_nat {A} (l : list A) p v : (p < length l)%nat -> wr l (Z.of_nat p) v = Some (<[p := v]> l).
Proof. intros H. unfold wr. by rewrite (proj2 (Z.leb_le 0 _)), (proj2 (Z.ltb_lt _ _)), Nat2Z.id by lia. Qed.

Section Table.
Context (old new : dht_layout) (Hlen : length (entries old) = length (entries new)).
Local Abbreviation os := (entries old).
Local Abbreviation ns := (entries new).
Local Abbreviation n := (length (entries new)).

(** The cells before cell [j] of row [i] are filled. *)
Definition filled_to (i j : Z) (table : list Z) : Prop :=
  length table = (n * n)%nat /\
  forall i' j' a b, os !! j' = Some a -> ns !! i' = Some b -> Z.of_nat i' < i \/ Z.of_nat i' = i /\ Z.of_nat j' < j -> table !! (i' * n + j')%nat = Some (overlap a b).

Lemma fill_cell i j table : 0 <= i < Z.of_nat n -> 0 <= j < Z.of_nat n -> filled_to i j table ->
  exists table', (v ← dht_overlap_calc old j new i; need (wr table (ov new i j) v)) = Done table' /\ filled_to i (j + 1) table'.
Proof.
  intros Hi Hj [Hl Hc]. destruct (entries old !! Z.to_nat j) as [a|] eqn:Ea; [|apply lookup_ge_None in Ea; lia].
  destruct (entries new !! Z.to_nat i) as [b|] eqn:Eb; [|apply lookup_ge_None in Eb; lia].
  replace i with (Z.of_nat (Z.to_nat i)) in * by lia. replace j with (Z.of_nat (Z.to_nat j)) in * by lia. set (i0 := Z.to_nat i) in *. set (j0 := Z.to_nat j) in *. rewrite !Nat2Z.id in *.
  rewrite (overlap_calc_done old j0 new i0 a b Ea Eb). run. rewrite ov_nat, wr_nat by nia. run. eexists. split; [done|]. split; [by rewrite length_insert|].
  intros i' j' a' b' Ha' Hb' Hlt. pose proof (lookup_lt_Some _ _ _ Ha'). pose proof (lookup_lt_Some _ _ _ Hb'). destruct (decide (i' = i0 /\ j' = j0)) as [[-> ->]|Hne].
  - rewrite list_lookup_insert_eq by nia. congruence.
  - rewrite list_lookup_insert_ne by (intros E; apply Hne; apply (cell_eq n) in E; lia). apply Hc; [done|done|]. lia.
Qed.

Lemma overlap_table_done : exists table, overlap_table old new = Done table /\ length table = (n * n)%nat /\ table_ok os ns table.
Proof.
  unfold overlap_table. match goal with |- context [loop _ 0 ?f ?s] => destruct (loop_ind (fun i t => filled_to i 0 t) n 0 f s) as (t & E & [H1 H2]) end.
  - split; [rewrite length_replicate; by rewrite Hlen|]. intros; lia.
  - intros i t Hi Ht. match goal with |- context [loop _ 0 ?f ?s] => destruct (loop_ind (fun j t => filled_to i j t) (length os) 0 f s Ht) as (t' & E & [H1 H2]) end.
    + intros j t1 Hj Ht1. apply fill_cell; [lia|lia|done].
    + rewrite E. exists t'. split; [done|]. split; [done|]. intros i' j' a b Ha Hb Hlt. apply H2; [done|done|]. pose proof (lookup_lt_Some _ _ _ Ha). lia.
  - exists t. split; [done|]. split; [done|]. intros i j a b Ha Hb. apply H2; [done|done|]. pose proof (lookup_lt_Some _ _ _ Hb). lia.
Qed.

(** The choice: the entry itself, or a later one whose exchange keeps more hashes. *)
Definition better (i : nat) (k : Z) : Prop :=
  k = Z.of_nat i \/ exists k0 x y a b, k = Z.of_nat k0 /\ i <> k0 /\ ns !! i = Some x /\ ns !! k0 = Some y /\ os !! i = Some a /\ os !! k0 = Some b /\ err y <= 0 /\
    overlap a x + overlap b y < overlap a y + overlap b x.

(** No two new ranges cover all hashes. *)
Definition room_left : Prop := forall i j x y, i <> j -> ns !! i = Some x -> ns !! j = Some y -> (stop x - start x + 1) + (stop y - start y + 1) < 2 ^ 32.

Lemma best_swap_done i table : (i < n)%nat -> Forall range_ok os -> Forall range_ok ns -> room_left -> table_ok os ns table ->
  exists m k, best_swap new table (Z.of_nat i) = Done (m, k) /\ better i k.
Proof.
  intros Hi Ho Hn Hroom Ht. unfold best_swap, cnt.
  match goal with |- context [loop ?c ?i0 ?f ?z] => destruct (loop_ind (fun _ st => better i st.2) c i0 f z) as ([m k] & E & H) end; [by left| |exists m, k; by rewrite E].
  intros j [m k] Hj Hb. destruct (entries new !! Z.to_nat j) as [y|] eqn:Ey; [|apply lookup_ge_None in Ey; lia].
  destruct (entries old !! Z.to_nat j) as [b|] eqn:Eb; [|apply lookup_ge_None in Eb; lia]. destruct (entries new !! i) as [x|] eqn:Ex; [|apply lookup_ge_None in Ex; lia].
  destruct (entries old !! i) as [a|] eqn:Ea; [|apply lookup_ge_None in Ea; lia]. replace j with (Z.of_nat (Z.to_nat j)) by lia. set (j0 := Z.to_nat j) in *.
  rewrite rd_lookup, Ey. run. destruct (Z.ltb_spec 0 (err y)) as [He|He]; [eexists; split; [done|exact Hb]|].
  rewrite !ov_nat, !rd_lookup, (Ht i i a x Ea Ex), (Ht j0 j0 b y Eb Ey), (Ht i j0 b x Eb Ex), (Ht j0 i a y Ea Ey). run.
  rewrite Forall_lookup in Ho, Hn. pose proof (Ho _ _ Ea) as Oa. pose proof (Ho _ _ Eb) as Ob. pose proof (Hn _ _ Ex) as Nx. pose proof (Hn _ _ Ey) as Ny.
  pose proof (overlap_bounds a x Oa Nx). pose proof (overlap_bounds b y Ob Ny). pose proof (overlap_bounds b x Ob Nx). pose proof (overlap_bounds a y Oa Ny).
  assert (Hij : i <> j0) by lia. pose proof (Hroom i j0 x y Hij Ex Ey). rewrite !u32_small by lia.
  destruct (Z.ltb_spec (overlap a x + overlap b y) (overlap b x + overlap a y)) as [Hlt|]; cbn [andb]; [|eexists; split; [done|exact Hb]].
  destruct (_ <? _); [|eexists; split; [done|exact Hb]]. eexists. split; [done|]. right. exists j0, x, y, a, b. cbn. repeat split; (done || lia).
Qed.
End Table.

(** ** The rows follow the ranges *)

Definition exchange (i k j : nat) : nat := if decide (j = k) then i else if decide (j = i) then k else j.

Lemma exchange_inj i k j j' : exchange i k j = exchange i k j' -> j = j'.
Proof. unfold exchange. repeat case_decide; congruence. Qed.

Lemma swapped_from i k x y ns j e : ns !! i = Some x -> ns !! k = Some y -> i <> k -> swapped i k x y ns !! j = Some e ->
  exists e', ns !! exchange i k j = Some e' /\ start e = start e' /\ stop e = stop e' /\ (err x <= 0 -> err y <= 0 -> forall a, overlap a e = overlap a e').
Proof.
  intros Hx Hy Hne. rewrite swapped_lookup by done. unfold exchange. destruct (decide (j = k)); [|destruct (decide (j = i))].
  - intros [= <-]. exists x. repeat split; [done|]. intros; by apply overlap_ranges.
  - intros [= <-]. exists y. repeat split; [done|]. intros; by apply overlap_ranges.
  - intros He. exists e. done.
Qed.

Lemma swap_rows_done old new i k table : length (entries old) = length (entries new) -> (i < length (entries new))%nat -> (k < length (entries new))%nat -> i <> k ->
  length table = (length (entries new) * length (entries new))%nat ->
  exists table', swap_rows old new (Z.of_nat i) (Z.of_nat k) table = Done table' /\ length table' = length table /\
    forall r j, (r < length (entries new))%nat -> (j < length (entries new))%nat ->
      table' !! (r * length (entries new) + j)%nat = table !! (exchange i k r * length (entries new) + j)%nat.
Proof.
  intros Hl Hi Hk Hne Ht. set (n := length (entries new)) in *. unfold swap_rows.
  match goal with |- context [loop _ 0 ?f _] =>
    destruct (loop_ind (fun j t => length t = length table /\ forall r c, (r < n)%nat -> (c < n)%nat ->
      t !! (r * n + c)%nat = table !! ((if decide (Z.of_nat c < j)%Z then exchange i k r else r) * n + c)%nat) (length (entries old)) 0 f table) as (t' & E & H1 & H2) end.
  - split; [done|]. intros r c _ _. rewrite decide_False by lia. done.
  - intros j t Hj [Hlt Hc]. replace j with (Z.of_nat (Z.to_nat j)) by lia. set (j0 := Z.to_nat j) in *. assert (Hj0 : (j0 < n)%nat) by lia.
    assert (Hin : forall r, (r < n)%nat -> (r * n + j0 < n * n)%nat) by (intros; nia).
    destruct (lookup_lt_is_Some_2 t (i * n + j0)%nat) as [a Ha]; [rewrite Hlt, Ht; auto|]. destruct (lookup_lt_is_Some_2 t (k * n + j0)%nat) as [b Hb]; [rewrite Hlt, Ht; auto|].
    rewrite !ov_nat. fold n. rewrite !rd_lookup, Ha, Hb. run. rewrite wr_nat by (rewrite Hlt, Ht; auto). run. rewrite wr_nat by (rewrite length_insert, Hlt, Ht; auto). run.
    eexists. split; [done|]. split; [by rewrite !length_insert|]. intros r c Hr Hcn. unfold exchange in *.
    assert (Hcell : forall r0, (r0 < n)%nat -> (r0 * n + j0)%nat = (r * n + c)%nat -> r0 = r /\ j0 = c) by (intros r0 _ E; apply (cell_eq n) in E; lia).
    destruct (decide (c = j0)) as [->|Hcj].
    + rewrite decide_True by lia. destruct (decide (r = k)) as [->|Hrk]; [|destruct (decide (r = i)) as [->|Hri]].
      * rewrite list_lookup_insert_eq by (rewrite length_insert, Hlt, Ht; auto). rewrite <- Ha, Hc by done. by rewrite decide_False by lia.
      * rewrite list_lookup_insert_ne by (intros E; apply Hcell in E; lia). rewrite list_lookup_insert_eq by (rewrite Hlt, Ht; auto). rewrite <- Hb, Hc by done. by rewrite decide_False by lia.
      * rewrite !list_lookup_insert_ne by (intros E; apply Hcell in E; lia). rewrite Hc by done. by rewrite decide_False by lia.
    + rewrite !list_lookup_insert_ne by (intros E; apply Hcell in E; lia). rewrite Hc by done. by rewrite (decide_ext (Z.of_nat c < Z.of_nat j0 + 1) (Z.of_nat c < j)) by lia.
  - exists t'. split; [exact E|]. split; [done|]. intros r j Hr Hj. rewrite H2 by done. by rewrite decide_True by lia.
Qed.

(** ** The whole pass *)

(** What the loop keeps. *)
Record better_layout (old new0 new : dht_layout) (table : list Z) : Prop := {
  bl_layout : new = with_entries new0 (entries new);
  bl_length : length (entries new) = length (entries new0);
  bl_rest : rest_of <$> entries new = rest_of <$> entries new0;
  bl_ranges : range_of <$> entries new ≡ₚ range_of <$> entries new0;
  bl_kept : kept_at (entries old) (entries new0) <= kept_at (entries old) (entries new);
  bl_ok : Forall range_ok (entries new);
  bl_room : room_left new;
  bl_table : length table = (length (entries new) * length (entries new))%nat /\ table_ok (entries old) (entries new) table }.

Lemma swap_better old new0 new table i k x y a b table' : better_layout old new0 new table -> length (entries old) = length (entries new0) ->
  i <> k -> entries new !! i = Some x -> entries new !! k = Some y -> entries old !! i = Some a -> entries old !! k = Some b -> err x <= 0 -> err y <= 0 ->
  overlap a x + overlap b y < overlap a y + overlap b x -> length table' = length table ->
  (forall r j, (r < length (entries new))%nat -> (j < length (entries new))%nat ->
     table' !! (r * length (entries new) + j)%nat = table !! (exchange i k r * length (entries new) + j)%nat) ->
  better_layout old new0 (with_entries new (swapped i k x y (entries new))) table'.
Proof.
  intros [B1 B2 B3 B4 B5 B6 B7 [B8 B9]] Hlen Hne Hx Hy Ha Hb Ex Ey Hlt Htl Htab.
  assert (Hsl : length (swapped i k x y (entries new)) = length (entries new)) by (unfold swapped; by rewrite !length_insert).
  split; cbn [entries with_entries]; [rewrite B1; done|by rewrite Hsl|by rewrite swapped_rest|by rewrite swapped_ranges| | | |].
  - rewrite (swapped_kept_at _ _ i k x y a b) by done. lia.
  - apply Forall_lookup. intros j e He. apply swapped_from in He as (e' & He' & H1 & H2 & _); [|done..]. rewrite Forall_lookup in B6. specialize (B6 _ _ He'). unfold range_ok in *. lia.
  - intros j j' e e' Hj He He'. cbn in He, He'. apply swapped_from in He as (e1 & He1 & H1 & H2 & _); [|done..]. apply swapped_from in He' as (e2 & He2 & H3 & H4 & _); [|done..].
    rewrite H1, H2, H3, H4. eapply (B7 (exchange i k j) (exchange i k j')); [|done|done]. intros E. by apply exchange_inj in E.
  - rewrite Hsl. split; [congruence|]. intros r j c e Hc He. rewrite Hsl. pose proof (lookup_lt_Some _ _ _ Hc). pose proof (lookup_lt_Some _ _ _ He).
    rewrite Htab by lia. apply swapped_from in He as (e' & He' & _ & _ & Ho); [|done..]. rewrite (Ho Ex Ey c). by apply B9.
Qed.

Lemma swap_step_better old new0 i st : length (entries old) = length (entries new0) -> Forall range_ok (entries old) -> 0 <= i < Z.of_nat (length (entries new0)) ->
  better_layout old new0 st.1 st.2 -> exists st', swap_step old i st = Done st' /\ better_layout old new0 st'.1 st'.2.
Proof.
  destruct st as [new table]. cbn [fst snd]. intros Hlen Hok Hi Hb. pose proof (bl_length _ _ _ _ Hb) as Hl. unfold swap_step.
  replace i with (Z.of_nat (Z.to_nat i)) in * by lia. set (i0 := Z.to_nat i) in *. destruct (entries new !! i0) as [x|] eqn:Ex; [|apply lookup_ge_None in Ex; lia].
  rewrite rd_lookup, Ex. run. destruct (Z.ltb_spec 0 (err x)) as [He|He]; [by exists (new, table)|].
  destruct (best_swap_done old new ltac:(lia) i0 table ltac:(lia) Hok (bl_ok _ _ _ _ Hb) (bl_room _ _ _ _ Hb) (proj2 (bl_table _ _ _ _ Hb))) as (m & k & Ek & Hk). rewrite Ek. run.
  destruct Hk as [->|(k0 & x' & y & a & b & -> & Hne & Hx & Hy & Ha & Hbb & Ey & Hlt)]; [rewrite Z.eqb_refl; by exists (new, table)|].
  rewrite (proj2 (Z.eqb_neq _ _)) by lia. assert (x' = x) as -> by congruence. rewrite (range_swap_done new i0 k0 x y) by done. run.
  destruct (swap_rows_done old new i0 k0 table) as (t' & Et & Htl & Htab); [lia|by eapply lookup_lt_Some|by eapply lookup_lt_Some|done|apply Hb|]. rewrite Et. run.
  eexists. split; [done|]. cbn. by eapply (swap_better old new0 new table i0 k0 x y a b).
Qed.
