(* ===== verification/DhtClaims.v ===== *)
(** * Theorems on the distribution of names

    What a checked layout promises, what becomes of a new directory, what is
    written and read back, and inputs that are treated in unexpected ways. *)
From stdpp Require Import sorting.
From S2P Require Import Prelude Doubles DhtHash DhtLayout DhtRanges DhtSelfheal DhtDirectory DhtMkdir DhtOverlap.

Lemma filter_all {A} (P : A -> Prop) `{forall x, Decision (P x)} l : Forall P l -> filter P l = l.
Proof. induction 1 as [|x l Hx _ IH]; [done|]. by rewrite filter_cons_True, IH. Qed.

Lemma filter_none {A} (P : A -> Prop) `{forall x, Decision (P x)} l : Forall (fun x => ~ P x) l -> filter P l = [].
Proof. induction 1 as [|x l Hx _ IH]; [done|]. by rewrite filter_cons_False. Qed.

(** The subvolume that a hash is sent to. *)
Lemma sound_search es hash : sound es -> not_doubled (filter participates es) -> Forall (fun e => participates e \/ no_range e) es -> 0 < hash < 2 ^ 32 ->
  exists e, e ∈ es /\ participates e /\ contains hash e /\ find_range hash es = xlator e.
Proof.
  intros Hs Hnd Hz Hh. destruct (sound_cover es Hs hash ltac:(lia)) as (e & He & Hp & Hc). destruct (find_range_spec hash es) as (y & Hy & Hyc & E).
  { apply Exists_exists. by exists e. }
  exists e. split; [done|]. split; [done|]. split; [done|]. rewrite E. f_equal. rewrite Forall_forall in Hz. destruct (Hz y Hy) as [Hyp|[H1 H2]].
  - by apply (sound_unique es Hs hash).
  - unfold contains in Hyc. lia.
Qed.

(** A lookup of what was written. *)
Lemma disks_looked_up c ds qs zs : dk_subvol <$> ds ≡ₚ subvolumes c -> disk_entry <$> ds ≡ₚ qs ++ zs -> spans 0 (range_of <$> qs) -> qs <> [] ->
  Forall (fun e => err e = 0) qs -> Forall (fun e => err e = 0 /\ no_range e) zs -> Z.of_nat (length ds) < 2 ^ 32 - 2 ->
  exists l0 l2, dht_layout_new (Some c) (subvolume_cnt c) [] = (Some l0, []) /\ merge_all l0 (disk_write <$> ds) = Done l2 /\
    dht_layout_normalize l2 = Done (dht_layout_sort l2, 0) /\ sound (entries (dht_layout_sort l2)) /\ filter participates (entries (dht_layout_sort l2)) = qs /\
    entries (dht_layout_sort l2) ≡ₚ qs ++ zs /\ type l2 = DHT_HASH_TYPE_DM /\ xlator <$> entries (dht_layout_sort l2) ≡ₚ Some <$> subvolumes c.
Proof.
  intros Hsub Hent Hsp Hne Hq Hz Hlen. assert (Hl : length ds = length (subvolumes c)) by (apply Permutation_length in Hsub; by rewrite length_fmap in Hsub).
  unfold dht_layout_new. cbn [alloc]. set (l0 := mkdht _ _ _ _ _ _ _). destruct (merge_all_filled ds l0 []) as (l2 & E & [F1 F2 F3]).
  { split; cbn; [|constructor|done]. unfold subvolume_cnt. by rewrite Nat2Z.id, Hl. }
  rewrite app_nil_r in F1. cbn [app] in F1. exists l0, l2. split; [done|]. split; [exact E|]. destruct (spans_linked qs 0 (2 ^ 32 - 1)) as (R1 & R2 & R3 & R4); [lia|done|lia|].
  assert (Hparts : Forall participates qs).
  { apply Forall_forall. intros e He. rewrite Forall_forall in Hq, R4. specialize (R4 e He). split; [auto|lia]. }
  assert (Hzs : Forall (fun e => ~ participates e) zs).
  { eapply Forall_impl; [exact Hz|]. intros e [_ [H1 H2]]. unfold participates. lia. }
  destruct (linked_normalizes l2 qs) as (N1 & N2 & N3); rewrite ?F1, ?Hent; [| | |done| |done|done|].
  - apply Forall_app. split; [done|]. eapply Forall_impl; [exact Hz|]. intros e [_ [H1 H2]]. unfold range_ok. lia.
  - apply Forall_app. split.
    + apply Forall_forall. intros e He. rewrite Forall_forall in Hq, Hparts. auto.
    + eapply Forall_impl; [exact Hz|]. intros e [H1 H2]. auto.
  - rewrite <- Hent, length_fmap. done.
  - rewrite filter_app, (filter_all _ _ Hparts), (filter_none _ _ Hzs), app_nil_r. done.
  - split; [exact N1|]. split; [exact N2|]. split; [exact N3|]. assert (Hperm : entries (dht_layout_sort l2) ≡ₚ entries l2) by apply qsort_perm.
    split; [by rewrite Hperm, F1, Hent|]. split; [exact F3|]. rewrite Hperm, F1, <- list_fmap_compose, <- Hsub, <- list_fmap_compose. done.
Qed.

(** ** Theorems *)

(** C17: For ranges that do not end before they start, in fewer than 2^32 - 2
    entries: if dht_layout_normalize reports neither holes nor overlaps, the entries
    are the same, in the order of dht_layout_entry_cmp; every hash is in the range
    of an entry that takes part; and, unless a range of all hashes is there twice,
    of one only; if moreover every entry takes part or has no range, a name with a
    hash other than 0 is sent to the subvolume of that entry. *)
Theorem dht_layout_normalize_correct l l' r :
  Forall range_ok (entries l) -> Z.of_nat (length (entries l)) < 2 ^ 32 - 2 -> dht_layout_normalize l = Done (l', r) -> 0 <= r ->
  entries l' ≡ₚ entries l /\ StronglySorted (le_by dht_layout_entry_cmp) (entries l') /\
  (forall hash, 0 <= hash < 2 ^ 32 -> exists e, e ∈ entries l' /\ participates e /\ contains hash e) /\
  (not_doubled (filter participates (entries l')) ->
   (forall hash x y, x ∈ entries l' -> participates x -> contains hash x -> y ∈ entries l' -> participates y -> contains hash y -> x = y) /\
   (Forall (fun e => participates e \/ no_range e) (entries l) -> forall hash, 0 < hash < 2 ^ 32 ->
    exists e, e ∈ entries l' /\ participates e /\ contains hash e /\ find_range hash (entries l') = xlator e)).
Proof.
  intros Hok Hlen E Hr. destruct (normalize_sound l l' r Hok Hlen E Hr) as [-> Hs]. assert (Hperm : entries (dht_layout_sort l) ≡ₚ entries l) by apply qsort_perm.
  split; [done|]. split; [apply Hs|]. split; [by apply sound_cover|]. intros Hnd. split.
  - intros hash x y Hx Hpx Hcx Hy Hpy Hcy. by apply (sound_unique _ Hs hash).
  - intros Hz hash Hh. rewrite <- Hperm in Hz. by apply sound_search.
Qed.

(** C5: after a directory is made, with equal shares and up to 1024 subvolumes (each
    once, with different names, none decommissioned or down; paths and names shorter
    than 2^31 - 1; groups that [regexec] reports lie in the name): the attributes that are written, answered by the subvolumes in any order, give a
    layout that passes the check; as many subvolumes take part as the spread says;
    every hash has exactly one of them, and a name is sent to the one that has its
    hash, unless that is 0. *)
Theorem mkdir_lookup_correct c children re volname str l :
  (forall x y, volname x = volname y -> x = y) -> (forall x, Forall (Z.lt 0) (volname x)) -> regexes_ok re -> Z.of_nat (length str) < 2 ^ 31 - 1 ->
  new_directory_pre c l ->
  exists l' ws, dht_selfheal_new_directory c children re volname str l = Done l' /\ dht_selfheal_dir_xattr c volname l' [] = Done ws /\
  forall al, al ≡ₚ ws ->
  exists l0 l2 l3, dht_layout_new (Some c) (subvolume_cnt c) [] = (Some l0, []) /\ merge_all l0 al = Done l2 /\ dht_layout_normalize l2 = Done (l3, 0) /\
    xlator <$> entries l3 ≡ₚ Some <$> subvolumes c /\
    Z.of_nat (length (filter participates (entries l3))) = bricks (spread_cnt l) (subvolume_cnt c) /\
    (forall hash, 0 <= hash < 2 ^ 32 -> exists e, e ∈ entries l3 /\ participates e /\ contains hash e /\
       forall e', e' ∈ entries l3 -> participates e' -> contains hash e' -> e' = e) /\
    (forall name hash, Z.of_nat (length name) < 2 ^ 31 - 1 -> dht_hash_compute re DHT_HASH_TYPE_DM (Some name) = Done (Some hash) -> 0 < hash ->
       exists e, e ∈ entries l3 /\ participates e /\ contains hash e /\ dht_layout_search re l3 (Some name) = Done (xlator e)).
Proof.
  intros Hinj Hbytes Hre Hstr Hpre. destruct (mkdir_disks c children re volname str Hinj Hbytes Hre Hstr l Hpre) as (l' & ds & qs & zs & E1 & E2 & D1 & D2 & D3 & D4 & D5 & D6).
  exists l', (disk_write <$> ds). split; [done|]. split; [done|]. intros al Hal. apply Permutation_map_inv in Hal as (ds' & -> & Hds).
  assert (Hcnt := nd_count _ _ Hpre). assert (Hlen : length ds' = length (subvolumes c)) by (rewrite <- Hds; apply Permutation_length in D1; by rewrite length_fmap in D1).
  destruct (bricks_range (spread_cnt l) (Z.of_nat (length (subvolumes c)))) as [B1 B2]; [apply Hpre|lia|].
  destruct (disks_looked_up c ds' qs zs) as (l0 & l2 & L1 & L2 & L3 & L4 & L5 & L6 & L7 & L8); [by rewrite <- Hds|by rewrite <- Hds|done|intros ->; cbn in D6; lia|done|done|lia|].
  exists l0, l2, (dht_layout_sort l2). split; [done|]. split; [exact L2|]. split; [done|]. split; [done|]. split; [by rewrite L5|].
  destruct (spans_linked qs 0 (2 ^ 32 - 1)) as (R1 & R2 & R3 & R4); [lia|done|lia|].
  assert (Hnd : not_doubled (filter participates (entries (dht_layout_sort l2)))).
  { rewrite L5. intros e He Hs0 Hs1. destruct qs as [|q [|q' qs]]; [by apply elem_of_nil in He|by apply list_elem_of_singleton in He as ->|]. exfalso.
    inversion R2 as [|? ? R2' Hf]; subst. unfold follows in Hf. rewrite Forall_forall in R4, R1. apply elem_of_cons in He as [->|He].
    - inversion Hf as [|? ? Hq' _]; subst. pose proof (R1 q' ltac:(set_solver)) as Hr. unfold range_ok in Hr. lia.
    - rewrite Forall_forall in Hf. specialize (Hf e He). cbn in Hf. pose proof (R1 q ltac:(set_solver)) as Hr. unfold range_ok in Hr. lia. }
  assert (Hz : Forall (fun e => participates e \/ no_range e) (entries (dht_layout_sort l2))).
  { rewrite L6. apply Forall_app. split; [|eapply Forall_impl; [exact D5|]; intros e [_ ?]; by right]. apply Forall_forall. intros e He. left.
    rewrite <- L5 in He. by apply list_elem_of_filter in He as [? _]. }
  split.
  - intros hash Hh. destruct (sound_cover _ L4 hash Hh) as (e & He & Hp & Hc). exists e. split; [done|]. split; [done|]. split; [done|].
    intros e' He' Hp' Hc'. by apply (sound_unique _ L4 hash).
  - intros name hash Hn Hc Hpos. destruct (dht_hash_compute_done re DHT_HASH_TYPE_DM name Hre Hn) as (h & Eh & Hh). rewrite Hc in Eh. injection Eh as <-. specialize (Hh hash eq_refl).
    destruct (sound_search _ hash L4 Hnd Hz ltac:(lia)) as (e & He & Hp & Hce & Hf). exists e. split; [done|]. split; [done|]. split; [done|].
    unfold dht_layout_search. cbn [type dht_layout_sort with_entries]. rewrite L7, Hc. run. by rewrite Hf.
Qed.

(** C26: For an old and a new layout of the same subvolumes, each once, the new one
    in the order of the names (as dht_fix_layout_of_directory calls it), with ranges
    that do not end before they start, no two of the new ones covering all hashes
    together, and subvolumes with different names:
    dht_selfheal_layout_maximize_overlap returns, exchanges ranges between entries
    of the new layout and changes nothing else, and at least as many hashes as
    before stay with the subvolume that had them in the old layout (as
    dht_overlap_calc counts them: entries with an error and ranges of one hash count
    nothing). *)
Theorem maximize_overlap_correct volname new old :
  (forall x y, volname x = volname y -> x = y) -> (forall x, Forall (Z.lt 0) (volname x)) ->
  Forall (fun e => is_Some (xlator e)) (entries old) -> xlator <$> entries old ≡ₚ xlator <$> entries new -> NoDup (xlator <$> entries new) -> by_name volname (entries new) ->
  Forall range_ok (entries old) -> Forall range_ok (entries new) -> room_left new ->
  exists new' old', dht_selfheal_layout_maximize_overlap volname new old = Done (new', old') /\ entries old' ≡ₚ entries old /\
    new' = with_entries new (entries new') /\ rest_of <$> entries new' = rest_of <$> entries new /\ range_of <$> entries new' ≡ₚ range_of <$> entries new /\
    kept (entries old) (entries new) <= kept (entries old) (entries new').
Proof.
  intros Hinj Hbytes Hx Hsame Hnd Hby Ho Hn Hroom. assert (Hlen : length (entries old) = length (entries new)) by (apply Permutation_length in Hsame; by rewrite !length_fmap in Hsame).
  pose proof (sorted_aligned volname Hinj Hbytes _ _ Hx Hsame Hby) as Hal. unfold dht_selfheal_layout_maximize_overlap. rewrite sort_volname_done by done. run.
  set (old' := with_entries old _). assert (Hp : entries old' ≡ₚ entries old) by apply qsort_perm. rewrite <- Hp in Hlen, Ho.
  destruct (overlap_table_done old' new Hlen) as (table & -> & Ht1 & Ht2). run.
  destruct (loop_ind (fun _ st => better_layout old' new st.1 st.2) (length (entries new)) 0 (swap_step old') (new, table)) as ([new' t'] & -> & B).
  - cbn. split; [by destruct new|done|done|done|lia|done|done|done].
  - intros i st Hi Hb. by apply (swap_step_better old' new i st Hlen Ho).
  - run. exists new', old'. split; [done|]. split; [done|]. destruct B as [B1 _ B3 B4 B5 _ _ _]. split; [done|]. split; [done|]. split; [done|].
    assert (Hxl : xlator <$> entries new' = xlator <$> entries new) by (by apply rest_xlators).
    rewrite <- !(kept_perm _ _ _ Hp), !kept_aligned by (by rewrite ?Hxl). done.
Qed.

(** ** The theorems at work *)

Definition number_name (x : Z) : list Z := if 0 <=? x then [x + 1] else [1; - x].

Lemma number_name_inj x y : number_name x = number_name y -> x = y.
Proof. unfold number_name. destruct (Z.leb_spec 0 x), (Z.leb_spec 0 y); intros [=]; lia. Qed.

Lemma number_name_bytes x : Forall (Z.lt 0) (number_name x).
Proof. unfold number_name. destruct (Z.leb_spec 0 x); repeat constructor; lia. Qed.

Definition no_regexes : regexes := mkregexes None None.

Lemma no_regexes_ok : regexes_ok no_regexes.
Proof. split; intros r [=]. Qed.

(** Three subvolumes, two for a directory. *)
Definition three_conf : dht_conf := mkconf 2 0 [4; 5; 6] [] [None; None; None] 0 false None false.
Definition new_layout : dht_layout := mkdht 2 false 7 0 DHT_HASH_TYPE_DM 1 [mkentry 0 0 0 0 (Some 5); mkentry 0 0 0 0 (Some 6); mkentry 0 0 0 0 (Some 4)].

Lemma new_layout_ok : new_directory_pre three_conf new_layout.
Proof.
  split; [repeat constructor; set_solver|cbn; lia|repeat constructor|done| |repeat constructor|done|cbn; lia].
  cbn. apply (Permutation_app_comm [Some 5; Some 6] [Some 4]).
Qed.

Lemma dht_layout_normalize_correct_witness :
  let l := mkdht 0 false 0 0 DHT_HASH_TYPE_DM 1 [mkentry 0 2147483647 4294967295 0 (Some 5); mkentry 0 0 0 0 (Some 6); mkentry 0 0 2147483646 0 (Some 4)] in
  exists l', dht_layout_normalize l = Done (l', 0) /\ entries l' ≡ₚ entries l /\ StronglySorted (le_by dht_layout_entry_cmp) (entries l') /\
  (forall hash, 0 <= hash < 2 ^ 32 -> exists e, e ∈ entries l' /\ participates e /\ contains hash e) /\
  (not_doubled (filter participates (entries l')) ->
   (forall hash x y, x ∈ entries l' -> participates x -> contains hash x -> y ∈ entries l' -> participates y -> contains hash y -> x = y) /\
   (Forall (fun e => participates e \/ no_range e) (entries l) -> forall hash, 0 < hash < 2 ^ 32 ->
    exists e, e ∈ entries l' /\ participates e /\ contains hash e /\ find_range hash (entries l') = xlator e)).
Proof.
  intros l. exists (dht_layout_sort l). assert (E : dht_layout_normalize l = Done (dht_layout_sort l, 0)) by (vm_compute; reflexivity). split; [exact E|].
  apply (dht_layout_normalize_correct l (dht_layout_sort l) 0); [|cbn; lia|exact E|lia]. repeat constructor; cbn; lia.
Defined.

Lemma mkdir_lookup_correct_witness :
  exists l' ws, dht_selfheal_new_directory three_conf [4; 5; 6] no_regexes number_name [47; 97] new_layout = Done l' /\
  dht_selfheal_dir_xattr three_conf number_name l' [] = Done ws /\
  forall al, al ≡ₚ ws ->
  exists l0 l2 l3, dht_layout_new (Some three_conf) (subvolume_cnt three_conf) [] = (Some l0, []) /\ merge_all l0 al = Done l2 /\ dht_layout_normalize l2 = Done (l3, 0) /\
    xlator <$> entries l3 ≡ₚ Some <$> subvolumes three_conf /\
    Z.of_nat (length (filter participates (entries l3))) = 2 /\
    (forall hash, 0 <= hash < 2 ^ 32 -> exists e, e ∈ entries l3 /\ participates e /\ contains hash e /\
       forall e', e' ∈ entries l3 -> participates e' -> contains hash e' -> e' = e) /\
    (forall name hash, Z.of_nat (length name) < 2 ^ 31 - 1 -> dht_hash_compute no_regexes DHT_HASH_TYPE_DM (Some name) = Done (Some hash) -> 0 < hash ->
       exists e, e ∈ entries l3 /\ participates e /\ contains hash e /\ dht_layout_search no_regexes l3 (Some name) = Done (xlator e)).
Proof.
  apply (mkdir_lookup_correct three_conf [4; 5; 6] no_regexes number_name [47; 97] new_layout number_name_inj number_name_bytes no_regexes_ok); [cbn; lia|exact new_layout_ok].
Defined.

(** Four subvolumes whose ranges moved by one. *)
Definition quarter (k : Z) (x : Z) : dht_layout_entry := mkentry 0 (k * 1073741824) (k * 1073741824 + 1073741823) 0 (Some x).

Lemma same_quarters : Some <$> [3; 2; 4; 1] ≡ₚ Some <$> [1; 2; 3; 4].
Proof. apply (bool_decide_eq_true_1 (_ ≡ₚ _)). vm_compute. reflexivity. Qed.

Lemma maximize_overlap_correct_witness :
  let old := mkdht 0 false 0 0 DHT_HASH_TYPE_DM 1 [quarter 2 3; quarter 1 2; quarter 3 4; quarter 0 1] in
  let new := mkdht 0 false 0 0 DHT_HASH_TYPE_DM 1 [quarter 1 1; quarter 2 2; quarter 3 3; quarter 0 4] in
  kept (entries old) (entries new) = 0 /\
  dht_selfheal_layout_maximize_overlap number_name new old = Done (with_entries new [quarter 2 1; quarter 1 2; quarter 0 3; quarter 3 4], with_entries old [quarter 0 1; quarter 1 2; quarter 2 3; quarter 3 4]) /\
  exists new' old', dht_selfheal_layout_maximize_overlap number_name new old = Done (new', old') /\ entries old' ≡ₚ entries old /\
    new' = with_entries new (entries new') /\ rest_of <$> entries new' = rest_of <$> entries new /\ range_of <$> entries new' ≡ₚ range_of <$> entries new /\
    kept (entries old) (entries new) <= kept (entries old) (entries new').
Proof.
  intros old new. split; [reflexivity|]. split; [vm_compute; reflexivity|].
  apply (maximize_overlap_correct number_name new old number_name_inj number_name_bytes);
    [repeat constructor; by eexists|apply same_quarters|apply (bool_decide_eq_true_1 (NoDup _)); vm_compute; reflexivity|repeat constructor; vm_compute; discriminate|repeat constructor; cbn; lia..|].
  intros i j x y _ Hx Hy. assert (H : forall k z, entries new !! k = Some z -> stop z - start z = 1073741823).
  { intros k z. do 4 (destruct k as [|k]; [intros [= <-]; reflexivity|]). done. }
  rewrite (H i x Hx), (H j y Hy). lia.
Defined.

(** ** Inputs that are treated in unexpected ways *)

(** A hash of 0 is sent to an entry without a range, which is sorted to the front. *)
Lemma search_hash_zero :
  let l := mkdht 0 false 0 0 DHT_HASH_TYPE_DM 1 [mkentry 0 0 4294967295 0 (Some 5); mkentry 0 0 0 0 (Some 6)] in
  exists l', dht_layout_normalize l = Done (l', 0) /\ find_range 0 (entries l') = Some 6 /\ find_range 1 (entries l') = Some 5.
Proof. intros l. exists (dht_layout_sort l). split; [|split]; vm_compute; reflexivity. Qed.

(** Two ranges of all hashes are not reported. *)
Lemma normalize_doubled :
  let l := mkdht 0 false 0 0 DHT_HASH_TYPE_DM 1 [mkentry 0 0 4294967295 0 (Some 5); mkentry 0 0 4294967295 0 (Some 6)] in
  dht_layout_normalize l = Done (l, 0).
Proof. vm_compute. reflexivity. Qed.

(** A range that goes over the end is not reported, and its hashes are nowhere. *)
Lemma normalize_wrapped :
  let l := mkdht 0 false 0 0 DHT_HASH_TYPE_DM 1 [mkentry 0 16 31 0 (Some 5); mkentry 0 32 15 0 (Some 6)] in
  dht_layout_normalize l = Done (l, 0) /\ find_range 40 (entries l) = None.
Proof. split; vm_compute; reflexivity. Qed.

(** Two subvolumes with each other's ranges: the overlap after the exchange is 2^32, which is counted as 0. *)
Lemma maximize_overlap_two :
  let a := (0, 2147483646) in let b := (2147483647, 4294967295) in
  let e p x := mkentry 0 p.1 p.2 0 (Some x) in
  let old := mkdht 0 false 0 0 DHT_HASH_TYPE_DM 1 [e a 1; e b 2] in
  let new := mkdht 0 false 0 0 DHT_HASH_TYPE_DM 1 [e b 1; e a 2] in
  dht_selfheal_layout_maximize_overlap number_name new old = Done (new, old) /\ kept (entries old) (entries new) = 0 /\ kept (entries old) (entries old) = 2 ^ 32.
Proof. split; [|split]; vm_compute; reflexivity. Qed.

(** Weighted ranges for three of four subvolumes: the sizes of the first three are
    added, the ranges are given to others, and overlap. *)
Lemma weighted_spread_overlaps :
  let c := mkconf 3 0 [0; 1; 2; 3] [] [None; None; None; None] 0 true (Some [1; 1; 1; 3]) false in
  let l := mkdht 3 false 0 0 DHT_HASH_TYPE_DM 1 (map (fun x => mkentry 0 0 0 0 (Some x)) [0; 1; 2; 3]) in
  exists l', dht_selfheal_new_directory c [0; 1; 2; 3] no_regexes number_name [47; 98] l = Done l' /\
    map range_of (entries l') = [(4294967295, 1431655763); (1431655764, 4294967295); (0, 0); (0, 4294967294)].
Proof. eexists. split; vm_compute; reflexivity. Qed.

(** If [regexec] runs out of memory the empty name is hashed. *)
Lemma regex_error_hashes_empty rsync type name :
  dht_hash_compute (mkregexes (Some (fun _ => REG_ERROR)) rsync) type (Some name) = dht_hash_compute_internal type [] 0.
Proof.
  unfold dht_hash_compute, dht_munge_name. cbn [extra_regex rsync_regex]. change (u64 (0 - 0)) with 0. rewrite (proj2 (Z.ltb_lt 0 _)) by lia.
  change (negb (0 =? -1)) with true. cbn [andb]. change (s32 (0 + 1)) with 1. change (1 =? 0) with false. change (s32 (1 - 1)) with 0. change (take (Z.to_nat 0) (drop (Z.to_nat 0) name)) with (@nil Z).
  destruct rsync; cbn iota; reflexivity.
Qed.

(** A directory that does not use all subvolumes: what was just written is answered with two commit hashes. *)
Lemma mkdir_commit_hash : layout_hash new_layout = 7 /\
  (l' ← dht_selfheal_new_directory three_conf [4; 5; 6] no_regexes number_name [47; 97] new_layout;
   ws ← dht_selfheal_dir_xattr three_conf number_name l' [];
   l0 ← need (dht_layout_new (Some three_conf) 3 []).1;
   l2 ← merge_all l0 ws;
   Done (layout_hash l2)) = Done DHT_LAYOUT_HASH_INVALID.
Proof. split; vm_compute; reflexivity. Qed.
