(* ===== verification/PlInodelk.v ===== *)
(** * Inode locks and removals of a file (features/locks: inodelk.c, clear.c, common.c)

    Translators above take byte-range locks in named domains on an inode
    ([pl_common_inodelk]); [pl_inode_setlk] grants a lock, queues it or removes
    one, every removal gives the queued locks another chance, and the removal
    of the file itself (unlink, rmdir, rename) waits for the locks of other
    clients.  The locks of a client that goes away are released by
    [pl_inodelk_client_cleanup].

    The locks live in a store ([heap]) and are named by their addresses, so
    that using a lock after it has been freed is a [Fault].  A call is a list
    of [task]s: what it does between two points at which another thread may
    run, that is, the critical sections of the mutex of the inode and of the
    lock of the client, and what it does outside of them.  The calls that run
    are the threads of a [world]; [step] lets any of them run its next task.

    The messages to the log and the tracing are left out. *)
From stdpp Require Import gmap strings.
From S2P Require Import Prelude PlCommon PlPosix.

Definition ENOTSUP : Z := 95.
Definition CLRLK_BLOCKED : Z := 1.
Definition CLRLK_GRANTED : Z := 2.
Definition CLRLK_ALL : Z := 3.

(** ** Data *)

(** [contention_time] is in seconds and nanoseconds.  [listed] and [contending] say that the links [list] and
    [contend] are in a list. *)
Record pl_inode_lock_t : Set := mkilock {
  listed : bool; contending : bool; ref : Z;
  fl_start : Z; fl_end : Z; volume : string; user_flock : gf_flock; frame : Z;
  blkd_time : Z; granted_time : Z; contention_time : Z * Z;
  client : Z; owner : gf_lkowner_t; client_pid : Z; fl_type : lk_type; status : Z }.

Definition set_listed (l : pl_inode_lock_t) (b : bool) : pl_inode_lock_t :=
  mkilock b (contending l) (ref l) (fl_start l) (fl_end l) (volume l) (user_flock l) (frame l) (blkd_time l)
    (granted_time l) (contention_time l) (client l) (owner l) (client_pid l) (fl_type l) (status l).
Definition set_contend (l : pl_inode_lock_t) (b : bool) (t : Z * Z) : pl_inode_lock_t :=
  mkilock (listed l) b (ref l) (fl_start l) (fl_end l) (volume l) (user_flock l) (frame l) (blkd_time l)
    (granted_time l) t (client l) (owner l) (client_pid l) (fl_type l) (status l).
Definition set_ref (l : pl_inode_lock_t) (n : Z) : pl_inode_lock_t :=
  mkilock (listed l) (contending l) n (fl_start l) (fl_end l) (volume l) (user_flock l) (frame l) (blkd_time l)
    (granted_time l) (contention_time l) (client l) (owner l) (client_pid l) (fl_type l) (status l).
Definition set_frame (l : pl_inode_lock_t) (f : Z) : pl_inode_lock_t :=
  mkilock (listed l) (contending l) (ref l) (fl_start l) (fl_end l) (volume l) (user_flock l) f (blkd_time l)
    (granted_time l) (contention_time l) (client l) (owner l) (client_pid l) (fl_type l) (status l).
Definition set_times (l : pl_inode_lock_t) (b g : Z) : pl_inode_lock_t :=
  mkilock (listed l) (contending l) (ref l) (fl_start l) (fl_end l) (volume l) (user_flock l) (frame l) b
    g (contention_time l) (client l) (owner l) (client_pid l) (fl_type l) (status l).
Definition set_status (l : pl_inode_lock_t) (s : Z) : pl_inode_lock_t :=
  mkilock (listed l) (contending l) (ref l) (fl_start l) (fl_end l) (volume l) (user_flock l) (frame l) (blkd_time l)
    (granted_time l) (contention_time l) (client l) (owner l) (client_pid l) (fl_type l) s.

Record pl_dom_list_t : Set := mkdom {
  domain : string; inodelk_list : list Z; blocked_inodelks : list Z }.

(** A removal that waits: the client of its frame, and the frame. *)
Record call_stub_t : Set := mkstub { stub_client : Z; stub_frame : Z }.

(** What leaves the translator: the answer to a frame, the notice of contention to a client, and a removal that goes
    on to the next translator. *)
Inductive event : Set :=
  | Answer (frame op_ret op_errno : Z)
  | Upcall (client : Z) (domain : string) (flock : gf_flock)
  | Wind (stub : call_stub_t).

(** The inode, with the locks in memory, the number of references the locks and calls hold on it, and for every
    client the list of its locks ([pl_ctx_t]) and whether the lock of that list is held. *)
Record pl_inode_t : Type := mkinode {
  heap : gmap Z pl_inode_lock_t;
  dom_list : list pl_dom_list_t;
  waiting : list call_stub_t;
  remove_running : Z;
  is_locked : bool;
  inode_refs : Z;
  inodelk_lockers : gmap Z (list Z);
  ctx_locked : gset Z;
  events : list event }.

Definition with_heap (st : pl_inode_t) (h : gmap Z pl_inode_lock_t) : pl_inode_t :=
  mkinode h (dom_list st) (waiting st) (remove_running st) (is_locked st) (inode_refs st) (inodelk_lockers st)
    (ctx_locked st) (events st).
Definition with_doms (st : pl_inode_t) (ds : list pl_dom_list_t) : pl_inode_t :=
  mkinode (heap st) ds (waiting st) (remove_running st) (is_locked st) (inode_refs st) (inodelk_lockers st)
    (ctx_locked st) (events st).
Definition with_remove (st : pl_inode_t) (w : list call_stub_t) (n : Z) (b : bool) : pl_inode_t :=
  mkinode (heap st) (dom_list st) w n b (inode_refs st) (inodelk_lockers st) (ctx_locked st) (events st).
Definition with_refs (st : pl_inode_t) (n : Z) : pl_inode_t :=
  mkinode (heap st) (dom_list st) (waiting st) (remove_running st) (is_locked st) n (inodelk_lockers st)
    (ctx_locked st) (events st).
Definition with_lockers (st : pl_inode_t) (ls : gmap Z (list Z)) : pl_inode_t :=
  mkinode (heap st) (dom_list st) (waiting st) (remove_running st) (is_locked st) (inode_refs st) ls
    (ctx_locked st) (events st).
Definition with_ctx (st : pl_inode_t) (cs : gset Z) : pl_inode_t :=
  mkinode (heap st) (dom_list st) (waiting st) (remove_running st) (is_locked st) (inode_refs st)
    (inodelk_lockers st) cs (events st).
Definition emit (st : pl_inode_t) (e : event) : pl_inode_t :=
  mkinode (heap st) (dom_list st) (waiting st) (remove_running st) (is_locked st) (inode_refs st)
    (inodelk_lockers st) (ctx_locked st) (events st ++ [e]).

(** The options of the translator. *)
Record posix_locks_private_t : Set := mkpriv {
  revocation_secs : Z; revocation_clear_all : bool; revocation_max_blocked : Z; monkey_unlocking : bool;
  notify_contention : bool; notify_contention_delay : Z }.

(** ** Access to locks and domains *)

Definition lock_at (st : pl_inode_t) (a : Z) : outcome pl_inode_lock_t := need (heap st !! a).

Definition set_lock (st : pl_inode_t) (a : Z) (l : pl_inode_lock_t) : pl_inode_t :=
  with_heap st (<[a := l]> (heap st)).

Fixpoint find_dom (ds : list pl_dom_list_t) (d : string) : option pl_dom_list_t :=
  match ds with
  | [] => None
  | x :: ds => if String.eqb (domain x) d then Some x else find_dom ds d
  end.

Definition dom_at (st : pl_inode_t) (d : string) : outcome pl_dom_list_t := need (find_dom (dom_list st) d).

Definition set_dom (st : pl_inode_t) (d : string) (granted blocked : list Z) : pl_inode_t :=
  with_doms st (map (fun x => if String.eqb (domain x) d then mkdom d granted blocked else x) (dom_list st)).

(** [list_del_init] of the link [list] or [blocked_locks] of a lock, whichever list it is in. *)
Definition del_granted (st : pl_inode_t) (a : Z) : pl_inode_t :=
  with_doms st (map (fun x => mkdom (domain x) (filter (fun b => b <> a) (inodelk_list x)) (blocked_inodelks x))
                  (dom_list st)).
Definition del_blocked (st : pl_inode_t) (a : Z) : pl_inode_t :=
  with_doms st (map (fun x => mkdom (domain x) (inodelk_list x) (filter (fun b => b <> a) (blocked_inodelks x)))
                  (dom_list st)).

(** [list_del_init] of the link [client_list]. *)
Definition del_client (st : pl_inode_t) (a : Z) : pl_inode_t :=
  with_lockers st (filter (fun b => b <> a) <$> inodelk_lockers st).

Definition lockers (st : pl_inode_t) (c : Z) : list Z := default [] (inodelk_lockers st !! c).

Definition add_client (st : pl_inode_t) (c a : Z) : pl_inode_t :=
  with_lockers st (<[c := lockers st c ++ [a]]> (inodelk_lockers st)).

Definition inode_ref (st : pl_inode_t) : pl_inode_t := with_refs st (inode_refs st + 1).
Definition inode_unref (st : pl_inode_t) : pl_inode_t := with_refs st (inode_refs st - 1).

Definition __delete_inode_lock (st : pl_inode_t) (a : Z) : outcome pl_inode_t :=
  l ← lock_at st a; Done (set_lock (del_granted st a) a (set_listed l false)).

Definition __pl_inodelk_ref (st : pl_inode_t) (a : Z) : outcome pl_inode_t :=
  l ← lock_at st a; Done (set_lock st a (set_ref l (ref l + 1))).

Definition __pl_inodelk_unref (st : pl_inode_t) (a : Z) : outcome pl_inode_t :=
  l ← lock_at st a;
  if ref l - 1 =? 0 then Done (with_heap st (delete a (heap st)))
  else Done (set_lock st a (set_ref l (ref l - 1))).

(** Unwinding a frame that is NULL only writes to the log. *)
Definition unwind (st : pl_inode_t) (frame op_ret op_errno : Z) : pl_inode_t :=
  if frame =? 0 then st else emit st (Answer frame op_ret op_errno).

(** The domain, made when it is not there; its name is copied. *)
Definition get_domain (m : mem) (st : pl_inode_t) (volume : string) : option (pl_inode_t * string) * mem :=
  match find_dom (dom_list st) volume with
  | Some _ => (Some (st, volume), m)
  | None =>
      let '(ok, m) := alloc m in
      if negb ok then (None, m) else
      let '(ok, m) := alloc m in
      if negb ok then (None, m) else
      (Some (with_doms st (mkdom volume [] [] :: dom_list st), volume), m)
  end.

(** ** Conflicts *)

Definition inodelk_type_conflict (l1 l2 : pl_inode_lock_t) : bool :=
  bool_decide (fl_type l2 = F_WRLCK) || bool_decide (fl_type l1 = F_WRLCK).

Definition inodelk_overlap (l1 l2 : pl_inode_lock_t) : bool :=
  (fl_start l2 <=? fl_end l1) && (fl_start l1 <=? fl_end l2).

Definition same_inodelk_owner (l1 l2 : pl_inode_lock_t) : bool :=
  is_same_lkowner (owner l1) (owner l2) && (client l1 =? client l2).

Definition inodelk_conflict (l1 l2 : pl_inode_lock_t) : bool :=
  inodelk_overlap l1 l2 && inodelk_type_conflict l1 l2.

Definition inodelks_equal (l1 l2 : pl_inode_lock_t) : bool :=
  (fl_start l1 =? fl_start l2) && (fl_end l1 =? fl_end l2).

(** The first lock of a list that satisfies a condition. *)
Fixpoint first_lock (P : pl_inode_lock_t -> bool) (st : pl_inode_t) (ls : list Z) : outcome (option Z) :=
  match ls with
  | [] => Done None
  | a :: ls => l ← lock_at st a; if P l then Done (Some a) else first_lock P st ls
  end.

Definition __blocked_lock_conflict (st : pl_inode_t) (dom : pl_dom_list_t) (lock : pl_inode_lock_t) : outcome (option Z) :=
  first_lock (inodelk_conflict lock) st (blocked_inodelks dom).

Definition __owner_has_lock (st : pl_inode_t) (dom : pl_dom_list_t) (newlock : pl_inode_lock_t) : outcome bool :=
  g ← first_lock (fun l => same_inodelk_owner l newlock) st (inodelk_list dom);
  match g with
  | Some _ => Done true
  | None =>
      b ← first_lock (fun l => same_inodelk_owner l newlock) st (blocked_inodelks dom);
      Done (match b with Some _ => true | None => false end)
  end.

Definition find_matching_inodelk (st : pl_inode_t) (lock : pl_inode_lock_t) (dom : pl_dom_list_t) : outcome (option Z) :=
  first_lock (fun l => inodelks_equal l lock && same_inodelk_owner l lock) st (inodelk_list dom).

(** ** Contention *)

(** Seconds and nanoseconds. *)
Definition timespec : Set := Z * Z.

Section Locks.
Context (priv : posix_locks_private_t).

Definition inodelk_contention_notify_check (st : pl_inode_t) (a : Z) (now : timespec) (contend : list Z) :
    outcome (pl_inode_t * list Z) :=
  l ← lock_at st a;
  if contending l then Done (st, contend) else
  let elapsed := now.1 - (contention_time l).1 in
  let elapsed := if now.2 <? (contention_time l).2 then elapsed - 1 else elapsed in
  if elapsed <? notify_contention_delay priv then Done (st, contend) else
  st ← __pl_inodelk_ref (inode_ref st) a;
  l ← lock_at st a;
  Done (set_lock st a (set_contend l true now), contend ++ [a]).

(** [contend] is [None] when it is NULL. *)
Fixpoint grantable_loop (st : pl_inode_t) (lock : pl_inode_lock_t) (now : timespec) (ls : list Z) (ret : option Z)
    (contend : option (list Z)) : outcome (pl_inode_t * option Z * option (list Z)) :=
  match ls with
  | [] => Done (st, ret, contend)
  | a :: ls =>
      l ← lock_at st a;
      if inodelk_conflict lock l && negb (same_inodelk_owner lock l) then
        let ret := match ret with None => Some a | _ => ret end in
        match contend with
        | None => Done (st, ret, None)
        | Some c =>
            '(st, c) ← inodelk_contention_notify_check st a now c;
            grantable_loop st lock now ls ret (Some c)
        end
      else grantable_loop st lock now ls ret contend
  end.

Definition __inodelk_grantable (st : pl_inode_t) (dom : pl_dom_list_t) (lock : pl_inode_lock_t) (now : timespec)
    (contend : option (list Z)) : outcome (pl_inode_t * option Z * option (list Z)) :=
  grantable_loop st lock now (inodelk_list dom) None contend.

(** ** Granting *)

Fixpoint client_has_lock (st : pl_inode_t) (c : Z) (ds : list pl_dom_list_t) : outcome bool :=
  match ds with
  | [] => Done false
  | d :: ds =>
      f ← first_lock (fun l => client l =? c) st (inodelk_list d);
      match f with Some _ => Done true | None => client_has_lock st c ds end
  end.

Definition pl_inode_remove_inodelk (st : pl_inode_t) (lock : pl_inode_lock_t) : outcome Z :=
  if client_pid lock <? 0 then Done 0 else
  if negb (is_locked st) then Done 0 else
  if 0 <? remove_running st then Done 1 else
  h ← client_has_lock st (client lock) (dom_list st);
  Done (if h : bool then 0 else 1).

Definition __lock_blocked_add (st : pl_inode_t) (d : string) (a : Z) (can_block : bool) (now : timespec) :
    outcome (pl_inode_t * Z) :=
  if negb can_block then Done (st, - EAGAIN) else
  l ← lock_at st a;
  dom ← dom_at st d;
  Done (set_dom (set_lock st a (set_times l now.1 (granted_time l))) d (inodelk_list dom) (blocked_inodelks dom ++ [a]),
        - EAGAIN).

Definition __lock_inodelk (st : pl_inode_t) (a : Z) (can_block : bool) (d : string) (now : timespec)
    (contend : option (list Z)) : outcome (pl_inode_t * Z * option (list Z)) :=
  lock ← lock_at st a;
  dom ← dom_at st d;
  ret ← pl_inode_remove_inodelk st lock;
  if ret <? 0 then Done (st, ret, contend) else
  '(st, conf, contend) ← (if ret =? 0 then __inodelk_grantable st dom lock now contend else Done (st, None, contend));
  if (0 <? ret) || (match conf with Some _ => true | None => false end) then
    '(st, ret) ← __lock_blocked_add st d a can_block now; Done (st, ret, contend)
  else
  b ← __blocked_lock_conflict st dom lock;
  o ← (match b with Some _ => __owner_has_lock st dom lock | None => Done true end);
  if negb o then
    '(st, ret) ← __lock_blocked_add st d a can_block now; Done (st, ret, contend)
  else
  st ← __pl_inodelk_ref st a;
  l ← lock_at st a;
  Done (set_dom (set_lock st a (set_listed (set_times l (blkd_time l) now.1) true)) d (a :: inodelk_list dom)
          (blocked_inodelks dom), 0, contend).

Definition __inode_unlock_lock (st : pl_inode_t) (lock : pl_inode_lock_t) (d : string) : outcome (pl_inode_t * option Z) :=
  dom ← dom_at st d;
  conf ← find_matching_inodelk st lock dom;
  match conf with
  | None => Done (st, None)
  | Some c => st ← __delete_inode_lock st c; Done (st, Some c)
  end.

(** The locks of the list that is taken off the domain, each tried once more. *)
Fixpoint grant_blocked_loop (st : pl_inode_t) (d : string) (now : timespec) (ls granted : list Z)
    (contend : option (list Z)) : outcome (pl_inode_t * list Z * option (list Z)) :=
  match ls with
  | [] => Done (st, granted, contend)
  | bl :: ls =>
      '(st, status, contend) ← __lock_inodelk st bl true d now contend;
      l ← lock_at st bl;
      let st := set_lock st bl (set_status l status) in
      grant_blocked_loop st d now ls (if status =? - EAGAIN then granted else granted ++ [bl]) contend
  end.

Definition __grant_blocked_inode_locks (st : pl_inode_t) (granted : list Z) (d : string) (now : timespec)
    (contend : option (list Z)) : outcome (pl_inode_t * list Z * option (list Z)) :=
  dom ← dom_at st d;
  grant_blocked_loop (set_dom st d (inodelk_list dom) []) d now (blocked_inodelks dom) granted contend.

(** ** Removals *)

(** With [contend] NULL the first owner ends the search. *)
Fixpoint owners_loop (st : pl_inode_t) (c : Z) (now : timespec) (ls : list Z) (has_owners : bool)
    (contend : option (list Z)) : outcome (pl_inode_t * bool * option (list Z)) :=
  match ls with
  | [] => Done (st, has_owners, contend)
  | a :: ls =>
      lock ← lock_at st a;
      if client lock =? c then owners_loop st c now ls has_owners contend else
      if client_pid lock <? 0 then owners_loop st c now ls has_owners contend else
      match contend with
      | None => Done (st, true, None)
      | Some l =>
          '(st, l) ← inodelk_contention_notify_check st a now l;
          owners_loop st c now ls true (Some l)
      end
  end.

Definition pl_inode_has_owners (st : pl_inode_t) (c : Z) (now : timespec) (contend : option (list Z)) :
    outcome (pl_inode_t * bool * option (list Z)) :=
  owners_loop st c now (concat (map inodelk_list (dom_list st))) false contend.

(** The stubs that may go on, and those that stay. *)
Fixpoint unlocked_loop (st : pl_inode_t) (ws : list call_stub_t) : outcome (list call_stub_t * list call_stub_t) :=
  match ws with
  | [] => Done ([], [])
  | w :: ws =>
      '(_, o, _) ← pl_inode_has_owners st (stub_client w) (0, 0) None;
      '(wake, stay) ← unlocked_loop st ws;
      Done (if o : bool then (wake, w :: stay) else (w :: wake, stay))
  end.

Definition pl_inode_remove_unlocked (st : pl_inode_t) : outcome (pl_inode_t * list call_stub_t) :=
  if negb (is_locked st) then Done (st, []) else
  '(wake, stay) ← unlocked_loop st (waiting st);
  Done (with_remove st stay (remove_running st) (is_locked st), wake).

(** ** What a call does between two points at which others may run *)

(** A lock request that has been accepted: its client ([ctx], 0 when there is none), the lock, and the frame that
    waits for an answer. *)
Record setlk_call : Set := mkcall {
  s_ctx : Z; s_lock : Z; s_can_block : bool; s_dom : string; s_frame : Z }.

Record inodelk_req : Set := mkreq {
  r_volume : string; r_cmd : lk_cmd; r_flock : gf_flock; r_client : Z; r_opversion : Z; r_pid : Z;
  r_owner : gf_lkowner_t; r_frame : Z }.

(** The values of the member [kind] and the range of [clrlk_args]: [None] when the range does not parse. *)
Record clrlk_args : Set := mkargs { kind : Z; range : option (option gf_flock) }.

Inductive task : Set :=
  | Inodelk (r : inodelk_req)
  | SetlkStart (s : setlk_call)
  | PruneScan (s : setlk_call)
  | Setlk (s : setlk_call)
  | Clear (d : string) (args : clrlk_args)
  | ClearBlocked (d : string) (args : clrlk_args)
  | ClearUnwind (a : Z)
  | ClearGranted (d : string) (args : clrlk_args)
  | ClearUnref (a : Z)
  | InodeUnref
  | Grant (d : string)
  | UnwindGranted (a : Z)
  | UnrefGranted (granted : list Z)
  | Notify (contend : list Z)
  | NotifySend (a : Z)
  | NotifyDone (a : Z)
  | Unwind (frame op_ret op_errno : Z)
  | Cleanup (c : Z)
  | CleanupLoop (c : Z) (pos next : option Z) (released unwind : list Z)
  | CleanupNext (c : Z) (next : option Z) (released unwind : list Z)
  | CleanupUnwind (a : Z)
  | ReleaseGrant (a : Z)
  | ReleaseUnref (a : Z)
  | Remove (s : call_stub_t)
  | RemoveCbk (c : Z).

(** What a section finds: the time, the outcomes of its allocations, the address the next lock gets, whether a stub
    can be allocated, and what [pl_does_monkey_want_stuck_lock] says. *)
Record env : Type := mkenv {
  now : timespec; memory : mem; fresh_lock : Z; stub_ok : bool; stuck : bool }.

(** The state after a task, the tasks the call goes on with, the locks that join its list of contended locks, and the
    calls that start. *)
Record result : Type := mkresult {
  after : pl_inode_t; next_tasks : list task; contended : list Z; spawned : list (list task) }.

Definition pcontend : option (list Z) := if notify_contention priv then Some [] else None.

(** The last step of a call that has a list of contended locks. *)
Definition notify_tasks (contend : option (list Z)) : list task :=
  match contend with Some l => [Notify l] | None => [] end.

Definition unwind_granted_inodes (granted : list Z) : list task :=
  map UnwindGranted granted ++ [UnrefGranted granted].

(** ** Lock requests *)

(** The text from the last colon on. *)
Fixpoint strrchr (s : string) : option string :=
  match s with
  | EmptyString => None
  | String c s' =>
      match strrchr s' with
      | Some r => Some r
      | None => if Ascii.eqb c (Ascii.ascii_of_nat 58) then Some s else None
      end
  end.

(** The error, or the name that replaces the volume. *)
Definition _pl_convert_volume (m : mem) (volume : string) : (Z + option string) * mem :=
  match strrchr volume with
  | Some mdata_vol =>
      if String.eqb mdata_vol ":metadata" then (inr None, m) else
      let '(ok, m) := alloc m in
      if negb ok then (inl ENOMEM, m) else (inr (Some (volume +:+ ":metadata")), m)
  | None =>
      let '(ok, m) := alloc m in
      if negb ok then (inl ENOMEM, m) else (inr (Some (volume +:+ ":metadata")), m)
  end.

Definition _pl_convert_volume_for_special_range (m : mem) (flock : gf_flock) (volume : string) :
    (Z + option string) * mem :=
  if (l_start flock =? LLONG_MAX - 1) && (l_len flock =? 0) then _pl_convert_volume m volume else (inr None, m).

Definition new_inode_lock (m : mem) (r : inodelk_req) (volume : string) : (Z + pl_inode_lock_t) * mem :=
  if negb (pl_is_lk_owner_valid (r_opversion r) (r_owner r) (r_client r)) then (inl EINVAL, m) else
  let '(ok, m) := alloc m in
  if negb ok then (inl ENOMEM, m) else
  let flock := r_flock r in
  (inr (mkilock false false 1 (l_start flock)
          (if l_len flock =? 0 then LLONG_MAX else s64 (l_start flock + l_len flock - 1))
          volume flock (r_frame r) 0 0 (0, 0) (r_client r) (r_owner r) (r_pid r) (l_type flock) 0), m).

(** The answer to the call. *)
Definition setlk_answer (s : setlk_call) (type : lk_type) (ret : Z) : list task :=
  if ret <? 0 then
    if (ret =? - EAGAIN) && s_can_block s && negb (bool_decide (type = F_UNLCK)) then []
    else [Unwind (s_frame s) (-1) (- ret)]
  else [Unwind (s_frame s) 0 0].

(** Up to the call of [pl_inode_setlk], whose first step is the reference on the inode. *)
Definition pl_common_inodelk (e : env) (st : pl_inode_t) (r : inodelk_req) : result :=
  let fail (st : pl_inode_t) (errno : Z) := mkresult st [Unwind (r_frame r) (-1) errno] [] [] in
  let flock := r_flock r in
  if (l_start flock <? 0) || (l_len flock <? 0) then fail st EINVAL else
  match _pl_convert_volume_for_special_range (memory e) flock (r_volume r) with
  | (inl errno, _) => fail st errno
  | (inr res, m) =>
      let volume := default (r_volume r) res in
      let '(ctx, m) := if r_client r =? 0 then (true, m) else alloc m in
      if negb ctx then fail st ENOMEM else
      match get_domain m st volume with
      | (None, _) => fail st ENOMEM
      | (Some (st, d), m) =>
          match new_inode_lock m r d with
          | (inl errno, _) => fail st errno
          | (inr lock, _) =>
              let st := set_lock st (fresh_lock e) lock in
              let call b := mkcall (r_client r) (fresh_lock e) b d (r_frame r) in
              match r_cmd r with
              | F_SETLKW => mkresult (inode_ref st) [SetlkStart (call true)] [] []
              | F_SETLK => mkresult (inode_ref st) [SetlkStart (call false)] [] []
              | _ => fail st ENOTSUP
              end
          end
      end
  end.

Definition __stale_inodelk (now : timespec) (candidate_lock requested_lock : pl_inode_lock_t) : bool :=
  inodelk_conflict candidate_lock requested_lock && (revocation_secs priv <? now.1 - granted_time candidate_lock).

(** Revocation and the stuck lock; the look at the list is before the section that searches it. *)
Definition setlk_start (e : env) (st : pl_inode_t) (s : setlk_call) : outcome result :=
  lock ← lock_at st (s_lock s);
  if revocation_secs priv =? 0 then Done (mkresult st [Setlk s] [] []) else
  if negb (bool_decide (fl_type lock = F_UNLCK)) then
    dom ← dom_at st (s_dom s);
    Done (mkresult st [match inodelk_list dom with [] => Setlk s | _ => PruneScan s end] [] [])
  else if monkey_unlocking priv && stuck e then
    st ← __pl_inodelk_unref st (s_lock s);
    Done (mkresult (inode_unref st) [Unwind (s_frame s) 0 0] [] [])
  else Done (mkresult st [Setlk s] [] []).

Definition __inodelk_prune_stale (e : env) (st : pl_inode_t) (s : setlk_call) : outcome result :=
  lock ← lock_at st (s_lock s);
  dom ← dom_at st (s_dom s);
  stale ← first_lock (fun l => __stale_inodelk (now e) l lock) st (inodelk_list dom);
  let max_blocked := revocation_max_blocked priv in
  let revoke_lock :=
    (match stale with Some _ => true | None => false end) ||
    (negb (max_blocked =? 0) && (max_blocked <=? Z.of_nat (length (blocked_inodelks dom)))) in
  let args := mkargs (if revocation_clear_all priv then CLRLK_ALL else CLRLK_GRANTED) (Some None) in
  Done (mkresult st ((if revoke_lock then [Clear (s_dom s) args] else []) ++ [Setlk s]) [] []).

(** The section of [pl_inode_setlk], and what it leaves to do. *)
Definition pl_inode_setlk (e : env) (st : pl_inode_t) (s : setlk_call) : outcome result :=
  lock ← lock_at st (s_lock s);
  if negb (bool_decide (fl_type lock = F_UNLCK)) then
    '(st, ret, contend) ← __lock_inodelk st (s_lock s) (s_can_block s) (s_dom s) (now e) pcontend;
    l ← lock_at st (s_lock s);
    let st := if ret =? 0 then set_lock st (s_lock s) (set_frame l 0) else st in
    let need_inode_unref := negb (ret =? 0) && (negb (ret =? - EAGAIN) || negb (s_can_block s)) in
    let st := if negb (s_ctx s =? 0) && negb need_inode_unref then add_client st (s_ctx s) (s_lock s) else st in
    st ← (if (ret =? - EAGAIN) && s_can_block s then Done st else __pl_inodelk_unref st (s_lock s));
    Done (mkresult st
            ((if need_inode_unref then [InodeUnref] else []) ++ notify_tasks contend ++ setlk_answer s (fl_type lock) ret)
            [] [])
  else
    '(st, retlock) ← __inode_unlock_lock st lock (s_dom s);
    match retlock with
    | None =>
        st ← __pl_inodelk_unref st (s_lock s);
        Done (mkresult st ([InodeUnref] ++ notify_tasks pcontend ++ setlk_answer s (fl_type lock) (- EINVAL)) [] [])
    | Some retlock =>
        st ← __pl_inodelk_unref (del_client st retlock) retlock;
        '(st, wake) ← pl_inode_remove_unlocked st;
        st ← __pl_inodelk_unref st (s_lock s);
        Done (mkresult st
                (map Remove wake ++ [InodeUnref; Grant (s_dom s); InodeUnref] ++ notify_tasks pcontend ++
                 setlk_answer s (fl_type lock) 0) [] [])
    end.

(** ** Granting, and the end of what was granted *)

Definition grant_blocked_inode_locks (e : env) (st : pl_inode_t) (d : string) : outcome result :=
  '(st, granted, contend) ← __grant_blocked_inode_locks st [] d (now e) pcontend;
  Done (mkresult st (unwind_granted_inodes granted) (default [] contend) []).

(** The first loop of [unwind_granted_inodes], for one lock. *)
Definition unwind_granted (st : pl_inode_t) (a : Z) : outcome result :=
  l ← lock_at st a;
  let st := if status l =? 0 then unwind st (frame l) 0 0 else unwind st (frame l) (-1) (- status l) in
  Done (mkresult (set_lock st a (set_frame l 0)) [] [] []).

(** Its second loop. *)
Fixpoint unref_all (st : pl_inode_t) (ls : list Z) : outcome pl_inode_t :=
  match ls with
  | [] => Done st
  | a :: ls => st ← __pl_inodelk_unref st a; unref_all st ls
  end.

(** [inodelk_contention_notify], the first section for a lock and the notice. *)
Definition notify_send (st : pl_inode_t) (a : Z) : outcome result :=
  l ← lock_at st a;
  Done (mkresult
          (if listed l then emit st (Upcall (client l) (volume l) (user_flock l))
           else set_lock st a (set_contend l (contending l) (0, 0))) [] [] []).

(** The second section. *)
Definition notify_done (st : pl_inode_t) (a : Z) : outcome result :=
  l ← lock_at st a;
  st ← __pl_inodelk_unref (set_lock st a (set_contend l false (contention_time l))) a;
  Done (mkresult (inode_unref st) [] [] []).

(** ** Clearing locks (clear.c) *)

Definition in_range (ulock : option gf_flock) (l : pl_inode_lock_t) : bool :=
  match ulock with
  | None => true
  | Some u =>
      (l_whence (user_flock l) =? l_whence u) && (l_start (user_flock l) =? l_start u) &&
      (l_len (user_flock l) =? l_len u)
  end.

(** The locks of a list that are in the range, and the others. *)
Fixpoint split_range (ulock : option gf_flock) (st : pl_inode_t) (ls : list Z) : outcome (list Z * list Z) :=
  match ls with
  | [] => Done ([], [])
  | a :: ls =>
      l ← lock_at st a;
      '(ins, outs) ← split_range ulock st ls;
      Done (if in_range ulock l then (a :: ins, outs) else (ins, a :: outs))
  end.

Definition has_kind (args : clrlk_args) (k : Z) : bool := negb (Z.land (kind args) k =? 0).

Definition clrlk_clear_inodelk (st : pl_inode_t) (d : string) (args : clrlk_args) : result :=
  let finish := [Grant d] ++ notify_tasks pcontend in
  match range args with
  | None => mkresult st finish [] []
  | Some _ =>
      mkresult st
        ((if has_kind args CLRLK_BLOCKED then [ClearBlocked d args]
          else if has_kind args CLRLK_GRANTED then [ClearGranted d args] else [ClearBlocked d args]) ++ finish) [] []
  end.

Definition clear_blocked (st : pl_inode_t) (d : string) (args : clrlk_args) : outcome result :=
  dom ← dom_at st d;
  ulock ← need (range args);
  '(released, stay) ← split_range ulock st (blocked_inodelks dom);
  let st := foldl del_client (set_dom st d (inodelk_list dom) stay) released in
  Done (mkresult st
          (map ClearUnwind (rev released) ++ (if has_kind args CLRLK_GRANTED then [ClearGranted d args] else [])) [] []).

Definition clear_unwind (st : pl_inode_t) (a : Z) : outcome result :=
  l ← lock_at st a;
  st ← __pl_inodelk_unref (unwind st (frame l) (-1) EAGAIN) a;
  Done (mkresult st [] [] []).

(** The locks that go are on the list of the call by their link [list]: they stay [listed]. *)
Definition clear_granted (st : pl_inode_t) (d : string) (args : clrlk_args) : outcome result :=
  dom ← dom_at st d;
  ulock ← need (range args);
  '(released, stay) ← split_range ulock st (inodelk_list dom);
  let st := foldl del_client (set_dom st d stay (blocked_inodelks dom)) released in
  Done (mkresult st (map ClearUnref (rev released)) [] []).

Definition clear_unref (st : pl_inode_t) (a : Z) : outcome result :=
  l ← lock_at st a;
  st ← __pl_inodelk_unref (set_lock st a (set_listed l false)) a;
  Done (mkresult st [] [] []).

(** ** The end of a client *)

(** The entry after [a] in the list of a client; an entry that has been taken off points to itself, [None] is the
    head of the list. *)
Fixpoint succ_in (a : Z) (ls : list Z) : option (option Z) :=
  match ls with
  | [] => None
  | b :: ls => if b =? a then Some (head ls) else succ_in a ls
  end.

Definition next_of (st : pl_inode_t) (c a : Z) : outcome (option Z) :=
  l ← lock_at st a;
  Done (default (Some a) (succ_in a (lockers st c))).

(** [n->client_list.next], where [n] may be the head of the list. *)
Definition next_entry (st : pl_inode_t) (c : Z) (n : option Z) : outcome (option Z) :=
  match n with Some a => next_of st c a | None => Done (head (lockers st c)) end.

(** The lock of the client is taken. *)
Definition pl_inodelk_client_cleanup (st : pl_inode_t) (c : Z) : outcome result :=
  let st := with_ctx st ({[c]} ∪ ctx_locked st) in
  let pos := head (lockers st c) in
  next ← next_entry st c pos;
  Done (mkresult st [CleanupLoop c pos next [] []] [] []).

(** One lock of the list, or the end of the loop and the two loops after it. *)
Definition cleanup_loop (st : pl_inode_t) (c : Z) (pos next : option Z) (released unwind : list Z) : outcome result :=
  match pos with
  | None =>
      Done (mkresult (with_ctx st (ctx_locked st ∖ {[c]}))
              (map CleanupUnwind unwind ++ map ReleaseGrant (released ++ unwind) ++ notify_tasks pcontend) [] [])
  | Some a =>
      l ← lock_at st a;
      let st := del_client st a in
      if listed l then
        st ← __delete_inode_lock st a;
        Done (mkresult st [CleanupNext c next (released ++ [a]) unwind] [] [])
      else
        Done (mkresult (del_blocked st a) [CleanupNext c next released (unwind ++ [a])] [] [])
  end.

(** [pos = n, n = n->next], outside of the mutex of the inode. *)
Definition cleanup_next (st : pl_inode_t) (c : Z) (next : option Z) (released unwind : list Z) : outcome result :=
  next' ← next_entry st c next;
  Done (mkresult st [CleanupLoop c next next' released unwind] [] []).

Definition cleanup_unwind (st : pl_inode_t) (a : Z) : outcome result :=
  l ← lock_at st a;
  Done (mkresult (unwind st (frame l) (-1) EAGAIN) [] [] []).

Definition release_grant (e : env) (st : pl_inode_t) (a : Z) : outcome result :=
  l ← lock_at st a;
  match get_domain (memory e) st (volume l) with
  | (Some (st, d), _) => Done (mkresult st [Grant d; ReleaseUnref a] [] [])
  | (None, _) => Fault
  end.

Definition release_unref (st : pl_inode_t) (a : Z) : outcome result :=
  st ← __pl_inodelk_unref st a; Done (mkresult (inode_unref st) [] [] []).

(** ** Removing the file *)

(** [pl_inode_remove_prepare], with the reference [pl_inode_from_loc] takes, and [pl_inode_remove_complete], which
    shares its section.  Without memory for the stub the contended locks are taken off their list as if they were
    linked by [list]: the address of the lock is wrong. *)
Definition pl_inode_remove (e : env) (st : pl_inode_t) (s : call_stub_t) : outcome result :=
  '(st, has_owners, contend) ← pl_inode_has_owners (inode_ref st) (stub_client s) (now e) (Some []);
  let contend := default [] contend in
  if has_owners : bool then
    if stub_ok e then
      Done (mkresult (with_remove st (waiting st ++ [s]) (remove_running st) true) [Notify contend; InodeUnref] [] [])
    else
      match contend with
      | [] => Done (mkresult st [InodeUnref; Unwind (stub_frame s) (-1) ENOMEM] [] [])
      | _ => Fault
      end
  else
    Done (mkresult (emit (with_remove st (waiting st) (u32 (remove_running st + 1)) true) (Wind s)) [] []
            [[RemoveCbk (stub_client s)]]).

(** The domains in turn. *)
Fixpoint grant_all (st : pl_inode_t) (now : timespec) (ds : list string) (granted : list Z) (contend : option (list Z)) :
    outcome (pl_inode_t * list Z * option (list Z)) :=
  match ds with
  | [] => Done (st, granted, contend)
  | d :: ds =>
      '(st, granted, contend) ← __grant_blocked_inode_locks st granted d now contend;
      grant_all st now ds granted contend
  end.

Definition pl_inode_remove_cbk (e : env) (st : pl_inode_t) : outcome result :=
  let running := u32 (remove_running st - 1) in
  let st := with_remove st (waiting st) running (is_locked st) in
  '(st, granted, contend) ←
    (if (running =? 0) && (match waiting st with [] => true | _ => false end) then
       grant_all (with_remove st (waiting st) running false) (now e) (map domain (dom_list st)) [] (Some [])
     else Done (st, [], Some []));
  Done (mkresult st (unwind_granted_inodes granted ++ notify_tasks contend ++ [InodeUnref]) [] []).

(** ** Calls and threads *)

Definition exec (e : env) (st : pl_inode_t) (t : task) : outcome result :=
  match t with
  | Inodelk r => Done (pl_common_inodelk e st r)
  | SetlkStart s => setlk_start e st s
  | PruneScan s => __inodelk_prune_stale e st s
  | Setlk s => pl_inode_setlk e st s
  | Clear d args => Done (clrlk_clear_inodelk st d args)
  | ClearBlocked d args => clear_blocked st d args
  | ClearUnwind a => clear_unwind st a
  | ClearGranted d args => clear_granted st d args
  | ClearUnref a => clear_unref st a
  | InodeUnref => Done (mkresult (inode_unref st) [] [] [])
  | Grant d => grant_blocked_inode_locks e st d
  | UnwindGranted a => unwind_granted st a
  | UnrefGranted g => st ← unref_all st g; Done (mkresult st [] [] [])
  | Notify l => Done (mkresult st (concat (map (fun a => [NotifySend a; NotifyDone a]) l)) [] [])
  | NotifySend a => notify_send st a
  | NotifyDone a => notify_done st a
  | Unwind f r n => Done (mkresult (unwind st f r n) [] [] [])
  | Cleanup c => pl_inodelk_client_cleanup st c
  | CleanupLoop c p n r u => cleanup_loop st c p n r u
  | CleanupNext c n r u => cleanup_next st c n r u
  | CleanupUnwind a => cleanup_unwind st a
  | ReleaseGrant a => release_grant e st a
  | ReleaseUnref a => release_unref st a
  | Remove s => pl_inode_remove e st s
  | RemoveCbk _ => pl_inode_remove_cbk e st
  end.

(** The lock of the client keeps a task waiting. *)
Definition enabled (st : pl_inode_t) (t : task) : bool :=
  match t with
  | Setlk s => (s_ctx s =? 0) || bool_decide (s_ctx s ∉ ctx_locked st)
  | Cleanup c => bool_decide (c ∉ ctx_locked st)
  | _ => true
  end.

(** The locks that a task finds contended join the list of the call. *)
Fixpoint add_contended (l : list Z) (k : list task) : list task :=
  match k with
  | [] => []
  | Notify c :: k => Notify (c ++ l) :: k
  | t :: k => t :: add_contended l k
  end.

End Locks.

(** The calls that have not ended, each with what it has left to do. *)
Record world : Type := mkworld { inode : pl_inode_t; threads : list (list task) }.

(** The removals that run. *)
Definition is_cbk (t : task) : bool := match t with RemoveCbk _ => true | _ => false end.
Definition running (w : world) : Z := Z.of_nat (length (List.filter is_cbk (concat (threads w)))).

(** What arrives: requests, the end of a client, removals and orders to clear locks. *)
Definition arrives (t : task) : bool :=
  match t with
  | Inodelk _ | Remove _ | Clear _ _ => true
  | Cleanup c => negb (c =? 0)
  | _ => false
  end.

(** [allowed] restricts what arrives and [fair] what a section finds.  A lock gets an address that is free, and fewer
    than 2^32 removals of one file run at a time. *)
Inductive step (priv : posix_locks_private_t) (allowed : task -> bool) (fair : env -> bool) : world -> world -> Prop :=
  | step_arrive w t :
      arrives t = true -> allowed t = true ->
      step priv allowed fair w (mkworld (inode w) (threads w ++ [[t]]))
  | step_run w e t k before after_ r :
      threads w = before ++ (t :: k) :: after_ ->
      fair e = true -> heap (inode w) !! fresh_lock e = None -> fresh_lock e <> 0 ->
      enabled (inode w) t = true ->
      exec priv e (inode w) t = Done r ->
      let w' := mkworld (after r) (before ++ (next_tasks r ++ add_contended (contended r) k) :: after_ ++ spawned r) in
      running w' < 2 ^ 32 ->
      step priv allowed fair w w'.

Definition inode0 : pl_inode_t := mkinode ∅ [] [] 0 false 0 ∅ ∅ [].
Definition world0 : world := mkworld inode0 [].

Definition reachable (priv : posix_locks_private_t) (allowed : task -> bool) (fair : env -> bool) (w : world) : Prop :=
  rtc (step priv allowed fair) world0 w.
