(* ===== verification/PlInodelkStore.v ===== *)
(** * The locks in memory (PlInodelk)

    Every reference to a lock is accounted for: a lock that is in a list of a
    domain, or in limbo while the list of the waiting locks is gone through,
    has one reference for it, and every further reference is held by a call
    that still runs.  [store L st H n] says so of a state, for the locks [L] in
    limbo, the references [H] that calls hold on locks, and the [n] references
    they hold on the inode; the lemmas follow it through the primitive
    operations. *)
From stdpp Require Import gmap strings.
From S2P Require Import Prelude PlCommon PlPosix PlInodelk.

(** ** Counting *)

Fixpoint occ (x : Z) (l : list Z) : Z :=
  match l with [] => 0 | y :: l => (if y =? x then 1 else 0) + occ x l end.

Lemma occ_app x l1 l2 : occ x (l1 ++ l2) = occ x l1 + occ x l2.
Proof. induction l1 as [|y l1 IH]; cbn; lia. Qed.

Lemma occ_nonneg x l : 0 <= occ x l.
Proof. induction l as [|y l IH]; cbn; [done|]. case_match; lia. Qed.

Lemma occ_elem x l : x ∈ l <-> 1 <= occ x l.
Proof.
  induction l as [|y l IH]; cbn; [set_solver by lia|].
  pose proof (occ_nonneg x l). rewrite elem_of_cons, IH. case_match; lia.
Qed.

Lemma occ_not_elem x l : x ∉ l <-> occ x l = 0.
Proof. rewrite occ_elem. pose proof (occ_nonneg x l). lia. Qed.

Lemma occ_perm x l1 l2 : Permutation l1 l2 -> occ x l1 = occ x l2.
Proof. induction 1; cbn; lia. Qed.

Lemma occ_nodup x l : NoDup l -> occ x l <= 1.
Proof.
  induction 1 as [|y l Hy _ IH]; cbn; [lia|]. destruct (y =? x) eqn:E; [|lia].
  apply Z.eqb_eq in E as ->. apply occ_not_elem in Hy. lia.
Qed.

(** ** Views of a state *)

(** What stays of a lock from its creation on. *)
Definition static (l : pl_inode_lock_t) : pl_inode_lock_t := set_ref (set_contend l false (0, 0)) 0.
Definition core (l : pl_inode_lock_t) : pl_inode_lock_t :=
  set_status (set_times (set_frame (set_listed (static l) false) 0) 0 0) 0.

Lemma static_core l l' : static l = static l' -> core l = core l'.
Proof. unfold core. by intros ->. Qed.

Lemma conflict_core l1 l2 : inodelk_conflict (core l1) (core l2) = inodelk_conflict l1 l2.
Proof. done. Qed.

Lemma owner_core l1 l2 : same_inodelk_owner (core l1) (core l2) = same_inodelk_owner l1 l2.
Proof. done. Qed.

(** The lock at an address. *)
Definition nil_lock : pl_inode_lock_t :=
  mkilock false false 0 0 0 EmptyString (mkflock F_UNLCK 0 0 0 0 []) 0 0 0 (0, 0) 0 [] 0 F_UNLCK 0.
Definition lk (st : pl_inode_t) (x : Z) : pl_inode_lock_t := default nil_lock (heap st !! x).

Definition rc (st : pl_inode_t) (x : Z) : Z := match heap st !! x with Some l => ref l | None => 0 end.

Definition dom_locks (d : pl_dom_list_t) : list Z := inodelk_list d ++ blocked_inodelks d.
Definition in_lists (st : pl_inode_t) : list Z := concat (map dom_locks (dom_list st)).

Definition present (st : pl_inode_t) (x : Z) : Prop := is_Some (heap st !! x).

Lemma lk_some st x l : heap st !! x = Some l -> lk st x = l.
Proof. unfold lk. by intros ->. Qed.

Lemma present_lk st x : present st x -> heap st !! x = Some (lk st x).
Proof. intros [l Hl]. by rewrite (lk_some _ _ _ Hl). Qed.

Lemma lock_at_present st x : present st x -> lock_at st x = Done (lk st x).
Proof. intros H. unfold lock_at. by rewrite (present_lk _ _ H). Qed.

Lemma in_lists_elem st x : x ∈ in_lists st <-> exists d, d ∈ dom_list st /\ x ∈ dom_locks d.
Proof.
  unfold in_lists. induction (dom_list st) as [|d ds IH]; cbn; [set_solver|].
  rewrite elem_of_app, IH. set_solver.
Qed.

Lemma granted_in_lists st d x : d ∈ dom_list st -> x ∈ inodelk_list d -> x ∈ in_lists st.
Proof. intros Hd Hx. apply in_lists_elem. exists d. unfold dom_locks. set_solver. Qed.

Lemma blocked_in_lists st d x : d ∈ dom_list st -> x ∈ blocked_inodelks d -> x ∈ in_lists st.
Proof. intros Hd Hx. apply in_lists_elem. exists d. unfold dom_locks. set_solver. Qed.

(** ** Domains *)

Lemma find_dom_some ds d x : find_dom ds d = Some x -> x ∈ ds /\ domain x = d.
Proof.
  induction ds as [|y ds IH]; cbn; [done|]. destruct (String.eqb_spec (domain y) d) as [E|]; intros.
  - simplify_eq. set_solver.
  - naive_solver set_solver.
Qed.

Lemma find_dom_nodup ds x : NoDup (map domain ds) -> x ∈ ds -> find_dom ds (domain x) = Some x.
Proof.
  induction ds as [|y ds IH]; cbn; [set_solver|]. rewrite NoDup_cons, elem_of_cons. intros [Hy Hd] [->|Hx].
  - by rewrite String.eqb_refl.
  - destruct (String.eqb_spec (domain y) (domain x)) as [E|]; [|auto].
    destruct Hy. rewrite E. by apply list_elem_of_fmap_2.
Qed.

Definition upd_dom (d : string) (g b : list Z) (x : pl_dom_list_t) : pl_dom_list_t :=
  if String.eqb (domain x) d then mkdom d g b else x.

Lemma map_domain_upd d g b ds : map domain (map (upd_dom d g b) ds) = map domain ds.
Proof.
  rewrite map_map. apply map_ext. intros x. unfold upd_dom. destruct (String.eqb_spec (domain x) d); [done|done].
Qed.

Lemma upd_dom_other d g b ds : d ∉ map domain ds -> map (upd_dom d g b) ds = ds.
Proof.
  induction ds as [|y ds IH]; cbn; [done|]. rewrite not_elem_of_cons. intros [Hy Hd]. rewrite IH by done.
  unfold upd_dom. destruct (String.eqb_spec (domain y) d); congruence.
Qed.

(** Updating one domain exchanges its locks. *)
Lemma in_lists_upd st d x g b :
  NoDup (map domain (dom_list st)) -> find_dom (dom_list st) d = Some x ->
  exists rest, Permutation (in_lists st) (dom_locks x ++ rest) /\
               Permutation (in_lists (set_dom st d g b)) ((g ++ b) ++ rest).
Proof.
  unfold in_lists, set_dom. cbn [dom_list with_doms]. fold (upd_dom d g b).
  induction (dom_list st) as [|y ds IH]; cbn; [done|]. rewrite NoDup_cons. intros [Hy Hd].
  destruct (String.eqb_spec (domain y) d) as [E|E]; intros.
  - simplify_eq. exists (concat (map dom_locks ds)). split; [done|].
    rewrite upd_dom_other by done. unfold upd_dom. by rewrite String.eqb_refl.
  - destruct IH as (rest & H1 & H2); [done..|]. exists (dom_locks y ++ rest).
    unfold upd_dom at 1. destruct (String.eqb_spec (domain y) d); [done|].
    split; [rewrite H1|rewrite H2]; apply Permutation_app_swap_app.
Qed.

Lemma set_dom_elem st d x g b y :
  NoDup (map domain (dom_list st)) -> find_dom (dom_list st) d = Some x ->
  y ∈ dom_list (set_dom st d g b) <-> y = mkdom d g b \/ (y ∈ dom_list st /\ domain y <> d).
Proof.
  intros Hn Hx. unfold set_dom. cbn [dom_list with_doms]. fold (upd_dom d g b).
  apply find_dom_some in Hx as [Hx <-]. rewrite list_elem_of_fmap. unfold upd_dom. split.
  - intros (z & -> & Hz). destruct (String.eqb_spec (domain z) (domain x)); auto.
  - intros [->|[Hy Hd]].
    + exists x. by rewrite String.eqb_refl.
    + exists y. by destruct (String.eqb_spec (domain y) (domain x)).
Qed.

Lemma find_dom_upd st d g b d' :
  find_dom (dom_list (set_dom st d g b)) d' =
  if String.eqb d d' then (fun _ => mkdom d g b) <$> find_dom (dom_list st) d else find_dom (dom_list st) d'.
Proof.
  unfold set_dom. cbn [dom_list with_doms]. fold (upd_dom d g b).
  induction (dom_list st) as [|y ds IH]; cbn; [by case_match|].
  unfold upd_dom at 1 2. destruct (String.eqb_spec (domain y) d) as [E|E]; cbn [domain].
  - destruct (String.eqb_spec d d') as [E'|E']; cbn; [done|]. rewrite E.
    destruct (String.eqb_spec d d'); [congruence|]. rewrite IH. by destruct (String.eqb_spec d d').
  - destruct (String.eqb_spec (domain y) d') as [E'|E']; cbn.
    + destruct (String.eqb_spec d d'); congruence.
    + rewrite IH. done.
Qed.

(** ** The invariant of the store *)

Lemma nodup_occ l : (forall x, occ x l <= 1) -> NoDup l.
Proof.
  induction l as [|y l IH]; intros H; constructor.
  - apply occ_not_elem. specialize (H y). cbn in H. rewrite Z.eqb_refl in H. pose proof (occ_nonneg y l). lia.
  - apply IH. intros x. specialize (H x). cbn in H. case_match; lia.
Qed.

Record store (L : list Z) (st : pl_inode_t) (H : list Z) (n : Z) : Prop := {
  s_acct x : occ x (in_lists st ++ L) + occ x H = rc st x;
  s_pos x l : heap st !! x = Some l -> 1 <= ref l;
  s_irefs : inode_refs st = Z.of_nat (length (in_lists st ++ L)) + n;
  s_nodup : NoDup (in_lists st ++ L);
  s_doms : NoDup (map domain (dom_list st));
  s_granted d x : d ∈ dom_list st -> x ∈ inodelk_list d -> listed (lk st x) = true /\ volume (lk st x) = domain d;
  s_blocked d x : d ∈ dom_list st -> x ∈ blocked_inodelks d -> listed (lk st x) = false /\ volume (lk st x) = domain d;
  s_limbo x : x ∈ L -> listed (lk st x) = false;
  s_excl d x y : d ∈ dom_list st -> x ∈ inodelk_list d -> y ∈ inodelk_list d ->
    inodelk_conflict (lk st x) (lk st y) = true -> same_inodelk_owner (lk st x) (lk st y) = true }.

Lemma rc_present st x : 1 <= rc st x -> present st x.
Proof. unfold rc, present. destruct (heap st !! x); [by eexists|lia]. Qed.

Lemma store_present L st H n x : store L st H n -> x ∈ (in_lists st ++ L) ++ H -> present st x.
Proof.
  intros S. rewrite occ_elem, occ_app, (s_acct _ _ _ _ S). apply rc_present.
Qed.

Lemma store_listed L st H n x : store L st H n -> x ∈ in_lists st -> present st x.
Proof. intros S Hx. apply (store_present _ _ _ _ _ S). set_solver. Qed.

Lemma store_held L st H n x : store L st H n -> x ∈ H -> present st x.
Proof. intros S Hx. apply (store_present _ _ _ _ _ S). set_solver. Qed.

(** Held references are a multiset. *)
Lemma store_perm L st H H' n n' :
  store L st H n -> (forall x, occ x H' = occ x H) -> n' = n -> store L st H' n'.
Proof. intros S Hp ->. destruct S; split; auto. intros x. by rewrite Hp. Qed.

Lemma volume_core l l' : core l' = core l -> volume l' = volume l.
Proof. intros E. exact (f_equal volume E). Qed.

Lemma conflict_core_eq l1 l2 l1' l2' :
  core l1' = core l1 -> core l2' = core l2 -> inodelk_conflict l1' l2' = inodelk_conflict l1 l2.
Proof. intros E1 E2. rewrite <- conflict_core, E1, E2. done. Qed.

Lemma owner_core_eq l1 l2 l1' l2' :
  core l1' = core l1 -> core l2' = core l2 -> same_inodelk_owner l1' l2' = same_inodelk_owner l1 l2.
Proof. intros E1 E2. rewrite <- owner_core, E1, E2. done. Qed.

Lemma conflict_sym l1 l2 : inodelk_conflict l1 l2 = inodelk_conflict l2 l1.
Proof.
  unfold inodelk_conflict, inodelk_overlap, inodelk_type_conflict.
  by rewrite (andb_comm (_ <=? _)), (orb_comm (bool_decide (fl_type l2 = _))).
Qed.

Lemma owner_sym l1 l2 : same_inodelk_owner l1 l2 = same_inodelk_owner l2 l1.
Proof.
  unfold same_inodelk_owner, is_same_lkowner. rewrite Z.eqb_sym. f_equal. by apply bool_decide_ext.
Qed.

(** ** Changes that leave the lists alone *)

Lemma store_change L st st' H H' n n' :
  store L st H n -> dom_list st' = dom_list st -> inode_refs st' - n' = inode_refs st - n ->
  (forall x, rc st' x - occ x H' = rc st x - occ x H) ->
  (forall x l, heap st' !! x = Some l -> 1 <= ref l) ->
  (forall x, x ∈ in_lists st ++ L -> listed (lk st' x) = listed (lk st x) /\ core (lk st' x) = core (lk st x)) ->
  store L st' H' n'.
Proof.
  intros S Hd Hn Hr Hp Hl.
  assert (E : in_lists st' = in_lists st) by (unfold in_lists; by rewrite Hd).
  split; rewrite ?E, ?Hd; auto.
  - intros x. specialize (Hr x). pose proof (s_acct _ _ _ _ S x). lia.
  - pose proof (s_irefs _ _ _ _ S). lia.
  - apply S.
  - apply S.
  - intros d x Hx Hg. destruct (Hl x) as [-> Hc]; [apply elem_of_app; left; eauto using granted_in_lists|].
    rewrite (volume_core _ _ Hc). by apply S.
  - intros d x Hx Hb. destruct (Hl x) as [-> Hc]; [apply elem_of_app; left; eauto using blocked_in_lists|].
    rewrite (volume_core _ _ Hc). by apply S.
  - intros x Hx. destruct (Hl x) as [-> _]; [set_solver|]. by apply S.
  - intros d x y Hx Hgx Hgy.
    destruct (Hl x) as [_ Hcx]; [apply elem_of_app; left; eauto using granted_in_lists|].
    destruct (Hl y) as [_ Hcy]; [apply elem_of_app; left; eauto using granted_in_lists|].
    rewrite (conflict_core_eq _ _ _ _ Hcx Hcy), (owner_core_eq _ _ _ _ Hcx Hcy). eauto using s_excl.
Qed.

Lemma lk_set_lock st a l x : lk (set_lock st a l) x = if decide (x = a) then l else lk st x.
Proof.
  unfold lk, set_lock. cbn [heap with_heap]. case_decide as E; [subst; by rewrite lookup_insert_eq|].
  by rewrite lookup_insert_ne.
Qed.

Lemma rc_set_lock st a l x : rc (set_lock st a l) x = if decide (x = a) then ref l else rc st x.
Proof.
  unfold rc, set_lock. cbn [heap with_heap]. case_decide as E; [subst; by rewrite lookup_insert_eq|].
  by rewrite lookup_insert_ne.
Qed.

(** A lock is overwritten by one with the same references. *)
Lemma store_set_lock L st H n a l l' :
  store L st H n -> heap st !! a = Some l -> ref l' = ref l -> listed l' = listed l -> core l' = core l ->
  store L (set_lock st a l') H n.
Proof.
  intros S Ha Hr Hl Hc. apply (store_change _ _ _ _ _ _ _ S); [done|done| | |].
  - intros x. rewrite rc_set_lock. case_decide; [|done]. subst. unfold rc. rewrite Ha. lia.
  - intros x l0. unfold set_lock. cbn [heap with_heap]. destruct (decide (a = x)) as [->|].
    + rewrite lookup_insert_eq. intros [= <-]. rewrite Hr. by apply (s_pos _ _ _ _ S x).
    + rewrite lookup_insert_ne by done. apply S.
  - intros x _. rewrite lk_set_lock. case_decide; [|done]. subst. by rewrite (lk_some _ _ _ Ha).
Qed.

(** ** References *)

Lemma store_unref L st H n a :
  store L st (a :: H) n ->
  exists st', __pl_inodelk_unref st a = Done st' /\ store L st' H n /\
    (forall x, x <> a -> heap st' !! x = heap st !! x) /\
    (forall l', heap st' !! a = Some l' -> core l' = core (lk st a) /\ listed l' = listed (lk st a) /\
                                         frame l' = frame (lk st a) /\ status l' = status (lk st a)) /\
    exists h, st' = with_heap st h.
Proof.
  intros S. assert (Ha : present st a) by (eapply store_held; [exact S|set_solver]).
  unfold __pl_inodelk_unref. rewrite (lock_at_present _ _ Ha). run.
  assert (Hrc : rc st a = ref (lk st a)) by (unfold rc; by rewrite (present_lk _ _ Ha)).
  pose proof (s_acct _ _ _ _ S a) as Hac. cbn [occ] in Hac. rewrite Z.eqb_refl in Hac.
  pose proof (occ_nonneg a H) as HH. pose proof (occ_nonneg a (in_lists st ++ L)) as HL.
  destruct (Z.eqb_spec (ref (lk st a) - 1) 0) as [E|E]; eexists; (split; [done|]); (split; [|split; [|split]]).
  - apply (store_change _ _ _ _ _ _ _ S); [done|done| | |]; cbn [heap with_heap].
    + intros x. unfold rc at 1. cbn [heap with_heap occ]. destruct (Z.eqb_spec a x) as [->|].
      * rewrite lookup_delete_eq. lia.
      * rewrite lookup_delete_ne by done. fold (rc st x). lia.
    + intros x l Hl. apply lookup_delete_Some in Hl as [_ Hl]. by apply (s_pos _ _ _ _ S x).
    + intros x Hx. assert (x <> a) by (intros ->; apply occ_elem in Hx; lia).
      unfold lk. cbn [heap with_heap]. by rewrite lookup_delete_ne.
  - intros x Hx. cbn [heap with_heap]. by rewrite lookup_delete_ne.
  - intros l' Hl'. cbn [heap with_heap] in Hl'. by rewrite lookup_delete_eq in Hl'.
  - by eexists.
  - apply (store_change _ _ _ _ _ _ _ S); [done|done| | |].
    + intros x. rewrite rc_set_lock. cbn [occ]. case_decide as Ex.
      * subst. rewrite Z.eqb_refl. cbn. lia.
      * destruct (Z.eqb_spec a x); [congruence|lia].
    + intros x l. unfold set_lock. cbn [heap with_heap]. destruct (decide (a = x)) as [->|].
      * rewrite lookup_insert_eq. intros [= <-]. cbn. lia.
      * rewrite lookup_insert_ne by done. apply S.
    + intros x _. rewrite lk_set_lock. case_decide; [by subst|done].
  - intros x Hx. unfold set_lock. cbn [heap with_heap]. by rewrite lookup_insert_ne.
  - intros l' Hl'. unfold set_lock in Hl'. cbn [heap with_heap] in Hl'. rewrite lookup_insert_eq in Hl'. by simplify_eq.
  - by eexists.
Qed.

(** Contended locks get a reference more each, and the inode one for each of them. *)
Record marked (st st' : pl_inode_t) (new : list Z) : Prop := {
  m_shape : exists h, st' = with_refs (with_heap st h) (inode_refs st + Z.of_nat (length new));
  m_none x : heap st !! x = None -> heap st' !! x = None;
  m_some x l : heap st !! x = Some l ->
    exists l', heap st' !! x = Some l' /\ static l' = static l /\ ref l' = ref l + occ x new;
  m_same x : x ∉ new -> heap st' !! x = heap st !! x }.

Lemma marked_refl st : marked st st [].
Proof.
  split; [exists (heap st); destruct st; cbn; by rewrite Z.add_0_r|done| |done].
  intros x l Hl. exists l. cbn. repeat split; [done..|lia].
Qed.

Lemma marked_trans st1 st2 st3 n1 n2 : marked st1 st2 n1 -> marked st2 st3 n2 -> marked st1 st3 (n1 ++ n2).
Proof.
  intros [[h1 ->] N1 S1 U1] [[h2 ->] N2 S2 U2]. split.
  - exists h2. unfold with_refs, with_heap. cbn. rewrite length_app. f_equal. lia.
  - auto.
  - intros x l Hl. destruct (S1 _ _ Hl) as (l1 & H1 & E1 & R1). destruct (S2 _ _ H1) as (l2 & H2 & E2 & R2).
    exists l2. rewrite occ_app. repeat split; [done|congruence|lia].
  - intros x Hx. rewrite U2, U1 by set_solver. done.
Qed.

Lemma marked_lk st st' new x : marked st st' new -> static (lk st' x) = static (lk st x).
Proof.
  intros M. unfold lk. destruct (heap st !! x) as [l|] eqn:E.
  - destruct (m_some _ _ _ M _ _ E) as (l' & -> & Hs & _). done.
  - by rewrite (m_none _ _ _ M _ E).
Qed.

Lemma marked_core st st' new x : marked st st' new -> core (lk st' x) = core (lk st x).
Proof. intros M. apply static_core, (marked_lk _ _ _ _ M). Qed.

Lemma marked_present st st' new x : marked st st' new -> present st' x <-> present st x.
Proof.
  intros M. unfold present. destruct (heap st !! x) as [l|] eqn:E.
  - destruct (m_some _ _ _ M _ _ E) as (l' & -> & _). split; by eexists.
  - by rewrite (m_none _ _ _ M _ E).
Qed.

Lemma marked_doms st st' new : marked st st' new -> dom_list st' = dom_list st.
Proof. by intros [[h ->] _ _ _]. Qed.

Lemma store_marked L st st' H n new :
  store L st H n -> marked st st' new -> (forall x, x ∈ new -> present st x) ->
  store L st' (new ++ H) (n + Z.of_nat (length new)).
Proof.
  intros S M Hp. apply (store_change _ _ _ _ _ _ _ S).
  - by eapply marked_doms.
  - destruct (m_shape _ _ _ M) as [h ->]. cbn. lia.
  - intros x. rewrite occ_app. unfold rc. destruct (heap st !! x) as [l|] eqn:E.
    + destruct (m_some _ _ _ M _ _ E) as (l' & -> & _ & ->). lia.
    + rewrite (m_none _ _ _ M _ E). assert (occ x new = 0); [|lia].
      apply occ_not_elem. intros Hx. destruct (Hp _ Hx). congruence.
  - intros x l Hl. destruct (heap st !! x) as [l0|] eqn:E.
    + destruct (m_some _ _ _ M _ _ E) as (l' & Hl' & _ & Hr). pose proof (s_pos _ _ _ _ S _ _ E).
      pose proof (occ_nonneg x new). simplify_eq. lia.
    + rewrite (m_none _ _ _ M _ E) in Hl. done.
  - intros x _. pose proof (marked_lk _ _ _ x M) as E. split; [exact (f_equal listed E)|by apply static_core].
Qed.

(** ** Changes of the lists of a domain *)

Lemma concat_disjoint ds y z x :
  NoDup (concat (map dom_locks ds)) -> y ∈ ds -> z ∈ ds -> x ∈ dom_locks y -> x ∈ dom_locks z -> y = z.
Proof.
  assert (Hin : forall ds w, w ∈ ds -> x ∈ dom_locks w -> x ∈ concat (map dom_locks ds)).
  { clear. induction ds as [|v ds IH]; cbn; [set_solver|]. intros w. rewrite elem_of_cons, elem_of_app. naive_solver. }
  induction ds as [|v ds IH]; cbn; [set_solver|]. intros (_ & Hv & Hn)%NoDup_app.
  rewrite !elem_of_cons. intros [->|Hy] [->|Hz] Hxy Hxz; [done| | |by apply IH].
  - destruct (Hv x Hxy). eauto.
  - destruct (Hv x Hxz). eauto.
Qed.

Lemma dom_disjoint L st H n d dom y x :
  store L st H n -> find_dom (dom_list st) d = Some dom -> y ∈ dom_list st -> domain y <> d ->
  x ∈ dom_locks y -> x ∉ dom_locks dom ++ L.
Proof.
  intros S [Hdom <-]%find_dom_some Hy Hne Hx Hx'.
  destruct (proj1 (NoDup_app _ _) (s_nodup _ _ _ _ S)) as (Hn & Hl & _).
  apply elem_of_app in Hx' as [Hx'|Hx'].
  - by rewrite (concat_disjoint _ _ _ _ Hn Hy Hdom Hx Hx') in Hne.
  - apply (Hl x); [|done]. apply in_lists_elem. eauto.
Qed.

(** The locks of one domain and those in limbo are distributed anew. *)
Lemma store_regroup L st H n d dom g b st' L' H' n' :
  store L st H n -> find_dom (dom_list st) d = Some dom -> dom_list st' = dom_list (set_dom st d g b) ->
  (forall x, occ x (g ++ b ++ L') + occ x H' - rc st' x = occ x (dom_locks dom ++ L) + occ x H - rc st x) ->
  inode_refs st' - Z.of_nat (length (g ++ b ++ L')) - n' = inode_refs st - Z.of_nat (length (dom_locks dom ++ L)) - n ->
  (forall x, occ x (g ++ b ++ L') <= occ x (dom_locks dom ++ L)) ->
  (forall x l, heap st' !! x = Some l -> 1 <= ref l) ->
  (forall x, x ∈ in_lists st ++ L -> core (lk st' x) = core (lk st x)) ->
  (forall x, x ∈ in_lists st -> x ∉ dom_locks dom ++ L -> listed (lk st' x) = listed (lk st x)) ->
  (forall x, x ∈ g -> listed (lk st' x) = true /\ volume (lk st x) = d) ->
  (forall x, x ∈ b -> listed (lk st' x) = false /\ volume (lk st x) = d) ->
  (forall x, x ∈ L' -> listed (lk st' x) = false) ->
  (forall x y, x ∈ g -> y ∈ g -> inodelk_conflict (lk st x) (lk st y) = true ->
     same_inodelk_owner (lk st x) (lk st y) = true) ->
  store L' st' H' n'.
Proof.
  intros S Hd Hds Hac Hir Hle Hpos Hcore Hlst Hg Hb HL Hex.
  pose proof (s_doms _ _ _ _ S) as Hnd.
  destruct (in_lists_upd st d dom g b Hnd Hd) as (rest & P1 & P2).
  assert (E : in_lists st' = in_lists (set_dom st d g b)) by (unfold in_lists; by rewrite Hds).
  assert (Hsub : forall x, x ∈ g ++ b ++ L' -> x ∈ in_lists st ++ L).
  { intros x Hx. apply occ_elem in Hx. specialize (Hle x). apply occ_elem.
    rewrite occ_app, (occ_perm x _ _ P1), !occ_app. rewrite !occ_app in *. pose proof (occ_nonneg x rest). lia. }
  assert (Hother : forall y x, y ∈ dom_list st -> domain y <> d -> x ∈ dom_locks y -> x ∉ dom_locks dom ++ L)
    by (intros; eapply dom_disjoint; eauto).
  split.
  - intros x. rewrite E, occ_app, (occ_perm x _ _ P2). pose proof (s_acct _ _ _ _ S x) as A.
    rewrite occ_app, (occ_perm x _ _ P1) in A. specialize (Hac x). rewrite !occ_app in *. lia.
  - done.
  - rewrite E, length_app, (Permutation_length P2). pose proof (s_irefs _ _ _ _ S) as A.
    rewrite length_app, (Permutation_length P1) in A. rewrite !length_app in *. lia.
  - rewrite E. apply nodup_occ. intros x. rewrite occ_app, (occ_perm x _ _ P2).
    pose proof (occ_nodup x _ (s_nodup _ _ _ _ S)) as A. rewrite occ_app, (occ_perm x _ _ P1) in A.
    specialize (Hle x). rewrite !occ_app in *. lia.
  - rewrite Hds. unfold set_dom. cbn [dom_list with_doms]. fold (upd_dom d g b). by rewrite map_domain_upd.
  - intros y x Hy Hx. rewrite Hds, (set_dom_elem _ _ dom) in Hy by done. destruct Hy as [->|[Hy Hyd]]; cbn in *.
    + destruct (Hg x Hx) as [? <-]. split; [done|]. apply volume_core, Hcore, Hsub. set_solver.
    + assert (x ∈ in_lists st) by eauto using granted_in_lists.
      rewrite Hlst by (first [done|apply (Hother y); [done..|unfold dom_locks; set_solver]]).
      rewrite (volume_core _ _ (Hcore x ltac:(set_solver))). by apply S.
  - intros y x Hy Hx. rewrite Hds, (set_dom_elem _ _ dom) in Hy by done. destruct Hy as [->|[Hy Hyd]]; cbn in *.
    + destruct (Hb x Hx) as [? <-]. split; [done|]. apply volume_core, Hcore, Hsub. set_solver.
    + assert (x ∈ in_lists st) by eauto using blocked_in_lists.
      rewrite Hlst by (first [done|apply (Hother y); [done..|unfold dom_locks; set_solver]]).
      rewrite (volume_core _ _ (Hcore x ltac:(set_solver))). by apply S.
  - done.
  - intros y x z Hy Hx Hz. rewrite Hds, (set_dom_elem _ _ dom) in Hy by done. destruct Hy as [->|[Hy Hyd]]; cbn in *.
    + assert (Hcx := Hcore x (Hsub x ltac:(set_solver))). assert (Hcz := Hcore z (Hsub z ltac:(set_solver))).
      rewrite (conflict_core_eq _ _ _ _ Hcx Hcz), (owner_core_eq _ _ _ _ Hcx Hcz). auto.
    + assert (x ∈ in_lists st) by eauto using granted_in_lists.
      assert (z ∈ in_lists st) by eauto using granted_in_lists.
      assert (Hcx := Hcore x ltac:(set_solver)). assert (Hcz := Hcore z ltac:(set_solver)).
      rewrite (conflict_core_eq _ _ _ _ Hcx Hcz), (owner_core_eq _ _ _ _ Hcx Hcz). by apply (s_excl _ _ _ _ S y).
Qed.

(** A lock that a call holds goes to limbo, and back. *)
Lemma store_to_limbo L st H n a :
  store L st (a :: H) (n + 1) -> a ∉ in_lists st ++ L -> listed (lk st a) = false -> store (a :: L) st H n.
Proof.
  intros S Ha Hl. assert (P : Permutation (in_lists st ++ a :: L) (a :: in_lists st ++ L))
    by (symmetry; apply Permutation_middle).
  destruct S; split; auto.
  - intros x. rewrite (occ_perm x _ _ P), <- s_acct0. cbn. lia.
  - rewrite s_irefs0, (Permutation_length P). cbn [length]. lia.
  - rewrite P. by constructor.
  - intros x [->|Hx]%elem_of_cons; auto.
Qed.

Lemma store_of_limbo L st H n a : store (a :: L) st H n -> store L st (a :: H) (n + 1).
Proof.
  intros S. assert (P : Permutation (in_lists st ++ a :: L) (a :: in_lists st ++ L))
    by (symmetry; apply Permutation_middle).
  destruct S; split; auto.
  - intros x. rewrite <- s_acct0, (occ_perm x _ _ P). cbn. lia.
  - rewrite s_irefs0, (Permutation_length P). cbn [length]. lia.
  - rewrite P in s_nodup0. by apply NoDup_cons in s_nodup0 as [_ ?].
  - intros x Hx. apply s_limbo0. set_solver.
Qed.

Lemma store_limbo_fresh L st H n a : store (a :: L) st H n -> a ∉ in_lists st ++ L.
Proof.
  intros S. pose proof (s_nodup _ _ _ _ S) as N. rewrite <- Permutation_middle in N.
  by apply NoDup_cons in N as [? _].
Qed.

Section OneDomain.
Context (L : list Z) (st : pl_inode_t) (H : list Z) (n : Z) (d : string) (dom : pl_dom_list_t).
Context (Hd : find_dom (dom_list st) d = Some dom).

Lemma dom_elem : dom ∈ dom_list st /\ domain dom = d.
Proof. by apply find_dom_some. Qed.

Lemma store_granted_volume x : store L st H n -> x ∈ inodelk_list dom -> listed (lk st x) = true /\ volume (lk st x) = d.
Proof. intros S Hx. destruct dom_elem as [He <-]. by apply (s_granted _ _ _ _ S). Qed.

Lemma store_blocked_volume x : store L st H n -> x ∈ blocked_inodelks dom -> listed (lk st x) = false /\ volume (lk st x) = d.
Proof. intros S Hx. destruct dom_elem as [He <-]. by apply (s_blocked _ _ _ _ S). Qed.

Lemma dom_locks_listed x : x ∈ dom_locks dom -> x ∈ in_lists st.
Proof. intros Hx. apply in_lists_elem. exists dom. split; [apply dom_elem|done]. Qed.

(** A lock in limbo is granted. *)
Lemma store_grant a l' :
  store (a :: L) st H n -> volume (lk st a) = d ->
  core l' = core (lk st a) -> listed l' = true -> ref l' = ref (lk st a) + 1 ->
  (forall y, y ∈ inodelk_list dom -> inodelk_conflict (lk st a) (lk st y) = true ->
     same_inodelk_owner (lk st a) (lk st y) = true) ->
  store L (set_dom (set_lock st a l') d (a :: inodelk_list dom) (blocked_inodelks dom)) (a :: H) n.
Proof.
  intros S Hv Hc Hl Hr Hex.
  assert (Hp : present st a) by (apply (store_present _ _ _ _ _ S); set_solver).
  pose proof (store_limbo_fresh _ _ _ _ _ S) as Hf.
  assert (Hne : forall x, x ∈ dom_locks dom -> x <> a) by (intros x Hx%dom_locks_listed ->; set_solver).
  assert (Hra : rc st a = ref (lk st a)) by (unfold rc; by rewrite (present_lk _ _ Hp)).
  apply (store_regroup (a :: L) st H n d dom (a :: inodelk_list dom) (blocked_inodelks dom));
    [done|done|done| | | | | | | | | |].
  - intros x. change (rc (set_dom _ _ _ _) x) with (rc (set_lock st a l') x). rewrite rc_set_lock.
    unfold dom_locks. cbn [app occ]. rewrite !occ_app. cbn [occ].
    case_decide as E; [subst; rewrite Z.eqb_refl; lia|]. destruct (Z.eqb_spec a x); [congruence|lia].
  - cbn. unfold dom_locks. rewrite !length_app. cbn [length]. lia.
  - intros x. unfold dom_locks. cbn [app occ]. rewrite !occ_app. cbn [occ]. lia.
  - intros x l0. cbn [set_dom with_doms heap set_lock with_heap]. destruct (decide (a = x)) as [->|].
    + rewrite lookup_insert_eq. intros [= <-]. pose proof (s_pos _ _ _ _ S _ _ (present_lk _ _ Hp)). lia.
    + rewrite lookup_insert_ne by done. apply S.
  - intros x _. change (lk (set_dom _ _ _ _) x) with (lk (set_lock st a l') x). rewrite lk_set_lock.
    case_decide; by subst.
  - intros x _ Hx. change (lk (set_dom _ _ _ _) x) with (lk (set_lock st a l') x). rewrite lk_set_lock.
    case_decide; [subst; set_solver|done].
  - intros x Hx. change (lk (set_dom _ _ _ _) x) with (lk (set_lock st a l') x). rewrite lk_set_lock.
    apply elem_of_cons in Hx as [->|Hx]; [by rewrite decide_True|].
    rewrite decide_False by (apply Hne; unfold dom_locks; set_solver).
    destruct dom_elem as [He <-]. by apply (s_granted _ _ _ _ S).
  - intros x Hx. change (lk (set_dom _ _ _ _) x) with (lk (set_lock st a l') x). rewrite lk_set_lock.
    rewrite decide_False by (apply Hne; unfold dom_locks; set_solver).
    destruct dom_elem as [He <-]. by apply (s_blocked _ _ _ _ S).
  - intros x Hx. change (lk (set_dom _ _ _ _) x) with (lk (set_lock st a l') x). rewrite lk_set_lock.
    rewrite decide_False by set_solver. apply (s_limbo _ _ _ _ S). set_solver.
  - intros x y [->|Hx]%elem_of_cons [->|Hy]%elem_of_cons; auto.
    + intros _. unfold same_inodelk_owner, is_same_lkowner. by rewrite bool_decide_true, Z.eqb_refl.
    + rewrite conflict_sym, owner_sym. auto.
    + by apply (s_excl _ _ _ _ S dom); [apply dom_elem|..].
Qed.

(** A lock in limbo has to wait. *)
Lemma store_block a l' :
  store (a :: L) st H n -> volume (lk st a) = d ->
  core l' = core (lk st a) -> listed l' = false -> ref l' = ref (lk st a) ->
  store L (set_dom (set_lock st a l') d (inodelk_list dom) (blocked_inodelks dom ++ [a])) H n.
Proof.
  intros S Hv Hc Hl Hr.
  assert (Hp : present st a) by (apply (store_present _ _ _ _ _ S); set_solver).
  assert (S' : store (a :: L) (set_lock st a l') H n).
  { apply (store_set_lock _ _ _ _ _ (lk st a)); [done|by apply present_lk|done| |done].
    rewrite Hl. symmetry. apply (s_limbo _ _ _ _ S). set_solver. }
  pose proof (store_limbo_fresh _ _ _ _ _ S) as Hf.
  apply (store_regroup (a :: L) (set_lock st a l') H n d dom (inodelk_list dom) (blocked_inodelks dom ++ [a]));
    [done|done|done| | | |apply S'|done|done| | | |].
  - intros x. unfold dom_locks. rewrite !occ_app. cbn [occ app].
    change (rc (set_dom _ _ _ _) x) with (rc (set_lock st a l') x). lia.
  - cbn. unfold dom_locks. rewrite !length_app. cbn [length]. lia.
  - intros x. unfold dom_locks. rewrite !occ_app. cbn [occ]. lia.
  - intros x Hx. destruct dom_elem as [He <-]. by apply (s_granted _ _ _ _ S').
  - intros x [Hx|Hx]%elem_of_app; [|apply list_elem_of_singleton in Hx as ->].
    + destruct dom_elem as [He <-]. by apply (s_blocked _ _ _ _ S').
    + change (lk (set_dom _ _ _ _) a) with (lk (set_lock st a l') a). rewrite lk_set_lock, decide_True by done.
      split; [done|]. by rewrite (volume_core _ _ Hc).
  - intros x Hx. apply (s_limbo _ _ _ _ S'). set_solver.
  - intros x y Hx Hy. by apply (s_excl _ _ _ _ S' dom); [apply dom_elem|..].
Qed.

(** The waiting locks of the domain go to limbo. *)
Lemma store_splice :
  store L st H n -> store (blocked_inodelks dom ++ L) (set_dom st d (inodelk_list dom) []) H n.
Proof.
  intros S. apply (store_regroup L st H n d dom (inodelk_list dom) []); [done|done|done| | | |apply S|done|done| | | |].
  - intros x. unfold dom_locks. rewrite !occ_app. cbn [occ app]. change (rc (set_dom _ _ _ _) x) with (rc st x). lia.
  - cbn. unfold dom_locks. rewrite !length_app. cbn [length]. lia.
  - intros x. unfold dom_locks. rewrite !occ_app. cbn [occ]. lia.
  - intros x Hx. by apply store_granted_volume.
  - set_solver.
  - intros x [Hx|Hx]%elem_of_app; [by apply store_blocked_volume|]. by apply (s_limbo _ _ _ _ S).
  - intros x y Hx Hy. by apply (s_excl _ _ _ _ S dom); [apply dom_elem|..].
Qed.
End OneDomain.

(** ** Taking a lock off its list *)

Lemma filter_absent (a : Z) (l : list Z) : a ∉ l -> filter (fun b => b <> a) l = l.
Proof.
  induction l as [|y l IH]; [done|]. rewrite not_elem_of_cons. intros [Hy Hl].
  rewrite filter_cons_True by congruence. by rewrite IH.
Qed.

Lemma occ_filter (a x : Z) (l : list Z) : occ x (filter (fun b => b <> a) l) = if x =? a then 0 else occ x l.
Proof.
  induction l as [|y l IH]; [cbn; by case_match|]. destruct (decide (y = a)) as [->|Hy].
  - rewrite filter_cons_False by tauto. rewrite IH. cbn [occ]. destruct (Z.eqb_spec x a); [done|].
    destruct (Z.eqb_spec a x); [congruence|done].
  - rewrite filter_cons_True by done. cbn [occ]. rewrite IH. destruct (Z.eqb_spec x a) as [->|]; [|done].
    destruct (Z.eqb_spec y a); [congruence|done].
Qed.

Lemma filter_remove_perm (a : Z) (l : list Z) : NoDup l -> a ∈ l -> Permutation (a :: filter (fun b => b <> a) l) l.
Proof.
  induction l as [|y l IH]; [set_solver|]. intros [Hy Hn]%NoDup_cons Ha. destruct (decide (y = a)) as [->|E].
  - rewrite filter_cons_False by tauto. by rewrite filter_absent.
  - rewrite filter_cons_True by done. rewrite Permutation_swap, IH by (done || set_solver). done.
Qed.

Section Deletion.
Context (L : list Z) (st : pl_inode_t) (H : list Z) (n : Z) (d : string) (dom : pl_dom_list_t) (a : Z).
Context (S : store L st H n) (Hd : find_dom (dom_list st) d = Some dom) (Ha : a ∈ dom_locks dom).

Lemma only_dom y : y ∈ dom_list st -> a ∈ dom_locks y -> y = dom.
Proof.
  intros Hy Hay. destruct (find_dom_some _ _ _ Hd) as [Hdom _].
  pose proof (s_nodup _ _ _ _ S) as (Hn & _)%NoDup_app. by apply (concat_disjoint (dom_list st) y dom a).
Qed.

Lemma same_name y : y ∈ dom_list st -> domain y = d -> y = dom.
Proof.
  intros Hy E. pose proof (find_dom_nodup _ _ (s_doms _ _ _ _ S) Hy) as Hf. rewrite E in Hf. congruence.
Qed.

Lemma dom_nodup : NoDup (inodelk_list dom) /\ NoDup (blocked_inodelks dom) /\
  (a ∈ inodelk_list dom -> a ∉ blocked_inodelks dom).
Proof.
  destruct (in_lists_upd st d dom [] [] (s_doms _ _ _ _ S) Hd) as (rest & P & _).
  pose proof (s_nodup _ _ _ _ S) as (Hn & _)%NoDup_app. rewrite P in Hn. apply NoDup_app in Hn as (Hn & _).
  unfold dom_locks in Hn. apply NoDup_app in Hn as (? & Hx & ?). auto.
Qed.

Lemma del_granted_doms :
  dom_list (del_granted st a) =
  dom_list (set_dom st d (filter (fun b => b <> a) (inodelk_list dom)) (blocked_inodelks dom)).
Proof.
  unfold del_granted, set_dom. cbn [dom_list with_doms]. apply map_ext_in. intros y Hy%list_elem_of_In.
  destruct (String.eqb_spec (domain y) d) as [E|E].
  - pose proof (same_name y Hy E) as ->. by rewrite E.
  - rewrite filter_absent; [by destruct y|]. intros Hin.
    pose proof (only_dom y Hy ltac:(unfold dom_locks; set_solver)) as ->. by destruct (find_dom_some _ _ _ Hd).
Qed.

Lemma del_blocked_doms :
  dom_list (del_blocked st a) =
  dom_list (set_dom st d (inodelk_list dom) (filter (fun b => b <> a) (blocked_inodelks dom))).
Proof.
  unfold del_blocked, set_dom. cbn [dom_list with_doms]. apply map_ext_in. intros y Hy%list_elem_of_In.
  destruct (String.eqb_spec (domain y) d) as [E|E].
  - pose proof (same_name y Hy E) as ->. by rewrite E.
  - rewrite filter_absent; [by destruct y|]. intros Hin.
    pose proof (only_dom y Hy ltac:(unfold dom_locks; set_solver)) as ->. by destruct (find_dom_some _ _ _ Hd).
Qed.

Lemma store_del_granted l :
  a ∈ inodelk_list dom -> heap st !! a = Some l ->
  store L (set_lock (del_granted st a) a (set_listed l false)) (a :: H) (n + 1).
Proof.
  intros Hg Hl. destruct dom_nodup as (N1 & _ & Hnb). pose proof (filter_remove_perm a _ N1 Hg) as P.
  set (g := filter (fun b => b <> a) (inodelk_list dom)) in *.
  assert (Hga : a ∉ g) by (unfold g; rewrite list_elem_of_filter; tauto).
  assert (Hsub : forall x, x ∈ g -> x ∈ inodelk_list dom) by (intros x Hx; rewrite <- P; set_solver).
  assert (HaL : a ∉ L).
  { pose proof (s_nodup _ _ _ _ S) as (_ & HL & _)%NoDup_app. apply HL. by apply (dom_locks_listed st d dom Hd). }
  assert (Hr : forall x, rc (set_lock (del_granted st a) a (set_listed l false)) x = rc st x).
  { intros x. rewrite rc_set_lock. case_decide; [|done]. subst. unfold rc. by rewrite Hl. }
  assert (Hk : forall x, lk (set_lock (del_granted st a) a (set_listed l false)) x =
                         if decide (x = a) then set_listed l false else lk st x) by (intros; by rewrite lk_set_lock).
  apply (store_regroup L st H n d dom g (blocked_inodelks dom)); [done|done|exact del_granted_doms| | | | | | | | | |].
  - intros x. rewrite Hr. unfold dom_locks. rewrite !occ_app. rewrite <- (occ_perm x _ _ P). cbn [occ]. lia.
  - cbn. unfold dom_locks. rewrite !length_app, <- (Permutation_length P). cbn [length]. lia.
  - intros x. unfold dom_locks. rewrite !occ_app. rewrite <- (occ_perm x _ _ P). cbn [occ]. case_match; lia.
  - intros x l0. cbn [set_lock with_heap heap del_granted with_doms]. destruct (decide (a = x)) as [->|].
    + rewrite lookup_insert_eq. intros [= <-]. exact (s_pos _ _ _ _ S _ _ Hl).
    + rewrite lookup_insert_ne by done. apply S.
  - intros x _. rewrite Hk. case_decide; [subst; by rewrite (lk_some _ _ _ Hl)|done].
  - intros x _ Hx. rewrite Hk, decide_False; [done|]. intros ->. unfold dom_locks in Hx. set_solver.
  - intros x Hx. rewrite Hk, decide_False by congruence. eapply (store_granted_volume); eauto.
  - intros x Hx. rewrite Hk, decide_False by (intros ->; tauto). eapply store_blocked_volume; eauto.
  - intros x Hx. rewrite Hk, decide_False by congruence. by apply (s_limbo _ _ _ _ S).
  - intros x y Hx Hy. apply (s_excl _ _ _ _ S dom); auto. by destruct (find_dom_some _ _ _ Hd).
Qed.

Lemma store_del_blocked : a ∈ blocked_inodelks dom -> store L (del_blocked st a) (a :: H) (n + 1).
Proof.
  intros Hb. destruct dom_nodup as (_ & N1 & _). pose proof (filter_remove_perm a _ N1 Hb) as P.
  set (b := filter (fun b => b <> a) (blocked_inodelks dom)) in *.
  assert (Hsub : forall x, x ∈ b -> x ∈ blocked_inodelks dom) by (intros x Hx; rewrite <- P; set_solver).
  apply (store_regroup L st H n d dom (inodelk_list dom) b);
    [done|done|exact del_blocked_doms| | | |apply S|done|done| | | |].
  - intros x. change (rc (del_blocked st a) x) with (rc st x). unfold dom_locks. rewrite !occ_app.
    rewrite <- (occ_perm x _ _ P). cbn [occ]. lia.
  - cbn. unfold dom_locks. rewrite !length_app, <- (Permutation_length P). cbn [length]. lia.
  - intros x. unfold dom_locks. rewrite !occ_app. rewrite <- (occ_perm x _ _ P). cbn [occ]. case_match; lia.
  - intros x Hx. exact (store_granted_volume L st H n d dom Hd x S Hx).
  - intros x Hx. exact (store_blocked_volume L st H n d dom Hd x S (Hsub x Hx)).
  - intros x Hx. exact (s_limbo _ _ _ _ S x Hx).
  - intros x y Hx Hy. apply (s_excl _ _ _ _ S dom); auto. by destruct (find_dom_some _ _ _ Hd).
Qed.
End Deletion.
