(* ===== verification/PlInodelkOps.v ===== *)
(** * The operations on inode locks (PlInodelk)

    What the functions under the mutex of the inode do to a state whose locks
    are accounted for: none of them uses a lock that is not there, and each is
    described by how it moves the locks between the lists, with the reason for
    which a lock waits or is granted. *)
From stdpp Require Import gmap strings.
From S2P Require Import Prelude PlCommon PlPosix PlInodelk PlInodelkStore.

Lemma lock_at_set_lock st a l : lock_at (set_lock st a l) a = Done l.
Proof. unfold lock_at, set_lock. cbn [heap with_heap]. by rewrite lookup_insert_eq. Qed.

(** ** Searching *)

Lemma first_lock_spec P st ls :
  (forall x, x ∈ ls -> present st x) ->
  exists o, first_lock P st ls = Done o /\
    match o with
    | Some a => a ∈ ls /\ P (lk st a) = true
    | None => forall x, x ∈ ls -> P (lk st x) = false
    end.
Proof.
  induction ls as [|a ls IH]; intros Hp; cbn [first_lock]; [exists None; set_solver|].
  rewrite (lock_at_present _ _ (Hp a ltac:(set_solver))). run. destruct (P (lk st a)) eqn:E.
  - exists (Some a). set_solver.
  - destruct IH as (o & -> & Ho); [set_solver|]. exists o. split; [done|]. destruct o; [set_solver|].
    intros x [->|Hx]%elem_of_cons; auto.
Qed.

Lemma client_has_lock_spec st c ds :
  (forall d x, d ∈ ds -> x ∈ inodelk_list d -> present st x) ->
  exists b, client_has_lock st c ds = Done b.
Proof.
  induction ds as [|d ds IH]; intros Hp; cbn [client_has_lock]; [by eexists|].
  destruct (first_lock_spec (fun l => client l =? c) st (inodelk_list d)) as (o & -> & _); [set_solver|]. run.
  destruct o; [by eexists|]. apply IH. set_solver.
Qed.

Section Ops.
Context (priv : posix_locks_private_t).

(** ** Contention *)

Lemma notify_check_spec st a now contend :
  present st a ->
  exists st' new, inodelk_contention_notify_check priv st a now contend = Done (st', contend ++ new) /\
    marked st st' new /\ (new = [] \/ new = [a]).
Proof.
  intros Ha. unfold inodelk_contention_notify_check. rewrite (lock_at_present _ _ Ha). run.
  assert (E0 : forall st' : pl_inode_t, marked st st' [] ->
    exists st'' new, Done (st', contend) = Done (st'', contend ++ new) /\ marked st st'' new /\ (new = [] \/ new = [a])).
  { intros st' M. exists st', []. rewrite app_nil_r. auto. }
  destruct (contending (lk st a)); [by apply E0, marked_refl|].
  destruct (_ <? _); [by apply E0, marked_refl|].
  unfold __pl_inodelk_ref. change (lock_at (inode_ref st) a) with (lock_at st a).
  rewrite (lock_at_present _ _ Ha). run. rewrite lock_at_set_lock. run.
  eexists _, [a]. split; [done|]. split; [|by right]. split.
  - eexists. unfold set_lock, inode_ref, with_heap, with_refs. cbn. done.
  - intros x Hx. cbn [set_lock with_heap heap inode_ref with_refs].
    assert (a <> x) by (intros ->; destruct Ha; congruence). by rewrite !lookup_insert_ne.
  - intros x l Hl. cbn [set_lock with_heap heap inode_ref with_refs occ]. destruct (Z.eqb_spec a x) as [->|].
    + rewrite lookup_insert_eq. eexists. split; [done|]. rewrite (lk_some _ _ _ Hl). split; [done|]. cbn. lia.
    + rewrite !lookup_insert_ne by done. exists l. repeat split; [done..|lia].
  - intros x Hx%not_elem_of_cons. cbn [set_lock with_heap heap inode_ref with_refs].
    by rewrite !lookup_insert_ne by (intros ->; tauto).
Qed.

Lemma grantable_spec lock now ls st ret contend :
  (forall x, x ∈ ls -> present st x) ->
  exists st' ret' new,
    grantable_loop priv st lock now ls ret contend = Done (st', ret', (fun c => c ++ new) <$> contend) /\
    marked st st' new /\ (forall x, x ∈ new -> x ∈ ls /\ contend <> None) /\
    match ret' with
    | Some a => ret = Some a \/
        (a ∈ ls /\ inodelk_conflict lock (lk st a) = true /\ same_inodelk_owner lock (lk st a) = false)
    | None => ret = None /\ forall x, x ∈ ls -> inodelk_conflict lock (lk st x) = true ->
                                  same_inodelk_owner lock (lk st x) = true
    end.
Proof.
  revert st ret contend. induction ls as [|a ls IH]; intros st ret contend Hp; cbn [grantable_loop].
  - exists st, ret, []. split; [|split; [apply marked_refl|]].
    + f_equal. f_equal. destruct contend; cbn; by rewrite ?app_nil_r.
    + split; [set_solver|]. destruct ret; set_solver.
  - rewrite (lock_at_present _ _ (Hp a ltac:(set_solver))). run.
    destruct (inodelk_conflict lock (lk st a) && negb (same_inodelk_owner lock (lk st a))) eqn:E.
    + apply andb_true_iff in E as [E1 E2%negb_true_iff].
      set (r := match ret with None => Some a | _ => ret end).
      assert (Hr : r = Some a \/ r = ret /\ is_Some ret) by (unfold r; destruct ret; [right; split; [done|by eexists]|by left]).
      clearbody r. destruct contend as [c|].
      * destruct (notify_check_spec st a now c) as (st1 & n1 & -> & M1 & Hn1); [set_solver|]. run.
        destruct (IH st1 r (Some (c ++ n1))) as (st' & ret' & n2 & -> & M2 & Hn2 & Hret).
        { intros x Hx. apply (marked_present _ _ _ _ M1). set_solver. }
        exists st', ret', (n1 ++ n2). split; [cbn; by rewrite app_assoc|].
        split; [by eapply marked_trans|]. split.
        { intros x [Hx|Hx]%elem_of_app; (split; [|done]).
          - destruct Hn1 as [-> | ->]; set_solver.
          - apply elem_of_cons. right. by apply Hn2. }
        destruct ret' as [y|].
        -- destruct Hret as [Hret|(Hy & Hc & Ho)].
           ++ destruct Hr as [Hr|[Hr _]]; [right|left; congruence]. rewrite Hr in Hret. simplify_eq.
              split_and!; [apply elem_of_cons; by left|done|done].
           ++ right. rewrite <- conflict_core, (marked_core _ _ _ _ M1), conflict_core in Hc.
              rewrite <- owner_core, (marked_core _ _ _ _ M1), owner_core in Ho.
              split_and!; [apply elem_of_cons; by right|done|done].
        -- destruct Hret as [Hret _]. destruct Hr as [Hr|[Hr [? Hs]]]; congruence.
      * exists st, r, []. split; [done|]. split; [apply marked_refl|]. split; [set_solver|].
        destruct Hr as [->|[-> [y ->]]]; [right|by left]. split_and!; [apply elem_of_cons; by left|done|done].
    + destruct (IH st ret contend) as (st' & ret' & n2 & -> & M2 & Hn2 & Hret); [set_solver|].
      exists st', ret', n2. split; [done|]. split; [done|]. split.
      { intros x [? ?]%Hn2. split; [apply elem_of_cons; by right|done]. }
      destruct ret'; [destruct Hret as [?|(? & ? & ?)]; [by left|right; rewrite elem_of_cons; auto]|].
      destruct Hret as [-> Hret]. split; [done|].
      intros x [->|Hx]%elem_of_cons Hc; [|auto]. rewrite Hc in E. by destruct (same_inodelk_owner lock (lk st a)).
Qed.

(** A lock that keeps a removal of client [c] waiting. *)
Definition keeps_out (c : Z) (l : pl_inode_lock_t) : Prop := client l <> c /\ 0 <= client_pid l.

Lemma owners_spec c now ls st has contend :
  (forall x, x ∈ ls -> present st x) ->
  exists st' b new,
    owners_loop priv st c now ls has contend = Done (st', b, (fun c => c ++ new) <$> contend) /\
    marked st st' new /\ (forall x, x ∈ new -> x ∈ ls /\ keeps_out c (lk st x)) /\
    (b = true <-> has = true \/ exists x, x ∈ ls /\ keeps_out c (lk st x)).
Proof.
  unfold keeps_out. revert st has contend. induction ls as [|a ls IH]; intros st has contend Hp; cbn [owners_loop].
  - exists st, has, []. split; [|split; [apply marked_refl|]].
    + f_equal. f_equal. destruct contend; cbn; by rewrite ?app_nil_r.
    + set_solver.
  - rewrite (lock_at_present _ _ (Hp a ltac:(set_solver))). run.
    assert (Hskip : ~ (client (lk st a) <> c /\ 0 <= client_pid (lk st a)) ->
      exists st' b new, owners_loop priv st c now ls has contend = Done (st', b, (fun c => c ++ new) <$> contend) /\
        marked st st' new /\ (forall x, x ∈ new -> x ∈ a :: ls /\ client (lk st x) <> c /\ 0 <= client_pid (lk st x)) /\
        (b = true <-> has = true \/ exists x, x ∈ a :: ls /\ client (lk st x) <> c /\ 0 <= client_pid (lk st x))).
    { intros Hn. destruct (IH st has contend) as (st' & b & n2 & -> & M2 & Hn2 & Hb); [set_solver|].
      exists st', b, n2. split; [done|]. split; [done|].
      split; [intros x [? ?]%Hn2; split; [apply elem_of_cons; by right|done]|].
      rewrite Hb. setoid_rewrite elem_of_cons. naive_solver. }
    destruct (Z.eqb_spec (client (lk st a)) c); [apply Hskip; tauto|].
    destruct (Z.ltb_spec (client_pid (lk st a)) 0); [apply Hskip; lia|]. clear Hskip.
    destruct contend as [l|].
    + destruct (notify_check_spec st a now l) as (st1 & n1 & -> & M1 & Hn1); [set_solver|]. run.
      destruct (IH st1 true (Some (l ++ n1))) as (st' & b & n2 & -> & M2 & Hn2 & Hb).
      { intros x Hx. apply (marked_present _ _ _ _ M1). set_solver. }
      exists st', b, (n1 ++ n2). split; [cbn; by rewrite app_assoc|]. split; [by eapply marked_trans|].
      split.
      { intros x [Hx|Hx]%elem_of_app.
        - destruct Hn1 as [-> | ->]; [set_solver|]. apply list_elem_of_singleton in Hx as ->.
          split; [apply elem_of_cons; by left|done].
        - apply Hn2 in Hx as [? Hx]. split; [apply elem_of_cons; by right|].
          pose proof (marked_core _ _ _ x M1) as Hcx.
          assert (client (lk st1 x) = client (lk st x)) as <- by exact (f_equal client Hcx).
          assert (client_pid (lk st1 x) = client_pid (lk st x)) as <- by exact (f_equal client_pid Hcx). done. }
      split; [|tauto]. intros _. right. exists a. split; [apply elem_of_cons; by left|done].
    + exists st, true, []. split; [done|]. split; [apply marked_refl|]. split; [clear; set_solver|].
      split; [|done]. intros _. right. exists a. split; [apply elem_of_cons; by left|done].
Qed.

(** The locks granted on the inode. *)
Definition granted (st : pl_inode_t) (x : Z) : Prop := exists d, d ∈ dom_list st /\ x ∈ inodelk_list d.

Lemma granted_concat st x : x ∈ concat (map inodelk_list (dom_list st)) <-> granted st x.
Proof.
  unfold granted. induction (dom_list st) as [|d ds IH]; cbn; [set_solver|].
  rewrite elem_of_app, IH. setoid_rewrite elem_of_cons. naive_solver.
Qed.

Lemma granted_listed st x : granted st x -> x ∈ in_lists st.
Proof. intros (d & Hd & Hx). eauto using granted_in_lists. Qed.

Lemma has_owners_spec st c now contend :
  (forall x, x ∈ in_lists st -> present st x) ->
  exists st' b new,
    pl_inode_has_owners priv st c now contend = Done (st', b, (fun c => c ++ new) <$> contend) /\
    marked st st' new /\ (forall x, x ∈ new -> granted st x /\ keeps_out c (lk st x)) /\
    (b = true <-> exists x, granted st x /\ keeps_out c (lk st x)).
Proof.
  intros Hp. unfold pl_inode_has_owners.
  destruct (owners_spec c now (concat (map inodelk_list (dom_list st))) st false contend) as (st' & b & new & -> & M & Hn & Hb).
  { intros x Hx%granted_concat. auto using granted_listed. }
  exists st', b, new. split; [done|]. split; [done|]. setoid_rewrite granted_concat in Hn. split; [done|].
  rewrite Hb. setoid_rewrite granted_concat. naive_solver.
Qed.

Lemma unlocked_spec st ws :
  (forall x, x ∈ in_lists st -> present st x) ->
  exists wake stay, unlocked_loop priv st ws = Done (wake, stay) /\
    (forall s, s ∈ ws <-> s ∈ wake \/ s ∈ stay) /\
    (forall s, s ∈ stay -> exists x, granted st x /\ keeps_out (stub_client s) (lk st x)) /\
    (forall s, s ∈ wake -> forall x, granted st x -> ~ keeps_out (stub_client s) (lk st x)).
Proof.
  intros Hp. induction ws as [|w ws (wake & stay & E & Hw & Hs & Hk)]; cbn [unlocked_loop].
  - exists [], []. split; [done|]. set_solver.
  - destruct (has_owners_spec st (stub_client w) (0, 0) None Hp) as (st' & b & new & -> & _ & _ & Hb). run.
    rewrite E. run. destruct b.
    + exists wake, (w :: stay). split; [done|]. setoid_rewrite elem_of_cons.
      split; [naive_solver|]. split; [|done]. intros s [->|Hx]; [|auto]. by apply Hb.
    + exists (w :: wake), stay. split; [done|]. setoid_rewrite elem_of_cons.
      split; [naive_solver|]. split; [done|]. intros s [->|Hx]; [|auto]. intros x Hx Ho.
      assert (false = true); [|done]. apply Hb. eauto.
Qed.

(** ** Granting one lock *)

(** Why a lock waits, and when it is granted. *)
Definition refused (st : pl_inode_t) (l : pl_inode_lock_t) (dom : pl_dom_list_t) : Prop :=
  (is_locked st = true /\ 0 <= client_pid l) \/
  (exists g, g ∈ inodelk_list dom /\ inodelk_conflict l (lk st g) = true /\ same_inodelk_owner l (lk st g) = false) \/
  (exists b, b ∈ blocked_inodelks dom /\ inodelk_conflict l (lk st b) = true).

Definition accepted (st : pl_inode_t) (l : pl_inode_lock_t) (dom : pl_dom_list_t) : Prop :=
  (client_pid l < 0 \/ is_locked st = false \/ remove_running st <= 0) /\
  forall g, g ∈ inodelk_list dom -> inodelk_conflict l (lk st g) = true -> same_inodelk_owner l (lk st g) = true.

Lemma remove_inodelk_spec st l :
  (forall x, x ∈ in_lists st -> present st x) ->
  exists ret, pl_inode_remove_inodelk st l = Done ret /\
    ((ret = 1 /\ is_locked st = true /\ 0 <= client_pid l) \/
     (ret = 0 /\ (client_pid l < 0 \/ is_locked st = false \/ remove_running st <= 0))).
Proof.
  intros Hp. unfold pl_inode_remove_inodelk.
  destruct (Z.ltb_spec (client_pid l) 0); [exists 0; split; [done|right; auto]|].
  destruct (is_locked st); cbn [negb]; [|exists 0; split; [done|right; auto]].
  destruct (Z.ltb_spec 0 (remove_running st)); [exists 1; split; [done|left; auto]|].
  destruct (client_has_lock_spec st (client l) (dom_list st)) as [b ->].
  { intros d x Hd Hx. eauto using granted_in_lists. }
  run. destruct b; eexists; (split; [done|]); [right|left]; auto.
Qed.

(** Only locks of [T] are written, and only their references, times and status. *)
Record tuned (T : list Z) (st st' : pl_inode_t) : Prop := {
  t_waiting : waiting st' = waiting st;
  t_running : remove_running st' = remove_running st;
  t_locked : is_locked st' = is_locked st;
  t_lockers : inodelk_lockers st' = inodelk_lockers st;
  t_ctx : ctx_locked st' = ctx_locked st;
  t_events : events st' = events st;
  t_core x : core (lk st' x) = core (lk st x);
  t_frame x : frame (lk st' x) = frame (lk st x);
  t_present x : present st' x <-> present st x;
  t_same x : x ∉ T -> heap st' !! x = heap st !! x }.

Lemma tuned_refl T st : tuned T st st.
Proof. by split. Qed.

Lemma tuned_trans T1 T2 T st1 st2 st3 :
  tuned T1 st1 st2 -> tuned T2 st2 st3 -> (forall x, x ∈ T1 -> x ∈ T) -> (forall x, x ∈ T2 -> x ∈ T) -> tuned T st1 st3.
Proof.
  intros [] [] H1 H2. split; try congruence.
  - intros x. rewrite t_present1. apply t_present0.
  - intros x Hx. rewrite t_same1, t_same0; [done|..]; intros Hx'; apply Hx; auto.
Qed.

Lemma marked_tuned st st' new : marked st st' new -> tuned new st st'.
Proof.
  intros M. pose proof (m_shape _ _ _ M) as [h E]. split; try (rewrite E; done).
  - intros x. by eapply marked_core.
  - intros x. exact (f_equal frame (marked_lk _ _ _ x M)).
  - intros x. by eapply marked_present.
  - apply M.
Qed.

Lemma tuned_lock T st a l :
  heap st !! a = Some l -> a ∈ T -> forall l', core l' = core l -> frame l' = frame l -> tuned T st (set_lock st a l').
Proof.
  intros Ha HT l' Hc Hf. split; try done.
  - intros x. rewrite lk_set_lock. case_decide; [subst; by rewrite (lk_some _ _ _ Ha)|done].
  - intros x. rewrite lk_set_lock. case_decide; [subst; by rewrite (lk_some _ _ _ Ha)|done].
  - intros x. unfold present, set_lock. cbn [heap with_heap]. destruct (decide (a = x)) as [->|].
    + rewrite lookup_insert_eq, Ha. split; by eexists.
    + by rewrite lookup_insert_ne.
  - intros x Hx. unfold set_lock. cbn [heap with_heap]. by rewrite lookup_insert_ne by (intros ->; tauto).
Qed.

Lemma tuned_dom T st st' d g b : tuned T st st' -> tuned T st (set_dom st' d g b).
Proof. intros []. by split. Qed.

Lemma set_lock_twice st a l1 l2 : set_lock (set_lock st a l1) a l2 = set_lock st a l2.
Proof. unfold set_lock, with_heap. cbn. by rewrite insert_insert_eq. Qed.

Lemma owner_has_lock_spec st dom l :
  (forall x, x ∈ dom_locks dom -> present st x) -> exists o, __owner_has_lock st dom l = Done o.
Proof.
  intros Hp. unfold __owner_has_lock.
  destruct (first_lock_spec (fun l0 => same_inodelk_owner l0 l) st (inodelk_list dom)) as (o & -> & _).
  { intros x Hx. apply Hp. unfold dom_locks. set_solver. }
  run. destruct o; [by eexists|].
  destruct (first_lock_spec (fun l0 => same_inodelk_owner l0 l) st (blocked_inodelks dom)) as (o & -> & _).
  { intros x Hx. apply Hp. unfold dom_locks. set_solver. }
  run. by eexists.
Qed.

Section LockOne.
Context (L : list Z) (st : pl_inode_t) (H : list Z) (n : Z) (d : string) (dom : pl_dom_list_t) (a : Z).
Context (S : store (a :: L) st H n) (Hd : find_dom (dom_list st) d = Some dom) (Hv : volume (lk st a) = d).

(** What becomes of the lock. *)
Inductive lock_result (can_block : bool) (new : list Z) (st' : pl_inode_t) : Z -> Prop :=
  | lr_granted : accepted st (lk st a) dom ->
      dom_list st' = dom_list (set_dom st d (a :: inodelk_list dom) (blocked_inodelks dom)) ->
      store L st' (a :: new ++ H) (n + Z.of_nat (length new)) -> lock_result can_block new st' 0
  | lr_blocked : refused st (lk st a) dom -> can_block = true ->
      dom_list st' = dom_list (set_dom st d (inodelk_list dom) (blocked_inodelks dom ++ [a])) ->
      store L st' (new ++ H) (n + Z.of_nat (length new)) -> lock_result can_block new st' (- EAGAIN)
  | lr_refused : refused st (lk st a) dom -> can_block = false -> dom_list st' = dom_list st ->
      store (a :: L) st' (new ++ H) (n + Z.of_nat (length new)) -> lock_result can_block new st' (- EAGAIN).

Lemma lock_blocked_add_spec st1 new can_block now :
  marked st st1 new -> (forall x, x ∈ new -> x ∈ inodelk_list dom) -> refused st (lk st a) dom ->
  exists st' ret, __lock_blocked_add st1 d a can_block now = Done (st', ret) /\
    tuned (a :: in_lists st) st st' /\ lock_result can_block new st' ret.
Proof.
  intros M Hnew Hr.
  assert (Hp : forall x, x ∈ new -> present st x).
  { intros x Hx. apply (store_listed _ _ _ _ x S). apply (dom_locks_listed st d dom Hd). unfold dom_locks. set_solver. }
  pose proof (store_marked _ _ _ _ _ _ S M Hp) as S1.
  assert (Ha : present st1 a) by (apply (store_present _ _ _ _ _ S1); set_solver).
  assert (Hd1 : find_dom (dom_list st1) d = Some dom) by (by rewrite (marked_doms _ _ _ M)).
  assert (T1 : tuned (a :: in_lists st) st st1).
  { apply (tuned_trans _ [] _ _ _ _ (marked_tuned _ _ _ M) (tuned_refl _ _)); [|set_solver].
    intros x Hx. apply elem_of_cons. right. apply (dom_locks_listed st d dom Hd). unfold dom_locks. set_solver. }
  unfold __lock_blocked_add. destruct can_block; cbn [negb].
  - rewrite (lock_at_present _ _ Ha). run. unfold dom_at. rewrite Hd1. run.
    eexists _, _. split; [done|]. split.
    + apply tuned_dom. eapply tuned_trans; [exact T1| | |].
      * by apply (tuned_lock [a] _ a (lk st1 a)); [apply present_lk|set_solver|..].
      * done.
      * set_solver.
    + apply lr_blocked; [done|done| |].
      * unfold set_dom. cbn [dom_list with_doms set_lock with_heap]. by rewrite (marked_doms _ _ _ M).
      * apply (store_block L st1 (new ++ H) _ d dom Hd1); [done| |done| |done].
        -- by rewrite (volume_core _ _ (marked_core _ _ _ a M)).
        -- apply (s_limbo _ _ _ _ S1). set_solver.
  - eexists _, _. split; [done|]. split; [done|]. apply lr_refused; [done|done|by apply (marked_doms _ _ _ M)|done].
Qed.

Lemma lock_granted_spec st1 new can_block now (contend : option (list Z)) :
  marked st st1 new -> (forall x, x ∈ new -> x ∈ inodelk_list dom /\ contend <> None) -> accepted st (lk st a) dom ->
  exists st' ret new',
    (st2 ← __pl_inodelk_ref st1 a;
     l ← lock_at st2 a;
     Done (set_dom (set_lock st2 a (set_listed (set_times l (blkd_time l) now) true)) d (a :: inodelk_list dom)
             (blocked_inodelks dom), 0, (fun c => c ++ new) <$> contend)) =
    Done (st', ret, (fun c => c ++ new') <$> contend) /\
    tuned (a :: in_lists st) st st' /\ lock_result can_block new' st' ret /\ (new' <> [] -> contend <> None).
Proof.
  intros M Hnew' Hacc. assert (Hnew : forall x, x ∈ new -> x ∈ inodelk_list dom) by (intros x Hx; by apply Hnew').
  assert (Hp : forall x, x ∈ new -> present st x).
  { intros x Hx. apply (store_listed _ _ _ _ x S). apply (dom_locks_listed st d dom Hd). unfold dom_locks. set_solver. }
  pose proof (store_marked _ _ _ _ _ _ S M Hp) as S1.
  assert (Ha : present st1 a) by (apply (store_present _ _ _ _ _ S1); set_solver).
  assert (Hd1 : find_dom (dom_list st1) d = Some dom) by (by rewrite (marked_doms _ _ _ M)).
  unfold __pl_inodelk_ref. rewrite (lock_at_present _ _ Ha). run. rewrite lock_at_set_lock. run.
  eexists _, _, new. split; [done|]. split.
  - apply tuned_dom. eapply (tuned_trans new [a]); [by apply marked_tuned| | |set_solver].
    + rewrite set_lock_twice. by apply (tuned_lock [a] _ a (lk st1 a)); [apply present_lk|set_solver|..].
    + intros x Hx. apply elem_of_cons. right. apply (dom_locks_listed st d dom Hd). unfold dom_locks. set_solver.
  - split; [|intros Hne; destruct new as [|x new]; [done|]; by apply (Hnew' x ltac:(set_solver))].
    apply lr_granted; [done| |].
    + unfold set_dom. cbn [dom_list with_doms set_lock with_heap]. by rewrite (marked_doms _ _ _ M).
    + rewrite set_lock_twice. apply (store_grant L st1 (new ++ H) _ d dom Hd1); [done| |done|done|done|].
      * by rewrite (volume_core _ _ (marked_core _ _ _ a M)).
      * intros y Hy. rewrite <- conflict_core, <- owner_core, !(marked_core _ _ _ _ M), conflict_core, owner_core.
        by apply Hacc.
Qed.

Lemma lock_inodelk_spec can_block now contend :
  exists st' ret new,
    __lock_inodelk priv st a can_block d now contend = Done (st', ret, (fun c => c ++ new) <$> contend) /\
    tuned (a :: in_lists st) st st' /\ lock_result can_block new st' ret /\ (new <> [] -> contend <> None).
Proof.
  assert (Hp : forall x, x ∈ in_lists st -> present st x) by (intros; by eapply store_listed).
  assert (Ha : present st a) by (apply (store_present _ _ _ _ _ S); set_solver).
  assert (Hin : forall x, x ∈ dom_locks dom -> x ∈ in_lists st) by (intros; by eapply dom_locks_listed).
  unfold __lock_inodelk. rewrite (lock_at_present _ _ Ha). run. unfold dom_at. rewrite Hd. run.
  destruct (remove_inodelk_spec st (lk st a) Hp) as (ret & -> & Hret). run.
  assert (Hback : forall st1 new, marked st st1 new -> (forall x, x ∈ new -> x ∈ inodelk_list dom /\ contend <> None) ->
    refused st (lk st a) dom ->
    exists st' ret new', ('(st2, ret) ← __lock_blocked_add st1 d a can_block now; Done (st2, ret, (fun c => c ++ new) <$> contend))
      = Done (st', ret, (fun c => c ++ new') <$> contend) /\
      tuned (a :: in_lists st) st st' /\ lock_result can_block new' st' ret /\ (new' <> [] -> contend <> None)).
  { intros st1 new M Hn Hr. destruct (lock_blocked_add_spec st1 new can_block now M ltac:(intros; by apply Hn) Hr) as (st' & r & -> & T & R).
    run. exists st', r, new. split_and!; [done..|]. intros Hne. destruct new as [|x new]; [done|]. by apply (Hn x ltac:(set_solver)). }
  destruct Hret as [(-> & Hl & Hpid)|[-> Hok]]; cbn.
  { assert (E : (fun c : list Z => c ++ []) <$> contend = contend) by (destruct contend; cbn; by rewrite ?app_nil_r).
    pose proof (Hback st [] (marked_refl st) ltac:(set_solver) ltac:(left; auto)) as HB. by rewrite E in HB. }
  unfold __inodelk_grantable.
  destruct (grantable_spec (lk st a) now (inodelk_list dom) st None contend) as (st1 & conf & new & -> & M & Hn & Hconf).
  { intros x Hx. apply Hp, Hin. unfold dom_locks. set_solver. }
  run. destruct conf as [g|].
  { apply (Hback st1 new M Hn). destruct Hconf as [?|(? & ? & ?)]; [done|]. right; left. eauto. }
  destruct Hconf as [_ Hconf]. cbn.
  assert (Hp1 : forall x, x ∈ dom_locks dom -> present st1 x) by (intros x Hx; apply (marked_present _ _ _ _ M); auto).
  destruct (owner_has_lock_spec st1 dom (lk st a) Hp1) as [o Ho].
  unfold __blocked_lock_conflict.
  destruct (first_lock_spec (inodelk_conflict (lk st a)) st1 (blocked_inodelks dom)) as (b & -> & Hb).
  { intros x Hx. apply Hp1. unfold dom_locks. set_solver. }
  run. destruct b as [b|]; [rewrite Ho; run; destruct o|run]; cbn [negb].
  - by apply lock_granted_spec.
  - apply (Hback st1 new M Hn). right; right. exists b. destruct Hb as [Hb Hc]. split; [done|].
    by rewrite <- conflict_core, (marked_core _ _ _ b M), conflict_core in Hc.
  - by apply lock_granted_spec.
Qed.
End LockOne.

(** ** Granting the locks that wait *)

(** Every lock of the queue has a reason to wait, looking at those before it. *)
Definition justified (st : pl_inode_t) (dom : pl_dom_list_t) : Prop :=
  forall l1 b l2, blocked_inodelks dom = l1 ++ b :: l2 ->
    refused st (lk st b) (mkdom (domain dom) (inodelk_list dom) l1).

Lemma refused_mono st st' l dom dom' :
  is_locked st' = is_locked st ->
  (forall x, x ∈ inodelk_list dom -> x ∈ inodelk_list dom') -> (forall x, x ∈ blocked_inodelks dom -> x ∈ blocked_inodelks dom') ->
  (forall x, core (lk st' x) = core (lk st x)) ->
  forall l', core l' = core l -> refused st l dom -> refused st' l' dom'.
Proof.
  intros Hl Hg Hb Hc l' Hl' [[H1 H2]|[(g & Hgg & Hcf & Ho)|(b & Hbb & Hcf)]].
  - left. rewrite Hl. split; [done|]. by rewrite <- (f_equal client_pid Hl' : client_pid l' = client_pid l) in H2.
  - right; left. exists g. split; [auto|]. by rewrite (conflict_core_eq _ _ _ _ Hl' (Hc g)), (owner_core_eq _ _ _ _ Hl' (Hc g)).
  - right; right. exists b. split; [auto|]. by rewrite (conflict_core_eq _ _ _ _ Hl' (Hc b)).
Qed.

Lemma justified_granted st st' dom g :
  is_locked st' = is_locked st -> (forall x, core (lk st' x) = core (lk st x)) ->
  (forall x, x ∈ inodelk_list dom -> x ∈ g) ->
  justified st dom -> justified st' (mkdom (domain dom) g (blocked_inodelks dom)).
Proof.
  intros Hl Hc Hg J l1 b l2 E. cbn in *. apply (refused_mono st st' (lk st b) _ _ Hl) with (5 := J l1 b l2 E); auto.
Qed.

Lemma justified_blocked st st' dom a :
  is_locked st' = is_locked st -> (forall x, core (lk st' x) = core (lk st x)) ->
  justified st dom -> refused st (lk st a) dom ->
  justified st' (mkdom (domain dom) (inodelk_list dom) (blocked_inodelks dom ++ [a])).
Proof.
  intros Hl Hc J Hr l1 b l2 E. cbn in *. destruct l2 as [|c l2] using rev_ind.
  - apply app_inj_tail in E as [<- <-]. by apply (refused_mono st st' (lk st a) _ _ Hl) with (5 := Hr).
  - rewrite app_comm_cons, app_assoc in E. apply app_inj_tail in E as [E _].
    by apply (refused_mono st st' (lk st b) _ _ Hl) with (5 := J l1 b _ E).
Qed.

(** The state after a domain has been gone through: [gr] are the locks granted, [dom'] is the domain. *)
Record regranted (st : pl_inode_t) (d : string) (dom : pl_dom_list_t) (ls : list Z) (H : list Z) (n : Z)
    (st' : pl_inode_t) (gr new : list Z) : Prop := {
  g_store : store [] st' (gr ++ new ++ H) (n + Z.of_nat (length new));
  g_tuned : tuned (ls ++ in_lists st) st st';
  g_doms : exists b, dom_list st' = dom_list (set_dom st d (rev gr ++ inodelk_list dom) b) /\
             (forall x, x ∈ gr ++ b <-> x ∈ ls ++ blocked_inodelks dom) /\
             justified st' (mkdom d (rev gr ++ inodelk_list dom) b);
  g_free x : x ∈ gr -> client_pid (lk st x) < 0 \/ is_locked st = false \/ remove_running st <= 0 }.

Lemma set_dom_set_dom st d g1 b1 g2 b2 : dom_list (set_dom (set_dom st d g1 b1) d g2 b2) = dom_list (set_dom st d g2 b2).
Proof.
  unfold set_dom. cbn [dom_list with_doms]. rewrite map_map. apply map_ext. intros x.
  destruct (String.eqb_spec (domain x) d); cbn [domain]; [by rewrite String.eqb_refl|].
  by destruct (String.eqb_spec (domain x) d).
Qed.

Lemma set_dom_id st d dom :
  NoDup (map domain (dom_list st)) -> find_dom (dom_list st) d = Some dom ->
  dom_list (set_dom st d (inodelk_list dom) (blocked_inodelks dom)) = dom_list st.
Proof.
  intros Hn Hd. unfold set_dom. cbn [dom_list with_doms]. rewrite <- (map_id (dom_list st)) at 2.
  apply map_ext_in. intros y Hy%list_elem_of_In. destruct (String.eqb_spec (domain y) d) as [E|]; [|done].
  pose proof (find_dom_nodup _ _ Hn Hy) as Hf. rewrite E, Hd in Hf. simplify_eq. by destruct y.
Qed.

Lemma set_dom_ext st st' d g b : dom_list st' = dom_list st -> dom_list (set_dom st' d g b) = dom_list (set_dom st d g b).
Proof. unfold set_dom. cbn [dom_list with_doms]. by intros ->. Qed.

Lemma in_lists_set_dom st st' d g b x :
  dom_list st' = dom_list (set_dom st d g b) -> x ∈ in_lists st' -> x ∈ g ++ b \/ x ∈ in_lists st.
Proof.
  intros E. rewrite !in_lists_elem, E. unfold set_dom. cbn [dom_list with_doms].
  intros (y & Hy & Hx). apply list_elem_of_fmap in Hy as (z & -> & Hz).
  destruct (String.eqb (domain z) d); [by left|]. right. eauto.
Qed.

(** One lock is tried, then the others. *)
Lemma regranted_next st d dom a ls H n st2 new1 g b one st' gr new :
  find_dom (dom_list st) d = Some dom -> tuned (a :: in_lists st) st st2 ->
  dom_list st2 = dom_list (set_dom st d g b) ->
  regranted st2 d (mkdom d g b) ls (one ++ new1 ++ H) (n + Z.of_nat (length new1)) st' gr new ->
  g = one ++ inodelk_list dom -> one = [] /\ b = blocked_inodelks dom ++ [a] \/
    one = [a] /\ b = blocked_inodelks dom /\ accepted st (lk st a) dom ->
  regranted st d dom (a :: ls) H n st' (one ++ gr) (new1 ++ new).
Proof.
  intros Hd T E R -> Hone.
  assert (Hin : forall x, x ∈ dom_locks dom -> x ∈ in_lists st) by (intros; by eapply dom_locks_listed).
  assert (Hsub : forall x, x ∈ in_lists st2 -> x ∈ (a :: ls) ++ in_lists st).
  { intros x Hx. apply (in_lists_set_dom st st2 d _ _ x E) in Hx as [Hx|Hx]; [|set_solver].
    specialize (Hin x). unfold dom_locks in Hin. destruct Hone as [[-> ->]|(-> & -> & _)]; set_solver. }
  destruct R as [S' T' (b' & Hds & Hb' & J) Hf]. cbn [inodelk_list blocked_inodelks] in *. split.
  - apply (store_perm _ _ _ _ _ _ S'); [|rewrite length_app; lia]. intros x. rewrite !occ_app. lia.
  - eapply tuned_trans; [exact T|exact T'|set_solver|]. intros x [Hx|Hx]%elem_of_app; [set_solver|auto].
  - exists b'. destruct Hone as [[-> ->]|(-> & -> & _)]; cbn [app rev] in *.
    + split; [rewrite Hds, (set_dom_ext _ _ _ _ _ E); apply set_dom_set_dom|]. split; [|done].
      intros x. rewrite Hb'. set_solver.
    + rewrite <- app_assoc. cbn [app].
      split; [rewrite Hds, (set_dom_ext _ _ _ _ _ E); apply set_dom_set_dom|]. split; [|done].
      intros x. specialize (Hb' x). set_solver.
  - intros x [Hx|Hx]%elem_of_app.
    + destruct Hone as [[-> _]|(-> & _ & [Hacc _])]; [set_solver|]. by apply list_elem_of_singleton in Hx as ->.
    + specialize (Hf x Hx). rewrite (t_locked _ _ _ T), (t_running _ _ _ T) in Hf.
      by rewrite <- (f_equal client_pid (t_core _ _ _ T x) : client_pid (lk st2 x) = client_pid (lk st x)).
Qed.

Lemma grant_loop_spec d now ls : forall st dom H n granted contend,
  store ls st H n -> find_dom (dom_list st) d = Some dom -> (forall x, x ∈ ls -> volume (lk st x) = d) ->
  justified st dom ->
  exists st' gr new,
    grant_blocked_loop priv st d now ls granted contend = Done (st', granted ++ gr, (fun c => c ++ new) <$> contend) /\
    regranted st d dom ls H n st' gr new /\ (new <> [] -> contend <> None).
Proof.
  induction ls as [|a ls IH]; intros st dom H n granted contend S Hd Hv J; cbn [grant_blocked_loop].
  - exists st, [], []. rewrite app_nil_r. split; [f_equal; f_equal; destruct contend; cbn; by rewrite ?app_nil_r|].
    destruct (find_dom_some _ _ _ Hd) as [_ <-].
    split; [|done]. split; [by apply (store_perm _ _ _ _ _ _ S); [|cbn; lia]|apply tuned_refl| |set_solver].
    exists (blocked_inodelks dom). split; [symmetry; apply set_dom_id; [apply S|done]|]. split; [set_solver|].
    by destruct dom.
  - destruct (lock_inodelk_spec ls st H n d dom a S Hd (Hv a ltac:(set_solver)) true now contend)
      as (st1 & ret & new1 & -> & T1 & R & Hc1). run.
    assert (Ha1 : present st1 a).
    { apply (t_present _ _ _ T1), (store_present _ _ _ _ _ S). set_solver. }
    rewrite (lock_at_present _ _ Ha1). run. set (st2 := set_lock st1 a (set_status (lk st1 a) ret)).
    assert (T2 : tuned (a :: in_lists st) st st2).
    { eapply tuned_trans; [exact T1| |done|].
      - by apply (tuned_lock [a] _ a (lk st1 a)); [apply present_lk|set_solver|..].
      - set_solver. }
    assert (Hnext : forall g b one granted',
      dom_list st2 = dom_list (set_dom st d g b) -> store ls st1 (one ++ new1 ++ H) (n + Z.of_nat (length new1)) ->
      justified st2 (mkdom d g b) -> g = one ++ inodelk_list dom -> granted' = granted ++ one ->
      one = [] /\ b = blocked_inodelks dom ++ [a] \/
        one = [a] /\ b = blocked_inodelks dom /\ accepted st (lk st a) dom ->
      exists st' gr new,
        grant_blocked_loop priv st2 d now ls granted' ((fun c => c ++ new1) <$> contend) =
          Done (st', granted ++ gr, (fun c => c ++ new) <$> contend) /\ regranted st d dom (a :: ls) H n st' gr new /\
        (new <> [] -> contend <> None)).
    { intros g b one granted' Hds S1 J2 Hg -> Hone.
      assert (Hd2 : find_dom (dom_list st2) d = Some (mkdom d g b)) by (by rewrite Hds, find_dom_upd, String.eqb_refl, Hd).
      assert (Hv2 : forall x, x ∈ ls -> volume (lk st2 x) = d).
      { intros x Hx. rewrite (volume_core _ _ (t_core _ _ _ T2 x)). apply Hv. set_solver. }
      destruct (IH st2 (mkdom d g b) (one ++ new1 ++ H) (n + Z.of_nat (length new1)) (granted ++ one)
                  ((fun c => c ++ new1) <$> contend)) as (st' & gr & new & -> & R' & Hc2); [|done|done|done|].
      { by apply (store_set_lock _ _ _ _ _ (lk st1 a)); [|apply present_lk|..]. }
      exists st', (one ++ gr), (new1 ++ new). split; [|split; [by eapply regranted_next|]].
      2: { destruct new1; [|by intros _; apply Hc1]. intros Hne. specialize (Hc2 Hne). by destruct contend. }
      rewrite <- app_assoc. f_equal. f_equal. destruct contend; cbn; by rewrite ?app_assoc. }
    destruct (find_dom_some _ _ _ Hd) as [_ <-].
    destruct R as [Hacc Hds S1|Hr _ Hds S1|]; [| |done].
    + apply (Hnext _ _ [a] _ Hds S1); auto.
      apply (justified_granted st); [apply T2|apply T2|set_solver|done].
    + apply (Hnext _ _ [] _ Hds S1); auto using app_nil_r.
      apply (justified_blocked st); [apply T2|apply T2|done|done].
Qed.

Lemma elem_of_rev (x : Z) l : x ∈ rev l <-> x ∈ l.
Proof. rewrite rev_alt. apply elem_of_reverse. Qed.

(** The effect of going through the domains [ds]. *)
Record grants (ds : list string) (st : pl_inode_t) (H : list Z) (n : Z) (st' : pl_inode_t) (gr new : list Z) : Prop := {
  gs_store : store [] st' (gr ++ new ++ H) (n + Z.of_nat (length new));
  gs_tuned : tuned (in_lists st) st st';
  gs_names : map domain (dom_list st') = map domain (dom_list st);
  gs_members x : x ∈ in_lists st' <-> x ∈ in_lists st;
  gs_listed x : x ∈ gr -> x ∈ in_lists st;
  gs_granted x : granted st' x ->
    granted st x \/ client_pid (lk st x) < 0 \/ is_locked st = false \/ remove_running st <= 0;
  gs_kept x : granted st x -> granted st' x;
  gs_justified y : y ∈ dom_list st' -> domain y ∈ ds -> justified st' y;
  gs_others y : y ∈ dom_list st' -> domain y ∉ ds -> y ∈ dom_list st }.

Lemma justified_tuned T st st' y : tuned T st st' -> justified st y -> justified st' y.
Proof.
  intros Ht J. destruct y as [d g b]. apply (justified_granted st st' (mkdom d g b)); [apply Ht|apply Ht|done|done].
Qed.

Lemma grant_domain_spec st d dom H n now granted contend :
  store [] st H n -> find_dom (dom_list st) d = Some dom ->
  exists st' gr new,
    __grant_blocked_inode_locks priv st granted d now contend = Done (st', granted ++ gr, (fun c => c ++ new) <$> contend) /\
    grants [d] st H n st' gr new /\ (new <> [] -> contend <> None).
Proof.
  intros S Hd. destruct (find_dom_some _ _ _ Hd) as [Hin Hdn].
  unfold __grant_blocked_inode_locks, dom_at. rewrite Hd. run.
  set (st0 := set_dom st d (inodelk_list dom) []).
  pose proof (store_splice [] st H n d dom Hd S) as S0. rewrite app_nil_r in S0. fold st0 in S0.
  assert (Hd0 : find_dom (dom_list st0) d = Some (mkdom d (inodelk_list dom) [])) by (by unfold st0; rewrite find_dom_upd, String.eqb_refl, Hd).
  destruct (grant_loop_spec d now (blocked_inodelks dom) st0 (mkdom d (inodelk_list dom) []) H n granted contend)
    as (st' & gr & new & E & R & Hc); [done|done| | |].
  { intros x Hx. by apply (store_blocked_volume [] st H n d dom Hd x S). }
  { intros l1 b l2 El. by destruct l1. }
  exists st', gr, new. split; [done|]. split; [|done].
  destruct R as [S' T (b & Hds & Hb & J) Hf]. cbn [inodelk_list blocked_inodelks] in *. rewrite app_nil_r in Hb.
  assert (Hds' : dom_list st' = dom_list (set_dom st d (rev gr ++ inodelk_list dom) b)) by (by rewrite Hds; apply set_dom_set_dom).
  assert (Hgr : forall x, x ∈ gr -> x ∈ blocked_inodelks dom) by (intros x Hx; apply Hb; set_solver).
  destruct (in_lists_upd st d dom (rev gr ++ inodelk_list dom) b (s_doms _ _ _ _ S) Hd) as (rest & P1 & P2).
  assert (Hm : forall x, x ∈ in_lists st' <-> x ∈ in_lists st).
  { intros x. unfold in_lists at 1. rewrite Hds'. fold (in_lists (set_dom st d (rev gr ++ inodelk_list dom) b)).
    rewrite P1, P2. specialize (Hb x). unfold dom_locks. rewrite !elem_of_app, elem_of_rev in *. tauto. }
  split; [done| | |done| | | | |].
  - assert (T0 : tuned (in_lists st) st st0) by (apply tuned_dom, tuned_refl).
    eapply tuned_trans; [exact T0|exact T|done|]. intros x [Hx|Hx]%elem_of_app.
    + by apply (blocked_in_lists _ dom).
    + apply (in_lists_set_dom st st0 d _ _ x eq_refl) in Hx as [Hx|Hx]; [|done].
      rewrite app_nil_r in Hx. by apply (granted_in_lists _ dom).
  - rewrite Hds'. unfold set_dom. cbn [dom_list with_doms]. apply map_domain_upd.
  - intros x Hx. apply (blocked_in_lists _ dom); auto.
  - intros x (y & Hy & Hx). rewrite Hds', (set_dom_elem _ _ dom) in Hy by (done || apply S).
    destruct Hy as [->|[Hy _]]; [|left; by exists y]. cbn in Hx. rewrite elem_of_app, elem_of_rev in Hx.
    destruct Hx as [Hx|Hx]; [right; by apply Hf|left; by exists dom].
  - intros x (y & Hy & Hx). destruct (decide (domain y = d)) as [E'|E'].
    + pose proof (same_name [] st H n d dom S Hd y Hy E') as ->. exists (mkdom d (rev gr ++ inodelk_list dom) b).
      split; [rewrite Hds'; apply (set_dom_elem _ _ dom); [apply S|done|by left]|cbn; set_solver].
    + exists y. split; [rewrite Hds'; apply (set_dom_elem _ _ dom); [apply S|done|by right]|done].
  - intros y Hy E'%list_elem_of_singleton. rewrite Hds', (set_dom_elem _ _ dom) in Hy by (done || apply S).
    by destruct Hy as [->|[_ ?]].
  - intros y Hy E'. rewrite Hds', (set_dom_elem _ _ dom) in Hy by (done || apply S).
    destruct Hy as [->|[? _]]; [set_solver|done].
Qed.

Lemma grants_trans ds1 ds2 st H n st1 gr1 new1 st2 gr2 new2 :
  grants ds1 st H n st1 gr1 new1 ->
  grants ds2 st1 (gr1 ++ new1 ++ H) (n + Z.of_nat (length new1)) st2 gr2 new2 ->
  grants (ds1 ++ ds2) st H n st2 (gr1 ++ gr2) (new1 ++ new2).
Proof.
  intros G1 G2. split.
  - apply (store_perm _ _ _ _ _ _ (gs_store _ _ _ _ _ _ _ G2)); [|rewrite length_app; lia].
    intros x. rewrite !occ_app. lia.
  - eapply tuned_trans; [apply G1|apply G2|done|]. intros x. apply (gs_members _ _ _ _ _ _ _ G1).
  - rewrite (gs_names _ _ _ _ _ _ _ G2). apply G1.
  - intros x. rewrite (gs_members _ _ _ _ _ _ _ G2). apply (gs_members _ _ _ _ _ _ _ G1).
  - intros x [Hx|Hx]%elem_of_app; [by apply (gs_listed _ _ _ _ _ _ _ G1)|].
    by apply (gs_members _ _ _ _ _ _ _ G1), (gs_listed _ _ _ _ _ _ _ G2).
  - intros x Hx. destruct (gs_tuned _ _ _ _ _ _ _ G1) as [_ Hr Hl _ _ _ Hc _ _ _].
    apply (gs_granted _ _ _ _ _ _ _ G2) in Hx as [Hx|Hx]; [by apply (gs_granted _ _ _ _ _ _ _ G1)|].
    rewrite Hl, Hr, (f_equal client_pid (Hc x) : client_pid (lk st1 x) = client_pid (lk st x)) in Hx. by right.
  - intros x Hx. by apply (gs_kept _ _ _ _ _ _ _ G2), (gs_kept _ _ _ _ _ _ _ G1).
  - intros y Hy Hd. destruct (decide (domain y ∈ ds2)) as [H2|H2]; [by apply (gs_justified _ _ _ _ _ _ _ G2)|].
    apply (justified_tuned _ _ _ _ (gs_tuned _ _ _ _ _ _ _ G2)).
    apply (gs_justified _ _ _ _ _ _ _ G1); [by apply (gs_others _ _ _ _ _ _ _ G2)|]. set_solver.
  - intros y Hy Hd. apply (gs_others _ _ _ _ _ _ _ G1); [apply (gs_others _ _ _ _ _ _ _ G2); [done|]|]; set_solver.
Qed.

Lemma grants_nil st H n : store [] st H n -> grants [] st H n st [] [].
Proof.
  intros S. split; try done; [by apply (store_perm _ _ _ _ _ _ S); [|cbn; lia]|set_solver|by left|set_solver].
Qed.

Lemma grant_all_spec now ds : forall st H n granted contend,
  store [] st H n -> (forall d, d ∈ ds -> d ∈ map domain (dom_list st)) ->
  exists st' gr new,
    grant_all priv st now ds granted contend = Done (st', granted ++ gr, (fun c => c ++ new) <$> contend) /\
    grants ds st H n st' gr new /\ (new <> [] -> contend <> None).
Proof.
  induction ds as [|d ds IH]; intros st H n granted contend S Hds; cbn [grant_all].
  - exists st, [], []. rewrite app_nil_r. split; [f_equal; f_equal; destruct contend; cbn; by rewrite ?app_nil_r|].
    split; [by apply grants_nil|done].
  - assert (exists dom, find_dom (dom_list st) d = Some dom) as [dom Hd].
    { specialize (Hds d ltac:(set_solver)). apply list_elem_of_fmap in Hds as (y & -> & Hy). exists y.
      apply find_dom_nodup; [apply S|done]. }
    destruct (grant_domain_spec st d dom H n now granted contend S Hd) as (st1 & gr1 & new1 & -> & G1 & Hc1). run.
    destruct (IH st1 (gr1 ++ new1 ++ H) (n + Z.of_nat (length new1)) (granted ++ gr1) ((fun c => c ++ new1) <$> contend))
      as (st2 & gr2 & new2 & -> & G2 & Hc2); [apply G1| |].
    { intros d' Hd'. rewrite (gs_names _ _ _ _ _ _ _ G1). apply Hds. set_solver. }
    exists st2, (gr1 ++ gr2), (new1 ++ new2). split; [|split; [by apply (grants_trans [d] ds _ _ _ st1)|]].
    2: { destruct new1; [|by intros _; apply Hc1]. intros Hne. specialize (Hc2 Hne). by destruct contend. }
    rewrite app_assoc. f_equal. f_equal. destruct contend; cbn; by rewrite ?app_assoc.
Qed.

End Ops.
