(* ===== verification/PlInodelkWorld.v ===== *)
(** * Threads and what they hold (PlInodelk)

    Each task that a thread has left holds references on locks and on the
    inode, may be about to go through a domain, may hold the lock of a client,
    or may be a removal that runs.  [world_ok] relates these to the state of
    the inode, for a translator that does not revoke locks; [effect] is what a
    task does, and suffices to keep [world_ok]. *)
From stdpp Require Import gmap strings.
From S2P Require Import Prelude PlCommon PlPosix PlInodelk PlInodelkStore PlInodelkOps.

Lemma keeps_out_core c l l' : core l' = core l -> keeps_out c l' <-> keeps_out c l.
Proof.
  intros Hc. unfold keeps_out.
  assert (H1 : client l' = client l) by exact (f_equal client Hc).
  assert (H2 : client_pid l' = client_pid l) by exact (f_equal client_pid Hc). by rewrite H1, H2.
Qed.

(** ** What a task holds *)

(** References on locks, but for those of a lock request. *)
Definition keeps (t : task) : list Z :=
  match t with
  | UnrefGranted g => g
  | Notify l => l
  | NotifyDone a | ReleaseGrant a | ReleaseUnref a => [a]
  | CleanupLoop _ _ _ r u | CleanupNext _ _ r u => r ++ u
  | _ => []
  end.

Definition request (t : task) : option setlk_call :=
  match t with SetlkStart s | Setlk s => Some s | _ => None end.

Definition held (t : task) : list Z :=
  match request t with Some s => [s_lock s] | None => keeps t end.

(** References on the inode. *)
Definition irefs (t : task) : Z :=
  match t with
  | SetlkStart _ | Setlk _ | InodeUnref | NotifyDone _ | ReleaseGrant _ | ReleaseUnref _ | RemoveCbk _ => 1
  | Notify l => Z.of_nat (length l)
  | CleanupLoop _ _ _ r u | CleanupNext _ _ r u => Z.of_nat (length (r ++ u))
  | _ => 0
  end.

(** Locks that a task uses and a later task of the thread holds. *)
Definition uses (t : task) : list Z :=
  match t with UnwindGranted a | NotifySend a | CleanupUnwind a => [a] | _ => [] end.

(** The client whose lock is held. *)
Definition ctx_held (t : task) : list Z :=
  match t with CleanupLoop c _ _ _ _ | CleanupNext c _ _ _ => [c] | _ => [] end.

(** The domains that will be gone through. *)
Definition pend (st : pl_inode_t) (t : task) : list string :=
  match t with
  | Grant d => [d]
  | ReleaseGrant a => [volume (lk st a)]
  | CleanupLoop _ _ _ r u | CleanupNext _ _ r u => map (fun a => volume (lk st a)) (r ++ u)
  | _ => []
  end.

(** The client of a removal that runs. *)
Definition cbk (t : task) : list Z := match t with RemoveCbk c => [c] | _ => [] end.

Definition all_of {A} (f : task -> list A) (k : list task) : list A := concat (map f k).

Definition irefs_of (k : list task) : Z := foldr (fun t n => irefs t + n) 0 k.

Lemma all_of_app {A} (f : task -> list A) k1 k2 : all_of f (k1 ++ k2) = all_of f k1 ++ all_of f k2.
Proof. unfold all_of. by rewrite map_app, concat_app. Qed.

Lemma all_of_elem {A} (f : task -> list A) k x : x ∈ all_of f k <-> exists t, t ∈ k /\ x ∈ f t.
Proof.
  unfold all_of. induction k as [|t k IH]; cbn; [set_solver|]. rewrite elem_of_app, IH. set_solver.
Qed.

Lemma irefs_app k1 k2 : irefs_of (k1 ++ k2) = irefs_of k1 + irefs_of k2.
Proof. unfold irefs_of. induction k1 as [|t k IH]; cbn; [done|lia]. Qed.

Lemma keeps_held t x : occ x (keeps t) <= occ x (held t).
Proof. unfold held. destruct t; cbn; try case_match; lia. Qed.

Lemma request_twice s t k :
  t ∈ k -> request t = Some s -> 1 + occ (s_lock s) (all_of keeps k) <= occ (s_lock s) (all_of held k).
Proof.
  assert (Hk : forall k, occ (s_lock s) (all_of keeps k) <= occ (s_lock s) (all_of held k)).
  { clear. induction k as [|u k IH]; cbn; [done|]. unfold all_of in *. cbn. rewrite !occ_app.
    pose proof (keeps_held u (s_lock s)). lia. }
  induction k as [|u k IH]; [set_solver|]. unfold all_of. cbn. rewrite !occ_app. fold (all_of keeps k) (all_of held k).
  intros [->|Ht]%elem_of_cons Hr.
  - unfold held at 1. rewrite Hr. cbn. rewrite Z.eqb_refl. specialize (Hk k).
    replace (keeps u) with (@nil Z); [cbn; lia|]. by destruct u.
  - specialize (IH Ht Hr). pose proof (keeps_held u (s_lock s)). lia.
Qed.

(** ** Well-formed tasks and threads *)

Definition names (st : pl_inode_t) : list string := map domain (dom_list st).

(** Lock requests that set or remove a lock; no orders to clear locks. *)
Definition supported (t : task) : bool :=
  match t with
  | Inodelk r => match r_cmd r with F_SETLK | F_SETLKW => true | _ => false end
  | Clear _ _ => false
  | _ => true
  end.

Definition request_ok (st : pl_inode_t) (s : setlk_call) : Prop :=
  exists l, heap st !! s_lock s = Some l /\ client l = s_ctx s /\ volume l = s_dom s /\ ref l = 1 /\ listed l = false.

Definition task_ok (st : pl_inode_t) (t : task) : Prop :=
  match t with
  | Inodelk r => supported (Inodelk r) = true
  | SetlkStart s | Setlk s => request_ok st s
  | PruneScan _ | Clear _ _ | ClearBlocked _ _ | ClearGranted _ _ | ClearUnwind _ | ClearUnref _ => False
  | Grant d => d ∈ names st
  | Cleanup c => c <> 0
  | CleanupLoop c pos next _ _ => c <> 0 /\ head (lockers st c) = pos /\ (is_Some pos -> head (tail (lockers st c)) = next)
  | CleanupNext c next _ _ => c <> 0 /\ head (lockers st c) = next
  | _ => True
  end.

(** A task that finds contended locks, and the one that takes them. *)
Definition finds (t : task) : bool := match t with Grant _ | ReleaseGrant _ => true | _ => false end.
Definition notifies (t : task) : bool := match t with Notify _ => true | _ => false end.

Section Effects.
Context (priv : posix_locks_private_t).

Fixpoint thread_ok (k : list task) : Prop :=
  match k with
  | [] => True
  | t :: k =>
      (forall a, a ∈ uses t -> a ∈ all_of keeps k) /\
      (finds t = true -> notify_contention priv = true -> existsb notifies k = true) /\ thread_ok k
  end.

(** ** The lists of the clients *)

Record clients_ok (st : pl_inode_t) : Prop := {
  cl_elem c x : x ∈ lockers st c <-> c <> 0 /\ x ∈ in_lists st /\ client (lk st x) = c;
  cl_nodup c : NoDup (lockers st c) }.

Definition volumes_ok (st : pl_inode_t) : Prop := forall x l, heap st !! x = Some l -> volume l ∈ names st.

(** ** What a task does *)

(** Removals, for a task that is not one. *)
Definition flags_kept (st : pl_inode_t) (r : result) : Prop :=
  remove_running (after r) = remove_running st /\ is_locked (after r) = is_locked st /\ spawned r = [] /\
  (forall s, s ∈ waiting st -> s ∈ waiting (after r) \/ Remove s ∈ next_tasks r) /\
  (forall s, s ∈ waiting (after r) -> s ∈ waiting st).

Definition flags_ok (st : pl_inode_t) (t : task) (r : result) : Prop :=
  match t with
  | Remove s =>
      is_locked (after r) = true /\
      ((waiting (after r) = waiting st ++ [s] /\ remove_running (after r) = remove_running st /\ spawned r = [] /\
        exists x, granted (after r) x /\ keeps_out (stub_client s) (lk (after r) x)) \/
       (waiting (after r) = waiting st /\ remove_running (after r) = u32 (remove_running st + 1) /\
        spawned r = [[RemoveCbk (stub_client s)]] /\
        forall x, granted (after r) x -> ~ keeps_out (stub_client s) (lk (after r) x)))
  | RemoveCbk _ =>
      spawned r = [] /\ waiting (after r) = waiting st /\ remove_running (after r) = u32 (remove_running st - 1) /\
      (is_locked (after r) = is_locked st /\ (remove_running (after r) <> 0 \/ waiting st <> []) \/
       is_locked (after r) = false /\ remove_running (after r) = 0 /\ waiting st = [])
  | _ => flags_kept st r
  end.

(** The tasks that end the locks of a client. *)
Definition ends_client (t : task) : bool :=
  match t with CleanupLoop _ _ _ _ _ => true | _ => false end.

Definition cleans (t : task) : bool :=
  match t with Cleanup _ | CleanupLoop _ _ _ _ _ | CleanupNext _ _ _ _ => true | _ => false end.

(** [H] and [n] are the references of the other tasks. *)
Record effect (st : pl_inode_t) (t : task) (H : list Z) (n : Z) (r : result) : Prop := {
  e_store : store [] (after r) (all_of held (next_tasks r ++ concat (spawned r)) ++ contended r ++ H)
              (irefs_of (next_tasks r ++ concat (spawned r)) + Z.of_nat (length (contended r)) + n);
  e_clients : clients_ok (after r);
  e_volumes : volumes_ok (after r);
  e_tasks u : u ∈ next_tasks r ++ concat (spawned r) -> task_ok (after r) u;
  e_thread k : thread_ok (t :: k) -> thread_ok (next_tasks r ++ k);
  e_spawned k : k ∈ spawned r -> thread_ok k;
  e_notify : contended r <> [] -> finds t = true /\ notify_contention priv = true;
  e_cbk : all_of cbk (next_tasks r) = [];
  e_cleans u : u ∈ next_tasks r ++ concat (spawned r) -> cleans t = false -> cleans u = false;
  e_same x : present st x -> x ∉ in_lists st -> x ∉ held t -> x ∉ uses t -> heap (after r) !! x = heap st !! x;
  e_core x : present st x -> present (after r) x -> core (lk (after r) x) = core (lk st x);
  e_names d : d ∈ names st -> d ∈ names (after r);
  e_lockers c : c ∈ ctx_locked st -> c ∉ ctx_held t -> lockers (after r) c = lockers st c;
  e_ctx c : occ c (all_of ctx_held (next_tasks r ++ concat (spawned r))) + (if decide (c ∈ ctx_locked st) then 1 else 0) =
            occ c (ctx_held t) + (if decide (c ∈ ctx_locked (after r)) then 1 else 0);
  e_justified y : y ∈ dom_list (after r) ->
    domain y ∈ all_of (pend (after r)) (next_tasks r) \/ justified (after r) y \/
    ((domain y ∉ pend st t) /\
     exists y0, y0 ∈ dom_list st /\ domain y0 = domain y /\ (justified st y0 -> justified (after r) y));
  e_granted x : granted (after r) x ->
    granted st x \/ client_pid (lk (after r) x) < 0 \/ is_locked (after r) = false \/ remove_running (after r) <= 0;
  e_flags : flags_ok st t r;
  e_waiting s : ends_client t = false -> s ∈ waiting (after r) ->
    (exists x, granted (after r) x /\ keeps_out (stub_client s) (lk (after r) x)) \/
    (s ∈ waiting st /\ forall x, granted st x -> granted (after r) x) }.

(** ** The contended locks join the list of the call *)

Lemma add_contended_held l k x :
  l = [] \/ existsb notifies k = true -> occ x (all_of held (add_contended l k)) = occ x (all_of held k) + occ x l.
Proof.
  intros Hl. induction k as [|t k IH]; [destruct Hl as [->|]; [done|done]|].
  assert (Hd : (exists c, t = Notify c) \/ add_contended l (t :: k) = t :: add_contended l k /\ (l = [] \/ existsb notifies k = true)).
  { destruct t; eauto; right; split; auto; destruct Hl; auto. }
  destruct Hd as [[c ->]|[-> Hk]]; cbn; unfold all_of in *; cbn; rewrite !occ_app; [lia|].
  rewrite IH by done. lia.
Qed.

Lemma add_contended_irefs l k :
  l = [] \/ existsb notifies k = true -> irefs_of (add_contended l k) = irefs_of k + Z.of_nat (length l).
Proof.
  intros Hl. induction k as [|t k IH]; [destruct Hl as [->|]; [done|done]|].
  assert (Hd : (exists c, t = Notify c) \/ add_contended l (t :: k) = t :: add_contended l k /\ (l = [] \/ existsb notifies k = true)).
  { destruct t; eauto; right; split; auto; destruct Hl; auto. }
  destruct Hd as [[c ->]|[-> Hk]]; cbn; unfold irefs_of in *; [rewrite length_app; lia|]. cbn.
  rewrite IH by done. lia.
Qed.

Lemma add_contended_all_of {A} (f : task -> list A) l k :
  (forall c, f (Notify c) = []) -> all_of f (add_contended l k) = all_of f k.
Proof.
  intros Hf. unfold all_of. induction k as [|t k IH]; [done|]. destruct t; cbn; rewrite ?IH, ?Hf; done.
Qed.

Lemma add_contended_elem l k t : t ∈ add_contended l k -> t ∈ k \/ exists c, t = Notify c.
Proof.
  induction k as [|u k IH]; [by left|]. destruct u; cbn [add_contended]; rewrite !elem_of_cons; naive_solver.
Qed.

Lemma add_contended_in l k s : Remove s ∈ k -> Remove s ∈ add_contended l k.
Proof. induction k as [|u k IH]; [done|]. destruct u; cbn [add_contended]; rewrite !elem_of_cons; naive_solver. Qed.

Lemma add_contended_keeps l k x : x ∈ all_of keeps k -> x ∈ all_of keeps (add_contended l k).
Proof.
  unfold all_of. induction k as [|u k IH]; [done|].
  destruct u; cbn [add_contended map concat keeps]; rewrite ?elem_of_app; tauto.
Qed.

Lemma add_contended_notifies l k : existsb notifies (add_contended l k) = existsb notifies k.
Proof. induction k as [|u k IH]; [done|]. destruct u; cbn; auto. Qed.

Lemma add_contended_thread l k : thread_ok k -> thread_ok (add_contended l k).
Proof.
  induction k as [|u k IH]; [done|]. intros (Hu & Hf & Hk).
  assert (Hd : thread_ok (u :: add_contended l k)).
  { split; [intros a Ha; apply add_contended_keeps; auto|]. split; [by rewrite add_contended_notifies|auto]. }
  destruct u; try exact Hd. cbn. split; [set_solver|]. split; [done|done].
Qed.

(** ** The invariant *)

Record world_ok (w : world) : Prop := {
  w_store : store [] (inode w) (all_of held (concat (threads w))) (irefs_of (concat (threads w)));
  w_clients : clients_ok (inode w);
  w_volumes : volumes_ok (inode w);
  w_tasks t : t ∈ concat (threads w) -> task_ok (inode w) t;
  w_threads k : k ∈ threads w -> thread_ok k;
  w_ctx c : occ c (all_of ctx_held (concat (threads w))) = if decide (c ∈ ctx_locked (inode w)) then 1 else 0;
  w_justified y : y ∈ dom_list (inode w) ->
    justified (inode w) y \/ domain y ∈ all_of (pend (inode w)) (concat (threads w));
  w_running : remove_running (inode w) = Z.of_nat (length (all_of cbk (concat (threads w))));
  w_locked : all_of cbk (concat (threads w)) <> [] \/ waiting (inode w) <> [] -> is_locked (inode w) = true;
  w_removal c x : c ∈ all_of cbk (concat (threads w)) -> granted (inode w) x -> ~ keeps_out c (lk (inode w) x);
  w_busy : is_locked (inode w) = true ->
    all_of cbk (concat (threads w)) <> [] \/ waiting (inode w) <> [] \/ exists s, Remove s ∈ concat (threads w) }.

Lemma running_cbk w : running w = Z.of_nat (length (all_of cbk (concat (threads w)))).
Proof.
  unfold running. f_equal. induction (concat (threads w)) as [|t k IH]; [done|].
  unfold all_of in *. cbn. rewrite length_app, <- IH. by destruct t.
Qed.

Section Step.
Context (w : world) (W : world_ok w) (before after_ : list (list task)) (t : task) (k : list task).
Context (Hth : threads w = before ++ (t :: k) :: after_).

(** The tasks of the other threads, and those that this one has left. *)
Definition others : list task := concat before ++ k ++ concat after_.

Lemma all_tasks_elem u : u ∈ concat (threads w) <-> u = t \/ u ∈ others.
Proof. rewrite Hth, concat_app. cbn. unfold others. set_solver. Qed.

Lemma all_tasks_occ (f : task -> list Z) x : occ x (all_of f (concat (threads w))) = occ x (f t) + occ x (all_of f others).
Proof.
  rewrite Hth, concat_app. cbn. unfold others. rewrite !all_of_app. change (t :: k ++ concat after_) with ([t] ++ (k ++ concat after_)).
  rewrite !all_of_app, !occ_app. change (all_of f [t]) with (f t ++ []). rewrite app_nil_r. lia.
Qed.

Lemma all_tasks_irefs : irefs_of (concat (threads w)) = irefs t + irefs_of others.
Proof.
  rewrite Hth, concat_app. cbn. unfold others. change (t :: k ++ concat after_) with ([t] ++ (k ++ concat after_)).
  rewrite !irefs_app. cbn. lia.
Qed.

Lemma step_store : store [] (inode w) (held t ++ all_of held others) (irefs t + irefs_of others).
Proof.
  apply (store_perm _ _ _ _ _ _ (w_store _ W)); [|symmetry; apply all_tasks_irefs].
  intros x. rewrite (all_tasks_occ held). by rewrite occ_app.
Qed.

Lemma step_thread : thread_ok (t :: k).
Proof. apply (w_threads _ W). rewrite Hth. set_solver. Qed.

Lemma uses_kept a : a ∈ uses t -> a ∈ all_of keeps others.
Proof.
  intros Ha. apply step_thread in Ha. unfold others. rewrite !all_of_app. set_solver.
Qed.

Lemma keeps_sub ts x : x ∈ all_of keeps ts -> x ∈ all_of held ts.
Proof.
  rewrite !all_of_elem. intros (u & Hu & Hx). exists u. split; [done|]. apply occ_elem. apply occ_elem in Hx.
  pose proof (keeps_held u x). lia.
Qed.

Lemma request_alone u s :
  u ∈ others -> request u = Some s ->
  (s_lock s ∉ in_lists (inode w)) /\ (s_lock s ∉ held t) /\ (s_lock s ∉ uses t).
Proof.
  intros Hu Hs. assert (Hok : request_ok (inode w) s).
  { pose proof (w_tasks _ W u ltac:(apply all_tasks_elem; by right)). by destruct u; simplify_eq/=. }
  destruct Hok as (l & Hl & _ & _ & Hr & _).
  pose proof (s_acct _ _ _ _ step_store (s_lock s)) as A. unfold rc in A. rewrite Hl, Hr, app_nil_r, occ_app in A.
  pose proof (request_twice s u others Hu Hs). pose proof (occ_nonneg (s_lock s) (in_lists (inode w))).
  pose proof (occ_nonneg (s_lock s) (held t)). pose proof (occ_nonneg (s_lock s) (all_of keeps others)).
  split_and!; [apply occ_not_elem; lia|apply occ_not_elem; lia|]. intros Hk%uses_kept%occ_elem. lia.
Qed.

Lemma ctx_alone u c : u ∈ others -> c ∈ ctx_held u -> c ∈ ctx_locked (inode w) /\ c ∉ ctx_held t.
Proof.
  intros Hu Hc. pose proof (w_ctx _ W c) as A. rewrite (all_tasks_occ ctx_held) in A.
  assert (H1 : c ∈ all_of ctx_held others) by (apply all_of_elem; eauto). apply occ_elem in H1.
  pose proof (occ_nonneg c (ctx_held t)). case_decide; [|lia]. split; [done|]. apply occ_not_elem. lia.
Qed.

Context (r : result) (E : effect (inode w) t (all_of held others) (irefs_of others) r).

Lemma others_ok u : u ∈ others -> task_ok (inode w) u -> task_ok (after r) u.
Proof.
  intros Hu Hok. assert (Hreq : forall s, request u = Some s -> request_ok (inode w) s -> request_ok (after r) s).
  { intros s Hs (l & Hl & ?). destruct (request_alone u s Hu Hs) as (H1 & H2 & H3). exists l.
    rewrite (e_same _ _ _ _ _ E) by (done || by eexists). done. }
  assert (Hctx : forall c, c ∈ ctx_held u -> lockers (after r) c = lockers (inode w) c).
  { intros c Hc. destruct (ctx_alone u c Hu Hc). by apply (e_lockers _ _ _ _ _ E). }
  destruct u; cbn in *; try done; try (by apply Hreq); try (by apply (e_names _ _ _ _ _ E));
    rewrite Hctx by set_solver; done.
Qed.

Definition next_world : world :=
  mkworld (after r) (before ++ (next_tasks r ++ add_contended (contended r) k) :: after_ ++ spawned r).

Lemma next_flat :
  concat (threads next_world) =
  concat before ++ (next_tasks r ++ add_contended (contended r) k) ++ concat after_ ++ concat (spawned r).
Proof. unfold next_world. cbn. rewrite concat_app. cbn. by rewrite concat_app. Qed.

Lemma contended_fits : contended r = [] \/ existsb notifies k = true.
Proof.
  destruct (contended r) eqn:Ec; [by left|right].
  destruct (e_notify _ _ _ _ _ E) as [Hf Hn]; [by rewrite Ec|]. by apply step_thread.
Qed.

Lemma next_elem u :
  u ∈ concat (threads next_world) -> u ∈ next_tasks r ++ concat (spawned r) \/ u ∈ others \/ exists c, u = Notify c.
Proof.
  rewrite next_flat. unfold others. rewrite !elem_of_app.
  intros [?|[[?|H]|[?|?]]]; auto. apply add_contended_elem in H as [H|H]; auto.
Qed.

Lemma next_occ (f : task -> list Z) x :
  (forall c, f (Notify c) = []) ->
  occ x (all_of f (concat (threads next_world))) =
  occ x (all_of f (next_tasks r ++ concat (spawned r))) + occ x (all_of f others).
Proof.
  intros Hf. rewrite next_flat. unfold others. rewrite !all_of_app.
  rewrite add_contended_all_of by done. rewrite !occ_app. lia.
Qed.

Lemma next_store : store [] (after r) (all_of held (concat (threads next_world))) (irefs_of (concat (threads next_world))).
Proof.
  apply (store_perm _ _ _ _ _ _ (e_store _ _ _ _ _ E)); rewrite next_flat; unfold others.
  - intros x. rewrite !all_of_app, !occ_app. rewrite add_contended_held by apply contended_fits. lia.
  - rewrite !irefs_app, add_contended_irefs by apply contended_fits. lia.
Qed.

Lemma core_kept x : x ∈ all_of held others -> core (lk (after r) x) = core (lk (inode w) x).
Proof.
  intros Hx. apply (e_core _ _ _ _ _ E).
  - apply (store_held _ _ _ _ x step_store). set_solver.
  - apply (store_held _ _ _ _ x (e_store _ _ _ _ _ E)). set_solver.
Qed.

Lemma pend_kept u d : u ∈ others -> d ∈ pend (inode w) u -> d ∈ pend (after r) u.
Proof.
  intros Hu. assert (Hv : forall x, x ∈ held u -> volume (lk (after r) x) = volume (lk (inode w) x)).
  { intros x Hx. apply volume_core, core_kept, all_of_elem. eauto. }
  destruct u; cbn in *; try done; rewrite ?list_elem_of_fmap.
  - intros (x & -> & Hx). exists x. rewrite Hv; [done|]. by cbn.
  - intros (x & -> & Hx). exists x. rewrite Hv; [done|]. by cbn.
  - by rewrite Hv by set_solver.
Qed.

Lemma next_pend (u : task) d : u ∈ others -> d ∈ pend (after r) u ->
  d ∈ all_of (pend (after r)) (concat (threads next_world)).
Proof.
  intros Hu Hd. rewrite next_flat, !all_of_app, add_contended_all_of by done.
  assert (Ho : d ∈ all_of (pend (after r)) others) by (apply all_of_elem; eauto).
  unfold others in Ho. rewrite !all_of_app in Ho. set_solver.
Qed.

Lemma next_justified y : y ∈ dom_list (after r) ->
  justified (after r) y \/ domain y ∈ all_of (pend (after r)) (concat (threads next_world)).
Proof.
  intros Hy. destruct (e_justified _ _ _ _ _ E y Hy) as [Hp|[J|(Hn & y0 & Hy0 & Hd & HJ)]]; [|by left|].
  - right. rewrite next_flat, !all_of_app. set_solver.
  - destruct (w_justified _ W y0 Hy0) as [J|Hp]; [by left; apply HJ|right].
    apply all_of_elem in Hp as (u & Hu & Hp). rewrite Hd in Hp. rewrite all_tasks_elem in Hu by done.
    destruct Hu as [->|Hu]; [done|]. by apply (next_pend u), pend_kept.
Qed.

Lemma cbk_before : length (all_of cbk (concat (threads w))) = (length (cbk t) + length (all_of cbk others))%nat.
Proof.
  rewrite Hth, concat_app. cbn [concat]. unfold others. change ((t :: k) ++ concat after_) with ([t] ++ (k ++ concat after_)).
  rewrite !all_of_app, !length_app. change (all_of cbk [t]) with (cbk t ++ []). rewrite app_nil_r. lia.
Qed.

Lemma cbk_after :
  length (all_of cbk (concat (threads next_world))) = (length (all_of cbk others) + length (all_of cbk (concat (spawned r))))%nat.
Proof.
  rewrite next_flat, !all_of_app, add_contended_all_of by done. rewrite (e_cbk _ _ _ _ _ E). unfold others.
  rewrite !all_of_app, !length_app. cbn. lia.
Qed.

Lemma cbk_next c : c ∈ all_of cbk (concat (threads next_world)) <-> c ∈ all_of cbk others \/ c ∈ all_of cbk (concat (spawned r)).
Proof.
  rewrite next_flat, !all_of_app, add_contended_all_of by done. rewrite (e_cbk _ _ _ _ _ E). unfold others.
  rewrite !all_of_app. set_solver.
Qed.

Lemma cbk_others c : c ∈ all_of cbk others -> c ∈ all_of cbk (concat (threads w)).
Proof. rewrite !all_of_elem. intros (u & Hu & Hc). exists u. rewrite all_tasks_elem by done. auto. Qed.

Context (Hrun : running next_world < 2 ^ 32).

Lemma next_running : remove_running (after r) = Z.of_nat (length (all_of cbk (concat (threads next_world)))).
Proof.
  rewrite running_cbk in Hrun. pose proof (w_running _ W) as Hw. rewrite cbk_before in Hw. rewrite cbk_after in *.
  pose proof (e_flags _ _ _ _ _ E) as F.
  destruct t; cbn in F, Hw; try (destruct F as (-> & _ & -> & _); cbn; lia).
  - destruct F as (_ & [(_ & -> & -> & _)|(_ & -> & Hsp & _)]); [cbn; lia|]. rewrite Hsp in *. cbn in *.
    rewrite u32_small by lia. lia.
  - destruct F as (Hsp & _ & -> & _). rewrite Hsp in *. cbn in *. rewrite u32_small by lia. lia.
Qed.

Lemma next_locked : all_of cbk (concat (threads next_world)) <> [] \/ waiting (after r) <> [] -> is_locked (after r) = true.
Proof.
  intros Hne. pose proof next_running as Hr. pose proof (e_flags _ _ _ _ _ E) as F.
  assert (Hold : all_of cbk others <> [] \/ waiting (inode w) <> [] -> is_locked (inode w) = true).
  { intros [Hc|Hc]; apply (w_locked _ W); [left|by right]. destruct (all_of cbk others) as [|c l] eqn:Ec; [done|].
    intros Hn. assert (Hin : c ∈ all_of cbk (concat (threads w))) by (apply cbk_others; rewrite Ec; set_solver).
    rewrite Hn in Hin. set_solver. }
  assert (Hnew : spawned r = [] -> all_of cbk (concat (threads next_world)) <> [] -> all_of cbk others <> []).
  { intros Hs Hc Hn. apply Hc. apply length_zero_iff_nil. rewrite cbk_after, Hs, Hn. done. }
  destruct t; cbn in F; try (destruct F as (_ & -> & Hs & _ & Hw); apply Hold; destruct Hne as [Hne|Hne];
    [left; auto|right; destruct (waiting (after r)) as [|s0 l0]; [done|]; specialize (Hw s0 ltac:(set_solver));
     intros Hn; rewrite Hn in Hw; set_solver]).
  - by destruct F.
  - destruct F as (Hs & Hw & _ & [[-> _]|(_ & Hz & Hw0)]).
    + apply Hold. rewrite Hw in Hne. destruct Hne as [Hne|Hne]; auto.
    + rewrite Hw in Hne. destruct Hne as [Hne|Hne]; [|done]. destruct (all_of cbk (concat (threads next_world))); [done|].
      rewrite Hz in Hr. cbn in Hr. lia.
Qed.

Lemma next_removal c x : c ∈ all_of cbk (concat (threads next_world)) -> granted (after r) x -> ~ keeps_out c (lk (after r) x).
Proof.
  intros Hc Hx. assert (Hl : is_locked (after r) = true).
  { apply next_locked. left. intros Hn. rewrite Hn in Hc. set_solver. }
  assert (Hr : 0 < remove_running (after r)).
  { rewrite next_running. destruct (all_of cbk (concat (threads next_world))); [set_solver|cbn; lia]. }
  apply cbk_next in Hc as [Hc|Hc].
  - apply (e_granted _ _ _ _ _ E) in Hx as Hx'. destruct Hx' as [Hx'|[Hx'|[Hx'|Hx']]]; [|unfold keeps_out; lia|congruence|lia].
    pose proof (w_removal _ W c x (cbk_others c Hc) Hx') as Hn.
    assert (Hco : core (lk (after r) x) = core (lk (inode w) x)).
    { apply (e_core _ _ _ _ _ E).
      - by apply (store_listed _ _ _ _ x step_store), granted_listed.
      - by apply (store_listed _ _ _ _ x (e_store _ _ _ _ _ E)), granted_listed. }
    by rewrite (keeps_out_core _ _ _ Hco).
  - pose proof (e_flags _ _ _ _ _ E) as F.
    destruct t; cbn in F; try (destruct F as (_ & _ & Hs & _); rewrite Hs in Hc; set_solver).
    + destruct F as (_ & [(_ & _ & Hs & _)|(_ & _ & Hs & Hn)]); rewrite Hs in Hc; [set_solver|].
      cbn in Hc. apply list_elem_of_singleton in Hc as ->. auto.
    + destruct F as (Hs & _). rewrite Hs in Hc. set_solver.
Qed.

Lemma next_busy : is_locked (after r) = true ->
  all_of cbk (concat (threads next_world)) <> [] \/ waiting (after r) <> [] \/ exists s, Remove s ∈ concat (threads next_world).
Proof.
  intros Hl. pose proof (e_flags _ _ _ _ _ E) as F. pose proof cbk_next as Hcn. pose proof next_running as Hnr.
  assert (Hin : forall s, Remove s ∈ others -> Remove s ∈ concat (threads next_world)).
  { intros s. rewrite next_flat. unfold others. pose proof (add_contended_in (contended r) k s). set_solver. }
  assert (Hne : all_of cbk others <> [] -> all_of cbk (concat (threads next_world)) <> []).
  { intros Hc Hn. destruct (all_of cbk others) as [|c l] eqn:Ec; [done|].
    assert (Hx : c ∈ all_of cbk (concat (threads next_world))) by (apply cbk_next; left; rewrite Ec; set_solver).
    rewrite Hn in Hx. set_solver. }
  assert (Hkeep : cbk t = [] -> (forall s, t <> Remove s) -> flags_kept (inode w) r -> is_locked (inode w) = true ->
    all_of cbk (concat (threads next_world)) <> [] \/ waiting (after r) <> [] \/ exists s, Remove s ∈ concat (threads next_world)).
  { intros Ht Hnre (_ & _ & _ & Hw & _) Hl0. destruct (w_busy _ W Hl0) as [Hc|[Hc|[s Hs]]].
    - left. apply Hne. intros Hn. apply Hc. apply length_zero_iff_nil. rewrite cbk_before, Ht, Hn. done.
    - destruct (waiting (inode w)) as [|s ws] eqn:Ew; [done|].
      destruct (Hw s ltac:(set_solver)) as [Hs|Hs]; right; [left|right].
      + intros Hn. rewrite Hn in Hs. set_solver.
      + exists s. rewrite next_flat. set_solver.
    - right; right. exists s. apply Hin. rewrite all_tasks_elem in Hs by done. destruct Hs as [Hs|]; [by destruct (Hnre s)|done]. }
  destruct t; cbn in F; try (apply Hkeep; [done|done|done|destruct F as (_ & <- & _); done]).
  - destruct F as (_ & [(-> & _)|(_ & _ & Hs & _)]); [right; left; by destruct (waiting (inode w))|left].
    intros Hn. assert (Hx : stub_client s ∈ all_of cbk (concat (threads next_world))) by (apply Hcn; right; rewrite Hs; set_solver).
    rewrite Hn in Hx. set_solver.
  - destruct F as (_ & Hw & _ & [[_ [Hr|Hr]]|[Hf _]]); [|right; left; by rewrite Hw|congruence].
    left. intros Hn. rewrite Hnr, Hn in Hr. done.
Qed.

Lemma next_ok : world_ok next_world.
Proof.
  split; cbn [inode next_world].
  - apply next_store.
  - apply E.
  - apply E.
  - intros u Hu. apply next_elem in Hu as [Hu|[Hu|[c ->]]]; [by apply E| |done].
    apply others_ok; [done|]. apply (w_tasks _ W), all_tasks_elem; auto.
  - intros k'. cbn. rewrite elem_of_app, elem_of_cons, elem_of_app. intros [Hk|[->|[Hk|Hk]]].
    + apply (w_threads _ W). rewrite Hth. set_solver.
    + apply E. destruct step_thread as (H1 & H2 & H3). split_and!.
      * intros a Ha. apply add_contended_keeps. auto.
      * rewrite add_contended_notifies. done.
      * by apply add_contended_thread.
    + apply (w_threads _ W). rewrite Hth. set_solver.
    + by apply E.
  - intros c. rewrite next_occ by done. pose proof (e_ctx _ _ _ _ _ E c) as H1. pose proof (w_ctx _ W c) as H2.
    rewrite (all_tasks_occ ctx_held) in H2. lia.
  - apply next_justified.
  - apply next_running.
  - apply next_locked.
  - apply next_removal.
  - apply next_busy.
Qed.
End Step.

End Effects.
