(* ===== verification/PlInodelkEffects.v ===== *)
(** * What each task does (PlInodelk)

    Every task of a thread returns, and has an [effect] that keeps the
    invariant: lock requests, granting, the end of a client and removals. *)
From stdpp Require Import gmap strings.
From S2P Require Import Prelude PlCommon PlPosix PlInodelk PlInodelkStore PlInodelkOps PlInodelkWorld.

Set Default Proof Using "Type".

Section Effects.
Context (priv : posix_locks_private_t).

Record pre (st : pl_inode_t) (t : task) (H : list Z) (n : Z) : Prop := {
  p_store : store [] st (held t ++ H) (irefs t + n);
  p_clients : clients_ok st;
  p_volumes : volumes_ok st;
  p_task : task_ok st t;
  p_uses a : a ∈ uses t -> a ∈ H;
  p_enabled : enabled st t = true;
  p_ctx c : c ∈ ctx_held t -> c ∈ ctx_locked st;
  p_waiting : waiting st <> [] -> is_locked st = true }.

Lemma all_of_nil {A} (f : task -> list A) k : (forall u, u ∈ k -> f u = []) -> all_of f k = [].
Proof.
  unfold all_of. induction k as [|u l IH]; [done|]. intros Hf. cbn. rewrite Hf by set_solver.
  apply IH. intros v Hv. apply Hf. set_solver.
Qed.

(** ** Threads *)

Lemma thread_ok_simple ts k :
  (forall u, u ∈ ts -> uses u = [] /\ finds u = false) -> thread_ok priv k -> thread_ok priv (ts ++ k).
Proof.
  induction ts as [|u ts IH]; intros Hs Hk; [done|]. cbn. destruct (Hs u ltac:(set_solver)) as [-> ->].
  split; [set_solver|]. split; [done|]. apply IH; [set_solver|done].
Qed.

Lemma thread_ok_tail t k : thread_ok priv (t :: k) -> thread_ok priv k.
Proof. by intros (_ & _ & ?). Qed.

Lemma no_notifies_app k1 k2 : existsb notifies (k1 ++ k2) = existsb notifies k1 || existsb notifies k2.
Proof. apply existsb_app. Qed.

(** ** Tasks that leave the lists alone *)

(** [T] are the locks that may be written. *)
Record calm (T : list Z) (st st' : pl_inode_t) : Prop := {
  c_doms : dom_list st' = dom_list st;
  c_waiting : waiting st' = waiting st;
  c_running : remove_running st' = remove_running st;
  c_locked : is_locked st' = is_locked st;
  c_lockers : inodelk_lockers st' = inodelk_lockers st;
  c_ctx : ctx_locked st' = ctx_locked st;
  c_old x : present st' x -> present st x;
  c_same x : present st x -> x ∉ T -> heap st' !! x = heap st !! x;
  c_core x : present st x -> present st' x -> core (lk st' x) = core (lk st x) }.

(** The same, where locks may be new. *)
Record loose (T : list Z) (st st' : pl_inode_t) : Prop := {
  o_doms : dom_list st' = dom_list st;
  o_waiting : waiting st' = waiting st;
  o_running : remove_running st' = remove_running st;
  o_locked : is_locked st' = is_locked st;
  o_lockers : inodelk_lockers st' = inodelk_lockers st;
  o_ctx : ctx_locked st' = ctx_locked st;
  o_same x : present st x -> x ∉ T -> heap st' !! x = heap st !! x;
  o_core x : present st x -> present st' x -> core (lk st' x) = core (lk st x) }.

Lemma calm_loose T st st' : calm T st st' -> loose T st st'.
Proof. intros []. by split. Qed.

Lemma calm_refl T st : calm T st st.
Proof. by split. Qed.

Lemma calm_trans T st1 st2 st3 : calm T st1 st2 -> calm T st2 st3 -> calm T st1 st3.
Proof.
  intros [] []. split; try congruence; auto.
  - intros x Hp Hx. assert (present st2 x) by (unfold present; rewrite c_same0 by done; apply Hp).
    rewrite c_same1, c_same0 by done. done.
  - intros x H1 H3. rewrite c_core1, c_core0; auto.
Qed.

Lemma calm_lock T st a l l' : heap st !! a = Some l -> a ∈ T -> core l' = core l -> calm T st (set_lock st a l').
Proof.
  intros Ha HT Hc. split; try done.
  - intros x. unfold present, set_lock. cbn [heap with_heap]. destruct (decide (a = x)) as [->|].
    + rewrite Ha. by eexists.
    + by rewrite lookup_insert_ne.
  - intros x _ Hx. unfold set_lock. cbn [heap with_heap]. by rewrite lookup_insert_ne by (intros ->; tauto).
  - intros x _ _. rewrite lk_set_lock. case_decide; [subst; by rewrite (lk_some _ _ _ Ha)|done].
Qed.

(** References and events of the inode do not matter. *)
Lemma calm_refs T st st' n : calm T st st' -> calm T st (with_refs st' n).
Proof. intros []. by split. Qed.

Lemma calm_emit T st st' e : calm T st st' -> calm T st (emit st' e).
Proof. intros []. by split. Qed.

Lemma calm_unwind T st st' f r e : calm T st st' -> calm T st (unwind st' f r e).
Proof. intros C. unfold unwind. case_match; [done|by apply calm_emit]. Qed.

Lemma calm_unref T L st H n a :
  store L st (a :: H) n -> a ∈ T ->
  exists st', __pl_inodelk_unref st a = Done st' /\ store L st' H n /\ calm T st st' /\ inode_refs st' = inode_refs st.
Proof.
  intros S HT. assert (Ha : present st a) by (apply (store_held _ _ _ _ a S); set_solver).
  destruct (store_unref L st H n a S) as (st' & E & S' & Hne & Hc & h & ->). eexists. split; [done|].
  split; [done|]. split; [|done]. split; try done.
  - intros x [l Hl]. destruct (decide (x = a)) as [->|Hx]; [done|]. rewrite Hne in Hl by done. by eexists.
  - intros x _ Hx. apply Hne. intros ->. tauto.
  - intros x _ [l Hl]. destruct (decide (x = a)) as [->|Hx].
    + rewrite (lk_some _ _ _ Hl). by apply Hc.
    + unfold lk. by rewrite Hne.
Qed.

Lemma loose_clients st st' T H n H' n' :
  store [] st H n -> store [] st' H' n' -> loose T st st' -> clients_ok st -> clients_ok st'.
Proof.
  intros S S' C Hc. assert (Hl : forall c, lockers st' c = lockers st c) by (intros c; unfold lockers; by rewrite (o_lockers _ _ _ C)).
  assert (Hi : in_lists st' = in_lists st) by (unfold in_lists; by rewrite (o_doms _ _ _ C)).
  split.
  - intros c x. rewrite Hl, (cl_elem _ Hc), Hi. apply and_iff_compat_l. split; intros [Hx <-]; (split; [done|]).
    + apply (f_equal client (x := core (lk st' x)) (y := core (lk st x))), (o_core _ _ _ C).
      * by apply (store_listed _ _ _ _ x S).
      * apply (store_listed _ _ _ _ x S'). by rewrite Hi.
    + symmetry. apply (f_equal client (x := core (lk st' x)) (y := core (lk st x))), (o_core _ _ _ C).
      * by apply (store_listed _ _ _ _ x S).
      * apply (store_listed _ _ _ _ x S'). by rewrite Hi.
  - intros c. rewrite Hl. apply Hc.
Qed.

Lemma calm_volumes st st' T : calm T st st' -> volumes_ok st -> volumes_ok st'.
Proof.
  intros C V x l Hl. assert (Hp : present st' x) by (by eexists). destruct (c_old _ _ _ C x Hp) as [l0 Hl0].
  unfold names. rewrite (c_doms _ _ _ C). pose proof (c_core _ _ _ C x ltac:(by eexists) Hp) as E.
  rewrite (lk_some _ _ _ Hl), (lk_some _ _ _ Hl0) in E. rewrite (volume_core _ _ E). by apply (V x).
Qed.

Lemma loose_justified st st' T H n H' n' y :
  store [] st H n -> store [] st' H' n' -> loose T st st' -> y ∈ dom_list st -> justified st y -> justified st' y.
Proof.
  intros S S' C Hy J l1 b l2 Eb.
  assert (Hi : in_lists st' = in_lists st) by (unfold in_lists; by rewrite (o_doms _ _ _ C)).
  assert (Hco : forall x, x ∈ dom_locks y -> core (lk st' x) = core (lk st x)).
  { intros x Hx. assert (x ∈ in_lists st) by (apply in_lists_elem; eauto).
    apply (o_core _ _ _ C); [by apply (store_listed _ _ _ _ x S)|apply (store_listed _ _ _ _ x S'); by rewrite Hi]. }
  assert (Hcb : core (lk st' b) = core (lk st b)) by (apply Hco; unfold dom_locks; rewrite Eb; set_solver).
  destruct (J l1 b l2 Eb) as [[H1 H2]|[(g & Hg & Hcf & Ho)|(c & Hc & Hcf)]].
  - left. rewrite (o_locked _ _ _ C). split; [done|].
    assert (client_pid (lk st' b) = client_pid (lk st b)) as -> by exact (f_equal client_pid Hcb). done.
  - right; left. exists g. assert (Hcg : core (lk st' g) = core (lk st g)) by (apply Hco; unfold dom_locks; set_solver).
    split; [done|]. by rewrite (conflict_core_eq _ _ _ _ Hcb Hcg), (owner_core_eq _ _ _ _ Hcb Hcg).
  - right; right. exists c. assert (Hcg : core (lk st' c) = core (lk st c)).
    { apply Hco. unfold dom_locks. rewrite Eb. cbn in Hc. set_solver. }
    split; [done|]. by rewrite (conflict_core_eq _ _ _ _ Hcb Hcg).
Qed.

Lemma effect_loose st t H n r :
  pre st t H n -> volumes_ok (after r) -> loose (in_lists st ++ held t ++ uses t) st (after r) ->
  contended r = [] -> spawned r = [] ->
  store [] (after r) (all_of held (next_tasks r) ++ H) (irefs_of (next_tasks r) + n) ->
  (forall u, u ∈ next_tasks r -> task_ok (after r) u /\ cbk u = [] /\ ctx_held u = [] /\ cleans u = false) ->
  (forall k, thread_ok priv (t :: k) -> thread_ok priv (next_tasks r ++ k)) ->
  ctx_held t = [] -> (forall d, d ∈ pend st t -> d ∈ all_of (pend (after r)) (next_tasks r)) ->
  (forall s, t <> Remove s) -> (forall c, t <> RemoveCbk c) ->
  effect priv st t H n r.
Proof.
  intros P V C Hco Hsp S Ht Hth Hx Hpe Hn1 Hn2.
  assert (Hnil : forall f : task -> list Z, (forall u, u ∈ next_tasks r -> f u = []) -> all_of f (next_tasks r) = []).
  { intros f. apply all_of_nil. }
  assert (Hg : forall x, granted (after r) x <-> granted st x) by (intros x; unfold granted; by rewrite (o_doms _ _ _ C)).
  split; rewrite ?Hco, ?Hsp; cbn [concat length app]; rewrite ?app_nil_r.
  - by rewrite Z.add_0_r.
  - eapply loose_clients; [apply P|exact S|exact C|apply P].
  - done.
  - intros u Hu. by apply Ht.
  - done.
  - set_solver.
  - done.
  - apply Hnil. intros u Hu. by apply Ht.
  - intros u Hu _. by apply Ht.
  - intros x Hp H1 H2 H3. apply (o_same _ _ _ C); [done|]. set_solver.
  - apply C.
  - intros d. unfold names. by rewrite (o_doms _ _ _ C).
  - intros c _ _. unfold lockers. by rewrite (o_lockers _ _ _ C).
  - intros c. rewrite Hnil by (intros u Hu; by apply Ht). by rewrite Hx, (o_ctx _ _ _ C).
  - intros y Hy. rewrite (o_doms _ _ _ C) in Hy. destruct (decide (domain y ∈ pend st t)) as [Hd|Hd]; [by left; auto|].
    right; right. split; [done|]. exists y. split; [done|]. split; [done|].
    eapply loose_justified; [apply P|exact S|exact C|done].
  - intros x Hgx. left. by apply Hg.
  - assert (F : flags_kept st r).
    { unfold flags_kept. rewrite (o_running _ _ _ C), (o_locked _ _ _ C), (o_waiting _ _ _ C), Hsp. split_and!; auto. }
    destruct t; try exact F; [by destruct (Hn1 s)|by destruct (Hn2 c)].
  - intros s _ Hs. right. rewrite (o_waiting _ _ _ C) in Hs. split; [done|]. intros x. apply Hg.
Qed.

Lemma effect_calm st t H n r :
  pre st t H n -> calm (in_lists st ++ held t ++ uses t) st (after r) ->
  contended r = [] -> spawned r = [] ->
  store [] (after r) (all_of held (next_tasks r) ++ H) (irefs_of (next_tasks r) + n) ->
  (forall u, u ∈ next_tasks r -> task_ok (after r) u /\ cbk u = [] /\ ctx_held u = [] /\ cleans u = false) ->
  (forall k, thread_ok priv (t :: k) -> thread_ok priv (next_tasks r ++ k)) ->
  ctx_held t = [] -> (forall d, d ∈ pend st t -> d ∈ all_of (pend (after r)) (next_tasks r)) ->
  (forall s, t <> Remove s) -> (forall c, t <> RemoveCbk c) ->
  effect priv st t H n r.
Proof.
  intros P C. apply effect_loose; [done|eapply calm_volumes; [exact C|apply P]|by apply calm_loose].
Qed.

(** ** Single steps *)

Lemma store_with_refs L st H n k n' : store L st H n -> n' = n + k -> store L (with_refs st (inode_refs st + k)) H n'.
Proof. intros S ->. destruct S; split; auto. cbn. rewrite s_irefs. unfold in_lists. cbn. lia. Qed.

Lemma store_inode_unref L st H n n' : store L st H n -> n' = n - 1 -> store L (inode_unref st) H n'.
Proof. intros S ->. apply (store_with_refs _ _ _ _ (-1) _ S). lia. Qed.

Lemma store_inode_ref L st H n n' : store L st H n -> n' = n + 1 -> store L (inode_ref st) H n'.
Proof. intros S ->. by apply (store_with_refs _ _ _ _ 1 _ S). Qed.

Lemma store_emit L st H n e : store L st H n -> store L (emit st e) H n.
Proof. intros S. by destruct S; split. Qed.

Lemma store_unwind L st H n f r e : store L st H n -> store L (unwind st f r e) H n.
Proof. intros S. unfold unwind. case_match; [done|by apply store_emit]. Qed.

Lemma unref_all_spec T g : forall L st H n,
  store L st (g ++ H) n -> (forall a, a ∈ g -> a ∈ T) ->
  exists st', unref_all st g = Done st' /\ store L st' H n /\ calm T st st'.
Proof.
  induction g as [|a g IH]; intros L st H n S HT; cbn [unref_all].
  - exists st. split; [done|]. split; [done|apply calm_refl].
  - destruct (calm_unref T L st (g ++ H) n a) as (st1 & -> & S1 & C1 & _); [done|set_solver|]. run.
    destruct (IH L st1 H n S1) as (st2 & -> & S2 & C2); [set_solver|]. exists st2. split; [done|]. split; [done|].
    by eapply calm_trans.
Qed.

Ltac simple_effect :=
  apply effect_calm; [done| |done|done| |cbn; set_solver|intros k Hk; exact (thread_ok_tail _ _ Hk)|done|cbn; set_solver|done|done].

Context (e : env).

Lemma eff_inode_unref st H n : pre st InodeUnref H n ->
  exists r, exec priv e st InodeUnref = Done r /\ effect priv st InodeUnref H n r.
Proof.
  intros P. eexists. split; [done|]. simple_effect.
  - apply calm_refs, calm_refl.
  - apply (store_inode_unref _ _ _ _ _ (p_store _ _ _ _ P)). cbn. lia.
Qed.

Lemma eff_unwind st f ret err H n : pre st (Unwind f ret err) H n ->
  exists r, exec priv e st (Unwind f ret err) = Done r /\ effect priv st (Unwind f ret err) H n r.
Proof.
  intros P. eexists. split; [done|]. simple_effect.
  - apply calm_unwind, calm_refl.
  - apply store_unwind, (p_store _ _ _ _ P).
Qed.

Lemma eff_unwind_granted st a H n : pre st (UnwindGranted a) H n ->
  exists r, exec priv e st (UnwindGranted a) = Done r /\ effect priv st (UnwindGranted a) H n r.
Proof.
  intros P. pose proof (p_store _ _ _ _ P) as S. cbn in S.
  assert (Ha : present st a) by (apply (store_held _ _ _ _ a S); apply (p_uses _ _ _ _ P); set_solver).
  cbn [exec]. unfold unwind_granted. rewrite (lock_at_present _ _ Ha). run. eexists. split; [done|].
  set (st1 := if status (lk st a) =? 0 then _ else _).
  assert (C1 : calm (in_lists st ++ held (UnwindGranted a) ++ uses (UnwindGranted a)) st st1)
    by (unfold st1; case_match; apply calm_unwind, calm_refl).
  assert (S1 : store [] st1 H n) by (unfold st1; case_match; by apply store_unwind).
  assert (Hh : heap st1 !! a = Some (lk st a)).
  { unfold st1, unwind. destruct (status (lk st a) =? 0), (frame (lk st a) =? 0); exact (present_lk _ _ Ha). }
  simple_effect.
  - eapply calm_trans; [exact C1|]. apply (calm_lock _ _ _ _ _ Hh); [set_solver|done].
  - by apply (store_set_lock _ _ _ _ _ _ _ S1 Hh).
Qed.

Lemma eff_unref_granted st g H n : pre st (UnrefGranted g) H n ->
  exists r, exec priv e st (UnrefGranted g) = Done r /\ effect priv st (UnrefGranted g) H n r.
Proof.
  intros P. pose proof (p_store _ _ _ _ P) as S. cbn in S.
  destruct (unref_all_spec (in_lists st ++ g ++ []) g [] st H n S) as (st1 & E & S1 & C1); [set_solver|].
  cbn [exec]. rewrite E. run. eexists. split; [done|]. simple_effect; done.
Qed.

Lemma eff_cleanup_unwind st a H n : pre st (CleanupUnwind a) H n ->
  exists r, exec priv e st (CleanupUnwind a) = Done r /\ effect priv st (CleanupUnwind a) H n r.
Proof.
  intros P. pose proof (p_store _ _ _ _ P) as S. cbn in S.
  assert (Ha : present st a) by (apply (store_held _ _ _ _ a S); apply (p_uses _ _ _ _ P); set_solver).
  cbn [exec]. unfold cleanup_unwind. rewrite (lock_at_present _ _ Ha). run. eexists. split; [done|]. simple_effect.
  - apply calm_unwind, calm_refl.
  - by apply store_unwind.
Qed.

Lemma eff_release_unref st a H n : pre st (ReleaseUnref a) H n ->
  exists r, exec priv e st (ReleaseUnref a) = Done r /\ effect priv st (ReleaseUnref a) H n r.
Proof.
  intros P. pose proof (p_store _ _ _ _ P) as S. cbn in S.
  destruct (calm_unref (in_lists st ++ [a] ++ []) [] st H (1 + n) a S) as (st1 & E & S1 & C1 & _); [set_solver|].
  cbn [exec]. unfold release_unref. rewrite E. run. eexists. split; [done|]. simple_effect.
  - by apply calm_refs.
  - apply (store_inode_unref _ _ _ _ _ S1). cbn. lia.
Qed.

Lemma eff_notify_send st a H n : pre st (NotifySend a) H n ->
  exists r, exec priv e st (NotifySend a) = Done r /\ effect priv st (NotifySend a) H n r.
Proof.
  intros P. pose proof (p_store _ _ _ _ P) as S. cbn in S.
  assert (Ha : present st a) by (apply (store_held _ _ _ _ a S); apply (p_uses _ _ _ _ P); set_solver).
  cbn [exec]. unfold notify_send. rewrite (lock_at_present _ _ Ha). run. eexists. split; [done|]. simple_effect; cbn [after].
  - case_match; [apply calm_emit, calm_refl|]. apply (calm_lock _ _ _ _ _ (present_lk _ _ Ha)); [set_solver|done].
  - case_match; [by apply store_emit|]. by apply (store_set_lock _ _ _ _ _ _ _ S (present_lk _ _ Ha)).
Qed.

Lemma eff_notify_done st a H n : pre st (NotifyDone a) H n ->
  exists r, exec priv e st (NotifyDone a) = Done r /\ effect priv st (NotifyDone a) H n r.
Proof.
  intros P. pose proof (p_store _ _ _ _ P) as S. cbn in S.
  assert (Ha : present st a) by (apply (store_held _ _ _ _ a S); set_solver).
  cbn [exec]. unfold notify_done. rewrite (lock_at_present _ _ Ha). run.
  assert (S1 : store [] (set_lock st a (set_contend (lk st a) false (contention_time (lk st a)))) (a :: H) (1 + n))
    by (by apply (store_set_lock _ _ _ _ _ _ _ S (present_lk _ _ Ha))).
  destruct (calm_unref (in_lists st ++ [a] ++ []) _ _ _ _ _ S1) as (st1 & -> & S2 & C2 & _); [set_solver|]. run.
  eexists. split; [done|]. simple_effect; cbn [after].
  - apply calm_refs. eapply calm_trans; [|exact C2]. apply (calm_lock _ _ _ _ _ (present_lk _ _ Ha)); [set_solver|done].
  - apply (store_inode_unref _ _ _ _ _ S2). cbn. lia.
Qed.

Lemma eff_notify st l H n : pre st (Notify l) H n ->
  exists r, exec priv e st (Notify l) = Done r /\ effect priv st (Notify l) H n r.
Proof.
  intros P. pose proof (p_store _ _ _ _ P) as S. cbn in S. eexists. split; [done|].
  set (ts := concat (map (fun a => [NotifySend a; NotifyDone a]) l)).
  assert (Hin : forall u, u ∈ ts -> exists a, u = NotifySend a \/ u = NotifyDone a).
  { unfold ts. clear. induction l as [|a l IH]; cbn; [set_solver|]. intros u. rewrite !elem_of_cons. naive_solver. }
  assert (Hh : all_of held ts = l) by (unfold ts, all_of; clear; induction l; cbn; by rewrite ?IHl; f_equal).
  assert (Hi : irefs_of ts = Z.of_nat (length l)).
  { unfold ts, irefs_of. clear. induction l as [|a l IH]; [done|]. cbn [map concat app foldr irefs length]. lia. }
  apply effect_calm; [done|apply calm_refl|done|done| | | |done|cbn; set_solver|done|done]; cbn [next_tasks after].
  - fold ts. by rewrite Hh, Hi.
  - intros u Hu. by destruct (Hin u Hu) as [a [-> | ->]].
  - intros k Hk%thread_ok_tail. fold ts. unfold ts. clear - Hk. induction l as [|a l IH]; [done|].
    cbn [map concat app thread_ok uses finds]. split; [|split; [done|]].
    + unfold all_of. cbn. set_solver.
    + split; [set_solver|]. split; [done|exact IH].
Qed.

(** ** The start of a request *)

Lemma names_find st d : d ∈ names st -> exists x, find_dom (dom_list st) d = Some x.
Proof.
  unfold names. induction (dom_list st) as [|y ds IH]; cbn; [set_solver|]. rewrite elem_of_cons.
  destruct (String.eqb_spec (domain y) d) as [E|E]; [by eexists|]. intros [?|?]; [congruence|auto].
Qed.

Lemma find_names st d x : find_dom (dom_list st) d = Some x -> d ∈ names st.
Proof. intros [Hx <-]%find_dom_some. by apply list_elem_of_fmap_2. Qed.

Lemma find_none st d : find_dom (dom_list st) d = None -> d ∉ names st.
Proof. intros Hn Hd%names_find. destruct Hd. congruence. Qed.

Lemma eff_setlk_start st s H n : revocation_secs priv = 0 -> pre st (SetlkStart s) H n ->
  exists r, exec priv e st (SetlkStart s) = Done r /\ effect priv st (SetlkStart s) H n r.
Proof.
  intros Hrev P. pose proof (p_store _ _ _ _ P) as S. cbn in S. pose proof (p_task _ _ _ _ P) as T. cbn in T.
  assert (Ha : present st (s_lock s)) by (apply (store_held _ _ _ _ _ S); set_solver).
  cbn [exec]. unfold setlk_start. rewrite (lock_at_present _ _ Ha). run. rewrite Hrev. cbn [Z.eqb].
  eexists. split; [done|]. apply effect_calm; [done|apply calm_refl|done|done|by cbn| | |done|done|done|done]; cbn [next_tasks].
  - intros u ->%list_elem_of_singleton. done.
  - intros k Hk%thread_ok_tail. apply thread_ok_simple; [|done]. by intros u ->%list_elem_of_singleton.
Qed.

Lemma eff_release_grant st a H n : pre st (ReleaseGrant a) H n ->
  exists r, exec priv e st (ReleaseGrant a) = Done r /\ effect priv st (ReleaseGrant a) H n r.
Proof.
  intros P. pose proof (p_store _ _ _ _ P) as S. cbn in S.
  assert (Ha : present st a) by (apply (store_held _ _ _ _ _ S); set_solver).
  cbn [exec]. unfold release_grant. rewrite (lock_at_present _ _ Ha). run.
  assert (Hv : volume (lk st a) ∈ names st) by (apply (p_volumes _ _ _ _ P a), present_lk, Ha).
  unfold get_domain. destruct (names_find _ _ Hv) as [x ->]. eexists. split; [done|].
  apply effect_calm; [done|apply calm_refl|done|done|by cbn| | |done| |done|done]; cbn [next_tasks after].
  - intros u. rewrite !elem_of_cons. intros [->|[->|Hu]]; [done|done|set_solver].
  - intros k (_ & Hf & Hk). cbn. split; [set_solver|]. split; [auto|]. split; [set_solver|]. done.
  - by cbn.
Qed.

(** A domain that is new is empty. *)
Definition add_dom (st : pl_inode_t) (d : string) : pl_inode_t := with_doms st (mkdom d [] [] :: dom_list st).

Lemma store_add_dom L st H n d : store L st H n -> d ∉ names st -> store L (add_dom st d) H n.
Proof.
  intros [] Hd. split; auto.
  - by apply NoDup_cons.
  - intros y x [->|Hy]%elem_of_cons; [cbn; set_solver|eauto].
  - intros y x [->|Hy]%elem_of_cons; [cbn; set_solver|eauto].
  - intros y x z [->|Hy]%elem_of_cons; [cbn; set_solver|eauto].
Qed.

Lemma granted_add_dom st d x : granted (add_dom st d) x <-> granted st x.
Proof.
  unfold granted. cbn. setoid_rewrite elem_of_cons. split.
  - intros (y & [->|Hy] & Hx); [cbn in Hx; set_solver|eauto].
  - intros (y & Hy & Hx). eauto.
Qed.

Lemma pre_add_dom st t H n d : pre st t H n -> d ∉ names st -> pre (add_dom st d) t H n.
Proof.
  intros [] Hd. split; auto.
  - by apply store_add_dom.
  - by destruct p_clients0; split.
  - intros x l Hl. apply elem_of_cons. right. by apply (p_volumes0 x).
  - destruct t; cbn in *; auto. apply elem_of_cons. by right.
Qed.

Lemma effect_add_dom st t H n r d : effect priv (add_dom st d) t H n r -> effect priv st t H n r.
Proof.
  intros E. split; try apply E.
  - intros d' Hd'. apply (e_names _ _ _ _ _ _ E). apply elem_of_cons. by right.
  - intros y Hy. destruct (e_justified _ _ _ _ _ _ E y Hy) as [?|[?|(Hn & y0 & Hy0 & Hd & HJ)]]; [by left|by right; left|].
    apply elem_of_cons in Hy0 as [->|Hy0]; right; [left|right].
    + apply HJ. intros l1 b l2 Eb. by destruct l1.
    + split; [done|]. exists y0. split; [done|]. split; [done|]. intros J. apply HJ. exact J.
  - intros x Hx. destruct (e_granted _ _ _ _ _ _ E x Hx) as [Hg|Hg]; [left; by apply granted_add_dom in Hg|by right].
  - intros s Hs Hw. destruct (e_waiting _ _ _ _ _ _ E s Hs Hw) as [?|[Hin Hg]]; [by left|right].
    split; [done|]. intros x Hx. apply Hg. by apply granted_add_dom.
Qed.

Lemma store_new L st H n a l :
  store L st H n -> heap st !! a = None -> ref l = 1 -> store L (set_lock st a l) (a :: H) n.
Proof.
  intros S Ha Hr. pose proof (s_acct _ _ _ _ S a) as A. unfold rc in A. rewrite Ha in A.
  pose proof (occ_nonneg a (in_lists st ++ L)). pose proof (occ_nonneg a H).
  apply (store_change _ _ _ _ _ _ _ S); [done|done| | |].
  - intros x. rewrite rc_set_lock. cbn [occ]. case_decide as E.
    + subst. rewrite Z.eqb_refl. unfold rc. rewrite Ha. lia.
    + destruct (Z.eqb_spec a x); [congruence|lia].
  - intros x l0. unfold set_lock. cbn [heap with_heap]. destruct (decide (a = x)) as [->|].
    + rewrite lookup_insert_eq. intros [= <-]. lia.
    + rewrite lookup_insert_ne by done. apply S.
  - intros x Hx. rewrite lk_set_lock. rewrite decide_False; [done|]. intros ->. apply occ_elem in Hx. lia.
Qed.

(** A call that is over. *)
Lemma eff_over st t H n f ret err :
  pre st t H n -> held t = [] -> irefs t = 0 -> ctx_held t = [] -> pend st t = [] ->
  (forall s, t <> Remove s) -> (forall c, t <> RemoveCbk c) ->
  effect priv st t H n (mkresult st [Unwind f ret err] [] []).
Proof.
  intros P Hh Hi Hc Hp H1 H2. pose proof (p_store _ _ _ _ P) as S. rewrite Hh, Hi in S.
  apply effect_calm; [done|apply calm_refl|done|done|done| | |done|by rewrite Hp; set_solver|done|done]; cbn [next_tasks].
  - by intros u ->%list_elem_of_singleton.
  - intros k Hk%thread_ok_tail. apply thread_ok_simple; [|done]. by intros u ->%list_elem_of_singleton.
Qed.

Lemma eff_accept st r H n l b :
  pre st (Inodelk r) H n -> heap st !! fresh_lock e = None -> ref l = 1 -> listed l = false ->
  client l = r_client r -> volume l ∈ names st ->
  effect priv st (Inodelk r) H n
    (mkresult (inode_ref (set_lock st (fresh_lock e) l))
       [SetlkStart (mkcall (r_client r) (fresh_lock e) b (volume l) (r_frame r))] [] []).
Proof.
  intros P Ha Hr Hl Hc Hv. pose proof (p_store _ _ _ _ P) as S. cbn in S.
  assert (Hne : forall x, present st x -> x <> fresh_lock e) by (intros x [? ?] ->; congruence).
  apply effect_loose; [done| | |done|done| | | |done|cbn; set_solver|done|done]; cbn [next_tasks after].
  - intros x l0. cbn [inode_ref with_refs set_lock heap with_heap]. destruct (decide (fresh_lock e = x)) as [<-|].
    + rewrite lookup_insert_eq. by intros [= <-].
    + rewrite lookup_insert_ne by done. apply (p_volumes _ _ _ _ P).
  - split; try done.
    + intros x Hp _. cbn [inode_ref with_refs set_lock heap with_heap]. rewrite lookup_insert_ne; [done|]. apply not_eq_sym, Hne, Hp.
    + intros x Hp _. change (lk (inode_ref ?s) x) with (lk s x). rewrite lk_set_lock, decide_False; [done|]. by apply Hne.
  - apply (store_inode_ref _ _ _ _ _ (store_new _ _ _ _ _ _ S Ha Hr)). cbn. lia.
  - intros u ->%list_elem_of_singleton. split; [|done]. exists l. split_and!; try done.
    cbn. by rewrite lookup_insert_eq.
  - intros k Hk%thread_ok_tail. apply thread_ok_simple; [|done]. by intros u ->%list_elem_of_singleton.
Qed.


Lemma eff_request st r H n m d :
  pre st (Inodelk r) H n -> heap st !! fresh_lock e = None -> d ∈ names st ->
  effect priv st (Inodelk r) H n
    match new_inode_lock m r d with
    | (inl errno, _) => mkresult st [Unwind (r_frame r) (-1) errno] [] []
    | (inr lock, _) =>
        let st := set_lock st (fresh_lock e) lock in
        let call b := mkcall (r_client r) (fresh_lock e) b d (r_frame r) in
        match r_cmd r with
        | F_SETLKW => mkresult (inode_ref st) [SetlkStart (call true)] [] []
        | F_SETLK => mkresult (inode_ref st) [SetlkStart (call false)] [] []
        | _ => mkresult st [Unwind (r_frame r) (-1) ENOTSUP] [] []
        end
    end.
Proof.
  intros P Ha Hd. pose proof (p_task _ _ _ _ P) as T. cbn in T. unfold new_inode_lock.
  destruct (pl_is_lk_owner_valid _ _ _); cbn [negb]; [|by apply eff_over].
  destruct (alloc m) as [[] m']; cbn [negb]; [|by apply eff_over].
  set (l := mkilock false false 1 _ _ d _ _ _ _ _ _ _ _ _ _).
  destruct (r_cmd r); try done; cbn zeta; [apply (eff_accept st r H n l false)|apply (eff_accept st r H n l true)]; done.
Qed.

Lemma eff_inodelk st r H n : pre st (Inodelk r) H n -> heap st !! fresh_lock e = None ->
  exists r', exec priv e st (Inodelk r) = Done r' /\ effect priv st (Inodelk r) H n r'.
Proof.
  intros P Ha. eexists. split; [done|]. unfold pl_common_inodelk.
  destruct (_ || _); [by apply eff_over|].
  destruct (_pl_convert_volume_for_special_range _ _ _) as [[errno|res] m]; [by apply eff_over|].
  destruct (if r_client r =? 0 then (true, m) else alloc m) as [[] m']; cbn [negb]; [|by apply eff_over].
  unfold get_domain. destruct (find_dom _ _) as [x|] eqn:Ed.
  - apply eff_request; [done|done|by eapply find_names].
  - destruct (alloc m') as [[] m1]; cbn [negb]; [|by apply eff_over].
    destruct (alloc m1) as [[] m2]; cbn [negb]; [|by apply eff_over].
    apply find_none in Ed. set (d := default (r_volume r) res) in *. apply (effect_add_dom st _ _ _ _ d).
    apply (eff_request (add_dom st d)); [by apply pre_add_dom|done|apply elem_of_cons; by left].
Qed.

(** ** The lock of a client *)

Lemma eff_cleanup_next st c next rel unw H n : pre st (CleanupNext c next rel unw) H n ->
  exists r, exec priv e st (CleanupNext c next rel unw) = Done r /\ effect priv st (CleanupNext c next rel unw) H n r.
Proof.
  intros P. pose proof (p_store _ _ _ _ P) as S. cbn in S. destruct (p_task _ _ _ _ P) as [Hc Hh].
  cbn [exec]. unfold cleanup_next.
  assert (Hnext : exists n', next_entry st c next = Done n' /\ (is_Some next -> head (tail (lockers st c)) = n')).
  { unfold next_entry, next_of. destruct next as [a|]; [|eexists; split; [done|]; by intros []].
    destruct (lockers st c) as [|b ls] eqn:El; [done|]. cbn in Hh. simplify_eq.
    assert (Ha : present st a).
    { apply (store_listed _ _ _ _ _ S), (cl_elem _ (p_clients _ _ _ _ P) c). rewrite El. set_solver. }
    rewrite (lock_at_present _ _ Ha). run. cbn. rewrite Z.eqb_refl. eexists. split; [done|]. done. }
  destruct Hnext as (n' & -> & Hn'). run. eexists. split; [done|].
  split; cbn [after next_tasks contended spawned concat app]; try done.
  - unfold all_of. cbn. rewrite app_nil_r, !Z.add_0_r. exact S.
  - apply P.
  - apply P.
  - by intros u ->%list_elem_of_singleton.
  - set_solver.
  - intros y Hy. destruct (decide (domain y ∈ pend st (CleanupNext c next rel unw))) as [Hd|Hd].
    + left. unfold all_of. cbn. by rewrite app_nil_r.
    + right; right. split; [done|]. by exists y.
  - by left.
  - repeat split; auto.
  - intros s _ Hs. right. auto.
Qed.

Lemma eff_cleanup st c H n : pre st (Cleanup c) H n ->
  exists r, exec priv e st (Cleanup c) = Done r /\ effect priv st (Cleanup c) H n r.
Proof.
  intros P. pose proof (p_store _ _ _ _ P) as S. cbn in S. pose proof (p_task _ _ _ _ P) as Hc. cbn in Hc.
  pose proof (p_enabled _ _ _ _ P) as He. cbn in He. apply bool_decide_eq_true in He.
  cbn [exec]. unfold pl_inodelk_client_cleanup. set (st1 := with_ctx st ({[c]} ∪ ctx_locked st)).
  change (lockers st1 c) with (lockers st c).
  assert (Hnext : exists n', next_entry st1 c (head (lockers st c)) = Done n' /\
    (is_Some (head (lockers st c)) -> head (tail (lockers st c)) = n')).
  { unfold next_entry, next_of. destruct (lockers st c) as [|a ls] eqn:El; [eexists; split; [done|]; by intros []|].
    assert (Ha : present st a).
    { apply (store_listed _ _ _ _ _ S), (cl_elem _ (p_clients _ _ _ _ P) c). rewrite El. set_solver. }
    cbn [head]. change (lock_at st1 a) with (lock_at st a). rewrite (lock_at_present _ _ Ha). run.
    change (lockers st1 c) with (lockers st c). rewrite El. cbn. rewrite Z.eqb_refl. eexists. by split. }
  destruct Hnext as (n' & -> & Hn'). run. eexists. split; [done|].
  split; cbn [after next_tasks contended spawned concat app]; try done.
  - unfold all_of. cbn. rewrite !Z.add_0_r. by destruct S; split.
  - destruct (p_clients _ _ _ _ P). by split.
  - apply P.
  - by intros u ->%list_elem_of_singleton.
  - set_solver.
  - intros c'. unfold all_of. cbn [map concat app ctx_held occ ctx_locked with_ctx st1].
    destruct (Z.eqb_spec c c') as [->|Hne].
    + rewrite (decide_False (P := c' ∈ ctx_locked st)), decide_True by (done || set_solver). lia.
    + assert (Hiff : c' ∈ {[c]} ∪ ctx_locked st <-> c' ∈ ctx_locked st) by set_solver.
      destruct (decide (c' ∈ ctx_locked st)), (decide (c' ∈ {[c]} ∪ ctx_locked st)); tauto || lia.
  - intros y Hy. right; right. split; [set_solver|]. exists y. split; [done|]. split; [done|]. intros J. exact J.
  - by left.
  - repeat split; auto.
  - intros s _ Hs. right. auto.
Qed.

(** ** A lock leaves its lists *)

Record removed (st : pl_inode_t) (a : Z) (st' : pl_inode_t) : Prop := {
  r_heap x : x <> a -> heap st' !! x = heap st !! x;
  r_present x : present st' x <-> present st x;
  r_core x : core (lk st' x) = core (lk st x);
  r_in x : x ∈ in_lists st' <-> x ∈ in_lists st /\ x <> a;
  r_doms y : y ∈ dom_list st' -> domain y = volume (lk st a) \/ y ∈ dom_list st;
  r_names : names st' = names st;
  r_granted x : granted st' x -> granted st x;
  r_kept x : granted st x -> x <> a -> granted st' x;
  r_waiting : waiting st' = waiting st;
  r_running : remove_running st' = remove_running st;
  r_locked : is_locked st' = is_locked st;
  r_lockers c : lockers st' c = filter (fun b => b <> a) (lockers st c);
  r_ctx : ctx_locked st' = ctx_locked st }.

Lemma lockers_del st a c : lockers (del_client st a) c = filter (fun b => b <> a) (lockers st c).
Proof. unfold lockers, del_client. cbn. rewrite lookup_fmap. by destruct (inodelk_lockers st !! c). Qed.

Lemma store_ctx L st H n cs : store L st H n -> store L (with_ctx st cs) H n.
Proof. intros S. by destruct S; split. Qed.

Lemma store_lockers L st H n ls : store L st H n -> store L (with_lockers st ls) H n.
Proof. intros S. by destruct S; split. Qed.

Lemma names_set_dom st d g b : names (set_dom st d g b) = names st.
Proof. unfold names, set_dom. cbn [dom_list with_doms]. apply map_domain_upd. Qed.

Lemma removed_of st H n d dom a st' :
  store [] st H n -> find_dom (dom_list st) d = Some dom -> a ∈ dom_locks dom ->
  dom_list st' = dom_list (set_dom st d (filter (fun b => b <> a) (inodelk_list dom)) (filter (fun b => b <> a) (blocked_inodelks dom))) ->
  (exists l, (heap st' = heap st \/ heap st' = <[a := l]> (heap st)) /\ core l = core (lk st a)) ->
  waiting st' = waiting st -> remove_running st' = remove_running st -> is_locked st' = is_locked st ->
  inodelk_lockers st' = inodelk_lockers (del_client st a) -> ctx_locked st' = ctx_locked st ->
  removed st a st'.
Proof.
  intros S Hd Hal Hds (l & Hheap & Hcl) Hw Hr Hl Hlk Hx.
  assert (Hp : present st a) by (by apply (store_listed _ _ _ _ _ S), (dom_locks_listed st d dom Hd)).
  destruct (find_dom_some _ _ _ Hd) as [Hdin Hdn].
  assert (Hv : volume (lk st a) = d).
  { unfold dom_locks in Hal. apply elem_of_app in Hal as [?|?]; [by apply (store_granted_volume [] st H n d dom Hd a S)|].
    by apply (store_blocked_volume [] st H n d dom Hd a S). }
  assert (Hne : forall x, x <> a -> heap st' !! x = heap st !! x).
  { intros x Hxa. destruct Hheap as [-> | ->]; [done|]. by rewrite lookup_insert_ne. }
  set (dom' := mkdom d (filter (fun b => b <> a) (inodelk_list dom)) (filter (fun b => b <> a) (blocked_inodelks dom))).
  assert (Hy : forall y, y ∈ dom_list st' <-> y = dom' \/ (y ∈ dom_list st /\ domain y <> d)).
  { intros y. rewrite Hds. apply (set_dom_elem _ _ dom); [apply S|done]. }
  assert (Hother : forall y, y ∈ dom_list st -> domain y <> d -> a ∉ dom_locks y).
  { intros y Hy1 Hy2 Hy3. by rewrite (only_dom [] st H n d dom a S Hd Hal y Hy1 Hy3) in Hy2. }
  assert (Hdom' : forall x, x ∈ dom_locks dom' <-> x ∈ dom_locks dom /\ x <> a).
  { intros x. unfold dom_locks, dom'. cbn. rewrite !elem_of_app, !list_elem_of_filter. tauto. }
  assert (Hcase : forall y, y ∈ dom_list st -> y = dom \/ y ∈ dom_list st' /\ a ∉ dom_locks y).
  { intros y Hy1. destruct (decide (domain y = d)) as [E|E]; [left; by eapply same_name|right].
    split; [apply Hy; by right|by apply Hother]. }
  split; try done.
  - intros x. unfold present. destruct (decide (x = a)) as [->|]; [|by rewrite Hne].
    destruct Hheap as [-> | ->]; [done|]. rewrite lookup_insert_eq. split; [intros _; exact Hp|by eexists].
  - intros x. unfold lk. destruct (decide (x = a)) as [->|]; [|by rewrite Hne].
    destruct Hheap as [-> | ->]; [done|]. by rewrite lookup_insert_eq.
  - intros x. rewrite !in_lists_elem. split.
    + intros (y & [->|[Hy1 Hy2]]%Hy & Hxy); [apply Hdom' in Hxy as [? ?]; eauto|].
      split; [eauto|]. intros ->. by apply (Hother y).
    + intros ((y & Hy1 & Hxy) & Hxa). destruct (Hcase y Hy1) as [->|[Hy2 _]]; [|eauto].
      exists dom'. split; [apply Hy; by left|by apply Hdom'].
  - intros y Hy1. apply Hy in Hy1 as [->|[? _]]; [by left|by right].
  - unfold names. rewrite Hds. apply names_set_dom.
  - intros x (y & Hy1 & Hxy). apply Hy in Hy1 as [->|[? _]]; [|by exists y].
    apply list_elem_of_filter in Hxy as [_ Hxy]. by exists dom.
  - intros x (y & Hy1 & Hxy) Hxa. destruct (Hcase y Hy1) as [->|[Hy2 _]]; [|by exists y].
    exists dom'. split; [apply Hy; by left|]. by apply list_elem_of_filter.
  - intros c. rewrite <- lockers_del. unfold lockers. by rewrite Hlk.
Qed.

Section Leave.
Context (st : pl_inode_t) (H : list Z) (n : Z) (d : string) (dom : pl_dom_list_t) (a : Z).
Context (S : store [] st H n) (Hd : find_dom (dom_list st) d = Some dom).

Lemma store_del_client : store [] (del_client st a) H n.
Proof using S. by apply store_lockers. Qed.

Lemma remove_granted : a ∈ inodelk_list dom ->
  let st' := set_lock (del_granted (del_client st a) a) a (set_listed (lk st a) false) in
  __delete_inode_lock (del_client st a) a = Done st' /\ store [] st' (a :: H) (n + 1) /\ removed st a st'.
Proof using S Hd.
  intros Ha st'. assert (Hal : a ∈ dom_locks dom) by (unfold dom_locks; set_solver).
  assert (Hp : present st a) by (by apply (store_listed _ _ _ _ _ S), (dom_locks_listed st d dom Hd)).
  split; [|split].
  - unfold __delete_inode_lock. change (lock_at (del_client st a) a) with (lock_at st a). by rewrite (lock_at_present _ _ Hp).
  - exact (store_del_granted [] (del_client st a) H n d dom a store_del_client Hd Hal _ Ha (present_lk _ _ Hp)).
  - apply (removed_of st H n d dom a st' S Hd Hal); try done; [|eexists; split; [right; done|done]].
    destruct (dom_nodup [] st H n d dom a S Hd) as (_ & _ & Hnb). rewrite (filter_absent a (blocked_inodelks dom)) by auto.
    exact (del_granted_doms [] st H n d dom a S Hd Hal).
Qed.

Lemma remove_blocked : a ∈ blocked_inodelks dom ->
  let st' := del_blocked (del_client st a) a in store [] st' (a :: H) (n + 1) /\ removed st a st'.
Proof using S Hd.
  intros Ha st'. assert (Hal : a ∈ dom_locks dom) by (unfold dom_locks; set_solver). split.
  - exact (store_del_blocked [] (del_client st a) H n d dom a store_del_client Hd Hal Ha).
  - apply (removed_of st H n d dom a st' S Hd Hal); try done; [|exists (lk st a); split; [left; done|done]].
    destruct (dom_nodup [] st H n d dom a S Hd) as (_ & _ & Hnb).
    rewrite (filter_absent a (inodelk_list dom)) by (intros Hg; by apply Hnb in Hg).
    exact (del_blocked_doms [] st H n d dom a S Hd Hal).
Qed.
End Leave.

Lemma removed_clients st a st' H n : store [] st H n -> removed st a st' -> clients_ok st -> clients_ok st'.
Proof.
  intros S R C. split.
  - intros c x. rewrite (r_lockers _ _ _ R), list_elem_of_filter, (cl_elem _ C), (r_in _ _ _ R).
    assert (client (lk st' x) = client (lk st x)) as -> by exact (f_equal client (r_core _ _ _ R x)). tauto.
  - intros c. rewrite (r_lockers _ _ _ R). apply NoDup_filter, C.
Qed.

Lemma removed_volumes st a st' : removed st a st' -> volumes_ok st -> volumes_ok st'.
Proof.
  intros R V x l Hl. rewrite (r_names _ _ _ R). assert (Hp : present st x) by (apply (r_present _ _ _ R); by eexists).
  rewrite <- (lk_some _ _ _ Hl), (volume_core _ _ (r_core _ _ _ R x)). by apply (V x), present_lk.
Qed.

Lemma removed_justified st a st' y : removed st a st' -> justified st y -> justified st' y.
Proof.
  intros R J. destruct y as [d g b]. apply (justified_granted st st' (mkdom d g b)); [apply R|apply R|done|done].
Qed.

(** ** The end of a client *)

Lemma eff_cleanup_one st c a next rel unw H n st' rel' unw' :
  pre st (CleanupLoop c (Some a) next rel unw) H n ->
  store [] st' (a :: (rel ++ unw) ++ H) (Z.of_nat (length (rel ++ unw)) + n + 1) -> removed st a st' ->
  Permutation (rel' ++ unw') (a :: rel ++ unw) ->
  effect priv st (CleanupLoop c (Some a) next rel unw) H n (mkresult st' [CleanupNext c next rel' unw'] [] []).
Proof.
  intros P S' R Hperm. pose proof (p_store _ _ _ _ P) as S. cbn in S.
  destruct (p_task _ _ _ _ P) as (Hc & Hhead & Hnext). specialize (Hnext ltac:(by eexists)).
  pose proof (p_clients _ _ _ _ P) as C.
  destruct (lockers st c) as [|a' ls] eqn:El; [done|]. cbn in Hhead. injection Hhead as ->. cbn [tail] in Hnext.
  assert (Hac : a ∈ lockers st c) by (rewrite El; set_solver). apply (cl_elem _ C) in Hac as (_ & Hain & Hacl).
  pose proof (cl_nodup _ C c) as Hnd. rewrite El in Hnd. apply NoDup_cons in Hnd as [Hals Hnd].
  assert (Hpend : forall x, x ∈ a :: rel ++ unw -> volume (lk st x) ∈ all_of (pend st') [CleanupNext c next rel' unw']).
  { intros x Hx. unfold all_of. cbn. rewrite app_nil_r. apply list_elem_of_fmap. exists x. rewrite Hperm. split; [|done].
    symmetry. apply volume_core, (r_core _ _ _ R). }
  split; cbn [after next_tasks contended spawned concat app]; try done.
  - unfold all_of. cbn [map concat held request keeps app]. rewrite app_nil_r.
    apply (store_perm _ _ _ _ _ _ S').
    + intros x. rewrite occ_app, (occ_perm x _ _ Hperm). cbn [occ]. rewrite !occ_app. lia.
    + cbn. rewrite (Permutation_length Hperm). cbn [length]. lia.
  - by eapply removed_clients; [exact S|..].
  - eapply removed_volumes; [exact R|apply P].
  - intros u ->%list_elem_of_singleton. split; [done|]. rewrite (r_lockers _ _ _ R), El.
    rewrite filter_cons_False by tauto. by rewrite filter_absent.
  - set_solver.
  - intros x _ Hx _ _. apply (r_heap _ _ _ R). by intros ->.
  - intros x _ _. apply (r_core _ _ _ R).
  - intros d. by rewrite (r_names _ _ _ R).
  - intros c' _ Hc'. rewrite (r_lockers _ _ _ R). apply filter_absent. intros (_ & _ & ?)%(cl_elem _ C). cbn in Hc'. set_solver.
  - intros c'. by rewrite (r_ctx _ _ _ R).
  - intros y Hy. destruct (r_doms _ _ _ R y Hy) as [->|Hy0]; [left; apply Hpend; set_solver|].
    destruct (decide (domain y ∈ pend st (CleanupLoop c (Some a) next rel unw))) as [Hd|Hd].
    + left. apply list_elem_of_fmap in Hd as (x & -> & Hx). apply Hpend. set_solver.
    + right; right. split; [done|]. exists y. split; [done|]. split; [done|]. by apply (removed_justified _ a).
  - intros x Hx. left. by apply (r_granted _ _ _ R).
  - unfold flags_ok, flags_kept. cbn [after next_tasks spawned]. rewrite (r_running _ _ _ R), (r_locked _ _ _ R), (r_waiting _ _ _ R). split_and!; auto.
Qed.

Lemma release_tasks_ok k l : thread_ok priv k -> (notify_contention priv = true -> existsb notifies k = true) ->
  thread_ok priv (map ReleaseGrant l ++ k).
Proof.
  intros Hk Hn. induction l as [|a l IH]; [done|]. cbn. split; [set_solver|]. split; [|done].
  intros _ H. rewrite no_notifies_app, Hn by done. apply orb_true_r.
Qed.

Lemma unwind_tasks_ok k (l : list Z) (f : Z -> task) :
  (forall a, uses (f a) = [a] /\ finds (f a) = false) ->
  (forall a, a ∈ l -> a ∈ all_of keeps k) -> thread_ok priv k -> thread_ok priv (map f l ++ k).
Proof.
  intros Hf Hl Hk. induction l as [|a l IH]; [done|]. cbn. destruct (Hf a) as [-> ->]. split; [|split; [done|apply IH; set_solver]].
  intros x ->%list_elem_of_singleton. rewrite all_of_app. apply elem_of_app. right. apply Hl. set_solver.
Qed.

Lemma all_of_map {A} (f : task -> list A) (g : Z -> task) (h : Z -> A) l :
  (forall a, f (g a) = [h a]) -> all_of f (map g l) = map h l.
Proof. intros Hf. unfold all_of. induction l as [|a l IH]; [done|]. cbn. by rewrite Hf, IH. Qed.

Lemma irefs_map (g : Z -> task) l m : (forall a, irefs (g a) = m) -> irefs_of (map g l) = m * Z.of_nat (length l).
Proof. intros Hf. unfold irefs_of. induction l as [|a l IH]; cbn [map foldr length]; [lia|]. rewrite Hf, IH. lia. Qed.

(** The list of contended locks is empty at first. *)
Lemma pcontend_nil {A} (f : task -> list A) : f (Notify []) = [] -> all_of f (notify_tasks (pcontend priv)) = [].
Proof. intros Hf. unfold pcontend. destruct (notify_contention priv); [|done]. unfold all_of. cbn. by rewrite Hf. Qed.

Lemma pcontend_irefs : irefs_of (notify_tasks (pcontend priv)) = 0.
Proof. unfold pcontend. by destruct (notify_contention priv). Qed.

Lemma pcontend_elem u : u ∈ notify_tasks (pcontend priv) -> u = Notify [].
Proof. unfold pcontend. destruct (notify_contention priv); cbn; set_solver. Qed.

Lemma pcontend_notifies : notify_contention priv = true -> existsb notifies (notify_tasks (pcontend priv)) = true.
Proof. unfold pcontend. by intros ->. Qed.

Lemma pcontend_thread k : thread_ok priv k -> thread_ok priv (notify_tasks (pcontend priv) ++ k).
Proof. apply thread_ok_simple. by intros u ->%pcontend_elem. Qed.

Lemma eff_cleanup_end st c next rel unw H n : pre st (CleanupLoop c None next rel unw) H n ->
  effect priv st (CleanupLoop c None next rel unw) H n
    (mkresult (with_ctx st (ctx_locked st ∖ {[c]}))
       (map CleanupUnwind unw ++ map ReleaseGrant (rel ++ unw) ++ notify_tasks (pcontend priv)) [] []).
Proof.
  intros P. pose proof (p_store _ _ _ _ P) as S. cbn in S.
  assert (Hcl : c ∈ ctx_locked st) by (apply (p_ctx _ _ _ _ P); set_solver).
  assert (Hpend : forall st', all_of (pend st') (map CleanupUnwind unw ++ map ReleaseGrant (rel ++ unw) ++ notify_tasks (pcontend priv))
                   = map (fun a => volume (lk st' a)) (rel ++ unw)).
  { intros st'. rewrite !all_of_app, pcontend_nil, app_nil_r by done.
    rewrite (all_of_nil _ (map CleanupUnwind unw)) by (intros u (x & -> & _)%list_elem_of_fmap; done).
    by rewrite (all_of_map (pend st') ReleaseGrant (fun a => volume (lk st' a))). }
  split; cbn [after next_tasks contended spawned concat app]; rewrite ?app_nil_r; try done.
  - rewrite !all_of_app, pcontend_nil, app_nil_r by done.
    rewrite (all_of_nil held (map CleanupUnwind unw)) by (intros u (x & -> & _)%list_elem_of_fmap; done).
    rewrite (all_of_map held ReleaseGrant (fun a => a)), map_id by done. cbn [app length Z.of_nat].
    rewrite !irefs_app, pcontend_irefs, (irefs_map CleanupUnwind _ 0), (irefs_map ReleaseGrant _ 1) by done.
    apply store_ctx, (store_perm _ _ _ _ _ _ S); [done|]. lia.
  - destruct (p_clients _ _ _ _ P). by split.
  - apply P.
  - intros u. rewrite !elem_of_app. intros [(x & -> & _)%list_elem_of_fmap|[(x & -> & _)%list_elem_of_fmap| ->%pcontend_elem]]; done.
  - intros k Hk%thread_ok_tail. rewrite <- !app_assoc. apply unwind_tasks_ok; [done| |].
    + intros a Ha. rewrite !all_of_app, (all_of_map keeps ReleaseGrant (fun a => a)), map_id by done. set_solver.
    + apply release_tasks_ok; [by apply pcontend_thread|]. intros Hn. by rewrite no_notifies_app, pcontend_notifies.
  - set_solver.
  - apply all_of_nil. intros u. rewrite !elem_of_app.
    intros [(x & -> & _)%list_elem_of_fmap|[(x & -> & _)%list_elem_of_fmap| ->%pcontend_elem]]; done.
  - intros c'. rewrite (all_of_nil ctx_held).
    + cbn [ctx_held occ ctx_locked with_ctx]. destruct (Z.eqb_spec c c') as [<-|Hne].
      * rewrite decide_True, decide_False by (done || set_solver). lia.
      * assert (Hiff : c' ∈ ctx_locked st ∖ {[c]} <-> c' ∈ ctx_locked st) by set_solver.
        destruct (decide (c' ∈ ctx_locked st)), (decide (c' ∈ ctx_locked st ∖ {[c]})); tauto || (cbn; lia).
    + intros u. rewrite !elem_of_app.
      intros [(x & -> & _)%list_elem_of_fmap|[(x & -> & _)%list_elem_of_fmap| ->%pcontend_elem]]; done.
  - intros y Hy. rewrite Hpend. destruct (decide (domain y ∈ pend st (CleanupLoop c None next rel unw))) as [Hd|Hd]; [by left|].
    right; right. split; [done|]. exists y. split; [done|]. split; [done|]. intros J. exact J.
  - by left.
  - repeat split; auto.
Qed.

Lemma eff_cleanup_loop st c pos next rel unw H n : pre st (CleanupLoop c pos next rel unw) H n ->
  exists r, exec priv e st (CleanupLoop c pos next rel unw) = Done r /\ effect priv st (CleanupLoop c pos next rel unw) H n r.
Proof.
  intros P. destruct pos as [a|]; [|eexists; split; [done|by apply eff_cleanup_end]].
  pose proof (p_store _ _ _ _ P) as S. cbn in S. destruct (p_task _ _ _ _ P) as (Hc & Hhead & _).
  assert (Hain : a ∈ in_lists st).
  { destruct (lockers st c) as [|a' ls] eqn:El; [done|]. cbn in Hhead. simplify_eq.
    apply (cl_elem _ (p_clients _ _ _ _ P) c). rewrite El. set_solver. }
  assert (Ha : present st a) by (by apply (store_listed _ _ _ _ _ S)).
  apply in_lists_elem in Hain as (y & Hy & Hay). pose proof (find_dom_nodup _ _ (s_doms _ _ _ _ S) Hy) as Hd.
  cbn [exec]. unfold cleanup_loop. rewrite (lock_at_present _ _ Ha). run. destruct (listed (lk st a)) eqn:El.
  - assert (Hg : a ∈ inodelk_list y).
    { unfold dom_locks in Hay. apply elem_of_app in Hay as [?|Hb]; [done|]. apply (s_blocked _ _ _ _ S y) in Hb as [? _]; [congruence|done]. }
    destruct (remove_granted st _ _ _ y a S Hd Hg) as (-> & S' & R). run. eexists. split; [done|].
    apply (eff_cleanup_one _ _ _ _ _ _ _ _ _ _ _ P S' R). rewrite <- app_assoc. symmetry. apply Permutation_middle.
  - assert (Hb : a ∈ blocked_inodelks y).
    { unfold dom_locks in Hay. apply elem_of_app in Hay as [Hg|?]; [|done]. apply (s_granted _ _ _ _ S y) in Hg as [? _]; [congruence|done]. }
    destruct (remove_blocked st _ _ _ y a S Hd Hb) as (S' & R). eexists. split; [done|].
    apply (eff_cleanup_one _ _ _ _ _ _ _ _ _ _ _ P S' R). rewrite app_assoc. symmetry. apply Permutation_cons_append.
Qed.

End Effects.
