(* ===== verification/PlInodelkCalls.v ===== *)
(** * Granting, removals and lock requests as tasks (PlInodelk)

    The sections that grant locks: going through a domain, the end of a
    removal, and [pl_inode_setlk] itself; and the theorem that every task of
    every call returns and keeps the invariant. *)
From stdpp Require Import gmap strings.
From S2P Require Import Prelude PlCommon PlPosix PlInodelk PlInodelkStore PlInodelkOps PlInodelkWorld PlInodelkEffects.

Set Default Proof Using "Type".

Section Calls.
Context (priv : posix_locks_private_t) (e : env).

Lemma clients_same st st' :
  (forall x, x ∈ in_lists st' <-> x ∈ in_lists st) -> (forall x, core (lk st' x) = core (lk st x)) ->
  inodelk_lockers st' = inodelk_lockers st -> clients_ok st -> clients_ok st'.
Proof.
  intros Hi Hc Hl C. assert (El : forall c, lockers st' c = lockers st c) by (intros c; unfold lockers; by rewrite Hl). split.
  - intros c x. rewrite El, Hi, (cl_elem _ C).
    assert (client (lk st' x) = client (lk st x)) as -> by exact (f_equal client (Hc x)). done.
  - intros c. rewrite El. apply C.
Qed.

Lemma volumes_same st st' :
  (forall x, present st' x -> present st x) -> (forall x, core (lk st' x) = core (lk st x)) -> names st' = names st ->
  volumes_ok st -> volumes_ok st'.
Proof.
  intros Hp Hc Hn V x l Hl. rewrite Hn, <- (lk_some _ _ _ Hl), (volume_core _ _ (Hc x)).
  apply (V x), present_lk, Hp. by eexists.
Qed.

Lemma pid_core l l' : core l' = core l -> client_pid l' = client_pid l.
Proof. intros E. exact (f_equal client_pid E). Qed.

(** ** Granting *)

Lemma unwind_held gr : all_of held (unwind_granted_inodes gr) = gr.
Proof.
  unfold unwind_granted_inodes. rewrite all_of_app, (all_of_nil held (map UnwindGranted gr)).
  - unfold all_of. cbn. apply app_nil_r.
  - by intros u (x & -> & _)%list_elem_of_fmap.
Qed.

Lemma unwind_irefs gr : irefs_of (unwind_granted_inodes gr) = 0.
Proof. unfold unwind_granted_inodes. rewrite irefs_app, (irefs_map UnwindGranted _ 0) by done. by cbn. Qed.

Lemma unwind_elem gr u : u ∈ unwind_granted_inodes gr -> (exists a, u = UnwindGranted a) \/ u = UnrefGranted gr.
Proof.
  unfold unwind_granted_inodes. rewrite elem_of_app, list_elem_of_singleton.
  intros [(x & -> & _)%list_elem_of_fmap| ->]; eauto.
Qed.

Lemma unwind_thread gr k : thread_ok priv k -> thread_ok priv (unwind_granted_inodes gr ++ k).
Proof.
  intros Hk. unfold unwind_granted_inodes. rewrite <- app_assoc. apply unwind_tasks_ok; [done| |].
  - intros a Ha. rewrite all_of_app. unfold all_of at 1. cbn. set_solver.
  - apply (thread_ok_simple priv [UnrefGranted gr]); [|done]. by intros u ->%list_elem_of_singleton.
Qed.

Lemma unwind_nil {A} (f : task -> list A) gr :
  (forall a, f (UnwindGranted a) = []) -> f (UnrefGranted gr) = [] -> all_of f (unwind_granted_inodes gr) = [].
Proof. intros H1 H2. apply all_of_nil. intros u [[a ->]| ->]%unwind_elem; auto. Qed.

Lemma eff_grant st d H n : pre st (Grant d) H n ->
  exists r, exec priv e st (Grant d) = Done r /\ effect priv st (Grant d) H n r.
Proof.
  intros P. pose proof (p_store _ _ _ _ P) as S. cbn in S. destruct (names_find st d (p_task _ _ _ _ P)) as [dom Hd].
  cbn [exec]. unfold grant_blocked_inode_locks.
  destruct (grant_domain_spec priv st d dom H n (now e) [] (pcontend priv) S Hd) as (st' & gr & new & -> & G & Hc). run.
  eexists. split; [done|]. cbn [app].
  assert (Ec : default [] ((fun c : list Z => c ++ new) <$> pcontend priv) = new).
  { unfold pcontend in *. destruct (notify_contention priv); [done|]. cbn. destruct new; [done|]. by destruct Hc. }
  destruct G as [S' T Hn Hm Hgl Hg Hk HJ Ho].
  split; cbn [after next_tasks contended spawned concat]; rewrite ?Ec, ?app_nil_r; try done.
  - rewrite unwind_held, unwind_irefs. apply (store_perm _ _ _ _ _ _ S'); [done|]. lia.
  - apply (clients_same st); [done|apply T|apply T|apply P].
  - apply (volumes_same st); [apply T|apply T|done|apply P].
  - by intros u [[a ->]| ->]%unwind_elem.
  - intros k Hk'%thread_ok_tail. by apply unwind_thread.
  - set_solver.
  - intros Hne. split; [done|]. unfold pcontend in Hc. destruct (notify_contention priv); [done|]. by destruct Hc.
  - by apply unwind_nil.
  - by intros u [[a ->]| ->]%unwind_elem.
  - intros x _ Hx _ _. by apply (t_same _ _ _ T).
  - intros x _ _. apply (t_core _ _ _ T).
  - intros d'. unfold names. by rewrite Hn.
  - intros c _ _. unfold lockers. by rewrite (t_lockers _ _ _ T).
  - intros c. rewrite (unwind_nil ctx_held) by done. by rewrite (t_ctx _ _ _ T).
  - intros y Hy. right. destruct (decide (domain y = d)) as [Hyd|Hyd]; [left; apply HJ; set_solver|right].
    split; [cbn; set_solver|]. exists y. split; [apply Ho; set_solver|]. split; [done|]. by apply (justified_tuned _ _ _ _ T).
  - intros x Hx. rewrite (pid_core _ _ (t_core _ _ _ T x)), (t_locked _ _ _ T), (t_running _ _ _ T). by apply Hg.
  - unfold flags_ok, flags_kept. cbn [after next_tasks spawned].
    rewrite (t_running _ _ _ T), (t_locked _ _ _ T), (t_waiting _ _ _ T). split_and!; auto.
  - intros s _ Hs. right. rewrite (t_waiting _ _ _ T) in Hs. auto.
Qed.

(** ** Removals *)

Lemma store_remove L st H n w k b : store L st H n -> store L (with_remove st w k b) H n.
Proof. intros S. by destruct S; split. Qed.

(** The removal that ends is the last one. *)
Definition last_removal (st : pl_inode_t) : bool :=
  (u32 (remove_running st - 1) =? 0) && match waiting st with [] => true | _ => false end.

Definition removal_over (st : pl_inode_t) : pl_inode_t :=
  with_remove st (waiting st) (u32 (remove_running st - 1)) (if last_removal st then false else is_locked st).

Lemma remove_cbk_grants st H n : store [] st H n ->
  exists st' gr new,
    pl_inode_remove_cbk priv e st = Done (mkresult st' (unwind_granted_inodes gr ++ [Notify new] ++ [InodeUnref]) [] []) /\
    grants (if last_removal st then names st else []) (removal_over st) H n st' gr new.
Proof.
  intros S. unfold pl_inode_remove_cbk. cbn [waiting with_remove]. fold (last_removal st). unfold removal_over.
  destruct (last_removal st).
  - destruct (grant_all_spec priv (now e) (names st) (with_remove st (waiting st) (u32 (remove_running st - 1)) false) H n [] (Some []))
      as (st' & gr & new & E & G & _); [by apply store_remove|done|].
    exists st', gr, new. split; [|done]. unfold names in E. cbn [dom_list with_remove] in *.
    change (with_remove (with_remove st ?w ?k ?b) ?w' ?k' ?b') with (with_remove st w' k' b'). rewrite E. by run.
  - eexists _, [], []. split; [done|]. by apply grants_nil, store_remove.
Qed.

Lemma eff_remove_cbk st c H n : pre st (RemoveCbk c) H n ->
  exists r, exec priv e st (RemoveCbk c) = Done r /\ effect priv st (RemoveCbk c) H n r.
Proof.
  intros P. pose proof (p_store _ _ _ _ P) as S. cbn in S. cbn [exec].
  destruct (remove_cbk_grants st H (1 + n) S) as (st' & gr & new & -> & G). eexists. split; [done|].
  destruct G as [S' T Hn Hm Hgl Hg Hk HJ Ho].
  assert (Hin : forall u, u ∈ unwind_granted_inodes gr ++ [Notify new] ++ [InodeUnref] ->
    (exists a, u = UnwindGranted a) \/ u = UnrefGranted gr \/ u = Notify new \/ u = InodeUnref).
  { intros u [Hu|Hu]%elem_of_app; [apply unwind_elem in Hu; naive_solver|]. set_solver. }
  split; cbn [after next_tasks contended spawned concat]; rewrite ?app_nil_r; try done.
  - rewrite all_of_app, unwind_held, irefs_app, unwind_irefs. unfold all_of. cbn [map concat held request keeps app].
    rewrite app_nil_r. apply (store_perm _ _ _ _ _ _ S'); [intros x; by rewrite !occ_app, Z.add_assoc|]. cbn. lia.
  - apply (clients_same (removal_over st)); [done|apply T|apply T|]. destruct (p_clients _ _ _ _ P). by split.
  - apply (volumes_same (removal_over st)); [apply T|apply T|done|apply P].
  - intros u Hu%Hin. by destruct Hu as [[a ->]|[->|[-> | ->]]].
  - intros k Hk'%thread_ok_tail. rewrite <- app_assoc. apply unwind_thread, (thread_ok_simple _ [_; _]); [|done].
    intros u. rewrite !elem_of_cons. intros [->|[->|?]]; [done|done|set_solver].
  - set_solver.
  - apply all_of_nil. intros u Hu%Hin. by destruct Hu as [[a ->]|[->|[-> | ->]]].
  - intros u Hu%Hin _. by destruct Hu as [[a ->]|[->|[-> | ->]]].
  - intros x _ Hx _ _. by apply (t_same _ _ _ T).
  - intros x _ _. apply (t_core _ _ _ T).
  - intros d'. unfold names. by rewrite Hn.
  - intros c' _ _. unfold lockers. by rewrite (t_lockers _ _ _ T).
  - intros c'. rewrite (all_of_nil ctx_held) by (intros u Hu%Hin; by destruct Hu as [[a ->]|[->|[-> | ->]]]).
    by rewrite (t_ctx _ _ _ T).
  - intros y Hy. right. unfold removal_over in *. destruct (last_removal st).
    + left. apply HJ; [done|]. change (names st) with (map domain (dom_list st)).
      change (map domain (dom_list st)) with (map domain (dom_list (with_remove st (waiting st) (u32 (remove_running st - 1)) false))).
      rewrite <- Hn. by apply list_elem_of_fmap_2.
    + right. split; [set_solver|]. exists y. split; [apply Ho; set_solver|]. split; [done|]. intros J.
      by apply (justified_tuned _ _ _ _ T).
  - intros x Hx. rewrite (pid_core _ _ (t_core _ _ _ T x)), (t_locked _ _ _ T), (t_running _ _ _ T). by apply Hg.
  - unfold flags_ok. cbn [after next_tasks spawned]. rewrite (t_running _ _ _ T), (t_locked _ _ _ T), (t_waiting _ _ _ T).
    unfold removal_over, last_removal. cbn [is_locked remove_running waiting with_remove]. split_and!; [done..|].
    destruct (Z.eqb_spec (u32 (remove_running st - 1)) 0); [|left; auto]. destruct (waiting st); [right; auto|left; auto].
  - intros s _ Hs. right. rewrite (t_waiting _ _ _ T) in Hs. split; [done|exact Hk].
Qed.

Lemma marked_granted st st' new x : marked st st' new -> granted st' x <-> granted st x.
Proof. intros M. unfold granted. by rewrite (marked_doms _ _ _ M). Qed.

Lemma marked_in_lists st st' new : marked st st' new -> in_lists st' = in_lists st.
Proof. intros M. unfold in_lists. by rewrite (marked_doms _ _ _ M). Qed.

Lemma concat_elem (ks : list (list task)) u : u ∈ concat ks -> exists k, k ∈ ks /\ u ∈ k.
Proof.
  induction ks as [|k ks IH]; cbn; [set_solver|]. rewrite elem_of_app. setoid_rewrite elem_of_cons. naive_solver.
Qed.

(** What a removal changes but for the flags. *)
Lemma eff_remove_flags st s H n st1 new r :
  pre st (Remove s) H n -> marked (inode_ref st) st1 new -> (forall x, x ∈ new -> granted st x) ->
  (exists w k ev, after r = mkinode (heap st1) (dom_list st1) w k true (inode_refs st1) (inodelk_lockers st1) (ctx_locked st1) ev) ->
  contended r = [] -> (forall u, u ∈ next_tasks r -> u = Notify new \/ u = InodeUnref) ->
  (forall k, k ∈ spawned r -> k = [RemoveCbk (stub_client s)]) ->
  store [] (after r) (all_of held (next_tasks r ++ concat (spawned r)) ++ H) (irefs_of (next_tasks r ++ concat (spawned r)) + n) ->
  flags_ok st (Remove s) r ->
  (forall s', s' ∈ waiting (after r) -> s' ∈ waiting st \/
     exists x, granted (after r) x /\ keeps_out (stub_client s') (lk (after r) x)) ->
  effect priv st (Remove s) H n r.
Proof.
  intros P M Hnew (w & k0 & ev & Ea) Hco Hts Hsp S' F Hw.
  assert (Hlk : forall x, lk (after r) x = lk st1 x) by (intros x; by rewrite Ea).
  assert (Hcore : forall x, core (lk (after r) x) = core (lk st x)) by (intros x; rewrite Hlk; exact (marked_core _ _ _ x M)).
  assert (Hd : dom_list (after r) = dom_list st) by (rewrite Ea; exact (marked_doms _ _ _ M)).
  assert (Hg : forall x, granted (after r) x <-> granted st x) by (intros x; unfold granted; by rewrite Hd).
  pose proof (m_shape _ _ _ M) as [h Em].
  assert (Hl : inodelk_lockers (after r) = inodelk_lockers st) by (rewrite Ea, Em; done).
  assert (Hspt : forall u, u ∈ concat (spawned r) -> u = RemoveCbk (stub_client s)).
  { intros u (k & Hk%Hsp & Hu)%concat_elem. rewrite Hk in Hu. set_solver. }
  assert (Hall : forall u, u ∈ next_tasks r ++ concat (spawned r) -> u = Notify new \/ u = InodeUnref \/ u = RemoveCbk (stub_client s)).
  { intros u [Hu|Hu]%elem_of_app; [destruct (Hts u Hu); auto|auto]. }
  split; rewrite ?Hco; try done.
  - cbn [length app]. by rewrite Z.add_0_r.
  - apply (clients_same st); [intros x; unfold in_lists; by rewrite Hd|done|done|apply P].
  - apply (volumes_same st); [|done|unfold names; by rewrite Hd|apply P]. intros x. unfold present. rewrite Ea. cbn [heap].
    apply (marked_present _ _ _ x M).
  - intros u Hu%Hall. by destruct Hu as [->|[-> | ->]].
  - intros k Hk%thread_ok_tail. apply thread_ok_simple; [|done]. intros u Hu%Hts. by destruct Hu as [-> | ->].
  - intros k Hk%Hsp. rewrite Hk. cbn. split; [set_solver|done].
  - apply all_of_nil. intros u Hu%Hts. by destruct Hu as [-> | ->].
  - intros u Hu%Hall _. by destruct Hu as [->|[-> | ->]].
  - intros x _ Hx _ _. rewrite Ea. cbn [heap]. apply (m_same _ _ _ M). intros Hn%Hnew%granted_listed. done.
  - intros d. unfold names. by rewrite Hd.
  - intros c _ _. unfold lockers. by rewrite Hl.
  - intros c. rewrite all_of_nil by (intros u Hu%Hall; by destruct Hu as [->|[-> | ->]]). rewrite Ea, Em. done.
  - intros y Hy. right; right. split; [cbn; set_solver|]. rewrite Hd in Hy. exists y. split; [done|]. split; [done|].
    intros J l1 b l2 Eb. destruct (J l1 b l2 Eb) as [[Hl1 Hl2]|[(g & Hgg & Hcf & Hof)|(c & Hcc & Hcf)]].
    + left. rewrite (pid_core _ _ (Hcore b)). rewrite Ea. done.
    + right; left. exists g. by rewrite (conflict_core_eq _ _ _ _ (Hcore b) (Hcore g)), (owner_core_eq _ _ _ _ (Hcore b) (Hcore g)).
    + right; right. exists c. by rewrite (conflict_core_eq _ _ _ _ (Hcore b) (Hcore c)).
  - intros x Hx. left. by apply Hg.
  - intros s' _ Hs'. destruct (Hw s' Hs') as [Hs''|Hx]; [right|by left]. split; [done|]. intros x. apply Hg.
Qed.

Lemma eff_remove st s H n : stub_ok e = true -> pre st (Remove s) H n ->
  exists r, exec priv e st (Remove s) = Done r /\ effect priv st (Remove s) H n r.
Proof.
  intros Hok P. pose proof (p_store _ _ _ _ P) as S. cbn in S. cbn [exec]. unfold pl_inode_remove.
  assert (S0 : store [] (inode_ref st) H (1 + n)) by (apply (store_inode_ref _ _ _ _ _ S); lia).
  destruct (has_owners_spec priv (inode_ref st) (stub_client s) (now e) (Some [])) as (st1 & b & new & -> & M & Hn & Hb).
  { intros x Hx. by apply (store_listed _ _ _ _ _ S0). }
  run. rewrite Hok. cbn [default fmap option_fmap option_map app].
  assert (Hn' : forall x, x ∈ new -> granted st x) by (intros x Hx; by apply Hn).
  assert (S1 : store [] st1 (new ++ H) (1 + n + Z.of_nat (length new))).
  { apply (store_marked _ _ _ _ _ _ S0 M). intros x Hx. by apply (store_listed _ _ _ _ _ S0), granted_listed, Hn'. }
  assert (Ew : waiting st1 = waiting st) by (destruct (m_shape _ _ _ M) as [h ->]; done).
  assert (Er : remove_running st1 = remove_running st) by (destruct (m_shape _ _ _ M) as [h ->]; done).
  assert (Hco : forall x, core (lk st1 x) = core (lk st x)) by (intros x; exact (marked_core _ _ _ x M)).
  assert (Hg : forall x, granted st1 x <-> granted st x) by (intros x; exact (marked_granted _ _ _ x M)).
  destruct b; (eexists; split; [done|]).
  - assert (Hx : exists x, granted st1 x /\ keeps_out (stub_client s) (lk st1 x)).
    { destruct (proj1 Hb eq_refl) as (x & Hx & Hk). exists x. rewrite Hg, (keeps_out_core _ _ _ (Hco x)). done. }
    apply (eff_remove_flags st s H n st1 new); try done; cbn [after next_tasks contended spawned concat].
    + by eexists _, _, _.
    + set_solver.
    + set_solver.
    + unfold all_of. cbn [map concat held request keeps app]. rewrite app_nil_r.
      apply store_remove, (store_perm _ _ _ _ _ _ S1); [done|]. cbn. lia.
    + split; [done|left]. cbn [after spawned waiting remove_running with_remove]. rewrite Ew, Er. split_and!; [done..|].
      destruct Hx as (x & Hx1 & Hx2). exists x. split; [exact Hx1|exact Hx2].
    + cbn [waiting with_remove]. rewrite Ew. intros s' [?|Hs]%elem_of_app; [by left|right].
      apply list_elem_of_singleton in Hs as ->. destruct Hx as (x & Hx1 & Hx2). exists x. split; [exact Hx1|exact Hx2].
  - assert (new = []) as ->.
    { destruct new as [|x new]; [done|]. assert (false = true); [|done]. apply Hb. exists x. apply Hn. set_solver. }
    apply (eff_remove_flags st s H n st1 []); try done; cbn [after next_tasks contended spawned concat].
    + by eexists _, _, _.
    + set_solver.
    + set_solver.
    + apply store_emit, store_remove. cbn. cbn in S1. apply (store_perm _ _ _ _ _ _ S1); [done|lia].
    + split; [done|right]. cbn [after spawned waiting remove_running with_remove emit]. rewrite Ew, Er. split_and!; [done..|].
      intros x Hx Hk. assert (false = true); [|done]. apply Hb. exists x. split; [exact (proj1 (Hg x) Hx)|].
      exact (proj1 (keeps_out_core _ _ _ (Hco x)) Hk).
    + cbn [waiting with_remove emit]. rewrite Ew. auto.
Qed.
End Calls.
