(* ===== verification/PlInodelkSetlk.v ===== *)
(** * The section of a lock request (PlInodelk)

    [pl_inode_setlk] grants a lock, queues it or refuses it, or takes one off;
    then every task returns and keeps the invariant, and so does every step of
    the threads. *)
From stdpp Require Import gmap strings.
From S2P Require Import Prelude PlCommon PlPosix PlInodelk PlInodelkStore PlInodelkOps PlInodelkWorld PlInodelkEffects PlInodelkCalls.

Set Default Proof Using "Type".

Section Setlk.
Context (priv : posix_locks_private_t) (e : env).

(** A lock [a] has joined the lists, if [b]. *)
Record entered (st : pl_inode_t) (a : Z) (b : bool) (st' : pl_inode_t) : Prop := {
  n_same x : present st x -> x ∉ in_lists st -> x <> a -> heap st' !! x = heap st !! x;
  n_old x : present st' x -> present st x;
  n_core x : present st x -> present st' x -> core (lk st' x) = core (lk st x);
  n_in x : x ∈ in_lists st' <-> x ∈ in_lists st \/ b = true /\ x = a;
  n_names : names st' = names st;
  n_justified y : y ∈ dom_list st' -> exists y0, y0 ∈ dom_list st /\ domain y0 = domain y /\ (justified st y0 -> justified st' y);
  n_granted x : granted st' x ->
    granted st x \/ client_pid (lk st' x) < 0 \/ is_locked st' = false \/ remove_running st' <= 0;
  n_kept x : granted st x -> granted st' x;
  n_waiting : waiting st' = waiting st;
  n_running : remove_running st' = remove_running st;
  n_locked : is_locked st' = is_locked st;
  n_lockers : inodelk_lockers st' = inodelk_lockers st;
  n_ctx : ctx_locked st' = ctx_locked st }.

Lemma entered_calm st a b st' st2 H' n' H2 n2 :
  entered st a b st' -> store [] st' H' n' -> store [] st2 H2 n2 -> calm [a] st' st2 -> entered st a b st2.
Proof.
  intros [] S' S2 C. destruct C as [Hd Hw Hr Hl Hlk Hx Hold Hs Hc] eqn:EC. clear EC.
  assert (Hi : in_lists st2 = in_lists st') by (unfold in_lists; by rewrite Hd).
  split; try congruence.
  - intros x Hp Hx1 Hx2. rewrite Hs, n_same0; [done..| |set_solver]. unfold present. by rewrite n_same0.
  - auto.
  - intros x H1 H2'. rewrite Hc, n_core0; auto.
  - intros x. by rewrite Hi.
  - unfold names in *. by rewrite Hd.
  - intros y Hy. rewrite Hd in Hy. destruct (n_justified0 y Hy) as (y0 & ? & ? & HJ). exists y0. split; [done|]. split; [done|].
    intros J. eapply (loose_justified st' st2); [exact S'|exact S2|by apply calm_loose|done|auto].
  - intros x Hg. assert (Hg' : granted st' x) by (unfold granted in *; by rewrite Hd in Hg).
    rewrite Hl, Hr, (pid_core (lk st' x) (lk st2 x)); [auto|]. apply Hc.
    + by apply (store_listed _ _ _ _ _ S'), granted_listed.
    + by apply (store_listed _ _ _ _ _ S2), granted_listed.
  - intros x Hg%n_kept0. unfold granted in *. by rewrite Hd.
Qed.

Lemma in_lists_grow st st' d dom g b a :
  NoDup (names st) -> find_dom (dom_list st) d = Some dom -> dom_list st' = dom_list (set_dom st d g b) ->
  (forall x, x ∈ g ++ b <-> x = a \/ x ∈ dom_locks dom) ->
  forall x, x ∈ in_lists st' <-> x ∈ in_lists st \/ x = a.
Proof.
  intros Hn Hd E Hgb x. destruct (in_lists_upd st d dom g b Hn Hd) as (rest & P1 & P2).
  unfold in_lists at 1. rewrite E. fold (in_lists (set_dom st d g b)). rewrite P1, P2, !(elem_of_app _ rest), Hgb. tauto.
Qed.

Section Entered.
Context (st : pl_inode_t) (H : list Z) (n : Z) (d : string) (dom : pl_dom_list_t) (a : Z).
Context (S : store [a] st H n) (Hd : find_dom (dom_list st) d = Some dom).

(** The domain of the lock has changed, to one that is justified if it was. *)
Lemma entered_dom st' g b :
  tuned (a :: in_lists st) st st' -> dom_list st' = dom_list (set_dom st d g b) ->
  (forall x, x ∈ g ++ b <-> x = a \/ x ∈ dom_locks dom) -> (forall x, x ∈ inodelk_list dom -> x ∈ g) ->
  (forall x, x ∈ g -> x ∈ inodelk_list dom \/ accepted st (lk st x) dom) ->
  (justified st dom -> justified st' (mkdom d g b)) -> entered st a true st'.
Proof using S Hd.
  intros T E Hgb Hg1 Hg2 HJ. destruct (find_dom_some _ _ _ Hd) as [Hdin Hdn].
  assert (Hel : forall y, y ∈ dom_list st' <-> y = mkdom d g b \/ (y ∈ dom_list st /\ domain y <> d)).
  { intros y. rewrite E. apply (set_dom_elem _ _ dom); [apply S|done]. }
  split; try apply T.
  - intros x _ H1 H2. apply (t_same _ _ _ T). set_solver.
  - intros x _ _. apply (t_core _ _ _ T).
  - intros x. rewrite (in_lists_grow st st' d dom g b a (s_doms _ _ _ _ S) Hd E Hgb). tauto.
  - unfold names. rewrite E. apply names_set_dom.
  - intros y Hy. apply Hel in Hy as [->|[Hy Hne]]; [by exists dom|]. exists y. split; [done|]. split; [done|].
    apply (justified_tuned _ _ _ _ T).
  - intros x (y & Hy & Hx). apply Hel in Hy as [->|[Hy Hne]]; [|left; by exists y].
    rewrite (pid_core _ _ (t_core _ _ _ T x)), (t_locked _ _ _ T), (t_running _ _ _ T). cbn in Hx.
    apply Hg2 in Hx as [Hx|[Hx _]]; [left; by exists dom|by right].
  - intros x (y & Hy & Hx). destruct (decide (domain y = d)) as [Ey|Ey].
    + pose proof (find_dom_nodup _ _ (s_doms _ _ _ _ S) Hy) as Hf. rewrite Ey, Hd in Hf. simplify_eq.
      eexists. split; [apply Hel; by left|]. cbn. auto.
    + exists y. split; [apply Hel; by right|done].
Qed.

Lemma lock_result_entered can_block new st' ret :
  tuned (a :: in_lists st) st st' -> lock_result [] st H n d dom a can_block new st' ret ->
  entered st a ((ret =? 0) || can_block) st'.
Proof using S Hd.
  intros T R. destruct (find_dom_some _ _ _ Hd) as [Hdin Hdn]. destruct R as [Hacc E _|Hr -> E _|Hr -> E _].
  - apply (entered_dom _ _ _ T E); [unfold dom_locks; set_solver|set_solver| |].
    + intros x [->|Hx]%elem_of_cons; auto.
    + intros J. rewrite <- Hdn. apply (justified_granted st); [apply T|apply T|set_solver|done].
  - rewrite orb_true_r. apply (entered_dom _ _ _ T E); [unfold dom_locks; set_solver|done|auto|].
    intros J. rewrite <- Hdn. by apply (justified_blocked st); [apply T|apply T|..].
  - split; try apply T.
    + intros x _ H1 H2. apply (t_same _ _ _ T). set_solver.
    + intros x _ _. apply (t_core _ _ _ T).
    + intros x. unfold in_lists. rewrite E. naive_solver.
    + unfold names. by rewrite E.
    + intros y Hy. rewrite E in Hy. exists y. split; [done|]. split; [done|]. apply (justified_tuned _ _ _ _ T).
    + intros x Hx. left. unfold granted in *. by rewrite E in Hx.
    + intros x Hx. unfold granted in *. by rewrite E.
Qed.
End Entered.

(** ** A lock is asked for *)

Lemma lockers_add st c a c' : lockers (add_client st c a) c' = if decide (c' = c) then lockers st c ++ [a] else lockers st c'.
Proof.
  unfold lockers at 1, add_client. cbn [inodelk_lockers with_lockers]. case_decide as E.
  - subst. by rewrite lookup_insert_eq.
  - by rewrite lookup_insert_ne.
Qed.

(** The lock of a request is in no list. *)
Lemma request_fresh st t s H n :
  request t = Some s -> pre st t H n -> request_ok st s ->
  (s_lock s ∉ in_lists st) /\ store [s_lock s] st H n.
Proof.
  intros Ht P (l & Hl & _ & _ & Hr & Hls). pose proof (p_store _ _ _ _ P) as S.
  assert (held t = [s_lock s]) as Hh by (unfold held; by rewrite Ht). rewrite Hh in S.
  assert (Hi : irefs t = 1) by (destruct t; simplify_eq/=; done). rewrite Hi in S.
  pose proof (s_acct _ _ _ _ S (s_lock s)) as A. unfold rc in A. rewrite Hl, Hr, app_nil_r in A. cbn [app occ] in A.
  rewrite Z.eqb_refl in A. pose proof (occ_nonneg (s_lock s) H). pose proof (occ_nonneg (s_lock s) (in_lists st)).
  assert (Hf : s_lock s ∉ in_lists st) by (apply occ_not_elem; lia). split; [done|].
  apply store_to_limbo; [|by rewrite app_nil_r|by rewrite (lk_some _ _ _ Hl)].
  apply (store_perm _ _ _ _ _ _ S); [done|lia].
Qed.

Lemma entered_clients st s b st' :
  clients_ok st -> entered st (s_lock s) b st' -> (forall x, x ∈ in_lists st' -> present st' x) ->
  s_lock s ∉ in_lists st -> client (lk st (s_lock s)) = s_ctx s ->
  clients_ok (if b && negb (s_ctx s =? 0) then add_client st' (s_ctx s) (s_lock s) else st').
Proof.
  intros C N Hp Hf Hc.
  assert (Hl : forall c, lockers st' c = lockers st c) by (intros c; unfold lockers; by rewrite (n_lockers _ _ _ _ N)).
  assert (Hcl : forall x, x ∈ in_lists st' -> client (lk st' x) = client (lk st x)).
  { intros x Hx. apply (f_equal client (x := core (lk st' x)) (y := core (lk st x))), (n_core _ _ _ _ N); [|auto].
    by apply (n_old _ _ _ _ N), Hp. }
  assert (Hq : forall c x, (x ∈ lockers st c \/ (b = true /\ s_ctx s <> 0) /\ c = s_ctx s /\ x = s_lock s) <->
                      c <> 0 /\ x ∈ in_lists st' /\ client (lk st' x) = c).
  { intros c x. rewrite (cl_elem _ C), (n_in _ _ _ _ N). split.
    - intros [(H1 & H2 & H3)|((Hb & H1) & -> & ->)].
      + split; [done|]. split; [by left|]. rewrite Hcl; [done|]. apply (n_in _ _ _ _ N). by left.
      + split; [done|]. split; [by right|]. rewrite Hcl; [done|]. apply (n_in _ _ _ _ N). by right.
    - intros (H1 & H2 & H3). rewrite Hcl in H3 by (by apply (n_in _ _ _ _ N)). destruct H2 as [H2|[Hb ->]]; [by left|right].
      rewrite Hc in H3. subst c. auto. }
  assert (Hnin : forall c, s_lock s ∉ lockers st c) by (intros c (_ & ? & _)%(cl_elem _ C); done).
  destruct b; [destruct (Z.eqb_spec (s_ctx s) 0) as [E|E]|]; cbn [andb negb].
  - split; intros c; rewrite ?Hl; [|apply C]. intros x. rewrite <- Hq. tauto.
  - split; intros c; rewrite lockers_add, !Hl; (case_decide as Ec; [subst c|]).
    + intros x. rewrite elem_of_app, list_elem_of_singleton.
      change (in_lists (add_client ?q ?u ?v)) with (in_lists q). change (lk (add_client ?q ?u ?v) x) with (lk q x).
      rewrite <- Hq. tauto.
    + intros x. change (in_lists (add_client ?q ?u ?v)) with (in_lists q).
      change (lk (add_client ?q ?u ?v) x) with (lk q x). rewrite <- Hq. tauto.
    + apply NoDup_app. split; [apply C|]. split; [|apply NoDup_singleton].
      intros x Hx ->%list_elem_of_singleton. by apply (Hnin (s_ctx s)).
    + apply C.
  - split; intros c; rewrite ?Hl; [|apply C]. intros x. rewrite <- Hq. naive_solver.
Qed.

Lemma eff_entered st s H n b st' ts :
  pre st (Setlk s) H n -> entered st (s_lock s) b st' ->
  store [] st' (all_of held ts ++ H) (irefs_of ts + n) ->
  (forall u, u ∈ ts -> u = InodeUnref \/ (exists l, u = Notify l) \/ exists f r c, u = Unwind f r c) ->
  effect priv st (Setlk s) H n
    (mkresult (if b && negb (s_ctx s =? 0) then add_client st' (s_ctx s) (s_lock s) else st') ts [] []).
Proof.
  intros P N S' Hts. pose proof (p_task _ _ _ _ P) as Hok. cbn in Hok.
  destruct (request_fresh st (Setlk s) s H n eq_refl P Hok) as [Hf _].
  destruct Hok as (l & Hl & Hc & _). set (st2 := if b && _ then _ else _).
  assert (E2 : exists ls, st2 = with_lockers st' ls).
  { unfold st2. destruct (b && _); [by eexists|]. exists (inodelk_lockers st'). by destruct st'. }
  assert (HC : clients_ok st2).
  { apply (entered_clients st); [apply P|done| |done|by rewrite (lk_some _ _ _ Hl)]. intros x Hx. by apply (store_listed _ _ _ _ _ S'). }
  assert (Hlk : forall c, c ∈ ctx_locked st -> lockers st2 c = lockers st c).
  { intros c Hcl. pose proof (p_enabled _ _ _ _ P) as He. cbn in He.
    assert (lockers st' c = lockers st c) as E by (unfold lockers; by rewrite (n_lockers _ _ _ _ N)).
    unfold st2. destruct b, (Z.eqb_spec (s_ctx s) 0); cbn [andb negb orb] in *; try done.
    rewrite lockers_add. destruct (decide (c = s_ctx s)) as [->|]; [by apply bool_decide_eq_true in He|done]. }
  destruct E2 as [ls E2]. rewrite E2 in *.
  assert (Hsimple : forall u, u ∈ ts -> uses u = [] /\ finds u = false /\ cbk u = [] /\ ctx_held u = [] /\ cleans u = false /\
    task_ok (with_lockers st' ls) u).
  { intros u Hu%Hts. destruct Hu as [->|[[l0 ->]|(f & r & c & ->)]]; done. }
  split; cbn [after next_tasks contended spawned concat app length]; rewrite ?app_nil_r, ?Z.add_0_r; try done.
  - by apply store_lockers.
  - intros x l0 Hl0. change (names (with_lockers st' ls)) with (names st'). rewrite (n_names _ _ _ _ N).
    assert (Hp : present st' x) by (by eexists). pose proof (n_old _ _ _ _ N x Hp) as Hp0.
    rewrite <- (lk_some st' x l0 Hl0), (volume_core _ _ (n_core _ _ _ _ N x Hp0 Hp)). by apply (p_volumes _ _ _ _ P x), present_lk.
  - intros u Hu. by apply Hsimple.
  - intros k Hk%thread_ok_tail. apply thread_ok_simple; [|done]. intros u Hu. by destruct (Hsimple u Hu) as (? & ? & _).
  - set_solver.
  - apply all_of_nil. intros u Hu. by apply Hsimple.
  - intros u Hu _. by apply Hsimple.
  - intros x Hp Hx Hh _. apply (n_same _ _ _ _ N); [done|done|]. cbn in Hh. set_solver.
  - apply N.
  - intros d. change (names (with_lockers st' ls)) with (names st'). by rewrite (n_names _ _ _ _ N).
  - intros c Hcl _. auto.
  - intros c. rewrite all_of_nil by (intros u Hu; by apply Hsimple). cbn. by rewrite (n_ctx _ _ _ _ N).
  - intros y Hy. right; right. split; [cbn; set_solver|]. exact (n_justified _ _ _ _ N y Hy).
  - exact (n_granted _ _ _ _ N).
  - repeat split; cbn; rewrite ?(n_running _ _ _ _ N), ?(n_locked _ _ _ _ N), ?(n_waiting _ _ _ _ N); auto.
  - intros s' _ Hs. cbn in Hs. rewrite (n_waiting _ _ _ _ N) in Hs. right. split; [done|]. exact (n_kept _ _ _ _ N).
Qed.

Lemma unref_add_client st c x a :
  __pl_inodelk_unref (add_client st c x) a = (st' ← __pl_inodelk_unref st a; Done (add_client st' c x)).
Proof.
  unfold __pl_inodelk_unref. change (lock_at (add_client st c x) a) with (lock_at st a).
  destruct (lock_at st a); run; [|done|done]. by destruct (_ =? 0).
Qed.

(** The tasks after a section that has found the locks [new] contended. *)
Lemma notify_held new ts :
  (new <> [] -> pcontend priv <> None) -> (forall u, u ∈ ts -> held u = [] /\ irefs u = 0) ->
  let k := notify_tasks ((fun c => c ++ new) <$> pcontend priv) ++ ts in
  all_of held k = new /\ irefs_of k = Z.of_nat (length new).
Proof.
  intros Hn Ht k. unfold k. rewrite all_of_app, irefs_app, (all_of_nil held ts), app_nil_r by (intros u Hu; by apply Ht).
  assert (irefs_of ts = 0) as ->.
  { unfold irefs_of. clear - Ht. induction ts as [|u ts IH]; [done|]. cbn. destruct (Ht u ltac:(set_solver)) as [_ ->].
    rewrite IH; [done|]. intros v Hv. apply Ht. set_solver. }
  unfold pcontend in *. destruct (notify_contention priv); cbn.
  - unfold all_of. cbn. rewrite app_nil_r. split; [done|lia].
  - destruct new; [done|]. by destruct Hn.
Qed.

Lemma answer_elem s ty ret u : u ∈ setlk_answer s ty ret -> exists f r c, u = Unwind f r c.
Proof. unfold setlk_answer. repeat case_match; set_solver. Qed.

Lemma notify_elem new u : u ∈ notify_tasks ((fun c => c ++ new) <$> pcontend priv) -> exists l, u = Notify l.
Proof. unfold pcontend. destruct (notify_contention priv); cbn; set_solver. Qed.

Lemma finish_unref st s H n b st1 st2 H1 n1 ts :
  pre st (Setlk s) H n -> entered st (s_lock s) b st1 -> store [] st1 H1 n1 -> calm [s_lock s] st1 st2 ->
  store [] st2 (s_lock s :: all_of held ts ++ H) (irefs_of ts + n) ->
  (forall u, u ∈ ts -> u = InodeUnref \/ (exists l, u = Notify l) \/ exists f r c, u = Unwind f r c) ->
  exists r,
    (st3 ← __pl_inodelk_unref (if negb (s_ctx s =? 0) && b then add_client st2 (s_ctx s) (s_lock s) else st2) (s_lock s);
     Done (mkresult st3 ts [] [])) = Done r /\ effect priv st (Setlk s) H n r.
Proof.
  intros P N S1 C S2 Hts.
  destruct (calm_unref [s_lock s] [] st2 _ _ (s_lock s) S2) as (st3 & E & S3 & C3 & _); [set_solver|].
  exists (mkresult (if b && negb (s_ctx s =? 0) then add_client st3 (s_ctx s) (s_lock s) else st3) ts [] []). split.
  - rewrite andb_comm. destruct (b && _); [rewrite unref_add_client|]; rewrite E; by run.
  - apply eff_entered; [done| |done|done]. eapply entered_calm; [exact N|exact S1|exact S3|by eapply calm_trans].
Qed.

Lemma eff_setlk_lock st s H n : pre st (Setlk s) H n -> fl_type (lk st (s_lock s)) <> F_UNLCK ->
  exists r, exec priv e st (Setlk s) = Done r /\ effect priv st (Setlk s) H n r.
Proof.
  intros P Hty. pose proof (p_task _ _ _ _ P) as Hok. cbn in Hok.
  destruct (request_fresh st (Setlk s) s H n eq_refl P Hok) as [Hf S]. destruct Hok as (l & Hl & Hc & Hv & _).
  assert (Ha : present st (s_lock s)) by (by eexists).
  assert (Hvn : s_dom s ∈ names st) by (rewrite <- Hv; by apply (p_volumes _ _ _ _ P (s_lock s))).
  destruct (names_find _ _ Hvn) as [dom Hd].
  cbn [exec]. unfold pl_inode_setlk. rewrite (lock_at_present _ _ Ha). run.
  rewrite bool_decide_false by done. cbn [negb].
  destruct (lock_inodelk_spec priv [] st H n (s_dom s) dom (s_lock s) S Hd) with (can_block := s_can_block s) (now := now e)
    (contend := pcontend priv) as (st1 & ret & new & -> & T & R & Hn); [by rewrite (lk_some _ _ _ Hl)|]. run.
  assert (Ha1 : present st1 (s_lock s)) by (by apply (t_present _ _ _ T)).
  rewrite (lock_at_present _ _ Ha1). run.
  pose proof (lock_result_entered st H n (s_dom s) dom (s_lock s) S Hd _ _ _ _ T R) as N.
  assert (Hts : forall u, u ∈ notify_tasks ((fun c => c ++ new) <$> pcontend priv) ++ setlk_answer s (fl_type (lk st (s_lock s))) ret ->
    u = InodeUnref \/ (exists l, u = Notify l) \/ exists f r c, u = Unwind f r c).
  { intros u [Hu|Hu]%elem_of_app; [apply notify_elem in Hu|apply answer_elem in Hu]; auto. }
  destruct (notify_held new (setlk_answer s (fl_type (lk st (s_lock s))) ret) Hn) as [Hh Hi].
  { intros u (f & r & c & ->)%answer_elem. done. }
  destruct R as [Hacc Hds S1|Hr Hcb Hds S1|Hr Hcb Hds S1].
  - change (0 =? 0) with true in *. change (0 =? - EAGAIN) with false. cbn [negb andb orb] in *. cbn [app].
    apply (finish_unref st s H n true st1 _ _ _ _ P N S1); [| |done].
    + apply (calm_lock _ _ _ (lk st1 (s_lock s))); [by apply present_lk|set_solver|done].
    + rewrite Hh, Hi. apply (store_set_lock _ _ _ _ _ (lk st1 (s_lock s))); [|by apply present_lk|done..].
      apply (store_perm _ _ _ _ _ _ S1); [done|lia].
  - change (- EAGAIN =? 0) with false in *. rewrite Hcb in *. rewrite Z.eqb_refl. cbn [negb andb orb] in *. run.
    rewrite andb_true_r. eexists. split; [done|]. cbn [app].
    pose proof (fun ts => eff_entered st s H n true st1 ts P N) as Ef. cbn [andb] in Ef. apply Ef; [|done].
    rewrite Hh, Hi. apply (store_perm _ _ _ _ _ _ S1); [done|lia].
  - change (- EAGAIN =? 0) with false in *. rewrite Hcb in *. rewrite Z.eqb_refl. cbn [negb andb orb] in *.
    apply (finish_unref st s H n false st1 st1 _ _ _ P N (store_of_limbo _ _ _ _ _ S1)); [apply calm_refl| |].
    + apply (store_perm _ _ _ _ _ _ (store_of_limbo _ _ _ _ _ S1)).
      * intros x. change (all_of held ([InodeUnref] ++ ?k)) with (all_of held k). by rewrite Hh.
      * change (irefs_of ([InodeUnref] ++ ?k)) with (1 + irefs_of k). rewrite Hi. lia.
    + intros u [->%list_elem_of_singleton|Hu]%elem_of_app; auto.
Qed.

(** ** A lock is taken off *)

Lemma irefs_of_remove ws : irefs_of (map Remove ws) = 0.
Proof. unfold irefs_of. by induction ws as [|w ws IH]. Qed.

Lemma eff_unlock_invalid st s H n ret ty : pre st (Setlk s) H n ->
  exists r,
    (st1 ← __pl_inodelk_unref st (s_lock s);
     Done (mkresult st1 ([InodeUnref] ++ notify_tasks (pcontend priv) ++ setlk_answer s ty ret) [] [])) = Done r /\
    effect priv st (Setlk s) H n r.
Proof.
  intros P. pose proof (p_store _ _ _ _ P) as S. cbn in S.
  destruct (calm_unref (in_lists st ++ [s_lock s] ++ []) [] st H (1 + n) (s_lock s) S) as (st1 & -> & S1 & C1 & _); [set_solver|].
  run. eexists. split; [done|].
  assert (Hts : forall u, u ∈ [InodeUnref] ++ notify_tasks (pcontend priv) ++ setlk_answer s ty ret ->
    u = InodeUnref \/ u = Notify [] \/ exists f r c, u = Unwind f r c).
  { intros u. rewrite !elem_of_app. intros [->%list_elem_of_singleton|[->%pcontend_elem|Hu%answer_elem]]; auto. }
  apply effect_calm; [done|done|done|done| | | |done|cbn; set_solver|done|done]; cbn [next_tasks after].
  - rewrite !all_of_app, !irefs_app, pcontend_nil, pcontend_irefs by done.
    rewrite (all_of_nil held (setlk_answer s ty ret)) by (by intros u (f & r & c & ->)%answer_elem).
    assert (irefs_of (setlk_answer s ty ret) = 0) as -> by (unfold setlk_answer; repeat case_match; done).
    apply (store_perm _ _ _ _ _ _ S1); [done|]. cbn. lia.
  - intros u Hu%Hts. by destruct Hu as [->|[->|(f & r & c & ->)]].
  - intros k Hk%thread_ok_tail. apply thread_ok_simple; [|done]. intros u Hu%Hts. by destruct Hu as [->|[->|(f & r & c & ->)]].
Qed.

(** The removals that may go on. *)
Lemma remove_unlocked_spec st :
  (forall x, x ∈ in_lists st -> present st x) -> (waiting st <> [] -> is_locked st = true) ->
  exists stay wake, pl_inode_remove_unlocked priv st = Done (with_remove st stay (remove_running st) (is_locked st), wake) /\
    (forall s, s ∈ waiting st <-> s ∈ wake \/ s ∈ stay) /\
    (forall s, s ∈ stay -> exists x, granted st x /\ keeps_out (stub_client s) (lk st x)).
Proof.
  intros Hp Hw. unfold pl_inode_remove_unlocked. destruct (is_locked st) eqn:El; cbn [negb].
  - destruct (unlocked_spec priv st (waiting st) Hp) as (wake & stay & -> & H1 & H2 & _). run. by exists stay, wake.
  - exists [], []. assert (waiting st = []) as Ew by (destruct (waiting st); [done|by specialize (Hw ltac:(done))]).
    split; [|split; [by rewrite Ew; set_solver|set_solver]]. f_equal. f_equal. destruct st; cbn in *. by subst.
Qed.

(** The tasks after an unlock, and their thread. *)
Lemma unlocked_elem wake d ts u :
  (forall u, u ∈ ts -> u = Notify [] \/ exists f r c, u = Unwind f r c) ->
  u ∈ map Remove wake ++ [InodeUnref; Grant d; InodeUnref] ++ ts ->
  (exists w, u = Remove w) \/ u = InodeUnref \/ u = Grant d \/ u = Notify [] \/ exists f r c, u = Unwind f r c.
Proof.
  intros Hts. rewrite !elem_of_app, !elem_of_cons. intros [(w & -> & _)%list_elem_of_fmap|[[->|[->|[->|Hu]]]|Hu%Hts]];
    [by left; eauto|by right; left|by do 2 right; left|by right; left|set_solver|by do 3 right].
Qed.

Lemma unlocked_thread wake d k :
  thread_ok priv k -> (notify_contention priv = true -> existsb notifies k = true) ->
  thread_ok priv (map Remove wake ++ [InodeUnref; Grant d; InodeUnref] ++ k).
Proof.
  intros Hk Hno. apply thread_ok_simple; [by intros u (w & -> & _)%list_elem_of_fmap|].
  assert (Hnil : forall k' a, a ∈ [] -> a ∈ all_of keeps k') by (by intros k' a ?%elem_of_nil).
  cbn [app thread_ok uses finds]. split; [exact (Hnil _)|]. split; [done|]. split; [exact (Hnil _)|].
  split; [|split; [exact (Hnil _)|by split]]. intros _ Hn. cbn. by apply Hno.
Qed.

Lemma justified_remove st w m y : justified (with_remove st w m (is_locked st)) y -> justified st y.
Proof. intros J l1 b l2 Eb. exact (J l1 b l2 Eb). Qed.

(** What is left after a lock has gone: [st1] is the state without it, [st2] the state after the section. *)
Lemma eff_unlocked st s H n c st1 st2 stay wake ts :
  pre st (Setlk s) H n -> removed st c st1 -> c ∈ in_lists st -> volume (lk st c) = s_dom s -> client (lk st c) = s_ctx s ->
  calm [c; s_lock s] st1 (with_remove st2 (waiting st1) (remove_running st1) (is_locked st1)) ->
  remove_running st2 = remove_running st1 -> is_locked st2 = is_locked st1 -> waiting st2 = stay ->
  (forall s, s ∈ waiting st1 <-> s ∈ wake \/ s ∈ stay) ->
  (forall s, s ∈ stay -> exists x, granted st2 x /\ keeps_out (stub_client s) (lk st2 x)) ->
  (exists H1 n1, store [] st1 H1 n1) -> store [] st2 H (2 + n) ->
  (forall u, u ∈ ts -> u = Notify [] \/ exists f r c, u = Unwind f r c) ->
  (forall k, thread_ok priv k -> thread_ok priv (ts ++ k)) ->
  (notify_contention priv = true -> existsb notifies ts = true) -> irefs_of ts = 0 ->
  effect priv st (Setlk s) H n (mkresult st2 (map Remove wake ++ [InodeUnref; Grant (s_dom s); InodeUnref] ++ ts) [] []).
Proof.
  intros P R Hcin Hv Hcl C Er El Ew Hws Hstay (H1 & n1 & S1) S2 Hts Hth Hno Hti.
  pose proof (p_store _ _ _ _ P) as S. set (st2' := with_remove st2 _ _ _) in C.
  pose proof (fun u => unlocked_elem wake (s_dom s) ts u Hts) as Hin.
  assert (Hd2 : dom_list st2 = dom_list st1) by exact (c_doms _ _ _ C).
  assert (Hcore : forall x, present st x -> present st2 x -> core (lk st2 x) = core (lk st x)).
  { intros x Hx Hx2. rewrite <- (r_core _ _ _ R). apply (c_core _ _ _ C x); [by apply (r_present _ _ _ R)|exact Hx2]. }
  assert (Hil : in_lists st2 = in_lists st1) by (unfold in_lists; by rewrite Hd2).
  split; cbn [after next_tasks contended spawned concat length]; rewrite ?app_nil_r, ?app_nil_l, ?Z.add_0_r; try done.
  - rewrite !all_of_app, !irefs_app, Hti. rewrite (all_of_nil held (map Remove wake)) by (by intros u (w & -> & _)%list_elem_of_fmap).
    rewrite (all_of_nil held ts) by (intros u Hu%Hts; by destruct Hu as [->|(f & r & c0 & ->)]).
    apply (store_perm _ _ _ _ _ _ S2); [done|]. rewrite (irefs_of_remove wake). cbn. lia.
  - assert (HC : clients_ok st2'); [|by destruct HC; split].
    apply (loose_clients st1 st2' [c; s_lock s] H1 n1 H (2 + n) S1); [by apply store_remove|exact (calm_loose _ _ _ C)|].
    eapply removed_clients; [exact S|exact R|apply P].
  - apply (calm_volumes st1 st2' _ C). eapply removed_volumes; [exact R|apply P].
  - intros u Hu%Hin. destruct Hu as [[w ->]|[->|[->|[->|(f & r & c0 & ->)]]]]; try done. cbn.
    unfold names. rewrite Hd2. fold (names st1). rewrite (r_names _ _ _ R), <- Hv.
    apply (p_volumes _ _ _ _ P c), present_lk, (store_listed _ _ _ _ _ S Hcin).
  - intros k Hk%thread_ok_tail. rewrite <- !app_assoc. apply unlocked_thread; [by apply Hth|].
    intros Hn. by rewrite no_notifies_app, Hno.
  - set_solver.
  - apply all_of_nil. intros u Hu%Hin. by destruct Hu as [[w ->]|[->|[->|[->|(f & r & c0 & ->)]]]].
  - intros u Hu%Hin _. by destruct Hu as [[w ->]|[->|[->|[->|(f & r & c0 & ->)]]]].
  - intros x Hp Hx Hh _. assert (x <> c) by (by intros ->). cbn in Hh.
    rewrite <- (r_heap _ _ _ R) by done. apply (c_same _ _ _ C); [by apply (r_present _ _ _ R)|set_solver].
  - intros d. unfold names. rewrite Hd2. fold (names st1). by rewrite (r_names _ _ _ R).
  - intros c' Hc' _. assert (lockers st2 c' = lockers st1 c') as -> by (unfold lockers; by rewrite <- (c_lockers _ _ _ C)).
    rewrite (r_lockers _ _ _ R). apply filter_absent. intros (Hc0 & _ & Hcc)%(cl_elem _ (p_clients _ _ _ _ P)).
    pose proof (p_enabled _ _ _ _ P) as He. cbn in He. rewrite Hcl in Hcc. subst c'.
    destruct (Z.eqb_spec (s_ctx s) 0); [done|]. by apply bool_decide_eq_true in He.
  - intros c'. rewrite all_of_nil by (intros u Hu%Hin; by destruct Hu as [[w ->]|[->|[->|[->|(f & r & c0 & ->)]]]]).
    assert (ctx_locked st2 = ctx_locked st) as ->; [|done]. rewrite <- (r_ctx _ _ _ R). exact (c_ctx _ _ _ C).
  - intros y Hy. rewrite Hd2 in Hy. destruct (r_doms _ _ _ R y Hy) as [->|Hy0].
    + left. rewrite Hv, !all_of_app. unfold all_of at 2. cbn. set_solver.
    + right; right. split; [cbn; set_solver|]. exists y. split; [done|]. split; [done|]. intros J.
      apply (justified_remove st2 (waiting st1) (remove_running st1)). rewrite El.
      apply (loose_justified st1 st2' [c; s_lock s] H1 n1 H (2 + n) _ S1); [by apply store_remove|exact (calm_loose _ _ _ C)|done|].
      by apply (removed_justified st c).
  - intros x Hx. left. apply (r_granted _ _ _ R). unfold granted in *. by rewrite Hd2 in Hx.
  - unfold flags_ok, flags_kept. cbn [after next_tasks spawned]. rewrite Er, El, (r_running _ _ _ R), (r_locked _ _ _ R), Ew.
    rewrite <- (r_waiting _ _ _ R). split_and!; [done..| |].
    + intros s' [Hs|Hs]%Hws; [right|by left]. apply elem_of_app. left. by apply list_elem_of_fmap_2.
    + intros s' Hs. apply Hws. by right.
  - intros s' _ Hs. rewrite Ew in Hs. left. by apply Hstay.
Qed.

Lemma calm_remove T st1 st2 st4 w k b :
  calm T st1 st2 -> calm T (with_remove st2 w k b) st4 ->
  calm T st1 (with_remove st4 (waiting st1) (remove_running st1) (is_locked st1)).
Proof.
  intros [] []. split; try done; cbn [dom_list with_remove inodelk_lockers ctx_locked] in *; try congruence.
  - intros x Hx. by apply c_old, c_old0.
  - intros x Hp Hx. cbn [heap with_remove] in *. rewrite c_same0, c_same; [done..| |done].
    unfold present. cbn. by rewrite c_same.
  - intros x H1 H2. change (lk (with_remove st4 ?p ?q ?r) x) with (lk st4 x).
    assert (present st2 x) by (by apply c_old0). rewrite c_core0 by done. by apply c_core.
Qed.

(** The matching lock [c] has been found. *)
Lemma eff_setlk_found st s H n dom c :
  pre st (Setlk s) H n -> find_dom (dom_list st) (s_dom s) = Some dom -> c ∈ inodelk_list dom ->
  same_inodelk_owner (lk st c) (lk st (s_lock s)) = true ->
  exists r, (st1 ← __delete_inode_lock st c;
             st2 ← __pl_inodelk_unref (del_client st1 c) c;
             '(st3, wake) ← pl_inode_remove_unlocked priv st2;
             st4 ← __pl_inodelk_unref st3 (s_lock s);
             Done (mkresult st4
                     (map Remove wake ++ [InodeUnref; Grant (s_dom s); InodeUnref] ++ notify_tasks (pcontend priv) ++
                      setlk_answer s (fl_type (lk st (s_lock s))) 0) [] [])) = Done r /\
            effect priv st (Setlk s) H n r.
Proof.
  intros P Hd Hcg Hco. pose proof (p_store _ _ _ _ P) as S. cbn in S.
  destruct (p_task _ _ _ _ P) as (l & Hl & Hc & _). destruct (find_dom_some _ _ _ Hd) as [Hdin _].
  destruct (remove_granted st _ _ _ dom c S Hd Hcg) as (_ & S1 & R). set (st1 := set_lock _ c _) in S1, R.
  assert (Hcin : c ∈ in_lists st) by (by apply (granted_in_lists _ dom)).
  assert (Hcp : present st c) by (by apply (store_listed _ _ _ _ _ S)).
  assert (Hvc : volume (lk st c) = s_dom s) by (by apply (store_granted_volume [] st _ _ _ dom Hd c S)).
  assert (Hcc : client (lk st c) = s_ctx s).
  { unfold same_inodelk_owner in Hco. apply andb_true_iff in Hco as [_ Hco%Z.eqb_eq]. by rewrite Hco, (lk_some _ _ _ Hl). }
  unfold __delete_inode_lock. rewrite (lock_at_present _ _ Hcp). run.
  change (del_client (set_lock (del_granted st c) c (set_listed (lk st c) false)) c) with st1.
  destruct (calm_unref [c; s_lock s] [] st1 _ _ c S1) as (st2 & -> & S2 & C2 & _); [set_solver|]. run.
  assert (E2 : waiting st2 = waiting st1 /\ is_locked st2 = is_locked st1 /\ remove_running st2 = remove_running st1)
    by (split_and!; apply C2). destruct E2 as (Ew2 & El2 & Er2).
  destruct (remove_unlocked_spec st2) as (stay & wake & -> & Hws & Hstay).
  { intros x Hx. by apply (store_listed _ _ _ _ _ S2). }
  { rewrite Ew2, El2, (r_waiting _ _ _ R), (r_locked _ _ _ R). apply P. }
  run. set (st3 := with_remove st2 _ _ _).
  assert (S3 : store [] st3 (s_lock s :: H) (1 + n + 1)) by (by apply store_remove).
  destruct (calm_unref [c; s_lock s] [] st3 _ _ (s_lock s) S3) as (st4 & -> & S4 & C4 & _); [set_solver|]. run.
  eexists. split; [done|].
  assert (Hin4 : in_lists st4 = in_lists st2) by (unfold in_lists; by rewrite (c_doms _ _ _ C4)).
  apply (eff_unlocked st s H n c st1 st4 stay wake); try done.
  - exact (calm_remove _ _ _ _ _ _ _ C2 C4).
  - by rewrite (c_running _ _ _ C4).
  - by rewrite (c_locked _ _ _ C4).
  - by rewrite (c_waiting _ _ _ C4).
  - intros w. by rewrite <- Ew2.
  - intros w Hw. destruct (Hstay w Hw) as (x & Hx & Hk). exists x.
    split; [unfold granted in *; by rewrite (c_doms _ _ _ C4)|].
    apply (keeps_out_core _ (lk st2 x)); [|done]. apply (c_core _ _ _ C4); apply granted_listed in Hx.
    + by apply (store_listed _ _ _ _ _ S3).
    + apply (store_listed _ _ _ _ _ S4). by rewrite Hin4.
  - by eexists _, _.
  - apply (store_perm _ _ _ _ _ _ S4); [done|lia].
  - intros u [Hu%pcontend_elem|Hu%answer_elem]%elem_of_app; auto.
  - intros k Hk. rewrite <- app_assoc. apply pcontend_thread, thread_ok_simple; [|done].
    by intros u (f & r & c0 & ->)%answer_elem.
  - intros Hn. by rewrite no_notifies_app, pcontend_notifies.
  - rewrite irefs_app, pcontend_irefs. unfold setlk_answer. by repeat case_match.
Qed.

Lemma eff_setlk_unlock st s H n : pre st (Setlk s) H n -> fl_type (lk st (s_lock s)) = F_UNLCK ->
  exists r, exec priv e st (Setlk s) = Done r /\ effect priv st (Setlk s) H n r.
Proof.
  intros P Hty. pose proof (p_task _ _ _ _ P) as Hok. cbn in Hok. pose proof (p_store _ _ _ _ P) as S. cbn in S.
  destruct (request_fresh st (Setlk s) s H n eq_refl P Hok) as [Hf _]. destruct Hok as (l & Hl & Hc & Hv & _).
  assert (Ha : present st (s_lock s)) by (by eexists).
  assert (Hvn : s_dom s ∈ names st) by (rewrite <- Hv; by apply (p_volumes _ _ _ _ P (s_lock s))).
  destruct (names_find _ _ Hvn) as [dom Hd]. destruct (find_dom_some _ _ _ Hd) as [Hdin Hdn].
  cbn [exec]. unfold pl_inode_setlk. rewrite (lock_at_present _ _ Ha). run. rewrite bool_decide_true by done. cbn [negb].
  unfold __inode_unlock_lock, dom_at. rewrite Hd. run. unfold find_matching_inodelk.
  destruct (first_lock_spec (fun l0 => inodelks_equal l0 (lk st (s_lock s)) && same_inodelk_owner l0 (lk st (s_lock s))) st (inodelk_list dom))
    as (o & -> & Ho).
  { intros x Hx. apply (store_listed _ _ _ _ _ S). by apply (granted_in_lists _ dom). }
  run. destruct o as [c|]; run; [|by apply eff_unlock_invalid]. destruct Ho as [Hcg [_ Hco]%andb_true_iff].
  destruct (eff_setlk_found st s H n dom c P Hd Hcg Hco) as (r & Hr & E). exists r. split; [|done].
  rewrite <- Hr. destruct (__delete_inode_lock st c); done.
Qed.

(** ** Every task *)

Lemma exec_effect st t H n :
  revocation_secs priv = 0 -> stub_ok e = true -> heap st !! fresh_lock e = None -> pre st t H n ->
  exists r, exec priv e st t = Done r /\ effect priv st t H n r.
Proof.
  intros Hrev Hok Hfr P. pose proof (p_task _ _ _ _ P) as T.
  destruct t; try done; eauto using eff_inodelk, eff_setlk_start, eff_inode_unref, eff_grant, eff_unwind_granted,
    eff_unref_granted, eff_notify, eff_notify_send, eff_notify_done, eff_unwind, eff_cleanup, eff_cleanup_loop,
    eff_cleanup_next, eff_cleanup_unwind, eff_release_grant, eff_release_unref, eff_remove, eff_remove_cbk.
  destruct (decide (fl_type (lk st (s_lock s)) = F_UNLCK)); eauto using eff_setlk_lock, eff_setlk_unlock.
Qed.
End Setlk.

(** ** Every step *)

Section Steps.
Context (priv : posix_locks_private_t).

Lemma world_pre w before after_ t k :
  world_ok priv w -> threads w = before ++ (t :: k) :: after_ -> enabled (inode w) t = true ->
  pre (inode w) t (all_of held (others before after_ k)) (irefs_of (others before after_ k)).
Proof.
  intros W Hth He. split.
  - by apply (step_store priv).
  - apply W.
  - apply W.
  - apply (w_tasks _ _ W), (all_tasks_elem priv w W _ _ _ _ Hth). by left.
  - intros a Ha. eapply keeps_sub, (uses_kept priv w W); done.
  - done.
  - intros c Hc. pose proof (w_ctx _ _ W c) as A. rewrite (all_tasks_occ _ _ _ _ _ Hth) in A. apply occ_elem in Hc.
    pose proof (occ_nonneg c (all_of ctx_held (others before after_ k))). case_decide; [done|lia].
  - intros Hw. apply (w_locked _ _ W). by right.
Qed.

Lemma world0_ok : world_ok priv world0.
Proof.
  assert (S : store [] inode0 [] 0).
  { split; cbn; try done; [constructor|constructor|set_solver|set_solver]. }
  split; cbn; try done; try set_solver.
  - split; [|intros c; unfold lockers; cbn; rewrite lookup_empty; constructor].
    intros c x. unfold lockers. cbn. rewrite lookup_empty. cbn. set_solver.
Qed.

Lemma world_arrive w t :
  world_ok priv w -> arrives t = true -> supported t = true -> world_ok priv (mkworld (inode w) (threads w ++ [[t]])).
Proof.
  intros W Ha Hs.
  assert (Hc : concat (threads w ++ [[t]]) = concat (threads w) ++ [t]) by (rewrite concat_app; cbn; done).
  assert (Hz : forall f : task -> list Z, f t = [] -> all_of f (concat (threads w) ++ [t]) = all_of f (concat (threads w))).
  { intros f Hf. rewrite all_of_app. unfold all_of at 2. cbn. by rewrite Hf, !app_nil_r. }
  assert (Ht : held t = [] /\ irefs t = 0 /\ uses t = [] /\ ctx_held t = [] /\ cbk t = [] /\ finds t = false /\ task_ok (inode w) t).
  { destruct t; try done. cbn in *. repeat split. by destruct (Z.eqb_spec c 0). }
  destruct Ht as (H1 & H2 & H3 & H4 & H5 & H6 & H7).
  split; cbn [inode threads]; rewrite ?Hc, ?Hz by done; try apply W.
  - rewrite irefs_app. cbn. rewrite H2, Z.add_0_r. apply W.
  - intros u [Hu|Hu]%elem_of_app; [by apply W|]. by apply list_elem_of_singleton in Hu as ->.
  - intros k [Hk|Hk]%elem_of_app; [by apply W|]. apply list_elem_of_singleton in Hk as ->. cbn. rewrite H3, H6. set_solver.
  - intros y Hy. rewrite all_of_app. destruct (w_justified _ _ W y Hy); [by left|right; set_solver].
  - intros Hl. destruct (w_busy _ _ W Hl) as [?|[?|[s Hs']]]; [by left|by right; left|]. right; right. exists s. set_solver.
Qed.

Lemma world_step w w' : revocation_secs priv = 0 -> step priv supported stub_ok w w' -> world_ok priv w -> world_ok priv w'.
Proof.
  intros Hrev [w0 t Ha Hs|w0 e t k before after_ r Hth Hf Hfr _ He Hx w1 Hrun] W; [by apply world_arrive|].
  destruct (exec_effect priv e (inode w0) t _ _ Hrev Hf Hfr (world_pre _ _ _ _ _ W Hth He)) as (r' & Hx' & E).
  rewrite Hx in Hx'. simplify_eq. exact (next_ok priv w0 W before after_ t k Hth r' E Hrun).
Qed.

Lemma reachable_ok w : revocation_secs priv = 0 -> reachable priv supported stub_ok w -> world_ok priv w.
Proof.
  unfold reachable. intros Hrev. revert w. apply (rtc_ind_r (world_ok priv)); [apply world0_ok|].
  intros w1 w2 _ H12 W. by eapply world_step.
Qed.
End Steps.
