(* ===== verification/PlInodelkClaims.v ===== *)
(** * Properties of inode locks (PlInodelk)

    In every state that lock requests, removals of the file and the end of
    clients reach, with the steps of the calls interleaved in any way: locks
    exclude each other, no call uses a lock that is gone, references are
    accounted for, what waits waits for something, a removal excludes the locks
    of other clients, and a client that has ended holds nothing.  Runs of the
    model show where the code does not keep to this: locks that are cleared,
    and removals that nobody wakes. *)
From stdpp Require Import gmap strings.
From S2P Require Import Prelude PlCommon PlPosix PlInodelk PlInodelkStore PlInodelkOps PlInodelkWorld PlInodelkSetlk.

(** ** Runs *)

(** A call arrives, or the thread at a position takes a step. *)
Inductive action : Type := Arrive (t : task) | Run (i : nat) (e : env).

Definition act (priv : posix_locks_private_t) (allowed : task -> bool) (fair : env -> bool) (w : world) (a : action) : option world :=
  match a with
  | Arrive t =>
      if arrives t && allowed t then Some (mkworld (inode w) (threads w ++ [[t]])) else None
  | Run i e =>
      match threads w !! i with
      | Some (t :: k) =>
          if fair e && bool_decide (heap (inode w) !! fresh_lock e = None) && negb (fresh_lock e =? 0) && enabled (inode w) t then
            match exec priv e (inode w) t with
            | Done r =>
                let w' := mkworld (after r) (take i (threads w) ++ (next_tasks r ++ add_contended (contended r) k) ::
                                             drop (S i) (threads w) ++ spawned r) in
                if running w' <? 2 ^ 32 then Some w' else None
            | _ => None
            end
          else None
      | Some [] => Some w
      | None => None
      end
  end.

Fixpoint run (priv : posix_locks_private_t) (allowed : task -> bool) (fair : env -> bool) (w : world) (l : list action) : option world :=
  match l with [] => Some w | a :: l => w' ← act priv allowed fair w a; run priv allowed fair w' l end.

Lemma act_steps priv allowed fair w a w' : act priv allowed fair w a = Some w' -> rtc (step priv allowed fair) w w'.
Proof.
  destruct a as [t|i e]; cbn.
  - destruct (arrives t) eqn:E1, (allowed t) eqn:E2; cbn; intros; simplify_eq. by apply rtc_once, step_arrive.
  - destruct (threads w !! i) as [[|t k]|] eqn:Ei; intros; simplify_eq; [done|].
    destruct (fair e) eqn:E1, (bool_decide _) eqn:E2, (fresh_lock e =? 0) eqn:E3, (enabled (inode w) t) eqn:E4; simplify_eq/=.
    destruct (exec priv e (inode w) t) as [r| |] eqn:E5; simplify_eq. case_match eqn:E6; simplify_eq.
    apply bool_decide_eq_true in E2. apply Z.eqb_neq in E3. apply Z.ltb_lt in E6.
    eapply rtc_once, step_run; [|done..]. by rewrite (take_drop_middle _ _ _ Ei).
Qed.

Lemma run_steps priv allowed fair l : forall w w', run priv allowed fair w l = Some w' -> rtc (step priv allowed fair) w w'.
Proof.
  induction l as [|a l IH]; cbn; intros w w' H; [by simplify_eq|].
  destruct (act priv allowed fair w a) as [w1|] eqn:E; cbn in H; [|done]. etrans; [by eapply act_steps|auto].
Qed.

(** The options without revocation, with notices of contention at once. *)
Definition priv0 : posix_locks_private_t := mkpriv 0 false 0 false true 0.
Definition env_at (a : Z) : env := mkenv (100, 0) [] a true false.
(** A call arrives and runs to its end as thread [i]; its lock gets the address [a]. *)
Definition calls (i : nat) (t : task) (a : Z) : list action :=
  Arrive t :: Run i (env_at a) :: replicate 20 (Run i (env_at 1)).
Definition ask (c : Z) (o : Z) (ty : lk_type) (s n f : Z) : task :=
  Inodelk (mkreq "afr" F_SETLKW (mkflock ty 0 s n 1 [o]) c 80000 5 [o] f).

(** Client 1 writes, clients 2 and 3 wait; then client 1 is done. *)
Definition acts1 : list action :=
  calls 0 (ask 1 1 F_WRLCK 0 10 101) 11 ++ calls 1 (ask 2 2 F_WRLCK 5 10 102) 12 ++ calls 2 (ask 3 3 F_RDLCK 8 0 103) 13.
Definition acts2 : list action := acts1 ++ calls 3 (ask 1 1 F_UNLCK 0 10 104) 14.

Definition at_end (l : list action) : world := default world0 (run priv0 supported stub_ok world0 l).

Lemma at_end_reachable l : is_Some (run priv0 supported stub_ok world0 l) -> reachable priv0 supported stub_ok (at_end l).
Proof. intros [w E]. unfold at_end. rewrite E. by eapply run_steps. Qed.

(** ** Exclusion *)

(** A byte that a lock covers. *)
Definition covers_byte (l : pl_inode_lock_t) (b : Z) : Prop := fl_start l <= b <= fl_end l.

(** C2: Inode locks exclude each other in every reachable state, whatever the interleaving of requests, unlocks,
    removals and disconnections: when a byte is under a granted write lock, every granted lock of the same domain on
    that byte is of the same client and the same owner. *)
Theorem inodelk_exclusive priv w d x y lx ly b :
  revocation_secs priv = 0 -> reachable priv supported stub_ok w ->
  d ∈ dom_list (inode w) -> x ∈ inodelk_list d -> y ∈ inodelk_list d ->
  heap (inode w) !! x = Some lx -> heap (inode w) !! y = Some ly ->
  fl_type lx = F_WRLCK -> covers_byte lx b -> covers_byte ly b -> client lx = client ly /\ owner lx = owner ly.
Proof.
  intros Hrev Hr Hd Hx Hy Hlx Hly Ht Hbx Hby. pose proof (w_store _ _ (reachable_ok _ _ Hrev Hr)) as S.
  pose proof (s_excl _ _ _ _ S d x y Hd Hx Hy) as E. rewrite (lk_some _ _ _ Hlx), (lk_some _ _ _ Hly) in E.
  unfold covers_byte in *. unfold inodelk_conflict, inodelk_overlap, inodelk_type_conflict in E.
  rewrite Ht, (bool_decide_true (F_WRLCK = F_WRLCK)), orb_true_r, !(proj2 (Z.leb_le _ _)) in E by (done || lia).
  specialize (E eq_refl). unfold same_inodelk_owner, is_same_lkowner in E.
  apply andb_true_iff in E as [E1%bool_decide_eq_true E2%Z.eqb_eq]. done.
Qed.

Definition acts_nested : list action :=
  calls 0 (ask 1 1 F_WRLCK 0 10 101) 11 ++ calls 1 (ask 1 1 F_RDLCK 5 10 102) 12.

Lemma inodelk_exclusive_witness :
  client (lk (inode (at_end acts_nested)) 11) = client (lk (inode (at_end acts_nested)) 12) /\
  owner (lk (inode (at_end acts_nested)) 11) = owner (lk (inode (at_end acts_nested)) 12).
Proof.
  apply (inodelk_exclusive priv0 (at_end acts_nested) (mkdom "afr" [12; 11] []) 11 12 _ _ 7).
  - done.
  - apply at_end_reachable. vm_compute. by eexists.
  - vm_compute. left.
  - vm_compute. right. left.
  - vm_compute. left.
  - vm_compute. reflexivity.
  - vm_compute. reflexivity.
  - vm_compute. reflexivity.
  - vm_compute. by split.
  - vm_compute. by split.
Defined.

(** ** No lock is used after it is gone *)

(** C7: No call uses a lock that has been freed: in every state that F_SETLK and
    F_SETLKW requests, removals of the file and disconnections of clients reach,
    with their steps interleaved in any way (revocation of locks switched off, no
    orders to clear locks, memory for the stubs of removals, fewer than 2^32
    removals of a file at a time), the next task of every thread that may run
    returns, whatever the other threads did since the task before it, if a new lock
    gets an address that is free. *)
Theorem inodelk_returns priv w before t k after_ e :
  revocation_secs priv = 0 -> reachable priv supported stub_ok w ->
  threads w = before ++ (t :: k) :: after_ -> enabled (inode w) t = true ->
  stub_ok e = true -> heap (inode w) !! fresh_lock e = None ->
  exists r, exec priv e (inode w) t = Done r.
Proof.
  intros Hrev Hr Hth He Hok Hfr. pose proof (reachable_ok _ _ Hrev Hr) as W.
  destruct (exec_effect priv e (inode w) t _ _ Hrev Hok Hfr (world_pre _ _ _ _ _ _ W Hth He)) as (r & Hx & _). eauto.
Qed.

(** Client 2 disconnects while the unlock of client 1 is answering to it. *)
Definition acts_race : list action :=
  acts1 ++ [Arrive (ask 1 1 F_UNLCK 0 10 104); Run 3 (env_at 14)] ++ replicate 4 (Run 3 (env_at 1)) ++
  calls 4 (Cleanup 2) 1.

Lemma inodelk_returns_witness :
  exists r, exec priv0 (env_at 1) (inode (at_end acts_race)) (UnwindGranted 12) = Done r.
Proof.
  apply (inodelk_returns priv0 (at_end acts_race) [[]; []; []] _
           [UnrefGranted [12]; InodeUnref; Notify [12]; Unwind 104 0 0] [[]]).
  - done.
  - apply at_end_reachable. vm_compute. by eexists.
  - vm_compute. reflexivity.
  - done.
  - done.
  - vm_compute. reflexivity.
Defined.

(** No call runs. *)
Definition idle (w : world) : Prop := forall k, k ∈ threads w -> k = [].

Lemma idle_tasks w : idle w -> concat (threads w) = [].
Proof.
  unfold idle. induction (threads w) as [|k ks IH]; intros H; [done|]. cbn. rewrite (H k) by set_solver.
  apply IH. intros k' Hk'. apply H. set_solver.
Qed.

(** C16: References are neither lost nor leaked: in every state that F_SETLK and
    F_SETLKW requests, removals of the file and disconnections of clients reach,
    with their steps interleaved in any way (revocation of locks switched off, no
    orders to clear locks, memory for the stubs of removals, fewer than 2^32
    removals of a file at a time), whenever no call runs, the locks in memory are
    exactly those in the lists of the domains, each in one list and with one
    reference, and the inode has one reference for each of them. *)
Theorem inodelk_accounted priv w :
  revocation_secs priv = 0 -> reachable priv supported stub_ok w -> idle w ->
  (forall x, is_Some (heap (inode w) !! x) <-> x ∈ in_lists (inode w)) /\
  (forall x l, heap (inode w) !! x = Some l -> ref l = 1) /\
  NoDup (in_lists (inode w)) /\ inode_refs (inode w) = Z.of_nat (length (in_lists (inode w))).
Proof.
  intros Hrev Hr Hi. pose proof (w_store _ _ (reachable_ok _ _ Hrev Hr)) as S. rewrite (idle_tasks _ Hi) in S. cbn in S.
  pose proof (s_nodup _ _ _ _ S) as Hn. rewrite app_nil_r in Hn.
  assert (A : forall x, occ x (in_lists (inode w)) = rc (inode w) x).
  { intros x. rewrite <- (s_acct _ _ _ _ S x), app_nil_r. cbn. lia. }
  split_and!; [| |done|].
  - intros x. rewrite occ_elem, A. split; [intros [l Hl]|apply rc_present].
    unfold rc. rewrite Hl. by apply (s_pos _ _ _ _ S x).
  - intros x l Hl. pose proof (s_pos _ _ _ _ S x l Hl). pose proof (occ_nodup x _ Hn) as H1. rewrite A in H1.
    unfold rc in H1. rewrite Hl in H1. lia.
  - rewrite (s_irefs _ _ _ _ S), app_nil_r. lia.
Qed.

Lemma inodelk_accounted_witness : inode_refs (inode (at_end acts2)) = Z.of_nat (length (in_lists (inode (at_end acts2)))).
Proof.
  apply (inodelk_accounted priv0).
  - done.
  - apply at_end_reachable. vm_compute. by eexists.
  - intros k. vm_compute. intros H. repeat (apply elem_of_cons in H as [->|H]; [done|]). by apply elem_of_nil in H.
Defined.

(** ** What waits *)

(** C11: No lock waits for nothing: whenever no call runs, each lock of the queue of a domain conflicts with a granted
    lock of another owner, or with a lock that waits before it, or is a lock of a user while a removal waits. *)
Theorem inodelk_wait_justified priv w d l1 b l2 :
  revocation_secs priv = 0 -> reachable priv supported stub_ok w -> idle w ->
  d ∈ dom_list (inode w) -> blocked_inodelks d = l1 ++ b :: l2 ->
  (exists g, g ∈ inodelk_list d /\ inodelk_conflict (lk (inode w) b) (lk (inode w) g) = true /\
             same_inodelk_owner (lk (inode w) b) (lk (inode w) g) = false) \/
  (exists b', b' ∈ l1 /\ inodelk_conflict (lk (inode w) b) (lk (inode w) b') = true) \/
  (0 <= client_pid (lk (inode w) b) /\ waiting (inode w) <> []).
Proof.
  intros Hrev Hr Hi Hd Hb. pose proof (reachable_ok _ _ Hrev Hr) as W. pose proof (idle_tasks _ Hi) as Ht.
  destruct (w_justified _ _ W d Hd) as [J|Hp]; [|rewrite Ht in Hp; set_solver].
  destruct (J l1 b l2 Hb) as [[Hl Hpid]|[Hg|Hw]]; [|by left|by right; left].
  right; right. split; [done|]. destruct (w_busy _ _ W Hl) as [Hc|[Hc|[s Hs]]]; [|done|]; rewrite Ht in *; [done|set_solver].
Qed.

Lemma inodelk_wait_justified_witness :
  let st := inode (at_end acts1) in
  (exists g, g ∈ [11] /\ inodelk_conflict (lk st 13) (lk st g) = true /\ same_inodelk_owner (lk st 13) (lk st g) = false) \/
  (exists b', b' ∈ [12] /\ inodelk_conflict (lk st 13) (lk st b') = true) \/
  (0 <= client_pid (lk st 13) /\ waiting st <> []).
Proof.
  apply (inodelk_wait_justified priv0 (at_end acts1) (mkdom "afr" [11] [12; 13]) [12] 13 []).
  - done.
  - apply at_end_reachable. vm_compute. by eexists.
  - intros k. vm_compute. intros H. repeat (apply elem_of_cons in H as [->|H]; [done|]). by apply elem_of_nil in H.
  - vm_compute. left.
  - done.
Defined.

(** ** Removals *)

(** C22: While a removal of the file by a client runs, no other client has a lock on it but for internal processes, in
    any domain. *)
Theorem removal_excludes priv w k c x :
  revocation_secs priv = 0 -> reachable priv supported stub_ok w ->
  k ∈ threads w -> RemoveCbk c ∈ k -> granted (inode w) x ->
  client (lk (inode w) x) = c \/ client_pid (lk (inode w) x) < 0.
Proof.
  intros Hrev Hr Hk Hc Hx. pose proof (reachable_ok _ _ Hrev Hr) as W.
  assert (Hin : c ∈ all_of cbk (concat (threads w))).
  { apply all_of_elem. exists (RemoveCbk c). split; [|set_solver]. clear - Hk Hc.
    induction (threads w) as [|k0 ks IH]; [set_solver|]. cbn. set_solver. }
  pose proof (w_removal _ _ W c x Hin Hx) as Hn. unfold keeps_out in Hn. lia.
Qed.

(** Client 1 removes the file that it has locked; client 2 has to wait. *)
Definition acts_remove : list action :=
  calls 0 (ask 1 1 F_WRLCK 0 10 101) 11 ++ [Arrive (Remove (mkstub 1 201)); Run 1 (env_at 1)] ++ calls 3 (ask 2 2 F_RDLCK 50 1 102) 12.

Lemma removal_excludes_witness :
  client (lk (inode (at_end acts_remove)) 11) = 1 \/ client_pid (lk (inode (at_end acts_remove)) 11) < 0.
Proof.
  apply (removal_excludes priv0 (at_end acts_remove) [RemoveCbk 1]).
  - done.
  - apply at_end_reachable. vm_compute. by eexists.
  - vm_compute. right. right. left.
  - left.
  - exists (mkdom "afr" [11] [12]). split; vm_compute; left.
Defined.

(** ** The end of a client *)

(** C36: When [pl_inodelk_client_cleanup] has gone through the list of a client, that client has no lock left, granted
    or waiting, in any domain, though other calls ran between its steps. *)
Theorem cleanup_complete priv w before after_ c next released unwound k x :
  revocation_secs priv = 0 -> reachable priv supported stub_ok w ->
  threads w = before ++ (CleanupLoop c None next released unwound :: k) :: after_ ->
  x ∈ in_lists (inode w) -> client (lk (inode w) x) <> c.
Proof.
  intros Hrev Hr Hth Hx Hc. pose proof (reachable_ok _ _ Hrev Hr) as W.
  pose proof (w_tasks _ _ W (CleanupLoop c None next released unwound)) as T.
  destruct T as (Hc0 & Hh & _); [rewrite Hth, concat_app; cbn; set_solver|].
  assert (Hl : x ∈ lockers (inode w) c) by (by apply (cl_elem _ (w_clients _ _ W))).
  destruct (lockers (inode w) c); [set_solver|done].
Qed.

Definition acts_cleanup : list action := acts1 ++ [Arrive (Cleanup 2)] ++ replicate 3 (Run 3 (env_at 1)).

Lemma cleanup_complete_witness : client (lk (inode (at_end acts_cleanup)) 13) <> 2.
Proof.
  apply (cleanup_complete priv0 (at_end acts_cleanup) [[]; []; []] [] 2 None [] [12] []).
  - done.
  - apply at_end_reachable. vm_compute. by eexists.
  - vm_compute. reflexivity.
  - vm_compute. right. left.
Defined.

(** Neither orders to clear locks nor disconnections. *)
Definition connected (t : task) : bool := supported t && negb (cleans t).

Lemma step_mono priv (allowed allowed' : task -> bool) fair w w' :
  (forall t, allowed t = true -> allowed' t = true) -> step priv allowed fair w w' -> step priv allowed' fair w w'.
Proof. intros Ha [? ? ? ?%Ha|]; by econstructor. Qed.

(** A removal that waits has a lock that keeps it out, and no call ends a client. *)
Definition waits_ok (w : world) : Prop :=
  (forall t, t ∈ concat (threads w) -> cleans t = false) /\
  (forall s, s ∈ waiting (inode w) -> exists x, granted (inode w) x /\ keeps_out (stub_client s) (lk (inode w) x)).

Lemma granted_present st H n x : store [] st H n -> granted st x -> present st x.
Proof.
  intros S Hx. apply (store_present _ _ _ _ _ S). rewrite !elem_of_app. left; left. destruct Hx as (d & Hd & Hx).
  unfold in_lists. clear S. induction (dom_list st) as [|d0 ds IH]; cbn; set_solver.
Qed.

Lemma waits_step priv w w' :
  revocation_secs priv = 0 -> step priv connected stub_ok w w' -> world_ok priv w -> waits_ok w -> waits_ok w'.
Proof.
  intros Hrev [w0 t Ha Hs|w0 e t k before after_ r Hth Hf Hfr _ He Hx w1 Hrun] W [Hc Hw].
  - split; [|done]. intros u. cbn. rewrite concat_app, elem_of_app. intros [Hu|Hu]; [auto|].
    apply list_elem_of_singleton in Hu as ->. apply andb_true_iff in Hs as [_ Hs]. by apply negb_true_iff.
  - destruct (exec_effect priv e (inode w0) t _ _ Hrev Hf Hfr (world_pre _ _ _ _ _ _ W Hth He)) as (r' & Hx' & E).
    rewrite Hx in Hx'. simplify_eq.
    assert (Ht : cleans t = false) by (apply Hc; rewrite Hth, concat_app; cbn; set_solver).
    split.
    + intros u. subst w1. cbn. rewrite !concat_app. cbn. rewrite !concat_app, !elem_of_app. intros Hu.
      assert (u ∈ next_tasks r' ++ concat (spawned r') \/ u ∈ concat (threads w0) \/ exists c, u = Notify c) as [Hu'|[Hu'|[c ->]]].
      { rewrite Hth, concat_app. cbn. rewrite !elem_of_app, elem_of_cons, elem_of_app.
        destruct Hu as [Hu|[[Hu|Hu]|[Hu|Hu]]]; try tauto. apply add_contended_elem in Hu.
        tauto. }
      * by apply (e_cleans _ _ _ _ _ _ E).
      * auto.
      * done.
    + intros s Hs. assert (He' : ends_client t = false) by (by destruct t).
      destruct (e_waiting _ _ _ _ _ _ E s He' Hs) as [Hg|[Hs0 Hg]]; [done|].
      destruct (Hw s Hs0) as (x & Hgx & Hk). exists x. split; [auto|]. revert Hk. apply keeps_out_core.
      apply (e_core _ _ _ _ _ _ E); [by eapply granted_present, Hgx; apply W|].
      eapply granted_present, (Hg x Hgx). apply E.
Qed.

Lemma waits_reachable priv w :
  revocation_secs priv = 0 -> reachable priv connected stub_ok w -> world_ok priv w /\ waits_ok w.
Proof.
  unfold reachable. intros Hrev. revert w. apply (rtc_ind_r (fun w => world_ok priv w /\ waits_ok w)).
  - split; [apply world0_ok|]. split; intros ? H; by apply elem_of_nil in H.
  - intros w1 w2 _ H12 [W Hw]. split; [|by eapply waits_step].
    eapply (world_step priv); [done| |done]. eapply step_mono, H12. by intros t [? _]%andb_true_iff.
Qed.

(** C23: A removal never waits for nothing as long as no client is disconnected: in
    every state that F_SETLK and F_SETLKW requests and removals of the file reach,
    with their steps interleaved in any way (revocation of locks switched off, no
    orders to clear locks, memory for the stubs of removals, fewer than 2^32
    removals of a file at a time), while a removal waits, another client that is not
    an internal process has a granted lock, in whatever state the other calls are.
    (With disconnections a removal may be left waiting, see disconnect_strands_removal.)
    *)
Theorem removal_wait_justified priv w s :
  revocation_secs priv = 0 -> reachable priv connected stub_ok w -> s ∈ waiting (inode w) ->
  exists x, granted (inode w) x /\ client (lk (inode w) x) <> stub_client s /\ 0 <= client_pid (lk (inode w) x).
Proof. intros Hrev Hr. apply (waits_reachable _ _ Hrev Hr). Qed.

(** Client 2 removes the file that client 1 has locked. *)
Definition acts_waits : list action := calls 0 (ask 1 1 F_WRLCK 0 10 101) 11 ++ calls 1 (Remove (mkstub 2 201)) 1.
Definition at_end_connected (l : list action) : world := default world0 (run priv0 connected stub_ok world0 l).

Lemma removal_wait_justified_witness :
  let st := inode (at_end_connected acts_waits) in
  exists x, granted st x /\ client (lk st x) <> 2 /\ 0 <= client_pid (lk st x).
Proof.
  apply (removal_wait_justified priv0 (at_end_connected acts_waits) (mkstub 2 201)).
  - done.
  - apply (run_steps _ _ _ acts_waits). vm_compute. reflexivity.
  - vm_compute. left.
Defined.

(** ** Where the code falls short *)

(** What no call does after a disconnection: the removal of client 2 waits for a lock of client 1 that is gone, and a
    request of client 3 waits for the removal. *)
Definition acts_stranded : list action :=
  acts_waits ++ calls 2 (Cleanup 1) 1 ++ calls 3 (ask 3 3 F_RDLCK 0 0 103) 13.

Lemma disconnect_strands_removal :
  let w := at_end acts_stranded in
  reachable priv0 supported stub_ok w /\ idle w /\ waiting (inode w) = [mkstub 2 201] /\
  dom_list (inode w) = [mkdom "afr" [] [13]].
Proof.
  cbn zeta. split; [apply at_end_reachable; vm_compute; by eexists|]. split; [|by vm_compute].
  intros k. vm_compute. intros H. repeat (apply elem_of_cons in H as [->|H]; [done|]). by apply elem_of_nil in H.
Qed.

Definition at_end_any (l : list action) : world := default world0 (run priv0 (fun _ => true) (fun _ => true) world0 l).

Lemma at_end_any_reachable l :
  is_Some (run priv0 (fun _ => true) (fun _ => true) world0 l) ->
  reachable priv0 (fun _ => true) (fun _ => true) (at_end_any l).
Proof. intros [w E]. unfold at_end_any. rewrite E. by eapply run_steps. Qed.

Definition clear_granted_locks : task := Clear "afr" (mkargs CLRLK_GRANTED (Some None)).

(** An order to clear the granted locks frees the lock and keeps its reference on the inode. *)
Lemma clear_leaks_inode :
  let w := at_end_any (calls 0 (ask 1 1 F_WRLCK 0 10 101) 11 ++ calls 1 clear_granted_locks 1) in
  reachable priv0 (fun _ => true) (fun _ => true) w /\ heap (inode w) = ∅ /\ inode_refs (inode w) = 1.
Proof. cbn zeta. split; [apply at_end_any_reachable; vm_compute; by eexists|by vm_compute]. Qed.

(** An order to clear the granted locks between two steps of a disconnection frees the lock that is next on its way. *)
Definition acts_clear_race : list action :=
  calls 0 (ask 1 1 F_WRLCK 0 10 101) 11 ++ calls 1 (ask 1 1 F_WRLCK 20 10 102) 12 ++
  [Arrive (Cleanup 1); Run 2 (env_at 1); Run 2 (env_at 1)] ++ calls 3 clear_granted_locks 1.

Lemma clear_races_cleanup :
  let w := at_end_any acts_clear_race in
  reachable priv0 (fun _ => true) (fun _ => true) w /\
  threads w !! 2%nat = Some [CleanupNext 1 (Some 12) [11] []] /\
  exec priv0 (env_at 1) (inode w) (CleanupNext 1 (Some 12) [11] []) = Fault.
Proof. cbn zeta. split; [apply at_end_any_reachable; vm_compute; by eexists|]. by vm_compute. Qed.

(** A removal that has to wait and finds no memory for its stub reads the list of contended locks by the wrong member. *)
Lemma remove_without_memory :
  let w := at_end (calls 0 (ask 1 1 F_WRLCK 0 10 101) 11) in
  reachable priv0 supported stub_ok w /\
  exec priv0 (mkenv (100, 0) [] 1 false false) (inode w) (Remove (mkstub 2 201)) = Fault.
Proof. cbn zeta. split; [apply at_end_reachable; vm_compute; by eexists|by vm_compute]. Qed.

(** A request with a command that is not supported leaves its lock behind. *)
Lemma getlk_leaks_lock :
  let w := at_end_any (calls 0 (Inodelk (mkreq "afr" F_GETLK (mkflock F_WRLCK 0 0 10 1 [1]) 1 80000 5 [1] 101)) 11) in
  reachable priv0 (fun _ => true) (fun _ => true) w /\ idle w /\ in_lists (inode w) = [] /\ is_Some (heap (inode w) !! 11).
Proof.
  cbn zeta. split; [apply at_end_any_reachable; vm_compute; by eexists|]. split; [|by vm_compute; eauto].
  intros k. vm_compute. by intros ->%list_elem_of_singleton.
Qed.

(** [pl_inode_remove_inodelk] answers 0 or 1, never an error. *)
Lemma remove_inodelk_no_error st l r : pl_inode_remove_inodelk st l = Done r -> r = 0 \/ r = 1.
Proof.
  unfold pl_inode_remove_inodelk. repeat case_match; intros; simplify_eq; auto.
  destruct (client_has_lock _ _ _) as [[]| |]; simplify_eq/=; auto.
Qed.
